(* ===== verification/_CoqProject ===== *)
-Q . S2P
Prelude.v
Digits.v
Bitmap.v
Mval.v
AddSub.v
Numstr.v
Subscript.v
Zwr.v
Gvsub.v
Double.v
Muldiv.v
Arith.v
Mvalconv.v
Bitstr.v
Probe.v
Hashtab.v
Hashmap.v
Lvnode.v
Avltree.v
Avlops.v
Lvtree.v
Lvmap.v
Lvframe.v
Lvslot.v
Lvar.v
Lvown.v
Lvset.v
Lvorder.v
Lvkill.v
Lvrun.v
Lvprops.v
Gvkey.v
Gdsblk.v
Blkexpand.v
Gvexample.v
Blksearch.v
Blktail.v
Blkprev.v
Blkfuel.v
Gvtree.v
Gvread.v
Gvzip.v
Gvdown.v
Gvsib.v
Gvclue.v
Gvspec.v
Gvprops.v
Gvspan.v
Gvop.v
Gvcode.v
Gvnext.v
Gvopspec.v
Gvquery.v
Gvspanspec.v
Gvopprops.v
Piecespec.v
Piece.v
Piecematch.v
Piececache.v
Pieceset.v
Piececount.v
Piecerun.v
Pieceprops.v
