(* ===== verification/Prelude.v ===== *)
(** A verification of the core data structures and arithmetic of YottaDB.

    YottaDB is an M language runtime over a hierarchical database.  The
    language core computes on cells ([mval] of sr_port/mdef.h) that hold a
    number, a string or both; subscripts of global variables are encoded into
    byte strings whose order is the collating order of M; a global is a B-tree
    of blocks of records, sorted by such keys and compressed, that is searched
    for each reference; the database files record which blocks are in use in
    bitmaps; the runtime keeps its tables
    (symbols, blocks of a transaction, object cache) in hash tables, and the
    subscripted local variables of M in trees of balanced trees.  This library
    models those parts from the C sources and proves what they promise.

    Conventions.  A C integer is a [Z] with its wrap-around ([u8], [i32]) or
    its range ([int4]) written out.  Memory is a list of bytes read and written
    with [rd] and [wr], which fail outside of it, and a C function returns
    [res]: [Ok], an [Err] with the rts_error it raises, [Err GTMASSERT] for a
    failed assertpro or [Err UB] where C leaves the behaviour undefined.  A
    theorem that a function returns [Ok] says therefore also that no access is
    out of bounds and no int4 overflows.  Debug-only code is left out.  Strings
    are in M (byte) mode, the layout of cells that of a 64-bit little-endian
    machine.  Code outside the repository, and the collation libraries that
    the runtime loads, are parameters.

    The files, in the order of their dependencies:

    - Prelude: this vocabulary, its tactics ([zbool], [zcase], [byte_decide]),
      the lemmas on buffers, and [first_such], the reference for every search.
    - Digits: the digits of a number in a base, shared by the decimal codes.
    - Bitmap: sr_port/gdsbml.h, bml_*.c, bm_find_blk.c, bmm_find_free.c,
      gtm_ffs.c, bit_set.c, bit_clear.c.  The state is the bytes of a map.  The
      searches are equal to a search of the block numbers one by one
      ([bml_find_busy_first], [bm_find_blk_first], [bmm_find_free_first]),
      and marking a block changes that block alone ([bml_mark_exact]).
    - Mval: the cell, its integer and floating forms (promodemo.c), the
      MV_FORCE macros, s2n.c, numcmp.c.  [num_value] is the number of a cell
      times 10^60, an integer, and [num_ok] its well-formedness; [numcmp_sign]
      is about them.
    - AddSub (op_add.c), Muldiv (eb_muldiv.c), Arith (op_mul.c, op_div.c,
      op_idiv.c, flt_mod.c): every branch is refined to integer arithmetic on
      [num_value] cut to eighteen digits ([op_add_sub_round], [op_mul_round],
      [op_div_round], [op_idiv_round]), with the exact conditions of NUMOFLOW
      and DIVZERO.  Where the code computes in the C type double, Double models
      it as rounding to 53 bits.
      The theorems are about operands that are numbers.
    - Numstr: n2s.c, val_iscan.c.  Mvalconv: mvalconv.c, mint2mval.c,
      mval2num.c, integers of 32 and 64 bits to cells and back.
    - Bitstr: op_fnzbit*.c, the $ZBIT functions ([zbit_boolean], [built_clean]).
    - Subscript: mval2subsc.c, the encoding of subscripts, byte by byte into the
      buffer of a key: the order of the stored bytes is the collating order
      ([subsc_order]) and nothing is written outside of the buffer, the errors
      included ([mval2subsc_safe]).  Gvsub: gvsub2str.c, the inverse
      ([gvsub2str_roundtrip]).  [no_collation] is the state of a running
      program, TREF(transform) set and a global without a collation sequence
      or numeric collation.
    - Zwr: format2zwr.c and zwr2format.c, a round trip.
    - Probe, Hashtab, Hashmap: hashtab_implementation.h and its expansions.
      Probe is the double hashing: a search ends and visits every slot, since
      the sizes are primes.  Hashtab has the operations over a class of keys,
      their invariant [ht_ok] and a specification of each; Hashmap shows that
      sequences of operations answer as a finite map ([hashtab_refines]).
    - Local variables.  Lvnode: the nodes of lv_tree.h, their keys and the
      comparison macros of lv_tree.c.  Avltree, Avlops: rotations, insertion,
      deletion and walks of lv_tree.c over a heap of nodes linked by addresses,
      related to a tree of addresses ([rep], [tree_wf]).  Lvtree: the lookups
      with the clue of the last one ([lv_wf]).  Lvmap: a tree as a sorted
      association list.  Lvframe: each function of lv_tree.c leaves the rest of
      the heap alone.  Lvslot: lv_getslot.c and lv_newblock.c, slots of blocks
      and free lists ([pool_ok]).  Lvar: the operations of the compiled code,
      op_putindx.c, op_getindx.c, op_srchindx.c, op_fnget.s, op_fnget1.c,
      op_fnget2.c, op_fndata.c, lv_kill.c,
      lv_killarray.c, and in Lvorder op_fnorder.c and op_fnzprevious.c.  A base
      variable is a node whose parent is the symbol table, at the address
      [SYM].  Lvown: a variable as a tree of trees that own their slots
      ([own]).  Lvset, Lvorder and Lvkill: a specification of each operation.
      Lvrun: sequences of operations, with subscripts that the code accepts,
      answer as a function from lists of subscripts to values, LVUNDEF and the
      defaults of $GET included.  Lvprops: the theorems
      ([local_variables_refine], [lookup_is_search], [insert_delete_wf],
      [height_log], [slots_sound], [subscript_stored]), and an example of what
      UNDO_ACTIVE_LV loses ([ex_undo_active_lv]).
    - Globals, the reads.  Gvkey: keys as byte strings, their order and shared
      prefixes ([gkey_ok], [gvlt], [lcp]).  Gdsblk: gdsblk.h, the headers of
      blocks and records; [blk_ok] says that the bytes of a buffer hold a
      sorted list of records, each without the prefix it shares with the one
      before.  Blkexpand: gvcst_expand_key.c, gvcst_expand_key.h, and the part
      of gvcst_blk_search.h that rebuilds the previous key.  Blksearch,
      Blktail, Blkprev, Blkfuel: the four functions of gvcst_blk_search.h; a
      search from the start of a block finds the place of the target in the
      list of records ([gvcst_search_blk_finds]) and ends on any bytes
      ([gvcst_search_blk_ends]), and one that goes on from the place of a
      smaller key finds the same ([gvcst_search_tail_is_search]).
      Gvexample: a small global for the instances.
    - Gvtree: gvcst_search.c, gvcst_rtsib.c, gvcst_lftsib.c and the functions of
      gvt_inline.h that keep the clue.  The state is gv_target: the clue, the
      bounds of its block, the previous key and the history.  Gvzip: trees of
      blocks ([tree_at]) with the list of their records, and the way to a block
      in them.  Gvdown, Gvsib, Gvclue: the search from the root, the blocks
      beside, and the search with the clue; [gvt_ok] is the invariant of the
      state.  Gvread: gvcst_get2, gvcst_data2, gvcst_order2, gvcst_query2 and
      gvcst_zprevious2; Gvspec: each of them as a function of the list of
      records.  Gvprops: [gvcst_search_finds], [gvcst_search_clue].
    - Gvspan: gvcst_get.c, gvcst_data.c, gvcst_order.c, gvcst_query.c and
      gvcst_zprevious.c above those, with spanning nodes, and the macros of
      gdsfhead.h on keys.  Gvop: op_gvget.c, op_gvdata.c, op_gvorder.c,
      op_zprevious.c, op_gvquery.c and format_targ_key.c.  Gvcode, Gvnext: the
      keys of nodes and of their siblings, with the subscripts of Subscript.
      Gvopspec, Gvquery, Gvspanspec: what the operators give, in the collating
      order of Subscript and the text of Gvsub, null subscripts included, for
      a global in one region without a collation and, but for
      [op_gvget_spanning], without spanning nodes.  Gvspanspec also has the
      nodes that hold the single byte of a spanning node and are none.
      [query_walk] calls $QUERY again and again as a program does, with the
      null flag that op_gvname would set.  Gvopprops: the theorems
      ([op_gvorder_next], [op_zprevious_prev], [op_gvquery_next],
      [query_walk_visits], [op_gvget_value], [op_gvget_spanning],
      [op_gvdata_value]).
    - Pieces of strings.  Piece: op_fnzpiece.c, op_fnzp1.c, op_setzpiece.c,
      op_setzp1.c, op_fnzpopulation.c, op_fnzfind of op_fnfind.c, matchb of
      matchc.c and op_cat.c for two strings, over the string pool and the cache
      of pieces of fnpc.h.  Piecespec: the same on lists of bytes.  Piecematch:
      matchb.  Piececache: what a line of the cache says about the string it
      was made for ([area_ok]), and op_fnzp1.  Pieceset, Piececount: SET
      $ZPIECE and $ZLENGTH.  Piecerun: sequences of operations on cells, copies
      and runs of the collector.  Pieceprops: the theorems
      ([piece_operations_refine], [zpiece_value], [set_then_get]).

    How the parts interact: AddSub, Arith, Mvalconv, Bitstr and Subscript call
    the conversions of Mval and Numstr as the C code does through the MV_FORCE
    macros; Gvsub composes with Subscript and Numstr in its round trip;
    Hashtab marks its bits with [bit_set] of Bitmap; the operators on globals
    search for keys that Subscript encodes and give the text of those that
    Gvsub decodes, so that their theorems compose the order of the bytes, the
    search and the round trip; subscripts of local
    variables go through the conversions of Mval and Numstr, and their
    comparison is that of the numbers of the cells.  The operations on pieces
    share the cache, through the number of a line that each cell carries.

    Fuel and bounds.  Recursion is structural on a count, on the bytes of a
    string or on the slots of a table wherever the C loop counts.  The loops on
    the digits of a number (n2s, mval2subsc, gvsub2str, eb_muldiv, mvalconv)
    take as fuel a bound on the digits of the type, nine to twenty; the probe
    loop of a hash table takes its number of slots, and the searches of the
    bitmaps the bytes of the map.  Running out of fuel is an error that no
    correct result has, so that each specification, which states an [Ok] result
    from the preconditions alone, shows the fuel to be enough;
    [probe_terminates] states it by itself for the hash tables.  In the trees of
    local variables the loops along a path take one more than the number of
    nodes of the heap ([hfuel]; [height_log] gives the bound of a lookup), the
    recursion of lv_killarray twice the number of nodes and trees ([kfuel]), and
    the loop of lv_kill one more than the number of trees.  The loops in a
    database block take one more than the bytes of the block, and those on a
    key the bytes of its buffer; a search in a tree goes down as many levels as
    the root block says, at most MAX_BT_DEPTH.  The loops on
    pieces take one more than the bytes of the memory, which each pass goes on
    in; the recursion of $ZLENGTH takes three, one more than FNPC_RECURR_MAX.

    Parameters of the reads of a global.  [t_qread] gives the bytes of a block;
    [clue_valid] tells whether the blocks of a history are as they were, which
    the code reads off the buffer cache; [base_diff] is the distance of two
    buffers in memory, which matters for one comparison of pointers (see
    Blktail).  The theorems take a [t_qread] whose blocks hold a tree, any
    [clue_valid], and a [base_diff] that is larger than a key.  A status that
    restarts the read (t_retry) is an error [CDB_SC] of the model, and the
    theorems show that no such error comes from a well-formed tree.

    Not modelled: UTF-8 mode; of local variables the alias containers, the
    copies made for a transaction (lvAvlTreeCloneSubTree), the collation
    libraries, $QUERY, MERGE and the symbol tables; of globals SET and KILL
    (gvcst_put.c, gvcst_kill.c), the private blocks and the concurrent changes
    that gvcst_search.c handles, globals in several regions, the operators on
    names, gvcst_dataget.c and gvcst_queryget.c; $PIECE and the other functions
    on characters; transactions (t_end.c, tp_tend.c), journaling, replication and triggers, whose
    behaviour depends on shared memory and recovery protocols; the lock
    manager; device I/O; the compiler and code generator; the utilities MUPIP,
    DSE, LKE and GDE; the M sources, the assembler and the generated tables.

    The rest of this file is the shared vocabulary: C integer widths, checked
    byte buffers, reflection of statements about one byte by evaluation over
    the 256 values, the reference search [first_such], and the tactics and hint
    databases of the other files. *)

From stdpp Require Import base list numbers option tactics.
From Stdlib Require Import ZArith Lia Zquot.

Open Scope Z_scope.

(** * C integers *)

Definition u8 (z : Z) : Z := z mod 256.
Definition u16 (z : Z) : Z := z mod 65536.
Definition u32 (z : Z) : Z := z mod 4294967296.
Definition s8 (z : Z) : Z := (z + 128) mod 256 - 128.
Definition i32 (z : Z) : Z := (z + 2147483648) mod 4294967296 - 2147483648.

Definition byte_ok (b : Z) : Prop := 0 <= b < 256.
Definition bytes_ok (l : list Z) : Prop := Forall byte_ok l.

#[global] Instance byte_ok_dec b : Decision (byte_ok b).
Proof. unfold byte_ok. apply _. Defined.
#[global] Instance bytes_ok_dec l : Decision (bytes_ok l).
Proof. unfold bytes_ok. apply _. Defined.

(** * Checked buffers *)

Definition rd (m : list Z) (i : Z) : option Z :=
  if i <? 0 then None else m !! Z.to_nat i.

Definition wr (m : list Z) (i v : Z) : option (list Z) :=
  if (i <? 0) || (Z.of_nat (length m) <=? i) then None
  else Some (<[Z.to_nat i := v]> m).

Definition zlen {A} (l : list A) : Z := Z.of_nat (length l).

(** * Results of C functions

    [Ok] is a normal return, [Err] an rts_error ([GTMASSERT] a failed assertpro),
    and [Err UB] an operation C leaves undefined: an index outside a table, an [int4] that overflows.
    [Err OUT_OF_FUEL] ends a loop that the model does not follow further; no C result corresponds to it.
    [Err OUT_OF_SCOPE] ends a branch that the model leaves out (alias containers).
    [Err (CDB_SC status)] is a return of a database routine with another status
    than cdb_sc_normal; its callers restart the operation or handle the status. *)

Inductive cdb_sc : Set :=
| cdb_sc_badoffset | cdb_sc_blklenerr | cdb_sc_blkmod | cdb_sc_rmisalign | cdb_sc_r2small
| cdb_sc_mkblk | cdb_sc_keyoflow | cdb_sc_endtree | cdb_sc_badlvl | cdb_sc_maxlvl
| cdb_sc_delete_parent | cdb_sc_rdfail | cdb_sc_spansize.

Inductive error : Set :=
| ERR_NUMOFLOW | ERR_DIVZERO | ERR_LVUNDEF | ERR_ZYSQLNULLNOTVALID | ERR_GVSUBOFLOW
| ERR_INVBITSTR | ERR_INVBITPOS | ERR_INVBITLEN | ERR_MAXSTRLEN
| ERR_MEMORY | ERR_HTOFLOW | ERR_LVNULLSUBS
| ERR_NULSUBSC | ERR_GVUNDEF | ERR_UNIMPLOP
| GTMASSERT | UB | OUT_OF_FUEL | OUT_OF_SCOPE
| CDB_SC (status : cdb_sc).

Inductive res (A : Type) : Type :=
| Ok (a : A)
| Err (err : error).
Arguments Ok {A} a.
Arguments Err {A} err.

#[export] Instance res_bind : MBind res := fun A B f r =>
  match r with Ok a => f a | Err err => Err err end.

Definition res_of {A} (o : option A) : res A :=
  match o with Some a => Ok a | None => Err UB end.

(** A byte, and [n] bytes, of a buffer. *)
Definition rd8 (m : list Z) (i : Z) : res Z := res_of (rd m i).
Definition rd_list (m : list Z) (i n : Z) : res (list Z) :=
  if (0 <=? i) && (0 <=? n) && (i + n <=? zlen m) then Ok (take (Z.to_nat n) (drop (Z.to_nat i) m)) else Err UB.

(** The value of a C expression of type int4. *)
Definition int4 (z : Z) : res Z :=
  if (-2147483648 <=? z) && (z <? 2147483648) then Ok z else Err UB.

Lemma int4_ok z : -2147483648 <= z < 2147483648 -> int4 z = Ok z.
Proof.
  intros. unfold int4.
  by replace ((-2147483648 <=? z) && (z <? 2147483648)) with true
    by (symmetry; apply andb_true_intro; split; [apply Z.leb_le|apply Z.ltb_lt]; lia).
Qed.

Lemma int4_inv z r : int4 z = Ok r -> r = z /\ -2147483648 <= z < 2147483648.
Proof.
  unfold int4. destruct ((-2147483648 <=? z) && (z <? 2147483648)) eqn:E; [|done].
  intros [= <-]. apply andb_true_iff in E as [E1%Z.leb_le E2%Z.ltb_lt]. lia.
Qed.

Lemma res_bind_inv {A B} (r : res A) (f : A -> res B) b :
  (r ≫= f) = Ok b -> exists a, r = Ok a /\ f a = Ok b.
Proof. destruct r as [a|]; [|done]. by exists a. Qed.

Lemma res_bind_ok {A B} (f : A -> res B) a : (Ok a ≫= f) = f a.
Proof. done. Qed.

(** * Tactics *)

Create HintDb ydb discriminated.
Create HintDb bytes discriminated.

Ltac zbool :=
  repeat match goal with
  | H : (_ && _) = true |- _ => apply andb_true_iff in H; destruct H
  | H : (_ || _) = false |- _ => apply orb_false_iff in H; destruct H
  | H : negb _ = true |- _ => apply negb_true_iff in H
  | H : negb _ = false |- _ => apply negb_false_iff in H
  | H : (_ <? _) = true |- _ => apply Z.ltb_lt in H
  | H : (_ <? _) = false |- _ => apply Z.ltb_ge in H
  | H : (_ <=? _) = true |- _ => apply Z.leb_le in H
  | H : (_ <=? _) = false |- _ => apply Z.leb_gt in H
  | H : (_ =? _) = true |- _ => apply Z.eqb_eq in H
  | H : (_ =? _) = false |- _ => apply Z.eqb_neq in H
  end.

(** Case analysis on the conditions of the goal, conditions turned to [Prop]. *)
Ltac zcase :=
  match goal with
  | |- context [if ?c then _ else _] => destruct c eqn:?; zbool
  end.

Ltac zif_true :=
  match goal with
  | |- context [if ?c then _ else _] =>
      replace c with true by (symmetry; zbool_goal)
  end
with zif_false :=
  match goal with
  | |- context [if ?c then _ else _] =>
      replace c with false by (symmetry; zbool_goal)
  end
with zbool_goal :=
  repeat match goal with
  | |- (_ && _) = true => apply andb_true_intro; split
  | |- (_ || _) = false => apply orb_false_intro
  | |- negb _ = true => apply negb_true_iff
  | |- negb _ = false => apply negb_false_iff
  | |- (_ <? _) = true => apply Z.ltb_lt
  | |- (_ <? _) = false => apply Z.ltb_ge
  | |- (_ <=? _) = true => apply Z.leb_le
  | |- (_ <=? _) = false => apply Z.leb_gt
  | |- (_ =? _) = true => apply Z.eqb_eq
  | |- (_ =? _) = false => apply Z.eqb_neq
  end; try lia.

(** A decidable statement about closed terms, by evaluation. *)
Ltac by_compute :=
  match goal with |- ?P => apply (bool_decide_unpack P); vm_compute; exact I end.

(** * Lemmas on checked buffers *)

Lemma zlen_nonneg {A} (l : list A) : 0 <= zlen l.
Proof. unfold zlen. lia. Qed.

Lemma zlen_app {A} (l k : list A) : zlen (l ++ k) = zlen l + zlen k.
Proof. unfold zlen. rewrite length_app. lia. Qed.

Lemma zlen_cons {A} (x : A) l : zlen (x :: l) = 1 + zlen l.
Proof. unfold zlen. simpl. lia. Qed.

Lemma rd_Some_range m i b : rd m i = Some b -> 0 <= i < zlen m.
Proof.
  unfold rd, zlen. zcase; [done|]. intros H%lookup_lt_Some. lia.
Qed.

Lemma rd_in_range m i : 0 <= i < zlen m -> exists b, rd m i = Some b.
Proof.
  unfold rd, zlen. intros H. zif_false.
  apply lookup_lt_is_Some_2. lia.
Qed.

Lemma rd_bytes_ok m i b : bytes_ok m -> rd m i = Some b -> byte_ok b.
Proof.
  intros Hm. unfold rd. zcase; [done|]. intros H.
  eapply Forall_lookup_1 in H; eauto.
Qed.

Lemma rd_byte m i :
  bytes_ok m -> 0 <= i < zlen m -> exists b, rd m i = Some b /\ byte_ok b.
Proof.
  intros Hm Hi. destruct (rd_in_range m i Hi) as [b Hb].
  eauto using rd_bytes_ok.
Qed.

Lemma wr_in_range m i v :
  0 <= i < zlen m -> wr m i v = Some (<[Z.to_nat i := v]> m).
Proof. unfold wr, zlen. intros. by zif_false. Qed.

Lemma wr_Some m i v m' :
  wr m i v = Some m' -> 0 <= i < zlen m /\ m' = <[Z.to_nat i := v]> m.
Proof. unfold wr, zlen. zcase; [done|]. intros [= <-]. split; [lia|done]. Qed.

Lemma rd_insert m i j v :
  0 <= i < zlen m -> 0 <= j ->
  rd (<[Z.to_nat i := v]> m) j = if i =? j then Some v else rd m j.
Proof.
  unfold rd, zlen. intros Hi Hj. zif_false. zcase.
  - subst. apply list_lookup_insert_eq. lia.
  - apply list_lookup_insert_ne. lia.
Qed.

Lemma zlen_insert {A} (m : list A) k v : zlen (<[k := v]> m) = zlen m.
Proof. unfold zlen. by rewrite length_insert. Qed.

Lemma bytes_ok_insert m k v : bytes_ok m -> byte_ok v -> bytes_ok (<[k := v]> m).
Proof. intros. by apply Forall_insert. Qed.

Lemma rd_nil i : rd [] i = None.
Proof. unfold rd. by zcase. Qed.

Lemma rd_cons_0 b l : rd (b :: l) 0 = Some b.
Proof. done. Qed.

Lemma rd_cons_S b l i : 0 <= i -> rd (b :: l) (i + 1) = rd l i.
Proof.
  intros. unfold rd. zif_false. zif_false.
  by replace (Z.to_nat (i + 1)) with (S (Z.to_nat i)) by lia.
Qed.

Lemma rd_app_l l k i : i < zlen l -> rd (l ++ k) i = rd l i.
Proof.
  intros. unfold rd, zlen in *. zcase; [done|].
  apply lookup_app_l. lia.
Qed.

Lemma rd_app_r l k i : zlen l <= i -> rd (l ++ k) i = rd k (i - zlen l).
Proof.
  intros. unfold rd, zlen in *. zif_false. zif_false.
  rewrite lookup_app_r by lia. f_equal. lia.
Qed.

Lemma rd_mid l x k i : i = zlen l -> rd (l ++ x :: k) i = Some x.
Proof. intros ->. rewrite rd_app_r by lia. by rewrite Z.sub_diag. Qed.

Lemma wr_mid l x k i v : i = zlen l -> wr (l ++ x :: k) i v = Some (l ++ v :: k).
Proof.
  intros ->. rewrite wr_in_range.
  - unfold zlen. rewrite Nat2Z.id, insert_app_r_alt, Nat.sub_diag by lia. done.
  - rewrite zlen_app, zlen_cons. pose proof (zlen_nonneg l). pose proof (zlen_nonneg k). lia.
Qed.

Lemma rd_nat l i : rd l (Z.of_nat i) = l !! i.
Proof. unfold rd. zif_false. by rewrite Nat2Z.id. Qed.

Lemma rd_list_spec m off n l : 0 <= off -> off + Z.of_nat n <= zlen m -> take n (drop (Z.to_nat off) m) = l ->
  rd_list m off (Z.of_nat n) = Ok l.
Proof.
  intros Ho Hn E. unfold rd_list.
  assert ((0 <=? off) && (0 <=? Z.of_nat n) && (off + Z.of_nat n <=? zlen m) = true) as -> by zbool_goal.
  by rewrite Nat2Z.id, E.
Qed.

#[export] Hint Resolve zlen_nonneg bytes_ok_insert : ydb.

(** * One byte at a time: decide by evaluation *)

Definition all_bytes (P : Z -> bool) : bool := forallb P (seqZ 0 256).

Lemma all_bytes_spec P b : all_bytes P = true -> byte_ok b -> P b = true.
Proof.
  unfold all_bytes. rewrite forallb_forall. intros H Hb. apply H.
  apply list_elem_of_In, elem_of_seqZ. unfold byte_ok in Hb. lia.
Qed.

(** [byte_decide b H] proves a boolean statement about the byte [b]
    ([H : byte_ok b]) by evaluating it on the 256 byte values. *)
Ltac byte_decide b H :=
  match goal with
  | |- ?e = true =>
      let P := eval pattern b in e in
      match P with
      | ?f _ => change (f b = true); apply (all_bytes_spec f b);
                [vm_compute; reflexivity | exact H]
      end
  end.

(** * Reference search *)

Fixpoint first_such (P : Z -> bool) (i : Z) (n : nat) : option Z :=
  match n with
  | O => None
  | S n' => if P i then Some i else first_such P (i + 1) n'
  end.

Lemma first_such_app P i n m :
  first_such P i (n + m) =
  match first_such P i n with
  | Some x => Some x
  | None => first_such P (i + Z.of_nat n) m
  end.
Proof.
  revert i. induction n as [|n IH]; intros i; simpl.
  - f_equal. lia.
  - destruct (P i); [done|]. rewrite IH. by replace (i + 1 + Z.of_nat n) with (i + Z.of_nat (S n)) by lia.
Qed.

Lemma first_such_Some P i n r :
  first_such P i n = Some r ->
  i <= r < i + Z.of_nat n /\ P r = true /\ forall j, i <= j < r -> P j = false.
Proof.
  revert i. induction n as [|n IH]; intros i; simpl; [done|].
  destruct (P i) eqn:E.
  - intros [= <-]. split; [lia|]. split; [done|]. intros; lia.
  - intros H%IH. destruct H as (? & ? & Hj). split; [lia|]. split; [done|].
    intros j Hij. destruct (decide (j = i)) as [->|]; [done|]. apply Hj. lia.
Qed.

Lemma first_such_None P i n :
  first_such P i n = None -> forall j, i <= j < i + Z.of_nat n -> P j = false.
Proof.
  revert i. induction n as [|n IH]; intros i; simpl; [intros; lia|].
  destruct (P i) eqn:E; [done|]. intros H j Hj.
  destruct (decide (j = i)) as [->|]; [done|]. eapply IH; eauto. lia.
Qed.

Lemma first_such_intro P i n r :
  i <= r < i + Z.of_nat n -> P r = true -> (forall j, i <= j < r -> P j = false) ->
  first_such P i n = Some r.
Proof.
  revert i. induction n as [|n IH]; intros i Hr HP Hj; simpl; [lia|].
  destruct (decide (r = i)) as [->|]; [by rewrite HP|].
  rewrite (Hj i) by lia. apply IH; [lia|done|]. intros; apply Hj; lia.
Qed.

Lemma first_such_intro_None P i n :
  (forall j, i <= j < i + Z.of_nat n -> P j = false) -> first_such P i n = None.
Proof.
  revert i. induction n as [|n IH]; intros i Hj; simpl; [done|].
  rewrite (Hj i) by lia. apply IH. intros; apply Hj; lia.
Qed.

Lemma first_such_ext P Q i n :
  (forall j, i <= j < i + Z.of_nat n -> P j = Q j) -> first_such P i n = first_such Q i n.
Proof.
  revert i. induction n as [|n IH]; intros i H; simpl; [done|].
  rewrite (H i) by lia. destruct (Q i); [done|]. apply IH. intros; apply H; lia.
Qed.

(** The search for [Q] in a window is the search in a larger range of a
    predicate that is [Q] inside the window and false outside of it. *)
Lemma first_such_window P Q i n a k :
  i <= a -> a + Z.of_nat k <= i + Z.of_nat n ->
  (forall j, i <= j < i + Z.of_nat n ->
     P j = Q j && ((a <=? j) && (j <? a + Z.of_nat k))) ->
  first_such P i n = first_such Q a k.
Proof.
  intros Ha Hk HP. destruct (first_such Q a k) as [r|] eqn:E.
  - apply first_such_Some in E as (Hr & HQ & Hj). apply first_such_intro; [lia|..].
    + rewrite HP, HQ by lia. by zbool_goal.
    + intros j Hjr. rewrite HP by lia. destruct (Z.leb_spec a j); [|by rewrite andb_false_r].
      by rewrite Hj by lia.
  - pose proof (first_such_None _ _ _ E) as Hj. apply first_such_intro_None.
    intros j Hjr. rewrite HP by lia.
    destruct (Z.leb_spec a j), (Z.ltb_spec j (a + Z.of_nat k)); rewrite ?andb_false_r; try done.
    by rewrite Hj by lia.
Qed.

(** * The order of byte strings: by bytes, then the shorter one first *)

Fixpoint lexcmp (a b : list Z) : comparison :=
  match a, b with
  | [], [] => Eq
  | [], _ :: _ => Lt
  | _ :: _, [] => Gt
  | x :: a', y :: b' => match x ?= y with Eq => lexcmp a' b' | c => c end
  end.

Definition thenc (c d : comparison) : comparison := match c with Eq => d | _ => c end.

Lemma lexcmp_cons x y a b : lexcmp (x :: a) (y :: b) = thenc (x ?= y) (lexcmp a b).
Proof. simpl. by destruct (x ?= y). Qed.

Lemma lexcmp_same x a b : lexcmp (x :: a) (x :: b) = lexcmp a b.
Proof. by rewrite lexcmp_cons, Z.compare_refl. Qed.

Lemma thenc_assoc a b c : thenc (thenc a b) c = thenc a (thenc b c).
Proof. by destruct a. Qed.

Lemma lexcmp_refl a : lexcmp a a = Eq.
Proof. induction a; simpl; [done|]. by rewrite Z.compare_refl. Qed.

Lemma lexcmp_eq a b : lexcmp a b = Eq -> a = b.
Proof.
  revert b. induction a as [|x a IH]; intros [|y b]; simpl; try done.
  destruct (Z.compare_spec x y) as [->| |]; try done. intros H. f_equal. by apply IH.
Qed.

Lemma lexcmp_antisym a b : lexcmp b a = CompOpp (lexcmp a b).
Proof.
  revert b. induction a as [|x a IH]; intros [|y b]; simpl; try done.
  rewrite (Z.compare_antisym x y). by destruct (x ?= y); simpl.
Qed.

Lemma lexcmp_trans a b c : lexcmp a b = Lt -> lexcmp b c = Lt -> lexcmp a c = Lt.
Proof.
  revert b c. induction a as [|x a IH]; intros [|y b] [|z c]; simpl; try done.
  destruct (Z.compare_spec x y), (Z.compare_spec y z); try done; intros;
    destruct (Z.compare_spec x z); subst; try done; try lia; eauto.
Qed.
