(* ===== verification/Digits.v ===== *)
(** Digits of a number in a base [B], from the top: all [n] of them ([digs]),
    or up to the last that is not zero ([sdigs]). *)

From stdpp Require Import base list numbers option tactics.
From Stdlib Require Import ZArith Lia.
From S2P Require Import Prelude.

Open Scope Z_scope.

Section Base.
Context (B : Z).

Fixpoint digs (n : nat) (m : Z) : list Z :=
  match n with
  | O => []
  | S n' => m / B ^ Z.of_nat n' :: digs n' (m mod B ^ Z.of_nat n')
  end.

Fixpoint sdigs (n : nat) (m : Z) : list Z :=
  match n with
  | O => []
  | S n' => if m =? 0 then [] else m / B ^ Z.of_nat n' :: sdigs n' (m mod B ^ Z.of_nat n')
  end.

Context (HB : 2 <= B).

Lemma bpow_pos n : 0 <= n -> 0 < B ^ n.
Proof. intros. apply Z.pow_pos_nonneg; lia. Qed.

Lemma bpow_S n : B ^ Z.of_nat (S n) = B * B ^ Z.of_nat n.
Proof. rewrite Nat2Z.inj_succ, Z.pow_succ_r by lia. done. Qed.

(** Division of [q * B^j + w], digit group by digit group. *)
Lemma div_group n q w j :
  0 <= j -> 0 <= n -> 0 <= w < B ^ j ->
  (q * B ^ j + w) / B ^ (n + j) = q / B ^ n /\
  (q * B ^ j + w) mod B ^ (n + j) = q mod B ^ n * B ^ j + w.
Proof.
  intros Hj Hn Hw. pose proof (bpow_pos j Hj). pose proof (bpow_pos n Hn).
  rewrite Z.pow_add_r by lia. set (P := B ^ j) in *. set (N := B ^ n) in *.
  pose proof (Z.div_mod q N ltac:(lia)). pose proof (Z.mod_pos_bound q N ltac:(lia)).
  split; symmetry.
  - apply Z.div_unique with (q mod N * P + w); nia.
  - apply Z.mod_unique with (q / N); nia.
Qed.

Lemma digs_app n j q w :
  0 <= q < B ^ Z.of_nat n -> 0 <= w < B ^ Z.of_nat j ->
  digs (n + j) (q * B ^ Z.of_nat j + w) = digs n q ++ digs j w.
Proof.
  revert q. induction n as [|n IH]; intros q Hq Hw.
  { simpl in Hq. replace q with 0 by lia. done. }
  cbn [digs Nat.add app]. rewrite Nat2Z.inj_add.
  destruct (div_group (Z.of_nat n) q w (Z.of_nat j)) as [-> ->]; [lia..|].
  f_equal. apply IH; [|done]. apply Z.mod_pos_bound, bpow_pos. lia.
Qed.

Lemma sdigs_app n j q w :
  0 <= q < B ^ Z.of_nat n -> 0 < w < B ^ Z.of_nat j ->
  sdigs (n + j) (q * B ^ Z.of_nat j + w) = digs n q ++ sdigs j w.
Proof.
  revert q. induction n as [|n IH]; intros q Hq Hw.
  { simpl in Hq. replace q with 0 by lia. done. }
  cbn [sdigs digs Nat.add app]. pose proof (bpow_pos (Z.of_nat j)).
  replace (q * B ^ Z.of_nat j + w =? 0) with false by (symmetry; apply Z.eqb_neq; nia).
  rewrite Nat2Z.inj_add. destruct (div_group (Z.of_nat n) q w (Z.of_nat j)) as [-> ->]; [lia..|].
  f_equal. apply IH; [|done]. apply Z.mod_pos_bound, bpow_pos. lia.
Qed.

Lemma sdigs_0 n : sdigs n 0 = [].
Proof. by destruct n. Qed.

Lemma sdigs_zeros n j m :
  0 <= m < B ^ Z.of_nat n -> sdigs (n + j) (m * B ^ Z.of_nat j) = sdigs n m.
Proof.
  revert m. induction n as [|n IH]; intros m Hm.
  { simpl in Hm. replace m with 0 by lia. by rewrite Z.mul_0_l, sdigs_0. }
  cbn [sdigs Nat.add]. pose proof (bpow_pos (Z.of_nat j)).
  destruct (Z.eqb_spec m 0) as [->|]; [done|].
  replace (m * B ^ Z.of_nat j =? 0) with false by (symmetry; apply Z.eqb_neq; nia).
  rewrite Nat2Z.inj_add. destruct (div_group (Z.of_nat n) m 0 (Z.of_nat j)) as [E1 E2]; [lia..|].
  rewrite !Z.add_0_r in *. rewrite E1, E2. f_equal. apply IH.
  apply Z.mod_pos_bound, bpow_pos. lia.
Qed.

Lemma sdigs_1 r : 0 < r < B -> sdigs 1 r = [r].
Proof.
  intros. simpl. replace (r =? 0) with false by (symmetry; apply Z.eqb_neq; lia).
  by rewrite Z.div_1_r.
Qed.

Lemma sdigs_snoc k m r :
  0 <= m < B ^ Z.of_nat k -> 0 <= r < B ->
  sdigs (S k) (m * B + r) = if r =? 0 then sdigs k m else digs k m ++ [r].
Proof.
  intros Hm Hr. replace (S k) with (k + 1)%nat by lia.
  replace (m * B + r) with (m * B ^ Z.of_nat 1 + r) by (simpl; lia).
  destruct (Z.eqb_spec r 0) as [->|]; [rewrite Z.add_0_r; by apply sdigs_zeros|].
  rewrite sdigs_app, sdigs_1 by (simpl; lia). done.
Qed.

Lemma digs_snoc k m :
  0 <= m < B ^ Z.of_nat (S k) -> digs (S k) m = digs k (m / B) ++ [m mod B].
Proof.
  intros Hm. pose proof (Z.div_mod m B ltac:(lia)). pose proof (Z.mod_pos_bound m B ltac:(lia)).
  rewrite bpow_S in Hm. pose proof (bpow_pos (Z.of_nat k)).
  replace m with (m / B * B ^ Z.of_nat 1 + m mod B) at 1 by (simpl; lia).
  replace (S k) with (k + 1)%nat by lia. rewrite digs_app.
  - f_equal. simpl. by rewrite Z.div_1_r.
  - split; [apply Z.div_pos; lia|]. apply Z.div_lt_upper_bound; lia.
  - simpl. lia.
Qed.

Lemma digs_range n m : 0 <= m < B ^ Z.of_nat n -> Forall (fun d => 0 <= d < B) (digs n m).
Proof.
  revert m. induction n as [|n IH]; intros m Hm; [constructor|]. cbn [digs].
  pose proof (bpow_pos (Z.of_nat n)). rewrite bpow_S in Hm. constructor.
  - split; [apply Z.div_pos; lia|]. apply Z.div_lt_upper_bound; lia.
  - apply IH, Z.mod_pos_bound. lia.
Qed.

Lemma sdigs_range n m : 0 <= m < B ^ Z.of_nat n -> Forall (fun d => 0 <= d < B) (sdigs n m).
Proof.
  revert m. induction n as [|n IH]; intros m Hm; [constructor|]. cbn [sdigs].
  destruct (m =? 0); [constructor|]. pose proof (bpow_pos (Z.of_nat n)).
  rewrite bpow_S in Hm. constructor.
  - split; [apply Z.div_pos; lia|]. apply Z.div_lt_upper_bound; lia.
  - apply IH, Z.mod_pos_bound. lia.
Qed.

Lemma digs_length n m : length (digs n m) = n.
Proof. revert m. induction n as [|n IH]; intros m; simpl; [done|]. by rewrite IH. Qed.

Lemma sdigs_length n m : (length (sdigs n m) <= n)%nat.
Proof.
  revert m. induction n as [|n IH]; intros m; cbn [sdigs]; [done|].
  destruct (m =? 0); cbn [length]; [lia|]. specialize (IH (m mod B ^ Z.of_nat n)). lia.
Qed.

(** The low digits are dropped by division. *)
Lemma digs_split n j m :
  0 <= m < B ^ Z.of_nat (n + j) ->
  digs (n + j) m = digs n (m / B ^ Z.of_nat j) ++ digs j (m mod B ^ Z.of_nat j).
Proof.
  intros Hm. pose proof (bpow_pos (Z.of_nat j)). pose proof (bpow_pos (Z.of_nat n)).
  rewrite Nat2Z.inj_add, Z.pow_add_r in Hm by lia.
  pose proof (Z.div_mod m (B ^ Z.of_nat j) ltac:(lia)).
  pose proof (Z.mod_pos_bound m (B ^ Z.of_nat j) ltac:(lia)).
  rewrite <- digs_app; [|split; [apply Z.div_pos|apply Z.div_lt_upper_bound]; lia|lia]. f_equal. lia.
Qed.

Lemma digs_0 n : digs n 0 = replicate n 0.
Proof.
  induction n as [|n IH]; [done|]. cbn [digs replicate]. pose proof (bpow_pos (Z.of_nat n)).
  by rewrite Z.div_0_l, Z.mod_0_l, IH by lia.
Qed.

(** [m] has exactly [k] digits. *)
Definition ndigs (k : nat) (m : Z) : Prop :=
  match k with O => m = 0 | S k' => B ^ Z.of_nat k' <= m < B ^ Z.of_nat k end.

Lemma ndigs_range k m : ndigs k m -> 0 <= m < B ^ Z.of_nat k.
Proof. destruct k; simpl; [intros ->; done|]. pose proof (bpow_pos (Z.of_nat k)). lia. Qed.

Lemma ndigs_div k m : ndigs (S k) m -> ndigs k (Z.quot m B).
Proof.
  unfold ndigs. intros H. pose proof (bpow_pos (Z.of_nat k)). rewrite bpow_S in H.
  rewrite Z.quot_div_nonneg by lia. destruct k as [|k].
  - simpl in H. apply Z.div_small. lia.
  - pose proof (bpow_S k). split; [apply Z.div_le_lower_bound|apply Z.div_lt_upper_bound]; lia.
Qed.

End Base.
