(* ===== verification/Bitmap.v ===== *)
(** Local and master bitmaps of a database file: two bits per block in a local
    bitmap block (sr_port/gdsbml.h, bml_*.c, bm_find_blk.c), one bit per local
    bitmap in the master map (bmm_find_free.c, gtm_ffs.c), over the single-bit
    primitives bit_set.c and bit_clear.c.  A map is the byte buffer that
    starts at the C base address; [None] is an access outside of it. *)

From stdpp Require Import base list numbers option tactics.
From Stdlib Require Import ZArith Lia.
From S2P Require Import Prelude.

Open Scope Z_scope.

(** * Constants of gdsbml.h *)

Definition BLK_BUSY : Z := 0.
Definition BLK_FREE : Z := 1.
Definition BLK_MAPINVALID : Z := 2.
Definition BLK_RECYCLED : Z := 3.
Definition BML_BITS_PER_BLK : Z := 2.
Definition BITS_PER_UCHAR : Z := 8.
Definition THREE_BLKS_BITMASK : Z := 63.
Definition TWO_BLKS_BITMASK : Z := 15.
Definition ONE_BLK_BITMASK : Z := 3.
Definition FOUR_BLKS_FREE : Z := 85.
Definition THREE_BLKS_FREE : Z := 84.
Definition LCL_MAP_LEVL : Z := 255.
Definition NO_FREE_SPACE : Z := -1.
Definition MAX_FFS_SIZE : Z := 32.

Definition DIVIDE_ROUND_UP (value modulus : Z) : Z := Z.quot (value + (modulus - 1)) modulus.
Definition ROUND_DOWN2 (value modulus : Z) : Z := Z.land value (Z.lnot (modulus - 1)).
Definition ROUND_UP2 (value modulus : Z) : Z := Z.land (value + (modulus - 1)) (Z.lnot (modulus - 1)).

(** * Single bits *)

Definition bit_clear (bit : Z) (base : list Z) : option (Z * list Z) :=
  let ptr := Z.quot bit 8 in
  b ← rd base ptr;
  let retval := Z.land (Z.shiftl 1 (Z.land bit 7)) b in
  base' ← wr base ptr (Z.land b (Z.lnot (Z.shiftl 1 (Z.land bit 7))));
  Some (Z.b2z (negb (retval =? 0)), base').

Definition bit_set (bit : Z) (base : list Z) : option (Z * list Z) :=
  let ptr := Z.quot bit 8 in
  b ← rd base ptr;
  let retval := Z.land (Z.shiftl 1 (Z.land bit 7)) b in
  base' ← wr base ptr (Z.lor b (Z.shiftl 1 (Z.land bit 7)));
  Some (Z.b2z (negb (retval =? 0)), base').

(** * Status of one block *)

Definition GET_BM_STATUS (map : list Z) (blknum : Z) : option Z :=
  b ← rd map (Z.quot (blknum * BML_BITS_PER_BLK) BITS_PER_UCHAR);
  Some (Z.land (Z.shiftr b (Z.rem (blknum * BML_BITS_PER_BLK) BITS_PER_UCHAR))
               (Z.shiftl 1 BML_BITS_PER_BLK - 1)).

Definition SET_BM_STATUS (map : list Z) (blknum new_bml_status : Z) : option (list Z) :=
  let ptr := Z.quot (blknum * BML_BITS_PER_BLK) BITS_PER_UCHAR in
  let sh := Z.rem (blknum * BML_BITS_PER_BLK) BITS_PER_UCHAR in
  b ← rd map ptr;
  wr map ptr (Z.lor (Z.land b (Z.lnot (Z.shiftl 3 sh)))
                    (Z.shiftl (Z.land new_bml_status 3) sh)).

Definition bml_busy (setbusy : Z) (map : list Z) : option (Z * list Z) :=
  let setbusy := setbusy * BML_BITS_PER_BLK in
  '(ret, map1) ← bit_clear setbusy map;
  '(_, map2) ← bit_clear (setbusy + 1) map1;
  Some (ret, map2).

Definition bml_free (setfree : Z) (map : list Z) : option (Z * list Z) :=
  let setfree := setfree * BML_BITS_PER_BLK in
  '(ret, map1) ← bit_set setfree map;
  '(_, map2) ← bit_clear (setfree + 1) map1;
  Some (ret, map2).

Definition bml_recycled (setfree : Z) (map : list Z) : option (Z * list Z) :=
  let setfree := setfree * BML_BITS_PER_BLK in
  '(ret, map1) ← bit_set setfree map;
  '(_, map2) ← bit_set (setfree + 1) map1;
  Some (ret, map2).

(** * A new local bitmap block *)

Record blk_hdr := mk_blk_hdr { bver : Z; bsiz : Z; levl : Z; tn : Z }.

Definition bml_newmap (gdsvcurr sizeof_blk_hdr size curr_tn : Z) : blk_hdr * list Z :=
  (mk_blk_hdr gdsvcurr size LCL_MAP_LEVL curr_tn,
   let size := size - sizeof_blk_hdr in
   THREE_BLKS_FREE :: replicate (Z.to_nat (size - 1)) FOUR_BLKS_FREE).

(** * Searching a local bitmap for a block that is not busy *)

(** RETURN_IF_FREE: [None] when the macro falls through. *)
Definition RETURN_IF_FREE (valid ptr : Z) : option Z :=
  if negb (valid =? 0) then
    let bits := if THREE_BLKS_BITMASK <? valid then 3
                else if TWO_BLKS_BITMASK <? valid then 2
                else if ONE_BLK_BITMASK <? valid then 1
                else 0 in
    Some (ptr * Z.quot BITS_PER_UCHAR BML_BITS_PER_BLK + bits)
  else None.

(** The loop [for (; ptr < top; ptr++) RETURN_IF_FREE]; [n] is [top - ptr]. *)
Fixpoint bml_find_free_loop (n : nat) (ptr : Z) (base_addr : list Z) : option (option Z) :=
  match n with
  | O => Some None
  | S n' =>
      valid ← rd base_addr ptr;
      match RETURN_IF_FREE valid ptr with
      | Some r => Some (Some r)
      | None => bml_find_free_loop n' (ptr + 1) base_addr
      end
  end.

(** The bits of the last byte that belong to blocks of the map. *)
Definition last_byte_valid (bits b : Z) : Z :=
  if bits =? 6 then Z.land b THREE_BLKS_BITMASK
  else if bits =? 4 then Z.land b TWO_BLKS_BITMASK
  else if bits =? 2 then Z.land b ONE_BLK_BITMASK
  else b.

Definition bml_find_free (hint : Z) (base_addr : list Z) (total_bits : Z) : option Z :=
  let hint := hint * BML_BITS_PER_BLK in
  let hint := Z.quot hint BITS_PER_UCHAR in
  let total_bits := total_bits * BML_BITS_PER_BLK in
  let hint := if DIVIDE_ROUND_UP total_bits BITS_PER_UCHAR <? hint then 0 else hint in
  let top := DIVIDE_ROUND_UP total_bits BITS_PER_UCHAR - 1 in
  r1 ← bml_find_free_loop (Z.to_nat (top - hint)) hint base_addr;
  match r1 with
  | Some r => Some r
  | None =>
      let ptr := Z.max hint top in
      b ← rd base_addr ptr;
      let valid := if negb (b =? 0) then last_byte_valid (Z.rem total_bits BITS_PER_UCHAR) b else 0 in
      match RETURN_IF_FREE valid ptr with
      | Some r => Some r
      | None =>
          if negb (hint =? 0) then
            r2 ← bml_find_free_loop (Z.to_nat hint) 0 base_addr;
            match r2 with
            | Some r => Some r
            | None => Some NO_FREE_SPACE
            end
          else Some NO_FREE_SPACE
      end
  end.

(** * Searching a local bitmap for a busy block *)

(** The four tests of the forward scan: a busy block at or after [hint]. *)
Definition busy_from_hint (b ptr hint : Z) : option Z :=
  let base := ptr * Z.quot 8 BML_BITS_PER_BLK in
  if (Z.land b 3 =? 0) && (hint <=? base) then Some base
  else if (Z.land b 12 =? 0) && (hint <=? base + 1) then Some (base + 1)
  else if (Z.land b 48 =? 0) && (hint <=? base + 2) then Some (base + 2)
  else if (Z.land b 192 =? 0) && (hint <=? base + 3) then Some (base + 3)
  else None.

(** The tests on the last byte, whose fourth test also checks [total_blks]. *)
Definition busy_in_last (valid ptr hint total_blks : Z) : option Z :=
  let base := ptr * Z.quot 8 BML_BITS_PER_BLK in
  if (Z.land valid 3 =? 0) && (hint <=? base) then Some base
  else if (Z.land valid 12 =? 0) && (hint <=? base + 1) then Some (base + 1)
  else if (Z.land valid 48 =? 0) && (hint <=? base + 2) then Some (base + 2)
  else if (Z.land valid 192 =? 0) && ((hint <=? base + 3) && (base + 3 <=? total_blks))
       then Some (base + 3)
  else None.

(** The tests after the wrap, without a hint. *)
Definition busy_any (b ptr : Z) : option Z :=
  let base := ptr * Z.quot 8 BML_BITS_PER_BLK in
  if Z.land b 3 =? 0 then Some base
  else if Z.land b 12 =? 0 then Some (base + 1)
  else if Z.land b 48 =? 0 then Some (base + 2)
  else if Z.land b 192 =? 0 then Some (base + 3)
  else None.

(** A scan of [n] bytes from [ptr] with a per-byte test. *)
Fixpoint byte_scan (test : Z -> Z -> option Z) (n : nat) (ptr : Z) (base_addr : list Z)
    : option (option Z) :=
  match n with
  | O => Some None
  | S n' =>
      b ← rd base_addr ptr;
      match test b ptr with
      | Some r => Some (Some r)
      | None => byte_scan test n' (ptr + 1) base_addr
      end
  end.

Definition bml_find_busy (hint : Z) (base_addr : list Z) (total_blks : Z) : option Z :=
  let hint_pos := hint * BML_BITS_PER_BLK in
  let total_bits := total_blks * BML_BITS_PER_BLK in
  let hint_pos := if total_bits <=? hint_pos then 0 else hint_pos in
  let hint_pos := Z.quot hint_pos 8 in
  let top := Z.quot (total_bits + 7) 8 - 1 in
  r1 ← byte_scan (fun b ptr => busy_from_hint b ptr hint) (Z.to_nat (top - hint_pos)) hint_pos base_addr;
  match r1 with
  | Some r => Some r
  | None =>
      let ptr := Z.max hint_pos top in
      b ← rd base_addr ptr;
      let bits := Z.rem total_bits 8 in
      let valid := if bits =? 6 then Z.lor b 192
                   else if bits =? 4 then Z.lor b 240
                   else if bits =? 2 then Z.lor b 252
                   else b in
      match busy_in_last valid ptr hint total_blks with
      | Some r => Some r
      | None =>
          r2 ← byte_scan busy_any (Z.to_nat hint_pos) 0 base_addr;
          match r2 with
          | Some r => Some r
          | None =>
              let ptr := hint_pos in
              b ← rd base_addr ptr;
              let bits := Z.rem hint 4 in
              let valid := if bits =? 3 then Z.lor b 192
                           else if bits =? 2 then Z.lor b 240
                           else if bits =? 1 then Z.lor b 252
                           else b in
              match busy_any valid ptr with
              | Some r => Some r
              | None => Some (-1)
              end
          end
      end
  end.

(** * Searching a local bitmap from a hint, without wrapping *)

(** The decode of a byte with a bit set: the block and whether it is recycled. *)
Definition blk_of_valid (valid ptr : Z) : Z * bool :=
  let base := ptr * Z.quot 8 BML_BITS_PER_BLK in
  if negb (Z.land valid 1 =? 0) then (base, negb (Z.land valid 2 =? 0))
  else if negb (Z.land valid 4 =? 0) then (base + 1, negb (Z.land valid 8 =? 0))
  else if negb (Z.land valid 16 =? 0) then (base + 2, negb (Z.land valid 32 =? 0))
  else (base + 3, negb (Z.land valid 128 =? 0)).

Fixpoint bm_find_blk_loop (n : nat) (ptr : Z) (base_addr : list Z) : option (option (Z * bool)) :=
  match n with
  | O => Some None
  | S n' =>
      b ← rd base_addr ptr;
      if negb (b =? 0) then Some (Some (blk_of_valid b ptr))
      else bm_find_blk_loop n' (ptr + 1) base_addr
  end.

(** The part under [if (hint)]: the byte of the hint, blocks before it masked. *)
Definition bm_find_blk_hint (hint : Z) (base_addr : list Z) (total_bits : Z) : option (option (Z * bool)) :=
  let ptr := Z.quot (hint * BML_BITS_PER_BLK) 8 in
  let top := Z.quot (total_bits + 7) 8 - 1 in
  b ← rd base_addr ptr;
  let valid := if ptr =? top then last_byte_valid (Z.rem total_bits 8) b else b in
  let k := Z.rem hint (Z.quot 8 BML_BITS_PER_BLK) in
  let valid := if k =? 0 then valid
               else if k =? 1 then Z.land valid 252
               else if k =? 2 then Z.land valid 240
               else if k =? 3 then Z.land valid 192
               else valid in
  if negb (valid =? 0) then Some (Some (blk_of_valid valid ptr)) else Some None.

(** The scan to the end of the map from byte [ptr], the last byte masked. *)
Definition bm_find_blk_rest (ptr : Z) (base_addr : list Z) (total_bits : Z) (used : bool) : option (Z * bool) :=
  let top := Z.quot (total_bits + 7) 8 - 1 in
  r ← bm_find_blk_loop (Z.to_nat (top - ptr)) ptr base_addr;
  match r with
  | Some res => Some res
  | None =>
      let ptr := Z.max ptr top in
      if ptr =? top then
        b ← rd base_addr ptr;
        if negb (b =? 0) then
          let valid := last_byte_valid (Z.rem total_bits 8) b in
          if negb (valid =? 0) then Some (blk_of_valid valid ptr) else Some (NO_FREE_SPACE, used)
        else Some (NO_FREE_SPACE, used)
      else Some (NO_FREE_SPACE, used)
  end.

(** The result and the final value of [*used], [used] being its initial one. *)
Definition bm_find_blk (hint : Z) (base_addr : list Z) (total_bits : Z) (used : bool) : option (Z * bool) :=
  let total_bits := total_bits * BML_BITS_PER_BLK in
  if negb (hint =? 0) then
    r ← bm_find_blk_hint hint base_addr total_bits;
    match r with
    | Some res => Some res
    | None =>
        bm_find_blk_rest (Z.quot (hint * BML_BITS_PER_BLK) 8 + 1) base_addr total_bits used
    end
  else bm_find_blk_rest 0 base_addr total_bits used.

(** * Finding a set bit in the master map *)

(** The bits of the byte at [c] from bit [i]: at most [n] of them. *)
Fixpoint ffs_bits (n : nat) (addr : list Z) (c i answer : Z) : option (option Z) :=
  match n with
  | O => Some None
  | S n' =>
      b ← rd addr c;
      if negb (Z.land b (Z.shiftl 1 i) =? 0) then Some (Some answer)
      else ffs_bits n' addr c (i + 1) (answer + 1)
  end.

(** The full bytes: [n] bytes from [c], the first bit of [c] being bit [i]. *)
Fixpoint ffs_bytes (n : nat) (addr : list Z) (c i : Z) : option (option Z) :=
  match n with
  | O => Some None
  | S n' =>
      b ← rd addr c;
      if negb (b =? 0) then
        r ← ffs_bits 8 addr c 0 i;
        match r with
        | Some a => Some (Some a)
        | None => ffs_bytes n' addr (c + 1) (i + BITS_PER_UCHAR)
        end
      else ffs_bytes n' addr (c + 1) (i + BITS_PER_UCHAR)
  end.

Definition gtm_ffs (offset : Z) (addr : list Z) (size : Z) : option Z :=
  let c := Z.quot offset BITS_PER_UCHAR in
  let i := Z.land offset (BITS_PER_UCHAR - 1) in
  r1 ← (if negb (i =? 0)
        then ffs_bits (Z.to_nat (Z.min (BITS_PER_UCHAR - i) size)) addr c i offset
        else Some None);
  match r1 with
  | Some a => Some a
  | None =>
      let c := if negb (i =? 0) then c + 1 else c in
      let i := ROUND_UP2 offset BITS_PER_UCHAR in
      let top := ROUND_DOWN2 (size + offset) BITS_PER_UCHAR in
      let n := Z.quot (top - i) BITS_PER_UCHAR in
      r2 ← ffs_bytes (Z.to_nat n) addr c i;
      match r2 with
      | Some a => Some a
      | None =>
          let c := c + Z.max 0 n in
          let i := i + BITS_PER_UCHAR * Z.max 0 n in
          r3 ← ffs_bits (Z.to_nat (size + offset - i)) addr c 0 i;
          match r3 with
          | Some a => Some a
          | None => Some (-1)
          end
      end
  end.

(** The inner loop of bmm_find_free; [None] when [fuel] runs out. *)
Fixpoint bmm_inner (fuel : nat) (start width top : Z) (base_addr : list Z) : option (option Z) :=
  match fuel with
  | O => None
  | S fuel' =>
      if 0 <? width then
        answer ← gtm_ffs start base_addr width;
        if negb (answer =? NO_FREE_SPACE) then Some (Some answer)
        else
          let start := start + width in
          bmm_inner fuel' start (Z.min (top - start) MAX_FFS_SIZE) top base_addr
      else Some None
  end.

(** The outer loop: at most two passes, from the hint and from the beginning. *)
Fixpoint bmm_outer (fuel : nat) (start top hint : Z) (base_addr : list Z) : option Z :=
  match fuel with
  | O => None
  | S fuel' =>
      if negb (top =? 0) then
        let width := Z.min top (ROUND_DOWN2 start MAX_FFS_SIZE + MAX_FFS_SIZE) - start in
        r ← bmm_inner (S (Z.to_nat (top - start))) start width top base_addr;
        match r with
        | Some a => Some a
        | None => bmm_outer fuel' 0 hint 0 base_addr
        end
      else Some NO_FREE_SPACE
  end.

Definition bmm_find_free (hint : Z) (base_addr : list Z) (total_bits : Z) : option Z :=
  let hint := if total_bits <=? hint then 0 else hint in
  bmm_outer 3 hint total_bits hint base_addr.

(** * Fields of a byte *)

(** The status of the [k]-th block of a byte of a local bitmap. *)
Definition field (b k : Z) : Z := Z.land (Z.shiftr b (2 * k)) 3.

Definition is_busy (m : list Z) (i : Z) : bool :=
  match GET_BM_STATUS m i with Some s => s =? BLK_BUSY | None => false end.

Definition not_busy (m : list Z) (i : Z) : bool :=
  match GET_BM_STATUS m i with Some s => negb (s =? BLK_BUSY) | None => false end.

(** Statement about a byte and one of its four fields, by evaluation. *)
Lemma byte_field_cases (P : Z -> Z -> bool) b k :
  all_bytes (fun b => forallb (P b) [0; 1; 2; 3]) = true ->
  byte_ok b -> 0 <= k < 4 -> P b k = true.
Proof.
  intros H Hb Hk. pose proof (all_bytes_spec _ b H Hb) as Hf.
  rewrite forallb_forall in Hf. apply Hf.
  assert (k = 0 \/ k = 1 \/ k = 2 \/ k = 3) as [-> | [-> | [-> | ->]]] by lia; simpl; auto.
Qed.

Ltac field_decide b k :=
  match goal with
  | |- ?e = true =>
      let P := eval pattern b, k in e in
      match P with
      | ?f _ _ => change (f b k = true); apply (byte_field_cases f b k);
                  [vm_compute; reflexivity | try done | try lia]
      end
  end.

Lemma split4 i : exists p k, i = 4 * p + k /\ 0 <= k < 4.
Proof.
  exists (i / 4), (i mod 4). split; [apply Z.div_mod; lia | apply Z.mod_pos_bound; lia].
Qed.

Lemma quot_blk p k : 0 <= p -> 0 <= k < 4 ->
  Z.quot ((4 * p + k) * BML_BITS_PER_BLK) BITS_PER_UCHAR = p.
Proof.
  intros. unfold BML_BITS_PER_BLK, BITS_PER_UCHAR.
  rewrite Z.quot_div_nonneg by lia. symmetry. apply Z.div_unique with (2 * k); lia.
Qed.

Lemma rem_blk p k : 0 <= p -> 0 <= k < 4 ->
  Z.rem ((4 * p + k) * BML_BITS_PER_BLK) BITS_PER_UCHAR = 2 * k.
Proof.
  intros. unfold BML_BITS_PER_BLK, BITS_PER_UCHAR.
  rewrite Z.rem_mod_nonneg by lia. symmetry. apply Z.mod_unique with p; lia.
Qed.

Lemma status_field m p k b :
  rd m p = Some b -> 0 <= k < 4 -> GET_BM_STATUS m (4 * p + k) = Some (field b k).
Proof.
  intros Hb Hk. pose proof (rd_Some_range _ _ _ Hb).
  unfold GET_BM_STATUS. rewrite quot_blk, rem_blk by lia. by rewrite Hb.
Qed.

Lemma status_Some_range m i s : 0 <= i -> GET_BM_STATUS m i = Some s -> 0 <= i < 4 * zlen m.
Proof.
  intros Hi. destruct (split4 i) as (p & k & -> & Hk). unfold GET_BM_STATUS.
  rewrite quot_blk by lia. destruct (rd m p) eqn:E; [|done].
  apply rd_Some_range in E. lia.
Qed.

Lemma is_busy_field m p k b :
  rd m p = Some b -> 0 <= k < 4 -> is_busy m (4 * p + k) = (field b k =? 0).
Proof. intros. unfold is_busy. by erewrite status_field. Qed.

Lemma not_busy_field m p k b :
  rd m p = Some b -> 0 <= k < 4 -> not_busy m (4 * p + k) = negb (field b k =? 0).
Proof. intros. unfold not_busy. by erewrite status_field. Qed.

Lemma not_busy_negb m i : 0 <= i < 4 * zlen m -> not_busy m i = negb (is_busy m i).
Proof.
  intros Hi. destruct (split4 i) as (p & k & -> & Hk).
  destruct (rd_in_range m p) as [b Hb]; [lia|].
  by rewrite (not_busy_field _ _ _ b), (is_busy_field _ _ _ b).
Qed.

(** * Marking a block *)

(** [op] sets the two bits of a block to [st], as SET_BM_STATUS does, keeps
    every other block and returns the old low bit. *)
Definition marks (op : Z -> list Z -> option (Z * list Z)) (st : Z) : Prop :=
  forall m blk s, bytes_ok m -> 0 <= blk -> GET_BM_STATUS m blk = Some s ->
  exists m', op blk m = Some (Z.land s 1, m') /\ SET_BM_STATUS m blk st = Some m' /\
    bytes_ok m' /\ zlen m' = zlen m /\ GET_BM_STATUS m' blk = Some st /\
    forall j, 0 <= j -> j <> blk -> GET_BM_STATUS m' j = GET_BM_STATUS m j.

Lemma bit_index_quot p k e : 0 <= p -> 0 <= k < 4 -> 0 <= e < 2 ->
  Z.quot ((4 * p + k) * BML_BITS_PER_BLK + e) 8 = p.
Proof.
  intros. unfold BML_BITS_PER_BLK.
  rewrite Z.quot_div_nonneg by lia. symmetry. apply Z.div_unique with (2 * k + e); lia.
Qed.

Lemma bit_index_land p k e : 0 <= p -> 0 <= k < 4 -> 0 <= e < 2 ->
  Z.land ((4 * p + k) * BML_BITS_PER_BLK + e) 7 = 2 * k + e.
Proof.
  intros. change 7 with (Z.ones 3). rewrite Z.land_ones by lia.
  unfold BML_BITS_PER_BLK. symmetry. apply Z.mod_unique with p; simpl; lia.
Qed.

Lemma marks_intro op st (f : Z -> Z -> Z) :
  0 <= st < 4 ->
  (forall m p k b, rd m p = Some b -> byte_ok b -> 0 <= k < 4 ->
     op (4 * p + k) m = Some (Z.land (field b k) 1, <[Z.to_nat p := f b k]> m)) ->
  all_bytes (fun b => forallb (fun k =>
     (f b k =? Z.lor (Z.land b (Z.lnot (Z.shiftl 3 (2 * k)))) (Z.shiftl (Z.land st 3) (2 * k)))
     && ((0 <=? f b k) && (f b k <? 256)) && (field (f b k) k =? st)
     && forallb (fun j => (j =? k) || (field (f b k) j =? field b j)) [0;1;2;3]) [0;1;2;3]) = true ->
  marks op st.
Proof.
  intros Hst Hop Hall m blk s Hm Hblk Hs.
  pose proof (status_Some_range _ _ _ Hblk Hs) as Hr.
  destruct (split4 blk) as (p & k & -> & Hk).
  destruct (rd_byte m p Hm) as (b & Hb & Hbok); [lia|].
  rewrite (status_field _ _ _ b) in Hs by done. injection Hs as <-.
  pose proof (byte_field_cases _ b k Hall Hbok Hk) as HF. cbv beta in HF. zbool.
  assert (Hp : 0 <= p < zlen m) by lia.
  assert (Hget : rd (<[Z.to_nat p := f b k]> m) p = Some (f b k)).
  { rewrite rd_insert by lia. by rewrite Z.eqb_refl. }
  eexists. split; [by apply Hop|]. split.
  { unfold SET_BM_STATUS. rewrite quot_blk, rem_blk, Hb by lia. simpl.
    rewrite wr_in_range by lia. by f_equal; f_equal. }
  split; [apply bytes_ok_insert; [done|unfold byte_ok; lia]|].
  split; [apply zlen_insert|]. split; [by rewrite (status_field _ _ _ (f b k)); [f_equal|..]|].
  intros j Hj Hne. destruct (split4 j) as (q & l & -> & Hl).
  destruct (decide (q = p)) as [->|Hq].
  - rewrite (status_field _ _ _ (f b k)), (status_field _ _ _ b) by done.
    assert (In l [0;1;2;3]) as Hin by (simpl; lia).
    match goal with H : forallb _ _ = true |- _ => rewrite forallb_forall in H; specialize (H l Hin) end.
    apply orb_true_iff in H0 as [E|E]; zbool; [lia|by f_equal].
  - unfold GET_BM_STATUS. rewrite quot_blk by lia. rewrite rd_insert by lia. by zif_false.
Qed.

Lemma bit_op_Some (f : Z -> Z -> Z) m p b i :
  rd m p = Some b ->
  (base' ← wr m p (f b i); Some (Z.b2z (negb (Z.land (Z.shiftl 1 i) b =? 0)), base'))
  = Some (Z.b2z (negb (Z.land (Z.shiftl 1 i) b =? 0)), <[Z.to_nat p := f b i]> m).
Proof. intros Hb. rewrite wr_in_range; [done|]. eauto using rd_Some_range. Qed.

Lemma bit_clear_eq m p k e b :
  rd m p = Some b -> 0 <= k < 4 -> 0 <= e < 2 ->
  bit_clear ((4 * p + k) * BML_BITS_PER_BLK + e) m =
  Some (Z.b2z (negb (Z.land (Z.shiftl 1 (2 * k + e)) b =? 0)),
        <[Z.to_nat p := Z.land b (Z.lnot (Z.shiftl 1 (2 * k + e)))]> m).
Proof.
  intros Hb Hk He. pose proof (rd_Some_range _ _ _ Hb).
  unfold bit_clear. rewrite bit_index_quot, bit_index_land, Hb by lia.
  by apply (bit_op_Some (fun b i => Z.land b (Z.lnot (Z.shiftl 1 i)))).
Qed.

Lemma bit_set_eq m p k e b :
  rd m p = Some b -> 0 <= k < 4 -> 0 <= e < 2 ->
  bit_set ((4 * p + k) * BML_BITS_PER_BLK + e) m =
  Some (Z.b2z (negb (Z.land (Z.shiftl 1 (2 * k + e)) b =? 0)),
        <[Z.to_nat p := Z.lor b (Z.shiftl 1 (2 * k + e))]> m).
Proof.
  intros Hb Hk He. pose proof (rd_Some_range _ _ _ Hb).
  unfold bit_set. rewrite bit_index_quot, bit_index_land, Hb by lia.
  by apply (bit_op_Some (fun b i => Z.lor b (Z.shiftl 1 i))).
Qed.

Lemma old_bit b k : byte_ok b -> 0 <= k < 4 ->
  Z.b2z (negb (Z.land (Z.shiftl 1 (2 * k + 0)) b =? 0)) = Z.land (field b k) 1.
Proof. intros. apply Z.eqb_eq. unfold field. field_decide b k. Qed.

(** The two single-bit operations in sequence. *)
Ltac two_bits first_eq second_eq :=
  intros m p k b Hb Hok Hk; pose proof (rd_Some_range _ _ _ Hb);
  unfold bml_busy, bml_free, bml_recycled;
  rewrite <- (Z.add_0_r ((4 * p + k) * BML_BITS_PER_BLK)) at 1;
  rewrite (first_eq m p k 0 b) by (done || lia); cbn [mbind option_bind];
  erewrite second_eq; [| rewrite rd_insert by lia; rewrite Z.eqb_refl; reflexivity | lia | lia];
  cbn [mbind option_bind]; rewrite list_insert_insert_eq, old_bit by done; reflexivity.

Lemma marks_busy : marks bml_busy BLK_BUSY.
Proof.
  eapply (marks_intro _ _ (fun b k => Z.land (Z.land b (Z.lnot (Z.shiftl 1 (2 * k + 0))))
                                             (Z.lnot (Z.shiftl 1 (2 * k + 1)))));
    [unfold BLK_BUSY; lia | two_bits bit_clear_eq bit_clear_eq | vm_compute; reflexivity].
Qed.

Lemma marks_free : marks bml_free BLK_FREE.
Proof.
  eapply (marks_intro _ _ (fun b k => Z.land (Z.lor b (Z.shiftl 1 (2 * k + 0)))
                                             (Z.lnot (Z.shiftl 1 (2 * k + 1)))));
    [unfold BLK_FREE; lia | two_bits bit_set_eq bit_clear_eq | vm_compute; reflexivity].
Qed.

Lemma marks_recycled : marks bml_recycled BLK_RECYCLED.
Proof.
  eapply (marks_intro _ _ (fun b k => Z.lor (Z.lor b (Z.shiftl 1 (2 * k + 0)))
                                            (Z.shiftl 1 (2 * k + 1))));
    [unfold BLK_RECYCLED; lia | two_bits bit_set_eq bit_set_eq | vm_compute; reflexivity].
Qed.

(** * The scans as reference searches *)

(** A per-byte test that is the reference search over the four blocks of each
    byte makes the scan the reference search over all of them. *)
Lemma byte_scan_first_such (P : Z -> bool) test m n p :
  0 <= p -> p + Z.of_nat n <= zlen m ->
  (forall q b, p <= q < p + Z.of_nat n -> rd m q = Some b -> test b q = first_such P (4 * q) 4) ->
  byte_scan test n p m = Some (first_such P (4 * p) (4 * n)).
Proof.
  revert p. induction n as [|n IH]; intros p Hp Hn Ht; [done|].
  cbn [byte_scan]. destruct (rd_in_range m p) as [b Hb]; [lia|].
  rewrite Hb. cbn [mbind option_bind]. rewrite (Ht p b) by (done || lia).
  replace (4 * S n)%nat with (4 + 4 * n)%nat by lia. rewrite first_such_app.
  destruct (first_such P (4 * p) 4); [done|].
  rewrite IH by (lia || (intros; apply Ht; [lia|done])).
  f_equal. f_equal. lia.
Qed.

Lemma first_such_4 P i :
  first_such P i 4 = if P i then Some i else if P (i + 1) then Some (i + 1)
                     else if P (i + 2) then Some (i + 2) else if P (i + 3) then Some (i + 3) else None.
Proof.
  simpl. replace (i + 1 + 1) with (i + 2) by lia. by replace (i + 2 + 1) with (i + 3) by lia.
Qed.

Lemma field_masks b : byte_ok b ->
  (Z.land b 3 =? 0) = (field b 0 =? 0) /\ (Z.land b 12 =? 0) = (field b 1 =? 0) /\
  (Z.land b 48 =? 0) = (field b 2 =? 0) /\ (Z.land b 192 =? 0) = (field b 3 =? 0).
Proof.
  intros Hb. repeat split; apply Bool.eqb_prop; unfold field; byte_decide b Hb.
Qed.

Lemma busy_fields m q b (P : Z -> bool) :
  rd m q = Some b ->
  (forall k, 0 <= k < 4 -> P (4 * q + k) = is_busy m (4 * q + k)) ->
  P (4 * q) = (field b 0 =? 0) /\ P (4 * q + 1) = (field b 1 =? 0) /\
  P (4 * q + 2) = (field b 2 =? 0) /\ P (4 * q + 3) = (field b 3 =? 0).
Proof.
  intros Hb HP. rewrite <- (Z.add_0_r (4 * q)) at 1.
  rewrite !HP, !(is_busy_field _ _ _ b) by (done || lia). done.
Qed.

Lemma quot84 q : q * Z.quot 8 BML_BITS_PER_BLK = 4 * q.
Proof. change (Z.quot 8 BML_BITS_PER_BLK) with 4. lia. Qed.

Lemma busy_from_hint_spec m q b hint :
  bytes_ok m -> rd m q = Some b ->
  busy_from_hint b q hint = first_such (fun i => is_busy m i && (hint <=? i)) (4 * q) 4.
Proof.
  intros Hm Hb. pose proof (rd_bytes_ok _ _ _ Hm Hb) as Hok.
  destruct (field_masks b Hok) as (E0 & E1 & E2 & E3).
  destruct (busy_fields m q b _ Hb (fun _ _ => eq_refl)) as (F0 & F1 & F2 & F3).
  unfold busy_from_hint. rewrite quot84, first_such_4, E0, E1, E2, E3, F0, F1, F2, F3. done.
Qed.

Lemma busy_any_spec m q b :
  bytes_ok m -> rd m q = Some b -> busy_any b q = first_such (is_busy m) (4 * q) 4.
Proof.
  intros Hm Hb. pose proof (rd_bytes_ok _ _ _ Hm Hb) as Hok.
  destruct (field_masks b Hok) as (E0 & E1 & E2 & E3).
  destruct (busy_fields m q b _ Hb (fun _ _ => eq_refl)) as (F0 & F1 & F2 & F3).
  unfold busy_any. rewrite quot84, first_such_4, E0, E1, E2, E3, F0, F1, F2, F3. done.
Qed.

(** Setting the fields from [n] on hides those blocks from the busy test. *)
Definition or_mask (n b : Z) : Z :=
  if n =? 3 then Z.lor b 192 else if n =? 2 then Z.lor b 240 else if n =? 1 then Z.lor b 252 else b.

Lemma or_mask_fields n b : byte_ok b -> 0 <= n < 4 ->
  byte_ok (or_mask n b) /\
  forall k, 0 <= k < 4 -> (field (or_mask n b) k =? 0) = (field b k =? 0) && ((n =? 0) || (k <? n)).
Proof.
  intros Hb Hn.
  assert (HH : forallb (fun k => (0 <=? or_mask n b) && (or_mask n b <? 256) &&
     Bool.eqb (field (or_mask n b) k =? 0) ((field b k =? 0) && ((n =? 0) || (k <? n)))) [0;1;2;3] = true)
    by field_decide b n.
  rewrite forallb_forall in HH. split.
  - specialize (HH 0 ltac:(simpl; auto)). zbool. unfold byte_ok. lia.
  - intros k Hk. assert (In k [0;1;2;3]) as Hin by (simpl; lia).
    specialize (HH k Hin). zbool. by apply Bool.eqb_prop.
Qed.

(** [m] with the fields from [n] on of byte [q] set. *)
Lemma or_mask_is_busy m q b n i :
  bytes_ok m -> rd m q = Some b -> 0 <= n < 4 -> 4 * q <= i < 4 * q + 4 ->
  (field (or_mask n b) (i - 4 * q) =? 0) = is_busy m i && ((n =? 0) || (i <? 4 * q + n)).
Proof.
  intros Hm Hb Hn Hi. pose proof (rd_bytes_ok _ _ _ Hm Hb) as Hok.
  destruct (or_mask_fields n b Hok Hn) as [_ HF]. rewrite HF by lia.
  assert (is_busy m i = (field b (i - 4 * q) =? 0)) as ->.
  { rewrite <- (is_busy_field m q _ b) by (done || lia). f_equal. lia. }
  do 2 f_equal. destruct (Z.ltb_spec (i - 4 * q) n), (Z.ltb_spec i (4 * q + n)); lia || done.
Qed.

Lemma quot_ceil4 total : 0 < total -> Z.quot (total * BML_BITS_PER_BLK + 7) 8 = (total + 3) / 4.
Proof.
  intros. unfold BML_BITS_PER_BLK. rewrite Z.quot_div_nonneg by lia.
  pose proof (Z.div_mod (total + 3) 4). pose proof (Z.mod_pos_bound (total + 3) 4).
  symmetry. apply Z.div_unique with (2 * total + 7 - 8 * ((total + 3) / 4)); lia.
Qed.

Lemma or_mask_bits total b : 0 < total ->
  (if Z.rem (total * BML_BITS_PER_BLK) 8 =? 6 then Z.lor b 192
   else if Z.rem (total * BML_BITS_PER_BLK) 8 =? 4 then Z.lor b 240
   else if Z.rem (total * BML_BITS_PER_BLK) 8 =? 2 then Z.lor b 252 else b)
  = or_mask (total mod 4) b.
Proof.
  intros. unfold BML_BITS_PER_BLK, or_mask. rewrite Z.rem_mod_nonneg by lia.
  replace (total * 2 mod 8) with (2 * (total mod 4)).
  2: { pose proof (Z.div_mod total 4). pose proof (Z.mod_pos_bound total 4).
       apply Z.mod_unique with (total / 4); lia. }
  pose proof (Z.mod_pos_bound total 4).
  repeat match goal with |- context [?a =? ?b] => destruct (Z.eqb_spec a b) end; lia || done.
Qed.

(** The tests on the last byte find the first busy block of the byte that is
    at or after the hint and belongs to the map. *)
Lemma busy_in_last_spec m q b hint total :
  bytes_ok m -> rd m q = Some b -> 4 * q < total <= 4 * q + 4 ->
  busy_in_last (or_mask (total mod 4) b) q hint total =
  first_such (fun i => is_busy m i && ((hint <=? i) && (i <? total))) (4 * q) 4.
Proof.
  intros Hm Hb Ht. pose proof (rd_bytes_ok _ _ _ Hm Hb) as Hok.
  pose proof (Z.mod_pos_bound total 4 ltac:(lia)) as Hmod.
  pose proof (Z.div_mod total 4) as Hdm. set (n := total mod 4) in *.
  destruct (or_mask_fields n b Hok Hmod) as [Hvok HF].
  destruct (field_masks (or_mask n b) Hvok) as (E0 & E1 & E2 & E3).
  unfold busy_in_last. rewrite quot84, first_such_4, E0, E1, E2, E3.
  assert (HB : forall k, 0 <= k < 4 ->
    (field (or_mask n b) k =? 0) = is_busy m (4 * q + k) && (4 * q + k <? total)).
  { intros k Hk. replace k with (4 * q + k - 4 * q) at 1 by lia.
    rewrite (or_mask_is_busy m) by (done || lia). f_equal.
    destruct (Z.eqb_spec n 0), (Z.ltb_spec (4 * q + k) total), (Z.ltb_spec (4 * q + k) (4 * q + n));
      lia || done. }
  rewrite !HB, Z.add_0_r by lia.
  destruct (Z.ltb_spec (4 * q + 3) total);
    [replace (4 * q + 3 <=? total) with true by (symmetry; zbool_goal) |];
    repeat match goal with
    | |- context [?a <? total] => destruct (Z.ltb_spec a total)
    end; rewrite ?andb_true_r, ?andb_false_r; done || lia.
Qed.

(** The first busy block at or after [hint], else the first one before it. *)
Definition first_busy_cyclic (m : list Z) (hint total : Z) : Z :=
  match first_such (is_busy m) hint (Z.to_nat (total - hint)) with
  | Some r => r
  | None => match first_such (is_busy m) 0 (Z.to_nat hint) with Some r => r | None => -1 end
  end.

(** The two halves of the search, before the results are put together. *)
Lemma bml_find_busy_phases m hint total :
  bytes_ok m -> 0 <= hint < total -> (total + 3) / 4 <= zlen m ->
  let h := hint / 4 in
  bml_find_busy hint m total =
  match first_such (is_busy m) hint (Z.to_nat (total - hint)) with
  | Some r => Some r
  | None =>
      match first_such (is_busy m) 0 (Z.to_nat (4 * h)) with
      | Some r => Some r
      | None =>
          match first_such (fun i => is_busy m i && ((hint mod 4 =? 0) || (i <? hint))) (4 * h) 4 with
          | Some r => Some r
          | None => Some (-1)
          end
      end
  end.
Proof.
  intros Hm Hh Hlen h. unfold bml_find_busy.
  pose proof (Z.div_mod hint 4) as Hd. pose proof (Z.mod_pos_bound hint 4 ltac:(lia)) as Hmo.
  pose proof (Z.div_mod (total + 3) 4) as Hd2. pose proof (Z.mod_pos_bound (total + 3) 4) as Hmo2.
  assert (Hhp : (if total * BML_BITS_PER_BLK <=? hint * BML_BITS_PER_BLK then 0 else hint * BML_BITS_PER_BLK)
                = hint * BML_BITS_PER_BLK) by (unfold BML_BITS_PER_BLK; by zif_false).
  rewrite Hhp, quot_ceil4 by lia.
  replace (Z.quot (hint * BML_BITS_PER_BLK) 8) with h.
  2: { unfold h, BML_BITS_PER_BLK. rewrite Z.quot_div_nonneg by lia.
       replace 8 with (4 * 2) by lia. by rewrite Z.div_mul_cancel_r by lia. }
  set (top := (total + 3) / 4 - 1). fold h in Hd.
  rewrite (byte_scan_first_such (fun i => is_busy m i && (hint <=? i))
             (fun b ptr => busy_from_hint b ptr hint));
    [|lia|lia|intros; by apply busy_from_hint_spec].
  cbn [mbind option_bind]. rewrite Z.max_r by lia.
  destruct (rd_in_range m top) as [bt Hbt]; [lia|]. rewrite Hbt. cbn [mbind option_bind].
  rewrite or_mask_bits, (busy_in_last_spec m) by (done || lia).
  assert (Hfirst : match first_such (fun i => is_busy m i && (hint <=? i)) (4 * h) (4 * Z.to_nat (top - h)) with
           | Some r => Some r
           | None => first_such (fun i => is_busy m i && ((hint <=? i) && (i <? total))) (4 * top) 4
           end = first_such (is_busy m) hint (Z.to_nat (total - hint))).
  { rewrite <- (first_such_window (fun i => is_busy m i && ((hint <=? i) && (i <? total))) (is_busy m)
                 (4 * h) (4 * Z.to_nat (top - h) + 4) hint (Z.to_nat (total - hint))).
    - rewrite first_such_app. replace (4 * h + Z.of_nat (4 * Z.to_nat (top - h))) with (4 * top) by lia.
      rewrite (first_such_ext (fun i => is_busy m i && (hint <=? i))
        (fun i => is_busy m i && ((hint <=? i) && (i <? total))) (4 * h)); [done|].
      intros j Hj. simpl. replace (j <? total) with true by (symmetry; zbool_goal). by rewrite andb_true_r.
    - lia.
    - lia.
    - intros j Hj. simpl. by replace (hint + Z.of_nat (Z.to_nat (total - hint))) with total by lia. }
  rewrite <- Hfirst. destruct (first_such _ (4 * h) _) as [r|]; [done|].
  destruct (first_such _ (4 * top) 4) as [r|]; [done|].
  rewrite (byte_scan_first_such (is_busy m)); [|lia|lia|intros; by apply busy_any_spec].
  cbn [mbind option_bind]. replace (4 * Z.to_nat h)%nat with (Z.to_nat (4 * h)) by lia.
  change (4 * 0) with 0.
  destruct (first_such _ 0 _) as [r|]; [done|].
  destruct (rd_byte m h Hm) as (bh & Hbh & Hbok); [lia|]. rewrite Hbh. cbn [mbind option_bind].
  rewrite Z.rem_mod_nonneg by lia.
  fold (or_mask (hint mod 4) bh).
  destruct (or_mask_fields (hint mod 4) bh Hbok Hmo) as [Hvok _].
  destruct (field_masks _ Hvok) as (E0 & E1 & E2 & E3).
  unfold busy_any. rewrite quot84, first_such_4, E0, E1, E2, E3.
  assert (HB : forall k, 0 <= k < 4 -> (field (or_mask (hint mod 4) bh) k =? 0)
     = is_busy m (4 * h + k) && ((hint mod 4 =? 0) || (4 * h + k <? hint))).
  { intros k Hk. replace k with (4 * h + k - 4 * h) at 1 by lia.
    rewrite (or_mask_is_busy m) by (done || lia). by replace (4 * h + hint mod 4) with hint by lia. }
  rewrite !HB, Z.add_0_r by lia. by repeat zcase.
Qed.

Lemma first_busy_wrap m hint total :
  0 <= hint < total ->
  (forall i, total <= i < 4 * ((total + 3) / 4) -> is_busy m i = false) ->
  first_such (is_busy m) hint (Z.to_nat (total - hint)) = None ->
  match first_such (is_busy m) 0 (Z.to_nat (4 * (hint / 4))) with
  | Some r => Some r
  | None => first_such (fun i => is_busy m i && ((hint mod 4 =? 0) || (i <? hint))) (4 * (hint / 4)) 4
  end = first_such (is_busy m) 0 (Z.to_nat hint).
Proof.
  intros Hh Hpad Hnone.
  pose proof (Z.div_mod hint 4) as Hd. pose proof (Z.mod_pos_bound hint 4 ltac:(lia)) as Hmo.
  pose proof (Z.div_mod (total + 3) 4) as Hd2. pose proof (Z.mod_pos_bound (total + 3) 4) as Hmo2.
  rewrite <- (first_such_window (fun i => is_busy m i && (i <? hint)) (is_busy m)
                0 (Z.to_nat (4 * (hint / 4)) + 4) 0 (Z.to_nat hint)); [|lia|lia|].
  - rewrite first_such_app.
    replace (0 + Z.of_nat (Z.to_nat (4 * (hint / 4)))) with (4 * (hint / 4)) by lia.
    rewrite (first_such_ext (is_busy m) (fun i => is_busy m i && (i <? hint)) 0);
      [|intros j Hj; replace (j <? hint) with true by (symmetry; zbool_goal); by rewrite andb_true_r].
    destruct (first_such _ 0 _); [done|]. apply first_such_ext. intros j Hj.
    destruct (Z.ltb_spec j hint); rewrite ?orb_true_r, ?orb_false_r; [done|].
    assert (is_busy m j = false) as ->; [|done].
    destruct (Z.ltb_spec j total); [|apply Hpad; lia].
    eapply first_such_None; [exact Hnone|lia].
  - intros j Hj. replace (0 <=? j) with true by (symmetry; zbool_goal).
    by replace (0 + Z.of_nat (Z.to_nat hint)) with hint by lia.
Qed.

Lemma bml_find_busy_cyclic m hint total :
  bytes_ok m -> 0 <= hint < total -> (total + 3) / 4 <= zlen m ->
  (forall i, total <= i < 4 * ((total + 3) / 4) -> is_busy m i = false) ->
  bml_find_busy hint m total = Some (first_busy_cyclic m hint total).
Proof.
  intros Hm Hh Hlen Hpad. rewrite bml_find_busy_phases by done. unfold first_busy_cyclic.
  destruct (first_such _ hint _) as [r|] eqn:E; [done|].
  rewrite <- (first_busy_wrap _ _ _ Hh Hpad E).
  destruct (first_such _ 0 _) as [r|]; [done|]. by destruct (first_such _ _ 4).
Qed.

(** * The search for a block that is not busy *)

Lemma return_if_free_spec b q :
  byte_ok b ->
  match RETURN_IF_FREE b q with
  | Some r => exists k, r = 4 * q + k /\ 0 <= k < 4 /\ field b k <> 0
  | None => b = 0
  end.
Proof.
  intros Hb.
  assert (Hbits : (b =? 0) || (let bits := if THREE_BLKS_BITMASK <? b then 3
      else if TWO_BLKS_BITMASK <? b then 2 else if ONE_BLK_BITMASK <? b then 1 else 0 in
      negb (field b bits =? 0)) = true) by byte_decide b Hb.
  unfold RETURN_IF_FREE. destruct (Z.eqb_spec b 0) as [->|]; [done|]. simpl in Hbits |- *.
  change (Z.quot BITS_PER_UCHAR BML_BITS_PER_BLK) with 4.
  eexists. split; [rewrite Z.mul_comm; reflexivity|].
  zbool. split; [|done]. repeat zcase; lia.
Qed.

Lemma field_0 k : 0 <= k < 4 -> field 0 k = 0.
Proof. intros. unfold field. by rewrite Z.shiftr_0_l. Qed.

(** What a scan that returns a block, or nothing, says about the bytes read. *)
Definition scan_ok (m : list Z) (lo hi : Z) (r : option Z) : Prop :=
  match r with
  | Some i => lo <= i < hi /\ not_busy m i = true
  | None => forall i, lo <= i < hi -> not_busy m i = false
  end.

Lemma bml_find_free_loop_ok m n p :
  bytes_ok m -> 0 <= p -> p + Z.of_nat n <= zlen m ->
  exists r, bml_find_free_loop n p m = Some r /\ scan_ok m (4 * p) (4 * (p + Z.of_nat n)) r.
Proof.
  intros Hm. revert p. induction n as [|n IH]; intros p Hp Hn; cbn [bml_find_free_loop].
  { exists None. split; [done|]. intros i Hi. lia. }
  destruct (rd_byte m p Hm) as (b & Hb & Hok); [lia|]. rewrite Hb. cbn [mbind option_bind].
  pose proof (return_if_free_spec b p Hok) as Hr.
  destruct (RETURN_IF_FREE b p) as [r|].
  - destruct Hr as (k & -> & Hk & Hf). eexists. split; [done|]. split; [lia|].
    rewrite (not_busy_field _ _ _ b) by done. by zbool_goal.
  - subst b. destruct (IH (p + 1)) as (r & -> & Hr); [lia|lia|]. exists r. split; [done|].
    destruct r as [i|]; simpl in *; [split; [lia|tauto]|].
    intros i Hi. destruct (Z.ltb_spec i (4 * p + 4)); [|apply Hr; lia].
    replace i with (4 * p + (i - 4 * p)) by lia. rewrite (not_busy_field _ _ _ 0) by (done || lia).
    by rewrite field_0 by lia.
Qed.

(** The byte with the blocks of index [hi] and up, and below [lo], cleared. *)
Definition window_ok (lo hi b v : Z) : Prop :=
  byte_ok v /\ forall k, 0 <= k < 4 ->
    field v k = if (lo <=? k) && (k <? hi) then field b k else 0.

Lemma window_check (f : Z -> Z) lo hi b :
  all_bytes (fun b => (0 <=? f b) && (f b <? 256) && forallb (fun k =>
     field (f b) k =? (if (lo <=? k) && (k <? hi) then field b k else 0)) [0;1;2;3]) = true ->
  byte_ok b -> window_ok lo hi b (f b).
Proof.
  intros H Hb. pose proof (all_bytes_spec _ b H Hb) as HH. cbv beta in HH. zbool.
  split; [unfold byte_ok; lia|]. intros k Hk.
  match goal with HF : forallb _ _ = true |- _ => rewrite forallb_forall in HF;
    specialize (HF k ltac:(simpl; lia)) end. by zbool.
Qed.

Lemma last_byte_window total b :
  0 < total -> byte_ok b ->
  window_ok 0 (total - 4 * ((total + 3) / 4 - 1)) b
    (last_byte_valid (Z.rem (total * BML_BITS_PER_BLK) BITS_PER_UCHAR) b).
Proof.
  intros Ht Hb. unfold BML_BITS_PER_BLK, BITS_PER_UCHAR. rewrite Z.rem_mod_nonneg by lia.
  pose proof (Z.div_mod (total + 3) 4). pose proof (Z.mod_pos_bound (total + 3) 4).
  set (hi := total - 4 * ((total + 3) / 4 - 1)).
  assert (Hr : total * 2 mod 8 = if hi =? 4 then 0 else 2 * hi).
  { symmetry. destruct (Z.eqb_spec hi 4); unfold hi in *;
      [apply Z.mod_unique with ((total + 3) / 4) | apply Z.mod_unique with ((total + 3) / 4 - 1)]; lia. }
  rewrite Hr. assert (hi = 1 \/ hi = 2 \/ hi = 3 \/ hi = 4) as Hc by (unfold hi; lia).
  clearbody hi. destruct Hc as [-> | [-> | [-> | ->]]]; unfold last_byte_valid; simpl.
  - apply (window_check (fun b => Z.land b 3)); [vm_compute; reflexivity|done].
  - apply (window_check (fun b => Z.land b 15)); [vm_compute; reflexivity|done].
  - apply (window_check (fun b => Z.land b 63)); [vm_compute; reflexivity|done].
  - apply (window_check (fun b => b)); [vm_compute; reflexivity|done].
Qed.

Definition nblk_bytes (total : Z) : Z := (total + 3) / 4.

Lemma nblk_bytes_bounds total : 4 * nblk_bytes total - 4 < total <= 4 * nblk_bytes total.
Proof.
  unfold nblk_bytes. pose proof (Z.div_mod (total + 3) 4).
  pose proof (Z.mod_pos_bound (total + 3) 4). lia.
Qed.

Lemma round_up_bytes total : 0 < total ->
  DIVIDE_ROUND_UP (total * BML_BITS_PER_BLK) BITS_PER_UCHAR = nblk_bytes total.
Proof.
  intros. unfold DIVIDE_ROUND_UP, BITS_PER_UCHAR. change (8 - 1) with 7.
  by apply quot_ceil4.
Qed.

(** The test of the last byte, taken as zero when the byte is zero. *)
Lemma last_byte_return m q b total :
  bytes_ok m -> rd m q = Some b -> 0 < total -> q = nblk_bytes total - 1 ->
  scan_ok m (4 * q) total
    (RETURN_IF_FREE (if negb (b =? 0) then
       last_byte_valid (Z.rem (total * BML_BITS_PER_BLK) BITS_PER_UCHAR) b else 0) q).
Proof.
  intros Hm Hb Ht ->. pose proof (rd_bytes_ok _ _ _ Hm Hb) as Hok.
  pose proof (last_byte_window total b Ht Hok) as [Hv HF]. fold (nblk_bytes total) in HF.
  set (v := last_byte_valid _ b) in *. pose proof (nblk_bytes_bounds total).
  assert (Hz : (if negb (b =? 0) then v else 0) = v).
  { destruct (Z.eqb_spec b 0) as [->|]; [|done]. simpl. unfold v, last_byte_valid.
    repeat zcase; done. }
  rewrite Hz. pose proof (return_if_free_spec v (nblk_bytes total - 1) Hv) as Hr.
  destruct (RETURN_IF_FREE v _) as [r|]; simpl.
  - destruct Hr as (k & -> & Hk & Hf). rewrite HF in Hf by lia.
    destruct ((0 <=? k) && (k <? _)) eqn:E; [|done]. zbool. split; [lia|].
    rewrite (not_busy_field _ _ _ b) by done. by zbool_goal.
  - intros i Hi. specialize (HF (i - 4 * (nblk_bytes total - 1)) ltac:(lia)).
    rewrite Hr, field_0 in HF by lia. revert HF. zif_true. intros HF.
    replace i with (4 * (nblk_bytes total - 1) + (i - 4 * (nblk_bytes total - 1))) by lia.
    rewrite (not_busy_field _ _ _ b) by (done || lia). by rewrite <- HF.
Qed.

Lemma scan_ok_widen m lo hi lo' hi' i :
  lo' <= lo -> hi <= hi' -> scan_ok m lo hi (Some i) -> scan_ok m lo' hi' (Some i).
Proof. simpl. intros ? ? [? ?]. split; [lia|done]. Qed.

(** The search from a hint that is already a byte index inside the map. *)
Lemma bml_find_free_from m h total :
  bytes_ok m -> 0 < total -> nblk_bytes total <= zlen m -> 0 <= h < nblk_bytes total ->
  exists r,
    (r1 ← bml_find_free_loop (Z.to_nat (nblk_bytes total - 1 - h)) h m;
     match r1 with
     | Some r => Some r
     | None =>
       b ← rd m (Z.max h (nblk_bytes total - 1));
       let valid := if negb (b =? 0) then
                      last_byte_valid (Z.rem (total * BML_BITS_PER_BLK) BITS_PER_UCHAR) b else 0 in
       match RETURN_IF_FREE valid (Z.max h (nblk_bytes total - 1)) with
       | Some r => Some r
       | None =>
         if negb (h =? 0) then
           r2 ← bml_find_free_loop (Z.to_nat h) 0 m;
           match r2 with Some r => Some r | None => Some NO_FREE_SPACE end
         else Some NO_FREE_SPACE
       end
     end) = Some (default NO_FREE_SPACE r) /\ scan_ok m 0 total r.
Proof.
  intros Hm Ht Hlen Hh. pose proof (nblk_bytes_bounds total) as Hb.
  destruct (bml_find_free_loop_ok m (Z.to_nat (nblk_bytes total - 1 - h)) h Hm) as (r1 & -> & H1); [lia|lia|].
  cbn [mbind option_bind]. destruct r1 as [i|].
  { exists (Some i). split; [done|]. eapply scan_ok_widen; [| |exact H1]; lia. }
  rewrite Z.max_r by lia. destruct (rd_in_range m (nblk_bytes total - 1)) as [b Hrd]; [lia|].
  rewrite Hrd. cbn [mbind option_bind].
  pose proof (last_byte_return m _ b total Hm Hrd Ht eq_refl) as H2.
  cbv zeta. destruct (RETURN_IF_FREE _ _) as [i|].
  { exists (Some i). split; [done|]. eapply scan_ok_widen; [| |exact H2]; lia. }
  destruct (bml_find_free_loop_ok m (Z.to_nat h) 0 Hm) as (r3 & -> & H3); [lia|lia|].
  exists (if h =? 0 then None else r3). destruct (Z.eqb_spec h 0) as [->|].
  - split; [done|]. simpl in H1, H2 |- *. intros i Hi.
    destruct (Z.ltb_spec i (4 * (nblk_bytes total - 1))); [apply H1|apply H2]; lia.
  - destruct r3 as [i|]; cbn [negb mbind option_bind].
    + split; [done|]. eapply scan_ok_widen; [| |exact H3]; lia.
    + split; [done|]. simpl in H1, H2, H3 |- *. intros i Hi.
      destruct (Z.ltb_spec i (4 * h)); [apply H3; lia|].
      destruct (Z.ltb_spec i (4 * (nblk_bytes total - 1))); [apply H1|apply H2]; lia.
Qed.

Lemma hint_byte hint : 0 <= hint -> Z.quot (hint * BML_BITS_PER_BLK) BITS_PER_UCHAR = hint / 4.
Proof.
  intros. unfold BML_BITS_PER_BLK, BITS_PER_UCHAR. rewrite Z.quot_div_nonneg by lia.
  replace 8 with (4 * 2) by lia. by rewrite Z.div_mul_cancel_r by lia.
Qed.

Lemma bml_find_free_ok m hint total :
  bytes_ok m -> 0 < total -> nblk_bytes total <= zlen m ->
  0 <= hint -> hint / 4 <> nblk_bytes total ->
  exists r, bml_find_free hint m total = Some (default NO_FREE_SPACE r) /\ scan_ok m 0 total r.
Proof.
  intros Hm Ht Hlen Hh Hne. unfold bml_find_free. cbv zeta.
  rewrite round_up_bytes, hint_byte by lia. pose proof (nblk_bytes_bounds total).
  assert (0 <= hint / 4) by (apply Z.div_pos; lia).
  destruct (Z.ltb_spec (nblk_bytes total) (hint / 4)); apply bml_find_free_from; done || lia.
Qed.

(** * The search without wrap and the recycled flag *)

Definition recycled (m : list Z) (i : Z) : bool :=
  match GET_BM_STATUS m i with Some s => s =? BLK_RECYCLED | None => false end.

Definition no_invalid (m : list Z) : Prop :=
  forall i, 0 <= i -> GET_BM_STATUS m i <> Some BLK_MAPINVALID.

(** The block found by a search, with its flag. *)
Definition found (m : list Z) (r : option Z) : option (Z * bool) :=
  match r with Some i => Some (i, recycled m i) | None => None end.

Lemma blk_of_valid_check v :
  byte_ok v -> (forall k, 0 <= k < 4 -> field v k <> 2) -> v <> 0 ->
  exists k, 0 <= k < 4 /\ field v k <> 0 /\ (forall j, 0 <= j < k -> field v j = 0) /\
    forall q, blk_of_valid v q = (4 * q + k, field v k =? 3).
Proof.
  intros Hv Hi Hz.
  assert (HH : (v =? 0) || (existsb (fun k => field v k =? 2) [0;1;2;3]) ||
    (let k := if negb (Z.land v 1 =? 0) then 0 else if negb (Z.land v 4 =? 0) then 1
              else if negb (Z.land v 16 =? 0) then 2 else 3 in
     let u := if negb (Z.land v 1 =? 0) then negb (Z.land v 2 =? 0)
              else if negb (Z.land v 4 =? 0) then negb (Z.land v 8 =? 0)
              else if negb (Z.land v 16 =? 0) then negb (Z.land v 32 =? 0)
              else negb (Z.land v 128 =? 0) in
     negb (field v k =? 0) && Bool.eqb u (field v k =? 3) &&
     forallb (fun j => (k <=? j) || (field v j =? 0)) [0;1;2;3]) = true) by byte_decide v Hv.
  apply orb_true_iff in HH as [HH|HH]; [apply orb_true_iff in HH as [HH|HH]|].
  - zbool. done.
  - apply existsb_exists in HH as (k & Hk & E). zbool. destruct (Hi k); [|done]. simpl in Hk. lia.
  - cbv zeta in HH. apply andb_true_iff in HH as [HH Hall]. apply andb_true_iff in HH as [Hnz Hu].
    apply Bool.eqb_prop in Hu. rewrite forallb_forall in Hall.
    match type of Hnz with context [field v ?x] => set (k := x) in * end.
    exists k. split; [unfold k; repeat zcase; lia|]. split; [by zbool|]. split.
    + intros j Hj. assert (k < 4) by (unfold k; repeat zcase; lia).
      specialize (Hall j ltac:(simpl; lia)). apply orb_true_iff in Hall as [E|E]; zbool; [lia|done].
    + intros q. rewrite <- Hu. unfold blk_of_valid, k. rewrite quot84.
      repeat zcase; try congruence; f_equal; lia.
Qed.

(** A byte whose blocks outside a window are cleared, decoded. *)
Lemma blk_of_valid_window m q b v lo hi :
  bytes_ok m -> no_invalid m -> rd m q = Some b -> 0 <= lo -> hi <= 4 -> window_ok lo hi b v ->
  (if v =? 0 then None else Some (blk_of_valid v q)) =
  found m (first_such (not_busy m) (4 * q + lo) (Z.to_nat (hi - lo))).
Proof.
  intros Hm Hinv Hb Hlo Hhi [Hv HF]. 
  assert (HN : forall k, 0 <= k < 4 -> field b k <> 2).
  { intros k Hk E. apply (Hinv (4 * q + k)); [pose proof (rd_Some_range _ _ _ Hb); lia|]. erewrite status_field by done. by rewrite E. }
  assert (HP : forall k, lo <= k < hi -> not_busy m (4 * q + k) = negb (field v k =? 0)).
  { intros k Hk. rewrite HF by lia. zif_true. by rewrite (not_busy_field _ _ _ b) by (done || lia). }
  destruct (Z.eqb_spec v 0) as [->|Hz].
  - rewrite first_such_intro_None; [done|]. intros j Hj.
    replace j with (4 * q + (j - 4 * q)) by lia. rewrite HP by lia. by rewrite field_0 by lia.
  - destruct (blk_of_valid_check v Hv) as (k & Hk & Hf & Hj & Hq); [|done|].
    { intros k Hk. rewrite HF by done. zcase; [by apply HN|lia]. }
    pose proof Hf as Hwin. rewrite HF in Hwin by done.
    destruct ((lo <=? k) && (k <? hi)) eqn:E; [|done]. zbool.
    rewrite (first_such_intro _ _ _ (4 * q + k)); simpl.
    + rewrite Hq. unfold recycled. rewrite (status_field _ _ _ b) by done.
      rewrite HF by done. by zif_true.
    + lia.
    + rewrite HP by lia. by zbool_goal.
    + intros j Hjr. replace j with (4 * q + (j - 4 * q)) by lia. rewrite HP by lia.
      by rewrite Hj by lia.
Qed.

Lemma bm_find_blk_loop_spec m n p :
  bytes_ok m -> no_invalid m -> 0 <= p -> p + Z.of_nat n <= zlen m ->
  bm_find_blk_loop n p m = Some (found m (first_such (not_busy m) (4 * p) (4 * n))).
Proof.
  intros Hm Hinv. revert p. induction n as [|n IH]; intros p Hp Hn; [done|].
  cbn [bm_find_blk_loop]. destruct (rd_byte m p Hm) as (b & Hb & Hok); [lia|].
  rewrite Hb. cbn [mbind option_bind].
  replace (4 * S n)%nat with (4 + 4 * n)%nat by lia. rewrite first_such_app.
  assert (Hw : window_ok 0 4 b b).
  { apply (window_check (fun b => b)); [vm_compute; reflexivity|done]. }
  pose proof (blk_of_valid_window m p b b 0 4 Hm Hinv Hb ltac:(lia) ltac:(lia) Hw) as HW.
  rewrite Z.add_0_r in HW. change (Z.to_nat (4 - 0)) with 4%nat in HW.
  rewrite IH by lia. replace (4 * p + Z.of_nat 4) with (4 * (p + 1)) by lia.
  destruct (b =? 0), (first_such (not_busy m) (4 * p) 4); simpl in HW |- *; try done.
  by rewrite HW.
Qed.

(** The answer of bm_find_blk from a search over the blocks of the map. *)
Definition find_blk_answer (m : list Z) (used : bool) (r : option Z) : Z * bool :=
  default (NO_FREE_SPACE, used) (found m r).

Lemma bm_find_blk_rest_spec m p total used :
  bytes_ok m -> no_invalid m -> 0 < total -> nblk_bytes total <= zlen m -> 0 <= p <= nblk_bytes total ->
  bm_find_blk_rest p m (total * BML_BITS_PER_BLK) used =
  Some (find_blk_answer m used (first_such (not_busy m) (4 * p) (Z.to_nat (total - 4 * p)))).
Proof.
  intros Hm Hinv Ht Hlen Hp. pose proof (nblk_bytes_bounds total).
  unfold bm_find_blk_rest. rewrite quot_ceil4 by lia. fold (nblk_bytes total).
  rewrite bm_find_blk_loop_spec by (done || lia). cbn [mbind option_bind].
  destruct (Z.eqb_spec p (nblk_bytes total)) as [->|].
  - replace (Z.to_nat (nblk_bytes total - 1 - nblk_bytes total)) with O by lia.
    replace (Z.to_nat (total - 4 * nblk_bytes total)) with O by lia. simpl. by zif_false.
  - replace (Z.to_nat (total - 4 * p)) with
      (4 * Z.to_nat (nblk_bytes total - 1 - p) + Z.to_nat (total - 4 * (nblk_bytes total - 1)))%nat by lia.
    rewrite first_such_app.
    destruct (first_such (not_busy m) (4 * p) _) as [i|]; [done|]. cbn [found].
    rewrite Z.max_r, Z.eqb_refl by lia.
    destruct (rd_byte m (nblk_bytes total - 1) Hm) as (b & Hb & Hok); [lia|].
    rewrite Hb. cbn [mbind option_bind].
    pose proof (last_byte_window total b Ht Hok) as Hw. fold (nblk_bytes total) in Hw.
    change BITS_PER_UCHAR with 8 in Hw. set (v := last_byte_valid _ b) in *.
    pose proof (blk_of_valid_window m _ b v 0 (total - 4 * (nblk_bytes total - 1))
                  Hm Hinv Hb ltac:(lia) ltac:(lia) Hw) as HW.
    rewrite Z.add_0_r, Z.sub_0_r in HW.
    replace (4 * p + Z.of_nat (4 * Z.to_nat (nblk_bytes total - 1 - p)))
      with (4 * (nblk_bytes total - 1)) by lia.
    unfold find_blk_answer. rewrite <- HW.
    assert (Hbv : b = 0 -> v = 0) by (intros ->; unfold v, last_byte_valid; by repeat zcase).
    destruct (Z.eqb_spec b 0) as [E|]; simpl; [by rewrite (Hbv E)|].
    by destruct (v =? 0).
Qed.

Lemma hint_window k b v hi :
  0 <= k < 4 -> byte_ok b -> window_ok 0 hi b v -> hi <= 4 ->
  window_ok k hi b (if k =? 0 then v else if k =? 1 then Z.land v 252
                    else if k =? 2 then Z.land v 240 else if k =? 3 then Z.land v 192 else v).
Proof.
  intros Hk Hb [Hv HF] Hhi.
  assert (Hw : window_ok k 4 v (if k =? 0 then v else if k =? 1 then Z.land v 252
                    else if k =? 2 then Z.land v 240 else if k =? 3 then Z.land v 192 else v)).
  { assert (k = 0 \/ k = 1 \/ k = 2 \/ k = 3) as [-> | [-> | [-> | ->]]] by lia; simpl;
      [apply (window_check (fun v => v)) | apply (window_check (fun v => Z.land v 252))
      |apply (window_check (fun v => Z.land v 240)) | apply (window_check (fun v => Z.land v 192))];
      first [vm_compute; reflexivity | done]. }
  destruct Hw as [Hok HF2]. split; [done|]. intros j Hj. rewrite HF2, HF by done.
  repeat zcase; done || lia.
Qed.

Lemma bm_find_blk_spec m hint total used :
  bytes_ok m -> no_invalid m -> 0 <= hint < total -> nblk_bytes total <= zlen m ->
  bm_find_blk hint m total used =
  Some (find_blk_answer m used (first_such (not_busy m) hint (Z.to_nat (total - hint)))).
Proof.
  intros Hm Hinv Hh Hlen. pose proof (nblk_bytes_bounds total). unfold bm_find_blk. cbv zeta.
  destruct (Z.eqb_spec hint 0) as [->|Hz]; simpl negb; cbv iota.
  { rewrite bm_find_blk_rest_spec by (done || lia). by change (4 * 0) with 0. }
  pose proof (Z.div_mod hint 4) as Hd. pose proof (Z.mod_pos_bound hint 4 ltac:(lia)) as Hmo.
  unfold bm_find_blk_hint. change (Z.quot (hint * BML_BITS_PER_BLK) 8)
    with (Z.quot (hint * BML_BITS_PER_BLK) BITS_PER_UCHAR).
  rewrite hint_byte, quot_ceil4 by lia. fold (nblk_bytes total).
  destruct (rd_byte m (hint / 4) Hm) as (b & Hb & Hok); [lia|]. rewrite Hb. cbn [mbind option_bind].
  change (Z.quot 8 BML_BITS_PER_BLK) with 4. rewrite Z.rem_mod_nonneg by lia.
  set (hi := Z.min 4 (total - 4 * (hint / 4))).
  assert (Hw : window_ok 0 hi b (if hint / 4 =? nblk_bytes total - 1
             then last_byte_valid (Z.rem (total * BML_BITS_PER_BLK) 8) b else b)).
  { destruct (Z.eqb_spec (hint / 4) (nblk_bytes total - 1)) as [E|].
    - replace hi with (total - 4 * ((total + 3) / 4 - 1)) by (unfold hi, nblk_bytes in *; lia).
      apply (last_byte_window total b); [lia|done].
    - replace hi with 4 by (unfold hi; lia).
      apply (window_check (fun b => b)); [vm_compute; reflexivity|done]. }
  pose proof (hint_window (hint mod 4) b _ hi Hmo Hok Hw ltac:(lia)) as Hw2.
  match type of Hw2 with window_ok _ _ _ ?x => set (v := x) in * end.
  pose proof (blk_of_valid_window m _ b v (hint mod 4) hi Hm Hinv Hb ltac:(lia) ltac:(lia) Hw2) as HW.
  replace (4 * (hint / 4) + hint mod 4) with hint in HW by lia.
  rewrite bm_find_blk_rest_spec by (done || lia).
  replace (Z.to_nat (total - hint)) with
    (Z.to_nat (hi - hint mod 4) + Z.to_nat (total - 4 * (hint / 4 + 1)))%nat by lia.
  rewrite first_such_app. revert HW.
  destruct (first_such (not_busy m) hint _) as [i|]; simpl found; intros HW.
  - destruct (v =? 0); [done|]. injection HW as HW. simpl. by rewrite HW.
  - destruct (v =? 0); [|done]. simpl. do 2 f_equal.
    destruct (Z.leb_spec 4 (total - 4 * (hint / 4))); [f_equal; lia|].
    replace (Z.to_nat (total - 4 * (hint / 4 + 1))) with O by lia. done.
Qed.

(** * The master map *)

(** Bit [i] of a bitmap of single bits. *)
Definition mbit (m : list Z) (i : Z) : bool :=
  match rd m (i / 8) with Some b => Z.testbit b (i mod 8) | None => false end.

Lemma land_lnot_pow2 x k : 0 <= k -> Z.land x (Z.lnot (2 ^ k - 1)) = 2 ^ k * (x / 2 ^ k).
Proof.
  intros Hk. rewrite <- Z.ldiff_land. replace (2 ^ k - 1) with (Z.ones k).
  - rewrite Z.ldiff_ones_r, Z.shiftl_mul_pow2, Z.shiftr_div_pow2 by lia. lia.
  - rewrite Z.ones_equiv. lia.
Qed.

Lemma round_down8 x : ROUND_DOWN2 x BITS_PER_UCHAR = 8 * (x / 8).
Proof. apply (land_lnot_pow2 x 3). lia. Qed.

Lemma round_up8 x : ROUND_UP2 x BITS_PER_UCHAR = 8 * ((x + 7) / 8).
Proof. apply (land_lnot_pow2 (x + 7) 3). lia. Qed.

Lemma round_down32 x : ROUND_DOWN2 x MAX_FFS_SIZE = 32 * (x / 32).
Proof. apply (land_lnot_pow2 x 5). lia. Qed.

Lemma land_shiftl1_testbit b i : 0 <= i -> negb (Z.land b (Z.shiftl 1 i) =? 0) = Z.testbit b i.
Proof.
  intros Hi. rewrite Z.shiftl_1_l. destruct (Z.testbit b i) eqn:E.
  - apply negb_true_iff, Z.eqb_neq. intros H.
    assert (Z.testbit (Z.land b (2 ^ i)) i = false) by (rewrite H; apply Z.bits_0).
    rewrite Z.land_spec, E, Z.pow2_bits_true in H0 by done. done.
  - apply negb_false_iff, Z.eqb_eq, Z.bits_inj_0. intros n.
    rewrite Z.land_spec, Z.pow2_bits_eqb by done.
    destruct (Z.eqb_spec i n) as [->|]; [by rewrite E|by rewrite andb_false_r].
Qed.

Lemma mbit_at m c j b : rd m c = Some b -> 0 <= j < 8 -> mbit m (8 * c + j) = Z.testbit b j.
Proof.
  intros Hb Hj. pose proof (rd_Some_range _ _ _ Hb). unfold mbit.
  replace ((8 * c + j) / 8) with c by (apply Z.div_unique with j; lia).
  replace ((8 * c + j) mod 8) with j by (apply Z.mod_unique with c; lia). by rewrite Hb.
Qed.

Lemma ffs_bits_spec m n c i :
  0 <= c < zlen m -> 0 <= i -> i + Z.of_nat n <= 8 ->
  ffs_bits n m c i (8 * c + i) = Some (first_such (mbit m) (8 * c + i) n).
Proof.
  intros Hc. revert i. induction n as [|n IH]; intros i Hi Hn; [done|].
  cbn [ffs_bits first_such]. destruct (rd_in_range m c Hc) as [b Hb]. rewrite Hb. cbn [mbind option_bind].
  rewrite land_shiftl1_testbit, (mbit_at _ _ _ b) by (done || lia).
  destruct (Z.testbit b i); [done|]. replace (8 * c + i + 1) with (8 * c + (i + 1)) by lia.
  apply IH; lia.
Qed.

Lemma ffs_bytes_spec m n c :
  0 <= c -> c + Z.of_nat n <= zlen m ->
  ffs_bytes n m c (8 * c) = Some (first_such (mbit m) (8 * c) (8 * n)).
Proof.
  revert c. induction n as [|n IH]; intros c Hc Hn; [done|].
  cbn [ffs_bytes]. destruct (rd_in_range m c) as [b Hb]; [lia|]. rewrite Hb. cbn [mbind option_bind].
  replace (8 * S n)%nat with (8 + 8 * n)%nat by lia. rewrite first_such_app.
  replace (8 * c + Z.of_nat 8) with (8 * (c + 1)) by lia.
  replace (8 * c + BITS_PER_UCHAR) with (8 * (c + 1)) by (unfold BITS_PER_UCHAR; lia).
  rewrite IH by lia. destruct (Z.eqb_spec b 0) as [->|]; simpl negb; cbv iota.
  - rewrite (first_such_intro_None _ (8 * c) 8); [done|]. intros j Hj.
    replace j with (8 * c + (j - 8 * c)) by lia. rewrite (mbit_at _ _ _ 0) by (done || lia).
    apply Z.bits_0.
  - pose proof (ffs_bits_spec m 8 c 0 ltac:(lia) ltac:(lia) ltac:(lia)) as H8.
    rewrite Z.add_0_r in H8. rewrite H8. cbn [mbind option_bind]. by destruct (first_such _ _ 8).
Qed.

Lemma gtm_ffs_spec m offset size :
  0 <= offset -> 0 <= size -> offset + size <= 8 * zlen m ->
  gtm_ffs offset m size = Some (default (-1) (first_such (mbit m) offset (Z.to_nat size))).
Proof.
  intros Ho Hs Hl. unfold gtm_ffs. change (BITS_PER_UCHAR - 1) with (Z.ones 3).
  rewrite round_up8, round_down8, Z.land_ones by lia. change (2 ^ 3) with 8.
  unfold BITS_PER_UCHAR. rewrite (Z.quot_div_nonneg offset) by lia.
  pose proof (Z.div_mod offset 8) as Hd. pose proof (Z.mod_pos_bound offset 8 ltac:(lia)) as Hm.
  set (c := offset / 8) in *. set (i := offset mod 8) in *.
  assert (Hu : (offset + 7) / 8 = if i =? 0 then c else c + 1).
  { symmetry. destruct (Z.eqb_spec i 0); [apply Z.div_unique with 7|apply Z.div_unique with (i - 1)]; lia. }
  set (n1 := if i =? 0 then 0 else Z.min (8 - i) size).
  assert (H1 : (if negb (i =? 0) then ffs_bits (Z.to_nat (Z.min (8 - i) size)) m c i offset else Some None)
     = Some (first_such (mbit m) offset (Z.to_nat n1))).
  { unfold n1. destruct (Z.eqb_spec i 0); [done|]. simpl negb. cbv iota.
    destruct (Z.eq_dec size 0) as [->|]; [by rewrite Z.min_r by lia|].
    replace offset with (8 * c + i) by lia. apply ffs_bits_spec; lia. }
  rewrite H1. cbn [mbind option_bind].
  set (c1 := if negb (i =? 0) then c + 1 else c).
  assert (Hc1 : (offset + 7) / 8 = c1) by (rewrite Hu; unfold c1; by destruct (i =? 0)).
  rewrite Hc1. pose proof (Z.div_mod (size + offset) 8) as Hd2.
  pose proof (Z.mod_pos_bound (size + offset) 8 ltac:(lia)) as Hm2. set (t := (size + offset) / 8) in *.
  replace (8 * t - 8 * c1) with ((t - c1) * 8) by lia. rewrite Z.quot_mul by lia.
  assert (Hcases : c1 = c /\ i = 0 /\ n1 = 0 \/ c1 = c + 1 /\ 0 < i /\ n1 = Z.min (8 - i) size).
  { unfold c1, n1. destruct (Z.eqb_spec i 0); simpl; lia. }
  destruct (Z.ltb_spec t c1).
  { replace (Z.to_nat (t - c1)) with O by lia. cbn [ffs_bytes mbind option_bind].
    rewrite Z.max_l by lia. replace (Z.to_nat (size + offset - (8 * c1 + 8 * 0))) with O by lia.
    replace n1 with size by lia. cbn [ffs_bits mbind option_bind].
    by destruct (first_such (mbit m) offset (Z.to_nat size)). }
  replace (Z.to_nat size) with (Z.to_nat n1 + (8 * Z.to_nat (t - c1) + Z.to_nat (size + offset - 8 * t)))%nat by lia.
  rewrite !first_such_app. destruct (first_such (mbit m) offset (Z.to_nat n1)); [done|].
  rewrite ffs_bytes_spec by lia. cbn [mbind option_bind].
  replace (offset + Z.of_nat (Z.to_nat n1)) with (8 * c1) by lia.
  destruct (first_such (mbit m) (8 * c1) _); [done|]. rewrite Z.max_r by lia.
  replace (c1 + (t - c1)) with t by lia. replace (8 * c1 + 8 * (t - c1)) with (8 * t) by lia.
  replace (8 * c1 + Z.of_nat (8 * Z.to_nat (t - c1))) with (8 * t) by lia.
  destruct (Z.eq_dec (size + offset) (8 * t)) as [E|].
  { replace (Z.to_nat (size + offset - 8 * t)) with O by lia. done. }
  replace (8 * t) with (8 * t + 0) at 2 3 by lia. rewrite ffs_bits_spec by lia.
  cbn [mbind option_bind]. by destruct (first_such _ _ _).
Qed.

Lemma bmm_inner_spec m fuel start width top :
  0 <= start -> start + width <= top -> top <= 8 * zlen m ->
  (0 < width \/ start = top /\ width = 0) -> (Z.to_nat (top - start) < fuel)%nat ->
  bmm_inner fuel start width top m = Some (first_such (mbit m) start (Z.to_nat (top - start))).
Proof.
  revert start width. induction fuel as [|fuel IH]; intros start width Hs Hw Ht Hc Hf; [lia|].
  cbn [bmm_inner]. destruct (Z.ltb_spec 0 width) as [Hp|].
  2: { replace (Z.to_nat (top - start)) with O by lia. done. }
  rewrite gtm_ffs_spec by lia. cbn [mbind option_bind].
  replace (Z.to_nat (top - start)) with (Z.to_nat width + Z.to_nat (top - (start + width)))%nat by lia.
  rewrite first_such_app. destruct (first_such (mbit m) start (Z.to_nat width)) as [r|] eqn:E.
  - apply first_such_Some in E. simpl default. unfold NO_FREE_SPACE. by zif_true.
  - simpl default. change (negb (-1 =? NO_FREE_SPACE)) with false. cbv iota.
    replace (start + Z.of_nat (Z.to_nat width)) with (start + width) by lia.
    unfold MAX_FFS_SIZE. apply IH; lia.
Qed.

Lemma bmm_outer_spec m fuel start top hint :
  0 <= start < top -> top <= 8 * zlen m ->
  bmm_outer (S fuel) start top hint m =
  match first_such (mbit m) start (Z.to_nat (top - start)) with
  | Some r => Some r
  | None => bmm_outer fuel 0 hint 0 m
  end.
Proof.
  intros Hs Ht. cbn [bmm_outer]. zif_true. rewrite round_down32. unfold MAX_FFS_SIZE.
  pose proof (Z.div_mod start 32). pose proof (Z.mod_pos_bound start 32).
  rewrite bmm_inner_spec by lia. cbn [mbind option_bind]. by destruct (first_such _ _ _).
Qed.

(** The first set bit at or after the hint, else the first one before it. *)
Definition first_bit_cyclic (m : list Z) (hint total : Z) : Z :=
  match first_such (mbit m) hint (Z.to_nat (total - hint)) with
  | Some r => r
  | None => match first_such (mbit m) 0 (Z.to_nat hint) with
            | Some r => r | None => NO_FREE_SPACE end
  end.

Lemma bmm_find_free_cyclic m hint total :
  0 <= hint -> 0 < total <= 8 * zlen m ->
  bmm_find_free hint m total =
  Some (first_bit_cyclic m (if total <=? hint then 0 else hint) total).
Proof.
  intros Hh Ht. unfold bmm_find_free. cbv zeta.
  set (h := if total <=? hint then 0 else hint).
  assert (0 <= h < total) by (unfold h; zcase; lia).
  unfold first_bit_cyclic. rewrite bmm_outer_spec by lia.
  destruct (first_such (mbit m) h _); [done|].
  destruct (Z.eq_dec h 0) as [->|]; [done|].
  rewrite bmm_outer_spec by lia. rewrite Z.sub_0_r.
  by destruct (first_such (mbit m) 0 _).
Qed.

(** * The properties of the component *)

(** C32: bml_busy, bml_free and bml_recycled set exactly the two status bits of
    their block: the new map is the one SET_BM_STATUS writes, every other block
    keeps its status, the buffer keeps its size, and the value returned is the
    low bit of the old status (0 for a busy block, 1 for a free or recycled one). *)
Theorem bml_mark_exact :
  marks bml_busy BLK_BUSY /\ marks bml_free BLK_FREE /\ marks bml_recycled BLK_RECYCLED.
Proof. split; [apply marks_busy|split; [apply marks_free|apply marks_recycled]]. Qed.

Lemma bml_mark_exact_witness :
  exists m', bml_busy 1 [84; 85] = Some (1, m') /\ GET_BM_STATUS m' 1 = Some BLK_BUSY.
Proof.
  destruct (proj1 bml_mark_exact [84; 85] 1 1) as (m' & H1 & _ & _ & _ & H5 & _);
    [by_compute | lia | reflexivity | ].
  exists m'. split; [exact H1 | exact H5].
Defined.

(** Bml_find_free finds a block that is not busy whenever there is one, for
    every hint except the one just past the map: it answers NO_FREE_SPACE
    exactly when all [total] blocks are busy, otherwise a block below [total]
    that is free or recycled, and it reads only bytes of the map. *)
Theorem bml_find_free_correct m hint total :
  bytes_ok m -> 0 < total -> nblk_bytes total <= zlen m ->
  0 <= hint -> hint / 4 <> nblk_bytes total ->
  exists r, bml_find_free hint m total = Some r /\
    ((r = NO_FREE_SPACE /\ forall i, 0 <= i < total -> is_busy m i = true) \/
     (0 <= r < total /\ not_busy m r = true)).
Proof.
  intros Hm Ht Hlen Hh Hne. pose proof (nblk_bytes_bounds total).
  destruct (bml_find_free_ok m hint total) as (r & -> & Hr); try done.
  eexists. split; [done|]. destruct r as [i|]; simpl in *; [by right|left].
  split; [done|]. intros i Hi. specialize (Hr i Hi). rewrite not_busy_negb in Hr by lia.
  by apply negb_false_iff in Hr.
Qed.

Lemma bml_find_free_correct_witness :
  exists r, bml_find_free 5 [0; 16] 7 = Some r /\
    ((r = NO_FREE_SPACE /\ forall i, 0 <= i < 7 -> is_busy [0; 16] i = true) \/
     (0 <= r < 7 /\ not_busy [0; 16] r = true)).
Proof.
  apply bml_find_free_correct;
    [by_compute | lia
    | by_compute | lia | vm_compute; discriminate].
Defined.

(** C30: bml_find_busy returns the first busy block at or after the hint, else
    the first busy block of the map, else -1, and reads only bytes of the map,
    when the bits of the last byte past the map are not those of busy blocks. *)
Theorem bml_find_busy_first m hint total :
  bytes_ok m -> 0 <= hint < total -> nblk_bytes total <= zlen m ->
  (forall i, total <= i < 4 * nblk_bytes total -> is_busy m i = false) ->
  bml_find_busy hint m total = Some (first_busy_cyclic m hint total).
Proof. apply bml_find_busy_cyclic. Qed.

Lemma bml_find_busy_first_witness :
  bml_find_busy 2 [84; 85; 81] 11 = Some (first_busy_cyclic [84; 85; 81] 2 11).
Proof.
  apply bml_find_busy_first;
    [by_compute | lia
    | by_compute |].
  intros i Hi. assert (i = 11) as -> by (revert Hi; vm_compute nblk_bytes; lia). reflexivity.
Defined.

(** Without that condition the search can leave the map: in a one-block map
    whose block is free it answers block 1. *)
Lemma bml_find_busy_past_end : bml_find_busy 0 [1] 1 = Some 1.
Proof. reflexivity. Qed.

(** A hint of exactly the number of bytes of the map makes bml_find_free read
    the byte that follows the map. *)
Lemma bml_find_free_reads_past_end : bml_find_free 4 [0] 4 = None.
Proof. reflexivity. Qed.

(** The block returned is the last one of its byte that is not busy. *)
Lemma bml_find_free_not_lowest : bml_find_free 0 [THREE_BLKS_FREE] 4 = Some 3.
Proof. reflexivity. Qed.

(** C31: in a map without invalid entries bm_find_blk returns the first block at
    or after the hint that is not busy, with [used] telling a recycled block
    from a free one, or NO_FREE_SPACE with [used] unchanged, and it reads only
    bytes of the map. *)
Theorem bm_find_blk_first m hint total used :
  bytes_ok m -> no_invalid m -> 0 <= hint < total -> nblk_bytes total <= zlen m ->
  bm_find_blk hint m total used =
  Some (match first_such (not_busy m) hint (Z.to_nat (total - hint)) with
        | Some i => (i, recycled m i)
        | None => (NO_FREE_SPACE, used)
        end).
Proof.
  intros. rewrite bm_find_blk_spec by done. unfold find_blk_answer.
  by destruct (first_such _ _ _).
Qed.

Lemma bm_find_blk_first_witness :
  bm_find_blk 2 [84; 92] 8 false =
  Some (match first_such (not_busy [84; 92]) 2 6 with
        | Some i => (i, recycled [84; 92] i) | None => (NO_FREE_SPACE, false) end).
Proof.
  apply bm_find_blk_first;
    [by_compute | | lia
    | by_compute].
  intros i Hi H. pose proof (status_Some_range _ _ _ Hi H) as Hr.
  change (4 * zlen [84; 92]) with 8 in Hr.
  assert (i = 0 \/ i = 1 \/ i = 2 \/ i = 3 \/ i = 4 \/ i = 5 \/ i = 6 \/ i = 7) as Hc by lia.
  repeat destruct Hc as [-> | Hc]; try subst i; discriminate H.
Defined.

(** Bmm_find_free returns the first local map with space at or after the
    hint, else the first one before it, else NO_FREE_SPACE; a hint past the
    maps counts as 0.  It returns (two passes are enough) and reads only bytes
    of the master map. *)
Theorem bmm_find_free_first m hint total :
  0 <= hint -> 0 < total <= 8 * zlen m ->
  bmm_find_free hint m total =
  Some (first_bit_cyclic m (if total <=? hint then 0 else hint) total).
Proof. apply bmm_find_free_cyclic. Qed.

Lemma bmm_find_free_first_witness :
  bmm_find_free 40 [0; 4; 0; 0; 0; 1] 44 = Some (first_bit_cyclic [0; 4; 0; 0; 0; 1] 40 44).
Proof. apply (bmm_find_free_first [0; 4; 0; 0; 0; 1] 40 44); [lia|]. vm_compute. split; [reflexivity|discriminate]. Defined.

(** A local bitmap block made by bml_newmap has its size and the level of
    bitmaps in its header, one byte for four blocks after it, block 0 (the
    bitmap itself) busy and every other block free. *)
Theorem bml_newmap_all_free ver hdrsz size tn_ :
  hdrsz < size ->
  let '(h, map) := bml_newmap ver hdrsz size tn_ in
  levl h = LCL_MAP_LEVL /\ bsiz h = size /\ tn h = tn_ /\ zlen map = size - hdrsz /\ bytes_ok map /\
  GET_BM_STATUS map 0 = Some BLK_BUSY /\
  forall i, 0 < i < 4 * zlen map -> GET_BM_STATUS map i = Some BLK_FREE.
Proof.
  intros Hs. simpl. repeat split.
  - unfold zlen. simpl. rewrite length_replicate. lia.
  - constructor; [unfold byte_ok, THREE_BLKS_FREE; lia|]. apply Forall_replicate.
    unfold byte_ok, FOUR_BLKS_FREE. lia.
  - intros i Hi. destruct (split4 i) as (p & k & -> & Hk).
    destruct (Z.eq_dec p 0) as [->|Hp].
    + rewrite (status_field _ _ _ THREE_BLKS_FREE) by done. f_equal.
      assert (k = 1 \/ k = 2 \/ k = 3) as [-> | [-> | ->]] by lia; reflexivity.
    + rewrite (status_field _ _ _ FOUR_BLKS_FREE); [| |done].
      * f_equal. assert (k = 0 \/ k = 1 \/ k = 2 \/ k = 3) as [-> | [-> | [-> | ->]]] by lia; reflexivity.
      * replace p with (p - 1 + 1) by lia. rewrite rd_cons_S by lia.
        unfold rd. zif_false. apply lookup_replicate_2.
        unfold zlen in Hi. simpl in Hi. rewrite length_replicate in Hi. lia.
Qed.

Lemma bml_newmap_all_free_witness :
  let '(h, map) := bml_newmap 4 16 20 7 in
  levl h = LCL_MAP_LEVL /\ bsiz h = 20 /\ tn h = 7 /\ zlen map = 20 - 16 /\ bytes_ok map /\
  GET_BM_STATUS map 0 = Some BLK_BUSY /\
  forall i, 0 < i < 4 * zlen map -> GET_BM_STATUS map i = Some BLK_FREE.
Proof. apply (bml_newmap_all_free 4 16 20 7). lia. Defined.
