(* ===== verification/Mval.v ===== *)
(** The M value cell (mval of sr_port/mdef.h) with its two numeric forms, the
    conversion between them (promodemo.c), from strings (s2n.c), the MV_FORCE
    macros, and numeric comparison (numcmp.c).  A number is the integer
    [num_value], 10^60 times the number the cell stands for. *)

From stdpp Require Import base list numbers option tactics.
From Stdlib Require Import ZArith Lia.
From S2P Require Import Prelude.

Open Scope Z_scope.

(** * Constants of mdef.h and arit.h *)

Definition MV_NM : Z := 1.
Definition MV_INT : Z := 2.
Definition MV_NUM_MASK : Z := 3.
Definition MV_STR : Z := 4.
Definition MV_NUM_APPROX : Z := 8.
Definition MV_SQLNULL : Z := 32768.
Definition MV_XBIAS : Z := 62.
Definition MV_BIAS : Z := 1000.
Definition NUM_DEC_DG_1L : Z := 9.
Definition NUM_DEC_DG_2L : Z := 18.
Definition EXPLO : Z := -42 + MV_XBIAS.
Definition EXPHI : Z := 48 + MV_XBIAS.
Definition EXP_INT_OVERF : Z := 7 + MV_XBIAS.
Definition EXP_INT_UNDERF : Z := -3 + MV_XBIAS.
Definition MANT_LO : Z := 100000000.
Definition MANT_HI : Z := 1000000000.
Definition INT_HI : Z := 1000000.
Definition MAX_DIGITS_IN_EXP : Z := 2.

(** The table of powers of ten; an index outside of it is undefined. *)
Definition ten_pwr_table : list Z :=
  [1; 10; 100; 1000; 10000; 100000; 1000000; 10000000; 100000000; 1000000000].
Definition ten_pwr (i : Z) : res Z := res_of (rd ten_pwr_table i).

(** * The mval *)

Record mval := mk_mval {
  mvtype : Z; mv_sgn : Z; mv_e : Z; mv_m0 : Z; mv_m1 : Z; mv_str : list Z
}.

(** [mvtype & mask] is not zero. *)
Definition has (mask : Z) (v : mval) : bool := negb (Z.land (mvtype v) mask =? 0).

Definition MV_DEFINED (v : mval) : bool := has (Z.lor MV_STR MV_NM) v.
Definition MV_IS_SQLNULL (v : mval) : bool := has MV_SQLNULL v.

Definition set_mvtype (t : Z) (v : mval) : mval :=
  mk_mval t (mv_sgn v) (mv_e v) (mv_m0 v) (mv_m1 v) (mv_str v).
Definition set_m1 (m : Z) (v : mval) : mval :=
  mk_mval (mvtype v) (mv_sgn v) (mv_e v) (mv_m0 v) m (mv_str v).
Definition set_m0m1 (a b : Z) (v : mval) : mval :=
  mk_mval (mvtype v) (mv_sgn v) (mv_e v) a b (mv_str v).
Definition set_sgn (sg : Z) (v : mval) : mval :=
  mk_mval (mvtype v) sg (mv_e v) (mv_m0 v) (mv_m1 v) (mv_str v).

(** The stores of an MV_INT result, of a floating one: the other fields stay. *)
Definition store_int (m : Z) (v : mval) : mval :=
  mk_mval (Z.lor MV_NM MV_INT) (mv_sgn v) (mv_e v) (mv_m0 v) m (mv_str v).
Definition store_flt (sg ex a b : Z) (v : mval) : mval := mk_mval MV_NM sg ex a b (mv_str v).

Definition literal_zero : mval := mk_mval (Z.lor MV_STR (Z.lor MV_NM MV_INT)) 0 0 0 0 [48].
Definition literal_null : mval :=
  mk_mval (Z.lor MV_STR (Z.lor MV_NM (Z.lor MV_INT MV_NUM_APPROX))) 0 0 0 0 [].
Definition literal_sqlnull : mval :=
  mk_mval (Z.lor MV_STR (Z.lor MV_NM (Z.lor MV_NUM_APPROX MV_SQLNULL))) 0 0 0 0 [].

(** * Between the two numeric forms *)

(** [while (m1 >= *pwr) { exp++; pwr++; }], [i] the index of [pwr]; [None] is
    not reached: the table ends above every [m1 < MANT_HI]. *)
Fixpoint count_digits (fuel : nat) (m1 i : Z) : res Z :=
  match fuel with
  | O => Err UB
  | S fuel' =>
      p ← ten_pwr i;
      if p <=? m1 then count_digits fuel' m1 (i + 1) else Ok i
  end.

Definition promote (v : mval) : res mval :=
  let m1 := mv_m1 v in
  if m1 =? 0 then Ok literal_zero
  else
    let sg := if 0 <? m1 then 0 else 1 in
    m1 ← (if 0 <? m1 then Ok m1 else int4 (- m1));
    exp ← count_digits 11 m1 0;
    p ← ten_pwr (NUM_DEC_DG_1L - exp);
    m1 ← int4 (m1 * p);
    Ok (mk_mval MV_NM sg (EXP_INT_UNDERF + exp) 0 m1 (mv_str v)).

(** The C division by [ten_pwr], of which the assertions say it is in range. *)
Definition demote (v : mval) (exp sign : Z) : res mval :=
  m1 ← (if exp =? 0 then Ok (mv_m1 v)
        else
          p ← ten_pwr (EXP_INT_OVERF - 1 - exp);
          if sign =? 0 then Ok (Z.quot (mv_m1 v) p) else Ok (Z.quot (mv_m1 v) (- p)));
  Ok (store_int m1 v).

(** * From a string to a number (s2n.c) *)

Definition DIGIT (x : Z) : bool := (48 <=? x) && (x <=? 57).

(** [*c] under the guard [c < eos]; -1, which is no character, outside. *)
Definition char_at (s : list Z) (c : Z) : Z := default (-1) (rd s c).

(** [for (; (c < eos) && (ch == *c); c++)]: [n] is [eos - c]. *)
Fixpoint skip_char (ch : Z) (n : nat) (s : list Z) (c : Z) : Z :=
  match n with
  | O => c
  | S n' => if char_at s c =? ch then skip_char ch n' s (c + 1) else c
  end.

(** The signs: [sign] grows by 1 for a minus and by 2 for a plus. *)
Fixpoint skip_signs (n : nat) (s : list Z) (c sign : Z) : Z * Z :=
  match n with
  | O => (c, sign)
  | S n' =>
      if char_at s c =? 45 then skip_signs n' s (c + 1) (sign + 1)
      else if char_at s c =? 43 then skip_signs n' s (c + 1) (sign + 2)
      else (c, sign)
  end.

(** The loops that fill m[1] ([n] is [w - c]): the position, m[1], and the
    number [i] of trailing zeroes read. *)
Fixpoint read_m1 (n : nat) (s : list Z) (c m1 i : Z) : res (Z * Z * Z) :=
  match n with
  | O => Ok (c, m1, i)
  | S n' =>
      let ch := char_at s c in
      if DIGIT ch then
        if ch =? 48 then
          m1 ← int4 (m1 * 10);
          read_m1 n' s (c + 1) m1 (i + 1)
        else
          m1 ← int4 (m1 * 10 + (ch - 48));
          read_m1 n' s (c + 1) m1 0
      else Ok (c, m1, i)
  end.

(** The loops that fill m[0]. *)
Fixpoint read_m0 (n : nat) (s : list Z) (c m0 : Z) : res (Z * Z) :=
  match n with
  | O => Ok (c, m0)
  | S n' =>
      let ch := char_at s c in
      if DIGIT ch then
        m0 ← int4 (m0 * 10 + (ch - 48));
        read_m0 n' s (c + 1) m0
      else Ok (c, m0)
  end.

(** The digits that no longer count: [z] grows with those before a dot. *)
Fixpoint skip_digits (n : nat) (s : list Z) (dot : bool) (c z : Z) (dotseen : bool) : Z * Z :=
  match n with
  | O => (c, z)
  | S n' =>
      let isdot := char_at s c =? 46 in
      if (isdot && negb dot) || DIGIT (char_at s c) then
        let dotseen := dotseen || isdot in
        skip_digits n' s dot (c + 1) (if dotseen then z else z + 1) dotseen
      else (c, z)
  end.

(** The digits of an exponent, of which [MAX_DIGITS_IN_EXP + 1] count. *)
Fixpoint read_exp (n : nat) (s : list Z) (c x expdigits : Z) : Z * Z * Z :=
  match n with
  | O => (c, x, expdigits)
  | S n' =>
      if DIGIT (char_at s c) then
        if expdigits <? MAX_DIGITS_IN_EXP + 1 then
          read_exp n' s (c + 1) (x * 10 + (char_at s c - 48)) (expdigits + 1)
        else read_exp n' s (c + 1) x expdigits
      else (c, x, expdigits)
  end.

(** What the parse up to the exponent leaves in the locals of s2n. *)
Record s2n_locals := mk_s2n_locals {
  l_c : Z; l_sign : Z; l_zero : Z; l_dot : bool; l_y : Z; l_z : Z;
  l_m1 : Z; l_m0 : Z; l_i : Z; l_k : Z; l_tail : bool
}.

(** The first nine significant digits: up to the mark R2 and [k = d - c]. *)
Definition s2n_m1 (s : list Z) : res s2n_locals :=
  let eos := zlen s in
  let n c := Z.to_nat (eos - c) in
  let '(c, sign) := skip_signs (n 0) s 0 0 in
  let c0 := c in
  let c := skip_char 48 (n c) s c in
  let zero := c - c0 in
  let dot := (c <? eos) && (char_at s c =? 46) in
  let c := if dot then c + 1 else c in
  let c0 := c in
  let c := skip_char 48 (n c) s c in
  let y := - (c - c0) in
  let d := c + 9 in
  let w := if d <? eos then d else eos in
  let c0 := c in
  '(c, m1, i) ← read_m1 (Z.to_nat (w - c)) s c 0 0;
  let z := c - c0 in
  let seendot := (c <? w) && ((char_at s c =? 46) && negb dot) in
  let y := if seendot then z else y in
  let w := if seendot && (w <? eos) then w + 1 else w in
  let d := if seendot then d + 1 else d in
  let c := if seendot then c + 1 else c in
  let dot := if seendot then true else dot in
  '(c, m1, i) ← read_m1 (Z.to_nat (w - c)) s c m1 i;
  Ok (mk_s2n_locals c sign zero dot y z m1 0 i (d - c) false).

(** The next nine digits, into m[0], under [if (c < eos)]. *)
Definition s2n_m0 (s : list Z) (l : s2n_locals) : res s2n_locals :=
  let eos := zlen s in
  let c := l_c l in
  if c <? eos then
    let d := c + 9 in
    let w := if d <? eos then d else eos in
    let c0 := c in
    '(c, m0) ← read_m0 (Z.to_nat (w - c)) s c (l_m0 l);
    let z := l_z l + (c - c0) in
    let seendot := (c <? w) && ((char_at s c =? 46) && negb (l_dot l)) in
    let y := if seendot then z else l_y l in
    let w := if seendot && (w <? eos) then w + 1 else w in
    let d := if seendot then d + 1 else d in
    let c := if seendot then c + 1 else c in
    let dot := if seendot then true else l_dot l in
    '(c, m0) ← read_m0 (Z.to_nat (w - c)) s c m0;
    p ← ten_pwr (d - c);
    m0 ← int4 (m0 * p);
    let c0 := c in
    let c := skip_char 48 (Z.to_nat (eos - c)) s c in
    let z := z + (c - c0) in
    Ok (mk_s2n_locals c (l_sign l) (l_zero l) dot y z (l_m1 l) m0 (l_i l) (l_k l) (l_tail l))
  else Ok l.

(** [tail] and the digits beyond the eighteenth. *)
Definition s2n_tail (s : list Z) (l : s2n_locals) : s2n_locals :=
  let eos := zlen s in
  let c := l_c l in
  let tail := negb (c =? eos)
              || (l_dot l && ((char_at s (c - 1) =? 48) || (char_at s (c - 1) =? 46))) in
  let '(c, z) := skip_digits (Z.to_nat (eos - c)) s (l_dot l) c (l_z l) (l_dot l) in
  mk_s2n_locals c (l_sign l) (l_zero l) (l_dot l) (l_y l) z (l_m1 l) (l_m0 l) (l_i l) (l_k l) tail.

(** The exponent [x], whether an E was seen, and the final position. *)
Definition s2n_exp (s : list Z) (l : s2n_locals) : Z * bool * Z :=
  let eos := zlen s in
  let c := l_c l in
  let digit := negb (l_z l =? 0) || (negb (l_y l =? 0) || negb (l_zero l =? 0)) in
  let exp := (c <? eos) && ((char_at s c =? 69) && digit) in
  if exp && (c + 1 <? eos) then
    let w := c in
    let c := c + 1 in
    let exneg := char_at s c =? 45 in
    let c := if exneg || (char_at s c =? 43) then c + 1 else c in
    let d := c in
    let c := skip_char 48 (Z.to_nat (eos - c)) s c in
    let '(c, x, expdigits) := read_exp (Z.to_nat (eos - c)) s c 0 0 in
    if (expdigits =? 0) && (d =? c) then (x, exp, w)
    else ((if exneg then - x else x), exp, c)
  else (0, exp, c).

(** The choice of the numeric form, under [if (digit)]: m[1] is [l_m1 l]. *)
Definition s2n_store (compile_time : bool) (u : mval) (l : s2n_locals) (x : Z) (intlit : bool)
    : res (mval * bool) :=
  let sign := l_sign l in
  let x := x + (if l_dot l then l_y l else l_z l) in
  let j := x + l_k l - 6 in
  let i := l_i l + j in
  let approx := l_tail l || ((1 <? sign) || (negb (l_zero l =? 0) && negb (zlen (mv_str u) =? 1))) in
  let neg := Z.odd sign in
  if (l_m0 l =? 0) && ((x <=? 6) && (0 <=? i)) then
    let t := Z.lor (mvtype u)
               (Z.lor MV_NM (Z.lor MV_INT (if approx then MV_NUM_APPROX else 0))) in
    m1 ← (if j <? 0 then
            p ← ten_pwr (- j);
            Ok (Z.quot (l_m1 l) (if neg then - p else p))
          else
            p ← ten_pwr j;
            int4 (l_m1 l * (if neg then - p else p)));
    Ok (mk_mval t (mv_sgn u) (mv_e u) (l_m0 l) m1 (mv_str u), intlit)
  else
    p ← ten_pwr (l_k l);
    m1 ← int4 (l_m1 l * p);
    let x := x + MV_XBIAS in
    if (x <? EXPLO) || (m1 =? 0) then
      Ok (mk_mval (Z.lor (mvtype u) (Z.lor MV_NM (Z.lor MV_INT MV_NUM_APPROX)))
            (mv_sgn u) (mv_e u) (l_m0 l) 0 (mv_str u), intlit)
    else if EXPHI <=? x then
      if compile_time then
        Ok (mk_mval (Z.land (mvtype u) (Z.lnot (Z.lor MV_NM (Z.lor MV_INT MV_NUM_APPROX))))
              (mv_sgn u) (mv_e u) (l_m0 l) m1 (mv_str u), false)
      else Err ERR_NUMOFLOW
    else
      Ok (mk_mval (Z.lor (mvtype u) (Z.lor MV_NM (if approx then MV_NUM_APPROX else 0)))
            (Z.b2z neg) x (l_m0 l) m1 (mv_str u), intlit).

(** The cell with its number, TREF(s2n_intlit), and the position returned. *)
Definition s2n (compile_time : bool) (intlit0 : bool) (u : mval) : res (mval * bool * Z) :=
  if zlen (mv_str u) =? 0 then
    if negb (MV_IS_SQLNULL u) then Ok (literal_null, true, 0)
    else Ok (literal_sqlnull, intlit0, 0)
  else
    let s := mv_str u in
    l ← s2n_m1 s;
    l ← s2n_m0 s l;
    let l := s2n_tail s l in
    let digit := negb (l_z l =? 0) || (negb (l_y l =? 0) || negb (l_zero l =? 0)) in
    let '(x, exp, c) := s2n_exp s l in
    let intlit := negb (l_sign l =? 0) || (l_dot l || exp) in
    if digit then
      '(u, intlit) ← s2n_store compile_time u l x intlit;
      Ok (u, intlit, c)
    else
      Ok (mk_mval (Z.lor (mvtype u) (Z.lor MV_NM (Z.lor MV_INT MV_NUM_APPROX)))
            (mv_sgn u) (mv_e u) (l_m0 l) 0 (mv_str u), intlit, c).

(** * The MV_FORCE macros

    The cell a macro returns is the one its pointer names afterwards: itself,
    with the number or string it has gained, or literal_null when underr
    replaces an undefined variable. *)

Record globals := mk_globals { undef_inhibit : bool; compile_time : bool }.

Definition underr (g : globals) : res mval :=
  if undef_inhibit g then Ok literal_null else Err ERR_LVUNDEF.

Definition MV_FORCE_DEFINED (g : globals) (v : mval) : res mval :=
  if negb (MV_DEFINED v) then underr g else Ok v.

Definition MV_FORCE_NUMD (g : globals) (v : mval) : res mval :=
  if negb (has MV_NM v) then
    '(v, _, _) ← s2n (compile_time g) false v; Ok v
  else if MV_IS_SQLNULL v then Err ERR_ZYSQLNULLNOTVALID
  else Ok v.

Definition MV_FORCE_NUM (g : globals) (v : mval) : res mval :=
  v ← MV_FORCE_DEFINED g v; MV_FORCE_NUMD g v.

Definition MV_FORCE_CANONICAL (g : globals) (v : mval) : res mval :=
  v ← (if negb (has MV_NM v) then '(v, _, _) ← s2n (compile_time g) false v; Ok v else Ok v);
  if has MV_NUM_APPROX v then Ok (set_mvtype (Z.land (mvtype v) MV_NUM_MASK) v) else Ok v.

(** * Numeric comparison (numcmp.c) *)

(** The comparison of two promoted cells. *)
Definition cmp_promoted (u v : mval) : Z :=
  let u_sgn := if mv_sgn u =? 0 then 1 else -1 in
  let v_sgn := if mv_sgn v =? 0 then 1 else -1 in
  if negb (u_sgn =? v_sgn) then u_sgn
  else
    let exp_diff := mv_e u - mv_e v in
    if negb (exp_diff =? 0) then (if exp_diff <? 0 then - u_sgn else u_sgn)
    else
      let m1_diff := mv_m1 u - mv_m1 v in
      if negb (m1_diff =? 0) then (if m1_diff <? 0 then - u_sgn else u_sgn)
      else if mv_m1 u =? 0 then 0
      else
        let m0_diff := mv_m0 u - mv_m0 v in
        if negb (m0_diff =? 0) then (if m0_diff <? 0 then - u_sgn else u_sgn)
        else 0.

Definition cmp_int (u v : mval) : Z :=
  if mv_m1 v <? mv_m1 u then 1 else if mv_m1 u =? mv_m1 v then 0 else -1.

(** The result and the two operands, converted. *)
Definition numcmp (g : globals) (u v : mval) : res (Z * mval * mval) :=
  if MV_IS_SQLNULL u || MV_IS_SQLNULL v then
    _ ← MV_FORCE_DEFINED g u;
    _ ← MV_FORCE_DEFINED g v;
    Err ERR_ZYSQLNULLNOTVALID
  else
    u ← MV_FORCE_NUM g u;
    v ← MV_FORCE_NUM g v;
    if has MV_INT u && has MV_INT v then Ok (cmp_int u v, u, v)
    else if has MV_INT u then
      w ← promote u; Ok (cmp_promoted w v, u, v)
    else if has MV_INT v then
      w ← promote v; Ok (cmp_promoted u w, u, v)
    else Ok (cmp_promoted u v, u, v).

(** * Numbers *)

(** The integer and the floating form within their ranges. *)
Definition int_form (v : mval) : Prop :=
  has MV_NM v = true /\ has MV_INT v = true /\ MV_IS_SQLNULL v = false /\
  - MANT_HI < mv_m1 v < MANT_HI.

Definition flt_form (v : mval) : Prop :=
  has MV_NM v = true /\ has MV_INT v = false /\ MV_IS_SQLNULL v = false /\
  0 <= mv_sgn v <= 1 /\ EXPLO <= mv_e v < EXPHI /\
  MANT_LO <= mv_m1 v < MANT_HI /\ 0 <= mv_m0 v < MANT_HI.

Definition num_ok (v : mval) : Prop := int_form v \/ flt_form v.

(** The mantissa as one integer of eighteen digits. *)
Definition mant (v : mval) : Z := mv_m1 v * MANT_HI + mv_m0 v.

Definition flt_value (v : mval) : Z :=
  (if mv_sgn v =? 0 then 1 else -1) * (mant v * 10 ^ (mv_e v - EXPLO)).

(** 10^60 times the number of the cell. *)
Definition num_value (v : mval) : Z :=
  if has MV_INT v then mv_m1 v * 10 ^ 57 else flt_value v.

#[global] Instance int_form_dec v : Decision (int_form v).
Proof. unfold int_form. apply _. Defined.
#[global] Instance flt_form_dec v : Decision (flt_form v).
Proof. unfold flt_form. apply _. Defined.
#[global] Instance num_ok_dec v : Decision (num_ok v).
Proof. unfold num_ok. apply _. Defined.

(** * Lemmas *)

Ltac num_consts :=
  unfold MANT_HI, MANT_LO, EXPLO, EXPHI, EXP_INT_OVERF, EXP_INT_UNDERF, MV_XBIAS,
    NUM_DEC_DG_1L, NUM_DEC_DG_2L, MV_BIAS, INT_HI in *.

Lemma ten_pwr_spec i : 0 <= i <= 9 -> ten_pwr i = Ok (10 ^ i).
Proof.
  intros H. assert (i = 0 \/ i = 1 \/ i = 2 \/ i = 3 \/ i = 4 \/ i = 5 \/ i = 6 \/ i = 7 \/ i = 8 \/ i = 9)
    as Hc by lia.
  repeat destruct Hc as [-> | Hc]; try subst i; reflexivity.
Qed.

Lemma count_digits_from fuel m1 i :
  10 ^ i <= 10 * m1 -> 0 <= i <= 9 -> 0 < m1 < 10 ^ 9 -> (9 - i < Z.of_nat fuel) ->
  exists d, count_digits fuel m1 i = Ok d /\ i <= d <= 9 /\ 10 ^ d <= 10 * m1 /\ m1 < 10 ^ d.
Proof.
  revert i. induction fuel as [|fuel IH]; intros i Hi Hr Hm Hf; [lia|].
  cbn [count_digits]. rewrite ten_pwr_spec by lia. cbn [mbind res_bind].
  destruct (Z.leb_spec (10 ^ i) m1).
  - assert (i < 9) by (destruct (Z.eq_dec i 9) as [->|]; lia).
    destruct (IH (i + 1)) as (d & -> & Hd); try lia.
    + rewrite Z.pow_add_r by lia. lia.
    + exists d. intuition lia.
  - exists i. split; [done|]. lia.
Qed.

Lemma count_digits_spec m1 :
  0 < m1 < MANT_HI ->
  exists d, count_digits 11 m1 0 = Ok d /\ 1 <= d <= 9 /\ 10 ^ d <= 10 * m1 /\ m1 < 10 ^ d.
Proof.
  intros H. destruct (count_digits_from 11 m1 0) as (d & E & Hd & H1 & H2); num_consts; try lia.
  exists d. split; [done|]. split; [|lia]. destruct (Z.eq_dec d 0) as [->|]; lia.
Qed.

Definition sgn_of (m : Z) : Z := if 0 <? m then 0 else 1.
Definition sg (s : Z) : Z := if s =? 0 then 1 else -1.

(** The promoted form of a nonzero integer cell. *)
Lemma promote_spec v :
  int_form v -> mv_m1 v <> 0 ->
  exists d, promote v = Ok (mk_mval MV_NM (sgn_of (mv_m1 v)) (59 + d) 0
                              (Z.abs (mv_m1 v) * 10 ^ (9 - d)) (mv_str v)) /\
    1 <= d <= 9 /\ MANT_LO <= Z.abs (mv_m1 v) * 10 ^ (9 - d) < MANT_HI.
Proof.
  intros (_ & _ & _ & Hm) Hnz. unfold promote.
  replace (mv_m1 v =? 0) with false by (symmetry; by apply Z.eqb_neq).
  assert ((if 0 <? mv_m1 v then Ok (mv_m1 v) else int4 (- mv_m1 v)) = Ok (Z.abs (mv_m1 v))) as ->.
  { zcase; [f_equal; lia|]. rewrite int4_ok by (num_consts; lia). f_equal; lia. }
  rewrite res_bind_ok. destruct (count_digits_spec (Z.abs (mv_m1 v))) as (d & -> & Hd & H1 & H2);
    [lia|]. rewrite res_bind_ok. unfold NUM_DEC_DG_1L. rewrite ten_pwr_spec by lia.
  rewrite res_bind_ok. exists d.
  assert (Hp : 10 ^ 9 = 10 ^ d * 10 ^ (9 - d)) by (rewrite <- Z.pow_add_r by lia; f_equal; lia).
  assert (0 < 10 ^ (9 - d)) by (apply Z.pow_pos_nonneg; lia).
  assert (MANT_LO <= Z.abs (mv_m1 v) * 10 ^ (9 - d) < MANT_HI) by (num_consts; nia).
  rewrite int4_ok by (num_consts; lia). rewrite res_bind_ok. unfold sgn_of, EXP_INT_UNDERF, MV_XBIAS.
  replace (-3 + 62 + d) with (59 + d) by lia. done.
Qed.

Lemma promote_value v w :
  int_form v -> mv_m1 v <> 0 -> promote v = Ok w ->
  flt_form w /\ mv_m0 w = 0 /\ 60 <= mv_e w <= 68 /\ flt_value w = num_value v.
Proof.
  intros Hv Hnz E. destruct (promote_spec v Hv Hnz) as (d & E' & Hd & Hr).
  rewrite E' in E. injection E as <-. split; [|split; [done|split; [simpl; lia|]]].
  - repeat split; simpl; unfold sgn_of; num_consts; try zcase; lia.
  - unfold num_value. destruct Hv as (_ & -> & _).
    unfold flt_value, mant, sgn_of; simpl; num_consts.
    assert (Hp : 10 ^ 57 = 10 ^ (9 - d) * 1000000000 * 10 ^ (59 + d - (-42 + 62))).
    { replace 1000000000 with (10 ^ 9) by done. rewrite <- !Z.pow_add_r by lia. f_equal. lia. }
    rewrite Hp. destruct (Z.ltb_spec 0 (mv_m1 v)); simpl Z.eqb; cbv iota; nia.
Qed.

Lemma flt_mant v : flt_form v -> 10 ^ 17 <= mant v < 10 ^ 18.
Proof. intros (_ & _ & _ & _ & _ & H1 & H0). unfold mant. num_consts. lia. Qed.

Lemma flt_value_sign v : flt_form v -> flt_value v <> 0 /\ Z.sgn (flt_value v) = sg (mv_sgn v).
Proof.
  intros H. pose proof (flt_mant v H). destruct H as (_ & _ & _ & _ & He & _).
  assert (0 < 10 ^ (mv_e v - EXPLO)) by (apply Z.pow_pos_nonneg; lia).
  unfold flt_value, sg. destruct (mv_sgn v =? 0).
  - rewrite Z.sgn_pos; nia.
  - rewrite Z.sgn_neg; nia.
Qed.

(** Normalised mantissas: the exponents decide first. *)
Lemma mant_order a b x y :
  10 ^ 17 <= a < 10 ^ 18 -> 0 <= b < 10 ^ 18 -> 0 <= y < x -> b * 10 ^ y < a * 10 ^ x.
Proof.
  intros Ha Hb Hxy. replace x with (y + 1 + (x - y - 1)) by lia.
  rewrite !Z.pow_add_r by lia.
  assert (0 < 10 ^ y) by (apply Z.pow_pos_nonneg; lia).
  assert (0 < 10 ^ (x - y - 1)) by (apply Z.pow_pos_nonneg; lia).
  apply Z.lt_le_trans with (10 * a * 10 ^ y); [nia|].
  replace (a * (10 ^ y * 10 ^ 1 * 10 ^ (x - y - 1))) with (10 * a * 10 ^ y * 10 ^ (x - y - 1)) by lia.
  nia.
Qed.

Lemma mant_cmp a b x y :
  10 ^ 17 <= a < 10 ^ 18 -> 10 ^ 17 <= b < 10 ^ 18 -> 0 <= x -> 0 <= y ->
  Z.sgn (a * 10 ^ x - b * 10 ^ y) = if x - y =? 0 then Z.sgn (a - b) else Z.sgn (x - y).
Proof.
  intros Ha Hb Hx Hy. destruct (Z.eqb_spec (x - y) 0).
  - replace y with x by lia. rewrite <- Z.mul_sub_distr_r, Z.sgn_mul.
    rewrite (Z.sgn_pos (10 ^ x)) by (apply Z.pow_pos_nonneg; lia). lia.
  - destruct (Z.lt_total x y) as [|[|]]; [|lia|].
    + pose proof (mant_order b a y x). rewrite !Z.sgn_neg by lia. done.
    + pose proof (mant_order a b x y). rewrite !Z.sgn_pos by lia. done.
Qed.

Lemma cmp_promoted_spec u v :
  flt_form u -> flt_form v -> cmp_promoted u v = Z.sgn (flt_value u - flt_value v).
Proof.
  intros Hu Hv. pose proof (flt_mant u Hu) as Mu. pose proof (flt_mant v Hv) as Mv.
  pose proof (flt_value_sign u Hu) as (Nu & Su). pose proof (flt_value_sign v Hv) as (Nv & Sv).
  destruct Hu as (_ & _ & _ & _ & Eu & Uu). destruct Hv as (_ & _ & _ & _ & Ev & Vv).
  unfold cmp_promoted. fold (sg (mv_sgn u)) (sg (mv_sgn v)).
  destruct (Z.eqb_spec (sg (mv_sgn u)) (sg (mv_sgn v))) as [Es|Es]; simpl negb; cbv iota.
  2: { unfold sg in *. repeat zcase; lia. }
  assert (Hc : Z.sgn (flt_value u - flt_value v) = sg (mv_sgn u) *
     (if mv_e u - mv_e v =? 0 then Z.sgn (mant u - mant v) else Z.sgn (mv_e u - mv_e v))).
  { replace (mv_e u - mv_e v) with (mv_e u - EXPLO - (mv_e v - EXPLO)) by lia.
    rewrite <- mant_cmp by (num_consts; lia). unfold flt_value. fold (sg (mv_sgn u)) (sg (mv_sgn v)).
    rewrite <- Es, <- Z.mul_sub_distr_l, Z.sgn_mul. f_equal. unfold sg. by zcase. }
  rewrite Hc. unfold mant in *. num_consts. generalize (sg (mv_sgn u)); intros s.
  repeat zcase; lia.
Qed.

Lemma num_ok_flags v : num_ok v -> has MV_NM v = true /\ MV_IS_SQLNULL v = false.
Proof. intros [H|H]; split; apply H. Qed.

Lemma defined_of_nm v : has MV_NM v = true -> MV_DEFINED v = true.
Proof.
  unfold MV_DEFINED, has, MV_NM, MV_STR. rewrite !negb_true_iff, !Z.eqb_neq. intros H E. apply H.
  apply Z.bits_inj_0. intros n. apply (f_equal (fun z => Z.testbit z n)) in E.
  rewrite Z.land_spec, Z.lor_spec, Z.bits_0 in E. rewrite Z.land_spec.
  destruct (Z.testbit (mvtype v) n); [|done]. simpl in *. by destruct (Z.testbit 4 n).
Qed.

Lemma force_num_ok g v : num_ok v -> MV_FORCE_NUM g v = Ok v.
Proof.
  intros H%num_ok_flags. destruct H as [Hn Hs]. unfold MV_FORCE_NUM, MV_FORCE_DEFINED, MV_FORCE_NUMD.
  rewrite (defined_of_nm v Hn). cbn [negb mbind res_bind]. by rewrite Hn, Hs.
Qed.

Lemma num_value_int v : int_form v -> num_value v = mv_m1 v * 10 ^ 57.
Proof. unfold num_value. by intros (_ & -> & _). Qed.

Lemma num_value_flt v : flt_form v -> num_value v = flt_value v.
Proof. unfold num_value. by intros (_ & -> & _). Qed.

(** A promoted cell, zero included, against a floating one. *)
Lemma cmp_promote_l u v :
  int_form u -> flt_form v ->
  exists w, promote u = Ok w /\ cmp_promoted w v = Z.sgn (num_value u - flt_value v).
Proof.
  intros Hu Hv. destruct (Z.eq_dec (mv_m1 u) 0) as [Z0|Hnz].
  - exists literal_zero. split; [unfold promote; by rewrite Z0|].
    rewrite num_value_int, Z0 by done. pose proof (flt_value_sign v Hv) as (_ & Hs).
    destruct Hv as (_ & _ & _ & _ & He & Hm & _).
    unfold cmp_promoted; simpl. rewrite Z.sgn_opp, Hs. unfold sg. num_consts. repeat zcase; first [discriminate|lia].
  - destruct (promote_spec u Hu Hnz) as (d & E & _). eexists. split; [done|].
    destruct (promote_value _ _ Hu Hnz E) as (Hf & _ & _ & <-). by apply cmp_promoted_spec.
Qed.

Lemma cmp_promote_r u v :
  flt_form u -> int_form v ->
  exists w, promote v = Ok w /\ cmp_promoted u w = Z.sgn (flt_value u - num_value v).
Proof.
  intros Hu Hv. destruct (Z.eq_dec (mv_m1 v) 0) as [Z0|Hnz].
  - exists literal_zero. split; [unfold promote; by rewrite Z0|].
    rewrite num_value_int, Z0 by done. pose proof (flt_value_sign u Hu) as (_ & Hs).
    destruct Hu as (_ & _ & _ & _ & He & Hm & _).
    rewrite Z.mul_0_l, Z.sub_0_r, Hs. unfold cmp_promoted; simpl. unfold sg. num_consts. repeat zcase; first [discriminate|lia].
  - destruct (promote_spec v Hv Hnz) as (d & E & _). eexists. split; [done|].
    destruct (promote_value _ _ Hv Hnz E) as (Hf & _ & _ & <-). by apply cmp_promoted_spec.
Qed.

Lemma cmp_int_spec u v :
  int_form u -> int_form v -> cmp_int u v = Z.sgn (num_value u - num_value v).
Proof.
  intros Hu Hv. rewrite !num_value_int by done. rewrite <- Z.mul_sub_distr_r, Z.sgn_mul.
  rewrite (Z.sgn_pos (10 ^ 57)) by done. unfold cmp_int. repeat zcase; lia.
Qed.

(** * A number by its sign, exponent and mantissa *)

(** [x] is plus or minus [M] times 10^(E-20), [M] of eighteen digits. *)
Definition norm (x : Z) (neg : bool) (E M : Z) : Prop :=
  10 ^ 17 <= M < 10 ^ 18 /\ EXPLO <= E < EXPHI /\
  x = (if neg then -1 else 1) * (M * 10 ^ (E - EXPLO)).

(** The digits of the integer form with [n] digits: its mantissa. *)
Lemma int_digits n mt :
  1 <= n <= 9 -> 10 ^ (n - 1) <= mt < 10 ^ n -> forall neg : bool,
  norm ((if neg then - mt else mt) * 10 ^ 57) neg (59 + n) (mt * 10 ^ (18 - n)).
Proof.
  intros Hn Hm neg. unfold norm. pose proof (Z.pow_pos_nonneg 10 (18 - n) ltac:(lia) ltac:(lia)).
  split; [|split].
  - replace 17 with (n - 1 + (18 - n)) by lia. replace (10 ^ 18) with (10 ^ (n + (18 - n))) by (f_equal; lia).
    rewrite !Z.pow_add_r by lia. nia.
  - num_consts. lia.
  - num_consts. replace (10 ^ 57) with (10 ^ (18 - n) * 10 ^ (59 + n - (-42 + 62)))
      by (rewrite <- Z.pow_add_r by lia; f_equal; lia). destruct neg; lia.
Qed.

Lemma int_digits_ex mt :
  0 < mt < MANT_HI -> exists n, 1 <= n <= 9 /\ 10 ^ (n - 1) <= mt < 10 ^ n.
Proof.
  intros H. destruct (count_digits_spec mt H) as (d & _ & Hd & H1 & H2). exists d.
  split; [done|]. replace d with (1 + (d - 1)) in H1 by lia. rewrite Z.pow_add_r in H1 by lia. lia.
Qed.

Lemma norm_pos x E M : norm x false E M -> 0 < x.
Proof.
  intros (HM & HE & ->). pose proof (Z.pow_pos_nonneg 10 (E - EXPLO) ltac:(lia) ltac:(lia)). nia.
Qed.

Lemma norm_neg x E M : norm x true E M -> x < 0.
Proof.
  intros (HM & HE & ->). pose proof (Z.pow_pos_nonneg 10 (E - EXPLO) ltac:(lia) ltac:(lia)). nia.
Qed.

(** * The properties of the component *)

(** C25: numcmp answers the sign of the difference of the two numbers (1, 0 or
    -1), for every combination of the two numeric forms, and leaves operands
    that are already numbers unchanged; promote does not fail on them. *)
Theorem numcmp_sign g u v :
  num_ok u -> num_ok v ->
  numcmp g u v = Ok (Z.sgn (num_value u - num_value v), u, v).
Proof.
  intros Hu Hv. pose proof (num_ok_flags u Hu) as (_ & Su). pose proof (num_ok_flags v Hv) as (_ & Sv).
  unfold numcmp. rewrite Su, Sv. simpl orb. cbv iota.
  rewrite !force_num_ok by done. cbn [mbind res_bind].
  destruct Hu as [Hu|Hu], Hv as [Hv|Hv]; pose proof Hu as (_ & Iu & _); pose proof Hv as (_ & Iv & _);
    rewrite Iu, Iv; simpl andb; cbv iota.
  - by rewrite cmp_int_spec.
  - destruct (cmp_promote_l u v Hu Hv) as (w & -> & E). cbn [mbind res_bind].
    by rewrite E, (num_value_flt v).
  - destruct (cmp_promote_r u v Hu Hv) as (w & -> & E). cbn [mbind res_bind].
    by rewrite E, (num_value_flt u).
  - by rewrite cmp_promoted_spec, (num_value_flt u), (num_value_flt v).
Qed.

(** 1234567.891 against 1234567. *)
Lemma numcmp_sign_witness :
  numcmp (mk_globals false false)
    (mk_mval 5 0 69 100000000 123456789 []) (mk_mval 3 0 0 0 999999000 []) =
  Ok (1, mk_mval 5 0 69 100000000 123456789 [], mk_mval 3 0 0 0 999999000 []).
Proof.
  apply (numcmp_sign (mk_globals false false)
    (mk_mval 5 0 69 100000000 123456789 []) (mk_mval 3 0 0 0 999999000 [])); by_compute.
Defined.

(** Promote turns an integer form into the floating form of the same
    number (zero into the integer literal 0), with all arithmetic within the
    [int4] range; demote undoes it and yields the integer form with the sign
    that it is passed. *)
Theorem promote_demote v :
  int_form v ->
  exists w, promote v = Ok w /\ num_value w = num_value v /\
    if mv_m1 v =? 0 then w = literal_zero
    else flt_form w /\
      demote w (mv_e w) (mv_sgn w) = Ok (mk_mval 3 (mv_sgn w) (mv_e w) (mv_m0 w) (mv_m1 v) (mv_str v)).
Proof.
  intros Hv. destruct (Z.eqb_spec (mv_m1 v) 0) as [Z0|Hnz].
  - exists literal_zero. unfold promote. rewrite (num_value_int v), Z0 by done. done.
  - destruct (promote_spec v Hv Hnz) as (d & E & Hd & Hr). eexists. split; [done|].
    destruct (promote_value _ _ Hv Hnz E) as (Hf & _ & _ & Hval).
    rewrite num_value_flt by done. split; [done|]. split; [done|].
    unfold demote. simpl mv_e. simpl mv_sgn. simpl mv_m1.
    replace (59 + d =? 0) with false by (symmetry; apply Z.eqb_neq; lia).
    unfold EXP_INT_OVERF, MV_XBIAS. replace (7 + 62 - 1 - (59 + d)) with (9 - d) by lia.
    rewrite ten_pwr_spec by lia. cbn [mbind res_bind].
    assert (0 < 10 ^ (9 - d)) by (apply Z.pow_pos_nonneg; lia).
    unfold sgn_of. destruct (Z.ltb_spec 0 (mv_m1 v)); simpl Z.eqb; cbv iota; cbn [mbind res_bind].
    + rewrite Z.quot_mul by lia. rewrite Z.abs_eq by lia. done.
    + rewrite Z.quot_opp_r, Z.quot_mul by lia. rewrite Z.abs_neq, Z.opp_involutive by lia. done.
Qed.

Lemma promote_demote_witness :
  exists w, promote (mk_mval 3 0 0 0 (-1500) []) = Ok w /\
    num_value w = num_value (mk_mval 3 0 0 0 (-1500) []) /\
    if mv_m1 (mk_mval 3 0 0 0 (-1500) []) =? 0 then w = literal_zero
    else flt_form w /\
      demote w (mv_e w) (mv_sgn w) = Ok (mk_mval 3 (mv_sgn w) (mv_e w) (mv_m0 w) (-1500) []).
Proof. apply (promote_demote (mk_mval 3 0 0 0 (-1500) [])). by_compute. Defined.
