(* ===== verification/AddSub.v ===== *)
(** Addition and subtraction of M numbers (op_add.c: op_add, op_sub and
    add_mvals).  The sum is refined to a reference on the integers
    [num_value]: operands cut to the eighteen digits below the leading digit
    of the larger one, added, and cut again when a nineteenth digit appears. *)

From stdpp Require Import base list numbers option tactics.
From Stdlib Require Import ZArith Lia Zquot.
From S2P Require Import Prelude Mval.

Open Scope Z_scope.

(** * add_mvals *)

(** An operand in the locals of add_mvals: sign, m1, m0, exponent. *)
Record operand := mk_operand { o_sign : Z; o_m1 : Z; o_m0 : Z; o_exp : Z }.

(** [for (exp = EXP_INT_OVERF - 1; m1 < MANT_LO; m1 *= 10, exp--)]. *)
Fixpoint scale_up (fuel : nat) (m1 exp : Z) : res (Z * Z) :=
  match fuel with
  | O => Err UB
  | S fuel' =>
      if m1 <? MANT_LO then
        m1 ← int4 (m1 * 10);
        scale_up fuel' m1 (exp - 1)
      else Ok (m1, exp)
  end.

(** The C operator [!]. *)
Definition c_not (z : Z) : Z := if z =? 0 then 1 else 0.

(** The operand of a cell, its sign flipped when [flip] is 1; [None] for an
    integer zero, on which the code jumps to result_is_v or result_is_u. *)
Definition load (flip : Z) (u : mval) : res (option operand) :=
  let m1 := mv_m1 u in
  if negb (has MV_INT u) then
    Ok (Some (mk_operand (Z.lxor (mv_sgn u) flip) m1 (mv_m0 u) (mv_e u)))
  else if m1 =? 0 then Ok None
  else
    let sign := if 0 <? m1 then flip else c_not flip in
    m1 ← (if 0 <? m1 then Ok m1 else int4 (- m1));
    '(m1, exp) ← scale_up 10 m1 (EXP_INT_OVERF - 1);
    Ok (Some (mk_operand sign m1 0 exp)).

(** The operand of the smaller exponent moved right by [delta] digits. *)
Definition shift_right (delta n1 n0 : Z) : res (Z * Z) :=
  if NUM_DEC_DG_1L <=? delta then
    p ← ten_pwr (delta - NUM_DEC_DG_1L);
    Ok (0, Z.quot n1 p)
  else if 0 <? delta then
    factor ← ten_pwr delta;
    let x := n1 in
    let n1 := Z.quot n1 factor in
    p ← ten_pwr (NUM_DEC_DG_1L - delta);
    n0 ← int4 ((x - n1 * factor) * p + Z.quot n0 factor);
    Ok (n1, n0)
  else Ok (n1, n0).

(** Operands of one sign: m1, m0 and exponent of the sum. *)
Definition add_mant (m1 m0 n1 n0 exp : Z) : res (Z * Z * Z) :=
  m0 ← int4 (m0 + n0);
  let carry := MANT_HI <=? m0 in
  let m1 := if carry then m1 + 1 else m1 in
  let m0 := if carry then m0 - MANT_HI else m0 in
  m1 ← int4 (m1 + n1);
  if MANT_HI <=? m1 then
    let x := Z.quot m1 10 in
    m0 ← int4 (Z.quot m0 10 + (m1 - x * 10) * MANT_LO);
    Ok (x, m0, exp + 1)
  else Ok (m1, m0, exp).

(** [for (delta = 0; m1 < MANT_LO; delta++) m1 *= 10]. *)
Fixpoint norm_left (fuel : nat) (m1 delta : Z) : res (Z * Z) :=
  match fuel with
  | O => Err UB
  | S fuel' =>
      if m1 <? MANT_LO then
        m1 ← int4 (m1 * 10);
        norm_left fuel' m1 (delta + 1)
      else Ok (m1, delta)
  end.

(** The shift to the left of a difference whose leading digits are zero. *)
Definition norm_mant (m1 m0 exp : Z) : res (option (Z * Z * Z)) :=
  '(m1, delta) ← norm_left 10 m1 0;
  factor ← ten_pwr (NUM_DEC_DG_1L - delta);
  let x := Z.quot m0 factor in
  m1 ← int4 (m1 + x);
  p ← ten_pwr delta;
  m0 ← int4 ((m0 - x * factor) * p);
  Ok (Some (m1, m0, exp - delta)).

(** Operands of different signs, the first the larger: the difference, or
    [None] when it is zero. *)
Definition sub_mant (m1 m0 n1 n0 exp : Z) : res (option (Z * Z * Z)) :=
  let m0 := m0 - n0 in
  let borrow := m0 <? 0 in
  let m1 := if borrow then m1 - 1 else m1 in
  let m0 := if borrow then m0 + MANT_HI else m0 in
  let m1 := m1 - n1 in
  let z := m1 =? 0 in
  let exp := if z then exp - NUM_DEC_DG_1L else exp in
  let m1 := if z then m0 else m1 in
  if z && (m1 =? 0) then Ok None
  else
    let m0 := if z then 0 else m0 in
    let neg := m1 <? 0 in
    let m1 := if neg then m1 + MANT_HI else m1 in
    let exp := if neg then exp - 1 else exp in
    if m1 <? MANT_LO then
      norm_mant m1 m0 exp
    else Ok (Some (m1, m0, exp)).

(** The end of add_mvals: the smallest form that holds the result. *)
Definition store_result (rsign m1 m0 exp : Z) (result : mval) : res mval :=
  let store_rest :=
    if EXPHI <=? exp then Err ERR_NUMOFLOW
    else if exp <? EXPLO then Ok literal_zero
    else Ok (store_flt rsign exp m0 m1 result) in
  if (exp <? EXP_INT_OVERF) && ((EXP_INT_UNDERF <? exp) && (m0 =? 0)) then
    factor ← ten_pwr (EXP_INT_OVERF - 1 - exp);
    let x := Z.quot m1 factor in
    if x * factor =? m1 then Ok (store_int (if negb (rsign =? 0) then - x else x) result)
    else store_rest
  else store_rest.

Definition result_is_u (g : globals) (u : mval) : res mval := MV_FORCE_CANONICAL g u.

Definition result_is_v (g : globals) (v : mval) (subtraction : Z) (result : mval) : res mval :=
  if negb (subtraction =? 0) then
    if has MV_INT v then Ok (store_int (- mv_m1 v) result)
    else Ok (store_flt (c_not (mv_sgn v)) (mv_e v) (mv_m0 v) (mv_m1 v) result)
  else MV_FORCE_CANONICAL g v.

(** The arithmetic on two aligned operands. *)
Definition combine (g : globals) (a b : operand) (result : mval) (delta exp : Z) : res mval :=
  if o_sign a =? o_sign b then
    '(m1, m0, exp) ← add_mant (o_m1 a) (o_m0 a) (o_m1 b) (o_m0 b) exp;
    store_result (o_sign a) m1 m0 exp result
  else
    let swap := (delta <? 0)
                || ((delta =? 0) && ((o_m1 a <? o_m1 b)
                                     || ((o_m1 a =? o_m1 b) && (o_m0 a <? o_m0 b)))) in
    let '(x, y) := if swap then (b, a) else (a, b) in
    r ← sub_mant (o_m1 x) (o_m0 x) (o_m1 y) (o_m0 y) exp;
    match r with
    | None => Ok (store_int 0 result)
    | Some (m1, m0, exp) => store_result (o_sign x) m1 m0 exp result
    end.

Definition add_mvals (g : globals) (u v : mval) (subtraction : Z) (result : mval) : res mval :=
  a ← load 0 u;
  match a with
  | None => result_is_v g v subtraction result
  | Some a =>
      b ← load subtraction v;
      match b with
      | None => result_is_u g u
      | Some b =>
          let delta := o_exp a - o_exp b in
          if 0 <=? delta then
            if NUM_DEC_DG_2L <=? delta then result_is_u g u
            else
              '(n1, n0) ← shift_right delta (o_m1 b) (o_m0 b);
              combine g a (mk_operand (o_sign b) n1 n0 (o_exp b)) result delta (o_exp a)
          else
            if delta <=? - NUM_DEC_DG_2L then result_is_v g v subtraction result
            else
              '(m1, m0) ← shift_right (- delta) (o_m1 a) (o_m0 a);
              combine g (mk_operand (o_sign a) m1 m0 (o_exp a)) b result delta (o_exp b)
      end
  end.

(** * op_add and op_sub *)

(** The sum of two integer forms: exact, in the floating form past the range. *)
Definition int_result (m1 : Z) (s : mval) : res mval :=
  if (m1 <? MANT_HI) && (- MANT_HI <? m1) then Ok (store_int m1 s)
  else
    let sg := if 0 <? m1 then 0 else 1 in
    m1 ← (if 0 <? m1 then Ok m1 else int4 (- m1));
    let m0 := Z.quot m1 10 in
    m0' ← int4 ((m1 - m0 * 10) * MANT_LO);
    Ok (store_flt sg EXP_INT_OVERF m0' m0 s).

(** The operands, converted, and the result written to [s]. *)
Definition op_add (g : globals) (u v s : mval) : res (mval * mval * mval) :=
  if MV_IS_SQLNULL u || MV_IS_SQLNULL v then
    u ← MV_FORCE_DEFINED g u;
    v ← MV_FORCE_DEFINED g v;
    Ok (u, v, literal_sqlnull)
  else
    u ← MV_FORCE_NUM g u;
    v ← MV_FORCE_NUM g v;
    if negb (Z.land (Z.land (mvtype u) (mvtype v)) MV_INT =? 0) then
      m1 ← int4 (mv_m1 u + mv_m1 v);
      s ← int_result m1 s; Ok (u, v, s)
    else
      s ← add_mvals g u v 0 s; Ok (u, v, s).

Definition op_sub (g : globals) (u v s : mval) : res (mval * mval * mval) :=
  if MV_IS_SQLNULL u || MV_IS_SQLNULL v then
    u ← MV_FORCE_DEFINED g u;
    v ← MV_FORCE_DEFINED g v;
    Ok (u, v, literal_sqlnull)
  else
    u ← MV_FORCE_NUM g u;
    v ← MV_FORCE_NUM g v;
    if negb (Z.land (Z.land (mvtype u) (mvtype v)) MV_INT =? 0) then
      m1 ← int4 (mv_m1 u - mv_m1 v);
      s ← int_result m1 s; Ok (u, v, s)
    else
      s ← add_mvals g u v 1 s; Ok (u, v, s).

(** * The reference *)

(** [M] is the exponent of the larger of two numbers that are not both zero. *)
Definition leading_exp (M x y : Z) : Prop :=
  (x = 0 /\ y = 0) \/ 10 ^ (M - 3) <= Z.max (Z.abs x) (Z.abs y) < 10 ^ (M - 2).

(** A sum [S] of units of 10^(M-80) cut to eighteen digits, as an integer like
    [num_value]: [None] is an overflow, and below the smallest number it is 0. *)
Definition round_sum (M S : Z) : option Z :=
  let unit := 10 ^ (M - EXPLO) in
  let r := if Z.abs S <? 10 ^ 18 then S * unit else Z.quot S 10 * (10 * unit) in
  if 10 ^ (EXPHI - 3) <=? Z.abs r then None
  else if Z.abs r <? 10 ^ (EXPLO - 3) then Some 0
  else Some r.

(** The sum of two numbers of which the larger has exponent [M]. *)
Definition add_round (M x y : Z) : option Z :=
  round_sum M (Z.quot x (10 ^ (M - EXPLO)) + Z.quot y (10 ^ (M - EXPLO))).

(** The result [s'] holds the number [r], or the operation overflows. *)
Definition holds (r : option Z) (out : res mval) : Prop :=
  match r with
  | None => out = Err ERR_NUMOFLOW
  | Some r => exists s', out = Ok s' /\ num_ok s' /\ num_value s' = r
  end.

(** * Lemmas *)

Definition mag (m1 m0 : Z) : Z := m1 * MANT_HI + m0.

(** A normalised operand that stands for [x]. *)
Definition op_norm (a : operand) (x : Z) : Prop :=
  0 <= o_sign a <= 1 /\ MANT_LO <= o_m1 a < MANT_HI /\ 0 <= o_m0 a < MANT_HI /\
  EXPLO <= o_exp a < EXPHI /\
  sg (o_sign a) * (mag (o_m1 a) (o_m0 a) * 10 ^ (o_exp a - EXPLO)) = x.

Lemma pow10_pos n : 0 <= n -> 0 < 10 ^ n.
Proof. intros. by apply Z.pow_pos_nonneg. Qed.

Lemma scale_up_spec fuel m1 exp :
  0 < m1 < MANT_HI -> 10 ^ 9 <= m1 * 10 ^ Z.of_nat fuel ->
  exists k, scale_up fuel m1 exp = Ok (m1 * 10 ^ k, exp - k) /\ 0 <= k < Z.of_nat fuel /\
    MANT_LO <= m1 * 10 ^ k < MANT_HI.
Proof.
  revert m1 exp. induction fuel as [|fuel IH]; intros m1 exp Hm Hf.
  { num_consts. simpl in Hf. lia. }
  cbn [scale_up]. destruct (Z.ltb_spec m1 MANT_LO).
  - rewrite int4_ok by (num_consts; lia). rewrite res_bind_ok.
    rewrite Nat2Z.inj_succ, Z.pow_succ_r in Hf by lia.
    destruct (IH (m1 * 10) (exp - 1)) as (k & E & Hk & Hr); [num_consts; lia|lia|].
    exists (k + 1). rewrite E. replace (m1 * 10 ^ (k + 1)) with (m1 * 10 * 10 ^ k)
      by (rewrite Z.pow_add_r by lia; lia).
    split; [f_equal; f_equal; lia|]. split; [lia|done].
  - exists 0. rewrite Z.mul_1_r, Z.sub_0_r. split; [done|]. split; lia.
Qed.

Lemma sg_xor s f : 0 <= s <= 1 -> 0 <= f <= 1 ->
  0 <= Z.lxor s f <= 1 /\ sg (Z.lxor s f) = sg s * sg f.
Proof.
  intros Hs Hf. assert (s = 0 \/ s = 1) as [-> | ->] by lia;
  assert (f = 0 \/ f = 1) as [-> | ->] by lia; done.
Qed.

Lemma load_spec flip u :
  num_ok u -> 0 <= flip <= 1 ->
  (exists a, load flip u = Ok (Some a) /\ op_norm a (sg flip * num_value u)) \/
  (load flip u = Ok None /\ int_form u /\ mv_m1 u = 0).
Proof.
  intros [Hu|Hu] Hf; unfold load.
  - pose proof Hu as (_ & Hi & _ & Hm). rewrite Hi. simpl negb. cbv iota.
    destruct (Z.eqb_spec (mv_m1 u) 0) as [|Hnz]; [right; done|left].
    rewrite num_value_int by done.
    assert ((if 0 <? mv_m1 u then Ok (mv_m1 u) else int4 (- mv_m1 u)) = Ok (Z.abs (mv_m1 u))) as ->.
    { zcase; [f_equal; lia|]. rewrite int4_ok by (num_consts; lia). f_equal; lia. }
    rewrite res_bind_ok.
    destruct (scale_up_spec 10 (Z.abs (mv_m1 u)) (EXP_INT_OVERF - 1)) as (k & -> & Hk & Hr).
    { lia. } { change (10 ^ Z.of_nat 10) with 10000000000. lia. }
    cbn [mbind res_bind]. eexists. split; [done|].
    assert (Hp : 10 ^ 57 = 10 ^ k * 1000000000 * 10 ^ (48 - k)).
    { replace 1000000000 with (10 ^ 9) by done. rewrite <- !Z.pow_add_r by lia. f_equal. lia. }
    unfold op_norm, mag, sg, c_not; simpl. num_consts.
    replace (7 + 62 - 1 - k - (-42 + 62)) with (48 - k) by lia. rewrite Hp.
    assert (flip = 0 \/ flip = 1) as [-> | ->] by lia; simpl Z.eqb; cbv iota;
      (destruct (Z.ltb_spec 0 (mv_m1 u)); simpl Z.eqb; cbv iota;
       [rewrite Z.abs_eq in * by lia | rewrite Z.abs_neq in * by lia]; repeat split; lia).
  - left. pose proof Hu as (_ & Hi & _ & Hs & He & Hm & H0). rewrite Hi. simpl negb. cbv iota.
    eexists. split; [done|]. rewrite num_value_flt by done.
    destruct (sg_xor (mv_sgn u) flip) as [? E]; [lia..|].
    unfold op_norm; simpl. rewrite E. unfold flt_value, mant, mag. fold (sg (mv_sgn u)).
    repeat split; lia.
Qed.

Lemma shift_right_spec delta n1 n0 :
  0 <= delta < 18 -> 0 <= n1 < MANT_HI -> 0 <= n0 < MANT_HI ->
  exists q1 q0, shift_right delta n1 n0 = Ok (q1, q0) /\ 0 <= q1 < MANT_HI /\ 0 <= q0 < MANT_HI /\
    mag q1 q0 = mag n1 n0 / 10 ^ delta.
Proof.
  intros Hd H1 H0. unfold shift_right, mag. num_consts. destruct (Z.leb_spec 9 delta).
  - rewrite ten_pwr_spec by lia. rewrite res_bind_ok. pose proof (pow10_pos (delta - 9)).
    rewrite Z.quot_div_nonneg by lia. do 2 eexists. split; [done|].
    replace (10 ^ delta) with (1000000000 * 10 ^ (delta - 9))
      by (replace 1000000000 with (10 ^ 9) by done; rewrite <- Z.pow_add_r by lia; f_equal; lia).
    rewrite <- Z.div_div, Z.div_add_l, (Z.div_small n0), Z.add_0_r by lia.
    split; [lia|]. split; [|lia]. split; [apply Z.div_pos; lia|]. apply Z.div_lt_upper_bound; [lia|nia].
  - destruct (Z.ltb_spec 0 delta).
    2: { replace delta with 0 by lia. rewrite Z.div_1_r. eauto 8. }
    rewrite !ten_pwr_spec by lia. cbn [mbind res_bind].
    pose proof (pow10_pos delta). pose proof (pow10_pos (9 - delta)).
    assert (Hp : 10 ^ delta * 10 ^ (9 - delta) = 1000000000)
      by (rewrite <- Z.pow_add_r by lia; replace (delta + (9 - delta)) with 9 by lia; done).
    set (f := 10 ^ delta) in *. set (p := 10 ^ (9 - delta)) in *.
    rewrite !Z.quot_div_nonneg by lia.
    pose proof (Z.div_mod n1 f ltac:(lia)). pose proof (Z.mod_pos_bound n1 f ltac:(lia)).
    pose proof (Z.div_mod n0 f ltac:(lia)). pose proof (Z.mod_pos_bound n0 f ltac:(lia)).
    replace (n1 - n1 / f * f) with (n1 mod f) by lia.
    set (a := n1 / f) in *. set (b := n1 mod f) in *. set (c := n0 / f) in *. set (d := n0 mod f) in *.
    assert (0 <= a <= n1) by nia. assert (0 <= c < p) by nia.
    assert (0 <= b * p + c < 1000000000) by nia.
    rewrite int4_ok by lia. rewrite res_bind_ok. do 2 eexists. split; [done|].
    split; [lia|]. split; [lia|]. apply Z.div_unique with d; [lia|]. nia.
Qed.

Lemma add_mant_spec m1 m0 n1 n0 exp :
  0 <= m1 < MANT_HI -> 0 <= m0 < MANT_HI -> 0 <= n1 < MANT_HI -> 0 <= n0 < MANT_HI ->
  exists r1 r0, let S := mag m1 m0 + mag n1 n0 in
    add_mant m1 m0 n1 n0 exp = Ok (r1, r0, if S <? 10 ^ 18 then exp else exp + 1) /\
    0 <= r1 < MANT_HI /\ 0 <= r0 < MANT_HI /\ mag r1 r0 = if S <? 10 ^ 18 then S else S / 10.
Proof.
  intros. unfold add_mant, mag. num_consts. rewrite int4_ok by lia. rewrite res_bind_ok.
  assert (exists c, 0 <= c <= 1 /\
    (if 1000000000 <=? m0 + n0 then m1 + 1 else m1) = m1 + c /\
    (if 1000000000 <=? m0 + n0 then m0 + n0 - 1000000000 else m0 + n0) = m0 + n0 - c * 1000000000 /\
    0 <= m0 + n0 - c * 1000000000 < 1000000000) as (c & Hc & -> & -> & Hr).
  { destruct (Z.leb_spec 1000000000 (m0 + n0)); [exists 1|exists 0]; lia. }
  rewrite int4_ok by lia. rewrite res_bind_ok. set (lo := m0 + n0 - c * 1000000000) in *.
  set (hi := m1 + c + n1) in *.
  replace (m1 * 1000000000 + m0 + (n1 * 1000000000 + n0)) with (hi * 1000000000 + lo) by lia.
  destruct (Z.leb_spec 1000000000 hi).
  - rewrite !Z.quot_div_nonneg by lia. pose proof (Z.div_mod hi 10). pose proof (Z.mod_pos_bound hi 10).
    pose proof (Z.div_mod lo 10). pose proof (Z.mod_pos_bound lo 10).
    rewrite int4_ok by lia. rewrite res_bind_ok. exists (hi / 10). eexists.
    replace (hi * 1000000000 + lo <? 10 ^ 18) with false by (symmetry; apply Z.ltb_ge; lia).
    split; [done|]. split; [lia|]. split; [lia|]. apply Z.div_unique with (lo mod 10); lia.
  - exists hi, lo. replace (hi * 1000000000 + lo <? 10 ^ 18) with true by (symmetry; apply Z.ltb_lt; lia).
    split; [done|]. lia.
Qed.

Lemma norm_left_spec fuel m1 delta :
  0 < m1 < MANT_HI -> 10 ^ 9 <= m1 * 10 ^ Z.of_nat fuel ->
  exists k, norm_left fuel m1 delta = Ok (m1 * 10 ^ k, delta + k) /\ 0 <= k < Z.of_nat fuel /\
    MANT_LO <= m1 * 10 ^ k < MANT_HI.
Proof.
  revert m1 delta. induction fuel as [|fuel IH]; intros m1 delta Hm Hf.
  { num_consts. simpl in Hf. lia. }
  cbn [norm_left]. destruct (Z.ltb_spec m1 MANT_LO).
  - rewrite int4_ok by (num_consts; lia). rewrite res_bind_ok.
    rewrite Nat2Z.inj_succ, Z.pow_succ_r in Hf by lia.
    destruct (IH (m1 * 10) (delta + 1)) as (k & E & Hk & Hr); [num_consts; lia|lia|].
    exists (k + 1). rewrite E. replace (m1 * 10 ^ (k + 1)) with (m1 * 10 * 10 ^ k)
      by (rewrite Z.pow_add_r by lia; lia).
    split; [f_equal; f_equal; lia|]. split; [lia|done].
  - exists 0. rewrite Z.mul_1_r, Z.add_0_r. split; [done|]. split; lia.
Qed.

(** The shift to the left of a difference, digit by digit. *)
Lemma norm_step a b exp :
  0 < a < MANT_LO -> 0 <= b < MANT_HI ->
  exists r1 r0 k,
    norm_mant a b exp = Ok (Some (r1, r0, exp - k)) /\
    0 <= k <= 9 /\ MANT_LO <= r1 < MANT_HI /\ 0 <= r0 < MANT_HI /\ mag r1 r0 = mag a b * 10 ^ k.
Proof.
  intros Ha Hb. unfold norm_mant.
  destruct (norm_left_spec 10 a 0) as (k & -> & Hk & Hr); [num_consts; lia| |].
  { change (10 ^ Z.of_nat 10) with 10000000000. lia. }
  cbn [mbind res_bind]. rewrite Z.add_0_l. unfold NUM_DEC_DG_1L.
  rewrite (ten_pwr_spec (9 - k)), (ten_pwr_spec k) by lia. cbn [mbind res_bind].
  assert (Hp : 10 ^ k * 10 ^ (9 - k) = 1000000000)
    by (rewrite <- Z.pow_add_r by lia; replace (k + (9 - k)) with 9 by lia; done).
  pose proof (pow10_pos k ltac:(lia)). pose proof (pow10_pos (9 - k) ltac:(lia)).
  unfold mag. num_consts. set (p := 10 ^ k) in *. set (f := 10 ^ (9 - k)) in *.
  rewrite !Z.quot_div_nonneg by lia.
  pose proof (Z.div_mod b f ltac:(lia)) as D. pose proof (Z.mod_pos_bound b f ltac:(lia)) as B.
  replace (b - b / f * f) with (b mod f) by lia.
  set (x := b / f) in *. set (y := b mod f) in *.
  assert (0 <= x < p) by nia.
  assert (Hx : a * p + x < 1000000000) by nia.
  assert (0 <= y * p < 1000000000) by nia.
  rewrite int4_ok by lia. cbn [mbind res_bind]. rewrite int4_ok by lia. cbn [mbind res_bind].
  do 2 eexists. exists k. split; [done|]. repeat split; try lia.
  replace (a * p + x) with (a * p + x) by lia. rewrite D. nia.
Qed.

Lemma sub_mant_spec m1 m0 n1 n0 exp :
  0 <= m1 < MANT_HI -> 0 <= m0 < MANT_HI -> 0 <= n1 < MANT_HI -> 0 <= n0 < MANT_HI ->
  mag n1 n0 <= mag m1 m0 ->
  let D := mag m1 m0 - mag n1 n0 in
  (D = 0 /\ sub_mant m1 m0 n1 n0 exp = Ok None) \/
  (0 < D /\ exists r1 r0 k, sub_mant m1 m0 n1 n0 exp = Ok (Some (r1, r0, exp - k)) /\
     0 <= k /\ MANT_LO <= r1 < MANT_HI /\ 0 <= r0 < MANT_HI /\ mag r1 r0 = D * 10 ^ k).
Proof.
  intros H1 H2 H3 H4 Hle D. unfold sub_mant.
  assert (exists c, 0 <= c <= 1 /\
    (if m0 - n0 <? 0 then m1 - 1 else m1) = m1 - c /\
    (if m0 - n0 <? 0 then m0 - n0 + MANT_HI else m0 - n0) = m0 - n0 + c * MANT_HI /\
    0 <= m0 - n0 + c * MANT_HI < MANT_HI) as (c & Hc & -> & -> & Hr).
  { destruct (Z.ltb_spec (m0 - n0) 0); [exists 1|exists 0]; num_consts; lia. }
  set (lo := m0 - n0 + c * MANT_HI) in *. set (hi := m1 - c - n1) in *.
  assert (HD : D = mag hi lo) by (unfold D, mag, hi, lo; num_consts; lia).
  assert (0 <= hi < MANT_HI) by (unfold mag, D, hi, lo in *; num_consts; lia).
  destruct (Z.eqb_spec hi 0) as [Hz|Hz]; simpl andb; cbv iota.
  - destruct (Z.eqb_spec lo 0) as [Hl|Hl]; [left|right].
    { split; [|done]. rewrite HD, Hz, Hl. done. }
    replace (lo <? 0) with false by (symmetry; apply Z.ltb_ge; lia). cbv zeta iota.
    split; [unfold mag in HD; num_consts; lia|].
    destruct (Z.ltb_spec lo MANT_LO).
    + destruct (norm_step lo 0 (exp - NUM_DEC_DG_1L)) as (r1 & r0 & k & E & Hk & ? & ? & Em);
        [lia|num_consts; lia|].
      rewrite E. exists r1, r0, (9 + k). unfold NUM_DEC_DG_1L.
      replace (exp - 9 - k) with (exp - (9 + k)) by lia.
      repeat split; try lia. rewrite Em, HD, Hz, Z.pow_add_r by lia. unfold mag. num_consts. lia.
    + exists lo, 0, 9. unfold NUM_DEC_DG_1L. rewrite HD, Hz. unfold mag.
      repeat split; num_consts; lia.
  - right. replace (hi <? 0) with false by (symmetry; apply Z.ltb_ge; lia). cbv zeta iota.
    split; [unfold mag in HD; num_consts; lia|].
    destruct (Z.ltb_spec hi MANT_LO).
    + destruct (norm_step hi lo exp) as (r1 & r0 & k & E & Hk & ? & ? & Em); [lia|lia|].
      rewrite E. exists r1, r0, k. repeat split; lia.
    + exists hi, lo, 0. rewrite !Z.sub_0_r. repeat split; lia.
Qed.

(** The value of a result before it is stored. *)
Definition raw_value (s m1 m0 exp : Z) : Z := sg s * (mag m1 m0 * 10 ^ (exp - EXPLO)).

(** The result of a normalised mantissa, by its exponent. *)
Lemma store_result_spec s m1 m0 exp result :
  0 <= s <= 1 -> MANT_LO <= m1 < MANT_HI -> 0 <= m0 < MANT_HI ->
  holds (if EXPHI <=? exp then None else if exp <? EXPLO then Some 0
         else Some (raw_value s m1 m0 exp)) (store_result s m1 m0 exp result).
Proof.
  intros Hs H1 H0. unfold store_result, holds.
  set (rest := if EXPHI <=? exp then Err ERR_NUMOFLOW else if exp <? EXPLO then Ok literal_zero
               else Ok (store_flt s exp m0 m1 result)).
  assert (Hrest : match (if EXPHI <=? exp then None else if exp <? EXPLO then Some 0
         else Some (raw_value s m1 m0 exp)) with
    | None => rest = Err ERR_NUMOFLOW
    | Some r => exists s', rest = Ok s' /\ num_ok s' /\ num_value s' = r end).
  { unfold rest. zcase; [reflexivity|]. zcase; eexists; (split; [reflexivity|]).
    - split; [by_compute|reflexivity].
    - split; [|reflexivity]. right. unfold flt_form; simpl. num_consts. repeat split; lia. }
  destruct ((exp <? EXP_INT_OVERF) && ((EXP_INT_UNDERF <? exp) && (m0 =? 0))) eqn:Ec; [|exact Hrest].
  zbool. subst m0. num_consts. rewrite ten_pwr_spec by lia. rewrite res_bind_ok.
  destruct (Z.eqb_spec (Z.quot m1 (10 ^ (7 + 62 - 1 - exp)) * 10 ^ (7 + 62 - 1 - exp)) m1) as [E|];
    [|exact Hrest].
  zif_false. zif_false.
  pose proof (pow10_pos (7 + 62 - 1 - exp)). set (f := 10 ^ (7 + 62 - 1 - exp)) in *.
  set (x := Z.quot m1 f) in *. assert (0 <= x <= m1) by nia.
  eexists. split; [done|]. split.
  - left. repeat split; simpl; num_consts; zcase; lia.
  - unfold num_value, raw_value, mag. simpl. num_consts. rewrite Z.add_0_r, <- E.
    assert (Hp : 10 ^ 57 = f * 1000000000 * 10 ^ (exp - (-42 + 62))).
    { unfold f. replace 1000000000 with (10 ^ 9) by done. rewrite <- !Z.pow_add_r by lia. f_equal. lia. }
    rewrite Hp. unfold sg. assert (s = 0 \/ s = 1) as [-> | ->] by lia; simpl; lia.
Qed.

Lemma range_by_exp W R i j e :
  10 ^ 17 <= R < 10 ^ 18 -> 0 <= i -> 0 <= j -> i - j = e - EXPLO -> W * 10 ^ j = R * 10 ^ i ->
  (10 ^ (EXPHI - 3) <=? W) = (EXPHI <=? e) /\ (W <? 10 ^ (EXPLO - 3)) = (e <? EXPLO).
Proof.
  intros HR Hi Hj He E. pose proof (pow10_pos j Hj) as Pj. pose proof (pow10_pos i Hi) as Pi.
  assert (Lo : 10 ^ (17 + i) <= W * 10 ^ j) by (rewrite E, Z.pow_add_r by lia; nia).
  assert (Hi' : W * 10 ^ j < 10 ^ (18 + i)) by (rewrite E, (Z.pow_add_r 10 18) by lia; nia).
  assert (Hge : forall n, 0 <= n -> n + j <= 17 + i -> 10 ^ n <= W).
  { intros n Hn Hni. apply (Z.mul_le_mono_pos_r _ _ (10 ^ j) Pj). rewrite <- Z.pow_add_r by lia.
    etransitivity; [|exact Lo]. apply Z.pow_le_mono_r; lia. }
  assert (Hlt : forall n, 0 <= n -> 18 + i <= n + j -> W < 10 ^ n).
  { intros n Hn Hni. apply (Z.mul_lt_mono_pos_r (10 ^ j) _ _ Pj). rewrite <- Z.pow_add_r by lia.
    eapply Z.lt_le_trans; [exact Hi'|]. apply Z.pow_le_mono_r; lia. }
  unfold EXPHI, EXPLO, MV_XBIAS in *. split.
  - destruct (Z.leb_spec (48 + 62) e).
    + apply Z.leb_le, Hge; lia.
    + apply Z.leb_gt, Hlt; lia.
  - destruct (Z.ltb_spec e (-42 + 62)).
    + apply Z.ltb_lt, Hlt; lia.
    + apply Z.ltb_ge, Hge; lia.
Qed.

Lemma sg_cases s : 0 <= s <= 1 -> sg s = 1 \/ sg s = -1.
Proof. unfold sg. zcase; auto. Qed.

Lemma combine_spec g a b result delta exp :
  0 <= o_sign a <= 1 -> 0 <= o_sign b <= 1 ->
  0 <= o_m1 a < MANT_HI -> 0 <= o_m0 a < MANT_HI -> 0 <= o_m1 b < MANT_HI -> 0 <= o_m0 b < MANT_HI ->
  10 ^ 17 <= Z.max (mag (o_m1 a) (o_m0 a)) (mag (o_m1 b) (o_m0 b)) ->
  (0 < delta -> mag (o_m1 b) (o_m0 b) <= mag (o_m1 a) (o_m0 a)) ->
  (delta < 0 -> mag (o_m1 a) (o_m0 a) <= mag (o_m1 b) (o_m0 b)) ->
  EXPLO <= exp < EXPHI ->
  holds (round_sum exp (sg (o_sign a) * mag (o_m1 a) (o_m0 a) + sg (o_sign b) * mag (o_m1 b) (o_m0 b)))
    (combine g a b result delta exp).
Proof.
  intros Sa Sb A1 A0 B1 B0 Hmax Hpos Hneg He. unfold combine.
  set (A := mag (o_m1 a) (o_m0 a)) in *. set (B := mag (o_m1 b) (o_m0 b)) in *.
  pose proof (pow10_pos (exp - EXPLO) ltac:(lia)) as Pu.
  assert (HA : 0 <= A < 10 ^ 18) by (unfold A, mag; num_consts; lia).
  assert (HB : 0 <= B < 10 ^ 18) by (unfold B, mag; num_consts; lia).
  destruct (Z.eqb_spec (o_sign a) (o_sign b)) as [Es|Es].
  - destruct (add_mant_spec (o_m1 a) (o_m0 a) (o_m1 b) (o_m0 b) exp) as (r1 & r0 & E & H1 & H0 & Em);
      [lia..|]. fold A B in E, Em. rewrite E. cbn [mbind res_bind].
    set (e' := if A + B <? 10 ^ 18 then exp else exp + 1).
    assert (HR : 10 ^ 17 <= mag r1 r0 < 10 ^ 18).
    { rewrite Em. destruct (Z.ltb_spec (A + B) (10 ^ 18)); [lia|]. split.
      - apply Z.div_le_lower_bound; lia.
      - apply Z.div_lt_upper_bound; lia. }
    assert (Hrs : round_sum exp (sg (o_sign a) * A + sg (o_sign b) * B) =
      if EXPHI <=? e' then None else if e' <? EXPLO then Some 0
      else Some (raw_value (o_sign a) r1 r0 e')).
    { rewrite <- Es, <- Z.mul_add_distr_l. unfold round_sum.
      destruct (range_by_exp (mag r1 r0 * 10 ^ (e' - EXPLO)) (mag r1 r0) (e' - EXPLO) 0 e') as [R1 R2];
        [done| unfold e'; zcase; lia | lia | lia | lia |].
      rewrite <- R1, <- R2. unfold raw_value.
      assert (Habs : forall z, Z.abs (sg (o_sign a) * z) = Z.abs z)
        by (intros z; destruct (sg_cases _ Sa) as [-> | ->]; lia).
      rewrite Habs, (Z.abs_eq (A + B)) by lia.
      assert (Hr : (if A + B <? 10 ^ 18 then sg (o_sign a) * (A + B) * 10 ^ (exp - EXPLO)
               else Z.quot (sg (o_sign a) * (A + B)) 10 * (10 * 10 ^ (exp - EXPLO))) =
              sg (o_sign a) * (mag r1 r0 * 10 ^ (e' - EXPLO))).
      { rewrite Em. unfold e'. destruct (A + B <? 10 ^ 18); [lia|].
        replace (exp + 1 - EXPLO) with (1 + (exp - EXPLO)) by lia. rewrite Z.pow_add_r by lia.
        destruct (sg_cases _ Sa) as [-> | ->].
        - rewrite Z.mul_1_l, Z.quot_div_nonneg by lia. lia.
        - replace (-1 * (A + B)) with (- (A + B)) by lia. rewrite Z.quot_opp_l, Z.quot_div_nonneg by lia. lia. }
      rewrite Hr, Habs. rewrite (Z.abs_eq (mag r1 r0 * _)); [done|].
      apply Z.mul_nonneg_nonneg; [lia|]. apply Z.lt_le_incl, pow10_pos. unfold e'. zcase; lia. }
    rewrite Hrs. apply store_result_spec; [done| |done]. unfold mag in HR. num_consts. lia.
  - set (swap := (delta <? 0) || _).
    assert (Hsw : if swap then A <= B else B <= A).
    { unfold swap, A, B, mag in *. num_consts. repeat match goal with
      | |- context [?x <? ?y] => destruct (Z.ltb_spec x y)
      | |- context [?x =? ?y] => destruct (Z.eqb_spec x y) end; simpl; lia. }
    assert (exists x y X Y, (if swap then (b, a) else (a, b)) = (x, y) /\
      X = mag (o_m1 x) (o_m0 x) /\ Y = mag (o_m1 y) (o_m0 y) /\ Y <= X /\
      10 ^ 17 <= X < 10 ^ 18 /\ 0 <= o_sign x <= 1 /\
      0 <= o_m1 x < MANT_HI /\ 0 <= o_m0 x < MANT_HI /\ 0 <= o_m1 y < MANT_HI /\ 0 <= o_m0 y < MANT_HI /\
      sg (o_sign a) * A + sg (o_sign b) * B = sg (o_sign x) * (X - Y))
      as (x & y & X & Y & -> & HX & HY & Hle & HR & Sx & X1 & X0 & Y1 & Y0 & ->).
    { assert (sg (o_sign b) = - sg (o_sign a)) as Hs by (unfold sg; repeat zcase; lia).
      destruct swap; [exists b, a, B, A | exists a, b, A, B]; repeat split; lia. }
    destruct (sub_mant_spec (o_m1 x) (o_m0 x) (o_m1 y) (o_m0 y) exp) as
      [(D0 & ->) | (Dp & r1 & r0 & k & -> & Hk & H1 & H0 & Em)]; [lia..| |].
    + rewrite res_bind_ok. replace (X - Y) with 0 by lia. rewrite Z.mul_0_r.
      unfold round_sum. cbn. eexists. split; [done|]. split; [|done].
      left. repeat split; simpl; num_consts; lia.
    + rewrite res_bind_ok. rewrite <- HX, <- HY in Em, Dp.
      assert (HRr : 10 ^ 17 <= mag r1 r0 < 10 ^ 18) by (unfold mag; num_consts; lia).
      assert (HDX : X - Y <= X) by (unfold mag in HY; num_consts; lia).
      destruct (range_by_exp ((X - Y) * 10 ^ (exp - EXPLO)) (mag r1 r0) (exp - EXPLO) k (exp - k))
        as [R1 R2]; [done|lia|lia|lia|rewrite Em; lia|].
      replace (round_sum exp (sg (o_sign x) * (X - Y))) with
        (if EXPHI <=? exp - k then None else if exp - k <? EXPLO then Some 0
         else Some (raw_value (o_sign x) r1 r0 (exp - k))).
      { apply store_result_spec; done. }
      unfold round_sum. assert (Habs : forall z, Z.abs (sg (o_sign x) * z) = Z.abs z)
        by (intros z; destruct (sg_cases _ Sx) as [-> | ->]; lia).
      rewrite Habs, (Z.abs_eq (X - Y)) by lia. zif_true.
      rewrite <- Z.mul_assoc, Habs, (Z.abs_eq ((X - Y) * _)) by nia. rewrite R1, R2.
      destruct (EXPHI <=? exp - k); [done|]. destruct (Z.ltb_spec (exp - k) EXPLO); [done|].
      unfold raw_value. rewrite Em. do 2 f_equal. rewrite <- Z.mul_assoc, <- Z.pow_add_r by lia.
      do 2 f_equal. lia.
Qed.

Lemma op_norm_mag a x : op_norm a x -> 10 ^ 17 <= mag (o_m1 a) (o_m0 a) < 10 ^ 18.
Proof. intros (_ & H1 & H0 & _). unfold mag. num_consts. lia. Qed.

Lemma op_norm_abs a x :
  op_norm a x -> Z.abs x = mag (o_m1 a) (o_m0 a) * 10 ^ (o_exp a - EXPLO).
Proof.
  intros H. pose proof (op_norm_mag a x H) as Hm. destruct H as (Hs & _ & _ & He & <-).
  pose proof (pow10_pos (o_exp a - EXPLO) ltac:(lia)).
  destruct (sg_cases _ Hs) as [-> | ->]; nia.
Qed.

Lemma op_norm_exp a x : op_norm a x -> 10 ^ (o_exp a - 3) <= Z.abs x < 10 ^ (o_exp a - 2).
Proof.
  intros H. rewrite (op_norm_abs a x H). pose proof (op_norm_mag a x H) as Hm.
  destruct H as (_ & _ & _ & He & _). pose proof (pow10_pos (o_exp a - EXPLO) ltac:(lia)) as Hp.
  replace (o_exp a - 3) with (17 + (o_exp a - EXPLO)) by (num_consts; lia).
  replace (o_exp a - 2) with (18 + (o_exp a - EXPLO)) by (num_consts; lia).
  rewrite (Z.pow_add_r 10 17), (Z.pow_add_r 10 18) by lia. nia.
Qed.

(** The leading exponent of a value is determined by it. *)
Lemma exp_unique x e f :
  0 <= e - 3 -> 10 ^ (e - 3) <= x < 10 ^ (e - 2) -> 10 ^ (f - 3) <= x < 10 ^ (f - 2) -> e = f.
Proof.
  intros He H1 H2.
  assert (Hf : 0 <= f - 2) by (destruct (Z.ltb_spec (f - 2) 0); [rewrite (Z.pow_neg_r 10 (f - 2)) in H2; lia|lia]).
  destruct (Z.lt_total e f) as [|[|]]; [|done|].
  - assert (10 ^ (e - 2) <= 10 ^ (f - 3)) by (apply Z.pow_le_mono_r; lia). lia.
  - assert (10 ^ (f - 2) <= 10 ^ (e - 3)) by (apply Z.pow_le_mono_r; lia). lia.
Qed.

Lemma leading_norm M a b x y :
  op_norm a x -> op_norm b y -> leading_exp M x y -> M = Z.max (o_exp a) (o_exp b).
Proof.
  intros Ha Hb [[-> _]|HM].
  { destruct (op_norm_exp a 0 Ha) as [H _]. destruct Ha as (_ & _ & _ & He & _).
    pose proof (pow10_pos (o_exp a - 3)). num_consts. lia. }
  pose proof (op_norm_exp a x Ha) as Ea. pose proof (op_norm_exp b y Hb) as Eb.
  destruct Ha as (_ & _ & _ & Ra & _). destruct Hb as (_ & _ & _ & Rb & _). num_consts.
  symmetry. apply (exp_unique (Z.max (Z.abs x) (Z.abs y))); [lia| |done].
  destruct (Z.max_spec (o_exp a) (o_exp b)) as [[Hl ->]|[Hl ->]].
  - assert (10 ^ (o_exp a - 2) <= 10 ^ (o_exp b - 2)) by (apply Z.pow_le_mono_r; lia). lia.
  - assert (10 ^ (o_exp b - 2) <= 10 ^ (o_exp a - 2)) by (apply Z.pow_le_mono_r; lia). lia.
Qed.

(** An operand cut to the unit of exponent [M]. *)
Lemma quot_norm M a x :
  op_norm a x -> o_exp a <= M ->
  Z.quot x (10 ^ (M - EXPLO)) = sg (o_sign a) * (mag (o_m1 a) (o_m0 a) / 10 ^ (M - o_exp a)).
Proof.
  intros H HM. pose proof (op_norm_mag a x H) as Hm. destruct H as (Hs & _ & _ & He & <-).
  pose proof (pow10_pos (o_exp a - EXPLO) ltac:(lia)) as P1.
  pose proof (pow10_pos (M - o_exp a) ltac:(lia)) as P2.
  replace (10 ^ (M - EXPLO)) with (10 ^ (M - o_exp a) * 10 ^ (o_exp a - EXPLO))
    by (rewrite <- Z.pow_add_r by lia; f_equal; lia).
  rewrite Z.mul_assoc, Z.quot_mul_cancel_r by lia.
  destruct (sg_cases _ Hs) as [-> | ->].
  - rewrite !Z.mul_1_l. by rewrite Z.quot_div_nonneg by lia.
  - replace (-1 * mag (o_m1 a) (o_m0 a)) with (- mag (o_m1 a) (o_m0 a)) by lia.
    rewrite Z.quot_opp_l, Z.quot_div_nonneg by lia. lia.
Qed.

(** A number that is the whole sum is its own rounding. *)
Lemma round_sum_norm a x :
  op_norm a x -> round_sum (o_exp a) (sg (o_sign a) * mag (o_m1 a) (o_m0 a)) = Some x.
Proof.
  intros H. pose proof (op_norm_mag a x H) as Hm. pose proof (op_norm_exp a x H) as [L U].
  destruct H as (Hs & _ & _ & He & Hx). unfold round_sum.
  replace (Z.abs (sg (o_sign a) * mag (o_m1 a) (o_m0 a))) with (mag (o_m1 a) (o_m0 a))
    by (destruct (sg_cases _ Hs) as [-> | ->]; lia).
  zif_true. rewrite <- Z.mul_assoc, Hx.
  assert (10 ^ (o_exp a - 2) <= 10 ^ (EXPHI - 3)) by (apply Z.pow_le_mono_r; num_consts; lia).
  assert (10 ^ (EXPLO - 3) <= 10 ^ (o_exp a - 3)) by (apply Z.pow_le_mono_r; num_consts; lia).
  zif_false. by zif_false.
Qed.

(** Clearing the bits above MV_NUM_MASK keeps the number. *)
Lemma force_canonical_ok g u :
  num_ok u -> exists w, MV_FORCE_CANONICAL g u = Ok w /\ num_ok w /\ num_value w = num_value u.
Proof.
  intros H. pose proof (num_ok_flags u H) as [Hn _]. unfold MV_FORCE_CANONICAL. rewrite Hn.
  cbn [negb mbind res_bind]. destruct (has MV_NUM_APPROX u); [|eauto].
  eexists. split; [done|]. set (w := set_mvtype _ u).
  assert (Hw : forall mask, has mask w = has (Z.land MV_NUM_MASK mask) u).
  { intros mask. unfold has, w. simpl. by rewrite <- Z.land_assoc. }
  assert (H1 : has MV_NM w = has MV_NM u) by apply Hw.
  assert (H2 : has MV_INT w = has MV_INT u) by apply Hw.
  assert (H3 : MV_IS_SQLNULL w = false) by (unfold MV_IS_SQLNULL; rewrite Hw; unfold has; by rewrite Z.land_0_r).
  split.
  - destruct H as [H|H]; [left|right]; unfold int_form, flt_form in *; rewrite H1, H2, H3; simpl; tauto.
  - unfold num_value. rewrite H2. done.
Qed.

Lemma result_is_v_ok g v sub result :
  num_ok v -> 0 <= sub <= 1 ->
  exists w, result_is_v g v sub result = Ok w /\ num_ok w /\ num_value w = sg sub * num_value v.
Proof.
  intros H Hs. unfold result_is_v. destruct (Z.eqb_spec sub 0) as [->|Hn]; simpl negb; cbv iota.
  { destruct (force_canonical_ok g v H) as (w & E & Hw & Hv). exists w. rewrite Hv. unfold sg. simpl.
    split; [done|]. split; [done|]. lia. }
  assert (sub = 1) as -> by lia. change (sg 1) with (-1). destruct H as [H|H].
  - pose proof H as (_ & -> & _ & Hm). rewrite (num_value_int v H). eexists. split; [done|]. split.
    + left. repeat split; simpl; lia.
    + unfold num_value. simpl. lia.
  - pose proof H as (_ & -> & _ & Hg & He & H1 & H0). rewrite (num_value_flt v H).
    eexists. split; [done|]. split.
    + right. repeat split; simpl; unfold c_not; try zcase; lia.
    + unfold num_value, flt_value, mant, c_not. simpl.
      destruct (mv_sgn v =? 0); simpl; lia.
Qed.

Lemma holds_ok r w : num_ok w -> num_value w = r -> holds (Some r) (Ok w).
Proof. intros. by exists w. Qed.

Lemma add_round_0_l M b y :
  op_norm b y -> leading_exp M 0 y -> add_round M 0 y = Some y.
Proof.
  intros Hb HM. unfold add_round. destruct HM as [[_ ->]|HM].
  { destruct (op_norm_exp b 0 Hb) as [H _]. destruct Hb as (_ & _ & _ & He & _).
    pose proof (pow10_pos (o_exp b - 3)). num_consts. lia. }
  assert (M = o_exp b) as ->.
  { pose proof (op_norm_exp b y Hb) as E. destruct Hb as (_ & _ & _ & He & _). symmetry.
    rewrite Z.abs_0, Z.max_r in HM by lia. apply (exp_unique (Z.abs y)); num_consts; lia. }
  rewrite (quot_norm _ b y) by (done || lia). rewrite Z.sub_diag, Z.div_1_r.
  assert (0 < 10 ^ (o_exp b - EXPLO)) by (apply pow10_pos; destruct Hb as (_ & _ & _ & ? & _); lia).
  rewrite Z.quot_0_l, Z.add_0_l by lia. by apply round_sum_norm.
Qed.

Lemma add_round_0_0 M : add_round M 0 0 = Some 0.
Proof.
  unfold add_round, round_sum. rewrite Zquot_0_l. simpl Z.add. change (Z.abs 0 <? 10 ^ 18) with true.
  cbv iota. rewrite Z.mul_0_l. done.
Qed.

Lemma add_round_comm M x y : add_round M x y = add_round M y x.
Proof. unfold add_round. by rewrite Z.add_comm. Qed.

Lemma leading_exp_comm M x y : leading_exp M x y -> leading_exp M y x.
Proof. unfold leading_exp. rewrite (Z.max_comm (Z.abs y)). tauto. Qed.

(** The smaller operand is cut away when the exponents are 18 or more apart. *)
Lemma add_round_far a x b y :
  op_norm a x -> op_norm b y -> NUM_DEC_DG_2L <= o_exp a - o_exp b ->
  add_round (o_exp a) x y = Some x.
Proof.
  intros Ha Hb Hd. unfold add_round.
  rewrite (quot_norm _ a x), (quot_norm _ b y) by (done || num_consts; lia).
  pose proof (op_norm_mag b y Hb). rewrite Z.sub_diag, Z.div_1_r.
  assert (10 ^ 18 <= 10 ^ (o_exp a - o_exp b)) by (apply Z.pow_le_mono_r; num_consts; lia).
  rewrite (Z.div_small (mag (o_m1 b) (o_m0 b))), Z.mul_0_r, Z.add_0_r by lia.
  by apply round_sum_norm.
Qed.

Lemma add_mvals_spec g u v sub result M :
  num_ok u -> num_ok v -> 0 <= sub <= 1 ->
  leading_exp M (num_value u) (sg sub * num_value v) ->
  holds (add_round M (num_value u) (sg sub * num_value v)) (add_mvals g u v sub result).
Proof.
  intros Hu Hv Hs HM. unfold add_mvals.
  destruct (result_is_v_ok g v sub result Hv Hs) as (wv & -> & Wv & Vv).
  destruct (force_canonical_ok g u Hu) as (wu & Eu & Wu & Vu). unfold result_is_u. rewrite Eu.
  destruct (load_spec 0 u Hu) as [(a & -> & Ha)|(-> & Iu & Zu)]; [lia| |];
    destruct (load_spec sub v Hv Hs) as [(b & -> & Hb)|(-> & Iv & Zv)]; cbn [mbind res_bind].
  - replace (sg 0 * num_value u) with (num_value u) in Ha by (unfold sg; simpl; lia).
    pose proof (leading_norm M a b _ _ Ha Hb HM) as ->.
    destruct (Z.leb_spec 0 (o_exp a - o_exp b)) as [Hd|Hd].
    + rewrite Z.max_l by lia. destruct (Z.leb_spec NUM_DEC_DG_2L (o_exp a - o_exp b)).
      { rewrite (add_round_far a _ b) by done. by apply holds_ok. }
      pose proof (op_norm_mag a _ Ha) as Ma. pose proof (op_norm_mag b _ Hb) as Mb.
      unfold add_round. rewrite (quot_norm _ a), (quot_norm _ b) by (done || lia).
      rewrite Z.sub_diag, Z.div_1_r.
      destruct Ha as (Sa & A1 & A0 & Ea & _). destruct Hb as (Sb & B1 & B0 & Eb & _).
      destruct (shift_right_spec (o_exp a - o_exp b) (o_m1 b) (o_m0 b)) as (q1 & q0 & -> & Q1 & Q0 & Eq);
        [num_consts; lia..|]. cbn [mbind res_bind]. rewrite <- Eq.
      apply (combine_spec g a (mk_operand (o_sign b) q1 q0 (o_exp b))); simpl; try (num_consts; lia).
      intros Hp. rewrite Eq. etransitivity; [|apply (proj1 Ma)].
      apply Z.lt_le_incl, Z.div_lt_upper_bound; [apply pow10_pos; lia|].
      assert (10 ^ 1 <= 10 ^ (o_exp a - o_exp b)) by (apply Z.pow_le_mono_r; lia). nia.
    + rewrite Z.max_r by lia. destruct (Z.leb_spec (o_exp a - o_exp b) (- NUM_DEC_DG_2L)).
      { rewrite add_round_comm, (add_round_far b _ a) by (done || lia). by apply holds_ok. }
      pose proof (op_norm_mag a _ Ha) as Ma. pose proof (op_norm_mag b _ Hb) as Mb.
      unfold add_round. rewrite (quot_norm _ a), (quot_norm _ b) by (done || lia).
      rewrite Z.sub_diag, Z.div_1_r.
      destruct Ha as (Sa & A1 & A0 & Ea & _). destruct Hb as (Sb & B1 & B0 & Eb & _).
      replace (- (o_exp a - o_exp b)) with (o_exp b - o_exp a) by lia.
      destruct (shift_right_spec (o_exp b - o_exp a) (o_m1 a) (o_m0 a)) as (q1 & q0 & -> & Q1 & Q0 & Eq);
        [num_consts; lia..|]. cbn [mbind res_bind]. rewrite <- Eq.
      apply (combine_spec g (mk_operand (o_sign a) q1 q0 (o_exp a)) b); simpl; try (num_consts; lia).
      intros Hp. rewrite Eq. etransitivity; [|apply (proj1 Mb)].
      apply Z.lt_le_incl, Z.div_lt_upper_bound; [apply pow10_pos; lia|].
      assert (10 ^ 1 <= 10 ^ (o_exp b - o_exp a)) by (apply Z.pow_le_mono_r; lia). nia.
  - rewrite (num_value_int v Iv), Zv, Z.mul_0_l, Z.mul_0_r in *.
    rewrite add_round_comm, (add_round_0_l M a); [by apply holds_ok| |by apply leading_exp_comm].
    replace (num_value u) with (sg 0 * num_value u) by (unfold sg; simpl; lia). done.
  - rewrite (num_value_int u Iu), Zu, Z.mul_0_l in *. rewrite (add_round_0_l M b) by done.
    by apply holds_ok.
  - rewrite (num_value_int u Iu), Zu, (num_value_int v Iv), Zv, Z.mul_0_l, Z.mul_0_r in *.
    rewrite add_round_0_0. by apply holds_ok.
Qed.

Lemma both_int u v :
  negb (Z.land (Z.land (mvtype u) (mvtype v)) MV_INT =? 0) = has MV_INT u && has MV_INT v.
Proof.
  unfold has, MV_INT. change 2 with (2 ^ 1).
  assert (Hb : forall t, negb (Z.land t (2 ^ 1) =? 0) = Z.testbit t 1).
  { intros t. destruct (Z.testbit t 1) eqn:E.
    - apply negb_true_iff, Z.eqb_neq. intros H. apply (f_equal (fun z => Z.testbit z 1)) in H.
      rewrite Z.land_spec, E in H. discriminate.
    - apply negb_false_iff, Z.eqb_eq, Z.bits_inj_0. intros n. rewrite Z.land_spec, Z.pow2_bits_eqb by done.
      destruct (Z.eqb_spec 1 n) as [<-|]; [by rewrite E|by rewrite andb_false_r]. }
  by rewrite !Hb, Z.land_spec.
Qed.

Lemma int_result_spec m s :
  - (2 * MANT_HI) < m < 2 * MANT_HI -> holds (Some (m * 10 ^ 57)) (int_result m s).
Proof.
  intros Hm. unfold int_result. destruct ((m <? MANT_HI) && (- MANT_HI <? m)) eqn:E.
  - zbool. apply holds_ok; [|done]. left. repeat split; simpl; lia.
  - assert ((if 0 <? m then Ok m else int4 (- m)) = Ok (Z.abs m)) as ->.
    { zcase; [f_equal; lia|]. rewrite int4_ok by (num_consts; lia). f_equal; lia. }
    assert (Ha : MANT_HI <= Z.abs m) by (apply andb_false_iff in E as [E|E]; zbool; lia).
    rewrite res_bind_ok. cbv zeta. rewrite Z.quot_div_nonneg by lia.
    pose proof (Z.div_mod (Z.abs m) 10). pose proof (Z.mod_pos_bound (Z.abs m) 10).
    num_consts. rewrite int4_ok by lia. rewrite res_bind_ok. apply holds_ok.
    + right. unfold flt_form; simpl. num_consts. repeat split; try zcase; lia.
    + unfold num_value, flt_value, mant. simpl. num_consts. change (7 + 62 - (-42 + 62)) with 49.
      replace (10 ^ 57) with (10 ^ 8 * 10 ^ 49) by (rewrite <- Z.pow_add_r by lia; done).
      destruct (Z.ltb_spec 0 m); simpl; lia.
Qed.

Lemma add_round_int M a b :
  - MANT_HI < a < MANT_HI -> - MANT_HI < b < MANT_HI ->
  leading_exp M (a * 10 ^ 57) (b * 10 ^ 57) ->
  add_round M (a * 10 ^ 57) (b * 10 ^ 57) = Some ((a + b) * 10 ^ 57).
Proof.
  intros Ha Hb HM.
  assert (Hz : (a = 0 /\ b = 0) \/ 1 <= Z.max (Z.abs a) (Z.abs b)) by lia.
  destruct Hz as [[-> ->]|Hz]; [apply add_round_0_0|].
  destruct HM as [[Ea Eb]|HM]; [lia|].
  assert (HM2 : 0 <= M - 2)
    by (destruct (Z.ltb_spec (M - 2) 0); [rewrite (Z.pow_neg_r 10 (M - 2)) in HM; lia|lia]).
  assert (M <= 68).
  { destruct (Z.leb_spec M 68); [done|].
    assert (10 ^ 66 <= 10 ^ (M - 3)) by (apply Z.pow_le_mono_r; lia). num_consts. lia. }
  assert (57 < M - 2).
  { destruct (Z.leb_spec (M - 2) 57); [|lia].
    assert (10 ^ (M - 2) <= 10 ^ 57) by (apply Z.pow_le_mono_r; lia). lia. }
  unfold add_round, round_sum. num_consts. replace (M - (-42 + 62)) with (M - 20) by lia.
  set (k := 77 - M). assert (Hk : 9 <= k) by lia.
  pose proof (pow10_pos (M - 20) ltac:(lia)) as Pu. pose proof (pow10_pos (k - 1) ltac:(lia)) as Pk.
  assert (Hp : 10 ^ 57 = 10 * 10 ^ (k - 1) * 10 ^ (M - 20)).
  { replace 10 with (10 ^ 1) at 2 by done. rewrite <- !Z.pow_add_r by lia. f_equal. lia. }
  set (P := 10 ^ (M - 20)) in *. set (K := 10 ^ (k - 1)) in *. rewrite Hp.
  rewrite !(Z.mul_assoc _ (10 * K) P), !Z.quot_mul by lia.
  replace (a * (10 * K) + b * (10 * K)) with ((a + b) * K * 10) by lia. rewrite Z.quot_mul by lia.
  set (S := (a + b) * K * 10).
  set (r := if Z.abs S <? 10 ^ 18 then S * P else (a + b) * K * (10 * P)).
  assert (r = (a + b) * (10 * K) * P) as -> by (unfold r, S; zcase; lia).
  assert (Hab : Z.abs ((a + b) * (10 * K) * P) = Z.abs (a + b) * 10 ^ 57).
  { rewrite Hp, <- Z.mul_assoc, Z.abs_mul, (Z.abs_eq (10 * K * P)) by nia. done. }
  rewrite Hab. zif_false. destruct (Z.eq_dec (a + b) 0) as [->|].
  - zif_true. done.
  - zif_false. done.
Qed.

(** * The properties of the component *)

(** C7: op_add and op_sub on two numbers, in either form: with [M] the exponent
    of the larger operand, the result is a well-formed number (in range, its
    mantissa normalised) equal to the sum or difference of the operands cut to
    eighteen digits below 10^M, cut once more by a digit after a carry, 0 when
    it is below the smallest number, and the error NUMOFLOW exactly when it is
    above the largest; no intermediate int4 overflows and the table of powers
    is indexed within its bounds.  The operands are unchanged. *)
Theorem op_add_sub_round g u v s M :
  num_ok u -> num_ok v ->
  (leading_exp M (num_value u) (num_value v) ->
   exists out, op_add g u v s = (s' ← out; Ok (u, v, s')) /\
     holds (add_round M (num_value u) (num_value v)) out) /\
  (leading_exp M (num_value u) (- num_value v) ->
   exists out, op_sub g u v s = (s' ← out; Ok (u, v, s')) /\
     holds (add_round M (num_value u) (- num_value v)) out).
Proof.
  intros Hu Hv. pose proof (num_ok_flags u Hu) as [_ Su]. pose proof (num_ok_flags v Hv) as [_ Sv].
  unfold op_add, op_sub. rewrite Su, Sv. simpl orb. cbv iota.
  rewrite !force_num_ok by done. cbn [mbind res_bind]. rewrite both_int.
  destruct (has MV_INT u && has MV_INT v) eqn:Eb.
  - zbool. assert (Iu : int_form u) by (destruct Hu as [|(_ & Hi & _)]; congruence).
    assert (Iv : int_form v) by (destruct Hv as [|(_ & Hi & _)]; congruence).
    pose proof Iu as (_ & _ & _ & Ru). pose proof Iv as (_ & _ & _ & Rv).
    rewrite !num_value_int by done. rewrite !int4_ok by (num_consts; lia). cbn [mbind res_bind].
    split; intros HM; eexists; (split; [reflexivity|]).
    + rewrite add_round_int by done. apply int_result_spec. lia.
    + rewrite <- Z.mul_opp_l in *. rewrite add_round_int by (done || lia).
      rewrite Z.add_opp_r. apply int_result_spec. lia.
  - split; intros HM; eexists; (split; [reflexivity|]).
    + pose proof (add_mvals_spec g u v 0 s M Hu Hv ltac:(lia)) as H.
      change (sg 0) with 1 in H. rewrite Z.mul_1_l in H. by apply H.
    + pose proof (add_mvals_spec g u v 1 s M Hu Hv ltac:(lia)) as H.
      replace (sg 1 * num_value v) with (- num_value v) in H by (change (sg 1) with (-1); lia). by apply H.
Qed.

(** 1234567.89 + 999999.999. *)
Definition add_ex_u : mval := mk_mval 1 0 69 0 123456789 [].
Definition add_ex_v : mval := mk_mval 3 0 0 0 999999999 [].

Lemma op_add_sub_round_witness :
  exists out, op_add (mk_globals false false) add_ex_u add_ex_v literal_zero =
      (s' ← out; Ok (add_ex_u, add_ex_v, s')) /\
    holds (add_round 69 (num_value add_ex_u) (num_value add_ex_v)) out.
Proof.
  assert (H : leading_exp 69 (num_value add_ex_u) (num_value add_ex_v))
    by (right; vm_compute; split; congruence).
  exact (proj1 (op_add_sub_round (mk_globals false false) add_ex_u add_ex_v literal_zero 69
    ltac:(by_compute) ltac:(by_compute)) H).
Defined.

(** An operand with the value null of SQL ($ZYSQLNULL) makes the result of
    op_add and op_sub that value again, when both operands are defined. *)
Theorem op_add_sub_sqlnull g u v s :
  MV_DEFINED u = true -> MV_DEFINED v = true -> MV_IS_SQLNULL u = true \/ MV_IS_SQLNULL v = true ->
  op_add g u v s = Ok (u, v, literal_sqlnull) /\ op_sub g u v s = Ok (u, v, literal_sqlnull).
Proof.
  intros Du Dv H. unfold op_add, op_sub, MV_FORCE_DEFINED.
  assert (MV_IS_SQLNULL u || MV_IS_SQLNULL v = true) as -> by (apply orb_true_iff; tauto).
  by rewrite Du, Dv.
Qed.

Lemma op_add_sub_sqlnull_witness :
  op_add (mk_globals false false) literal_sqlnull literal_zero literal_zero =
    Ok (literal_sqlnull, literal_zero, literal_sqlnull) /\
  op_sub (mk_globals false false) literal_sqlnull literal_zero literal_zero =
    Ok (literal_sqlnull, literal_zero, literal_sqlnull).
Proof. apply op_add_sub_sqlnull; [reflexivity|reflexivity|left; reflexivity]. Defined.
