(* ===== verification/Numstr.v ===== *)
(** Numbers as strings: the canonical string of a number (n2s.c), the test
    for a canonical numeric string (val_iscan.c) and MV_FORCE_STR. *)

From stdpp Require Import base list numbers option tactics.
From Stdlib Require Import ZArith Lia.
From S2P Require Import Prelude Digits Mval.

Open Scope Z_scope.

Definition MAX_DIGITS_IN_INT : Z := 10.
Definition PACKED_DIGITS : Z := MAX_DIGITS_IN_INT - 1.
Definition MV_BIAS_PWR : Z := 3.
Definition MV_UTF_LEN : Z := 256.

(** * n2s *)

(** The fraction of an integer form, least digit first, its trailing zeroes
    dropped: [n] digits are left, [started] after the first that is written;
    a fraction of zeroes only is not passed. The digits go in front of [buf]. *)
Fixpoint n2s_frac (n : nat) (m1 : Z) (started : bool) (buf : list Z) : list Z :=
  match n with
  | O => buf
  | S n' =>
      let tmp := m1 in
      let m1 := Z.quot m1 10 in
      let tmp := tmp - m1 * 10 in
      if started || negb (tmp =? 0) then n2s_frac n' m1 true (tmp + 48 :: buf)
      else n2s_frac n' m1 false buf
  end.

(** [while (m0 > 0)]: the digits of [m0] in front of [buf]. *)
Fixpoint n2s_int (fuel : nat) (m0 : Z) (buf : list Z) : res (list Z) :=
  match fuel with
  | O => Err UB
  | S fuel' =>
      if 0 <? m0 then
        let tmp := m0 in
        let m0 := Z.quot m0 10 in
        n2s_int fuel' m0 (tmp - m0 * 10 + 48 :: buf)
      else Ok buf
  end.

(** The loop on the nine digits of [m1]: the digits written, last first in
    [out], the rest of [m1], and [exp], which also a break decrements. *)
Fixpoint n2s_digits (n : nat) (m1 m0 exp : Z) (out : list Z) : Z * Z * list Z :=
  match n with
  | O => (m1, exp, out)
  | S n' =>
      let last := (m0 =? 0) && (m1 =? 0) in
      if exp =? 0 then
        if last then (m1, exp - 1, out)
        else
          let tmp := Z.quot m1 MANT_LO in
          n2s_digits n' ((m1 - tmp * MANT_LO) * 10) m0 (exp - 1) (tmp + 48 :: 46 :: out)
      else if (exp - 1 <? 0) && last then (m1, exp - 1, out)
      else
        let tmp := Z.quot m1 MANT_LO in
        n2s_digits n' ((m1 - tmp * MANT_LO) * 10) m0 (exp - 1) (tmp + 48 :: out)
  end.

(** [for (; m1; m1 = m0, m0 = 0)]: two rounds at most. *)
Fixpoint n2s_mant (fuel : nat) (m1 m0 exp : Z) (out : list Z) : res (Z * list Z) :=
  match fuel with
  | O => Err UB
  | S fuel' =>
      if m1 =? 0 then Ok (exp, out)
      else
        let '(_, exp, out) := n2s_digits (Z.to_nat PACKED_DIGITS) m1 m0 exp out in
        n2s_mant fuel' m0 0 exp out
  end.

(** The string of a cell that has a number. *)
Definition n2s_str (v : mval) : res (list Z) :=
  let m1 := mv_m1 v in
  if m1 =? 0 then Ok [48]
  else if has MV_INT v then
    m1 ← (if m1 <? 0 then int4 (- m1) else Ok m1);
    let m0 := Z.quot m1 MV_BIAS in
    let m1 := m1 - m0 * MV_BIAS in
    let buf := if 0 <? m1 then 46 :: n2s_frac (Z.to_nat MV_BIAS_PWR) m1 false [] else [] in
    buf ← n2s_int 11 m0 buf;
    Ok (if mv_m1 v <? 0 then 45 :: buf else buf)
  else
    let exp := mv_e v - MV_XBIAS in
    let sign := if negb (mv_sgn v =? 0) then [45] else [] in
    let lead := if exp <? 0 then 46 :: replicate (Z.to_nat (- exp)) 48 else [] in
    '(exp, out) ← n2s_mant 3 m1 (mv_m0 v) exp [];
    Ok (sign ++ lead ++ rev out ++ replicate (Z.to_nat exp) 48).

Definition n2s (v : mval) : res mval :=
  s ← n2s_str v;
  Ok (mk_mval (Z.lor (Z.land (Z.lor (mvtype v) MV_STR) (Z.lnot MV_NUM_APPROX)) MV_UTF_LEN)
        (mv_sgn v) (mv_e v) (mv_m0 v) (mv_m1 v) s).

Definition MV_FORCE_STRD (v : mval) : res mval :=
  if negb (has MV_STR v) then n2s v else Ok v.

Definition MV_FORCE_STR (g : globals) (v : mval) : res mval :=
  v ← MV_FORCE_DEFINED g v; MV_FORCE_STRD v.

(** * val_iscan *)

(** The digit loops: position, [sigdigs] and [zeroes] (digits since the last
    that is not 0). *)
Fixpoint iscan_digits (n : nat) (s : list Z) (c sigdigs zeroes : Z) : Z * Z * Z :=
  match n with
  | O => (c, sigdigs, zeroes)
  | S n' =>
      if DIGIT (char_at s c) then
        iscan_digits n' s (c + 1) (sigdigs + 1) (if char_at s c =? 48 then zeroes + 1 else 0)
      else (c, sigdigs, zeroes)
  end.

(** The test on a string that is neither empty nor "0", from position [c]. *)
Definition iscan_body (s : list Z) (c : Z) : bool :=
  let eos := zlen s in
  let n c := Z.to_nat (eos - c) in
  let finish c dot sigdigs exp :=
    let exp := exp + MV_XBIAS in
    negb (negb (c =? eos)
          || ((dot && ((char_at s (c - 1) =? 48) || (char_at s (c - 1) =? 46)))
          || ((NUM_DEC_DG_2L <? sigdigs) || ((exp <? EXPLO) || (EXPHI <=? exp))))) in
  if (char_at s c <=? 57) && (48 <? char_at s c) then
    let c0 := c in
    let '(c, sigdigs, zeroes) := iscan_digits (n c) s c 0 0 in
    let exp := c - c0 in
    if negb (c =? eos) && (char_at s c =? 46) then
      let '(c, sigdigs, zeroes) := iscan_digits (n (c + 1)) s (c + 1) sigdigs zeroes in
      finish c true (sigdigs - zeroes) exp
    else finish c false (sigdigs - zeroes) exp
  else if char_at s c =? 46 then
    let c := c + 1 in
    let c0 := c in
    let c := skip_char 48 (n c) s c in
    let exp := - (c - c0) in
    let '(c, sigdigs, _) := iscan_digits (n c) s c 0 0 in
    finish c true sigdigs exp
  else false.

Definition iscan (s : list Z) : bool :=
  if zlen s =? 0 then false
  else if (zlen s =? 1) && (char_at s 0 =? 48) then true
  else if char_at s 0 =? 45 then
    if 1 =? zlen s then false else iscan_body s 1
  else iscan_body s 0.

(** The answer and the cell, which has its string afterwards. *)
Definition val_iscan (g : globals) (v : mval) : res (bool * mval) :=
  v ← MV_FORCE_STR g v;
  Ok (iscan (mv_str v), v).

(** * The canonical string *)

(** The digits of [R], [k] of them, with [x] digits before the dot: trailing
    zeroes after the dot, and a dot with nothing after it, are left out. *)
Fixpoint emit (k : nat) (R x : Z) : list Z :=
  match k with
  | O => replicate (Z.to_nat x) 48
  | S k' =>
      let d := R / 10 ^ Z.of_nat k' in
      let R' := R mod 10 ^ Z.of_nat k' in
      if 0 <? x then d + 48 :: emit k' R' (x - 1)
      else if R =? 0 then []
      else if x =? 0 then 46 :: d + 48 :: emit k' R' (x - 1)
      else d + 48 :: emit k' R' (x - 1)
  end.

(** Conversion unfolds everything else first. *)
Strategy 1000 [emit].

(** The number plus or minus 0.[M] times 10^[x], [M] of eighteen digits. *)
Definition canon (neg : bool) (x M : Z) : list Z :=
  (if neg then [45] else []) ++
  (if x <? 0 then 46 :: replicate (Z.to_nat (- x)) 48 else []) ++ emit 18 M x.

Definition asc (l : list Z) : list Z := map (fun d => d + 48) l.

Lemma H10 : 2 <= 10.
Proof. lia. Qed.

Lemma asc_app l k : asc (l ++ k) = asc l ++ asc k.
Proof. apply map_app. Qed.

Lemma asc_zeros n : asc (replicate n 0) = replicate n 48.
Proof. induction n as [|n IH]; [done|]. simpl. by rewrite <- IH. Qed.

(** * Lemmas: emit *)

Lemma emit_S k R x :
  emit (S k) R x =
  if 0 <? x then R / 10 ^ Z.of_nat k + 48 :: emit k (R mod 10 ^ Z.of_nat k) (x - 1)
  else if R =? 0 then []
  else if x =? 0 then 46 :: R / 10 ^ Z.of_nat k + 48 :: emit k (R mod 10 ^ Z.of_nat k) (x - 1)
  else R / 10 ^ Z.of_nat k + 48 :: emit k (R mod 10 ^ Z.of_nat k) (x - 1).
Proof. done. Qed.

Lemma emit_0 k x : emit k 0 x = replicate (Z.to_nat x) 48.
Proof.
  revert x. induction k as [|k IH]; intros x; [done|]. cbn [emit].
  pose proof (bpow_pos 10 H10 (Z.of_nat k)). rewrite Z.div_0_l, Z.mod_0_l by lia.
  destruct (Z.ltb_spec 0 x).
  - rewrite IH. replace (Z.to_nat x) with (S (Z.to_nat (x - 1))) by lia. done.
  - replace (Z.to_nat x) with O by lia. done.
Qed.

Lemma emit_neg k R x : x < 0 -> emit k R x = asc (sdigs 10 k R).
Proof.
  revert R x. induction k as [|k IH]; intros R x Hx; cbn [emit sdigs].
  - by replace (Z.to_nat x) with O by lia.
  - zif_false. destruct (R =? 0); [done|]. zif_false. rewrite IH by lia. done.
Qed.

Lemma emit_dot k R :
  0 <= R < 10 ^ Z.of_nat k -> emit k R 0 = if R =? 0 then [] else 46 :: asc (sdigs 10 k R).
Proof.
  intros HR. destruct k as [|k]; cbn [emit sdigs].
  - simpl in HR. replace R with 0 by lia. done.
  - destruct (R =? 0); [done|]. rewrite emit_neg by lia. done.
Qed.

Lemma emit_int a b q w :
  0 <= q < 10 ^ Z.of_nat a -> 0 <= w < 10 ^ Z.of_nat b ->
  emit (a + b) (q * 10 ^ Z.of_nat b + w) (Z.of_nat a) = asc (digs 10 a q) ++ emit b w 0.
Proof.
  revert q. induction a as [|a IH]; intros q Hq Hw.
  { simpl in Hq. replace q with 0 by lia. done. }
  cbn [emit digs Nat.add app]. zif_true. rewrite Nat2Z.inj_add.
  destruct (div_group 10 H10 (Z.of_nat a) q w (Z.of_nat b)) as [-> ->]; [lia..|].
  replace (Z.of_nat (S a) - 1) with (Z.of_nat a) by lia. rewrite IH; [done| |done].
  apply Z.mod_pos_bound, (bpow_pos 10 H10). lia.
Qed.

Lemma emit_zeros n j R x :
  0 <= R < 10 ^ Z.of_nat n -> emit (n + j) (R * 10 ^ Z.of_nat j) x = emit n R x.
Proof.
  revert R x. induction n as [|n IH]; intros R x HR.
  { simpl in HR. replace R with 0 by lia. rewrite Z.mul_0_l. apply emit_0. }
  cbn [emit Nat.add]. pose proof (bpow_pos 10 H10 (Z.of_nat j)). rewrite Nat2Z.inj_add.
  destruct (div_group 10 H10 (Z.of_nat n) R 0 (Z.of_nat j)) as [E1 E2]; [lia..|].
  rewrite !Z.add_0_r in *. rewrite E1, E2.
  rewrite !IH by (apply Z.mod_pos_bound, (bpow_pos 10 H10); lia).
  destruct (Z.eqb_spec R 0) as [->|]; [done|].
  replace (R * 10 ^ Z.of_nat j =? 0) with false by (symmetry; apply Z.eqb_neq; nia). done.
Qed.

(** * Lemmas: n2s on floating forms *)

Lemma n2s_digits_spec n r m0 exp out :
  (n <= 9)%nat -> 0 <= r < 10 ^ Z.of_nat n -> 0 <= m0 < MANT_HI ->
  let '(_, exp', out') := n2s_digits n (10 ^ Z.of_nat (9 - n) * r) m0 exp out in
  rev out' ++ emit 9 m0 exp' = rev out ++ emit (n + 9) (r * MANT_HI + m0) exp.
Proof.
  revert r exp out. induction n as [|n IH]; intros r exp out Hn Hr Hm0.
  { simpl in Hr. replace r with 0 by lia. done. }
  cbn [n2s_digits]. pose proof (bpow_pos 10 H10 (Z.of_nat n)) as Pn.
  pose proof (bpow_pos 10 H10 (Z.of_nat (9 - S n))) as Pk.
  assert (HP : 10 ^ Z.of_nat (9 - S n) * 10 ^ Z.of_nat n = MANT_LO).
  { rewrite <- Z.pow_add_r by lia. replace (Z.of_nat (9 - S n) + Z.of_nat n) with 8 by lia. done. }
  rewrite bpow_S in Hr. set (m1 := 10 ^ Z.of_nat (9 - S n) * r).
  pose proof (Z.div_mod r (10 ^ Z.of_nat n) ltac:(lia)) as D.
  pose proof (Z.mod_pos_bound r (10 ^ Z.of_nat n) ltac:(lia)) as M.
  assert (Hq : Z.quot m1 MANT_LO = r / 10 ^ Z.of_nat n).
  { unfold m1. rewrite <- HP, Z.quot_div_nonneg by nia. symmetry.
    apply Z.div_unique with (10 ^ Z.of_nat (9 - S n) * (r mod 10 ^ Z.of_nat n)); nia. }
  assert (Hrest : (m1 - Z.quot m1 MANT_LO * MANT_LO) * 10 =
                  10 ^ Z.of_nat (9 - n) * (r mod 10 ^ Z.of_nat n)).
  { rewrite Hq. unfold m1. rewrite <- HP. replace (9 - n)%nat with (S (9 - S n)) by lia.
    rewrite bpow_S. rewrite D at 1. nia. }
  rewrite Hrest, Hq.
  assert (Hz : (m1 =? 0) = (r =? 0)) by (unfold m1; destruct (Z.eqb_spec r 0); [subst; by rewrite Z.mul_0_r|apply Z.eqb_neq; nia]).
  rewrite Hz. change (S n + 9)%nat with (S (n + 9)). rewrite emit_S, Nat2Z.inj_add.
  assert (Hlast : (r * MANT_HI + m0 =? 0) = (m0 =? 0) && (r =? 0)).
  { num_consts. destruct (Z.eqb_spec m0 0), (Z.eqb_spec r 0); simpl; first [apply Z.eqb_eq|apply Z.eqb_neq]; lia. }
  destruct (div_group 10 H10 (Z.of_nat n) r m0 9) as [E1 E2]; [lia|lia|num_consts; lia|].
  change (10 ^ 9) with MANT_HI in E1, E2. change (Z.of_nat 9) with 9. rewrite E1, E2, Hlast.
  destruct (Z.ltb_spec 0 exp) as [Hx|Hx].
  - replace (exp =? 0) with false by (symmetry; apply Z.eqb_neq; lia).
    replace (exp - 1 <? 0) with false by (symmetry; apply Z.ltb_ge; lia). cbn [andb].
    specialize (IH (r mod 10 ^ Z.of_nat n) (exp - 1) (r / 10 ^ Z.of_nat n + 48 :: out) ltac:(lia) ltac:(lia) Hm0).
    revert IH. destruct (n2s_digits _ _ _ _ _) as [[a b] c]. intros ->. cbn [rev]. by rewrite <- app_assoc.
  - destruct (Z.eqb_spec exp 0) as [->|Hx0].
    + destruct ((m0 =? 0) && (r =? 0)) eqn:El.
      * zbool. subst m0. by rewrite emit_0.
      * specialize (IH (r mod 10 ^ Z.of_nat n) (0 - 1) (r / 10 ^ Z.of_nat n + 48 :: 46 :: out) ltac:(lia) ltac:(lia) Hm0).
    revert IH. destruct (n2s_digits _ _ _ _ _) as [[a b] c]. intros ->. cbn [rev]. by rewrite <- !app_assoc.
    + replace (exp - 1 <? 0) with true by (symmetry; apply Z.ltb_lt; lia). cbn [andb].
      destruct ((m0 =? 0) && (r =? 0)) eqn:El.
      * zbool. subst m0. rewrite emit_0. replace (Z.to_nat (exp - 1)) with O by lia. done.
      * specialize (IH (r mod 10 ^ Z.of_nat n) (exp - 1) (r / 10 ^ Z.of_nat n + 48 :: out) ltac:(lia) ltac:(lia) Hm0).
    revert IH. destruct (n2s_digits _ _ _ _ _) as [[a b] c]. intros ->. cbn [rev]. by rewrite <- app_assoc.
Qed.

Lemma n2s_round m1 m0 exp out :
  0 <= m1 < MANT_HI -> 0 <= m0 < MANT_HI ->
  exists a exp' out', n2s_digits 9 m1 m0 exp out = (a, exp', out') /\
    rev out' ++ emit 9 m0 exp' = rev out ++ emit (9 + 9) (m1 * MANT_HI + m0) exp.
Proof.
  intros H1 H0. pose proof (n2s_digits_spec 9 m1 m0 exp out ltac:(lia) ltac:(num_consts; simpl; lia) H0) as S1.
  replace (10 ^ Z.of_nat (9 - 9) * m1) with m1 in S1 by (simpl; lia).
  destruct (n2s_digits 9 m1 m0 exp out) as [[a e'] o']. eauto.
Qed.

Lemma MANT_HI_pow : MANT_HI = 10 ^ Z.of_nat 9.
Proof. done. Qed.

Lemma n2s_mant_S fuel m1 m0 exp out :
  m1 <> 0 ->
  n2s_mant (S fuel) m1 m0 exp out =
  let '(_, exp', out') := n2s_digits (Z.to_nat PACKED_DIGITS) m1 m0 exp out in
  n2s_mant fuel m0 0 exp' out'.
Proof. intros H. cbn [n2s_mant]. by rewrite (proj2 (Z.eqb_neq _ _) H). Qed.

Lemma PACKED_9 : Z.to_nat PACKED_DIGITS = 9%nat.
Proof. done. Qed.

Lemma n2s_mant_spec m1 m0 exp :
  MANT_LO <= m1 < MANT_HI -> 0 <= m0 < MANT_HI ->
  exists exp' out', n2s_mant 3 m1 m0 exp [] = Ok (exp', out') /\
    rev out' ++ replicate (Z.to_nat exp') 48 = emit (9 + 9) (m1 * MANT_HI + m0) exp.
Proof.
  intros H1 H0.
  destruct (n2s_round m1 m0 exp [] ltac:(num_consts; lia) H0) as (a & e1 & o1 & E1 & S1).
  rewrite n2s_mant_S, PACKED_9, E1 by (num_consts; lia).
  change (rev (@nil Z)) with (@nil Z) in S1. rewrite app_nil_l in S1.
  destruct (Z.eq_dec m0 0) as [->|Hm0].
  { exists e1, o1. split; [reflexivity|]. rewrite emit_0 in S1. exact S1. }
  destruct (n2s_round m0 0 e1 o1 H0 ltac:(num_consts; lia)) as (b & e2 & o2 & E2 & S2).
  rewrite n2s_mant_S, PACKED_9, E2 by done. exists e2, o2. split; [reflexivity|].
  rewrite <- S1, <- (emit_0 9), S2. f_equal. rewrite Z.add_0_r, MANT_HI_pow. apply emit_zeros.
  rewrite <- MANT_HI_pow. exact H0.
Qed.

(** * Lemmas: n2s on integer forms *)

Lemma quot_rem10 m : 0 <= m -> Z.quot m 10 = m / 10 /\ m - Z.quot m 10 * 10 = m mod 10.
Proof. intros. rewrite Z.quot_div_nonneg by lia. pose proof (Z.div_mod m 10). lia. Qed.

Lemma n2s_frac_started n m buf :
  0 <= m < 10 ^ Z.of_nat n -> n2s_frac n m true buf = asc (digs 10 n m) ++ buf.
Proof.
  revert m buf. induction n as [|n IH]; intros m buf Hm; [done|]. cbn [n2s_frac orb].
  destruct (quot_rem10 m) as [E1 E2]; [lia|]. rewrite E2, E1.
  rewrite bpow_S in Hm. rewrite IH by (split; [apply Z.div_pos|apply Z.div_lt_upper_bound]; lia).
  rewrite (digs_snoc 10 H10) by (rewrite bpow_S; lia). rewrite asc_app, <- app_assoc. done.
Qed.

Lemma n2s_frac_spec n m :
  0 <= m < 10 ^ Z.of_nat n -> n2s_frac n m false [] = asc (sdigs 10 n m).
Proof.
  revert m. induction n as [|n IH]; intros m Hm; [done|]. cbn [n2s_frac orb].
  destruct (quot_rem10 m) as [E1 E2]; [lia|]. rewrite E2, E1. rewrite bpow_S in Hm.
  pose proof (Z.div_mod m 10). pose proof (Z.mod_pos_bound m 10).
  assert (Hd : 0 <= m / 10 < 10 ^ Z.of_nat n) by (split; [apply Z.div_pos|apply Z.div_lt_upper_bound]; lia).
  replace (sdigs 10 (S n) m) with (sdigs 10 (S n) (m / 10 * 10 + m mod 10)) by (f_equal; lia).
  rewrite (sdigs_snoc 10 H10) by lia. destruct (m mod 10 =? 0); cbn [negb]; [by apply IH|].
  rewrite n2s_frac_started by done. by rewrite asc_app.
Qed.

Lemma n2s_int_spec fuel k m0 buf :
  ndigs 10 k m0 -> (k < fuel)%nat -> n2s_int fuel m0 buf = Ok (asc (digs 10 k m0) ++ buf).
Proof.
  revert k m0 buf. induction fuel as [|fuel IH]; intros k m0 buf Hk Hf; [lia|]. cbn [n2s_int].
  destruct k as [|k].
  { simpl in Hk. subst m0. done. }
  pose proof (ndigs_range 10 H10 _ _ Hk) as Hr. pose proof (bpow_pos 10 H10 (Z.of_nat k)).
  assert (0 < m0) by (simpl in Hk; lia). replace (0 <? m0) with true by (symmetry; by apply Z.ltb_lt).
  destruct (quot_rem10 m0) as [E1 E2]; [lia|]. cbv zeta. rewrite E2.
  rewrite (IH k) by (by apply (ndigs_div 10 H10) || lia).
  rewrite (digs_snoc 10 H10), asc_app, <- app_assoc by done. by rewrite E1.
Qed.

(** The integer form with [n] digits, as the canonical string of its mantissa. *)
Lemma n2s_int_form n m :
  1 <= n <= 9 -> 10 ^ (n - 1) <= m < 10 ^ n ->
  (buf ← n2s_int 11 (Z.quot m MV_BIAS)
     (if 0 <? m - Z.quot m MV_BIAS * MV_BIAS
      then 46 :: n2s_frac (Z.to_nat MV_BIAS_PWR) (m - Z.quot m MV_BIAS * MV_BIAS) false [] else []);
   Ok buf) = Ok (canon false (n - 3) (m * 10 ^ (18 - n))).
Proof.
  intros Hn Hm. unfold MV_BIAS. assert (0 < 10 ^ (n - 1)) by (apply Z.pow_pos_nonneg; lia).
  pose proof (Z.div_mod m 1000) as D. pose proof (Z.mod_pos_bound m 1000) as B.
  replace (m - Z.quot m 1000 * 1000) with (m mod 1000) by (rewrite Z.quot_div_nonneg by lia; lia).
  rewrite Z.quot_div_nonneg by lia. set (F := m mod 1000) in *. set (I := m / 1000) in *.
  change (Z.to_nat MV_BIAS_PWR) with 3%nat. rewrite n2s_frac_spec by (simpl; lia).
  unfold canon. rewrite app_nil_l. destruct (Z.le_gt_cases n 3) as [Hs|Hs].
  - assert (m < 1000) by (assert (10 ^ n <= 10 ^ 3) by (apply Z.pow_le_mono_r; lia); lia).
    assert (HI : I = 0) by (apply Z.div_small; lia). assert (HF : F = m) by lia.
    rewrite HI, HF. replace (0 <? m) with true by (symmetry; apply Z.ltb_lt; lia).
    rewrite (n2s_int_spec _ 0) by (done || lia). rewrite res_bind_ok, app_nil_l. f_equal.
    assert (Hz : sdigs 10 3 m = replicate (Z.to_nat (3 - n)) 0 ++ sdigs 10 (Z.to_nat n) m).
    { rewrite <- (digs_0 10 H10). rewrite <- (sdigs_app 10 H10) by (rewrite ?Z2Nat.id by lia; lia).
      f_equal; lia. }
    assert (Hm18 : sdigs 10 18 (m * 10 ^ (18 - n)) = sdigs 10 (Z.to_nat n) m).
    { replace 18%nat with (Z.to_nat n + Z.to_nat (18 - n))%nat by lia.
      replace (18 - n) with (Z.of_nat (Z.to_nat (18 - n))) at 2 by lia.
      apply (sdigs_zeros 10 H10). rewrite Z2Nat.id by lia. lia. }
    rewrite Hz, asc_app, asc_zeros. destruct (Z.ltb_spec (n - 3) 0).
    + rewrite emit_neg by lia. rewrite Hm18. cbn [app]. do 2 f_equal. f_equal. lia.
    + replace (n - 3) with 0 by lia. rewrite emit_dot, Hm18.
      * replace (m * 10 ^ (18 - n) =? 0) with false
          by (symmetry; apply Z.eqb_neq; pose proof (bpow_pos 10 H10 (18 - n)); nia).
        by replace (Z.to_nat (3 - n)) with O by lia.
      * replace (10 ^ Z.of_nat 18) with (10 ^ n * 10 ^ (18 - n))
          by (rewrite <- Z.pow_add_r by lia; f_equal; lia).
        pose proof (bpow_pos 10 H10 (18 - n)). nia.
  - replace (n - 3 <? 0) with false by (symmetry; apply Z.ltb_ge; lia). rewrite app_nil_l.
    set (a := Z.to_nat (n - 3)). set (b := Z.to_nat (21 - n)).
    assert (Hp1 : 10 ^ (n - 1) = 10 ^ Z.of_nat (Z.to_nat (n - 4)) * 1000)
      by (change 1000 with (10 ^ 3); rewrite <- Z.pow_add_r by lia; f_equal; lia).
    assert (Hp2 : 10 ^ n = 10 ^ Z.of_nat a * 1000)
      by (change 1000 with (10 ^ 3); rewrite <- Z.pow_add_r by lia; f_equal; lia).
    assert (Hb : 10 ^ Z.of_nat b = 1000 * 10 ^ (18 - n))
      by (change 1000 with (10 ^ 3); rewrite <- Z.pow_add_r by lia; f_equal; lia).
    pose proof (bpow_pos 10 H10 (18 - n) ltac:(lia)) as Pp.
    assert (HI : ndigs 10 a I).
    { unfold a. replace (Z.to_nat (n - 3)) with (S (Z.to_nat (n - 4))) in * by lia.
      unfold ndigs. replace (Z.of_nat (S (Z.to_nat (n - 4)))) with (Z.of_nat a) by lia. lia. }
    assert (HX : m * 10 ^ (18 - n) = I * 10 ^ Z.of_nat b + F * 10 ^ (18 - n)).
    { rewrite Hb. transitivity ((1000 * I + F) * 10 ^ (18 - n)); [by rewrite <- D|lia]. }
    rewrite HX. replace 18%nat with (a + b)%nat by lia.
    replace (n - 3) with (Z.of_nat a) by lia.
    rewrite emit_int; [|by apply (ndigs_range 10 H10)|rewrite Hb; nia].
    rewrite (n2s_int_spec _ a) by (done || lia). rewrite res_bind_ok. do 2 f_equal.
    rewrite emit_dot by (rewrite Hb; nia).
    destruct (Z.ltb_spec 0 F).
    + replace (F * 10 ^ (18 - n) =? 0) with false by (symmetry; apply Z.eqb_neq; nia).
      do 2 f_equal. replace b with (3 + Z.to_nat (18 - n))%nat by lia.
      replace (18 - n) with (Z.of_nat (Z.to_nat (18 - n))) at 2 by lia.
      symmetry. apply (sdigs_zeros 10 H10). simpl. lia.
    + replace F with 0 by lia. done.
Qed.

Lemma bind_ret {A} (r : res A) a : (x ← r; Ok x) = Ok a -> r = Ok a.
Proof. by destruct r. Qed.

Lemma canon_neg x M : canon true x M = 45 :: canon false x M.
Proof. unfold canon. cbv iota. rewrite app_nil_l. reflexivity. Qed.

(** The string of a number is the canonical string of its value. *)
Lemma n2s_canon v :
  num_ok v ->
  (num_value v = 0 /\ n2s_str v = Ok [48]) \/
  (exists neg E M, norm (num_value v) neg E M /\ n2s_str v = Ok (canon neg (E - MV_XBIAS) M)).
Proof.
  intros [H|H]; unfold n2s_str; pose proof H as (_ & Hi & _); rewrite Hi.
  - rewrite num_value_int by done. destruct H as (_ & _ & _ & Hm).
    destruct (Z.eqb_spec (mv_m1 v) 0) as [->|Hnz]; [by left|right].
    destruct (int_digits_ex (Z.abs (mv_m1 v))) as (n & Hn & Hr); [lia|].
    exists (mv_m1 v <? 0), (59 + n), (Z.abs (mv_m1 v) * 10 ^ (18 - n)). split.
    + replace (mv_m1 v) with (if mv_m1 v <? 0 then - Z.abs (mv_m1 v) else Z.abs (mv_m1 v)) at 1 by (zcase; lia).
      by apply int_digits.
    + assert ((if mv_m1 v <? 0 then int4 (- mv_m1 v) else Ok (mv_m1 v)) = Ok (Z.abs (mv_m1 v))) as ->.
      { zcase; [rewrite int4_ok by (num_consts; lia)|]; f_equal; lia. }
      rewrite res_bind_ok. pose proof (n2s_int_form n _ Hn Hr) as Hf. apply bind_ret in Hf.
      cbv zeta. rewrite Hf, res_bind_ok.
      replace (59 + n - MV_XBIAS) with (n - 3) by (unfold MV_XBIAS; lia).
      destruct (mv_m1 v <? 0); [rewrite canon_neg|]; reflexivity.
  - right. rewrite num_value_flt by done. pose proof (flt_mant v H) as HM.
    destruct H as (_ & _ & _ & Hs & He & H1 & H0).
    exists (negb (mv_sgn v =? 0)), (mv_e v), (mant v). split.
    + split; [done|]. split; [done|]. unfold flt_value. by destruct (mv_sgn v =? 0).
    + replace (mv_m1 v =? 0) with false by (symmetry; apply Z.eqb_neq; num_consts; lia).
      destruct (n2s_mant_spec (mv_m1 v) (mv_m0 v) (mv_e v - MV_XBIAS) H1 H0) as (e' & o' & E & Eo).
      cbv zeta. rewrite E. rewrite res_bind_ok. unfold canon, mant.
      change 18%nat with (9 + 9)%nat. rewrite <- Eo. reflexivity.
Qed.
