(* ===== verification/Subscript.v ===== *)
(** Global variable subscripts as keys (mval2subsc.c): the bytes a subscript
    is stored as, numbers through the pair tables and strings through the
    escape of bytes 0 and 1, and the key buffer they are appended to.  The
    order of the bytes is the collating order of the subscripts. *)

From stdpp Require Import base list numbers option tactics.
From Stdlib Require Import ZArith Lia.
From S2P Require Import Prelude Digits Mval Numstr.

Open Scope Z_scope.

(** * Constants and tables *)

Definition STR_SUB_PREFIX : Z := 255.
Definition SUBSCRIPT_STDCOL_NULL : Z := 1.
Definition STR_SUB_ESCAPE : Z := 1.
Definition SUBSCRIPT_ZERO : Z := 128.
Definition SUBSCRIPT_BIAS : Z := 190.
Definition NEG_MNTSSA_END : Z := 255.
Definition KEY_DELIMITER : Z := 0.
Definition MAX_NUM_SUBSC_LEN : Z := 10.
Definition MAX_GVKEY_PADDING_LEN : Z := MAX_NUM_SUBSC_LEN + 16.

Definition pos_code_table : list Z :=
  [1; 2; 3; 4; 5; 6; 7; 8; 9; 10;
   17; 18; 19; 20; 21; 22; 23; 24; 25; 26;
   33; 34; 35; 36; 37; 38; 39; 40; 41; 42;
   49; 50; 51; 52; 53; 54; 55; 56; 57; 58;
   65; 66; 67; 68; 69; 70; 71; 72; 73; 74;
   81; 82; 83; 84; 85; 86; 87; 88; 89; 90;
   97; 98; 99; 100; 101; 102; 103; 104; 105; 106;
   113; 114; 115; 116; 117; 118; 119; 120; 121; 122;
   129; 130; 131; 132; 133; 134; 135; 136; 137; 138;
   145; 146; 147; 148; 149; 150; 151; 152; 153; 154].

Definition neg_code_table : list Z :=
  [254; 253; 252; 251; 250; 249; 248; 247; 246; 245;
   238; 237; 236; 235; 234; 233; 232; 231; 230; 229;
   222; 221; 220; 219; 218; 217; 216; 215; 214; 213;
   206; 205; 204; 203; 202; 201; 200; 199; 198; 197;
   190; 189; 188; 187; 186; 185; 184; 183; 182; 181;
   174; 173; 172; 171; 170; 169; 168; 167; 166; 165;
   158; 157; 156; 155; 154; 153; 152; 151; 150; 149;
   142; 141; 140; 139; 138; 137; 136; 135; 134; 133;
   126; 125; 124; 123; 122; 121; 120; 119; 118; 117;
   110; 109; 108; 107; 106; 105; 104; 103; 102; 101].

(** [cvt_table[i]], the table chosen by the sign. *)
Definition cvt (is_negative : bool) (i : Z) : res Z :=
  res_of (rd (if is_negative then neg_code_table else pos_code_table) i).

(** The byte of the exponent, complemented for a negative number. *)
Definition exp_byte (is_negative : bool) (exp_val : Z) : Z :=
  u8 (if is_negative then Z.lnot exp_val else exp_val).

(** * Integer forms *)

(** KEEP_STRIPING: pairs of zeroes at the low end are dropped, the first other
    pair goes in front of [tm]. *)
Fixpoint keep_striping (fuel : nat) (is_negative : bool) (mt : Z) (tm : list Z) : res (Z * list Z) :=
  match fuel with
  | O => Err UB
  | S fuel' =>
      if negb (mt =? 0) then
        let mx := Z.quot mt 100 in
        let mw := mt - mx * 100 in
        if negb (mw =? 0) then
          b ← cvt is_negative mw; Ok (mx, b :: tm)
        else keep_striping fuel' is_negative mx tm
      else Ok (mt, tm)
  end.

(** FINISH_INTEGERS: the remaining pairs, each in front of [tm]. *)
Fixpoint finish_integers (fuel : nat) (is_negative : bool) (mt : Z) (tm : list Z) : res (list Z) :=
  match fuel with
  | O => Err UB
  | S fuel' =>
      if negb (mt =? 0) then
        let mx := Z.quot mt 100 in
        let mw := mt - mx * 100 in
        b ← cvt is_negative mw;
        finish_integers fuel' is_negative mx (b :: tm)
      else Ok tm
  end.

(** ODD_INTEGER and EVEN_INTEGER. *)
Definition odd_integer (is_negative : bool) (exp_val mt : Z) : res (list Z) :=
  let mx := Z.quot mt 10 in
  let mw := mt - mx * 10 in
  let mt := mx in
  if negb (mw =? 0) then
    b ← cvt is_negative (mw * 10);
    tm ← finish_integers 6 is_negative mt [b];
    Ok (exp_byte is_negative exp_val :: tm)
  else
    '(mt, tm) ← keep_striping 6 is_negative mt [];
    tm ← finish_integers 6 is_negative mt tm;
    Ok (exp_byte is_negative exp_val :: tm).

Definition even_integer (is_negative : bool) (exp_val mt : Z) : res (list Z) :=
  '(mt, tm) ← keep_striping 6 is_negative mt [];
  tm ← finish_integers 6 is_negative mt tm;
  Ok (exp_byte is_negative exp_val :: tm).

(** The bytes of an integer form up to FINISH_NUMBER, and whether it is
    negative; [None] for zero, which jumps to ALLDONE with its one byte. *)
Definition int_subsc (m1 : Z) : res (list Z * option bool) :=
  if m1 =? 0 then Ok ([SUBSCRIPT_ZERO], None)
  else
    let is_negative := m1 <? 0 in
    mt ← (if is_negative then int4 (- m1) else Ok m1);
    l ← (if mt <? 10 then
           b ← cvt is_negative (mt * 10); Ok [exp_byte is_negative (SUBSCRIPT_BIAS - 2); b]
         else if mt <? 100 then
           b ← cvt is_negative mt; Ok [exp_byte is_negative (SUBSCRIPT_BIAS - 1); b]
         else if mt <? 1000 then odd_integer is_negative SUBSCRIPT_BIAS mt
         else if mt <? 10000 then even_integer is_negative (SUBSCRIPT_BIAS + 1) mt
         else if mt <? 100000 then odd_integer is_negative (SUBSCRIPT_BIAS + 2) mt
         else if mt <? 1000000 then even_integer is_negative (SUBSCRIPT_BIAS + 3) mt
         else if mt <? 10000000 then odd_integer is_negative (SUBSCRIPT_BIAS + 4) mt
         else if mt <? 100000000 then even_integer is_negative (SUBSCRIPT_BIAS + 5) mt
         else odd_integer is_negative (SUBSCRIPT_BIAS + 6) mt);
    Ok (l, Some is_negative).

(** * Floating forms *)

(** LAST_LONGWORD: the pairs of [mt] from the top of its nine digits. *)
Fixpoint last_longword (fuel : nat) (is_negative : bool) (mt : Z) : res (list Z) :=
  match fuel with
  | O => Err UB
  | S fuel' =>
      if negb (mt =? 0) then
        let mx := Z.quot mt (MANT_HI / 100) in
        b ← cvt is_negative mx;
        mt ← int4 ((mt - mx * (MANT_HI / 100)) * 100);
        l ← last_longword fuel' is_negative mt;
        Ok (b :: l)
      else Ok []
  end.

(** [for (digs = 0; digs < 4; digs++)]. *)
Fixpoint four_pairs (n : nat) (is_negative : bool) (mt : Z) : res (list Z) :=
  match n with
  | O => Ok []
  | S n' =>
      let mx := Z.quot mt (MANT_HI / 100) in
      b ← cvt is_negative mx;
      mt ← int4 ((mt - mx * (MANT_HI / 100)) * 100);
      l ← four_pairs n' is_negative mt;
      Ok (b :: l)
  end.

(** The bytes of a floating form up to FINISH_NUMBER. *)
Definition flt_subsc (sgn e m1 m0 : Z) : res (list Z) :=
  let is_negative := negb (sgn =? 0) in
  let hd := exp_byte is_negative (e - MV_XBIAS + SUBSCRIPT_BIAS) in
  let mx := Z.quot m1 (MANT_HI / 100) in
  b ← cvt is_negative mx;
  mt ← int4 ((m1 - mx * (MANT_HI / 100)) * 100);
  if m0 =? 0 then
    l ← last_longword 10 is_negative mt; Ok (hd :: b :: l)
  else
    let mx := Z.quot m0 (MANT_HI / 10) in
    let mt := mt + mx * 10 in
    mw ← int4 ((m0 - mx * (MANT_HI / 10)) * 10);
    if mw =? 0 then
      l ← last_longword 10 is_negative mt; Ok (hd :: b :: l)
    else
      l4 ← four_pairs 4 is_negative mt;
      l ← last_longword 10 is_negative mw;
      Ok (hd :: b :: l4 ++ l).

(** The bytes of a number, without the delimiter. *)
Definition num_subsc (v : mval) : res (list Z) :=
  '(l, neg) ← (if has MV_INT v then int_subsc (mv_m1 v)
               else
                 l ← flt_subsc (mv_sgn v) (mv_e v) (mv_m1 v) (mv_m0 v);
                 Ok (l, Some (negb (mv_sgn v =? 0))));
  Ok (if (match neg with Some true => true | _ => false end) then l ++ [NEG_MNTSSA_END] else l).

(** * The key *)

Record gv_key := mk_gv_key { k_top : Z; k_end : Z; k_prev : Z; k_base : list Z }.

(** TREF(transform), and of gv_target the nct flag and the collation
    sequence, the transformation of the library it was loaded from. *)
Record collation := mk_collation {
  transform : bool; nct : bool; collseq : option (list Z -> res (list Z))
}.

(** Bytes written to a buffer from offset [i]. *)
Fixpoint wr_list (m : list Z) (i : Z) (l : list Z) : option (list Z) :=
  match l with
  | [] => Some m
  | b :: l' => m' ← wr m i b; wr_list m' (i + 1) l'
  end.

(** * Strings *)

(** The loop over the string: the bytes 0 and 1 get an escape before them,
    and each escape uses a byte of [avail_bytes] that the length alone does
    not count.  The buffer as it is left, [out_ptr], and whether all the bytes
    found room; the escape that finds none has been written by then. *)
Fixpoint escape (base : list Z) (out_ptr : Z) (s : list Z) (avail_bytes : Z) : res (list Z * Z * bool) :=
  match s with
  | [] => Ok (base, out_ptr, true)
  | ch :: s' =>
      if ch <=? 1 then
        base ← res_of (wr base out_ptr STR_SUB_ESCAPE);
        if avail_bytes - 1 <? 0 then Ok (base, out_ptr + 1, false)
        else
          base ← res_of (wr base (out_ptr + 1) (ch + 1));
          escape base (out_ptr + 2) s' (avail_bytes - 1)
      else
        base ← res_of (wr base out_ptr ch);
        escape base (out_ptr + 1) s' avail_bytes
  end.

(** A string subscript at the end of the key: the null string is never
    transformed.  When an escape finds no room, the key is terminated at its
    old end again. *)
Definition str_subsc (cl : collation) (s : list Z) (out_key : gv_key) (std_null_coll : bool) : res (list Z * Z * bool) :=
  s ← (match transform cl, collseq cl with
       | true, Some xform => if zlen s =? 0 then Ok [] else xform s
       | _, _ => Ok s
       end);
  let avail_bytes := k_top out_key - (k_end out_key + zlen s + 3) in
  if avail_bytes <? 0 then Ok (k_base out_key, k_end out_key, false)
  else if 0 <? zlen s then
    base ← res_of (wr (k_base out_key) (k_end out_key) STR_SUB_PREFIX);
    '(base, out_ptr, fits) ← escape base (k_end out_key + 1) s avail_bytes;
    if (fits : bool) then Ok (base, out_ptr, true)
    else
      base ← res_of (wr base (k_end out_key) KEY_DELIMITER);
      Ok (base, out_ptr, false)
  else
    base ← res_of (wr (k_base out_key) (k_end out_key) (if negb std_null_coll then STR_SUB_PREFIX else SUBSCRIPT_STDCOL_NULL));
    Ok (base, k_end out_key + 1, true).

(** * The conversion *)

(** What the subscript is, a number or a string: the mval, converted when it
    says neither, and [mvt]. *)
Definition subsc_type (g : globals) (cl : collation) (in_val : mval) : res (mval * Z) :=
  in_val ← (if transform cl && nct cl then MV_FORCE_STR g in_val else Ok in_val);
  let mvt := if transform cl && nct cl then Z.lor (mvtype in_val) MV_NUM_APPROX else mvtype in_val in
  if negb (Z.land mvt MV_SQLNULL =? 0) then Err ERR_ZYSQLNULLNOTVALID
  else if Z.land mvt (Z.lor MV_NM MV_NUM_APPROX) =? 0 then
    '(iscan, in_val) ← val_iscan g in_val;
    if (iscan : bool) then
      '(in_val, _, _) ← s2n (compile_time g) false in_val;
      Ok (in_val, mvtype in_val)
    else
      let in_val := set_mvtype (Z.lor (mvtype in_val) MV_NUM_APPROX) in_val in
      Ok (in_val, mvtype in_val)
  else Ok (in_val, mvt).

(** The subscript, converted, and the key as it is left; [false] where
    ISSUE_GVSUBOFLOW_ERROR is reached.  Every byte is written to the buffer of the
    key, and a write outside it is [UB]. *)
Definition mval2subsc (g : globals) (cl : collation) (in_val : mval) (out_key : gv_key)
    (std_null_coll : bool) : res (mval * gv_key * bool) :=
  '(in_val, mvt) ← subsc_type g cl in_val;
  '(base, out_ptr, fits) ←
    (if negb (Z.land mvt MV_NUM_APPROX =? 0) then str_subsc cl (mv_str in_val) out_key std_null_coll
     else
       l ← num_subsc in_val;
       base ← res_of (wr_list (k_base out_key) (k_end out_key) l);
       Ok (base, k_end out_key + zlen l, true));
  if negb fits then Ok (in_val, mk_gv_key (k_top out_key) (k_end out_key) (k_prev out_key) base, false)
  else
    base ← res_of (wr base out_ptr KEY_DELIMITER);
    base ← res_of (wr base (out_ptr + 1) KEY_DELIMITER);
    let k := mk_gv_key (k_top out_key) (out_ptr + 1) (k_end out_key) base in
    Ok (in_val, k, negb (k_top k - k_end k <? MAX_GVKEY_PADDING_LEN + 1)).

(** The bytes of the last subscript of a key, without its delimiter. *)
Definition last_subsc (k : gv_key) : list Z :=
  take (Z.to_nat (k_end k - 1 - k_prev k)) (drop (Z.to_nat (k_prev k)) (k_base k)).

(** No collation is at work: either mval2subsc does not look at gv_target, or, as
    in a running program, it does (TREF(transform) is set when it starts) and the global
    has neither a collation sequence nor the numeric collation flag. *)
Definition no_collation (cl : collation) : Prop :=
  transform cl = false \/ (nct cl = false /\ collseq cl = None).

(** * The reference encoding *)

(** Pairs of digits: the digits in base 100. *)
Abbreviation dpairs := (digs 100).
Abbreviation spairs := (sdigs 100).

Lemma H100 : 2 <= 100.
Proof. lia. Qed.

(** The code of a pair, and its complement for a negative number. *)
Definition pcode (d : Z) : Z := 16 * (d / 10) + d mod 10 + 1.
Definition flip (neg : bool) (b : Z) : Z := if neg then 255 - b else b.
Definition pair_code (neg : bool) (d : Z) : Z := flip neg (pcode d).

Definition code (neg : bool) (E M : Z) : list Z :=
  flip neg (E + 128) :: map (pair_code neg) (spairs 9 M) ++ (if neg then [255] else []).

(** What a subscript is, and the order M prescribes: numbers by value, then
    strings by bytes, the null string before all the others, or before the
    numbers under standard null collation. *)
Inductive subscript := SNum (x : Z) | SStr (s : list Z).

Definition sub_cmp (std_null_coll : bool) (a b : subscript) : comparison :=
  match a, b with
  | SNum x, SNum y => x ?= y
  | SStr s, SStr t => lexcmp s t
  | SNum _, SStr t => if std_null_coll && (zlen t =? 0) then Gt else Lt
  | SStr s, SNum _ => if std_null_coll && (zlen s =? 0) then Lt else Gt
  end.

Definition meaning (v : mval) : subscript :=
  if has MV_NUM_APPROX v then SStr (mv_str v) else SNum (num_value v).

Definition sub_ok (v : mval) : Prop :=
  bytes_ok (mv_str v) /\ (has MV_NUM_APPROX v = true \/ num_ok v).

(** * Lemmas: the numbers of mval2subsc *)

Lemma cvt_spec neg i : 0 <= i < 100 -> cvt neg i = Ok (pair_code neg i).
Proof.
  intros Hi. unfold cvt.
  assert (Hall : forallb (fun j => match rd (if neg then neg_code_table else pos_code_table) j with
      | Some b => b =? pair_code neg j | None => false end) (seqZ 0 100) = true)
    by (destruct neg; vm_compute; reflexivity).
  rewrite forallb_forall in Hall. specialize (Hall i).
  destruct (rd _ i) as [b|].
  - simpl. f_equal. apply Z.eqb_eq, Hall. apply list_elem_of_In, elem_of_seqZ. lia.
  - exfalso. assert (Hf : false = true) by (apply Hall, list_elem_of_In, elem_of_seqZ; lia). done.
Qed.

Lemma exp_byte_spec neg v : 0 <= v < 256 -> exp_byte neg v = flip neg v.
Proof.
  intros. unfold exp_byte, flip, u8. destruct neg.
  - symmetry. apply Z.mod_unique with (-1); unfold Z.lnot; lia.
  - by rewrite Z.mod_small by lia.
Qed.

Lemma finish_integers_spec fuel neg k mt tm :
  ndigs 100 k mt -> (k < fuel)%nat ->
  finish_integers fuel neg mt tm = Ok (map (pair_code neg) (dpairs k mt) ++ tm).
Proof.
  revert k mt tm. induction fuel as [|fuel IH]; intros k mt tm Hk Hf; [lia|].
  cbn [finish_integers]. destruct k as [|k].
  { simpl in Hk. subst mt. done. }
  pose proof (ndigs_range 100 H100 _ _ Hk). pose proof ((bpow_pos 100 H100) (Z.of_nat k)).
  assert (mt <> 0) by (simpl in Hk; lia). zif_true.
  assert (Hq : mt - Z.quot mt 100 * 100 = mt mod 100).
  { rewrite Z.quot_div_nonneg by lia. pose proof (Z.div_mod mt 100). lia. }
  rewrite Hq, cvt_spec by (apply Z.mod_pos_bound; lia). rewrite res_bind_ok.
  rewrite (IH k) by (by apply (ndigs_div 100 H100) || lia). rewrite (digs_snoc 100 H100) by done.
  rewrite map_app, <- app_assoc. rewrite Z.quot_div_nonneg by lia. done.
Qed.

Lemma keep_striping_spec fuel neg k mt :
  ndigs 100 (S k) mt -> (S k < fuel)%nat ->
  exists mt' tm j, keep_striping fuel neg mt [] = Ok (mt', tm) /\ ndigs 100 j mt' /\ (j <= k)%nat /\
    map (pair_code neg) (dpairs j mt') ++ tm = map (pair_code neg) (spairs (S k) mt).
Proof.
  revert k mt. induction fuel as [|fuel IH]; intros k mt Hk Hf; [lia|].
  cbn [keep_striping]. pose proof (ndigs_range 100 H100 _ _ Hk) as Hr. pose proof ((bpow_pos 100 H100) (Z.of_nat k)).
  assert (mt <> 0) by (simpl in Hk; lia). zif_true.
  pose proof (Z.div_mod mt 100). pose proof (Z.mod_pos_bound mt 100 ltac:(lia)) as Hm.
  pose proof (ndigs_div 100 H100 _ _ Hk) as Hd.
  assert (Hq : mt - Z.quot mt 100 * 100 = mt mod 100) by (rewrite Z.quot_div_nonneg by lia; lia).
  rewrite Hq. rewrite Z.quot_div_nonneg in * by lia.
  assert (Hsn : spairs (S k) mt = if mt mod 100 =? 0 then spairs k (mt / 100)
                                  else dpairs k (mt / 100) ++ [mt mod 100]).
  { rewrite <- (sdigs_snoc 100 H100) by (lia || apply (ndigs_range 100 H100); done). f_equal. lia. }
  destruct (Z.eqb_spec (mt mod 100) 0) as [E|E]; simpl negb; cbv iota.
  - destruct k as [|k]; [simpl in Hd; lia|].
    destruct (IH k (mt / 100)) as (mt' & tm & j & E' & Hj & Hle & Em); [done|lia|].
    exists mt', tm, j. rewrite E', Hsn. split; [done|]. split; [done|]. split; [lia|done].
  - rewrite cvt_spec by lia. rewrite res_bind_ok. exists (mt / 100), [pair_code neg (mt mod 100)], k.
    rewrite Hsn, map_app. repeat split; auto.
Qed.

(** Both loops on [k] pairs. *)
Lemma even_integer_spec neg ev k mt :
  ndigs 100 (S k) mt -> (k < 5)%nat -> 0 <= ev < 256 ->
  even_integer neg ev mt = Ok (flip neg ev :: map (pair_code neg) (spairs (S k) mt)).
Proof.
  intros Hk Hf He. unfold even_integer.
  destruct (keep_striping_spec 6 neg k mt Hk) as (mt' & tm & j & -> & Hj & Hle & E); [lia|].
  cbn [mbind res_bind]. rewrite (finish_integers_spec _ _ j) by (done || lia).
  cbn [mbind res_bind]. by rewrite E, exp_byte_spec by done.
Qed.

Lemma odd_integer_spec neg ev k mt :
  100 ^ Z.of_nat k <= mt * 10 < 100 ^ Z.of_nat (S k) -> (0 < k < 5)%nat -> 0 <= ev < 256 ->
  odd_integer neg ev mt = Ok (flip neg ev :: map (pair_code neg) (spairs (S k) (mt * 10))).
Proof.
  intros Hk Hf He. unfold odd_integer.
  pose proof ((bpow_pos 100 H100) (Z.of_nat k)). pose proof (Z.div_mod mt 10) as D.
  pose proof (Z.mod_pos_bound mt 10 ltac:(lia)) as B.
  assert (Hq : mt - Z.quot mt 10 * 10 = mt mod 10) by (rewrite Z.quot_div_nonneg by lia; lia).
  cbv zeta. rewrite Hq. rewrite Z.quot_div_nonneg by lia.
  assert (Hn : ndigs 100 k (mt / 10)).
  { destruct k as [|k]; [lia|]. rewrite !(bpow_S 100) in *. simpl. pose proof ((bpow_S 100) k). lia. }
  replace (mt * 10) with (mt / 10 * 100 + mt mod 10 * 10) by lia.
  rewrite (sdigs_snoc 100 H100) by (lia || by apply (ndigs_range 100 H100)).
  destruct (Z.eqb_spec (mt mod 10) 0) as [E|E]; simpl negb; cbv iota.
  - rewrite E. simpl Z.mul. cbv iota. rewrite Z.eqb_refl. destruct k as [|k]; [lia|].
    fold (even_integer neg ev (mt / 10)). rewrite (even_integer_spec neg ev k) by (done || lia). done.
  - replace (mt mod 10 * 10 =? 0) with false by (symmetry; apply Z.eqb_neq; lia).
    rewrite cvt_spec by lia. rewrite res_bind_ok.
    rewrite (finish_integers_spec _ _ k) by (done || lia). rewrite res_bind_ok, map_app.
    by rewrite exp_byte_spec.
Qed.

(** The branch of int_subsc for [mt], which has [n] digits. *)
Definition int_branch (neg : bool) (mt : Z) : res (list Z) :=
  if mt <? 10 then b ← cvt neg (mt * 10); Ok [exp_byte neg (SUBSCRIPT_BIAS - 2); b]
  else if mt <? 100 then b ← cvt neg mt; Ok [exp_byte neg (SUBSCRIPT_BIAS - 1); b]
  else if mt <? 1000 then odd_integer neg SUBSCRIPT_BIAS mt
  else if mt <? 10000 then even_integer neg (SUBSCRIPT_BIAS + 1) mt
  else if mt <? 100000 then odd_integer neg (SUBSCRIPT_BIAS + 2) mt
  else if mt <? 1000000 then even_integer neg (SUBSCRIPT_BIAS + 3) mt
  else if mt <? 10000000 then odd_integer neg (SUBSCRIPT_BIAS + 4) mt
  else if mt <? 100000000 then even_integer neg (SUBSCRIPT_BIAS + 5) mt
  else odd_integer neg (SUBSCRIPT_BIAS + 6) mt.

Lemma int_branch_spec neg n mt :
  1 <= n <= 9 -> 10 ^ (n - 1) <= mt < 10 ^ n ->
  int_branch neg mt = Ok (flip neg (59 + n + 128) :: map (pair_code neg) (spairs 9 (mt * 10 ^ (18 - n)))).
Proof.
  intros Hn Hm. unfold int_branch, SUBSCRIPT_BIAS.
  assert (n = 1 \/ n = 2 \/ n = 3 \/ n = 4 \/ n = 5 \/ n = 6 \/ n = 7 \/ n = 8 \/ n = 9) as Hc by lia.
  assert (Ho : forall k, n = 2 * Z.of_nat k + 1 -> (k < 9)%nat -> spairs 9 (mt * 10 ^ (18 - n)) = spairs (S k) (mt * 10)).
  { intros k -> Hk. replace 9%nat with (S k + (8 - k))%nat by lia.
    replace (mt * 10 ^ (18 - (2 * Z.of_nat k + 1))) with (mt * 10 * 100 ^ Z.of_nat (8 - k)).
    - apply (sdigs_zeros 100 H100). split; [lia|]. change 100 with (10 ^ 2). rewrite <- Z.pow_mul_r by lia.
      replace (2 * Z.of_nat (S k)) with (2 * Z.of_nat k + 1 + 1) by lia.
      rewrite (Z.pow_add_r 10 _ 1) by lia. lia.
    - change 100 with (10 ^ 2). rewrite <- Z.pow_mul_r by lia.
      replace (18 - (2 * Z.of_nat k + 1)) with (1 + 2 * Z.of_nat (8 - k)) by lia.
      rewrite (Z.pow_add_r 10 1) by lia. lia. }
  assert (He : forall k, n = 2 * Z.of_nat k -> (k <= 9)%nat -> spairs 9 (mt * 10 ^ (18 - n)) = spairs k mt).
  { intros k -> Hk. replace 9%nat with (k + (9 - k))%nat by lia.
    replace (18 - 2 * Z.of_nat k) with (2 * Z.of_nat (9 - k)) by lia.
    rewrite Z.pow_mul_r by lia. apply (sdigs_zeros 100 H100). rewrite Z.pow_mul_r in Hm by lia.
    change (10 ^ 2) with 100 in *. destruct k; lia. }
  repeat destruct Hc as [-> | Hc]; try subst n; simpl in Hm;
    repeat match goal with |- context [mt <? ?k] =>
      first [replace (mt <? k) with true by (symmetry; apply Z.ltb_lt; lia)
            |replace (mt <? k) with false by (symmetry; apply Z.ltb_ge; lia)] end.
  - rewrite cvt_spec by lia. rewrite res_bind_ok, exp_byte_spec by lia.
    rewrite (Ho O), (sdigs_1 100) by lia. done.
  - rewrite cvt_spec by lia. rewrite res_bind_ok, exp_byte_spec by lia.
    rewrite (He 1%nat), (sdigs_1 100) by lia. done.
  - rewrite (Ho 1%nat) by lia. apply odd_integer_spec; simpl; lia.
  - rewrite (He 2%nat) by lia. apply even_integer_spec; simpl; lia.
  - rewrite (Ho 2%nat) by lia. apply odd_integer_spec; simpl; lia.
  - rewrite (He 3%nat) by lia. apply even_integer_spec; simpl; lia.
  - rewrite (Ho 3%nat) by lia. apply odd_integer_spec; simpl; lia.
  - rewrite (He 4%nat) by lia. apply even_integer_spec; simpl; lia.
  - rewrite (Ho 4%nat) by lia. apply odd_integer_spec; simpl; lia.
Qed.

Lemma int_subsc_spec m1 :
  - MANT_HI < m1 < MANT_HI -> m1 <> 0 ->
  exists E M, norm (m1 * 10 ^ 57) (m1 <? 0) E M /\
    int_subsc m1 = Ok (flip (m1 <? 0) (E + 128) :: map (pair_code (m1 <? 0)) (spairs 9 M), Some (m1 <? 0)).
Proof.
  intros Hm Hnz. destruct (int_digits_ex (Z.abs m1)) as (n & Hn & Hr); [lia|].
  exists (59 + n), (Z.abs m1 * 10 ^ (18 - n)).
  replace m1 with (if m1 <? 0 then - Z.abs m1 else Z.abs m1) at 1 by (zcase; lia).
  split; [by apply int_digits|]. unfold int_subsc. zif_false.
  assert ((if m1 <? 0 then int4 (- m1) else Ok m1) = Ok (Z.abs m1)) as ->.
  { zcase; [rewrite int4_ok by (num_consts; lia)|]; f_equal; lia. }
  rewrite res_bind_ok. fold (int_branch (m1 <? 0) (Z.abs m1)).
  by rewrite (int_branch_spec _ n) by done.
Qed.

(** The nine-digit window of last_longword and four_pairs. *)
Lemma window_step n r :
  (n <= 3)%nat -> 0 <= r < 100 ^ Z.of_nat (S n) ->
  let mt := 10 * 100 ^ Z.of_nat (4 - S n) * r in
  Z.quot mt (MANT_HI / 100) = r / 100 ^ Z.of_nat n /\
  (mt - Z.quot mt (MANT_HI / 100) * (MANT_HI / 100)) * 100 =
    10 * 100 ^ Z.of_nat (4 - n) * (r mod 100 ^ Z.of_nat n) /\
  0 <= 10 * 100 ^ Z.of_nat (4 - n) * (r mod 100 ^ Z.of_nat n) < MANT_HI /\
  0 <= r / 100 ^ Z.of_nat n < 100.
Proof.
  intros Hn Hr mt. change (MANT_HI / 100) with 10000000.
  pose proof ((bpow_pos 100 H100) (Z.of_nat n)). pose proof ((bpow_pos 100 H100) (Z.of_nat (4 - S n))).
  replace (4 - n)%nat with (S (4 - S n)) by lia. rewrite (bpow_S 100) in *.
  assert (HP : 10 * 100 ^ Z.of_nat (4 - S n) * 100 ^ Z.of_nat n = 10000000).
  { rewrite <- Z.mul_assoc, <- Z.pow_add_r by lia. replace (Z.of_nat (4 - S n) + Z.of_nat n) with 3 by lia. done. }
  pose proof (Z.div_mod r (100 ^ Z.of_nat n) ltac:(lia)) as D.
  pose proof (Z.mod_pos_bound r (100 ^ Z.of_nat n) ltac:(lia)) as B.
  set (N := 100 ^ Z.of_nat n) in *. set (W := 100 ^ Z.of_nat (4 - S n)) in *.
  set (d := r / N) in *. set (m := r mod N) in *.
  assert (Hd : 0 <= d < 100) by (unfold d; split; [apply Z.div_pos|apply Z.div_lt_upper_bound]; lia).
  assert (Hq : Z.quot mt 10000000 = d).
  { unfold mt. rewrite Z.quot_div_nonneg by nia. symmetry.
    apply Z.div_unique with (10 * W * m); [nia|]. rewrite D. nia. }
  rewrite Hq. unfold mt. split; [done|]. split; [rewrite D; nia|]. split; [|done].
  unfold MANT_HI. nia.
Qed.

Lemma last_longword_spec fuel neg n r :
  (n <= 4)%nat -> 0 <= r < 100 ^ Z.of_nat n -> (n < fuel)%nat ->
  last_longword fuel neg (10 * 100 ^ Z.of_nat (4 - n) * r) = Ok (map (pair_code neg) (spairs n r)).
Proof.
  revert n r. induction fuel as [|fuel IH]; intros n r Hn Hr Hf; [lia|].
  cbn [last_longword]. pose proof ((bpow_pos 100 H100) (Z.of_nat (4 - n))).
  destruct (Z.eqb_spec r 0) as [->|Hz].
  { rewrite Z.mul_0_r, (sdigs_0 100). done. }
  replace (10 * 100 ^ Z.of_nat (4 - n) * r =? 0) with false by (symmetry; apply Z.eqb_neq; nia).
  simpl negb. cbv iota. destruct n as [|n]; [simpl in Hr; lia|].
  destruct (window_step n r) as (E1 & E2 & E3 & E4); [lia|done|].
  cbv zeta in *. rewrite E1, cvt_spec by done. rewrite res_bind_ok. rewrite <- E1, E2.
  rewrite int4_ok by (num_consts; lia). rewrite res_bind_ok, E1.
  pose proof ((bpow_pos 100 H100) (Z.of_nat n)).
  rewrite IH by (lia || apply Z.mod_pos_bound; lia). rewrite res_bind_ok. cbn [sdigs].
  by zif_false.
Qed.

Lemma four_pairs_spec neg n r :
  (n <= 4)%nat -> 0 <= r < 100 ^ Z.of_nat n ->
  four_pairs n neg (10 * 100 ^ Z.of_nat (4 - n) * r) = Ok (map (pair_code neg) (dpairs n r)).
Proof.
  revert r. induction n as [|n IH]; intros r Hn Hr; [done|]. cbn [four_pairs].
  destruct (window_step n r) as (E1 & E2 & E3 & E4); [lia|done|].
  cbv zeta in *. rewrite E1, cvt_spec by done. rewrite res_bind_ok. rewrite <- E1, E2.
  rewrite int4_ok by (num_consts; lia). rewrite res_bind_ok, E1.
  pose proof ((bpow_pos 100 H100) (Z.of_nat n)).
  rewrite IH by (lia || apply Z.mod_pos_bound; lia). done.
Qed.

Lemma flt_subsc_spec sgn e m1 m0 :
  EXPLO <= e < EXPHI -> MANT_LO <= m1 < MANT_HI -> 0 <= m0 < MANT_HI ->
  let neg := negb (sgn =? 0) in
  flt_subsc sgn e m1 m0 =
  Ok (flip neg (e + 128) :: map (pair_code neg) (spairs 9 (m1 * MANT_HI + m0))).
Proof.
  intros He H1 H0 neg. unfold flt_subsc. fold neg. cbv zeta.
  replace (e - MV_XBIAS + SUBSCRIPT_BIAS) with (e + 128) by (unfold MV_XBIAS, SUBSCRIPT_BIAS; lia).
  rewrite exp_byte_spec by (num_consts; lia).
  change (MANT_HI / 100) with 10000000. change (MANT_HI / 10) with 100000000. num_consts.
  rewrite (Z.quot_div_nonneg m1), (Z.quot_div_nonneg m0) by lia.
  pose proof (Z.div_mod m1 10000000) as D1. pose proof (Z.mod_pos_bound m1 10000000) as B1.
  pose proof (Z.div_mod m0 100000000) as D0. pose proof (Z.mod_pos_bound m0 100000000) as B0.
  set (d := m1 / 10000000) in *. set (r := m1 mod 10000000) in *.
  set (t := m0 / 100000000) in *. set (w := m0 mod 100000000) in *.
  assert (Hd : 0 <= d < 100) by lia. assert (Ht : 0 <= t < 10) by lia.
  rewrite cvt_spec by done. rewrite res_bind_ok.
  replace (m1 - d * 10000000) with r by lia. replace (m0 - t * 100000000) with w by lia.
  rewrite (int4_ok (r * 100)) by lia. rewrite res_bind_ok.
  assert (Hsp : spairs 9 (m1 * 1000000000 + m0) = d :: spairs 8 (r * 1000000000 + m0)).
  { replace (m1 * 1000000000 + m0) with (d * 100 ^ Z.of_nat 8 + (r * 1000000000 + m0))
      by (change (100 ^ Z.of_nat 8) with 10000000000000000; lia).
    destruct (Z.eq_dec (r * 1000000000 + m0) 0) as [E|E].
    - rewrite E, Z.add_0_r, (sdigs_0 100). change 9%nat with (1 + 8)%nat. rewrite (sdigs_zeros 100 H100) by (simpl; lia).
      apply (sdigs_1 100). lia.
    - change 9%nat with (1 + 8)%nat. rewrite (sdigs_app 100 H100); [|simpl; lia|simpl; lia].
      cbn [digs app]. change (100 ^ Z.of_nat 0) with 1. by rewrite Z.div_1_r. }
  rewrite Hsp. cbn [map].
  destruct (Z.eqb_spec m0 0) as [E|E].
  - replace (r * 100) with (10 * 100 ^ Z.of_nat (4 - 4) * (r * 10)) by (simpl; lia).
    rewrite last_longword_spec by (simpl; lia). rewrite res_bind_ok. do 3 f_equal.
    rewrite E, Z.add_0_r. replace (r * 1000000000) with (r * 10 * 100 ^ Z.of_nat 4) by (simpl; lia).
    change 8%nat with (4 + 4)%nat. by rewrite (sdigs_zeros 100 H100) by (simpl; lia).
  - rewrite int4_ok by lia. rewrite res_bind_ok.
    replace (r * 100 + t * 10) with (10 * 100 ^ Z.of_nat (4 - 4) * (r * 10 + t)) by (simpl; lia).
    replace (r * 1000000000 + m0) with ((r * 10 + t) * 100 ^ Z.of_nat 4 + w) by (simpl; lia).
    destruct (Z.eqb_spec (w * 10) 0) as [Ew|Ew].
    + rewrite last_longword_spec by (simpl; lia). rewrite res_bind_ok. do 3 f_equal.
      replace w with 0 by lia. rewrite Z.add_0_r. change 8%nat with (4 + 4)%nat.
      by rewrite (sdigs_zeros 100 H100) by (simpl; lia).
    + rewrite (four_pairs_spec neg 4) by (simpl; lia). rewrite res_bind_ok.
      replace (w * 10) with (10 * 100 ^ Z.of_nat (4 - 4) * w) by (simpl; lia).
      rewrite last_longword_spec by (simpl; lia). rewrite res_bind_ok.
      change 8%nat with (4 + 4)%nat. rewrite (sdigs_app 100 H100) by (simpl; lia). by rewrite map_app.
Qed.

(** The bytes of a number depend on its value only. *)
Lemma num_subsc_spec v :
  num_ok v ->
  (num_value v = 0 /\ num_subsc v = Ok [SUBSCRIPT_ZERO]) \/
  (exists neg E M, norm (num_value v) neg E M /\ num_subsc v = Ok (code neg E M)).
Proof.
  intros [H|H]; unfold num_subsc; pose proof H as (_ & Hi & _); rewrite Hi.
  - rewrite num_value_int by done. destruct H as (_ & _ & _ & Hm).
    destruct (Z.eq_dec (mv_m1 v) 0) as [E|E]; [left|right].
    { rewrite E. done. }
    destruct (int_subsc_spec (mv_m1 v) Hm E) as (Ex & M & Hn & ->). exists (mv_m1 v <? 0), Ex, M.
    split; [done|]. cbn [mbind res_bind]. unfold code.
    destruct (mv_m1 v <? 0); [done|]. by rewrite app_nil_r.
  - right. rewrite num_value_flt by done. pose proof (flt_mant v H) as HM.
    destruct H as (_ & _ & _ & Hs & He & H1 & H0).
    exists (negb (mv_sgn v =? 0)), (mv_e v), (mant v). split.
    + split; [done|]. split; [done|]. unfold flt_value. by destruct (mv_sgn v =? 0).
    + rewrite flt_subsc_spec by done. cbn [mbind res_bind]. unfold code, mant.
      destruct (mv_sgn v =? 0); simpl negb; cbv iota; [by rewrite app_nil_r|done].
Qed.

(** * Lemmas: the order *)

Lemma flip_cmp neg x y : (flip neg x ?= flip neg y) = if neg then y ?= x else x ?= y.
Proof.
  unfold flip. destruct neg; [|done].
  destruct (Z.compare_spec y x), (Z.compare_spec (255 - x) (255 - y)); (lia || done).
Qed.

Lemma pcode_cmp x y : 0 <= x < 100 -> 0 <= y < 100 -> (pcode x ?= pcode y) = (x ?= y).
Proof.
  intros Hx Hy. unfold pcode. pose proof (Z.div_mod x 10). pose proof (Z.mod_pos_bound x 10).
  pose proof (Z.div_mod y 10). pose proof (Z.mod_pos_bound y 10).
  destruct (Z.compare_spec x y) as [->| |]; [apply Z.compare_refl| |].
  - apply Z.compare_lt_iff. nia.
  - apply Z.compare_gt_iff. nia.
Qed.

Lemma pcode_range x : 0 <= x < 100 -> 1 <= pcode x <= 154.
Proof.
  intros. unfold pcode. pose proof (Z.div_mod x 10). pose proof (Z.mod_pos_bound x 10). nia.
Qed.

Lemma div_mod_cmp a b n :
  0 < n -> (a ?= b) = thenc (a / n ?= b / n) (a mod n ?= b mod n).
Proof.
  intros Hn. pose proof (Z.div_mod a n ltac:(lia)). pose proof (Z.mod_pos_bound a n Hn).
  pose proof (Z.div_mod b n ltac:(lia)). pose proof (Z.mod_pos_bound b n Hn).
  destruct (Z.compare_spec (a / n) (b / n)) as [E| |]; simpl.
  - rewrite E in *. destruct (Z.compare_spec (a mod n) (b mod n));
      [apply Z.compare_eq_iff|apply Z.compare_lt_iff|apply Z.compare_gt_iff]; lia.
  - apply Z.compare_lt_iff. nia.
  - apply Z.compare_gt_iff. nia.
Qed.

Definition ncmp (neg : bool) (a b : Z) : comparison := if neg then b ?= a else a ?= b.

Lemma ncmp_thenc neg a b n :
  0 < n -> ncmp neg a b = thenc (ncmp neg (a / n) (b / n)) (ncmp neg (a mod n) (b mod n)).
Proof. intros. unfold ncmp. destruct neg; by apply div_mod_cmp. Qed.

(** The pairs of two mantissas, each closed by the byte below all the others. *)
Lemma spairs_order neg n a b r1 r2 :
  0 <= a < 100 ^ Z.of_nat n -> 0 <= b < 100 ^ Z.of_nat n ->
  lexcmp (map (pair_code neg) (spairs n a) ++ flip neg 0 :: r1)
         (map (pair_code neg) (spairs n b) ++ flip neg 0 :: r2) =
  thenc (ncmp neg a b) (lexcmp r1 r2).
Proof.
  revert a b. induction n as [|n IH]; intros a b Ha Hb.
  { simpl in Ha, Hb. replace a with 0 by lia. replace b with 0 by lia.
    cbn [sdigs map app]. rewrite lexcmp_same. unfold ncmp. by destruct neg. }
  cbn [sdigs]. pose proof ((bpow_pos 100 H100) (Z.of_nat n) ltac:(lia)) as P. rewrite (bpow_S 100) in *.
  assert (Hda : 0 <= a / 100 ^ Z.of_nat n < 100)
    by (split; [apply Z.div_pos|apply Z.div_lt_upper_bound]; lia).
  assert (Hdb : 0 <= b / 100 ^ Z.of_nat n < 100)
    by (split; [apply Z.div_pos|apply Z.div_lt_upper_bound]; lia).
  pose proof (pcode_range _ Hda). pose proof (pcode_range _ Hdb).
  destruct (Z.eqb_spec a 0) as [->|Hza], (Z.eqb_spec b 0) as [->|Hzb]; cbn [map app].
  - rewrite lexcmp_same. unfold ncmp. by destruct neg.
  - rewrite lexcmp_cons. unfold pair_code. rewrite flip_cmp. unfold ncmp.
    destruct neg.
    + rewrite (proj2 (Z.compare_gt_iff _ _)) by lia. by rewrite (proj2 (Z.compare_gt_iff _ _)) by lia.
    + rewrite (proj2 (Z.compare_lt_iff _ _)) by lia. by rewrite (proj2 (Z.compare_lt_iff _ _)) by lia.
  - rewrite lexcmp_cons. unfold pair_code. rewrite flip_cmp. unfold ncmp.
    destruct neg.
    + rewrite (proj2 (Z.compare_lt_iff _ _)) by lia. by rewrite (proj2 (Z.compare_lt_iff _ _)) by lia.
    + rewrite (proj2 (Z.compare_gt_iff _ _)) by lia. by rewrite (proj2 (Z.compare_gt_iff _ _)) by lia.
  - rewrite lexcmp_cons, IH by (apply Z.mod_pos_bound; lia).
    rewrite <- thenc_assoc. f_equal. unfold pair_code. rewrite flip_cmp.
    rewrite (ncmp_thenc neg a b _ P). f_equal. unfold ncmp.
    destruct neg; by apply pcode_cmp.
Qed.

Lemma code_app neg E M r :
  code neg E M ++ 0 :: r =
  flip neg (E + 128) :: map (pair_code neg) (spairs 9 M) ++ flip neg 0 :: (if neg then 0 :: r else r).
Proof. unfold code. rewrite <- app_comm_cons, <- app_assoc. by destruct neg. Qed.

Lemma norm_cmp x y neg E M E' M' :
  norm x neg E M -> norm y neg E' M' ->
  (x ?= y) = thenc (ncmp neg E E') (ncmp neg M M').
Proof.
  intros (HM & HE & ->) (HM' & HE' & ->).
  assert (Hc : (M * 10 ^ (E - EXPLO) ?= M' * 10 ^ (E' - EXPLO)) = thenc (E ?= E') (M ?= M')).
  { destruct (Z.compare_spec E E') as [->| |]; simpl.
    - pose proof (Z.pow_pos_nonneg 10 (E' - EXPLO) ltac:(lia) ltac:(lia)).
      symmetry. apply Zmult_compare_compat_r. lia.
    - apply Z.compare_lt_iff. apply mant_order; lia.
    - apply Z.compare_gt_iff. apply mant_order; lia. }
  unfold ncmp. destruct neg.
  - replace (-1 * (M * 10 ^ (E - EXPLO))) with (- (M * 10 ^ (E - EXPLO))) by lia.
    replace (-1 * (M' * 10 ^ (E' - EXPLO))) with (- (M' * 10 ^ (E' - EXPLO))) by lia.
    rewrite Z.compare_opp, Z.compare_antisym, Hc.
    rewrite (Z.compare_antisym E), (Z.compare_antisym M). by destruct (E ?= E'), (M ?= M').
  - by rewrite !Z.mul_1_l.
Qed.

(** Two numbers, whatever follows their delimiters. *)
Lemma num_order x y l1 l2 r1 r2 :
  (x = 0 /\ l1 = [SUBSCRIPT_ZERO] \/ exists neg E M, norm x neg E M /\ l1 = code neg E M) ->
  (y = 0 /\ l2 = [SUBSCRIPT_ZERO] \/ exists neg E M, norm y neg E M /\ l2 = code neg E M) ->
  lexcmp (l1 ++ 0 :: r1) (l2 ++ 0 :: r2) = thenc (x ?= y) (lexcmp r1 r2).
Proof.
  assert (Hp : forall z E M, norm z false E M -> 0 < z /\ 148 <= flip false (E + 128) <= 237)
    by (intros z E M H; split; [by apply (norm_pos z E M)|]; destruct H as (_ & HE & _);
        unfold flip; num_consts; lia).
  assert (Hn : forall z E M, norm z true E M -> z < 0 /\ 18 <= flip true (E + 128) <= 107)
    by (intros z E M H; split; [by apply (norm_neg z E M)|]; destruct H as (_ & HE & _);
        unfold flip; num_consts; lia).
  unfold SUBSCRIPT_ZERO.
  intros [[-> ->]|([] & E & M & Hx & ->)] [[-> ->]|([] & E' & M' & Hy & ->)];
    rewrite ?code_app; cbn [app]; rewrite ?lexcmp_same; rewrite ?lexcmp_cons.
  - done.
  - destruct (Hn _ _ _ Hy). rewrite !(proj2 (Z.compare_gt_iff _ _)) by lia. done.
  - destruct (Hp _ _ _ Hy). rewrite !(proj2 (Z.compare_lt_iff _ _)) by lia. done.
  - destruct (Hn _ _ _ Hx). rewrite !(proj2 (Z.compare_lt_iff _ _)) by lia. done.
  - rewrite flip_cmp, (norm_cmp x y true E M E' M') by done. unfold ncmp at 1.
    destruct Hx as (HM & _), Hy as (HM' & _).
    rewrite spairs_order by (change (100 ^ Z.of_nat 9) with (10 ^ 18); lia).
    rewrite lexcmp_same, thenc_assoc. f_equal.
    destruct (Z.compare_spec E' E), (Z.compare_spec (E' + 128) (E + 128)); (lia || done).
  - destruct (Hn _ _ _ Hx), (Hp _ _ _ Hy). rewrite !(proj2 (Z.compare_lt_iff _ _)) by lia. done.
  - destruct (Hp _ _ _ Hx). rewrite !(proj2 (Z.compare_gt_iff _ _)) by lia. done.
  - destruct (Hp _ _ _ Hx), (Hn _ _ _ Hy). rewrite !(proj2 (Z.compare_gt_iff _ _)) by lia. done.
  - rewrite flip_cmp, (norm_cmp x y false E M E' M') by done. unfold ncmp at 1.
    destruct Hx as (HM & _), Hy as (HM' & _).
    rewrite spairs_order by (change (100 ^ Z.of_nat 9) with (10 ^ 18); lia).
    rewrite thenc_assoc. f_equal.
    destruct (Z.compare_spec E E'), (Z.compare_spec (E + 128) (E' + 128)); (lia || done).
Qed.

(** * Lemmas: strings *)

(** The bytes of a string without the room check. *)
Fixpoint esc (s : list Z) : list Z :=
  match s with
  | [] => []
  | ch :: s' => if ch <=? 1 then STR_SUB_ESCAPE :: ch + 1 :: esc s' else ch :: esc s'
  end.

(** The escapes of a string. *)
Fixpoint escapes (s : list Z) : Z :=
  match s with
  | [] => 0
  | ch :: s' => (if ch <=? 1 then 1 else 0) + escapes s'
  end.

Lemma escapes_nonneg s : 0 <= escapes s.
Proof. induction s as [|ch s IH]; cbn [escapes]; [lia|]. destruct (ch <=? 1); lia. Qed.

Lemma esc_zlen s : zlen (esc s) = zlen s + escapes s.
Proof.
  induction s as [|ch s IH]; [done|]. cbn [esc escapes]. destruct (ch <=? 1); rewrite !zlen_cons; lia.
Qed.

(** Strings keep their order under the escape, the end being below all bytes. *)
Lemma esc_order s t r1 r2 :
  bytes_ok s -> bytes_ok t ->
  lexcmp (esc s ++ 0 :: r1) (esc t ++ 0 :: r2) = thenc (lexcmp s t) (lexcmp r1 r2).
Proof.
  intros Hs. revert t. induction Hs as [|x s Hx Hs IH]; intros t Ht.
  - destruct Ht as [|y t Hy Ht]; [done|]. cbn [esc]. unfold byte_ok in Hy.
    destruct (Z.leb_spec y 1); cbn [app]; rewrite lexcmp_cons;
      rewrite (proj2 (Z.compare_lt_iff _ _)) by (unfold STR_SUB_ESCAPE; lia); done.
  - destruct Ht as [|y t Hy Ht].
    + cbn [esc]. unfold byte_ok in Hx.
      destruct (Z.leb_spec x 1); cbn [app]; rewrite lexcmp_cons;
        rewrite (proj2 (Z.compare_gt_iff _ _)) by (unfold STR_SUB_ESCAPE; lia); done.
    + cbn [esc]. rewrite (lexcmp_cons x y), thenc_assoc, <- IH by done. unfold byte_ok, STR_SUB_ESCAPE in *.
      destruct (Z.leb_spec x 1), (Z.leb_spec y 1); cbn [app]; rewrite ?lexcmp_same, ?lexcmp_cons.
      * f_equal. destruct (Z.compare_spec x y), (Z.compare_spec (x + 1) (y + 1)); (lia || done).
      * by rewrite !(proj2 (Z.compare_lt_iff _ _)) by lia.
      * by rewrite !(proj2 (Z.compare_gt_iff _ _)) by lia.
      * done.
Qed.

(** The bytes of a string subscript. *)
Definition str_code (std_null_coll : bool) (s : list Z) : list Z :=
  match s with
  | [] => [if std_null_coll then SUBSCRIPT_STDCOL_NULL else STR_SUB_PREFIX]
  | _ => STR_SUB_PREFIX :: esc s
  end.

(** The bytes that a subscript is to have: those of its number, or of its string. *)
Definition subsc_code (std_null_coll : bool) (w : mval) : res (list Z) :=
  if has MV_NUM_APPROX w then Ok (str_code std_null_coll (mv_str w)) else num_subsc w.

Lemma no_collation_type g cl v w t : no_collation cl -> subsc_type g cl v = Ok (w, t) -> t = mvtype w.
Proof.
  intros Hc. assert (transform cl && nct cl = false) as E by (destruct Hc as [->|[-> _]]; [done|by rewrite andb_false_r]).
  unfold subsc_type. rewrite E, res_bind_ok. cbv zeta. destruct (negb _); [done|]. destruct (_ =? 0); [|by intros [= <- <-]].
  destruct (val_iscan g v) as [[c v']|]; [|done]. rewrite res_bind_ok.
  destruct c; [|by intros [= <- <-]].
  destruct (s2n (compile_time g) false v') as [[[u i] c]|]; [|done].
  rewrite res_bind_ok. by intros [= <- <-].
Qed.

Lemma no_collation_string cl (s : list Z) (f : list Z -> (list Z -> res (list Z)) -> res (list Z)) : no_collation cl ->
  match transform cl, collseq cl with true, Some xform => f s xform | _, _ => Ok s end = Ok s.
Proof. intros [->|[_ ->]]; [done|by destruct (transform cl)]. Qed.

Lemma num_head x l :
  (x = 0 /\ l = [SUBSCRIPT_ZERO] \/ exists neg E M, norm x neg E M /\ l = code neg E M) ->
  exists h t, l = h :: t /\ 1 < h < 255.
Proof.
  intros [[_ ->]|(neg & E & M & (_ & HE & _) & ->)]; do 2 eexists; (split; [done|]).
  - done.
  - unfold flip. num_consts. destruct neg; lia.
Qed.

Lemma num_str_order x l s std r1 r2 :
  (x = 0 /\ l = [SUBSCRIPT_ZERO] \/ exists neg E M, norm x neg E M /\ l = code neg E M) ->
  lexcmp (l ++ r1) (str_code std s ++ r2) = (if std && (zlen s =? 0) then Gt else Lt) /\
  lexcmp (str_code std s ++ r2) (l ++ r1) = (if std && (zlen s =? 0) then Lt else Gt).
Proof.
  intros H. destruct (num_head x l H) as (h & t & -> & Hh).
  assert (exists b t', str_code std s = b :: t' /\
    b = if std && (zlen s =? 0) then SUBSCRIPT_STDCOL_NULL else STR_SUB_PREFIX) as (b & t' & -> & ->).
  { destruct s as [|c s]; cbn [str_code]; do 2 eexists; (split; [done|]); [by destruct std|].
    replace (zlen (c :: s) =? 0) with false
      by (symmetry; apply Z.eqb_neq; rewrite zlen_cons; pose proof (zlen_nonneg s); lia).
    by rewrite andb_false_r. }
  cbn [app]. rewrite !lexcmp_cons. unfold SUBSCRIPT_STDCOL_NULL, STR_SUB_PREFIX.
  destruct (std && (zlen s =? 0)).
  - rewrite (proj2 (Z.compare_gt_iff h 1)), (proj2 (Z.compare_lt_iff 1 h)) by lia. done.
  - rewrite (proj2 (Z.compare_lt_iff h 255)), (proj2 (Z.compare_gt_iff 255 h)) by lia. done.
Qed.

Lemma str_order std s t r1 r2 :
  bytes_ok s -> bytes_ok t ->
  lexcmp (str_code std s ++ 0 :: r1) (str_code std t ++ 0 :: r2) = thenc (lexcmp s t) (lexcmp r1 r2).
Proof.
  intros Hs Ht.
  assert (Hhd : forall c s', bytes_ok (c :: s') -> exists h q, esc (c :: s') = h :: q /\ 1 <= h).
  { intros c s' Hc. apply Forall_inv in Hc. unfold byte_ok in Hc. cbn [esc].
    destruct (Z.leb_spec c 1); do 2 eexists; (split; [done|]); unfold STR_SUB_ESCAPE; lia. }
  destruct s as [|x s], t as [|y t]; unfold str_code.
  - cbn [app]. by rewrite !lexcmp_same.
  - destruct (Hhd y t Ht) as (h & q & -> & Hh). cbn [app]. destruct std.
    + rewrite lexcmp_cons. done.
    + rewrite lexcmp_same, lexcmp_cons, (proj2 (Z.compare_lt_iff _ _)) by lia. done.
  - destruct (Hhd x s Hs) as (h & q & -> & Hh). cbn [app]. destruct std.
    + rewrite lexcmp_cons. done.
    + rewrite lexcmp_same, lexcmp_cons, (proj2 (Z.compare_gt_iff _ _)) by lia. done.
  - rewrite <- !app_comm_cons, lexcmp_same. by apply esc_order.
Qed.

(** * Lemmas: room in the key *)

Lemma wr_list_spec m i l :
  0 <= i -> i + zlen l <= zlen m ->
  wr_list m i l = Some (take (Z.to_nat i) m ++ l ++ drop (Z.to_nat (i + zlen l)) m).
Proof.
  revert m i. induction l as [|b l IH]; intros m i Hi Hl; cbn [wr_list].
  { change (zlen []) with 0. rewrite Z.add_0_r. cbn [app]. by rewrite take_drop. }
  rewrite zlen_cons in *. pose proof (zlen_nonneg l). rewrite wr_in_range by lia. cbn [mbind option_bind].
  rewrite IH by (rewrite ?zlen_insert; lia). f_equal.
  replace (Z.to_nat (i + 1)) with (S (Z.to_nat i)) by lia.
  replace (i + 1 + zlen l) with (i + (1 + zlen l)) by lia.
  rewrite (take_S_r _ _ b) by (apply list_lookup_insert_eq; unfold zlen in *; lia).
  rewrite take_insert_ge by lia. rewrite drop_insert_lt by lia. by rewrite <- app_assoc.
Qed.

Lemma wr_list_range m i l m' : l <> [] -> wr_list m i l = Some m' -> 0 <= i /\ i + zlen l <= zlen m.
Proof.
  revert m i. induction l as [|b l IH]; intros m i Hn; [done|]. cbn [wr_list].
  destruct (wr m i b) as [m1|] eqn:E; [|done]. cbn [mbind option_bind]. apply wr_Some in E as [Hi ->].
  rewrite zlen_cons. intros Hw. destruct l as [|b' l]; [change (zlen []) with 0; lia|].
  apply IH in Hw; [|done]. rewrite zlen_insert in Hw. rewrite zlen_cons in *. lia.
Qed.

Lemma wr_list_app m i l1 l2 : wr_list m i (l1 ++ l2) = m' ← wr_list m i l1; wr_list m' (i + zlen l1) l2.
Proof.
  revert m i. induction l1 as [|b l IH]; intros m i; cbn [wr_list app].
  - change (zlen []) with 0. by rewrite Z.add_0_r.
  - destruct (wr m i b); [|done]. cbn [mbind option_bind]. rewrite IH, zlen_cons. by replace (i + 1 + zlen l) with (i + (1 + zlen l)) by lia.
Qed.

(** The loop that finds room writes the escaped bytes. *)
Lemma escape_ok base out s avail : escapes s <= avail ->
  escape base out s avail = (base ← res_of (wr_list base out (esc s)); Ok (base, out + zlen (esc s), true)).
Proof.
  revert base out avail. induction s as [|ch s IH]; intros base out avail Ha; cbn [escape esc escapes] in *.
  - cbn [wr_list res_of mbind res_bind]. change (zlen []) with 0. by rewrite Z.add_0_r.
  - pose proof (escapes_nonneg s). destruct (ch <=? 1); cbn [wr_list].
    + rewrite (proj2 (Z.ltb_ge _ _)) by lia. destruct (wr base out STR_SUB_ESCAPE) as [b1|]; [|done]. cbn [mbind res_bind option_bind res_of].
      destruct (wr b1 (out + 1) (ch + 1)) as [b2|]; [|done]. cbn [mbind res_bind option_bind res_of]. rewrite IH by lia. rewrite !zlen_cons.
      replace (out + 1 + 1) with (out + 2) by lia. by replace (out + 2 + zlen (esc s)) with (out + (1 + (1 + zlen (esc s)))) by lia.
    + destruct (wr base out ch) as [b1|]; [|done]. cbn [mbind res_bind option_bind res_of]. rewrite IH by lia. rewrite zlen_cons.
      by replace (out + 1 + zlen (esc s)) with (out + (1 + zlen (esc s))) by lia.
Qed.

(** The one that does not has written only to the room it was given. *)
Lemma escape_short base out s avail : 0 <= avail < escapes s -> 0 <= out -> out + zlen s + avail < zlen base ->
  exists base' out', escape base out s avail = Ok (base', out', false) /\ zlen base' = zlen base /\
    take (Z.to_nat out) base' = take (Z.to_nat out) base.
Proof.
  revert base out avail. induction s as [|ch s IH]; intros base out avail Ha Ho Hl; cbn [escape escapes] in *; [lia|]. rewrite zlen_cons in Hl. pose proof (zlen_nonneg s).
  assert (Hw : forall (m : list Z) i v, out <= i -> take (Z.to_nat out) (<[Z.to_nat i := v]> m) = take (Z.to_nat out) m) by (intros m i v Hi; rewrite take_insert_ge by lia; done).
  assert (Hgo : forall m o a, 0 <= a < escapes s -> out <= o -> o + zlen s + a < zlen m -> zlen m = zlen base -> take (Z.to_nat out) m = take (Z.to_nat out) base ->
    exists base' out', escape m o s a = Ok (base', out', false) /\ zlen base' = zlen base /\ take (Z.to_nat out) base' = take (Z.to_nat out) base).
  { intros m o a H1 H2 H3 H4 H5. destruct (IH m o a H1 ltac:(lia) H3) as (b & o' & E & Hz & Ht). exists b, o'. split; [done|]. split; [congruence|].
    rewrite <- H5. apply (f_equal (take (Z.to_nat out))) in Ht. rewrite !take_take in Ht. by rewrite Nat.min_l in Ht by lia. }
  destruct (ch <=? 1).
  - rewrite wr_in_range by lia. cbn [res_of mbind res_bind]. destruct (Z.ltb_spec (avail - 1) 0).
    + do 2 eexists. split; [done|]. rewrite zlen_insert. split; [done|]. by apply Hw.
    + rewrite wr_in_range by (rewrite zlen_insert; lia). cbn [res_of mbind res_bind]. apply Hgo; rewrite ?zlen_insert; try lia. by rewrite !Hw by lia.
  - rewrite wr_in_range by lia. cbn [res_of mbind res_bind]. apply Hgo; rewrite ?zlen_insert; try lia. by rewrite !Hw by lia.
Qed.

Lemma escape_true base out s avail base' out' : escape base out s avail = Ok (base', out', true) ->
  wr_list base out (esc s) = Some base' /\ out' = out + zlen (esc s).
Proof.
  revert base out avail. induction s as [|ch s IH]; intros base out avail; cbn [escape esc wr_list].
  { intros [= <- <-]. change (zlen []) with 0. split; [done|lia]. }
  destruct (ch <=? 1); cbn [wr_list].
  - destruct (wr base out STR_SUB_ESCAPE) as [b1|]; [|done]. cbn [mbind res_bind option_bind res_of]. destruct (_ <? 0); [done|].
    destruct (wr b1 (out + 1) (ch + 1)) as [b2|]; [|done]. cbn [mbind res_bind option_bind res_of]. intros [E ->]%IH. rewrite !zlen_cons.
    replace (out + 1 + 1) with (out + 2) by lia. split; [done|lia].
  - destruct (wr base out ch) as [b1|]; [|done]. cbn [mbind res_bind option_bind res_of]. intros [E ->]%IH. rewrite zlen_cons. split; [done|lia].
Qed.

Lemma num_subsc_len v :
  num_ok v -> exists l, num_subsc v = Ok l /\ zlen l <= MAX_NUM_SUBSC_LEN + 1.
Proof.
  intros H. unfold MAX_NUM_SUBSC_LEN.
  destruct (num_subsc_spec v H) as [[_ ->]|(neg & E & M & _ & ->)]; eexists; (split; [done|]).
  - done.
  - unfold code, zlen. pose proof (sdigs_length 100 9 M). cbn [length].
    assert ((length (if neg then [255%Z] else []) <= 1)%nat) by (destruct neg; simpl; lia).
    rewrite length_app, length_map. lia.
Qed.

(** ** Strings *)

Lemma str_code_zlen std s : zlen (str_code std s) = 1 + zlen s + escapes s.
Proof. unfold str_code. destruct s as [|ch s]; [done|]. rewrite zlen_cons, esc_zlen. lia. Qed.

Lemma zlen_cons_pos (ch : Z) s : 0 <? zlen (ch :: s) = true.
Proof. apply Z.ltb_lt. rewrite zlen_cons. pose proof (zlen_nonneg s). lia. Qed.

Lemma str_subsc_true cl s k std base out : no_collation cl -> str_subsc cl s k std = Ok (base, out, true) ->
  wr_list (k_base k) (k_end k) (str_code std s) = Some base /\ out = k_end k + zlen (str_code std s).
Proof.
  intros Hc. unfold str_subsc. rewrite (no_collation_string cl s (fun s f => if zlen s =? 0 then Ok [] else f s) Hc), res_bind_ok. cbv zeta. destruct (_ <? 0); [done|].
  destruct s as [|ch s].
  - cbn [zlen length Z.ltb]. change (0 <? zlen []) with false. cbv iota. destruct (wr _ _ _) as [b|] eqn:E; [|done]. cbn [res_of mbind res_bind]. intros [= <- <-].
    unfold str_code. cbn [wr_list]. destruct std; cbn [negb] in E; by rewrite E.
  - rewrite zlen_cons_pos. unfold str_code. cbn [wr_list]. destruct (wr (k_base k) (k_end k) STR_SUB_PREFIX) as [b|]; [|done]. cbn [res_of mbind res_bind option_bind].
    destruct (escape b _ _ _) as [[[b1 o1] []]|] eqn:E; [|rewrite res_bind_ok; by destruct (wr b1 (k_end k) KEY_DELIMITER)|done]. rewrite res_bind_ok. intros [= <- <-].
    apply escape_true in E as [-> ->]. rewrite zlen_cons. split; [done|lia].
Qed.

(** The string of a key with room enough. *)
Lemma str_subsc_fits cl s k std : no_collation cl -> 0 <= k_end k -> k_top k = zlen (k_base k) -> k_end k + zlen (str_code std s) + 2 <= k_top k ->
  str_subsc cl s k std = (base ← res_of (wr_list (k_base k) (k_end k) (str_code std s)); Ok (base, k_end k + zlen (str_code std s), true)).
Proof.
  intros Hc He Ht Hl. rewrite str_code_zlen in *. pose proof (escapes_nonneg s). unfold str_subsc. rewrite (no_collation_string cl s (fun s f => if zlen s =? 0 then Ok [] else f s) Hc), res_bind_ok. cbv zeta.
  rewrite (proj2 (Z.ltb_ge (k_top k - (k_end k + zlen s + 3)) 0)) by lia. destruct s as [|ch s].
  - change (0 <? zlen []) with false. cbv iota. unfold str_code. cbn [wr_list]. destruct std; cbn [negb]; by destruct (wr _ _ _).
  - rewrite zlen_cons_pos. unfold str_code. cbn [wr_list]. destruct (wr (k_base k) (k_end k) STR_SUB_PREFIX) as [b|]; [|done]. cbn [res_of mbind res_bind option_bind].
    rewrite escape_ok by lia. destruct (wr_list _ _ _); [|done]. cbn [res_of mbind res_bind]. rewrite esc_zlen.
    by replace (k_end k + 1 + (zlen (ch :: s) + escapes (ch :: s))) with (k_end k + (1 + zlen (ch :: s) + escapes (ch :: s))) by lia.
Qed.

(** A string that does not fit leaves a key that ends where it did. *)
Lemma str_subsc_short cl s k std : no_collation cl -> 0 <= k_end k -> k_top k = zlen (k_base k) -> 3 <= k_top k - k_end k ->
  k_top k < k_end k + zlen (str_code std s) + 2 -> rd (k_base k) (k_end k) = Some KEY_DELIMITER ->
  exists base out, str_subsc cl s k std = Ok (base, out, false) /\ zlen base = zlen (k_base k) /\
    take (Z.to_nat (k_end k)) base = take (Z.to_nat (k_end k)) (k_base k) /\ rd base (k_end k) = Some KEY_DELIMITER.
Proof.
  intros Hc He Ht Hr Hl Hd. rewrite str_code_zlen in *. unfold str_subsc. rewrite (no_collation_string cl s (fun s f => if zlen s =? 0 then Ok [] else f s) Hc), res_bind_ok. cbv zeta.
  destruct (Z.ltb_spec (k_top k - (k_end k + zlen s + 3)) 0); [by exists (k_base k), (k_end k)|].
  destruct s as [|ch s]; [cbn in *; lia|]. rewrite zlen_cons_pos. rewrite wr_in_range by lia. cbn [res_of mbind res_bind].
  destruct (escape_short (<[Z.to_nat (k_end k) := STR_SUB_PREFIX]> (k_base k)) (k_end k + 1) (ch :: s) (k_top k - (k_end k + zlen (ch :: s) + 3))) as (b & o & -> & Hz & Htk);
    rewrite ?zlen_insert; [lia..|]. rewrite res_bind_ok. rewrite zlen_insert in Hz. rewrite wr_in_range by lia. cbn [res_of mbind res_bind].
  do 2 eexists. split; [done|]. rewrite zlen_insert. split; [done|]. split; [|rewrite rd_insert by lia; by rewrite Z.eqb_refl].
  rewrite take_insert_ge by lia. apply (f_equal (take (Z.to_nat (k_end k)))) in Htk. rewrite !take_take in Htk. rewrite !Nat.min_l in Htk by lia.
  rewrite Htk. by rewrite take_insert_ge by lia.
Qed.

(** ** The key *)

(** The key with a subscript more. *)
Definition appended (k : gv_key) (l : list Z) : gv_key :=
  mk_gv_key (k_top k) (k_end k + zlen l + 1) (k_end k)
    (take (Z.to_nat (k_end k)) (k_base k) ++ (l ++ [KEY_DELIMITER; KEY_DELIMITER]) ++ drop (Z.to_nat (k_end k + (zlen l + 2))) (k_base k)).

Lemma zlen_ends (l : list Z) : zlen (l ++ [KEY_DELIMITER; KEY_DELIMITER]) = zlen l + 2.
Proof. by rewrite zlen_app. Qed.

Lemma appended_subsc k l : 0 <= k_end k -> k_end k <= zlen (k_base k) -> last_subsc (appended k l) = l.
Proof.
  intros He Hl. unfold last_subsc, appended. cbn [k_end k_prev k_base]. rewrite drop_app_length' by (rewrite length_take; unfold zlen in *; lia).
  rewrite <- app_assoc. apply take_app_length'. unfold zlen. lia.
Qed.

(** What a success has done, whatever the buffer. *)
Lemma mval2subsc_inv g cl v k std w k' : no_collation cl -> mval2subsc g cl v k std = Ok (w, k', true) ->
  exists l, subsc_code std w = Ok l /\ 0 <= k_end k /\ k_end k + zlen l + 2 <= zlen (k_base k) /\ k' = appended k l.
Proof.
  intros Hc. unfold mval2subsc. destruct (subsc_type g cl v) as [[w1 t]|] eqn:Et; [|done]. rewrite res_bind_ok. rewrite (no_collation_type _ _ _ _ _ Hc Et). clear Et t.
  fold (has MV_NUM_APPROX w1). match goal with |- context [mbind _ ?x] => set (body := x) end. destruct body as [[[base out] fits]|] eqn:Eb; [|done].
  rewrite res_bind_ok. destruct fits; [|done]. cbn [negb].
  destruct (wr base out KEY_DELIMITER) as [b1|] eqn:E1; [|done]. cbn [res_of mbind res_bind].
  destruct (wr b1 (out + 1) KEY_DELIMITER) as [b2|] eqn:E2; [|done]. cbn [res_of mbind res_bind k_top k_end]. intros [= <- <- _].
  assert (exists l, subsc_code std w1 = Ok l /\ wr_list (k_base k) (k_end k) l = Some base /\ out = k_end k + zlen l) as (l & Hl & Hw & ->).
  { unfold body in Eb. unfold subsc_code. destruct (has MV_NUM_APPROX w1).
    - exists (str_code std (mv_str w1)). split; [done|]. by apply str_subsc_true in Eb.
    - destruct (num_subsc w1) as [l|]; [|done]. exists l. split; [done|]. rewrite res_bind_ok in Eb. destruct (wr_list _ _ l); [|done]. by injection Eb as <- <-. }
  assert (Hall : wr_list (k_base k) (k_end k) (l ++ [KEY_DELIMITER; KEY_DELIMITER]) = Some b2).
  { rewrite wr_list_app, Hw. cbn [mbind option_bind wr_list]. rewrite E1. cbn [mbind option_bind]. by rewrite E2. }
  assert (Hne : l ++ [KEY_DELIMITER; KEY_DELIMITER] <> []) by (by destruct l). destruct (wr_list_range _ _ _ _ Hne Hall) as [He Hz]. rewrite wr_list_spec in Hall by done. rewrite zlen_ends in *.
  exists l. split; [done|]. split; [done|]. split; [lia|]. unfold appended. injection Hall as <-. done.
Qed.

(** What mval2subsc does to a key with room for any number, when the
    subscript is a number or a string. *)
Lemma mval2subsc_exact g cl v k std w t : no_collation cl -> subsc_type g cl v = Ok (w, t) -> sub_ok w ->
  0 <= k_end k -> k_top k = zlen (k_base k) -> MAX_GVKEY_PADDING_LEN + 1 <= k_top k - k_end k -> rd (k_base k) (k_end k) = Some KEY_DELIMITER ->
  exists l, subsc_code std w = Ok l /\
    ((k_end k + zlen l + 2 <= k_top k /\
      mval2subsc g cl v k std = Ok (w, appended k l, MAX_GVKEY_PADDING_LEN + 1 <=? k_top k - (k_end k + zlen l + 1))) \/
     (k_top k < k_end k + zlen l + 2 /\ exists base, mval2subsc g cl v k std = Ok (w, mk_gv_key (k_top k) (k_end k) (k_prev k) base, false) /\
        zlen base = zlen (k_base k) /\ take (Z.to_nat (k_end k)) base = take (Z.to_nat (k_end k)) (k_base k) /\ rd base (k_end k) = Some KEY_DELIMITER)).
Proof.
  intros Hc Et [_ Hw] He Ht Hr Hd. unfold mval2subsc. rewrite Et, res_bind_ok. rewrite (no_collation_type _ _ _ _ _ Hc Et). fold (has MV_NUM_APPROX w).
  unfold MAX_GVKEY_PADDING_LEN, MAX_NUM_SUBSC_LEN in *.
  assert (Hend : forall l, k_end k + zlen l + 2 <= k_top k ->
    ('(base, out_ptr, fits) ← (base ← res_of (wr_list (k_base k) (k_end k) l); Ok (base, k_end k + zlen l, true));
     if negb fits then Ok (w, mk_gv_key (k_top k) (k_end k) (k_prev k) base, false)
     else
       base ← res_of (wr base out_ptr KEY_DELIMITER);
       base ← res_of (wr base (out_ptr + 1) KEY_DELIMITER);
       let k := mk_gv_key (k_top k) (out_ptr + 1) (k_end k) base in
       Ok (w, k, negb (k_top k - k_end k <? 10 + 16 + 1))) = Ok (w, appended k l, 10 + 16 + 1 <=? k_top k - (k_end k + zlen l + 1))).
  { intros l Hl. pose proof (zlen_nonneg l). assert (E : wr_list (k_base k) (k_end k) (l ++ [KEY_DELIMITER; KEY_DELIMITER]) = Some (k_base (appended k l))).
    { rewrite wr_list_spec by (rewrite ?zlen_ends; lia). by rewrite zlen_ends. }
    rewrite wr_list_app in E. destruct (wr_list (k_base k) (k_end k) l) as [b|]; [|done]. cbn [mbind option_bind wr_list] in E. cbn [res_of mbind res_bind negb].
    destruct (wr b (k_end k + zlen l) KEY_DELIMITER) as [b1|]; [|done]. cbn [mbind option_bind] in E. cbn [res_of mbind res_bind].
    destruct (wr b1 (k_end k + zlen l + 1) KEY_DELIMITER) as [b2|]; [|done]. cbn [mbind option_bind] in E. injection E as ->. cbn [res_of mbind res_bind k_top k_end].
    by rewrite Z.ltb_antisym, negb_involutive. }
  unfold subsc_code. destruct (has MV_NUM_APPROX w) eqn:Ha; cbn [negb Z.eqb].
  - exists (str_code std (mv_str w)). split; [done|]. destruct (Z_lt_le_dec (k_top k) (k_end k + zlen (str_code std (mv_str w)) + 2)) as [Hs|Hf].
    + right. split; [done|]. destruct (str_subsc_short cl (mv_str w) k std Hc He Ht ltac:(lia) Hs Hd) as (b & o & -> & Hb). rewrite res_bind_ok. cbn [negb]. by exists b.
    + left. split; [done|]. rewrite str_subsc_fits by (done || lia). by apply Hend.
  - destruct Hw as [Hw|Hw]; [congruence|]. destruct (num_subsc_len w Hw) as (l & El & Hl). rewrite El. exists l. split; [done|]. left.
    unfold MAX_NUM_SUBSC_LEN in Hl. split; [lia|]. rewrite res_bind_ok. apply Hend. lia.
Qed.

(** * Subscripts that were stored *)

(** The bytes [l] are a subscript that mval2subsc appended to some key, whose
    value is [w]. *)
Definition subsc_stored (cl : collation) (std_null_coll : bool) (w : mval) (l : list Z) : Prop :=
  exists g v k k', mval2subsc g cl v k std_null_coll = Ok (w, k', true) /\ l = last_subsc k'.

Lemma subsc_stored_code cl std w l : no_collation cl -> subsc_stored cl std w l -> subsc_code std w = Ok l.
Proof.
  intros Hc (g & v & k & k' & E & ->). apply mval2subsc_inv in E as (l & El & He & Hl & ->); [|done].
  pose proof (zlen_nonneg l). by rewrite appended_subsc by lia.
Qed.

Lemma subsc_stored_inv cl std w l : no_collation cl -> subsc_stored cl std w l ->
  (has MV_NUM_APPROX w = true /\ l = str_code std (mv_str w)) \/ (has MV_NUM_APPROX w = false /\ num_subsc w = Ok l).
Proof. intros Hc H%subsc_stored_code; [|done]. unfold subsc_code in H. destruct (has MV_NUM_APPROX w); [left|right]; [|done]. by injection H as <-. Qed.

(** * The properties of the component *)

Lemma subsc_order_at cl std w1 w2 l1 l2 r1 r2 :
  no_collation cl -> subsc_stored cl std w1 l1 -> subsc_stored cl std w2 l2 -> sub_ok w1 -> sub_ok w2 ->
  lexcmp (l1 ++ KEY_DELIMITER :: r1) (l2 ++ KEY_DELIMITER :: r2) =
  match sub_cmp std (meaning w1) (meaning w2) with Eq => lexcmp r1 r2 | Lt => Lt | Gt => Gt end.
Proof.
  intros Ht E1 E2 [B1 N1] [B2 N2]. unfold KEY_DELIMITER.
  transitivity (thenc (sub_cmp std (meaning w1) (meaning w2)) (lexcmp r1 r2));
    [|by destruct (sub_cmp std (meaning w1) (meaning w2))].
  assert (Hn : forall w l, has MV_NUM_APPROX w = false -> has MV_NUM_APPROX w = true \/ num_ok w ->
    num_subsc w = Ok l -> num_value w = 0 /\ l = [SUBSCRIPT_ZERO] \/
      exists neg E M, norm (num_value w) neg E M /\ l = code neg E M).
  { intros w l Ha [Hc|Hc] Hl; [congruence|].
    destruct (num_subsc_spec w Hc) as [[H0 Hs]|(neg & E & M & Hv & Hs)].
    - left. split; [done|congruence].
    - right. exists neg, E, M. split; [done|congruence]. }
  destruct (subsc_stored_inv _ _ _ _ Ht E1) as [[A1 ->]|[A1 L1]];
    destruct (subsc_stored_inv _ _ _ _ Ht E2) as [[A2 ->]|[A2 L2]];
    unfold meaning; rewrite A1, A2; cbn [sub_cmp].
  - by apply str_order.
  - destruct (num_str_order _ _ (mv_str w1) std (0 :: r2) (0 :: r1) (Hn _ _ A2 N2 L2)) as [_ ->].
    by destruct (std && _).
  - destruct (num_str_order _ _ (mv_str w2) std (0 :: r1) (0 :: r2) (Hn _ _ A1 N1 L1)) as [-> _].
    by destruct (std && _).
  - exact (num_order _ _ _ _ _ _ (Hn _ _ A1 N1 L1) (Hn _ _ A2 N2 L2)).
Qed.

(** C3: the order of keys is the collating order. Take two subscripts that
    mval2subsc has appended to two keys, without collation (as a running program
    has it: TREF(transform) set, no collation sequence, the numeric flag off; or
    TREF(transform) not set): the comparison of their bytes with delimiters,
    whatever bytes of further subscripts follow, is decided by the subscripts
    (numbers by value, before strings; strings by bytes; the null string first
    among strings, or before the numbers under standard null collation) and,
    when the subscripts are equal, by what follows. The subscripts are numbers
    in a normal form or strings of bytes ([sub_ok]). *)
Theorem subsc_order g1 g2 cl v1 v2 k1 k2 std w1 w2 k1' k2' r1 r2 :
  no_collation cl ->
  mval2subsc g1 cl v1 k1 std = Ok (w1, k1', true) ->
  mval2subsc g2 cl v2 k2 std = Ok (w2, k2', true) ->
  sub_ok w1 -> sub_ok w2 ->
  lexcmp (last_subsc k1' ++ KEY_DELIMITER :: r1) (last_subsc k2' ++ KEY_DELIMITER :: r2) =
  match sub_cmp std (meaning w1) (meaning w2) with Eq => lexcmp r1 r2 | Lt => Lt | Gt => Gt end.
Proof.
  intros Hc E1 E2. apply (subsc_order_at cl); [done|by exists g1, v1, k1, k1'|by exists g2, v2, k2, k2'].
Qed.

(** No collation, as a running program has it, and a key that ends after a name. *)
Definition ex_cl : collation := mk_collation true false None.
Definition ex_key : gv_key := mk_gv_key 64 3 0 (97 :: replicate 63 0).

Lemma ex_cl_plain : no_collation ex_cl.
Proof. exact (or_intror (conj eq_refl eq_refl)). Defined.

(** The subscripts -1.5 (an integer form) and abc. *)
Lemma subsc_order_witness :
  lexcmp ([64; 233; 255] ++ KEY_DELIMITER :: [0]) ([255; 97; 98; 99] ++ KEY_DELIMITER :: [0]) = Lt.
Proof.
  exact (subsc_order (mk_globals false false) (mk_globals false false) ex_cl
    (mk_mval 3 0 0 0 (-1500) []) (mk_mval 12 0 0 0 0 [97; 98; 99]) ex_key ex_key false
    (mk_mval 3 0 0 0 (-1500) []) (mk_mval 12 0 0 0 0 [97; 98; 99])
    (appended ex_key [64; 233; 255]) (appended ex_key [255; 97; 98; 99]) [0] [0]
    (or_intror (conj eq_refl eq_refl)) eq_refl eq_refl
    ltac:(split; [by_compute | right; by_compute]) ltac:(split; [by_compute | left; reflexivity])).
Defined.

(** C26: mval2subsc, on a subscript whose conversion gives a number in a normal
    form or a string of bytes, without collation, and on a key that ends with a
    delimiter with the room that the code asserts: no byte is ever written
    outside the key buffer, also when the error GVSUBOFLOW is on its way; the
    error comes exactly when the bytes of the subscript would leave less than
    the padding; the bytes before the old end are untouched in both cases;
    without the error the key is the old one with the bytes and two delimiters
    at its end, [prev] at the old end, [end] at the second delimiter and every
    further byte as it was; with the error the key still ends at a delimiter. *)
Theorem mval2subsc_safe g cl v k std w t :
  no_collation cl -> subsc_type g cl v = Ok (w, t) -> sub_ok w ->
  0 <= k_end k -> k_top k = zlen (k_base k) -> MAX_GVKEY_PADDING_LEN + 1 <= k_top k - k_end k -> rd (k_base k) (k_end k) = Some KEY_DELIMITER ->
  exists l k', subsc_code std w = Ok l /\
    mval2subsc g cl v k std = Ok (w, k', MAX_GVKEY_PADDING_LEN + 1 <=? k_top k - (k_end k + zlen l + 1)) /\
    (MAX_GVKEY_PADDING_LEN + 1 <= k_top k - (k_end k + zlen l + 1) ->
       k' = mk_gv_key (k_top k) (k_end k + zlen l + 1) (k_end k)
              (take (Z.to_nat (k_end k)) (k_base k) ++ (l ++ [KEY_DELIMITER; KEY_DELIMITER]) ++ drop (Z.to_nat (k_end k + (zlen l + 2))) (k_base k))) /\
    k_top k' = k_top k /\ zlen (k_base k') = zlen (k_base k) /\ k_end k <= k_end k' /\
    take (Z.to_nat (k_end k)) (k_base k') = take (Z.to_nat (k_end k)) (k_base k) /\ rd (k_base k') (k_end k') = Some KEY_DELIMITER.
Proof.
  intros Hc Et Hw He Ht Hr Hd. destruct (mval2subsc_exact g cl v k std w t Hc Et Hw He Ht Hr Hd) as (l & El & [[Hf E]|(Hs & b & E & Hz & Htk & Hrd)]); exists l; rewrite E.
  - eexists. split; [done|]. split; [done|]. split; [done|]. pose proof (zlen_nonneg l).
    assert (Htl : length (take (Z.to_nat (k_end k)) (k_base k)) = Z.to_nat (k_end k)) by (rewrite length_take; unfold zlen in *; lia).
    cbn [appended k_top k_base k_end]. split; [done|]. split; [|split; [lia|split]].
    + rewrite !zlen_app. change (zlen [KEY_DELIMITER; KEY_DELIMITER]) with 2. unfold zlen in *. rewrite Htl, length_drop. lia.
    + by rewrite take_app_length' by (by rewrite Htl).
    + rewrite rd_app_r; unfold zlen in *; rewrite ?Htl; [|lia]. replace (k_end k + Z.of_nat (length l) + 1 - Z.of_nat (Z.to_nat (k_end k))) with (zlen l + 1) by (unfold zlen; lia).
      rewrite <- app_assoc, rd_app_r by (unfold zlen; lia). by replace (zlen l + 1 - zlen l) with 1 by lia.
  - eexists. split; [done|]. unfold MAX_GVKEY_PADDING_LEN, MAX_NUM_SUBSC_LEN in *. rewrite (proj2 (Z.leb_gt _ _)) by lia. split; [done|].
    cbn [k_top k_base k_end]. split; [intros; lia|]. split; [done|]. split; [done|]. split; [lia|done].
Qed.

(** The subscripts 123.45 as a string, which is converted, and a string of bytes
    0 that needs too many escapes. *)
Definition ex_text : mval := mk_mval 4 0 0 0 0 [49; 50; 51; 46; 52; 53].
Definition ex_zeros : mval := mk_mval 12 0 0 0 0 (replicate 40 0).
Definition ex_shorter : gv_key := mk_gv_key 64 3 0 ([97; 98; 0; 0] ++ replicate 60 0).

Lemma mval2subsc_safe_witness :
  (exists k', mval2subsc (mk_globals false false) ex_cl ex_text ex_key false = Ok (mk_mval 7 0 0 0 123450 [49; 50; 51; 46; 52; 53], k', true)) /\
  (exists k', mval2subsc (mk_globals false false) ex_cl ex_zeros ex_shorter false = Ok (ex_zeros, k', false) /\ take 3 (k_base k') = [97; 98; 0] /\ rd (k_base k') (k_end k') = Some 0).
Proof.
  split.
  - destruct (mval2subsc_safe (mk_globals false false) ex_cl ex_text ex_key false (mk_mval 7 0 0 0 123450 [49; 50; 51; 46; 52; 53]) 7
      ltac:(exact (or_intror (conj eq_refl eq_refl))) ltac:(by vm_compute) ltac:(split; [by_compute | right; by_compute]) ltac:(done) ltac:(done)
      ltac:(vm_compute; discriminate) ltac:(done)) as (l & k' & El & E & _).
    exists k'. rewrite E. vm_compute in El. injection El as <-. done.
  - destruct (mval2subsc_safe (mk_globals false false) ex_cl ex_zeros ex_shorter false ex_zeros 12
      ltac:(exact (or_intror (conj eq_refl eq_refl))) ltac:(by vm_compute) ltac:(split; [by_compute | left; reflexivity]) ltac:(done) ltac:(done)
      ltac:(vm_compute; discriminate) ltac:(done)) as (l & k' & El & E & _ & _ & _ & _ & Ht & Hr).
    exists k'. rewrite E. vm_compute in El. injection El as <-. split; [done|]. split; [exact Ht|exact Hr].
Defined.
