(* ===== verification/Zwr.v ===== *)
(** ZWRITE format of strings in M (byte) mode: format2zwr.c, which writes a
    string as quoted text and $C() lists, and zwr2format.c, which reads it
    back.  Which bytes are control characters is the pattern table loaded at
    run time, a parameter [isctl].  Strings are read from the front; the text written to
    a buffer is the list of its bytes. *)

From stdpp Require Import base list numbers option tactics.
From Stdlib Require Import ZArith Lia.
From S2P Require Import Prelude.

Open Scope Z_scope.

(** * Constants (zshow.h, mdef.h, compiler.h) *)

Definition DOLLARCH : list Z := [36; 67; 40].
Definition CLOSE_PAREN_QUOTE : list Z := [41; 95; 34].
Definition CLOSE_PAREN_DOLLARCH : list Z := [41; 95; 36; 67; 40].
Definition COMMA : list Z := [44].
Definition QUOTE : Z := 34.
Definition MAX_ZWR_DCHAR_DIGITS : Z := 5.
Definition CHARMAXARGS : Z := 256.
Definition ZWR_EXP_RATIO (x : Z) : Z := x * 9 + 11.

Definition lower_to_upper_table (b : Z) : Z := if (97 <=? b) && (b <=? 122) then b - 32 else b.

(** I2A: the decimal digits of a number below 1000. *)
Definition I2A (num : Z) : list Z :=
  let n2 := Z.rem (Z.quot num 100) 10 in
  let n1 := Z.rem (Z.quot num 10) 10 in
  (if negb (n2 =? 0) then [n2 + 48] else []) ++
  (if negb (n1 =? 0) || negb (n2 =? 0) then [n1 + 48] else []) ++ [Z.rem num 10 + 48].

(** A2I: the number at the front, -1 when there is no digit. *)
Fixpoint A2I_loop (cp : list Z) (num : Z) : res (Z * list Z) :=
  match cp with
  | [] => Ok (num, [])
  | ch :: cp' =>
      if (0 <=? num) && ((48 <=? ch) && (ch <=? 57)) then
        n ← int4 (num * 10);
        A2I_loop cp' (i32 (n + (ch - 48)))
      else Ok (num, cp)
  end.

Definition A2I (cp : list Z) : res (Z * list Z) :=
  '(num, cp') ← A2I_loop cp 0;
  Ok (if (length cp =? length cp')%nat then -1 else num, cp').

Section Format2zwr.
Context (isctl : Z -> bool).

(** * format2zwr *)

(** The state of the loop: [fastate], [ncommas] and the text written. *)
Record fstate := mk_fstate { f_state : Z; f_ncommas : Z; f_des : list Z }.

(** One character; [None] when there is not enough space. *)
Definition format_char (max_len : Z) (st : fstate) (ch : Z) : option fstate :=
  let dstlen := zlen (f_des st) in
  if (f_state st =? 0) || (f_state st =? 1) then
    if isctl ch then
      if dstlen + zlen DOLLARCH + MAX_ZWR_DCHAR_DIGITS + (if negb (dstlen =? 0) then 2 else 0) <? max_len then
        let des := f_des st ++ (if 0 <? dstlen then [QUOTE; 95] else []) in
        Some (mk_fstate 2 0 (des ++ DOLLARCH ++ I2A ch))
      else None
    else if dstlen + 2 + 1 <? max_len then
      let des := f_des st ++ (if f_state st =? 0 then [QUOTE] else []) in
      Some (mk_fstate 1 (f_ncommas st) (des ++ (if ch =? QUOTE then [QUOTE] else []) ++ [ch]))
    else None
  else
    if isctl ch then
      let ncommas := f_ncommas st + 1 in
      if dstlen + zlen CLOSE_PAREN_DOLLARCH + MAX_ZWR_DCHAR_DIGITS <? max_len then
        if ncommas =? CHARMAXARGS then
          Some (mk_fstate 2 0 (f_des st ++ CLOSE_PAREN_DOLLARCH ++ I2A ch))
        else Some (mk_fstate 2 ncommas (f_des st ++ COMMA ++ I2A ch))
      else None
    else if dstlen + zlen CLOSE_PAREN_QUOTE + 1 + 1 <? max_len then
      Some (mk_fstate 1 (f_ncommas st)
              (f_des st ++ CLOSE_PAREN_QUOTE ++ [ch] ++ (if ch =? QUOTE then [QUOTE] else [])))
    else None.

(** The loop: the last state and [nospace]. *)
Fixpoint format_loop (max_len : Z) (st : fstate) (cp : list Z) : fstate * bool :=
  match cp with
  | [] => (st, false)
  | ch :: cp' =>
      if zlen (f_des st) <? max_len then
        match format_char max_len st ch with
        | Some st' => format_loop max_len st' cp'
        | None => (st, true)
        end
      else (st, false)
  end.

(** The text and [nospace], for a buffer of [max_len] bytes. *)
Definition format2zwr (src : list Z) (max_len : Z) : res (list Z * bool) :=
  '(des, max_len, nospace) ←
    (if 0 <? zlen src then
       let max_len := max_len - 1 in
       let '(st, nospace) := format_loop max_len (mk_fstate 0 0 []) src in
       Ok (f_des st ++ (if nospace then []
                        else if f_state st =? 1 then [QUOTE]
                        else if (f_state st =? 2) || (f_state st =? 3) then [41]
                        else []), max_len, nospace)
     else Ok ([QUOTE; QUOTE], max_len, false));
  if zlen des <? max_len then Ok (des, nospace) else Err GTMASSERT.

End Format2zwr.

(** * zwr2format *)

(** [*cp++]: reading past the end of the string is undefined. *)
Definition next (cp : list Z) : res (Z * list Z) :=
  match cp with [] => Err UB | ch :: cp' => Ok (ch, cp') end.

(** The state of the loop: [fastate], the bytes from [cpstart] to [cp], the
    result, and the bytes from [cp] to the end. *)
Record zstate := mk_zstate { z_state : Z; z_run : list Z; z_des : list Z; z_cp : list Z }.

(** The outcome of one turn: the next state, or FALSE with the result so far. *)
Definition zturn := (zstate + list Z)%type.

(** State 0: what kind of piece begins. *)
Definition zwr_begin (run des cp : list Z) : res zturn :=
  '(ch, cp) ← next cp;
  if ch =? 36 then
    '(c, cp) ← next cp;
    let chtmp := lower_to_upper_table c in
    '(bad, cp) ←
      (if negb (chtmp =? 67) then
         if negb (chtmp =? 90) then Ok (true, cp)
         else
           '(c, cp) ← next cp;
           if negb (lower_to_upper_table c =? 67) then Ok (true, cp)
           else
             '(c, cp) ← next cp;
             Ok (negb (lower_to_upper_table c =? 72), cp)
       else Ok (false, cp));
    if (bad : bool) then Ok (inr des)
    else
      '(c, cp) ← next cp;
      if negb (c =? 40) then Ok (inr des)
      else Ok (inl (mk_zstate (if chtmp =? 67 then 2 else 3) run des cp))
  else if ch =? QUOTE then Ok (inl (mk_zstate 1 [] des cp))
  else if (ch =? 45) || ((48 <=? ch) && (ch <=? 57)) then Ok (inl (mk_zstate 4 run (des ++ [ch]) cp))
  else if ch =? 46 then Ok (inl (mk_zstate 5 run (des ++ [ch]) cp))
  else Ok (inr des).

(** State 1: within quotes. *)
Definition zwr_quoted (run des cp : list Z) : res zturn :=
  '(ch, cp) ← next cp;
  if ch =? QUOTE then
    match cp with
    | c :: cp' =>
        if c =? QUOTE then Ok (inl (mk_zstate 1 [] (des ++ run ++ [ch]) cp'))
        else if c =? 95 then Ok (inl (mk_zstate 0 run (des ++ run) cp'))
        else Ok (inr des)
    | [] => Ok (inl (mk_zstate 1 (run ++ [ch]) (des ++ run) cp))
    end
  else Ok (inl (mk_zstate 1 (run ++ [ch]) des cp)).

(** The byte after a number of $C() or $ZCH(). *)
Definition zwr_after_num (state : Z) (run des cp : list Z) : res zturn :=
  '(ch, cp) ← next cp;
  if ch =? 44 then Ok (inl (mk_zstate state run des cp))
  else if ch =? 41 then
    match cp with
    | c :: cp' => if negb (c =? 95) then Ok (inr des) else Ok (inl (mk_zstate 0 run des cp'))
    | [] => Ok (inl (mk_zstate 0 run des cp))
    end
  else Ok (inr des).

(** States 2 and 3: within $C() or $ZCH(). *)
Definition zwr_number (state : Z) (run des cp : list Z) : res zturn :=
  '(num, cp) ← A2I cp;
  if (num <? 0) || (255 <? num) then Ok (inr des)
  else zwr_after_num state run (des ++ [num]) cp.

(** States 4 and 5: a numeric. *)
Definition zwr_numeric (state : Z) (run des cp : list Z) : res zturn :=
  '(ch, cp) ← next cp;
  if (48 <=? ch) && (ch <=? 57) then Ok (inl (mk_zstate state run (des ++ [ch]) cp))
  else if (state =? 4) && (ch =? 46) then Ok (inl (mk_zstate 5 run (des ++ [ch]) cp))
  else Ok (inr des).

Definition zwr_turn (st : zstate) : res zturn :=
  let run := z_run st in let des := z_des st in let cp := z_cp st in
  if z_state st =? 0 then zwr_begin run des cp
  else if z_state st =? 1 then zwr_quoted run des cp
  else if (z_state st =? 2) || (z_state st =? 3) then zwr_number (z_state st) run des cp
  else zwr_numeric (z_state st) run des cp.

(** The loop [for (cpstart = cp; cp < end;)], a byte at least per turn. *)
Fixpoint zwr_loop (fuel : nat) (st : zstate) : res (bool * list Z) :=
  match z_cp st with
  | [] => Ok (true, z_des st)
  | _ =>
      match fuel with
      | O => Err UB
      | S fuel' =>
          t ← zwr_turn st;
          match t with
          | inl st' => zwr_loop fuel' st'
          | inr des => Ok (false, des)
          end
      end
  end.

(** The answer and the string, for the ZWR text [src]. *)
Definition zwr2format (src : list Z) : res (bool * list Z) :=
  if 0 <? zlen src then zwr_loop (length src) (mk_zstate 0 [] [] src)
  else Ok (true, []).

(** * The text of a string, without the space checks *)

Section Text.
Context (isctl : Z -> bool).

Definition dup (ch : Z) : list Z := if ch =? QUOTE then [QUOTE] else [].

(** The rest of the text: within quotes ([q]), or after a number of a $C()
    list with [nc] commas. *)
Fixpoint text (q : bool) (nc : Z) (s : list Z) : list Z :=
  match s with
  | [] => if q then [QUOTE] else [41]
  | ch :: s' =>
      if q then
        if isctl ch then [QUOTE; 95] ++ DOLLARCH ++ I2A ch ++ text false 0 s'
        else dup ch ++ [ch] ++ text true nc s'
      else if isctl ch then
        if nc + 1 =? CHARMAXARGS then CLOSE_PAREN_DOLLARCH ++ I2A ch ++ text false 0 s'
        else COMMA ++ I2A ch ++ text false (nc + 1) s'
      else CLOSE_PAREN_QUOTE ++ [ch] ++ dup ch ++ text true nc s'
  end.

Definition zwr_text (s : list Z) : list Z :=
  match s with
  | [] => [QUOTE; QUOTE]
  | ch :: s' =>
      if isctl ch then DOLLARCH ++ I2A ch ++ text false 0 s'
      else [QUOTE] ++ dup ch ++ [ch] ++ text true 0 s'
  end.

(** * Lemmas: numbers *)

Lemma I2A_len ch : byte_ok ch -> 1 <= zlen (I2A ch) <= 3.
Proof.
  intros H.
  assert (E : (1 <=? zlen (I2A ch)) && (zlen (I2A ch) <=? 3) = true) by (byte_decide ch H).
  zbool. lia.
Qed.

(** A number followed by a byte that is no digit is read back. *)
Lemma A2I_I2A ch t :
  byte_ok ch -> match t with [] => True | c :: _ => (48 <=? c) && (c <=? 57) = false end ->
  A2I (I2A ch ++ t) = Ok (ch, t).
Proof.
  intros Hb Ht.
  assert (E : forallb (fun b => (48 <=? b) && (b <=? 57)) (I2A ch) = true) by (byte_decide ch Hb).
  assert (V : (fold_left (fun n d => n * 10 + (d - 48)) (I2A ch) 0 =? ch) = true) by (byte_decide ch Hb).
  apply Z.eqb_eq in V. rewrite forallb_forall in E. pose proof (I2A_len ch Hb) as L. unfold zlen in L.
  assert (Hstop : forall num, A2I_loop t num = Ok (num, t)).
  { destruct t as [|c t]; [done|]. intros num. cbn [A2I_loop]. by rewrite Ht, andb_false_r. }
  assert (Hloop : forall l num, (forall x, In x l -> (48 <=? x) && (x <=? 57) = true) ->
    0 <= num -> (num + 1) * 10 ^ Z.of_nat (length l) <= 1000 ->
    A2I_loop (l ++ t) num = Ok (fold_left (fun n d => n * 10 + (d - 48)) l num, t)).
  { induction l as [|d l IH]; intros num Hd Hn Hl; [apply Hstop|]. cbn [app A2I_loop fold_left].
    rewrite (Hd d (or_introl eq_refl)). replace (0 <=? num) with true by (symmetry; by apply Z.leb_le). cbn [andb].
    assert (D : 48 <= d <= 57) by (pose proof (Hd d (or_introl eq_refl)); zbool; lia).
    cbn [length] in Hl. rewrite Nat2Z.inj_succ, Z.pow_succ_r in Hl by lia.
    assert (0 < 10 ^ Z.of_nat (length l)) by (apply Z.pow_pos_nonneg; lia).
    rewrite int4_ok by nia. rewrite res_bind_ok.
    replace (i32 (num * 10 + (d - 48))) with (num * 10 + (d - 48))
      by (unfold i32; rewrite Z.mod_small; nia).
    apply IH; [|lia|nia]. intros x Hx. apply Hd. by right. }
  unfold A2I. rewrite Hloop; [|done|lia|].
  - cbn [mbind res_bind]. rewrite V, length_app.
    replace (length (I2A ch) + length t =? length t)%nat with false by (symmetry; apply Nat.eqb_neq; lia).
    done.
  - assert (10 ^ Z.of_nat (length (I2A ch)) <= 10 ^ 3) by (apply Z.pow_le_mono_r; lia). lia.
Qed.

(** * Lemmas: reading the text back *)

Definition turns_to (st : zstate) (out : list Z) : Prop :=
  forall fuel, (length (z_cp st) <= fuel)%nat -> zwr_loop fuel st = Ok (true, out).

Lemma zwr_loop_step st st' out :
  z_cp st <> [] -> zwr_turn st = Ok (inl st') -> (length (z_cp st') < length (z_cp st))%nat ->
  turns_to st' out -> turns_to st out.
Proof.
  intros Hne Ht Hl Ho fuel Hf. destruct (z_cp st) as [|c cp] eqn:E; [done|]. cbn [length] in *.
  destruct fuel as [|fuel]; [lia|]. cbn [zwr_loop]. rewrite E, Ht. rewrite res_bind_ok. apply Ho. lia.
Qed.

Lemma zwr_loop_end st out : z_cp st = [] -> z_des st = out -> turns_to st out.
Proof. intros E <- fuel _. destruct fuel; simpl; by rewrite E. Qed.

Lemma read_open run des t out :
  turns_to (mk_zstate 2 run des t) out -> turns_to (mk_zstate 0 run des (DOLLARCH ++ t)) out.
Proof. intros H. eapply zwr_loop_step; [done|reflexivity|simpl; lia|done]. Qed.

Lemma read_number run des ch t out st' :
  byte_ok ch -> match t with [] => True | c :: _ => (48 <=? c) && (c <=? 57) = false end ->
  zwr_after_num 2 run (des ++ [ch]) t = Ok (inl st') -> (length (z_cp st') <= length t)%nat ->
  turns_to st' out -> turns_to (mk_zstate 2 run des (I2A ch ++ t)) out.
Proof.
  intros Hb Ht Ha Hl Ho. pose proof (I2A_len ch Hb) as L. unfold zlen in L.
  assert (I2A ch ++ t <> []) by (destruct (I2A ch); [cbn in L; lia|done]).
  apply (zwr_loop_step _ st'); [done| |simpl; rewrite length_app; lia|exact Ho].
  unfold zwr_turn. cbn [z_state z_run z_des z_cp]. simpl Z.eqb. cbv iota. simpl orb. cbv iota.
  unfold zwr_number. rewrite A2I_I2A by done. cbn [mbind res_bind]. unfold byte_ok in Hb.
  by zif_false.
Qed.

Lemma read_text s :
  bytes_ok s ->
  (forall nc run des, turns_to (mk_zstate 1 run des (text true nc s)) (des ++ run ++ s)) /\
  (forall nc run des ch, byte_ok ch ->
     turns_to (mk_zstate 2 run des (I2A ch ++ text false nc s)) (des ++ ch :: s)).
Proof.
  intros Hs. induction Hs as [|c s Hc Hs [IH1 IH2]].
  - split.
    + intros nc run des. cbn [text]. eapply zwr_loop_step; [done|reflexivity|simpl; lia|].
      apply zwr_loop_end; [done|]. simpl. by rewrite app_nil_r.
    + intros nc run des ch Hch. cbn [text]. eapply read_number; [done|done|reflexivity|simpl; lia|].
      by apply zwr_loop_end.
  - split.
    + intros nc run des. cbn [text]. destruct (isctl c).
      * eapply zwr_loop_step; [done|reflexivity|simpl; lia|].
        apply read_open. replace (des ++ run ++ c :: s) with ((des ++ run) ++ c :: s) by (by rewrite app_assoc).
        by apply IH2.
      * unfold dup. destruct (Z.eqb_spec c QUOTE) as [->|Hq].
        -- eapply zwr_loop_step; [done|reflexivity|simpl; lia|].
           replace (des ++ run ++ QUOTE :: s) with ((des ++ run ++ [QUOTE]) ++ [] ++ s)
             by (by rewrite <- !app_assoc). apply IH1.
        -- eapply zwr_loop_step; [done| | |].
           { unfold zwr_turn, zwr_quoted. cbn [app next mbind res_bind z_state z_run z_des z_cp].
             simpl Z.eqb. cbv iota. replace (c =? QUOTE) with false by (symmetry; by apply Z.eqb_neq).
             reflexivity. }
           { simpl; lia. }
           replace (des ++ run ++ c :: s) with (des ++ (run ++ [c]) ++ s) by (by rewrite <- app_assoc).
           apply IH1.
    + intros nc run des ch Hch. cbn [text].
      replace (des ++ ch :: c :: s) with ((des ++ [ch]) ++ c :: s) by (by rewrite <- app_assoc).
      destruct (isctl c).
      * destruct (nc + 1 =? CHARMAXARGS).
        -- eapply read_number; [done|done|reflexivity|simpl; lia|].
           apply (read_open run (des ++ [ch]) (I2A c ++ text false 0 s)). by apply IH2.
        -- eapply read_number; [done|done|reflexivity|simpl; lia|]. by apply IH2.
      * eapply read_number; [done|done|reflexivity|simpl; lia|].
        eapply zwr_loop_step; [done|reflexivity|simpl; lia|]. unfold dup.
        destruct (Z.eqb_spec c QUOTE) as [->|Hq].
        -- eapply zwr_loop_step; [done|reflexivity|simpl; lia|].
           replace ((des ++ [ch]) ++ QUOTE :: s) with (((des ++ [ch]) ++ [] ++ [QUOTE]) ++ [] ++ s)
             by (by rewrite <- !app_assoc). apply IH1.
        -- eapply zwr_loop_step; [done| | |].
           { unfold zwr_turn, zwr_quoted. cbn [app next mbind res_bind z_state z_run z_des z_cp].
             simpl Z.eqb. cbv iota. replace (c =? QUOTE) with false by (symmetry; by apply Z.eqb_neq).
             reflexivity. }
           { simpl; lia. }
           replace ((des ++ [ch]) ++ c :: s) with ((des ++ [ch]) ++ ([] ++ [c]) ++ s) by done.
           apply IH1.
Qed.

(** * Lemmas: the text with the space checks *)

Definition closing (st : fstate) : list Z :=
  if f_state st =? 1 then [QUOTE] else if (f_state st =? 2) || (f_state st =? 3) then [41] else [].

Lemma dup_len ch : 0 <= zlen (dup ch) <= 1.
Proof. unfold dup. by destruct (ch =? QUOTE). Qed.

Ltac zlens :=
  unfold zlen in *; rewrite ?length_app in *;
  cbn [length DOLLARCH CLOSE_PAREN_QUOTE CLOSE_PAREN_DOLLARCH COMMA] in *; lia.

(** One character, when eleven bytes are left. *)
Lemma format_char_room max st ch :
  byte_ok ch -> f_state st = 1 \/ f_state st = 2 -> 0 < zlen (f_des st) -> zlen (f_des st) + 11 <= max ->
  exists st', format_char isctl max st ch = Some st' /\ (f_state st' = 1 \/ f_state st' = 2) /\
    0 < zlen (f_des st') <= zlen (f_des st) + 8 /\
    forall s, f_des st' ++ text (f_state st' =? 1) (f_ncommas st') s =
              f_des st ++ text (f_state st =? 1) (f_ncommas st) (ch :: s).
Proof.
  intros Hb Hst Hp Hr. pose proof (I2A_len ch Hb) as L. pose proof (dup_len ch) as D.
  unfold format_char, MAX_ZWR_DCHAR_DIGITS. destruct st as [fs nc des].
  cbn [f_state f_ncommas f_des] in *. cbn [text].
  replace (zlen des =? 0) with false by (symmetry; apply Z.eqb_neq; lia).
  replace (0 <? zlen des) with true by (symmetry; by apply Z.ltb_lt).
  change (zlen DOLLARCH) with 3. change (zlen CLOSE_PAREN_DOLLARCH) with 5.
  change (zlen CLOSE_PAREN_QUOTE) with 3. change (if ch =? QUOTE then [QUOTE] else []) with (dup ch).
  destruct Hst as [-> | ->]; cbn [orb negb Z.eqb Pos.eqb]; destruct (isctl ch).
  - zif_true. eexists. split; [done|]. split; [by right|]. split.
    + cbn [f_des]. zlens.
    + intros s. cbn [f_des f_state f_ncommas]. by rewrite <- !app_assoc.
  - zif_true. eexists. split; [done|]. split; [by left|]. split.
    + cbn [f_des]. zlens.
    + intros s. cbn [f_des f_state f_ncommas]. by rewrite <- !app_assoc.
  - zif_true. destruct (nc + 1 =? CHARMAXARGS); (eexists; split; [done|]; split; [by right|]; split);
      try (cbn [f_des]; zlens);
      intros s; cbn [f_des f_state f_ncommas]; by rewrite <- !app_assoc.
  - zif_true. eexists. split; [done|]. split; [by left|]. split.
    + cbn [f_des]. zlens.
    + intros s. cbn [f_des f_state f_ncommas]. by rewrite <- !app_assoc.
Qed.

Lemma format_loop_text max s st :
  bytes_ok s -> f_state st = 1 \/ f_state st = 2 -> 0 < zlen (f_des st) ->
  zlen (f_des st) + 9 * zlen s + 2 <= max ->
  exists st', format_loop isctl max st s = (st', false) /\ zlen (f_des st') <= zlen (f_des st) + 8 * zlen s /\
    f_des st' ++ closing st' = f_des st ++ text (f_state st =? 1) (f_ncommas st) s.
Proof.
  intros Hs. revert st. induction Hs as [|ch s Hc Hs IH]; intros st Hst Hp Hr.
  - exists st. cbn [format_loop]. split; [done|]. split; [change (zlen []) with 0; lia|]. unfold closing.
    destruct st as [fs nc des]. cbn [f_state] in *. destruct Hst as [-> | ->]; done.
  - rewrite zlen_cons in *. pose proof (zlen_nonneg s).
    destruct (format_char_room max st ch) as (st1 & E1 & H1 & L1 & T1); [done|done|done|lia|].
    destruct (IH st1 H1) as (st' & E & L & T); [lia|lia|].
    exists st'. cbn [format_loop]. zif_true. rewrite E1, E. split; [done|]. split; [lia|].
    by rewrite T, T1.
Qed.

Lemma format2zwr_text s max_len :
  bytes_ok s -> ZWR_EXP_RATIO (zlen s) <= max_len ->
  format2zwr isctl s max_len = Ok (zwr_text s, false) /\ zlen (zwr_text s) <= 8 * zlen s + 2.
Proof.
  intros Hs Hm. unfold ZWR_EXP_RATIO in Hm. unfold format2zwr.
  destruct Hs as [|ch s Hc Hs].
  { change (zlen []) with 0 in *. change (0 <? 0) with false. cbv iota. rewrite res_bind_ok. change (zlen [QUOTE; QUOTE]) with 2.
    zif_true. split; [done|]. change (zlen (zwr_text [])) with 2. lia. }
  rewrite zlen_cons in *. pose proof (zlen_nonneg s). pose proof (I2A_len ch Hc). pose proof (dup_len ch).
  zif_true. set (max := max_len - 1).
  assert (Hfirst : exists st1, format_char isctl max (mk_fstate 0 0 []) ch = Some st1 /\
    (f_state st1 = 1 \/ f_state st1 = 2) /\ 0 < zlen (f_des st1) <= 8 /\
    f_des st1 ++ text (f_state st1 =? 1) (f_ncommas st1) s = zwr_text (ch :: s)).
  { unfold format_char, MAX_ZWR_DCHAR_DIGITS, zwr_text. cbn [f_state f_des f_ncommas].
    change (zlen []) with 0. cbn [orb negb Z.eqb Z.ltb Z.compare].
    change (zlen DOLLARCH) with 3. change (if ch =? QUOTE then [QUOTE] else []) with (dup ch).
    destruct (isctl ch).
    - zif_true. eexists. split; [done|]. split; [by right|]. split.
      + cbn [f_des]. zlens.
      + cbn [f_des f_state f_ncommas]. by rewrite <- !app_assoc.
    - zif_true. eexists. split; [done|]. split; [by left|]. split.
      + cbn [f_des]. zlens.
      + cbn [f_des f_state f_ncommas]. by rewrite <- !app_assoc. }
  destruct Hfirst as (st1 & E1 & Hf1 & L1 & T1).
  destruct (format_loop_text max s st1 Hs Hf1) as (st' & E & L & T); [lia|unfold max; lia|].
  cbn [format_loop]. change (zlen (f_des (mk_fstate 0 0 []))) with 0. zif_true.
  rewrite E1, E. rewrite res_bind_ok. fold (closing st'). rewrite T, T1.
  assert (Hl : zlen (zwr_text (ch :: s)) <= 8 * (1 + zlen s) + 2).
  { rewrite <- T1, <- T, zlen_app. unfold closing. repeat zcase; zlens. }
  split; [|done]. zif_true. done.
Qed.

(** The text, read from the beginning. *)
Lemma zwr2format_text s : bytes_ok s -> zwr2format (zwr_text s) = Ok (true, s).
Proof.
  intros Hs. destruct Hs as [|c s Hc Hs]; [done|].
  assert (H : turns_to (mk_zstate 0 [] [] (zwr_text (c :: s))) (c :: s)).
  { destruct (read_text s Hs) as [R1 R2]. unfold zwr_text. destruct (isctl c).
    - apply read_open. change (c :: s) with ([] ++ c :: s). by apply R2.
    - eapply zwr_loop_step; [done|reflexivity|simpl; lia|]. unfold dup.
      destruct (Z.eqb_spec c QUOTE) as [->|Hq].
      + eapply zwr_loop_step; [done|reflexivity|simpl; lia|].
        change (QUOTE :: s) with (([] ++ [] ++ [QUOTE]) ++ [] ++ s). apply R1.
      + eapply zwr_loop_step; [done| | |].
        { unfold zwr_turn, zwr_quoted. cbn [app next mbind res_bind z_state z_run z_des z_cp].
          simpl Z.eqb. cbv iota. replace (c =? QUOTE) with false by (symmetry; by apply Z.eqb_neq).
          reflexivity. }
        { simpl; lia. }
        change (c :: s) with ([] ++ ([] ++ [c]) ++ s). apply R1. }
  unfold zwr2format. assert (0 < zlen (zwr_text (c :: s))).
  { unfold zwr_text, DOLLARCH. destruct (isctl c); cbn [app]; rewrite zlen_cons;
      match goal with |- 0 < 1 + zlen ?l => pose proof (zlen_nonneg l) end; lia. }
  zif_true. by apply H.
Qed.

End Text.

(** * The properties of the component *)

(** C21: in M mode, given a buffer of ZWR_EXP_RATIO of the length as its callers
    allocate, format2zwr never runs out of space, writes at most eight bytes
    per byte and two, and zwr2format reads the text back as the string, for
    every string of bytes and whatever bytes count as control characters. *)
Theorem zwr_roundtrip isctl s max_len :
  bytes_ok s -> ZWR_EXP_RATIO (zlen s) <= max_len ->
  exists des, format2zwr isctl s max_len = Ok (des, false) /\
    zlen des <= 8 * zlen s + 2 /\ zwr2format des = Ok (true, s).
Proof.
  intros Hs Hm. exists (zwr_text isctl s).
  destruct (format2zwr_text isctl s max_len Hs Hm) as [-> Hl].
  split; [done|]. split; [done|]. by apply zwr2format_text.
Qed.

(** The string a, newline, quote. *)
Lemma zwr_roundtrip_witness :
  exists des, format2zwr (fun c => c <? 32) [97; 10; 34] 38 = Ok (des, false) /\
    zlen des <= 8 * 3 + 2 /\ zwr2format des = Ok (true, [97; 10; 34]).
Proof.
  apply (zwr_roundtrip (fun c => c <? 32) [97; 10; 34] 38); [by_compute|vm_compute; discriminate].
Defined.

(** A quoted piece without its closing quote is accepted, and dropped. *)
Lemma zwr2format_unterminated : zwr2format [34; 97; 98; 99] = Ok (true, []).
Proof. reflexivity. Qed.
