(* ===== verification/Gvsub.v ===== *)
(** A stored subscript as the string it came from (gvsub2str.c), with the
    tables of pairs of digits of sub2stbl.c (the little-endian ones), for M
    mode and callers that do not ask for ZWRITE format.  It inverts
    mval2subsc. *)

From stdpp Require Import base list numbers option tactics.
From Stdlib Require Import ZArith Lia.
From S2P Require Import Prelude Digits Mval Numstr Subscript Zwr.

Open Scope Z_scope.

(** * Tables *)

Definition dpos : list Z :=
  [0x3030; 0x3130; 0x3230; 0x3330; 0x3430; 0x3530; 0x3630; 0x3730;
   0x3830; 0x3930; 0x2a30; 0x2a30; 0x2a30; 0x2a30; 0x2a30; 0x2a30;
   0x3031; 0x3131; 0x3231; 0x3331; 0x3431; 0x3531; 0x3631; 0x3731;
   0x3831; 0x3931; 0x2a31; 0x2a31; 0x2a31; 0x2a31; 0x2a31; 0x2a31;
   0x3032; 0x3132; 0x3232; 0x3332; 0x3432; 0x3532; 0x3632; 0x3732;
   0x3832; 0x3932; 0x2a32; 0x2a32; 0x2a32; 0x2a32; 0x2a32; 0x2a32;
   0x3033; 0x3133; 0x3233; 0x3333; 0x3433; 0x3533; 0x3633; 0x3733;
   0x3833; 0x3933; 0x2a33; 0x2a33; 0x2a33; 0x2a33; 0x2a33; 0x2a33;
   0x3034; 0x3134; 0x3234; 0x3334; 0x3434; 0x3534; 0x3634; 0x3734;
   0x3834; 0x3934; 0x2a34; 0x2a34; 0x2a34; 0x2a34; 0x2a34; 0x2a34;
   0x3035; 0x3135; 0x3235; 0x3335; 0x3435; 0x3535; 0x3635; 0x3735;
   0x3835; 0x3935; 0x2a35; 0x2a35; 0x2a35; 0x2a35; 0x2a35; 0x2a35;
   0x3036; 0x3136; 0x3236; 0x3336; 0x3436; 0x3536; 0x3636; 0x3736;
   0x3836; 0x3936; 0x2a36; 0x2a36; 0x2a36; 0x2a36; 0x2a36; 0x2a36;
   0x3037; 0x3137; 0x3237; 0x3337; 0x3437; 0x3537; 0x3637; 0x3737;
   0x3837; 0x3937; 0x2a37; 0x2a37; 0x2a37; 0x2a37; 0x2a37; 0x2a37;
   0x3038; 0x3138; 0x3238; 0x3338; 0x3438; 0x3538; 0x3638; 0x3738;
   0x3838; 0x3938; 0x2a38; 0x2a38; 0x2a38; 0x2a38; 0x2a38; 0x2a38;
   0x3039; 0x3139; 0x3239; 0x3339; 0x3439; 0x3539; 0x3639; 0x3739;
   0x3839; 0x3939; 0x2a39; 0x2a39; 0x2a39; 0x2a39; 0x2a39; 0x2a39].

Definition dneg : list Z :=
  [0x2b30; 0x2b30; 0x2b30; 0x2b30; 0x2b30; 0x2b30; 0x2b30; 0x2b30;
   0x2b30; 0x2b30; 0x2b30; 0x2b30; 0x2b30; 0x2b30; 0x2b30; 0x2b30;
   0x2b31; 0x2b31; 0x2b31; 0x2b31; 0x2b31; 0x2b31; 0x2b31; 0x2b31;
   0x2b31; 0x2b31; 0x2b31; 0x2b31; 0x2b31; 0x2b31; 0x2b31; 0x2b31;
   0x2b32; 0x2b32; 0x2b32; 0x2b32; 0x2b32; 0x2b32; 0x2b32; 0x2b32;
   0x2b32; 0x2b32; 0x2b32; 0x2b32; 0x2b32; 0x2b32; 0x2b32; 0x2b32;
   0x2b33; 0x2b33; 0x2b33; 0x2b33; 0x2b33; 0x2b33; 0x2b33; 0x2b33;
   0x2b33; 0x2b33; 0x2b33; 0x2b33; 0x2b33; 0x2b33; 0x2b33; 0x2b33;
   0x2b34; 0x2b34; 0x2b34; 0x2b34; 0x2b34; 0x2b34; 0x2b34; 0x2b34;
   0x2b34; 0x2b34; 0x2b34; 0x2b34; 0x2b34; 0x2b34; 0x2b34; 0x2b34;
   0x2b35; 0x2b35; 0x2b35; 0x2b35; 0x2b35; 0x2b35; 0x2b35; 0x2b35;
   0x2b35; 0x2b35; 0x2b35; 0x2b35; 0x2b35; 0x2b35; 0x2b35; 0x2b35;
   0x2a39; 0x2a39; 0x2a39; 0x2a39; 0x2a39; 0x3939; 0x3839; 0x3739;
   0x3639; 0x3539; 0x3439; 0x3339; 0x3239; 0x3139; 0x3039; 0x2a39;
   0x2a38; 0x2a38; 0x2a38; 0x2a38; 0x2a38; 0x3938; 0x3838; 0x3738;
   0x3638; 0x3538; 0x3438; 0x3338; 0x3238; 0x3138; 0x3038; 0x2a38;
   0x2a37; 0x2a37; 0x2a37; 0x2a37; 0x2a37; 0x3937; 0x3837; 0x3737;
   0x3637; 0x3537; 0x3437; 0x3337; 0x3237; 0x3137; 0x3037; 0x2a37;
   0x2a36; 0x2a36; 0x2a36; 0x2a36; 0x2a36; 0x3936; 0x3836; 0x3736;
   0x3636; 0x3536; 0x3436; 0x3336; 0x3236; 0x3136; 0x3036; 0x2a36;
   0x2a35; 0x2a35; 0x2a35; 0x2a35; 0x2a35; 0x3935; 0x3835; 0x3735;
   0x3635; 0x3535; 0x3435; 0x3335; 0x3235; 0x3135; 0x3035; 0x2a35;
   0x2a34; 0x2a34; 0x2a34; 0x2a34; 0x2a34; 0x3934; 0x3834; 0x3734;
   0x3634; 0x3534; 0x3434; 0x3334; 0x3234; 0x3134; 0x3034; 0x2a34;
   0x2a33; 0x2a33; 0x2a33; 0x2a33; 0x2a33; 0x3933; 0x3833; 0x3733;
   0x3633; 0x3533; 0x3433; 0x3333; 0x3233; 0x3133; 0x3033; 0x2a33;
   0x2a32; 0x2a32; 0x2a32; 0x2a32; 0x2a32; 0x3932; 0x3832; 0x3732;
   0x3632; 0x3532; 0x3432; 0x3332; 0x3232; 0x3132; 0x3032; 0x2a32;
   0x2a31; 0x2a31; 0x2a31; 0x2a31; 0x2a31; 0x3931; 0x3831; 0x3731;
   0x3631; 0x3531; 0x3431; 0x3331; 0x3231; 0x3131; 0x3031; 0x2a31;
   0x2a30; 0x2a30; 0x2a30; 0x2a30; 0x2a30; 0x3930; 0x3830; 0x3730;
   0x3630; 0x3530; 0x3430; 0x3330; 0x3230; 0x3130; 0x3030; 0x2a30].

Definition SPANGLOB_SUB_ESCAPE : Z := 2.
Definition SPAN_PREFIX : list Z := [35; 83; 80; 65; 78].
Definition SPAN_BLKID_BASE : Z := 255.
Definition DECIMAL_BASE : Z := 10.
Definition LARGE_EXP : Z := 10000.
Definition MAX_KEY_SZ : Z := 1023.

(** PUT_USHORT of an entry: its low byte, then its high byte.  The pointer of
    the positive table is one entry before the table. *)
Definition put_pair (negative : bool) (ch : Z) : res (list Z) :=
  v ← res_of (if negative then rd dneg ch else rd dpos (ch - 1));
  Ok [Z.land v 255; Z.shiftr v 8].

(** * gvsub2str: strings *)

(** [while ((ch = *sub++))]: the bytes with their escapes undone. *)
Fixpoint unescape (fuel : nat) (sub : list Z) : res (list Z) :=
  match fuel with
  | O => Err UB
  | S fuel' =>
      '(ch, sub) ← next sub;
      if ch =? 0 then Ok []
      else if ch =? STR_SUB_ESCAPE then
        '(c, sub) ← next sub;
        l ← unescape fuel' sub; Ok (u8 (c - 1) :: l)
      else
        l ← unescape fuel' sub; Ok (ch :: l)
  end.

(** The string branch: [xback] undoes the collation, [opstr_len] is the size
    of the target, [isctl] serves format2zwr. *)
Definition gvsub2str_string (cl : collation) (isctl : Z -> bool) (sub : list Z) (opstr_len : Z)
    (xlat_flg : bool) : res (list Z) :=
  s ← unescape (S (length sub)) sub;
  if (if xlat_flg then MAX_KEY_SZ + 1 else opstr_len) <? zlen s then Err UB
  else
    s ← (match transform cl, collseq cl with
         | true, Some xback =>
             t ← (if zlen s =? 0 then Ok [] else xback s);
             if opstr_len <? zlen t then Err ERR_GVSUBOFLOW else Ok t
         | _, _ => Ok s
         end);
    if xlat_flg then
      '(des, _) ← format2zwr isctl s opstr_len; Ok des
    else Ok s.

(** * gvsub2str: numbers *)

(** [for (trail_zero = 0; (num % 10) == 0; trail_zero++, num /= 10)]. *)
Fixpoint strip_zeros (fuel : nat) (num trail_zero : Z) : res (Z * Z) :=
  match fuel with
  | O => Err UB
  | S fuel' =>
      if Z.rem num DECIMAL_BASE =? 0 then strip_zeros fuel' (Z.quot num DECIMAL_BASE) (trail_zero + 1)
      else Ok (num, trail_zero)
  end.

Fixpoint reverse_num (fuel : nat) (num rev_num : Z) : res Z :=
  match fuel with
  | O => Err UB
  | S fuel' =>
      if 0 <? num then
        r ← int4 (rev_num * DECIMAL_BASE + Z.rem num DECIMAL_BASE);
        reverse_num fuel' (Z.quot num DECIMAL_BASE) r
      else Ok rev_num
  end.

Fixpoint put_reversed (fuel : nat) (rev_num cap : Z) (targ : list Z) : res (list Z) :=
  match fuel with
  | O => Err UB
  | S fuel' =>
      if (0 <? rev_num) && (zlen targ <? cap) then
        put_reversed fuel' (Z.quot rev_num DECIMAL_BASE) cap (targ ++ [Z.rem rev_num DECIMAL_BASE + 48])
      else Ok targ
  end.

(** The subscript of a piece of a spanning node. *)
Definition gvsub2str_span (sub : list Z) (cap : Z) : res (list Z) :=
  match sub with
  | b_first :: b_sec :: sub' =>
      let num := (b_first - 1) * SPAN_BLKID_BASE + b_sec - 1 + 1 in
      '(num, trail_zero) ← strip_zeros 20 num 0;
      rev_num ← reverse_num 20 num 0;
      targ ← put_reversed 20 rev_num cap SPAN_PREFIX;
      let targ := targ ++ replicate (Z.to_nat (Z.min trail_zero (cap - zlen targ))) 48 in
      '(c, _) ← next sub';
      Ok (if negb (c =? 0) then targ ++ [42] else targ)
  | _ => Err UB
  end.

(** [do *targ++ = '0'; while (((signed char)ch-- > 0) && (targ < targ_end))]:
    one zero, and [n] more while there is room. *)
Fixpoint leading_zeros (n : nat) (cap : Z) (targ : list Z) : list Z :=
  let targ := targ ++ [48] in
  match n with
  | O => targ
  | S n' => if zlen targ <? cap then leading_zeros n' cap targ else targ
  end.

(** The digits loop: the text and the final [expon]. *)
Fixpoint digits_loop (negative : bool) (trail_ch cap : Z) (sub targ : list Z) (expon : Z)
    : res (list Z * Z) :=
  match sub with
  | [] => Err UB
  | ch :: sub' =>
      if negb (ch =? 0) && (negb (ch =? trail_ch) && (zlen targ <? cap)) then
        let expon := expon - 2 in
        p ← put_pair negative ch;
        if expon <=? 0 then
          if negb (expon =? 0) then
            digits_loop negative trail_ch cap sub' (targ ++ 46 :: p) LARGE_EXP
          else
            match p with
            | [a; b] => digits_loop negative trail_ch cap sub' (targ ++ [a; 46; b]) LARGE_EXP
            | _ => Err UB
            end
        else digits_loop negative trail_ch cap sub' (targ ++ p) expon
      else Ok (targ, expon)
  end.

(** [if ('0' == targ[-1]) targ--; if ('.' == targ[-1]) targ--]. *)
Definition drop_last (c : Z) (targ : list Z) : list Z :=
  match rev targ with
  | x :: r => if x =? c then rev r else targ
  | [] => targ
  end.

(** [while (--expon > 0 && targ < targ_end) *targ++ = '0']. *)
Definition trailing_zeros (expon cap : Z) (targ : list Z) : list Z :=
  targ ++ replicate (Z.to_nat (Z.min (expon - 1) (cap - zlen targ))) 48.

Definition gvsub2str_number (ch : Z) (sub : list Z) (cap : Z) : res (list Z) :=
  let negative := (ch <? 128) && (0 <? cap) in
  let trail_ch := if negative then NEG_MNTSSA_END else KEY_DELIMITER in
  let ch := if negative then u8 (Z.lnot ch) else ch in
  let targ := if negative then [45] else [] in
  let ch := u8 (ch - (SUBSCRIPT_BIAS - 1)) in
  let frac := s8 ch <=? 0 in
  let targ := if frac then leading_zeros (Z.to_nat (- s8 ch)) cap (targ ++ [46]) else targ in
  let expon := if frac then LARGE_EXP else ch in
  '(targ, expon) ← digits_loop negative trail_ch cap sub targ expon;
  if LARGE_EXP - 100 <? expon then Ok (drop_last 46 (drop_last 48 targ))
  else Ok (trailing_zeros expon cap targ).

(** The string for the stored subscript [sub], which a 0 byte ends. *)
Definition gvsub2str (cl : collation) (isctl : Z -> bool) (sub : list Z) (opstr_len : Z)
    (xlat_flg : bool) : res (list Z) :=
  '(ch, sub) ← next sub;
  std_null ← (if ch =? SUBSCRIPT_STDCOL_NULL
              then '(c, _) ← next sub; Ok (c =? KEY_DELIMITER) else Ok false);
  if (ch =? STR_SUB_PREFIX) || std_null then
    gvsub2str_string cl isctl sub opstr_len xlat_flg
  else if ch =? SUBSCRIPT_ZERO then Ok [48]
  else if ch =? SPANGLOB_SUB_ESCAPE then gvsub2str_span sub opstr_len
  else gvsub2str_number ch sub opstr_len.

(** * Lemmas: strings *)

Lemma unescape_esc s r fuel :
  bytes_ok s -> (length s < fuel)%nat -> unescape fuel (esc s ++ 0 :: r) = Ok s.
Proof.
  intros Hs. revert fuel. induction Hs as [|c s Hc Hs IH]; intros fuel Hf.
  - destruct fuel; [simpl in Hf; lia|]. done.
  - destruct fuel as [|fuel]; [simpl in Hf; lia|]. cbn [esc]. unfold byte_ok in Hc.
    simpl in Hf. destruct (Z.leb_spec c 1); cbn [app unescape next mbind res_bind].
    + change (STR_SUB_ESCAPE =? 0) with false. rewrite Z.eqb_refl. cbv iota.
      cbn [next mbind res_bind]. rewrite IH by lia. cbn [mbind res_bind].
      do 2 f_equal. unfold u8. rewrite Z.mod_small by lia. lia.
    + replace (c =? 0) with false by (symmetry; apply Z.eqb_neq; lia).
      replace (c =? STR_SUB_ESCAPE) with false by (symmetry; apply Z.eqb_neq; unfold STR_SUB_ESCAPE; lia).
      rewrite IH by lia. done.
Qed.

Lemma esc_length s : (length s <= length (esc s))%nat.
Proof. induction s as [|c s IH]; cbn [esc]; [done|]. destruct (c <=? 1); simpl; lia. Qed.

(** * Lemmas: numbers *)

Definition pair_asc (d : Z) : list Z := [d / 10 + 48; d mod 10 + 48].

Lemma put_pair_spec neg d : 0 <= d < 100 -> put_pair neg (pair_code neg d) = Ok (pair_asc d).
Proof.
  intros Hd.
  assert (Hall : forallb (fun j => match put_pair neg (pair_code neg j) with
      | Ok l => bool_decide (l = pair_asc j) | Err _ => false end) (seqZ 0 100) = true)
    by (destruct neg; vm_compute; reflexivity).
  rewrite forallb_forall in Hall. specialize (Hall d).
  assert (Hin : In d (seqZ 0 100)) by (apply list_elem_of_In, elem_of_seqZ; lia).
  specialize (Hall Hin). destruct (put_pair neg (pair_code neg d)); [|done].
  by apply bool_decide_eq_true_1 in Hall as ->.
Qed.

(** The end of the number: the zeroes or the dot that must go, or the zeroes
    that must come. *)
Definition finish (targ : list Z) (expon : Z) : list Z :=
  if LARGE_EXP - 100 <? expon then drop_last 46 (drop_last 48 targ)
  else targ ++ replicate (Z.to_nat (expon - 1)) 48.

Lemma drop_last_snoc c l x : drop_last c (l ++ [x]) = if x =? c then l else l ++ [x].
Proof. unfold drop_last. rewrite rev_app_distr. cbn [rev app]. by rewrite rev_involutive. Qed.

Lemma hundred_split n R :
  0 <= R < 100 ^ Z.of_nat (S n) ->
  let d := R / 100 ^ Z.of_nat n in let R' := R mod 100 ^ Z.of_nat n in
  0 <= d < 100 /\ 0 <= R' < 100 ^ Z.of_nat n /\
  R / 10 ^ Z.of_nat (S (2 * n)) = d / 10 /\
  R mod 10 ^ Z.of_nat (S (2 * n)) = (d mod 10) * 10 ^ Z.of_nat (2 * n) + R' /\
  0 <= d mod 10 < 10 /\ 100 ^ Z.of_nat n = 10 ^ Z.of_nat (2 * n).
Proof.
  intros HR d R'. rewrite bpow_S in HR. pose proof (bpow_pos 100 H100 (Z.of_nat n) ltac:(lia)) as P.
  assert (E : 100 ^ Z.of_nat n = 10 ^ Z.of_nat (2 * n)).
  { replace (Z.of_nat (2 * n)) with (2 * Z.of_nat n) by lia. by rewrite Z.pow_mul_r by lia. }
  rewrite (bpow_S 10). rewrite <- E. unfold d, R'. set (N := 100 ^ Z.of_nat n) in *.
  pose proof (Z.div_mod R N ltac:(lia)) as D. pose proof (Z.mod_pos_bound R N P) as M.
  assert (Hd : 0 <= R / N < 100) by (split; [apply Z.div_pos|apply Z.div_lt_upper_bound]; lia).
  pose proof (Z.div_mod (R / N) 10 ltac:(lia)) as D2. pose proof (Z.mod_pos_bound (R / N) 10 ltac:(lia)) as M2.
  split; [done|]. split; [done|]. split; [|split; [|split; [done|done]]].
  - symmetry. apply Z.div_unique with ((R / N) mod 10 * N + R mod N); [nia|]. rewrite D at 1. nia.
  - symmetry. apply Z.mod_unique with (R / N / 10); [nia|]. rewrite D at 1. nia.
Qed.

(** After the dot: all the pairs, one zero less at the end. *)
Lemma digits_loop_frac neg n R cap r targ expon :
  0 <= R < 100 ^ Z.of_nat n -> LARGE_EXP - 100 + 2 * Z.of_nat n < expon ->
  zlen targ + 2 * Z.of_nat n <= cap ->
  exists targ' e', digits_loop neg (flip neg 0) cap (map (pair_code neg) (sdigs 100 n R) ++ flip neg 0 :: r) targ expon
    = Ok (targ', e') /\ LARGE_EXP - 100 < e' /\
    (R = 0 -> targ' = targ) /\ (R <> 0 -> drop_last 46 (drop_last 48 targ') = targ ++ asc (sdigs 10 (2 * n) R)).
Proof.
  revert R targ expon. induction n as [|n IH]; intros R targ expon HR He Hc.
  { simpl in HR. cbn [sdigs map app digits_loop]. exists targ, expon.
    replace (negb (flip neg 0 =? 0) && _) with false.
    2: { rewrite Z.eqb_refl. cbn. by rewrite andb_false_r. }
    split; [done|]. split; [lia|]. split; [done|lia]. }
  cbn [sdigs]. destruct (Z.eqb_spec R 0) as [->|Hz].
  { cbn [map app digits_loop]. exists targ, expon.
    replace (negb (flip neg 0 =? 0) && _) with false.
    2: { rewrite Z.eqb_refl. cbn. by rewrite andb_false_r. }
    split; [done|]. split; [lia|]. split; done. }
  destruct (hundred_split n R HR) as (Hd & HR' & E1 & E2 & Hd1 & EP). cbv zeta in *.
  set (d := R / 100 ^ Z.of_nat n) in *. set (R' := R mod 100 ^ Z.of_nat n) in *.
  cbn [map app digits_loop].
  pose proof (pcode_range d Hd) as Hp.
  assert (Hne : negb (pair_code neg d =? 0) && (negb (pair_code neg d =? flip neg 0) && (zlen targ <? cap)) = true).
  { zbool_goal; unfold pair_code, flip; destruct neg; lia. }
  rewrite Hne, put_pair_spec by done. rewrite res_bind_ok. cbv zeta.
  replace (expon - 2 <=? 0) with false by (symmetry; apply Z.leb_gt; unfold LARGE_EXP in *; lia).
  destruct (IH R' (targ ++ pair_asc d) (expon - 2) HR' ltac:(lia)) as (t' & e' & E & He' & H0 & H1).
  { rewrite zlen_app. change (zlen (pair_asc d)) with 2. lia. }
  exists t', e'. split; [exact E|]. split; [done|]. split; [done|]. intros _.
  replace (2 * S n)%nat with (S (S (2 * n))) by lia.
  assert (Hs : sdigs 10 (S (S (2 * n))) R = d / 10 ::
     (if (d mod 10) * 10 ^ Z.of_nat (2 * n) + R' =? 0 then [] else d mod 10 :: sdigs 10 (2 * n) R')).
  { cbn [sdigs]. rewrite (proj2 (Z.eqb_neq R 0)) by done. rewrite E1, E2. f_equal.
    rewrite EP in HR'.
    assert (E3 : (d mod 10 * 10 ^ Z.of_nat (2 * n) + R') / 10 ^ Z.of_nat (2 * n) = d mod 10)
      by (symmetry; apply Z.div_unique with R'; lia).
    assert (E4 : (d mod 10 * 10 ^ Z.of_nat (2 * n) + R') mod 10 ^ Z.of_nat (2 * n) = R')
      by (symmetry; apply Z.mod_unique with (d mod 10); lia).
    by rewrite E3, E4. }
  rewrite Hs. pose proof (bpow_pos 10 H10 (Z.of_nat (2 * n)) ltac:(lia)) as P10.
  destruct (Z.eq_dec R' 0) as [Z0|NZ].
  - rewrite (H0 Z0), Z0, Z.add_0_r. rewrite sdigs_0. unfold pair_asc.
    replace (targ ++ [d / 10 + 48; d mod 10 + 48]) with ((targ ++ [d / 10 + 48]) ++ [d mod 10 + 48])
      by (by rewrite <- app_assoc).
    rewrite drop_last_snoc. destruct (Z.eq_dec (d mod 10) 0) as [Dz|Dz].
    + rewrite Dz. change (0 + 48 =? 48) with true. rewrite Z.mul_0_l. change (0 =? 0) with true. cbv iota.
      rewrite drop_last_snoc.
      replace (d / 10 + 48 =? 46) with false; [done|]. symmetry. apply Z.eqb_neq.
      pose proof (Z.div_pos d 10). lia.
    + replace (d mod 10 + 48 =? 48) with false by (symmetry; apply Z.eqb_neq; lia).
      rewrite drop_last_snoc. replace (d mod 10 + 48 =? 46) with false by (symmetry; apply Z.eqb_neq; lia).
      replace (d mod 10 * 10 ^ Z.of_nat (2 * n) =? 0) with false by (symmetry; apply Z.eqb_neq; nia).
      by rewrite <- app_assoc.
  - rewrite (H1 NZ). replace (d mod 10 * 10 ^ Z.of_nat (2 * n) + R' =? 0) with false
      by (symmetry; apply Z.eqb_neq; nia).
    by rewrite <- app_assoc.
Qed.

(** Before the dot: [expon - 1] digits of the integer part are left. *)
Lemma digits_loop_int neg n R cap r targ expon :
  0 <= R < 100 ^ Z.of_nat n -> (n <= 9)%nat -> 1 <= expon <= 100 ->
  zlen targ + 2 * Z.of_nat n + 1 <= cap -> zlen targ + expon <= cap + 1 ->
  exists targ' e', digits_loop neg (flip neg 0) cap (map (pair_code neg) (sdigs 100 n R) ++ flip neg 0 :: r) targ expon
    = Ok (targ', e') /\ finish targ' e' = targ ++ emit (2 * n) R (expon - 1) /\
    (LARGE_EXP - 100 < e' \/ zlen targ' + e' <= cap + 1).
Proof.
  revert R targ expon. induction n as [|n IH]; intros R targ expon HR Hn He Hc Hx.
  { simpl in HR. replace R with 0 by lia. cbn [sdigs map app digits_loop]. exists targ, expon.
    replace (negb (flip neg 0 =? 0) && _) with false.
    2: { rewrite Z.eqb_refl. cbn. by rewrite andb_false_r. }
    split; [done|]. unfold finish, LARGE_EXP. rewrite (proj2 (Z.ltb_ge _ _)) by lia.
    split; [by rewrite emit_0|right; lia]. }
  cbn [sdigs]. destruct (Z.eqb_spec R 0) as [->|Hz].
  { cbn [map app digits_loop]. exists targ, expon.
    replace (negb (flip neg 0 =? 0) && _) with false.
    2: { rewrite Z.eqb_refl. cbn. by rewrite andb_false_r. }
    split; [done|]. unfold finish, LARGE_EXP. rewrite (proj2 (Z.ltb_ge _ _)) by lia.
    split; [by rewrite emit_0|right; lia]. }
  destruct (hundred_split n R HR) as (Hd & HR' & E1 & E2 & Hd1 & EP). cbv zeta in *.
  set (d := R / 100 ^ Z.of_nat n) in *. set (R' := R mod 100 ^ Z.of_nat n) in *.
  cbn [map app digits_loop].
  pose proof (pcode_range d Hd) as Hp.
  assert (Hne : negb (pair_code neg d =? 0) && (negb (pair_code neg d =? flip neg 0) && (zlen targ <? cap)) = true).
  { zbool_goal; unfold pair_code, flip; destruct neg; lia. }
  rewrite Hne, put_pair_spec by done. rewrite res_bind_ok. cbv zeta.
  replace (2 * S n)%nat with (S (S (2 * n))) by lia.
  set (X := d mod 10 * 10 ^ Z.of_nat (2 * n) + R') in *. rewrite EP in HR'.
  assert (E3 : X / 10 ^ Z.of_nat (2 * n) = d mod 10) by (symmetry; apply Z.div_unique with R'; unfold X; lia).
  assert (E4 : X mod 10 ^ Z.of_nat (2 * n) = R') by (symmetry; apply Z.mod_unique with (d mod 10); unfold X; lia).
  rewrite <- EP in HR'. rewrite emit_S, E1, E2.
  destruct (Z.leb_spec (expon - 2) 0) as [Hle|Hgt]; [destruct (Z.eqb_spec (expon - 2) 0) as [He0|He0]|].
  - (* one digit before the dot *)
    cbn [negb pair_asc]. replace (0 <? expon - 1) with true by (symmetry; apply Z.ltb_lt; lia).
    replace (expon - 1 - 1) with 0 by lia.
    rewrite emit_dot by (rewrite bpow_S; unfold X; rewrite EP in HR'; nia).
    destruct (digits_loop_frac neg n R' cap r (targ ++ [d / 10 + 48; 46; d mod 10 + 48]) LARGE_EXP HR')
      as (t' & e' & E & He' & F0 & F1).
    { unfold LARGE_EXP. lia. } { rewrite zlen_app. change (zlen [_; 46; _]) with 3. lia. }
    exists t', e'. split; [exact E|]. split; [|by left]. unfold finish.
    rewrite (proj2 (Z.ltb_lt _ e')) by done. cbn [sdigs]. rewrite E3, E4.
    destruct (Z.eq_dec R' 0) as [Z0|NZ].
    + rewrite (F0 Z0), Z0, sdigs_0.
      replace (targ ++ [d / 10 + 48; 46; d mod 10 + 48]) with (((targ ++ [d / 10 + 48]) ++ [46]) ++ [d mod 10 + 48])
        by (by rewrite <- !app_assoc).
      rewrite drop_last_snoc. pose proof (bpow_pos 10 H10 (Z.of_nat (2 * n)) ltac:(lia)).
      destruct (Z.eq_dec (d mod 10) 0) as [Dz|Dz].
      * replace X with 0 by (unfold X; rewrite Dz, Z0; lia). rewrite Dz.
        change (0 + 48 =? 48) with true. cbv iota. rewrite drop_last_snoc. done.
      * replace (d mod 10 + 48 =? 48) with false by (symmetry; apply Z.eqb_neq; lia).
        rewrite drop_last_snoc. replace (d mod 10 + 48 =? 46) with false by (symmetry; apply Z.eqb_neq; lia).
        replace (X =? 0) with false by (symmetry; apply Z.eqb_neq; unfold X; nia).
        by rewrite <- !app_assoc.
    + rewrite (F1 NZ). pose proof (bpow_pos 10 H10 (Z.of_nat (2 * n)) ltac:(lia)).
      replace (X =? 0) with false by (symmetry; apply Z.eqb_neq; unfold X; nia).
      by rewrite <- app_assoc.
  - (* no digit before the dot *)
    cbn [negb]. replace (0 <? expon - 1) with false by (symmetry; apply Z.ltb_ge; lia).
    rewrite (proj2 (Z.eqb_neq R 0)) by done.
    replace (expon - 1 =? 0) with true by (symmetry; apply Z.eqb_eq; lia).
    rewrite emit_neg by lia. cbn [sdigs]. rewrite E3, E4.
    destruct (digits_loop_frac neg n R' cap r (targ ++ 46 :: pair_asc d) LARGE_EXP HR')
      as (t' & e' & E & He' & F0 & F1).
    { unfold LARGE_EXP. lia. } { rewrite zlen_app, zlen_cons. change (zlen (pair_asc d)) with 2. lia. }
    exists t', e'. split; [exact E|]. split; [|by left]. unfold finish.
    rewrite (proj2 (Z.ltb_lt _ e')) by done. unfold pair_asc in *.
    pose proof (bpow_pos 10 H10 (Z.of_nat (2 * n)) ltac:(lia)).
    destruct (Z.eq_dec R' 0) as [Z0|NZ].
    + rewrite (F0 Z0), Z0, sdigs_0.
      replace (targ ++ [46; d / 10 + 48; d mod 10 + 48])
        with (((targ ++ [46]) ++ [d / 10 + 48]) ++ [d mod 10 + 48]) by (by rewrite <- !app_assoc).
      rewrite drop_last_snoc. destruct (Z.eq_dec (d mod 10) 0) as [Dz|Dz].
      * replace X with 0 by (unfold X; rewrite Dz, Z0; lia). rewrite Dz.
        change (0 + 48 =? 48) with true. cbv iota. rewrite drop_last_snoc.
        replace (d / 10 + 48 =? 46) with false
          by (symmetry; apply Z.eqb_neq; pose proof (Z.div_pos d 10); lia).
        by rewrite <- app_assoc.
      * replace (d mod 10 + 48 =? 48) with false by (symmetry; apply Z.eqb_neq; lia).
        rewrite drop_last_snoc. replace (d mod 10 + 48 =? 46) with false by (symmetry; apply Z.eqb_neq; lia).
        replace (X =? 0) with false by (symmetry; apply Z.eqb_neq; unfold X; nia).
        by rewrite <- !app_assoc.
    + rewrite (F1 NZ). replace (X =? 0) with false by (symmetry; apply Z.eqb_neq; unfold X; nia).
      by rewrite <- app_assoc.
  - (* two digits before the dot *)
    replace (0 <? expon - 1) with true by (symmetry; apply Z.ltb_lt; lia).
    rewrite emit_S, E3, E4. replace (0 <? expon - 1 - 1) with true by (symmetry; apply Z.ltb_lt; lia).
    destruct (IH R' (targ ++ pair_asc d) (expon - 2) HR' ltac:(lia) ltac:(lia)) as (t' & e' & E & F & L).
    { rewrite zlen_app. change (zlen (pair_asc d)) with 2. lia. }
    { rewrite zlen_app. change (zlen (pair_asc d)) with 2. lia. }
    exists t', e'. split; [exact E|]. split; [|done]. rewrite F, <- app_assoc.
    replace (expon - 1 - 1 - 1) with (expon - 2 - 1) by lia. done.
Qed.

Lemma leading_zeros_spec n cap targ :
  zlen targ + Z.of_nat n < cap -> leading_zeros n cap targ = targ ++ replicate (S n) 48.
Proof.
  revert targ. induction n as [|n IH]; intros targ H; [done|]. cbn [leading_zeros].
  rewrite zlen_app. change (zlen [48]) with 1.
  replace (zlen targ + 1 <? cap) with true by (symmetry; apply Z.ltb_lt; lia).
  rewrite IH by (rewrite zlen_app; change (zlen [48]) with 1; lia).
  rewrite <- app_assoc. done.
Qed.

(** The stored number [code neg E M] reads as the canonical string. *)
Lemma gvsub2str_number_spec neg x E M r cap :
  norm x neg E M -> 70 <= cap ->
  gvsub2str_number (flip neg (E + 128))
    (map (pair_code neg) (sdigs 100 9 M) ++ flip neg 0 :: r) cap = Ok (canon neg (E - MV_XBIAS) M).
Proof.
  intros (HM & HE & _) Hcap. unfold gvsub2str_number.
  assert (Hneg : (flip neg (E + 128) <? 128) && (0 <? cap) = neg).
  { unfold flip. num_consts. destruct neg; [zbool_goal|].
    by rewrite (proj2 (Z.ltb_ge (E + 128) 128)) by lia. }
  rewrite Hneg. cbv zeta.
  replace (if neg then NEG_MNTSSA_END else KEY_DELIMITER) with (flip neg 0) by (by destruct neg).
  replace (if neg then u8 (Z.lnot (flip neg (E + 128))) else flip neg (E + 128)) with (E + 128).
  2: { unfold flip, u8, Z.lnot. num_consts. destruct neg; [|done].
       apply Z.mod_unique with (-1); lia. }
  replace (E + 128 - (SUBSCRIPT_BIAS - 1)) with (E - 61) by (unfold SUBSCRIPT_BIAS; lia).
  assert (Hs8 : s8 (u8 (E - 61)) = E - 61).
  { unfold s8, u8. num_consts. rewrite Zplus_mod_idemp_l. rewrite Z.mod_small by lia. lia. }
  rewrite Hs8. unfold canon, MV_XBIAS.
  assert (HMn : 0 <= M < 100 ^ Z.of_nat 9) by (change (100 ^ Z.of_nat 9) with (10 ^ 18); lia).
  set (sgn := if neg then [45] else []).
  assert (Hsg : 0 <= zlen sgn <= 1) by (unfold sgn; by destruct neg).
  destruct (Z.leb_spec (E - 61) 0) as [Hf|Hf].
  - assert (Hlz : leading_zeros (Z.to_nat (- (E - 61))) cap (sgn ++ [46]) =
      (sgn ++ [46]) ++ replicate (Z.to_nat (- (E - 62))) 48).
    { rewrite leading_zeros_spec; [do 2 f_equal; lia|].
      rewrite zlen_app. change (zlen [46]) with 1. num_consts. lia. }
    rewrite Hlz.
    destruct (digits_loop_frac neg 9 M cap r ((sgn ++ [46]) ++ replicate (Z.to_nat (- (E - 62))) 48) LARGE_EXP HMn)
      as (t' & e' & -> & He' & _ & F1).
    { unfold LARGE_EXP. lia. }
    { rewrite !zlen_app. change (zlen [46]) with 1. unfold zlen at 2. rewrite length_replicate. num_consts. lia. }
    cbn [mbind res_bind]. rewrite (proj2 (Z.ltb_lt _ e')) by done. rewrite F1 by lia.
    change (2 * 9)%nat with 18%nat.
    replace (E - 62 <? 0) with true by (symmetry; apply Z.ltb_lt; lia).
    rewrite emit_neg by lia. rewrite <- !app_assoc. reflexivity.
  - replace (u8 (E - 61)) with (E - 61) by (unfold u8; num_consts; rewrite Z.mod_small by lia; lia).
    destruct (digits_loop_int neg 9 M cap r sgn (E - 61) HMn) as (t' & e' & -> & F & L);
      [lia|num_consts; lia|lia|num_consts; lia|].
    cbn [mbind res_bind]. change (2 * 9)%nat with 18%nat in F.
    replace (E - 62 <? 0) with false by (symmetry; apply Z.ltb_ge; lia).
    replace (E - 61 - 1) with (E - 62) in F by lia. rewrite app_nil_l, <- F. unfold finish, trailing_zeros.
    destruct (Z.ltb_spec (LARGE_EXP - 100) e'); [done|]. rewrite Z.min_l by lia. done.
Qed.

(** * The properties of the component *)

Lemma no_collation_back cl (s : list Z) n : no_collation cl ->
  match transform cl, collseq cl with
  | true, Some xback => t ← (if zlen s =? 0 then Ok [] else xback s); if n <? zlen t then Err ERR_GVSUBOFLOW else Ok t
  | _, _ => Ok s
  end = Ok s.
Proof. intros [->|[_ ->]]; [done|by destruct (transform cl)]. Qed.

Lemma gvsub2str_stored cl isctl std w l r cap :
  no_collation cl -> subsc_stored cl std w l -> sub_ok w ->
  zlen (mv_str w) <= cap -> 70 <= cap ->
  gvsub2str cl isctl (l ++ KEY_DELIMITER :: r) cap false =
  if has MV_NUM_APPROX w then Ok (mv_str w) else n2s_str w.
Proof.
  intros Ht E [Hb Hn] Hl Hc. unfold KEY_DELIMITER.
  destruct (subsc_stored_inv _ _ _ _ Ht E) as [[Ha ->]|[Ha Hs]]; rewrite Ha.
  - assert (Hu : unescape (S (length (esc (mv_str w) ++ 0 :: r))) (esc (mv_str w) ++ 0 :: r) = Ok (mv_str w)).
    { apply unescape_esc; [done|]. rewrite length_app. pose proof (esc_length (mv_str w)). simpl. lia. }
    assert (Hstr : gvsub2str_string cl isctl (esc (mv_str w) ++ 0 :: r) cap false = Ok (mv_str w)).
    { unfold gvsub2str_string. rewrite Hu, res_bind_ok. cbv iota.
      rewrite (proj2 (Z.ltb_ge _ _)) by lia. by rewrite no_collation_back. }
    unfold gvsub2str. destruct (mv_str w) as [|c s] eqn:Es; unfold str_code; [destruct std|]; cbn; try exact Hstr.
  - destruct Hn as [Hn|Hn]; [congruence|].
    destruct (n2s_canon w Hn) as [[H0 ->]|(neg & Ex & M & Hv & ->)];
      destruct (num_subsc_spec w Hn) as [[H0' Hs']|(neg' & E' & M' & Hv' & Hs')];
      rewrite Hs in Hs'; injection Hs' as ->.
    + done.
    + exfalso. rewrite H0 in Hv'. destruct neg'; [apply norm_neg in Hv'|apply norm_pos in Hv']; lia.
    + exfalso. rewrite H0' in Hv. destruct neg; [apply norm_neg in Hv|apply norm_pos in Hv]; lia.
    + assert (neg' = neg /\ E' = Ex /\ M' = M) as (-> & -> & ->).
      { assert (neg' = neg) as ->.
        { destruct neg, neg'; try done.
          - apply norm_neg in Hv. apply norm_pos in Hv'. lia.
          - apply norm_pos in Hv. apply norm_neg in Hv'. lia. }
        pose proof (norm_cmp _ _ _ _ _ _ _ Hv' Hv) as Hcmp. rewrite Z.compare_refl in Hcmp.
        unfold ncmp in Hcmp. destruct neg.
        - destruct (Z.compare_spec Ex E') as [->| |]; try done.
          destruct (Z.compare_spec M M') as [->| |]; done.
        - destruct (Z.compare_spec E' Ex) as [->| |]; try done.
          destruct (Z.compare_spec M' M) as [->| |]; done. }
      rewrite code_app. unfold gvsub2str. cbn [next mbind res_bind].
      assert (Hh : 18 <= flip neg (Ex + 128) <= 107 \/ 148 <= flip neg (Ex + 128) <= 237).
      { destruct Hv as (_ & HE & _). unfold flip. num_consts. destruct neg; lia. }
      unfold SUBSCRIPT_STDCOL_NULL, STR_SUB_PREFIX, SUBSCRIPT_ZERO, SPANGLOB_SUB_ESCAPE.
      rewrite !(proj2 (Z.eqb_neq (flip neg (Ex + 128)) _)) by lia. rewrite res_bind_ok. cbn [orb].
      by apply (gvsub2str_number_spec neg (num_value w)).
Qed.

(** C15: gvsub2str reads back what mval2subsc appended to a key, for every
    subscript without collation (TREF(transform) set, no collation sequence and
    the numeric flag off, as in a running program, or TREF(transform) not set):
    the bytes of a string give the string, those of a number the very string
    that n2s makes of it (so the two forms of a number, and -0, have one
    spelling), whatever follows the delimiter. *)
Theorem gvsub2str_roundtrip g cl isctl v k std w k' r cap :
  no_collation cl -> mval2subsc g cl v k std = Ok (w, k', true) -> sub_ok w ->
  zlen (mv_str w) <= cap -> 70 <= cap ->
  gvsub2str cl isctl (last_subsc k' ++ KEY_DELIMITER :: r) cap false =
  if has MV_NUM_APPROX w then Ok (mv_str w) else n2s_str w.
Proof. intros Hc E. apply (gvsub2str_stored cl isctl std); [done|by exists g, v, k, k']. Qed.

Lemma gvsub2str_roundtrip_witness :
  gvsub2str ex_cl (fun _ => false) ([64; 233; 255] ++ KEY_DELIMITER :: [0]) 100 false = Ok [45; 49; 46; 53].
Proof.
  exact (gvsub2str_roundtrip (mk_globals false false) ex_cl (fun _ => false) (mk_mval 3 0 0 0 (-1500) [])
    ex_key false (mk_mval 3 0 0 0 (-1500) []) (appended ex_key [64; 233; 255]) [0] 100 (or_intror (conj eq_refl eq_refl)) eq_refl
    ltac:(split; [by_compute | right; by_compute])
    ltac:(vm_compute; discriminate) ltac:(vm_compute; discriminate)).
Defined.

(** The ZWRITE flag is for strings only. *)
Lemma gvsub2str_flag cl isctl h l cap : h <> STR_SUB_PREFIX -> h <> SUBSCRIPT_STDCOL_NULL ->
  gvsub2str cl isctl (h :: l) cap true = gvsub2str cl isctl (h :: l) cap false.
Proof.
  intros H1 H2. unfold gvsub2str. cbn [next mbind res_bind]. rewrite (proj2 (Z.eqb_neq _ _) H1), (proj2 (Z.eqb_neq _ _) H2). done.
Qed.

Lemma gvsub2str_stored_zwr cl isctl std w l r cap :
  no_collation cl -> subsc_stored cl std w l -> has MV_NUM_APPROX w = true ->
  bytes_ok (mv_str w) -> zlen (mv_str w) <= MAX_KEY_SZ + 1 -> ZWR_EXP_RATIO (zlen (mv_str w)) <= cap ->
  gvsub2str cl isctl (l ++ KEY_DELIMITER :: r) cap true = Ok (zwr_text isctl (mv_str w)).
Proof.
  intros Ht E Ha Hb Hl Hc. unfold KEY_DELIMITER.
  destruct (subsc_stored_inv _ _ _ _ Ht E) as [[_ ->]|[Hf _]]; [|congruence].
  assert (Hu : unescape (S (length (esc (mv_str w) ++ 0 :: r))) (esc (mv_str w) ++ 0 :: r) = Ok (mv_str w)).
  { apply unescape_esc; [done|]. rewrite length_app. pose proof (esc_length (mv_str w)). simpl. lia. }
  assert (Hstr : gvsub2str_string cl isctl (esc (mv_str w) ++ 0 :: r) cap true = Ok (zwr_text isctl (mv_str w))).
  { unfold gvsub2str_string. rewrite Hu, res_bind_ok. cbv iota.
    rewrite (proj2 (Z.ltb_ge _ _)) by lia. rewrite no_collation_back, res_bind_ok by done.
    by rewrite (proj1 (format2zwr_text isctl _ _ Hb Hc)). }
  unfold gvsub2str. destruct (mv_str w) as [|c s] eqn:Es; unfold str_code; [destruct std|]; cbn; try exact Hstr.
Qed.

(** With the ZWRITE flag a string subscript comes out in ZWRITE format,
    which zwr2format reads back as the string. *)
Theorem gvsub2str_zwr cl isctl std w l r cap :
  no_collation cl -> subsc_stored cl std w l -> has MV_NUM_APPROX w = true ->
  bytes_ok (mv_str w) -> zlen (mv_str w) <= MAX_KEY_SZ + 1 -> ZWR_EXP_RATIO (zlen (mv_str w)) <= cap ->
  exists des, gvsub2str cl isctl (l ++ KEY_DELIMITER :: r) cap true = Ok des /\
    zwr2format des = Ok (true, mv_str w).
Proof. intros. exists (zwr_text isctl (mv_str w)). split; [by apply (gvsub2str_stored_zwr cl isctl std)|by apply zwr2format_text]. Qed.

Lemma gvsub2str_zwr_witness :
  exists des, gvsub2str ex_cl (fun _ => false) ([255; 97; 1; 2] ++ KEY_DELIMITER :: [0]) 100 true = Ok des /\
    zwr2format des = Ok (true, [97; 1]).
Proof.
  exact (gvsub2str_zwr ex_cl (fun _ => false) false (mk_mval 12 0 0 0 0 [97; 1]) [255; 97; 1; 2] [0] 100 (or_intror (conj eq_refl eq_refl))
    ltac:(exists (mk_globals false false), (mk_mval 12 0 0 0 0 [97; 1]), ex_key, (appended ex_key [255; 97; 1; 2]); by vm_compute) eq_refl
    ltac:(by_compute) ltac:(vm_compute; discriminate) ltac:(vm_compute; discriminate)).
Defined.
