(* ===== verification/Double.v ===== *)
(** The C type double where the code computes with it (eb_muldiv.c, mvalconv.c):
    a finite binary64 number is the integer number of units of 2^-1074, its
    spacing around zero, and an operation is the exact result rounded to the
    nearest number of 53 bits, ties to even. The magnitudes here stay far below
    the overflow to infinity. *)

From stdpp Require Import base list numbers option tactics.
From Stdlib Require Import ZArith Lia Zquot.
From S2P Require Import Prelude.

Open Scope Z_scope.

(** 1.0 in units. *)
Definition ONE : Z := 2 ^ 1074.

(** The quotient [n / d] ([0 < d]) rounded to 53 bits. *)
Definition rnd (n d : Z) : Z :=
  let a := Z.abs n in
  let k := Z.max 0 (Z.log2 (a / d) - 52) in
  let u := d * 2 ^ k in
  let t := a / u in
  let r := a mod u in
  let up := (u <? 2 * r) || ((2 * r =? u) && Z.odd t) in
  Z.sgn n * ((if up then t + 1 else t) * 2 ^ k).

Definition dbl (z : Z) : Z := z * ONE.
Definition dmul (a b : Z) : Z := rnd (a * b) ONE.
Definition ddiv (a b : Z) : Z := rnd (a * ONE * Z.sgn b) (Z.abs b).
Definition dadd (a b : Z) : Z := rnd (a + b) 1.
Definition dsub (a b : Z) : Z := rnd (a - b) 1.

(** The conversion to int4, which truncates; out of range it is undefined. *)
Definition dtrunc (a : Z) : res Z := int4 (Z.quot a ONE).

(** * Rounding *)

Definition rnd_exp (n d : Z) : Z := Z.max 0 (Z.log2 (Z.abs n / d) - 52).

Lemma rnd_shape n d :
  0 < d ->
  exists t, rnd n d = Z.sgn n * (t * 2 ^ rnd_exp n d) /\
    (t = Z.abs n / (d * 2 ^ rnd_exp n d) \/
     t = Z.abs n / (d * 2 ^ rnd_exp n d) + 1 /\ 0 < Z.abs n mod (d * 2 ^ rnd_exp n d)) /\
    2 * Z.abs (t * 2 ^ rnd_exp n d * d - Z.abs n) <= d * 2 ^ rnd_exp n d.
Proof.
  intros Hd. unfold rnd. fold (rnd_exp n d). set (k := rnd_exp n d).
  assert (0 < 2 ^ k) by (apply Z.pow_pos_nonneg; unfold k, rnd_exp; lia).
  set (u := d * 2 ^ k). assert (Hu : 0 < u) by nia.
  pose proof (Z.div_mod (Z.abs n) u ltac:(lia)) as E. pose proof (Z.mod_pos_bound (Z.abs n) u Hu) as B.
  set (t := Z.abs n / u) in *. set (r := Z.abs n mod u) in *.
  assert (Ht : forall x, x * 2 ^ k * d = u * x) by (unfold u; intros; ring).
  eexists. split; [reflexivity|]. rewrite Ht.
  destruct (Z.ltb_spec u (2 * r)); simpl orb; cbv iota.
  { split; [right; lia|]. rewrite E. lia. }
  destruct (Z.eqb_spec (2 * r) u); simpl andb; [destruct (Z.odd t)|]; cbv iota.
  - split; [right; lia|]. rewrite E. lia.
  - split; [left; done|]. rewrite E. lia.
  - split; [left; done|]. rewrite E. lia.
Qed.

Lemma rnd_exp_low n d : 0 < d -> 0 < rnd_exp n d -> d * 2 ^ (52 + rnd_exp n d) <= Z.abs n.
Proof.
  intros Hd Hk. unfold rnd_exp in *.
  set (q := Z.abs n / d) in *. assert (0 < q).
  { destruct (Z.ltb_spec 0 q); [done|]. rewrite Z.log2_nonpos in Hk by done. lia. }
  pose proof (Z.log2_spec q ltac:(lia)) as [L _].
  replace (52 + Z.max 0 (Z.log2 q - 52)) with (Z.log2 q) by lia.
  pose proof (Z.mul_div_le (Z.abs n) d Hd). unfold q in *. nia.
Qed.

Lemma rnd_opp n d : rnd (- n) d = - rnd n d.
Proof. unfold rnd. rewrite Z.abs_opp, Z.sgn_opp. lia. Qed.

Lemma rnd_0 d : rnd 0 d = 0.
Proof. done. Qed.

Lemma rnd_nonneg n d : 0 < d -> 0 <= n -> 0 <= rnd n d.
Proof.
  intros Hd Hn. destruct (rnd_shape n d Hd) as (t & -> & Ht & _).
  assert (0 < 2 ^ rnd_exp n d) by (apply Z.pow_pos_nonneg; unfold rnd_exp; lia).
  assert (0 <= Z.abs n / (d * 2 ^ rnd_exp n d)) by (apply Z.div_pos; nia).
  assert (0 <= t) by lia. assert (0 <= Z.sgn n) by lia. nia.
Qed.

(** The relative error is at most 2^-53 above the subnormal range. *)
Lemma rnd_err n d : 0 < d -> 0 <= n -> d * 2 ^ 52 <= n -> Z.abs (rnd n d * d - n) * 2 ^ 53 <= n.
Proof.
  intros Hd Hn0 Hn. destruct (rnd_shape n d Hd) as (t & -> & _ & He).
  rewrite Z.sgn_pos, Z.mul_1_l by lia. rewrite (Z.abs_eq n) in He by lia.
  assert (d * 2 ^ rnd_exp n d * 2 ^ 52 <= n).
  { destruct (Z.eq_dec (rnd_exp n d) 0) as [E|E]; [rewrite E; lia|].
    assert (0 < rnd_exp n d) as Hk by (unfold rnd_exp in *; lia).
    pose proof (rnd_exp_low n d Hd Hk) as L. rewrite Z.pow_add_r in L by lia. lia. }
  lia.
Qed.

(** Rounding against a number [m * 2^j] of 53 bits. *)
Lemma rnd_ge n d m j :
  0 < d -> 0 <= j -> 0 <= m < 2 ^ 53 -> m * 2 ^ j * d <= n -> m * 2 ^ j <= rnd n d.
Proof.
  intros Hd Hj Hm Hn. pose proof (Z.pow_pos_nonneg 2 j ltac:(lia) Hj) as Pj.
  assert (Hn0 : 0 <= n) by (assert (0 <= m * 2 ^ j) by nia; nia).
  destruct (Z.eq_dec n 0) as [->|]; [rewrite rnd_0; nia|].
  destruct (rnd_shape n d Hd) as (t & -> & Ht & _). pose proof (rnd_exp_low n d Hd) as L.
  rewrite Z.sgn_pos, Z.mul_1_l by lia. rewrite !Z.abs_eq in * by lia.
  set (k := rnd_exp n d) in *. assert (Hk : 0 <= k) by (unfold k, rnd_exp; lia).
  pose proof (Z.pow_pos_nonneg 2 k ltac:(lia) Hk) as Pk.
  assert (Hfl : forall x, x * (d * 2 ^ k) <= n -> x <= t).
  { intros x Hx. assert (x <= n / (d * 2 ^ k)) by (apply Z.div_le_lower_bound; nia). lia. }
  destruct (Z.leb_spec k j).
  - assert (2 ^ j = 2 ^ (j - k) * 2 ^ k) as E by (rewrite <- Z.pow_add_r by lia; f_equal; lia).
    rewrite E in *. rewrite Z.mul_assoc. apply Z.mul_le_mono_nonneg_r; [lia|].
    apply Hfl. lia.
  - assert (2 ^ 52 <= t).
    { apply Hfl. rewrite (Z.pow_add_r 2 52 k) in L by lia. lia. }
    assert (2 ^ k = 2 * 2 ^ (k - 1)) as E by (rewrite <- Z.pow_succ_r by lia; f_equal; lia).
    assert (2 ^ j <= 2 ^ (k - 1)) by (apply Z.pow_le_mono_r; lia). nia.
Qed.

Lemma rnd_le n d m j :
  0 < d -> 0 <= j -> 0 <= m < 2 ^ 53 -> 0 <= n <= m * 2 ^ j * d -> rnd n d <= m * 2 ^ j.
Proof.
  intros Hd Hj Hm [Hn0 Hn]. pose proof (Z.pow_pos_nonneg 2 j ltac:(lia) Hj) as Pj.
  destruct (Z.eq_dec n 0) as [->|]; [rewrite rnd_0; nia|].
  destruct (rnd_shape n d Hd) as (t & -> & Ht & _). pose proof (rnd_exp_low n d Hd) as L.
  rewrite Z.sgn_pos, Z.mul_1_l by lia. rewrite !Z.abs_eq in * by lia.
  set (k := rnd_exp n d) in *. assert (Hk : 0 <= k) by (unfold k, rnd_exp; lia).
  pose proof (Z.pow_pos_nonneg 2 k ltac:(lia) Hk) as Pk.
  destruct (Z.leb_spec k j).
  - assert (2 ^ j = 2 ^ (j - k) * 2 ^ k) as E by (rewrite <- Z.pow_add_r by lia; f_equal; lia).
    rewrite E in *. rewrite Z.mul_assoc. apply Z.mul_le_mono_nonneg_r; [lia|].
    assert (Hu : 0 < d * 2 ^ k) by nia.
    pose proof (Z.div_mod n (d * 2 ^ k) ltac:(lia)) as Em.
    pose proof (Z.mod_pos_bound n (d * 2 ^ k) Hu).
    set (u := d * 2 ^ k) in *. set (M := m * 2 ^ (j - k)).
    assert (n <= M * u).
    { replace (M * u) with (m * (2 ^ (j - k) * 2 ^ k) * d) by (unfold M, u; ring). exact Hn. }
    assert (t <= M); [|unfold M in *; nia]. destruct Ht as [->|[-> Hr]].
    + apply Z.div_le_upper_bound; lia.
    + assert (n / u < M); [|lia]. apply (Z.mul_lt_mono_pos_l u); lia.
  - rewrite (Z.pow_add_r 2 52 k) in L by lia.
    assert (2 ^ k = 2 * 2 ^ (k - 1)) as E by (rewrite <- Z.pow_succ_r by lia; f_equal; lia).
    assert (2 ^ j <= 2 ^ (k - 1)) by (apply Z.pow_le_mono_r; lia).
    assert (m * 2 ^ j < 2 ^ 52 * 2 ^ k).
    { rewrite E. apply Z.lt_le_trans with (2 ^ 53 * 2 ^ j); [apply Z.mul_lt_mono_pos_r; lia|lia]. }
    nia.
Qed.

(** A number of 53 bits is its own rounding. *)
Lemma rnd_exact n d m j :
  0 < d -> 0 <= j -> Z.abs m < 2 ^ 53 -> n = m * 2 ^ j * d -> rnd n d = m * 2 ^ j.
Proof.
  intros Hd Hj Hm ->. assert (Hp : forall m, 0 <= m < 2 ^ 53 -> rnd (m * 2 ^ j * d) d = m * 2 ^ j).
  { clear m Hm. intros m Hm. pose proof (Z.pow_pos_nonneg 2 j ltac:(lia) Hj) as Pj.
    apply Z.le_antisymm; [apply rnd_le | apply rnd_ge]; try done; nia. }
  destruct (Z.leb_spec 0 m); [apply Hp; lia|].
  replace (m * 2 ^ j * d) with (- (- m * 2 ^ j * d)) by ring. rewrite rnd_opp, Hp by lia. ring.
Qed.

(** * Integers as doubles *)

Lemma ONE_pos : 0 < ONE.
Proof. unfold ONE. apply Z.pow_pos_nonneg; lia. Qed.

Lemma ONE_big : 2 ^ 100 <= ONE.
Proof. unfold ONE. apply Z.pow_le_mono_r; lia. Qed.

Lemma rnd_ONE_exact d m : 0 < d -> Z.abs m < 2 ^ 53 -> rnd (m * ONE * d) d = m * ONE.
Proof. intros. unfold ONE. by apply rnd_exact. Qed.

Lemma rnd_ONE_ge n d m : 0 < d -> 0 <= m < 2 ^ 53 -> m * ONE * d <= n -> m * ONE <= rnd n d.
Proof. intros. unfold ONE in *. by apply rnd_ge. Qed.

Lemma rnd_ONE_le n d m : 0 < d -> 0 <= m < 2 ^ 53 -> 0 <= n <= m * ONE * d -> rnd n d <= m * ONE.
Proof. intros. unfold ONE in *. by apply rnd_le. Qed.

Lemma dmul_int x y : Z.abs (x * y) < 2 ^ 53 -> dmul (dbl x) (dbl y) = dbl (x * y).
Proof.
  intros H. unfold dmul, dbl. pose proof ONE_pos.
  replace (x * ONE * (y * ONE)) with (x * y * ONE * ONE) by ring. by apply rnd_ONE_exact.
Qed.

Lemma ONE_pow : ONE = 2 ^ 1074.
Proof. done. Qed.

#[global] Opaque ONE.
