(* ===== verification/Muldiv.v ===== *)
(** Multiplication and division of mantissas (eb_muldiv.c): the products and
    quotients of eighteen digits in base 10000, and the short forms for two
    integers, which compute in the C type double. *)

From stdpp Require Import base list numbers option tactics.
From Stdlib Require Import ZArith Lia Zquot.
From S2P Require Import Prelude Mval AddSub Double.

Open Scope Z_scope.

(** * Integers *)

Definition FLO_HI : Z := dbl 1000000000.
Definition FLO_BIAS : Z := dbl 1000.
Definition RADIX : Z := 10000.

(** The two words of a double: [X[0]] and [X[1]]. *)
Definition DFLOAT2MINT (df : Z) : res (Z * Z) :=
  x1 ← dtrunc df;
  x0 ← dtrunc (dmul (dsub df (dbl x1)) FLO_HI);
  Ok (x0, x1).

(** The product p[0], p[1]; [None] asks for a promotion. *)
Definition eb_int_mul (v1 u1 : Z) : res (option (Z * Z)) :=
  let pf := ddiv (dmul (dbl u1) (dbl v1)) FLO_BIAS in
  if (pf <? FLO_HI) && (- FLO_HI <? pf) then
    '(tp0, tp1) ← DFLOAT2MINT pf;
    if tp0 =? 0 then Ok (Some (tp0, tp1)) else Ok None
  else Ok None.

Definition eb_mvint_div (v u : Z) : res (option (Z * Z)) :=
  let qf := ddiv (dmul (dbl v) FLO_BIAS) (dbl u) in
  if (qf <? FLO_HI) && (- FLO_HI <? qf) then
    '(tq0, tq1) ← DFLOAT2MINT qf;
    if tq0 =? 0 then Ok (Some (tq0, tq1)) else Ok None
  else Ok None.

Definition eb_int_div (v1 u1 : Z) : res (option (Z * Z)) :=
  let qf := ddiv (dmul (dbl v1) FLO_BIAS) (dbl u1) in
  if (qf <? FLO_HI) && (- FLO_HI <? qf) then
    '(q0, q1) ← DFLOAT2MINT qf;
    Ok (Some (q0, Z.quot q1 MV_BIAS * MV_BIAS))
  else Ok None.

(** p[1] of the modulus; the other word stays. *)
Definition eb_int_mod (v1 u1 : Z) : res Z :=
  if (u1 =? 0) || (v1 =? 0) then Ok 0
  else
    let quo := Z.quot v1 u1 in
    let rat := negb (v1 =? quo * u1) in
    let neg := ((v1 <? 0) && (0 <? u1)) || ((0 <? v1) && (u1 <? 0)) in
    int4 (v1 - u1 * (quo - Z.b2z (neg && rat))).

(** * Mantissas: the product *)

(** The inner loop over the digits of [m1] from [i]: [prod], [carry]. *)
Fixpoint mul_inner (m1 : list Z) (m2j j i carry : Z) (prod : list Z) : res (list Z * Z) :=
  match m1 with
  | [] => Ok (prod, carry)
  | m1i :: m1' =>
      p ← res_of (rd prod (i + j));
      acc ← int4 (m1i * m2j + p + carry);
      prod ← res_of (wr prod (i + j) (Z.rem acc RADIX));
      mul_inner m1' m2j j (i + 1) (Z.quot acc RADIX) prod
  end.

(** The outer loop over the digits of [m2] from [j]. *)
Fixpoint mul_outer (m1 m2 : list Z) (j : Z) (prod : list Z) : res (list Z) :=
  match m2 with
  | [] => Ok prod
  | m2j :: m2' =>
      prod ← (if m2j =? 0 then Ok prod
              else
                '(prod, carry) ← mul_inner m1 m2j j 0 0 prod;
                if 5 + j <? 9 then res_of (wr prod (5 + j) carry) else Ok prod);
      mul_outer m1 m2' (j + 1) prod
  end.

(** The five digits 2-4-(3/1)-4-4 of a mantissa. *)
Definition mul_digits (v0 v1 : Z) : list Z :=
  [Z.rem v0 RADIX; Z.rem (Z.quot v0 RADIX) RADIX;
   Z.rem v1 (Z.quot RADIX 10) * 10 + Z.quot v0 (RADIX * RADIX);
   Z.rem (Z.quot v1 (Z.quot RADIX 10)) RADIX;
   Z.quot v1 (Z.quot RADIX 10 * RADIX)].

(** The scale, p[0] and p[1]. *)
Definition mul_assemble (prod : list Z) : res (Z * Z * Z) :=
  p4 ← res_of (rd prod 4); p5 ← res_of (rd prod 5); p6 ← res_of (rd prod 6);
  p7 ← res_of (rd prod 7); p8 ← res_of (rd prod 8);
  if Z.quot RADIX 10 <=? p8 then
    p0 ← int4 ((Z.rem p6 1000 * RADIX + p5) * Z.quot RADIX 100 + Z.quot p4 100);
    p1 ← int4 ((p8 * RADIX + p7) * Z.quot RADIX 1000 + Z.quot p6 1000);
    Ok (0, p0, p1)
  else
    p0 ← int4 ((Z.rem p6 100 * RADIX + p5) * Z.quot RADIX 10 + Z.quot p4 10);
    p1 ← int4 ((p8 * RADIX + p7) * Z.quot RADIX 100 + Z.quot p6 100);
    Ok (-1, p0, p1).

Definition eb_mul (v0 v1 u0 u1 : Z) : res (Z * Z * Z) :=
  prod ← mul_outer (mul_digits v0 v1) (mul_digits u0 u1) 0 (repeat 0 9);
  mul_assemble prod.

(** * Mantissas: the quotient *)

(** Subtract [qxi] times [xx] from [yx] at [i]: [yx], [borrow]. *)
Fixpoint div_sub (xx : list Z) (qxi i j borrow : Z) (yx : list Z) : res (list Z * Z) :=
  match xx with
  | [] => Ok (yx, borrow)
  | xxj :: xx' =>
      prod ← int4 (qxi * xxj + borrow);
      let borrow := Z.quot prod RADIX in
      y ← res_of (rd yx (i + j));
      let y := y - Z.rem prod RADIX in
      yx ← res_of (wr yx (i + j) (if y <? 0 then y + RADIX else y));
      div_sub xx' qxi i (j + 1) (if y <? 0 then borrow + 1 else borrow) yx
  end.

(** Add [xx] back to [yx] at [i]: [yx], [carry]. *)
Fixpoint div_add (xx : list Z) (i j carry : Z) (yx : list Z) : res (list Z * Z) :=
  match xx with
  | [] => Ok (yx, carry)
  | xxj :: xx' =>
      y ← res_of (rd yx (i + j));
      y ← int4 (y + (xxj + carry));
      yx ← res_of (wr yx (i + j) (Z.rem y RADIX));
      div_add xx' i (j + 1) (Z.quot y RADIX) yx
  end.

(** [while (yx[i+5] < 0)]: the estimate [qxi] comes down by one. *)
Fixpoint div_fix (fuel : nat) (xx : list Z) (i qxi : Z) (yx : list Z) : res (list Z * Z) :=
  top ← res_of (rd yx (i + 5));
  if top <? 0 then
    match fuel with
    | O => Err UB
    | S fuel' =>
        '(yx, carry) ← div_add xx i 0 0 yx;
        top ← res_of (rd yx (i + 5));
        yx ← res_of (wr yx (i + 5) (top + carry));
        div_fix fuel' xx i (qxi - 1) yx
    end
  else Ok (yx, qxi).

(** One digit of the quotient: [yx] and [qx[i]]. *)
Definition div_digit (xx : list Z) (i : Z) (yx : list Z) : res (list Z * Z) :=
  y5 ← res_of (rd yx (i + 5));
  y4 ← res_of (rd yx (i + 4));
  x4 ← res_of (rd xx 4);
  n ← int4 (y5 * RADIX + y4);
  qxi ← (if x4 =? 0 then Err UB else Ok (Z.quot n x4));
  if qxi =? 0 then Ok (yx, qxi)
  else
    '(yx, borrow) ← div_sub xx qxi i 0 0 yx;
    y5 ← res_of (rd yx (i + 5));
    yx ← res_of (wr yx (i + 5) (y5 - borrow));
    div_fix (Z.to_nat qxi) xx i qxi yx.

(** [for (i = 4; i >= 0; i--)], [n] being [i + 1]: the digits [qx], the most
    significant at the end. *)
Fixpoint div_digits (n : nat) (xx yx qx : list Z) : res (list Z) :=
  match n with
  | O => Ok qx
  | S i =>
      '(yx, q) ← div_digit xx (Z.of_nat i) yx;
      div_digits i xx yx (q :: qx)
  end.

(** The digits 4-4-1/3-4-2 of a mantissa. *)
Definition div_split (y0 y1 : Z) : list Z :=
  [Z.rem y0 (Z.quot RADIX 100) * 100; Z.rem (Z.quot y0 (Z.quot RADIX 100)) RADIX;
   Z.rem y1 (Z.quot RADIX 1000) * Z.quot RADIX 10 + Z.quot y0 (Z.quot RADIX 100 * RADIX);
   Z.rem (Z.quot y1 (Z.quot RADIX 1000)) RADIX;
   Z.quot y1 (Z.quot RADIX 1000 * RADIX)].

(** The digits 3-4-2/2-4-3. *)
Definition div_split_low (y0 y1 : Z) : list Z :=
  [Z.rem y0 (Z.quot RADIX 10) * 10; Z.rem (Z.quot y0 (Z.quot RADIX 10)) RADIX;
   Z.rem y1 (Z.quot RADIX 100) * Z.quot RADIX 100 + Z.quot y0 (Z.quot RADIX 10 * RADIX);
   Z.rem (Z.quot y1 (Z.quot RADIX 100)) RADIX;
   Z.quot y1 (Z.quot RADIX 100 * RADIX)].

(** q = y / x: the scale, q[0] and q[1]. *)
Definition eb_div (x0 x1 y0 y1 : Z) : res (Z * Z * Z) :=
  let le := (x1 <? y1) || ((x1 =? y1) && (x0 <=? y0)) in
  let scale := if le then 1 else 0 in
  let yx := repeat 0 5 ++ (if le then div_split_low y0 y1 else div_split y0 y1) in
  qx ← div_digits 5 (div_split x0 x1) yx [];
  q0 ← res_of (rd qx 0); q1 ← res_of (rd qx 1); q2 ← res_of (rd qx 2);
  q3 ← res_of (rd qx 3); q4 ← res_of (rd qx 4);
  r0 ← int4 ((Z.rem q2 1000 * RADIX + q1) * 100 + Z.quot q0 100);
  r1 ← int4 ((q4 * RADIX + q3) * 10 + Z.quot q2 1000);
  Ok (scale, r0, r1).

(** * Lemmas: the conversion of a double to two words *)

Lemma DFLOAT2MINT_opp df t0 t1 :
  DFLOAT2MINT df = Ok (t0, t1) -> 0 <= t0 -> 0 <= t1 -> DFLOAT2MINT (- df) = Ok (- t0, - t1).
Proof.
  unfold DFLOAT2MINT, dtrunc. intros E P0 P1. pose proof ONE_pos.
  apply res_bind_inv in E as (x1 & [-> R1]%int4_inv & E).
  apply res_bind_inv in E as (x0 & [-> R0]%int4_inv & [= <- <-]).
  rewrite !Z.quot_opp_l by lia. rewrite int4_ok by lia. cbn [mbind res_bind].
  assert (dmul (dsub (- df) (dbl (- Z.quot df ONE))) FLO_HI =
          - dmul (dsub df (dbl (Z.quot df ONE))) FLO_HI) as ->.
  { unfold dsub, dmul, dbl. set (q := Z.quot df ONE).
    replace (- df - - q * ONE) with (- (df - q * ONE)) by ring.
    rewrite rnd_opp, Z.mul_opp_l, rnd_opp. done. }
  rewrite Z.quot_opp_l by lia. by rewrite int4_ok by lia.
Qed.

Lemma DFLOAT2MINT_0 : DFLOAT2MINT 0 = Ok (0, 0).
Proof. by vm_compute. Qed.

(** The double nearest to the quotient of two integers. *)
Definition dquot (N D : Z) : Z := rnd (N * ONE * ONE) (D * ONE).

Lemma ddiv_int x D : D <> 0 -> ddiv (dbl x) (dbl D) = Z.sgn x * Z.sgn D * dquot (Z.abs x) (Z.abs D).
Proof.
  intros HD. pose proof ONE_pos. unfold ddiv, dbl, dquot.
  rewrite Z.abs_mul, (Z.abs_eq ONE), Z.sgn_mul, (Z.sgn_pos ONE), Z.mul_1_r by lia.
  destruct (Z.lt_total x 0) as [Hx|[->|Hx]]; [|done|]; destruct (Z.lt_total D 0) as [Hd|[Hd|Hd]];
    try lia; rewrite ?(Z.sgn_neg x), ?(Z.sgn_pos x), ?(Z.sgn_neg D), ?(Z.sgn_pos D),
      ?(Z.abs_neq x), ?(Z.abs_eq x), ?(Z.abs_neq D), ?(Z.abs_eq D) by lia.
  - replace (x * ONE * ONE * -1) with (- x * ONE * ONE) by ring. ring.
  - replace (x * ONE * ONE * 1) with (- (- x * ONE * ONE)) by ring. rewrite rnd_opp. ring.
  - replace (x * ONE * ONE * -1) with (- (x * ONE * ONE)) by ring. rewrite rnd_opp. ring.
  - replace (x * ONE * ONE * 1) with (x * ONE * ONE) by ring. ring.
Qed.

Lemma dquot_exact q D : 0 < D -> 0 <= q < 2 ^ 53 -> dquot (q * D) D = q * ONE.
Proof.
  intros HD Hq. pose proof ONE_pos. unfold dquot.
  replace (q * D * ONE * ONE) with (q * ONE * (D * ONE)) by ring. apply rnd_ONE_exact; nia.
Qed.

(** The error of the quotient, for the sizes met here. *)
Lemma dquot_err N D :
  0 < N < 10 ^ 12 -> 0 < D < 2 ^ 31 -> Z.abs (dquot N D * D - N * ONE) * 9000 <= ONE.
Proof.
  intros HN HD. pose proof ONE_pos as P. pose proof ONE_big as B. unfold dquot.
  assert (E := rnd_err (N * ONE * ONE) (D * ONE) ltac:(nia) ltac:(nia)).
  set (pf := rnd _ _) in *.
  assert (H : Z.abs (pf * (D * ONE) - N * ONE * ONE) * 2 ^ 53 <= N * ONE * ONE).
  { apply E. assert (D * 2 ^ 52 <= N * ONE) by nia. nia. }
  replace (pf * (D * ONE) - N * ONE * ONE) with ((pf * D - N * ONE) * ONE) in H by ring.
  rewrite Z.abs_mul, (Z.abs_eq ONE) in H by lia. set (e := Z.abs (pf * D - N * ONE)) in *.
  assert (e * 2 ^ 53 <= N * ONE).
  { apply (Z.mul_le_mono_pos_r _ _ ONE P). clear - H. lia. }
  assert (N * ONE <= 10 ^ 12 * ONE) by (apply Z.mul_le_mono_nonneg_r; lia). lia.
Qed.

Lemma DFLOAT2MINT_quot N D :
  0 <= N < 10 ^ 12 -> 0 < D < 2 ^ 31 -> N < 10 ^ 9 * D ->
  exists t0, DFLOAT2MINT (dquot N D) = Ok (t0, N / D) /\ 0 <= t0 /\
    (N mod D = 0 -> t0 = 0) /\
    (N mod D <> 0 -> D * 10 ^ 4 <= (N mod D * 10 ^ 4 - 2) * 10 ^ 9 -> t0 <> 0).
Proof.
  intros HN HD Hq. pose proof ONE_pos as P. pose proof ONE_big as B.
  pose proof (Z.div_mod N D ltac:(lia)) as Em. pose proof (Z.mod_pos_bound N D ltac:(lia)) as Hr.
  assert (Hq0 : 0 <= N / D) by (apply Z.div_pos; lia).
  assert (Hq9 : N / D < 10 ^ 9) by (apply Z.div_lt_upper_bound; lia).
  set (q := N / D) in *. set (r := N mod D) in *. unfold DFLOAT2MINT, dtrunc.
  destruct (Z.eq_dec r 0) as [Hr0|Hr0].
  - assert (EN : N = q * D) by lia. replace (dquot N D) with (q * ONE) by (rewrite <- (dquot_exact q D) by lia; f_equal; lia). rewrite Z.quot_mul by lia.
    rewrite int4_ok by lia. cbn [mbind res_bind]. unfold dsub, dbl. rewrite Z.sub_diag, rnd_0.
    unfold dmul. rewrite Z.mul_0_l, rnd_0, Z.quot_0_l by lia. exists 0. rewrite int4_ok by lia.
    repeat split; lia.
  - pose proof (dquot_err N D ltac:(lia) HD) as He. set (pf := dquot N D) in *.
    set (f := pf - q * ONE).
    assert (Hf : Z.abs (f * D - r * ONE) * 9000 <= ONE).
    { replace (f * D - r * ONE) with (pf * D - N * ONE) by (unfold f; rewrite Em; ring). done. }
    assert (Hr1 : 1 * ONE <= r * ONE) by (apply Z.mul_le_mono_nonneg_r; lia).
    assert (Hr2 : (r + 1) * ONE <= D * ONE) by (apply Z.mul_le_mono_nonneg_r; lia).
    assert (Hf0 : 0 < f) by (apply (Z.mul_lt_mono_pos_r D); lia).
    assert (Hf1 : f < ONE) by (apply (Z.mul_lt_mono_pos_r D); lia).
    assert (Z.quot pf ONE = q) as ->.
    { symmetry. apply Z.quot_unique with f; unfold f in *; nia. }
    rewrite int4_ok by lia. cbn [mbind res_bind]. unfold dsub, dbl. fold f.
    pose proof (rnd_err f 1 ltac:(lia) ltac:(lia)) as Hf'.
    assert (Hf52 : 2 ^ 52 <= f).
    { destruct (Z.leb_spec (2 ^ 52) f); [done|].
      assert (f * D <= 2 ^ 52 * 2 ^ 31) by (apply Z.mul_le_mono_nonneg; lia). lia. }
    specialize (Hf' ltac:(lia)). rewrite Z.mul_1_r in Hf'.
    assert (Hu : rnd f 1 <= 1 * ONE) by (apply rnd_ONE_le; lia).
    assert (Hl : 0 <= rnd f 1) by (apply rnd_nonneg; lia). set (f' := rnd f 1) in *.
    unfold dmul, FLO_HI, dbl. set (T := rnd _ _).
    assert (HT0 : 0 <= T) by (apply rnd_nonneg; [lia|apply Z.mul_nonneg_nonneg; lia]).
    assert (HT1 : T <= 1000000000 * ONE).
    { apply rnd_ONE_le; [lia|lia|]. split; [apply Z.mul_nonneg_nonneg; lia|].
      replace (1000000000 * ONE * ONE) with (ONE * (1000000000 * ONE)) by ring.
      apply Z.mul_le_mono_nonneg_r; lia. }
    rewrite Z.quot_div_nonneg by lia.
    assert (0 <= T / ONE) by (apply Z.div_pos; lia).
    assert (T / ONE <= 1000000000) by (apply Z.div_le_upper_bound; lia).
    rewrite int4_ok by lia. eexists. split; [done|]. split; [done|]. split; [done|].
    intros _ Hd. assert (1 * ONE <= T); [|assert (1 <= T / ONE) by (apply Z.div_le_lower_bound; lia); lia].
    apply rnd_ONE_ge; [lia|lia|]. rewrite Z.mul_1_l. replace (f' * (1000000000 * ONE)) with (f' * 1000000000 * ONE) by ring.
    apply Z.mul_le_mono_nonneg_r; [lia|]. apply (Z.mul_le_mono_pos_r _ _ D); [lia|].
    assert (r * ONE * 9000 - ONE <= f * D * 9000) by lia.
    assert ((f - f') * 2 ^ 53 <= f) by lia.
    assert ((f - f') * 2 ^ 53 * D <= f * D) by (apply Z.mul_le_mono_nonneg_r; lia).
    assert (f * D <= r * ONE + ONE) by lia.
    assert (r * ONE <= 2 ^ 31 * ONE) by (apply Z.mul_le_mono_nonneg_r; lia).
    assert (D * 10 ^ 4 * ONE <= (r * 10 ^ 4 - 2) * 10 ^ 9 * ONE) by (apply Z.mul_le_mono_nonneg_r; lia). lia.
Qed.

(** The test of the range of the double, and its words. *)
Lemma dquot_range N D :
  0 <= N < 10 ^ 12 -> 0 < D < 2 ^ 31 -> (dquot N D <? FLO_HI) = (N <? 10 ^ 9 * D).
Proof.
  intros HN HD. pose proof ONE_pos as P. unfold FLO_HI, dbl. destruct (Z.ltb_spec N (10 ^ 9 * D)).
  - apply Z.ltb_lt. destruct (Z.eq_dec N 0) as [->|].
    { unfold dquot. rewrite rnd_0. lia. }
    pose proof (dquot_err N D ltac:(lia) HD) as He. apply (Z.mul_lt_mono_pos_r D); [lia|].
    assert ((N + 1) * ONE <= 10 ^ 9 * D * ONE) by (apply Z.mul_le_mono_nonneg_r; lia). lia.
  - apply Z.ltb_ge. unfold dquot. apply rnd_ONE_ge; [|lia|].
    + apply Z.mul_pos_pos; lia.
    + replace (1000000000 * ONE * (D * ONE)) with (10 ^ 9 * D * ONE * ONE) by (ring_simplify; lia).
      apply Z.mul_le_mono_nonneg_r; [lia|]. apply Z.mul_le_mono_nonneg_r; lia.
Qed.

Lemma ddiv_words x D :
  Z.abs x < 10 ^ 12 -> 0 < Z.abs D < 2 ^ 31 ->
  let qf := ddiv (dbl x) (dbl D) in
  (qf <? FLO_HI) && (- FLO_HI <? qf) = (Z.abs x <? 10 ^ 9 * Z.abs D) /\
  (Z.abs x < 10 ^ 9 * Z.abs D ->
   exists t0, DFLOAT2MINT qf = Ok (t0, Z.quot x D) /\
     (Z.rem x D = 0 -> t0 = 0) /\
     (Z.rem x D <> 0 -> Z.abs D * 10 ^ 4 <= (Z.abs (Z.rem x D) * 10 ^ 4 - 2) * 10 ^ 9 -> t0 <> 0)).
Proof.
  intros Hx HD. cbv zeta. rewrite ddiv_int by lia.
  assert (Hs : x = 0 \/ Z.sgn x * Z.sgn D = 1 \/ Z.sgn x * Z.sgn D = -1) by lia.
  rewrite <- (dquot_range (Z.abs x) (Z.abs D)) by lia.
  pose proof (rnd_nonneg (Z.abs x * ONE * ONE) (Z.abs D * ONE)) as Hp. fold (dquot (Z.abs x) (Z.abs D)) in Hp.
  pose proof ONE_pos as P. specialize (Hp ltac:(nia) ltac:(nia)).
  assert (HF : 0 < FLO_HI) by (unfold FLO_HI, dbl; lia).
  assert (Hq : Z.quot x D = Z.sgn x * Z.sgn D * (Z.abs x / Z.abs D)) by (rewrite <- Z.quot_div; done || lia).
  assert (Hr : Z.abs (Z.rem x D) = Z.abs x mod Z.abs D)
    by (rewrite <- Z.rem_abs, Z.rem_mod_nonneg; lia).
  split.
  - set (pf := dquot _ _) in *. destruct Hs as [->|[->| ->]].
    + unfold pf, dquot. rewrite Z.mul_0_l, !Z.mul_0_l, rnd_0. lia.
    + rewrite Z.mul_1_l. replace (- FLO_HI <? pf) with true by (symmetry; apply Z.ltb_lt; lia).
      apply andb_true_r.
    + replace (-1 * pf <? FLO_HI) with true by (symmetry; apply Z.ltb_lt; lia). simpl.
      destruct (Z.ltb_spec (- FLO_HI) (-1 * pf)), (Z.ltb_spec pf FLO_HI); lia || done.
  - intros Hlt. destruct (DFLOAT2MINT_quot (Z.abs x) (Z.abs D)) as (t0 & E & H0 & Z0 & N0); [lia..|].
    rewrite Hq, Hr. assert (Hd : 0 <= Z.abs x / Z.abs D) by (apply Z.div_pos; lia).
    assert (Hz : Z.rem x D = 0 <-> Z.abs x mod Z.abs D = 0) by lia.
    destruct Hs as [Hs|[->| ->]].
    + exists 0. subst x. change (Z.sgn 0) with 0. rewrite !Z.mul_0_l, DFLOAT2MINT_0.
      split; [done|]. split; [done|]. intros H. by rewrite Z.rem_0_l in H by lia.
    + exists t0. rewrite !Z.mul_1_l. split; [done|]. rewrite Hz. split; [exact Z0|].
      exact N0.
    + exists (- t0). replace (-1 * dquot (Z.abs x) (Z.abs D)) with (- dquot (Z.abs x) (Z.abs D)) by lia.
      rewrite (DFLOAT2MINT_opp _ _ _ E) by done. split; [f_equal; f_equal; lia|]. rewrite Hz.
      split; [intros H; specialize (Z0 H); lia|]. intros Hn Hb. specialize (N0 Hn Hb). lia.
Qed.

(** * The short forms for integers *)

Definition int_range (v : Z) : Prop := - MANT_HI < v < MANT_HI.

Lemma eb_int_mul_spec v u :
  int_range v -> int_range u ->
  eb_int_mul v u =
    Ok (if (Z.abs (v * u) <? 10 ^ 12) && (Z.rem (v * u) 1000 =? 0) then Some (0, Z.quot (v * u) 1000)
        else None).
Proof.
  unfold int_range, MANT_HI, eb_int_mul. intros Hv Hu. pose proof ONE_pos as P.
  rewrite (Z.mul_comm v u). destruct (Z.ltb_spec (Z.abs (u * v)) (10 ^ 12)) as [Hp|Hp]; simpl andb.
  - rewrite dmul_int by lia. destruct (ddiv_words (u * v) 1000) as [Hr Hw]; [lia..|].
    unfold FLO_BIAS. rewrite Hr. replace (_ <? _) with true by (symmetry; apply Z.ltb_lt; lia).
    destruct (Hw ltac:(lia)) as (t0 & -> & Z0 & N0). cbn [mbind res_bind].
    destruct (Z.eqb_spec (Z.rem (u * v) 1000) 0) as [E|E].
    + rewrite Z0 by done. done.
    + assert (Z.abs (Z.rem (u * v) 1000) <> 0) by lia.
      replace (t0 =? 0) with false by (symmetry; apply Z.eqb_neq, N0; [done|lia]). done.
  - assert (HA : exists A, 10 ^ 12 * ONE <= A /\ dmul (dbl u) (dbl v) = Z.sgn (u * v) * A).
    { exists (rnd (Z.abs (u * v) * ONE * ONE) ONE). split.
      - apply rnd_ONE_ge; [lia|lia|]. apply Z.mul_le_mono_nonneg_r; [lia|]. apply Z.mul_le_mono_nonneg_r; lia.
      - unfold dmul, dbl. replace (u * ONE * (v * ONE)) with (u * v * ONE * ONE) by ring.
        set (w := u * v) in *. destruct (Z.lt_total w 0) as [Hw|[Hw|Hw]]; [|lia|].
        + rewrite Z.sgn_neg, Z.abs_neq by lia. replace (w * ONE * ONE) with (- (- w * ONE * ONE)) by ring.
          rewrite rnd_opp. ring.
        + rewrite Z.sgn_pos, Z.abs_eq by lia. ring. }
    destruct HA as (A & HA & ->). set (pf := ddiv _ _).
    assert (HB : exists B, FLO_HI <= B /\ pf = Z.sgn (u * v) * B).
    { unfold pf, ddiv, FLO_BIAS, dbl. rewrite (Z.sgn_pos (1000 * ONE)), Z.mul_1_r, (Z.abs_eq (1000 * ONE)) by lia.
      exists (rnd (A * ONE) (1000 * ONE)). split.
      - unfold FLO_HI, dbl. apply rnd_ONE_ge; [lia|lia|].
        replace (1000000000 * ONE * (1000 * ONE)) with (10 ^ 12 * ONE * ONE) by (ring_simplify; lia).
        apply Z.mul_le_mono_nonneg_r; lia.
      - set (w := u * v) in *. destruct (Z.lt_total w 0) as [Hw|[Hw|Hw]]; [|lia|].
        + rewrite Z.sgn_neg by lia. replace (-1 * A * ONE) with (- (A * ONE)) by ring. rewrite rnd_opp. ring.
        + rewrite Z.sgn_pos by lia. by rewrite !Z.mul_1_l. }
    destruct HB as (B & HB & ->). assert (0 < FLO_HI) by (unfold FLO_HI, dbl; lia).
    set (w := u * v) in *. destruct (Z.lt_total w 0) as [Hw|[Hw|Hw]]; [|lia|].
    + rewrite Z.sgn_neg by lia. replace (- FLO_HI <? -1 * B) with false by (symmetry; apply Z.ltb_ge; lia).
      by rewrite andb_false_r.
    + rewrite Z.sgn_pos by lia. by replace (1 * B <? FLO_HI) with false by (symmetry; apply Z.ltb_ge; lia).
Qed.

Lemma bias_int v : int_range v -> dmul (dbl v) FLO_BIAS = dbl (v * 1000).
Proof. unfold int_range, MANT_HI, FLO_BIAS. intros. apply dmul_int. lia. Qed.

Lemma eb_mvint_div_spec v u :
  int_range v -> int_range u -> u <> 0 ->
  (10 ^ 9 * Z.abs u <= Z.abs (v * 1000) -> eb_mvint_div v u = Ok None) /\
  (Z.abs (v * 1000) < 10 ^ 9 * Z.abs u -> Z.rem (v * 1000) u = 0 ->
   eb_mvint_div v u = Ok (Some (0, Z.quot (v * 1000) u))) /\
  (Z.rem (v * 1000) u <> 0 -> Z.abs u * 10 ^ 4 <= (Z.abs (Z.rem (v * 1000) u) * 10 ^ 4 - 2) * 10 ^ 9 ->
   eb_mvint_div v u = Ok None).
Proof.
  intros Hv Hu H0. unfold eb_mvint_div. rewrite bias_int by done. unfold int_range, MANT_HI in *.
  destruct (ddiv_words (v * 1000) u) as [Hr Hw]; [lia..|]. rewrite Hr.
  destruct (Z.ltb_spec (Z.abs (v * 1000)) (10 ^ 9 * Z.abs u)) as [Hlt|Hge].
  - destruct (Hw Hlt) as (t0 & -> & Z0 & N0). cbn [mbind res_bind]. split; [lia|]. split.
    + intros _ E. by rewrite Z0.
    + intros E Hb. by replace (t0 =? 0) with false by (symmetry; apply Z.eqb_neq, N0; done).
  - split; [done|]. split; [lia|done].
Qed.

Lemma eb_int_div_spec v u :
  int_range v -> int_range u -> u <> 0 ->
  (10 ^ 9 * Z.abs u <= Z.abs (v * 1000) -> eb_int_div v u = Ok None) /\
  (Z.abs (v * 1000) < 10 ^ 9 * Z.abs u ->
   exists q0, eb_int_div v u = Ok (Some (q0, Z.quot v u * 1000))).
Proof.
  intros Hv Hu H0. unfold eb_int_div. rewrite bias_int by done. unfold int_range, MANT_HI in *.
  destruct (ddiv_words (v * 1000) u) as [Hr Hw]; [lia..|]. rewrite Hr.
  destruct (Z.ltb_spec (Z.abs (v * 1000)) (10 ^ 9 * Z.abs u)) as [Hlt|Hge]; (split; [lia || done|]); [|lia].
  intros _. destruct (Hw Hlt) as (t0 & -> & _). cbn [mbind res_bind]. exists t0. do 3 f_equal.
  unfold MV_BIAS. by rewrite (Z.mul_comm v), Z.quot_quot, (Z.mul_comm u), Z.quot_mul_cancel_l by lia.
Qed.

(** The modulus of two integers is the floored one. *)
Lemma eb_int_mod_spec v u :
  int_range v -> int_range u -> u <> 0 -> eb_int_mod v u = Ok (v mod u).
Proof.
  unfold int_range, MANT_HI, eb_int_mod. intros Hv Hu H0.
  replace (u =? 0) with false by (symmetry; by apply Z.eqb_neq).
  destruct (Z.eqb_spec v 0) as [->|Hn]; simpl orb; cbv iota; [by rewrite Z.mod_0_l|].
  pose proof (Z.quot_rem v u H0) as E. pose proof (Z.rem_bound_abs v u H0) as B.
  pose proof (Z.rem_sign_nz v u H0) as Sg.
  set (q := Z.quot v u) in *. set (r := Z.rem v u) in *.
  assert (Hm : v - u * (q - Z.b2z
    (((v <? 0) && (0 <? u) || (0 <? v) && (u <? 0)) && negb (v =? q * u))) = v mod u).
  { destruct (Z.eqb_spec v (q * u)) as [Hr|Hr].
    - rewrite andb_false_r. apply Z.mod_unique with q; cbn [Z.b2z]; lia.
    - assert (r <> 0) by lia. specialize (Sg ltac:(done)). rewrite andb_true_r.
      destruct (Z.ltb_spec v 0), (Z.ltb_spec 0 u), (Z.ltb_spec 0 v), (Z.ltb_spec u 0); try lia;
        simpl andb; simpl orb; cbn [Z.b2z];
        [apply Z.mod_unique with (q - 1) | apply Z.mod_unique with q
        |apply Z.mod_unique with q | apply Z.mod_unique with (q - 1)]; lia. }
  rewrite Hm. apply int4_ok. destruct (Z.lt_total u 0) as [|[|]]; [|lia|].
  - pose proof (Z.mod_neg_bound v u). lia.
  - pose proof (Z.mod_pos_bound v u). lia.
Qed.

(** The reads at constant positions of an explicit list. *)
Ltac rd_compute :=
  repeat match goal with
  | |- context [rd ?l ?i] => let r := eval cbv in (rd l i) in change (rd l i) with r
  end; cbn [res_of mbind res_bind].

(** * Numbers in base 10000, the least significant digit first *)

Fixpoint lval (l : list Z) : Z :=
  match l with
  | [] => 0
  | d :: l' => d + RADIX * lval l'
  end.

Definition digit (d : Z) : Prop := 0 <= d < RADIX.

Lemma radix_pos n : 0 < RADIX ^ Z.of_nat n.
Proof. apply Z.pow_pos_nonneg; unfold RADIX; lia. Qed.

Lemma radix_S n : RADIX ^ Z.of_nat (S n) = RADIX * RADIX ^ Z.of_nat n.
Proof. rewrite Nat2Z.inj_succ, Z.pow_succ_r by lia. done. Qed.

Lemma lval_app l k : lval (l ++ k) = lval l + RADIX ^ Z.of_nat (length l) * lval k.
Proof.
  induction l as [|d l IH]; [simpl; lia|]. cbn [lval app length]. rewrite IH, radix_S. lia.
Qed.

Lemma lval_range l : Forall digit l -> 0 <= lval l < RADIX ^ Z.of_nat (length l).
Proof.
  induction 1 as [|d l Hd Hl IH]; [simpl; lia|]. cbn [lval length]. rewrite radix_S.
  unfold digit, RADIX in *. lia.
Qed.

Lemma lval_zeros n : lval (repeat 0 n) = 0.
Proof. induction n as [|n IH]; [done|]. cbn [repeat lval]. lia. Qed.

(** * The product *)

Lemma mul_inner_spec ms m2j j i carry pre mid post :
  zlen pre = i + j -> length mid = length ms -> Forall digit ms -> Forall digit mid ->
  digit m2j -> digit carry ->
  exists mid' carry',
    mul_inner ms m2j j i carry (pre ++ mid ++ post) = Ok (pre ++ mid' ++ post, carry') /\
    length mid' = length ms /\ Forall digit mid' /\ digit carry' /\
    lval mid' + RADIX ^ Z.of_nat (length ms) * carry' = lval ms * m2j + lval mid + carry.
Proof.
  revert i carry pre mid. induction ms as [|m ms IH]; intros i carry pre mid Hp Hl Hms Hmid Hm Hc.
  { destruct mid; [|done]. exists [], carry. cbn [lval length]. repeat split; try done; try apply Hc. lia. }
  destruct mid as [|p mid]; [done|]. inversion_clear Hms as [|?? Hd Hms']. inversion_clear Hmid as [|?? Hp0 Hmid'].
  cbn [mul_inner app]. rewrite (rd_mid _ _ _ (i + j)) by done. cbn [res_of mbind res_bind].
  unfold digit, RADIX in *. set (acc := m * m2j + p + carry).
  assert (Hacc : 0 <= acc < 100000000) by (unfold acc; nia).
  rewrite int4_ok by lia. cbn [mbind res_bind]. rewrite (wr_mid _ _ _ (i + j)) by done.
  cbn [res_of mbind res_bind].
  rewrite Z.rem_mod_nonneg, Z.quot_div_nonneg by lia.
  pose proof (Z.div_mod acc 10000 ltac:(lia)) as E. pose proof (Z.mod_pos_bound acc 10000 ltac:(lia)) as B.
  assert (0 <= acc / 10000 < 10000) by lia.
  destruct (IH (i + 1) (acc / 10000) (pre ++ [acc mod 10000]) mid) as (mid' & carry' & E' & L & D & C & V);
    try done; [rewrite zlen_app; unfold zlen in *; simpl; lia|simpl in Hl; lia|].
  rewrite <- !app_assoc in E'. cbn [app] in E'. rewrite E'.
  exists (acc mod 10000 :: mid'), carry'. cbn [length lval].
  split; [done|]. split; [lia|]. split; [by constructor|]. split; [done|].
  rewrite radix_S. unfold RADIX. unfold acc in *. lia.
Qed.

Lemma repeat_S_tail {A} (x : A) n : repeat x (S n) = x :: repeat x n.
Proof. done. Qed.

Lemma mul_outer_spec m1 m2 j pre mid k :
  length m1 = 5%nat -> Forall digit m1 -> Forall digit m2 ->
  zlen pre = j -> length mid = 5%nat -> Forall digit pre -> Forall digit mid ->
  length m2 = S k -> zlen pre + Z.of_nat k = 4 ->
  lval (pre ++ mid) + RADIX ^ j * (lval m1 * lval m2) < RADIX ^ 9 ->
  exists prod, mul_outer m1 m2 j (pre ++ mid ++ repeat 0 k) = Ok prod /\
    length prod = 9%nat /\ Forall digit prod /\
    lval prod = lval (pre ++ mid) + RADIX ^ j * (lval m1 * lval m2).
Proof.
  intros H5 Hm1. revert j pre mid k. induction m2 as [|d m2 IH]; intros j pre mid k Hm2 Hj Hmid Dp Dm Hk Hs Hb; [done|].
  inversion_clear Hm2 as [|?? Hd Hm2']. cbn [mul_outer].
  assert (Hstep : exists mid' c,
    (if d =? 0 then Ok (pre ++ mid ++ repeat 0 k)
     else '(prod, carry) ← mul_inner m1 d j 0 0 (pre ++ mid ++ repeat 0 k);
       if 5 + j <? 9 then res_of (wr prod (5 + j) carry) else Ok prod) =
    Ok (pre ++ mid' ++ match k with O => [] | S k' => c :: repeat 0 k' end) /\
    length mid' = 5%nat /\ Forall digit mid' /\ digit c /\
    lval mid' + RADIX ^ 5 * c = lval m1 * d + lval mid).
  { destruct (Z.eqb_spec d 0) as [->|Hd0].
    { exists mid, 0. split; [by destruct k|]. split; [done|]. split; [done|].
      split; [unfold digit, RADIX; lia|lia]. }
    destruct (mul_inner_spec m1 d j 0 0 pre mid (repeat 0 k)) as (mid' & c & -> & L & D & C & V);
      try done; try lia.
    cbn [mbind res_bind]. exists mid', c. rewrite H5 in V. split; [|split; [lia|split; [done|split; [done|lia]]]].
    destruct k as [|k]; cbn [repeat].
    - replace (5 + j <? 9) with false by (symmetry; apply Z.ltb_ge; lia). done.
    - replace (5 + j <? 9) with true by (symmetry; apply Z.ltb_lt; lia).
      rewrite app_assoc, (wr_mid _ _ _ (5 + j)); [by rewrite <- app_assoc|].
      rewrite zlen_app. unfold zlen in *. lia. }
  destruct Hstep as (mid' & c & -> & L & D & C & V). cbn [mbind res_bind].
  rewrite lval_app in *. assert (Hlp : RADIX ^ Z.of_nat (length pre) = RADIX ^ j) by (f_equal; done).
  rewrite Hlp in *. cbn [lval] in *.
  destruct k as [|k].
  - assert (m2 = []) as -> by (destruct m2; done). cbn [mul_outer lval] in *. rewrite app_nil_r.
    assert (j = 4) as -> by lia. eexists. split; [done|]. rewrite length_app, L. unfold zlen in Hj.
    split; [lia|]. split; [by apply Forall_app|]. rewrite lval_app, Hlp.
    pose proof (lval_range pre Dp) as R1. pose proof (lval_range mid' D) as R2. rewrite L in R2. rewrite Hlp in R1.
    change (RADIX ^ Z.of_nat 5) with 100000000000000000000 in *. change (RADIX ^ 5) with 100000000000000000000 in *.
    change (RADIX ^ 4) with 10000000000000000 in *. change (RADIX ^ 9) with 1000000000000000000000000000000000000 in *.
    unfold digit, RADIX in *. assert (c = 0) as -> by lia. lia.
  - destruct mid' as [|d0 mid']; [done|]. inversion_clear D as [|?? D0 D'].
    assert (Ev : lval ((pre ++ [d0]) ++ mid' ++ [c]) + RADIX ^ (j + 1) * (lval m1 * lval m2) =
                 lval pre + RADIX ^ j * lval mid + RADIX ^ j * (lval m1 * (d + RADIX * lval m2))).
    { replace ((pre ++ [d0]) ++ mid' ++ [c]) with (pre ++ (d0 :: mid') ++ [c]) by (by rewrite <- app_assoc).
      rewrite lval_app, Hlp, lval_app. replace (Z.of_nat (length (d0 :: mid'))) with 5 by lia.
      replace (lval (d0 :: mid')) with (lval m1 * d + lval mid - RADIX ^ 5 * c) by lia.
      rewrite (Z.pow_add_r RADIX j 1) by (unfold zlen in *; lia). cbn [lval]. rewrite Z.pow_1_r. ring. }
    assert (Hl : zlen (pre ++ [d0]) = j + 1 /\ length (mid' ++ [c]) = 5%nat /\ length m2 = S k /\
                 zlen (pre ++ [d0]) + Z.of_nat k = 4).
    { clear - Hj L Hk Hs. rewrite zlen_app, length_app. change (zlen [d0]) with 1. simpl in *. lia. }
    destruct Hl as (L1 & L2 & L3 & L4).
    destruct (IH (j + 1) (pre ++ [d0]) (mid' ++ [c]) k) as (prod & E & L' & D2 & V');
      try done; try (apply Forall_app; split; [done|]; by constructor); [by rewrite Ev|].
    exists prod. rewrite <- Ev, <- V'. split; [|done]. rewrite <- E. f_equal. by rewrite <- !app_assoc.
Qed.

Lemma mul_digits_spec v0 v1 :
  0 <= v0 < MANT_HI -> 0 <= v1 < MANT_HI ->
  length (mul_digits v0 v1) = 5%nat /\ Forall digit (mul_digits v0 v1) /\
  lval (mul_digits v0 v1) = mag v1 v0.
Proof.
  unfold MANT_HI, mul_digits, mag, digit, RADIX. intros H0 H1.
  change (Z.quot 10000 10) with 1000. change (1000 * 10000) with 10000000. change (10000 * 10000) with 100000000.
  rewrite !Z.rem_mod_nonneg, !Z.quot_div_nonneg by (try apply Z.quot_pos; lia).
  split; [done|]. split; [repeat apply Forall_cons_2; try apply Forall_nil_2; cbn beta; Z.to_euclidean_division_equations; lia|].
  cbn [lval]. unfold RADIX, MANT_HI. Z.to_euclidean_division_equations; lia.
Qed.

Lemma mul_assemble_spec prod P :
  length prod = 9%nat -> Forall digit prod -> lval prod = P ->
  exists p0 p1, mul_assemble prod = Ok (if 10 ^ 35 <=? P then 0 else -1, p0, p1) /\
    0 <= p1 < MANT_HI /\ 0 <= p0 < MANT_HI /\
    mag p1 p0 = P / (if 10 ^ 35 <=? P then 10 ^ 18 else 10 ^ 17).
Proof.
  intros HL HD <-. do 9 (destruct prod as [|? prod]; [done|]). destruct prod; [|done].
  repeat match goal with H : Forall digit (_ :: _) |- _ => inversion_clear H end.
  unfold mul_assemble, digit, RADIX, mag, MANT_HI in *.
  change (Z.quot 10000 10) with 1000. change (Z.quot 10000 100) with 100. change (Z.quot 10000 1000) with 10.
  rd_compute.
  assert (Hc : (1000 <=? z7) = (10 ^ 35 <=? lval [z; z0; z1; z2; z3; z4; z5; z6; z7])).
  { cbn [lval]. unfold RADIX. destruct (Z.leb_spec 1000 z7); symmetry; [apply Z.leb_le|apply Z.leb_gt]; lia. }
  rewrite <- Hc. cbn [lval]. unfold RADIX.
  pose proof (Z.div_mod z5 1000 ltac:(lia)). pose proof (Z.mod_pos_bound z5 1000 ltac:(lia)).
  pose proof (Z.div_mod z5 100 ltac:(lia)). pose proof (Z.mod_pos_bound z5 100 ltac:(lia)).
  pose proof (Z.div_mod z3 10 ltac:(lia)). pose proof (Z.mod_pos_bound z3 10 ltac:(lia)).
  pose proof (Z.div_mod z3 100 ltac:(lia)). pose proof (Z.mod_pos_bound z3 100 ltac:(lia)).
  destruct (Z.leb_spec 1000 z7); rewrite !Z.rem_mod_nonneg, !Z.quot_div_nonneg by lia;
    (rewrite int4_ok by lia; cbn [mbind res_bind]; rewrite int4_ok by lia; cbn [mbind res_bind];
     do 2 eexists; split; [done|]; split; [lia|]; split; [lia|]).
  - apply Z.div_unique with (z + 10000 * (z0 + 10000 * (z1 + 10000 * (z2 + 10000 * (z3 mod 100))))); lia.
  - apply Z.div_unique with (z + 10000 * (z0 + 10000 * (z1 + 10000 * (z2 + 10000 * (z3 mod 10))))); lia.
Qed.

(** The whole product of two mantissas, cut below eighteen digits. *)
Lemma eb_mul_spec v0 v1 u0 u1 :
  0 <= v0 < MANT_HI -> 0 <= v1 < MANT_HI -> 0 <= u0 < MANT_HI -> 0 <= u1 < MANT_HI ->
  let P := mag v1 v0 * mag u1 u0 in
  exists p0 p1, eb_mul v0 v1 u0 u1 = Ok (if 10 ^ 35 <=? P then 0 else -1, p0, p1) /\
    0 <= p1 < MANT_HI /\ 0 <= p0 < MANT_HI /\
    mag p1 p0 = P / (if 10 ^ 35 <=? P then 10 ^ 18 else 10 ^ 17).
Proof.
  intros A0 A1 B0 B1 P. unfold eb_mul.
  destruct (mul_digits_spec v0 v1 A0 A1) as (L1 & D1 & V1).
  destruct (mul_digits_spec u0 u1 B0 B1) as (L2 & D2 & V2).
  assert (HP : 0 <= mag v1 v0 < 10 ^ 18 /\ 0 <= mag u1 u0 < 10 ^ 18)
    by (unfold mag, MANT_HI in *; lia).
  destruct (mul_outer_spec (mul_digits v0 v1) (mul_digits u0 u1) 0 [] (repeat 0 5) 4)
    as (prod & E & L & D & V); try done.
  - by repeat constructor.
  - rewrite V1, V2. change (lval ([] ++ repeat 0 5)) with 0. change (RADIX ^ 0) with 1.
    change (RADIX ^ 9) with (10 ^ 18 * 10 ^ 18). nia.
  - change ([] ++ repeat 0 5 ++ repeat 0 4) with (repeat 0 9) in E. rewrite E. cbn [mbind res_bind].
    apply mul_assemble_spec; [done|done|]. rewrite V, V1, V2.
    change (lval ([] ++ repeat 0 5)) with 0. change (RADIX ^ 0) with 1. unfold P. lia.
Qed.

(** * The quotient *)

Lemma div_sub_spec xs q i j borrow pre mid post :
  zlen pre = i + j -> length mid = length xs -> Forall digit xs -> Forall digit mid ->
  0 <= q <= 12000 -> 0 <= borrow <= q + 1 ->
  exists mid' b, div_sub xs q i j borrow (pre ++ mid ++ post) = Ok (pre ++ mid' ++ post, b) /\
    length mid' = length xs /\ Forall digit mid' /\ 0 <= b <= q + 1 /\
    lval mid' - RADIX ^ Z.of_nat (length xs) * b = lval mid - q * lval xs - borrow.
Proof.
  intros Hp Hl Hxs. revert j borrow pre mid Hp Hl.
  induction Hxs as [|x xs Hx Hxs IH]; intros j borrow pre mid Hp Hl Hmid Hq Hb.
  { destruct mid; [|done]. exists [], borrow. cbn [lval length]. repeat split; try done; lia. }
  destruct mid as [|y mid]; [done|]. inversion_clear Hmid as [|?? Hy Hmid'].
  cbn [div_sub app]. unfold digit, RADIX in *. set (prod := q * x + borrow).
  assert (Hr : 0 <= prod <= 10000 * q + 1) by (unfold prod; nia).
  rewrite int4_ok by lia. cbn [mbind res_bind]. rewrite (rd_mid _ _ _ (i + j)) by done.
  cbn [res_of mbind res_bind]. rewrite (wr_mid _ _ _ (i + j)) by done. cbn [res_of mbind res_bind].
  rewrite Z.rem_mod_nonneg, Z.quot_div_nonneg by lia.
  pose proof (Z.div_mod prod 10000 ltac:(lia)) as E. pose proof (Z.mod_pos_bound prod 10000 ltac:(lia)) as B.
  assert (0 <= prod / 10000 <= q) by lia.
  set (y' := if y - prod mod 10000 <? 0 then y - prod mod 10000 + 10000 else y - prod mod 10000).
  set (b' := if y - prod mod 10000 <? 0 then prod / 10000 + 1 else prod / 10000).
  assert (Hy' : 0 <= y' < 10000 /\ 0 <= b' <= q + 1 /\ y' - 10000 * b' = y - prod)
    by (unfold y', b'; destruct (Z.ltb_spec (y - prod mod 10000) 0); lia).
  destruct Hy' as (Hy1 & Hb1 & Hyb).
  destruct (IH (j + 1) b' (pre ++ [y']) mid) as (mid' & b & E' & L & D & C & V);
    try done; [rewrite zlen_app; change (zlen [y']) with 1; lia|simpl in Hl; lia|].
  rewrite <- !app_assoc in E'. cbn [app] in E'. rewrite E'. exists (y' :: mid'), b. cbn [length lval].
  split; [done|]. split; [lia|]. split; [by constructor|]. split; [done|].
  rewrite radix_S. unfold RADIX in *. unfold prod in *. clear - V Hyb. lia.
Qed.

Lemma div_add_spec xs i j carry pre mid post :
  zlen pre = i + j -> length mid = length xs -> Forall digit xs -> Forall digit mid -> 0 <= carry <= 1 ->
  exists mid' c, div_add xs i j carry (pre ++ mid ++ post) = Ok (pre ++ mid' ++ post, c) /\
    length mid' = length xs /\ Forall digit mid' /\ 0 <= c <= 1 /\
    lval mid' + RADIX ^ Z.of_nat (length xs) * c = lval mid + lval xs + carry.
Proof.
  intros Hp Hl Hxs. revert j carry pre mid Hp Hl.
  induction Hxs as [|x xs Hx Hxs IH]; intros j carry pre mid Hp Hl Hmid Hc.
  { destruct mid; [|done]. exists [], carry. cbn [lval length]. repeat split; try done; lia. }
  destruct mid as [|y mid]; [done|]. inversion_clear Hmid as [|?? Hy Hmid'].
  cbn [div_add app]. rewrite (rd_mid _ _ _ (i + j)) by done. cbn [res_of mbind res_bind].
  unfold digit, RADIX in *. set (s := y + (x + carry)). rewrite int4_ok by (unfold s; lia).
  cbn [mbind res_bind]. rewrite (wr_mid _ _ _ (i + j)) by done. cbn [res_of mbind res_bind].
  rewrite Z.rem_mod_nonneg, Z.quot_div_nonneg by (unfold s; lia).
  pose proof (Z.div_mod s 10000 ltac:(lia)) as E. pose proof (Z.mod_pos_bound s 10000 ltac:(lia)) as B.
  assert (0 <= s / 10000 <= 1) by (unfold s in *; lia).
  destruct (IH (j + 1) (s / 10000) (pre ++ [s mod 10000]) mid) as (mid' & c & E' & L & D & C & V);
    try done; [rewrite zlen_app; change (zlen [s mod 10000]) with 1; lia|simpl in Hl; lia|].
  rewrite <- !app_assoc in E'. cbn [app] in E'. rewrite E'. exists (s mod 10000 :: mid'), c. cbn [length lval].
  split; [done|]. split; [lia|]. split; [by constructor|]. split; [done|].
  rewrite radix_S. unfold RADIX in *. unfold s in *. clear - V E. lia.
Qed.

Lemma five_digits (l : list Z) x4 :
  length l = 5%nat -> rd l 4 = Some x4 -> exists a b c d, l = [a; b; c; d; x4].
Proof.
  intros H E. do 5 (destruct l as [|? l]; [done|]). destruct l; [|done].
  cbv in E. injection E as <-. eauto.
Qed.

Section Divisor.
Context (xs : list Z) (Hxs : Forall digit xs) (H5 : length xs = 5%nat).
Let X := lval xs.
Context (HX : 0 < X).

Lemma div_fix_spec fuel i q pre mid top post :
  zlen pre = i -> length mid = 5%nat -> Forall digit mid ->
  let W := lval mid + RADIX ^ 5 * top in
  0 <= W + Z.of_nat fuel * X -> W < X ->
  exists mid' q', div_fix fuel xs i q (pre ++ mid ++ top :: post) = Ok (pre ++ mid' ++ 0 :: post, q') /\
    length mid' = 5%nat /\ Forall digit mid' /\ q' * X + lval mid' = q * X + W /\ lval mid' < X.
Proof.
  revert q mid top. induction fuel as [|fuel IH]; intros q mid top Hp Hm Dm W HW0 HWX;
    pose proof (lval_range mid Dm) as Rm; pose proof (lval_range xs Hxs) as RX; fold X in RX;
    rewrite Hm in Rm; rewrite H5 in RX; change (RADIX ^ Z.of_nat 5) with 100000000000000000000 in *;
    change (RADIX ^ 5) with 100000000000000000000 in *; cbn [div_fix];
    rewrite app_assoc, (rd_mid _ _ _ (i + 5)) by (rewrite zlen_app; unfold zlen in *; lia);
    cbn [res_of mbind res_bind]; rewrite <- app_assoc.
  - assert (top = 0) as -> by (unfold W in *; lia). exists mid, q. simpl.
    split; [done|]. split; [done|]. split; [done|]. unfold W in *. lia.
  - destruct (Z.ltb_spec top 0) as [Ht|Ht].
    + destruct (div_add_spec xs i 0 0 pre mid (top :: post)) as (mid' & c & -> & L & D & C & V);
        try done; try lia.
      cbn [mbind res_bind]. rewrite H5 in L, V. change (RADIX ^ Z.of_nat 5) with 100000000000000000000 in *.
      rewrite app_assoc, (rd_mid _ _ _ (i + 5)) by (rewrite zlen_app; unfold zlen in *; lia).
      cbn [res_of mbind res_bind].
      rewrite (wr_mid _ _ _ (i + 5)) by (rewrite zlen_app; unfold zlen in *; lia).
      cbn [res_of mbind res_bind]. rewrite <- app_assoc.
      pose proof (lval_range mid' D) as R'. rewrite L in R'.
      change (RADIX ^ Z.of_nat 5) with 100000000000000000000 in *. fold X in V.
      destruct (IH (q - 1) mid' (top + c) Hp L D) as (m2 & q2 & -> & L2 & D2 & E2 & B2);
        change (RADIX ^ 5) with 100000000000000000000 in *; unfold W in *; [lia|lia|].
      exists m2, q2. split; [done|]. split; [done|]. split; [done|]. lia.
    + assert (top = 0) as -> by (unfold W in *; lia). exists mid, q.
      split; [done|]. split; [done|]. split; [done|]. unfold W in *. lia.
Qed.
Context (x4 : Z) (Hx4 : rd xs 4 = Some x4) (Hx : 1000 <= x4).

Lemma divisor_bounds : x4 * RADIX ^ 4 <= X < (x4 + 1) * RADIX ^ 4 /\ x4 < RADIX.
Proof.
  destruct (five_digits xs x4 H5 Hx4) as (a & b & c & d & E). unfold X. clear HX.
  rewrite E in Hxs |- *.
  repeat match goal with H : Forall digit (_ :: _) |- _ => inversion_clear H end.
  unfold digit, RADIX in *. cbn [lval]. unfold RADIX. lia.
Qed.

(** The estimate is the digit of the quotient or somewhat more. *)
Lemma div_estimate low y4 y5 :
  0 <= low < RADIX ^ 4 -> digit y4 -> digit y5 ->
  let Y := low + RADIX ^ 4 * y4 + RADIX ^ 5 * y5 in
  Y < RADIX * X ->
  Y / X <= (y5 * RADIX + y4) / x4 <= 12000.
Proof.
  intros Hl H4 Hy5 Y HY. destruct divisor_bounds as [[B1 B2] B3]. unfold digit, RADIX in *.
  change (10000 ^ 4) with 10000000000000000 in *. change (10000 ^ 5) with 100000000000000000000 in *.
  set (n := y5 * 10000 + y4). assert (HnY : n * 10000000000000000 <= Y < (n + 1) * 10000000000000000)
    by (unfold n, Y; lia).
  assert (0 <= Y) by (unfold Y; lia).
  split.
  - apply Z.div_le_lower_bound; [lia|].
    pose proof (Z.mul_div_le Y X HX) as HQ. set (Q := Y / X) in *.
    assert (0 <= Q) by (apply Z.div_pos; lia).
    assert (x4 * Q * 10000000000000000 <= X * Q) by (clear - B1 H0; nia). lia.
  - apply Z.div_le_upper_bound; lia.
Qed.

(** An estimate that is not too small, brought down to the digit. *)
Lemma div_reduce i qh pre mid y5 post :
  zlen pre = i -> length mid = 5%nat -> Forall digit mid ->
  let Y := lval mid + RADIX ^ 5 * y5 in
  0 <= Y -> Y / X <= qh <= 12000 ->
  exists mid' q',
    ('(yx, borrow) ← div_sub xs qh i 0 0 (pre ++ mid ++ y5 :: post);
     y5 ← res_of (rd yx (i + 5));
     yx ← res_of (wr yx (i + 5) (y5 - borrow));
     div_fix (Z.to_nat qh) xs i qh yx) = Ok (pre ++ mid' ++ 0 :: post, q') /\
    length mid' = 5%nat /\ Forall digit mid' /\ q' = Y / X /\ lval mid' = Y mod X.
Proof.
  intros Hp Hm Dm Y HY Hq.
  pose proof (Z.div_mod Y X ltac:(lia)) as EM. pose proof (Z.mod_pos_bound Y X HX) as BM.
  assert (0 <= Y / X) by (apply Z.div_pos; lia).
  destruct (div_sub_spec xs qh i 0 0 pre mid (y5 :: post)) as (m1 & b & -> & L & D & C & V);
    try done; try lia.
  cbn [mbind res_bind]. rewrite H5 in L, V. change (RADIX ^ Z.of_nat 5) with (RADIX ^ 5) in V.
  assert (R5 : i + 5 = zlen (pre ++ m1)) by (rewrite zlen_app; unfold zlen in *; lia).
  rewrite (app_assoc pre m1), (rd_mid _ _ _ (i + 5)) by done. cbn [res_of mbind res_bind].
  rewrite (wr_mid _ _ _ (i + 5)) by done. cbn [res_of mbind res_bind].
  rewrite <- (app_assoc pre m1). fold X in V.
  assert (EW : lval m1 + RADIX ^ 5 * (y5 - b) = Y - qh * X) by (unfold Y; lia).
  assert (Y / X * X <= qh * X) by (apply Z.mul_le_mono_nonneg_r; lia).
  destruct (div_fix_spec (Z.to_nat qh) i qh pre m1 (y5 - b) post Hp L D)
    as (m2 & q' & -> & L2 & D2 & E2 & B2); rewrite ?EW; [rewrite Z2Nat.id by lia; lia|lia|].
  rewrite EW in E2. pose proof (lval_range m2 D2) as R2.
  exists m2, q'. split; [done|]. split; [done|]. split; [done|].
  split; [apply Z.div_unique with (lval m2); lia | apply Z.mod_unique with q'; lia].
Qed.

Lemma div_digit_spec i pre mid post :
  zlen pre = i -> length mid = 6%nat -> Forall digit mid -> lval mid < RADIX * X ->
  exists mid', div_digit xs i (pre ++ mid ++ post) = Ok (pre ++ mid' ++ 0 :: post, lval mid / X) /\
    length mid' = 5%nat /\ Forall digit mid' /\ lval mid' = lval mid mod X.
Proof.
  intros Hp Hm Dm HY. pose proof (lval_range mid Dm) as RY. destruct divisor_bounds as [B1 B3].
  assert (Hsplit : exists low y4 y5, mid = low ++ [y4; y5] /\ length low = 4%nat).
  { do 6 (destruct mid as [|? mid]; [done|]). destruct mid; [|done].
    by exists [z; z0; z1; z2], z3, z4. }
  destruct Hsplit as (low & y4 & y5 & Hlow & L4).
  assert (Dl : Forall digit low /\ digit y4 /\ digit y5).
  { rewrite Hlow in Dm. apply Forall_app in Dm as [? D2]. inversion_clear D2 as [|?? ? D3].
    by inversion_clear D3. }
  destruct Dl as (Dl & D4 & D5). pose proof (lval_range low Dl) as Rl. rewrite L4 in Rl.
  assert (EY : lval mid = lval low + RADIX ^ 4 * y4 + RADIX ^ 5 * y5).
  { rewrite Hlow, lval_app, L4. cbn [lval]. change (RADIX ^ Z.of_nat 4) with (RADIX ^ 4).
    change (RADIX ^ 5) with (RADIX ^ 4 * RADIX). ring. }
  pose proof (div_estimate (lval low) y4 y5 Rl D4 D5) as Es. cbv zeta in Es. rewrite <- EY in Es.
  specialize (Es HY). set (Y := lval mid) in *.
  assert (Elist : pre ++ mid ++ post = pre ++ (low ++ [y4]) ++ y5 :: post)
    by (rewrite Hlow, <- !app_assoc; done).
  assert (Lm : length (low ++ [y4]) = 5%nat) by (rewrite length_app; simpl; lia).
  assert (Dm5 : Forall digit (low ++ [y4])) by (apply Forall_app; split; [done|by constructor]).
  assert (EY5 : Y = lval (low ++ [y4]) + RADIX ^ 5 * y5).
  { rewrite EY, lval_app, L4. cbn [lval]. change (RADIX ^ Z.of_nat 4) with (RADIX ^ 4). ring. }
  assert (R5 : forall m2 : list Z, length m2 = 5%nat -> i + 5 = zlen (pre ++ m2))
    by (intros m2 Hm2; rewrite zlen_app; unfold zlen in *; lia).
  rewrite Elist. unfold div_digit.
  rewrite (app_assoc pre (low ++ [y4])), (rd_mid _ _ _ (i + 5)) by (by apply R5). cbn [res_of mbind res_bind].
  rewrite <- !app_assoc, (app_assoc pre low).
  cbn [app]. rewrite (rd_mid (pre ++ low) y4 _ (i + 4)) by (rewrite zlen_app; unfold zlen in *; lia).
  cbn [res_of mbind res_bind]. rewrite Hx4. cbn [res_of mbind res_bind].
  unfold digit in D4, D5. rewrite int4_ok by (unfold RADIX in *; lia). cbn [mbind res_bind].
  replace (x4 =? 0) with false by (symmetry; apply Z.eqb_neq; lia). cbn [mbind res_bind].
  rewrite Z.quot_div_nonneg by (unfold RADIX in *; lia). set (qh := (y5 * RADIX + y4) / x4) in *.
  pose proof (Z.div_mod Y X ltac:(lia)) as EM. pose proof (Z.mod_pos_bound Y X HX) as BM.
  assert (0 <= Y / X) by (apply Z.div_pos; lia).
  pose proof (lval_range _ Dm5) as R. rewrite Lm in R. change (RADIX ^ Z.of_nat 5) with (RADIX ^ 5) in R.
  replace ((pre ++ low) ++ y4 :: y5 :: post) with (pre ++ (low ++ [y4]) ++ y5 :: post)
    by (rewrite <- !app_assoc; done).
  assert (B4 : X < RADIX ^ 5).
  { pose proof (lval_range xs Hxs) as Rx. rewrite H5 in Rx. apply Rx. }
  destruct (Z.eqb_spec qh 0) as [Hq|Hq].
  - assert (Y / X = 0) as E0 by lia. rewrite E0 in *. rewrite Z.mul_0_r, Z.add_0_l in EM. rewrite <- EM in *.
    change (RADIX ^ 5) with 100000000000000000000 in *.
    assert (y5 = 0) as -> by (unfold RADIX in *; lia).
    exists (low ++ [y4]). rewrite Hq. split; [done|]. split; [done|]. split; [done|]. lia.
  - destruct (div_reduce i qh pre (low ++ [y4]) y5 post Hp Lm Dm5) as (m2 & q' & E & L2 & D2 & Q2 & V2);
      rewrite <- ?EY5; try done; [lia|].
    rewrite <- EY5 in Q2, V2. subst q'. by exists m2.
Qed.

Lemma div_digits_spec n pre wd post qx :
  length pre = n -> length wd = 5%nat -> Forall digit pre -> Forall digit wd -> lval wd < X ->
  exists qs, div_digits n xs (pre ++ wd ++ post) qx = Ok (qs ++ qx) /\ length qs = n /\
    Forall digit qs /\ lval qs = (lval pre + RADIX ^ Z.of_nat n * lval wd) / X.
Proof.
  revert pre wd post qx. induction n as [|n IH]; intros pre wd post qx Hp Hw Dp Dw HX'.
  { destruct pre; [|done]. exists []. cbn [lval div_digits length app]. repeat split; try done.
    pose proof (lval_range wd Dw). rewrite Z.div_small; [done|]. simpl. lia. }
  assert (Hs : exists pre' d, pre = pre' ++ [d] /\ length pre' = n).
  { destruct (exists_last (l := pre)) as (pre' & d & ->); [by intros ->|]. exists pre', d.
    rewrite length_app in Hp. simpl in Hp. split; [done|lia]. }
  destruct Hs as (pre' & d & -> & Hn). apply Forall_app in Dp as [Dp' Dd]. inversion_clear Dd as [|?? Hd _].
  cbn [div_digits]. rewrite <- app_assoc. change ([d] ++ wd ++ post) with ((d :: wd) ++ post).
  pose proof (lval_range wd Dw) as Rw. unfold digit in Hd.
  destruct (div_digit_spec (Z.of_nat n) pre' (d :: wd) post) as (mid' & -> & L & D & V);
    [unfold zlen; lia|simpl; lia|by constructor|cbn [lval]; unfold RADIX in *; lia|].
  cbn [mbind res_bind].
  pose proof (Z.mod_pos_bound (lval (d :: wd)) X HX) as BM.
  pose proof (Z.div_mod (lval (d :: wd)) X ltac:(lia)) as EM.
  destruct (IH pre' mid' (0 :: post) (lval (d :: wd) / X :: qx) Hn L Dp' D ltac:(lia))
    as (qs & -> & Lq & Dq & Vq).
  assert (Hy : 0 <= lval (d :: wd) < RADIX * X) by (cbn [lval]; unfold RADIX in *; lia).
  exists (qs ++ [lval (d :: wd) / X]). split; [by rewrite <- app_assoc|].
  split; [rewrite length_app; simpl; lia|]. split.
  { apply Forall_app; split; [done|]. constructor; [|done]. split; [apply Z.div_pos; lia|].
    apply Z.div_lt_upper_bound; lia. }
  rewrite !lval_app, Lq, Vq, Hn. rewrite V in *. set (q := lval (d :: wd) / X) in *.
  set (r := lval (d :: wd) mod X) in *.
  change (lval [q]) with (q + RADIX * 0). change (lval [d]) with (d + RADIX * 0).
  rewrite radix_S. cbn [lval] in EM. set (P := RADIX ^ Z.of_nat n) in *.
  replace (lval pre' + P * (d + RADIX * 0) + RADIX * P * lval wd) with
    (P * q * X + (lval pre' + P * r)) by (replace (d + RADIX * 0) with (X * q + r - RADIX * lval wd) by lia; ring).
  rewrite Z.div_add_l by lia. lia.
Qed.
End Divisor.

Lemma div_split_spec y0 y1 :
  0 <= y0 < MANT_HI -> 0 <= y1 < MANT_HI ->
  length (div_split y0 y1) = 5%nat /\ Forall digit (div_split y0 y1) /\
  lval (div_split y0 y1) = mag y1 y0 * 100 /\ rd (div_split y0 y1) 4 = Some (y1 / 100000).
Proof.
  unfold div_split, MANT_HI, mag, digit, RADIX. intros H0 H1.
  change (Z.quot 10000 100) with 100. change (Z.quot 10000 1000) with 10. change (Z.quot 10000 10) with 1000.
  change (10 * 10000) with 100000. change (100 * 10000) with 1000000.
  rewrite !Z.rem_mod_nonneg, !Z.quot_div_nonneg by (try apply Z.quot_pos; lia).
  split; [done|]. split; [repeat apply Forall_cons_2; try apply Forall_nil_2; cbn beta; Z.to_euclidean_division_equations; lia|].
  split; [|done]. cbn [lval]. unfold RADIX, MANT_HI. Z.to_euclidean_division_equations; lia.
Qed.

Lemma div_split_low_spec y0 y1 :
  0 <= y0 < MANT_HI -> 0 <= y1 < MANT_HI ->
  length (div_split_low y0 y1) = 5%nat /\ Forall digit (div_split_low y0 y1) /\
  lval (div_split_low y0 y1) = mag y1 y0 * 10.
Proof.
  unfold div_split_low, MANT_HI, mag, digit, RADIX. intros H0 H1.
  change (Z.quot 10000 100) with 100. change (Z.quot 10000 10) with 1000.
  change (1000 * 10000) with 10000000. change (100 * 10000) with 1000000.
  rewrite !Z.rem_mod_nonneg, !Z.quot_div_nonneg by (try apply Z.quot_pos; lia).
  split; [done|]. split; [repeat apply Forall_cons_2; try apply Forall_nil_2; cbn beta; Z.to_euclidean_division_equations; lia|].
  cbn [lval]. unfold RADIX, MANT_HI. Z.to_euclidean_division_equations; lia.
Qed.

Lemma div_assemble_spec qs :
  length qs = 5%nat -> Forall digit qs ->
  exists r0 r1,
    (q0 ← res_of (rd qs 0); q1 ← res_of (rd qs 1); q2 ← res_of (rd qs 2);
     q3 ← res_of (rd qs 3); q4 ← res_of (rd qs 4);
     r0 ← int4 ((Z.rem q2 1000 * RADIX + q1) * 100 + Z.quot q0 100);
     r1 ← int4 ((q4 * RADIX + q3) * 10 + Z.quot q2 1000);
     Ok (r0, r1)) = Ok (r0, r1) /\
    0 <= r1 < MANT_HI /\ 0 <= r0 < MANT_HI /\ mag r1 r0 = lval qs / 100.
Proof.
  intros HL HD. do 5 (destruct qs as [|? qs]; [done|]). destruct qs; [|done].
  repeat match goal with H : Forall digit (_ :: _) |- _ => inversion_clear H end.
  unfold digit, mag, MANT_HI, RADIX in *. rd_compute.
  rewrite Z.rem_mod_nonneg, !Z.quot_div_nonneg by lia.
  pose proof (Z.div_mod z1 1000 ltac:(lia)). pose proof (Z.mod_pos_bound z1 1000 ltac:(lia)).
  pose proof (Z.div_mod z 100 ltac:(lia)). pose proof (Z.mod_pos_bound z 100 ltac:(lia)).
  rewrite int4_ok by lia. cbn [mbind res_bind]. rewrite int4_ok by lia. cbn [mbind res_bind].
  do 2 eexists. split; [done|]. split; [lia|]. split; [lia|].
  cbn [lval]. unfold RADIX. apply Z.div_unique with (z mod 100); lia.
Qed.

(** The quotient of two mantissas, cut below eighteen digits. *)
Lemma eb_div_spec x0 x1 y0 y1 :
  0 <= x0 < MANT_HI -> MANT_LO <= x1 < MANT_HI -> 0 <= y0 < MANT_HI ->
  MANT_LO <= y1 < MANT_HI \/ y1 = 0 /\ y0 = 0 ->
  let c := mag x1 x0 <=? mag y1 y0 in
  exists r0 r1, eb_div x0 x1 y0 y1 = Ok (if c then 1 else 0, r0, r1) /\
    0 <= r1 < MANT_HI /\ 0 <= r0 < MANT_HI /\
    mag r1 r0 = mag y1 y0 * (if c then 10 ^ 17 else 10 ^ 18) / mag x1 x0.
Proof.
  intros A0 A1 B0 B1 c. unfold MANT_LO in *. assert (B1' : 0 <= y1 < MANT_HI) by (unfold MANT_HI in *; lia).
  destruct (div_split_spec x0 x1 A0 ltac:(lia)) as (Lx & Dx & Vx & X4).
  destruct (div_split_spec y0 y1 B0 B1') as (Ly & Dy & Vy & _).
  destruct (div_split_low_spec y0 y1 B0 B1') as (Lw & Dw & Vw).
  assert (MX : 10 ^ 17 <= mag x1 x0) by (unfold mag, MANT_HI in *; lia).
  assert (MY : mag y1 y0 < 10 ^ 18) by (unfold mag, MANT_HI in *; lia).
  assert (Hc : (x1 <? y1) || ((x1 =? y1) && (x0 <=? y0)) = c).
  { unfold c, mag, MANT_HI in *. destruct (Z.ltb_spec x1 y1), (Z.eqb_spec x1 y1), (Z.leb_spec x0 y0);
      simpl; symmetry; try apply Z.leb_le; try apply Z.leb_gt; lia. }
  unfold eb_div. rewrite Hc. set (wd := if c then div_split_low y0 y1 else div_split y0 y1).
  assert (Hw : length wd = 5%nat /\ Forall digit wd /\ lval wd = mag y1 y0 * (if c then 10 else 100))
    by (unfold wd; destruct c; done).
  destruct Hw as (HwL & HwD & HwV).
  destruct (div_digits_spec (div_split x0 x1) Dx Lx ltac:(lia) (x1 / 100000) X4
    ltac:(apply Z.div_le_lower_bound; lia) 5 (repeat 0 5) wd [] []) as (qs & E & Lq & Dq & Vq); try done.
  { by repeat constructor. }
  { rewrite HwV, Vx. unfold c in *. destruct (Z.leb_spec (mag x1 x0) (mag y1 y0)); lia. }
  rewrite !app_nil_r in E. cbv zeta. rewrite E. cbn [mbind res_bind].
  destruct (div_assemble_spec qs Lq Dq) as (r0 & r1 & EA & R1 & R0 & Vr).
  exists r0, r1. split; [|split; [done|split; [done|]]].
  - revert EA. clear. repeat match goal with
    | |- context [rd qs ?i] => destruct (rd qs i); [|done]; cbn [res_of mbind res_bind]
    | |- context [int4 ?i] => destruct (int4 i); [|done]; cbn [mbind res_bind]
    end. intros [= -> ->]. done.
  - rewrite Vr, Vq, Vx, HwV. change (lval (repeat 0 5)) with 0. rewrite Z.add_0_l.
    change (RADIX ^ Z.of_nat 5) with (10 ^ 20). rewrite Z.div_div by lia.
    destruct c.
    + replace (10 ^ 20 * (mag y1 y0 * 10)) with (mag y1 y0 * 10 ^ 17 * (100 * 100)) by ring.
      replace (mag x1 x0 * 100 * 100) with (mag x1 x0 * (100 * 100)) by ring.
      by rewrite Z.div_mul_cancel_r by lia.
    + replace (10 ^ 20 * (mag y1 y0 * 100)) with (mag y1 y0 * 10 ^ 18 * (100 * 100)) by ring.
      replace (mag x1 x0 * 100 * 100) with (mag x1 x0 * (100 * 100)) by ring.
      by rewrite Z.div_mul_cancel_r by lia.
Qed.
