(* ===== verification/Arith.v ===== *)
(** Multiplication, division, integer division and modulo of M numbers
    (op_mul.c, op_div.c, op_idiv.c, flt_mod.c) on the mantissa routines of
    Muldiv.  A product or quotient is refined to [round18]: the exact result on
    the integers [num_value], cut below its eighteenth digit. *)

From stdpp Require Import base list numbers option tactics.
From Stdlib Require Import ZArith Lia Zquot.
From S2P Require Import Prelude Mval AddSub Double Muldiv.

Open Scope Z_scope.

Definition EXP_IDX_BIAL : Z := 9 + MV_XBIAS.
Definition EXP_IDX_BIAQ : Z := 18 + MV_XBIAS.

(** [u_mvtype & MV_INT & v_mvtype]. *)
Definition ints (u v : mval) : bool := negb (Z.land (Z.land (mvtype u) MV_INT) (mvtype v) =? 0).

(** The test of the exponent and the words before a demotion. *)
Definition fits_int (exp : Z) (p : mval) : res bool :=
  if (exp <? EXP_INT_OVERF) && ((EXP_INT_UNDERF <? exp) && (mv_m0 p =? 0)) then
    t ← ten_pwr (EXP_INT_OVERF - 1 - exp);
    Ok (Z.rem (mv_m1 p) t =? 0)
  else Ok false.

(** The end of op_mul and op_div: [p] holds the mantissa. *)
Definition store_float (exp sgn : Z) (p : mval) : res mval :=
  if EXPHI <=? exp then Err ERR_NUMOFLOW
  else if exp <? EXPLO then Ok literal_zero
  else
    fits ← fits_int exp p;
    if fits : bool then demote p exp sgn
    else if (0 =? mv_m0 p) && (0 =? mv_m1 p) then Ok literal_zero
    else Ok (store_flt sgn exp (mv_m0 p) (mv_m1 p) p).

(** * op_mul *)

(** The product of two operands in the floating form. *)
Definition mul_float (u v p : mval) : res mval :=
  '(c, p0, p1) ← eb_mul (mv_m0 u) (mv_m1 u) (mv_m0 v) (mv_m1 v);
  let exp := mv_e u + mv_e v + c - MV_XBIAS in
  store_float exp (Z.lxor (mv_sgn u) (mv_sgn v)) (set_m0m1 p0 p1 p).

Definition op_mul (g : globals) (u v p : mval) : res (mval * mval * mval) :=
  if MV_IS_SQLNULL u || MV_IS_SQLNULL v then
    u ← MV_FORCE_DEFINED g u;
    v ← MV_FORCE_DEFINED g v;
    Ok (u, v, literal_sqlnull)
  else
    u ← MV_FORCE_NUM g u;
    v ← MV_FORCE_NUM g v;
    p ← (if ints u v then
           promo ← eb_int_mul (mv_m1 u) (mv_m1 v);
           match promo with
           | Some (p0, p1) => Ok (store_int p1 (set_m0m1 p0 p1 p))
           | None => w ← promote u; z ← promote v; mul_float w z p
           end
         else if has MV_INT u then w ← promote u; mul_float w v p
         else if has MV_INT v then w ← promote v; mul_float u w p
         else mul_float u v p);
    Ok (u, v, p).

(** * op_div *)

(** The macro EB_DIV. *)
Definition EB_DIV (v u : mval) : res (Z * Z * Z) :=
  if (EXPHI <=? mv_e v) || (EXPHI <=? mv_e u) then Err ERR_NUMOFLOW
  else eb_div (mv_m0 v) (mv_m1 v) (mv_m0 u) (mv_m1 u).

Definition div_float (u v q : mval) : res mval :=
  '(c, q0, q1) ← EB_DIV v u;
  let exp := mv_e u - mv_e v + c + MV_XBIAS in
  store_float exp (Z.lxor (mv_sgn u) (mv_sgn v)) (set_m0m1 q0 q1 q).

Definition op_div (g : globals) (u v q : mval) : res (mval * mval * mval) :=
  if MV_IS_SQLNULL u || MV_IS_SQLNULL v then
    u ← MV_FORCE_DEFINED g u;
    v ← MV_FORCE_DEFINED g v;
    Ok (u, v, literal_sqlnull)
  else
    u ← MV_FORCE_NUM g u;
    v ← MV_FORCE_NUM g v;
    if has MV_INT v && (0 =? mv_m1 v) then Err ERR_DIVZERO
    else
      q ← (if ints u v then
             promo ← eb_mvint_div (mv_m1 u) (mv_m1 v);
             match promo with
             | Some (q0, q1) => Ok (store_int q1 (set_m0m1 q0 q1 q))
             | None => w ← promote u; z ← promote v; div_float w z q
             end
           else if has MV_INT u then w ← promote u; div_float w v q
           else if has MV_INT v then w ← promote v; div_float u w q
           else div_float u v q);
      Ok (u, v, q).

(** * op_idiv *)

(** The digits of the fraction cleared in the quotient [q] of exponent [exp]. *)
Definition clear_fraction (exp : Z) (q : mval) : res mval :=
  if exp <=? MV_XBIAS then Ok literal_zero
  else if exp <? EXP_IDX_BIAL then
    z ← ten_pwr (EXP_IDX_BIAL - exp);
    Ok (set_m0m1 0 (Z.quot (mv_m1 q) z * z) q)
  else if exp <? EXP_IDX_BIAQ then
    z ← ten_pwr (EXP_IDX_BIAQ - exp);
    Ok (set_m0m1 (Z.quot (mv_m0 q) z * z) (mv_m1 q) q)
  else Ok q.

Definition idiv_float (u v q : mval) : res mval :=
  let exp := mv_e u - mv_e v + MV_XBIAS in
  if exp <? MV_XBIAS then Ok literal_zero
  else
    '(c, q0, q1) ← EB_DIV v u;
    let exp := exp + c in
    q ← clear_fraction exp (set_m0m1 q0 q1 q);
    fits ← fits_int exp q;
    let sgn := Z.lxor (mv_sgn u) (mv_sgn v) in
    if fits : bool then demote q exp sgn
    else if EXPHI <=? exp then Err ERR_NUMOFLOW
    else Ok (store_flt sgn exp (mv_m0 q) (mv_m1 q) q).

Definition op_idiv (g : globals) (u v q : mval) : res (mval * mval * mval) :=
  if MV_IS_SQLNULL u || MV_IS_SQLNULL v then
    u ← MV_FORCE_DEFINED g u;
    v ← MV_FORCE_DEFINED g v;
    Ok (u, v, literal_sqlnull)
  else
    u ← MV_FORCE_NUM g u;
    v ← MV_FORCE_NUM g v;
    if has MV_INT v && (0 =? mv_m1 v) then Err ERR_DIVZERO
    else
      q ← (if ints u v then
             promo ← eb_int_div (mv_m1 u) (mv_m1 v);
             match promo with
             | Some (q0, q1) => Ok (store_int q1 (set_m0m1 q0 q1 q))
             | None => w ← promote u; y ← promote v; idiv_float w y q
             end
           else if has MV_INT u then w ← promote u; idiv_float w v q
           else if has MV_INT v then w ← promote v; idiv_float u w q
           else idiv_float u v q);
      Ok (u, v, q).

(** * flt_mod *)

(** The floor of the quotient [w], of exponent above MV_XBIAS, away from zero
    when the signs differ ([down]) and a digit is cleared. *)
Definition floor_quotient (down : bool) (w : mval) : res mval :=
  let exp := mv_e w in
  if exp <? EXP_IDX_BIAL then
    z ← ten_pwr (EXP_IDX_BIAL - exp);
    let x := Z.quot (mv_m1 w) z * z in
    if down && (negb (mv_m1 w =? x) || negb (mv_m0 w =? 0)) then
      m1 ← int4 (x + z);
      if MANT_HI <=? m1 then
        Ok (mk_mval (mvtype w) (mv_sgn w) (mv_e w + 1) (Z.quot 0 10 + Z.rem m1 10 * MANT_LO)
              (Z.quot m1 10) (mv_str w))
      else Ok (set_m0m1 0 m1 w)
    else Ok (set_m0m1 0 x w)
  else if exp <? EXP_IDX_BIAQ then
    z ← ten_pwr (EXP_IDX_BIAQ - exp);
    let x := Z.quot (mv_m0 w) z * z in
    if down && negb (mv_m0 w =? x) then
      m0 ← int4 (x + z);
      if MANT_HI <=? m0 then Ok (set_m0m1 (m0 - MANT_HI) (mv_m1 w + 1) w)
      else Ok (set_m0m1 m0 (mv_m1 w) w)
    else Ok (set_m0m1 x (mv_m1 w) w)
  else Ok w.

(** The modulus of two operands in the floating form; [u_orig] is the first
    as the caller gave it. *)
Definition mod_float (g : globals) (u_orig u v q : mval) : res mval :=
  '(_, _, w) ← op_div g u v literal_null;
  w ← (if has MV_INT w then promote w else Ok w);
  let down := negb (mv_sgn u =? mv_sgn v) in
  if (mv_e w <=? MV_XBIAS) && negb (down && (negb (mv_m1 w =? 0) && (EXPLO <=? mv_e w))) then
    Ok (set_mvtype (Z.land (mvtype u_orig) MV_NUM_MASK) u_orig)
  else
    w ← (if mv_e w <=? MV_XBIAS then
           Ok (mk_mval (mvtype w) 1 (MV_XBIAS + 1) 0 MANT_LO (mv_str w))
         else floor_quotient down w);
    '(_, _, w) ← op_mul g w v w;
    '(_, _, q) ← op_sub g u_orig w q;
    Ok q.

Definition flt_mod (g : globals) (u v q : mval) : res (mval * mval * mval) :=
  if MV_IS_SQLNULL u || MV_IS_SQLNULL v then
    u ← MV_FORCE_DEFINED g u;
    v ← MV_FORCE_DEFINED g v;
    Ok (u, v, literal_sqlnull)
  else
    u ← MV_FORCE_NUM g u;
    v ← MV_FORCE_NUM g v;
    if has MV_INT v && (0 =? mv_m1 v) then Err ERR_DIVZERO
    else
      q ← (if ints u v then
             p1 ← eb_int_mod (mv_m1 u) (mv_m1 v);
             Ok (store_int p1 q)
           else if has MV_INT u then y ← promote u; mod_float g u y v q
           else if has MV_INT v then y ← promote v; mod_float g u u y q
           else mod_float g u u v q);
      Ok (u, v, q).

(** * The reference *)

(** The number of decimal digits. *)
Fixpoint ndig (fuel : nat) (n : Z) : Z :=
  match fuel with
  | O => 0
  | S fuel' => if n <=? 0 then 0 else 1 + ndig fuel' (n / 10)
  end.

(** A number of eighteen digits or more, the digits below the eighteenth
    replaced by zeros. *)
Definition cut18 (Q : Z) : Z :=
  let unit := 10 ^ (ndig 250 (Z.abs Q) - 18) in Z.quot Q unit * unit.

(** An exact result [Q], in units of 10^-60, as a number: [None] overflows. *)
Definition round18 (Q : Z) : option Z :=
  if 10 ^ (EXPHI - 3) <=? Z.abs Q then None
  else if Z.abs Q <? 10 ^ (EXPLO - 3) then Some 0
  else Some (cut18 Q).

Lemma ndig_spec fuel n :
  0 < n < 10 ^ Z.of_nat fuel ->
  1 <= ndig fuel n /\ 10 ^ (ndig fuel n - 1) <= n < 10 ^ ndig fuel n.
Proof.
  revert n. induction fuel as [|fuel IH]; intros n Hn; [simpl in Hn; lia|].
  cbn [ndig]. rewrite Nat2Z.inj_succ, Z.pow_succ_r in Hn by lia.
  replace (n <=? 0) with false by (symmetry; apply Z.leb_gt; lia).
  pose proof (Z.div_mod n 10 ltac:(lia)) as E. pose proof (Z.mod_pos_bound n 10 ltac:(lia)) as B.
  destruct (Z.eq_dec (n / 10) 0) as [E0|E0].
  - rewrite E0. assert (ndig fuel 0 = 0) as -> by (by destruct fuel). simpl. lia.
  - destruct (IH (n / 10)) as (H1 & H2 & H3); [lia|]. set (k := ndig fuel (n / 10)) in *.
    split; [lia|]. replace (1 + k - 1) with (1 + (k - 1)) by lia.
    rewrite !Z.pow_add_r by lia. lia.
Qed.

Lemma pow10_lt_inv a b : 0 <= b -> 10 ^ a < 10 ^ b -> a < b.
Proof. intros Hb H. apply (Z.pow_lt_mono_r_iff 10); lia. Qed.

Lemma ndig_unique n k : 1 <= k <= 250 -> 10 ^ (k - 1) <= n < 10 ^ k -> ndig 250 n = k.
Proof.
  intros Hk Hn. assert (H0 : 0 < 10 ^ (k - 1)) by (apply pow10_pos; lia).
  assert (H1 : 10 ^ k <= 10 ^ Z.of_nat 250) by (apply Z.pow_le_mono_r; lia).
  destruct (ndig_spec 250 n) as (L & N1 & N2); [lia|]. set (j := ndig 250 n) in *.
  assert (j - 1 < k) by (apply pow10_lt_inv; lia). assert (k - 1 < j) by (apply pow10_lt_inv; lia). lia.
Qed.

(** The rounding of a result that is known to eighteen digits. *)
Lemma round18_norm s Q R e :
  s = 1 \/ s = -1 -> Q = s * Z.abs Q -> 10 ^ 17 <= R < 10 ^ 18 -> e <= 200 ->
  (EXPLO <= e -> R * 10 ^ (e - EXPLO) <= Z.abs Q < (R + 1) * 10 ^ (e - EXPLO)) ->
  (e < EXPLO -> Z.abs Q < 10 ^ (EXPLO - 3)) ->
  round18 Q = if EXPHI <=? e then None else if e <? EXPLO then Some 0
              else Some (s * (R * 10 ^ (e - EXPLO))).
Proof.
  intros Hs HQ HR He Hin Hlow. unfold round18. unfold EXPHI, EXPLO, MV_XBIAS in *.
  destruct (Z.ltb_spec e (-42 + 62)) as [Hl|Hl].
  { specialize (Hlow Hl). assert (10 ^ (-42 + 62 - 3) <= 10 ^ (48 + 62 - 3)) by (apply Z.pow_le_mono_r; lia).
    replace (10 ^ (48 + 62 - 3) <=? Z.abs Q) with false by (symmetry; apply Z.leb_gt; lia).
    replace (Z.abs Q <? 10 ^ (-42 + 62 - 3)) with true by (symmetry; apply Z.ltb_lt; lia).
    by replace (48 + 62 <=? e) with false by (symmetry; apply Z.leb_gt; lia). }
  specialize (Hin Hl). replace (e - (-42 + 62)) with (e - 20) in * by lia.
  pose proof (pow10_pos (e - 20) ltac:(lia)) as Pe. set (E := 10 ^ (e - 20)) in *.
  assert (Lo : 10 ^ (e - 3) <= Z.abs Q).
  { replace (e - 3) with (17 + (e - 20)) by lia. rewrite Z.pow_add_r by lia. fold E. nia. }
  assert (Hi : Z.abs Q < 10 ^ (e - 2)).
  { replace (e - 2) with (18 + (e - 20)) by lia. rewrite (Z.pow_add_r 10 18) by lia. fold E. nia. }
  assert (10 ^ (-42 + 62 - 3) <= 10 ^ (e - 3)) by (apply Z.pow_le_mono_r; lia).
  replace (Z.abs Q <? 10 ^ (-42 + 62 - 3)) with false by (symmetry; apply Z.ltb_ge; lia).
  destruct (Z.leb_spec (48 + 62) e).
  - assert (10 ^ (48 + 62 - 3) <= 10 ^ (e - 3)) by (apply Z.pow_le_mono_r; lia).
    by replace (10 ^ (48 + 62 - 3) <=? Z.abs Q) with true by (symmetry; apply Z.leb_le; lia).
  - assert (10 ^ (e - 2) <= 10 ^ (48 + 62 - 3)) by (apply Z.pow_le_mono_r; lia).
    replace (10 ^ (48 + 62 - 3) <=? Z.abs Q) with false by (symmetry; apply Z.leb_gt; lia).
    f_equal. unfold cut18. rewrite (ndig_unique (Z.abs Q) (e - 2)) by (try replace (e - 2 - 1) with (e - 3) by lia; lia).
    replace (e - 2 - 18) with (e - 20) by lia. fold E.
    assert (HD : Z.abs Q / E = R) by (symmetry; apply Z.div_unique with (Z.abs Q - E * R); lia).
    rewrite HQ. destruct Hs as [-> | ->].
    + rewrite !Z.mul_1_l, Z.quot_div_nonneg, HD by lia. lia.
    + replace (-1 * Z.abs Q) with (- Z.abs Q) by lia. rewrite Z.quot_opp_l, Z.quot_div_nonneg, HD by lia. lia.
Qed.

(** An integer of the integer form is its own rounding. *)
Lemma round18_int m : int_range m -> round18 (m * 10 ^ 57) = Some (m * 10 ^ 57).
Proof.
  unfold int_range. intros Hm. destruct (Z.eq_dec m 0) as [->|Hn]; [done|].
  destruct (int_digits_ex (Z.abs m) ltac:(lia)) as (n & Hn9 & Hd).
  destruct (int_digits n (Z.abs m) Hn9 Hd (m <? 0)) as (HM & HE & HV).
  set (M := Z.abs m * 10 ^ (18 - n)) in *.
  assert (HX : (if m <? 0 then - Z.abs m else Z.abs m) = m) by (destruct (Z.ltb_spec m 0); lia).
  rewrite HX in HV.
  pose proof (pow10_pos (59 + n - EXPLO) ltac:(lia)) as P.
  rewrite (round18_norm (if m <? 0 then -1 else 1) _ M (59 + n)).
  - replace (EXPHI <=? 59 + n) with false by (symmetry; apply Z.leb_gt; lia).
    replace (59 + n <? EXPLO) with false by (symmetry; apply Z.ltb_ge; lia). by rewrite <- HV.
  - destruct (m <? 0); auto.
  - destruct (Z.ltb_spec m 0); lia.
  - done.
  - lia.
  - intros _. rewrite HV. destruct (m <? 0).
    + replace (Z.abs (-1 * (M * 10 ^ (59 + n - EXPLO)))) with (M * 10 ^ (59 + n - EXPLO)) by nia. nia.
    + replace (Z.abs (1 * (M * 10 ^ (59 + n - EXPLO)))) with (M * 10 ^ (59 + n - EXPLO)) by nia. nia.
  - lia.
Qed.

(** * Storing a result *)

Definition raw_result (R s e : Z) : option Z :=
  if EXPHI <=? e then None else if e <? EXPLO then Some 0
  else Some (sg s * (R * 10 ^ (e - EXPLO))).

Lemma fits_int_demote p e s :
  0 <= s <= 1 -> MANT_LO <= mv_m1 p < MANT_HI ->
  fits_int e p = Ok false \/
  fits_int e p = Ok true /\ mv_m0 p = 0 /\ EXPLO <= e < EXPHI /\
  holds (Some (sg s * (mag (mv_m1 p) (mv_m0 p) * 10 ^ (e - EXPLO)))) (demote p e s).
Proof.
  intros Hs H1. unfold fits_int, demote. destruct ((e <? EXP_INT_OVERF) && _) eqn:E; [|by left].
  zbool. num_consts. rewrite ten_pwr_spec by lia. cbn [mbind res_bind].
  destruct (Z.eqb_spec (Z.rem (mv_m1 p) (10 ^ (7 + 62 - 1 - e))) 0) as [Er|]; [right|by left].
  split; [done|]. split; [done|]. split; [lia|].
  replace (e =? 0) with false by (symmetry; apply Z.eqb_neq; lia). cbn [mbind res_bind].
  pose proof (pow10_pos (7 + 62 - 1 - e) ltac:(lia)) as Pf. set (f := 10 ^ (7 + 62 - 1 - e)) in *.
  pose proof (Z.quot_rem (mv_m1 p) f ltac:(lia)) as Eq. rewrite Er, Z.add_0_r in Eq.
  assert (Hx : 0 <= Z.quot (mv_m1 p) f <= mv_m1 p) by (split; [apply Z.quot_pos; lia|nia]).
  set (x := Z.quot (mv_m1 p) f) in *.
  assert (Hp : 10 ^ 57 = f * 1000000000 * 10 ^ (e - (-42 + 62))).
  { unfold f. replace 1000000000 with (10 ^ 9) by done. rewrite <- !Z.pow_add_r by lia. f_equal. lia. }
  assert (Hv : forall m, m = sg s * x ->
    holds (Some (sg s * (mag (mv_m1 p) (mv_m0 p) * 10 ^ (e - (-42 + 62))))) (Ok (store_int m p))).
  { intros m ->. eexists. split; [done|]. split.
    - left. repeat split; simpl; num_consts; destruct (sg_cases s Hs) as [-> | ->]; lia.
    - unfold num_value, mag. simpl. num_consts. rewrite Hp, Eq. lia. }
  assert (s = 0 \/ s = 1) as [-> | ->] by lia; cbn [Z.eqb mbind res_bind]; apply Hv; unfold sg; simpl.
  - fold x. lia.
  - rewrite Z.quot_opp_r by lia. fold x. lia.
Qed.

Lemma store_float_spec p e s :
  0 <= s <= 1 -> 0 <= mv_m0 p < MANT_HI ->
  MANT_LO <= mv_m1 p < MANT_HI ->
  holds (raw_result (mag (mv_m1 p) (mv_m0 p)) s e) (store_float e s p).
Proof.
  intros Hs H0 H1. unfold raw_result, store_float. destruct (Z.leb_spec EXPHI e); [done|].
  destruct (Z.ltb_spec e EXPLO); [apply holds_ok; [by_compute|done]|].
  destruct (fits_int_demote p e s Hs H1) as [->|(-> & _ & _ & Hd)]; cbn [mbind res_bind]; [|done].
  replace (0 =? mv_m1 p) with false by (symmetry; apply Z.eqb_neq; num_consts; lia). rewrite andb_false_r.
  apply holds_ok; [right; repeat split; simpl; lia|done].
Qed.

Lemma store_float_zero p e s :
  mv_m0 p = 0 -> mv_m1 p = 0 -> e < EXP_INT_UNDERF -> holds (Some 0) (store_float e s p).
Proof.
  intros H0 H1 He. unfold store_float, fits_int. rewrite H0, H1.
  replace (EXPHI <=? e) with false by (symmetry; apply Z.leb_gt; num_consts; lia).
  destruct (e <? EXPLO); [apply holds_ok; [by_compute|done]|].
  replace (EXP_INT_UNDERF <? e) with false by (symmetry; apply Z.ltb_ge; lia).
  rewrite !andb_false_r. cbn [mbind res_bind andb Z.eqb]. apply holds_ok; [by_compute|done].
Qed.

(** * Operands in the floating form *)

(** [w] is [x], or literal_zero when [x] is 0. *)
Definition float_of (w : mval) (x : Z) : Prop :=
  (flt_form w /\ flt_value w = x) \/ (w = literal_zero /\ x = 0).

Lemma promote_float u : int_form u -> exists w, promote u = Ok w /\ float_of w (num_value u).
Proof.
  intros H. destruct (Z.eq_dec (mv_m1 u) 0) as [E|E].
  - exists literal_zero. unfold promote. rewrite E, (num_value_int u), E by done. split; [done|by right].
  - destruct (promote_spec u H E) as (d & Ep & _). eexists. split; [exact Ep|].
    destruct (promote_value _ _ H E Ep) as (Hf & _ & _ & Hv). by left.
Qed.

Lemma float_refl u : flt_form u -> float_of u (num_value u).
Proof. intros H. left. split; [done|]. by rewrite num_value_flt. Qed.

Lemma flt_abs w : flt_form w -> Z.abs (flt_value w) = mant w * 10 ^ (mv_e w - EXPLO) /\
  flt_value w = sg (mv_sgn w) * Z.abs (flt_value w).
Proof.
  intros H. pose proof (flt_mant w H) as M. destruct H as (_ & _ & _ & Hs & He & _).
  pose proof (pow10_pos (mv_e w - EXPLO) ltac:(lia)). unfold flt_value, sg.
  destruct (mv_sgn w =? 0); nia.
Qed.

Lemma sg_lxor s f : 0 <= s <= 1 -> 0 <= f <= 1 ->
  0 <= Z.lxor s f <= 1 /\ sg (Z.lxor s f) = sg s * sg f.
Proof. apply sg_xor. Qed.

(** The rounding of a result of known sign, by its first eighteen digits. *)
Lemma round18_raw Q R s e :
  0 <= s <= 1 -> Q = sg s * Z.abs Q -> 10 ^ 17 <= R < 10 ^ 18 -> e <= 200 ->
  (EXPLO <= e -> R * 10 ^ (e - EXPLO) <= Z.abs Q < (R + 1) * 10 ^ (e - EXPLO)) ->
  (e < EXPLO -> Z.abs Q < 10 ^ (EXPLO - 3)) ->
  round18 Q = raw_result R s e.
Proof. intros Hs. apply round18_norm. apply sg_cases. done. Qed.

(** The first eighteen digits [R] of a quotient of scaled numbers. *)
Lemma scaled_quot N D R a b j k e :
  0 <= N -> 0 < D -> 0 <= a -> 0 <= b -> 0 <= j -> 0 <= k -> 10 ^ 17 <= R < 10 ^ 18 ->
  R * (D * 10 ^ k) <= N * 10 ^ j < (R + 1) * (D * 10 ^ k) -> e - EXPLO = a - b - j + k ->
  let A := N * 10 ^ a / (D * 10 ^ b) in
  (EXPLO <= e -> R * 10 ^ (e - EXPLO) <= A < (R + 1) * 10 ^ (e - EXPLO)) /\
  (e < EXPLO -> A < 10 ^ (EXPLO - 3)).
Proof.
  intros HN HD Ha Hb Hj Hk HR [L U] He A.
  pose proof (pow10_pos j Hj) as Pj. pose proof (pow10_pos b Hb) as Pb. pose proof (pow10_pos a Ha) as Pa.
  assert (HDb : 0 < D * 10 ^ b) by nia. split; intros Hle.
  - pose proof (pow10_pos (e - EXPLO) ltac:(lia)) as Pe.
    assert (Hs : 10 ^ k * 10 ^ a = 10 ^ (e - EXPLO) * 10 ^ b * 10 ^ j)
      by (rewrite <- !Z.pow_add_r by lia; f_equal; lia).
    split.
    + apply Z.div_le_lower_bound; [lia|]. apply (Z.mul_le_mono_pos_r _ _ (10 ^ j) Pj).
      apply (Z.mul_le_mono_nonneg_r _ _ (10 ^ a)) in L; [|lia].
      replace (D * 10 ^ b * (R * 10 ^ (e - EXPLO)) * 10 ^ j) with (R * D * (10 ^ (e - EXPLO) * 10 ^ b * 10 ^ j)) by ring.
      rewrite <- Hs. lia.
    + apply Z.div_lt_upper_bound; [lia|]. apply (Z.mul_lt_mono_pos_r (10 ^ j) _ _ Pj).
      apply (Z.mul_lt_mono_pos_r (10 ^ a)) in U; [|lia].
      replace (D * 10 ^ b * ((R + 1) * 10 ^ (e - EXPLO)) * 10 ^ j) with
        ((R + 1) * D * (10 ^ (e - EXPLO) * 10 ^ b * 10 ^ j)) by ring.
      rewrite <- Hs. lia.
  - assert (Hs : 10 * (10 ^ k * 10 ^ a) <= 10 ^ b * 10 ^ j).
    { replace 10 with (10 ^ 1) at 1 by done. rewrite <- !Z.pow_add_r by lia. apply Z.pow_le_mono_r; lia. }
    apply Z.div_lt_upper_bound; [lia|]. apply (Z.mul_lt_mono_pos_r (10 ^ j) _ _ Pj).
    apply (Z.mul_lt_mono_pos_r (10 ^ a)) in U; [|lia]. unfold EXPLO, MV_XBIAS.
    change (10 ^ (-42 + 62 - 3)) with (10 ^ 17).
    apply Z.lt_le_trans with ((R + 1) * (D * 10 ^ k) * 10 ^ a); [lia|].
    apply Z.le_trans with (10 ^ 18 * D * (10 ^ k * 10 ^ a)).
    + replace ((R + 1) * (D * 10 ^ k) * 10 ^ a) with ((R + 1) * (D * (10 ^ k * 10 ^ a))) by ring.
      rewrite <- Z.mul_assoc. apply Z.mul_le_mono_nonneg_r; [|lia].
      pose proof (pow10_pos k Hk). apply Z.mul_nonneg_nonneg; [lia|]. apply Z.mul_nonneg_nonneg; lia.
    + replace (10 ^ 18 * D * (10 ^ k * 10 ^ a)) with (10 ^ 17 * D * (10 * (10 ^ k * 10 ^ a))) by ring.
      replace (D * 10 ^ b * 10 ^ 17 * 10 ^ j) with (10 ^ 17 * D * (10 ^ b * 10 ^ j)) by ring.
      apply Z.mul_le_mono_nonneg_l; lia.
Qed.

Lemma float_range w x : float_of w x ->
  0 <= mv_m0 w < MANT_HI /\ 0 <= mv_m1 w < MANT_HI /\ 0 <= mv_sgn w <= 1 /\ 0 <= mv_e w < EXPHI.
Proof. intros [[(_ & _ & _ & S & E & M1 & M0) _]|[-> _]]; num_consts; [lia|simpl; lia]. Qed.

(** * The product *)

(** An operand that is zero. *)
Lemma mul_float_zero u v p x y :
  float_of u x -> float_of v y -> u = literal_zero \/ v = literal_zero -> holds (Some 0) (mul_float u v p).
Proof.
  intros Hu Hv Hz. pose proof (float_range u x Hu) as (U0 & U1 & Us & Ue).
  pose proof (float_range v y Hv) as (V0 & V1 & Vs & Ve). unfold mul_float.
  destruct (eb_mul_spec (mv_m0 u) (mv_m1 u) (mv_m0 v) (mv_m1 v) U0 U1 V0 V1) as (p0 & p1 & -> & P1 & P0 & EP).
  cbn [mbind res_bind].
  assert (E0 : mag (mv_m1 u) (mv_m0 u) * mag (mv_m1 v) (mv_m0 v) = 0)
    by (destruct Hz as [-> | ->]; change (mag (mv_m1 literal_zero) (mv_m0 literal_zero)) with 0; lia).
  rewrite E0 in *. change (10 ^ 35 <=? 0) with false in *. cbv iota in *. rewrite Z.div_0_l in EP by lia.
  unfold mag in EP. num_consts. apply store_float_zero; simpl; num_consts; try lia.
  destruct Hz as [-> | ->]; simpl; lia.
Qed.

Lemma mul_float_norm u v p :
  flt_form u -> flt_form v ->
  holds (round18 (Z.quot (flt_value u * flt_value v) (10 ^ 60))) (mul_float u v p).
Proof.
  intros Fu Fv. pose proof (float_range u _ (or_introl (conj Fu eq_refl))) as (U0 & U1 & Us & Ue).
  pose proof (float_range v _ (or_introl (conj Fv eq_refl))) as (V0 & V1 & Vs & Ve). unfold mul_float.
  destruct (eb_mul_spec (mv_m0 u) (mv_m1 u) (mv_m0 v) (mv_m1 v) U0 U1 V0 V1) as (p0 & p1 & -> & P1 & P0 & EP).
  cbn [mbind res_bind].
  change (mag (mv_m1 u) (mv_m0 u)) with (mant u) in *. change (mag (mv_m1 v) (mv_m0 v)) with (mant v) in *.
  destruct (sg_lxor (mv_sgn u) (mv_sgn v) Us Vs) as [Ss Sx].
  pose proof (flt_mant u Fu) as Mu. pose proof (flt_mant v Fv) as Mv.
  destruct (flt_abs u Fu) as [Au Su]. destruct (flt_abs v Fv) as [Av Sv].
  assert (Eu : EXPLO <= mv_e u < EXPHI) by (destruct Fu as (_ & _ & _ & _ & ? & _); done).
  assert (Ev : EXPLO <= mv_e v < EXPHI) by (destruct Fv as (_ & _ & _ & _ & ? & _); done).
  set (P := mant u * mant v) in *. assert (HP : 10 ^ 34 <= P < 10 ^ 36) by (unfold P; clear - Mu Mv; nia).
  set (c := if 10 ^ 35 <=? P then 0 else -1) in *.
  assert (HR : 10 ^ 17 <= mag p1 p0 < 10 ^ 18 /\ -1 <= c <= 0 /\
      mag p1 p0 * (1 * 10 ^ (18 + c)) <= P * 10 ^ 0 < (mag p1 p0 + 1) * (1 * 10 ^ (18 + c))).
  { rewrite EP. unfold c. clear - HP. destruct (Z.leb_spec (10 ^ 35) P).
    - change (18 + 0) with 18. change (10 ^ 0) with 1. Z.to_euclidean_division_equations; lia.
    - change (18 + -1) with 17. change (10 ^ 0) with 1. Z.to_euclidean_division_equations; lia. }
  destruct HR as (HR & Hc & HPR). set (e := mv_e u + mv_e v + c - MV_XBIAS).
  assert (HA : Z.abs (Z.quot (flt_value u * flt_value v) (10 ^ 60)) =
               P * 10 ^ (mv_e u + mv_e v - 40) / (1 * 10 ^ 60)).
  { rewrite <- Z.quot_abs, Z.abs_mul, Au, Av, (Z.abs_eq (10 ^ 60)) by lia.
    num_consts.
    pose proof (pow10_pos (mv_e u - (-42 + 62)) ltac:(lia)). pose proof (pow10_pos (mv_e v - (-42 + 62)) ltac:(lia)).
    rewrite Z.quot_div_nonneg by nia. rewrite Z.mul_1_l. f_equal. unfold P.
    replace (mv_e u + mv_e v - 40) with (mv_e u - (-42 + 62) + (mv_e v - (-42 + 62))) by lia.
    rewrite Z.pow_add_r by lia. ring. }
  destruct (scaled_quot P 1 (mag p1 p0) (mv_e u + mv_e v - 40) 60 0 (18 + c) e) as [B1 B2];
    try done; try (num_consts; lia).
  rewrite (round18_raw _ (mag p1 p0) (Z.lxor (mv_sgn u) (mv_sgn v)) e); rewrite ?HA; try done.
  - apply (store_float_spec (set_m0m1 p0 p1 p)); [done|done|]. simpl. unfold mag in HR. num_consts. lia.
  - rewrite <- HA, Sx, Su, Sv. clear. set (a := Z.abs (flt_value u)). set (b := Z.abs (flt_value v)).
    replace (sg (mv_sgn u) * a * (sg (mv_sgn v) * b)) with (sg (mv_sgn u) * sg (mv_sgn v) * (a * b)) by ring.
    assert (0 <= a * b) by (apply Z.mul_nonneg_nonneg; apply Z.abs_nonneg).
    assert (0 <= Z.quot (a * b) (10 ^ 60)) by (apply Z.quot_pos; lia).
    unfold sg. destruct (mv_sgn u =? 0), (mv_sgn v =? 0);
      rewrite ?Z.mul_1_l, ?Z.mul_1_r, ?Z.mul_opp_l, ?Z.mul_1_l, ?Z.opp_involutive, ?Z.quot_opp_l by lia; try lia.
  - unfold e. num_consts. lia.
Qed.

Lemma mul_float_spec u v p x y :
  float_of u x -> float_of v y -> holds (round18 (Z.quot (x * y) (10 ^ 60))) (mul_float u v p).
Proof.
  intros Hu Hv. assert (Hz : u = literal_zero \/ v = literal_zero -> x * y = 0 ->
    holds (round18 (Z.quot (x * y) (10 ^ 60))) (mul_float u v p)).
  { intros Hz ->. rewrite Zquot_0_l. by apply (mul_float_zero u v p x y). }
  destruct Hu as [[Fu <-]|[-> ->]]; [destruct Hv as [[Fv <-]|[-> ->]]|].
  - by apply mul_float_norm.
  - apply Hz; [by right|lia].
  - apply Hz; [by left|lia].
Qed.

(** * The forms of the operands *)

Lemma ints_has u v : ints u v = has MV_INT u && has MV_INT v.
Proof. unfold ints. by rewrite <- both_int, <- !Z.land_assoc, (Z.land_comm MV_INT). Qed.

Lemma has_int_form u : num_ok u -> has MV_INT u = true -> int_form u.
Proof. intros [?|(_ & Hi & _)] Hx; [done|congruence]. Qed.

Lemma has_flt_form u : num_ok u -> has MV_INT u = false -> flt_form u.
Proof. intros [(_ & Hi & _)|?] Hx; [congruence|done]. Qed.

Lemma int_form_range u : int_form u -> int_range (mv_m1 u).
Proof. by intros (_ & _ & _ & Hm). Qed.

Section Dispatch.
Context (u v : mval) (Hu : num_ok u) (Hv : num_ok v) (r : option Z) (f : mval -> mval -> res mval).
Context (Hf : forall a b, float_of a (num_value u) -> float_of b (num_value v) -> holds r (f a b)).

(** The code of an operation on two integers, then on mixed forms. *)
Lemma dispatch short :
  (int_form u -> int_form v -> holds r short) ->
  holds r (if ints u v then short
           else if has MV_INT u then w ← promote u; f w v
           else if has MV_INT v then w ← promote v; f u w
           else f u v).
Proof.
  intros Hs. rewrite ints_has. destruct (has MV_INT u) eqn:Eu, (has MV_INT v) eqn:Ev; simpl andb; cbv iota.
  - apply Hs; by apply has_int_form.
  - destruct (promote_float u) as (w & -> & Hw); [by apply has_int_form|].
    apply Hf; [done|]. by apply float_refl, has_flt_form.
  - destruct (promote_float v) as (w & -> & Hw); [by apply has_int_form|].
    apply Hf; [|done]. by apply float_refl, has_flt_form.
  - apply Hf; by apply float_refl, has_flt_form.
Qed.

Lemma dispatch_both : int_form u -> int_form v -> holds r (w ← promote u; z ← promote v; f w z).
Proof.
  intros Iu Iv. destruct (promote_float u Iu) as (w & -> & Hw). destruct (promote_float v Iv) as (z & -> & Hz).
  by apply Hf.
Qed.
End Dispatch.

Lemma holds_int m q0 p :
  int_range m -> holds (Some (m * 10 ^ 57)) (Ok (store_int m (set_m0m1 q0 m p))).
Proof. intros H. apply holds_ok; [|done]. left. by repeat split; simpl; apply H. Qed.

Lemma mul_num_spec u v p :
  num_ok u -> num_ok v ->
  holds (round18 (Z.quot (num_value u * num_value v) (10 ^ 60)))
    (if ints u v then
       promo ← eb_int_mul (mv_m1 u) (mv_m1 v);
       match promo with
       | Some (p0, p1) => Ok (store_int p1 (set_m0m1 p0 p1 p))
       | None => w ← promote u; z ← promote v; mul_float w z p
       end
     else if has MV_INT u then w ← promote u; mul_float w v p
     else if has MV_INT v then w ← promote v; mul_float u w p
     else mul_float u v p).
Proof.
  intros Hu Hv. apply (dispatch u v Hu Hv _ (fun a b => mul_float a b p)).
  { intros a b. apply mul_float_spec. }
  intros Iu Iv. rewrite eb_int_mul_spec by (by apply int_form_range). cbn [mbind res_bind].
  destruct ((Z.abs (mv_m1 u * mv_m1 v) <? 10 ^ 12) && (Z.rem (mv_m1 u * mv_m1 v) 1000 =? 0)) eqn:E.
  - zbool. rewrite !num_value_int by done. set (P := mv_m1 u * mv_m1 v) in *.
    pose proof (Z.quot_rem P 1000 ltac:(lia)) as EP. set (m := Z.quot P 1000) in *.
    assert (Z.quot (mv_m1 u * 10 ^ 57 * (mv_m1 v * 10 ^ 57)) (10 ^ 60) = m * 10 ^ 57) as ->.
    { replace (mv_m1 u * 10 ^ 57 * (mv_m1 v * 10 ^ 57)) with (m * 10 ^ 57 * 10 ^ 60)
        by (replace (10 ^ 60) with (1000 * 10 ^ 57) by done; unfold P in *; nia).
      by rewrite Z.quot_mul by lia. }
    assert (int_range m) by (unfold int_range; num_consts; lia).
    rewrite round18_int by done. by apply holds_int.
  - apply (dispatch_both u v _ (fun a b => mul_float a b p)); [|done|done]. intros a b. apply mul_float_spec.
Qed.

(** C33: op_mul on two numbers, in either form: the result is a well-formed
    number equal to the exact product cut below its eighteenth digit, 0 when it
    is below the smallest number and the error NUMOFLOW exactly when it is above
    the largest, which is below 1E47 (the 1E48 of the comments in numcmp.c is
    out of reach); the test in double precision that keeps a product of two
    integers an integer is exact, and no intermediate int4 overflows. *)
Theorem op_mul_round g u v p :
  num_ok u -> num_ok v ->
  exists out, op_mul g u v p = (p' ← out; Ok (u, v, p')) /\
    holds (round18 (Z.quot (num_value u * num_value v) (10 ^ 60))) out.
Proof.
  intros Hu Hv. pose proof (num_ok_flags u Hu) as [_ Su]. pose proof (num_ok_flags v Hv) as [_ Sv].
  unfold op_mul. rewrite Su, Sv. simpl orb. cbv iota. rewrite !force_num_ok by done.
  cbn [mbind res_bind]. eexists. split; [reflexivity|]. by apply mul_num_spec.
Qed.

(** 1234567.89 times 999999.999. *)
Lemma op_mul_round_witness :
  exists out, op_mul (mk_globals false false) add_ex_u add_ex_v literal_zero =
      (p' ← out; Ok (add_ex_u, add_ex_v, p')) /\
    holds (round18 (Z.quot (num_value add_ex_u * num_value add_ex_v) (10 ^ 60))) out.
Proof. apply op_mul_round; by_compute. Defined.

(** * The quotient *)

(** The first digits of the quotient of two operands, and its exponent. *)
Lemma EB_DIV_spec u v :
  flt_form u -> flt_form v ->
  exists c q0 q1, EB_DIV v u = Ok (c, q0, q1) /\ 0 <= c <= 1 /\
    MANT_LO <= q1 < MANT_HI /\ 0 <= q0 < MANT_HI /\
    c = (if mant v <=? mant u then 1 else 0) /\
    mag q1 q0 = mant u * 10 ^ (18 - c) / mant v.
Proof.
  intros Fu Fv. pose proof (flt_mant u Fu) as Mu. pose proof (flt_mant v Fv) as Mv. unfold EB_DIV.
  destruct Fu as (_ & _ & _ & _ & Eu & U1 & U0), Fv as (_ & _ & _ & _ & Ev & V1 & V0).
  replace (EXPHI <=? mv_e v) with false by (symmetry; apply Z.leb_gt; lia).
  replace (EXPHI <=? mv_e u) with false by (symmetry; apply Z.leb_gt; lia). cbn [orb].
  destruct (eb_div_spec (mv_m0 v) (mv_m1 v) (mv_m0 u) (mv_m1 u)) as (q0 & q1 & -> & R1 & R0 & EM);
    [done|done|done|by left|].
  change (mag (mv_m1 u) (mv_m0 u)) with (mant u) in *. change (mag (mv_m1 v) (mv_m0 v)) with (mant v) in *.
  set (c := if mant v <=? mant u then 1 else 0). exists c, q0, q1. split; [done|].
  assert (Hc : 0 <= c <= 1) by (unfold c; destruct (mant v <=? mant u); lia).
  assert (Hp : (if mant v <=? mant u then 10 ^ 17 else 10 ^ 18) = 10 ^ (18 - c))
    by (unfold c; by destruct (mant v <=? mant u)).
  rewrite Hp in EM. split; [done|].
  assert (HR : 10 ^ 17 <= mag q1 q0).
  { rewrite EM. apply Z.div_le_lower_bound; [lia|]. unfold c. destruct (Z.leb_spec (mant v) (mant u)).
    - change (10 ^ (18 - 1)) with (10 ^ 17). lia.
    - change (10 ^ (18 - 0)) with (10 ^ 18). lia. }
  unfold mag in HR. num_consts. split; [lia|]. done.
Qed.

(** The bounds of the digits of a quotient. *)
Lemma quot_digits u v c R :
  flt_form u -> flt_form v -> 0 <= c <= 1 -> c = (if mant v <=? mant u then 1 else 0) ->
  R = mant u * 10 ^ (18 - c) / mant v ->
  10 ^ 17 <= R < 10 ^ 18 /\
  R * (mant v * 10 ^ 0) <= mant u * 10 ^ (18 - c) < (R + 1) * (mant v * 10 ^ 0).
Proof.
  intros Fu Fv Hc Ec ->. pose proof (flt_mant u Fu) as Mu. pose proof (flt_mant v Fv) as Mv.
  change (10 ^ 0) with 1. rewrite Z.mul_1_r. set (N := mant u * 10 ^ (18 - c)).
  pose proof (Z.mul_div_le N (mant v) ltac:(lia)). pose proof (Z.mul_succ_div_gt N (mant v) ltac:(lia)).
  split; [|lia]. unfold N in *. destruct (Z.leb_spec (mant v) (mant u)); subst c.
  - change (10 ^ (18 - 1)) with (10 ^ 17) in *. split; [apply Z.div_le_lower_bound|apply Z.div_lt_upper_bound]; lia.
  - change (10 ^ (18 - 0)) with (10 ^ 18) in *. split; [apply Z.div_le_lower_bound|apply Z.div_lt_upper_bound]; lia.
Qed.

(** The sign of a quotient. *)
Lemma quot_sign s t a b :
  0 <= s <= 1 -> 0 <= t <= 1 -> 0 <= a -> 0 < b ->
  Z.quot (sg s * a) (sg t * b) = sg (Z.lxor s t) * (a / b) /\ Z.abs (Z.quot (sg s * a) (sg t * b)) = a / b.
Proof.
  intros Hs Ht Ha Hb. destruct (sg_lxor s t Hs Ht) as [_ ->].
  assert (0 <= a / b) by (apply Z.div_pos; lia).
  assert (E : Z.quot (sg s * a) (sg t * b) = sg s * sg t * (a / b)).
  { destruct (sg_cases s Hs) as [-> | ->], (sg_cases t Ht) as [-> | ->];
      rewrite ?Z.mul_1_l; replace (-1 * a) with (- a) by lia; replace (-1 * b) with (- b) by lia;
      rewrite ?Z.quot_opp_l, ?Z.quot_opp_r, ?Z.quot_opp_l, ?Z.quot_div_nonneg by lia; lia. }
  split; [done|]. rewrite E. destruct (sg_cases s Hs) as [-> | ->], (sg_cases t Ht) as [-> | ->]; lia.
Qed.

Lemma div_float_spec u v q x :
  float_of u x -> flt_form v -> holds (round18 (Z.quot (x * 10 ^ 60) (flt_value v))) (div_float u v q).
Proof.
  intros [[Fu <-]|[-> ->]] Fv; unfold div_float.
  - destruct (EB_DIV_spec u v Fu Fv) as (c & q0 & q1 & -> & Hc & R1 & R0 & Ec & EM). cbn [mbind res_bind].
    destruct (quot_digits u v c _ Fu Fv Hc Ec EM) as [HR HB].
    destruct (flt_abs u Fu) as [Au Su]. destruct (flt_abs v Fv) as [Av Sv].
    pose proof (flt_mant u Fu) as Mu. pose proof (flt_mant v Fv) as Mv.
    pose proof Fu as (_ & _ & _ & Us & Eu & _). pose proof Fv as (_ & _ & _ & Vs & Ev & _).
    pose proof (pow10_pos (mv_e u - EXPLO) ltac:(lia)) as Pu. pose proof (pow10_pos (mv_e v - EXPLO) ltac:(lia)) as Pv.
    set (e := mv_e u - mv_e v + c + MV_XBIAS).
    destruct (quot_sign (mv_sgn u) (mv_sgn v) (mant u * 10 ^ (mv_e u - EXPLO + 60))
      (mant v * 10 ^ (mv_e v - EXPLO)) Us Vs) as [EQ EA]; [rewrite Z.pow_add_r by lia; nia|nia|].
    assert (EV : Z.quot (flt_value u * 10 ^ 60) (flt_value v) =
      Z.quot (sg (mv_sgn u) * (mant u * 10 ^ (mv_e u - EXPLO + 60))) (sg (mv_sgn v) * (mant v * 10 ^ (mv_e v - EXPLO)))).
    { rewrite Su, Sv, Au, Av, Z.pow_add_r by lia. f_equal. ring. }
    destruct (sg_lxor (mv_sgn u) (mv_sgn v) Us Vs) as [Ss _].
    destruct (scaled_quot (mant u) (mant v) (mag q1 q0) (mv_e u - EXPLO + 60) (mv_e v - EXPLO) (18 - c) 0 e)
      as [B1 B2]; try done; try (unfold e; num_consts; lia).
    rewrite EV. rewrite (round18_raw _ (mag q1 q0) (Z.lxor (mv_sgn u) (mv_sgn v)) e); rewrite ?EA; try done.
    + apply (store_float_spec (set_m0m1 q0 q1 q)); done.
    + unfold e. num_consts. lia.
  - rewrite Z.mul_0_l, Zquot_0_l. unfold EB_DIV.
    pose proof Fv as (_ & _ & _ & Vs & Ev & V1 & V0). pose proof (flt_mant v Fv) as Mv.
    replace (EXPHI <=? mv_e v) with false by (symmetry; apply Z.leb_gt; lia). cbn [orb].
    change (EXPHI <=? mv_e literal_zero) with false. cbv iota.
    destruct (eb_div_spec (mv_m0 v) (mv_m1 v) (mv_m0 literal_zero) (mv_m1 literal_zero)) as (q0 & q1 & -> & R1 & R0 & EM);
      [done|done|done|by right|].
    change (mag (mv_m1 literal_zero) (mv_m0 literal_zero)) with 0 in *. rewrite Z.mul_0_l, Z.div_0_l in EM
      by (change (mag (mv_m1 v) (mv_m0 v)) with (mant v); lia).
    cbn [mbind res_bind]. unfold mag in EM. num_consts.
    apply store_float_zero; simpl; num_consts; try lia.
    destruct (mag (mv_m1 v) (mv_m0 v) <=? 0); lia.
Qed.

(** The short form of a quotient of two integers is taken for exact when the
    fraction is at least 1.0002e-9 or nothing: [R] below is the remainder. *)
Definition short_exact (u v : mval) : Prop :=
  let R := Z.abs (Z.rem (mv_m1 u * 1000) (mv_m1 v)) in
  has MV_INT u = true -> has MV_INT v = true ->
  R = 0 \/ Z.abs (mv_m1 v) * 10 ^ 4 <= (R * 10 ^ 4 - 2) * 10 ^ 9.

Lemma num_value_nonzero v : num_ok v -> num_value v <> 0 ->
  has MV_INT v && (0 =? mv_m1 v) = false.
Proof.
  intros [H|H] Hn.
  - rewrite num_value_int in Hn by done. apply andb_false_iff. right. apply Z.eqb_neq. lia.
  - by destruct H as (_ & -> & _).
Qed.

Lemma float_nonzero w x : float_of w x -> x <> 0 -> flt_form w /\ flt_value w = x.
Proof. intros [H|[_ E]] Hx; done. Qed.

Lemma div_num_spec u v q :
  num_ok u -> num_ok v -> num_value v <> 0 -> short_exact u v ->
  holds (round18 (Z.quot (num_value u * 10 ^ 60) (num_value v)))
    (if ints u v then
       promo ← eb_mvint_div (mv_m1 u) (mv_m1 v);
       match promo with
       | Some (q0, q1) => Ok (store_int q1 (set_m0m1 q0 q1 q))
       | None => w ← promote u; z ← promote v; div_float w z q
       end
     else if has MV_INT u then w ← promote u; div_float w v q
     else if has MV_INT v then w ← promote v; div_float u w q
     else div_float u v q).
Proof.
  intros Hu Hv Hn Hx.
  assert (Hf : forall a b, float_of a (num_value u) -> float_of b (num_value v) ->
    holds (round18 (Z.quot (num_value u * 10 ^ 60) (num_value v))) (div_float a b q)).
  { intros a b Ha Hb. destruct (float_nonzero b _ Hb Hn) as [Fb <-]. by apply div_float_spec. }
  apply (dispatch u v Hu Hv _ (fun a b => div_float a b q)); [done|].
  intros Iu Iv. pose proof (int_form_range u Iu) as Ru. pose proof (int_form_range v Iv) as Rv.
  assert (Hv0 : mv_m1 v <> 0) by (intros E; apply Hn; rewrite num_value_int, E by done; lia).
  destruct (eb_mvint_div_spec (mv_m1 u) (mv_m1 v) Ru Rv Hv0) as (H1 & H2 & H3).
  pose proof (dispatch_both u v _ (fun a b => div_float a b q) Hf Iu Iv) as Hb.
  destruct (Z.le_gt_cases (10 ^ 9 * Z.abs (mv_m1 v)) (Z.abs (mv_m1 u * 1000))) as [Hbig|Hsmall].
  { by rewrite H1. }
  specialize (Hx ltac:(apply Iu) ltac:(apply Iv)).
  destruct (Z.eq_dec (Z.rem (mv_m1 u * 1000) (mv_m1 v)) 0) as [E|E].
  2: { rewrite H3; [done|done|]. destruct Hx; lia. }
  rewrite H2 by done. cbn [mbind res_bind]. rewrite !num_value_int by done.
  pose proof (Z.quot_rem (mv_m1 u * 1000) (mv_m1 v) Hv0) as EP. set (m := Z.quot _ (mv_m1 v)) in *.
  assert (Z.quot (mv_m1 u * 10 ^ 57 * 10 ^ 60) (mv_m1 v * 10 ^ 57) = m * 10 ^ 57) as ->.
  { replace (mv_m1 u * 10 ^ 57 * 10 ^ 60) with (m * 10 ^ 57 * (mv_m1 v * 10 ^ 57)).
    - rewrite Z.quot_mul; lia.
    - replace (10 ^ 60) with (1000 * 10 ^ 57) by done.
      replace (mv_m1 u * 10 ^ 57 * (1000 * 10 ^ 57)) with (mv_m1 u * 1000 * 10 ^ 57 * 10 ^ 57) by ring.
      replace (mv_m1 u * 1000) with (mv_m1 v * m) by lia. ring. }
  assert (Hm : int_range m).
  { assert (Z.abs m * Z.abs (mv_m1 v) < 10 ^ 9 * Z.abs (mv_m1 v)) by (rewrite <- Z.abs_mul, (Z.mul_comm m); lia).
    assert (Z.abs m < 10 ^ 9) by (apply (Z.mul_lt_mono_pos_r (Z.abs (mv_m1 v))); lia).
    unfold int_range, MANT_HI. lia. }
  rewrite round18_int by done. by apply holds_int.
Qed.

(** C22: op_div on two numbers with a divisor that is not zero: the result is a
    well-formed number equal to the exact quotient cut below its eighteenth
    digit, 0 below the smallest number and NUMOFLOW exactly above the largest;
    the long division needs no assertion and no int4 of it overflows.  For two
    integers this needs the fraction of the quotient in thousandths to be zero
    or large enough for the test in double precision ([short_exact]). *)
Theorem op_div_round g u v q :
  num_ok u -> num_ok v -> num_value v <> 0 -> short_exact u v ->
  exists out, op_div g u v q = (q' ← out; Ok (u, v, q')) /\
    holds (round18 (Z.quot (num_value u * 10 ^ 60) (num_value v))) out.
Proof.
  intros Hu Hv Hn Hx. pose proof (num_ok_flags u Hu) as [_ Su]. pose proof (num_ok_flags v Hv) as [_ Sv].
  unfold op_div. rewrite Su, Sv. simpl orb. cbv iota. rewrite !force_num_ok by done.
  cbn [mbind res_bind]. rewrite (num_value_nonzero v Hv Hn).
  eexists. split; [reflexivity|]. by apply div_num_spec.
Qed.

(** 1 by 3. *)
Lemma op_div_round_witness :
  exists out, op_div (mk_globals false false) (mk_mval 3 0 0 0 1000 []) (mk_mval 3 0 0 0 3000 []) literal_zero =
      (q' ← out; Ok (mk_mval 3 0 0 0 1000 [], mk_mval 3 0 0 0 3000 [], q')) /\
    holds (round18 (Z.quot (1000 * 10 ^ 57 * 10 ^ 60) (3000 * 10 ^ 57))) out.
Proof.
  apply (op_div_round (mk_globals false false) (mk_mval 3 0 0 0 1000 []) (mk_mval 3 0 0 0 3000 []) literal_zero);
    [by_compute|by_compute|vm_compute; discriminate|intros _ _; right; vm_compute; discriminate].
Defined.

(** 666999.998 and 999999.997. *)
Definition div_ex_u : mval := mk_mval 3 0 0 0 666999998 [].
Definition div_ex_v : mval := mk_mval 3 0 0 0 999999997 [].

(** Outside of [short_exact] op_div loses digits: 666999.998 divided by
    999999.997 is answered as 0.667 exactly, where the quotient to eighteen
    digits is 0.667000000001000..., as the test of the second word of the
    double in eb_mvint_div truncates a fraction of 1.000000003e-9 to nothing. *)
Theorem op_div_short_loses g :
  op_div g div_ex_u div_ex_v literal_zero = Ok (div_ex_u, div_ex_v, mk_mval 3 0 0 0 667 [48]) /\
  round18 (Z.quot (num_value div_ex_u * 10 ^ 60) (num_value div_ex_v)) = Some (667000000001000000 * 10 ^ 42).
Proof. destruct g. by vm_compute. Qed.

(** * The integer quotient *)

Lemma cleared_words m1 m0 n w :
  MANT_LO <= m1 < MANT_HI -> 0 <= m0 < MANT_HI -> 1 <= n -> mv_m1 w = m1 -> mv_m0 w = m0 ->
  exists w', clear_fraction (n + MV_XBIAS) w = Ok w' /\
    MANT_LO <= mv_m1 w' < MANT_HI /\ 0 <= mv_m0 w' < MANT_HI /\
    mag (mv_m1 w') (mv_m0 w') =
      if n <? 18 then mag m1 m0 / 10 ^ (18 - n) * 10 ^ (18 - n) else mag m1 m0.
Proof.
  intros H1 H0 Hn E1 E0. unfold clear_fraction, EXP_IDX_BIAL, EXP_IDX_BIAQ, MV_XBIAS, mag. rewrite E1, E0.
  replace (n + 62 <=? 62) with false by (symmetry; apply Z.leb_gt; lia).
  destruct (Z.ltb_spec (n + 62) (9 + 62)) as [H9|H9].
  - replace (n <? 18) with true by (symmetry; apply Z.ltb_lt; lia).
    replace (9 + 62 - (n + 62)) with (9 - n) by lia. rewrite ten_pwr_spec by lia. cbn [mbind res_bind].
    pose proof (pow10_pos (9 - n) ltac:(lia)) as Pz. pose proof (pow10_pos (n - 1) ltac:(lia)) as Pn.
    assert (HL : MANT_LO = 10 ^ (n - 1) * 10 ^ (9 - n)) by (rewrite <- Z.pow_add_r by lia; f_equal; unfold MANT_LO; replace (n - 1 + (9 - n)) with 8 by lia; done).
    replace (10 ^ (18 - n)) with (MANT_HI * 10 ^ (9 - n))
      by (unfold MANT_HI; replace 1000000000 with (10 ^ 9) by done; rewrite <- Z.pow_add_r by lia; f_equal; lia).
    num_consts. rewrite Z.quot_div_nonneg by lia. set (z := 10 ^ (9 - n)) in *.
    eexists. split; [done|]. simpl. rewrite <- Z.div_div, Z.div_add_l, (Z.div_small m0), !Z.add_0_r by lia.
    pose proof (Z.mul_div_le m1 z Pz). assert (10 ^ (n - 1) <= m1 / z) by (apply Z.div_le_lower_bound; lia).
    assert (10 ^ (n - 1) * z <= m1 / z * z) by (apply Z.mul_le_mono_nonneg_r; lia). lia.
  - destruct (Z.ltb_spec (n + 62) (18 + 62)) as [H18|H18].
    + replace (n <? 18) with true by (symmetry; apply Z.ltb_lt; lia).
      replace (18 + 62 - (n + 62)) with (18 - n) by lia. rewrite ten_pwr_spec by lia. cbn [mbind res_bind].
      pose proof (pow10_pos (18 - n) ltac:(lia)) as Pz. pose proof (pow10_pos (n - 9) ltac:(lia)) as Pn.
      assert (HL : MANT_HI = 10 ^ (n - 9) * 10 ^ (18 - n))
        by (unfold MANT_HI; rewrite <- Z.pow_add_r by lia; replace (n - 9 + (18 - n)) with 9 by lia; done).
      num_consts. rewrite Z.quot_div_nonneg by lia. set (z := 10 ^ (18 - n)) in *.
      eexists. split; [done|]. simpl.
      replace (m1 * 1000000000 + m0) with (m1 * 10 ^ (n - 9) * z + m0) by (rewrite HL; ring).
      rewrite Z.div_add_l by lia.
      pose proof (Z.mul_div_le m0 z Pz). assert (0 <= m0 / z) by (apply Z.div_pos; lia).
      assert (0 <= m0 / z * z) by (apply Z.mul_nonneg_nonneg; lia).
      rewrite Z.mul_add_distr_r, <- (Z.mul_assoc m1 _ z), <- HL. lia.
    + replace (n <? 18) with false by (symmetry; apply Z.ltb_ge; lia). exists w. rewrite E1, E0. split; [done|]. lia.
Qed.

Lemma idiv_store e s w :
  EXPLO <= e -> mv_m1 w <> 0 ->
  (fits ← fits_int e w;
   if fits : bool then demote w e s
   else if EXPHI <=? e then Err ERR_NUMOFLOW
   else Ok (store_flt s e (mv_m0 w) (mv_m1 w) w)) = store_float e s w.
Proof.
  intros He Hm. unfold store_float. replace (e <? EXPLO) with false by (symmetry; apply Z.ltb_ge; lia).
  replace (0 =? mv_m1 w) with false by (symmetry; apply Z.eqb_neq; lia). rewrite andb_false_r.
  destruct (Z.leb_spec EXPHI e) as [Hh|Hh].
  - unfold fits_int. replace (e <? EXP_INT_OVERF) with false by (symmetry; apply Z.ltb_ge; num_consts; lia).
    done.
  - done.
Qed.

(** The integer quotient [K] from the first digits of the quotient. *)
Lemma integer_digits mu mv c n R :
  0 <= mu -> 0 < mv -> 0 <= c <= 1 -> 1 <= n -> R = mu * 10 ^ (18 - c) / mv ->
  let K := mu * 10 ^ (n - c) / mv in
  let T := if n <? 18 then R / 10 ^ (18 - n) * 10 ^ (18 - n) else R in
  T * 10 ^ (n + 42) <= K * 10 ^ 60 < (T + 1) * 10 ^ (n + 42).
Proof.
  intros Hu Hv Hc Hn HR K T. pose proof (pow10_pos (n + 42) ltac:(lia)) as P42.
  unfold T. destruct (Z.ltb_spec n 18) as [H|H].
  - assert (HK : R / 10 ^ (18 - n) = K).
    { pose proof (pow10_pos (18 - n) ltac:(lia)). rewrite HR, Z.div_div by lia. unfold K.
      replace (10 ^ (18 - c)) with (10 ^ (n - c) * 10 ^ (18 - n)) by (rewrite <- Z.pow_add_r by lia; f_equal; lia).
      rewrite Z.mul_assoc. by rewrite Z.div_mul_cancel_r by lia. }
    rewrite HK. replace (10 ^ 60) with (10 ^ (18 - n) * 10 ^ (n + 42))
      by (rewrite <- Z.pow_add_r by lia; f_equal; lia). lia.
  - replace (10 ^ (n + 42)) with (10 ^ (n - 18) * 10 ^ 60) by (rewrite <- Z.pow_add_r by lia; f_equal; lia).
    pose proof (pow10_pos (n - 18) ltac:(lia)) as Pn.
    assert (HE : 10 ^ (n - c) = 10 ^ (18 - c) * 10 ^ (n - 18)) by (rewrite <- Z.pow_add_r by lia; f_equal; lia).
    pose proof (Z.mul_div_le (mu * 10 ^ (18 - c)) mv Hv) as L.
    pose proof (Z.mul_succ_div_gt (mu * 10 ^ (18 - c)) mv Hv) as U. rewrite <- HR in L, U.
    assert (R * 10 ^ (n - 18) <= K).
    { unfold K. apply Z.div_le_lower_bound; [lia|]. rewrite HE.
      apply (Z.mul_le_mono_nonneg_r _ _ (10 ^ (n - 18))) in L; lia. }
    assert (K < (R + 1) * 10 ^ (n - 18)).
    { unfold K. apply Z.div_lt_upper_bound; [lia|]. rewrite HE.
      apply (Z.mul_lt_mono_pos_r (10 ^ (n - 18))) in U; lia. }
    lia.
Qed.

Lemma idiv_float_norm u v q :
  flt_form u -> flt_form v ->
  holds (round18 (Z.quot (flt_value u) (flt_value v) * 10 ^ 60)) (idiv_float u v q).
Proof.
  intros Fu Fv. destruct (flt_abs u Fu) as [Au Su]. destruct (flt_abs v Fv) as [Av Sv].
  pose proof (flt_mant u Fu) as Mu. pose proof (flt_mant v Fv) as Mv.
  pose proof Fu as (_ & _ & _ & Us & Eu & _). pose proof Fv as (_ & _ & _ & Vs & Ev & _).
  pose proof (pow10_pos (mv_e u - EXPLO) ltac:(lia)) as Pu. pose proof (pow10_pos (mv_e v - EXPLO) ltac:(lia)) as Pv.
  destruct (quot_sign (mv_sgn u) (mv_sgn v) (mant u * 10 ^ (mv_e u - EXPLO)) (mant v * 10 ^ (mv_e v - EXPLO)) Us Vs)
    as [EQ EA]; [apply Z.mul_nonneg_nonneg; lia|apply Z.mul_pos_pos; lia|].
  rewrite <- Au, <- Av, <- Su, <- Sv in EQ, EA.
  destruct (sg_lxor (mv_sgn u) (mv_sgn v) Us Vs) as [Ss _]. unfold idiv_float.
  destruct (Z.ltb_spec (mv_e u - mv_e v + MV_XBIAS) MV_XBIAS) as [Hlt|Hge].
  { replace (Z.quot (flt_value u) (flt_value v)) with 0; [apply holds_ok; [by_compute|done]|].
    symmetry. apply Z.quot_small_iff; [nia|]. rewrite Au, Av.
    replace (mv_e v - EXPLO) with (mv_e u - EXPLO + (mv_e v - mv_e u)) by lia. rewrite Z.pow_add_r by lia.
    assert (1 <= mv_e v - mv_e u) by (clear - Hlt; lia).
    assert (10 ^ 1 <= 10 ^ (mv_e v - mv_e u)) by (apply Z.pow_le_mono_r; done).
    set (E := 10 ^ (mv_e v - mv_e u)) in *. assert (10 ^ 17 * 10 <= mant v * E) by (apply Z.mul_le_mono_nonneg; lia).
    replace (mant v * (10 ^ (mv_e u - EXPLO) * E)) with (mant v * E * 10 ^ (mv_e u - EXPLO)) by ring.
    apply Z.mul_lt_mono_pos_r; lia. }
  destruct (EB_DIV_spec u v Fu Fv) as (c & q0 & q1 & -> & Hc & R1 & R0 & Ec & EM). cbn [mbind res_bind].
  set (n := mv_e u - mv_e v + c). replace (mv_e u - mv_e v + MV_XBIAS + c) with (n + MV_XBIAS) by (unfold n; lia).
  assert (HK : Z.abs (Z.quot (flt_value u) (flt_value v)) = mant u * 10 ^ (n - c) / mant v).
  { rewrite EA, Au, Av. replace (mv_e u - EXPLO) with (n - c + (mv_e v - EXPLO)) by (unfold n; lia).
    rewrite Z.pow_add_r, Z.mul_assoc by (unfold n; lia). by rewrite Z.div_mul_cancel_r by lia. }
  destruct (Z.le_gt_cases n 0) as [Hn|Hn].
  - replace (Z.quot (flt_value u) (flt_value v)) with 0.
    + unfold clear_fraction. replace (n + MV_XBIAS <=? MV_XBIAS) with true by (symmetry; apply Z.leb_le; lia).
      cbn [mbind res_bind]. replace (n + MV_XBIAS) with 62 by (unfold n, MV_XBIAS in *; lia).
      change (fits_int 62 literal_zero) with (Ok true). cbn [mbind res_bind].
      assert (Hs : mv_sgn u = 0 \/ mv_sgn u = 1) by lia. assert (Ht : mv_sgn v = 0 \/ mv_sgn v = 1) by lia.
      destruct Hs as [-> | ->], Ht as [-> | ->]; (eexists; split; [reflexivity|]; split; [by_compute|reflexivity]).
    + symmetry. assert (c = 0 /\ n = 0) as [C0 N0] by (unfold n in *; lia).
      rewrite C0, N0 in HK. change (10 ^ (0 - 0)) with 1 in HK. rewrite Z.mul_1_r, Z.div_small in HK; [lia|].
      destruct (Z.leb_spec (mant v) (mant u)); lia.
  - destruct (cleared_words q1 q0 n (set_m0m1 q0 q1 q)) as (w & -> & W1 & W0 & EW); try done; [lia|].
    cbn [mbind res_bind]. rewrite idiv_store by (num_consts; lia).
    pose proof (integer_digits (mant u) (mant v) c n (mag q1 q0) ltac:(lia) ltac:(lia) Hc ltac:(lia) EM) as HI.
    cbv zeta in HI. rewrite <- EW, <- HK in HI.
    rewrite (round18_raw _ (mag (mv_m1 w) (mv_m0 w)) (Z.lxor (mv_sgn u) (mv_sgn v)) (n + MV_XBIAS)); try done.
    + by apply store_float_spec.
    + rewrite Z.abs_mul, (Z.abs_eq (10 ^ 60)), EA, EQ by lia. ring.
    + unfold mag. num_consts. lia.
    + unfold n. num_consts. lia.
    + intros _. rewrite Z.abs_mul, (Z.abs_eq (10 ^ 60)) by lia.
      replace (n + MV_XBIAS - EXPLO) with (n + 42) by (num_consts; lia). done.
    + num_consts. lia.
Qed.

Lemma idiv_float_spec u v q x :
  float_of u x -> flt_form v -> holds (round18 (Z.quot x (flt_value v) * 10 ^ 60)) (idiv_float u v q).
Proof.
  intros [[Fu <-]|[-> ->]] Fv; [by apply idiv_float_norm|].
  rewrite Zquot_0_l, Z.mul_0_l. unfold idiv_float. pose proof Fv as (_ & _ & _ & _ & Ev & _).
  replace (mv_e literal_zero - mv_e v + MV_XBIAS <? MV_XBIAS) with true
    by (symmetry; apply Z.ltb_lt; simpl; num_consts; lia).
  apply holds_ok; [by_compute|done].
Qed.

Lemma idiv_num_spec u v q :
  num_ok u -> num_ok v -> num_value v <> 0 ->
  holds (round18 (Z.quot (num_value u) (num_value v) * 10 ^ 60))
    (if ints u v then
       promo ← eb_int_div (mv_m1 u) (mv_m1 v);
       match promo with
       | Some (q0, q1) => Ok (store_int q1 (set_m0m1 q0 q1 q))
       | None => w ← promote u; y ← promote v; idiv_float w y q
       end
     else if has MV_INT u then w ← promote u; idiv_float w v q
     else if has MV_INT v then w ← promote v; idiv_float u w q
     else idiv_float u v q).
Proof.
  intros Hu Hv Hn.
  assert (Hf : forall a b, float_of a (num_value u) -> float_of b (num_value v) ->
    holds (round18 (Z.quot (num_value u) (num_value v) * 10 ^ 60)) (idiv_float a b q)).
  { intros a b Ha Hb. destruct (float_nonzero b _ Hb Hn) as [Fb <-]. by apply idiv_float_spec. }
  apply (dispatch u v Hu Hv _ (fun a b => idiv_float a b q)); [done|].
  intros Iu Iv. pose proof (int_form_range u Iu) as Ru. pose proof (int_form_range v Iv) as Rv.
  assert (Hv0 : mv_m1 v <> 0) by (intros E; apply Hn; rewrite num_value_int, E by done; lia).
  destruct (eb_int_div_spec (mv_m1 u) (mv_m1 v) Ru Rv Hv0) as (H1 & H2).
  pose proof (dispatch_both u v _ (fun a b => idiv_float a b q) Hf Iu Iv) as Hb.
  destruct (Z.le_gt_cases (10 ^ 9 * Z.abs (mv_m1 v)) (Z.abs (mv_m1 u * 1000))) as [Hbig|Hsmall].
  { by rewrite H1. }
  destruct (H2 Hsmall) as (q0 & ->). cbn [mbind res_bind]. rewrite !num_value_int by done.
  rewrite Z.quot_mul_cancel_r by lia. set (m := Z.quot (mv_m1 u) (mv_m1 v)) in *.
  assert (Hm : int_range (m * 1000)).
  { pose proof (Z.quot_rem (mv_m1 u) (mv_m1 v) Hv0) as E. pose proof (Z.rem_bound_abs (mv_m1 u) (mv_m1 v) Hv0).
    pose proof (Z.rem_sign_mul (mv_m1 u) (mv_m1 v) Hv0) as Sg. fold m in E.
    assert (Z.abs m * Z.abs (mv_m1 v) <= Z.abs (mv_m1 u)).
    { rewrite <- Z.abs_mul. pose proof (Z.mul_quot_le (Z.abs (mv_m1 u)) (Z.abs (mv_m1 v))).
      unfold m. rewrite Z.abs_mul, <- Z.quot_abs by done. lia. }
    assert (Z.abs m * 1000 < 10 ^ 9) by (apply (Z.mul_lt_mono_pos_r (Z.abs (mv_m1 v))); lia).
    unfold int_range, MANT_HI. lia. }
  replace (m * 10 ^ 60) with (m * 1000 * 10 ^ 57) by (replace (10 ^ 60) with (1000 * 10 ^ 57) by done; ring).
  rewrite round18_int by done. by apply holds_int.
Qed.

(** C34: op_idiv on two numbers with a divisor that is not zero: the result is a
    well-formed number equal to the quotient truncated to an integer (and cut
    below its eighteenth digit), with NUMOFLOW exactly above the largest
    number; unlike op_div its short form for integers is always exact. *)
Theorem op_idiv_round g u v q :
  num_ok u -> num_ok v -> num_value v <> 0 ->
  exists out, op_idiv g u v q = (q' ← out; Ok (u, v, q')) /\
    holds (round18 (Z.quot (num_value u) (num_value v) * 10 ^ 60)) out.
Proof.
  intros Hu Hv Hn. pose proof (num_ok_flags u Hu) as [_ Su]. pose proof (num_ok_flags v Hv) as [_ Sv].
  unfold op_idiv. rewrite Su, Sv. simpl orb. cbv iota. rewrite !force_num_ok by done.
  cbn [mbind res_bind]. rewrite (num_value_nonzero v Hv Hn).
  eexists. split; [reflexivity|]. by apply idiv_num_spec.
Qed.

(** 1234567.89 by -2. *)
Lemma op_idiv_round_witness :
  exists out, op_idiv (mk_globals false false) add_ex_u (mk_mval 3 0 0 0 (-2000) []) literal_zero =
      (q' ← out; Ok (add_ex_u, mk_mval 3 0 0 0 (-2000) [], q')) /\
    holds (round18 (Z.quot (num_value add_ex_u) (-2000 * 10 ^ 57) * 10 ^ 60)) out.
Proof.
  apply (op_idiv_round (mk_globals false false) add_ex_u (mk_mval 3 0 0 0 (-2000) []) literal_zero);
    [by_compute|by_compute|vm_compute; discriminate].
Defined.

(** * Modulo, and errors *)

(** Flt_mod on two integers is the floored modulus (of the sign of the
    divisor), exact, within the int4 range, and the operands stay. *)
Theorem flt_mod_int g u v q :
  int_form u -> int_form v -> num_value v <> 0 ->
  exists q', flt_mod g u v q = Ok (u, v, q') /\ int_form q' /\
    num_value q' = num_value u mod num_value v.
Proof.
  intros Iu Iv Hn. assert (Hu : num_ok u) by (by left). assert (Hv : num_ok v) by (by left).
  pose proof (num_ok_flags u Hu) as [_ Su]. pose proof (num_ok_flags v Hv) as [_ Sv].
  pose proof (int_form_range u Iu) as Ru. pose proof (int_form_range v Iv) as Rv.
  unfold flt_mod. rewrite Su, Sv. simpl orb. cbv iota. rewrite !force_num_ok by done.
  cbn [mbind res_bind]. rewrite (num_value_nonzero v Hv Hn), ints_has.
  replace (has MV_INT u) with true by (symmetry; apply Iu). replace (has MV_INT v) with true by (symmetry; apply Iv).
  cbn [andb]. assert (Hv0 : mv_m1 v <> 0) by (intros E; apply Hn; rewrite num_value_int, E by done; lia).
  rewrite eb_int_mod_spec by done. cbn [mbind res_bind].
  assert (Hm : int_range (mv_m1 u mod mv_m1 v)).
  { unfold int_range in *. destruct (Z.lt_total (mv_m1 v) 0) as [H|[H|H]]; [|lia|].
    - pose proof (Z.mod_neg_bound (mv_m1 u) (mv_m1 v) H). lia.
    - pose proof (Z.mod_pos_bound (mv_m1 u) (mv_m1 v) H). lia. }
  eexists. split; [done|]. split; [by repeat split; simpl; apply Hm|].
  rewrite !num_value_int by done. rewrite Z.mul_mod_distr_r by lia. unfold num_value. simpl. done.
Qed.

(** -7.5 modulo 2. *)
Lemma flt_mod_int_witness :
  exists q', flt_mod (mk_globals false false) (mk_mval 3 0 0 0 (-7500) []) (mk_mval 3 0 0 0 2000 []) literal_zero =
      Ok (mk_mval 3 0 0 0 (-7500) [], mk_mval 3 0 0 0 2000 [], q') /\ int_form q' /\
    num_value q' = (-7500 * 10 ^ 57) mod (2000 * 10 ^ 57).
Proof.
  apply (flt_mod_int (mk_globals false false) (mk_mval 3 0 0 0 (-7500) []) (mk_mval 3 0 0 0 2000 []));
    [by_compute|by_compute|vm_compute; discriminate].
Defined.

Lemma zero_divisor v : num_ok v -> num_value v = 0 -> has MV_INT v && (0 =? mv_m1 v) = true.
Proof.
  intros [H|H] Hz.
  - rewrite num_value_int in Hz by done. destruct H as (_ & -> & _). apply Z.eqb_eq. lia.
  - pose proof (flt_value_sign v H) as [Hn _]. by rewrite num_value_flt in Hz.
Qed.

(** For two numbers, a divisor that is zero is the error DIVZERO in op_div,
    op_idiv and flt_mod. *)
Lemma arith_divzero g u v q :
  num_ok u -> num_ok v -> num_value v = 0 ->
  op_div g u v q = Err ERR_DIVZERO /\ op_idiv g u v q = Err ERR_DIVZERO /\ flt_mod g u v q = Err ERR_DIVZERO.
Proof.
  intros Hu Hv Hz. pose proof (num_ok_flags u Hu) as [_ Su]. pose proof (num_ok_flags v Hv) as [_ Sv].
  unfold op_div, op_idiv, flt_mod. rewrite Su, Sv. simpl orb. cbv iota. rewrite !force_num_ok by done.
  cbn [mbind res_bind]. by rewrite (zero_divisor v Hv Hz).
Qed.
