(* ===== verification/Mvalconv.v ===== *)
(** Between C integers and M numbers (mvalconv.c): integers of 32 and 64 bits
    to a cell and back, the conversion to a double, and the test of a cell for
    a small integer. *)

From stdpp Require Import base list numbers option tactics.
From Stdlib Require Import ZArith Lia Zquot.
From S2P Require Import Prelude Mval AddSub Numstr Double Muldiv Arith.

Open Scope Z_scope.

Definition MAXPOSINT4 : Z := 2147483647.
Definition MAXUINT4 : Z := 4294967295.

(** The value of a C expression of type gtm_int64_t. *)
Definition int8 (z : Z) : res Z :=
  if (-9223372036854775808 <=? z) && (z <? 9223372036854775808) then Ok z else Err UB.

(** * From integers *)

Definition xi2mval (v : mval) (i : Z) : res mval :=
  if i <? INT_HI then
    Ok (mk_mval (Z.lor (mvtype v) MV_INT) (mv_sgn v) (mv_e v) (mv_m0 v)
          (i32 (MV_BIAS * u32 (if negb (mv_sgn v =? 0) then - i else i))) (mv_str v))
  else if i <? MANT_HI then
    '(m1, exp) ← scale_up 4 i EXP_IDX_BIAL;
    Ok (mk_mval (mvtype v) (mv_sgn v) exp 0 m1 (mv_str v))
  else
    Ok (mk_mval (mvtype v) (mv_sgn v) (EXP_IDX_BIAL + 1) (Z.rem i 10 * MANT_LO) (Z.quot i 10) (mv_str v)).

Definition i2usmval (v : mval) (i : Z) : res mval :=
  xi2mval (set_sgn 0 (set_mvtype MV_NM v)) i.

Definition i2mval (v : mval) (i : Z) : res mval :=
  let v := set_mvtype MV_NM v in
  if i <? 0 then
    n ← int4 (- i);
    xi2mval (set_sgn 1 v) n
  else xi2mval (set_sgn 0 v) i.

Definition MV_FORCE_MVAL (v : mval) (i : Z) : res mval :=
  if (1000000 <=? i) || (i <=? -1000000) then i2mval v i
  else m1 ← int4 (i * MV_BIAS); Ok (store_int m1 v).

Definition mint2mval (src : Z) (ret : mval) : res mval := i2mval ret src.

(** The loop that normalises two words. *)
Fixpoint normalise (fuel : nat) (high low exp : Z) : res (Z * Z * Z) :=
  match fuel with
  | O => Err UB
  | S fuel' =>
      if high <? MANT_LO then
        normalise fuel' (u32 (high * 10 + Z.quot low MANT_LO)) (u32 (Z.rem low MANT_LO * 10)) (exp - 1)
      else Ok (high, low, exp)
  end.

(** The characters that the formats %llu and %lld print. *)
Fixpoint print_digits (fuel : nat) (n : Z) (acc : list Z) : list Z :=
  match fuel with
  | O => acc
  | S fuel' => if n <? 10 then 48 + n :: acc else print_digits fuel' (n / 10) (48 + n mod 10 :: acc)
  end.
Definition print_llu (n : Z) : list Z := print_digits 20 n [].
Definition print_lld (n : Z) : list Z := if n <? 0 then 45 :: print_llu (- n) else print_llu n.

Definition xi82mval (v : mval) (i : Z) : res mval :=
  if i <? INT_HI then
    Ok (mk_mval (Z.lor (mvtype v) MV_INT) (mv_sgn v) (mv_e v) (mv_m0 v)
          (i32 (MV_BIAS * u32 (if negb (mv_sgn v =? 0) then - i else i))) (mv_str v))
  else if i <? MANT_HI then
    '(high, exp) ← scale_up 4 i EXP_IDX_BIAL;
    Ok (mk_mval (mvtype v) (mv_sgn v) exp 0 high (mv_str v))
  else if i <? MANT_HI * MANT_HI then
    '(high, low, exp) ← normalise 10 (Z.quot i MANT_HI) (Z.rem i MANT_HI) (EXP_IDX_BIAL + 9);
    Ok (mk_mval (mvtype v) (mv_sgn v) exp low high (mv_str v))
  else
    buf ← (if negb (mv_sgn v =? 0) then n ← int8 (- i); Ok (print_lld n) else Ok (print_llu i));
    Ok (mk_mval MV_STR (mv_sgn v) (mv_e v) (mv_m0 v) (mv_m1 v) buf).

Definition ui82mval (v : mval) (i : Z) : res mval :=
  xi82mval (set_sgn 0 (set_mvtype MV_NM v)) i.

Definition i82mval (v : mval) (i : Z) : res mval :=
  let v := set_mvtype MV_NM v in
  if i <? 0 then
    absi ← int8 (- i);
    xi82mval (set_sgn 1 v) absi
  else xi82mval (set_sgn 0 v) i.

(** * To a double *)

Fixpoint double_up (fuel : nat) (x y exp : Z) : res (Z * Z * Z) :=
  match fuel with
  | O => Err UB
  | S fuel' =>
      if EXP_IDX_BIAL <? exp then
        double_up fuel' (dmul x (dbl MANT_HI)) (dmul y (dbl MANT_HI)) (exp - 9)
      else Ok (x, y, exp)
  end.

Fixpoint double_down (fuel : nat) (x y exp : Z) : res (Z * Z * Z) :=
  match fuel with
  | O => Err UB
  | S fuel' =>
      if exp <? MV_XBIAS then
        double_down fuel' (ddiv x (dbl MANT_HI)) (ddiv y (dbl MANT_HI)) (exp + 9)
      else Ok (x, y, exp)
  end.

(** The double of a cell that has a number. *)
Definition double_of (v : mval) : res Z :=
  let x := dbl (mv_m1 v) in
  if has MV_INT v then Ok (ddiv x (dbl MV_BIAS))
  else
    let y := ddiv (dbl (mv_m0 v)) (dbl MANT_HI) in
    '(x, y, exp) ← double_up 6 x y (mv_e v);
    '(x, y, exp) ← double_down 6 x y exp;
    p ← ten_pwr (EXP_IDX_BIAL - exp);
    let x := dadd (ddiv x (dbl p)) (ddiv y (dbl p)) in
    Ok (if negb (mv_sgn v =? 0) then - x else x).

Definition mval2double (g : globals) (v : mval) : res (Z * mval) :=
  v ← MV_FORCE_NUM g v;
  x ← double_of v; Ok (x, v).

(** * To integers *)

(** The integer part of a floating form of exponent up to EXP_IDX_BIAL. *)
Definition word_to_int (v : mval) : res Z :=
  if mv_e v <? MV_XBIAS then Ok 0
  else
    p ← ten_pwr (EXP_IDX_BIAL - mv_e v);
    Ok (Z.quot (if negb (mv_sgn v =? 0) then - mv_m1 v else mv_m1 v) p).

Definition mval2i (g : globals) (v : mval) : res (Z * mval) :=
  v ← MV_FORCE_NUM g v;
  i ← (if has MV_INT v then Ok (Z.quot (mv_m1 v) MV_BIAS)
       else if EXP_IDX_BIAL <? mv_e v then
         j ← double_of v;
         if dbl MAXPOSINT4 <? j then Ok MAXPOSINT4
         else if j <? - dbl MAXPOSINT4 then Ok (- MAXPOSINT4)
         else dtrunc j
       else word_to_int v);
  Ok (i, v).

Definition MV_FORCE_INT (g : globals) (v : mval) : res (Z * mval) :=
  v ← MV_FORCE_DEFINED g v;
  if has MV_INT v then Ok (Z.quot (mv_m1 v) MV_BIAS, v) else mval2i g v.

(** The conversion of a double to uint4, undefined out of its range. *)
Definition dtrunc_u (j : Z) : res Z :=
  let t := Z.quot j ONE in if (0 <=? t) && (t <=? MAXUINT4) then Ok t else Err UB.

Definition mval2ui (g : globals) (v : mval) : res (Z * mval) :=
  v ← MV_FORCE_NUM g v;
  i ← (if has MV_INT v then Ok (u32 (Z.quot (mv_m1 v) MV_BIAS))
       else if EXP_IDX_BIAL <? mv_e v then
         j ← double_of v;
         if j <=? dbl MAXUINT4 then dtrunc_u j else Ok MAXUINT4
       else i ← word_to_int v; Ok (u32 i));
  Ok (i, v).

(** [while (exp > EXP_IDX_BIAL + 18)] on both words. *)
Fixpoint scale_words (fuel : nat) (x y exp : Z) : res (Z * Z * Z) :=
  match fuel with
  | O => Err UB
  | S fuel' =>
      if EXP_IDX_BIAL + 18 <? exp then
        x ← int8 (x * MANT_HI);
        y ← int8 (y * MANT_HI);
        scale_words fuel' x y (exp - 9)
      else Ok (x, y, exp)
  end.

(** [while (exp > EXP_IDX_BIAL + 9)] on the first word. *)
Fixpoint scale_word (fuel : nat) (x exp : Z) : res (Z * Z) :=
  match fuel with
  | O => Err UB
  | S fuel' =>
      if EXP_IDX_BIAL + 9 <? exp then
        x ← int8 (x * MANT_HI);
        scale_word fuel' x (exp - 9)
      else Ok (x, exp)
  end.

(** The two words brought to the scale of an integer. *)
Definition words_to_int8 (m1 m0 exp : Z) : res (Z * Z) :=
  if 0 <? m0 then
    x ← int8 (m1 * MANT_HI);
    '(x, y, exp) ← scale_words 4 x m0 exp;
    if EXP_IDX_BIAL + 9 <=? exp then
      p ← ten_pwr (exp - EXP_IDX_BIAL - 9);
      x ← int8 (x * p); y ← int8 (y * p); Ok (x, y)
    else
      p ← ten_pwr (EXP_IDX_BIAL + 9 - exp);
      Ok (Z.quot x p, Z.quot y p)
  else
    '(x, exp) ← scale_word 5 m1 exp;
    p ← ten_pwr (exp - EXP_IDX_BIAL);
    x ← int8 (x * p); Ok (x, m0).

Definition mval2i8 (g : globals) (v : mval) : res (Z * mval) :=
  v ← MV_FORCE_NUM g v;
  i ← (if has MV_INT v then Ok (Z.quot (mv_m1 v) MV_BIAS)
       else if EXP_IDX_BIAL <? mv_e v then
         '(x, y) ← words_to_int8 (mv_m1 v) (mv_m0 v) (mv_e v);
         int8 (if negb (mv_sgn v =? 0) then - x - y else x + y)
       else word_to_int v);
  Ok (i, v).

Definition mval2ui8 (g : globals) (v : mval) : res (Z * mval) :=
  '(i, v) ← mval2i8 g v; Ok (i mod 18446744073709551616, v).

(** The integer, when the cell is one of nine digits at most; the integer
    stored while the answer is FALSE is left out. *)
Definition isint (v : mval) : res (option Z) :=
  if negb (has MV_NM v) || has MV_NUM_APPROX v then Ok None
  else if has MV_INT v then
    let m1_div := Z.quot (mv_m1 v) MV_BIAS in
    Ok (if m1_div * MV_BIAS =? mv_m1 v then Some m1_div else None)
  else if (mv_e v <=? MV_XBIAS) || ((EXP_IDX_BIAL <? mv_e v) || negb (mv_m0 v =? 0)) then Ok None
  else
    divisor ← ten_pwr (EXP_IDX_BIAL - mv_e v);
    m1 ← (if negb (mv_sgn v =? 0) then int4 (- mv_m1 v) else Ok (mv_m1 v));
    let m1_div := Z.quot m1 divisor in
    Ok (if m1_div * divisor =? m1 then Some m1_div else None).

Definition mval2num (g : globals) (v : mval) : res mval :=
  if MV_IS_SQLNULL v then Err ERR_ZYSQLNULLNOTVALID
  else
    v ← MV_FORCE_NUM g v;
    if has MV_NUM_APPROX v then n2s v else Ok v.

(** * Integers of 32 bits *)

Lemma small_int_word s i :
  0 <= s <= 1 -> 0 <= i < INT_HI ->
  i32 (MV_BIAS * u32 (if negb (s =? 0) then - i else i)) = sg s * i * 1000.
Proof.
  unfold INT_HI, MV_BIAS, i32, u32, sg. intros Hs Hi. assert (s = 0 \/ s = 1) as [-> | ->] by lia; simpl negb; simpl Z.eqb; cbv iota.
  - rewrite (Z.mod_small i), Z.mod_small by lia. lia.
  - destruct (Z.eq_dec i 0) as [->|]; [done|].
    assert ((- i) mod 4294967296 = 4294967296 - i) as -> by (symmetry; apply Z.mod_unique with (-1); lia).
    assert ((1000 * (4294967296 - i) + 2147483648) mod 4294967296 = 2147483648 - 1000 * i) as ->
      by (symmetry; apply Z.mod_unique with 1000; lia). lia.
Qed.

(** A nonzero number written down by its words and exponent. *)
Lemma flt_cell t s e m0 m1 str x :
  t = MV_NM -> 0 <= s <= 1 -> EXPLO <= e < EXPHI -> MANT_LO <= m1 < MANT_HI -> 0 <= m0 < MANT_HI ->
  sg s * (mag m1 m0 * 10 ^ (e - EXPLO)) = x ->
  num_ok (mk_mval t s e m0 m1 str) /\ num_value (mk_mval t s e m0 m1 str) = x.
Proof. intros -> Hs He H1 H0 <-. split; [right; repeat split; simpl; lia|done]. Qed.

Lemma int_cell t s e m0 i str :
  t = 3 -> 0 <= s <= 1 -> 0 <= i < INT_HI ->
  num_ok (mk_mval t s e m0 (sg s * i * 1000) str) /\
  num_value (mk_mval t s e m0 (sg s * i * 1000) str) = sg s * i * 10 ^ 60.
Proof.
  intros -> Hs Hi. split.
  - left. repeat split; simpl; num_consts; destruct (sg_cases s Hs) as [-> | ->]; lia.
  - unfold num_value. simpl. replace (10 ^ 60) with (1000 * 10 ^ 57) by done. ring.
Qed.

(** The scaling of an integer of seven to nine digits. *)
Lemma scaled_cell s i str :
  0 <= s <= 1 -> INT_HI <= i < MANT_HI ->
  exists m1 exp, scale_up 4 i EXP_IDX_BIAL = Ok (m1, exp) /\
    num_ok (mk_mval MV_NM s exp 0 m1 str) /\ num_value (mk_mval MV_NM s exp 0 m1 str) = sg s * i * 10 ^ 60.
Proof.
  intros Hs Hi. destruct (scale_up_spec 4 i EXP_IDX_BIAL) as (k & -> & Hk & Hr); [num_consts; lia| |].
  { change (10 ^ Z.of_nat 4) with 10000. num_consts. lia. }
  do 2 eexists. split; [done|]. unfold EXP_IDX_BIAL. apply flt_cell; try done; try (num_consts; lia).
  unfold mag. rewrite Z.add_0_r. num_consts.
  replace (10 ^ 60) with (10 ^ k * 1000000000 * 10 ^ (9 + 62 - k - (-42 + 62))); [ring|].
  replace 1000000000 with (10 ^ 9) by done. rewrite <- !Z.pow_add_r by lia. f_equal. lia.
Qed.

Lemma xi2mval_spec v i :
  mvtype v = MV_NM -> 0 <= mv_sgn v <= 1 -> 0 <= i < 4294967296 ->
  exists w, xi2mval v i = Ok w /\ num_ok w /\ num_value w = sg (mv_sgn v) * i * 10 ^ 60.
Proof.
  intros Ht Hs Hi. unfold xi2mval. destruct (Z.ltb_spec i INT_HI).
  - rewrite small_int_word, Ht by lia. eexists. split; [done|]. apply int_cell; [done|done|lia].
  - destruct (Z.ltb_spec i MANT_HI).
    + destruct (scaled_cell (mv_sgn v) i (mv_str v)) as (m1 & exp & -> & H1 & H2); [done|lia|].
      cbn [mbind res_bind]. rewrite Ht. eexists. by split.
    + eexists. split; [done|]. rewrite Z.rem_mod_nonneg, Z.quot_div_nonneg by (num_consts; lia).
      pose proof (Z.div_mod i 10 ltac:(lia)). pose proof (Z.mod_pos_bound i 10 ltac:(lia)).
      unfold EXP_IDX_BIAL. apply flt_cell; try done; try (num_consts; lia).
      unfold mag. num_consts. change (9 + 62 + 1 - (-42 + 62)) with 52.
      replace (10 ^ 60) with (100000000 * 10 ^ 52) by done.
      assert (i / 10 * 1000000000 + i mod 10 * 100000000 = i * 100000000) as -> by lia. ring.
Qed.

Lemma i2mval_spec v i :
  -2147483648 < i < 2147483648 ->
  exists w, i2mval v i = Ok w /\ num_ok w /\ num_value w = i * 10 ^ 60.
Proof.
  intros Hi. unfold i2mval. destruct (Z.ltb_spec i 0).
  - rewrite int4_ok by lia. cbn [mbind res_bind].
    destruct (xi2mval_spec (set_sgn 1 (set_mvtype MV_NM v)) (- i)) as (w & -> & H1 & H2); [done|simpl; lia|lia|].
    exists w. split; [done|]. split; [done|]. rewrite H2. simpl mv_sgn. change (sg 1) with (-1). ring.
  - destruct (xi2mval_spec (set_sgn 0 (set_mvtype MV_NM v)) i) as (w & -> & H1 & H2); [done|simpl; lia|lia|].
    exists w. split; [done|]. split; [done|]. rewrite H2. simpl mv_sgn. change (sg 0) with 1. ring.
Qed.

Lemma MV_FORCE_MVAL_spec v i :
  -2147483648 < i < 2147483648 ->
  exists w, MV_FORCE_MVAL v i = Ok w /\ num_ok w /\ num_value w = i * 10 ^ 60.
Proof.
  intros Hi. unfold MV_FORCE_MVAL. destruct ((1000000 <=? i) || (i <=? -1000000)) eqn:E; [by apply i2mval_spec|].
  apply orb_false_iff in E as [E1 E2]. zbool. rewrite int4_ok by (unfold MV_BIAS; lia). cbn [mbind res_bind].
  eexists. split; [done|]. split.
  - left. repeat split; simpl; num_consts; lia.
  - unfold num_value. simpl. unfold MV_BIAS. replace (10 ^ 60) with (1000 * 10 ^ 57) by done. ring.
Qed.

(** * Back to an integer *)

(** The mantissa over its exponent. *)
Lemma flt_quot w :
  flt_form w ->
  Z.quot (flt_value w) (10 ^ 60) = sg (mv_sgn w) * (mant w * 10 ^ (mv_e w - EXPLO) / 10 ^ 60).
Proof.
  intros H. destruct (flt_abs w H) as [A S]. pose proof (flt_mant w H) as M.
  destruct H as (_ & _ & _ & Hs & He & _). pose proof (pow10_pos (mv_e w - EXPLO) ltac:(lia)).
  rewrite S, A. destruct (sg_cases (mv_sgn w) Hs) as [-> | ->].
  - rewrite !Z.mul_1_l. apply Z.quot_div_nonneg; [nia|lia].
  - replace (-1 * (mant w * 10 ^ (mv_e w - EXPLO))) with (- (mant w * 10 ^ (mv_e w - EXPLO))) by lia.
    rewrite Z.quot_opp_l, Z.quot_div_nonneg by (lia || nia). lia.
Qed.

Lemma int_quot w : int_form w -> Z.quot (num_value w) (10 ^ 60) = Z.quot (mv_m1 w) MV_BIAS.
Proof.
  intros H. rewrite num_value_int by done. unfold MV_BIAS.
  replace (10 ^ 60) with (1000 * 10 ^ 57) by done. by rewrite Z.quot_mul_cancel_r by lia.
Qed.

Lemma word_to_int_spec w :
  flt_form w -> mv_e w <= EXP_IDX_BIAL ->
  word_to_int w = Ok (Z.quot (flt_value w) (10 ^ 60)).
Proof.
  intros H He. rewrite flt_quot by done. pose proof (flt_mant w H) as M.
  destruct H as (_ & _ & _ & Hs & Hx & H1 & H0). unfold word_to_int, EXP_IDX_BIAL in *.
  destruct (Z.ltb_spec (mv_e w) MV_XBIAS).
  - rewrite Z.div_small; [f_equal; lia|]. pose proof (pow10_pos (mv_e w - EXPLO) ltac:(lia)).
    assert (10 ^ (mv_e w - EXPLO) <= 10 ^ 42) by (apply Z.pow_le_mono_r; num_consts; lia).
    split; [nia|]. replace (10 ^ 60) with (10 ^ 18 * 10 ^ 42) by done. nia.
  - num_consts. rewrite ten_pwr_spec by lia. cbn [mbind res_bind]. f_equal.
    set (n := 9 + 62 - mv_e w). pose proof (pow10_pos n ltac:(lia)) as Pn.
    assert (E : mant w * 10 ^ (mv_e w - (-42 + 62)) / 10 ^ 60 = mv_m1 w / 10 ^ n).
    { replace (10 ^ 60) with (10 ^ 9 * 10 ^ n * 10 ^ (mv_e w - (-42 + 62)))
        by (rewrite <- !Z.pow_add_r by lia; f_equal; lia).
      rewrite Z.div_mul_cancel_r by (try apply Z.pow_nonzero; lia).
      rewrite <- Z.div_div by lia. unfold mant. num_consts.
      rewrite Z.div_add_l, (Z.div_small (mv_m0 w)), Z.add_0_r by lia. done. }
    rewrite E. fold n. unfold sg. destruct (Z.eqb_spec (mv_sgn w) 0); simpl negb; cbv iota.
    + rewrite Z.quot_div_nonneg by lia. lia.
    + rewrite Z.quot_opp_l, Z.quot_div_nonneg by lia. lia.
Qed.

Lemma mval2i_spec g v :
  num_ok v -> Z.abs (num_value v) < 10 ^ 69 ->
  mval2i g v = Ok (Z.quot (num_value v) (10 ^ 60), v).
Proof.
  intros Hv Hr. unfold mval2i. rewrite force_num_ok by done. cbn [mbind res_bind].
  destruct (has MV_INT v) eqn:E.
  - rewrite int_quot by (by apply has_int_form). done.
  - pose proof (has_flt_form v Hv E) as F. rewrite num_value_flt in * by done.
    assert (He : mv_e v <= EXP_IDX_BIAL).
    { destruct (Z.leb_spec (mv_e v) EXP_IDX_BIAL) as [|Hgt]; [done|]. exfalso.
      destruct (flt_abs v F) as [A _]. rewrite A in Hr. pose proof (flt_mant v F) as M.
      assert (10 ^ 52 <= 10 ^ (mv_e v - EXPLO)) by (apply Z.pow_le_mono_r; unfold EXP_IDX_BIAL in *; num_consts; lia).
      replace (10 ^ 69) with (10 ^ 17 * 10 ^ 52) in Hr by done. nia. }
    replace (EXP_IDX_BIAL <? mv_e v) with false by (symmetry; apply Z.ltb_ge; lia).
    rewrite word_to_int_spec by done. done.
Qed.

(** * Integers of 64 bits *)

Lemma int8_ok z : -9223372036854775808 <= z < 9223372036854775808 -> int8 z = Ok z.
Proof.
  intros. unfold int8.
  by replace ((-9223372036854775808 <=? z) && (z <? 9223372036854775808)) with true
    by (symmetry; apply andb_true_intro; split; [apply Z.leb_le|apply Z.ltb_lt]; lia).
Qed.

Lemma normalise_spec fuel high low exp :
  0 < high < MANT_HI -> 0 <= low < MANT_HI -> 10 ^ 9 <= high * 10 ^ Z.of_nat fuel ->
  exists h l k, normalise fuel high low exp = Ok (h, l, exp - k) /\ 0 <= k < Z.of_nat fuel /\
    MANT_LO <= h < MANT_HI /\ 0 <= l < MANT_HI /\ mag h l = mag high low * 10 ^ k.
Proof.
  revert high low exp. induction fuel as [|fuel IH]; intros high low exp Hh Hl Hf.
  { num_consts. simpl in Hf. lia. }
  cbn [normalise]. destruct (Z.ltb_spec high MANT_LO).
  - unfold u32. num_consts. rewrite Z.rem_mod_nonneg, Z.quot_div_nonneg by lia.
    pose proof (Z.div_mod low 100000000 ltac:(lia)). pose proof (Z.mod_pos_bound low 100000000 ltac:(lia)).
    set (a := low / 100000000) in *. set (b := low mod 100000000) in *.
    rewrite !Z.mod_small by lia.
    rewrite Nat2Z.inj_succ, Z.pow_succ_r in Hf by lia.
    destruct (IH (high * 10 + a) (b * 10) (exp - 1)) as (h & l & k & E & Hk & R1 & R0 & EM); [lia|lia| |].
    { etransitivity; [exact Hf|]. rewrite Z.mul_assoc. apply Z.mul_le_mono_nonneg_r; [apply Z.pow_nonneg; lia|lia]. }
    exists h, l, (k + 1). rewrite E. split; [do 2 f_equal; lia|]. split; [lia|]. split; [done|]. split; [done|].
    rewrite EM, Z.pow_add_r by lia. unfold mag. num_consts.
    assert ((high * 10 + a) * 1000000000 + b * 10 = (high * 1000000000 + low) * 10) as -> by lia. lia.
  - exists high, low, 0. rewrite Z.sub_0_r, Z.mul_1_r. split; [done|]. lia.
Qed.

Lemma xi82mval_spec v i :
  mvtype v = MV_NM -> 0 <= mv_sgn v <= 1 -> 0 <= i < 10 ^ 18 ->
  exists w, xi82mval v i = Ok w /\ num_ok w /\ num_value w = sg (mv_sgn v) * i * 10 ^ 60.
Proof.
  intros Ht Hs Hi. unfold xi82mval. destruct (Z.ltb_spec i INT_HI).
  - rewrite small_int_word, Ht by lia. eexists. split; [done|]. apply int_cell; [done|done|lia].
  - destruct (Z.ltb_spec i MANT_HI).
    + destruct (scaled_cell (mv_sgn v) i (mv_str v)) as (m1 & exp & -> & H1 & H2); [done|lia|].
      cbn [mbind res_bind]. rewrite Ht. eexists. by split.
    + replace (i <? MANT_HI * MANT_HI) with true by (symmetry; apply Z.ltb_lt; num_consts; lia).
      rewrite Z.rem_mod_nonneg, Z.quot_div_nonneg by (num_consts; lia). num_consts.
      pose proof (Z.div_mod i 1000000000 ltac:(lia)) as Ei. pose proof (Z.mod_pos_bound i 1000000000 ltac:(lia)).
      destruct (normalise_spec 10 (i / 1000000000) (i mod 1000000000) (EXP_IDX_BIAL + 9))
        as (h & l & k & -> & Hk & R1 & R0 & EM); [num_consts; lia|num_consts; lia| |].
      { change (10 ^ Z.of_nat 10) with 10000000000. lia. }
      cbn [mbind res_bind]. rewrite Ht. eexists. split; [done|].
      unfold EXP_IDX_BIAL. apply flt_cell; try done; try (num_consts; lia).
      rewrite EM. unfold mag. num_consts.
      replace (i / 1000000000 * 1000000000 + i mod 1000000000) with i by lia.
      replace (10 ^ 60) with (10 ^ k * 10 ^ (9 + 62 + 9 - k - (-42 + 62))); [ring|].
      rewrite <- Z.pow_add_r by lia. f_equal. lia.
Qed.

Lemma i82mval_spec v i :
  Z.abs i < 10 ^ 18 -> exists w, i82mval v i = Ok w /\ num_ok w /\ num_value w = i * 10 ^ 60.
Proof.
  intros Hi. unfold i82mval. destruct (Z.ltb_spec i 0).
  - rewrite int8_ok by lia. cbn [mbind res_bind].
    destruct (xi82mval_spec (set_sgn 1 (set_mvtype MV_NM v)) (- i)) as (w & -> & H1 & H2); [done|simpl; lia|lia|].
    exists w. split; [done|]. split; [done|]. rewrite H2. simpl mv_sgn. change (sg 1) with (-1). ring.
  - destruct (xi82mval_spec (set_sgn 0 (set_mvtype MV_NM v)) i) as (w & -> & H1 & H2); [done|simpl; lia|lia|].
    exists w. split; [done|]. split; [done|]. rewrite H2. simpl mv_sgn. change (sg 0) with 1. ring.
Qed.

(** Both words at once, when the number has at most eighteen digits. *)
Lemma words_to_int8_spec m1 m0 exp :
  MANT_LO <= m1 < MANT_HI -> 0 <= m0 < MANT_HI -> EXP_IDX_BIAL < exp <= EXP_IDX_BIAL + 9 ->
  exists x y, words_to_int8 m1 m0 exp = Ok (x, y) /\ 0 <= x /\ 0 <= y /\
    x + y = mag m1 m0 / 10 ^ (EXP_IDX_BIAL + 9 - exp).
Proof.
  intros H1 H0 He. unfold words_to_int8, mag.
  set (k := EXP_IDX_BIAL + 9 - exp). pose proof (pow10_pos k ltac:(lia)) as Pk.
  pose proof (pow10_pos (9 - k) ltac:(lia)) as P9.
  assert (HP : MANT_HI = 10 ^ (9 - k) * 10 ^ k)
    by (rewrite <- Z.pow_add_r by lia; replace (9 - k + k) with 9 by lia; done).
  assert (HD : (m1 * MANT_HI + m0) / 10 ^ k = m1 * 10 ^ (9 - k) + m0 / 10 ^ k).
  { rewrite HP. replace (m1 * (10 ^ (9 - k) * 10 ^ k)) with (m1 * 10 ^ (9 - k) * 10 ^ k) by ring.
    apply Z.div_add_l. lia. }
  rewrite HD. assert (0 <= m0 / 10 ^ k) by (apply Z.div_pos; lia).
  assert (Hx : 0 <= m1 * 10 ^ (9 - k) <= m1 * MANT_HI) by (rewrite HP; unfold MANT_LO in *; nia).
  assert (m1 * MANT_HI < 10 ^ 18) by (unfold MANT_HI in *; lia).
  destruct (Z.ltb_spec 0 m0).
  - rewrite int8_ok by (num_consts; lia). cbn [mbind res_bind scale_words].
    replace (EXP_IDX_BIAL + 18 <? exp) with false by (symmetry; apply Z.ltb_ge; lia). cbn [mbind res_bind].
    destruct (Z.leb_spec (EXP_IDX_BIAL + 9) exp).
    + assert (exp = EXP_IDX_BIAL + 9) as -> by lia. assert (k = 0) as K0 by (unfold k; lia). rewrite K0 in *.
      rewrite ten_pwr_spec by lia. cbn [mbind res_bind].
      replace (EXP_IDX_BIAL + 9 - EXP_IDX_BIAL - 9) with 0 by lia. change (10 ^ 0) with 1 in *. rewrite !Z.mul_1_r.
      rewrite !int8_ok by (num_consts; lia). cbn [mbind res_bind].
      do 2 eexists. split; [done|]. rewrite Z.div_1_r. split; [num_consts; lia|]. split; [lia|].
      change (10 ^ (9 - 0)) with MANT_HI. lia.
    + rewrite ten_pwr_spec by lia. cbn [mbind res_bind]. fold k.
      do 2 eexists. split; [done|]. rewrite !Z.quot_div_nonneg by (num_consts; lia).
      assert (m1 * MANT_HI / 10 ^ k = m1 * 10 ^ (9 - k)) as ->.
      { rewrite HP, Z.mul_assoc. apply Z.div_mul. lia. }
      lia.
  - assert (m0 = 0) as -> by lia. cbn [scale_word].
    replace (EXP_IDX_BIAL + 9 <? exp) with false by (symmetry; apply Z.ltb_ge; lia). cbn [mbind res_bind].
    rewrite ten_pwr_spec by lia. cbn [mbind res_bind].
    replace (exp - EXP_IDX_BIAL) with (9 - k) by (unfold k; lia). rewrite int8_ok by lia. cbn [mbind res_bind].
    do 2 eexists. split; [done|]. rewrite Z.div_0_l by lia. lia.
Qed.

Lemma mval2i8_spec g v :
  num_ok v -> Z.abs (num_value v) < 10 ^ 78 ->
  mval2i8 g v = Ok (Z.quot (num_value v) (10 ^ 60), v).
Proof.
  intros Hv Hr. unfold mval2i8. rewrite force_num_ok by done. cbn [mbind res_bind].
  destruct (has MV_INT v) eqn:E.
  { rewrite int_quot by (by apply has_int_form). done. }
  pose proof (has_flt_form v Hv E) as F. rewrite num_value_flt in * by done.
  destruct (Z.ltb_spec EXP_IDX_BIAL (mv_e v)) as [Hgt|Hle].
  2: { rewrite word_to_int_spec by done. done. }
  pose proof (flt_mant v F) as M. rewrite flt_quot by done.
  destruct (flt_abs v F) as [A _]. rewrite A in Hr. pose proof F as (_ & _ & _ & Hs & He & H1 & H0).
  assert (He9 : mv_e v <= EXP_IDX_BIAL + 9).
  { destruct (Z.leb_spec (mv_e v) (EXP_IDX_BIAL + 9)) as [|Hx]; [done|]. exfalso.
    assert (10 ^ 61 <= 10 ^ (mv_e v - EXPLO)) by (apply Z.pow_le_mono_r; unfold EXP_IDX_BIAL in *; num_consts; lia).
    replace (10 ^ 78) with (10 ^ 17 * 10 ^ 61) in Hr by done. nia. }
  destruct (words_to_int8_spec (mv_m1 v) (mv_m0 v) (mv_e v)) as (x & y & -> & Hx & Hy & EX); [done|done|done|].
  cbn [mbind res_bind]. change (mag (mv_m1 v) (mv_m0 v)) with (mant v) in EX.
  set (k := EXP_IDX_BIAL + 9 - mv_e v) in *. pose proof (pow10_pos k ltac:(lia)) as Pk.
  assert (ED : mant v * 10 ^ (mv_e v - EXPLO) / 10 ^ 60 = mant v / 10 ^ k).
  { pose proof (pow10_pos (mv_e v - EXPLO) ltac:(lia)).
    replace (10 ^ 60) with (10 ^ k * 10 ^ (mv_e v - EXPLO))
      by (rewrite <- Z.pow_add_r by lia; f_equal; unfold k, EXP_IDX_BIAL; num_consts; lia).
    apply Z.div_mul_cancel_r; lia. }
  rewrite ED, <- EX. assert (x + y < 10 ^ 18) by (rewrite EX; apply Z.div_lt_upper_bound; nia).
  unfold sg. destruct (mv_sgn v =? 0); simpl negb; cbv iota; rewrite int8_ok by lia; cbn [mbind res_bind];
    do 2 f_equal; lia.
Qed.

(** * Integers of ten digits, by way of a double *)

Lemma dmul_billion m : 0 <= m < MANT_HI -> dmul (dbl m) (dbl MANT_HI) = dbl (m * MANT_HI).
Proof.
  intros Hm. pose proof ONE_pos as P. unfold dmul, dbl, MANT_HI in *.
  assert (H5 : 1000000000 * ONE = 1953125 * (2 ^ 9 * ONE)) by lia.
  assert (E : rnd (m * 1953125 * (2 ^ 9 * ONE) * ONE) ONE = m * 1953125 * (2 ^ 9 * ONE)).
  { rewrite ONE_pow. replace (2 ^ 9 * 2 ^ 1074) with (2 ^ 1083) by (rewrite <- Z.pow_add_r by lia; done).
    apply rnd_exact; [apply Z.pow_pos_nonneg; lia|lia|lia|done]. }
  replace (m * ONE * (1000000000 * ONE)) with (m * 1953125 * (2 ^ 9 * ONE) * ONE) by (rewrite H5; ring).
  rewrite E. replace (m * 1000000000 * ONE) with (m * (1000000000 * ONE)) by ring. rewrite H5. ring.
Qed.

Lemma ddiv_exact q p : 0 < p -> 0 <= q < 2 ^ 53 -> ddiv (dbl (q * p)) (dbl p) = dbl q.
Proof.
  intros Hp Hq. pose proof ONE_pos as P. unfold ddiv, dbl. rewrite Z.sgn_pos, Z.abs_eq by lia.
  replace (q * p * ONE * ONE * 1) with (q * ONE * (p * ONE)) by ring. apply rnd_ONE_exact; lia.
Qed.

Lemma dadd_int a b : Z.abs (a + b) < 2 ^ 53 -> dadd (dbl a) (dbl b) = dbl (a + b).
Proof.
  intros H. unfold dadd, dbl. replace (a * ONE + b * ONE) with ((a + b) * ONE * 1) by ring.
  by apply rnd_ONE_exact.
Qed.

(** The second word of a tenth digit [d], by evaluation. *)
Lemma tenth_digit d :
  0 <= d < 10 ->
  ddiv (dmul (ddiv (dbl (d * MANT_LO)) (dbl MANT_HI)) (dbl MANT_HI)) (dbl 100000000) = dbl d.
Proof.
  intros Hd. assert (H : forallb (fun d => ddiv (dmul (ddiv (dbl (d * MANT_LO)) (dbl MANT_HI)) (dbl MANT_HI))
    (dbl 100000000) =? dbl d) (seqZ 0 10) = true) by by vm_compute.
  rewrite forallb_forall in H. apply Z.eqb_eq, H. apply list_elem_of_In, elem_of_seqZ. lia.
Qed.

Lemma double_of_ten s i str :
  0 <= s <= 1 -> MANT_HI <= i < 4294967296 ->
  double_of (mk_mval MV_NM s (EXP_IDX_BIAL + 1) (i mod 10 * MANT_LO) (i / 10) str) = Ok (sg s * dbl i).
Proof.
  intros Hs Hi. unfold double_of. change (has MV_INT _) with false. cbv iota. cbn [mv_m1 mv_m0 mv_e mv_sgn].
  pose proof (Z.div_mod i 10 ltac:(lia)). pose proof (Z.mod_pos_bound i 10 ltac:(lia)).
  cbn [double_up]. change (EXP_IDX_BIAL <? EXP_IDX_BIAL + 1) with true. cbv iota.
  change (EXP_IDX_BIAL <? EXP_IDX_BIAL + 1 - 9) with false. cbn [mbind res_bind double_down].
  change (EXP_IDX_BIAL + 1 - 9 <? MV_XBIAS) with false. cbn [mbind res_bind].
  change (ten_pwr (EXP_IDX_BIAL - (EXP_IDX_BIAL + 1 - 9))) with (Ok 100000000). cbn [mbind res_bind].
  rewrite tenth_digit by lia. rewrite dmul_billion by (num_consts; lia).
  replace (i / 10 * MANT_HI) with (i / 10 * 10 * 100000000) by (num_consts; lia).
  rewrite ddiv_exact by (num_consts; lia). rewrite dadd_int by (num_consts; lia).
  replace (i / 10 * 10 + i mod 10) with i by lia. f_equal.
  assert (s = 0 \/ s = 1) as [-> | ->] by lia; unfold sg; simpl; lia.
Qed.

(** The cell of an int of ten digits gives the int. *)
Lemma mval2i_ten g s i str :
  0 <= s <= 1 -> MANT_HI <= i < 2147483648 ->
  let w := mk_mval MV_NM s (EXP_IDX_BIAL + 1) (i mod 10 * MANT_LO) (i / 10) str in
  num_ok w -> mval2i g w = Ok (sg s * i, w).
Proof.
  intros Hs Hi w Hw. unfold mval2i. rewrite force_num_ok by done. cbn [mbind res_bind].
  change (has MV_INT w) with false. change (EXP_IDX_BIAL <? mv_e w) with true. cbv iota.
  unfold w. rewrite double_of_ten by (done || lia). cbn [mbind res_bind]. pose proof ONE_pos as P.
  assert (Hd : dbl i <= dbl MAXPOSINT4) by (unfold dbl, MAXPOSINT4; nia).
  assert (Hp : 0 <= dbl i) by (unfold dbl; num_consts; nia).
  replace (dbl MAXPOSINT4 <? sg s * dbl i) with false
    by (symmetry; apply Z.ltb_ge; destruct (sg_cases s Hs) as [-> | ->]; lia).
  replace (sg s * dbl i <? - dbl MAXPOSINT4) with false
    by (symmetry; apply Z.ltb_ge; destruct (sg_cases s Hs) as [-> | ->]; lia).
  unfold dtrunc, dbl. rewrite Z.mul_assoc, Z.quot_mul by lia.
  rewrite int4_ok by (destruct (sg_cases s Hs) as [-> | ->]; num_consts; lia). done.
Qed.

Lemma i2mval_ten g v i :
  -2147483648 < i < 2147483648 -> MANT_HI <= Z.abs i ->
  exists w, MV_FORCE_MVAL v i = Ok w /\ mval2i g w = Ok (i, w).
Proof.
  intros Hi Ha. destruct (MV_FORCE_MVAL_spec v i Hi) as (w & E & Hw & _). exists w. split; [done|].
  revert E. unfold MV_FORCE_MVAL, i2mval. num_consts.
  replace ((1000000 <=? i) || (i <=? -1000000)) with true by lia.
  assert (X : forall v i, MANT_HI <= i < 2147483648 -> xi2mval v i =
    Ok (mk_mval (mvtype v) (mv_sgn v) (EXP_IDX_BIAL + 1) (i mod 10 * MANT_LO) (i / 10) (mv_str v))).
  { clear. intros v i Hi. unfold xi2mval. rewrite Z.rem_mod_nonneg, Z.quot_div_nonneg by (num_consts; lia).
    replace (i <? INT_HI) with false by (symmetry; apply Z.ltb_ge; num_consts; lia).
    by replace (i <? MANT_HI) with false by (symmetry; apply Z.ltb_ge; lia). }
  destruct (Z.ltb_spec i 0).
  - rewrite int4_ok by lia. cbn [mbind res_bind]. rewrite X by (num_consts; lia). cbn. intros [= <-].
    rewrite mval2i_ten by (done || num_consts; lia). do 2 f_equal. change (sg 1) with (-1). lia.
  - rewrite X by (num_consts; lia). cbn. intros [= <-].
    rewrite mval2i_ten by (done || num_consts; lia). do 2 f_equal. change (sg 0) with 1. lia.
Qed.

(** The floating form of an integer of nine digits: its exponent and words. *)
Lemma isint_float v k :
  flt_form v ->
  (if (mv_e v <=? MV_XBIAS) || ((EXP_IDX_BIAL <? mv_e v) || negb (mv_m0 v =? 0)) then Ok None
   else
     divisor ← ten_pwr (EXP_IDX_BIAL - mv_e v);
     m1 ← (if negb (mv_sgn v =? 0) then int4 (- mv_m1 v) else Ok (mv_m1 v));
     let m1_div := Z.quot m1 divisor in
     Ok (if m1_div * divisor =? m1 then Some m1_div else None)) = Ok (Some k) <->
  flt_value v = k * 10 ^ 60 /\ Z.abs k < 10 ^ 9.
Proof.
  intros F. pose proof (flt_mant v F) as M. destruct (flt_abs v F) as [A S].
  pose proof F as (_ & _ & _ & Hs & He & H1 & H0).
  pose proof (pow10_pos (mv_e v - EXPLO) ltac:(lia)) as Pe. unfold EXP_IDX_BIAL.
  assert (HA : flt_value v = k * 10 ^ 60 -> Z.abs k < 10 ^ 9 ->
    MV_XBIAS < mv_e v <= 9 + MV_XBIAS /\ mv_m0 v = 0 /\ Z.abs k * 10 ^ (9 + MV_XBIAS - mv_e v) = mv_m1 v).
  { intros Hk Hk9. rewrite Hk, Z.abs_mul, (Z.abs_eq (10 ^ 60)) in A by lia.
    assert (1 <= Z.abs k) by nia.
    assert (MV_XBIAS < mv_e v <= 9 + MV_XBIAS) as He'.
    { split.
      - destruct (Z.ltb_spec MV_XBIAS (mv_e v)) as [|Hl]; [done|]. exfalso.
        assert (10 ^ (mv_e v - EXPLO) <= 10 ^ 42) by (apply Z.pow_le_mono_r; num_consts; lia).
        replace (10 ^ 60) with (10 ^ 18 * 10 ^ 42) in A by done. nia.
      - destruct (Z.leb_spec (mv_e v) (9 + MV_XBIAS)) as [|Hl]; [done|]. exfalso.
        assert (10 ^ 52 <= 10 ^ (mv_e v - EXPLO)) by (apply Z.pow_le_mono_r; num_consts; lia).
        replace (10 ^ 60) with (10 ^ 8 * 10 ^ 52) in A by done. nia. }
    set (n := 9 + MV_XBIAS - mv_e v).
    replace (10 ^ 60) with (10 ^ n * 10 ^ 9 * 10 ^ (mv_e v - EXPLO)) in A
      by (rewrite <- !Z.pow_add_r by lia; f_equal; unfold n; num_consts; lia).
    rewrite !Z.mul_assoc in A. apply Z.mul_cancel_r in A; [|lia]. unfold mant in A. num_consts.
    assert (mv_m0 v = 0) by lia. split; [done|]. split; [done|]. lia. }
  destruct ((mv_e v <=? MV_XBIAS) || _) eqn:Eb.
  { split; [done|]. intros [Hk Hk9]. destruct (HA Hk Hk9) as (H2 & H3 & _). exfalso.
    apply orb_true_iff in Eb as [Eb|Eb]; [zbool; lia|]. apply orb_true_iff in Eb as [Eb|Eb]; zbool; lia. }
  apply orb_false_iff in Eb as [Eb1 Eb2]. apply orb_false_iff in Eb2 as [Eb2 Eb3]. zbool.
  set (n := 9 + MV_XBIAS - mv_e v) in *. pose proof (pow10_pos n ltac:(unfold n; lia)) as Pn.
  rewrite ten_pwr_spec by (unfold n; num_consts; lia). cbn [mbind res_bind].
  assert (HV : flt_value v * 10 ^ n = sg (mv_sgn v) * mv_m1 v * 10 ^ 60).
  { rewrite S, A. unfold mant. rewrite Eb3, Z.add_0_r.
    replace (10 ^ 60) with (10 ^ n * 10 ^ 9 * 10 ^ (mv_e v - EXPLO))
      by (rewrite <- !Z.pow_add_r by lia; f_equal; unfold n; num_consts; lia).
    unfold MANT_HI. ring. }
  assert (E1 : (if negb (mv_sgn v =? 0) then int4 (- mv_m1 v) else Ok (mv_m1 v)) = Ok (sg (mv_sgn v) * mv_m1 v)).
  { unfold sg. destruct (mv_sgn v =? 0); simpl negb; cbv iota; [f_equal; lia|].
    rewrite int4_ok by (num_consts; lia). f_equal; lia. }
  rewrite E1. cbn [mbind res_bind]. set (m := sg (mv_sgn v) * mv_m1 v) in *.
  pose proof (Z.quot_rem m (10 ^ n) ltac:(lia)) as EQ.
  assert (Hm : Z.abs m = mv_m1 v) by (unfold m; destruct (sg_cases _ Hs) as [-> | ->]; num_consts; lia).
  destruct (Z.eqb_spec (Z.quot m (10 ^ n) * 10 ^ n) m) as [Hd|Hd]; split.
  - intros [= <-]. set (q := Z.quot m (10 ^ n)) in *. split.
    + apply (Z.mul_cancel_r _ _ (10 ^ n)); [lia|]. rewrite HV, <- Hd at 1. ring.
    + assert (Z.abs q * 10 ^ n = mv_m1 v) by (rewrite <- Hm, <- Hd, Z.abs_mul, (Z.abs_eq (10 ^ n)) by lia; done).
      num_consts. nia.
  - intros [Hk Hk9]. do 2 f_equal. rewrite Hk in HV.
    assert (m = k * 10 ^ n) as -> by (apply (Z.mul_cancel_r _ _ (10 ^ 60)); lia). apply Z.quot_mul. lia.
  - done.
  - intros [Hk Hk9]. exfalso. apply Hd. rewrite Hk in HV.
    assert (m = k * 10 ^ n) as -> by (apply (Z.mul_cancel_r _ _ (10 ^ 60)); lia). rewrite Z.quot_mul by lia. done.
Qed.

(** * The properties of the component *)

(** C36: an int through MV_FORCE_MVAL and back through mval2i: every int above
    the smallest becomes a well-formed number of its value, in the integer or
    the floating form, and the number gives the int again. *)
Theorem int_mval_roundtrip g v i :
  -2147483648 < i < 2147483648 ->
  exists w, MV_FORCE_MVAL v i = Ok w /\ num_ok w /\ num_value w = i * 10 ^ 60 /\ mval2i g w = Ok (i, w).
Proof.
  intros Hi. destruct (MV_FORCE_MVAL_spec v i Hi) as (w & E & Hw & Hv). exists w.
  split; [done|]. split; [done|]. split; [done|].
  destruct (Z.ltb_spec (Z.abs i) (10 ^ 9)).
  - rewrite mval2i_spec, Hv by (done || rewrite Hv; lia). by rewrite Z.quot_mul by lia.
  - destruct (i2mval_ten g v i Hi) as (w' & E' & H2); [num_consts; lia|]. congruence.
Qed.

Lemma int_mval_roundtrip_witness :
  exists w, MV_FORCE_MVAL literal_zero (-2000000007) = Ok w /\ num_ok w /\
    num_value w = -2000000007 * 10 ^ 60 /\ mval2i (mk_globals false false) w = Ok (-2000000007, w).
Proof. apply (int_mval_roundtrip (mk_globals false false) literal_zero). lia. Defined.

(** I82mval and mval2i8 are inverse on the 64-bit integers of at most
    eighteen digits, and mval2i8 truncates every number below 10^18 towards
    zero without an overflow of its 64-bit words. *)
Theorem int8_mval_roundtrip g v i :
  Z.abs i < 10 ^ 18 ->
  (exists w, i82mval v i = Ok w /\ num_ok w /\ num_value w = i * 10 ^ 60 /\ mval2i8 g w = Ok (i, w)) /\
  (forall w, num_ok w -> Z.abs (num_value w) < 10 ^ 78 ->
     mval2i8 g w = Ok (Z.quot (num_value w) (10 ^ 60), w)).
Proof.
  intros Hi. split; [|apply mval2i8_spec].
  destruct (i82mval_spec v i Hi) as (w & E & Hw & Hv). exists w.
  split; [done|]. split; [done|]. split; [done|].
  rewrite mval2i8_spec, Hv by (done || rewrite Hv; lia). by rewrite Z.quot_mul by lia.
Qed.

Lemma int8_mval_roundtrip_witness :
  exists w, i82mval literal_zero 123456789012345678 = Ok w /\ num_ok w /\
    num_value w = 123456789012345678 * 10 ^ 60 /\
    mval2i8 (mk_globals false false) w = Ok (123456789012345678, w).
Proof. apply (proj1 (int8_mval_roundtrip (mk_globals false false) literal_zero 123456789012345678 ltac:(lia))). Defined.

(** Isint answers with the integer of a canonical number exactly when the
    number is an integer of at most nine digits. *)
Theorem isint_exact v k :
  num_ok v -> has MV_NUM_APPROX v = false ->
  isint v = Ok (Some k) <-> num_value v = k * 10 ^ 60 /\ Z.abs k < 10 ^ 9.
Proof.
  intros Hv Ha. destruct (num_ok_flags v Hv) as [Hn _]. unfold isint. rewrite Hn, Ha. cbn [negb orb].
  destruct (has MV_INT v) eqn:E.
  - rewrite num_value_int by (by apply has_int_form).
    pose proof (int_form_range v (has_int_form v Hv E)) as R. unfold int_range in R. unfold MV_BIAS.
    pose proof (Z.quot_rem (mv_m1 v) 1000 ltac:(lia)) as EQ. set (q := Z.quot (mv_m1 v) 1000) in *.
    replace (10 ^ 60) with (1000 * 10 ^ 57) by done.
    destruct (Z.eqb_spec (q * 1000) (mv_m1 v)) as [H|H]; split.
    + intros [= <-]. num_consts. lia.
    + intros [H1 H2]. do 2 f_equal. lia.
    + done.
    + intros [H1 H2]. exfalso. apply H. assert (mv_m1 v = k * 1000) as Em by lia.
      unfold q. rewrite Em, Z.quot_mul; lia.
  - pose proof (has_flt_form v Hv E) as F. rewrite num_value_flt by done.
    apply (isint_float v k F).
Qed.

Lemma isint_exact_witness :
  isint add_ex_v = Ok (Some 999999) <-> num_value add_ex_v = 999999 * 10 ^ 60 /\ Z.abs 999999 < 10 ^ 9.
Proof. apply isint_exact; [by_compute|reflexivity]. Defined.

(** Mval2i truncates every number of at most nine digits before the dot
    towards zero; one digit more goes through a double of 53 bits, which rounds
    1234567892.99999999 up to 1234567893. *)
Theorem mval2i_truncates g v :
  num_ok v -> Z.abs (num_value v) < 10 ^ 69 ->
  mval2i g v = Ok (Z.quot (num_value v) (10 ^ 60), v) /\
  let w := mk_mval MV_NM 0 72 299999999 123456789 [] in
  num_value w = 123456789299999999 * 10 ^ 52 /\ mval2i g w = Ok (1234567893, w).
Proof.
  intros Hv Hr. split; [by apply mval2i_spec|]. split; [vm_compute; reflexivity|].
  destruct g. vm_compute. reflexivity.
Qed.

Lemma mval2i_truncates_witness :
  mval2i (mk_globals false false) add_ex_u = Ok (1234567, add_ex_u).
Proof.
  exact (proj1 (mval2i_truncates (mk_globals false false) add_ex_u ltac:(by_compute) ltac:(by_compute))).
Defined.
