(* ===== verification/Bitstr.v ===== *)
(** Bit strings, the $ZBIT functions (op_fnzbit*.c): a string whose first byte
    counts the unused bits of its last byte, the other bytes holding the bits,
    the first bit in the most significant place. *)

From stdpp Require Import base list numbers option tactics.
From Stdlib Require Import ZArith Lia.
From S2P Require Import Prelude Mval Numstr Mvalconv.

Open Scope Z_scope.

(** The stores of a string result: the other fields stay. *)
Definition store_str (s : list Z) (dst : mval) : mval :=
  mk_mval MV_STR (mv_sgn dst) (mv_e dst) (mv_m0 dst) (mv_m1 dst) s.

(** The first byte and 8 times the number of the others, after the tests that
    open every function of the family. *)
Definition bit_header (s : list Z) : res (Z * Z) :=
  if zlen s =? 0 then Err ERR_INVBITSTR
  else
    byte_1 ← res_of (rd s 0);
    if 7 <? byte_1 then Err ERR_INVBITSTR else Ok (byte_1, (zlen s - 1) * 8).

Definition mask_bit : list Z := [128; 64; 32; 16; 8; 4; 2; 1].
Definition mask_set : list Z := [1; 128; 64; 32; 16; 8; 4; 2].
Definition mask_fill : list Z := [255; 254; 252; 248; 240; 224; 192; 128].

(** [*byte_n & mask[i]] is not zero. *)
Definition test_mask (b i : Z) : res bool :=
  m ← res_of (rd mask_bit i); Ok (negb (Z.land b m =? 0)).

(** * One operand *)

Definition zbitstr (size : Z) (truthval : bool) : res (list Z) :=
  if (size <=? 0) || (253952 <? size) then Err ERR_INVBITLEN
  else
    let n := Z.quot (size + 7) 8 in
    let byte_1 := n * 8 - size in
    if truthval then
      m ← res_of (rd mask_fill byte_1);
      let s := byte_1 :: replicate (Z.to_nat n) 255 in
      b ← res_of (rd s n);
      res_of (wr s n (Z.land b m))
    else Ok (byte_1 :: replicate (Z.to_nat n) 0).

Definition op_fnzbitstr (bitstr : mval) (size : Z) (truthval : bool) : res mval :=
  s ← zbitstr size truthval; Ok (store_str s bitstr).

Definition zbitlen (s : list Z) : res Z :=
  '(byte_1, str_len) ← bit_header s; Ok (str_len - byte_1).

Definition zbitget (s : list Z) (pos : Z) : res Z :=
  '(byte_1, str_len) ← bit_header s;
  if (pos <? 1) || (str_len - byte_1 <? pos) then Err ERR_INVBITPOS
  else
    let np := Z.quot (pos + 7) 8 - 1 in
    let mp := if Z.rem pos 8 =? 0 then 8 else Z.rem pos 8 in
    byte_n ← res_of (rd s (np + 1));
    let byte_n := u8 (Z.shiftl byte_n (mp - 1)) in
    Ok (Z.shiftr byte_n 7).

Definition zbitset (s : list Z) (pos : Z) (truthval : bool) : res (list Z) :=
  '(byte_len, str_len) ← bit_header s;
  if (pos <? 1) || (str_len - byte_len <? pos) then Err ERR_INVBITPOS
  else
    let np := Z.quot (pos + 7) 8 - 1 in
    let mp := Z.rem pos 8 in
    b ← res_of (rd s (np + 1));
    m ← res_of (rd mask_set mp);
    res_of (wr s (np + 1) (if truthval then Z.lor b m else u8 (Z.land b (Z.lnot m)))).

(** The bits [i .. i + n) of a byte that are set. *)
Fixpoint count_bits (n : nat) (b i bit_count : Z) : res Z :=
  match n with
  | O => Ok bit_count
  | S n' =>
      t ← test_mask b i;
      count_bits n' b (i + 1) (if t : bool then bit_count + 1 else bit_count)
  end.

(** The full bytes. *)
Fixpoint count_bytes (n : nat) (s : list Z) (byte_n bit_count : Z) : res Z :=
  match n with
  | O => Ok bit_count
  | S n' =>
      b ← res_of (rd s byte_n);
      bit_count ← count_bits 8 b 0 bit_count;
      count_bytes n' s (byte_n + 1) bit_count
  end.

Definition zbitcoun (s : list Z) : res Z :=
  '(byte_1, str_len) ← bit_header s;
  let n := Z.quot (str_len - byte_1 + 7) 8 - 1 in
  let m := if Z.rem (str_len - byte_1) 8 =? 0 then 8 else Z.rem (str_len - byte_1) 8 in
  bit_count ← count_bytes (Z.to_nat n) s 1 0;
  if 0 <? m then
    b ← res_of (rd s (1 + Z.max 0 n));
    count_bits (Z.to_nat m) b 0 bit_count
  else Ok bit_count.

(** The first bit of [i .. i + n) that is [truthval]. *)
Fixpoint find_bits (n : nat) (truthval : bool) (b i : Z) : res (option Z) :=
  match n with
  | O => Ok None
  | S n' =>
      t ← test_mask b i;
      if eqb t truthval then Ok (Some i) else find_bits n' truthval b (i + 1)
  end.

(** [for (j = 1; j <= n - np; j++)]: the full bytes after the first, the
    pointer [byte_n] and the answer. *)
Fixpoint find_bytes (k : nat) (truthval : bool) (s : list Z) (byte_n : Z) : res (Z * option Z) :=
  match k with
  | O => Ok (byte_n, None)
  | S k' =>
      let byte_n := byte_n + 1 in
      b ← res_of (rd s byte_n);
      r ← find_bits 8 truthval b 0;
      match r with
      | Some i => Ok (byte_n, Some (i + 2 + (byte_n - 1) * 8))
      | None => find_bytes k' truthval s byte_n
      end
  end.

Definition zbitfind (s : list Z) (truthval : bool) (pos : Z) : res Z :=
  '(byte_1, str_len) ← bit_header s;
  if (1 <=? pos) && (str_len - byte_1 <? pos) then Ok 0
  else
    let pos := if pos <? 1 then 1 else pos in
    let np := Z.quot (pos + 7) 8 in
    let mp := if Z.rem pos 8 =? 0 then 8 else Z.rem pos 8 in
    let n := Z.quot (str_len - byte_1 + 7) 8 - 1 in
    let m := if Z.rem (str_len - byte_1) 8 =? 0 then 8 else Z.rem (str_len - byte_1) 8 in
    b ← res_of (rd s np);
    let i1 := if np =? n + 1 then m else 8 in
    r ← find_bits (Z.to_nat (i1 - (mp - 1))) truthval b (mp - 1);
    match r with
    | Some i => Ok (i + 2 + (np - 1) * 8)
    | None =>
        if np =? n + 1 then Ok 0
        else
          '(byte_n, r) ← find_bytes (Z.to_nat (n - np)) truthval s np;
          match r with
          | Some find_bit => Ok find_bit
          | None =>
              b ← res_of (rd s (byte_n + 1));
              r ← find_bits (Z.to_nat m) truthval b 0;
              Ok (match r with Some i => i + 2 + n * 8 | None => 0 end)
          end
    end.

(** [for (byte_n = byte_1 + 1; byte_n <= byte_1 + n; byte_n++, dist_byte++)]: the
    operand and the byte after it are [m], the bytes from [stringpool.free] on
    are [free]. *)
Fixpoint not_bytes (n : nat) (m : list Z) (byte_n : Z) (free : list Z) (dist_byte : Z) : res (list Z) :=
  match n with
  | O => Ok free
  | S n' =>
      b ← res_of (rd m byte_n);
      free ← res_of (wr free dist_byte (u8 (Z.lnot b)));
      not_bytes n' m (byte_n + 1) free (dist_byte + 1)
  end.

(** The loop goes over one byte more than the operand has: it reads the byte
    [after] the operand and writes one byte past the room of the result. *)
Definition zbitnot (s : list Z) (after : Z) (free : list Z) : res (list Z) :=
  '(byte_len, _) ← bit_header s;
  free ← res_of (wr free 0 byte_len);
  not_bytes (length s) (s ++ [after]) 1 free 1.

(** stp_init allocates a longword after the string pool for loops that go one
    iteration beyond its end. *)
Definition stp_slack : Z := 8.

(** * Two operands *)

(** The loop over [n] bytes of both operands from [i]. *)
Fixpoint zip_bytes (f : Z -> Z -> Z) (n : nat) (s1 s2 : list Z) (i : Z) : res (list Z) :=
  match n with
  | O => Ok []
  | S n' =>
      b1 ← res_of (rd s1 i);
      b2 ← res_of (rd s2 i);
      l ← zip_bytes f n' s1 s2 (i + 1);
      Ok (f b1 b2 :: l)
  end.

Definition two_headers (s1 s2 : list Z) : res (Z * Z * (Z * Z)) :=
  if (zlen s1 =? 0) || (zlen s2 =? 0) then Err ERR_INVBITSTR
  else
    h1 ← bit_header s1; h2 ← bit_header s2; Ok (h1, h2).

Definition zbitand (s1 s2 : list Z) : res (list Z) :=
  '((byte1_len, str_len1), (byte2_len, str_len2)) ← two_headers s1 s2;
  let new_str_len :=
    if str_len2 - byte2_len <? str_len1 - byte1_len then str_len2 - byte2_len
    else str_len1 - byte1_len in
  let n := Z.quot (new_str_len + 7) 8 in
  l ← zip_bytes Z.land (Z.to_nat n) s1 s2 1;
  Ok (n * 8 - new_str_len :: l).

Definition zbitor (s1 s2 : list Z) : res (list Z) :=
  '((byte1_len, _), (byte2_len, _)) ← two_headers s1 s2;
  let str_len1 := zlen s1 - 1 in
  let str_len2 := zlen s2 - 1 in
  let short1 := str_len1 * 8 - byte1_len <? str_len2 * 8 - byte2_len in
  let n := if short1 then str_len2 else str_len1 in
  let n0 := if short1 then str_len1 else str_len2 in
  l ← zip_bytes Z.lor (Z.to_nat n0) s1 s2 1;
  let rest := if negb (n =? n0) then
                take (Z.to_nat (n - n0)) (drop (Z.to_nat (n0 + 1)) (if short1 then s2 else s1))
              else [] in
  Ok ((if short1 then byte2_len else byte1_len) :: l ++ rest).

Definition zbitxor (s1 s2 : list Z) : res (list Z) :=
  '((byte1_len, str_len1), (byte2_len, str_len2)) ← two_headers s1 s2;
  let new_str_len :=
    if str_len2 - byte2_len <? str_len1 - byte1_len then str_len2 - byte2_len
    else str_len1 - byte1_len in
  let n := Z.quot (new_str_len + 7) 8 in
  l ← zip_bytes Z.lxor (Z.to_nat n) s1 s2 1;
  let s := n * 8 - new_str_len :: l in
  b ← res_of (rd s n);
  m ← res_of (rd mask_fill (n * 8 - new_str_len));
  res_of (wr s n (Z.land b m)).

(** * The functions on cells *)

Definition op_fnzbitlen (g : globals) (dst bitstr : mval) : res mval :=
  bitstr ← MV_FORCE_STR g bitstr;
  len ← zbitlen (mv_str bitstr); MV_FORCE_MVAL dst len.

Definition op_fnzbitget (g : globals) (dst bitstr : mval) (pos : Z) : res mval :=
  bitstr ← MV_FORCE_STR g bitstr;
  bn ← zbitget (mv_str bitstr) pos; MV_FORCE_MVAL dst bn.

Definition op_fnzbitset (g : globals) (dst bitstr : mval) (pos : Z) (truthval : bool) : res mval :=
  bitstr ← MV_FORCE_STR g bitstr;
  s ← zbitset (mv_str bitstr) pos truthval; Ok (store_str s dst).

Definition op_fnzbitcoun (g : globals) (dst bitstr : mval) : res mval :=
  bitstr ← MV_FORCE_STR g bitstr;
  bit_count ← zbitcoun (mv_str bitstr); MV_FORCE_MVAL dst bit_count.

Definition op_fnzbitfind (g : globals) (dst bitstr : mval) (truthval : bool) (pos : Z) : res mval :=
  bitstr ← MV_FORCE_STR g bitstr;
  find_bit ← zbitfind (mv_str bitstr) truthval pos; MV_FORCE_MVAL dst find_bit.

Definition op_fnzbitnot (g : globals) (dst bitstr : mval) (after : Z) (free : list Z) : res (mval * list Z) :=
  bitstr ← MV_FORCE_STR g bitstr;
  free ← zbitnot (mv_str bitstr) after free;
  Ok (store_str (take (length (mv_str bitstr)) free) dst, drop (length (mv_str bitstr)) free).

Definition op_fnzbitand (g : globals) (dst bitstr1 bitstr2 : mval) : res mval :=
  bitstr1 ← MV_FORCE_STR g bitstr1; bitstr2 ← MV_FORCE_STR g bitstr2;
  s ← zbitand (mv_str bitstr1) (mv_str bitstr2); Ok (store_str s dst).

Definition op_fnzbitor (g : globals) (dst bitstr1 bitstr2 : mval) : res mval :=
  bitstr1 ← MV_FORCE_STR g bitstr1; bitstr2 ← MV_FORCE_STR g bitstr2;
  s ← zbitor (mv_str bitstr1) (mv_str bitstr2); Ok (store_str s dst).

Definition op_fnzbitxor (g : globals) (dst bitstr1 bitstr2 : mval) : res mval :=
  bitstr1 ← MV_FORCE_STR g bitstr1; bitstr2 ← MV_FORCE_STR g bitstr2;
  s ← zbitxor (mv_str bitstr1) (mv_str bitstr2); Ok (store_str s dst).

(** * The bits of a bit string *)

Definition unused (s : list Z) : Z := default 8 (rd s 0).
Definition nbits (s : list Z) : Z := (zlen s - 1) * 8 - unused s.

(** Bits are numbered from 1. *)
Definition bit (s : list Z) (i : Z) : bool :=
  Z.testbit (default 0 (rd s ((i + 7) / 8))) (7 - (i - 1) mod 8).

Definition bitstr_ok (s : list Z) : Prop := bytes_ok s /\ 2 <= zlen s /\ unused s <= 7.

#[global] Instance bitstr_ok_dec s : Decision (bitstr_ok s).
Proof. unfold bitstr_ok. apply _. Defined.

Lemma eight_cases j : 0 <= j < 8 -> j = 0 \/ j = 1 \/ j = 2 \/ j = 3 \/ j = 4 \/ j = 5 \/ j = 6 \/ j = 7.
Proof. lia. Qed.

Ltac eight j H :=
  destruct (eight_cases j H) as [-> | [-> | [-> | [-> | [-> | [-> | [-> | ->]]]]]]].

Lemma test_mask_spec b i : byte_ok b -> 0 <= i < 8 -> test_mask b i = Ok (Z.testbit b (7 - i)).
Proof.
  intros Hb Hi.
  assert (H : forall m k, rd mask_bit i = Some m ->
    eqb (negb (Z.land b m =? 0)) (Z.testbit b k) = true -> k = 7 - i -> test_mask b i = Ok (Z.testbit b (7 - i))).
  { intros m k E E2 ->. unfold test_mask. rewrite E. cbn [res_of mbind res_bind].
    by apply eqb_prop in E2 as ->. }
  eight i Hi; (eapply H; [reflexivity| |reflexivity]); byte_decide b Hb.
Qed.

Lemma ok_header s : bitstr_ok s ->
  bit_header s = Ok (unused s, (zlen s - 1) * 8) /\ 0 <= unused s <= 7 /\ 1 <= nbits s.
Proof.
  intros (Hb & Hl & Hu). unfold bit_header, nbits, unused in *.
  replace (zlen s =? 0) with false by (symmetry; apply Z.eqb_neq; lia).
  destruct (rd_byte s 0 Hb ltac:(lia)) as (h & E & Hh). rewrite E in *. simpl in Hu. cbn [res_of mbind res_bind default].
  unfold byte_ok in Hh. simpl. replace (7 <? h) with false by (symmetry; apply Z.ltb_ge; lia).
  split; [done|]. lia.
Qed.

(** The byte of a bit. *)
Lemma bit_at s k j b :
  rd s k = Some b -> 0 <= j < 8 -> bit s ((k - 1) * 8 + j + 1) = Z.testbit b (7 - j).
Proof.
  intros E Hj. unfold bit.
  replace (((k - 1) * 8 + j + 1 + 7) / 8) with k by (apply Z.div_unique with j; lia).
  rewrite E. simpl. f_equal. f_equal. symmetry. apply Z.mod_unique with (k - 1); lia.
Qed.

Lemma pos_split pos : exists k j, pos = (k - 1) * 8 + j + 1 /\ 0 <= j < 8 /\
  Z.div (pos + 7) 8 = k /\ (pos - 1) mod 8 = j.
Proof.
  exists ((pos + 7) / 8), ((pos - 1) mod 8). pose proof (Z.div_mod (pos - 1) 8 ltac:(lia)).
  pose proof (Z.mod_pos_bound (pos - 1) 8 ltac:(lia)).
  replace (pos + 7) with (pos - 1 + 1 * 8) by lia. rewrite Z.div_add by lia. lia.
Qed.

(** A position in range: its byte and the bit within it. *)
Lemma pos_byte s pos :
  bitstr_ok s -> 1 <= pos <= nbits s ->
  exists k j b, pos = (k - 1) * 8 + j + 1 /\ 0 <= j < 8 /\ 1 <= k < zlen s /\
    Z.quot (pos + 7) 8 = k /\ (if Z.rem pos 8 =? 0 then 8 else Z.rem pos 8) = j + 1 /\
    rd s k = Some b /\ byte_ok b /\ bit s pos = Z.testbit b (7 - j).
Proof.
  intros Hs Hp. destruct (ok_header s Hs) as (_ & Hu & _). destruct Hs as (Hb & Hl & _).
  destruct (pos_split pos) as (k & j & E & Hj & Ek & _). unfold nbits in Hp.
  destruct (rd_byte s k Hb ltac:(lia)) as (b & Eb & Hbb). exists k, j, b.
  split; [done|]. split; [done|]. split; [lia|]. split; [rewrite Z.quot_div_nonneg; lia|].
  split; [|split; [done|split; [done|]]].
  - rewrite Z.rem_mod_nonneg by lia. destruct (Z.eq_dec j 7) as [->|].
    + replace (pos mod 8) with 0 by (apply Z.mod_unique with k; lia). done.
    + replace (pos mod 8) with (j + 1) by (apply Z.mod_unique with (k - 1); lia).
      by replace (j + 1 =? 0) with false by (symmetry; apply Z.eqb_neq; lia).
  - rewrite E. by apply bit_at.
Qed.

Lemma pos_test (s : list Z) pos h :
  (pos <? 1) || ((zlen s - 1) * 8 - h <? pos) = negb ((1 <=? pos) && (pos <=? (zlen s - 1) * 8 - h)).
Proof. lia. Qed.

Lemma zbitget_spec s pos :
  bitstr_ok s ->
  zbitget s pos = if (1 <=? pos) && (pos <=? nbits s) then Ok (Z.b2z (bit s pos)) else Err ERR_INVBITPOS.
Proof.
  intros Hs. unfold zbitget.
  destruct (ok_header s Hs) as (-> & Hu & _). cbn [mbind res_bind]. rewrite pos_test. fold (nbits s).
  destruct ((1 <=? pos) && (pos <=? nbits s)) eqn:E; [|done]. cbn [negb]. zbool.
  destruct (pos_byte s pos Hs ltac:(lia)) as (k & j & b & -> & Hj & Hk & Eq & Em & Eb & Hb & Ebit).
  rewrite Eq, Em. replace (k - 1 + 1) with k by lia. rewrite Eb. cbn [res_of mbind res_bind]. f_equal.
  rewrite Ebit. replace (j + 1 - 1) with j by lia.
  assert (HS : (Z.shiftr (u8 (Z.shiftl b j)) 7 =? Z.b2z (Z.testbit b (7 - j))) = true); [|by apply Z.eqb_eq].
  eight j Hj; byte_decide b Hb.
Qed.

Lemma mask_set_spec b j t :
  byte_ok b -> 0 <= j < 8 ->
  exists m, rd mask_set (Z.rem (j + 1) 8) = Some m /\
    let b' := if t : bool then Z.lor b m else u8 (Z.land b (Z.lnot m)) in
    byte_ok b' /\ forall i, 0 <= i < 8 -> Z.testbit b' (7 - i) = if i =? j then t else Z.testbit b (7 - i).
Proof.
  intros Hb Hj.
  assert (H : forall m, (if t : bool then 
     (all_bytes (fun b => let b' := Z.lor b m in (0 <=? b') && (b' <? 256) &&
        forallb (fun i => eqb (Z.testbit b' (7 - i)) (if i =? j then t else Z.testbit b (7 - i))) (seqZ 0 8)))
     else (all_bytes (fun b => let b' := u8 (Z.land b (Z.lnot m)) in (0 <=? b') && (b' <? 256) &&
        forallb (fun i => eqb (Z.testbit b' (7 - i)) (if i =? j then t else Z.testbit b (7 - i))) (seqZ 0 8)))) = true ->
     rd mask_set (Z.rem (j + 1) 8) = Some m -> exists m, rd mask_set (Z.rem (j + 1) 8) = Some m /\
    let b' := if t : bool then Z.lor b m else u8 (Z.land b (Z.lnot m)) in
    byte_ok b' /\ forall i, 0 <= i < 8 -> Z.testbit b' (7 - i) = if i =? j then t else Z.testbit b (7 - i)).
  { intros m Ha Em. exists m. split; [done|]. cbv zeta. unfold byte_ok.
    destruct t; apply (all_bytes_spec _ b) in Ha; try done; cbv beta zeta in Ha; zbool;
      (split; [lia|]); intros i Hi; match goal with H : forallb _ _ = true |- _ =>
        rewrite forallb_forall in H; specialize (H i); apply eqb_prop, H end;
      apply list_elem_of_In, elem_of_seqZ; lia. }
  eight j Hj; (eapply H; [|reflexivity]; destruct t; vm_compute; reflexivity).
Qed.

Lemma unused_insert s k b : 1 <= k < zlen s -> unused (<[Z.to_nat k := b]> s) = unused s.
Proof.
  intros Hk. unfold unused. rewrite rd_insert by lia.
  by replace (k =? 0) with false by (symmetry; apply Z.eqb_neq; lia).
Qed.

Lemma zbitset_spec s pos t :
  bitstr_ok s ->
  if (1 <=? pos) && (pos <=? nbits s)
  then exists s', zbitset s pos t = Ok s' /\ bitstr_ok s' /\ nbits s' = nbits s /\
         forall i, 1 <= i -> bit s' i = if i =? pos then t else bit s i
  else zbitset s pos t = Err ERR_INVBITPOS.
Proof.
  intros Hs. unfold zbitset.
  destruct (ok_header s Hs) as (-> & Hu & _). cbn [mbind res_bind]. rewrite pos_test. fold (nbits s).
  destruct ((1 <=? pos) && (pos <=? nbits s)) eqn:E; [|done]. cbn [negb]. zbool.
  destruct (pos_byte s pos Hs ltac:(lia)) as (k & j & b & Ep & Hj & Hk & Eq & Em & Eb & Hb & Ebit).
  rewrite Eq. replace (k - 1 + 1) with k by lia. rewrite Eb. cbn [res_of mbind res_bind].
  assert (Z.rem pos 8 = Z.rem (j + 1) 8) as ->.
  { rewrite !Z.rem_mod_nonneg by lia. rewrite Ep. replace ((k - 1) * 8 + j + 1) with (j + 1 + (k - 1) * 8) by lia.
    by rewrite Z.mod_add by lia. }
  destruct (mask_set_spec b j t Hb Hj) as (m & -> & Hb' & Hbits). cbn [res_of mbind res_bind].
  rewrite wr_in_range by lia. cbn [res_of]. set (b' := if t then _ else _) in *.
  destruct Hs as (Hbs & Hl & Hu7). eexists. split; [done|].
  assert (Hun : unused (<[Z.to_nat k := b']> s) = unused s) by (by apply unused_insert).
  split; [split; [by apply bytes_ok_insert|rewrite zlen_insert, Hun; lia]|].
  split; [unfold nbits; by rewrite zlen_insert, Hun|].
  intros i Hi. destruct (pos_split i) as (k2 & j2 & Ei & Hj2 & Ek2 & Em2). unfold bit at 1.
  rewrite Ek2, rd_insert by lia. destruct (Z.eqb_spec k k2) as [->|Hne].
  - simpl. rewrite Em2, Hbits by lia. rewrite Ep, Ei, (bit_at s k2 j2 b) by done.
    destruct (Z.eqb_spec j2 j), (Z.eqb_spec ((k2 - 1) * 8 + j2 + 1) ((k2 - 1) * 8 + j + 1)); done || lia.
  - replace (i =? pos) with false by (symmetry; apply Z.eqb_neq; lia). unfold bit. by rewrite Ek2.
Qed.

(** * Creation *)

Lemma fill_mask h b :
  0 <= h <= 7 -> byte_ok b -> exists m, rd mask_fill h = Some m /\ byte_ok (Z.land b m) /\
    forall j, 0 <= j < 8 -> Z.testbit (Z.land b m) (7 - j) = (j <? 8 - h) && Z.testbit b (7 - j).
Proof.
  intros Hh Hb. assert (Hh' : 0 <= h < 8) by lia.
  assert (H : forall m, all_bytes (fun b => (0 <=? Z.land b m) && (Z.land b m <? 256) &&
     forallb (fun j => eqb (Z.testbit (Z.land b m) (7 - j)) ((j <? 8 - h) && Z.testbit b (7 - j))) (seqZ 0 8)) = true ->
     rd mask_fill h = Some m -> exists m, rd mask_fill h = Some m /\ byte_ok (Z.land b m) /\
    forall j, 0 <= j < 8 -> Z.testbit (Z.land b m) (7 - j) = (j <? 8 - h) && Z.testbit b (7 - j)).
  { intros m Ha Em. exists m. split; [done|]. apply (all_bytes_spec _ b) in Ha; [|done]. cbv beta in Ha.
    zbool. split; [unfold byte_ok; lia|]. intros j Hj.
    match goal with H : forallb _ _ = true |- _ => rewrite forallb_forall in H; apply eqb_prop, (H j) end.
    apply list_elem_of_In, elem_of_seqZ. lia. }
  eight h Hh'; (eapply H; [|reflexivity]; vm_compute; reflexivity).
Qed.

Lemma rd_replicate n (b i : Z) : 0 <= i < Z.of_nat n -> rd (replicate n b) i = Some b.
Proof. intros Hi. unfold rd. zif_false. apply lookup_replicate_2. lia. Qed.

Lemma rd_cons_pos (h : Z) l k : 1 <= k -> rd (h :: l) k = rd l (k - 1).
Proof. intros Hk. rewrite <- (rd_cons_S h l (k - 1)) by lia. f_equal. lia. Qed.

Lemma byte_255 j : 0 <= j < 8 -> Z.testbit 255 (7 - j) = true.
Proof. intros Hj. eight j Hj; reflexivity. Qed.

Lemma zlen_replicate n (b : Z) : zlen (replicate n b) = Z.of_nat n.
Proof. unfold zlen. by rewrite length_replicate. Qed.

Lemma bytes_ok_replicate n b : byte_ok b -> bytes_ok (replicate n b).
Proof. intros Hb. by apply Forall_replicate. Qed.

Lemma zbitstr_spec size t :
  0 < size <= 253952 ->
  exists s, zbitstr size t = Ok s /\ bitstr_ok s /\ nbits s = size /\
    forall i, 1 <= i <= (zlen s - 1) * 8 -> bit s i = t && (i <=? size).
Proof.
  intros Hs. unfold zbitstr. replace ((size <=? 0) || (253952 <? size)) with false by lia.
  rewrite Z.quot_div_nonneg by lia. pose proof (Z.div_mod (size + 7) 8 ltac:(lia)) as E.
  pose proof (Z.mod_pos_bound (size + 7) 8 ltac:(lia)). set (n := (size + 7) / 8) in *.
  assert (Hn : 1 <= n) by lia. assert (Hh : 0 <= n * 8 - size <= 7) by lia.
  set (h := n * 8 - size) in *.
  assert (Hok : forall b, byte_ok b -> bytes_ok (h :: replicate (Z.to_nat n) b)).
  { intros b Hb. constructor; [unfold byte_ok; lia|by apply bytes_ok_replicate]. }
  assert (Hl : forall b : Z, zlen (h :: replicate (Z.to_nat n) b) = n + 1)
    by (intros b; rewrite zlen_cons, zlen_replicate; lia).
  destruct t.
  - destruct (fill_mask h 255 Hh ltac:(by_compute)) as (m & -> & Hm & Hbits). cbn [res_of mbind res_bind].
    rewrite rd_cons_pos by lia. rewrite rd_replicate by lia. cbn [res_of mbind res_bind].
    rewrite (wr_in_range (h :: replicate (Z.to_nat n) 255)) by (rewrite Hl; lia). cbn [res_of].
    assert (Hu : unused (<[Z.to_nat n := Z.land 255 m]> (h :: replicate (Z.to_nat n) 255)) = h)
      by (apply (unused_insert (h :: replicate (Z.to_nat n) 255)); rewrite Hl; lia).
    eexists. split; [done|].
    split; [split; [apply bytes_ok_insert; [apply Hok; by_compute|done]|rewrite zlen_insert, Hl, Hu; lia]|].
    unfold nbits. rewrite zlen_insert, Hl, Hu. split; [unfold h; lia|].
    intros i Hi. destruct (pos_split i) as (k & j & Ei & Hj & Ek & Em). unfold bit. rewrite Ek, Em, rd_insert by (rewrite ?Hl; lia).
    cbn [andb]. destruct (Z.eqb_spec n k) as [->|Hne]; cbn [default].
    + rewrite Hbits, byte_255, andb_true_r by done. destruct (Z.ltb_spec j (8 - h)), (Z.leb_spec i size); done || (unfold h in *; lia).
    + rewrite rd_cons_pos by lia. rewrite rd_replicate by lia. simpl. rewrite byte_255 by done. symmetry. apply Z.leb_le. unfold h in *. lia.
  - eexists. split; [done|]. assert (Hu : unused (h :: replicate (Z.to_nat n) 0) = h) by done.
    split; [split; [apply Hok; by_compute|rewrite Hl, Hu; lia]|]. unfold nbits. rewrite Hl, Hu. split; [unfold h; lia|].
    intros i Hi. destruct (pos_split i) as (k & j & Ei & Hj & Ek & Em). unfold bit. rewrite Ek.
    rewrite rd_cons_pos by lia. rewrite rd_replicate by lia. simpl. apply Z.testbit_0_l.
Qed.

(** * Counting and searching *)

Definition count_in (s : list Z) (i n : Z) : Z := Z.of_nat (length (List.filter (bit s) (seqZ i n))).

Lemma count_in_split s i n m : 0 <= n -> 0 <= m -> count_in s i (n + m) = count_in s i n + count_in s (i + n) m.
Proof. intros. unfold count_in. rewrite seqZ_app, List.filter_app, length_app by lia. lia. Qed.

Lemma count_in_one s i : count_in s i 1 = Z.b2z (bit s i).
Proof. unfold count_in. change (seqZ i 1) with [i]. cbn [List.filter]. by destruct (bit s i). Qed.

Lemma count_bits_spec s k b n i c :
  rd s k = Some b -> byte_ok b -> 0 <= i -> i + Z.of_nat n <= 8 ->
  count_bits n b i c = Ok (c + count_in s ((k - 1) * 8 + i + 1) (Z.of_nat n)).
Proof.
  intros E Hb. revert i c. induction n as [|n IH]; intros i c Hi Hn.
  { unfold count_in. simpl. f_equal. lia. }
  cbn [count_bits]. rewrite test_mask_spec by (done || lia). cbn [mbind res_bind].
  rewrite IH by lia. f_equal. replace (Z.of_nat (S n)) with (1 + Z.of_nat n) by lia.
  rewrite count_in_split, count_in_one, (bit_at s k i b) by (done || lia).
  replace ((k - 1) * 8 + (i + 1) + 1) with ((k - 1) * 8 + i + 1 + 1) by lia.
  destruct (Z.testbit b (7 - i)); simpl; lia.
Qed.

Lemma count_bytes_spec s n k c :
  bytes_ok s -> 1 <= k -> k + Z.of_nat n <= zlen s ->
  count_bytes n s k c = Ok (c + count_in s ((k - 1) * 8 + 1) (8 * Z.of_nat n)).
Proof.
  intros Hs. revert k c. induction n as [|n IH]; intros k c Hk Hn.
  { unfold count_in. simpl. f_equal. lia. }
  cbn [count_bytes]. destruct (rd_byte s k Hs ltac:(lia)) as (b & E & Hb). rewrite E. cbn [res_of mbind res_bind].
  rewrite (count_bits_spec s k b 8 0 c E Hb) by lia. cbn [mbind res_bind]. rewrite IH by lia.
  replace (8 * Z.of_nat (S n)) with (8 + 8 * Z.of_nat n) by lia. rewrite count_in_split by lia. f_equal.
  replace ((k - 1) * 8 + 0 + 1) with ((k - 1) * 8 + 1) by lia. change (Z.of_nat 8) with 8.
  replace ((k + 1 - 1) * 8 + 1) with ((k - 1) * 8 + 1 + 8) by lia. lia.
Qed.

(** The number of full bytes before the last, and of bits of the last. *)
Lemma last_byte_split N :
  1 <= N -> let n := Z.quot (N + 7) 8 - 1 in let m := if Z.rem N 8 =? 0 then 8 else Z.rem N 8 in
  N = 8 * n + m /\ 0 <= n /\ 1 <= m <= 8.
Proof.
  intros HN n m. unfold n, m. rewrite Z.quot_div_nonneg, Z.rem_mod_nonneg by lia.
  destruct (Z.eqb_spec (N mod 8) 0); Z.to_euclidean_division_equations; lia.
Qed.

Lemma zbitcoun_spec s : bitstr_ok s -> zbitcoun s = Ok (count_in s 1 (nbits s)).
Proof.
  intros Hs. unfold zbitcoun. destruct (ok_header s Hs) as (-> & Hu & HN). cbn [mbind res_bind].
  fold (nbits s). destruct (last_byte_split (nbits s) HN) as (EN & Hn & Hm).
  set (n := Z.quot (nbits s + 7) 8 - 1) in *.
  set (m := if Z.rem (nbits s) 8 =? 0 then 8 else Z.rem (nbits s) 8) in *. destruct Hs as (Hb & Hl & _).
  assert (n + 1 < zlen s) by (unfold nbits in EN; lia).
  rewrite count_bytes_spec by (done || lia). cbn [mbind res_bind].
  replace (0 <? m) with true by (symmetry; apply Z.ltb_lt; lia).
  destruct (rd_byte s (1 + Z.max 0 n) Hb ltac:(lia)) as (b & E & Hbb). rewrite E. cbn [res_of mbind res_bind].
  rewrite (count_bits_spec s _ b _ 0 _ E Hbb) by lia. f_equal. rewrite EN, count_in_split by lia.
  rewrite !Z2Nat.id by lia. replace (1 + Z.max 0 n - 1) with n by lia.
  replace ((1 - 1) * 8 + 1) with 1 by lia. replace (n * 8 + 0 + 1) with (1 + 8 * n) by lia. lia.
Qed.

Section Find.
Context (s : list Z) (Hs : bitstr_ok s) (t : bool).

Definition is_bit (i : Z) : bool := eqb (bit s i) t.

Lemma find_bits_spec k b n i :
  rd s k = Some b -> byte_ok b -> 0 <= i -> i + Z.of_nat n <= 8 ->
  find_bits n t b i = Ok ((fun r => r - 1 - (k - 1) * 8) <$> first_such is_bit ((k - 1) * 8 + i + 1) n).
Proof.
  intros E Hb. revert i. induction n as [|n IH]; intros i Hi Hn; [done|].
  cbn [find_bits first_such]. rewrite test_mask_spec by (done || lia). cbn [mbind res_bind].
  unfold is_bit at 1. rewrite (bit_at s k i b) by (done || lia).
  destruct (eqb _ _).
  - simpl. do 2 f_equal. lia.
  - rewrite IH by lia. by replace ((k - 1) * 8 + (i + 1) + 1) with ((k - 1) * 8 + i + 1 + 1) by lia.
Qed.

Lemma find_bytes_spec n k :
  0 <= k -> k + Z.of_nat n < zlen s ->
  exists byte_n, find_bytes n t s k = Ok (byte_n, (fun r => r + 1) <$> first_such is_bit (k * 8 + 1) (8 * n)) /\
    (first_such is_bit (k * 8 + 1) (8 * n) = None -> byte_n = k + Z.of_nat n).
Proof.
  revert k. induction n as [|n IH]; intros k Hk Hn.
  { exists k. split; [done|]. intros _. simpl. lia. }
  cbn [find_bytes]. destruct (rd_byte s (k + 1) (proj1 Hs) ltac:(lia)) as (b & E & Hb). rewrite E.
  cbn [res_of mbind res_bind]. rewrite (find_bits_spec (k + 1) b 8 0 E Hb) by lia. cbn [mbind res_bind].
  replace ((k + 1 - 1) * 8 + 0 + 1) with (k * 8 + 1) by lia.
  replace (8 * S n)%nat with (8 + 8 * n)%nat by lia. rewrite first_such_app.
  destruct (first_such is_bit (k * 8 + 1) 8) as [r|] eqn:Er; simpl fmap.
  - exists (k + 1). simpl. split; [|done]. do 3 f_equal. lia.
  - destruct (IH (k + 1)) as (byte_n & -> & Hnone); [lia|lia|]. exists byte_n.
    replace (k * 8 + 1 + Z.of_nat 8) with ((k + 1) * 8 + 1) by lia. split; [done|].
    intros H. rewrite Hnone by done. lia.
Qed.

(** The position after the first bit [t] from [pos] on, or 0. *)
Lemma zbitfind_spec pos :
  let p := Z.max 1 pos in
  zbitfind s t pos =
    Ok (match first_such is_bit p (Z.to_nat (nbits s + 1 - p)) with Some r => r + 1 | None => 0 end).
Proof.
  intros p. unfold zbitfind. destruct (ok_header s Hs) as (-> & Hu & HN). cbn [mbind res_bind].
  fold (nbits s). destruct ((1 <=? pos) && (nbits s <? pos)) eqn:Epos.
  { zbool. replace (Z.to_nat (nbits s + 1 - p)) with 0%nat by lia. done. }
  assert (Hp : 1 <= p <= nbits s) by (unfold p; lia).
  replace (if pos <? 1 then 1 else pos) with p by (unfold p; destruct (Z.ltb_spec pos 1); lia).
  destruct (pos_byte s p Hs Hp) as (k & j & b & Ep & Hj & Hk & -> & -> & Eb & Hb & _).
  destruct (last_byte_split (nbits s) HN) as (EN & Hn & Hm).
  set (n := Z.quot (nbits s + 7) 8 - 1) in *.
  set (m := if Z.rem (nbits s) 8 =? 0 then 8 else Z.rem (nbits s) 8) in *.
  assert (Hzl : n + 1 < zlen s) by (unfold nbits in EN; lia).
  rewrite Eb. cbn [res_of mbind res_bind]. replace (j + 1 - 1) with j by lia.
  assert (Hi1 : exists i1, (if k =? n + 1 then m else 8) = i1 /\ j < i1 <= 8 /\
     ((k =? n + 1) = true -> i1 = m) /\ ((k =? n + 1) = false -> i1 = 8) /\ k <= n + 1).
  { eexists. split; [reflexivity|]. destruct (Z.eqb_spec k (n + 1)); repeat split; intros; try done; try lia. }
  destruct Hi1 as (i1 & -> & Hi1 & Him & Hi8 & Hkn).
  rewrite (find_bits_spec k b _ j Eb Hb) by lia. cbn [mbind res_bind]. rewrite <- Ep.
  assert (Hsplit : forall c1 c2 N', N' = (c1 + c2)%nat -> first_such is_bit p N' =
     match first_such is_bit p c1 with Some r => Some r | None => first_such is_bit (p + Z.of_nat c1) c2 end)
    by (intros c1 c2 N' ->; apply first_such_app).
  destruct (Z.eqb_spec k (n + 1)) as [Ek|Ek].
  - rewrite Him by done. replace (Z.to_nat (nbits s + 1 - p)) with (Z.to_nat (m - j)) by lia.
    destruct (first_such is_bit p (Z.to_nat (m - j))) as [r|]; cbn [fmap option_fmap option_map]; [f_equal; lia|done].
  - rewrite Hi8 by done.
    rewrite (Hsplit (Z.to_nat (8 - j)) (8 * Z.to_nat (n - k) + Z.to_nat m)%nat (Z.to_nat (nbits s + 1 - p))) by lia.
    destruct (first_such is_bit p (Z.to_nat (8 - j))) as [r|]; cbn [fmap option_fmap option_map]; [f_equal; lia|].
    destruct (find_bytes_spec (Z.to_nat (n - k)) k) as (byte_n & -> & Hnone); [lia|lia|]. cbn [mbind res_bind].
    replace (p + Z.of_nat (Z.to_nat (8 - j))) with (k * 8 + 1) by lia. rewrite first_such_app.
    destruct (first_such is_bit (k * 8 + 1) (8 * Z.to_nat (n - k))) as [r|]; [done|].
    cbn [fmap option_fmap option_map]. rewrite Hnone by done.
    destruct (rd_byte s (n + 1) (proj1 Hs) ltac:(lia)) as (b2 & Eb2 & Hb2).
    replace (k + Z.of_nat (Z.to_nat (n - k)) + 1) with (n + 1) by lia. rewrite Eb2. cbn [res_of mbind res_bind].
    rewrite (find_bits_spec (n + 1) b2 _ 0 Eb2 Hb2) by lia. cbn [mbind res_bind].
    replace ((n + 1 - 1) * 8 + 0 + 1) with (k * 8 + 1 + Z.of_nat (8 * Z.to_nat (n - k))) by lia.
    destruct (first_such is_bit _ (Z.to_nat m)) as [r|]; cbn [fmap option_fmap option_map]; [f_equal; lia|done].
Qed.
End Find.

(** * Bitwise operations *)

Lemma wr_nat l i v : (i < length l)%nat -> wr l (Z.of_nat i) v = Some (<[i := v]> l).
Proof. intros H. unfold wr. zif_false. by rewrite Nat2Z.id. Qed.

Lemma not_bytes_spec n m k free d :
  (k + n <= length m)%nat -> (d + n <= length free)%nat ->
  not_bytes n m (Z.of_nat k) free (Z.of_nat d) =
    Ok (take d free ++ map (fun b => u8 (Z.lnot b)) (take n (drop k m)) ++ drop (d + n) free).
Proof.
  revert k d free. induction n as [|n IH]; intros k d free Hm Hf.
  - cbn [not_bytes]. rewrite take_0, Nat.add_0_r. cbn [map app]. by rewrite take_drop.
  - cbn [not_bytes]. destruct (lookup_lt_is_Some_2 m k) as [b Eb]; [lia|]. rewrite rd_nat, Eb. cbn [res_of mbind res_bind].
    rewrite wr_nat by lia. cbn [res_of mbind res_bind].
    replace (Z.of_nat k + 1) with (Z.of_nat (S k)) by lia. replace (Z.of_nat d + 1) with (Z.of_nat (S d)) by lia.
    rewrite IH by (rewrite ?length_insert; lia). f_equal. rewrite (drop_S m b k Eb), drop_insert_lt by lia. cbn [take map app].
    replace (S d + n)%nat with (d + S n)%nat by lia. erewrite take_S_r by (apply list_lookup_insert_eq; lia).
    by rewrite take_insert_ge, <- app_assoc by lia.
Qed.

Lemma zbitnot_spec s after free :
  bitstr_ok s -> zlen s + stp_slack <= zlen free ->
  exists s' b, zbitnot s after free = Ok (s' ++ b :: drop (S (length s)) free) /\ bitstr_ok s' /\ zlen s' = zlen s /\ nbits s' = nbits s /\
    forall i, 1 <= i <= (zlen s - 1) * 8 -> bit s' i = negb (bit s i).
Proof.
  intros Hs Hf. unfold stp_slack, zlen in Hf. unfold zbitnot. destruct (ok_header s Hs) as (-> & _ & _). cbn [mbind res_bind].
  destruct Hs as (Hb & Hl & Hu). destruct s as [|h s]; [done|]. destruct free as [|f0 free]; [cbn in Hf; lia|].
  change (unused (h :: s)) with h. change (wr (f0 :: free) 0 h) with (Some (h :: free)). cbn [res_of mbind res_bind].
  change (not_bytes (length (h :: s)) ((h :: s) ++ [after]) 1 (h :: free) 1) with
    (not_bytes (length (h :: s)) ((h :: s) ++ [after]) (Z.of_nat 1) (h :: free) (Z.of_nat 1)).
  rewrite (not_bytes_spec (length (h :: s)) ((h :: s) ++ [after]) 1 (h :: free) 1) by (rewrite ?length_app; cbn in *; lia).
  assert (E : take 1 (h :: free) ++ map (fun b => u8 (Z.lnot b)) (take (length (h :: s)) (drop 1 ((h :: s) ++ [after]))) ++ drop (1 + length (h :: s)) (h :: free)
    = (h :: map (fun b => u8 (Z.lnot b)) s) ++ u8 (Z.lnot after) :: drop (S (length (h :: s))) (f0 :: free)).
  { cbn [take drop app length Nat.add]. rewrite !drop_0, (take_ge (s ++ [after])) by (rewrite ?length_app; cbn; lia). by rewrite map_app, <- app_assoc. }
  rewrite E. clear E. eexists _, _. split; [done|].
  assert (El : zlen (h :: map (fun b => u8 (Z.lnot b)) s) = zlen (h :: s))
    by (unfold zlen; simpl; by rewrite length_map).
  split; [|split; [done|split; [unfold nbits; by rewrite El|]]].
  - split; [|by rewrite El]. inversion Hb; subst. constructor; [done|]. apply Forall_map, Forall_true.
    intros b. unfold byte_ok, u8. simpl. apply Z.mod_pos_bound. lia.
  - intros i Hi. destruct (pos_split i) as (k & j & Ei & Hj & Ek & Em). unfold bit. rewrite Ek, Em.
    rewrite zlen_cons in *. inversion Hb; subst.
    destruct (rd_byte s (k - 1)) as (b & Eb & Hbb); [done|lia|].
    rewrite !rd_cons_pos by lia. rewrite Eb. unfold rd in Eb |- *. revert Eb.
    zif_false. intros Eb. rewrite list_lookup_fmap, Eb. simpl default.
    apply eqb_prop. eight j Hj; byte_decide b Hbb.
Qed.

(** [f] acts on the bits of bytes as [op]. *)
Definition bitwise (f : Z -> Z -> Z) (op : bool -> bool -> bool) : Prop :=
  (forall a b, byte_ok a -> byte_ok b -> byte_ok (f a b)) /\
  forall a b i, Z.testbit (f a b) i = op (Z.testbit a i) (Z.testbit b i).

Lemma byte_op f : 
  all_bytes (fun a => all_bytes (fun b => (0 <=? f a b) && (f a b <? 256))) = true ->
  forall a b, byte_ok a -> byte_ok b -> byte_ok (f a b).
Proof.
  intros H a b Ha Hb. apply (all_bytes_spec _ a) in H; [|done]. cbv beta in H.
  apply (all_bytes_spec _ b) in H; [|done]. cbv beta in H. zbool. unfold byte_ok. lia.
Qed.

Lemma land_bitwise : bitwise Z.land andb.
Proof. split; [apply byte_op; vm_compute; reflexivity|apply Z.land_spec]. Qed.
Lemma lor_bitwise : bitwise Z.lor orb.
Proof. split; [apply byte_op; vm_compute; reflexivity|apply Z.lor_spec]. Qed.
Lemma lxor_bitwise : bitwise Z.lxor xorb.
Proof. split; [apply byte_op; vm_compute; reflexivity|apply Z.lxor_spec]. Qed.

Lemma zip_bytes_spec f op n s1 s2 i :
  bitwise f op -> bytes_ok s1 -> bytes_ok s2 -> 0 <= i -> i + Z.of_nat n <= zlen s1 -> i + Z.of_nat n <= zlen s2 ->
  exists l, zip_bytes f n s1 s2 i = Ok l /\ bytes_ok l /\ zlen l = Z.of_nat n /\
    forall k, 0 <= k < Z.of_nat n -> exists b1 b2,
      rd s1 (i + k) = Some b1 /\ rd s2 (i + k) = Some b2 /\ rd l k = Some (f b1 b2).
Proof.
  intros Hf H1 H2. revert i. induction n as [|n IH]; intros i Hi Hl1 Hl2.
  { exists []. repeat split; [constructor|lia]. }
  cbn [zip_bytes]. destruct (rd_byte s1 i H1 ltac:(lia)) as (b1 & E1 & Hb1).
  destruct (rd_byte s2 i H2 ltac:(lia)) as (b2 & E2 & Hb2). rewrite E1, E2. cbn [res_of mbind res_bind].
  destruct (IH (i + 1)) as (l & -> & Hb & Hl & Hk); [lia..|]. cbn [mbind res_bind].
  exists (f b1 b2 :: l). split; [done|]. split; [constructor; [by apply Hf|done]|]. split; [rewrite zlen_cons; lia|].
  intros k Hk'. destruct (Z.eq_dec k 0) as [->|Hne].
  - exists b1, b2. by rewrite Z.add_0_r.
  - rewrite rd_cons_pos by lia. destruct (Hk (k - 1)) as (c1 & c2 & Hc); [lia|]. exists c1, c2.
    by replace (i + 1 + (k - 1)) with (i + k) in Hc by lia.
Qed.

(** The bits of [h :: l ++ rest] below those of [rest]. *)
Lemma zip_bit f op s1 s2 h l rest n :
  bitwise f op ->
  (forall k, 0 <= k < n -> exists b1 b2,
      rd s1 (1 + k) = Some b1 /\ rd s2 (1 + k) = Some b2 /\ rd l k = Some (f b1 b2)) ->
  forall i, 1 <= i <= n * 8 -> bit (h :: l ++ rest) i = op (bit s1 i) (bit s2 i).
Proof.
  intros Hf Hl i Hi. destruct (pos_split i) as (k & j & Ei & Hj & Ek & Em). unfold bit. rewrite Ek, Em.
  destruct (Hl (k - 1)) as (b1 & b2 & E1 & E2 & E); [lia|]. replace (1 + (k - 1)) with k in * by lia.
  rewrite rd_cons_pos by lia. rewrite rd_app_l by (apply rd_Some_range in E; lia). rewrite E, E1, E2. apply Hf.
Qed.

Lemma two_headers_ok s1 s2 :
  bitstr_ok s1 -> bitstr_ok s2 ->
  two_headers s1 s2 = Ok ((unused s1, (zlen s1 - 1) * 8), (unused s2, (zlen s2 - 1) * 8)).
Proof.
  intros H1 H2. unfold two_headers. destruct (ok_header s1 H1) as (-> & _), (ok_header s2 H2) as (-> & _).
  destruct H1 as (_ & H1 & _), H2 as (_ & H2 & _).
  by replace ((zlen s1 =? 0) || (zlen s2 =? 0)) with false by (symmetry; zbool_goal).
Qed.

(** The length of the result of [zbitand] and [zbitxor]: the shorter one's. *)
Lemma shorter_bits s1 s2 :
  bitstr_ok s1 -> bitstr_ok s2 ->
  let N := Z.min (nbits s1) (nbits s2) in let n := Z.quot (N + 7) 8 in
  (if (zlen s2 - 1) * 8 - unused s2 <? (zlen s1 - 1) * 8 - unused s1
   then (zlen s2 - 1) * 8 - unused s2 else (zlen s1 - 1) * 8 - unused s1) = N /\
  1 <= N /\ 1 <= n /\ 0 <= n * 8 - N <= 7 /\ 1 + n <= zlen s1 /\ 1 + n <= zlen s2.
Proof.
  intros H1 H2 N n. fold (nbits s1) (nbits s2).
  destruct (ok_header s1 H1) as (_ & Hu1 & HN1), (ok_header s2 H2) as (_ & Hu2 & HN2).
  assert (EN : (if nbits s2 <? nbits s1 then nbits s2 else nbits s1) = N)
    by (unfold N; destruct (Z.ltb_spec (nbits s2) (nbits s1)); lia).
  split; [done|]. unfold nbits in *. unfold n. rewrite Z.quot_div_nonneg by lia.
  pose proof (Z.div_mod (N + 7) 8 ltac:(lia)). pose proof (Z.mod_pos_bound (N + 7) 8 ltac:(lia)).
  set (q := (N + 7) / 8) in *. clearbody q. lia.
Qed.

Lemma zbitand_spec s1 s2 :
  bitstr_ok s1 -> bitstr_ok s2 ->
  exists s, zbitand s1 s2 = Ok s /\ bitstr_ok s /\ nbits s = Z.min (nbits s1) (nbits s2) /\
    forall i, 1 <= i <= (zlen s - 1) * 8 -> bit s i = bit s1 i && bit s2 i.
Proof.
  intros H1 H2. unfold zbitand. rewrite two_headers_ok by done. cbn [mbind res_bind].
  destruct (shorter_bits s1 s2 H1 H2) as (-> & HN & Hn & Hh & Hn1 & Hn2).
  set (N := Z.min _ _) in *. set (n := Z.quot _ 8) in *.
  destruct (zip_bytes_spec Z.land andb (Z.to_nat n) s1 s2 1 land_bitwise (proj1 H1) (proj1 H2))
    as (l & -> & Hb & Hl & Hk); [lia..|]. cbn [mbind res_bind]. rewrite Z2Nat.id in * by lia.
  eexists. split; [done|]. assert (EN : nbits (n * 8 - N :: l) = N) by (unfold nbits, unused; rewrite zlen_cons, Hl; simpl; lia).
  split; [|split; [done|]].
  - split; [constructor; [unfold byte_ok; lia|done]|]. rewrite zlen_cons, Hl. unfold unused. simpl. lia.
  - rewrite zlen_cons, Hl. intros i Hi. pose proof (zip_bit _ _ s1 s2 (n * 8 - N) l [] n land_bitwise Hk i) as E.
    rewrite app_nil_r in E. apply E. lia.
Qed.

Lemma zbitxor_spec s1 s2 :
  bitstr_ok s1 -> bitstr_ok s2 ->
  exists s, zbitxor s1 s2 = Ok s /\ bitstr_ok s /\ nbits s = Z.min (nbits s1) (nbits s2) /\
    forall i, 1 <= i <= (zlen s - 1) * 8 -> bit s i = (i <=? nbits s) && xorb (bit s1 i) (bit s2 i).
Proof.
  intros H1 H2. unfold zbitxor. rewrite two_headers_ok by done. cbn [mbind res_bind].
  destruct (shorter_bits s1 s2 H1 H2) as (-> & HN & Hn & Hh & Hn1 & Hn2).
  set (N := Z.min _ _) in *. set (n := Z.quot _ 8) in *.
  destruct (zip_bytes_spec Z.lxor xorb (Z.to_nat n) s1 s2 1 lxor_bitwise (proj1 H1) (proj1 H2))
    as (l & -> & Hb & Hl & Hk); [lia..|]. cbn [mbind res_bind]. rewrite Z2Nat.id in * by lia.
  set (h := n * 8 - N) in *. assert (Hzl : zlen (h :: l) = n + 1) by (rewrite zlen_cons; lia).
  assert (Hbh : bytes_ok (h :: l)) by (constructor; [unfold byte_ok; lia|done]).
  destruct (rd_byte (h :: l) n Hbh ltac:(lia)) as (b & Eb & Hbb). rewrite Eb. cbn [res_of mbind res_bind].
  destruct (fill_mask h b Hh Hbb) as (m & -> & Hm & Hbits). cbn [res_of mbind res_bind].
  rewrite wr_in_range by lia. cbn [res_of]. eexists. split; [done|].
  assert (Hun : unused (<[Z.to_nat n := Z.land b m]> (h :: l)) = h) by (rewrite unused_insert by lia; done).
  assert (EN : nbits (<[Z.to_nat n := Z.land b m]> (h :: l)) = N) by (unfold nbits; rewrite Hun, zlen_insert; lia).
  split; [split; [by apply bytes_ok_insert|rewrite Hun, zlen_insert; lia]|]. split; [done|]. rewrite EN, zlen_insert, Hzl.
  intros i Hi. pose proof (zip_bit _ _ s1 s2 h l [] n lxor_bitwise Hk i ltac:(lia)) as E. rewrite app_nil_r in E.
  rewrite <- E. destruct (pos_split i) as (k & j & Ei & Hj & Ek & Em). unfold bit. rewrite Ek, Em, rd_insert by lia.
  destruct (Z.eqb_spec n k) as [<-|Hne].
  - rewrite Eb. simpl default. rewrite Hbits by done. f_equal.
    destruct (Z.ltb_spec j (8 - h)), (Z.leb_spec i N); unfold h in *; done || lia.
  - replace (i <=? N) with true; [done|]. symmetry. apply Z.leb_le. unfold h in *. lia.
Qed.

(** The bits the shorter operand does not use: the or takes them along. *)
Lemma zbitor_spec s1 s2 :
  bitstr_ok s1 -> bitstr_ok s2 ->
  exists s, zbitor s1 s2 = Ok s /\ bitstr_ok s /\ nbits s = Z.max (nbits s1) (nbits s2) /\
    forall i, 1 <= i -> bit s i = bit s1 i || bit s2 i.
Proof.
  intros H1 H2. unfold zbitor. rewrite two_headers_ok by done. cbn [mbind res_bind].
  fold (nbits s1) (nbits s2).
  pose proof H1 as (Hb1 & Hl1 & Hu1). pose proof H2 as (Hb2 & Hl2 & Hu2).
  pose proof (ok_header s1 H1) as (_ & Hu1' & _). pose proof (ok_header s2 H2) as (_ & Hu2' & _).
  set (short1 := nbits s1 <? nbits s2). set (n := if short1 then zlen s2 - 1 else zlen s1 - 1).
  set (n0 := if short1 then zlen s1 - 1 else zlen s2 - 1). set (long := if short1 then s2 else s1).
  set (short := if short1 then s1 else s2).
  assert (Hc : n = zlen long - 1 /\ n0 = zlen short - 1 /\ 1 <= n0 <= n /\ 1 + n0 <= zlen s1 /\ 1 + n0 <= zlen s2 /\
     (if short1 then unused s2 else unused s1) = unused long /\ bytes_ok long /\ unused long <= 7 /\
     nbits long = Z.max (nbits s1) (nbits s2)).
  { unfold n, n0, long, short, short1. destruct (Z.ltb_spec (nbits s1) (nbits s2)); unfold nbits in *;
    repeat split; done || lia. }
  destruct Hc as (En & En0 & Hn & Hn1 & Hn2 & -> & Hbl & Hul & Hnl).
  destruct (zip_bytes_spec Z.lor orb (Z.to_nat n0) s1 s2 1 lor_bitwise Hb1 Hb2)
    as (l & -> & Hb & Hl & Hk); [lia..|]. cbn [mbind res_bind]. rewrite Z2Nat.id in * by lia.
  set (rest := if negb (n =? n0) then _ else _).
  assert (Er : rest = drop (Z.to_nat (n0 + 1)) long).
  { unfold rest. destruct (Z.eqb_spec n n0) as [E|E]; simpl.
    - rewrite drop_ge; [done|]. unfold zlen in *. lia.
    - fold long. apply take_ge. rewrite length_drop. unfold zlen in *. lia. }
  clearbody rest. subst rest.
  assert (Hzl : zlen (unused long :: l ++ drop (Z.to_nat (n0 + 1)) long) = zlen long).
  { rewrite zlen_cons, zlen_app. unfold zlen in *. rewrite length_drop. lia. }
  eexists. split; [done|].
  assert (EN : nbits (unused long :: l ++ drop (Z.to_nat (n0 + 1)) long) = nbits long).
  { unfold nbits. by rewrite Hzl. }
  rewrite EN, Hnl. split; [|split; [done|]].
  - split; [|rewrite Hzl; unfold unused at 1; simpl; lia]. constructor; [unfold byte_ok|].
    + unfold long. destruct short1; lia.
    + apply Forall_app. split; [done|]. by apply Forall_drop.
  - intros i Hi. destruct (Z_le_gt_dec i (n0 * 8)) as [Hle|Hgt].
    + apply (zip_bit _ _ s1 s2 _ l _ n0 lor_bitwise Hk); lia.
    + destruct (pos_split i) as (k & j & Ei & Hj & Ek & Em).
      assert (Hsh : bit short i = false).
      { unfold bit. rewrite Ek. destruct (rd short k) as [b|] eqn:E; [apply rd_Some_range in E; lia|apply Z.testbit_0_l]. }
      assert (Hlo : bit (unused long :: l ++ drop (Z.to_nat (n0 + 1)) long) i = bit long i).
      { unfold bit. rewrite Ek. rewrite rd_cons_pos by lia. rewrite rd_app_r by lia. do 2 f_equal. unfold rd.
        zif_false. zif_false. rewrite lookup_drop. f_equal. lia. }
      rewrite Hlo. unfold short, long in *. destruct short1; rewrite Hsh; [done|by rewrite orb_false_r].
Qed.

(** * Properties *)

(** The bits past the last are not set. *)
Definition clean (s : list Z) : Prop := bitstr_ok s /\ forall i, nbits s < i -> bit s i = false.

Lemma bit_past s i : 1 <= zlen s -> (zlen s - 1) * 8 < i -> bit s i = false.
Proof.
  intros Hl Hi. destruct (pos_split i) as (k & j & Ei & Hj & Ek & Em). unfold bit. rewrite Ek.
  destruct (rd s k) as [b|] eqn:E; [apply rd_Some_range in E; lia|apply Z.testbit_0_l].
Qed.

(** A bit string is clean when its bits past the last, within its bytes, are not set. *)
Lemma clean_intro s :
  bitstr_ok s -> (forall i, nbits s < i <= (zlen s - 1) * 8 -> bit s i = false) -> clean s.
Proof.
  intros Hs H. split; [done|]. intros i Hi. destruct (Z_le_gt_dec i ((zlen s - 1) * 8)) as [Hle|Hgt].
  - apply H. lia.
  - destruct Hs as (_ & Hl & _). apply bit_past; lia.
Qed.

Lemma zbitand_clean s1 s2 s : clean s1 -> clean s2 -> zbitand s1 s2 = Ok s -> clean s.
Proof.
  intros [H1 C1] [H2 C2] E. destruct (zbitand_spec s1 s2 H1 H2) as (s' & E' & Hs & Hn & Hbit).
  rewrite E in E'. injection E' as <-. apply clean_intro; [done|]. intros i Hi.
  destruct (ok_header s Hs) as (_ & _ & HN). rewrite Hbit by lia.
  destruct (Z_le_gt_dec i (nbits s1)); [rewrite (C2 i) by lia; apply andb_false_r|by rewrite (C1 i) by lia].
Qed.

Lemma zbitor_clean s1 s2 s : clean s1 -> clean s2 -> zbitor s1 s2 = Ok s -> clean s.
Proof.
  intros [H1 C1] [H2 C2] E. destruct (zbitor_spec s1 s2 H1 H2) as (s' & E' & Hs & Hn & Hbit).
  rewrite E in E'. injection E' as <-. apply clean_intro; [done|]. intros i Hi.
  destruct (ok_header s Hs) as (_ & _ & HN). rewrite Hbit, (C1 i), (C2 i) by lia. done.
Qed.

Lemma zbitxor_clean s1 s2 s : bitstr_ok s1 -> bitstr_ok s2 -> zbitxor s1 s2 = Ok s -> clean s.
Proof.
  intros H1 H2 E. destruct (zbitxor_spec s1 s2 H1 H2) as (s' & E' & Hs & Hn & Hbit).
  rewrite E in E'. injection E' as <-. apply clean_intro; [done|]. intros i Hi.
  destruct (ok_header s Hs) as (_ & _ & HN). rewrite Hbit by lia.
  by replace (i <=? nbits s) with false by (symmetry; apply Z.leb_gt; lia).
Qed.

(** $ZBITSTR gives a string of [size] bits, all of them [truthval], and
    raises an error for a size that is not positive or above 253,952. *)
Theorem zbitstr_creates size truthval :
  if (1 <=? size) && (size <=? 253952) then
    exists s, zbitstr size truthval = Ok s /\ zbitlen s = Ok size /\ clean s /\
      forall i, 1 <= i <= size -> zbitget s i = Ok (Z.b2z truthval)
  else zbitstr size truthval = Err ERR_INVBITLEN.
Proof.
  destruct ((1 <=? size) && (size <=? 253952)) eqn:E.
  - zbool. destruct (zbitstr_spec size truthval) as (s & -> & Hs & Hn & Hbit); [lia|]. exists s.
    destruct (ok_header s Hs) as (Eh & Hu & _). split; [done|]. split.
    { unfold zbitlen. rewrite Eh. cbn [mbind res_bind]. fold (nbits s). by rewrite Hn. }
    assert (Hlen : size <= (zlen s - 1) * 8) by (unfold nbits in Hn; lia). split.
    + apply clean_intro; [done|]. intros i Hi. rewrite Hbit by lia.
      replace (i <=? size) with false by (symmetry; apply Z.leb_gt; lia). apply andb_false_r.
    + intros i Hi. rewrite zbitget_spec by done. rewrite Hn, Hbit by lia.
      replace ((1 <=? i) && (i <=? size)) with true by (symmetry; zbool_goal). replace (i <=? size) with true by (symmetry; zbool_goal).
      by rewrite andb_true_r.
  - unfold zbitstr. apply andb_false_iff in E. replace ((size <=? 0) || (253952 <? size)) with true; [done|].
    symmetry. apply orb_true_iff. destruct E as [E|E]; zbool; [left|right]; lia.
Qed.

Lemma zbitstr_clean size t s : zbitstr size t = Ok s -> clean s.
Proof.
  intros E. destruct (Z_lt_le_dec size 1) as [Hlt|Hge].
  { unfold zbitstr in E. by replace ((size <=? 0) || (253952 <? size)) with true in E by lia. }
  destruct (Z_lt_le_dec 253952 size) as [Hlt|Hle].
  { unfold zbitstr in E. by replace ((size <=? 0) || (253952 <? size)) with true in E by lia. }
  destruct (zbitstr_spec size t) as (s' & E' & Hs & Hn & Hbit); [lia|]. rewrite E in E'. injection E' as <-.
  apply clean_intro; [done|]. intros i Hi. rewrite Hbit by lia.
  replace (i <=? size) with false by (symmetry; apply Z.leb_gt; lia). apply andb_false_r.
Qed.

Lemma zbitset_clean s pos t s' : clean s -> zbitset s pos t = Ok s' -> clean s'.
Proof.
  intros [Hs C] E. pose proof (zbitset_spec s pos t Hs) as H. destruct (_ && _) eqn:Hpos; [|by rewrite E in H].
  destruct H as (s2 & E2 & Hs2 & Hn & Hbit). rewrite E in E2. injection E2 as <-. zbool.
  apply clean_intro; [done|]. intros i Hi. rewrite Hbit by lia.
  replace (i =? pos) with false by (symmetry; apply Z.eqb_neq; lia). apply C. lia.
Qed.

(** The value of bit [i] as $ZBITGET reports it; bits past the last read as 0. *)
Definition get (s : list Z) (i : Z) : bool := (i <=? nbits s) && bit s i.

(** $ZBITSET changes the bit of its position and no other, $ZBITGET then
    reads it, and both raise an error for a position outside the string. *)
Theorem zbitset_get s pos t :
  bitstr_ok s ->
  if (1 <=? pos) && (pos <=? nbits s) then
    exists s', zbitset s pos t = Ok s' /\ bitstr_ok s' /\ zbitlen s' = zbitlen s /\
      forall i, zbitget s' i = if i =? pos then Ok (Z.b2z t) else zbitget s i
  else zbitset s pos t = Err ERR_INVBITPOS /\ zbitget s pos = Err ERR_INVBITPOS.
Proof.
  intros Hs. pose proof (zbitset_spec s pos t Hs) as H. destruct (_ && _) eqn:E.
  - destruct H as (s' & -> & Hs' & Hn & Hbit). exists s'. split; [done|]. split; [done|]. split.
    + unfold zbitlen. destruct (ok_header s Hs) as (-> & _), (ok_header s' Hs') as (-> & _).
      cbn [mbind res_bind]. fold (nbits s) (nbits s'). by rewrite Hn.
    + intros i. rewrite !zbitget_spec, Hn by done. destruct (Z.eqb_spec i pos) as [->|Hne].
      * rewrite E. zbool. rewrite Hbit, Z.eqb_refl by lia. done.
      * destruct ((1 <=? i) && (i <=? nbits s)) eqn:Ei; [|done]. zbool. rewrite Hbit by lia.
        by replace (i =? pos) with false by (symmetry; apply Z.eqb_neq; lia).
  - split; [done|]. rewrite zbitget_spec by done. by rewrite E.
Qed.

Lemma zbitset_get_witness :
  bitstr_ok [6; 192] /\ exists s', zbitset [6; 192] 1 false = Ok s' /\ zbitget s' 1 = Ok 0 /\ zbitget s' 2 = Ok 1.
Proof.
  split; [by_compute|].
  pose proof (zbitset_get [6; 192] 1 false ltac:(by_compute)) as H. cbv iota beta in H.
  destruct H as (s' & E & _ & _ & H). exists s'. split; [exact E|]. split; [apply (H 1)|apply (H 2)].
Defined.

(** $ZBITCOUNT counts the bits of the string that are set, and $ZBITFIND
    gives the position after the first bit with the value from [pos] on, or 0;
    the bits past the last, whatever they hold, do not count. *)
Theorem zbitcoun_zbitfind s t pos :
  bitstr_ok s ->
  zbitcoun s = Ok (count_in s 1 (nbits s)) /\
  zbitfind s t pos =
    let p := Z.max 1 pos in
    Ok (match first_such (fun i => eqb (get s i) t) p (Z.to_nat (nbits s + 1 - p)) with
        | Some r => r + 1 | None => 0 end).
Proof.
  intros Hs. split; [by apply zbitcoun_spec|]. rewrite zbitfind_spec by done. cbv zeta.
  f_equal. rewrite (first_such_ext (fun i => eqb (get s i) t) (is_bit s t)); [done|]. intros j Hj. unfold is_bit, get.
  by replace (j <=? nbits s) with true by (symmetry; apply Z.leb_le; lia).
Qed.

Lemma zbitcoun_zbitfind_witness :
  bitstr_ok [6; 64] /\ zbitcoun [6; 64] = Ok 1 /\ zbitfind [6; 64] true 0 = Ok 3.
Proof. split; [by_compute|]. apply (zbitcoun_zbitfind [6; 64] true 0). by_compute. Defined.

(** C37: the functions of two bit strings are the operations on each bit, for
    strings that have no bit set past their last (as all that are made without
    $ZBITNOT): and and exclusive or keep the length of the shorter, or keeps
    that of the longer. Not inverts every bit, whatever byte follows the
    operand in memory, and stores its result and one byte more at
    stringpool.free: no other byte changes, and the longword that stp_init
    allocates past the pool has room for it. *)
Theorem zbit_boolean s1 s2 after free :
  clean s1 -> clean s2 -> zlen s1 + stp_slack <= zlen free ->
  (exists s, zbitand s1 s2 = Ok s /\ nbits s = Z.min (nbits s1) (nbits s2) /\
     forall i, 1 <= i <= nbits s -> get s i = get s1 i && get s2 i) /\
  (exists s, zbitor s1 s2 = Ok s /\ nbits s = Z.max (nbits s1) (nbits s2) /\
     forall i, 1 <= i <= nbits s -> get s i = get s1 i || get s2 i) /\
  (exists s, zbitxor s1 s2 = Ok s /\ nbits s = Z.min (nbits s1) (nbits s2) /\
     forall i, 1 <= i <= nbits s -> get s i = xorb (get s1 i) (get s2 i)) /\
  (exists s b, zbitnot s1 after free = Ok (s ++ b :: drop (S (length s1)) free) /\ zlen s = zlen s1 /\ nbits s = nbits s1 /\
     forall i, 1 <= i <= nbits s -> get s i = negb (get s1 i)).
Proof.
  intros [H1 C1] [H2 C2] Hf.
  assert (G : forall s i, clean s -> get s i = bit s i).
  { intros s i [_ C]. unfold get. destruct (Z.leb_spec i (nbits s)); [done|]. by rewrite C by lia. }
  assert (R : forall s, nbits s <= (zlen s - 1) * 8 \/ unused s < 0) by (intros s; unfold nbits; lia).
  assert (L : forall s i, i <= nbits s -> get s i = bit s i).
  { intros s i Hi. unfold get. by replace (i <=? nbits s) with true by (symmetry; apply Z.leb_le; lia). }
  repeat split.
  - destruct (zbitand_spec s1 s2 H1 H2) as (s & E & Hs & Hn & Hbit). exists s. split; [done|]. split; [done|].
    intros i Hi. destruct (ok_header s Hs) as (_ & Hu & _). rewrite !L by lia. apply Hbit. unfold nbits in Hi. lia.
  - destruct (zbitor_spec s1 s2 H1 H2) as (s & E & Hs & Hn & Hbit). exists s. split; [done|]. split; [done|].
    intros i Hi. rewrite L, !G by done || lia. apply Hbit. lia.
  - destruct (zbitxor_spec s1 s2 H1 H2) as (s & E & Hs & Hn & Hbit). exists s. split; [done|]. split; [done|].
    intros i Hi. destruct (ok_header s Hs) as (_ & Hu & _). rewrite !L by lia. rewrite Hbit by (unfold nbits in Hi; lia).
    by replace (i <=? nbits s) with true by (symmetry; apply Z.leb_le; lia).
  - destruct (zbitnot_spec s1 after free H1 Hf) as (s & b & E & Hs & Hl & Hn & Hbit). exists s, b. split; [done|]. split; [done|]. split; [done|].
    intros i Hi. destruct (ok_header s1 H1) as (_ & Hu & _). rewrite !L by lia. apply Hbit. unfold nbits in *. lia.
Qed.

Lemma zbit_boolean_witness :
  clean [6; 128] /\ clean [0; 65] /\ (exists s, zbitor [6; 128] [0; 65] = Ok s /\ nbits s = 8 /\ get s 1 = true) /\
  exists s b, zbitnot [6; 128] 9 (replicate 10 1) = Ok (s ++ b :: replicate 7 1) /\ nbits s = 2 /\ get s 1 = false /\ get s 2 = true.
Proof.
  assert (C : forall s, bitstr_ok s -> forallb (fun i => negb (bit s i))
      (seqZ (nbits s + 1) ((zlen s - 1) * 8 - nbits s)) = true -> clean s).
  { intros s Hs H. apply clean_intro; [done|]. intros i Hi. rewrite forallb_forall in H.
    apply negb_true_iff, (H i), list_elem_of_In, elem_of_seqZ. lia. }
  assert (C1 : clean [6; 128]) by (apply C; [by_compute|reflexivity]).
  assert (C2 : clean [0; 65]) by (apply C; [by_compute|reflexivity]).
  split; [exact C1|]. split; [exact C2|].
  destruct (zbit_boolean [6; 128] [0; 65] 9 (replicate 10 1) C1 C2) as (_ & (s & E & En & H) & _ & s' & b & E' & _ & En' & H');
    [by_compute|]. split.
  - exists s. split; [exact E|]. split; [exact En|]. apply (H 1). rewrite En. by_compute.
  - exists s', b. split; [exact E'|]. split; [exact En'|]. split; [apply (H' 1)|apply (H' 2)]; rewrite En'; by_compute.
Defined.

(** The bit strings a program builds without $ZBITNOT. *)
Inductive built : list Z -> Prop :=
| built_str size t s : zbitstr size t = Ok s -> built s
| built_set s pos t s' : built s -> zbitset s pos t = Ok s' -> built s'
| built_and s1 s2 s : built s1 -> built s2 -> zbitand s1 s2 = Ok s -> built s
| built_or s1 s2 s : built s1 -> built s2 -> zbitor s1 s2 = Ok s -> built s
| built_xor s1 s2 s : built s1 -> built s2 -> zbitxor s1 s2 = Ok s -> built s.

(** C38: every bit string that $ZBITSTR makes and the functions but $ZBITNOT
    derive is well formed and has no bit set past its last, so that the
    operations on two of them act on their bits alone. *)
Theorem built_clean s : built s -> clean s.
Proof.
  induction 1 as [size t s E|s pos t s' _ IH E|s1 s2 s _ IH1 _ IH2 E|s1 s2 s _ IH1 _ IH2 E|s1 s2 s _ IH1 _ IH2 E].
  - by eapply zbitstr_clean.
  - by eapply zbitset_clean.
  - exact (zbitand_clean s1 s2 s IH1 IH2 E).
  - exact (zbitor_clean s1 s2 s IH1 IH2 E).
  - exact (zbitxor_clean s1 s2 s (proj1 IH1) (proj1 IH2) E).
Qed.

Lemma built_clean_witness : built [6; 128] /\ clean [6; 128].
Proof.
  assert (B : built [6; 128]).
  { apply (built_set [6; 192] 2 false); [|reflexivity]. by apply (built_str 2 true). }
  split; [exact B|]. exact (built_clean [6; 128] B).
Defined.

(** $ZBITNOT leaves the bits past the last inverted, and an or with a
    longer string takes them for bits: not of one set bit, or eight clear
    bits, has bits 2 to 8 set. *)
Example ex_zbitnot_or :
  (s1 ← zbitstr 1 true; free ← zbitnot s1 0 (replicate 10 0); let n1 := take (length s1) free in
   len ← zbitlen n1; s2 ← zbitstr 8 false; s ← zbitor n1 s2; Ok (len, map (bit s) (seqZ 1 8))) =
  Ok (1, [false; true; true; true; true; true; true; true]).
Proof. vm_compute. reflexivity. Qed.
