(* ===== verification/Probe.v ===== *)
(** Double hashing (hashtab_implementation.h, mtables.c): the table of sizes,
    the order in which a search visits the slots of a hash table, and the loop
    of the three searches over what a search does at one slot.  The sizes are
    primes, so a search visits every slot once and then returns to the first. *)

From stdpp Require Import base list numbers option tactics.
From Stdlib Require Import ZArith Lia.
From S2P Require Import Prelude.

Open Scope Z_scope.

(** * Sizes *)

Definition default_ht_sizes : list Z :=
  [13; 37; 53; 97; 193; 389; 769; 1543; 3079; 6151; 12289; 24593; 49157;
   62501; 102503; 154981; 218459; 290047; 366077; 442861; 517151;
   603907; 705247; 823541; 961729; 1123079; 1311473; 1531499; 1788443;
   2088497; 2438881; 2848057; 3325901; 3883903; 4535483; 5296409; 6185021;
   7222661; 8434427; 9849503; 11502019; 13431661; 15685133; 18316643; 21389671;
   24978257; 29168903; 34062629; 39777391; 46450931; 54244103; 0].

Definition extended_ht_sizes : list Z :=
  [13; 37; 53; 97; 193; 389; 769; 1543; 3079; 6151; 12289; 24593; 49157;
   62501; 102503; 154981; 218459; 290047; 366077; 442861; 517151;
   603907; 705247; 823541; 961729; 1123079; 1311473; 1531499; 1788443;
   2088497; 2438881; 2848057; 3325901; 3883903; 4535483; 5296409; 6185021;
   7222661; 8434427; 9849503; 11502019; 13431661; 15685133; 18316643; 21389671;
   24978257; 29168903; 34062629; 39777391; 46450931; 54244103;
   100663319; 201326611; 402653189; 805306457; 1610612741; 0].

(** [for (...; size && size < minsize; ...)]: the first size from [minsize]
    on, or the 0 that ends the table. *)
Fixpoint size_from (sizes : list Z) (minsize : Z) : Z :=
  match sizes with
  | [] => 0
  | size :: sizes' => if negb (size =? 0) && (size <? minsize) then size_from sizes' minsize else size
  end.

(** The loop from the second size: [prior] is the size before [cur], and the
    loop moves while [cur] is smaller than [size]. *)
Fixpoint prior_size (prior : Z) (sizes : list Z) (size : Z) : Z :=
  match sizes with
  | [] => prior
  | cur :: sizes' => if negb (cur =? 0) && (cur <? size) then prior_size cur sizes' size else prior
  end.

(** * The order of a search *)

Definition SET_REHASH_FACTOR (hash prime : Z) : Z := 1 + hash mod (prime - 1).

Definition SET_REHASH_INDEX (ht_index rhfact prime : Z) : Z :=
  let ht_index := ht_index + rhfact in
  if prime <=? ht_index then ht_index - prime else ht_index.

(** The loop [do ... while (ht_index != save_ht_index)] over the slots after
    the first, [visit] what it does at one slot: it ends the search with an
    answer or goes on with a new state. *)
Section Search.
Context {St R : Type} (visit : St -> Z -> res (St * option R)).

Fixpoint probe_loop (fuel : nat) (prime rhfact save_ht_index : Z) (st : St) (ht_index : Z) : res (St * option R) :=
  match fuel with
  | O => Err OUT_OF_FUEL
  | S fuel' =>
      '(st, r) ← visit st ht_index;
      match r with
      | Some _ => Ok (st, r)
      | None =>
          let ht_index := SET_REHASH_INDEX ht_index rhfact prime in
          if ht_index =? save_ht_index then Ok (st, None)
          else probe_loop fuel' prime rhfact save_ht_index st ht_index
      end
  end.

(** A whole search. *)
Definition probe (prime hash : Z) (st : St) : res (St * option R) :=
  let ht_index := hash mod prime in
  '(st, r) ← visit st ht_index;
  match r with
  | Some _ => Ok (st, r)
  | None =>
      let rhfact := SET_REHASH_FACTOR hash prime in
      probe_loop (Z.to_nat prime) prime rhfact ht_index st (SET_REHASH_INDEX ht_index rhfact prime)
  end.

(** The reference: the visits of a list of slots. *)
Fixpoint visit_all (slots : list Z) (st : St) : res (St * option R) :=
  match slots with
  | [] => Ok (st, None)
  | i :: slots' =>
      '(st, r) ← visit st i;
      match r with Some _ => Ok (st, r) | None => visit_all slots' st end
  end.

Lemma visit_all_skip l k st :
  (forall i, i ∈ l -> visit st i = Ok (st, None)) -> visit_all (l ++ k) st = visit_all k st.
Proof.
  induction l as [|i l IH]; intros H; [done|]. cbn [app visit_all]. rewrite (H i) by left. cbn [mbind res_bind].
  apply IH. intros j Hj. apply H. by right.
Qed.
End Search.

(** The slot that a search visits after [j] others. *)
Definition slot (prime hash j : Z) : Z := (hash mod prime + j * SET_REHASH_FACTOR hash prime) mod prime.

Definition slots (prime hash : Z) : list Z := slot prime hash <$> seqZ 0 prime.

(** None of [d], [d + 2], ... ([n] numbers) divides [p]. *)
Fixpoint no_divisor (n : nat) (d p : Z) : bool :=
  match n with
  | O => true
  | S n' => negb (p mod d =? 0) && no_divisor n' (d + 2) p
  end.

(** For odd numbers. *)
Definition is_prime (p : Z) : bool :=
  (1 <? p) && negb (p mod 2 =? 0) && no_divisor (Z.to_nat (Z.sqrt p / 2)) 3 p.

Lemma no_divisor_spec n d p k : no_divisor n d p = true -> 0 <= k < Z.of_nat n -> p mod (d + 2 * k) <> 0.
Proof.
  revert d k. induction n as [|n IH]; intros d k; [lia|]. cbn [no_divisor]. intros H Hk. zbool.
  destruct (Z.eq_dec k 0) as [->|]; [by rewrite Z.mul_0_r, Z.add_0_r|].
  replace (d + 2 * k) with (d + 2 + 2 * (k - 1)) by lia. apply IH; [done|lia].
Qed.

Lemma is_prime_correct p : is_prime p = true -> Z.prime p.
Proof.
  unfold is_prime. intros H. zbool. split; [done|]. intros n Hn [q Hq].
  (* The smaller of the two factors is odd and at most the square root. *)
  assert (Hsmall : forall d e, 1 < d -> 1 < e -> p = d * e -> d <= e -> False).
  { intros d e Hd He Hp Hde. assert (Hs : d <= Z.sqrt p) by (apply Z.sqrt_le_square; nia).
    pose proof (Z.div_mod d 2 ltac:(lia)) as Ed. pose proof (Z.mod_pos_bound d 2 ltac:(lia)).
    assert (Hodd : d mod 2 = 1).
    { destruct (Z.eq_dec (d mod 2) 0) as [E|]; [|lia]. exfalso. cut (p mod 2 = 0); [done|].
      rewrite Hp. replace (d * e) with ((d / 2 * e) * 2) by nia. apply Z.mod_mul. lia. }
    pose proof (Z.div_mod (Z.sqrt p) 2 ltac:(lia)). pose proof (Z.mod_pos_bound (Z.sqrt p) 2 ltac:(lia)).
    apply (no_divisor_spec _ 3 p ((d - 3) / 2)) in H0; cycle 1.
    { Z.to_euclidean_division_equations. lia. }
    replace (3 + 2 * ((d - 3) / 2)) with d in H0 by (Z.to_euclidean_division_equations; lia).
    rewrite Hp, Z.mul_comm, Z.mod_mul in H0 by lia. done. }
  assert (1 < q) by nia. destruct (Z.le_ge_cases n q).
  - apply (Hsmall n q); lia.
  - apply (Hsmall q n); lia.
Qed.

Lemma sizes_prime n : In n extended_ht_sizes -> n <> 0 -> Z.prime n.
Proof.
  intros Hn H0. apply is_prime_correct.
  assert (H : forallb (fun p => (p =? 0) || is_prime p) extended_ht_sizes = true) by (vm_compute; reflexivity).
  rewrite forallb_forall in H. specialize (H n Hn). apply orb_true_iff in H as [H|H]; [|done]. zbool. done.
Qed.

(** * Searches visit every slot once *)

Section Slots.
Context (p hash : Z) (Hp : Z.prime p).

Lemma prime_pos : 1 < p.
Proof. by destruct Hp. Qed.

Lemma slot_range j : 0 <= slot p hash j < p.
Proof. apply Z.mod_pos_bound. pose proof prime_pos. lia. Qed.

Lemma slot_0 : slot p hash 0 = hash mod p.
Proof. unfold slot. rewrite Z.mul_0_l, Z.add_0_r. apply Z.mod_mod. pose proof prime_pos. lia. Qed.

Lemma slot_p : slot p hash p = hash mod p.
Proof.
  unfold slot. pose proof prime_pos. rewrite Z.mul_comm, Z.mod_add, Z.mod_mod by lia. done.
Qed.

Lemma factor_range : 1 <= SET_REHASH_FACTOR hash p < p.
Proof.
  unfold SET_REHASH_FACTOR. pose proof prime_pos. pose proof (Z.mod_pos_bound hash (p - 1) ltac:(lia)). lia.
Qed.

Lemma slot_next j : SET_REHASH_INDEX (slot p hash j) (SET_REHASH_FACTOR hash p) p = slot p hash (j + 1).
Proof.
  unfold SET_REHASH_INDEX. pose proof prime_pos. pose proof factor_range as Hr. pose proof (slot_range j) as Hs.
  assert (E : slot p hash (j + 1) = (slot p hash j + SET_REHASH_FACTOR hash p) mod p).
  { unfold slot. rewrite (Z.add_mod_idemp_l (hash mod p + _)) by lia. f_equal. lia. }
  rewrite E. set (r := SET_REHASH_FACTOR hash p) in *. destruct (Z.leb_spec p (slot p hash j + r)).
  - replace (slot p hash j + r) with (slot p hash j + r - p + 1 * p) at 2 by lia.
    rewrite Z.mod_add, Z.mod_small by lia. done.
  - by rewrite Z.mod_small by lia.
Qed.

Lemma factor_coprime : Z.coprime p (SET_REHASH_FACTOR hash p).
Proof. apply Z.coprime_prime_small, factor_range. exact Hp. Qed.

Lemma slot_inj j k : 0 <= j < p -> 0 <= k < p -> slot p hash j = slot p hash k -> j = k.
Proof.
  intros Hj Hk E. unfold slot in E. set (r := SET_REHASH_FACTOR hash p) in *.
  assert (Hd : (p | (j - k) * r)).
  { apply Z.mod_divide; [lia|]. apply Z.cong_iff_0 in E.
    replace ((j - k) * r) with (hash mod p + j * r - (hash mod p + k * r)) by lia. done. }
  rewrite Z.mul_comm in Hd. apply Z.gauss in Hd; [|apply factor_coprime].
  destruct Hd as [q Hq]. assert (q = 0) by nia. lia.
Qed.

Lemma slot_onto i : 0 <= i < p -> exists j, 0 <= j < p /\ slot p hash j = i.
Proof.
  intros Hi. destruct (Z.Bezout_coprime _ _ factor_coprime) as (u & v & Huv).
  set (r := SET_REHASH_FACTOR hash p) in *. pose proof prime_pos.
  exists ((v * (i - hash mod p)) mod p). split; [apply Z.mod_pos_bound; lia|].
  unfold slot. fold r. set (h := hash mod p). set (w := v * (i - h)).
  pose proof (Z.div_mod w p ltac:(lia)) as Ew.
  replace (h + w mod p * r) with (i + (- u * (i - h) - w / p * r) * p).
  - rewrite Z.mod_add, Z.mod_small by lia. done.
  - replace (w mod p) with (w - p * (w / p)) by lia.
    replace ((w - p * (w / p)) * r) with ((i - h) * (v * r) - p * (w / p) * r) by (unfold w; ring).
    replace (v * r) with (1 - u * p) by lia. ring.
Qed.

Lemma slots_length : length (slots p hash) = Z.to_nat p.
Proof. unfold slots. by rewrite length_fmap, length_seqZ. Qed.

Lemma slots_lookup j i : slots p hash !! j = Some i <-> (Z.of_nat j < p /\ i = slot p hash (Z.of_nat j)).
Proof.
  unfold slots. rewrite list_lookup_fmap. destruct (seqZ 0 p !! j) as [k|] eqn:E; simpl.
  - apply lookup_seqZ in E as [-> ?]. rewrite Z.add_0_l. split; [intros [= <-]; split; [lia|done]|intros [_ ->]; done].
  - split; [done|]. intros [Hj _]. apply lookup_ge_None in E. rewrite length_seqZ in E. lia.
Qed.

Lemma slots_NoDup : NoDup (slots p hash).
Proof.
  apply NoDup_alt. intros j k i Hj Hk. apply slots_lookup in Hj as [Hj ->]. apply slots_lookup in Hk as [Hk E].
  apply slot_inj in E; lia.
Qed.

Lemma slots_elem i : i ∈ slots p hash <-> 0 <= i < p.
Proof.
  rewrite list_elem_of_lookup. split.
  - intros [j Hj]. apply slots_lookup in Hj as [Hj ->]. apply slot_range.
  - intros Hi. destruct (slot_onto i Hi) as (j & Hj & <-). exists (Z.to_nat j).
    apply slots_lookup. rewrite Z2Nat.id by lia. split; [lia|done].
Qed.

Section Visit.
Context {St R : Type} (visit : St -> Z -> res (St * option R)).

Lemma probe_loop_visits n j fuel st :
  1 <= j -> j + Z.of_nat n = p -> (n <= fuel)%nat -> (0 < n)%nat ->
  probe_loop visit fuel p (SET_REHASH_FACTOR hash p) (hash mod p) st (slot p hash j) =
  visit_all visit (slot p hash <$> seqZ j (Z.of_nat n)) st.
Proof.
  revert j fuel st. induction n as [|n IH]; intros j fuel st Hj Hn Hf H0; [lia|].
  destruct fuel as [|fuel]; [lia|]. cbn [probe_loop]. rewrite (seqZ_cons j) by lia. cbn [fmap list_fmap visit_all].
  destruct (visit st (slot p hash j)) as [[st1 [r|]]|]; [done| |done]. cbn [mbind res_bind].
  rewrite slot_next. destruct (Z.eqb_spec (slot p hash (j + 1)) (hash mod p)) as [E|E].
  - (* Back at the first slot: all have been visited. *)
    assert (n = 0%nat) as ->.
    { destruct n as [|n]; [done|]. rewrite <- slot_0 in E. apply slot_inj in E; lia. }
    by replace (Z.pred (Z.of_nat 1)) with 0 by lia.
  - replace (Z.pred (Z.of_nat (S n))) with (Z.of_nat n) by lia. replace (Z.succ j) with (j + 1) by lia.
    apply IH; [lia|lia|lia|]. destruct n as [|n]; [|lia]. replace (j + 1) with p in E by lia. by rewrite slot_p in E.
Qed.

Lemma probe_visits st : probe visit p hash st = visit_all visit (slots p hash) st.
Proof.
  unfold probe, slots. pose proof prime_pos. rewrite (seqZ_cons 0) by lia. cbn [fmap list_fmap visit_all].
  rewrite slot_0. destruct (visit st (hash mod p)) as [[st1 [r|]]|]; [done| |done]. cbn [mbind res_bind].
  rewrite <- slot_0 at 2. rewrite slot_next.
  rewrite (probe_loop_visits (Z.to_nat (p - 1)) (0 + 1)) by lia.
  by replace (Z.of_nat (Z.to_nat (p - 1))) with (Z.pred p) by lia.
Qed.
End Visit.
End Slots.

(** C27: a search of a hash table of one of the sizes of mtables.c, whatever it
    does at a slot, ends: it visits the slots of a permutation of the table,
    each at most once, and then it is back at the first. *)
Theorem probe_terminates {St R} (visit : St -> Z -> res (St * option R)) size hash st :
  In size extended_ht_sizes -> size <> 0 ->
  probe visit size hash st = visit_all visit (slots size hash) st /\
  slots size hash ≡ₚ seqZ 0 size.
Proof.
  intros Hs H0. pose proof (sizes_prime size Hs H0) as Hp. split; [by apply probe_visits|].
  apply NoDup_Permutation; [by apply slots_NoDup|apply NoDup_seqZ|].
  intros i. rewrite slots_elem, elem_of_seqZ by done. lia.
Qed.

Lemma probe_terminates_witness :
  In 13 extended_ht_sizes /\ 13 <> 0 /\
  probe (fun (n : Z) (i : Z) => Ok (n + 1, @None unit)) 13 7 0 = Ok (13, None).
Proof.
  split; [by left|]. split; [done|].
  rewrite (proj1 (probe_terminates (fun (n : Z) (i : Z) => Ok (n + 1, @None unit)) 13 7 0 ltac:(by left) ltac:(done))).
  vm_compute. reflexivity.
Defined.
