(* ===== verification/Hashtab.v ===== *)
(** Hash tables (hashtab_implementation.h, hashtab.h): the C file is expanded
    once per type of key; here the operations are defined once over the class
    [hash_key], with an instance per expansion.  A table is an array of slots,
    each empty, valid or deleted, and a bit per slot that tells whether an
    insertion ever passed through it, so that a deletion may empty the others.

    [alloc] tells whether the allocation of an operation succeeds. *)

From stdpp Require Import base list numbers option tactics gmap.
From Stdlib Require Import ZArith Lia.
From S2P Require Import Prelude Bitmap Probe.

Open Scope Z_scope.

(** * Keys *)

Record ent (K : Type) := mk_ent { e_key : K; e_value : Z }.
Arguments mk_ent {K}.
Arguments e_key {K}.
Arguments e_value {K}.

(** The macros that every expansion defines, and the slot of cleared memory. *)
Class hash_key (K : Type) := {
  HTENT_KEY_MATCH : ent K -> K -> bool;
  FIND_HASH : K -> Z;
  HTENT_EMPTY : ent K -> bool;
  HTENT_MARK_EMPTY : ent K -> ent K;
  zero_ent : ent K
}.

Definition HT_DELETED_ENTRY : Z := -1.
Definition HTENT_MARK_DELETED {K} (tabent : ent K) : bool := HT_DELETED_ENTRY =? e_value tabent.
Definition HTENT_VALID `{hash_key K} (tabent : ent K) : bool :=
  negb (HTENT_EMPTY tabent) && negb (HT_DELETED_ENTRY =? e_value tabent).

(** * Tables *)

(** [ht_spare] tells whether there is a spare base; its size is [ht_spare_size]. *)
Record table (K : Type) := mk_table {
  ht_base : list (ent K);
  ht_passed : list Z;
  ht_size : Z;
  ht_initial_size : Z;
  ht_spare : bool;
  ht_spare_size : Z;
  ht_count : Z;
  ht_del_count : Z;
  ht_exp_trigger : Z;
  ht_cmp_trigger : Z;
  ht_dont_compact : bool;
  ht_dont_keep_spare : bool;
  ht_defer_release : bool;
  ht_active : bool
}.
Arguments mk_table {K}.
Arguments ht_base {K}.
Arguments ht_passed {K}.
Arguments ht_size {K}.
Arguments ht_initial_size {K}.
Arguments ht_spare {K}.
Arguments ht_spare_size {K}.
Arguments ht_count {K}.
Arguments ht_del_count {K}.
Arguments ht_exp_trigger {K}.
Arguments ht_cmp_trigger {K}.
Arguments ht_dont_compact {K}.
Arguments ht_dont_keep_spare {K}.
Arguments ht_defer_release {K}.
Arguments ht_active {K}.

Definition set_base {K} (t : table K) (base : list (ent K)) (passed : list Z) (count del_count : Z) : table K :=
  mk_table base passed (ht_size t) (ht_initial_size t) (ht_spare t) (ht_spare_size t) count del_count
    (ht_exp_trigger t) (ht_cmp_trigger t) (ht_dont_compact t) (ht_dont_keep_spare t) (ht_defer_release t)
    (ht_active t).

Definition set_triggers {K} (t : table K) (exp_trigger cmp_trigger : Z) : table K :=
  mk_table (ht_base t) (ht_passed t) (ht_size t) (ht_initial_size t) (ht_spare t) (ht_spare_size t) (ht_count t)
    (ht_del_count t) exp_trigger cmp_trigger (ht_dont_compact t) (ht_dont_keep_spare t) (ht_defer_release t)
    (ht_active t).

Definition set_spare {K} (t : table K) (spare : bool) (spare_size : Z) : table K :=
  mk_table (ht_base t) (ht_passed t) (ht_size t) (ht_initial_size t) spare spare_size (ht_count t)
    (ht_del_count t) (ht_exp_trigger t) (ht_cmp_trigger t) (ht_dont_compact t) (ht_dont_keep_spare t)
    (ht_defer_release t) (ht_active t).

(** [table->base[ht_index]]. *)
Definition entry {K} (t : table K) (i : Z) : option (ent K) :=
  if i <? 0 then None else ht_base t !! Z.to_nat i.

Definition HT_LOAD_FACTOR : Z := 50.
Definition HT_REHASH_FACTOR : Z := Z.quot HT_LOAD_FACTOR 2.

Definition ROUND_UP (value modulus : Z) : Z := (value + (modulus - 1)) / modulus * modulus.

Section Operations.
Context {K : Type} `{hash_key K}.

(** * Adding *)

Definition INSERT_HTENT (t : table K) (tabent : Z) (key : K) (value : Z) : res (table K) :=
  e ← res_of (entry t tabent);
  let del_count := if HT_DELETED_ENTRY =? e_value e then ht_del_count t - 1 else ht_del_count t in
  Ok (set_base t (<[Z.to_nat tabent := mk_ent key value]> (ht_base t)) (ht_passed t) (ht_count t + 1) del_count).

(** The state of the search is the table and [first_del_ent]; its answer the
    slot in [*tabentptr] and the value returned. *)
Definition RETURN_IF_ADDED (key : K) (value : Z) (st : table K * option Z) (tabent : Z) :
    res ((table K * option Z) * option (Z * bool)) :=
  let '(t, first_del_ent) := st in
  e ← res_of (entry t tabent);
  if HTENT_EMPTY e then
    let tabent := default tabent first_del_ent in
    t ← INSERT_HTENT t tabent key value;
    Ok ((t, first_del_ent), Some (tabent, true))
  else if negb (HTENT_MARK_DELETED e) then
    if HTENT_KEY_MATCH e key then Ok (st, Some (tabent, false)) else Ok (st, None)
  else
    match first_del_ent with
    | None => Ok ((t, Some tabent), None)
    | Some _ => Ok (st, None)
    end.

Definition mark_passed (t : table K) (ht_index : Z) : res (table K) :=
  '(_, passed) ← res_of (bit_set ht_index (ht_passed t));
  Ok (set_base t (ht_base t) passed (ht_count t) (ht_del_count t)).

Definition add_visit (key : K) (value : Z) (st : table K * option Z) (ht_index : Z) :
    res ((table K * option Z) * option (Z * bool)) :=
  '(st, r) ← RETURN_IF_ADDED key value st ht_index;
  match r with
  | Some _ => Ok (st, r)
  | None => let '(t, first_del_ent) := st in t ← mark_passed t ht_index; Ok ((t, first_del_ent), None)
  end.

(** The part of [ADD_HASHTAB_INTL] after the test for expansion, all of it
    when [changing_table_size]. *)
Definition add_search (t : table K) (key : K) (value : Z) : res (table K * Z * bool) :=
  '((t, first_del_ent), r) ← probe (add_visit key value) (ht_size t) (FIND_HASH key) (t, None);
  match r with
  | Some (tabent, added) => Ok (t, tabent, added)
  | None =>
      match first_del_ent with
      | Some tabent => t ← INSERT_HTENT t tabent key value; Ok (t, tabent, true)
      | None => Err GTMASSERT
      end
  end.

(** * Creation and change of size *)

Section Sizes.
Context (ht_sizes : list Z).

Definition HT_FIELDS_COMMON_INIT (t : table K) : table K :=
  let t := set_triggers t (Z.quot (ht_size t * HT_LOAD_FACTOR) 100) (Z.quot (ht_size t * HT_REHASH_FACTOR) 100) in
  mk_table (ht_base t) (ht_passed t) (ht_size t) (ht_initial_size t) (ht_spare t) (ht_spare_size t) 0 0
    (ht_exp_trigger t) (ht_cmp_trigger t) (ht_dont_compact t) (ht_dont_keep_spare t) (ht_defer_release t) true.

Definition uint (z : Z) : Z := z mod 4294967296.

(** The size of the table to create. *)
Definition new_size (minsize : Z) (old_table : option (table K)) : Z :=
  match old_table with
  | Some old =>
      if ht_size old / 2 <? uint minsize then size_from ht_sizes (uint minsize)
      else
        let cur_ht_size := prior_size (hd 0 ht_sizes) (tl ht_sizes) (ht_size old) in
        if ht_initial_size old <? cur_ht_size then cur_ht_size else ht_initial_size old
  | None => size_from ht_sizes (uint minsize)
  end.

(** The cleared table of [cur_ht_size] slots. *)
Definition clear_table (cur_ht_size initial_size : Z) (dont_compact dont_keep_spare defer_release : bool) : table K :=
  HT_FIELDS_COMMON_INIT
    (mk_table (replicate (Z.to_nat cur_ht_size) zero_ent) (replicate (Z.to_nat (ROUND_UP cur_ht_size 8)) 0)
       cur_ht_size initial_size false 0 0 0 0 0 dont_compact dont_keep_spare defer_release false).

(** The spare base of the old table goes to the new one when it has the size
    wanted, else it is freed: the old table, and whether its base is taken. *)
Definition take_spare (old : table K) (cur_ht_size : Z) : table K * bool :=
  if ht_dont_keep_spare old then (old, false)
  else if ht_spare_size old =? cur_ht_size then (set_spare old false 0, ht_spare old)
  else if ht_spare old then (set_spare old false 0, false)
  else (old, false).

(** [INIT_HASHTAB_INTL] with an old table: the old table after it, and the new
    one or the error. *)
Definition INIT_HASHTAB_INTL (alloc : bool) (minsize : Z) (old : table K) : table K * res (table K) :=
  let cur_ht_size := new_size minsize (Some old) in
  if cur_ht_size =? 0 then (old, Err ERR_HTOFLOW)
  else
    let '(old, taken) := take_spare old cur_ht_size in
    if taken || alloc then
      (old, Ok (clear_table cur_ht_size (ht_initial_size old) (ht_dont_compact old) (ht_dont_keep_spare old)
                  (ht_defer_release old)))
    else (old, Err ERR_MEMORY).

(** [INIT_HASHTAB], and [INIT_HASHTAB_INTL] without an old table. *)
Definition INIT_HASHTAB (alloc : bool) (minsize : Z) (dont_compact dont_keep_spare : bool) : res (table K) :=
  let initial_size := size_from ht_sizes (uint minsize) in
  let initial_size := if initial_size =? 0 then uint minsize else initial_size in
  let cur_ht_size := new_size minsize None in
  if cur_ht_size =? 0 then Err ERR_HTOFLOW
  else if alloc then Ok (clear_table cur_ht_size initial_size dont_compact dont_keep_spare false)
  else Err ERR_MEMORY.

(** The loop that moves the valid entries: the new table, and for each slot of
    the old base its place in the new one, which the code leaves in its value. *)
Fixpoint move_entries (base : list (ent K)) (newtable : table K) : res (table K * list (option Z)) :=
  match base with
  | [] => Ok (newtable, [])
  | tabent :: base' =>
      if HTENT_VALID tabent then
        '(newtable, place, _) ← add_search newtable (e_key tabent) (e_value tabent);
        '(newtable, l) ← move_entries base' newtable;
        Ok (newtable, Some place :: l)
      else
        '(newtable, l) ← move_entries base' newtable;
        Ok (newtable, None :: l)
  end.

(** [hashtab_rehash_ch] returns to the caller with the old table when memory
    or sizes run out: the error is then in the third component. *)
Definition EXPAND_HASHTAB (alloc : bool) (t : table K) (minsize : Z) : res (table K * list (option Z) * option error) :=
  match INIT_HASHTAB_INTL alloc minsize t with
  | (t, Err err) => Ok (t, [], Some err)
  | (t, Ok newtable) =>
      '(newtable, places) ← (if 0 <? ht_count t then move_entries (ht_base t) newtable else Ok (newtable, []));
      let newtable := if ht_dont_keep_spare t then set_spare newtable false 0 else set_spare newtable true (ht_size t) in
      Ok (newtable, places, None)
  end.

(** [ADD_HASHTAB]. *)
Definition ADD_HASHTAB (alloc : bool) (t : table K) (key : K) (value : Z) : res (table K * Z * bool) :=
  t ← (if ht_exp_trigger t <=? ht_count t then
         '(t, _, err) ← EXPAND_HASHTAB alloc t (ht_size t + 1);
         match err with
         | Some err =>
             if ht_size t <=? ht_exp_trigger t then Err err
             else Ok (set_triggers t (ht_size t) (ht_cmp_trigger t))
         | None => Ok t
         end
       else Ok t);
  add_search t key value.

(** * Looking up *)

Definition RETURN_IF_LOOKUP_DONE (t : table K) (key : K) (_ : unit) (tabent : Z) : res (unit * option (option Z)) :=
  e ← res_of (entry t tabent);
  if HTENT_EMPTY e then Ok (tt, Some None)
  else if negb (HTENT_MARK_DELETED e) && HTENT_KEY_MATCH e key then Ok (tt, Some (Some tabent))
  else Ok (tt, None).

Definition LOOKUP_HASHTAB (t : table K) (key : K) : res (option Z) :=
  '(_, r) ← probe (RETURN_IF_LOOKUP_DONE t key) (ht_size t) (FIND_HASH key) tt;
  Ok (default None r).

(** * Deleting *)

Definition DELETE_HTENT (t : table K) (tabent : Z) : res (table K) :=
  e ← res_of (entry t tabent);
  b ← res_of (rd (ht_passed t) (tabent / BITS_PER_UCHAR));
  if negb (Z.land (Z.shiftl 1 (Z.land tabent 7)) b =? 0) then
    Ok (set_base t (<[Z.to_nat tabent := mk_ent (e_key e) HT_DELETED_ENTRY]> (ht_base t)) (ht_passed t)
          (ht_count t - 1) (ht_del_count t + 1))
  else
    Ok (set_base t (<[Z.to_nat tabent := HTENT_MARK_EMPTY e]> (ht_base t)) (ht_passed t)
          (ht_count t - 1) (ht_del_count t)).

Definition COMPACT_NEEDED (t : table K) : bool :=
  negb (ht_dont_compact t) &&
  ((ht_cmp_trigger t <? ht_del_count t) ||
   ((ht_initial_size t <? ht_size t) && (ht_count t <? ht_cmp_trigger t / 2))).

Definition HT_REHASH_TABLE_SIZE (t : table K) : Z := Z.min (ht_size t) (ht_count t * 4).

Definition COMPACT_HASHTAB (alloc : bool) (t : table K) : res (table K) :=
  if negb (ht_dont_compact t) then
    '(t, _, err) ← EXPAND_HASHTAB alloc t (HT_REHASH_TABLE_SIZE t);
    match err with
    | Some _ => Ok (set_triggers t (ht_exp_trigger t) (ht_size t))
    | None => Ok t
    end
  else Ok t.

Definition RETURN_IF_DELETED (alloc : bool) (key : K) (t : table K) (tabent : Z) : res (table K * option bool) :=
  e ← res_of (entry t tabent);
  if HTENT_EMPTY e then Ok (t, Some false)
  else if negb (HTENT_MARK_DELETED e) && HTENT_KEY_MATCH e key then
    t ← DELETE_HTENT t tabent;
    t ← (if COMPACT_NEEDED t then COMPACT_HASHTAB alloc t else Ok t);
    Ok (t, Some true)
  else Ok (t, None).

Definition DELETE_HASHTAB (alloc : bool) (t : table K) (key : K) : res (table K * bool) :=
  '(t, r) ← probe (RETURN_IF_DELETED alloc key) (ht_size t) (FIND_HASH key) t;
  Ok (t, default false r).

Definition DELETE_HASHTAB_ENT (t : table K) (tabent : Z) : res (table K) := DELETE_HTENT t tabent.

(** * Clearing *)

Definition REINITIALIZE_HASHTAB (t : table K) : table K :=
  let n := ht_size t / BITS_PER_UCHAR + 1 in
  HT_FIELDS_COMMON_INIT
    (set_base t (replicate (Z.to_nat (ht_size t)) zero_ent)
       (replicate (Z.to_nat n) 0 ++ drop (Z.to_nat n) (ht_passed t)) (ht_count t) (ht_del_count t)).

Definition FREE_HASHTAB (t : table K) : table K :=
  set_spare (set_base t [] [] (ht_count t) (ht_del_count t)) false 0.
End Sizes.

(** * Tables in a buffer

    A buffer holds the table without its pointers, then the bits, then the
    slots; what [copy_entry_to_buffer] appends is not part of the table. *)
Record ht_buffer := mk_ht_buffer { hb_table : table K; hb_passed : list Z; hb_base : list (ent K) }.

Definition set_active (t : table K) (base : list (ent K)) (passed : list Z) (spare active : bool) : table K :=
  mk_table base passed (ht_size t) (ht_initial_size t) spare (ht_spare_size t) (ht_count t) (ht_del_count t)
    (ht_exp_trigger t) (ht_cmp_trigger t) (ht_dont_compact t) (ht_dont_keep_spare t) (ht_defer_release t) active.

Definition COPY_HASHTAB_TO_BUFFER (t : table K) : ht_buffer :=
  mk_ht_buffer (set_active t [] [] false false)
    (take (Z.to_nat (ROUND_UP (ht_size t) BITS_PER_UCHAR)) (ht_passed t))
    (take (Z.to_nat (ht_size t)) (ht_base t)).

Definition ACTIVATE_HASHTAB_IN_BUFFER (buffer : ht_buffer) : table K :=
  let t := hb_table buffer in set_active t (hb_base buffer) (hb_passed buffer) (ht_spare t) true.
End Operations.

(** * The expansions *)

(** hashtab_int4.h: keys of type uint4. *)
Definition int4_key : hash_key Z := {|
  HTENT_KEY_MATCH tabent hkey := e_key tabent =? hkey;
  FIND_HASH hkey := hkey;
  HTENT_EMPTY tabent := e_value tabent =? 0;
  HTENT_MARK_EMPTY tabent := mk_ent (e_key tabent) 0;
  zero_ent := mk_ent 0 0
|}.

(** hashtab_int8.h: keys of type gtm_uint64_t. *)
Definition int8_key : hash_key Z := {|
  HTENT_KEY_MATCH tabent hkey := e_key tabent =? hkey;
  FIND_HASH hkey := Z.lxor (Z.land hkey 4294967295) (Z.shiftr hkey 31);
  HTENT_EMPTY tabent := e_value tabent =? 0;
  HTENT_MARK_EMPTY tabent := mk_ent (e_key tabent) 0;
  zero_ent := mk_ent 0 0
|}.

(** hashtab_addr.h, 64-bit addresses. *)
Definition addr_key : hash_key Z := {|
  HTENT_KEY_MATCH tabent hkey := e_key tabent =? hkey;
  FIND_HASH hkey := uint (Z.lxor (Z.land hkey 4294967295) (Z.shiftr hkey 31));
  HTENT_EMPTY tabent := e_value tabent =? 0;
  HTENT_MARK_EMPTY tabent := mk_ent (e_key tabent) 0;
  zero_ent := mk_ent 0 0
|}.

(** hashtab_mname.h: names, their hash computed by the caller. *)
Record mname_entry := mk_mname { var_name : list Z; mname_hash_code : Z; marked : bool }.

Definition mname_key : hash_key mname_entry := {|
  HTENT_KEY_MATCH tabent hkey :=
    (mname_hash_code (e_key tabent) =? mname_hash_code hkey) &&
    (zlen (var_name (e_key tabent)) =? zlen (var_name hkey)) &&
    bool_decide (var_name (e_key tabent) = var_name hkey);
  FIND_HASH hkey := mname_hash_code hkey;
  HTENT_EMPTY tabent := zlen (var_name (e_key tabent)) =? 0;
  HTENT_MARK_EMPTY tabent :=
    mk_ent (mk_mname [] (mname_hash_code (e_key tabent)) (marked (e_key tabent))) (e_value tabent);
  zero_ent := mk_ent (mk_mname [] 0 false) 0
|}.
#[export] Existing Instance mname_key.

(** hashtab_str.h: strings, their hash computed by the caller. *)
Record stringkey := mk_stringkey { sk_str : list Z; sk_hash_code : Z }.

Definition str_key : hash_key stringkey := {|
  HTENT_KEY_MATCH tabent hkey :=
    (sk_hash_code (e_key tabent) =? sk_hash_code hkey) &&
    (zlen (sk_str (e_key tabent)) =? zlen (sk_str hkey)) &&
    bool_decide (sk_str (e_key tabent) = sk_str hkey);
  FIND_HASH hkey := sk_hash_code hkey;
  HTENT_EMPTY tabent := (sk_hash_code (e_key tabent) =? 0) && (zlen (sk_str (e_key tabent)) =? 0);
  HTENT_MARK_EMPTY tabent := mk_ent (mk_stringkey [] 0) (e_value tabent);
  zero_ent := mk_ent (mk_stringkey [] 0) 0
|}.
#[export] Existing Instance str_key.

(** * What the table asks of its keys

    [key_id] is what a comparison of keys looks at, [key_ok] the pairs of key
    and value that the callers may add. *)
Class hash_laws (K : Type) `{hash_key K} (I : Type) `{Countable I} := {
  key_id : K -> I;
  key_ok : K -> Z -> Prop;
  law_match e k : HTENT_KEY_MATCH e k = bool_decide (key_id (e_key e) = key_id k);
  law_hash k1 k2 : key_id k1 = key_id k2 -> FIND_HASH k1 = FIND_HASH k2;
  law_valid k v : key_ok k v -> HTENT_EMPTY (mk_ent k v) = false /\ v <> HT_DELETED_ENTRY;
  law_deleted k v : key_ok k v -> HTENT_EMPTY (mk_ent k HT_DELETED_ENTRY) = false;
  law_mark e : HTENT_EMPTY (HTENT_MARK_EMPTY e) = true;
  law_mark_value e : e_value (HTENT_MARK_EMPTY e) = e_value e \/ e_value (HTENT_MARK_EMPTY e) = 0;
  law_zero : HTENT_EMPTY zero_ent = true /\ e_value zero_ent = 0
}.

Lemma eqb_bool_decide (a b : Z) : (a =? b) = bool_decide (a = b).
Proof. destruct (Z.eqb_spec a b), (bool_decide_reflect (a = b)); done. Qed.

(** Integer keys: the value is neither null nor the mark of a deleted slot. *)
Definition int_pair_ok (k v : Z) : Prop := v <> 0 /\ v <> HT_DELETED_ENTRY.

Ltac int_laws k :=
  refine (@Build_hash_laws Z k Z _ _ id int_pair_ok _ _ _ _ _ _ _); simpl;
  [ intros ? ?; apply eqb_bool_decide | intros ? ? E; by rewrite E
  | intros ? ? [? ?]; split; [by apply Z.eqb_neq|done] | done | done | by right | done ].

Definition int4_laws : @hash_laws Z int4_key Z _ _.
Proof. int_laws int4_key. Defined.
Definition int8_laws : @hash_laws Z int8_key Z _ _.
Proof. int_laws int8_key. Defined.
Definition addr_laws : @hash_laws Z addr_key Z _ _.
Proof. int_laws addr_key. Defined.

#[export] Instance mname_laws : hash_laws mname_entry (Z * list Z).
Proof.
  refine (@Build_hash_laws _ _ _ _ _ (fun k => (mname_hash_code k, var_name k))
            (fun k v => var_name k <> [] /\ v <> HT_DELETED_ENTRY) _ _ _ _ _ _ _); simpl.
  - intros e k. rewrite eqb_bool_decide. apply eq_true_iff_eq. rewrite !andb_true_iff, !bool_decide_eq_true, Z.eqb_eq.
    split; [intros [[-> _] ->]; done|intros [= -> ->]; done].
  - intros k1 k2 [= E _]. done.
  - intros k v [H1 H2]. split; [|done]. destruct (var_name k); [done|]. apply Z.eqb_neq. unfold zlen. simpl. lia.
  - intros k v [H1 H2]. destruct (var_name k); [done|]. apply Z.eqb_neq. unfold zlen. simpl. lia.
  - done.
  - by left.
  - done.
Defined.

#[export] Instance str_laws : hash_laws stringkey (Z * list Z).
Proof.
  assert (Hz : forall l : list Z, zlen l = 0 -> l = []) by (intros [|x l]; [done|]; unfold zlen; simpl; lia).
  refine (@Build_hash_laws _ _ _ _ _ (fun k => (sk_hash_code k, sk_str k))
            (fun k v => (sk_hash_code k <> 0 \/ sk_str k <> []) /\ v <> HT_DELETED_ENTRY) _ _ _ _ _ _ _); simpl.
  - intros e k. rewrite eqb_bool_decide. apply eq_true_iff_eq. rewrite !andb_true_iff, !bool_decide_eq_true, Z.eqb_eq.
    split; [intros [[-> _] ->]; done|intros [= -> ->]; done].
  - intros k1 k2 [= E _]. done.
  - intros k v [H1 H2]. split; [|done]. apply not_true_iff_false. intros E. zbool. apply Hz in H0. by destruct H1.
  - intros k v [H1 H2]. apply not_true_iff_false. intros E. zbool. apply Hz in H0. by destruct H1.
  - done.
  - by left.
  - done.
Defined.

(** * Counting slots *)

Definition cnt {A} (P : A -> bool) (l : list A) : Z := Z.of_nat (length (List.filter P l)).

Lemma cnt_cons {A} P (x : A) l : cnt P (x :: l) = Z.b2z (P x) + cnt P l.
Proof. unfold cnt. simpl. destruct (P x); simpl; lia. Qed.

Lemma cnt_insert {A} P (l : list A) i x y :
  l !! i = Some x -> cnt P (<[i := y]> l) = cnt P l - Z.b2z (P x) + Z.b2z (P y).
Proof.
  revert i. induction l as [|z l IH]; intros [|i] E; simpl in E; try done.
  - injection E as ->. simpl. rewrite !cnt_cons. lia.
  - simpl. rewrite !cnt_cons, (IH i E). lia.
Qed.

Lemma cnt_replicate {A} P n (x : A) : P x = false -> cnt P (replicate n x) = 0.
Proof. intros E. induction n as [|n IH]; [done|]. simpl replicate. rewrite cnt_cons, IH, E. done. Qed.

Lemma cnt_nonneg {A} P (l : list A) : 0 <= cnt P l.
Proof. unfold cnt. lia. Qed.

Lemma cnt_le {A} P (l : list A) : cnt P l <= zlen l.
Proof. induction l as [|x l IH]; [done|]. rewrite cnt_cons, zlen_cons. destruct (P x); simpl; lia. Qed.

Lemma cnt_disjoint {A} P Q (l : list A) : (forall x, P x = true -> Q x = false) -> cnt P l + cnt Q l <= zlen l.
Proof.
  intros H. induction l as [|x l IH]; [done|]. rewrite !cnt_cons, zlen_cons. specialize (H x).
  destruct (P x), (Q x); simpl; lia || by discriminate H.
Qed.

Lemma cnt_full {A} P (l : list A) : (forall i x, l !! i = Some x -> P x = true) -> cnt P l = zlen l.
Proof.
  induction l as [|x l IH]; intros H; [done|]. rewrite cnt_cons, zlen_cons, (H 0%nat x) by done.
  rewrite IH; [done|]. intros i y E. by apply (H (S i)).
Qed.

(** * Bits of the slots *)

Definition pbit (m : list Z) (i : Z) : bool := Z.testbit (default 0 (rd m (i / 8))) (i mod 8).

Lemma shift_bit_cases j (b : Z) : byte_ok b -> 0 <= j < 8 ->
  (negb (Z.land (Z.shiftl 1 j) b =? 0) = Z.testbit b j) /\
  byte_ok (Z.lor b (Z.shiftl 1 j)) /\
  forall k, 0 <= k < 8 -> Z.testbit (Z.lor b (Z.shiftl 1 j)) k = Z.testbit b k || (k =? j).
Proof.
  intros Hb Hj.
  assert (H : forallb (fun j => all_bytes (fun b => eqb (negb (Z.land (Z.shiftl 1 j) b =? 0)) (Z.testbit b j) &&
     bool_decide (byte_ok (Z.lor b (Z.shiftl 1 j))))) (seqZ 0 8) = true) by (vm_compute; reflexivity).
  rewrite forallb_forall in H. specialize (H j). cbv beta in H.
  assert (Hin : In j (seqZ 0 8)) by (apply list_elem_of_In, elem_of_seqZ; lia). apply H in Hin. clear H.
  apply (all_bytes_spec _ b) in Hin; [|done]. cbv beta in Hin. zbool.
  split; [by apply eqb_prop|]. split; [by eapply bool_decide_eq_true|].
  intros k Hk. rewrite Z.lor_spec, Z.shiftl_1_l, Z.pow2_bits_eqb by lia. by rewrite Z.eqb_sym.
Qed.

Lemma bit_set_passed i m :
  bytes_ok m -> 0 <= i -> i / 8 < zlen m ->
  exists r m', bit_set i m = Some (r, m') /\ bytes_ok m' /\ zlen m' = zlen m /\
    forall k, 0 <= k -> pbit m' k = pbit m k || (k =? i).
Proof.
  intros Hm Hi Hl. unfold bit_set. pose proof (Z.div_pos i 8 Hi ltac:(lia)).
  rewrite Z.quot_div_nonneg by lia. destruct (rd_byte m (i / 8) Hm) as (b & Eb & Hb); [lia|].
  rewrite Eb. cbn [mbind option_bind]. rewrite wr_in_range by lia. cbn [mbind option_bind].
  change 7 with (Z.ones 3). rewrite Z.land_ones by lia. change (2 ^ 3) with 8.
  destruct (shift_bit_cases (i mod 8) b Hb) as (_ & Hb' & Hk); [apply Z.mod_pos_bound; lia|].
  eexists _, _. split; [done|]. split; [by apply bytes_ok_insert|]. split; [apply zlen_insert|].
  intros k Hk0. unfold pbit. pose proof (Z.div_pos k 8 Hk0 ltac:(lia)). rewrite rd_insert by lia.
  pose proof (Z.mod_pos_bound k 8 ltac:(lia)). pose proof (Z.div_mod k 8 ltac:(lia)). pose proof (Z.div_mod i 8 ltac:(lia)).
  destruct (Z.eqb_spec (i / 8) (k / 8)) as [E|E].
  - simpl default. rewrite Hk by done. rewrite <- E, Eb. simpl. f_equal.
    destruct (Z.eqb_spec (k mod 8) (i mod 8)), (Z.eqb_spec k i); subst; congruence || lia.
  - replace (k =? i) with false; [by rewrite orb_false_r|]. symmetry. apply Z.eqb_neq. congruence.
Qed.

(** * Slots *)

Lemma entry_range {K} (t : table K) i e : entry t i = Some e -> 0 <= i < zlen (ht_base t).
Proof. unfold entry, zlen. zcase; [done|]. intros E%lookup_lt_Some. lia. Qed.

Lemma entry_in_range {K} (t : table K) i : 0 <= i < zlen (ht_base t) -> exists e, entry t i = Some e.
Proof. unfold entry, zlen. intros Hi. zif_false. apply lookup_lt_is_Some_2. lia. Qed.

Lemma entry_set {K} (t : table K) i e p c d j :
  0 <= i < zlen (ht_base t) -> 0 <= j ->
  entry (set_base t (<[Z.to_nat i := e]> (ht_base t)) p c d) j = if i =? j then Some e else entry t j.
Proof.
  unfold entry, zlen. simpl. intros Hi Hj. replace (j <? 0) with false by (symmetry; zbool_goal).
  destruct (Z.eqb_spec i j) as [->|Hne].
  - apply list_lookup_insert_eq. lia.
  - apply list_lookup_insert_ne. lia.
Qed.

Lemma entry_lookup {K} (t : table K) i e : entry t i = Some e -> ht_base t !! Z.to_nat i = Some e /\ 0 <= i.
Proof. unfold entry. zcase; [done|]. done. Qed.

Section Laws.
Context {K I : Type} `{HL : hash_laws K I}.

Definition slot_ok (e : ent K) : Prop :=
  (HTENT_EMPTY e = true /\ HTENT_MARK_DELETED e = false) \/
  (HTENT_EMPTY e = false /\ HTENT_MARK_DELETED e = true) \/
  key_ok (e_key e) (e_value e).

Lemma key_ok_valid e : key_ok (e_key e) (e_value e) -> HTENT_EMPTY e = false /\ HTENT_MARK_DELETED e = false.
Proof.
  destruct e as [k v]. simpl. intros Hk. destruct (law_valid k v Hk) as [He Hd]. split; [done|].
  unfold HTENT_MARK_DELETED. cbn [e_value]. apply Z.eqb_neq. congruence.
Qed.

Lemma valid_eq (e : ent K) : HTENT_VALID e = negb (HTENT_EMPTY e) && negb (HTENT_MARK_DELETED e).
Proof. done. Qed.

Lemma valid_ok e : slot_ok e -> HTENT_VALID e = true -> key_ok (e_key e) (e_value e).
Proof. rewrite valid_eq. intros [[E _]|[[_ E]|Hk]]; [by rewrite E|rewrite E, andb_false_r; done|done]. Qed.

Lemma ok_valid (e : ent K) : key_ok (e_key e) (e_value e) -> HTENT_VALID e = true.
Proof. intros Hk. rewrite valid_eq. destruct (key_ok_valid e Hk) as [-> ->]. done. Qed.

Lemma slot_ok_zero : slot_ok zero_ent.
Proof. left. destruct law_zero as [-> E]. split; [done|]. unfold HTENT_MARK_DELETED. by rewrite E. Qed.

Lemma slot_ok_mark e : slot_ok e -> HTENT_VALID e = true -> slot_ok (HTENT_MARK_EMPTY e).
Proof.
  intros Hs Hv. left. split; [apply law_mark|]. apply valid_ok in Hs as Hk; [|done].
  destruct (key_ok_valid e Hk) as [_ Hd]. unfold HTENT_MARK_DELETED in *.
  destruct (law_mark_value e) as [-> | ->]; done.
Qed.

(** The slots that a search passes on its way to a valid slot are not empty and
    are marked as passed through. *)
Definition path_ok (t : table K) (h i : Z) : Prop :=
  forall j, 0 <= j < ht_size t -> slot (ht_size t) h j = i -> forall m, 0 <= m < j ->
  pbit (ht_passed t) (slot (ht_size t) h m) = true /\
  exists e, entry t (slot (ht_size t) h m) = Some e /\ HTENT_EMPTY e = false.

Record ht_core (t : table K) : Prop := {
  core_prime : Z.prime (ht_size t);
  core_base : zlen (ht_base t) = ht_size t;
  core_passed : bytes_ok (ht_passed t) /\ zlen (ht_passed t) = ROUND_UP (ht_size t) 8;
  core_slots i e : entry t i = Some e -> slot_ok e;
  core_count : ht_count t = cnt HTENT_VALID (ht_base t);
  core_del : ht_del_count t = cnt HTENT_MARK_DELETED (ht_base t);
  core_path i e : entry t i = Some e -> HTENT_VALID e = true -> path_ok t (FIND_HASH (e_key e)) i;
  core_unique i1 i2 e1 e2 : entry t i1 = Some e1 -> entry t i2 = Some e2 ->
    HTENT_VALID e1 = true -> HTENT_VALID e2 = true -> key_id (e_key e1) = key_id (e_key e2) -> i1 = i2
}.

Lemma core_size t : ht_core t -> 1 < ht_size t.
Proof. intros Ht. by destruct (core_prime t Ht). Qed.

Lemma passed_index t i : ht_core t -> 0 <= i < ht_size t -> 0 <= i /\ i / 8 < zlen (ht_passed t).
Proof.
  intros Ht Hi. destruct (core_passed t Ht) as [_ ->]. split; [lia|]. unfold ROUND_UP.
  assert (i / 8 < ht_size t) by (apply Z.div_lt_upper_bound; lia).
  assert (ht_size t <= (ht_size t + (8 - 1)) / 8 * 8) by (Z.to_euclidean_division_equations; lia). lia.
Qed.

Lemma core_counts t : ht_core t -> 0 <= ht_count t /\ 0 <= ht_del_count t /\ ht_count t + ht_del_count t <= ht_size t.
Proof.
  intros Ht. rewrite (core_count t Ht), (core_del t Ht), <- (core_base t Ht).
  split; [apply cnt_nonneg|]. split; [apply cnt_nonneg|]. apply cnt_disjoint. intros e.
  unfold HTENT_VALID, HTENT_MARK_DELETED. destruct (HT_DELETED_ENTRY =? e_value e); [by rewrite andb_false_r|done].
Qed.

Lemma core_entry t i : ht_core t -> 0 <= i < ht_size t -> exists e, entry t i = Some e.
Proof. intros Ht Hi. apply entry_in_range. by rewrite (core_base t Ht). Qed.

(** * A search *)

(** [t'] is [t] with the slots of [l] marked as passed through. *)
Definition marks (t t' : table K) (l : list Z) : Prop :=
  t' = set_base t (ht_base t) (ht_passed t') (ht_count t) (ht_del_count t) /\
  bytes_ok (ht_passed t') /\ zlen (ht_passed t') = zlen (ht_passed t) /\
  forall k, 0 <= k -> pbit (ht_passed t') k = pbit (ht_passed t) k || bool_decide (k ∈ l).

Lemma marks_refl t : bytes_ok (ht_passed t) -> marks t t [].
Proof. intros Hb. destruct t. repeat split; [done|]. intros k Hk. simpl. by rewrite orb_false_r. Qed.

Lemma marks_entry t t' l i : marks t t' l -> entry t' i = entry t i.
Proof. intros [-> _]. done. Qed.

Lemma marks_step t t' l i :
  marks t t' l -> 0 <= i -> i / 8 < zlen (ht_passed t) ->
  exists t2, mark_passed t' i = Ok t2 /\ marks t t2 (l ++ [i]).
Proof.
  intros (E & Hb & Hl & Hk) Hi Hi8. unfold mark_passed.
  destruct (bit_set_passed i (ht_passed t') Hb Hi ltac:(lia)) as (r & m' & -> & Hb' & Hl' & Hk').
  cbn [res_of mbind res_bind]. eexists. split; [done|]. unfold marks. simpl.
  split; [by rewrite E|]. split; [done|]. split; [lia|].
  intros k Hk0. rewrite Hk', Hk by done. rewrite <- orb_assoc. f_equal.
  apply eq_true_iff_eq. rewrite orb_true_iff, !bool_decide_eq_true, Z.eqb_eq, elem_of_app, list_elem_of_singleton. done.
Qed.

(** How far the search for [key] goes over [l]: past slots that are in use for
    others, to an empty slot, to the key, or to the end. *)
Definition passes (t : table K) (key : K) (i : Z) : Prop :=
  exists e, entry t i = Some e /\ HTENT_EMPTY e = false /\
    (HTENT_MARK_DELETED e = true \/ HTENT_MARK_DELETED e = false /\ HTENT_KEY_MATCH e key = false).

Inductive stop (t : table K) (key : K) : list Z -> list Z -> option (Z * bool) -> Prop :=
| stop_end l : stop t key l l None
| stop_empty l i l2 e : entry t i = Some e -> HTENT_EMPTY e = true -> stop t key (l ++ i :: l2) l (Some (i, true))
| stop_match l i l2 e : entry t i = Some e -> HTENT_EMPTY e = false -> HTENT_MARK_DELETED e = false ->
    HTENT_KEY_MATCH e key = true -> stop t key (l ++ i :: l2) l (Some (i, false)).

Lemma stop_cons t key i l l1 r : stop t key l l1 r -> stop t key (i :: l) (i :: l1) r.
Proof.
  intros [l'|l' j l2 e E1 E2|l' j l2 e E1 E2 E3 E4];
    [constructor|by apply (stop_empty t key (i :: l') j l2 e)|by apply (stop_match t key (i :: l') j l2 e)].
Qed.

(** Every list of slots of the table has such a stop. *)
Lemma stop_exists t key l :
  (forall i, i ∈ l -> 0 <= i < zlen (ht_base t)) ->
  exists l1 r, stop t key l l1 r /\ Forall (passes t key) l1.
Proof.
  induction l as [|i l IH]; intros Hl.
  { exists [], None. split; [constructor|constructor]. }
  destruct (entry_in_range t i) as (e & E); [apply Hl; left|].
  destruct (HTENT_EMPTY e) eqn:Ee.
  { exists [], (Some (i, true)). split; [by apply (stop_empty t key [] i l e)|constructor]. }
  assert (Hgo : passes t key i -> exists l1 r, stop t key (i :: l) l1 r /\ Forall (passes t key) l1).
  { intros Hp. destruct IH as (l1 & r & Hs & Hf); [intros j Hj; apply Hl; by right|].
    exists (i :: l1), r. split; [by apply stop_cons|by constructor]. }
  destruct (HTENT_MARK_DELETED e) eqn:Ed; [apply Hgo; exists e; auto|].
  destruct (HTENT_KEY_MATCH e key) eqn:Em; [|apply Hgo; exists e; auto].
  exists [], (Some (i, false)). split; [by apply (stop_match t key [] i l e)|constructor].
Qed.

(** The first deleted slot of a list. *)
Fixpoint first_del (t : table K) (l : list Z) : option Z :=
  match l with
  | [] => None
  | i :: l' => if default false (HTENT_MARK_DELETED <$> entry t i) then Some i else first_del t l'
  end.

Lemma first_del_app t l k : first_del t (l ++ k) = match first_del t l with Some i => Some i | None => first_del t k end.
Proof. induction l as [|i l IH]; [done|]. simpl. by destruct (default _ _). Qed.

Lemma first_del_Some t l i :
  first_del t l = Some i -> exists l1 l2 e, l = l1 ++ i :: l2 /\ entry t i = Some e /\ HTENT_MARK_DELETED e = true.
Proof.
  induction l as [|j l IH]; [done|]. simpl. destruct (entry t j) as [e|] eqn:E; simpl.
  - destruct (HTENT_MARK_DELETED e) eqn:Ed.
    + intros [= <-]. by exists [], l, e.
    + intros Hf. destruct (IH Hf) as (l1 & l2 & e2 & -> & He). by exists (j :: l1), l2, e2.
  - intros Hf. destruct (IH Hf) as (l1 & l2 & e2 & -> & He). by exists (j :: l1), l2, e2.
Qed.

Lemma first_del_None t l i e : first_del t l = None -> i ∈ l -> entry t i = Some e -> HTENT_MARK_DELETED e = false.
Proof.
  induction l as [|j l IH]; intros Hf Hi E; [by apply elem_of_nil in Hi|]. simpl in Hf.
  apply elem_of_cons in Hi as [<-|Hi].
  - rewrite E in Hf. simpl in Hf. by destruct (HTENT_MARK_DELETED e).
  - destruct (default _ _); [done|]. by apply IH.
Qed.

Lemma add_visit_passes t0 key v tpre seen i :
  marks t0 tpre seen -> passes t0 key i -> 0 <= i -> i / 8 < zlen (ht_passed t0) ->
  exists t1, marks t0 t1 (seen ++ [i]) /\
    add_visit key v (tpre, first_del t0 seen) i = Ok ((t1, first_del t0 (seen ++ [i])), None).
Proof.
  intros Hm (e & E & Ee & Hc) Hi Hi8. destruct (marks_step t0 tpre seen i Hm Hi Hi8) as (t1 & Et & Hm1).
  exists t1. split; [done|]. unfold add_visit, RETURN_IF_ADDED. rewrite (marks_entry t0 tpre seen i Hm), E.
  cbn [res_of mbind res_bind]. rewrite Ee. rewrite first_del_app. simpl first_del. rewrite E. simpl default.
  destruct Hc as [Ed | [Ed Em]]; rewrite Ed; simpl negb; cbv iota.
  - destruct (first_del t0 seen); cbn [mbind res_bind]; by rewrite Et.
  - rewrite Em. cbn [mbind res_bind]. rewrite Et. simpl. by destruct (first_del t0 seen).
Qed.

Lemma add_walk t0 key v l1 : forall tpre seen,
  marks t0 tpre seen -> Forall (passes t0 key) l1 ->
  (forall i, i ∈ l1 -> 0 <= i /\ i / 8 < zlen (ht_passed t0)) ->
  exists t1, marks t0 t1 (seen ++ l1) /\
    forall rest, visit_all (add_visit key v) (l1 ++ rest) (tpre, first_del t0 seen) =
                 visit_all (add_visit key v) rest (t1, first_del t0 (seen ++ l1)).
Proof.
  induction l1 as [|i l1 IH]; intros tpre seen Hm Hp Hi.
  { exists tpre. rewrite app_nil_r. split; [done|]. done. }
  apply Forall_cons in Hp as [Hpi Hp]. destruct (Hi i) as [Hi0 Hi8]; [left|].
  destruct (add_visit_passes t0 key v tpre seen i Hm Hpi Hi0 Hi8) as (t1 & Hm1 & E1).
  destruct (IH t1 (seen ++ [i]) Hm1 Hp) as (t2 & Hm2 & E2); [intros j Hj; apply Hi; by right|].
  exists t2. rewrite <- app_assoc in Hm2. split; [done|]. intros rest. cbn [app visit_all]. rewrite E1. cbn [mbind res_bind].
  rewrite E2. by rewrite <- app_assoc.
Qed.

(** What an addition does, in terms of where its search stops. *)
Lemma add_search_stop t key v l1 r :
  ht_core t -> stop t key (slots (ht_size t) (FIND_HASH key)) l1 r -> Forall (passes t key) l1 ->
  exists t1, marks t t1 l1 /\
    add_search t key v =
      match r with
      | Some (i, false) => Ok (t1, i, false)
      | Some (i, true) => let i := default i (first_del t l1) in t2 ← INSERT_HTENT t1 i key v; Ok (t2, i, true)
      | None => match first_del t l1 with
                | Some i => t2 ← INSERT_HTENT t1 i key v; Ok (t2, i, true)
                | None => Err GTMASSERT
                end
      end.
Proof.
  intros Ht Hs Hp. unfold add_search. rewrite probe_visits by apply (core_prime t Ht).
  assert (Hin : forall i, i ∈ slots (ht_size t) (FIND_HASH key) -> 0 <= i /\ i / 8 < zlen (ht_passed t)).
  { intros i Hi. apply slots_elem in Hi; [|apply (core_prime t Ht)]. by apply passed_index. }
  assert (Hl1 : forall i, i ∈ l1 -> 0 <= i /\ i / 8 < zlen (ht_passed t)).
  { intros i Hi. apply Hin. destruct Hs; [done|apply elem_of_app; by left|apply elem_of_app; by left]. }
  destruct (add_walk t key v l1 t [] (marks_refl t (proj1 (core_passed t Ht))) Hp Hl1) as (t1 & Hm & E).
  exists t1. split; [done|]. cbn [app first_del] in E, Hm.
  destruct Hs as [|l i l2 e E1 E2|l i l2 e E1 E2 E3 E4].
  - specialize (E []). rewrite app_nil_r in E. rewrite E. simpl. by destruct (first_del t l).
  - rewrite E. cbn [visit_all]. unfold add_visit, RETURN_IF_ADDED.
    rewrite (marks_entry t t1 l i Hm), E1. cbn [res_of mbind res_bind]. rewrite E2.
    destruct (INSERT_HTENT t1 _ key v); done.
  - rewrite E. cbn [visit_all]. unfold add_visit, RETURN_IF_ADDED.
    rewrite (marks_entry t t1 l i Hm), E1. cbn [res_of mbind res_bind]. rewrite E2, E3. simpl negb. cbv iota.
    by rewrite E4.
Qed.

(** * Effects on the table *)

(** What the table says besides its slots. *)
Definition params (t : table K) :=
  (ht_size t, ht_initial_size t, (ht_exp_trigger t, ht_cmp_trigger t),
   (ht_dont_compact t, ht_dont_keep_spare t, ht_active t)).

Lemma params_size t t' : params t' = params t -> ht_size t' = ht_size t.
Proof. unfold params. by intros [= -> _]. Qed.

(** [t2] is [t] with the slot [i] set to [e], and perhaps more bits set. *)
Record updated (t t2 : table K) (i : Z) (e : ent K) : Prop := {
  upd_params : params t2 = params t;
  upd_entry j : 0 <= j -> entry t2 j = if i =? j then Some e else entry t j;
  upd_len : zlen (ht_base t2) = zlen (ht_base t);
  upd_passed : bytes_ok (ht_passed t2) /\ zlen (ht_passed t2) = zlen (ht_passed t);
  upd_bits k : 0 <= k -> pbit (ht_passed t) k = true -> pbit (ht_passed t2) k = true
}.

(** Setting the slot of an insertion keeps the paths of the others. *)
Lemma path_mono t t2 h i :
  1 < ht_size t -> ht_size t2 = ht_size t ->
  (forall k, 0 <= k -> pbit (ht_passed t) k = true -> pbit (ht_passed t2) k = true) ->
  (forall k e, entry t k = Some e -> HTENT_EMPTY e = false -> exists e', entry t2 k = Some e' /\ HTENT_EMPTY e' = false) ->
  path_ok t h i -> path_ok t2 h i.
Proof.
  intros Hs E Hb He Hp j Hj Ej m Hm. rewrite E in *.
  destruct (Hp j Hj Ej m Hm) as (Hbit & e & Ee & Hne).
  assert (0 <= slot (ht_size t) h m) by (apply Z.mod_pos_bound; lia).
  split; [by apply Hb|]. by eapply He.
Qed.

(** The slots before a slot of [l], or before the one that follows it, are in [l]. *)
Lemma before_in_prefix p h l rest i j m :
  Z.prime p -> slots p h = l ++ rest -> (i ∈ l \/ exists rest', rest = i :: rest') ->
  0 <= j < p -> slot p h j = i -> 0 <= m < j -> slot p h m ∈ l.
Proof.
  intros Hp Hl Hi Hj Ej Hm.
  assert (Hpos : exists n, (n <= length l)%nat /\ slots p h !! n = Some i).
  { destruct Hi as [Hi|[rest' ->]].
    - apply list_elem_of_lookup in Hi as [n Hn]. exists n. apply lookup_lt_Some in Hn as Hlt. split; [lia|].
      rewrite Hl. by apply lookup_app_l_Some.
    - exists (length l). split; [lia|]. rewrite Hl. by rewrite list_lookup_middle. }
  destruct Hpos as (n & Hn & En). apply slots_lookup in En as [Hnp E]. rewrite <- Ej in E.
  apply slot_inj in E; [|done|lia|lia]. subst j.
  assert (Em : slots p h !! Z.to_nat m = Some (slot p h m)).
  { apply slots_lookup. rewrite Z2Nat.id by lia. split; [lia|done]. }
  rewrite Hl, lookup_app_l in Em by lia. by eapply list_elem_of_lookup_2.
Qed.

Lemma insert_core t t1 l1 rest i key v e0 :
  ht_core t -> marks t t1 l1 -> Forall (passes t key) l1 ->
  slots (ht_size t) (FIND_HASH key) = l1 ++ rest -> (i ∈ l1 \/ exists rest', rest = i :: rest') ->
  key_ok key v -> entry t i = Some e0 -> HTENT_VALID e0 = false ->
  (forall j e, entry t j = Some e -> HTENT_VALID e = true -> key_id (e_key e) <> key_id key) ->
  exists t2, INSERT_HTENT t1 i key v = Ok t2 /\ ht_core t2 /\ updated t t2 i (mk_ent key v) /\
    ht_count t2 = ht_count t + 1.
Proof.
  intros Ht Hm Hp Hl Hi Hk E0 Hv0 Hnew. unfold INSERT_HTENT. rewrite (marks_entry t t1 l1 i Hm), E0.
  cbn [res_of mbind res_bind]. destruct Hm as (Et1 & Hb1 & Hz1 & Hk1).
  pose proof (entry_range t i e0 E0) as Hir. pose proof (core_size t Ht) as Hs1.
  destruct (law_valid key v Hk) as [Hne Hnd]. pose proof (ok_valid (mk_ent key v) Hk) as Hval.
  destruct (key_ok_valid (mk_ent key v) Hk) as [_ Hnd'].
  eexists. split; [done|]. set (t2 := set_base _ _ _ _ _).
  assert (Hbase : ht_base t2 = <[Z.to_nat i := mk_ent key v]> (ht_base t)) by (unfold t2; rewrite Et1; done).
  assert (Hpar : params t2 = params t) by (unfold t2; rewrite Et1; done).
  assert (Hpass : ht_passed t2 = ht_passed t1) by done.
  assert (Hcnt : ht_count t2 = ht_count t + 1) by (unfold t2; rewrite Et1; done).
  assert (Hdel : ht_del_count t2 = if HT_DELETED_ENTRY =? e_value e0 then ht_del_count t - 1 else ht_del_count t)
    by (unfold t2; rewrite Et1; done).
  assert (Hent : forall j, 0 <= j -> entry t2 j = if i =? j then Some (mk_ent key v) else entry t j).
  { intros j Hj. rewrite <- (entry_set t i (mk_ent key v) (ht_passed t2) 0 0 j Hir Hj). unfold entry. by rewrite Hbase. }
  assert (Hu : updated t t2 i (mk_ent key v)).
  { constructor; [done|done|by rewrite Hbase; apply zlen_insert|by rewrite Hpass|].
    intros k Hk0 Hbit. rewrite Hpass, Hk1, Hbit by done. done. }
  destruct (entry_lookup t i e0 E0) as [El _].
  split; [|done]. pose proof (params_size t t2 Hpar) as Hsz. constructor.
  - rewrite Hsz. apply Ht.
  - rewrite (upd_len _ _ _ _ Hu), Hsz. apply Ht.
  - rewrite Hsz, Hpass, Hz1. split; [done|apply Ht].
  - intros j e Ej. pose proof (entry_range t2 j e Ej). rewrite Hent in Ej by lia.
    destruct (i =? j); [injection Ej as <-; by right; right|by eapply (core_slots t Ht)].
  - rewrite Hcnt, Hbase, (cnt_insert _ _ _ _ _ El), (core_count t Ht), Hv0, Hval. simpl. lia.
  - rewrite Hbase, (cnt_insert _ _ _ _ _ El), Hnd', <- (core_del t Ht), Hdel.
    unfold HTENT_MARK_DELETED. destruct (HT_DELETED_ENTRY =? e_value e0); simpl; lia.
  - intros j e Ej Hv. pose proof (entry_range t2 j e Ej) as Hr. rewrite Hent in Ej by lia.
    destruct (Z.eqb_spec i j) as [<-|Hne2].
    + injection Ej as <-. simpl. intros a Ha Ea m Hm. rewrite Hsz in *.
      assert (Hin : slot (ht_size t) (FIND_HASH key) m ∈ l1)
        by (eapply before_in_prefix; [apply Ht|exact Hl|exact Hi|exact Ha|done|lia]).
      assert (Hs0 : 0 <= slot (ht_size t) (FIND_HASH key) m) by (apply Z.mod_pos_bound; lia).
      rewrite Hpass, Hk1 by done. split; [rewrite bool_decide_true by done; apply orb_true_r|].
      rewrite Forall_forall in Hp. destruct (Hp _ Hin) as (e' & Ee' & Hn' & _). rewrite Hent by done.
      destruct (i =? _); eexists; split; done.
    + apply (path_mono t t2); [done|done| | |by eapply (core_path t Ht)].
      * intros k Hk0 Hbit. by apply (upd_bits _ _ _ _ Hu).
      * intros k e' Ek He'. pose proof (entry_range t k e' Ek). rewrite Hent by lia. destruct (i =? k); eauto.
  - intros j1 j2 e1 e2 Ej1 Ej2 Hv1 Hv2 Hid. pose proof (entry_range t2 j1 e1 Ej1). pose proof (entry_range t2 j2 e2 Ej2).
    rewrite Hent in Ej1, Ej2 by lia.
    destruct (Z.eqb_spec i j1) as [<-|], (Z.eqb_spec i j2) as [<-|]; [done| | |by eapply (core_unique t Ht)].
    + injection Ej1 as <-. simpl in Hid. by destruct (Hnew _ _ Ej2 Hv2).
    + injection Ej2 as <-. simpl in Hid. by destruct (Hnew _ _ Ej1 Hv1).
Qed.

Lemma marks_core t t1 l : ht_core t -> marks t t1 l -> ht_core t1 /\ params t1 = params t.
Proof.
  intros Ht Hm. pose proof (marks_entry t t1 l) as He. destruct Hm as (E & Hb & Hz & Hk).
  assert (Hp : params t1 = params t) by (rewrite E; done). split; [|done].
  assert (Hent : forall i, entry t1 i = entry t i) by (intros i; rewrite E; done).
  pose proof (params_size t t1 Hp) as Hs. assert (Hbase : ht_base t1 = ht_base t) by (rewrite E; done). constructor.
  - rewrite Hs. apply Ht.
  - rewrite Hbase, Hs. apply Ht.
  - rewrite Hz, Hs. split; [done|apply Ht].
  - intros i e. rewrite Hent. apply Ht.
  - rewrite Hbase. rewrite E. simpl. apply Ht.
  - rewrite Hbase. rewrite E. simpl. apply Ht.
  - intros i e. rewrite Hent. intros Ei Hv. apply (path_mono t t1); [by apply core_size|done| | |by apply (core_path t Ht i e)].
    + intros k Hk0 Hbit. by rewrite Hk, Hbit.
    + intros k e' Ek Hne. rewrite Hent. by exists e'.
  - intros i1 i2 e1 e2. rewrite !Hent. apply Ht.
Qed.

(** The table holds the value [v] for the key [x]. *)
Definition holds (t : table K) (x : I) (v : Z) : Prop :=
  exists i e, entry t i = Some e /\ HTENT_VALID e = true /\ key_id (e_key e) = x /\ e_value e = v.

Lemma holds_fun t x v w : ht_core t -> holds t x v -> holds t x w -> v = w.
Proof.
  intros Ht (i & e & E & V & Hx & <-) (j & e' & E' & V' & Hx' & <-).
  assert (i = j) as -> by (apply (core_unique t Ht i j e e'); congruence). congruence.
Qed.

(** A search that does not stop at the key: the key is not in the table. *)
Lemma stop_absent t key l1 r :
  ht_core t -> stop t key (slots (ht_size t) (FIND_HASH key)) l1 r -> Forall (passes t key) l1 ->
  (forall i, r <> Some (i, false)) ->
  forall j e, entry t j = Some e -> HTENT_VALID e = true -> key_id (e_key e) <> key_id key.
Proof.
  intros Ht Hs Hp Hr j e Ej Hv Hid. pose proof (core_prime t Ht) as Hpr.
  pose proof (entry_range t j e Ej) as Hj. rewrite (core_base t Ht) in Hj.
  apply law_hash in Hid as Hh. rewrite valid_eq in Hv. apply andb_true_iff in Hv as [Hv1%negb_true_iff Hv2%negb_true_iff].
  destruct (slot_onto (ht_size t) (FIND_HASH key) Hpr j Hj) as (n & Hn & En).
  assert (Hl1 : j ∉ l1).
  { intros Hin. rewrite Forall_forall in Hp. destruct (Hp j Hin) as (e' & E' & _ & [Hd|[_ Hm]]);
      rewrite Ej in E'; injection E' as <-; [congruence|]. by rewrite law_match, bool_decide_true in Hm. }
  assert (Hall : j ∈ slots (ht_size t) (FIND_HASH key)) by (by apply slots_elem).
  remember (slots (ht_size t) (FIND_HASH key)) as S eqn:ES.
  destruct Hs as [S|l i l2 e' E1 E2|l i l2 e' E1 E2 E3 E4]; [done| |by apply (Hr i)].
  (* The empty slot [i] would be on the way to [j]. *)
  assert (Ei : slot (ht_size t) (FIND_HASH key) (Z.of_nat (length l)) = i).
  { assert (Hli : slots (ht_size t) (FIND_HASH key) !! length l = Some i) by (rewrite <- ES; by apply list_lookup_middle).
    apply slots_lookup in Hli as [_ ->]; done. }
  assert (Hlen : Z.of_nat (length l) < ht_size t).
  { pose proof (slots_length (ht_size t) (FIND_HASH key)) as Hsl. rewrite <- ES, length_app in Hsl. simpl in Hsl. lia. }
  destruct (Z.lt_trichotomy n (Z.of_nat (length l))) as [Hlt|[Heq|Hgt]].
  - apply Hl1. apply (list_elem_of_lookup_2 _ (Z.to_nat n)).
    assert (Hsl : slots (ht_size t) (FIND_HASH key) !! Z.to_nat n = Some j)
      by (apply slots_lookup; rewrite Z2Nat.id by lia; split; [lia|done]).
    rewrite <- ES, lookup_app_l in Hsl by lia. done.
  - subst n. rewrite Ei in En. congruence.
  - assert (Hpath : path_ok t (FIND_HASH key) j).
    { rewrite <- Hh. apply (core_path t Ht j e Ej). by rewrite valid_eq, Hv1, Hv2. }
    destruct (Hpath n Hn En (Z.of_nat (length l)) ltac:(lia)) as (_ & e2 & Ee2 & Hne).
    rewrite Ei, E1 in Ee2. injection Ee2 as <-. congruence.
Qed.

(** A search that ends without a slot to fill: every slot is valid. *)
Lemma stop_full t key :
  ht_core t -> Forall (passes t key) (slots (ht_size t) (FIND_HASH key)) ->
  first_del t (slots (ht_size t) (FIND_HASH key)) = None -> ht_count t = ht_size t.
Proof.
  intros Ht Hp Hf. rewrite (core_count t Ht), <- (core_base t Ht). apply cnt_full. intros n e En.
  assert (Ee : entry t (Z.of_nat n) = Some e).
  { unfold entry. replace (Z.of_nat n <? 0) with false by (symmetry; apply Z.ltb_ge; lia). by rewrite Nat2Z.id. }
  pose proof (entry_range t _ e Ee) as Hr. rewrite (core_base t Ht) in Hr.
  assert (Hin : Z.of_nat n ∈ slots (ht_size t) (FIND_HASH key)) by (apply slots_elem; [apply Ht|done]).
  pose proof (first_del_None t _ _ e Hf Hin Ee) as Hd. rewrite Forall_forall in Hp.
  destruct (Hp _ Hin) as (e' & E' & Hne & _). rewrite Ee in E'. injection E' as <-. by rewrite valid_eq, Hne, Hd.
Qed.

(** [ADD_HASHTAB_INTL] in a table with room. *)
Lemma add_search_spec t key v :
  ht_core t -> key_ok key v -> ht_count t < ht_size t ->
  exists t' i added, add_search t key v = Ok (t', i, added) /\ ht_core t' /\ params t' = params t /\
    if added : bool then
      (forall j e, entry t j = Some e -> HTENT_VALID e = true -> key_id (e_key e) <> key_id key) /\
      updated t t' i (mk_ent key v) /\ ht_count t' = ht_count t + 1 /\
      exists e0, entry t i = Some e0 /\ HTENT_VALID e0 = false
    else
      (forall j, entry t' j = entry t j) /\ ht_count t' = ht_count t /\
      exists e, entry t i = Some e /\ HTENT_VALID e = true /\ key_id (e_key e) = key_id key.
Proof.
  intros Ht Hk Hroom.
  assert (Hin : forall i, i ∈ slots (ht_size t) (FIND_HASH key) -> 0 <= i < zlen (ht_base t)).
  { intros i Hi. apply slots_elem in Hi; [|apply Ht]. by rewrite (core_base t Ht). }
  destruct (stop_exists t key _ Hin) as (l1 & r & Hs & Hp).
  destruct (add_search_stop t key v l1 r Ht Hs Hp) as (t1 & Hm & E).
  assert (Hins : forall i rest e0, slots (ht_size t) (FIND_HASH key) = l1 ++ rest ->
     (i ∈ l1 \/ exists rest', rest = i :: rest') -> entry t i = Some e0 -> HTENT_VALID e0 = false ->
     (forall j, r <> Some (j, false)) ->
     add_search t key v = (t2 ← INSERT_HTENT t1 i key v; Ok (t2, i, true)) ->
     exists t' i0 added, add_search t key v = Ok (t', i0, added) /\ ht_core t' /\ params t' = params t /\
    if added : bool then
      (forall j e, entry t j = Some e -> HTENT_VALID e = true -> key_id (e_key e) <> key_id key) /\
      updated t t' i0 (mk_ent key v) /\ ht_count t' = ht_count t + 1 /\
      exists e0, entry t i0 = Some e0 /\ HTENT_VALID e0 = false
    else
      (forall j, entry t' j = entry t j) /\ ht_count t' = ht_count t /\
      exists e, entry t i0 = Some e /\ HTENT_VALID e = true /\ key_id (e_key e) = key_id key).
  { intros i rest e0 Hsl Hi E0 Hv0 Hr ->. pose proof (stop_absent t key l1 r Ht Hs Hp Hr) as Hnew.
    destruct (insert_core t t1 l1 rest i key v e0 Ht Hm Hp Hsl Hi Hk E0 Hv0 Hnew) as (t2 & -> & Ht2 & Hu & Hc).
    cbn [mbind res_bind]. exists t2, i, true. split; [done|]. split; [done|]. split; [apply Hu|]. eauto 6. }
  assert (Hfd : forall d, first_del t l1 = Some d -> exists e0, entry t d = Some e0 /\ HTENT_VALID e0 = false /\ d ∈ l1).
  { intros d Hd. apply first_del_Some in Hd as (la & lb & e0 & El & E0 & Hd0). exists e0. split; [done|].
    split; [by rewrite valid_eq, Hd0, andb_false_r|]. rewrite El. apply elem_of_app. right. left. }
  remember (slots (ht_size t) (FIND_HASH key)) as S eqn:ES.
  destruct Hs as [l|l i l2 e E1 E2|l i l2 e E1 E2 E3 E4].
  - destruct (first_del t l) as [d|] eqn:Ed.
    + destruct (Hfd d eq_refl) as (e0 & E0 & Hv0 & Hdl).
      apply (Hins d [] e0); [by rewrite app_nil_r|by left|done|done|done|done].
    + exfalso. subst l. apply stop_full in Ed; [lia|done|done].
  - destruct (first_del t l) as [d|] eqn:Ed.
    + destruct (Hfd d eq_refl) as (e0 & E0 & Hv0 & Hdl).
      apply (Hins d (i :: l2) e0); [done|by left|done|done|done|done].
    + apply (Hins i (i :: l2) e); [done|right; by eexists|done|by rewrite valid_eq, E2|done|done].
  - exists t1, i, false. destruct (marks_core t t1 l Ht Hm) as [Ht1 Hpar]. split; [done|]. split; [done|]. split; [done|].
    split; [intros j; by apply (marks_entry t t1 l)|]. split; [destruct Hm as [-> _]; done|].
    exists e. split; [done|]. split; [by rewrite valid_eq, E2, E3|]. rewrite law_match in E4. by apply bool_decide_eq_true in E4.
Qed.

(** The slots of a search are slots of the table. *)
Lemma slots_in_table t h i : ht_core t -> i ∈ slots (ht_size t) h -> 0 <= i < zlen (ht_base t).
Proof. intros Ht Hi. apply slots_elem in Hi; [|apply Ht]. by rewrite (core_base t Ht). Qed.

(** [LOOKUP_HASHTAB]. *)
Lemma lookup_spec t key :
  ht_core t ->
  exists r, LOOKUP_HASHTAB t key = Ok r /\
    match r with
    | Some i => exists e, entry t i = Some e /\ HTENT_VALID e = true /\ key_id (e_key e) = key_id key
    | None => forall j e, entry t j = Some e -> HTENT_VALID e = true -> key_id (e_key e) <> key_id key
    end.
Proof.
  intros Ht. unfold LOOKUP_HASHTAB. rewrite probe_visits by apply Ht.
  destruct (stop_exists t key (slots (ht_size t) (FIND_HASH key))) as (l1 & r & Hs & Hp); [eauto using slots_in_table|].
  assert (Hskip : forall i, i ∈ l1 -> RETURN_IF_LOOKUP_DONE t key tt i = Ok (tt, None)).
  { intros i Hi. rewrite Forall_forall in Hp. destruct (Hp i Hi) as (e & E & Hne & Hc). unfold RETURN_IF_LOOKUP_DONE.
    rewrite E. cbn [res_of mbind res_bind]. rewrite Hne. destruct Hc as [-> | [-> ->]]; done. }
  pose proof (stop_absent t key l1 r Ht Hs Hp) as Habs.
  destruct Hs as [l|l i l2 e E1 E2|l i l2 e E1 E2 E3 E4].
  - rewrite <- (app_nil_r l), visit_all_skip by done. exists None. split; [done|]. by apply Habs.
  - rewrite visit_all_skip by done. cbn [visit_all]. unfold RETURN_IF_LOOKUP_DONE. rewrite E1. cbn [res_of mbind res_bind].
    rewrite E2. exists None. split; [done|]. by apply Habs.
  - rewrite visit_all_skip by done. cbn [visit_all]. unfold RETURN_IF_LOOKUP_DONE. rewrite E1. cbn [res_of mbind res_bind].
    rewrite E2, E3, E4. exists (Some i). split; [done|]. exists e. split; [done|].
    split; [by rewrite valid_eq, E2, E3|]. rewrite law_match in E4. by apply bool_decide_eq_true in E4.
Qed.

(** Emptying a slot that no search passed through keeps the paths. *)
Lemma delete_core t i e :
  ht_core t -> entry t i = Some e -> HTENT_VALID e = true ->
  exists t2, DELETE_HTENT t i = Ok t2 /\ ht_core t2 /\ params t2 = params t /\ ht_count t2 = ht_count t - 1 /\
    (forall j, 0 <= j -> j <> i -> entry t2 j = entry t j) /\ exists e2, entry t2 i = Some e2 /\ HTENT_VALID e2 = false.
Proof.
  intros Ht E Hv. pose proof (entry_range t i e E) as Hir. pose proof (core_size t Ht) as Hs1.
  pose proof (core_slots t Ht i e E) as Hok. pose proof (valid_ok e Hok Hv) as Hk.
  destruct (key_ok_valid e Hk) as [Hne Hnd]. destruct (entry_lookup t i e E) as [El _].
  destruct (passed_index t i Ht) as [Hi0 Hi8]; [by rewrite <- (core_base t Ht)|].
  pose proof (Z.div_pos i 8 ltac:(lia) ltac:(lia)).
  destruct (rd_byte (ht_passed t) (i / 8) (proj1 (core_passed t Ht))) as (b & Eb & Hb); [lia|].
  assert (Etest : negb (Z.land (Z.shiftl 1 (Z.land i 7)) b =? 0) = pbit (ht_passed t) i).
  { change 7 with (Z.ones 3). rewrite Z.land_ones by lia. change (2 ^ 3) with 8. unfold pbit. rewrite Eb.
    apply shift_bit_cases; [done|apply Z.mod_pos_bound; lia]. }
  (* Both ways leave a slot [e2] that is not valid, empty only when not passed through. *)
  assert (Hgo : forall e2 d t2, t2 = set_base t (<[Z.to_nat i := e2]> (ht_base t)) (ht_passed t) (ht_count t - 1) d ->
     slot_ok e2 -> HTENT_VALID e2 = false -> (pbit (ht_passed t) i = true -> HTENT_EMPTY e2 = false) ->
     d = ht_del_count t + Z.b2z (HTENT_MARK_DELETED e2) ->
     ht_core t2 /\ params t2 = params t /\ ht_count t2 = ht_count t - 1 /\
    (forall j, 0 <= j -> j <> i -> entry t2 j = entry t j) /\ exists e2, entry t2 i = Some e2 /\ HTENT_VALID e2 = false).
  { intros e2 d t2 -> Hs2 Hv2 Hb2 Hd. set (t2 := set_base _ _ _ _ _).
    assert (Hent : forall j, 0 <= j -> entry t2 j = if i =? j then Some e2 else entry t j)
      by (intros j Hj; apply entry_set; done).
    assert (Hpath : forall h j, path_ok t h j -> path_ok t2 h j).
    { intros h j Hp n Hn En m Hm. destruct (Hp n Hn En m Hm) as (Hbit & e' & Ee' & Hne'). split; [done|].
      rewrite Hent by (apply Z.mod_pos_bound; simpl; lia). destruct (Z.eqb_spec i (slot (ht_size t2) h m)) as [Ei|]; [|eauto].
      exists e2. split; [done|]. apply Hb2. by rewrite Ei. }
    split; [|split; [done|split; [done|split]]].
    - constructor; try apply Ht.
      + simpl. rewrite zlen_insert. apply Ht.
      + intros j e' Ej. pose proof (entry_range t2 j e' Ej). rewrite Hent in Ej by lia.
        destruct (i =? j); [by injection Ej as <-|by eapply (core_slots t Ht)].
      + simpl. rewrite (cnt_insert _ _ _ _ _ El), Hv, Hv2, (core_count t Ht). simpl. lia.
      + simpl. rewrite (cnt_insert _ _ _ _ _ El), Hnd, Hd, (core_del t Ht). simpl. lia.
      + intros j e' Ej Hv'. pose proof (entry_range t2 j e' Ej). rewrite Hent in Ej by lia.
        destruct (i =? j); [injection Ej as <-; congruence|]. by apply Hpath, (core_path t Ht).
      + intros j1 j2 e1 e3 Ej1 Ej2 Hv1 Hv3. pose proof (entry_range t2 j1 e1 Ej1). pose proof (entry_range t2 j2 e3 Ej2).
        rewrite Hent in Ej1, Ej2 by lia.
        destruct (i =? j1); [injection Ej1 as <-; congruence|]. destruct (i =? j2); [injection Ej2 as <-; congruence|].
        by apply (core_unique t Ht).
    - intros j Hj Hji. rewrite Hent by done. by replace (i =? j) with false by (symmetry; apply Z.eqb_neq; lia).
    - exists e2. split; [|done]. rewrite Hent, Z.eqb_refl by lia. done. }
  unfold DELETE_HTENT. rewrite E. cbn [res_of mbind res_bind]. change BITS_PER_UCHAR with 8. rewrite Eb.
  cbn [res_of mbind res_bind]. rewrite Etest. destruct (pbit (ht_passed t) i) eqn:Ebit.
  - eexists. split; [done|]. set (e2 := mk_ent (e_key e) HT_DELETED_ENTRY).
    assert (Hd2 : HTENT_MARK_DELETED e2 = true) by done.
    assert (Hn2 : HTENT_EMPTY e2 = false) by (eapply law_deleted; done).
    eapply (Hgo e2); [done|by right; left|by rewrite valid_eq, Hd2, andb_false_r|done|rewrite Hd2; done].
  - eexists. split; [done|]. pose proof (slot_ok_mark e Hok Hv) as Hs2. pose proof (law_mark e) as Hm.
    assert (Hd2 : HTENT_MARK_DELETED (HTENT_MARK_EMPTY e) = false).
    { destruct Hs2 as [[_ ?]|[[E2 _]|Hk2]]; [done|congruence|]. apply key_ok_valid in Hk2 as [E2 _]. congruence. }
    eapply (Hgo (HTENT_MARK_EMPTY e)); [done|done|by rewrite valid_eq, Hm|done|rewrite Hd2; simpl; lia].
Qed.

(** * Change of size *)

Lemma pbit_replicate n k : pbit (replicate n 0) k = false.
Proof.
  unfold pbit, rd. destruct (k / 8 <? 0); [apply Z.testbit_0_l|].
  destruct (replicate n 0 !! _) as [b|] eqn:E; [apply lookup_replicate in E as [-> _]|]; apply Z.testbit_0_l.
Qed.

Lemma clear_core n init dc dks defer :
  Z.prime n ->
  let t := @clear_table K _ n init dc dks defer in
  ht_core t /\ ht_count t = 0 /\ forall i e, entry t i = Some e -> HTENT_VALID e = false.
Proof.
  intros Hn t. assert (H1 : 1 < n) by (by destruct Hn).
  assert (Hz : forall i e, entry t i = Some e -> e = zero_ent).
  { intros i e E. apply entry_lookup in E as [E _]. simpl in E. by apply lookup_replicate in E as [-> _]. }
  assert (Hzv : HTENT_VALID zero_ent = false) by (rewrite valid_eq, (proj1 law_zero); done).
  assert (Hv : forall i e, entry t i = Some e -> HTENT_VALID e = false) by (intros i e ->%Hz; done).
  split; [|done]. constructor; simpl; try done.
  - unfold zlen. rewrite length_replicate. lia.
  - split; [by apply Forall_replicate|]. unfold zlen. rewrite length_replicate.
    rewrite Z2Nat.id; [done|]. unfold ROUND_UP. apply Z.mul_nonneg_nonneg; [apply Z.div_pos; lia|lia].
  - intros i e ->%Hz. apply slot_ok_zero.
  - by rewrite cnt_replicate.
  - rewrite cnt_replicate; [done|]. destruct slot_ok_zero as [[_ ?]|[[E _]|Hk]]; [done|rewrite (proj1 law_zero) in E; done|].
    by apply key_ok_valid in Hk as [_ ?].
  - intros i e E. by rewrite (Hv i e E).
  - intros i1 i2 e1 e2 E1 _. by rewrite (Hv i1 e1 E1).
Qed.

Lemma ent_eta (e : ent K) : mk_ent (e_key e) (e_value e) = e.
Proof. by destruct e. Qed.

(** The valid entries of [es], their keys apart from each other and from those
    of the table, all find a place. *)
Lemma move_spec es : forall new,
  ht_core new -> (forall e, e ∈ es -> slot_ok e) ->
  (forall n m e e', es !! n = Some e -> es !! m = Some e' -> HTENT_VALID e = true -> HTENT_VALID e' = true ->
     key_id (e_key e) = key_id (e_key e') -> n = m) ->
  (forall e j e', e ∈ es -> HTENT_VALID e = true -> entry new j = Some e' -> HTENT_VALID e' = true ->
     key_id (e_key e') <> key_id (e_key e)) ->
  ht_count new + cnt HTENT_VALID es <= ht_size new ->
  exists new' places, move_entries es new = Ok (new', places) /\ ht_core new' /\ params new' = params new /\
    ht_count new' = ht_count new + cnt HTENT_VALID es /\
    (forall n e, es !! n = Some e ->
       if HTENT_VALID e then exists i, places !! n = Some (Some i) /\ entry new' i = Some e else places !! n = Some None) /\
    (forall j e, entry new j = Some e -> HTENT_VALID e = true -> entry new' j = Some e) /\
    (forall j e, entry new' j = Some e -> HTENT_VALID e = true -> entry new j = Some e \/ e ∈ es).
Proof.
  induction es as [|e es IH]; intros new Hn Hok Huniq Hnew Hc.
  { exists new, []. simpl. split; [done|]. split; [done|]. split; [done|]. split; [unfold cnt; simpl; lia|].
    split; [done|]. split; [done|]. by left. }
  assert (Hok' : forall e', e' ∈ es -> slot_ok e') by (intros e' He'; apply Hok; by right).
  assert (Huniq' : forall n m e1 e2, es !! n = Some e1 -> es !! m = Some e2 -> HTENT_VALID e1 = true ->
     HTENT_VALID e2 = true -> key_id (e_key e1) = key_id (e_key e2) -> n = m).
  { intros n m e1 e2 E1 E2 V1 V2 Hid. pose proof (Huniq (S n) (S m) e1 e2 E1 E2 V1 V2 Hid). lia. }
  rewrite cnt_cons in *. cbn [move_entries]. destruct (HTENT_VALID e) eqn:Hv; simpl Z.b2z in *.
  - pose proof (valid_ok e (Hok e ltac:(left)) Hv) as Hk. pose proof (cnt_nonneg HTENT_VALID es).
    destruct (add_search_spec new (e_key e) (e_value e) Hn Hk ltac:(lia)) as (n1 & i & added & -> & Hn1 & Hp1 & Hadd).
    cbn [mbind res_bind]. destruct added; cycle 1.
    { destruct Hadd as (_ & _ & e' & E' & V' & Hid). by destruct (Hnew e i e' ltac:(left) Hv E' V'). }
    destruct Hadd as (Habs & Hu & Hc1 & e0 & E0 & V0). rewrite ent_eta in Hu.
    pose proof (entry_range new i e0 E0) as Hir. pose proof (params_size _ _ Hp1) as Hs1.
    destruct (IH n1 Hn1 Hok' Huniq') as (n2 & places & -> & Hn2 & Hp2 & Hc2 & Hpl & Hkeep & Hfrom).
    { intros e' j e2 He' V' E2 V2. pose proof (entry_range n1 j e2 E2). rewrite (upd_entry _ _ _ _ Hu) in E2 by lia.
      destruct (i =? j); [|by eapply (Hnew e'); [by right|..]]. injection E2 as <-.
      intros Hid. apply list_elem_of_lookup in He' as [m Em].
      pose proof (Huniq 0%nat (S m) e e' eq_refl Em Hv V' Hid). lia. }
    { lia. }
    exists n2, (Some i :: places). cbn [mbind res_bind]. split; [done|]. split; [done|]. split; [congruence|]. split; [lia|].
    split; [|split].
    + intros [|n] e' E'; simpl in E'.
      * injection E' as <-. rewrite Hv. exists i. split; [done|]. apply Hkeep; [|done].
        rewrite (upd_entry _ _ _ _ Hu), Z.eqb_refl by lia. done.
      * by apply Hpl.
    + intros j e' E' V'. apply Hkeep; [|done]. pose proof (entry_range new j e' E').
      rewrite (upd_entry _ _ _ _ Hu) by lia. destruct (Z.eqb_spec i j) as [<-|]; [congruence|done].
    + intros j e' E' V'. destruct (Hfrom j e' E' V') as [E2|]; [|right; by right].
      pose proof (entry_range n1 j e' E2). rewrite (upd_entry _ _ _ _ Hu) in E2 by lia.
      destruct (i =? j); [injection E2 as <-; right; left|by left].
  - destruct (IH new Hn Hok' Huniq') as (n2 & places & -> & Hn2 & Hp2 & Hc2 & Hpl & Hkeep & Hfrom); [|lia|].
    { intros e' j e2 He'. apply Hnew. by right. }
    exists n2, (None :: places). cbn [mbind res_bind]. split; [done|]. split; [done|]. split; [done|]. split; [lia|].
    split; [|split; [done|]].
    + intros [|n] e' E'; simpl in E'; [injection E' as <-; by rewrite Hv|by apply Hpl].
    + intros j e' E' V'. destruct (Hfrom j e' E' V') as [?|?]; [by left|right; by right].
Qed.

(** The two tables hold the same entries. *)
Definition same_entries (t t' : table K) : Prop :=
  forall e, HTENT_VALID e = true -> (exists i, entry t i = Some e) <-> (exists i, entry t' i = Some e).

Lemma same_entries_holds t t' x v : same_entries t t' -> holds t x v <-> holds t' x v.
Proof.
  intros Hs. split; intros (i & e & E & V & Hx & Hv).
  - destruct (proj1 (Hs e V)) as [j Ej]; [by exists i|]. by exists j, e.
  - destruct (proj2 (Hs e V)) as [j Ej]; [by exists i|]. by exists j, e.
Qed.
End Laws.

(** * Sizes *)

Definition sizes_ok (l : list Z) : Prop := l = default_ht_sizes \/ l = extended_ht_sizes.

Lemma sizes_in l n : sizes_ok l -> In n l -> In n extended_ht_sizes.
Proof.
  intros [-> | ->] H; [|done]. assert (E : forallb (fun n => bool_decide (n ∈ extended_ht_sizes)) default_ht_sizes = true)
    by (vm_compute; reflexivity).
  rewrite forallb_forall in E. apply E, bool_decide_eq_true in H. by apply list_elem_of_In.
Qed.

Lemma size_prime l n : sizes_ok l -> In n l -> n <> 0 -> Z.prime n.
Proof. intros Hl Hn. apply sizes_prime. by apply (sizes_in l). Qed.

Lemma size_from_spec l m : In 0 l -> In (size_from l m) l /\ (size_from l m <> 0 -> m <= size_from l m).
Proof.
  assert (H : (In (size_from l m) l \/ size_from l m = 0) /\ (size_from l m <> 0 -> m <= size_from l m)).
  { induction l as [|n l IH]; [by split; [right|]|]. simpl. destruct (negb (n =? 0) && (n <? m)) eqn:E.
    - destruct IH as [[Hin|H0] Hle]; (split; [|done]); [left; by right|by right].
    - split; [left; by left|]. intros Hn. apply andb_false_iff in E as [E|E]; zbool; [done|lia]. }
  intros H0. destruct H as [[Hin| ->] Hle]; split; done.
Qed.

Lemma sizes_zero l : sizes_ok l -> In 0 l.
Proof. intros [-> | ->]; apply list_elem_of_In; by_compute. Qed.

(** The size before a size of the table is less than eight times smaller. *)
Lemma prior_spec l n :
  sizes_ok l -> In n l -> n <> 0 ->
  let p := prior_size (hd 0 l) (tl l) n in In p l /\ p <> 0 /\ p <= n /\ n < 8 * p.
Proof.
  intros Hl Hn H0 p.
  assert (E : forallb (fun n => (n =? 0) || (let p := prior_size (hd 0 l) (tl l) n in
     bool_decide (p ∈ l) && negb (p =? 0) && (p <=? n) && (n <? 8 * p))) l = true)
    by (destruct Hl as [-> | ->]; vm_compute; reflexivity).
  rewrite forallb_forall in E. apply E in Hn. cbv zeta in Hn.
  apply orb_true_iff in Hn as [Hn|Hn]; zbool; [done|].
  subst p. split; [|done]. apply list_elem_of_In. by eapply bool_decide_eq_true.
Qed.

(** The size after a size of the table. *)
Lemma next_size l n : sizes_ok l -> In n l -> n <> 0 -> size_from l (n + 1) <> 0 -> n + 2 <= size_from l (n + 1).
Proof.
  intros Hl Hn H0 Hm.
  assert (E : forallb (fun n => (n =? 0) || ((size_from l (n + 1) =? 0) || (n + 2 <=? size_from l (n + 1)))) l = true)
    by (destruct Hl as [-> | ->]; vm_compute; reflexivity).
  rewrite forallb_forall in E. apply E in Hn. apply orb_true_iff in Hn as [Hn|Hn]; zbool; [done|].
  apply orb_true_iff in Hn as [Hn|Hn]; zbool; [done|lia].
Qed.

Section Sized.
Context {K I : Type} `{HL : hash_laws K I} (ht_sizes : list Z) (Hsizes : sizes_ok ht_sizes).

(** A table between two operations. *)
Record ht_ok (t : table K) : Prop := {
  ok_core : ht_core t;
  ok_size : In (ht_size t) ht_sizes;
  ok_initial : In (ht_initial_size t) ht_sizes /\ ht_initial_size t <> 0;
  ok_exp : ht_exp_trigger t = ht_size t / 2 \/ ht_exp_trigger t = ht_size t;
  ok_cmp : 0 <= ht_cmp_trigger t <= ht_size t;
  ok_room : ht_count t < ht_size t \/ ht_exp_trigger t = ht_size t;
  ok_active : ht_active t = true
}.

Lemma size_bound n : In n ht_sizes -> 0 <= n <= 1610612741.
Proof.
  intros Hn. apply (sizes_in ht_sizes n Hsizes) in Hn.
  assert (E : forallb (fun n => (0 <=? n) && (n <=? 1610612741)) extended_ht_sizes = true) by (vm_compute; reflexivity).
  rewrite forallb_forall in E. apply E in Hn. zbool. lia.
Qed.

Lemma new_size_spec minsize t :
  ht_ok t -> 0 <= minsize < 4294967296 ->
  let n := new_size ht_sizes minsize (Some t) in
  In n ht_sizes /\ (n <> 0 -> minsize <= n \/ ht_size t < 8 * n /\ minsize <= ht_size t / 2).
Proof.
  intros Ht Hm n. unfold n, new_size, uint. rewrite Z.mod_small by lia.
  pose proof (core_size t (ok_core t Ht)). destruct (Z.ltb_spec (ht_size t / 2) minsize).
  - destruct (size_from_spec ht_sizes minsize (sizes_zero _ Hsizes)) as [Hin Hle]. split; [done|]. intros Hn. left. by apply Hle.
  - destruct (prior_spec ht_sizes (ht_size t) Hsizes (ok_size t Ht)) as (Hin & Hp0 & Hpn & Hp8); [lia|].
    destruct (ok_initial t Ht) as [Hi Hi0]. cbv zeta.
    destruct (Z.ltb_spec (ht_initial_size t) (prior_size (hd 0 ht_sizes) (tl ht_sizes) (ht_size t))).
    + split; [done|]. intros _. right. lia.
    + split; [done|]. intros _. right. lia.
Qed.

(** The spare base is not part of what a table holds. *)
Lemma spare_core t b n : ht_core t -> ht_core (set_spare t b n).
Proof.
  intros Ht. constructor; try apply Ht.
Qed.

(** [EXPAND_HASHTAB] to a size with room. *)
Lemma expand_spec alloc t minsize :
  ht_ok t -> 0 <= minsize < 4294967296 ->
  (new_size ht_sizes minsize (Some t) <> 0 -> ht_count t < new_size ht_sizes minsize (Some t)) ->
  exists t' places err, EXPAND_HASHTAB ht_sizes alloc t minsize = Ok (t', places, err) /\
    match err with
    | None => ht_ok t' /\ ht_count t' = ht_count t /\ same_entries t t' /\
        ht_size t' = new_size ht_sizes minsize (Some t) /\ ht_initial_size t' = ht_initial_size t /\
        ht_exp_trigger t' = ht_size t' / 2 /\ ht_dont_compact t' = ht_dont_compact t /\
        (0 < ht_count t -> forall i e, entry t i = Some e -> HTENT_VALID e = true ->
           exists i', places !! Z.to_nat i = Some (Some i') /\ entry t' i' = Some e)
    | Some err => (err = ERR_HTOFLOW /\ new_size ht_sizes minsize (Some t) = 0 \/ err = ERR_MEMORY /\ alloc = false) /\
        exists b n, t' = set_spare t b n
    end.
Proof.
  intros Ht Hm Hroom. destruct (new_size_spec minsize t Ht Hm) as [Hin _]. unfold EXPAND_HASHTAB, INIT_HASHTAB_INTL.
  set (n := new_size ht_sizes minsize (Some t)) in *. destruct (Z.eqb_spec n 0) as [Hn|Hn].
  { exists t, [], (Some ERR_HTOFLOW). split; [done|]. split; [by left|]. exists (ht_spare t), (ht_spare_size t). by destruct t. }
  destruct (take_spare t n) as [told taken] eqn:Etake.
  assert (Htold : exists b s, told = set_spare t b s).
  { unfold take_spare in Etake. assert (Hid : t = set_spare t (ht_spare t) (ht_spare_size t)) by (by destruct t).
    destruct (ht_dont_keep_spare t); [injection Etake as <- <-; eauto|].
    destruct (ht_spare_size t =? n); [injection Etake as <- <-; eauto|].
    destruct (ht_spare t); injection Etake as <- <-; eauto. }
  destruct Htold as (b & sp & ->). destruct (taken || alloc) eqn:Ealloc; cycle 1.
  { exists (set_spare t b sp), [], (Some ERR_MEMORY). split; [done|]. apply orb_false_iff in Ealloc as [_ ->].
    split; [by right|]. eauto. }
  simpl. set (new := clear_table n _ _ _ _). pose proof (ok_core t Ht) as Hc.
  assert (Hpn : Z.prime n) by (apply (size_prime ht_sizes); done).
  destruct (clear_core n (ht_initial_size t) (ht_dont_compact t) (ht_dont_keep_spare t) (ht_defer_release t) Hpn)
    as (Hnew & Hnc & Hnv). fold new in Hnew, Hnc, Hnv.
  (* The moved table, whether or not there was anything to move. *)
  assert (Hmove : exists new' places,
     (if 0 <? ht_count t then move_entries (ht_base t) new else Ok (new, [])) = Ok (new', places) /\
     ht_core new' /\ params new' = params new /\ ht_count new' = ht_count t /\ same_entries t new' /\
     (0 < ht_count t -> forall i e, entry t i = Some e -> HTENT_VALID e = true ->
        exists i', places !! Z.to_nat i = Some (Some i') /\ entry new' i' = Some e)).
  { destruct (Z.ltb_spec 0 (ht_count t)) as [Hpos|Hzero].
    - destruct (move_spec (ht_base t) new Hnew) as (new' & places & -> & Hn' & Hp' & Hc' & Hpl & Hkeep & Hfrom).
      + intros e He. apply list_elem_of_lookup in He as [j Ej]. apply (core_slots t Hc (Z.of_nat j)).
        unfold entry. replace (Z.of_nat j <? 0) with false by (symmetry; apply Z.ltb_ge; lia). by rewrite Nat2Z.id.
      + intros j k e e' Ej Ek V V' Hid.
        assert (Z.of_nat j = Z.of_nat k); [|lia].
        apply (core_unique t Hc _ _ e e'); try done; unfold entry;
          (match goal with |- context [?x <? 0] => replace (x <? 0) with false by (symmetry; apply Z.ltb_ge; lia) end);
          by rewrite Nat2Z.id.
      + intros e j e' _ _ E V. by rewrite (Hnv j e' E) in V.
      + rewrite Hnc, <- (core_count t Hc). simpl. specialize (Hroom Hn). lia.
      + exists new', places. split; [done|]. split; [done|]. split; [done|]. rewrite Hc', Hnc, (core_count t Hc).
        split; [lia|]. split.
        * intros e V. split.
          -- intros [i Ei]. apply entry_lookup in Ei as [Ei _]. specialize (Hpl _ _ Ei). rewrite V in Hpl.
             destruct Hpl as (i' & _ & E'). eauto.
          -- intros [i Ei]. destruct (Hfrom i e Ei V) as [E0|Hin']; [by rewrite (Hnv i e E0) in V|].
             apply list_elem_of_lookup in Hin' as [j Ej]. exists (Z.of_nat j). unfold entry.
             replace (Z.of_nat j <? 0) with false by (symmetry; apply Z.ltb_ge; lia). by rewrite Nat2Z.id.
        * intros _ i e Ei V. apply entry_lookup in Ei as [Ei _]. specialize (Hpl _ _ Ei). by rewrite V in Hpl.
    - exists new, []. pose proof (core_counts t Hc) as (Hc0 & _). assert (Ez : ht_count t = 0) by lia.
      split; [done|]. split; [done|]. split; [done|]. split; [lia|]. split; [|lia]. intros e V. split.
      + intros [i Ei]. exfalso. rewrite (core_count t Hc) in Ez. apply entry_lookup in Ei as [Ei _].
        pose proof (cnt_insert HTENT_VALID _ _ e zero_ent Ei) as Hci. pose proof (cnt_nonneg HTENT_VALID (<[Z.to_nat i:=zero_ent]> (ht_base t))).
        rewrite V, (valid_eq zero_ent), (proj1 law_zero) in Hci. simpl in Hci. lia.
      + intros [i Ei]. by rewrite (Hnv i e Ei) in V. }
  destruct Hmove as (new' & places & -> & Hn' & Hp' & Hc' & Hsame & Hpl). cbn [mbind res_bind].
  set (t' := if ht_dont_keep_spare t then _ else _). assert (Ht' : exists b' s', t' = set_spare new' b' s').
  { unfold t'. destruct (ht_dont_keep_spare t); eauto. }
  destruct Ht' as (b' & s' & Ht'). exists t', places, None. split; [done|]. rewrite Ht'.
  unfold params in Hp'. injection Hp' as P1 P2 P3 P4 P5 P6 P7.
  assert (E2 : Z.quot (n * HT_LOAD_FACTOR) 100 = n / 2) by (change HT_LOAD_FACTOR with 50; rewrite Z.quot_div_nonneg by (destruct Hpn; lia); Z.to_euclidean_division_equations; lia).
  assert (E4 : 0 <= Z.quot (n * HT_REHASH_FACTOR) 100 <= n) by (change HT_REHASH_FACTOR with 25; destruct Hpn; rewrite Z.quot_div_nonneg by lia; Z.to_euclidean_division_equations; lia).
  split; [|simpl; rewrite P1, P2, P3, E2, P5; done].
  constructor; simpl; rewrite ?P1, ?P2, ?P3, ?P4, ?P7; try done.
  - by apply spare_core.
  - apply Ht.
  - rewrite E2. by left.
  - left. rewrite Hc'. by apply Hroom.
Qed.

(** * Operations of callers *)

Lemma ok_params t t' :
  ht_ok t -> ht_core t' -> params t' = params t ->
  (ht_count t' < ht_size t \/ ht_exp_trigger t = ht_size t) -> ht_ok t'.
Proof.
  intros Ht Hc Hp Hr. unfold params in Hp. injection Hp as P1 P2 P3 P4 P5 P6 P7.
  constructor; rewrite ?P1, ?P2, ?P3, ?P4, ?P7; try apply Ht; done.
Qed.

Lemma triggers_core (t : table K) e c : ht_core t -> ht_core (set_triggers t e c).
Proof. intros Ht. constructor; apply Ht. Qed.

Lemma holds_updated t t' i key v e0 x w :
  updated t t' i (mk_ent key v) -> key_ok key v -> entry t i = Some e0 -> HTENT_VALID e0 = false ->
  holds t' x w <-> (x = key_id key /\ w = v) \/ holds t x w.
Proof.
  intros Hu Hk E0 V0. pose proof (entry_range t i e0 E0). split.
  - intros (j & e & E & V & Hx & Hw). pose proof (entry_range t' j e E). rewrite (upd_entry _ _ _ _ Hu) in E by lia.
    destruct (i =? j); [injection E as <-; by left|]. right. by exists j, e.
  - intros [[-> ->]|(j & e & E & V & Hx & Hw)].
    + exists i, (mk_ent key v). rewrite (upd_entry _ _ _ _ Hu), Z.eqb_refl by lia.
      split; [done|]. split; [by apply ok_valid|done].
    + exists j, e. pose proof (entry_range t j e E). rewrite (upd_entry _ _ _ _ Hu) by lia.
      destruct (Z.eqb_spec i j) as [<-|]; [congruence|done].
Qed.

Lemma holds_same_slots t t' x w : (forall j, entry t' j = entry t j) -> holds t' x w <-> holds t x w.
Proof. intros He. split; intros (j & e & E & Hr); exists j, e; by rewrite He in *. Qed.

(** The result of an addition to a table with the contents of [t]. *)
Definition added_to (t t' : table K) (key : K) (v i : Z) (added : bool) : Prop :=
  ht_ok t' /\ ht_count t' = ht_count t + Z.b2z added /\
  (exists e, entry t' i = Some e /\ HTENT_VALID e = true /\ key_id (e_key e) = key_id key) /\
  if added then (forall w, ~ holds t (key_id key) w) /\ entry t' i = Some (mk_ent key v) /\
    forall x w, holds t' x w <-> (x = key_id key /\ w = v) \/ holds t x w
  else (exists w, holds t (key_id key) w) /\ forall x w, holds t' x w <-> holds t x w.

Lemma add_search_added t key v :
  ht_ok t -> key_ok key v -> ht_count t < ht_size t ->
  ht_count t + 1 < ht_size t \/ ht_exp_trigger t = ht_size t ->
  exists t' i added, add_search t key v = Ok (t', i, added) /\ added_to t t' key v i added.
Proof.
  intros Ht Hk Hroom Hnext.
  destruct (add_search_spec t key v (ok_core t Ht) Hk Hroom) as (t' & i & added & E & Hc & Hp & Hadd).
  exists t', i, added. split; [done|]. destruct added.
  - destruct Hadd as (Habs & Hu & Hcnt & e0 & E0 & V0). pose proof (entry_range t i e0 E0).
    assert (Ei : entry t' i = Some (mk_ent key v)) by (rewrite (upd_entry _ _ _ _ Hu), Z.eqb_refl by lia; done).
    split; [eapply ok_params; try done; rewrite Hcnt; destruct Hnext; [left; lia|by right]|].
    split; [done|]. split; [eexists; split; [exact Ei|split; [by apply ok_valid|done]]|]. split; [|split; [done|]].
    + intros w (j & e & Ej & V & Hx & _). by apply (Habs j e).
    + intros x w. by eapply holds_updated.
  - destruct Hadd as (Hent & Hcnt & e & Ee & V & Hid).
    split; [eapply ok_params; try done; rewrite Hcnt; by left|].
    split; [simpl; lia|]. split; [exists e; by rewrite Hent|]. split; [by exists (e_value e), i, e|]. intros x w. by apply holds_same_slots.
Qed.

(** [ADD_HASHTAB] fails only for a full table that cannot grow. *)
Lemma add_spec alloc t key v :
  ht_ok t -> key_ok key v ->
  match ADD_HASHTAB ht_sizes alloc t key v with
  | Ok (t', i, added) => added_to t t' key v i added
  | Err err => ht_count t = ht_size t /\
      (err = ERR_HTOFLOW /\ size_from ht_sizes (ht_size t + 1) = 0 \/ err = ERR_MEMORY /\ alloc = false)
  end.
Proof.
  intros Ht Hk. unfold ADD_HASHTAB. pose proof (ok_core t Ht) as Hc. pose proof (core_size t Hc) as Hs.
  pose proof (core_counts t Hc) as Hcnt. pose proof (size_bound (ht_size t) (ok_size t Ht)) as Hb.
  assert (Hhalf : ht_size t / 2 + 1 <= ht_size t) by (Z.to_euclidean_division_equations; lia).
  assert (Hsize2 : 13 <= ht_size t).
  { pose proof (sizes_in ht_sizes _ Hsizes (ok_size t Ht)) as Hin.
    assert (E : forallb (fun n => (n =? 0) || (13 <=? n)) extended_ht_sizes = true) by (vm_compute; reflexivity).
    rewrite forallb_forall in E. apply E, orb_true_iff in Hin as [?|?]; zbool; lia. }
  destruct (Z.leb_spec (ht_exp_trigger t) (ht_count t)) as [Hfull|Hfew]; cycle 1.
  { cbn [mbind res_bind]. assert (Hr : ht_count t < ht_size t) by (destruct (ok_exp t Ht); lia).
    destruct (add_search_added t key v Ht Hk Hr) as (t' & i & added & -> & Ha); [|done].
    destruct (ok_exp t Ht) as [E|E]; [left|by right]. Z.to_euclidean_division_equations; lia. }
  assert (Hn : new_size ht_sizes (ht_size t + 1) (Some t) = size_from ht_sizes (ht_size t + 1)).
  { unfold new_size, uint. rewrite Z.mod_small by lia.
    by replace (ht_size t / 2 <? ht_size t + 1) with true by (symmetry; apply Z.ltb_lt; lia). }
  destruct (size_from_spec ht_sizes (ht_size t + 1) (sizes_zero _ Hsizes)) as [_ Hle].
  destruct (expand_spec alloc t (ht_size t + 1) Ht) as (t1 & places & err & -> & Hx); [lia|rewrite Hn; intros Hnz; specialize (Hle Hnz); lia|].
  cbn [mbind res_bind]. destruct err as [err|].
  - destruct Hx as (Herr & b & n & ->). simpl. rewrite Hn in Herr.
    destruct (Z.leb_spec (ht_size t) (ht_exp_trigger t)) as [Hge|Hlt].
    + cbn [mbind res_bind]. split; [destruct (ok_exp t Ht); lia|]. destruct Herr as [[-> ?]|[-> ?]]; [by left|by right].
    + cbn [mbind res_bind]. set (t1 := set_triggers _ _ _).
      assert (Ht1 : ht_ok t1).
      { constructor; simpl; try apply Ht; [by apply triggers_core, spare_core|by right|by right]. }
      assert (Hroom : ht_count t1 < ht_size t1) by (simpl; destruct (ok_room t Ht); lia).
      destruct (add_search_added t1 key v Ht1 Hk Hroom) as (t' & i & added & -> & Ha); [by right|]. done.
  - destruct Hx as (Ht1 & Hc1 & Hsame & Hs1 & _ & Hexp1 & _). rewrite Hn in Hs1. cbn [mbind res_bind].
    assert (Hnz : size_from ht_sizes (ht_size t + 1) <> 0).
    { rewrite <- Hs1. pose proof (core_size t1 (ok_core t1 Ht1)). lia. }
    pose proof (next_size ht_sizes (ht_size t) Hsizes (ok_size t Ht) ltac:(lia) Hnz) as Hle2. rewrite <- Hs1 in Hle2.
    destruct (add_search_added t1 key v Ht1 Hk) as (t' & i & added & -> & Hok & Hct & He & Ha); [lia|left; lia|].
    split; [done|]. split; [by rewrite <- Hc1|]. split; [done|]. pose proof (same_entries_holds t t1) as Hh. destruct added.
    + destruct Ha as (H1 & H2 & H3). split; [intros w Hw; by apply (H1 w), Hh|]. split; [done|].
      intros x w. rewrite H3, (Hh x w Hsame). done.
    + destruct Ha as ((w & Hw) & H3). split; [exists w; by apply Hh|]. intros x w'. rewrite H3, (Hh x w' Hsame). done.
Qed.

(** [COMPACT_HASHTAB] of a table that is not full. *)
Lemma compact_spec alloc t :
  ht_ok t -> ht_count t < ht_size t ->
  exists t', COMPACT_HASHTAB ht_sizes alloc t = Ok t' /\ ht_ok t' /\ same_entries t t' /\ ht_count t' = ht_count t.
Proof.
  intros Ht Hroom. unfold COMPACT_HASHTAB. destruct (ht_dont_compact t); simpl; [by exists t|].
  pose proof (ok_core t Ht) as Hc. pose proof (core_counts t Hc) as Hcnt. pose proof (core_size t Hc).
  pose proof (size_bound (ht_size t) (ok_size t Ht)) as Hb. unfold HT_REHASH_TABLE_SIZE.
  set (m := ht_size t `min` (ht_count t * 4)). assert (Hm : 0 <= m < 4294967296) by lia.
  destruct (new_size_spec m t Ht Hm) as [_ Hn].
  destruct (expand_spec alloc t m Ht Hm) as (t1 & places & err & -> & Hx).
  { intros Hnz. destruct (Hn Hnz) as [Hle|[H8 Hle]]; [|].
    - destruct (Z.eq_dec (ht_count t) 0); [|lia]. destruct (new_size_spec m t Ht Hm) as [Hin _].
      pose proof (size_bound _ Hin). lia.
    - assert (m = ht_count t * 4).
      { unfold m in *. assert (ht_size t / 2 < ht_size t) by (apply Z.div_lt; lia). lia. }
      Z.to_euclidean_division_equations. lia. }
  cbn [mbind res_bind]. destruct err as [err|].
  - destruct Hx as (_ & b & n & ->). eexists. split; [done|]. split; [|done].
    constructor; simpl; try apply Ht; [by apply triggers_core, spare_core|lia].
  - destruct Hx as (Ht1 & Hc1 & Hsame & _). eauto.
Qed.

(** [DELETE_HASHTAB]. *)
Lemma delete_spec alloc t key :
  ht_ok t ->
  exists t' deleted, DELETE_HASHTAB ht_sizes alloc t key = Ok (t', deleted) /\ ht_ok t' /\ ht_count t' = ht_count t - Z.b2z deleted /\
    (if deleted : bool then exists w, holds t (key_id key) w else forall w, ~ holds t (key_id key) w) /\
    forall x w, holds t' x w <-> holds t x w /\ x <> key_id key.
Proof.
  intros Ht. pose proof (ok_core t Ht) as Hc. unfold DELETE_HASHTAB. rewrite probe_visits by apply Hc.
  destruct (stop_exists t key (slots (ht_size t) (FIND_HASH key))) as (l1 & r & Hs & Hp); [eauto using slots_in_table|].
  assert (Hskip : forall i, i ∈ l1 -> RETURN_IF_DELETED ht_sizes alloc key t i = Ok (t, None)).
  { intros i Hi. rewrite Forall_forall in Hp. destruct (Hp i Hi) as (e & E & Hne & Hd). unfold RETURN_IF_DELETED.
    rewrite E. cbn [res_of mbind res_bind]. rewrite Hne. destruct Hd as [-> | [-> ->]]; done. }
  pose proof (stop_absent t key l1 r Hc Hs Hp) as Habs.
  assert (Hnone : (forall i, r <> Some (i, false)) -> (forall w, ~ holds t (key_id key) w) /\
     forall x w, holds t x w <-> holds t x w /\ x <> key_id key).
  { intros Hr. assert (Hno : forall w, ~ holds t (key_id key) w).
    { intros w (j & e & Ej & V & Hx & _). by apply (Habs Hr j e). }
    split; [done|]. intros x w. split; [|by intros [? _]]. intros Hw. split; [done|]. intros ->. by apply (Hno w). }
  destruct Hs as [l|l i l2 e E1 E2|l i l2 e E1 E2 E3 E4].
  - rewrite <- (app_nil_r l), visit_all_skip by done. exists t, false. split; [done|]. split; [done|]. split; [simpl; lia|]. by apply Hnone.
  - rewrite visit_all_skip by done. cbn [visit_all]. unfold RETURN_IF_DELETED. rewrite E1. cbn [res_of mbind res_bind].
    rewrite E2. exists t, false. split; [done|]. split; [done|]. split; [simpl; lia|]. by apply Hnone.
  - rewrite visit_all_skip by done. cbn [visit_all]. unfold RETURN_IF_DELETED. rewrite E1. cbn [res_of mbind res_bind].
    rewrite E2, E3, E4. simpl andb. cbv iota. assert (V : HTENT_VALID e = true) by (by rewrite valid_eq, E2, E3).
    rewrite law_match in E4. apply bool_decide_eq_true in E4.
    destruct (delete_core t i e Hc E1 V) as (t2 & -> & Hc2 & Hp2 & Hcnt & Hother & e2 & Ee2 & V2). cbn [mbind res_bind].
    pose proof (core_counts t Hc) as Hcc. pose proof (params_size _ _ Hp2) as Hs2.
    assert (Ht2 : ht_ok t2) by (eapply ok_params; [exact Ht|done|done|left; lia]).
    assert (Hholds : forall x w, holds t2 x w <-> holds t x w /\ x <> key_id key).
    { intros x w. split.
      - intros (j & e' & Ej & V' & Hx & Hw). pose proof (entry_range t2 j e' Ej).
        destruct (Z.eq_dec j i) as [->|Hji]; [congruence|]. rewrite Hother in Ej by lia.
        split; [by exists j, e'|]. intros ->. apply Hji. apply (core_unique t Hc j i e' e); congruence.
      - intros [(j & e' & Ej & V' & Hx & Hw) Hne]. pose proof (entry_range t j e' Ej). exists j, e'.
        rewrite Hother; [done|lia|]. intros ->. congruence. }
    assert (Hyes : exists w, holds t (key_id key) w) by (by exists (e_value e), i, e).
    destruct (COMPACT_NEEDED t2).
    + destruct (compact_spec alloc t2 Ht2) as (t3 & -> & Ht3 & Hsame & Hc3); [lia|]. exists t3, true. split; [done|]. split; [done|].
      split; [by rewrite Hc3|]. split; [done|]. intros x w. by rewrite <- (same_entries_holds t2 t3).
    + exists t2, true. done.
Qed.

(** [REINITIALIZE_HASHTAB]: an empty table of the same size. *)
Lemma reinitialize_spec t : ht_ok t -> ht_ok (REINITIALIZE_HASHTAB t) /\ ht_count (REINITIALIZE_HASHTAB t) = 0 /\
  forall x w, ~ holds (REINITIALIZE_HASHTAB t) x w.
Proof.
  intros Ht. pose proof (ok_core t Ht) as Hc. pose proof (core_size t Hc) as Hs.
  destruct (clear_core (ht_size t) (ht_initial_size t) (ht_dont_compact t) (ht_dont_keep_spare t) (ht_defer_release t)
              (core_prime t Hc)) as (Hclear & Hcz & Hcv).
  set (c := clear_table _ _ _ _ _) in *. set (t' := REINITIALIZE_HASHTAB t).
  assert (Hb : ht_base t' = ht_base c) by done.
  assert (Hent : forall i, entry t' i = entry c i) by done.
  assert (Hno : forall x w, ~ holds t' x w) by (intros x w (i & e & E & V & _); rewrite Hent in E; by rewrite (Hcv i e E) in V).
  assert (Hlen : ht_size t / 8 + 1 <= zlen (ht_passed t)).
  { destruct (core_passed t Hc) as [_ ->]. unfold ROUND_UP. Z.to_euclidean_division_equations; lia. }
  split; [|by split]. assert (E2 : ht_exp_trigger t' = ht_size t / 2).
  { change (ht_exp_trigger t') with (Z.quot (ht_size t * 50) 100). rewrite Z.quot_div_nonneg by lia.
    Z.to_euclidean_division_equations; lia. }
  assert (E4 : 0 <= ht_cmp_trigger t' <= ht_size t).
  { change (ht_cmp_trigger t') with (Z.quot (ht_size t * 25) 100). rewrite Z.quot_div_nonneg by lia.
    Z.to_euclidean_division_equations; lia. }
  constructor; [|apply Ht|apply Ht|by left|done|left; simpl; lia|done].
  constructor; rewrite ?Hb; try apply Hclear.
  - destruct (core_passed t Hc) as [Hpb Hpl]. simpl. change BITS_PER_UCHAR with 8. split.
    + apply Forall_app. split; [by apply Forall_replicate|by apply Forall_drop].
    + rewrite zlen_app. unfold zlen in *. rewrite length_replicate, length_drop. lia.
  - intros i e E V. rewrite Hent in E. by rewrite (Hcv i e E) in V.
Qed.

(** [INIT_HASHTAB]: an empty table, or the error of the size or the memory. *)
Lemma init_spec alloc minsize dont_compact dont_keep_spare :
  0 <= minsize < 2147483648 ->
  match INIT_HASHTAB ht_sizes alloc minsize dont_compact dont_keep_spare with
  | Ok t => ht_ok t /\ minsize <= ht_size t /\ ht_count t = 0 /\ forall x w, ~ holds t x w
  | Err err => err = ERR_HTOFLOW /\ size_from ht_sizes minsize = 0 \/ err = ERR_MEMORY /\ alloc = false
  end.
Proof.
  intros Hm. unfold INIT_HASHTAB, new_size, uint. rewrite Z.mod_small by lia.
  destruct (size_from_spec ht_sizes minsize (sizes_zero _ Hsizes)) as [Hin Hle]. set (n := size_from ht_sizes minsize) in *.
  destruct (Z.eqb_spec n 0) as [Hnz|Hnz]; [by left|]. destruct alloc; [|by right].
  assert (Hpn : Z.prime n) by (apply (size_prime ht_sizes); done). assert (H1 : 1 < n) by (by destruct Hpn).
  destruct (@clear_core K I _ _ _ _ n n dont_compact dont_keep_spare false Hpn) as (Hc & Hz & Hv).
  set (t := clear_table _ _ _ _ _) in *. split; [|split; [by apply Hle|split; [done|]]].
  - constructor; [done|done|done| | |left; simpl in *; lia|done].
    + left. change (ht_exp_trigger t) with (Z.quot (n * 50) 100). simpl. rewrite Z.quot_div_nonneg by lia.
      Z.to_euclidean_division_equations; lia.
    + change (ht_cmp_trigger t) with (Z.quot (n * 25) 100). simpl. rewrite Z.quot_div_nonneg by lia.
      Z.to_euclidean_division_equations; lia.
  - intros x w (i & e & E & V & _). by rewrite (Hv i e E) in V.
Qed.
End Sized.
