(* ===== verification/Hashmap.v ===== *)
(** The contract of a hash table: whatever its expansions, compactions and the
    order of its slots, a sequence of additions, lookups, deletions and
    reinitialisations answers as a finite map does.  The theorems are stated
    over the interface [hash_laws]; the expansions of the C file are its instances. *)

From stdpp Require Import base list numbers option tactics gmap.
From Stdlib Require Import ZArith Lia.
From S2P Require Import Prelude Bitmap Probe Hashtab.

Open Scope Z_scope.

Lemma size_from_reaches pre n post m :
  forallb (fun n => negb (n =? 0)) pre = true -> m <= n -> n <> 0 -> size_from (pre ++ n :: post) m <> 0.
Proof.
  intros Hp Hm Hn. induction pre as [|k pre IH]; simpl in Hp |- *.
  - by replace (negb (n =? 0) && (n <? m)) with false by (symmetry; apply andb_false_iff; right; apply Z.ltb_ge; lia).
  - zbool. destruct (negb (k =? 0) && (k <? m)); [by apply IH|done].
Qed.

(** * Sequences of operations *)

(** [alloc] tells whether an allocation of the operation succeeds. *)
Inductive op (K : Type) :=
| Add (alloc : bool) (key : K) (value : Z)
| Lookup (key : K)
| Delete (alloc : bool) (key : K)
| Reinitialize.
Arguments Add {K}.
Arguments Lookup {K}.
Arguments Delete {K}.
Arguments Reinitialize {K}.

Inductive reply :=
| RAdd (added : bool) (value : Z)
| RLookup (value : option Z)
| RDelete (deleted : bool)
| RUnit.

(** The table after an operation, and what the caller sees: the value of the
    entry an addition or a lookup points to. *)
Definition exec `{hash_key K} (ht_sizes : list Z) (t : table K) (o : op K) : res (table K * reply) :=
  match o with
  | Add alloc key value =>
      '(t, tabent, added) ← ADD_HASHTAB ht_sizes alloc t key value;
      e ← res_of (entry t tabent);
      Ok (t, RAdd added (e_value e))
  | Lookup key =>
      r ← LOOKUP_HASHTAB t key;
      match r with
      | Some tabent => e ← res_of (entry t tabent); Ok (t, RLookup (Some (e_value e)))
      | None => Ok (t, RLookup None)
      end
  | Delete alloc key => '(t, deleted) ← DELETE_HASHTAB ht_sizes alloc t key; Ok (t, RDelete deleted)
  | Reinitialize => Ok (REINITIALIZE_HASHTAB t, RUnit)
  end.

Fixpoint run `{hash_key K} (ht_sizes : list Z) (t : table K) (ops : list (op K)) : res (table K * list reply) :=
  match ops with
  | [] => Ok (t, [])
  | o :: ops' =>
      '(t, r) ← exec ht_sizes t o;
      '(t, l) ← run ht_sizes t ops';
      Ok (t, r :: l)
  end.

(** * The finite map *)

Section Spec.
Context {K I : Type} `{HL : hash_laws K I}.

Definition spec (m : gmap I Z) (o : op K) : gmap I Z * reply :=
  match o with
  | Add _ key value =>
      match m !! key_id key with
      | Some w => (m, RAdd false w)
      | None => (<[key_id key := value]> m, RAdd true value)
      end
  | Lookup key => (m, RLookup (m !! key_id key))
  | Delete _ key => (delete (key_id key) m, RDelete (bool_decide (is_Some (m !! key_id key))))
  | Reinitialize => (∅, RUnit)
  end.

Fixpoint spec_run (m : gmap I Z) (ops : list (op K)) : gmap I Z * list reply :=
  match ops with
  | [] => (m, [])
  | o :: ops' => let '(m, r) := spec m o in let '(m, l) := spec_run m ops' in (m, r :: l)
  end.

(** The pairs that a caller adds are usable, as the header of the C file asks. *)
Definition op_ok (o : op K) : Prop := match o with Add _ key value => key_ok key value | _ => True end.

(** The allocations of an operation succeed. *)
Definition op_alloc (o : op K) : bool := match o with Add alloc _ _ | Delete alloc _ => alloc | _ => true end.

(** * Refinement *)

Section Sizes.
Context (ht_sizes : list Z) (Hsizes : sizes_ok ht_sizes).

Record refines (t : table K) (m : gmap I Z) : Prop := {
  ref_ok : ht_ok ht_sizes t;
  ref_holds x v : m !! x = Some v <-> holds t x v
}.

Lemma refines_none t m x : refines t m -> (forall w, ~ holds t x w) -> m !! x = None.
Proof. intros Hr Hn. destruct (m !! x) as [w|] eqn:E; [|done]. by apply (ref_holds t m Hr), Hn in E. Qed.

(** One operation: the table and the map answer alike, unless an addition finds
    every slot in use and no way to grow. *)
Lemma exec_refines t m o :
  refines t m -> op_ok o ->
  match exec ht_sizes t o with
  | Ok (t', r) => refines t' (fst (spec m o)) /\ r = snd (spec m o) /\ ht_count t' <= ht_count t + 1
  | Err err => (exists alloc key value, o = Add alloc key value) /\ ht_count t = ht_size t /\
      (err = ERR_HTOFLOW /\ size_from ht_sizes (ht_size t + 1) = 0 \/ err = ERR_MEMORY /\ op_alloc o = false)
  end.
Proof.
  intros Hr Ho. pose proof (ref_ok t m Hr) as Ht. pose proof (ref_holds t m Hr) as Hm.
  destruct o as [alloc key v|key|alloc key|]; simpl in Ho |- *.
  - pose proof (add_spec ht_sizes Hsizes alloc t key v Ht Ho) as Ha.
    destruct (ADD_HASHTAB ht_sizes alloc t key v) as [[[t' i] added]|err]; [|split; [by eexists _, _, _|done] ]. cbn [mbind res_bind].
    destruct Ha as (Hok & Hc & (e & Ee & V & Hid) & Ha). rewrite Ee. cbn [res_of mbind res_bind].
    assert (Hcb : ht_count t' <= ht_count t + 1) by (rewrite Hc; destruct added; simpl; lia). destruct added.
    + destruct Ha as (Hno & Ei & Hh). rewrite (refines_none t m (key_id key) Hr Hno).
      rewrite Ee in Ei. injection Ei as ->. split; [|done]. constructor; [done|]. intros x w. rewrite Hh. simpl.
      rewrite lookup_insert_Some, <- Hm. split.
      * intros [[<- <-]|[_ E]]; [by left|by right].
      * intros [[-> ->]|E]; [by left|]. right. split; [|done]. intros <-. by apply (Hno w), Hm.
    + destruct Ha as ((w & Hw) & Hh). apply Hm in Hw as E. rewrite E.
      assert (Ev : e_value e = w).
      { apply (holds_fun t (key_id key)); [apply Ht| |done]. apply Hh. by exists i, e. }
      rewrite Ev. split; [|done]. constructor; [done|]. intros x w'. rewrite Hh. apply Hm.
  - destruct (lookup_spec t key (ok_core _ _ Ht)) as (r & -> & Hl). cbn [mbind res_bind]. destruct r as [i|].
    + destruct Hl as (e & Ee & V & Hid). rewrite Ee. cbn [res_of mbind res_bind].
      assert (E : m !! key_id key = Some (e_value e)) by (apply Hm; by exists i, e). rewrite E. split; [done|]. split; [done|lia].
    + rewrite (refines_none t m); [split; [done|split; [done|lia]]|done|]. intros w (j & e & Ej & V & Hx & _). by apply (Hl j e).
  - destruct (delete_spec ht_sizes Hsizes alloc t key Ht) as (t' & deleted & -> & Ht' & Hc & Hd & Hh). cbn [mbind res_bind].
    split; [|split; [|destruct deleted; simpl in Hc; lia]].
    + constructor; [done|]. intros x w. simpl. rewrite lookup_delete_Some, Hh, <- Hm. split; [intros [? ?]; by split|intros [? ?]; by split].
    + f_equal. destruct deleted.
      * destruct Hd as [w Hw]. apply Hm in Hw. rewrite Hw. by rewrite bool_decide_true.
      * rewrite (refines_none t m) by done. by rewrite bool_decide_false by apply is_Some_None.
  - destruct (reinitialize_spec ht_sizes t Ht) as (Ht' & Hc & Hn). split; [|split; [done|]].
    + constructor; [done|]. intros x v. simpl. rewrite lookup_empty. split; [done|]. intros Hh. by apply Hn in Hh.
    + pose proof (core_counts t (ok_core _ _ Ht)). simpl. lia.
Qed.

Lemma init_refines alloc minsize dont_compact dont_keep_spare t :
  0 <= minsize < 2147483648 -> INIT_HASHTAB ht_sizes alloc minsize dont_compact dont_keep_spare = Ok t ->
  refines t ∅ /\ ht_count t = 0.
Proof.
  intros Hm E. pose proof (init_spec ht_sizes Hsizes alloc minsize dont_compact dont_keep_spare Hm) as Hi.
  rewrite E in Hi. destruct Hi as (Ht & _ & Hc & Hn). split; [|done]. constructor; [done|].
  intros x v. rewrite lookup_empty. split; [done|]. intros Hh. by apply Hn in Hh.
Qed.

(** A run that fails does so at an addition to a full table. *)
Definition fails_at (t : table K) (m : gmap I Z) (ops : list (op K)) (err : error) : Prop :=
  exists ops1 alloc key value ops2 t1, ops = ops1 ++ Add alloc key value :: ops2 /\
    run ht_sizes t ops1 = Ok (t1, snd (spec_run m ops1)) /\ exec ht_sizes t1 (Add alloc key value) = Err err /\ ht_count t1 = ht_size t1 /\
    (err = ERR_HTOFLOW /\ size_from ht_sizes (ht_size t1 + 1) = 0 \/ err = ERR_MEMORY /\ alloc = false).

Lemma run_refines ops : forall t m,
  refines t m -> Forall op_ok ops ->
  match run ht_sizes t ops with
  | Ok (t', replies) => refines t' (fst (spec_run m ops)) /\ replies = snd (spec_run m ops)
  | Err err => fails_at t m ops err
  end.
Proof.
  induction ops as [|o ops IH]; intros t m Hr Ho; [done|]. apply Forall_cons in Ho as [Ho1 Ho]. cbn [run spec_run].
  pose proof (exec_refines t m o Hr Ho1) as He. destruct (exec ht_sizes t o) as [[t1 r]|err] eqn:Ex.
  - destruct He as (Hr1 & -> & _). cbn [mbind res_bind]. destruct (spec m o) as [m1 r1] eqn:Esp. simpl in Hr1.
    specialize (IH t1 m1 Hr1 Ho). destruct (run ht_sizes t1 ops) as [[t2 l]|err]; cbn [mbind res_bind].
    + destruct IH as [IH ->]. destruct (spec_run m1 ops) as [m2 l2]. done.
    + destruct IH as (ops1 & alloc & key & value & ops2 & t2 & -> & E1 & E2 & Hrest). exists (o :: ops1), alloc, key, value, ops2, t2.
      split; [done|]. split; [|done]. cbn [run spec_run]. rewrite Ex, Esp. cbn [mbind res_bind snd]. rewrite E1. cbn [mbind res_bind]. by destruct (spec_run m1 ops1).
  - cbn [mbind res_bind]. destruct He as ((alloc & key & value & ->) & Hc & Herr). exists [], alloc, key, value, ops, t. by repeat split.
Qed.

(** The largest size bounds the tables that cannot grow. *)
Lemma run_no_error max ops : forall t m,
  (forall n, In n ht_sizes -> n <> 0 -> size_from ht_sizes (n + 1) = 0 -> max <= n) ->
  refines t m -> Forall op_ok ops -> Forall (fun o => op_alloc o = true) ops ->
  ht_count t + zlen ops <= max ->
  exists t' replies, run ht_sizes t ops = Ok (t', replies).
Proof.
  induction ops as [|o ops IH]; intros t m Hmax Hr Ho Ha Hl; [by eexists _, _|].
  apply Forall_cons in Ho as [Ho1 Ho]. apply Forall_cons in Ha as [Ha1 Ha]. cbn [run]. rewrite zlen_cons in Hl.
  pose proof (zlen_nonneg ops). pose proof (exec_refines t m o Hr Ho1) as He. destruct (exec ht_sizes t o) as [[t1 r]|err].
  - destruct He as (Hr1 & _ & Hc). cbn [mbind res_bind].
    destruct (IH t1 _ Hmax Hr1 Ho Ha) as (t2 & l & ->); [lia|]. cbn [mbind res_bind]. by eexists _, _.
  - exfalso. pose proof (ref_ok t m Hr) as Ht. pose proof (core_size t (ok_core _ _ Ht)).
    destruct He as (_ & Hc & [[_ Hz]|[_ E]]); [|congruence].
    apply Hmax in Hz; [lia|apply (ok_size _ _ Ht)|lia].
Qed.
End Sizes.

(** * Properties *)

(** C9: a sequence of additions, lookups, deletions and reinitialisations on a
    new hash table gives the answers of a finite map, whatever expansions and
    compactions it causes and whichever allocations fail in them. It fails only
    at an addition, after the operations before it have given their answers,
    when every slot is in use, and with the error HTOFLOW, there being no larger
    size, or MEMORY, the allocation of the larger table having failed: a
    deletion whose compaction cannot get memory goes on, and no failed assertion
    or access outside the table is reached. *)
Theorem hashtab_refines ht_sizes alloc minsize dont_compact dont_keep_spare t ops :
  sizes_ok ht_sizes -> 0 <= minsize < 2147483648 ->
  INIT_HASHTAB ht_sizes alloc minsize dont_compact dont_keep_spare = Ok t -> Forall op_ok ops ->
  match run ht_sizes t ops with
  | Ok (_, replies) => replies = snd (spec_run ∅ ops)
  | Err err =>
      exists ops1 alloc key value ops2 t1, ops = ops1 ++ Add alloc key value :: ops2 /\
        run ht_sizes t ops1 = Ok (t1, snd (spec_run ∅ ops1)) /\ exec ht_sizes t1 (Add alloc key value) = Err err /\ ht_count t1 = ht_size t1 /\
        (err = ERR_HTOFLOW /\ size_from ht_sizes (ht_size t1 + 1) = 0 \/ err = ERR_MEMORY /\ alloc = false)
  end.
Proof.
  intros Hs Hm Hi Ho. destruct (init_refines ht_sizes Hs _ _ _ _ _ Hm Hi) as [Hr _].
  pose proof (run_refines ht_sizes Hs ops t ∅ Hr Ho) as H'. destruct (run ht_sizes t ops) as [[t' l]|err]; [apply H'|exact H'].
Qed.

(** C17: every table that a program reaches from a new one is well formed: the
    slots a search passes on its way to an entry are in use and marked as
    passed through, the counts are those of the slots, no key has two entries,
    and a table without room is one that has failed to grow. *)
Theorem hashtab_invariant ht_sizes alloc minsize dont_compact dont_keep_spare t ops t' replies :
  sizes_ok ht_sizes -> 0 <= minsize < 2147483648 ->
  INIT_HASHTAB ht_sizes alloc minsize dont_compact dont_keep_spare = Ok t -> Forall op_ok ops ->
  run ht_sizes t ops = Ok (t', replies) -> ht_ok ht_sizes t'.
Proof.
  intros Hs Hm Hi Ho E. destruct (init_refines ht_sizes Hs _ _ _ _ _ Hm Hi) as [Hr _].
  pose proof (run_refines ht_sizes Hs ops t ∅ Hr Ho) as H'. rewrite E in H'.
  destruct H' as [H' _]. exact (ref_ok _ _ _ H').
Qed.

(** C40: with the default sizes a program whose allocations succeed never sees
    an error in its first 54,244,103 operations: the table always grows. *)
Theorem hashtab_progress minsize dont_compact dont_keep_spare ops :
  0 <= minsize <= 54244103 -> Forall op_ok ops -> Forall (fun o => op_alloc o = true) ops -> zlen ops <= 54244103 ->
  exists t t' replies, INIT_HASHTAB default_ht_sizes true minsize dont_compact dont_keep_spare = Ok t /\
    run default_ht_sizes t ops = Ok (t', replies).
Proof.
  intros Hm Ho Ha Hl. assert (Hs : sizes_ok default_ht_sizes) by (by left).
  destruct (INIT_HASHTAB default_ht_sizes true minsize dont_compact dont_keep_spare) as [t|err] eqn:Hi.
  - destruct (init_refines _ Hs true minsize _ _ t ltac:(lia) Hi) as [Hr Hc]. exists t.
    destruct (run_no_error _ Hs 54244103 ops t ∅) as (t' & l & E); try done; [|lia|by exists t', l].
    intros n Hn Hn0 Hsz.
    assert (E : forallb (fun n => (n =? 0) || (negb (size_from default_ht_sizes (n + 1) =? 0) || (54244103 <=? n))) default_ht_sizes = true)
      by (vm_compute; reflexivity).
    rewrite forallb_forall in E. apply E in Hn. apply orb_true_iff in Hn as [Hn|Hn]; zbool; [done|].
    apply orb_true_iff in Hn as [Hn|Hn]; zbool; [done|lia].
  - exfalso. pose proof (init_spec _ Hs true minsize dont_compact dont_keep_spare ltac:(lia)) as Hsp. rewrite Hi in Hsp.
    destruct Hsp as [[_ H1]|[_ ?]]; [|done].
    change default_ht_sizes with (take 50 default_ht_sizes ++ 54244103 :: [0]) in H1.
    by destruct (size_from_reaches (take 50 default_ht_sizes) 54244103 [0] minsize); [vm_compute; reflexivity|lia..|].
Qed.

(** A table written to a buffer, as the compiler writes the table of a
    routine into its object code, and activated there has the entries and the
    bits of the original: it is well formed and looks up alike. *)
Theorem hashtab_buffer_roundtrip ht_sizes t :
  ht_ok ht_sizes t ->
  let t' := ACTIVATE_HASHTAB_IN_BUFFER (COPY_HASHTAB_TO_BUFFER t) in
  t' = set_spare t false (ht_spare_size t) /\ ht_ok ht_sizes t' /\
  forall key, LOOKUP_HASHTAB t' key = LOOKUP_HASHTAB t key.
Proof.
  intros Ht t'. pose proof (ok_core _ _ Ht) as Hc. destruct (core_passed t Hc) as [_ Hp].
  assert (E : t' = set_spare t false (ht_spare_size t)).
  { unfold t', ACTIVATE_HASHTAB_IN_BUFFER, COPY_HASHTAB_TO_BUFFER, set_active, set_spare. simpl.
    rewrite !take_ge; [by rewrite (ok_active _ _ Ht)| |].
    - change BITS_PER_UCHAR with 8. rewrite <- Hp. unfold zlen. lia.
    - rewrite <- (core_base t Hc). unfold zlen. lia. }
  split; [done|]. rewrite E. split; [|done]. constructor; try apply Ht. by apply spare_core.
Qed.
End Spec.

(** * The int4 table at work

    Forty keys of one residue collide on every table of 13 slots: two
    expansions; deletions then leave marks and compact the table. *)

Definition demo_ops : list (op Z) :=
  ((fun k => Add true (13 * k) (k + 1)) <$> seqZ 0 40) ++
  ((fun k => Delete true (13 * k)) <$> seqZ 0 30) ++ [Lookup 26; Lookup 500; Add true 507 9; Add true 26 9].

Definition demo_init : res (table Z) := @INIT_HASHTAB Z int4_key default_ht_sizes true 7 false false.

Definition demo_table : table Z :=
  match demo_init with Ok t => t | Err _ => @clear_table Z int4_key 0 0 false false false end.

Definition demo_run : res (table Z * list reply) := @run Z int4_key default_ht_sizes demo_table demo_ops.

Definition demo_end : table Z := match demo_run with Ok (t, _) => t | Err _ => demo_table end.

Definition demo_replies : list reply := match demo_run with Ok (_, l) => l | Err _ => [] end.

Lemma demo_ops_ok : Forall (@op_ok Z Z int4_key _ _ int4_laws) demo_ops.
Proof. repeat (constructor; [simpl; unfold int_pair_ok, HT_DELETED_ENTRY; lia || done|]). constructor. Qed.

Lemma demo_init_eq : demo_init = Ok demo_table.
Proof. vm_compute. reflexivity. Qed.

Lemma demo_run_eq : @run Z int4_key default_ht_sizes demo_table demo_ops = Ok (demo_end, demo_replies).
Proof. vm_compute. reflexivity. Qed.

#[local] Opaque demo_init demo_table demo_run demo_end demo_replies demo_ops.

Lemma hashtab_refines_witness :
  demo_init = Ok demo_table /\ demo_replies = snd (@spec_run Z Z int4_key _ _ int4_laws ∅ demo_ops).
Proof.
  split; [exact demo_init_eq|].
  pose proof (@hashtab_refines Z Z int4_key _ _ int4_laws default_ht_sizes true 7 false false demo_table demo_ops
                ltac:(by left) ltac:(lia) demo_init_eq demo_ops_ok) as H.
  rewrite demo_run_eq in H. exact H.
Defined.

Lemma hashtab_invariant_witness :
  demo_init = Ok demo_table /\ @ht_ok Z Z int4_key _ _ int4_laws default_ht_sizes demo_end.
Proof.
  split; [exact demo_init_eq|].
  exact (@hashtab_invariant Z Z int4_key _ _ int4_laws default_ht_sizes true 7 false false demo_table demo_ops demo_end
           demo_replies ltac:(by left) ltac:(lia) demo_init_eq demo_ops_ok demo_run_eq).
Defined.

Lemma hashtab_progress_witness :
  Forall (@op_ok Z Z int4_key _ _ int4_laws) demo_ops /\
  exists t t' replies, demo_init = Ok t /\ @run Z int4_key default_ht_sizes t demo_ops = Ok (t', replies).
Proof.
  split; [exact demo_ops_ok|].
  apply (@hashtab_progress Z Z int4_key _ _ int4_laws 7 false false demo_ops); [lia|exact demo_ops_ok| |].
  - apply Forall_forall. intros o Ho.
    assert (E : forallb op_alloc demo_ops = true) by (vm_compute; reflexivity).
    rewrite forallb_forall in E. by apply E, list_elem_of_In.
  - apply Z.leb_le. vm_compute. reflexivity.
Defined.

Lemma hashtab_buffer_roundtrip_witness :
  @ht_ok Z Z int4_key _ _ int4_laws default_ht_sizes demo_end /\
  forall key, @LOOKUP_HASHTAB Z int4_key (ACTIVATE_HASHTAB_IN_BUFFER (COPY_HASHTAB_TO_BUFFER demo_end)) key =
              @LOOKUP_HASHTAB Z int4_key demo_end key.
Proof.
  assert (Hok : @ht_ok Z Z int4_key _ _ int4_laws default_ht_sizes demo_end).
  { destruct (@init_refines Z Z int4_key _ _ int4_laws default_ht_sizes (or_introl eq_refl) true 7 false false demo_table
      ltac:(lia) demo_init_eq) as [Hr _].
    pose proof (@run_refines Z Z int4_key _ _ int4_laws default_ht_sizes (or_introl eq_refl) demo_ops demo_table _ Hr demo_ops_ok)
      as Hrun. rewrite demo_run_eq in Hrun. destruct Hrun as [Hrun _]. exact (@ref_ok Z Z int4_key _ _ int4_laws _ _ _ Hrun). }
  split; [exact Hok|].
  exact (proj2 (proj2 (@hashtab_buffer_roundtrip Z Z int4_key _ _ int4_laws default_ht_sizes demo_end Hok))).
Defined.
