(* ===== verification/Lvnode.v ===== *)
(** The nodes of the trees of local variables (lv_tree.h): their layout, the
    heap they live in, and the comparison of a key with a node (the macros
    LV_AVL_TREE_*KEY_CMP of lv_tree.c), which is the collating order of M:
    numbers by value, then strings, then $ZYSQLNULL. *)

From stdpp Require Import base list numbers option tactics gmap.
From Stdlib Require Import ZArith Lia.
From S2P Require Import Prelude Mval.

Open Scope Z_scope.

(** * Constants of mdef.h and lv_tree.h *)

Definition MV_CANONICAL : Z := 16.
Definition MV_EXT_NUM_MASK : Z := 19.
Definition NULL : Z := 0.
Definition TREE_DESCEND_LEFT : Z := 0.
Definition TREE_DESCEND_RIGHT : Z := 1.
Definition TREE_LEFT_HEAVY : Z := 0.
Definition TREE_RIGHT_HEAVY : Z := 1.
Definition TREE_BALANCED : Z := 2.

Definition TREE_IS_BALANCED (bal : Z) : bool := bal =? TREE_BALANCED.
Definition TREE_IS_NOT_BALANCED (bal : Z) : bool := negb (TREE_IS_BALANCED bal).

Definition tree_balance_invert : list Z := [TREE_RIGHT_HEAVY; TREE_LEFT_HEAVY; TREE_BALANCED].
Definition TREE_INVERT_BALANCE_FACTOR (bal : Z) : res Z := res_of (rd tree_balance_invert bal).

Definition TREE_KEY_SUBSCR_IS_CANONICAL (t : Z) : bool := negb (Z.land t MV_CANONICAL =? 0).
Definition MVTYPE_IS_INT (t : Z) : bool := negb (Z.land t MV_INT =? 0).
Definition MVTYPE_IS_STRING (t : Z) : bool := negb (Z.land t MV_STR =? 0).
Definition MVTYPE_IS_SQLNULL (t : Z) : bool := negb (Z.land t MV_SQLNULL =? 0).

(** * The node

    lvTreeNodeNum and lvTreeNode are one record: the key of a number is in
    [key_sgn], [key_e], [key_iconv], [key_m0] and [key_m1], that of a string in
    [key_str] (key_addr and key_len).  The value [v] is a cell of its own. *)

Record lvTreeNode := mk_node {
  nd_v : mval; sbs_child : Z; tree_parent : Z;
  key_mvtype : Z; balance : Z; descent_dir : Z;
  key_sgn : Z; key_e : Z; key_iconv : bool; key_m0 : Z; key_m1 : Z; key_str : list Z;
  avl_left : Z; avl_right : Z; avl_parent : Z
}.

Definition with_left (x : Z) (n : lvTreeNode) : lvTreeNode :=
  mk_node (nd_v n) (sbs_child n) (tree_parent n) (key_mvtype n) (balance n) (descent_dir n)
    (key_sgn n) (key_e n) (key_iconv n) (key_m0 n) (key_m1 n) (key_str n)
    x (avl_right n) (avl_parent n).
Definition with_right (x : Z) (n : lvTreeNode) : lvTreeNode :=
  mk_node (nd_v n) (sbs_child n) (tree_parent n) (key_mvtype n) (balance n) (descent_dir n)
    (key_sgn n) (key_e n) (key_iconv n) (key_m0 n) (key_m1 n) (key_str n)
    (avl_left n) x (avl_parent n).
Definition with_parent (x : Z) (n : lvTreeNode) : lvTreeNode :=
  mk_node (nd_v n) (sbs_child n) (tree_parent n) (key_mvtype n) (balance n) (descent_dir n)
    (key_sgn n) (key_e n) (key_iconv n) (key_m0 n) (key_m1 n) (key_str n)
    (avl_left n) (avl_right n) x.
Definition with_balance (x : Z) (n : lvTreeNode) : lvTreeNode :=
  mk_node (nd_v n) (sbs_child n) (tree_parent n) (key_mvtype n) x (descent_dir n)
    (key_sgn n) (key_e n) (key_iconv n) (key_m0 n) (key_m1 n) (key_str n)
    (avl_left n) (avl_right n) (avl_parent n).
Definition with_dir (x : Z) (n : lvTreeNode) : lvTreeNode :=
  mk_node (nd_v n) (sbs_child n) (tree_parent n) (key_mvtype n) (balance n) x
    (key_sgn n) (key_e n) (key_iconv n) (key_m0 n) (key_m1 n) (key_str n)
    (avl_left n) (avl_right n) (avl_parent n).
Definition with_key (t sg e : Z) (ic : bool) (a b : Z) (s : list Z) (n : lvTreeNode) : lvTreeNode :=
  mk_node (nd_v n) (sbs_child n) (tree_parent n) t (balance n) (descent_dir n)
    sg e ic a b s (avl_left n) (avl_right n) (avl_parent n).

(** Nodes by address; NULL and addresses that are not of a node are not read. *)
Abbreviation heap := (gmap Z lvTreeNode).

Definition deref (h : heap) (p : Z) : res lvTreeNode := res_of (h !! p).
Definition modify (f : lvTreeNode -> lvTreeNode) (p : Z) (h : heap) : res heap :=
  n ← deref h p; Ok (<[p := f n]> h).

(** * Key comparison *)

(** The floating form of an integer key, computed once, when first needed. *)
Definition lvAvlTreeNodeFltConv (n : lvTreeNode) : res lvTreeNode :=
  let int_m1 := key_m0 n in
  if negb (int_m1 =? 0) then
    let sg := if 0 <? int_m1 then 0 else 1 in
    int_m1 ← (if 0 <? int_m1 then Ok int_m1 else int4 (- int_m1));
    int_exp ← count_digits 11 int_m1 0;
    p ← ten_pwr (NUM_DEC_DG_1L - int_exp);
    m1 ← int4 (int_m1 * p);
    Ok (with_key (key_mvtype n) sg (int_exp + EXP_INT_UNDERF) true (key_m0 n) m1 (key_str n) n)
  else Ok (with_key (key_mvtype n) (key_sgn n) 0 true (key_m0 n) (key_m1 n) (key_str n) n).

(** The comparison of sign, exponent and mantissa that LV_AVL_TREE_INTKEY_CMP and
    LV_AVL_TREE_NUMKEY_CMP share; [b_int] is [b_mvtype & MV_INT]. *)
Definition flt_key_cmp (a : mval) (n : lvTreeNode) (b_int : bool) : res Z :=
  let a_sgn := if mv_sgn a =? 0 then 1 else -1 in
  let b_sgn := if key_sgn n =? 0 then 1 else -1 in
  if negb (a_sgn =? b_sgn) then Ok a_sgn
  else
    let exp_diff := mv_e a - key_e n in
    if negb (exp_diff =? 0) then Ok (exp_diff * a_sgn)
    else
      let a_m1 := mv_m1 a in
      m1_diff ← int4 (a_m1 - key_m1 n);
      if negb (m1_diff =? 0) then int4 (m1_diff * a_sgn)
      else if 0 =? a_m1 then Ok 0
      else
        let b_m0 := if b_int then 0 else key_m0 n in
        m0_diff ← int4 (mv_m0 a - b_m0);
        if negb (m0_diff =? 0) then int4 (m0_diff * a_sgn) else Ok 0.

(** Each comparison returns the sign of the key against the node, and the node,
    of which the floating form may have been filled in. *)
Definition LV_AVL_TREE_INTKEY_CMP (key_m1' : Z) (n : lvTreeNode) : res (Z * lvTreeNode) :=
  let b_mvtype := key_mvtype n in
  if MVTYPE_IS_INT b_mvtype then
    r ← int4 (key_m1' - key_m0 n); Ok (r, n)
  else if TREE_KEY_SUBSCR_IS_CANONICAL b_mvtype then
    let b_int := MVTYPE_IS_INT b_mvtype in
    flt ← promote (mk_mval 0 0 0 0 key_m1' []);
    n ← (if b_int && negb (key_iconv n) then lvAvlTreeNodeFltConv n else Ok n);
    r ← flt_key_cmp flt n b_int; Ok (r, n)
  else Ok (-1, n).

Definition LV_AVL_TREE_NUMKEY_CMP (key : mval) (n : lvTreeNode) : res (Z * lvTreeNode) :=
  let b_mvtype := key_mvtype n in
  if TREE_KEY_SUBSCR_IS_CANONICAL b_mvtype then
    let b_int := MVTYPE_IS_INT b_mvtype in
    n ← (if b_int && negb (key_iconv n) then lvAvlTreeNodeFltConv n else Ok n);
    r ← flt_key_cmp key n b_int; Ok (r, n)
  else Ok (-1, n).

(** memcmp: below, equal or above zero as the first difference. *)
Fixpoint memcmp (n : nat) (a b : list Z) : Z :=
  match n, a, b with
  | S n', x :: a', y :: b' => if x =? y then memcmp n' a' b' else x - y
  | _, _, _ => 0
  end.

Definition MEMVCMP (a b : list Z) : Z :=
  let '(minLen, retVal) :=
    if zlen a <? zlen b then (zlen a, -1)
    else if zlen b <? zlen a then (zlen b, 1)
    else (zlen a, 0) in
  let retVal2 := memcmp (Z.to_nat minLen) a b in
  if negb (retVal2 =? 0) then retVal2 else retVal.

Definition LV_AVL_TREE_STRKEY_CMP (key : mval) (n : lvTreeNode) : res (Z * lvTreeNode) :=
  let bNodeMvtype := key_mvtype n in
  if TREE_KEY_SUBSCR_IS_CANONICAL bNodeMvtype then Ok (1, n)
  else if negb (MVTYPE_IS_SQLNULL bNodeMvtype) then
    if negb (MVTYPE_IS_SQLNULL (mvtype key)) then Ok (MEMVCMP (mv_str key) (key_str n), n)
    else Ok (1, n)
  else Ok (if MVTYPE_IS_SQLNULL (mvtype key) then 0 else -1, n).

(** The comparison with a key of any type: lvAvlTreeLookup chooses among the three. *)
Definition key_cmp (key : mval) : lvTreeNode -> res (Z * lvTreeNode) :=
  if TREE_KEY_SUBSCR_IS_CANONICAL (mvtype key) then
    if MVTYPE_IS_INT (mvtype key) then LV_AVL_TREE_INTKEY_CMP (mv_m1 key)
    else LV_AVL_TREE_NUMKEY_CMP key
  else LV_AVL_TREE_STRKEY_CMP key.

(** LV_NODE_GET_KEY: the key of a node as a cell; [dst] is the cell written. *)
Definition LV_NUM_NODE_GET_KEY (n : lvTreeNode) (dst : mval) : mval :=
  if MVTYPE_IS_INT (key_mvtype n) then set_mvtype (key_mvtype n) (set_m1 (key_m0 n) dst)
  else mk_mval (key_mvtype n) (key_sgn n) (key_e n) (key_m0 n) (key_m1 n) (mv_str dst).

Definition LV_STR_NODE_GET_KEY (n : lvTreeNode) (dst : mval) : mval :=
  mk_mval (key_mvtype n) (mv_sgn dst) (mv_e dst) (mv_m0 dst) (mv_m1 dst) (key_str n).

Definition LV_NODE_GET_KEY (n : lvTreeNode) (dst : mval) : mval :=
  if TREE_KEY_SUBSCR_IS_CANONICAL (key_mvtype n) then
    let k := LV_NUM_NODE_GET_KEY n dst in
    set_mvtype (Z.land (mvtype k) (Z.lnot MV_CANONICAL)) k
  else LV_STR_NODE_GET_KEY n dst.

Definition LV_NODE_KEY_IS_STRING (n : lvTreeNode) : bool :=
  MVTYPE_IS_STRING (key_mvtype n) && negb (MVTYPE_IS_SQLNULL (key_mvtype n)).
Definition LV_NODE_KEY_IS_NULL_SUBS (n : lvTreeNode) : bool :=
  LV_NODE_KEY_IS_STRING n && (0 =? zlen (key_str n)).

(** The key fields of a new node (lvAvlTreeNodeInsert); those of the other
    layout keep what the slot [n] held. *)
Definition init_key (key : mval) (n : lvTreeNode) : lvTreeNode :=
  let t := mvtype key in
  if TREE_KEY_SUBSCR_IS_CANONICAL t then
    if MVTYPE_IS_INT t then
      with_key (Z.land t MV_EXT_NUM_MASK) (key_sgn n) (key_e n) false (mv_m1 key) (key_m1 n) (key_str n) n
    else
      with_key (Z.land t MV_EXT_NUM_MASK) (mv_sgn key) (mv_e key) (key_iconv n)
        (mv_m0 key) (mv_m1 key) (key_str n) n
  else
    with_key (if negb (MVTYPE_IS_SQLNULL t) then MV_STR else Z.lor MV_STR MV_SQLNULL)
      (key_sgn n) (key_e n) (key_iconv n) (key_m0 n) (key_m1 n) (mv_str key) n.

(** * What a key is *)

(** The collating order of M: numbers, strings, $ZYSQLNULL. *)
Inductive lkey := KNum (x : Z) | KStr (s : list Z) | KSqlnull.

Definition lkey_cmp (a b : lkey) : comparison :=
  match a, b with
  | KNum x, KNum y => x ?= y
  | KNum _, _ => Lt
  | _, KNum _ => Gt
  | KStr s, KStr t => lexcmp s t
  | KStr _, KSqlnull => Lt
  | KSqlnull, KStr _ => Gt
  | KSqlnull, KSqlnull => Eq
  end.

#[global] Instance lkey_eq_dec : EqDecision lkey.
Proof. solve_decision. Defined.

(** The key of a cell that lookup and insertion take: canonical numbers carry
    MV_CANONICAL, everything else is a string or $ZYSQLNULL. *)
Definition mval_key (key : mval) : lkey :=
  if TREE_KEY_SUBSCR_IS_CANONICAL (mvtype key) then KNum (num_value key)
  else if MVTYPE_IS_SQLNULL (mvtype key) then KSqlnull else KStr (mv_str key).

Definition mval_key_ok (key : mval) : Prop :=
  TREE_KEY_SUBSCR_IS_CANONICAL (mvtype key) = true -> num_ok key.

#[global] Instance mval_key_ok_dec key : Decision (mval_key_ok key).
Proof. unfold mval_key_ok. apply _. Defined.

Definition node_num (n : lvTreeNode) : mval :=
  mk_mval (key_mvtype n) (key_sgn n) (key_e n) (key_m0 n) (key_m1 n) [].

Definition node_key (n : lvTreeNode) : lkey :=
  if TREE_KEY_SUBSCR_IS_CANONICAL (key_mvtype n) then
    KNum (if MVTYPE_IS_INT (key_mvtype n) then key_m0 n * 10 ^ 57 else flt_value (node_num n))
  else if MVTYPE_IS_SQLNULL (key_mvtype n) then KSqlnull else KStr (key_str n).

(** The key types that insertion stores. *)
Definition T_INT : Z := 19.
Definition T_FLT : Z := 17.
Definition T_STR : Z := 4.
Definition T_NUL : Z := 32772.

(** The floating fields of an integer are those of its promoted form once
    [key_iconv] is set, and arbitrary before; the sign and the mantissa of
    zero stay arbitrary after. *)
Definition flt_fields (n : lvTreeNode) : Prop :=
  if key_m0 n =? 0 then key_e n = 0
  else
    key_sgn n = sgn_of (key_m0 n) /\
    match count_digits 11 (Z.abs (key_m0 n)) 0 with
    | Ok d => key_e n = 59 + d /\ key_m1 n = Z.abs (key_m0 n) * 10 ^ (9 - d)
    | Err _ => False
    end.

#[global] Instance flt_fields_dec n : Decision (flt_fields n).
Proof.
  unfold flt_fields. destruct (_ =? 0); [apply _|]. destruct (count_digits _ _ _); apply _.
Defined.

Definition key_ok (n : lvTreeNode) : Prop :=
  (key_mvtype n = T_INT /\ - MANT_HI < key_m0 n < MANT_HI /\ (key_iconv n = true -> flt_fields n)) \/
  (key_mvtype n = T_FLT /\ flt_form (node_num n)) \/
  key_mvtype n = T_STR \/ key_mvtype n = T_NUL.

#[global] Instance key_ok_dec n : Decision (key_ok n).
Proof. unfold key_ok. apply _. Defined.

(** Nodes that differ in their floating key fields only. *)
Definition same_node (n n' : lvTreeNode) : Prop :=
  nd_v n' = nd_v n /\ sbs_child n' = sbs_child n /\ tree_parent n' = tree_parent n /\
  key_mvtype n' = key_mvtype n /\
  balance n' = balance n /\ descent_dir n' = descent_dir n /\ key_str n' = key_str n /\
  avl_left n' = avl_left n /\ avl_right n' = avl_right n /\ avl_parent n' = avl_parent n /\
  node_key n' = node_key n.

(** * Lemmas: the order of keys *)

Lemma lkey_cmp_refl a : lkey_cmp a a = Eq.
Proof. destruct a; simpl; auto using Z.compare_refl, lexcmp_refl. Qed.

Lemma lkey_cmp_eq a b : lkey_cmp a b = Eq -> a = b.
Proof.
  destruct a, b; simpl; try done.
  - by intros ->%Z.compare_eq.
  - by intros ->%lexcmp_eq.
Qed.

Lemma lkey_cmp_antisym a b : lkey_cmp b a = CompOpp (lkey_cmp a b).
Proof. destruct a, b; simpl; auto using Z.compare_antisym, lexcmp_antisym. Qed.

Lemma lkey_cmp_trans a b c : lkey_cmp a b = Lt -> lkey_cmp b c = Lt -> lkey_cmp a c = Lt.
Proof.
  destruct a, b, c; simpl; try done.
  - rewrite !Z.compare_lt_iff. lia.
  - apply lexcmp_trans.
Qed.

Definition klt (a b : lkey) : Prop := lkey_cmp a b = Lt.

#[global] Instance klt_dec a b : Decision (klt a b).
Proof. unfold klt. solve_decision. Defined.

#[global] Instance klt_strict : StrictOrder klt.
Proof.
  split; [|exact lkey_cmp_trans]. intros a. unfold complement, klt. by rewrite lkey_cmp_refl.
Qed.

Lemma lkey_cmp_gt a b : lkey_cmp a b = Gt <-> klt b a.
Proof. unfold klt. rewrite (lkey_cmp_antisym a b). by destruct (lkey_cmp a b). Qed.

Lemma memcmp_lexcmp n a b :
  (memcmp n a b ?= 0) = lexcmp (take n a) (take n b) \/
  (length (take n a) <> length (take n b) /\ memcmp n a b = 0).
Proof.
  revert a b. induction n as [|n IH]; intros a b; [by left|].
  destruct a as [|x a], b as [|y b]; simpl; try (by left); try (right; split; [lia|done]).
  destruct (Z.eqb_spec x y) as [->|].
  - rewrite Z.compare_refl. destruct (IH a b) as [|[Hl ?]]; [by left|right]. split; [lia|done].
  - left. destruct (Z.compare_spec x y); [done|apply Z.compare_lt_iff; lia|apply Z.compare_gt_iff; lia].
Qed.

Lemma lexcmp_prefix n a b :
  lexcmp (take n a) (take n b) <> Eq -> lexcmp a b = lexcmp (take n a) (take n b) \/
  length (take n a) <> length (take n b).
Proof.
  revert a b. induction n as [|n IH]; intros a b; [done|].
  destruct a as [|x a], b as [|y b]; simpl; try done; try (by right).
  destruct (Z.compare_spec x y); try (by left). intros Hn. destruct (IH a b Hn) as [->|]; [by left|right; lia].
Qed.

Lemma lexcmp_app_l a b c : lexcmp (a ++ b) (a ++ c) = lexcmp b c.
Proof. induction a; simpl; [done|]. by rewrite Z.compare_refl. Qed.

Lemma MEMVCMP_spec a b : (MEMVCMP a b ?= 0) = lexcmp a b.
Proof.
  unfold MEMVCMP.
  set (m := Nat.min (length a) (length b)).
  assert (exists r, (if zlen a <? zlen b then (zlen a, -1)
      else if zlen b <? zlen a then (zlen b, 1) else (zlen a, 0)) = (Z.of_nat m, r) /\
      (r ?= 0) = (zlen a ?= zlen b)) as (r & -> & Hr).
  { unfold zlen, m. destruct (Z.ltb_spec (Z.of_nat (length a)) (Z.of_nat (length b))).
    { eexists; split; [f_equal; lia|]. symmetry. apply Z.compare_lt_iff. lia. }
    destruct (Z.ltb_spec (Z.of_nat (length b)) (Z.of_nat (length a))).
    { eexists; split; [f_equal; lia|]. symmetry. apply Z.compare_gt_iff. lia. }
    eexists; split; [f_equal; lia|]. symmetry. apply Z.compare_eq_iff. lia. }
  rewrite Nat2Z.id.
  assert (Hl : length (take m a) = length (take m b)) by (rewrite !length_take; unfold m; lia).
  destruct (memcmp_lexcmp m a b) as [E|[]]; [|done].
  destruct (Z.eqb_spec (memcmp m a b) 0) as [E0|E0]; simpl.
  - rewrite E0 in E. symmetry in E. apply lexcmp_eq in E.
    rewrite Hr. unfold zlen. rewrite <- (take_drop m a), <- (take_drop m b) at 2.
    rewrite E, lexcmp_app_l.
    destruct (drop m a) eqn:Ea, (drop m b) eqn:Eb; apply (f_equal length) in Ea, Eb;
      rewrite length_drop in Ea, Eb; simpl in *; unfold m in *.
    + apply Z.compare_eq_iff. lia.
    + apply Z.compare_lt_iff. lia.
    + apply Z.compare_gt_iff. lia.
    + lia.
  - rewrite E. destruct (lexcmp_prefix m a b) as [->|]; [|done|done].
    intros Heq. rewrite Heq in E. by apply Z.compare_eq in E.
Qed.

(** * Lemmas: the comparison of a key with a node *)

Lemma sgn_compare r : (r ?= 0) = match Z.sgn r with 0 => Eq | Zpos _ => Gt | Zneg _ => Lt end.
Proof. by destruct r. Qed.

Lemma compare_sub x y : (x - y ?= 0) = (x ?= y).
Proof.
  destruct (Z.compare_spec x y).
  - apply Z.compare_eq_iff. lia.
  - apply Z.compare_lt_iff. lia.
  - apply Z.compare_gt_iff. lia.
Qed.

Lemma sgn_cmp r x y : Z.sgn r = Z.sgn (x - y) -> (r ?= 0) = (x ?= y).
Proof. intros E. by rewrite <- (compare_sub x y), (sgn_compare r), (sgn_compare (x - y)), E. Qed.

Lemma compare_scale x y k : 0 < k -> (x * k ?= y * k) = (x ?= y).
Proof. intros. symmetry. apply Zmult_compare_compat_r. lia. Qed.

(** The shared comparison answers the sign that numcmp answers for the promoted
    cells, whatever the ranges, as long as the differences of mantissas fit. *)
Lemma flt_key_cmp_promoted a n (b_int : bool) w :
  mv_sgn w = key_sgn n -> mv_e w = key_e n -> mv_m1 w = key_m1 n ->
  mv_m0 w = (if b_int then 0 else key_m0 n) ->
  (mv_e a = mv_e w -> 0 <= mv_m1 a < MANT_HI /\ 0 <= mv_m1 w < MANT_HI /\
     0 <= mv_m0 a < MANT_HI /\ 0 <= mv_m0 w < MANT_HI) ->
  exists r, flt_key_cmp a n b_int = Ok r /\ Z.sgn r = cmp_promoted a w.
Proof.
  intros Es Ee E1 E0 Hr. unfold flt_key_cmp, cmp_promoted. cbv zeta.
  rewrite <- Es, <- Ee, <- E1, <- E0. clear Es Ee E1 E0. fold (sg (mv_sgn a)) (sg (mv_sgn w)).
  assert (Ha : sg (mv_sgn a) = 1 \/ sg (mv_sgn a) = -1) by (unfold sg; zcase; lia).
  destruct (sg (mv_sgn a) =? sg (mv_sgn w)); simpl negb; cbv iota.
  2: { eexists; split; [done|]. by destruct Ha as [-> | ->]. }
  assert (Hd : forall d, d <> 0 -> Z.sgn (d * sg (mv_sgn a)) =
    if d <? 0 then - sg (mv_sgn a) else sg (mv_sgn a)).
  { intros d Hd. rewrite Z.sgn_mul. destruct Ha as [-> | ->]; zcase; lia. }
  destruct (Z.eqb_spec (mv_e a - mv_e w) 0); simpl negb; cbv iota.
  2: { eexists; split; [done|]. by apply Hd. }
  specialize (Hr ltac:(lia)). num_consts. rewrite (int4_ok (mv_m1 a - mv_m1 w)) by lia. rewrite res_bind_ok.
  destruct (Z.eqb_spec (mv_m1 a - mv_m1 w) 0) as [E|]; simpl negb; cbv iota.
  2: { destruct Ha as [Ha|Ha]; rewrite Ha in *; (eexists; split; [apply int4_ok; lia|by apply Hd]). }
  rewrite (Z.eqb_sym 0). destruct (Z.eqb_spec (mv_m1 a) 0); [by exists 0|].
  rewrite (int4_ok (mv_m0 a - mv_m0 w)) by lia. rewrite res_bind_ok.
  destruct (Z.eqb_spec (mv_m0 a - mv_m0 w) 0); simpl negb; cbv iota; [by exists 0|].
  destruct Ha as [Ha|Ha]; rewrite Ha in *; (eexists; split; [apply int4_ok; lia|by apply Hd]).
Qed.

(** The integer key [m] as a cell. *)
Definition int_cell (m : Z) : mval := mk_mval 19 0 0 0 m [].

Lemma int_cell_form m : - MANT_HI < m < MANT_HI -> int_form (int_cell m).
Proof. intros. repeat split; simpl; try done; lia. Qed.

Lemma same_node_refl n : same_node n n.
Proof. by repeat split. Qed.

Lemma FltConv_spec n :
  key_mvtype n = T_INT -> - MANT_HI < key_m0 n < MANT_HI ->
  exists n', lvAvlTreeNodeFltConv n = Ok n' /\ same_node n n' /\ key_m0 n' = key_m0 n /\ flt_fields n'.
Proof.
  intros Ht Hm. unfold lvAvlTreeNodeFltConv.
  assert (Hsame : forall sg e m1 s, same_node n
     (with_key (key_mvtype n) sg e true (key_m0 n) m1 s n) \/ s <> key_str n).
  { intros. destruct (decide (s = key_str n)) as [->|]; [left|by right].
    repeat split. unfold node_key. simpl. by rewrite Ht. }
  destruct (Z.eqb_spec (key_m0 n) 0) as [E0|E0]; simpl negb; cbv iota.
  { eexists. split; [done|]. split; [by destruct (Hsame (key_sgn n) 0 (key_m1 n) (key_str n))|].
    split; [done|]. unfold flt_fields. simpl. by rewrite E0. }
  assert ((if 0 <? key_m0 n then Ok (key_m0 n) else int4 (- key_m0 n)) = Ok (Z.abs (key_m0 n))) as ->.
  { zcase; [f_equal; lia|]. rewrite int4_ok by (num_consts; lia). f_equal; lia. }
  rewrite res_bind_ok. destruct (count_digits_spec (Z.abs (key_m0 n))) as (d & Ed & Hd & H1 & H2); [lia|].
  rewrite Ed, res_bind_ok. unfold NUM_DEC_DG_1L. rewrite ten_pwr_spec by lia. rewrite res_bind_ok.
  assert (Hp : 10 ^ 9 = 10 ^ d * 10 ^ (9 - d)) by (rewrite <- Z.pow_add_r by lia; f_equal; lia).
  pose proof (Z.pow_pos_nonneg 10 (9 - d) ltac:(lia) ltac:(lia)).
  rewrite int4_ok by (num_consts; nia). rewrite res_bind_ok. eexists. split; [done|].
  split; [edestruct Hsame as [Hs|[]]; [exact Hs|done]|]. split; [done|].
  unfold flt_fields. cbn [with_key key_m0 key_sgn key_e key_m1].
  destruct (Z.eqb_spec (key_m0 n) 0) as [|_]; [done|]. rewrite Ed.
  unfold sgn_of, EXP_INT_UNDERF, MV_XBIAS. split; [done|]. split; [lia|done].
Qed.

(** The floating key of a converted integer node. *)
Lemma flt_fields_promote n :
  key_m0 n <> 0 -> - MANT_HI < key_m0 n < MANT_HI -> flt_fields n ->
  promote (int_cell (key_m0 n)) = Ok (mk_mval MV_NM (key_sgn n) (key_e n) 0 (key_m1 n) []).
Proof.
  intros H0 Hm Hf. unfold flt_fields in Hf.
  destruct (Z.eqb_spec (key_m0 n) 0); [done|]. destruct Hf as (Hs & Hf).
  destruct (promote_spec (int_cell (key_m0 n))) as (d & -> & Hd & Hr); [by apply int_cell_form|done|].
  destruct (count_digits_spec (Z.abs (key_m0 n))) as (d' & Ed & Hd' & H1 & H2); [lia|].
  rewrite Ed in Hf. destruct Hf as [He H1']. simpl in *.
  assert (d' = d) as ->; [|by rewrite Hs, He, H1'].
  assert (Hp : forall x, 1 <= x <= 9 -> 10 ^ 9 = 10 ^ x * 10 ^ (9 - x))
    by (intros x Hx; rewrite <- Z.pow_add_r by lia; f_equal; lia).
  pose proof (Z.pow_pos_nonneg 10 (9 - d) ltac:(lia) ltac:(lia)).
  pose proof (Hp d Hd). num_consts.
  destruct (Z.lt_total d d') as [|[|]]; [|done|].
  - assert (10 ^ d' = 10 * (10 ^ d * 10 ^ (d' - d - 1))).
    { rewrite <- Z.pow_add_r by lia. replace 10 with (10 ^ 1) at 2 by done.
      rewrite <- Z.pow_add_r by lia. f_equal. lia. }
    pose proof (Z.pow_pos_nonneg 10 (d' - d - 1) ltac:(lia) ltac:(lia)).
    pose proof (Z.pow_pos_nonneg 10 d ltac:(lia) ltac:(lia)). nia.
  - assert (10 ^ d = 10 * (10 ^ d' * 10 ^ (d - d' - 1))).
    { rewrite <- Z.pow_add_r by lia. replace 10 with (10 ^ 1) at 2 by done.
      rewrite <- Z.pow_add_r by lia. f_equal. lia. }
    pose proof (Z.pow_pos_nonneg 10 (d - d' - 1) ltac:(lia) ltac:(lia)). nia.
Qed.

Lemma flt_form_ranges a b :
  flt_form a -> flt_form b ->
  0 <= mv_m1 a < MANT_HI /\ 0 <= mv_m1 b < MANT_HI /\ 0 <= mv_m0 a < MANT_HI /\ 0 <= mv_m0 b < MANT_HI.
Proof.
  intros (_ & _ & _ & _ & _ & Ha1 & Ha0) (_ & _ & _ & _ & _ & Hb1 & Hb0). num_consts. lia.
Qed.

Lemma flt_form_e a : flt_form a -> 0 < mv_e a.
Proof. intros (_ & _ & _ & _ & He & _). num_consts. lia. Qed.

Lemma num_ok_int v : num_ok v -> has MV_INT v = true -> int_form v.
Proof. intros [H|(_ & Hi & _)] Hh; [done|congruence]. Qed.

Lemma num_ok_flt v : num_ok v -> has MV_INT v = false -> flt_form v.
Proof. intros [(_ & Hi & _)|H] Hh; [congruence|done]. Qed.

(** An integer key against a floating node. *)
Lemma int_flt_cmp m n :
  - MANT_HI < m < MANT_HI -> flt_form (node_num n) ->
  exists w r, promote (int_cell m) = Ok w /\ flt_key_cmp w n false = Ok r /\
    (r ?= 0) = (m * 10 ^ 57 ?= flt_value (node_num n)).
Proof.
  intros Hm Hn. pose proof (int_cell_form m Hm) as Hi.
  destruct (cmp_promote_l (int_cell m) (node_num n) Hi Hn) as (w & Ew & Ec).
  destruct (flt_key_cmp_promoted w n false (node_num n)) as (r & Er & Hr); try done.
  - intros He. destruct (Z.eq_dec m 0) as [->|Hm0].
    + injection Ew as <-. pose proof (flt_form_e _ Hn). simpl in *. lia.
    + destruct (promote_value (int_cell m) w Hi Hm0 Ew) as (Hf & _). by apply flt_form_ranges.
  - exists w, r. split; [done|]. split; [done|].
    apply sgn_cmp. by rewrite Hr, Ec, (num_value_int (int_cell m)).
Qed.

(** A floating key against a converted integer node, and a floating one. *)
Lemma flt_int_cmp key n :
  flt_form key -> - MANT_HI < key_m0 n < MANT_HI -> flt_fields n ->
  exists r, flt_key_cmp key n true = Ok r /\ (r ?= 0) = (flt_value key ?= key_m0 n * 10 ^ 57).
Proof.
  intros Hk Hm Hf. pose proof (flt_form_e _ Hk) as He.
  set (w := mk_mval MV_NM (key_sgn n) (key_e n) 0 (key_m1 n) []).
  assert (cmp_promoted key w = Z.sgn (flt_value key - key_m0 n * 10 ^ 57) /\
    (key_m0 n = 0 /\ mv_e w = 0 \/ flt_form w)) as [Hc Hw].
  { destruct (Z.eq_dec (key_m0 n) 0) as [E0|E0].
    - unfold flt_fields in Hf. rewrite E0 in Hf. simpl in Hf. split; [|by left].
      pose proof (flt_value_sign key Hk) as [_ Hs]. rewrite E0, Z.mul_0_l, Z.sub_0_r, Hs.
      unfold cmp_promoted, w; simpl. rewrite Hf. fold (sg (mv_sgn key)) (sg (key_sgn n)).
      destruct (Z.eqb_spec (sg (mv_sgn key)) (sg (key_sgn n))); simpl; [|done].
      rewrite Z.sub_0_r. repeat zcase; lia.
    - pose proof (flt_fields_promote n E0 Hm Hf) as Hp. pose proof (int_cell_form _ Hm) as Hi.
      destruct (cmp_promote_r key _ Hk Hi) as (w' & Ew & Ec). rewrite Hp in Ew. injection Ew as <-.
      split; [unfold w; rewrite Ec; by rewrite (num_value_int (int_cell _))|]. right.
      by destruct (promote_value (int_cell (key_m0 n)) w Hi E0 Hp). }
  destruct (flt_key_cmp_promoted key n true w) as (r & Er & Hr); try done.
  - intros Hee. destruct Hw as [[_ Hw]|Hw]; [lia|]. by apply flt_form_ranges.
  - exists r. split; [done|]. apply sgn_cmp. by rewrite Hr, Hc.
Qed.

Lemma flt_flt_cmp key n :
  flt_form key -> flt_form (node_num n) ->
  exists r, flt_key_cmp key n false = Ok r /\ (r ?= 0) = (flt_value key ?= flt_value (node_num n)).
Proof.
  intros Hk Hn. destruct (flt_key_cmp_promoted key n false (node_num n)) as (r & Er & Hr); try done.
  - intros _. by apply flt_form_ranges.
  - exists r. split; [done|].
    apply sgn_cmp. by rewrite Hr, (cmp_promoted_spec _ _ Hk Hn).
Qed.

Lemma same_node_key_ok n n' :
  same_node n n' -> key_mvtype n = T_INT -> key_m0 n' = key_m0 n -> - MANT_HI < key_m0 n < MANT_HI ->
  flt_fields n' -> key_ok n'.
Proof.
  intros (_ & _ & _ & Ht & _) Hi E Hm Hf. left. rewrite Ht, E. done.
Qed.

#[local] Arguments flt_key_cmp : simpl never.
#[local] Arguments promote : simpl never.
#[local] Arguments lvAvlTreeNodeFltConv : simpl never.
#[local] Arguments Z.pow : simpl never.

(** Every comparison answers the collating order of the key and the node, and
    may only fill in the floating form of the node's key. *)
Lemma key_cmp_spec key n :
  mval_key_ok key -> key_ok n ->
  exists r n', key_cmp key n = Ok (r, n') /\ (r ?= 0) = lkey_cmp (mval_key key) (node_key n) /\
    same_node n n' /\ key_ok n'.
Proof.
  intros Hk Hn. unfold key_cmp, mval_key. unfold mval_key_ok in Hk.
  destruct (TREE_KEY_SUBSCR_IS_CANONICAL (mvtype key)).
  - specialize (Hk eq_refl). destruct (MVTYPE_IS_INT (mvtype key)) eqn:Ei.
    + pose proof (num_ok_int _ Hk Ei) as Hi. rewrite num_value_int by done.
      destruct Hi as (_ & _ & _ & Hm). unfold LV_AVL_TREE_INTKEY_CMP, node_key.
      destruct Hn as [(Et & Hm' & Hf)|[(Et & Hf)|[Et|Et]]]; rewrite Et; simpl.
      * rewrite int4_ok by (num_consts; lia). cbn [mbind res_bind]. eexists _, n. split; [done|].
        rewrite compare_sub, compare_scale by done. split; [done|]. split; [apply same_node_refl|by left].
      * change (mk_mval 0 0 0 0 (mv_m1 key) []) with (set_mvtype 0 (int_cell (mv_m1 key))).
        destruct (int_flt_cmp (mv_m1 key) n Hm Hf) as (w & r & Ew & Er & Hr).
        change (promote (set_mvtype 0 (int_cell (mv_m1 key)))) with (promote (int_cell (mv_m1 key))).
        rewrite Ew. cbn [mbind res_bind]. change (MVTYPE_IS_INT T_FLT) with false. rewrite Er. cbn [mbind res_bind].
        eexists _, n. split; [done|]. split; [done|]. split; [apply same_node_refl|right; by left].
      * eexists _, n. split; [done|]. split; [done|]. split; [apply same_node_refl|right; right; by left].
      * eexists _, n. split; [done|]. split; [done|]. split; [apply same_node_refl|right; right; by right].
    + pose proof (num_ok_flt _ Hk Ei) as Hfk. rewrite num_value_flt by done.
      unfold LV_AVL_TREE_NUMKEY_CMP, node_key.
      destruct Hn as [(Et & Hm' & Hf)|[(Et & Hf)|[Et|Et]]]; rewrite Et; simpl.
      * assert (exists n', (if negb (key_iconv n) then lvAvlTreeNodeFltConv n else Ok n) = Ok n' /\
          same_node n n' /\ key_m0 n' = key_m0 n /\ flt_fields n') as (n' & -> & Hs & E0 & Hf').
        { destruct (key_iconv n) eqn:Ec; simpl; [|by apply FltConv_spec].
          exists n. split; [done|]. split; [apply same_node_refl|]. split; [done|]. by apply Hf. }
        cbn [mbind res_bind]. destruct (flt_int_cmp key n' Hfk) as (r & Er & Hr); [by rewrite E0|done|].
        change (MVTYPE_IS_INT T_INT) with true. rewrite Er. cbn [mbind res_bind]. eexists _, n'. split; [done|]. rewrite Hr, E0.
        split; [done|]. split; [done|]. by eapply same_node_key_ok.
      * destruct (flt_flt_cmp key n Hfk Hf) as (r & Er & Hr). cbn [mbind res_bind].
        change (MVTYPE_IS_INT T_FLT) with false. rewrite Er. cbn [mbind res_bind].
        eexists _, n. split; [done|]. split; [done|]. split; [apply same_node_refl|right; by left].
      * eexists _, n. split; [done|]. split; [done|]. split; [apply same_node_refl|right; right; by left].
      * eexists _, n. split; [done|]. split; [done|]. split; [apply same_node_refl|right; right; by right].
  - unfold LV_AVL_TREE_STRKEY_CMP, node_key.
    assert (Hn' := Hn). destruct Hn as [(Et & _)|[(Et & _)|[Et|Et]]]; rewrite Et; simpl;
      destruct (MVTYPE_IS_SQLNULL (mvtype key)); simpl; eexists _, n; (split; [done|]);
      rewrite ?MEMVCMP_spec; (split; [done|]); (split; [apply same_node_refl|done]).
Qed.

(** The node that insertion initialises has the key it is given. *)
Lemma land_bit t k : 0 <= k -> Z.land t (2 ^ k) = if Z.land t (2 ^ k) =? 0 then 0 else 2 ^ k.
Proof.
  intros Hk. destruct (Z.eqb_spec (Z.land t (2 ^ k)) 0) as [|Hn]; [done|].
  apply Z.bits_inj'. intros i Hi. rewrite Z.land_spec, Z.pow2_bits_eqb by done.
  destruct (Z.eqb_spec k i) as [<-|]; [|by rewrite andb_false_r].
  destruct (Z.testbit t k) eqn:E; [done|]. destruct Hn. apply Z.bits_inj_0. intros j.
  rewrite Z.land_spec, Z.pow2_bits_eqb by done.
  destruct (Z.eqb_spec k j) as [<-|]; [by rewrite E|by rewrite andb_false_r].
Qed.

Lemma land_num_type t :
  negb (Z.land t MV_NM =? 0) = true -> TREE_KEY_SUBSCR_IS_CANONICAL t = true ->
  Z.land t MV_EXT_NUM_MASK = if MVTYPE_IS_INT t then T_INT else T_FLT.
Proof.
  unfold TREE_KEY_SUBSCR_IS_CANONICAL, MVTYPE_IS_INT. rewrite !negb_true_iff, !Z.eqb_neq. intros H1 H16.
  change MV_EXT_NUM_MASK with (Z.lor (2 ^ 4) (Z.lor (2 ^ 1) (2 ^ 0))).
  rewrite !Z.land_lor_distr_r, (land_bit t 4), (land_bit t 1), (land_bit t 0) by lia.
  change (2 ^ 4) with MV_CANONICAL. change (2 ^ 1) with MV_INT. change (2 ^ 0) with MV_NM.
  apply Z.eqb_neq in H1, H16. rewrite H1, H16. by destruct (Z.land t MV_INT =? 0).
Qed.

Lemma init_key_ok key n :
  mval_key_ok key -> key_ok (init_key key n) /\ node_key (init_key key n) = mval_key key.
Proof.
  intros Hk. unfold mval_key_ok in Hk. unfold init_key, mval_key.
  destruct (TREE_KEY_SUBSCR_IS_CANONICAL (mvtype key)) eqn:Ec.
  - specialize (Hk eq_refl). pose proof (land_num_type (mvtype key)) as Ht.
    pose proof (num_ok_flags key Hk) as [Hnm _]. specialize (Ht Hnm Ec).
    destruct (MVTYPE_IS_INT (mvtype key)) eqn:Ei; rewrite Ht; unfold key_ok, node_key; simpl.
    + pose proof (num_ok_int _ Hk Ei) as Hi. rewrite num_value_int by done.
      destruct Hi as (_ & _ & _ & Hm). split; [left|done]. done.
    + pose proof (num_ok_flt _ Hk Ei) as Hf. rewrite num_value_flt by done.
      split; [right; left|done]. split; [done|]. destruct Hf as (_ & _ & _ & Hf). by repeat split; try apply Hf.
  - unfold key_ok, node_key. simpl.
    destruct (MVTYPE_IS_SQLNULL (mvtype key)); simpl; split; auto.
Qed.
