(* ===== verification/Avltree.v ===== *)
(** The AVL tree of local variable nodes (lv_tree.c): rotations, insertion and
    deletion with their rebalancing, and the walks from node to node.  The code
    works on linked nodes in a heap, climbing by parent pointers and taking its
    direction from the field descent_dir that the lookup left in each node.
    The proofs relate the heap to a tree of addresses ([rep]). *)

From stdpp Require Import base list numbers option tactics gmap.
From Stdlib Require Import ZArith Lia.
From S2P Require Import Prelude Mval Lvnode.

Open Scope Z_scope.

(** * The tree *)

(** One subscript level; [lvt_ptr] is the address of the structure, and the
    last three fields are its [lastLookup]. *)
Record lvTree := mk_lvt {
  lvt_ptr : Z; avl_height : Z; avl_root : Z;
  lastNodeLookedUp : Z; lastNodeMin : Z; lastNodeMax : Z
}.

Definition set_root (x : Z) (t : lvTree) : lvTree :=
  mk_lvt (lvt_ptr t) (avl_height t) x (lastNodeLookedUp t) (lastNodeMin t) (lastNodeMax t).
Definition set_height (x : Z) (t : lvTree) : lvTree :=
  mk_lvt (lvt_ptr t) x (avl_root t) (lastNodeLookedUp t) (lastNodeMin t) (lastNodeMax t).
Definition set_clue (x mn mx : Z) (t : lvTree) : lvTree :=
  mk_lvt (lvt_ptr t) (avl_height t) (avl_root t) x mn mx.

(** LV_TREE_CREATE, the fields of the AVL tree. *)
Definition LV_TREE_CREATE (ptr mn mx : Z) : lvTree := mk_lvt ptr 0 NULL NULL mn mx.

(** Every loop below goes down or up one path of the tree. *)
Definition hfuel (h : heap) : nat := S (size h).

(** [if (NULL != p) p->avl_parent = x;] *)
Definition set_parent_of (x p : Z) (h : heap) : res heap :=
  if negb (p =? NULL) then modify (with_parent x) p h else Ok h.

(** * Rotations *)

Definition lvAvlTreeSingleRotation (h : heap) (rebalanceNode anchorNode balanceFactor : Z) : res (heap * Z) :=
  a ← deref h anchorNode;
  '(h, node) ← (if balanceFactor =? TREE_LEFT_HEAVY then
      let node := avl_right a in
      h ← modify (with_left node) rebalanceNode h;
      h ← modify (with_right rebalanceNode) anchorNode h; Ok (h, node)
    else
      let node := avl_left a in
      h ← modify (with_right node) rebalanceNode h;
      h ← modify (with_left rebalanceNode) anchorNode h; Ok (h, node));
  h ← set_parent_of rebalanceNode node h;
  h ← modify (with_parent anchorNode) rebalanceNode h;
  a ← deref h anchorNode;
  h ← (if TREE_IS_NOT_BALANCED (balance a) then
      h ← modify (with_balance TREE_BALANCED) rebalanceNode h;
      modify (with_balance TREE_BALANCED) anchorNode h
    else
      b ← TREE_INVERT_BALANCE_FACTOR balanceFactor;
      modify (with_balance b) anchorNode h);
  Ok (h, anchorNode).

Definition lvAvlTreeDoubleRotation (h : heap) (rebalanceNode anchorNode balanceFactor : Z) : res (heap * Z) :=
  a ← deref h anchorNode;
  '(h, newRoot, rebalanceChild, anchorChild) ← (if balanceFactor =? TREE_LEFT_HEAVY then
      let newRoot := avl_right a in
      r ← deref h newRoot;
      let rebalanceChild := avl_right r in
      h ← modify (with_left rebalanceChild) rebalanceNode h;
      let anchorChild := avl_left r in
      h ← modify (with_right anchorChild) anchorNode h;
      h ← modify (with_left anchorNode) newRoot h;
      h ← modify (with_right rebalanceNode) newRoot h;
      Ok (h, newRoot, rebalanceChild, anchorChild)
    else
      let newRoot := avl_left a in
      r ← deref h newRoot;
      let rebalanceChild := avl_left r in
      h ← modify (with_right rebalanceChild) rebalanceNode h;
      let anchorChild := avl_right r in
      h ← modify (with_left anchorChild) anchorNode h;
      h ← modify (with_left rebalanceNode) newRoot h;
      h ← modify (with_right anchorNode) newRoot h;
      Ok (h, newRoot, rebalanceChild, anchorChild));
  h ← set_parent_of rebalanceNode rebalanceChild h;
  h ← set_parent_of anchorNode anchorChild h;
  h ← modify (with_parent newRoot) anchorNode h;
  h ← modify (with_parent newRoot) rebalanceNode h;
  r ← deref h newRoot;
  let balance := balance r in
  h ← (if balance =? balanceFactor then
      b ← TREE_INVERT_BALANCE_FACTOR balanceFactor;
      h ← modify (with_balance b) rebalanceNode h;
      modify (with_balance TREE_BALANCED) anchorNode h
    else if TREE_IS_BALANCED balance then
      h ← modify (with_balance TREE_BALANCED) rebalanceNode h;
      modify (with_balance TREE_BALANCED) anchorNode h
    else
      h ← modify (with_balance TREE_BALANCED) rebalanceNode h;
      modify (with_balance balanceFactor) anchorNode h);
  h ← modify (with_balance TREE_BALANCED) newRoot h;
  Ok (h, newRoot).

(** [if (TREE_DESCEND_LEFT == p->descent_dir) p->avl_left = x; else p->avl_right
    = x;] *)
Definition set_child_by_dir (x p : Z) (h : heap) : res heap :=
  n ← deref h p;
  if TREE_DESCEND_LEFT =? descent_dir n then modify (with_left x) p h else modify (with_right x) p h.

(** Hang the rotated subtree under the parent of its former root. *)
Definition link_rotated (h : heap) (lvt : lvTree) (newRoot rebalanceNodeParent : Z) : res (heap * lvTree) :=
  h ← modify (with_parent rebalanceNodeParent) newRoot h;
  if negb (rebalanceNodeParent =? NULL) then
    h ← set_child_by_dir newRoot rebalanceNodeParent h; Ok (h, lvt)
  else Ok (h, set_root newRoot lvt).

(** * Insertion *)

(** [while (t_root != tmpNode)]: up to the first node that is not balanced. *)
Fixpoint climb_balanced (fuel : nat) (h : heap) (t_root tmpNode : Z) : res (heap * Z) :=
  match fuel with
  | O => Err OUT_OF_FUEL
  | S fuel' =>
      if t_root =? tmpNode then Ok (h, tmpNode)
      else
        n ← deref h tmpNode;
        if TREE_IS_NOT_BALANCED (balance n) then Ok (h, tmpNode)
        else
          h ← modify (with_balance (descent_dir n)) tmpNode h;
          climb_balanced fuel' h t_root (avl_parent n)
  end.

Definition rebalance_insert (h : heap) (lvt : lvTree) (rebalanceNode : Z) : res (heap * lvTree) :=
  r ← deref h rebalanceNode;
  let '(anchorNode, balanceFactor) :=
    if TREE_DESCEND_LEFT =? descent_dir r then (avl_left r, TREE_LEFT_HEAVY)
    else (avl_right r, TREE_RIGHT_HEAVY) in
  let curBalance := balance r in
  inv ← TREE_INVERT_BALANCE_FACTOR balanceFactor;
  if TREE_IS_BALANCED curBalance then
    h ← modify (with_balance balanceFactor) rebalanceNode h;
    Ok (h, set_height (avl_height lvt + 1) lvt)
  else if curBalance =? inv then
    h ← modify (with_balance TREE_BALANCED) rebalanceNode h; Ok (h, lvt)
  else
    let rebalanceNodeParent := avl_parent r in
    a ← deref h anchorNode;
    '(h, tmpNode) ← (if balance a =? balanceFactor
      then lvAvlTreeSingleRotation h rebalanceNode anchorNode balanceFactor
      else lvAvlTreeDoubleRotation h rebalanceNode anchorNode balanceFactor);
    link_rotated h lvt tmpNode rebalanceNodeParent.

(** [node] is the slot that lvtreenode_getslot returned, of which the fields that
    the code does not assign (the value, descent_dir) keep what they held. *)
Definition init_node (lvt : lvTree) (key : mval) (parent : Z) (n : lvTreeNode) : lvTreeNode :=
  let n := mk_node (nd_v n) NULL (lvt_ptr lvt) (key_mvtype n) (balance n) (descent_dir n)
    (key_sgn n) (key_e n) (key_iconv n) (key_m0 n) (key_m1 n) (key_str n) NULL NULL parent in
  with_balance TREE_BALANCED (init_key key n).

Definition lvAvlTreeNodeInsert (h : heap) (lvt : lvTree) (key : mval) (parent node : Z) : res (heap * lvTree) :=
  h ← modify (init_node lvt key parent) node h;
  if negb (parent =? NULL) then
    p ← deref h parent;
    '(h, lvt) ← (if TREE_DESCEND_LEFT =? descent_dir p then
        h ← modify (with_left node) parent h;
        Ok (h, set_clue node (lastNodeMin lvt) parent lvt)
      else
        h ← modify (with_right node) parent h;
        Ok (h, set_clue node parent (lastNodeMax lvt) lvt));
    '(h, rebalanceNode) ← climb_balanced (hfuel h) h (avl_root lvt) parent;
    rebalance_insert h lvt rebalanceNode
  else Ok (h, mk_lvt (lvt_ptr lvt) 1 node node NULL NULL).

(** * Deletion *)

(** The loop to the in-order successor: leftmost from [next]. *)
Fixpoint descend_left (fuel : nat) (h : heap) (next : Z) : res (heap * Z) :=
  match fuel with
  | O => Err OUT_OF_FUEL
  | S fuel' =>
      n ← deref h next;
      let left := avl_left n in
      if negb (left =? NULL) then
        h ← modify (with_dir TREE_DESCEND_LEFT) next h;
        descend_left fuel' h left
      else Ok (h, next)
  end.

(** Take [node] out of the links: the node where balancing starts. *)
Definition unlink_node (h : heap) (lvt : lvTree) (node : Z) : res (heap * lvTree * Z) :=
  n ← deref h node;
  let nodeLeft := avl_left n in
  let nodeRight := avl_right n in
  let nodeParent := avl_parent n in
  if nodeRight =? NULL then
    let balanceThisNode := nodeParent in
    '(h, lvt) ← (if negb (balanceThisNode =? NULL) then
        h ← set_child_by_dir nodeLeft balanceThisNode h; Ok (h, lvt)
      else Ok (h, set_root nodeLeft lvt));
    h ← set_parent_of balanceThisNode nodeLeft h;
    Ok (h, lvt, balanceThisNode)
  else
    '(h, next) ← descend_left (hfuel h) h nodeRight;
    nx ← deref h next;
    let nextRight := avl_right nx in
    let nextParent := avl_parent nx in
    '(h, balanceThisNode) ← (if negb (nextParent =? node) then
        h ← set_child_by_dir nextRight nextParent h;
        h ← set_parent_of nextParent nextRight h;
        h ← modify (with_right nodeRight) next h;
        h ← modify (with_parent next) nodeRight h;
        Ok (h, nextParent)
      else Ok (h, next));
    h ← modify (with_left nodeLeft) next h;
    h ← set_parent_of next nodeLeft h;
    h ← modify (with_parent nodeParent) next h;
    h ← modify (with_balance (balance n)) next h;
    h ← modify (with_dir TREE_DESCEND_RIGHT) next h;
    '(h, lvt) ← (if negb (nodeParent =? NULL) then
        h ← set_child_by_dir next nodeParent h; Ok (h, lvt)
      else Ok (h, set_root next lvt));
    Ok (h, lvt, balanceThisNode).

(** The balancing act: [for ( ; ; balanceThisNode = nextBalanceThisNode)]. *)
Fixpoint rebalance_delete (fuel : nat) (h : heap) (lvt : lvTree) (balanceThisNode : Z) : res (heap * lvTree) :=
  match fuel with
  | O => Err OUT_OF_FUEL
  | S fuel' =>
      if balanceThisNode =? NULL then Ok (h, set_height (avl_height lvt - 1) lvt)
      else
        b ← deref h balanceThisNode;
        let balanceFactor := descent_dir b in
        let curNodeBalance := balance b in
        if TREE_IS_BALANCED curNodeBalance then
          inv ← TREE_INVERT_BALANCE_FACTOR balanceFactor;
          h ← modify (with_balance inv) balanceThisNode h; Ok (h, lvt)
        else
          let nextBalanceThisNode := avl_parent b in
          if curNodeBalance =? balanceFactor then
            h ← modify (with_balance TREE_BALANCED) balanceThisNode h;
            rebalance_delete fuel' h lvt nextBalanceThisNode
          else
            let rebalanceNode := balanceThisNode in
            let '(balanceFactor, anchorNode) :=
              if TREE_LEFT_HEAVY =? balanceFactor then (TREE_RIGHT_HEAVY, avl_right b)
              else (TREE_LEFT_HEAVY, avl_left b) in
            a ← deref h anchorNode;
            let treeBalanced := TREE_IS_BALANCED (balance a) in
            '(h, newRoot) ← (if treeBalanced || (balance a =? balanceFactor)
              then lvAvlTreeSingleRotation h rebalanceNode anchorNode balanceFactor
              else lvAvlTreeDoubleRotation h rebalanceNode anchorNode balanceFactor);
            '(h, lvt) ← link_rotated h lvt newRoot nextBalanceThisNode;
            if treeBalanced then Ok (h, lvt)
            else rebalance_delete fuel' h lvt nextBalanceThisNode
  end.

Definition lvAvlTreeNodeDelete (h : heap) (lvt : lvTree) (node : Z) : res (heap * lvTree) :=
  '(h, lvt, balanceThisNode) ← unlink_node h lvt node;
  '(h, lvt) ← rebalance_delete (hfuel h) h lvt balanceThisNode;
  Ok (h, set_clue NULL (lastNodeMin lvt) (lastNodeMax lvt) lvt).

Fixpoint prepare_loop (fuel : nat) (h : heap) (curNode : Z) : res heap :=
  match fuel with
  | O => Err OUT_OF_FUEL
  | S fuel' =>
      c ← deref h curNode;
      let parentNode := avl_parent c in
      if parentNode =? NULL then Ok h
      else
        p ← deref h parentNode;
        h ← modify (with_dir (if curNode =? avl_left p then TREE_DESCEND_LEFT else TREE_DESCEND_RIGHT))
              parentNode h;
        prepare_loop fuel' h parentNode
  end.

Definition lvAvlTreeNodePrepareForDelete (h : heap) (node : Z) : res heap := prepare_loop (hfuel h) h node.

(** * Walks *)

(** [do { avl_first = next; next = next->avl_left; } while (NULL != next);] *)
Fixpoint leftmost (fuel : nat) (h : heap) (p : Z) : res Z :=
  match fuel with
  | O => Err OUT_OF_FUEL
  | S fuel' =>
      n ← deref h p;
      if negb (avl_left n =? NULL) then leftmost fuel' h (avl_left n) else Ok p
  end.

Fixpoint rightmost (fuel : nat) (h : heap) (p : Z) : res Z :=
  match fuel with
  | O => Err OUT_OF_FUEL
  | S fuel' =>
      n ← deref h p;
      if negb (avl_right n =? NULL) then rightmost fuel' h (avl_right n) else Ok p
  end.

Definition lvAvlTreeFirst (h : heap) (lvt : lvTree) : res Z :=
  let next := avl_root lvt in
  if next =? NULL then Ok NULL else leftmost (hfuel h) h next.

Definition lvAvlTreeLast (h : heap) (lvt : lvTree) : res Z :=
  let next := avl_root lvt in
  if next =? NULL then Ok NULL else rightmost (hfuel h) h next.

(** [while (NULL != parent)]: the first ancestor that [tmp] is on the given
    side of, NULL when there is none. *)
Fixpoint climb_from_right (fuel : nat) (h : heap) (parent tmp : Z) : res Z :=
  match fuel with
  | O => Err OUT_OF_FUEL
  | S fuel' =>
      if parent =? NULL then Ok NULL
      else
        p ← deref h parent;
        if avl_right p =? tmp then Ok parent
        else climb_from_right fuel' h (avl_parent p) parent
  end.

Fixpoint climb_from_left (fuel : nat) (h : heap) (parent tmp : Z) : res Z :=
  match fuel with
  | O => Err OUT_OF_FUEL
  | S fuel' =>
      if parent =? NULL then Ok NULL
      else
        p ← deref h parent;
        if avl_left p =? tmp then Ok parent
        else climb_from_left fuel' h (avl_parent p) parent
  end.

Definition lvAvlTreePrev (h : heap) (node : Z) : res Z :=
  n ← deref h node;
  let prev := avl_left n in
  if negb (prev =? NULL) then rightmost (hfuel h) h prev
  else climb_from_right (hfuel h) h (avl_parent n) node.

Definition lvAvlTreeNext (h : heap) (node : Z) : res Z :=
  n ← deref h node;
  let next := avl_right n in
  if negb (next =? NULL) then leftmost (hfuel h) h next
  else climb_from_left (hfuel h) h (avl_parent n) node.

(** The loop of the post-order functions: down to a leaf, left before right. *)
Fixpoint first_leaf (fuel : nat) (h : heap) (first : Z) : res Z :=
  match fuel with
  | O => Err OUT_OF_FUEL
  | S fuel' =>
      n ← deref h first;
      if negb (avl_left n =? NULL) then first_leaf fuel' h (avl_left n)
      else if negb (avl_right n =? NULL) then first_leaf fuel' h (avl_right n)
      else Ok first
  end.

Definition lvAvlTreeFirstPostOrder (h : heap) (lvt : lvTree) : res Z :=
  let first := avl_root lvt in
  if first =? NULL then Ok NULL else first_leaf (hfuel h) h first.

Definition lvAvlTreeNextPostOrder (h : heap) (node : Z) : res Z :=
  n ← deref h node;
  let parent := avl_parent n in
  if parent =? NULL then Ok NULL
  else
    p ← deref h parent;
    if node =? avl_right p then Ok parent
    else
      let next := avl_right p in
      if next =? NULL then Ok parent else first_leaf (hfuel h) h next.

(** * Trees of addresses *)

(** The directions of descent: false is left, true is right. *)
Definition dirZ (d : bool) : Z := if d then TREE_DESCEND_RIGHT else TREE_DESCEND_LEFT.

Inductive tree := Leaf | Node (l : tree) (p : Z) (r : tree).

#[global] Instance tree_eq_dec : EqDecision tree.
Proof. solve_decision. Defined.

Definition addr (t : tree) : Z := match t with Leaf => NULL | Node _ p _ => p end.

Fixpoint elems (t : tree) : list Z :=
  match t with Leaf => [] | Node l p r => elems l ++ p :: elems r end.

Fixpoint height (t : tree) : nat :=
  match t with Leaf => O | Node l _ r => S (Nat.max (height l) (height r)) end.

(** The node [p] with [t] in the direction [d] and [s] in the other. *)
Definition mkN (d : bool) (t : tree) (p : Z) (s : tree) : tree :=
  if d then Node s p t else Node t p s.

(** A path from a subtree up to the root: at each node the direction of the
    subtree, and the other child. *)
Inductive frame := F (d : bool) (p : Z) (s : tree).

Fixpoint plug (c : list frame) (t : tree) : tree :=
  match c with [] => t | F d p s :: c' => plug c' (mkN d t p s) end.

Definition caddr (c : list frame) : Z := match c with [] => NULL | F _ p _ :: _ => p end.

Fixpoint before (c : list frame) : list Z :=
  match c with [] => [] | F d p s :: c' => before c' ++ (if d then elems s ++ [p] else []) end.
Fixpoint after (c : list frame) : list Z :=
  match c with [] => [] | F d p s :: c' => (if d then [] else p :: elems s) ++ after c' end.

(** ** The parts of the heap *)

Definition links (n : lvTreeNode) : Z * Z * Z := (avl_left n, avl_right n, avl_parent n).
Definition rest (n : lvTreeNode) : lvTreeNode :=
  with_left 0 (with_right 0 (with_parent 0 (with_balance 0 (with_dir 0 n)))).

Definition linkm (h : heap) : gmap Z (Z * Z * Z) := links <$> h.
Definition balm (h : heap) : gmap Z Z := balance <$> h.
Definition dirm (h : heap) : gmap Z Z := descent_dir <$> h.
Definition restm (h : heap) : gmap Z lvTreeNode := rest <$> h.

(** The links of a node with [x] in the direction [d], [y] in the other. *)
Definition mkl (d : bool) (x y p : Z) : Z * Z * Z := if d then (y, x, p) else (x, y, p).

(** The links of the tree [t], with the parent of its root. *)
Fixpoint rep (L : gmap Z (Z * Z * Z)) (parent : Z) (t : tree) : Prop :=
  match t with
  | Leaf => True
  | Node l p r => p <> NULL /\ L !! p = Some (addr l, addr r, parent) /\ rep L p l /\ rep L p r
  end.

Fixpoint crep (L : gmap Z (Z * Z * Z)) (c : list frame) (x : Z) : Prop :=
  match c with
  | [] => True
  | F d p s :: c' => p <> NULL /\ L !! p = Some (mkl d x (addr s) (caddr c')) /\ rep L p s /\ crep L c' p
  end.

(** The balance of a node against the heights in a direction and in the other. *)
Definition bal_ok (d : bool) (b : Z) (x y : nat) : Prop :=
  b = TREE_BALANCED /\ x = y \/ b = dirZ d /\ x = S y \/ b = dirZ (negb d) /\ y = S x.

Fixpoint avl (B : gmap Z Z) (t : tree) : Prop :=
  match t with
  | Leaf => True
  | Node l p r =>
      (exists b, B !! p = Some b /\ bal_ok false b (height l) (height r)) /\ avl B l /\ avl B r
  end.

(** A path that is balanced around a subtree of height [k]. *)
Fixpoint cavl (B : gmap Z Z) (c : list frame) (k : nat) : Prop :=
  match c with
  | [] => True
  | F d p s :: c' =>
      (exists b, B !! p = Some b /\ bal_ok d b k (height s)) /\ avl B s /\ cavl B c' (S (Nat.max k (height s)))
  end.

(** The height of the whole tree around a subtree of height [k]. *)
Fixpoint cheight (c : list frame) (k : nat) : nat :=
  match c with [] => k | F _ _ s :: c' => cheight c' (S (Nat.max k (height s))) end.

(** The fields descent_dir lead down the path. *)
Definition dirs (D : gmap Z Z) (c : list frame) : Prop :=
  Forall (fun f => match f with F d p _ => D !! p = Some (dirZ d) end) c.

(** The fields descent_dir lead from the root of [t] to the node [x]. *)
Fixpoint leads (D : gmap Z Z) (t : tree) (x : Z) : Prop :=
  match t with
  | Leaf => False
  | Node l p r =>
      p = x \/ D !! p = Some (dirZ false) /\ leads D l x \/ D !! p = Some (dirZ true) /\ leads D r x
  end.

(** * Lemmas: trees and paths *)

Lemma invert_dir d : TREE_INVERT_BALANCE_FACTOR (dirZ d) = Ok (dirZ (negb d)).
Proof. by destruct d. Qed.

Lemma dir_left d : (dirZ d =? TREE_LEFT_HEAVY) = negb d.
Proof. by destruct d. Qed.

Lemma left_dir d : (TREE_DESCEND_LEFT =? dirZ d) = negb d.
Proof. by destruct d. Qed.

Lemma dirZ_eqb d d' : (dirZ d =? dirZ d') = eqb d d'.
Proof. by destruct d, d'. Qed.

Lemma mkN_rep L q d t p s :
  rep L q (mkN d t p s) <->
  p <> NULL /\ L !! p = Some (mkl d (addr t) (addr s) q) /\ rep L p t /\ rep L p s.
Proof. destruct d; simpl; tauto. Qed.

Lemma mkN_addr d t p s : addr (mkN d t p s) = p.
Proof. by destruct d. Qed.

Lemma mkN_elems d t p s :
  elems (mkN d t p s) = if d then elems s ++ p :: elems t else elems t ++ p :: elems s.
Proof. by destruct d. Qed.

Lemma mkN_height d t p s : height (mkN d t p s) = S (Nat.max (height t) (height s)).
Proof. destruct d; simpl; lia. Qed.

Lemma bal_ok_flip d b x y : bal_ok (negb d) b x y <-> bal_ok d b y x.
Proof. unfold bal_ok. rewrite negb_involutive. intuition. Qed.

Lemma mkN_avl B d t p s :
  avl B (mkN d t p s) <->
  (exists b, B !! p = Some b /\ bal_ok d b (height t) (height s)) /\ avl B t /\ avl B s.
Proof.
  destruct d; simpl; [|tauto].
  split; intros ((b & Hb & Hk) & H1 & H2); (split; [|tauto]); exists b; (split; [done|]);
    first [exact (proj1 (bal_ok_flip true _ _ _) Hk)|exact (proj2 (bal_ok_flip true _ _ _) Hk)].
Qed.

Lemma mkN_leads D d t p s x :
  leads D (mkN d t p s) x <->
  p = x \/ D !! p = Some (dirZ d) /\ leads D t x \/ D !! p = Some (dirZ (negb d)) /\ leads D s x.
Proof. destruct d; simpl; tauto. Qed.

Lemma rep_plug L c t :
  rep L NULL (plug c t) <-> rep L (caddr c) t /\ crep L c (addr t).
Proof.
  revert t. induction c as [|[d p s] c IH]; intros t; simpl; [tauto|].
  rewrite IH, mkN_rep, mkN_addr. tauto.
Qed.

Lemma plug_elems c t : elems (plug c t) = before c ++ elems t ++ after c.
Proof.
  revert t. induction c as [|[d p s] c IH]; intros t; simpl; [by rewrite app_nil_r|].
  rewrite IH, mkN_elems. destruct d; rewrite <- ?app_assoc; simpl; by rewrite <- ?app_assoc.
Qed.

Lemma plug_height c t : height (plug c t) = cheight c (height t).
Proof.
  revert t. induction c as [|[d p s] c IH]; intros t; simpl; [done|]. by rewrite IH, mkN_height.
Qed.

Lemma avl_plug B c t : avl B (plug c t) <-> avl B t /\ cavl B c (height t).
Proof.
  revert t. induction c as [|[d p s] c IH]; intros t; simpl; [tauto|].
  rewrite IH, mkN_avl, mkN_height. tauto.
Qed.

Lemma leads_plug D c t x : dirs D c -> leads D t x -> leads D (plug c t) x.
Proof.
  revert t. induction c as [|[d p s] c IH]; intros t; simpl; [done|].
  intros [Hd Hc]%Forall_cons H. apply IH; [done|]. rewrite mkN_leads. auto.
Qed.

Lemma plug_app c1 c2 t : plug (c1 ++ c2) t = plug c2 (plug c1 t).
Proof. revert t. induction c1 as [|[d p s] c1 IH]; intros t; simpl; auto. Qed.

Lemma before_app c1 c2 : before (c1 ++ c2) = before c2 ++ before c1.
Proof.
  induction c1 as [|[d p s] c1 IH]; simpl; [by rewrite app_nil_r|]. by rewrite IH, (assoc_L (++)).
Qed.

Lemma after_app c1 c2 : after (c1 ++ c2) = after c1 ++ after c2.
Proof. induction c1 as [|[d p s] c1 IH]; simpl; [done|]. by rewrite IH, (assoc_L (++)). Qed.

(** A path can be read off the directions. *)
Lemma leads_path D t x :
  leads D t x -> exists c l r, t = plug c (Node l x r) /\ dirs D c.
Proof.
  assert (Hone : forall d p s t', D !! p = Some (dirZ d) ->
    (exists c l r, t' = plug c (Node l x r) /\ dirs D c) ->
    exists c l r, mkN d t' p s = plug c (Node l x r) /\ dirs D c).
  { intros d p s t' Hd (c & l & r & -> & Hc). exists (c ++ [F d p s]), l, r.
    split; [by rewrite plug_app|]. apply Forall_app. by repeat constructor. }
  induction t as [|l IHl p r IHr]; simpl; [done|]. intros [->|[[Hd H]|[Hd H]]].
  - exists [], l, r. split; [done|constructor].
  - apply (Hone false p r l); auto.
  - apply (Hone true p l r); auto.
Qed.

Lemma rep_addr L q t : rep L q t -> t <> Leaf -> addr t <> NULL.
Proof. destruct t; simpl; [done|]. by intros (? & _). Qed.

Lemma rep_leaf L q t : rep L q t -> addr t = NULL -> t = Leaf.
Proof. destruct t; simpl; [done|]. by intros (? & _). Qed.

Lemma addr_in t : t <> Leaf -> addr t ∈ elems t.
Proof. destruct t; [done|]. simpl. set_solver. Qed.

(** Frames: heaps that agree on the nodes of a tree, or of a path. *)
Lemma rep_frame L L' q t : (forall p, p ∈ elems t -> L' !! p = L !! p) -> rep L q t -> rep L' q t.
Proof.
  revert q. induction t as [|l IHl p r IHr]; simpl; [done|]. intros q HL (? & E & Hl & Hr).
  split; [done|]. rewrite HL by set_solver. split; [done|].
  split; [apply IHl|apply IHr]; auto; intros; apply HL; set_solver.
Qed.

Lemma crep_frame L L' c x :
  (forall p, p ∈ before c ++ after c -> L' !! p = L !! p) -> crep L c x -> crep L' c x.
Proof.
  revert x. induction c as [|[d p s] c IH]; simpl; [done|]. intros x HL (? & E & Hs & Hc).
  split; [done|]. rewrite HL by (destruct d; set_solver). split; [done|]. split.
  - eapply rep_frame; [|done]. intros; apply HL. destruct d; set_solver.
  - apply IH; auto. intros; apply HL. set_solver.
Qed.

Lemma avl_frame B B' t : (forall p, p ∈ elems t -> B' !! p = B !! p) -> avl B t -> avl B' t.
Proof.
  induction t as [|l IHl p r IHr]; simpl; [done|]. intros HL (E & Hl & Hr).
  rewrite HL by set_solver. split; [done|].
  split; [apply IHl|apply IHr]; auto; intros; apply HL; set_solver.
Qed.

Lemma cavl_frame B B' c k :
  (forall p, p ∈ before c ++ after c -> B' !! p = B !! p) -> cavl B c k -> cavl B' c k.
Proof.
  revert k. induction c as [|[d p s] c IH]; simpl; [done|]. intros k HL (E & Hs & Hc).
  rewrite HL by (destruct d; set_solver). split; [done|]. split.
  - eapply avl_frame; [|done]. intros; apply HL. destruct d; set_solver.
  - apply IH; auto. intros; apply HL. set_solver.
Qed.

Lemma leads_frame D D' t x : (forall p, p ∈ elems t -> D' !! p = D !! p) -> leads D t x -> leads D' t x.
Proof.
  induction t as [|l IHl p r IHr]; simpl; [done|]. intros HL.
  rewrite HL by set_solver. intros [?|[[??]|[??]]]; [by left|right; left|right; right];
    (split; [done|]); [apply IHl|apply IHr]; auto; intros; apply HL; set_solver.
Qed.

Lemma dirs_frame D D' c : (forall p, p ∈ before c ++ after c -> D' !! p = D !! p) -> dirs D c -> dirs D' c.
Proof.
  induction c as [|[d p s] c IH]; simpl; [constructor|]. intros HL [H Hc]%Forall_cons. constructor.
  - rewrite HL by (destruct d; set_solver). done.
  - apply IH; auto. intros; apply HL. destruct d; set_solver.
Qed.

(** ** The setters, on the parts of the heap *)

Definition view (h : heap) : gmap Z (Z * Z * Z) * gmap Z Z * gmap Z Z * gmap Z lvTreeNode :=
  (linkm h, balm h, dirm h, restm h).

Definition sl (x : Z) (k : Z * Z * Z) : Z * Z * Z := let '(l, r, p) := k in (x, r, p).
Definition sr (x : Z) (k : Z * Z * Z) : Z * Z * Z := let '(l, r, p) := k in (l, x, p).
Definition sp (x : Z) (k : Z * Z * Z) : Z * Z * Z := let '(l, r, p) := k in (l, r, x).

Lemma fmap_modify {A} (g : lvTreeNode -> A) (k : A -> A) f p (h : heap) n :
  h !! p = Some n -> g (f n) = k (g n) -> g <$> <[p := f n]> h = alter k p (g <$> h).
Proof.
  intros Hn Hk. rewrite fmap_insert, Hk. apply map_eq. intros i.
  destruct (decide (p = i)) as [<-|].
  - by rewrite lookup_insert_eq, lookup_alter_eq, lookup_fmap, Hn.
  - by rewrite lookup_insert_ne, lookup_alter_ne.
Qed.

Lemma fmap_same {A} (g : lvTreeNode -> A) f p (h : heap) n :
  h !! p = Some n -> g (f n) = g n -> g <$> <[p := f n]> h = g <$> h.
Proof.
  intros Hn Hk. rewrite fmap_insert, Hk. apply insert_id. by rewrite lookup_fmap, Hn.
Qed.

Section setters.
Context (h : heap) (L : gmap Z (Z * Z * Z)) (B D : gmap Z Z) (R : gmap Z lvTreeNode).
Context (Hv : view h = (L, B, D, R)).

Lemma view_deref p l r q :
  L !! p = Some (l, r, q) ->
  exists n, deref h p = Ok n /\ avl_left n = l /\ avl_right n = r /\ avl_parent n = q /\
    B !! p = Some (balance n) /\ D !! p = Some (descent_dir n) /\ R !! p = Some (rest n).
Proof.
  injection Hv as <- <- <- <-. unfold linkm, balm, dirm, restm, deref. rewrite !lookup_fmap.
  destruct (h !! p) as [n|]; simpl; [|done]. unfold links. intros [= <- <- <-]. by exists n.
Qed.

Lemma view_deref_some p :
  is_Some (L !! p) ->
  exists n, deref h p = Ok n /\ L !! p = Some (avl_left n, avl_right n, avl_parent n) /\
    B !! p = Some (balance n) /\ D !! p = Some (descent_dir n) /\ R !! p = Some (rest n).
Proof.
  intros [[[l r] q] Hk]. destruct (view_deref p l r q Hk) as (n & E & <- & <- & <- & ?). by exists n.
Qed.

Lemma view_modify f p L' B' D' :
  is_Some (L !! p) ->
  (forall n, h !! p = Some n ->
     view (<[p := f n]> h) = (L', B', D', R)) ->
  exists h', modify f p h = Ok h' /\ view h' = (L', B', D', R).
Proof.
  injection Hv as <- <- <- <-. unfold modify, deref, linkm. rewrite lookup_fmap.
  intros [k Hk] HP. destruct (h !! p) as [n|] eqn:E; [|done]. simpl. eauto.
Qed.

Ltac setter :=
  intros Hp; eapply view_modify; [exact Hp|]; intros n Hn; injection Hv as <- <- <- <-;
  unfold view, linkm, balm, dirm, restm;
  repeat match goal with |- (_, _) = (_, _) => apply f_equal2 end;
  first [ refine (fmap_same _ _ _ _ n Hn _); reflexivity
        | refine (fmap_modify _ _ _ _ _ n Hn _); reflexivity ].

Lemma modify_left x p :
  is_Some (L !! p) ->
  exists h', modify (with_left x) p h = Ok h' /\ view h' = (alter (sl x) p L, B, D, R).
Proof. setter. Qed.
Lemma modify_right x p :
  is_Some (L !! p) ->
  exists h', modify (with_right x) p h = Ok h' /\ view h' = (alter (sr x) p L, B, D, R).
Proof. setter. Qed.
Lemma modify_parent x p :
  is_Some (L !! p) ->
  exists h', modify (with_parent x) p h = Ok h' /\ view h' = (alter (sp x) p L, B, D, R).
Proof. setter. Qed.
Lemma modify_balance x p :
  is_Some (L !! p) ->
  exists h', modify (with_balance x) p h = Ok h' /\ view h' = (L, alter (const x) p B, D, R).
Proof. setter. Qed.
Lemma modify_dir x p :
  is_Some (L !! p) ->
  exists h', modify (with_dir x) p h = Ok h' /\ view h' = (L, B, alter (const x) p D, R).
Proof. setter. Qed.
End setters.

Lemma mkN_elem q d t p s : q ∈ elems (mkN d t p s) <-> q = p \/ q ∈ elems t \/ q ∈ elems s.
Proof. rewrite mkN_elems. destruct d; rewrite elem_of_app, elem_of_cons; tauto. Qed.

Lemma mkN_NoDup d t p s :
  NoDup (elems (mkN d t p s)) <->
  NoDup (elems t) /\ NoDup (elems s) /\ (p ∉ elems t) /\ (p ∉ elems s) /\
  (forall q, q ∈ elems t -> q ∉ elems s).
Proof.
  rewrite mkN_elems.
  destruct d; rewrite NoDup_app, NoDup_cons; setoid_rewrite elem_of_cons; naive_solver.
Qed.

Lemma alter_missing {A} (f : A -> A) i (m : gmap Z A) : m !! i = None -> alter f i m = m.
Proof.
  intros Hi. apply map_eq. intros j. destruct (decide (i = j)) as [<-|].
  - by rewrite lookup_alter_eq, Hi.
  - by rewrite lookup_alter_ne.
Qed.

(** ** Symbolic execution of the setters *)

Ltac is_some :=
  rewrite ?lookup_alter_is_Some; first [eassumption | eapply mk_is_Some; eassumption].

Lemma set_parent_of_spec h L B D R x p :
  view h = (L, B, D, R) -> L !! NULL = None -> p = NULL \/ is_Some (L !! p) ->
  exists h', set_parent_of x p h = Ok h' /\ view h' = (alter (sp x) p L, B, D, R).
Proof.
  intros Hv H0 [-> | Hp]; unfold set_parent_of.
  - exists h. by rewrite alter_missing.
  - destruct (Z.eqb_spec p NULL) as [-> |]; simpl; [by rewrite H0 in Hp; destruct Hp|].
    by apply modify_parent.
Qed.

Ltac hstep_with lem :=
  let h' := fresh "h" in let Em := fresh "Em" in let Hv' := fresh "Hv" in
  edestruct lem as (h' & Em & Hv'); [..|rewrite Em; clear Em; cbn [mbind res_bind]].

(** One setter: [Hv] is the view before it. *)
Ltac hmod :=
  match goal with
  | Hv : view ?h = _ |- context [modify (?w ?x) ?p ?h] =>
      let lem := match w with
        | with_left => constr:(modify_left h _ _ _ _ Hv x p)
        | with_right => constr:(modify_right h _ _ _ _ Hv x p)
        | with_parent => constr:(modify_parent h _ _ _ _ Hv x p)
        | with_balance => constr:(modify_balance h _ _ _ _ Hv x p)
        | with_dir => constr:(modify_dir h _ _ _ _ Hv x p)
        end in
      hstep_with lem; [is_some|clear Hv]
  end.

(** Lookups through setters, by the inequalities at hand. *)
Ltac lk :=
  repeat first
    [ rewrite lookup_alter_eq
    | rewrite lookup_alter_ne by first [assumption | apply not_eq_sym; assumption] ].

Ltac hderef lnk :=
  match goal with
  | Hv : view ?h = _ |- context [deref ?h ?p] =>
      let n := fresh "n" in let Ed := fresh "Ed" in
      let El := fresh "El" in let Er := fresh "Er" in let Ep := fresh "Ep" in
      let Eb := fresh "Eb" in let Edir := fresh "Edir" in let Ek := fresh "Ek" in
      edestruct (view_deref h _ _ _ _ Hv p) as (n & Ed & El & Er & Ep & Eb & Edir & Ek);
      [lnk|rewrite Ed; clear Ed; cbn [mbind res_bind]; rewrite ?El, ?Er, ?Ep]
  end.

Ltac hderef_some :=
  match goal with
  | Hv : view ?h = _ |- context [deref ?h ?p] =>
      let n := fresh "n" in let Ed := fresh "Ed" in let El := fresh "El" in
      let Eb := fresh "Eb" in let Edir := fresh "Edir" in let Ek := fresh "Ek" in
      edestruct (view_deref_some h _ _ _ _ Hv p) as (n & Ed & El & Eb & Edir & Ek);
      [is_some|rewrite Ed; clear Ed; cbn [mbind res_bind]]
  end.

Ltac hparent H0 Hp :=
  match goal with
  | Hv : view ?h = _ |- context [set_parent_of ?x ?p ?h] =>
      hstep_with (set_parent_of_spec h _ _ _ _ x p Hv);
      [ rewrite ?lookup_alter_None; exact H0
      | let E := fresh in destruct Hp as [E|E]; [by left|right; rewrite ?lookup_alter_is_Some; exact E]
      | clear Hv]
  end.

(** ** Rotations on trees *)

Lemma lookup_alter_addr {A} (f : A -> A) t (L : gmap Z A) p :
  L !! NULL = None -> p ∉ elems t -> alter f (addr t) L !! p = L !! p.
Proof.
  intros H0 Hp. destruct t as [|l x r]; simpl; [by rewrite alter_missing|].
  apply lookup_alter_ne. intros ->. apply Hp. simpl. set_solver.
Qed.

Lemma rep_reparent L q q' t :
  rep L q t -> NoDup (elems t) -> rep (alter (sp q') (addr t) L) q' t.
Proof.
  destruct t as [|l x r]; simpl; [done|]. intros (? & E & Hl & Hr) Hnd.
  rewrite NoDup_app, NoDup_cons in Hnd. destruct Hnd as (_ & Hlx & Hxr & _).
  split; [done|]. rewrite lookup_alter_eq, E. split; [done|].
  split; (eapply rep_frame; [|eassumption]); intros p Hp; apply lookup_alter_ne; intros ->; [|done].
  apply (Hlx p Hp). set_solver.
Qed.

Lemma rep_alter_ne L f p q t : p ∉ elems t -> rep L q t -> rep (alter f p L) q t.
Proof. intros Hp. apply rep_frame. intros x Hx. apply lookup_alter_ne. by intros ->. Qed.

Lemma rep_alter_addr_ne L f s q t :
  L !! NULL = None -> (forall p, p ∈ elems t -> p ∉ elems s) -> rep L q t -> rep (alter f (addr s) L) q t.
Proof. intros H0 Hp. apply rep_frame. intros x Hx. apply lookup_alter_addr; auto. Qed.

Ltac ne_tac := first [assumption | apply not_eq_sym; assumption | intros ->; contradiction].
Ltac notin_tac := first [assumption | solve [auto]].

(** Lookups of a node that the setters did not touch. *)
Ltac lkn H0 :=
  repeat first
    [ rewrite lookup_alter_ne by ne_tac
    | rewrite lookup_alter_addr by first [rewrite ?lookup_alter_None; exact H0 | notin_tac] ].

(** [rep] of a subtree that only has a new parent, and of an untouched one. *)
Ltac reparent_tac H0 :=
  repeat first
    [ apply rep_alter_ne; [assumption|]
    | apply rep_alter_addr_ne;
        [rewrite ?lookup_alter_None; exact H0 | notin_tac |] ];
  eapply rep_reparent; [|assumption];
  eapply rep_frame; [|eassumption]; intros ? ?; lkn H0; reflexivity.
Ltac frame_tac H0 := eapply rep_frame; [|eassumption]; intros ? ?; lkn H0; reflexivity.

Lemma single_rotation h L B D R d A x T y S q bx :
  view h = (L, B, D, R) -> L !! NULL = None ->
  rep L q (mkN d (mkN d A x T) y S) -> NoDup (elems (mkN d (mkN d A x T) y S)) ->
  B !! x = Some bx ->
  exists h' L', lvAvlTreeSingleRotation h y x (dirZ d) = Ok (h', x) /\
    view h' = (L', (if TREE_IS_NOT_BALANCED bx
                    then alter (const TREE_BALANCED) x (alter (const TREE_BALANCED) y B)
                    else alter (const (dirZ (negb d))) x B), D, R) /\
    rep L' y (mkN d A x (mkN d T y S)) /\
    (forall p, p <> x -> p <> y -> p ∉ elems T -> L' !! p = L !! p).
Proof.
  intros Hv H0 Hr Hnd Hb.
  rewrite mkN_rep, mkN_addr, mkN_rep in Hr. destruct Hr as (Ny & Ly & (Nx & Lx & RA & RT) & RS).
  rewrite !mkN_NoDup in Hnd. setoid_rewrite mkN_elem in Hnd.
  destruct Hnd as ((NA & NT & xA & xT & AT) & NS & yx & yS & xS).
  assert (Nxy : x <> y) by (intros ->; tauto). assert (yA : y ∉ elems A) by tauto.
  assert (yT : y ∉ elems T) by tauto. assert (xS' : x ∉ elems S) by auto.
  assert (ST : forall q, q ∈ elems S -> q ∉ elems T) by (intros ? ? ?; eapply xS; eauto).
  clear yx xS.
  assert (HT : addr T = NULL \/ is_Some (L !! addr T)).
  { destruct T as [|? t ?]; [by left|right]. simpl. destruct RT as (_ & -> & _). eauto. }
  unfold lvAvlTreeSingleRotation.
  assert (HTx : addr T <> x) by (destruct T; simpl; [done|intros ->; apply xT; set_solver]).
  assert (HTy : addr T <> y) by (destruct T; simpl; [done|intros ->; apply yT; set_solver]).
  rewrite dir_left.
  destruct d; cbn [negb mkl] in *;
    hderef ltac:(exact Lx); hmod; hmod; hparent H0 HT; hmod; hderef_some;
    (assert (balance n0 = bx) as -> by congruence); destruct (TREE_IS_NOT_BALANCED bx);
    rewrite ?invert_dir; cbn [mbind res_bind].
  all: repeat hmod; eexists _, _; (split; [done|]); (split; [eassumption|]); split;
    [ rewrite !mkN_rep; lk; rewrite Lx, Ly, mkN_addr; repeat split; try done;
      first [frame_tac H0|reparent_tac H0]
    | intros p ???; lkn H0; done].
Qed.

(** The balances that a double rotation leaves in the two lowered nodes. *)
Definition double_bal (d : bool) (bz : Z) : Z * Z :=
  if bz =? dirZ d then (dirZ (negb d), TREE_BALANCED)
  else if TREE_IS_BALANCED bz then (TREE_BALANCED, TREE_BALANCED)
  else (TREE_BALANCED, dirZ d).

Lemma double_rotation h L B D R d A x P z Q y S q bz :
  view h = (L, B, D, R) -> L !! NULL = None ->
  rep L q (mkN d (mkN (negb d) (mkN d P z Q) x A) y S) ->
  NoDup (elems (mkN d (mkN (negb d) (mkN d P z Q) x A) y S)) ->
  B !! z = Some bz ->
  exists h' L', lvAvlTreeDoubleRotation h y x (dirZ d) = Ok (h', z) /\
    view h' = (L', alter (const TREE_BALANCED) z
                     (alter (const (double_bal d bz).2) x (alter (const (double_bal d bz).1) y B)), D, R) /\
    rep L' x (mkN d (mkN (negb d) P x A) z (mkN d Q y S)) /\
    (forall p, p <> x -> p <> y -> p <> z -> p ∉ elems P -> p ∉ elems Q -> L' !! p = L !! p).
Proof.
  intros Hv H0 Hr Hnd Hb.
  rewrite !mkN_rep, !mkN_addr in Hr. destruct Hr as (Ny & Ly & (Nx & Lx & (Nz & Lz & RP & RQ) & RA) & RS).
  rewrite !mkN_NoDup in Hnd. repeat setoid_rewrite mkN_elem in Hnd.
  destruct Hnd as ((( NP & NQ & zP & zQ & PQ) & NA & xZ & xA & ZA) & NS & yX & yS & XS).
  assert (Nxy : x <> y) by (intros ->; tauto). assert (Nzy : z <> y) by (intros ->; tauto).
  assert (Nxz : x <> z) by (intros ->; tauto).
  assert (yP : y ∉ elems P) by tauto. assert (yQ : y ∉ elems Q) by tauto. assert (yA : y ∉ elems A) by tauto.
  assert (xP : x ∉ elems P) by tauto. assert (xQ : x ∉ elems Q) by tauto. assert (zA : z ∉ elems A) by auto.
  assert (QP : forall q, q ∈ elems Q -> q ∉ elems P) by (intros ? ? ?; by eapply PQ).
  assert (AP : forall q, q ∈ elems A -> q ∉ elems P) by (intros ? ? ?; eapply ZA; eauto).
  assert (AQ : forall q, q ∈ elems A -> q ∉ elems Q) by (intros ? ? ?; eapply ZA; eauto).
  assert (SP : forall q, q ∈ elems S -> q ∉ elems P) by (intros ? ? ?; eapply XS; eauto).
  assert (SQ : forall q, q ∈ elems S -> q ∉ elems Q) by (intros ? ? ?; eapply XS; eauto 6).
  assert (xS : x ∉ elems S) by auto. assert (zS : z ∉ elems S) by auto.
  clear yX XS xZ ZA.
  assert (HP : addr P = NULL \/ is_Some (L !! addr P)).
  { destruct P as [|? t ?]; [by left|right]. simpl. destruct RP as (_ & -> & _). eauto. }
  assert (HQ : addr Q = NULL \/ is_Some (L !! addr Q)).
  { destruct Q as [|? t ?]; [by left|right]. simpl. destruct RQ as (_ & -> & _). eauto. }
  assert (Hout : forall t w, w <> NULL -> w ∉ elems t -> addr t <> w).
  { intros t w Hw Ht. destruct t; simpl in *; [done|]. intros ->. apply Ht. set_solver. }
  pose proof (Hout P x Nx xP). pose proof (Hout P y Ny yP). pose proof (Hout P z Nz zP).
  pose proof (Hout Q x Nx xQ). pose proof (Hout Q y Ny yQ). pose proof (Hout Q z Nz zQ). clear Hout.
  unfold lvAvlTreeDoubleRotation. rewrite dir_left.
  destruct d; cbn [negb mkl] in *;
    hderef ltac:(exact Lx); hderef ltac:(exact Lz); hmod; hmod; hmod; hmod;
    hparent H0 HQ; hparent H0 HP; hmod; hmod; hderef_some;
    (assert (Some (balance n1) = Some bz) as [= ->] by (rewrite <- Eb1; exact Hb)); clear El1 Edir0 Ek0 Edir1 Ek1 Edir Ek;
    match goal with
    | Hv : view _ = (?L7, _, _, _) |- exists h' L', _ /\ _ /\ rep L' x ?T' /\ _ =>
        assert (rep L7 x T' /\ forall p, p <> x -> p <> y -> p <> z -> p ∉ elems P -> p ∉ elems Q ->
          L7 !! p = L !! p) as HL;
        [ split;
          [ rewrite !mkN_rep; lk; rewrite Lx, Ly, Lz, !mkN_addr; repeat split; try done;
            first [frame_tac H0|reparent_tac H0]
          | intros p ?????; lkn H0; done]
        | destruct HL as [HR HF] ]
    end; unfold double_bal;
    destruct (bz =? dirZ _); [|destruct (TREE_IS_BALANCED bz)| |destruct (TREE_IS_BALANCED bz)];
    rewrite ?invert_dir; cbn [mbind res_bind]; repeat hmod;
    eexists _, _; (split; [done|]); (split; [eassumption|]); (split; [exact HR|exact HF]).
Qed.

(** ** Rotations keep the order, restore the balance and the path *)

Lemma mkN_negb d t p s : mkN (negb d) t p s = mkN d s p t.
Proof. by destruct d. Qed.

Lemma mkN_split d t : t <> Leaf -> exists a b, t = mkN d a (addr t) b.
Proof. destruct t as [|l p r]; [done|]. intros _. destruct d; [by exists r, l|by exists l, r]. Qed.

Lemma avl_alter_ne B f p t : p ∉ elems t -> avl B t -> avl (alter f p B) t.
Proof. intros Hp. apply avl_frame. intros x Hx. apply lookup_alter_ne. by intros ->. Qed.

Ltac avl_tac := repeat (apply avl_alter_ne; [assumption|]); assumption.

(** Heights and balances, in both directions. *)
Ltac bal_lia d :=
  rewrite ?mkN_height in *;
  unfold bal_ok, const, dirZ, TREE_BALANCED, TREE_DESCEND_LEFT, TREE_DESCEND_RIGHT in *;
  destruct d; simpl in *; lia.

Ltac bal_rw := repeat match goal with H : ?B !! ?x = Some _ |- context [?B !! ?x] => rewrite H end.

(** The balance of one node after the setters. *)
Ltac bal_tac d :=
  eexists; split;
    [ lk; bal_rw; reflexivity
    | bal_lia d ].

Lemma double_heights d bz p q a s b :
  bal_ok d bz p q -> S (Nat.max p q) = S a -> Nat.max a (S a) = S s -> b = double_bal d bz ->
  bal_ok d TREE_BALANCED (S (Nat.max p a)) (S (Nat.max q s)) /\
  bal_ok (negb d) b.2 p a /\ bal_ok d b.1 q s /\
  S (Nat.max (S (Nat.max p a)) (S (Nat.max q s))) = S (S s).
Proof.
  intros Hk H1 H2 ->. unfold double_bal, TREE_IS_BALANCED.
  unfold bal_ok, dirZ, TREE_BALANCED, TREE_DESCEND_LEFT, TREE_DESCEND_RIGHT in *.
  destruct d; simpl in *; destruct Hk as [[-> Hk]|[[-> Hk]|[-> Hk]]]; simpl; lia.
Qed.

Lemma rotate h L B D R d X y S q :
  view h = (L, B, D, R) -> L !! NULL = None ->
  rep L q (mkN d X y S) -> NoDup (elems (mkN d X y S)) ->
  avl B X -> avl B S -> height X = Datatypes.S (Datatypes.S (height S)) -> B !! y = Some (dirZ d) ->
  exists bx h' L' B' T q',
    B !! addr X = Some bx /\
    (if TREE_IS_BALANCED bx || (bx =? dirZ d)
     then lvAvlTreeSingleRotation h y (addr X) (dirZ d)
     else lvAvlTreeDoubleRotation h y (addr X) (dirZ d)) = Ok (h', addr T) /\
    view h' = (L', B', D, R) /\ rep L' q' T /\ elems T = elems (mkN d X y S) /\ avl B' T /\
    height T = (if TREE_IS_BALANCED bx then height X + 1 else height X)%nat /\
    (forall p, p ∉ elems T -> L' !! p = L !! p /\ B' !! p = B !! p) /\
    (forall w, D !! y = Some (dirZ d) -> D !! addr X = Some bx -> TREE_IS_BALANCED bx = false ->
       w <> addr X -> leads D X w -> leads D T w).
Proof.
  intros Hv H0 Hr Hnd HX HS Hh Hy.
  destruct (mkN_split d X) as (A & T & EX); [by intros ->|]. remember (addr X) as x eqn:Ex. clear Ex.
  subst X. rewrite mkN_height in Hh. rewrite mkN_avl in HX. destruct HX as ((bx & Hb & Hk) & HA & HT).
  assert (Hnd' := Hnd). rewrite !mkN_NoDup in Hnd'. setoid_rewrite mkN_elem in Hnd'.
  destruct Hnd' as ((NA & NT & xA & xT & AT) & NS & yX & yS & XS).
  assert (Nxy : x <> y) by (intros ->; tauto). assert (yA : y ∉ elems A) by tauto.
  assert (yT : y ∉ elems T) by tauto. assert (xS : x ∉ elems S) by auto.
  exists bx. destruct (TREE_IS_BALANCED bx || (bx =? dirZ d)) eqn:Ec; cbv iota.
  - destruct (single_rotation h L B D R d A x T y S q bx Hv H0 Hr Hnd Hb) as (h' & L' & E & Hv' & Hr' & HF).
    eexists h', L', _, (mkN d A x (mkN d T y S)), y. rewrite mkN_addr.
    split; [done|]. split; [exact E|]. split; [exact Hv'|]. split; [done|].
    split; [rewrite !mkN_elems; destruct d; rewrite <- !app_assoc; done|].
    unfold TREE_IS_NOT_BALANCED. destruct (TREE_IS_BALANCED bx) eqn:Eb; cbn [negb].
    + apply Z.eqb_eq in Eb. subst bx. split; [|split; [|split]].
      * rewrite !mkN_avl. split; [bal_tac d|]. split; [avl_tac|]. split; [bal_tac d|]. split; avl_tac.
      * bal_lia d.
      * intros p Hp. rewrite !mkN_elem in Hp. split; [apply HF; tauto|]. apply lookup_alter_ne. intros <-; tauto.
      * done.
    + simpl in Ec. apply Z.eqb_eq in Ec. subst bx. split; [|split; [|split]].
      * rewrite !mkN_avl. split; [bal_tac d|]. split; [avl_tac|]. split; [bal_tac d|]. split; avl_tac.
      * bal_lia d.
      * intros p Hp. rewrite !mkN_elem in Hp. split; [apply HF; tauto|].
        rewrite !lookup_alter_ne by (intros <-; tauto). done.
      * intros w Hdy Hdx _ _. rewrite !mkN_leads, Hdx. intros [->|[[_ Hw]|[[=E'] _]]]; [by left|by right; left|].
        by destruct d.
  - apply orb_false_iff in Ec as [Ec1 Ec2]. rewrite Ec1. apply Z.eqb_neq in Ec1, Ec2.
    assert (bx = dirZ (negb d) /\ height T = Datatypes.S (height A)) as [-> Hh'].
    { destruct Hk as [[? ?]|[[? ?]|?]]; done. }
    destruct (mkN_split d T) as (P & Q & ET); [by intros ->|]. remember (addr T) as z eqn:Ez. clear Ez.
    subst T. rewrite <- (mkN_negb d _ x A) in Hr, Hnd. rewrite mkN_avl in HT.
    destruct HT as ((bz & Hbz & Hkz) & HP & HQ). rewrite mkN_height in Hh'.
    destruct (double_rotation h L B D R d A x P z Q y S q bz Hv H0 Hr Hnd Hbz)
      as (h' & L' & E & Hv' & Hr' & HF).
    eexists h', L', _, (mkN d (mkN (negb d) P x A) z (mkN d Q y S)), x. rewrite mkN_addr.
    split; [done|]. split; [exact E|]. split; [exact Hv'|]. split; [done|].
    split; [rewrite !mkN_elems; destruct d; simpl; rewrite <- ?app_assoc; simpl; by rewrite <- ?app_assoc|].
    rewrite mkN_NoDup in NT. destruct NT as (NP & NQ & zP & zQ & PQ).
    setoid_rewrite mkN_elem in XS. setoid_rewrite mkN_elem in yT. setoid_rewrite mkN_elem in xT.
    setoid_rewrite mkN_elem in AT.
    assert (Nxz : x <> z) by (intros ->; tauto). assert (Nyz : y <> z) by (intros ->; tauto).
    assert (zA : z ∉ elems A) by (intros Hz; destruct (AT z Hz); auto).
    assert (zS : z ∉ elems S) by auto. assert (yP : y ∉ elems P) by tauto. assert (yQ : y ∉ elems Q) by tauto.
    assert (xP : x ∉ elems P) by tauto. assert (xQ : x ∉ elems Q) by tauto.
    rewrite mkN_height in Hh.
    pose proof (double_heights d bz (height P) (height Q) (height A) (height S) _ Hkz Hh' ltac:(lia) eq_refl) as Hdb.
    split; [|split; [|split]].
    + rewrite !mkN_avl, !mkN_height. split; [|split; (split; [|split; avl_tac])];
        (eexists; split; [lk; bal_rw; reflexivity|]); apply Hdb.
    + rewrite !mkN_height, Hh. apply Hdb.
    + intros p Hp. rewrite !mkN_elem in Hp. split; [apply HF; tauto|].
      rewrite !lookup_alter_ne by (intros <-; tauto). done.
    + intros w Hdy Hdx _ Hwx. rewrite !mkN_leads, Hdx, Hdy. rewrite negb_involutive.
      intros [->|[[[=E'] _]|[_ [->|[[Hz Hw]|[Hz Hw]]]]]]; [done|by destruct d|by left| |].
      * right; left. split; [done|]. right; left. done.
      * right; right. split; [done|]. right; left. done.
Qed.
