(* ===== verification/Avlops.v ===== *)
(** The operations of the AVL tree on a heap that represents a tree: what
    insertion, deletion and the walks of Avltree do to the tree, to its order,
    its balance and the path that the fields descent_dir describe. *)

From stdpp Require Import base list numbers option tactics gmap.
From Stdlib Require Import ZArith Lia.
From S2P Require Import Prelude Mval Lvnode Avltree.

Open Scope Z_scope.

(** * Lemmas: hanging a subtree in a path *)

Definition sc (d : bool) (x : Z) : Z * Z * Z -> Z * Z * Z := if d then sr x else sl x.

Lemma sc_mkl d x y s q : sc d x (mkl d y s q) = mkl d x s q.
Proof. by destruct d. Qed.

Lemma mkl_parent d x y q l r q' : mkl d x y q = (l, r, q') -> q' = q.
Proof. by destruct d; intros [= _ _ ->]. Qed.

Lemma mkl_child d x y q l r q' :
  mkl d x y q = (l, r, q') -> (if d then r else l) = x /\ (if d then l else r) = y.
Proof. by destruct d; intros [= -> -> _]. Qed.

Lemma set_child_spec h L B D R d x p :
  view h = (L, B, D, R) -> is_Some (L !! p) -> D !! p = Some (dirZ d) ->
  exists h', set_child_by_dir x p h = Ok h' /\ view h' = (alter (sc d x) p L, B, D, R).
Proof.
  intros Hv Hp Hd. unfold set_child_by_dir. hderef_some.
  assert (descent_dir n = dirZ d) as -> by congruence. rewrite left_dir.
  destruct d; simpl; [eapply modify_right|eapply modify_left]; eassumption.
Qed.

Lemma plug_addr c t t' : addr t = addr t' -> addr (plug c t) = addr (plug c t').
Proof.
  revert t t'. induction c as [|[d p s] c IH]; intros t t' H; [done|]. simpl. apply IH. by rewrite !mkN_addr.
Qed.

Lemma plug_addr_frame f c t t' : addr (plug (f :: c) t) = addr (plug (f :: c) t').
Proof. destruct f as [d p s]. simpl. apply plug_addr. by rewrite !mkN_addr. Qed.

Lemma caddr_null c L x : crep L c x -> caddr c = NULL -> c = [].
Proof. destruct c as [|[d p s] c]; [done|]. simpl. by intros (? & _). Qed.

(** The addresses of a path. *)
Definition cels (c : list frame) : list Z := before c ++ after c.

Lemma cels_frame d p s c : cels (F d p s :: c) ≡ₚ p :: elems s ++ cels c.
Proof. unfold cels. simpl. destruct d; simpl; solve_Permutation. Qed.

Lemma plug_perm c t : elems (plug c t) ≡ₚ elems t ++ cels c.
Proof. rewrite plug_elems. unfold cels. solve_Permutation. Qed.

Lemma plug_NoDup c t :
  NoDup (elems (plug c t)) <->
  NoDup (elems t) /\ NoDup (cels c) /\ forall p, p ∈ elems t -> p ∉ cels c.
Proof. rewrite plug_perm, NoDup_app. tauto. Qed.

Lemma frame_NoDup d p s c :
  NoDup (cels (F d p s :: c)) <->
  (p ∉ elems s) /\ (p ∉ cels c) /\ NoDup (elems s) /\ NoDup (cels c) /\ forall q, q ∈ elems s -> q ∉ cels c.
Proof. rewrite cels_frame, NoDup_cons, NoDup_app, not_elem_of_app. tauto. Qed.

Lemma frame_cels q d p s c : q ∈ cels (F d p s :: c) <-> q = p \/ q ∈ elems s \/ q ∈ cels c.
Proof. rewrite cels_frame, elem_of_cons, elem_of_app. done. Qed.

(** A new subtree below a path: only the head of the path changes. *)
Lemma crep_child d p s c L x y :
  NoDup (cels (F d p s :: c)) ->
  crep L (F d p s :: c) x -> crep (alter (sc d y) p L) (F d p s :: c) y.
Proof.
  intros (Hps & Hpc & _)%frame_NoDup (Np & E & Hs & Hc).
  simpl. split; [done|]. rewrite lookup_alter_eq, E. simpl. rewrite sc_mkl. split; [done|]. split.
  - by apply rep_alter_ne.
  - eapply crep_frame; [|done]. intros q Hq. apply lookup_alter_ne. by intros ->.
Qed.

Lemma hang_spec h lvt L B D R c y t :
  view h = (L, B, D, R) -> rep L (caddr c) t -> crep L c y -> dirs D c -> NoDup (elems (plug c t)) ->
  exists h' L',
    (if negb (caddr c =? NULL) then h ← set_child_by_dir (addr t) (caddr c) h; Ok (h, lvt)
     else Ok (h, set_root (addr t) lvt)) = Ok (h', (if decide (c = []) then set_root (addr t) lvt else lvt)) /\
    view h' = (L', B, D, R) /\ (L !! NULL = None -> L' !! NULL = None) /\ rep L' NULL (plug c t).
Proof.
  intros Hv Ht Hc Hd Hnd. destruct c as [|[d p s] c]; cbn [caddr].
  - rewrite decide_True by done. simpl. by exists h, L.
  - rewrite decide_False by done. assert (Hc' := Hc). destruct Hc' as (Np & Lp & _).
    destruct (Z.eqb_spec p NULL) as [|_]; [done|]. cbn [negb]. apply Forall_cons in Hd as [Hdp _].
    destruct (set_child_spec h L B D R d (addr t) p Hv) as (h1 & -> & Hv1); [by eexists|done|].
    cbn [mbind res_bind]. eexists _, _. split; [done|]. split; [eassumption|].
    split; [by rewrite lookup_alter_None|]. apply plug_NoDup in Hnd as (NT & NC & TC).
    rewrite rep_plug. split; [|by eapply crep_child].
    apply rep_alter_ne; [|done]. intros Hp. apply (TC p Hp), frame_cels. by left.
Qed.

Lemma crep_alter_ne L f p c x : p ∉ cels c -> crep L c x -> crep (alter f p L) c x.
Proof. intros Hp. apply crep_frame. intros y Hy. apply lookup_alter_ne. by intros ->. Qed.

Lemma link_rotated_spec h lvt L B D R c y q t :
  view h = (L, B, D, R) -> L !! NULL = None -> rep L q t -> t <> Leaf -> crep L c y ->
  dirs D c -> NoDup (elems (plug c t)) ->
  exists h' L', link_rotated h lvt (addr t) (caddr c) =
      Ok (h', (if decide (c = []) then set_root (addr t) lvt else lvt)) /\
    view h' = (L', B, D, R) /\ L' !! NULL = None /\ rep L' NULL (plug c t).
Proof.
  intros Hv H0 Ht Hleaf Hc Hd Hnd. unfold link_rotated.
  assert (Hnd' := Hnd). apply plug_NoDup in Hnd' as (NT & NC & TC).
  assert (is_Some (L !! addr t)) by (destruct t; [done|]; destruct Ht as (_ & E & _); eexists; exact E).
  hmod. pose proof (rep_reparent L q (caddr c) t Ht NT) as Ht'.
  destruct (hang_spec h0 lvt _ B D R c y t Hv0 Ht') as (h' & L' & E & Hv' & H0' & Hr); try done.
  - apply crep_alter_ne; [|done]. apply TC. by apply addr_in.
  - exists h', L'. split; [exact E|]. split; [done|]. split; [|done]. apply H0'. by rewrite lookup_alter_None.
Qed.

(** * Lemmas: insertion *)

Lemma plug_root_in f c t : addr (plug (f :: c) t) ∈ cels (f :: c).
Proof.
  revert f t. induction c as [|g c IH]; intros [d p s] t; [|simpl plug].
  - simpl. rewrite mkN_addr, frame_cels. by left.
  - rewrite frame_cels. right; right. apply (IH g).
Qed.

(** A subtree [t] of a path [c] has grown by one level at the node [x], on
    which the directions lead; its root is not balanced unless it is [x]. *)
Record grown (B D : gmap Z Z) (c : list frame) (t : tree) (k : nat) (x : Z) : Prop := {
  gr_avl : avl B t; gr_cavl : cavl B c k; gr_height : height t = S k;
  gr_dirs : dirs D c; gr_leads : leads D t x;
  gr_hot : height t = 1%nat \/ addr t <> x /\
    exists b, B !! addr t = Some b /\ D !! addr t = Some b /\ b <> TREE_BALANCED
}.

Lemma dirs_cons D d p s c : dirs D (F d p s :: c) <-> D !! p = Some (dirZ d) /\ dirs D c.
Proof. unfold dirs. by rewrite Forall_cons. Qed.

Lemma dirZ_not_bal d : dirZ d <> TREE_BALANCED.
Proof. by destruct d. Qed.

(** One step up through a balanced node. *)
Lemma grown_up B D d p s c t k x :
  NoDup (elems (plug (F d p s :: c) t)) -> p <> x ->
  grown B D (F d p s :: c) t k x -> B !! p = Some TREE_BALANCED ->
  grown (alter (const (dirZ d)) p B) D c (mkN d t p s) (S k) x.
Proof.
  intros (NT & NC & TC)%plug_NoDup Hx [At Ac Ht Hd Hl _] Hb.
  assert (Hpt : p ∉ elems t) by (intros Hp; apply (TC p Hp), frame_cels; by left).
  apply frame_NoDup in NC as (Hps & Hpc & _ & _ & Hsc).
  destruct Ac as ((b & Hb' & Hk) & As & Ac). rewrite Hb in Hb'. injection Hb' as <-.
  assert (Es : height s = k) by (destruct Hk as [[_ ?]|[[E _]|[E _]]]; [done|by destruct d..]).
  apply dirs_cons in Hd as [Hdp Hd]. rewrite Es, Nat.max_id in Ac. split.
  - rewrite mkN_avl. split; [|split; avl_tac]. eexists. split; [by rewrite lookup_alter_eq, Hb|].
    right; left. split; [done|lia].
  - eapply cavl_frame; [|done]. intros q Hq. apply lookup_alter_ne. by intros ->.
  - rewrite mkN_height. lia.
  - done.
  - rewrite mkN_leads. auto.
  - right. rewrite mkN_addr. split; [done|]. exists (dirZ d). rewrite lookup_alter_eq, Hb.
    auto using dirZ_not_bal.
Qed.

Lemma climb_spec fuel c h L B D R t k x :
  view h = (L, B, D, R) -> rep L NULL (plug c t) -> NoDup (elems (plug c t)) -> c <> [] -> t <> Leaf ->
  x ∈ elems t -> grown B D c t k x -> (length c <= fuel)%nat ->
  exists h' B' d q s c' t' k',
    climb_balanced fuel h (addr (plug c t)) (caddr c) = Ok (h', q) /\ view h' = (L, B', D, R) /\
    plug c t = plug (F d q s :: c') t' /\ grown B' D (F d q s :: c') t' k' x /\
    cheight c k = cheight (F d q s :: c') k' /\ t' <> Leaf /\
    (B' !! q <> Some TREE_BALANCED \/ c' = []).
Proof.
  revert c h B t k. induction fuel as [|fuel IH]; intros c h B t k Hv Hr Hnd Hc Hleaf Hx Hg Hf.
  { destruct c; simpl in Hf; [done|lia]. }
  destruct c as [|[d p s] c]; [done|]. cbn [climb_balanced caddr].
  assert (Hr' := Hr). rewrite rep_plug in Hr'. destruct Hr' as [Ht (Np & Lp & Hs & Hcr)].
  destruct c as [|f c].
  - replace (addr _ =? p) with true by (symmetry; apply Z.eqb_eq, mkN_addr).
    exists h, B, d, p, s, [], t, k. repeat (split; [done|]). by right.
  - assert (Hnd' := Hnd). apply plug_NoDup in Hnd' as (NT & NC & TC).
    assert (Hpt : p ∉ elems t) by (intros Hp; apply (TC p Hp), frame_cels; by left).
    destruct (Z.eqb_spec (addr (plug (F d p s :: f :: c) t)) p) as [E|_].
    { exfalso. apply frame_NoDup in NC as (_ & Hpc & _). apply Hpc. rewrite <- E at 1. exact (plug_root_in f c (mkN d t p s)). }
    hderef_some. assert (avl_parent n = caddr (f :: c)) as -> by (rewrite Lp in El; injection El as El; by eapply mkl_parent).
    destruct (gr_cavl _ _ _ _ _ _ Hg) as ((b & Hb & Hk) & _ & _).
    assert (b = balance n) as -> by congruence.
    unfold TREE_IS_NOT_BALANCED, TREE_IS_BALANCED. destruct (Z.eqb_spec (balance n) TREE_BALANCED) as [E|E]; cbn [negb].
    + rewrite E in *. assert (descent_dir n = dirZ d) as ->.
      { pose proof (gr_dirs _ _ _ _ _ _ Hg) as [Hd _]%dirs_cons. congruence. }
      hmod. destruct (IH (f :: c) h0 _ (mkN d t p s) (S k) Hv0) as (h' & B' & d' & q & s' & c' & t' & k' & Hres).
      * done.
      * done.
      * done.
      * by destruct d.
      * rewrite mkN_elem. auto.
      * apply grown_up; auto. by intros ->.
      * simpl in *. lia.
      * exists h', B', d', q, s', c', t', k'. destruct Hres as (Hc' & Hv' & Hp & Hg' & Hh' & ?).
        split; [exact Hc'|]. split; [done|]. split; [exact Hp|]. split; [done|]. split; [|done].
        rewrite <- Hh'. simpl. destruct Hk as [[_ Hk]|[[Hk _]|[Hk _]]]; [|by destruct d..].
        by rewrite <- Hk, Nat.max_id.
    + exists h, B, d, p, s, (f :: c), t, k. split; [done|]. repeat (split; [done|]). left.
      rewrite Hb. by intros [=].
Qed.

(** The heap and the tree structure represent the tree [T], which is an AVL tree. *)
Definition tree_wf (h : heap) (lvt : lvTree) (T : tree) : Prop :=
  linkm h !! NULL = None /\ rep (linkm h) NULL T /\ NoDup (elems T) /\ avl (balm h) T /\
  avl_root lvt = addr T /\ avl_height lvt = Z.of_nat (height T).

Definition shape_of (T : tree) (lvt : lvTree) : lvTree :=
  set_root (addr T) (set_height (Z.of_nat (height T)) lvt).

Lemma shape_same lvt T :
  avl_root lvt = addr T -> avl_height lvt = Z.of_nat (height T) -> lvt = shape_of T lvt.
Proof. unfold shape_of, set_root, set_height. intros <- <-. by destruct lvt. Qed.

Lemma wf_intro h lvt L B D R T :
  view h = (L, B, D, R) -> L !! NULL = None -> rep L NULL T -> NoDup (elems T) -> avl B T ->
  tree_wf h (shape_of T lvt) T.
Proof. intros [= <- <- <- <-] ????. by repeat split. Qed.

(** A rotated subtree that leaves the height of the tree as it was. *)
Lemma link_shape lvt c t T :
  avl_root lvt = addr (plug c t) -> avl_height lvt = Z.of_nat (height (plug c T)) ->
  (if decide (c = []) then set_root (addr T) lvt else lvt) = shape_of (plug c T) lvt.
Proof.
  intros Hr Hh. unfold shape_of. rewrite <- Hh. destruct (decide (c = [])) as [->|Hc].
  - by destruct lvt.
  - destruct c as [|f c]; [done|]. rewrite (plug_addr_frame f c T t), <- Hr. by destruct lvt.
Qed.

Lemma rep_null_notin L q t : rep L q t -> NULL ∉ elems t.
Proof.
  revert q. induction t as [|l IHl p r IHr]; simpl; intros q; [set_solver|].
  intros (Np & _ & Hl & Hr). rewrite elem_of_app, elem_of_cons.
  intros [H|[H|H]]; [by eapply IHl|by symmetry in H|by eapply IHr].
Qed.

Lemma elems_leaf t : elems t = [] -> t = Leaf.
Proof. destruct t as [|l p r]; [done|]. simpl. by destruct (elems l). Qed.

Lemma plug_elems_eq c t t' : elems t = elems t' -> elems (plug c t) = elems (plug c t').
Proof. intros E. by rewrite !plug_elems, E. Qed.

Lemma cavl_alter_ne B f p c k : p ∉ cels c -> cavl B c k -> cavl (alter f p B) c k.
Proof. intros Hp. apply cavl_frame. intros x Hx. apply lookup_alter_ne. by intros ->. Qed.

Lemma rebalance_insert_spec h lvt L B D R d q s c t k x :
  let W := plug (F d q s :: c) t in
  view h = (L, B, D, R) -> L !! NULL = None -> rep L NULL W -> NoDup (elems W) -> t <> Leaf ->
  grown B D (F d q s :: c) t k x -> B !! q <> Some TREE_BALANCED \/ c = [] ->
  avl_root lvt = addr W -> avl_height lvt = Z.of_nat (cheight (F d q s :: c) k) ->
  exists h' L' B' T', rebalance_insert h lvt q = Ok (h', shape_of T' lvt) /\
    view h' = (L', B', D, R) /\ L' !! NULL = None /\ rep L' NULL T' /\ elems T' = elems W /\
    avl B' T' /\ leads D T' x.
Proof.
  intros W Hv H0 Hr Hnd Hleaf Hg Hq Hroot Hh. unfold W in *. clear W.
  assert (Hr' := Hr). rewrite rep_plug in Hr'. destruct Hr' as [Ht (Np & Lp & Hs & Hcr)].
  assert (Hnd' := Hnd). apply plug_NoDup in Hnd' as (NT & NC & TC).
  assert (Hqt : q ∉ elems t) by (intros Hp; apply (TC q Hp), frame_cels; by left).
  apply frame_NoDup in NC as (Hqs & Hqc & NS & NC & SC).
  destruct Hg as [At ((b & Hb & Hk) & As & Ac) Hht [Hd Hdc]%dirs_cons Hl Hhot].
  unfold rebalance_insert. hderef_some.
  assert (balance n = b) as -> by congruence. assert (descent_dir n = dirZ d) as -> by congruence.
  rewrite left_dir. rewrite Lp in El. injection El as El.
  assert ((if negb d then (avl_left n, TREE_LEFT_HEAVY) else (avl_right n, TREE_RIGHT_HEAVY)) =
    (addr t, dirZ d)) as ->.
  { apply mkl_child in El as [El _]. rewrite <- El. by destruct d. }
  rewrite invert_dir. cbn [mbind res_bind]. unfold TREE_IS_BALANCED.
  destruct (Z.eqb_spec b TREE_BALANCED) as [->|Nb].
  { (* the tree grows *)
    destruct Hq as [Hq| ->]; [by rewrite Hb in Hq|]. hmod.
    assert (Es : height s = k) by (destruct Hk as [[_ ?]|[[E _]|[E _]]]; [done|by destruct d..]).
    exists h0, L, (alter (const (dirZ d)) q B), (mkN d t q s). split.
    { unfold shape_of. simpl plug in *. f_equal. f_equal. rewrite <- Hroot. unfold set_root, set_height. simpl.
      f_equal. rewrite Hh. simpl cheight. rewrite mkN_height. lia. }
    repeat (split; [done|]). split.
    - rewrite mkN_avl. split; [|split; avl_tac]. eexists. split; [by rewrite lookup_alter_eq, Hb|].
      right; left. split; [done|lia].
    - rewrite mkN_leads. auto. }
  destruct (Z.eqb_spec b (dirZ (negb d))) as [->|Nb'].
  { (* more balanced *)
    hmod. assert (Es : height s = S k) by (destruct Hk as [[E _]|[[E _]|[_ E]]]; [by destruct d..|done]).
    exists h0, L, (alter (const TREE_BALANCED) q B), (plug c (mkN d t q s)). split.
    { rewrite <- (shape_same lvt); [done|done|]. rewrite Hh. simpl cheight.
      rewrite plug_height, mkN_height, Es, Hht. do 2 f_equal. lia. }
    repeat (split; [done|]). split.
    - rewrite avl_plug, mkN_avl, mkN_height. split; [split; [|split; avl_tac]|].
      + eexists. split; [by rewrite lookup_alter_eq, Hb|]. left. split; [done|lia].
      + apply cavl_alter_ne; [done|]. rewrite Hht, Es, Nat.max_id.
        rewrite Es in Ac. by replace (S (Nat.max k (S k))) with (S (S k)) in Ac by lia.
    - apply leads_plug; [done|]. rewrite mkN_leads. auto. }
  assert (b = dirZ d /\ k = S (height s)) as [-> Hks] by (destruct Hk as [[? _]|[?|[? _]]]; done).
  assert (Hrot : rep L (caddr c) (mkN d t q s)) by (rewrite mkN_rep; done).
  assert (Hndr : NoDup (elems (mkN d t q s))).
  { rewrite mkN_NoDup. repeat (split; [done|]). intros p Hp Hp'. apply (TC p Hp), frame_cels. auto. }
  destruct (rotate h L B D R d t q s _ Hv H0 Hrot Hndr At As ltac:(lia) Hb)
    as (bx & h' & L' & B' & T & q' & Hbx & E & Hv' & HrT & HeT & HaT & HhT & HF & HlT).
  destruct Hhot as [?|(Hax & bx' & Hbx' & Hdx & Nbx)]; [lia|].
  rewrite Hbx in Hbx'. injection Hbx' as <-.
  apply Z.eqb_neq in Nbx. unfold TREE_IS_BALANCED in *. rewrite Nbx in *. simpl in E.
  assert (Hix : is_Some (L !! addr t)).
  { destruct t; [done|]. destruct Ht as (_ & Et & _). eexists. exact Et. }
  hderef_some. assert (balance n0 = bx) as -> by congruence. rewrite E. cbn [mbind res_bind].
  apply mkl_parent in El. rewrite El.
  assert (HcT : forall p, p ∈ cels c -> p ∉ elems T).
  { intros p Hp. rewrite HeT, mkN_elem. intros [->|[Hp'|Hp']]; [done| |by apply (SC p)].
    apply (TC p Hp'), frame_cels. auto. }
  destruct (link_rotated_spec h' lvt L' B' D R c q q' T) as (h2 & L2 & E2 & Hv2 & H02 & Hr2); try done.
  - destruct (HF NULL) as [-> _]; [|done]. by eapply rep_null_notin.
  - intros ->. symmetry in HeT. apply elems_leaf in HeT. by destruct d.
  - eapply crep_frame; [|done]. intros p Hp. apply HF. by apply HcT.
  - rewrite (plug_elems_eq c T (mkN d t q s)); done.
  - exists h2, L2, B', (plug c T). rewrite E2. split; [|split; [done|split; [done|split; [done|]]]].
    + do 2 f_equal. rewrite (link_shape lvt c (mkN d t q s)); [done|done|].
      rewrite Hh, plug_height, HhT, Hht. simpl cheight. do 2 f_equal. lia.
    + split; [by apply (plug_elems_eq c T (mkN d t q s))|]. split.
      * rewrite avl_plug, HhT, Hht. split; [done|]. eapply cavl_frame with (B := B).
        { intros p Hp. apply HF. by apply HcT. }
        by replace (S (Nat.max k (height s))) with (S k) in Ac by lia.
      * apply leads_plug; [done|]. by apply HlT.
Qed.

(** ** Fuel *)

Lemma elems_in_heap L q t : rep L q t -> forall p, p ∈ elems t -> p ∈ dom L.
Proof.
  revert q. induction t as [|l IHl p r IHr]; simpl; intros q; [set_solver|].
  intros (_ & E & Hl & Hr) x. rewrite elem_of_app, elem_of_cons. intros [Hx|[->|Hx]].
  - by eapply IHl.
  - apply elem_of_dom. eauto.
  - by eapply IHr.
Qed.

Lemma elems_size h L B D R q t :
  view h = (L, B, D, R) -> rep L q t -> NoDup (elems t) -> (length (elems t) <= size h)%nat.
Proof.
  intros [= <- _ _ _] Hr Hnd. pose proof (elems_in_heap _ _ _ Hr) as Hd.
  transitivity (size (list_to_set (elems t) : gset Z)).
  - by rewrite size_list_to_set.
  - rewrite <- size_dom. apply subseteq_size. intros p Hp. apply elem_of_list_to_set, Hd in Hp.
    unfold linkm in Hp. by rewrite dom_fmap in Hp.
Qed.

Lemma path_length c t : (length c + height t <= length (elems (plug c t)))%nat.
Proof.
  rewrite plug_perm, length_app.
  assert (Hh : (height t <= length (elems t))%nat).
  { induction t; simpl; [lia|]. rewrite length_app. simpl. lia. }
  assert (Hc : (length c <= length (cels c))%nat); [|lia].
  clear Hh. induction c as [|[d p s] c IH]; [simpl; lia|]. rewrite cels_frame. simpl. rewrite length_app. lia.
Qed.

(** ** The insertion of a node below a path *)

Lemma init_view h lvt key parent p n L B D R :
  view h = (L, B, D, R) -> h !! p = Some n ->
  exists h', modify (init_node lvt key parent) p h = Ok h' /\
    view h' = (<[p := (NULL, NULL, parent)]> L, <[p := TREE_BALANCED]> B, D,
               <[p := rest (init_node lvt key parent n)]> R).
Proof.
  intros [= <- <- <- <-] Hn. unfold modify, deref. rewrite Hn. simpl. eexists. split; [done|].
  unfold view, linkm, balm, dirm, restm. rewrite !fmap_insert.
  assert (Hl : links (init_node lvt key parent n) = (NULL, NULL, parent) /\
    balance (init_node lvt key parent n) = TREE_BALANCED /\
    descent_dir (init_node lvt key parent n) = descent_dir n).
  { unfold init_node, init_key. by repeat case_match. }
  destruct Hl as (-> & -> & ->). do 2 f_equal. apply insert_id. by rewrite lookup_fmap, Hn.
Qed.

Definition clue_after (c : list frame) (lvt : lvTree) : Z * Z :=
  match c with
  | [] => (NULL, NULL)
  | F d p _ :: _ => if d then (p, lastNodeMax lvt) else (lastNodeMin lvt, p)
  end.

Lemma insert_spec h lvt c key node n :
  tree_wf h lvt (plug c Leaf) -> dirs (dirm h) c ->
  h !! node = Some n -> node <> NULL -> node ∉ elems (plug c Leaf) ->
  exists h' lvt' T, lvAvlTreeNodeInsert h lvt key (caddr c) node = Ok (h', lvt') /\
    tree_wf h' lvt' T /\ elems T = before c ++ node :: after c /\ leads (dirm h') T node /\
    dirm h' = dirm h /\ restm h' = <[node := rest (init_node lvt key (caddr c) n)]> (restm h) /\
    lvt' = shape_of T (set_clue node (clue_after c lvt).1 (clue_after c lvt).2 lvt).
Proof.
  intros (H0 & Hr & Hnd & Ha & Hroot & Hh) Hd Hn Nn Hni.
  destruct (init_view h lvt key (caddr c) node n _ _ _ _ eq_refl Hn) as (h1 & E1 & Hv1).
  unfold lvAvlTreeNodeInsert. rewrite E1. cbn [mbind res_bind]. clear E1.
  assert (Hic : node ∉ cels c) by (intros H; apply Hni; rewrite plug_perm; simpl; done).
  assert (Hr1 := Hr). rewrite rep_plug in Hr1. destruct Hr1 as [_ Hcr]. simpl in Hcr.
  set (L := linkm h) in *. set (B := balm h) in *. set (D := dirm h) in *. set (R := restm h) in *.
  set (L1 := <[node := (NULL, NULL, caddr c)]> L) in *. set (B1 := <[node := TREE_BALANCED]> B) in *.
  set (R1 := <[node := rest (init_node lvt key (caddr c) n)]> R) in *.
  assert (Hnd1 : NoDup (elems (plug c (Node Leaf node Leaf)))).
  { apply plug_NoDup in Hnd as (_ & NC & _). apply plug_NoDup. simpl.
    split; [apply NoDup_singleton|]. split; [done|]. intros p Hp%list_elem_of_singleton. by subst. }
  assert (H01 : L1 !! NULL = None) by (unfold L1; by rewrite lookup_insert_ne).
  destruct c as [|[d p s] c].
  - (* the root *)
    cbn [caddr] in *. change (negb (NULL =? NULL)) with false. cbv iota.
    exists h1, (shape_of (Node Leaf node Leaf) (set_clue node NULL NULL lvt)), (Node Leaf node Leaf).
    split; [done|]. split.
    { eapply wf_intro; [exact Hv1|done|..|done|].
      - simpl. split; [done|]. unfold L1. by rewrite lookup_insert_eq.
      - simpl. split; [|done]. exists TREE_BALANCED. unfold B1. rewrite lookup_insert_eq. split; [done|by left]. }
    injection Hv1 as _ _ ED ER. rewrite ED, ER. repeat (split; [done|]). split; [by left|done].
  - (* below a node *)
    cbn [caddr]. destruct Hcr as (Np & Lp & Hs & Hcr).
    assert (node <> p) by (intros ->; apply Hic, frame_cels; by left).
    assert (Hps : is_Some (L1 !! p)) by (unfold L1; rewrite lookup_insert_ne by done; eauto).
    destruct (Z.eqb_spec p NULL) as [|_]; [done|]. cbn [negb].
    assert (Hd' := Hd). apply dirs_cons in Hd' as [Hdp _].
    hderef_some. assert (descent_dir n0 = dirZ d) as -> by congruence. rewrite left_dir.
    set (ck := clue_after (F d p s :: c) lvt).
    assert (exists h2, (if negb d
        then h0 ← modify (with_left node) p h1; Ok (h0, set_clue node (lastNodeMin lvt) p lvt)
        else h0 ← modify (with_right node) p h1; Ok (h0, set_clue node p (lastNodeMax lvt) lvt)) =
        Ok (h2, set_clue node ck.1 ck.2 lvt) /\ view h2 = (alter (sc d node) p L1, B1, D, R1))
      as (h2 & -> & Hv2).
    { unfold ck. destruct d; cbn [negb]; hmod; eexists; (split; [done|done]). }
    cbn [mbind res_bind].
    assert (Hcr1 : crep (alter (sc d node) p L1) (F d p s :: c) node).
    { apply crep_child with NULL; [by apply plug_NoDup in Hnd1 as (_ & ? & _)|].
      eapply crep_frame; [|split; [exact Np|split; [exact Lp|split; [exact Hs|exact Hcr]]]].
      intros q Hq. unfold L1. apply lookup_insert_ne. by intros <-. }
    assert (Hr2 : rep (alter (sc d node) p L1) NULL (plug (F d p s :: c) (Node Leaf node Leaf))).
    { rewrite rep_plug. split; [|done]. simpl. split; [done|].
      rewrite lookup_alter_ne by done. unfold L1. by rewrite lookup_insert_eq. }
    assert (Hg : grown B1 D (F d p s :: c) (Node Leaf node Leaf) 0 node).
    { split; [..|by left].
      - simpl. split; [|done]. exists TREE_BALANCED. unfold B1. rewrite lookup_insert_eq. split; [done|by left].
      - apply avl_plug in Ha as [_ Ha]. eapply cavl_frame; [|done].
        intros q Hq. unfold B1. apply lookup_insert_ne. by intros <-.
      - done.
      - done.
      - by left. }
    change (avl_root (set_clue node ck.1 ck.2 lvt)) with (avl_root lvt).
    rewrite Hroot, (plug_addr_frame _ _ Leaf (Node Leaf node Leaf)).
    destruct (climb_spec (hfuel h2) (F d p s :: c) h2 _ _ _ _ _ 0 node Hv2 Hr2 Hnd1) as
      (h3 & B3 & d3 & q & s3 & c3 & t3 & k3 & E3 & Hv3 & Hp3 & Hg3 & Hh3 & Hl3 & Hq3); try done.
    { simpl. by apply list_elem_of_singleton. }
    { unfold hfuel. pose proof (elems_size _ _ _ _ _ _ _ Hv2 Hr2 Hnd1).
      pose proof (path_length (F d p s :: c) (Node Leaf node Leaf)). lia. }
    cbn [caddr] in E3. rewrite E3. cbn [mbind res_bind].
    rewrite Hp3 in Hr2, Hnd1.
    destruct (rebalance_insert_spec h3 (set_clue node ck.1 ck.2 lvt) _ _ _ _ d3 q s3 c3 t3 k3 node Hv3)
      as (h4 & L4 & B4 & T & E4 & Hv4 & H04 & Hr4 & He4 & Ha4 & Hl4); try done.
    { by rewrite lookup_alter_None. }
    { cbn [avl_root set_clue]. rewrite Hroot, <- Hp3. apply plug_addr_frame. }
    { cbn [avl_height set_clue]. rewrite Hh, plug_height. f_equal. exact Hh3. }
    exists h4, (shape_of T (set_clue node ck.1 ck.2 lvt)), T. split; [exact E4|].
    assert (Hnd4 : NoDup (elems T)) by (by rewrite He4).
    split; [by eapply wf_intro|]. injection Hv4 as _ _ -> ->.
    split; [by rewrite He4, <- Hp3, plug_elems|]. by repeat (split; [done|]).
Qed.

(** * Lemmas: deletion *)

Lemma shape_set_root T x lvt : shape_of T (set_root x lvt) = shape_of T lvt.
Proof. done. Qed.

Lemma shape_if T (b : bool) x lvt : shape_of T (if b then set_root x lvt else lvt) = shape_of T lvt.
Proof. by destruct b. Qed.

Lemma link_root c t T lvt :
  avl_root lvt = addr (plug c t) ->
  avl_root (if decide (c = []) then set_root (addr T) lvt else lvt) = addr (plug c T).
Proof.
  intros Hr. destruct (decide (c = [])) as [-> | Hc]; [done|].
  destruct c as [|f c]; [done|]. by rewrite Hr, (plug_addr_frame f c T t).
Qed.

Lemma decide_height (b : bool) x lvt :
  avl_height (if b then set_root x lvt else lvt) = avl_height lvt.
Proof. by destruct b. Qed.

(** The balancing act: the subtree below the path is one level too low. *)
Lemma rebalance_delete_spec fuel c h lvt L B D R t :
  view h = (L, B, D, R) -> L !! NULL = None -> rep L NULL (plug c t) -> NoDup (elems (plug c t)) ->
  avl B t -> cavl B c (S (height t)) -> dirs D c ->
  avl_root lvt = addr (plug c t) -> avl_height lvt = Z.of_nat (cheight c (S (height t))) ->
  (length c < fuel)%nat ->
  exists h' L' B' T, rebalance_delete fuel h lvt (caddr c) = Ok (h', shape_of T lvt) /\
    view h' = (L', B', D, R) /\ L' !! NULL = None /\ rep L' NULL T /\
    elems T = elems (plug c t) /\ avl B' T.
Proof.
  revert c h lvt L B t. induction fuel as [|fuel IH]; [lia|].
  intros c h lvt L B t Hv H0 Hr Hnd Ha Hca Hd Hroot Hh Hf. cbn [rebalance_delete].
  destruct c as [|[d p s] c]; cbn [caddr].
  { rewrite Z.eqb_refl. exists h, L, B, t. split; [|done]. do 2 f_equal. unfold shape_of.
    simpl in *. rewrite <- Hroot. unfold set_height, set_root. simpl. f_equal. rewrite Hh. lia. }
  assert (Hr' := Hr). rewrite rep_plug in Hr'. destruct Hr' as [Ht (Np & Lp & Hs & Hcr)].
  assert (Hnd' := Hnd). apply plug_NoDup in Hnd' as (NT & NC & TC).
  assert (Hpt : p ∉ elems t) by (intros Hp; apply (TC p Hp), frame_cels; by left).
  apply frame_NoDup in NC as (Hps & Hpc & NS & NC & SC).
  destruct (Z.eqb_spec p NULL) as [|_]; [done|].
  destruct Hca as ((b & Hb & Hk) & As & Ac). apply dirs_cons in Hd as [Hdp Hd].
  hderef_some. assert (balance n = b) as -> by congruence.
  assert (descent_dir n = dirZ d) as -> by congruence.
  rewrite Lp in El. injection El as El. assert (El' := El). apply mkl_parent in El'. rewrite El'.
  unfold TREE_IS_BALANCED at 1. destruct (Z.eqb_spec b TREE_BALANCED) as [->|Nb].
  { rewrite invert_dir. cbn [mbind res_bind]. hmod.
    assert (Es : S (height t) = height s) by (destruct Hk as [[_ ?]|[[E _]|[E _]]]; [done|by destruct d..]).
    exists h0, L, (alter (const (dirZ (negb d))) p B), (plug c (mkN d t p s)).
    rewrite <- (shape_same lvt); [| done |].
    - repeat (split; [done|]).
      rewrite avl_plug, mkN_avl, mkN_height. split; [split; [|split; avl_tac]|].
      + eexists. split; [by rewrite lookup_alter_eq, Hb|]. right; right. split; [done|lia].
      + apply cavl_alter_ne; [done|]. rewrite <- Es in *. rewrite Nat.max_id in Ac.
        by replace (Nat.max (height t) (S (height t))) with (S (height t)) by lia.
    - rewrite Hh, plug_height, mkN_height. simpl cheight. do 2 f_equal. lia. }
  destruct (Z.eqb_spec b (dirZ d)) as [->|Nb'].
  { hmod. assert (Es : height t = height s) by (destruct Hk as [[E _]|[[_ ?]|[E _]]]; [by destruct d|lia|by destruct d]).
    destruct (IH c h0 lvt L _ (mkN d t p s) Hv0) as (h' & L' & B' & T & E & Hres); try done.
    - rewrite mkN_avl. split; [|split; avl_tac]. eexists. split; [by rewrite lookup_alter_eq, Hb|]. by left.
    - apply cavl_alter_ne; [done|]. rewrite mkN_height, <- Es, Nat.max_id in *.
      by replace (Nat.max (S (height t)) (height t)) with (S (height t)) in Ac by lia.
    - rewrite Hh, mkN_height. simpl cheight. do 2 f_equal. lia.
    - simpl in Hf. lia.
    - by exists h', L', B', T. }
  assert (b = dirZ (negb d) /\ height s = S (S (height t))) as [-> Hks] by (destruct Hk as [[? _]|[[? _]|?]]; done).
  assert ((if TREE_LEFT_HEAVY =? dirZ d then (TREE_RIGHT_HEAVY, avl_right n) else (TREE_LEFT_HEAVY, avl_left n)) =
    (dirZ (negb d), addr s)) as ->.
  { apply mkl_child in El as [_ El]. rewrite <- El. by destruct d. }
  assert (Hrot : rep L (caddr c) (mkN (negb d) s p t)) by (rewrite mkN_negb, mkN_rep; done).
  assert (Hndr : NoDup (elems (mkN d t p s))).
  { rewrite mkN_NoDup. repeat (split; [done|]). intros x Hx Hx'. apply (TC x Hx), frame_cels. auto. }
  rewrite <- (mkN_negb d s p t) in Hndr.
  destruct (rotate h L B D R (negb d) s p t _ Hv H0 Hrot Hndr As Ha Hks Hb)
    as (bx & h' & L' & B' & T & q' & Hbx & E & Hv' & HrT & HeT & HaT & HhT & HF & _).
  assert (Hix : is_Some (L !! addr s)).
  { destruct s; [done|]. destruct Hs as (_ & Et & _). eexists. exact Et. }
  hderef_some. assert (balance n0 = bx) as -> by congruence. rewrite E. cbn [mbind res_bind].
  assert (HcT : forall x, x ∈ cels c -> x ∉ elems T).
  { intros x Hx. rewrite HeT, mkN_elem. intros [->|[Hx'|Hx']]; [done|by apply (SC x)|].
    apply (TC x Hx'), frame_cels. auto. }
  assert (HeT' : elems T = elems (mkN d t p s)) by (rewrite HeT, mkN_negb; done).
  destruct (link_rotated_spec h' lvt L' B' D R c p q' T) as (h2 & L2 & E2 & Hv2 & H02 & Hr2); try done.
  - destruct (HF NULL) as [-> _]; [|done]. by eapply rep_null_notin.
  - intros ->. symmetry in HeT. apply elems_leaf in HeT. by destruct d.
  - eapply crep_frame; [|done]. intros x Hx. apply HF. by apply HcT.
  - rewrite (plug_elems_eq c T (mkN d t p s)); done.
  - rewrite E2. cbn [mbind res_bind].
    assert (Hcl : cavl B' c (S (S (S (height t))))).
    { eapply cavl_frame with (B := B); [intros x Hx; apply HF; by apply HcT|].
      by replace (S (Nat.max (S (height t)) (height s))) with (S (S (S (height t)))) in Ac by lia. }
    destruct (TREE_IS_BALANCED bx).
    + exists h2, L2, B', (plug c T). split; [|split; [done|split; [done|split; [done|split]]]].
      * do 2 f_equal. apply (link_shape lvt c (mkN d t p s)); [done|].
        rewrite Hh, plug_height, HhT. simpl cheight. do 2 f_equal. lia.
      * by apply (plug_elems_eq c T (mkN d t p s)).
      * rewrite avl_plug, HhT, Hks. split; [done|]. by rewrite Nat.add_1_r.
    + destruct (IH c h2 (if decide (c = []) then set_root (addr T) lvt else lvt) L2 B' T Hv2)
        as (h3 & L3 & B3 & T3 & E3 & Hv3 & H03 & Hr3 & He3 & Ha3); try done.
      * by rewrite (plug_elems_eq c T (mkN d t p s)).
      * by rewrite HhT, Hks.
      * by apply link_root with (mkN d t p s).
      * replace (avl_height _) with (avl_height lvt) by (by destruct (decide (c = []))).
        rewrite Hh, HhT. simpl cheight. do 2 f_equal. lia.
      * simpl in Hf. lia.
      * exists h3, L3, B3, T3. rewrite E3. split; [by destruct (decide (c = []))|].
        repeat (split; [done|]). split; [|done]. rewrite He3. by apply (plug_elems_eq c T (mkN d t p s)).
Qed.

(** ** Paths inside a subtree, of which the root has the parent [q] *)

Definition caddrq (q : Z) (c : list frame) : Z := match c with [] => q | F _ p _ :: _ => p end.

Fixpoint crepq (L : gmap Z (Z * Z * Z)) (q : Z) (c : list frame) (x : Z) : Prop :=
  match c with
  | [] => True
  | F d p s :: c' => p <> NULL /\ L !! p = Some (mkl d x (addr s) (caddrq q c')) /\ rep L p s /\ crepq L q c' p
  end.

Lemma rep_plugq L q c t : rep L q (plug c t) <-> rep L (caddrq q c) t /\ crepq L q c (addr t).
Proof.
  revert t. induction c as [|[d p s] c IH]; intros t; simpl; [tauto|].
  rewrite IH, mkN_rep, mkN_addr. tauto.
Qed.

Lemma crepq_frame L L' q c x :
  (forall p, p ∈ cels c -> L' !! p = L !! p) -> crepq L q c x -> crepq L' q c x.
Proof.
  revert x. induction c as [|[d p s] c IH]; simpl; [done|]. intros x HL (? & E & Hs & Hc).
  split; [done|]. rewrite HL by (rewrite frame_cels; auto). split; [done|]. split.
  - eapply rep_frame; [|done]. intros y Hy. apply HL. rewrite frame_cels; auto.
  - apply IH; auto. intros y Hy. apply HL. rewrite frame_cels; auto.
Qed.

Lemma crepq_child d p s c L q x y :
  NoDup (cels (F d p s :: c)) -> crepq L q (F d p s :: c) x ->
  crepq (alter (sc d y) p L) q (F d p s :: c) y.
Proof.
  intros (Hps & Hpc & _)%frame_NoDup (Np & E & Hs & Hc).
  simpl. split; [done|]. rewrite lookup_alter_eq, E. simpl. rewrite sc_mkl. split; [done|]. split.
  - by apply rep_alter_ne.
  - eapply crepq_frame; [|done]. intros z Hz. apply lookup_alter_ne. by intros ->.
Qed.

(** Replacing what is below a path by a subtree. *)
Lemma rep_replace L q d p s c t q' x :
  NoDup (elems (plug (F d p s :: c) t)) -> L !! NULL = None -> rep L q' t -> crepq L q (F d p s :: c) x ->
  rep (alter (sp p) (addr t) (alter (sc d (addr t)) p L)) q (plug (F d p s :: c) t).
Proof.
  intros (NT & NC & TC)%plug_NoDup H0 Ht Hc. rewrite rep_plugq. split.
  - cbn [caddrq]. apply rep_reparent with q'; [|done]. apply rep_alter_ne; [|done].
    intros Hp. apply (TC p Hp), frame_cels. by left.
  - eapply crepq_frame; [|eapply crepq_child; [done|exact Hc]].
    intros z Hz. apply lookup_alter_addr; [by rewrite lookup_alter_None|]. intros Hzt. by apply (TC z).
Qed.

Definition all_left (c : list frame) : Prop := Forall (fun f => match f with F d _ _ => d = false end) c.

Lemma all_left_before c : all_left c -> before c = [].
Proof.
  induction c as [|[d p s] c IH]; [done|]. unfold all_left. rewrite Forall_cons. intros [-> H].
  simpl. by rewrite IH.
Qed.

(** The loop to the in-order successor. *)
Lemma descend_left_spec fuel r h L B D R q :
  view h = (L, B, D, R) -> rep L q r -> NoDup (elems r) -> r <> Leaf -> (height r <= fuel)%nat ->
  exists h' D' c m mr, descend_left fuel h (addr r) = Ok (h', m) /\ view h' = (L, B, D', R) /\
    r = plug c (Node Leaf m mr) /\ all_left c /\ dirs D' c /\
    (forall p, p ∉ cels c -> D' !! p = D !! p).
Proof.
  revert r h D q. induction fuel as [|fuel IH]; intros r h D q Hv Hr Hnd Hl Hf; [by destruct r; simpl in *; [|lia]|].
  destruct r as [|l p s]; [done|]. cbn [descend_left addr]. destruct Hr as (Np & Lp & Hrl & Hrs).
  hderef ltac:(exact Lp). destruct l as [|ll lp ls].
  { simpl. exists h, D, [], p, s. repeat (split; [done|]). split; [constructor|]. split; [constructor|done]. }
  assert (lp <> NULL) by (by destruct Hrl). simpl addr.
  destruct (Z.eqb_spec lp NULL); [done|]. cbn [negb]. hmod.
  change (NoDup (elems (mkN false (Node ll lp ls) p s))) in Hnd. apply mkN_NoDup in Hnd as (NL & NS & pl & ps & LS).
  destruct (IH (Node ll lp ls) h0 _ p Hv0) as (h' & D' & c & m & mr & E & Hv' & Erc & Hal & Hd & HF); try done.
  { cbn [height] in *. lia. }
  assert (Hpc : p ∉ cels c).
  { intros Hp. apply pl. rewrite Erc, plug_perm, elem_of_app. auto. }
  exists h', D', (c ++ [F false p s]), m, mr. split; [exact E|]. split; [done|].
  split; [rewrite plug_app, <- Erc; done|]. split; [by apply Forall_app_2; [|repeat constructor]|]. split.
  - apply Forall_app_2; [done|]. constructor; [|constructor]. rewrite HF, lookup_alter_eq, Edir by done. done.
  - intros x Hx. unfold cels in *. rewrite before_app, after_app in Hx. simpl in Hx.
    rewrite app_nil_r in Hx. rewrite HF by set_solver. apply lookup_alter_ne. set_solver.
Qed.

(** ** Taking a node out *)

(** The path where balancing starts, and the subtree below it, when the node
    above [c] with the children [l] and [r] is taken out. *)
Definition unlinked (L' : gmap Z (Z * Z * Z)) (B' D' : gmap Z Z) (c : list frame) (l r : tree) (H : nat)
    (C : list frame) (t : tree) : Prop :=
  L' !! NULL = None /\ rep L' NULL (plug C t) /\
  elems (plug C t) = before c ++ elems l ++ elems r ++ after c /\
  avl B' t /\ cavl B' C (S (height t)) /\ dirs D' C /\ cheight C (S (height t)) = H.

Lemma unlink_left h lvt L B D R c l x :
  view h = (L, B, D, R) -> L !! NULL = None -> rep L NULL (plug c (Node l x Leaf)) ->
  NoDup (elems (plug c (Node l x Leaf))) -> avl B (plug c (Node l x Leaf)) -> dirs D c ->
  avl_root lvt = addr (plug c (Node l x Leaf)) ->
  exists h' L', unlink_node h lvt x = Ok (h', set_root (addr (plug c l)) lvt, caddr c) /\
    view h' = (L', B, D, R) /\ unlinked L' B D c l Leaf (height (plug c (Node l x Leaf))) c l.
Proof.
  intros Hv H0 Hr Hnd Ha Hd Hroot. unfold unlink_node.
  rewrite rep_plug in Hr. destruct Hr as [(Nx & Lx & Hl & _) Hc]. simpl addr in *.
  rewrite avl_plug in Ha. destruct Ha as [(_ & Hal & _) Hac].
  apply plug_NoDup in Hnd as (NT & NC & TC).
  assert (NT' : NoDup (elems l)) by (simpl in NT; by apply NoDup_app in NT as [? _]).
  assert (lc : forall p, p ∈ elems l -> p ∉ cels c).
  { intros p Hp. apply TC. simpl. rewrite elem_of_app. auto. }
  assert (Hln : addr l = NULL \/ is_Some (L !! addr l)).
  { destruct l; [by left|right]. destruct Hl as (_ & E & _). eexists. exact E. }
  hderef ltac:(exact Lx). change (NULL =? NULL) with true. cbv iota.
  assert (Hgoal : forall L1, crep L1 c (addr l) -> rep L1 x l -> L1 !! NULL = None ->
    unlinked (alter (sp (caddr c)) (addr l) L1) B D c l Leaf (height (plug c (Node l x Leaf))) c l).
  { intros L1 Hc1 Hl1 H01. split; [by rewrite lookup_alter_None|]. split.
    - rewrite rep_plug. split; [by apply rep_reparent with x|].
      eapply crep_frame; [|exact Hc1]. intros y Hy. apply lookup_alter_addr; [done|]. intros Hyl. by apply (lc y).
    - split; [by rewrite plug_elems|]. split; [done|]. split; [|split; [done|]].
      + simpl in Hac. by rewrite Nat.max_0_r in Hac.
      + rewrite plug_height. simpl. by rewrite Nat.max_0_r. }
  destruct c as [|[d p s] c]; cbn [caddr].
  - simpl. destruct (set_parent_of_spec h L B D R NULL (addr l) Hv H0 Hln) as (h' & -> & Hv').
    cbn [mbind res_bind]. eexists _, _. split; [done|]. split; [exact Hv'|]. by apply Hgoal.
  - assert (Hc' := Hc). destruct Hc' as (Np & Lp & _). apply dirs_cons in Hd as [Hdp Hd].
    destruct (Z.eqb_spec p NULL) as [|_]; [done|]. cbn [negb].
    destruct (set_child_spec h L B D R d (addr l) p Hv) as (h1 & -> & Hv1); [by eexists|done|].
    cbn [mbind res_bind].
    destruct (set_parent_of_spec h1 _ B D R p (addr l) Hv1) as (h2 & -> & Hv2).
    { by rewrite lookup_alter_None. }
    { by rewrite lookup_alter_is_Some. }
    cbn [mbind res_bind]. eexists _, _. split.
    { rewrite (plug_addr_frame _ _ l (Node l x Leaf)), <- Hroot. by destruct lvt. }
    split; [exact Hv2|]. apply Hgoal.
    + by eapply crep_child.
    + apply rep_alter_ne; [|done]. intros Hp. apply (lc p Hp), frame_cels. by left.
    + by rewrite lookup_alter_None.
Qed.

Lemma cavl_app B c1 c2 k : cavl B (c1 ++ c2) k <-> cavl B c1 k /\ cavl B c2 (cheight c1 k).
Proof.
  revert k. induction c1 as [|[d p s] c1 IH]; intros k; simpl; [tauto|]. rewrite IH. tauto.
Qed.

Lemma cheight_app c1 c2 k : cheight (c1 ++ c2) k = cheight c2 (cheight c1 k).
Proof. revert k. induction c1 as [|[d p s] c1 IH]; intros k; simpl; auto. Qed.

(** The successor [m] taken out of the right subtree [plug c1 (Node Leaf m mr)]. *)
Lemma unlink_next h L B D R x c1 m mr :
  let r := plug c1 (Node Leaf m mr) in
  view h = (L, B, D, R) -> L !! NULL = None -> rep L x r -> NoDup (elems r) -> x ∉ elems r ->
  dirs D c1 -> all_left c1 ->
  exists h' L' b,
    (if negb (caddrq x c1 =? x) then
       h ← set_child_by_dir (addr mr) (caddrq x c1) h;
       h ← set_parent_of (caddrq x c1) (addr mr) h;
       h ← modify (with_right (addr r)) m h;
       h ← modify (with_parent m) (addr r) h;
       Ok (h, caddrq x c1)
     else Ok (h, m)) = Ok (h', b) /\
    view h' = (L', B, D, R) /\ b = caddrq m c1 /\ L' !! NULL = None /\ rep L' m (plug c1 mr) /\
    L' !! m = Some (NULL, addr (plug c1 mr), caddrq x c1) /\
    (forall y, y ∉ elems r -> L' !! y = L !! y).
Proof.
  intros r Hv H0 Hr Hnd Hx Hd Hal. unfold r in *. clear r.
  assert (Hr' := Hr). rewrite rep_plugq in Hr'. destruct Hr' as [(Nm & Lm & _ & Hmr) Hc1]. simpl addr in *.
  assert (Hnd' := Hnd). apply plug_NoDup in Hnd' as (NT & NC & TC). simpl in NT. apply NoDup_cons in NT as [mm NT].
  assert (Hndr : NoDup (elems (plug c1 mr))).
  { apply plug_NoDup. split; [done|]. split; [done|]. intros p Hp. apply TC. simpl. set_solver. }
  assert (Hin : forall y, y ∈ elems (plug c1 (Node Leaf m mr)) <-> y = m \/ y ∈ elems mr \/ y ∈ cels c1).
  { intros y. rewrite plug_perm. simpl. rewrite elem_of_cons, elem_of_app. tauto. }
  assert (Hmc : m ∉ cels c1) by (apply TC; simpl; set_solver).
  destruct c1 as [|[d p s] c1].
  { simpl. rewrite Z.eqb_refl. simpl. exists h, L, m. repeat (split; [done|]). done. }
  cbn [caddrq]. apply Forall_cons in Hal as [-> Hal]. apply dirs_cons in Hd as [Hdp Hd].
  assert (Hpx : p <> x) by (intros ->; apply Hx, Hin; right; right; apply frame_cels; auto).
  destruct (Z.eqb_spec p x) as [|_]; [done|]. cbn [negb].
  assert (Hpm : p <> m) by (intros ->; apply Hmc, frame_cels; auto).
  assert (Hpmr : p ∉ elems mr) by (intros Hp; apply (TC p); [simpl; set_solver|apply frame_cels; auto]).
  assert (Hc1' := Hc1). destruct Hc1' as (Np & Lp & Hs & _).
  destruct (set_child_spec h L B D R false (addr mr) p Hv) as (h1 & -> & Hv1); [by eexists|done|].
  cbn [mbind res_bind].
  destruct (set_parent_of_spec h1 _ B D R p (addr mr) Hv1) as (h2 & -> & Hv2).
  { by rewrite lookup_alter_None. }
  { destruct mr; [by left|right]. rewrite lookup_alter_is_Some. destruct Hmr as (_ & E & _). eexists; exact E. }
  cbn [mbind res_bind].
  assert (Hrx : rep (alter (sp p) (addr mr) (alter (sc false (addr mr)) p L)) x (plug (F false p s :: c1) mr)).
  { by eapply rep_replace. }
  assert (Ear : addr (plug (F false p s :: c1) (Node Leaf m mr)) = addr (plug (F false p s :: c1) mr))
    by apply plug_addr_frame.
  set (L2 := alter (sp p) (addr mr) _) in *.
  assert (Hm2 : L2 !! m = Some (NULL, addr mr, p)).
  { unfold L2. rewrite lookup_alter_addr; [|by rewrite lookup_alter_None|done].
    rewrite lookup_alter_ne by done. exact Lm. }
  assert (Hri : addr (plug (F false p s :: c1) mr) ∈ elems (plug (F false p s :: c1) mr)).
  { rewrite plug_perm, elem_of_app. right. apply plug_root_in. }
  assert (Hmi : m ∉ elems (plug (F false p s :: c1) mr)).
  { rewrite plug_perm, elem_of_app. tauto. }
  rewrite Ear. set (r' := plug (F false p s :: c1) mr) in *.
  assert (Hrs : is_Some (L2 !! addr r')) by (apply elem_of_dom; by eapply elems_in_heap).
  hmod. hmod. eexists _, _, p. split; [done|]. split; [eassumption|]. split; [done|].
  assert (m <> addr r') by (by intros ->).
  split; [rewrite !lookup_alter_None; unfold L2; by rewrite !lookup_alter_None|]. split; [|split].
  - apply rep_reparent with x; [|done]. by apply rep_alter_ne.
  - rewrite lookup_alter_ne, lookup_alter_eq, Hm2 by done. done.
  - intros y Hy. rewrite Hin in Hy. rewrite lookup_alter_ne.
    2: { intros <-. apply Hy. unfold r' in Hri. rewrite plug_perm, elem_of_app in Hri. tauto. }
    rewrite lookup_alter_ne by (intros ->; tauto). unfold L2.
    rewrite lookup_alter_addr; [|by rewrite lookup_alter_None|tauto].
    apply lookup_alter_ne. intros ->. apply Hy. right; right. apply frame_cels. auto.
Qed.

Lemma node_NoDup c l x r :
  NoDup (elems (plug c (Node l x r))) ->
  NoDup (elems l) /\ NoDup (elems r) /\ NoDup (cels c) /\ (x ∉ elems l) /\ (x ∉ elems r) /\ (x ∉ cels c) /\
  (forall y, y ∈ elems l -> (y ∉ elems r) /\ (y ∉ cels c)) /\ (forall y, y ∈ elems r -> y ∉ cels c).
Proof.
  intros (NT & NC & TC)%plug_NoDup. change (Node l x r) with (mkN false l x r) in *.
  apply mkN_NoDup in NT as (Nl & Nr & xl & xr & lr). setoid_rewrite mkN_elem in TC.
  split_and!; auto.
Qed.

Lemma link_set_root lvt c t T :
  avl_root lvt = addr (plug c t) ->
  (if decide (c = []) then set_root (addr T) lvt else lvt) = set_root (addr (plug c T)) lvt.
Proof.
  intros Hr. destruct (decide (c = [])) as [-> | Hc]; [done|]. destruct c as [|f c]; [done|].
  rewrite (plug_addr_frame f c T t), <- Hr. by destruct lvt.
Qed.

Lemma unlink_right h lvt L B D R c l x r :
  view h = (L, B, D, R) -> L !! NULL = None -> rep L NULL (plug c (Node l x r)) ->
  NoDup (elems (plug c (Node l x r))) -> avl B (plug c (Node l x r)) -> dirs D c ->
  avl_root lvt = addr (plug c (Node l x r)) -> r <> Leaf ->
  exists h' L' B' D' C t, unlink_node h lvt x = Ok (h', set_root (addr (plug C t)) lvt, caddr C) /\
    view h' = (L', B', D', R) /\ unlinked L' B' D' c l r (height (plug c (Node l x r))) C t.
Proof.
  intros Hv H0 Hr Hnd Ha Hd Hroot Hnl.
  assert (Hsz : (height r <= hfuel h)%nat).
  { unfold hfuel. pose proof (elems_size _ _ _ _ _ _ _ Hv Hr Hnd).
    pose proof (path_length c (Node l x r)). simpl in *. lia. }
  rewrite rep_plug in Hr. destruct Hr as [(Nx & Lx & Hl & Hrr) Hc]. simpl addr in *.
  rewrite avl_plug in Ha. destruct Ha as [((b & Hb & Hk) & Hal & Har) Hac].
  apply node_NoDup in Hnd as (Nl & Nr & NC & xl & xr & xc & lrc & rc).
  unfold unlink_node. hderef ltac:(exact Lx).
  assert (balance n = b) as -> by congruence.
  destruct (Z.eqb_spec (addr r) NULL) as [E|_]; [by eapply rep_addr in Hnl|].
  destruct (descend_left_spec (hfuel h) r h L B D R x Hv Hrr Nr Hnl Hsz)
    as (h1 & D1 & c1 & m & mr & -> & Hv1 & Erc & Hall & Hd1 & HF1). cbn [mbind res_bind].
  assert (Hin : forall y, y ∈ elems r <-> y = m \/ y ∈ elems mr \/ y ∈ cels c1).
  { intros y. rewrite Erc, plug_perm. simpl. rewrite elem_of_cons, elem_of_app. tauto. }
  assert (Hmr : m ∈ elems r) by (apply Hin; auto). assert (mc := rc m Hmr).
  assert (ml : m ∉ elems l) by (intros Hm; by destruct (lrc m Hm)).
  assert (Hmx : m <> x) by (by intros ->).
  rewrite Erc in Nr. assert (Nr' := Nr). apply plug_NoDup in Nr' as (NT & NC1 & TC1).
  simpl in NT. apply NoDup_cons in NT as [mm NT]. assert (mc1 : m ∉ cels c1) by (apply TC1; simpl; set_solver).
  assert (Hrx : rep L x (plug c1 (Node Leaf m mr))) by (by rewrite <- Erc).
  assert (Lm : L !! m = Some (NULL, addr mr, caddrq x c1)).
  { rewrite rep_plugq in Hrx. destruct Hrx as [(_ & E & _) _]. exact E. }
  hderef ltac:(exact Lm).
  destruct (unlink_next h1 L B D1 R x c1 m mr Hv1 H0 Hrx Nr) as
    (h2 & L2 & bt & E2 & Hv2 & Ebt & H02 & Hr2 & Hm2 & HF2); [by rewrite <- Erc|done|done|].
  rewrite <- Erc in E2. rewrite E2. cbn [mbind res_bind]. clear E2.
  assert (HF2' : forall y, y ∉ elems r -> L2 !! y = L !! y) by (by rewrite Erc).
  hmod.
  assert (Hll : addr l = NULL \/ is_Some (alter (sl (addr l)) m L2 !! addr l)).
  { destruct l as [|ll lp lr]; [by left|right]. rewrite lookup_alter_is_Some, HF2'.
    - destruct Hl as (_ & E & _). eexists; exact E.
    - apply (lrc lp). simpl. set_solver. }
  destruct (set_parent_of_spec h0 _ B D1 R m (addr l) Hv0) as (h3 & -> & Hv3); [by rewrite lookup_alter_None|done|].
  cbn [mbind res_bind]. hmod. hmod. hmod.
  set (r' := plug c1 mr) in *.
  set (L3 := alter (sp (caddr c)) m _) in *. set (B3 := alter (const b) m B) in *.
  set (D3 := alter (const TREE_DESCEND_RIGHT) m D1) in *.
  assert (Hir : forall y, y ∈ elems r' -> y ∈ elems r /\ y <> m).
  { intros y Hy. unfold r' in Hy. rewrite plug_perm, elem_of_app in Hy. split; [apply Hin; tauto|].
    intros ->. tauto. }
  assert (Nr' : NoDup (elems r')).
  { apply plug_NoDup. split; [done|]. split; [done|]. intros p Hp. apply TC1. simpl. set_solver. }
  assert (HlL2 : rep L2 x l) by (eapply rep_frame; [|exact Hl]; intros y Hy; apply HF2'; by apply lrc).
  assert (Hnode : rep L3 (caddr c) (Node l m r')).
  { unfold L3. rewrite rep_plugq in Hrx. destruct Hrx as [(Nm & _) _]. simpl. split; [done|].
    rewrite lookup_alter_eq, lookup_alter_addr by (by rewrite ?lookup_alter_None).
    rewrite lookup_alter_eq, Hm2. split; [done|]. split.
    - apply rep_alter_ne; [done|]. apply rep_reparent with x; [|done]. by apply rep_alter_ne.
    - eapply rep_frame; [|exact Hr2]. intros y Hy. destruct (Hir y Hy) as [Hyr Hym].
      rewrite lookup_alter_ne, lookup_alter_addr, lookup_alter_ne; auto.
      { by rewrite lookup_alter_None. } { intros Hyl. by destruct (lrc y Hyl). } }
  assert (Hin1 : forall y, y ∈ cels c -> y ∉ cels c1).
  { intros y Hy Hy1. apply (rc y); [apply Hin; auto|done]. }
  assert (Hdc : dirs D3 c).
  { eapply dirs_frame; [|exact Hd]. intros y Hy. unfold D3.
    rewrite lookup_alter_ne by (by intros ->). by apply HF1, Hin1. }
  assert (Hcc : crep L3 c x).
  { eapply crep_frame; [|exact Hc]. intros y Hy. unfold L3.
    rewrite lookup_alter_ne by (by intros ->).
    rewrite lookup_alter_addr; [|by rewrite lookup_alter_None|intros Hyl; by destruct (lrc y Hyl)].
    rewrite lookup_alter_ne by (by intros ->). apply HF2'. intros Hyr. by apply (rc y). }
  assert (Hnd' : NoDup (elems (plug c (Node l m r')))).
  { apply plug_NoDup. change (Node l m r') with (mkN false l m r'). rewrite mkN_NoDup.
    split; [split_and!; auto|split; [done|]].
    - intros Hm. by destruct (Hir m Hm).
    - intros y Hy Hy'. destruct (lrc y Hy) as [[] _]. by apply Hir.
    - intros y [->|[Hy|Hy]]%mkN_elem; [done|by apply lrc|by apply rc, Hir]. }
  match goal with Hv' : view _ = (L3, B3, D3, R) |- _ =>
    destruct (hang_spec _ lvt L3 B3 D3 R c x (Node l m r') Hv' Hnode Hcc Hdc Hnd')
      as (h' & L' & E & Hv'' & H0' & Hr') end.
  rewrite (link_set_root lvt c _ (Node l m r') Hroot) in E. cbn [addr] in E.
  rewrite E. cbn [mbind res_bind].
  exists h', L', B3, D3, (c1 ++ F true m l :: c), mr.
  assert (Ep' : plug (c1 ++ F true m l :: c) mr = plug c (Node l m r')) by (by rewrite plug_app).
  rewrite Ep'. split; [by rewrite Ebt; destruct c1 as [|[??]]|]. split; [exact Hv''|].
  assert (Ehr : cheight c1 (S (height mr)) = height r) by (rewrite Erc, plug_height; done).
  rewrite Erc, avl_plug in Har. destruct Har as [(_ & _ & Hamr) Hac1]. simpl height in Hac1.
  split; [|split; [by rewrite Ep'|split; [|split; [|split; [|split]]]]].
  - apply H0'. unfold L3. by rewrite !lookup_alter_None.
  - rewrite Ep', plug_elems. simpl. rewrite <- app_assoc. simpl. do 2 f_equal.
    rewrite Erc. unfold r'. rewrite !plug_elems, all_left_before by done. done.
  - by apply avl_alter_ne.
  - rewrite cavl_app, Ehr. split; [by apply cavl_alter_ne|]. simpl. split; [|split].
    + exists b. unfold B3. rewrite lookup_alter_eq, Eb0. split; [done|]. by apply (bal_ok_flip true).
    + by apply avl_alter_ne.
    + apply cavl_alter_ne; [done|]. simpl in Hac. by rewrite Nat.max_comm.
  - apply Forall_app_2; [|apply dirs_cons; split; [|done]].
    + eapply dirs_frame; [|exact Hd1]. intros y Hy. apply lookup_alter_ne. intros ->. done.
    + unfold D3. by rewrite lookup_alter_eq, Edir0.
  - rewrite cheight_app, Ehr, plug_height. simpl. by rewrite Nat.max_comm.
Qed.

(** ** The deletion of the node above a path *)

Lemma avl_delete_spec h lvt c l x r :
  tree_wf h lvt (plug c (Node l x r)) -> dirs (dirm h) c ->
  exists h' lvt' T, lvAvlTreeNodeDelete h lvt x = Ok (h', lvt') /\ tree_wf h' lvt' T /\
    elems T = before c ++ elems l ++ elems r ++ after c /\ restm h' = restm h /\
    lvt' = shape_of T (set_clue NULL (lastNodeMin lvt) (lastNodeMax lvt) lvt).
Proof.
  intros (H0 & Hr & Hnd & Ha & Hroot & Hh) Hd. unfold lvAvlTreeNodeDelete.
  assert (exists h1 L1 B1 D1 C t, unlink_node h lvt x = Ok (h1, set_root (addr (plug C t)) lvt, caddr C) /\
    view h1 = (L1, B1, D1, restm h) /\ unlinked L1 B1 D1 c l r (height (plug c (Node l x r))) C t)
    as (h1 & L1 & B1 & D1 & C & t & -> & Hv1 & H01 & Hr1 & He1 & Ha1 & Hc1 & Hd1 & Hh1).
  { destruct (decide (r = Leaf)) as [->|Hl].
    - destruct (unlink_left h lvt _ _ _ _ c l x eq_refl H0 Hr Hnd Ha Hd Hroot) as (h1 & L1 & ?).
      by exists h1, L1, (balm h), (dirm h), c, l.
    - by apply (unlink_right h lvt _ _ _ _ c l x r eq_refl). }
  cbn [mbind res_bind].
  assert (Hnd1 : NoDup (elems (plug C t))).
  { rewrite He1. rewrite plug_elems in Hnd. simpl in Hnd.
    eapply sublist_NoDup; [exact Hnd|]. apply sublist_app; [done|].
    rewrite <- !app_assoc. apply sublist_app; [done|]. simpl. by apply sublist_cons. }
  destruct (rebalance_delete_spec (hfuel h1) C h1 (set_root (addr (plug C t)) lvt) L1 B1 D1 (restm h) t Hv1)
    as (h2 & L2 & B2 & T & E2 & Hv2 & H02 & Hr2 & He2 & Ha2); try done.
  { simpl. by rewrite Hh, Hh1. }
  { unfold hfuel. pose proof (elems_size _ _ _ _ _ _ _ Hv1 Hr1 Hnd1). pose proof (path_length C t). lia. }
  rewrite E2. cbn [mbind res_bind]. eexists h2, _, T. split; [done|]. split; [|split; [|split]].
  - assert (NoDup (elems T)) by (by rewrite He2).
    destruct (wf_intro h2 lvt L2 B2 D1 (restm h) T) as (? & ? & ? & ? & ? & ?); try done.
  - by rewrite He2.
  - by injection Hv2.
  - done.
Qed.

(** * Lemmas: walks *)

(** The first and the last address of a list, NULL when it is empty. *)
Definition head0 (l : list Z) : Z := match l with [] => NULL | x :: _ => x end.
Definition last0 (l : list Z) : Z := match last l with None => NULL | Some x => x end.

Lemma head0_app l k : l <> [] -> head0 (l ++ k) = head0 l.
Proof. by destruct l. Qed.

Lemma last0_snoc l x : last0 (l ++ [x]) = x.
Proof. unfold last0. by rewrite last_snoc. Qed.

Lemma last0_app l k : k <> [] -> last0 (l ++ k) = last0 k.
Proof. intros Hk. destruct k as [|x k _] using rev_ind; [done|]. by rewrite (assoc_L (++)), !last0_snoc. Qed.

Lemma elems_nil t : t <> Leaf -> elems t <> [].
Proof. intros Ht E. by apply Ht, elems_leaf. Qed.

(** The other child of a frame is not the subtree. *)
Lemma frame_other L d p s c t q :
  rep L q s -> t <> Leaf -> rep L p t -> NoDup (elems (plug (F d p s :: c) t)) -> addr s <> addr t.
Proof.
  intros Hs Ht Hr (NT & NC & TC)%plug_NoDup E. pose proof (rep_addr L p t Hr Ht) as Hn.
  destruct s as [|sl sp' sr]; [by rewrite <- E in Hn|].
  apply (TC (addr t)); [by apply addr_in|]. apply frame_cels. right; left. rewrite <- E. apply addr_in. done.
Qed.

Section walks.
Context (h : heap) (L : gmap Z (Z * Z * Z)) (B D : gmap Z Z) (R : gmap Z lvTreeNode).
Context (Hv : view h = (L, B, D, R)).

Lemma leftmost_spec fuel q t :
  rep L q t -> t <> Leaf -> (height t <= fuel)%nat -> leftmost fuel h (addr t) = Ok (head0 (elems t)).
Proof.
  revert q t. induction fuel as [|fuel IH]; intros q t Hr Ht Hf; destruct t as [|l p r]; simpl in Hf; try done; [lia|].
  destruct Hr as (Np & Lp & Hl & _). simpl. hderef ltac:(exact Lp).
  destruct (Z.eqb_spec (addr l) NULL) as [E|E]; simpl.
  - apply rep_leaf with (L := L) (q := p) in E as ->; done.
  - assert (l <> Leaf) by (by intros ->). rewrite (IH p l) by (done || lia).
    by rewrite head0_app by (by apply elems_nil).
Qed.

Lemma rightmost_spec fuel q t :
  rep L q t -> t <> Leaf -> (height t <= fuel)%nat -> rightmost fuel h (addr t) = Ok (last0 (elems t)).
Proof.
  revert q t. induction fuel as [|fuel IH]; intros q t Hr Ht Hf; destruct t as [|l p r]; simpl in Hf; try done; [lia|].
  destruct Hr as (Np & Lp & _ & Hr). simpl. hderef ltac:(exact Lp).
  destruct (Z.eqb_spec (addr r) NULL) as [E|E]; simpl.
  - apply rep_leaf with (L := L) (q := p) in E as ->; [|done]. by rewrite last0_snoc.
  - assert (r <> Leaf) by (by intros ->). rewrite (IH p r) by (done || lia).
    rewrite last0_app by done. change (p :: elems r) with ([p] ++ elems r).
    by rewrite last0_app by (by apply elems_nil).
Qed.

Lemma climb_from_left_spec fuel c t :
  rep L NULL (plug c t) -> NoDup (elems (plug c t)) -> t <> Leaf -> (length c < fuel)%nat ->
  climb_from_left fuel h (caddr c) (addr t) = Ok (head0 (after c)).
Proof.
  revert c t. induction fuel as [|fuel IH]; [lia|]. intros c t Hr Hnd Ht Hf.
  destruct c as [|[d p s] c]; cbn [climb_from_left caddr]; [done|].
  assert (Hr' := Hr). rewrite rep_plug in Hr'. destruct Hr' as [Hrt (Np & Lp & Hs & _)].
  destruct (Z.eqb_spec p NULL) as [|_]; [done|]. hderef_some. rewrite Lp in El. injection El as El.
  apply mkl_parent in El as Ep. rewrite Ep. apply mkl_child in El as [E1 E2].
  pose proof (frame_other L d p s c t p Hs Ht Hrt Hnd) as Hne.
  assert (Hup : climb_from_left fuel h (caddr c) p = Ok (head0 (after c))).
  { rewrite <- (mkN_addr d t p s). apply IH; [exact Hr|exact Hnd|by destruct d|simpl in Hf; lia]. }
  destruct d; rewrite ?E1, ?E2.
  - destruct (Z.eqb_spec (addr s) (addr t)); [done|]. exact Hup.
  - by rewrite Z.eqb_refl.
Qed.

Lemma climb_from_right_spec fuel c t :
  rep L NULL (plug c t) -> NoDup (elems (plug c t)) -> t <> Leaf -> (length c < fuel)%nat ->
  climb_from_right fuel h (caddr c) (addr t) = Ok (last0 (before c)).
Proof.
  revert c t. induction fuel as [|fuel IH]; [lia|]. intros c t Hr Hnd Ht Hf.
  destruct c as [|[d p s] c]; cbn [climb_from_right caddr]; [done|].
  assert (Hr' := Hr). rewrite rep_plug in Hr'. destruct Hr' as [Hrt (Np & Lp & Hs & _)].
  destruct (Z.eqb_spec p NULL) as [|_]; [done|]. hderef_some. rewrite Lp in El. injection El as El.
  apply mkl_parent in El as Ep. rewrite Ep. apply mkl_child in El as [E1 E2].
  pose proof (frame_other L d p s c t p Hs Ht Hrt Hnd) as Hne.
  assert (Hup : climb_from_right fuel h (caddr c) p = Ok (last0 (before c))).
  { rewrite <- (mkN_addr d t p s). apply IH; [exact Hr|exact Hnd|by destruct d|simpl in Hf; lia]. }
  destruct d; rewrite ?E1, ?E2; simpl.
  - rewrite Z.eqb_refl. by rewrite (assoc_L (++)), last0_snoc.
  - destruct (Z.eqb_spec (addr s) (addr t)); [done|]. by rewrite app_nil_r.
Qed.
End walks.

(** A node of a tree is above a path, and has one place in the order. *)
Lemma elem_path t x : x ∈ elems t -> exists c l r, t = plug c (Node l x r).
Proof.
  induction t as [|l IHl p r IHr]; simpl; [set_solver|].
  rewrite elem_of_app, elem_of_cons. intros [H|[->|H]].
  - destruct (IHl H) as (c & l' & r' & ->). exists (c ++ [F false p r]), l', r'. by rewrite plug_app.
  - by exists [], l, r.
  - destruct (IHr H) as (c & l' & r' & ->). exists (c ++ [F true p l]), l', r'. by rewrite plug_app.
Qed.

Lemma NoDup_split {A} (a b a' b' : list A) x :
  NoDup (a ++ x :: b) -> a ++ x :: b = a' ++ x :: b' -> a = a' /\ b = b'.
Proof.
  revert a'. induction a as [|y a IH]; intros [|y' a']; simpl.
  - by intros _ [= ->].
  - intros [Hx _]%NoDup_cons [= -> ->]. destruct Hx. set_solver.
  - intros [Hx _]%NoDup_cons [= -> <-]. destruct Hx. set_solver.
  - intros [_ Hnd]%NoDup_cons [= -> E]. by destruct (IH a' Hnd E) as [-> ->].
Qed.

Lemma node_path t x a b :
  NoDup (elems t) -> elems t = a ++ x :: b ->
  exists c l r, t = plug c (Node l x r) /\ a = before c ++ elems l /\ b = elems r ++ after c.
Proof.
  intros Hnd E. destruct (elem_path t x) as (c & l & r & ->); [rewrite E; set_solver|].
  exists c, l, r. split; [done|]. apply (NoDup_split a b _ _ x); [by rewrite <- E|].
  rewrite <- E, plug_elems. simpl. by rewrite <- !app_assoc.
Qed.

(** lvAvlTreeNext and lvAvlTreePrev go to the neighbours in the order. *)
Lemma next_prev_spec h lvt T x a b :
  tree_wf h lvt T -> elems T = a ++ x :: b ->
  lvAvlTreeNext h x = Ok (head0 b) /\ lvAvlTreePrev h x = Ok (last0 a).
Proof.
  intros (H0 & Hr & Hnd & _) E. destruct (node_path T x a b Hnd E) as (c & l & r & -> & -> & ->).
  pose proof (elems_size h _ _ _ _ _ _ eq_refl Hr Hnd) as Hsz. pose proof (path_length c (Node l x r)) as Hpl.
  simpl height in Hpl.
  assert (Hr' := Hr). rewrite rep_plug in Hr'. destruct Hr' as [(Nx & Lx & Hl & Hrr) _].
  assert (Hv : view h = (linkm h, balm h, dirm h, restm h)) by done.
  unfold lvAvlTreeNext, lvAvlTreePrev, hfuel.
  destruct (view_deref h _ _ _ _ Hv x _ _ _ Lx) as (n & -> & El & Er & Ep & _).
  cbn [mbind res_bind]. rewrite El, Er, Ep. split.
  - destruct (Z.eqb_spec (addr r) NULL) as [Er0|Er0]; cbn [negb].
    + apply rep_leaf with (L := linkm h) (q := x) in Er0 as ->; [|done]. simpl elems. rewrite app_nil_l.
      apply (climb_from_left_spec h _ _ _ _ Hv _ c (Node l x Leaf)); [done|done|done|lia].
    + assert (r <> Leaf) by (by intros ->). rewrite head0_app by (by apply elems_nil).
      apply (leftmost_spec h _ _ _ _ Hv _ x); [done|done|lia].
  - destruct (Z.eqb_spec (addr l) NULL) as [El0|El0]; cbn [negb].
    + apply rep_leaf with (L := linkm h) (q := x) in El0 as ->; [|done]. simpl elems. rewrite app_nil_r.
      apply (climb_from_right_spec h _ _ _ _ Hv _ c (Node Leaf x r)); [done|done|done|lia].
    + assert (l <> Leaf) by (by intros ->). rewrite last0_app by (by apply elems_nil).
      apply (rightmost_spec h _ _ _ _ Hv _ x); [done|done|lia].
Qed.

Lemma first_last_spec h lvt T :
  tree_wf h lvt T ->
  lvAvlTreeFirst h lvt = Ok (head0 (elems T)) /\ lvAvlTreeLast h lvt = Ok (last0 (elems T)).
Proof.
  intros (H0 & Hr & Hnd & _ & Hroot & _). unfold lvAvlTreeFirst, lvAvlTreeLast, hfuel. rewrite Hroot.
  destruct T as [|l p r]; [done|]. assert (Hp : p <> NULL) by apply Hr.
  assert (Hv : view h = (linkm h, balm h, dirm h, restm h)) by done.
  pose proof (elems_size h _ _ _ _ _ _ Hv Hr Hnd) as Hsz. pose proof (path_length [] (Node l p r)) as Hpl.
  cbn [length plug Nat.add] in Hpl.
  cbv zeta. destruct (Z.eqb_spec (addr (Node l p r)) NULL); [done|]. split.
  - apply (leftmost_spec h _ _ _ _ Hv _ NULL); [done|done|lia].
  - apply (rightmost_spec h _ _ _ _ Hv _ NULL); [done|done|lia].
Qed.

(** ** Post-order *)

Fixpoint postorder (t : tree) : list Z :=
  match t with Leaf => [] | Node l p r => postorder l ++ postorder r ++ [p] end.

(** What follows a subtree in post-order. *)
Fixpoint post_after (c : list frame) : list Z :=
  match c with [] => [] | F d p s :: c' => (if d then [] else postorder s) ++ p :: post_after c' end.

Fixpoint post_before (c : list frame) : list Z :=
  match c with [] => [] | F d p s :: c' => post_before c' ++ (if d then postorder s else []) end.

Lemma plug_postorder c t : postorder (plug c t) = post_before c ++ postorder t ++ post_after c.
Proof.
  revert t. induction c as [|[d p s] c IH]; intros t; simpl; [by rewrite app_nil_r|].
  rewrite IH. destruct d; simpl; rewrite <- !app_assoc; simpl; by rewrite <- ?app_assoc.
Qed.

Lemma postorder_nil t : t <> Leaf -> postorder t <> [].
Proof. destruct t as [|l p r]; [done|]. simpl. destruct (postorder l), (postorder r); done. Qed.

Lemma first_leaf_spec h L B D R fuel q t :
  view h = (L, B, D, R) -> rep L q t -> t <> Leaf -> (height t <= fuel)%nat ->
  first_leaf fuel h (addr t) = Ok (head0 (postorder t)).
Proof.
  intros Hv. revert q t. induction fuel as [|fuel IH]; intros q t Hr Ht Hf; destruct t as [|l p r]; simpl in Hf; try done; [lia|].
  destruct Hr as (Np & Lp & Hl & Hr). simpl. hderef ltac:(exact Lp).
  destruct (Z.eqb_spec (addr l) NULL) as [E|E]; simpl.
  - apply rep_leaf with (L := L) (q := p) in E as ->; [|done]. simpl.
    destruct (Z.eqb_spec (addr r) NULL) as [E|E]; simpl.
    + by apply rep_leaf with (L := L) (q := p) in E as ->.
    + assert (r <> Leaf) by (by intros ->). rewrite (IH p r) by (done || lia).
      by rewrite head0_app by (by apply postorder_nil).
  - assert (l <> Leaf) by (by intros ->). rewrite (IH p l) by (done || lia).
    by rewrite head0_app by (by apply postorder_nil).
Qed.

Lemma next_post_path h L B D R c t :
  view h = (L, B, D, R) -> rep L NULL (plug c t) -> NoDup (elems (plug c t)) -> t <> Leaf ->
  lvAvlTreeNextPostOrder h (addr t) = Ok (head0 (post_after c)).
Proof.
  intros Hv Hr Hnd Ht. pose proof (elems_size _ _ _ _ _ _ _ Hv Hr Hnd) as Hsz.
  pose proof (path_length c t) as Hpl. assert (Hh : (height (plug c t) <= length (elems (plug c t)))%nat).
  { pose proof (path_length [] (plug c t)) as Hp. simpl in Hp. lia. }
  rewrite rep_plug in Hr. destruct Hr as [Hrt Hc].
  assert (is_Some (L !! addr t)) by (destruct t; [done|]; destruct Hrt as (_ & E & _); eexists; exact E).
  unfold lvAvlTreeNextPostOrder. hderef_some.
  assert (avl_parent n = caddr c) as ->.
  { destruct t; [done|]. destruct Hrt as (_ & E & _). simpl in El. rewrite E in El. by injection El. }
  destruct c as [|[d p s] c]; cbn [caddr]; [done|]. destruct Hc as (Np & Lp & Hs & Hc).
  destruct (Z.eqb_spec p NULL) as [|_]; [done|]. hderef_some.
  assert (El0' := El0). rewrite Lp in El0'. injection El0' as El0'. apply mkl_child in El0' as [E1 E2].
  pose proof (frame_other L d p s c t p Hs Ht Hrt Hnd) as Hne.
  destruct d; rewrite ?E1, ?E2.
  - by rewrite Z.eqb_refl.
  - destruct (Z.eqb_spec (addr t) (addr s)) as [|_]; [congruence|].
    destruct (Z.eqb_spec (addr s) NULL) as [E|E].
    + by apply rep_leaf with (L := L) (q := p) in E as ->.
    + assert (s <> Leaf) by (by intros ->). cbn [post_after]. rewrite head0_app by (by apply postorder_nil).
      eapply first_leaf_spec; [exact Hv|exact Hs|done|].
      unfold hfuel. rewrite plug_height in Hh. cbn [cheight] in Hh.
      assert (Hmono : forall c' k, (k <= cheight c' k)%nat).
      { clear. intros c'. induction c' as [|[d q u] c' IH]; intros k; simpl; [lia|].
        etrans; [|apply IH]. lia. }
      specialize (Hmono c (S (Nat.max (height t) (height s)))). lia.
Qed.

Lemma next_post_spec h lvt T a x b :
  tree_wf h lvt T -> postorder T = a ++ x :: b -> lvAvlTreeNextPostOrder h x = Ok (head0 b).
Proof.
  intros (H0 & Hr & Hnd & _) E.
  assert (Hperm : forall t, postorder t ≡ₚ elems t).
  { induction t as [|l IHl p r IHr]; simpl; [done|]. rewrite IHl, IHr. solve_Permutation. }
  destruct (elem_path T x) as (c & l & r & ->); [rewrite <- Hperm, E; set_solver|].
  pose proof (next_post_path h _ _ _ _ c (Node l x r) eq_refl Hr Hnd ltac:(done)) as En.
  cbn [addr] in En. rewrite En. clear En.
  rewrite <- Hperm in Hnd. rewrite E in Hnd. rewrite plug_postorder in E. simpl in E.
  destruct (NoDup_split a b (post_before c ++ postorder l ++ postorder r) (post_after c) x) as [_ ->]; [done| |done].
  rewrite <- E. by rewrite <- !app_assoc.
Qed.

Lemma first_post_spec h lvt T :
  tree_wf h lvt T -> lvAvlTreeFirstPostOrder h lvt = Ok (head0 (postorder T)).
Proof.
  intros (H0 & Hr & Hnd & _ & Hroot & _). unfold lvAvlTreeFirstPostOrder, hfuel. rewrite Hroot.
  destruct T as [|l p r]; [done|]. assert (Hp : addr (Node l p r) <> NULL) by apply Hr.
  pose proof (elems_size h _ _ _ _ _ _ eq_refl Hr Hnd) as Hsz. pose proof (path_length [] (Node l p r)) as Hpl.
  cbn [length plug Nat.add] in Hpl. cbv zeta.
  destruct (Z.eqb_spec (addr (Node l p r)) NULL); [done|].
  eapply first_leaf_spec; [reflexivity|exact Hr|done|lia].
Qed.

(** ** The directions down to a node, set again from below *)

Lemma prepare_spec fuel c h L B D R t :
  view h = (L, B, D, R) -> rep L NULL (plug c t) -> NoDup (elems (plug c t)) -> t <> Leaf ->
  (length c < fuel)%nat ->
  exists h' D', prepare_loop fuel h (addr t) = Ok h' /\ view h' = (L, B, D', R) /\ dirs D' c /\
    (forall p, p ∉ cels c -> D' !! p = D !! p).
Proof.
  revert c h D t. induction fuel as [|fuel IH]; [lia|]. intros c h D t Hv Hr Hnd Ht Hf.
  assert (Hr' := Hr). rewrite rep_plug in Hr'. destruct Hr' as [Hrt Hc].
  assert (is_Some (L !! addr t)) by (destruct t; [done|]; destruct Hrt as (_ & E & _); eexists; exact E).
  cbn [prepare_loop]. hderef_some.
  assert (avl_parent n = caddr c) as ->.
  { destruct t; [done|]. destruct Hrt as (_ & E & _). simpl in El. rewrite E in El. by injection El. }
  destruct c as [|[d p s] c]; cbn [caddr].
  { exists h, D. split; [done|]. split; [done|]. split; [constructor|done]. }
  destruct Hc as (Np & Lp & Hs & Hc). destruct (Z.eqb_spec p NULL) as [|_]; [done|]. hderef_some.
  rewrite Lp in El0. injection El0 as El0. apply mkl_child in El0 as [E1 E2].
  pose proof (frame_other L d p s c t p Hs Ht Hrt Hnd) as Hne.
  assert ((if addr t =? avl_left n0 then TREE_DESCEND_LEFT else TREE_DESCEND_RIGHT) = dirZ d) as ->.
  { destruct d; rewrite ?E1, ?E2.
    - destruct (Z.eqb_spec (addr t) (addr s)); [congruence|done].
    - by rewrite Z.eqb_refl. }
  hmod. destruct (IH c h0 _ (mkN d t p s) Hv0) as (h' & D' & E & Hv' & Hd & HF); try done.
  { by destruct d. } { simpl in Hf. lia. }
  rewrite mkN_addr in E. exists h', D'. split; [done|]. split; [done|].
  apply plug_NoDup in Hnd as (_ & NC & _). apply frame_NoDup in NC as (_ & Hpc & _).
  split.
  - apply dirs_cons. split; [|done]. by rewrite HF, lookup_alter_eq, Edir0 by done.
  - intros y Hy. rewrite frame_cels in Hy. rewrite HF by tauto. apply lookup_alter_ne. intros ->. tauto.
Qed.
