(* ===== verification/Lvtree.v ===== *)
(** The trees of local variables by key (lv_tree.c): the three lookups with
    their clue, the walks that start from a key, and null collation.  The
    proofs show that a lookup answers as a search of all the keys, however the
    clue helps it, and that it leaves what insertion and deletion rely on. *)

From stdpp Require Import base list numbers option tactics gmap sorting.
From Stdlib Require Import ZArith Lia.
From S2P Require Import Prelude Mval Lvnode Avltree Avlops.

Open Scope Z_scope.

(** * Lookup

    The code has the same text three times, for the three comparisons. *)

Definition node_cmp : Type := lvTreeNode -> res (Z * lvTreeNode).

(** Compare with the node at [p], which may get its floating form. *)
Definition cmp_at (cmp : node_cmp) (h : heap) (p : Z) : res (Z * heap) :=
  n ← deref h p;
  '(r, n') ← cmp n;
  Ok (r, <[p := n']> h).

(** The traversal from the top ([while (TRUE)]); the result is the node found or
    NULL, its parent, and the three fields of the clue. *)
Fixpoint lookup_loop (fuel : nat) (cmp : node_cmp) (h : heap) (node parent lastNodeMin lastNodeMax : Z)
    : res (heap * Z * Z * (Z * Z * Z)) :=
  match fuel with
  | O => Err OUT_OF_FUEL
  | S fuel' =>
      '(c, h) ← cmp_at cmp h node;
      if c =? 0 then Ok (h, node, parent, (node, lastNodeMin, lastNodeMax))
      else if c <? 0 then
        h ← modify (with_dir TREE_DESCEND_LEFT) node h;
        n ← deref h node;
        let nextNode := avl_left n in
        if nextNode =? NULL then Ok (h, NULL, node, (node, lastNodeMin, lastNodeMax))
        else lookup_loop fuel' cmp h nextNode node lastNodeMin node
      else
        h ← modify (with_dir TREE_DESCEND_RIGHT) node h;
        n ← deref h node;
        let nextNode := avl_right n in
        if nextNode =? NULL then Ok (h, NULL, node, (node, lastNodeMin, lastNodeMax))
        else lookup_loop fuel' cmp h nextNode node node lastNodeMax
  end.

Definition lookup_traverse (cmp : node_cmp) (h : heap) (lvt : lvTree) : res (heap * lvTree * Z * Z) :=
  let root := avl_root lvt in
  if root =? NULL then Ok (h, lvt, NULL, NULL)
  else
    '(h, node, parent, (clue, mn, mx)) ← lookup_loop (hfuel h) cmp h root root NULL NULL;
    Ok (h, set_clue clue mn mx lvt, node, parent).

(** The key is not in the tree: it belongs below the clue. *)
Definition clue_miss (h : heap) (lvt : lvTree) (dir : Z) : res (heap * lvTree * Z * Z) :=
  let parent := lastNodeLookedUp lvt in
  h ← modify (with_dir dir) parent h;
  Ok (h, lvt, NULL, parent).

(** [lookupParent] comes in as the caller left it, and is written only when no
    node is found or the tree is traversed. *)
Definition lookup_gen (cmp : node_cmp) (h : heap) (lvt : lvTree) (lookupParent : Z)
    : res (heap * lvTree * Z * Z) :=
  let tmpNode := lastNodeLookedUp lvt in
  if negb (tmpNode =? NULL) then
    '(c, h) ← cmp_at cmp h tmpNode;
    n ← deref h tmpNode;
    if c =? 0 then Ok (h, lvt, tmpNode, lookupParent)
    else if 0 <? c then
      if avl_right n =? NULL then
        let maxNode := lastNodeMax lvt in
        if negb (maxNode =? NULL) then
          '(c, h) ← cmp_at cmp h maxNode;
          if c =? 0 then Ok (h, lvt, maxNode, lookupParent)
          else if c <? 0 then clue_miss h lvt TREE_DESCEND_RIGHT
          else lookup_traverse cmp h lvt
        else clue_miss h lvt TREE_DESCEND_RIGHT
      else lookup_traverse cmp h lvt
    else if avl_left n =? NULL then
      let minNode := lastNodeMin lvt in
      if negb (minNode =? NULL) then
        '(c, h) ← cmp_at cmp h minNode;
        if c =? 0 then Ok (h, lvt, minNode, lookupParent)
        else if 0 <? c then clue_miss h lvt TREE_DESCEND_LEFT
        else lookup_traverse cmp h lvt
      else clue_miss h lvt TREE_DESCEND_LEFT
    else lookup_traverse cmp h lvt
  else lookup_traverse cmp h lvt.

Definition lvAvlTreeLookupInt (h : heap) (lvt : lvTree) (key : mval) (lookupParent : Z) : res (heap * lvTree * Z * Z) :=
  lookup_gen (LV_AVL_TREE_INTKEY_CMP (mv_m1 key)) h lvt lookupParent.
Definition lvAvlTreeLookupNum (h : heap) (lvt : lvTree) (key : mval) (lookupParent : Z) : res (heap * lvTree * Z * Z) :=
  lookup_gen (LV_AVL_TREE_NUMKEY_CMP key) h lvt lookupParent.
Definition lvAvlTreeLookupStr (h : heap) (lvt : lvTree) (key : mval) (lookupParent : Z) : res (heap * lvTree * Z * Z) :=
  lookup_gen (LV_AVL_TREE_STRKEY_CMP key) h lvt lookupParent.

Definition lvAvlTreeLookup (h : heap) (lvt : lvTree) (key : mval) (lookupParent : Z) : res (heap * lvTree * Z * Z) :=
  if TREE_KEY_SUBSCR_IS_CANONICAL (mvtype key) then
    if MVTYPE_IS_INT (mvtype key) then lvAvlTreeLookupInt h lvt key lookupParent
    else lvAvlTreeLookupNum h lvt key lookupParent
  else lvAvlTreeLookupStr h lvt key lookupParent.

(** * Walks from a key; [stdnull] is local_collseq_stdnull *)

Definition lvAvlTreeKeyPrev (h : heap) (lvt : lvTree) (key : mval) : res (heap * lvTree * Z) :=
  '(h, lvt, node, parent) ← lvAvlTreeLookup h lvt key NULL;
  if negb (node =? NULL) then p ← lvAvlTreePrev h node; Ok (h, lvt, p)
  else
    n ← deref h parent;
    if TREE_DESCEND_LEFT =? descent_dir n then p ← lvAvlTreePrev h parent; Ok (h, lvt, p)
    else Ok (h, lvt, parent).

Definition lvAvlTreeKeyNext (h : heap) (lvt : lvTree) (key : mval) : res (heap * lvTree * Z) :=
  '(h, lvt, node, parent) ← lvAvlTreeLookup h lvt key NULL;
  if negb (node =? NULL) then p ← lvAvlTreeNext h node; Ok (h, lvt, p)
  else
    n ← deref h parent;
    if TREE_DESCEND_RIGHT =? descent_dir n then p ← lvAvlTreeNext h parent; Ok (h, lvt, p)
    else Ok (h, lvt, parent).

(** [(NULL != node) && LV_NODE_KEY_IS_NULL_SUBS(node)] *)
Definition is_null_subs (h : heap) (node : Z) : res bool :=
  if node =? NULL then Ok false else n ← deref h node; Ok (LV_NODE_KEY_IS_NULL_SUBS n).

Definition lvAvlTreeCollatedLast (h : heap) (lvt : lvTree) (stdnull : bool) : res Z :=
  node ← lvAvlTreeLast h lvt;
  if stdnull then
    b ← is_null_subs h node;
    if (b : bool) then
      prevNode ← lvAvlTreePrev h node;
      Ok (if negb (prevNode =? NULL) then prevNode else node)
    else Ok node
  else Ok node.

Definition key_is_null_subs (key : mval) : bool :=
  MVTYPE_IS_STRING (mvtype key) && negb (MVTYPE_IS_SQLNULL (mvtype key)) && (0 =? zlen (mv_str key)).

Definition lvAvlTreeKeyCollatedNext (h : heap) (lvt : lvTree) (key : mval) (stdnull : bool)
    : res (heap * lvTree * Z) :=
  if stdnull then
    '(h, lvt, node) ← (if key_is_null_subs key then node ← lvAvlTreeFirst h lvt; Ok (h, lvt, node)
                       else lvAvlTreeKeyNext h lvt key);
    b ← is_null_subs h node;
    if (b : bool) then node ← lvAvlTreeNext h node; Ok (h, lvt, node) else Ok (h, lvt, node)
  else lvAvlTreeKeyNext h lvt key.

Definition lvAvlTreeNodeCollatedNext (h : heap) (lvt : lvTree) (node : Z) (stdnull : bool) : res Z :=
  '(node, get_next) ← (if stdnull then
      b ← is_null_subs h node;
      node ← (if (b : bool) then lvAvlTreeFirst h lvt else lvAvlTreeNext h node);
      b ← is_null_subs h node; Ok (node, b)
    else Ok (node, true));
  if (get_next : bool) then lvAvlTreeNext h node else Ok node.

Definition lvAvlTreeNodeCollatedPrev (h : heap) (lvt : lvTree) (node : Z) (stdnull : bool)
    : res (heap * lvTree * Z) :=
  if stdnull then
    b ← is_null_subs h node;
    if (b : bool) then Ok (h, lvt, NULL)
    else
      node ← lvAvlTreePrev h node;
      b ← is_null_subs h node;
      node ← (if (b : bool) then lvAvlTreePrev h node else Ok node);
      if node =? NULL then
        '(h, lvt, node, _) ← lvAvlTreeLookupStr h lvt literal_null NULL; Ok (h, lvt, node)
      else Ok (h, lvt, node)
  else node ← lvAvlTreePrev h node; Ok (h, lvt, node).

Definition lvAvlTreeKeyCollatedPrev (h : heap) (lvt : lvTree) (key : mval) (stdnull : bool)
    : res (heap * lvTree * Z) :=
  if stdnull then
    if key_is_null_subs key then Ok (h, lvt, NULL)
    else
      '(h, lvt, node) ← lvAvlTreeKeyPrev h lvt key;
      b ← is_null_subs h node;
      node ← (if (b : bool) then lvAvlTreePrev h node else Ok node);
      if node =? NULL then
        '(h, lvt, node, _) ← lvAvlTreeLookupStr h lvt literal_null NULL; Ok (h, lvt, node)
      else Ok (h, lvt, node)
  else lvAvlTreeKeyPrev h lvt key.

(** * The keys of a tree

    Comparing may fill in the floating form of an integer key; [data] is what it
    leaves as it is. *)

Definition data (n : lvTreeNode) : mval * Z * Z * Z * list Z * lkey :=
  (nd_v n, sbs_child n, tree_parent n, key_mvtype n, key_str n, node_key n).

Definition datm (h : heap) : gmap Z (mval * Z * Z * Z * list Z * lkey) := data <$> restm h.
Definition keym (h : heap) : gmap Z lkey := node_key <$> restm h.

Lemma keym_datm h h' : datm h' = datm h -> keym h' = keym h.
Proof.
  intros E. assert (Hs : forall x, keym x = snd <$> datm x).
  { intros x. unfold keym, datm. by rewrite <- map_fmap_compose. }
  by rewrite !Hs, E.
Qed.

(** What lookups keep, the directions apart. *)
Definition kept (h h' : heap) : Prop :=
  linkm h' = linkm h /\ balm h' = balm h /\ datm h' = datm h.

#[global] Instance kept_preorder : PreOrder kept.
Proof.
  split; [by repeat split|]. intros h1 h2 h3 (E1 & E2 & E3) (F1 & F2 & F3).
  split_and!; by etrans.
Qed.

Definition keys_ok (h : heap) (T : tree) : Prop :=
  forall p, p ∈ elems T -> exists n, restm h !! p = Some n /\ key_ok n.

(** The keys of nodes, in a list. *)
Definition contents (K : gmap Z lkey) (l : list Z) : list lkey := omap (fun p => K !! p) l.

Definition below (K : gmap Z lkey) (l : list Z) (k : lkey) : Prop := Forall (fun a => klt a k) (contents K l).
Definition above (K : gmap Z lkey) (l : list Z) (k : lkey) : Prop := Forall (klt k) (contents K l).

(** The in-order keys ascend strictly. *)
Definition ordered (K : gmap Z lkey) (T : tree) : Prop := StronglySorted klt (contents K (elems T)).

(** The clue: a node the directions lead to, and its neighbours where it has
    no child. *)
Definition clue_ok (h : heap) (lvt : lvTree) (T : tree) : Prop :=
  let x := lastNodeLookedUp lvt in
  x = NULL \/ exists c l r, T = plug c (Node l x r) /\ dirs (dirm h) c /\
    (l = Leaf -> lastNodeMin lvt = last0 (before c)) /\ (r = Leaf -> lastNodeMax lvt = head0 (after c)).

Definition lv_wf (h : heap) (lvt : lvTree) (T : tree) : Prop :=
  tree_wf h lvt T /\ keys_ok h T /\ ordered (keym h) T /\ clue_ok h lvt T.

(** What a lookup leaves when the key is not there: the path to its place, and
    the clue that insertion completes. *)
Definition gap (h : heap) (lvt : lvTree) (T : tree) (k : lkey) (parent : Z) : Prop :=
  exists c, T = plug c Leaf /\ parent = caddr c /\ dirs (dirm h) c /\
    below (keym h) (before c) k /\ above (keym h) (after c) k /\
    clue_after c lvt = (last0 (before c), head0 (after c)).

Definition found (h : heap) (T : tree) (k : lkey) (node : Z) : Prop :=
  exists c l r, T = plug c (Node l node r) /\ dirs (dirm h) c /\ keym h !! node = Some k.

(** * Lemmas: ordered lists of keys *)

Lemma contents_app K l l' : contents K (l ++ l') = contents K l ++ contents K l'.
Proof. apply omap_app. Qed.

Lemma contents_cons K p k l : K !! p = Some k -> contents K (p :: l) = k :: contents K l.
Proof. intros E. unfold contents. cbn. by rewrite E. Qed.

Lemma below_app K l l' k : below K (l ++ l') k <-> below K l k /\ below K l' k.
Proof. unfold below. by rewrite contents_app, Forall_app. Qed.

Lemma above_app K l l' k : above K (l ++ l') k <-> above K l k /\ above K l' k.
Proof. unfold above. by rewrite contents_app, Forall_app. Qed.

Lemma below_cons K p kp l k : K !! p = Some kp -> below K (p :: l) k <-> klt kp k /\ below K l k.
Proof. intros E. unfold below. by rewrite (contents_cons K p kp), Forall_cons. Qed.

Lemma above_cons K p kp l k : K !! p = Some kp -> above K (p :: l) k <-> klt k kp /\ above K l k.
Proof. intros E. unfold above. by rewrite (contents_cons K p kp), Forall_cons. Qed.

Lemma below_trans K l k k' : below K l k -> klt k k' -> below K l k'.
Proof. intros H Hk. eapply Forall_impl; [exact H|]. intros a Ha. cbn in *. by etrans. Qed.

Lemma above_trans K l k k' : above K l k -> klt k' k -> above K l k'.
Proof. intros H Hk. eapply Forall_impl; [exact H|]. intros a Ha. cbn in *. by etrans. Qed.

Lemma klt_irrefl k : ~ klt k k.
Proof. apply (irreflexivity klt). Qed.

Lemma klt_asym k k' : klt k k' -> ~ klt k' k.
Proof. intros H H'. apply (klt_irrefl k). by etrans. Qed.

(** A sorted list around one of its elements. *)
Lemma sorted_mid K a p kp b :
  K !! p = Some kp ->
  StronglySorted klt (contents K (a ++ p :: b)) <->
  StronglySorted klt (contents K a) /\ StronglySorted klt (contents K b) /\ below K a kp /\ above K b kp.
Proof.
  intros E. rewrite contents_app, (contents_cons K p kp) by done. unfold below, above.
  rewrite StronglySorted_app. split.
  - intros (Hab & Ha & [Hb Hp]%StronglySorted_inv). split_and!; [done|done| |done].
    apply Forall_forall. intros x Hx. apply Hab; [done|set_solver].
  - intros (Ha & Hb & Hap & Hbp). split_and!; [|done|by constructor].
    rewrite !Forall_forall in *. intros x y Hx [->|Hy]%elem_of_cons; [auto|]. etrans; eauto.
Qed.

(** * The specification of a lookup *)

(** A comparison that answers the order of the key [k]. *)
Class KeyCmp (cmp : node_cmp) (k : lkey) : Prop :=
  key_cmp_ok : forall n, key_ok n ->
    exists r n', cmp n = Ok (r, n') /\ (r ?= 0) = lkey_cmp k (node_key n) /\ same_node n n' /\ key_ok n'.

#[export] Instance key_cmp_instance key : mval_key_ok key -> KeyCmp (key_cmp key) (mval_key key).
Proof. intros Hk n Hn. by apply key_cmp_spec. Qed.

Definition lookup_post (h' : heap) (lvt' : lvTree) (T : tree) (k : lkey) (node parent : Z) : Prop :=
  keys_ok h' T /\ clue_ok h' lvt' T /\
  (node <> NULL /\ found h' T k node \/ node = NULL /\ gap h' lvt' T k parent).

Section lookup.
Context (cmp : node_cmp) (k : lkey) {Hcmp : KeyCmp cmp k}.

Lemma cmp_at_spec h T p :
  keys_ok h T -> p ∈ elems T ->
  exists r h' kp, cmp_at cmp h p = Ok (r, h') /\ kept h h' /\ dirm h' = dirm h /\ keys_ok h' T /\
    keym h !! p = Some kp /\ (r ?= 0) = lkey_cmp k kp.
Proof.
  intros Hok Hp. destruct (Hok p Hp) as (n0 & Hn0 & Hk0). unfold restm in Hn0. rewrite lookup_fmap in Hn0.
  destruct (h !! p) as [n|] eqn:Hn; [|done]. injection Hn0 as <-.
  assert (Hk : key_ok n) by exact Hk0.
  destruct (key_cmp_ok n Hk) as (r & n' & Ec & Er & Hs & Hk').
  exists r, (<[p := n']> h), (node_key n). unfold cmp_at, deref. rewrite Hn. cbn [mbind res_bind res_of].
  rewrite Ec. cbn [mbind res_bind]. split; [done|].
  assert (Hf : forall {A} (g : lvTreeNode -> A), g n' = g n -> g <$> <[p := n']> h = g <$> h).
  { intros A g Hg. rewrite fmap_insert, Hg. apply insert_id. by rewrite lookup_fmap, Hn. }
  destruct Hs as (H1 & H2 & H3 & H4 & H5 & H6 & H7 & H8 & H9 & H10 & H11). split; [split_and!|split_and!].
  - unfold linkm. apply Hf. unfold links. by rewrite H8, H9, H10.
  - unfold balm. by apply Hf.
  - unfold datm, restm. rewrite <- !map_fmap_compose. apply Hf. unfold compose, data. simpl.
    change (node_key (rest n')) with (node_key n'). change (node_key (rest n)) with (node_key n).
    by rewrite H1, H2, H3, H4, H7, H11.
  - unfold dirm. by apply Hf.
  - intros q Hq. unfold restm. rewrite fmap_insert. destruct (decide (p = q)) as [<-|Hpq].
    + rewrite lookup_insert_eq. by exists (rest n').
    + rewrite lookup_insert_ne by done. by apply Hok.
  - unfold keym, restm. by rewrite <- map_fmap_compose, lookup_fmap, Hn.
  - done.
Qed.

Lemma dir_at_spec h T p x :
  keys_ok h T -> p ∈ elems T ->
  exists h', modify (with_dir x) p h = Ok h' /\ kept h h' /\ dirm h' = alter (const x) p (dirm h) /\
    keys_ok h' T /\ linkm h' = linkm h.
Proof.
  intros Hok Hp. destruct (Hok p Hp) as (n0 & Hn0 & _).
  assert (Hl : is_Some (linkm h !! p)).
  { unfold linkm. unfold restm in Hn0. rewrite lookup_fmap in Hn0. rewrite lookup_fmap.
    destruct (h !! p); [by eexists|done]. }
  destruct (modify_dir h _ _ _ _ eq_refl x p Hl) as (h' & E & Hv). exists h'. split; [done|].
  injection Hv as EL EB ED ER. unfold kept, datm, keys_ok. rewrite EL, EB, ED, ER.
  by repeat (split; [done|]).
Qed.

Lemma keys_at h T p : keys_ok h T -> p ∈ elems T -> exists kp, keym h !! p = Some kp.
Proof.
  intros Hok Hp. destruct (Hok p Hp) as (n & Hn & _). exists (node_key n). unfold keym.
  by rewrite lookup_fmap, Hn.
Qed.

Lemma alter_dir_get h p d :
  is_Some (dirm h !! p) -> alter (const (dirZ d)) p (dirm h) !! p = Some (dirZ d).
Proof. intros [x Hx]. by rewrite lookup_alter_eq, Hx. Qed.

(** Below a path, an ordered tree splits around the root of the subtree. *)
Lemma ordered_at K c l p r kp :
  ordered K (plug c (Node l p r)) -> K !! p = Some kp ->
  below K (before c ++ elems l) kp /\ above K (elems r ++ after c) kp.
Proof.
  unfold ordered. rewrite plug_elems. simpl. rewrite <- app_assoc. simpl. rewrite app_assoc. intros Hs E.
  apply (sorted_mid K (before c ++ elems l) p kp (elems r ++ after c) E) in Hs. tauto.
Qed.

Lemma dirm_linkm h p : is_Some (linkm h !! p) -> is_Some (dirm h !! p).
Proof.
  unfold linkm, dirm. intros [x E]. rewrite lookup_fmap in E. rewrite lookup_fmap.
  destruct (h !! p); [by eexists|done].
Qed.

(** What does not change while a tree is looked up. *)
Definition search_ok (h : heap) (T : tree) : Prop :=
  rep (linkm h) NULL T /\ NoDup (elems T) /\ keys_ok h T /\ ordered (keym h) T.

Lemma search_ok_kept h h' T : search_ok h T -> kept h h' -> keys_ok h' T -> search_ok h' T.
Proof.
  intros (Hr & Hn & _ & Ho) (EL & _ & EK%keym_datm) Hk. unfold search_ok. by rewrite EL, EK.
Qed.

(** The directions lead along [c], and [k] belongs below it. *)
Definition pos (h : heap) (c : list frame) : Prop :=
  dirs (dirm h) c /\ below (keym h) (before c) k /\ above (keym h) (after c) k.

Lemma dirs_alter D c p f : p ∉ cels c -> dirs D c -> dirs (alter f p D) c.
Proof. intros Hp. apply dirs_frame. intros y Hy. apply lookup_alter_ne. by intros ->. Qed.

Lemma pos_cmp h h' c : pos h c -> kept h h' -> dirm h' = dirm h -> pos h' c.
Proof. intros Hp (_ & _ & EK%keym_datm) ED. unfold pos. by rewrite EK, ED. Qed.

Lemma pos_alter h h' c p f :
  pos h c -> p ∉ cels c -> kept h h' -> dirm h' = alter f p (dirm h) -> pos h' c.
Proof.
  intros (Hd & Hb) Hp (_ & _ & EK%keym_datm) ED. unfold pos. rewrite EK, ED.
  split; [by apply dirs_alter|done].
Qed.

Lemma search_ok_cels h c t : search_ok h (plug c t) -> forall x, x ∈ elems t -> x ∉ cels c.
Proof. intros (_ & Hn & _). by apply plug_NoDup in Hn as (_ & _ & ?). Qed.

(** One step of the descent: compare, and set the direction. *)
Lemma pos_step d h h' c p kp t s :
  search_ok h (plug c (mkN d t p s)) -> pos h c -> keym h !! p = Some kp ->
  lkey_cmp k kp = (if d then Gt else Lt) ->
  kept h h' -> dirm h' = alter (const (dirZ d)) p (dirm h) -> pos h' (F d p s :: c).
Proof.
  intros Hok Hpos Hp Hk Hkept ED.
  assert (Hpc : p ∉ cels c) by (eapply search_ok_cels; [exact Hok|]; rewrite mkN_elem; auto).
  destruct (pos_alter h h' c p _ Hpos Hpc Hkept ED) as (Hd & Hb & Ha).
  destruct Hok as (Hr & _ & _ & Ho). destruct Hkept as (EL & _ & EK%keym_datm).
  assert (is_Some (dirm h !! p)).
  { apply rep_plug in Hr as [Hr _]. apply mkN_rep in Hr as (_ & E & _). apply dirm_linkm. by eexists. }
  assert (Hdp : dirm h' !! p = Some (dirZ d)) by (rewrite ED; by apply alter_dir_get).
  unfold pos. rewrite EK in Hb, Ha |- *. split; [by apply dirs_cons|]. destruct d; simpl in *.
  - apply ordered_at with (kp := kp) in Ho as [Hlo _]; [|done]. apply lkey_cmp_gt in Hk.
    apply below_app in Hlo as [_ Hs]. split; [|done].
    rewrite !below_app, (below_cons _ p kp) by done.
    split_and!; [done| |done|constructor]. by eapply below_trans.
  - apply ordered_at with (kp := kp) in Ho as [_ Hhi]; [|done]. apply above_app in Hhi as [Hs _].
    rewrite app_nil_r. split; [done|].
    rewrite (above_cons _ p kp) by done. split; [done|]. rewrite above_app. split; [|done].
    by eapply above_trans.
Qed.

Lemma deref_child d h c t p s :
  search_ok h (plug c (mkN d t p s)) ->
  exists n, deref h p = Ok n /\ (if d then avl_right n else avl_left n) = addr t /\ descent_dir n = default 0 (dirm h !! p).
Proof.
  intros (Hr & _). apply rep_plug in Hr as [Hr _]. apply mkN_rep in Hr as (_ & E & _).
  unfold linkm in E. rewrite lookup_fmap in E. unfold deref, dirm. rewrite lookup_fmap.
  destruct (h !! p) as [n|]; [|done]. exists n. split; [done|]. simpl in E. injection E as E.
  unfold links in E. symmetry in E. apply mkl_child in E as [<- _]. by destruct d.
Qed.

Lemma miss_gap d h lvt c p s :
  pos h (F d p s :: c) ->
  (if d then lastNodeMax lvt = head0 (after c) else lastNodeMin lvt = last0 (before c)) ->
  gap h lvt (plug c (mkN d Leaf p s)) k p.
Proof.
  intros (Hd & Hb & Ha) Hc. exists (F d p s :: c). split_and!; try done. simpl.
  destruct d; rewrite ?app_nil_r; simpl; [|by rewrite Hc]. by rewrite (assoc_L (++)), last0_snoc, Hc.
Qed.

(** What the traversal of the subtree [t] below [c] answers. *)
Definition loop_post (lvt : lvTree) (T : tree) (h : heap)
    (R : res (heap * Z * Z * (Z * Z * Z))) : Prop :=
  exists h' node parent x mn mx, R = Ok (h', node, parent, (x, mn, mx)) /\
    kept h h' /\ lookup_post h' (set_clue x mn mx lvt) T k node parent.

Lemma loop_post_kept lvt T h h1 R : kept h h1 -> loop_post lvt T h1 R -> loop_post lvt T h R.
Proof.
  intros K (h' & node & parent & x & mn & mx & E & K' & Hp). exists h', node, parent, x, mn, mx.
  split; [done|]. split; [by etrans|done].
Qed.

Lemma loop_descend fuel d h lvt c t p s kp :
  (forall h c t parent, search_ok h (plug c t) -> t <> Leaf -> pos h c -> (height t <= fuel)%nat ->
     loop_post lvt (plug c t) h (lookup_loop fuel cmp h (addr t) parent (last0 (before c)) (head0 (after c)))) ->
  search_ok h (plug c (mkN d t p s)) -> pos h c -> keym h !! p = Some kp ->
  lkey_cmp k kp = (if d then Gt else Lt) -> (height t <= fuel)%nat ->
  loop_post lvt (plug c (mkN d t p s)) h
    (h ← modify (with_dir (dirZ d)) p h;
     n ← deref h p;
     let nextNode := if d then avl_right n else avl_left n in
     if nextNode =? NULL then Ok (h, NULL, p, (p, last0 (before c), head0 (after c)))
     else lookup_loop fuel cmp h nextNode p (if d then p else last0 (before c)) (if d then head0 (after c) else p)).
Proof.
  intros IH Hok Hpos Ep Hk Hf.
  destruct (dir_at_spec h (plug c (mkN d t p s)) p (dirZ d)) as (h2 & E & K2 & ED2 & Hk2 & _);
    [apply Hok|rewrite plug_perm, elem_of_app, mkN_elem; auto|].
  rewrite E. cbn [mbind res_bind]. clear E.
  pose proof (search_ok_kept _ _ _ Hok K2 Hk2) as Hok2.
  pose proof (pos_step d _ _ _ _ _ _ _ Hok Hpos Ep Hk K2 ED2) as Hpos2.
  destruct (deref_child d h2 c t p s Hok2) as (n & -> & En & _). cbn [mbind res_bind]. cbv zeta. rewrite En.
  destruct t as [|tl tp tr].
  - simpl. exists h2, NULL, p, p, (last0 (before c)), (head0 (after c)). split; [done|]. split; [done|].
    split; [done|]. assert (Hdc : dirs (dirm h2) c) by (destruct Hpos2 as [[_ ?]%dirs_cons _]; done).
    split; [right; destruct d; eexists c, _, _; split_and!; try done; by apply Hdc|].
    right. split; [done|]. apply miss_gap; [done|by destruct d].
  - set (tt := Node tl tp tr) in *. assert (addr tt <> NULL) as Hn.
    { destruct Hok2 as (Hr & _). apply rep_plug in Hr as [(_ & _ & Hr & _)%mkN_rep _]. by destruct Hr. }
    destruct (Z.eqb_spec (addr tt) NULL) as [|_]; [done|].
    destruct (IH h2 (F d p s :: c) tt p) as (h' & node & parent' & x & mn & mx & E & K3 & Hpost);
      [done|done|done|done|].
    exists h', node, parent', x, mn, mx. split; [|split; [by etrans|done]].
    rewrite <- E. f_equal; destruct d; simpl; by rewrite ?app_nil_r, ?(assoc_L (++)), ?last0_snoc.
Qed.

Lemma lookup_loop_spec fuel h lvt c t parent :
  search_ok h (plug c t) -> t <> Leaf -> pos h c -> (height t <= fuel)%nat ->
  loop_post lvt (plug c t) h (lookup_loop fuel cmp h (addr t) parent (last0 (before c)) (head0 (after c))).
Proof.
  revert h c t parent. induction fuel as [|fuel IH]; intros h c t parent Hok Ht Hpos Hf;
    (destruct t as [|l p r]; [done|]); simpl in Hf; [lia|]. clear Ht. cbn [lookup_loop addr].
  destruct (cmp_at_spec h (plug c (Node l p r)) p) as (v & h1 & kp & E & K1 & ED & Hk1 & Ep & Ev);
    [apply Hok|rewrite plug_perm; set_solver|].
  rewrite E. cbn [mbind res_bind]. clear E.
  pose proof (search_ok_kept _ _ _ Hok K1 Hk1) as Hok1. pose proof (pos_cmp _ _ _ Hpos K1 ED) as Hpos1.
  assert (Epk : keym h1 !! p = Some kp) by (by rewrite (keym_datm h h1); [|apply K1]).
  destruct (Z.eqb_spec v 0) as [->|Hv].
  { exists h1, p, parent, p, (last0 (before c)), (head0 (after c)). split; [done|]. split; [done|].
    split; [done|]. split; [right; exists c, l, r; split_and!; try done; apply Hpos1|].
    left. assert (rep (linkm h1) NULL (plug c (Node l p r))) as Hr by apply Hok1.
    apply rep_plug in Hr as [(Np & _) _]. split; [done|]. exists c, l, r. split_and!; [done|apply Hpos1|].
    symmetry in Ev. simpl in Ev. by apply lkey_cmp_eq in Ev as ->. }
  apply (loop_post_kept lvt _ h h1 _ K1).
  destruct (Z.ltb_spec v 0).
  - apply (loop_descend fuel false h1 lvt c l p r kp); auto; [|lia]. rewrite <- Ev. by apply Z.compare_lt_iff.
  - apply (loop_descend fuel true h1 lvt c r p l kp); auto; [|lia]. rewrite <- Ev. apply Z.compare_gt_iff. lia.
Qed.

(** What a lookup answers; besides the floating forms of keys and the directions
    it changes the clue only. *)
Definition lookup_res (h : heap) (lvt : lvTree) (T : tree) (R : res (heap * lvTree * Z * Z)) : Prop :=
  exists h' lvt' node parent, R = Ok (h', lvt', node, parent) /\ kept h h' /\
    (exists x mn mx, lvt' = set_clue x mn mx lvt) /\ lookup_post h' lvt' T k node parent.

Lemma lookup_res_kept h h1 lvt T R : kept h h1 -> lookup_res h1 lvt T R -> lookup_res h lvt T R.
Proof.
  intros K (h' & lvt' & node & parent & E & K' & Hp). exists h', lvt', node, parent.
  split; [done|]. split; [by etrans|done].
Qed.

Lemma lv_wf_search h lvt T : lv_wf h lvt T -> search_ok h T.
Proof. intros ((_ & Hr & Hn & _) & Hk & Ho & _). done. Qed.

Lemma lv_wf_cmp h h' lvt T :
  lv_wf h lvt T -> kept h h' -> dirm h' = dirm h -> keys_ok h' T -> lv_wf h' lvt T.
Proof.
  intros (Hw & _ & Ho & Hc) (EL & EB & EK%keym_datm) ED Hk. unfold lv_wf, tree_wf, clue_ok in *.
  by rewrite EL, EB, EK, ED.
Qed.

Lemma set_clue_same lvt : lvt = set_clue (lastNodeLookedUp lvt) (lastNodeMin lvt) (lastNodeMax lvt) lvt.
Proof. by destruct lvt. Qed.

Lemma traverse_spec h lvt T : lv_wf h lvt T -> lookup_res h lvt T (lookup_traverse cmp h lvt).
Proof.
  intros Hw. pose proof (lv_wf_search _ _ _ Hw) as Hok.
  destruct Hw as ((H0 & Hr & Hn & Ha & Hroot & Hh) & Hk & Ho & Hc). unfold lookup_traverse. rewrite Hroot.
  destruct T as [|l p r]; simpl.
  - exists h, lvt, NULL, NULL. split; [done|]. split; [done|].
    split; [do 3 eexists; apply set_clue_same|]. split; [done|]. split; [done|]. right. split; [done|].
    exists []. split_and!; try done; constructor.
  - destruct Hr as (Np & Hr). destruct (Z.eqb_spec p NULL) as [|_]; [done|].
    destruct (lookup_loop_spec (hfuel h) h lvt [] (Node l p r) p Hok) as (h' & node & parent & x & mn & mx & E & K & Hp);
      [done|by split; [constructor|split; constructor]| |].
    { pose proof (path_length [] (Node l p r)) as Hl. unfold hfuel.
      pose proof (elems_size h _ _ _ _ NULL (Node l p r) eq_refl (conj Np Hr) Hn). simpl in *. lia. }
    simpl in E. unfold last0, head0 in E. simpl in E. rewrite E. cbn [mbind res_bind].
    exists h', (set_clue x mn mx lvt), node, parent. split; [done|]. split; [done|]. split; [by do 3 eexists|done].
Qed.

(** The neighbour of the clue in the direction [d], an ancestor. *)
Definition near (d : bool) (c : list frame) : Z := if d then head0 (after c) else last0 (before c).

Lemma near_null d c : near d c = NULL -> NULL ∉ cels c -> (if d then after c else before c) = [].
Proof.
  unfold near, cels, head0, last0. rewrite not_elem_of_app. intros E [Hb Ha]. destruct d.
  - destruct (after c) as [|x l]; [done|]. simpl in E. subst. set_solver.
  - destruct (before c) as [|x l _] using rev_ind; [done|]. rewrite last_snoc in E. simpl in E. subst. set_solver.
Qed.

Lemma near_path (d : bool) (c : list frame) :
  (if d then after c else before c) <> @nil Z ->
  exists (c1 : list frame) (s : tree) (c2 : list frame), c = c1 ++ F (negb d) (near d c) s :: c2 /\
    (if d then after c else before c) =
    (if d then near d c :: elems s ++ after c2 else before c2 ++ elems s ++ [near d c]).
Proof.
  unfold near. induction c as [|[d' p s] c IH]; intros Hn; [by destruct d|].
  destruct (decide (d' = d)) as [->|Hd].
  - destruct IH as (c1 & s' & c2 & E1 & E2); [by destruct d; simpl in *; rewrite ?app_nil_r in Hn|].
    exists (F d p s :: c1), s', c2. rewrite E1 at 1.
    destruct d; simpl in *; rewrite ?app_nil_r; done.
  - exists [], s, c. destruct d, d'; try done. simpl.
    by rewrite (assoc_L (++)), last0_snoc, <- (assoc_L (++)).
Qed.

(** The key belongs next to the clue: on its side [d], short of its neighbour. *)
Lemma clue_place d h c x kx s :
  search_ok h (plug c (mkN d Leaf x s)) -> dirs (dirm h) c -> keym h !! x = Some kx ->
  lkey_cmp k kx = (if d then Gt else Lt) ->
  near d c = NULL \/ (exists km, keym h !! near d c = Some km /\ lkey_cmp k km = (if d then Lt else Gt)) ->
  pos h c.
Proof.
  intros Hok Hd Ex Hk Hnear. assert (Hok' := Hok). destruct Hok' as (Hr & Hn & _ & Ho).
  assert (Hnc : NULL ∉ cels c).
  { intros Hi. apply (rep_null_notin _ _ _ Hr). rewrite plug_perm, elem_of_app. by right. }
  assert (Hside : if d then above (keym h) (after c) k else below (keym h) (before c) k).
  { destruct Hnear as [Hz|(km & Em & Hkm)].
    { apply near_null in Hz; [|done]. destruct d; rewrite Hz; constructor. }
    destruct (decide ((if d then after c else before c) = [])) as [Hz|Hne].
    { destruct d; rewrite Hz; constructor. }
    destruct (near_path d c Hne) as (c1 & s1 & c2 & Ec & El).
    rewrite Ec in Ho. rewrite plug_app in Ho. simpl in Ho.
    destruct d; simpl in *; rewrite El.
    - apply ordered_at with (kp := km) in Ho as [_ Hhi]; [|done].
      rewrite (above_cons _ _ km) by done. split; [done|]. eapply above_trans; [exact Hhi|done].
    - apply ordered_at with (kp := km) in Ho as [Hlo _]; [|done]. apply lkey_cmp_gt in Hkm.
      rewrite (assoc_L (++)), below_app, (below_cons _ _ km) by done.
      split_and!; [by eapply below_trans|done|constructor]. }
  split; [done|]. destruct d; simpl in Ho; apply ordered_at with (kp := kx) in Ho as [Hlo Hhi]; try done.
  - apply lkey_cmp_gt in Hk. apply below_app in Hlo as [Hlo _]. split; [by eapply below_trans|done].
  - apply above_app in Hhi as [_ Hhi]. split; [done|]. by eapply above_trans.
Qed.


Lemma clue_ok_alter h h' lvt T f :
  NoDup (elems T) -> clue_ok h lvt T -> dirm h' = alter f (lastNodeLookedUp lvt) (dirm h) -> clue_ok h' lvt T.
Proof.
  intros Hn [Hx|(c & l & r & -> & Hd & Hm)] ED; [by left|]. right. exists c, l, r. split; [done|].
  split; [|done]. rewrite ED. apply dirs_alter; [|done]. by apply node_NoDup in Hn as (_ & _ & _ & _ & _ & ? & _).
Qed.

Definition clue_near (d : bool) (lvt : lvTree) : Z := if d then lastNodeMax lvt else lastNodeMin lvt.

Lemma clue_miss_spec d h lvt c s kx :
  let x := lastNodeLookedUp lvt in let T := plug c (mkN d Leaf x s) in
  lv_wf h lvt T -> pos h c -> keym h !! x = Some kx -> lkey_cmp k kx = (if d then Gt else Lt) ->
  clue_near d lvt = near d c -> lookup_res h lvt T (clue_miss h lvt (dirZ d)).
Proof.
  intros x T Hw Hpos Ex Hk Hc. pose proof (lv_wf_search _ _ _ Hw) as Hok. destruct Hw as (_ & _ & _ & Hclue).
  unfold clue_miss. fold x.
  destruct (dir_at_spec h T x (dirZ d)) as (h2 & E & K2 & ED2 & Hk2 & _);
    [apply Hok|unfold T; rewrite plug_perm, elem_of_app, mkN_elem; auto|].
  rewrite E. cbn [mbind res_bind]. exists h2, lvt, NULL, x. split; [done|]. split; [done|].
  split; [do 3 eexists; apply set_clue_same|]. split; [done|].
  split; [eapply clue_ok_alter; [apply Hok|done|done]|]. right. split; [done|].
  apply miss_gap; [by eapply pos_step|by destruct d].
Qed.

(** The lookup on the side [d] of the clue, where it has no child. *)
Definition clue_side (d : bool) (h : heap) (lvt : lvTree) (lp : Z) : res (heap * lvTree * Z * Z) :=
  let n := clue_near d lvt in
  if negb (n =? NULL) then
    '(c, h) ← cmp_at cmp h n;
    if c =? 0 then Ok (h, lvt, n, lp)
    else if (if d then c <? 0 else 0 <? c) then clue_miss h lvt (dirZ d)
    else lookup_traverse cmp h lvt
  else clue_miss h lvt (dirZ d).

Lemma near_found d h c t :
  search_ok h (plug c t) -> dirs (dirm h) c -> near d c <> NULL ->
  exists c' l r, plug c t = plug c' (Node l (near d c) r) /\ dirs (dirm h) c'.
Proof.
  intros Hok Hd Hn. destruct (near_path d c) as (c1 & s & c2 & Ec & _).
  { intros E. apply Hn. unfold near. by destruct d; rewrite E. }
  rewrite Ec in Hd. apply Forall_app in Hd as [_ [_ Hd]%dirs_cons].
  exists c2. set (m := near d c) in *. clearbody m. rewrite Ec, plug_app. simpl. by destruct d; do 2 eexists.
Qed.

Lemma clue_side_spec d h lvt lp c s kx :
  let x := lastNodeLookedUp lvt in let T := plug c (mkN d Leaf x s) in
  lv_wf h lvt T -> dirs (dirm h) c -> keym h !! x = Some kx -> lkey_cmp k kx = (if d then Gt else Lt) ->
  clue_near d lvt = near d c -> lookup_res h lvt T (clue_side d h lvt lp).
Proof.
  intros x T Hw Hd Ex Hk Hc. pose proof (lv_wf_search _ _ _ Hw) as Hok. unfold clue_side. rewrite Hc.
  destruct (Z.eqb_spec (near d c) NULL) as [Hz|Hz]; simpl negb; cbv iota.
  { eapply clue_miss_spec; [done| |done..]. eapply clue_place; [done|done|done|done|by left]. }
  destruct (near_found d h c _ Hok Hd Hz) as (c' & l & r & ET & Hd').
  destruct (cmp_at_spec h T (near d c)) as (v & h1 & km & E & K1 & ED & Hk1 & Em & Ev);
    [apply Hok|unfold T; rewrite ET, plug_perm; set_solver|].
  rewrite E. cbn [mbind res_bind]. apply (lookup_res_kept h h1 lvt T _ K1).
  pose proof (lv_wf_cmp _ _ _ _ Hw K1 ED Hk1) as Hw1. rewrite <- ED in Hd, Hd'.
  assert (EK : keym h1 = keym h) by (apply keym_datm, K1). rewrite <- EK in Em, Ex.
  destruct (Z.eqb_spec v 0) as [->|Hv].
  { exists h1, lvt, (near d c), lp. split; [done|]. split; [done|]. split; [do 3 eexists; apply set_clue_same|].
    split; [done|]. split; [apply Hw1|]. left. split; [done|]. exists c', l, r. split_and!; [done|done|].
    symmetry in Ev. simpl in Ev. by apply lkey_cmp_eq in Ev as ->. }
  destruct (if d then v <? 0 else 0 <? v) eqn:Es; [|by apply traverse_spec].
  eapply clue_miss_spec; [done| |done..].
  eapply clue_place; [by eapply lv_wf_search|done|done|done|right]. exists km. split; [done|]. rewrite <- Ev.
  destruct d; [by apply Z.compare_lt_iff, Z.ltb_lt|by apply Z.compare_gt_iff, Z.ltb_lt].
Qed.

Theorem lookup_gen_spec h lvt T lp : lv_wf h lvt T -> lookup_res h lvt T (lookup_gen cmp h lvt lp).
Proof.
  intros Hw. unfold lookup_gen. cbv zeta.
  destruct (Z.eqb_spec (lastNodeLookedUp lvt) NULL) as [|Hx]; simpl negb; cbv iota; [by apply traverse_spec|].
  assert (Hw' := Hw). destruct Hw' as (_ & _ & _ & [|(c & l & r & -> & Hd & Hl & Hr)]); [done|].
  set (x := lastNodeLookedUp lvt) in *. pose proof (lv_wf_search _ _ _ Hw) as Hok.
  destruct (cmp_at_spec h (plug c (Node l x r)) x) as (v & h1 & kx & E & K1 & ED & Hk1 & Ex & Ev);
    [apply Hok|rewrite plug_perm; set_solver|].
  rewrite E. cbn [mbind res_bind]. apply (lookup_res_kept h h1 lvt _ _ K1).
  pose proof (lv_wf_cmp _ _ _ _ Hw K1 ED Hk1) as Hw1. rewrite <- ED in Hd.
  assert (EK : keym h1 = keym h) by (apply keym_datm, K1). rewrite <- EK in Ex.
  pose proof (lv_wf_search _ _ _ Hw1) as Hok1.
  destruct (deref_child false h1 c l x r Hok1) as (n & En & Enl & _).
  destruct (deref_child true h1 c r x l Hok1) as (n' & En' & Enr & _). rewrite En in En'. injection En' as <-.
  simpl in Enl, Enr. rewrite En. cbn [mbind res_bind]. rewrite Enl, Enr.
  destruct (Z.eqb_spec v 0) as [->|Hv].
  { exists h1, lvt, x, lp. split; [done|]. split; [done|]. split; [do 3 eexists; apply set_clue_same|].
    split; [done|]. split; [apply Hw1|]. left. split; [done|]. exists c, l, r. split_and!; [done|done|].
    symmetry in Ev. simpl in Ev. by apply lkey_cmp_eq in Ev as ->. }
  assert (Hnull : forall t, rep (linkm h1) x t -> addr t = NULL -> t = Leaf).
  { intros [|? ? ?]; [done|]. by intros (? & _). }
  destruct Hok1 as (Hrep & _). apply rep_plug in Hrep as [(_ & _ & Hrl & Hrr) _].
  destruct (Z.ltb_spec 0 v).
  - destruct (Z.eqb_spec (addr r) NULL) as [Er|_]; [|by apply traverse_spec].
    apply Hnull in Er as ->; [|done].
    apply (clue_side_spec true h1 lvt lp c l kx); auto. rewrite <- Ev. by apply Z.compare_gt_iff.
  - destruct (Z.eqb_spec (addr l) NULL) as [El|_]; [|by apply traverse_spec].
    apply Hnull in El as ->; [|done].
    apply (clue_side_spec false h1 lvt lp c r kx); auto. rewrite <- Ev. apply Z.compare_lt_iff. lia.
Qed.
End lookup.
