(* ===== verification/Lvmap.v ===== *)
(** One level of subscripts as an ordered dictionary: the operations on a tree
    of local variables (lv_tree.c) refine those on a sorted list of pairs of a
    key and the address of its node, on which the walks in the order of keys and
    the two null collations are specified. *)

From stdpp Require Import base list numbers option tactics gmap sorting.
From Stdlib Require Import ZArith Lia.
From S2P Require Import Prelude Mval Lvnode Avltree Avlops Lvtree.

Open Scope Z_scope.

(** * The dictionary *)

Abbreviation dict := (list (lkey * Z)).

Fixpoint dget (m : dict) (k : lkey) : option Z :=
  match m with
  | [] => None
  | (k', a) :: m' => if decide (k = k') then Some a else dget m' k
  end.

Fixpoint dput (m : dict) (k : lkey) (a : Z) : dict :=
  match m with
  | [] => [(k, a)]
  | (k', a') :: m' =>
      match lkey_cmp k k' with
      | Lt => (k, a) :: m
      | Eq => (k, a) :: m'
      | Gt => (k', a') :: dput m' k a
      end
  end.

Definition ddel (m : dict) (k : lkey) : dict := filter (fun ka => ka.1 <> k) m.

(** The neighbours of a key, which need not be in the dictionary; NULL at the ends. *)
Definition dnext (m : dict) (k : lkey) : Z := head0 (filter (fun ka => klt k ka.1) m).*2.
Definition dprev (m : dict) (k : lkey) : Z := last0 (filter (fun ka => klt ka.1 k) m).*2.
Definition dfirst (m : dict) : Z := head0 m.*2.
Definition dlast (m : dict) : Z := last0 m.*2.

(** The order of the keys where null subscripts collate first. *)
Definition dstd (m : dict) : dict :=
  filter (fun ka => ka.1 = KStr []) m ++ filter (fun ka => ka.1 <> KStr []) m.

Definition dsorted (m : dict) : Prop := StronglySorted klt m.*1.

Definition dbelow (m : dict) (k : lkey) : Prop := Forall (fun ka => klt ka.1 k) m.
Definition dabove (m : dict) (k : lkey) : Prop := Forall (fun ka => klt k ka.1) m.

(** ** Lemmas: dictionaries around a key *)

Lemma klt_ne k k' : klt k k' -> k <> k'.
Proof. intros H ->. by apply klt_irrefl in H. Qed.

Lemma dget_below m m' k : dbelow m k -> dget (m ++ m') k = dget m' k.
Proof.
  induction 1 as [|[k' a] m Hk _ IH]; [done|]. simpl in *. rewrite decide_False; [done|].
  intros ->. by apply klt_irrefl in Hk.
Qed.

Lemma dget_elem m k a : dget m k = Some a -> (k, a) ∈ m.
Proof.
  induction m as [|[k' a'] m IH]; [done|]. simpl. destruct (decide (k = k')) as [->|_].
  - intros [= ->]. by left.
  - intros H. right. by apply IH.
Qed.

Lemma dget_above m k : dabove m k -> dget m k = None.
Proof.
  induction 1 as [|[k' a] m Hk _ IH]; [done|]. simpl in *. rewrite decide_False; [done|].
  intros ->. by apply klt_irrefl in Hk.
Qed.

Lemma dput_below m m' k a : dbelow m k -> dput (m ++ m') k a = m ++ dput m' k a.
Proof.
  induction 1 as [|[k' a'] m Hk _ IH]; [done|]. simpl in *. apply lkey_cmp_gt in Hk. by rewrite Hk, IH.
Qed.

Lemma dput_above m k a : dabove m k -> dput m k a = (k, a) :: m.
Proof. destruct 1 as [|[k' a'] m Hk _]; [done|]. simpl in *. by rewrite Hk. Qed.

Lemma dput_same m k a a' : dput ((k, a') :: m) k a = (k, a) :: m.
Proof. simpl. by rewrite lkey_cmp_refl. Qed.

Lemma filter_all {A} (P : A -> Prop) `{forall x, Decision (P x)} l : Forall P l -> filter P l = l.
Proof. induction 1 as [|x l Hx _ IH]; [done|]. by rewrite filter_cons_True, IH. Qed.

Lemma filter_none {A} (P : A -> Prop) `{forall x, Decision (P x)} l : Forall (fun x => ~ P x) l -> filter P l = [].
Proof. induction 1 as [|x l Hx _ IH]; [done|]. by rewrite filter_cons_False. Qed.

Lemma dbelow_ne m k : dbelow m k -> Forall (fun ka => ka.1 <> k) m.
Proof. intros H. eapply Forall_impl; [exact H|]. intros x Hx. by apply klt_ne. Qed.

Lemma dabove_ne m k : dabove m k -> Forall (fun ka => ka.1 <> k) m.
Proof. intros H. eapply Forall_impl; [exact H|]. intros x Hx E. symmetry in E. revert E. by apply klt_ne. Qed.

Lemma ddel_at m1 m2 k a : dbelow m1 k -> dabove m2 k -> ddel (m1 ++ (k, a) :: m2) k = m1 ++ m2.
Proof.
  intros H1 H2. unfold ddel. rewrite filter_app, filter_cons_False by (simpl; tauto).
  by rewrite !filter_all by first [by apply dbelow_ne | by apply dabove_ne].
Qed.

Lemma ddel_out m1 m2 k : dbelow m1 k -> dabove m2 k -> ddel (m1 ++ m2) k = m1 ++ m2.
Proof.
  intros H1 H2. unfold ddel. rewrite filter_app.
  by rewrite !filter_all by first [by apply dbelow_ne | by apply dabove_ne].
Qed.

(** Neighbours of [k]; [m0] is the pair of [k], if it is there. *)
Lemma dnext_at m1 m0 m2 k :
  dbelow m1 k -> Forall (fun ka => ka.1 = k) m0 -> dabove m2 k -> dnext (m1 ++ m0 ++ m2) k = dfirst m2.
Proof.
  intros H1 H0 H2. unfold dnext, dfirst. rewrite !filter_app, (filter_all _ m2) by done.
  rewrite !filter_none; [done| |].
  - eapply Forall_impl; [exact H0|]. simpl. intros x ->. apply klt_irrefl.
  - eapply Forall_impl; [exact H1|]. simpl. intros x. apply klt_asym.
Qed.

Lemma dprev_at m1 m0 m2 k :
  dbelow m1 k -> Forall (fun ka => ka.1 = k) m0 -> dabove m2 k -> dprev (m1 ++ m0 ++ m2) k = dlast m1.
Proof.
  intros H1 H0 H2. unfold dprev, dlast. rewrite !filter_app, (filter_all _ m1) by done.
  rewrite !filter_none; [by rewrite app_nil_r| |].
  - eapply Forall_impl; [exact H2|]. simpl. intros x. apply klt_asym.
  - eapply Forall_impl; [exact H0|]. simpl. intros x ->. apply klt_irrefl.
Qed.

Lemma neighbours_found m1 m2 k a :
  dbelow m1 k -> dabove m2 k ->
  dnext (m1 ++ (k, a) :: m2) k = dfirst m2 /\ dprev (m1 ++ (k, a) :: m2) k = dlast m1.
Proof.
  intros H1 H2. split; [apply (dnext_at m1 [(k, a)])|apply (dprev_at m1 [(k, a)])]; try done; by repeat constructor.
Qed.

Lemma neighbours_gap m1 m2 k :
  dbelow m1 k -> dabove m2 k -> dnext (m1 ++ m2) k = dfirst m2 /\ dprev (m1 ++ m2) k = dlast m1.
Proof.
  intros H1 H2. split; [apply (dnext_at m1 [])|apply (dprev_at m1 [])]; try done; constructor.
Qed.

Lemma dsorted_at m1 m2 k a :
  dsorted (m1 ++ (k, a) :: m2) <-> dsorted m1 /\ dsorted m2 /\ dbelow m1 k /\ dabove m2 k.
Proof.
  unfold dsorted, dbelow, dabove. rewrite fmap_app, fmap_cons, StronglySorted_app. simpl. split.
  - intros (Hab & H1 & [H2 Hk]%StronglySorted_inv). split_and!; [done|done| |].
    + rewrite Forall_forall. intros [k' a'] Hi. apply Hab; [|set_solver].
      by apply list_elem_of_fmap_2 with (f := fst) in Hi.
    + rewrite Forall_fmap in Hk. exact Hk.
  - intros (H1 & H2 & Hb & Ha). split_and!; [|done|constructor; [done|by rewrite Forall_fmap]].
    intros x y (xa & -> & Hx)%list_elem_of_fmap Hy. rewrite Forall_forall in Hb. apply Hb in Hx.
    apply elem_of_cons in Hy as [->|(ya & -> & Hy)%list_elem_of_fmap]; [done|].
    rewrite Forall_forall in Ha. apply Ha in Hy. by etrans.
Qed.

Lemma dget_dput m k a k' :
  dsorted m -> dget (dput m k a) k' = if decide (k' = k) then Some a else dget m k'.
Proof.
  unfold dsorted. induction m as [|[k1 a1] m IH]; [done|]. intros [Hs Hk]%StronglySorted_inv. cbn [dput].
  destruct (lkey_cmp k k1) eqn:E.
  - apply lkey_cmp_eq in E as <-. cbn. by destruct (decide (k' = k)).
  - done.
  - cbn. rewrite IH by done. apply lkey_cmp_gt, klt_ne in E. destruct (decide (k' = k1)), (decide (k' = k)); congruence.
Qed.

Lemma dget_ddel m k k' : dget (ddel m k) k' = if decide (k' = k) then None else dget m k'.
Proof.
  unfold ddel. induction m as [|[k1 a1] m IH]; [by destruct (decide _)|]. rewrite filter_cons. cbn.
  destruct (decide (k1 <> k)) as [Hk|Hk]; cbn; rewrite IH.
  - destruct (decide (k' = k1)), (decide (k' = k)); congruence.
  - assert (k1 = k) as -> by (destruct (decide (k1 = k)); [done|contradiction]). by destruct (decide (k' = k)).
Qed.

(** * The dictionary of a tree *)

Definition entries (K : gmap Z lkey) (l : list Z) : dict := omap (fun p => (fun k => (k, p)) <$> K !! p) l.

(** The tree structure [lvt] stands for the dictionary [m] in the heap. *)
Definition lv_rep (h : heap) (lvt : lvTree) (m : dict) : Prop :=
  exists T, lv_wf h lvt T /\ m = entries (keym h) (elems T).

Lemma entries_app K l l' : entries K (l ++ l') = entries K l ++ entries K l'.
Proof. apply omap_app. Qed.

Lemma entries_cons K p k l : K !! p = Some k -> entries K (p :: l) = (k, p) :: entries K l.
Proof. intros E. unfold entries. cbn. by rewrite E. Qed.

Lemma entries_keys K l : (entries K l).*1 = contents K l.
Proof.
  induction l as [|p l IH]; [done|]. unfold entries, contents in *. cbn.
  destruct (K !! p); cbn; [f_equal|]; exact IH.
Qed.

Lemma dbelow_entries K l k : dbelow (entries K l) k <-> below K l k.
Proof. unfold dbelow, below. by rewrite <- entries_keys, Forall_fmap. Qed.

Lemma dabove_entries K l k : dabove (entries K l) k <-> above K l k.
Proof. unfold dabove, above. by rewrite <- entries_keys, Forall_fmap. Qed.

Lemma entries_ext K K' l : (forall p, p ∈ l -> K' !! p = K !! p) -> entries K' l = entries K l.
Proof.
  induction l as [|p l IH]; intros E; [done|]. unfold entries in *. cbn.
  rewrite E by set_solver. assert (Hl := IH (fun q Hq => E q (list_elem_of_further _ _ _ Hq))).
  destruct (K !! p); cbn; [f_equal|]; exact Hl.
Qed.

(** Every node of a tree has a key. *)
Lemma entries_addrs h T l : keys_ok h T -> (forall p, p ∈ l -> p ∈ elems T) -> (entries (keym h) l).*2 = l.
Proof.
  intros Hk. induction l as [|p l IH]; intros Hl; [done|].
  destruct (keys_at h T p Hk) as [k Ek]; [apply Hl; set_solver|].
  rewrite (entries_cons _ p k) by done. simpl. f_equal. apply IH. intros q Hq. apply Hl. set_solver.
Qed.

Lemma lv_rep_sorted h lvt m : lv_rep h lvt m -> dsorted m.
Proof. intros (T & (_ & _ & Ho & _) & ->). unfold dsorted. by rewrite entries_keys. Qed.

(** A tree around a path, as a dictionary. *)
Lemma entries_gap K c : entries K (elems (plug c Leaf)) = entries K (before c) ++ entries K (after c).
Proof. by rewrite plug_elems, entries_app. Qed.

Lemma entries_found K c l p r k :
  K !! p = Some k ->
  entries K (elems (plug c (Node l p r))) =
    entries K (before c ++ elems l) ++ (k, p) :: entries K (elems r ++ after c).
Proof.
  intros E. rewrite plug_elems. simpl. rewrite <- app_assoc. simpl.
  by rewrite app_assoc, entries_app, (entries_cons K p k).
Qed.

Lemma gap_dict h lvt T k parent :
  gap h lvt T k parent ->
  exists m1 m2, entries (keym h) (elems T) = m1 ++ m2 /\ dbelow m1 k /\ dabove m2 k.
Proof.
  intros (c & -> & _ & _ & Hb & Ha & _). do 2 eexists. split; [apply entries_gap|].
  by rewrite dbelow_entries, dabove_entries.
Qed.

Lemma found_dict h T k node :
  ordered (keym h) T -> found h T k node ->
  exists m1 m2, entries (keym h) (elems T) = m1 ++ (k, node) :: m2 /\ dbelow m1 k /\ dabove m2 k.
Proof.
  intros Ho (c & l & r & -> & _ & E). do 2 eexists. split; [by apply entries_found|].
  rewrite dbelow_entries, dabove_entries. by eapply ordered_at.
Qed.

(** * The operations *)

Lemma lookup_gen_key h lvt key lp : lvAvlTreeLookup h lvt key lp = lookup_gen (key_cmp key) h lvt lp.
Proof.
  unfold lvAvlTreeLookup, lvAvlTreeLookupInt, lvAvlTreeLookupNum, lvAvlTreeLookupStr, key_cmp.
  by destruct (TREE_KEY_SUBSCR_IS_CANONICAL _); [destruct (MVTYPE_IS_INT _)|].
Qed.

Lemma lv_wf_lookup h h' lvt lvt' T :
  lv_wf h lvt T -> kept h h' -> (exists x mn mx, lvt' = set_clue x mn mx lvt) ->
  keys_ok h' T -> clue_ok h' lvt' T -> lv_wf h' lvt' T.
Proof.
  intros (Hw & _ & Ho & _) (EL & EB & EK%keym_datm) (x & mn & mx & ->) Hk Hc.
  unfold lv_wf, tree_wf in *. by rewrite EL, EB, EK.
Qed.

Lemma lv_lookup_spec h lvt T key lp :
  lv_wf h lvt T -> mval_key_ok key ->
  exists h' lvt' node parent, lvAvlTreeLookup h lvt key lp = Ok (h', lvt', node, parent) /\
    kept h h' /\ (exists x mn mx, lvt' = set_clue x mn mx lvt) /\ lv_wf h' lvt' T /\
    node = default NULL (dget (entries (keym h) (elems T)) (mval_key key)) /\
    (node <> NULL /\ found h' T (mval_key key) node \/
     node = NULL /\ dget (entries (keym h) (elems T)) (mval_key key) = None /\ gap h' lvt' T (mval_key key) parent).
Proof.
  intros Hw Hk. rewrite lookup_gen_key.
  destruct (lookup_gen_spec (key_cmp key) (mval_key key) (Hcmp := key_cmp_instance key Hk) h lvt T lp Hw)
    as (h' & lvt' & node & parent & E & K & Hc & Hok & Hclue & Hp).
  exists h', lvt', node, parent. split; [done|]. split; [done|]. split; [done|].
  split; [by eapply lv_wf_lookup|]. assert (EK : keym h' = keym h) by (apply keym_datm, K). rewrite <- EK.
  destruct Hp as [(Hn & Hf)|(-> & Hg)].
  - assert (Ho : ordered (keym h') T) by (rewrite EK; apply Hw).
    destruct (found_dict h' T _ _ Ho Hf) as (m1 & m2 & -> & Hb & Ha).
    split; [|by left]. rewrite dget_below by done. simpl. by rewrite decide_True.
  - destruct (gap_dict _ _ _ _ _ Hg) as (m1 & m2 & -> & Hb & Ha).
    assert (dget (m1 ++ m2) (mval_key key) = None) as -> by (rewrite dget_below by done; by apply dget_above).
    split; [done|]. by right.
Qed.

(** The clue that insertion leaves: the new node, at the place of the gap. *)
Lemma insert_clue h' lvt T' c node mn mx :
  NoDup (elems T') -> elems T' = before c ++ node :: after c -> leads (dirm h') T' node ->
  (mn, mx) = (last0 (before c), head0 (after c)) ->
  clue_ok h' (shape_of T' (set_clue node mn mx lvt)) T'.
Proof.
  intros Hn Ee Hl [= -> ->]. apply leads_path in Hl as (c' & l & r & -> & Hd). right.
  exists c', l, r. split; [done|]. split; [done|]. simpl.
  assert (E := Ee). rewrite plug_elems in E. simpl in E. rewrite <- app_assoc in E. simpl in E. rewrite app_assoc in E.
  rewrite <- E in Ee. rewrite Ee in Hn. apply (NoDup_split _ _ _ _ _ Hn) in E as [<- <-].
  split; intros ->; simpl; by rewrite ?app_nil_r.
Qed.

Lemma keym_rest h : keym h = node_key <$> restm h.
Proof. done. Qed.

Lemma rest_key n : node_key (rest n) = node_key n.
Proof. done. Qed.

Lemma init_node_key lvt key parent n :
  mval_key_ok key -> key_ok (init_node lvt key parent n) /\ node_key (init_node lvt key parent n) = mval_key key.
Proof.
  intros Hk. unfold init_node. set (n' := mk_node _ _ _ _ _ _ _ _ _ _ _ _ _ _ _).
  exact (init_key_ok key n' Hk).
Qed.

(** Insertion of an absent key, in the slot [node], after the lookup that missed it. *)
Lemma insert_dict h lvt T key parent node n :
  lv_wf h lvt T -> mval_key_ok key -> gap h lvt T (mval_key key) parent ->
  h !! node = Some n -> node <> NULL -> node ∉ elems T ->
  exists h' lvt' T', lvAvlTreeNodeInsert h lvt key parent node = Ok (h', lvt') /\ lv_wf h' lvt' T' /\
    entries (keym h') (elems T') = dput (entries (keym h) (elems T)) (mval_key key) node /\
    elems T' ≡ₚ node :: elems T /\ lvt_ptr lvt' = lvt_ptr lvt /\
    dirm h' = dirm h /\ restm h' = <[node := rest (init_node lvt key parent n)]> (restm h).
Proof.
  intros (Hw & Hk & Ho & _) Hkey (c & -> & -> & Hd & Hb & Ha & Hc) En Nn Hni.
  destruct (insert_spec h lvt c key node n Hw Hd En Nn Hni)
    as (h' & lvt' & T' & E & Hw' & Ee & Hl & ED & ER & ->).
  exists h'. eexists. exists T'. split; [exact E|]. clear E.
  destruct (init_node_key lvt key (caddr c) n Hkey) as [Hnk Enk].
  assert (EK : keym h' = <[node := mval_key key]> (keym h)).
  { rewrite !keym_rest, ER, fmap_insert. by rewrite rest_key, Enk. }
  assert (Hne : forall p, p ∈ before c ++ after c -> p <> node).
  { intros p Hp ->. apply Hni. by rewrite plug_elems. }
  assert (Eb : forall l, (forall p, p ∈ l -> p ∈ before c ++ after c) -> entries (keym h') l = entries (keym h) l).
  { intros l Hl'. apply entries_ext. intros p Hp. rewrite EK. apply lookup_insert_ne.
    intros <-. by apply Hl', Hne in Hp. }
  assert (Ent : entries (keym h') (elems T') =
    dput (entries (keym h) (elems (plug c Leaf))) (mval_key key) node).
  { rewrite Ee, entries_gap, entries_app, (entries_cons _ node (mval_key key)) by (by rewrite EK, lookup_insert_eq).
    rewrite !Eb by (intros p; rewrite elem_of_app; auto).
    rewrite dput_below by (by apply dbelow_entries). rewrite dput_above by (by apply dabove_entries). done. }
  assert (Hperm : elems T' ≡ₚ node :: elems (plug c Leaf)).
  { rewrite Ee, plug_elems. simpl. by rewrite Permutation_middle. }
  split; [|split_and!; done]. split; [done|]. split_and!.
  - intros p Hp. rewrite Hperm, elem_of_cons in Hp. destruct (decide (p = node)) as [->|Hpn].
    { exists (rest (init_node lvt key (caddr c) n)). rewrite ER, lookup_insert_eq. by split. }
    destruct (Hk p) as (n' & En' & Hn'); [tauto|]. exists n'. split; [|done].
    by rewrite ER, lookup_insert_ne by congruence.
  - unfold ordered. rewrite <- entries_keys, Ent, entries_gap.
    rewrite dput_below by (by apply dbelow_entries). rewrite dput_above by (by apply dabove_entries).
    apply (dsorted_at _ _ (mval_key key) node). unfold ordered in Ho. rewrite <- entries_keys, entries_gap in Ho.
    unfold dsorted. rewrite fmap_app, StronglySorted_app in Ho. rewrite dbelow_entries, dabove_entries. tauto.
  - apply (insert_clue h' lvt T' c node); [apply Hw'|done|done|].
    rewrite <- Hc. by destruct (clue_after c lvt).
Qed.

(** Deletion of a node that the directions lead to. *)
Lemma delete_dict h lvt T k node :
  lv_wf h lvt T -> found h T k node ->
  exists h' lvt' T', lvAvlTreeNodeDelete h lvt node = Ok (h', lvt') /\ lv_wf h' lvt' T' /\
    entries (keym h') (elems T') = ddel (entries (keym h) (elems T)) k /\
    elems T ≡ₚ node :: elems T' /\ lvt_ptr lvt' = lvt_ptr lvt /\ restm h' = restm h.
Proof.
  intros (Hw & Hk & Ho & _) (c & l & r & -> & Hd & Ek).
  destruct (avl_delete_spec h lvt c l node r Hw Hd) as (h' & lvt' & T' & E & Hw' & Ee & ER & ->).
  exists h'. eexists. exists T'. split; [exact E|]. clear E.
  assert (EK : keym h' = keym h) by (by rewrite !keym_rest, ER).
  destruct (ordered_at (keym h) c l node r k Ho Ek) as [Hb Ha].
  assert (Ent : entries (keym h') (elems T') = entries (keym h) (before c ++ elems l) ++ entries (keym h) (elems r ++ after c)).
  { by rewrite EK, Ee, <- !entries_app, <- (assoc_L (++)). }
  assert (Hperm : elems (plug c (Node l node r)) ≡ₚ node :: elems T').
  { rewrite plug_elems, Ee. simpl. solve_Permutation. }
  split; [split; [done|split_and!]|].
  - intros p Hp. destruct (Hk p) as (n & En & Hn); [rewrite Hperm; set_solver|]. exists n. by rewrite ER.
  - unfold ordered. rewrite <- entries_keys, Ent. unfold ordered in Ho.
    rewrite <- entries_keys, (entries_found _ _ _ _ _ k) in Ho by done.
    apply dsorted_at in Ho as (H1 & H2 & H3 & H4). rewrite fmap_app, StronglySorted_app.
    split_and!; [|done|done]. intros x y (xa & -> & Hx)%list_elem_of_fmap (ya & -> & Hy)%list_elem_of_fmap.
    unfold dbelow, dabove in *. rewrite Forall_forall in H3, H4. apply H3 in Hx. apply H4 in Hy. by etrans.
  - by left.
  - split_and!; [|done|done|done]. rewrite Ent, (entries_found _ _ _ _ _ k) by done.
    symmetry. apply ddel_at; [by apply dbelow_entries|by apply dabove_entries].
Qed.

(** ** Walks *)

Lemma first_last_dict h lvt T :
  lv_wf h lvt T ->
  lvAvlTreeFirst h lvt = Ok (dfirst (entries (keym h) (elems T))) /\
  lvAvlTreeLast h lvt = Ok (dlast (entries (keym h) (elems T))).
Proof.
  intros (Hw & Hk & _). unfold dfirst, dlast. rewrite (entries_addrs h T) by done. by apply first_last_spec.
Qed.

Lemma next_prev_dict h lvt T k node :
  lv_wf h lvt T -> node ∈ elems T -> keym h !! node = Some k ->
  lvAvlTreeNext h node = Ok (dnext (entries (keym h) (elems T)) k) /\
  lvAvlTreePrev h node = Ok (dprev (entries (keym h) (elems T)) k).
Proof.
  intros (Hw & Hk & Ho & _) (c & l & r & ->)%elem_path Ek.
  destruct (ordered_at (keym h) c l node r k Ho Ek) as [Hb Ha].
  rewrite (entries_found _ _ _ _ _ k) by done.
  destruct (neighbours_found (entries (keym h) (before c ++ elems l)) (entries (keym h) (elems r ++ after c)) k node)
    as [-> ->]; [by apply dbelow_entries|by apply dabove_entries|].
  unfold dfirst, dlast. rewrite !(entries_addrs h (plug c (Node l node r)));
    [|done|intros p Hp; rewrite plug_elems; set_solver|done|intros p Hp; rewrite plug_elems; set_solver].
  eapply next_prev_spec; [done|]. rewrite plug_elems. simpl. by rewrite <- !app_assoc.
Qed.

(** The node where a missing key belongs is a neighbour of it, on the side that
    its direction tells. *)
Lemma gap_neighbour h lvt T k parent :
  lv_wf h lvt T -> gap h lvt T k parent -> T <> Leaf ->
  exists n, deref h parent = Ok n /\
    (if TREE_DESCEND_RIGHT =? descent_dir n then lvAvlTreeNext h parent else Ok parent) =
      Ok (dnext (entries (keym h) (elems T)) k) /\
    (if TREE_DESCEND_LEFT =? descent_dir n then lvAvlTreePrev h parent else Ok parent) =
      Ok (dprev (entries (keym h) (elems T)) k).
Proof.
  intros (Hw & Hk & _) (c & -> & -> & Hd & Hb & Ha & _) Hne. destruct c as [|[d p s] c]; [done|].
  apply dirs_cons in Hd as [Edir _]. cbn [caddr]. unfold deref. unfold dirm in Edir. rewrite lookup_fmap in Edir.
  destruct (h !! p) as [n|]; [|done]. injection Edir as Edir. exists n. split; [done|]. rewrite Edir.
  assert (Hel : elems (plug (F d p s :: c) Leaf) = before c ++ elems (mkN d Leaf p s) ++ after c)
    by (simpl; by rewrite plug_elems).
  rewrite entries_gap. destruct (neighbours_gap (entries (keym h) (before (F d p s :: c)))
    (entries (keym h) (after (F d p s :: c))) k) as [-> ->]; [by apply dbelow_entries|by apply dabove_entries|].
  unfold dfirst, dlast. rewrite !(entries_addrs h (plug (F d p s :: c) Leaf));
    [|done|intros q Hq; rewrite plug_elems; set_solver|done|intros q Hq; rewrite plug_elems; set_solver].
  destruct d; simpl in *.
  - destruct (next_prev_spec h lvt _ p (before c ++ elems s) (after c) Hw) as [-> _].
    { rewrite Hel. by rewrite <- !app_assoc. }
    split; [done|]. by rewrite (assoc_L (++)), last0_snoc.
  - destruct (next_prev_spec h lvt _ p (before c) (elems s ++ after c) Hw) as [_ ->].
    { by rewrite Hel. }
    by rewrite app_nil_r.
Qed.

(** What a walk answers: the node, on a tree that is as it was. *)
Definition walk_res (h : heap) (lvt : lvTree) (T : tree) (x : Z) (R : res (heap * lvTree * Z)) : Prop :=
  exists h' lvt', R = Ok (h', lvt', x) /\ kept h h' /\ (exists a b c, lvt' = set_clue a b c lvt) /\ lv_wf h' lvt' T.

Lemma walk_stay h lvt T x : lv_wf h lvt T -> walk_res h lvt T x (Ok (h, lvt, x)).
Proof. intros Hw. exists h, lvt. split; [done|]. split; [done|]. split; [|done]. do 3 eexists. apply set_clue_same. Qed.

Lemma found_in h T k node : found h T k node -> node ∈ elems T /\ keym h !! node = Some k.
Proof. intros (c & l & r & -> & _ & E). split; [|done]. rewrite plug_elems. set_solver. Qed.

Lemma key_next_dict h lvt T key :
  lv_wf h lvt T -> T <> Leaf -> mval_key_ok key ->
  walk_res h lvt T (dnext (entries (keym h) (elems T)) (mval_key key)) (lvAvlTreeKeyNext h lvt key).
Proof.
  intros Hw Hne Hk. unfold lvAvlTreeKeyNext.
  destruct (lv_lookup_spec h lvt T key NULL Hw Hk) as (h' & lvt' & node & parent & -> & K & Hc & Hw' & _ & Hn).
  cbn [mbind res_bind]. assert (EK : keym h' = keym h) by (apply keym_datm, K). exists h', lvt'. rewrite <- EK.
  destruct Hn as [(Nn & Hf)|(-> & _ & Hg)].
  - apply found_in in Hf as [Hi Ek]. destruct (next_prev_dict h' lvt' T _ node Hw' Hi Ek) as [-> _].
    destruct (Z.eqb_spec node NULL); [done|]. done.
  - destruct (gap_neighbour h' lvt' T _ parent Hw' Hg Hne) as (n & -> & E & _). rewrite Z.eqb_refl. cbn [negb mbind res_bind].
    destruct (TREE_DESCEND_RIGHT =? descent_dir n); [by rewrite E|]. by injection E as ->.
Qed.

Lemma key_prev_dict h lvt T key :
  lv_wf h lvt T -> T <> Leaf -> mval_key_ok key ->
  walk_res h lvt T (dprev (entries (keym h) (elems T)) (mval_key key)) (lvAvlTreeKeyPrev h lvt key).
Proof.
  intros Hw Hne Hk. unfold lvAvlTreeKeyPrev.
  destruct (lv_lookup_spec h lvt T key NULL Hw Hk) as (h' & lvt' & node & parent & -> & K & Hc & Hw' & _ & Hn).
  cbn [mbind res_bind]. assert (EK : keym h' = keym h) by (apply keym_datm, K). exists h', lvt'. rewrite <- EK.
  destruct Hn as [(Nn & Hf)|(-> & _ & Hg)].
  - apply found_in in Hf as [Hi Ek]. destruct (next_prev_dict h' lvt' T _ node Hw' Hi Ek) as [_ ->].
    destruct (Z.eqb_spec node NULL); [done|]. done.
  - destruct (gap_neighbour h' lvt' T _ parent Hw' Hg Hne) as (n & -> & _ & E). rewrite Z.eqb_refl. cbn [negb mbind res_bind].
    destruct (TREE_DESCEND_LEFT =? descent_dir n); [by rewrite E|]. by injection E as ->.
Qed.

(** * Null collation

    With the standard null collation the null subscript, that is between numbers
    and strings in the tree, comes first. *)

Definition clt (std : bool) (a b : lkey) : Prop :=
  if std then b <> KStr [] /\ (a = KStr [] \/ klt a b) else klt a b.

#[global] Instance clt_dec std a b : Decision (clt std a b).
Proof. unfold clt. destruct std; apply _. Defined.

Definition coll (std : bool) (m : dict) : dict := if std then dstd m else m.
Definition cnext (std : bool) (m : dict) (k : lkey) : Z := head0 (filter (fun ka => clt std k ka.1) (coll std m)).*2.
Definition cprev (std : bool) (m : dict) (k : lkey) : Z := last0 (filter (fun ka => clt std ka.1 k) (coll std m)).*2.
Definition clast (std : bool) (m : dict) : Z := last0 (coll std m).*2.

(** The pairs after [k], the null subscript apart. *)
Definition after_key (k : lkey) (ka : lkey * Z) : Prop := k = KStr [] \/ klt k ka.1.

#[global] Instance after_key_dec k ka : Decision (after_key k ka).
Proof. unfold after_key. apply _. Defined.

Lemma cnext_std m k : cnext true m k = head0 (filter (after_key k) (ddel m (KStr []))).*2.
Proof.
  unfold cnext, coll, dstd, ddel. rewrite filter_app, !list_filter_filter.
  rewrite filter_none; [|apply Forall_true; intros x [[H _] E]; done]. simpl. f_equal. f_equal.
  apply list_filter_iff. intros [k' a]. unfold after_key. simpl. tauto.
Qed.

Lemma cprev_std m k :
  cprev true m k =
  if decide (k = KStr []) then NULL
  else last0 (filter (fun ka => ka.1 = KStr []) m ++ filter (fun ka => klt ka.1 k) (ddel m (KStr []))).*2.
Proof.
  unfold cprev, coll, dstd, ddel. rewrite filter_app, !list_filter_filter. destruct (decide (k = KStr [])) as [->|Hk].
  - rewrite !filter_none; [done|..]; apply Forall_true; intros x [[H _] E]; done.
  - f_equal. f_equal. f_equal; apply list_filter_iff; intros [k' a]; simpl; tauto.
Qed.

(** Where the null subscript is in a sorted dictionary. *)
Lemma dsorted_cases m k :
  dsorted m ->
  (Forall (fun ka => ka.1 <> k) m /\ dget m k = None) \/
  exists m1 a m2, m = m1 ++ (k, a) :: m2 /\ dbelow m1 k /\ dabove m2 k /\ dget m k = Some a.
Proof.
  intros Hs. destruct (decide (k ∈ m.*1)) as [([k' a] & -> & Hi)%list_elem_of_fmap|Hn].
  - right. apply list_elem_of_split in Hi as (m1 & m2 & ->). exists m1, a, m2. simpl.
    apply dsorted_at in Hs as (_ & _ & Hb & Ha). split_and!; [done|done|done|].
    rewrite dget_below by done. simpl. by rewrite decide_True.
  - left. assert (Hf : Forall (fun ka => ka.1 <> k) m).
    { apply Forall_forall. intros [k' a] Hi E. apply Hn, list_elem_of_fmap. exists (k', a). by split. }
    split; [done|]. clear -Hf. induction Hf as [|[k' a] m Hk _ IH]; [done|]. simpl in *.
    by rewrite decide_False by congruence.
Qed.

(** A key that lookups take, with its string bit as MV_IS_CANONICAL leaves it. *)
Definition mval_key_norm (key : mval) : Prop :=
  mval_key_ok key /\ (key_is_null_subs key = true <-> mval_key key = KStr []).

Lemma last0_pairs (l l' : dict) y : last0 (l ++ [y]).*2 = y.2 /\ last0 (l' ++ l ++ [y]).*2 = y.2.
Proof. rewrite !fmap_app. simpl. by rewrite (assoc_L (++)), !last0_snoc. Qed.

Section collation.
Context (h : heap) (lvt : lvTree) (T : tree) (Hw : lv_wf h lvt T).
Let m : dict := entries (keym h) (elems T).

Lemma entries_in k x : (k, x) ∈ m -> x ∈ elems T /\ keym h !! x = Some k.
Proof.
  unfold m. generalize (elems T) as l. induction l as [|p l IH]; [by intros ?%not_elem_of_nil|].
  unfold entries. cbn. destruct (keym h !! p) as [kp|] eqn:E; cbn.
  - intros [[= -> ->]|Hi]%elem_of_cons; [by split; [left|]|]. destruct (IH Hi). split; [by right|done].
  - intros Hi. destruct (IH Hi). split; [by right|done].
Qed.

Lemma null_subs_at k x : (k, x) ∈ m -> is_null_subs h x = Ok (bool_decide (k = KStr [])).
Proof.
  intros [Hx Ek]%entries_in. assert (x <> NULL).
  { intros ->. destruct Hw as ((_ & Hr & _) & _). by apply (rep_null_notin _ _ _ Hr). }
  destruct Hw as (_ & Hk & _). destruct (Hk x Hx) as (n0 & En & Hn). unfold is_null_subs, deref.
  destruct (Z.eqb_spec x NULL) as [|_]; [done|]. unfold restm in En. rewrite lookup_fmap in En.
  unfold keym, restm in Ek. rewrite !lookup_fmap in Ek. destruct (h !! x) as [n|]; [|done].
  injection En as <-. injection Ek as <-. cbn [mbind res_bind res_of]. f_equal.
  unfold LV_NODE_KEY_IS_NULL_SUBS, LV_NODE_KEY_IS_STRING, key_ok, node_key in *. simpl in *.
  destruct Hn as [(-> & _)|[(-> & _)|[-> | ->]]]; simpl; try done. by destruct (key_str n).
Qed.

Lemma null_subs_none k x : (k, x) ∈ m -> k <> KStr [] -> is_null_subs h x = Ok false.
Proof. intros Hi Hk. rewrite (null_subs_at k x Hi). by rewrite bool_decide_false. Qed.

Lemma m_sorted : dsorted m.
Proof. unfold dsorted, m. rewrite entries_keys. apply Hw. Qed.

Lemma not_null l :
  (forall ka, ka ∈ l -> ka ∈ m /\ ka.1 <> KStr []) ->
  is_null_subs h (head0 l.*2) = Ok false /\ is_null_subs h (last0 l.*2) = Ok false.
Proof.
  intros Hl. split.
  - destruct l as [|[k x] l]; [done|]. destruct (Hl (k, x)) as [Hi Hk]; [by left|].
    by apply (null_subs_none k).
  - destruct l as [|[k x] l _] using rev_ind; [done|].
    rewrite (proj1 (last0_pairs l [] (k, x))). destruct (Hl (k, x)) as [Hi Hk]; [set_solver|]. by apply (null_subs_none k).
Qed.

(** The neighbours of the null subscript, when a walk stops there. *)
Lemma at_null m1 a m2 :
  m = m1 ++ (KStr [], a) :: m2 -> dbelow m1 (KStr []) -> dabove m2 (KStr []) ->
  is_null_subs h a = Ok true /\ lvAvlTreeNext h a = Ok (dfirst m2) /\ lvAvlTreePrev h a = Ok (dlast m1).
Proof.
  intros Em Hb Ha. assert (Hi : (KStr [], a) ∈ m) by (rewrite Em; set_solver).
  pose proof (entries_in _ _ Hi) as [Hx Ek]. split; [by rewrite (null_subs_at (KStr []) a Hi), bool_decide_true|].
  destruct (next_prev_dict h lvt T (KStr []) a Hw Hx Ek) as [-> ->]. fold m. rewrite Em.
  by destruct (neighbours_found m1 m2 _ a Hb Ha) as [-> ->].
Qed.

(** Past the null subscript: what [$ORDER] does after its step. *)
Lemma skip_next k :
  let x := head0 (filter (after_key k) m).*2 in
  (b ← is_null_subs h x; if (b : bool) then lvAvlTreeNext h x else Ok x) = Ok (cnext true m k).
Proof.
  rewrite cnext_std. cbv zeta. destruct (dsorted_cases m (KStr []) m_sorted) as [[Hn _]|(m1 & a & m2 & Em & Hb & Ha & _)].
  - assert (ddel m (KStr []) = m) as -> by (by apply filter_all).
    destruct (not_null (filter (after_key k) m)) as [-> _]; [|done].
    intros ka [_ Hi]%list_elem_of_filter. split; [done|]. rewrite Forall_forall in Hn. by apply Hn.
  - destruct (at_null m1 a m2 Em Hb Ha) as (N1 & N2 & _).
    apply dbelow_ne in Hb as Hb'. apply dabove_ne in Ha as Ha'. rewrite Forall_forall in Hb', Ha'.
    pose proof (not_null (filter (after_key k) m1)) as F1. pose proof (not_null (filter (after_key k) m2)) as F2.
    rewrite Em in *. rewrite ddel_at, !filter_app by done.
    destruct (filter (after_key k) m1) as [|[k1 x1] l1] eqn:E1.
    + destruct (decide (after_key k (KStr [], a))) as [Hk|Hk].
      * rewrite filter_cons_True by done. simpl. rewrite N1. cbn [mbind res_bind]. rewrite N2. unfold dfirst.
        rewrite filter_all; [done|]. eapply Forall_impl; [exact Ha|]. intros [k' x] Hk'. right.
        destruct Hk as [->|Hk]; [done|]. simpl in *. by etrans.
      * rewrite filter_cons_False by done. simpl. destruct F2 as [-> _]; [|done].
        intros ka [_ Hi]%list_elem_of_filter. split; [set_solver|by apply Ha'].
    + simpl. destruct F1 as [E _]; [|simpl in E; by rewrite E]. rewrite <- E1.
      intros ka [_ Hi]%list_elem_of_filter. split; [set_solver|by apply Hb'].
Qed.

Lemma skip_prev k :
  k <> KStr [] ->
  (b ← is_null_subs h (dprev m k);
   if (b : bool) then lvAvlTreePrev h (dprev m k) else Ok (dprev m k)) = Ok (dprev (ddel m (KStr [])) k).
Proof.
  intros Hk0. unfold dprev. set (P := fun ka : lkey * Z => klt ka.1 k).
  destruct (dsorted_cases m (KStr []) m_sorted) as [[Hn _]|(m1 & a & m2 & Em & Hb & Ha & _)].
  - assert (ddel m (KStr []) = m) as -> by (by apply filter_all).
    destruct (not_null (filter P m)) as [_ ->]; [|done].
    intros ka [_ Hi]%list_elem_of_filter. split; [done|]. rewrite Forall_forall in Hn. by apply Hn.
  - destruct (at_null m1 a m2 Em Hb Ha) as (N1 & _ & N2).
    apply dbelow_ne in Hb as Hb'. apply dabove_ne in Ha as Ha'. rewrite Forall_forall in Hb', Ha'.
    pose proof (not_null (filter P m1)) as F1. pose proof (not_null (filter P m2)) as F2.
    rewrite Em in *. rewrite ddel_at, !filter_app by done.
    destruct (filter P m2) as [|y l2 _] eqn:E2 using rev_ind.
    + destruct (decide (P (KStr [], a))) as [Hk|Hk].
      * rewrite filter_cons_True, E2, (proj1 (last0_pairs _ [] _)) by done. simpl. rewrite N1. cbn [mbind res_bind]. rewrite N2, app_nil_r.
        unfold dlast. rewrite filter_all; [done|]. eapply Forall_impl; [exact Hb|]. intros [k' x] Hk'.
        unfold P in *. simpl in *. by etrans.
      * rewrite filter_cons_False, E2, app_nil_r by done. destruct F1 as [_ ->]; [|done].
        intros ka [_ Hi]%list_elem_of_filter. split; [set_solver|by apply Hb'].
    + assert (last0 (filter P m1 ++ filter P ((KStr [], a) :: m2)).*2 = last0 (l2 ++ [y]).*2) as ->.
      { rewrite filter_cons. rewrite (proj1 (last0_pairs l2 [] y)).
        destruct (decide _); rewrite E2, ?app_comm_cons; apply last0_pairs. }
      destruct F2 as [_ ->]; [|by rewrite (proj1 (last0_pairs l2 [] y)), (proj2 (last0_pairs l2 _ y))]. rewrite <- E2.
      intros ka [_ Hi]%list_elem_of_filter. split; [set_solver|by apply Ha'].
Qed.

Lemma after_key_head k :
  head0 (filter (after_key k) m).*2 = if decide (k = KStr []) then dfirst m else dnext m k.
Proof.
  unfold dfirst, dnext. destruct (decide (k = KStr [])) as [->|Hk].
  - rewrite filter_all; [done|]. apply Forall_true. intros x. by left.
  - do 2 f_equal. apply list_filter_iff. intros [k' a]. unfold after_key. simpl. tauto.
Qed.

Lemma node_collated_next k node std :
  node ∈ elems T -> keym h !! node = Some k ->
  lvAvlTreeNodeCollatedNext h lvt node std = Ok (cnext std m k).
Proof.
  intros Hn Ek. unfold lvAvlTreeNodeCollatedNext. destruct (next_prev_dict h lvt T k node Hw Hn Ek) as [En _].
  destruct std; [|cbn [mbind res_bind]; exact En].
  assert (Hi : (k, node) ∈ m).
  { apply elem_path in Hn as (c & l & r & ET). unfold m. rewrite ET, (entries_found _ _ _ _ _ k) by done. set_solver. }
  rewrite (null_subs_at k node Hi). cbn [mbind res_bind].
  assert ((if bool_decide (k = KStr []) then lvAvlTreeFirst h lvt else lvAvlTreeNext h node) =
    Ok (head0 (filter (after_key k) m).*2)) as ->.
  { rewrite after_key_head. case_bool_decide; [|by rewrite decide_False, En].
    rewrite decide_True by done. by destruct (first_last_dict h lvt T Hw) as [-> _]. }
  cbn [mbind res_bind]. rewrite <- skip_next. cbv zeta. destruct (is_null_subs _ _) as [b|e]; done.
Qed.

Lemma collated_last std : lvAvlTreeCollatedLast h lvt std = Ok (clast std m).
Proof.
  unfold lvAvlTreeCollatedLast. destruct (first_last_dict h lvt T Hw) as [_ ->]. cbn [mbind res_bind]. fold m.
  destruct std; [|done]. unfold clast, coll, dstd. fold (ddel m (KStr [])).
  destruct (dsorted_cases m (KStr []) m_sorted) as [[Hn _]|(m1 & a & m2 & Em & Hb & Ha & _)].
  - assert (ddel m (KStr []) = m) as -> by (by apply filter_all). rewrite filter_none by done. unfold dlast.
    destruct (not_null m) as [_ ->]; [|done]. intros ka Hi. split; [done|]. rewrite Forall_forall in Hn. by apply Hn.
  - destruct (at_null m1 a m2 Em Hb Ha) as (N1 & _ & N2).
    apply dabove_ne in Ha as Ha'. rewrite Forall_forall in Ha'. pose proof (not_null m2) as F2.
    assert (Hnn : NULL ∉ m.*2).
    { unfold m. rewrite (entries_addrs h T); [|apply Hw|done]. destruct Hw as ((_ & Hr & _) & _).
      by eapply rep_null_notin. }
    rewrite Em in *. rewrite ddel_at, filter_app, filter_cons_True by done. unfold dlast in *.
    rewrite (filter_none _ m1), (filter_none _ m2) by first [by apply dbelow_ne|by apply dabove_ne]. simpl.
    destruct m2 as [|y l _] using rev_ind.
    + rewrite (proj1 (last0_pairs m1 [] (KStr [], a))), app_nil_r. simpl. rewrite N1. cbn [mbind res_bind].
      rewrite N2. cbn [mbind res_bind]. change (a :: list_fmap _ _ snd m1) with ([a] ++ m1.*2).
      destruct m1 as [|[k1 x1] l1 _] using rev_ind; [done|].
      rewrite last0_app, (proj1 (last0_pairs l1 [] (k1, x1))); [simpl|by destruct l1].
      destruct (Z.eqb_spec x1 NULL) as [->|_]; [|done]. destruct Hnn. rewrite !fmap_app. set_solver.
    + rewrite app_comm_cons, (proj2 (last0_pairs ((KStr [], a) :: l) m1 y)). rewrite (proj1 (last0_pairs l [] y)) in F2.
      destruct F2 as [_ ->]; [intros ka Hi; split; [set_solver|by apply Ha']|].
      cbn [mbind res_bind]. change (a :: list_fmap _ _ snd ?x) with ([a] ++ x.*2).
      rewrite last0_app; [by rewrite (proj2 (last0_pairs l _ y))|]. by destruct m1, l.
Qed.
End collation.

Lemma kept_entries h h' l : kept h h' -> entries (keym h') l = entries (keym h) l.
Proof. intros (_ & _ & E). by rewrite (keym_datm h h'). Qed.

Lemma walk_trans h h1 lvt lvt1 T x R :
  kept h h1 -> (exists a b c, lvt1 = set_clue a b c lvt) -> walk_res h1 lvt1 T x R -> walk_res h lvt T x R.
Proof.
  intros K (a & b & c & ->) (h' & lvt' & E & K' & (a' & b' & c' & ->) & Hw). exists h', (set_clue a' b' c' lvt).
  split; [done|]. split; [by etrans|]. split; [by do 3 eexists|done].
Qed.

Lemma key_collated_next h lvt T key std :
  lv_wf h lvt T -> T <> Leaf -> mval_key_norm key ->
  walk_res h lvt T (cnext std (entries (keym h) (elems T)) (mval_key key))
    (lvAvlTreeKeyCollatedNext h lvt key std).
Proof.
  intros Hw Hne [Hk Hnull]. unfold lvAvlTreeKeyCollatedNext. destruct std; [|by apply key_next_dict].
  set (m := entries (keym h) (elems T)).
  assert (walk_res h lvt T (head0 (filter (after_key (mval_key key)) m).*2)
    (if key_is_null_subs key then node ← lvAvlTreeFirst h lvt; Ok (h, lvt, node)
     else lvAvlTreeKeyNext h lvt key)) as (h1 & lvt1 & -> & K & Hc & Hw1).
  { unfold m. rewrite after_key_head. destruct (key_is_null_subs key).
    - rewrite decide_True by tauto. destruct (first_last_dict h lvt T Hw) as [-> _]. by apply walk_stay.
    - rewrite decide_False by (intros E; by apply Hnull in E). by apply key_next_dict. }
  cbn [mbind res_bind]. pose proof (skip_next h1 lvt1 T Hw1 (mval_key key)) as E. cbv zeta in E.
  rewrite (kept_entries h h1) in E by done. fold m in E.
  apply (walk_trans h h1 lvt lvt1); [done|done|]. destruct (is_null_subs _ _) as [[]|]; cbn [mbind res_bind] in *; [| |done].
  - rewrite E. by apply walk_stay.
  - injection E as ->. by apply walk_stay.
Qed.

Lemma null_lookup h lvt T :
  lv_wf h lvt T ->
  walk_res h lvt T (default NULL (dget (entries (keym h) (elems T)) (KStr [])))
    ('(h, lvt, node, _) ← lvAvlTreeLookupStr h lvt literal_null NULL; Ok (h, lvt, node)).
Proof.
  intros Hw. change (lvAvlTreeLookupStr h lvt literal_null NULL) with (lvAvlTreeLookup h lvt literal_null NULL).
  destruct (lv_lookup_spec h lvt T literal_null NULL Hw) as (h' & lvt' & node & p & -> & K & Hc & Hw' & -> & _); [done|].
  by exists h', lvt'.
Qed.

(** Before the first key that is not null: the null subscript, if it is there. *)
Lemma cprev_null h lvt T k :
  lv_wf h lvt T -> k <> KStr [] ->
  let m := entries (keym h) (elems T) in let p := dprev (ddel m (KStr [])) k in
  cprev true m k = if p =? NULL then default NULL (dget m (KStr [])) else p.
Proof.
  intros Hw Hk m. cbv zeta. rewrite cprev_std, decide_False by done. unfold dprev.
  set (l := filter _ (ddel m (KStr []))).
  assert (Hn : NULL ∉ l.*2).
  { intros ([k' x] & Ex & Hi)%list_elem_of_fmap. simpl in Ex. subst x. unfold l in Hi.
    apply list_elem_of_filter in Hi as [_ Hi]. apply list_elem_of_filter in Hi as [_ Hi].
    apply entries_in in Hi as [Hi _]. destruct Hw as ((_ & Hr & _) & _). by apply (rep_null_notin _ _ _ Hr). }
  destruct l as [|y l' _] using rev_ind.
  - simpl. rewrite app_nil_r. destruct (dsorted_cases m (KStr [])) as [[Hf ->]|(m1 & a & m2 & Em & Hb & Ha & ->)].
    { by apply (m_sorted h lvt T). }
    + by rewrite filter_none.
    + rewrite Em, filter_app, filter_cons_True by done.
      by rewrite (filter_none _ m1), (filter_none _ m2) by first [by apply dbelow_ne|by apply dabove_ne].
  - rewrite (proj1 (last0_pairs l' [] y)), (proj2 (last0_pairs l' _ y)).
    destruct (Z.eqb_spec y.2 NULL) as [E|]; [|done]. destruct Hn. rewrite fmap_app. set_solver.
Qed.

(** The second half of both walks back: over the null subscript, then to it. *)
Lemma skip_prev_walk h lvt T k :
  lv_wf h lvt T -> k <> KStr [] ->
  let m := entries (keym h) (elems T) in
  walk_res h lvt T (cprev true m k)
    (b ← is_null_subs h (dprev m k);
     node ← (if (b : bool) then lvAvlTreePrev h (dprev m k) else Ok (dprev m k));
     if node =? NULL then '(h, lvt, node, _) ← lvAvlTreeLookupStr h lvt literal_null NULL; Ok (h, lvt, node)
     else Ok (h, lvt, node)).
Proof.
  intros Hw Hk m. pose proof (skip_prev h lvt T Hw k Hk) as E. fold m in E.
  unfold m at 1. rewrite (cprev_null h lvt T k Hw Hk). fold m.
  destruct (is_null_subs _ _) as [b|]; [|done]. cbn [mbind res_bind] in *. rewrite E. cbn [mbind res_bind].
  destruct (Z.eqb_spec (dprev (ddel m (KStr [])) k) NULL); [by apply null_lookup|by apply walk_stay].
Qed.

Lemma node_collated_prev h lvt T k node std :
  lv_wf h lvt T -> node ∈ elems T -> keym h !! node = Some k ->
  walk_res h lvt T (cprev std (entries (keym h) (elems T)) k) (lvAvlTreeNodeCollatedPrev h lvt node std).
Proof.
  intros Hw Hn Ek. unfold lvAvlTreeNodeCollatedPrev. set (m := entries (keym h) (elems T)).
  destruct (next_prev_dict h lvt T k node Hw Hn Ek) as [_ ->]. cbn [mbind res_bind]. fold m.
  destruct std; [|by apply walk_stay].
  assert (Hi : (k, node) ∈ m).
  { apply elem_path in Hn as (c & l & r & ET). unfold m. rewrite ET, (entries_found _ _ _ _ _ k) by done. set_solver. }
  rewrite (null_subs_at h lvt T Hw k node Hi). cbn [mbind res_bind].
  case_bool_decide; [|by apply (skip_prev_walk h lvt T k)]. rewrite cprev_std, decide_True by done. by apply walk_stay.
Qed.

Lemma key_collated_prev h lvt T key std :
  lv_wf h lvt T -> T <> Leaf -> mval_key_norm key ->
  walk_res h lvt T (cprev std (entries (keym h) (elems T)) (mval_key key))
    (lvAvlTreeKeyCollatedPrev h lvt key std).
Proof.
  intros Hw Hne [Hk Hnull]. unfold lvAvlTreeKeyCollatedPrev. destruct std; [|by apply key_prev_dict].
  destruct (key_is_null_subs key).
  - rewrite cprev_std, decide_True by tauto. by apply walk_stay.
  - assert (Hn : mval_key key <> KStr []) by (intros E; by apply Hnull in E).
    destruct (key_prev_dict h lvt T key Hw Hne Hk) as (h1 & lvt1 & -> & K & Hc & Hw1). cbn [mbind res_bind].
    rewrite <- (kept_entries h h1) by done. apply (walk_trans h h1 lvt lvt1); [done|done|].
    by apply skip_prev_walk.
Qed.

(** * Heights

    The fewest nodes of an AVL tree of each height. *)

Fixpoint avl_min (n : nat) : nat * nat :=
  match n with
  | O => (0, 1)%nat
  | S n' => let '(a, b) := avl_min n' in (b, S (a + b))
  end.

Lemma avl_min_S n : (avl_min (S n)).1 = (avl_min n).2 /\ (avl_min (S n)).2 = S ((avl_min n).1 + (avl_min n).2).
Proof. simpl. by destruct (avl_min n). Qed.

Lemma avl_min_le n : ((avl_min n).1 <= (avl_min n).2)%nat.
Proof. induction n as [|n IH]; [simpl; lia|]. destruct (avl_min_S n) as [-> ->]. lia. Qed.

Lemma avl_min_mono n m : (n <= m)%nat -> ((avl_min n).1 <= (avl_min m).1)%nat.
Proof.
  induction 1 as [|m _ IH]; [done|]. destruct (avl_min_S m) as [-> _]. pose proof (avl_min_le m). lia.
Qed.

Lemma avl_min_square n : let a := S (avl_min n).1 in let b := S (avl_min (S n)).1 in (2 ^ n <= a * a /\ 2 ^ S n <= b * b)%nat.
Proof.
  induction n as [|n IH]; cbv zeta in *; [simpl; lia|]. destruct IH as [H1 H2]. split; [done|].
  destruct (avl_min_S (S n)) as [-> _]. destruct (avl_min_S n) as [E1 ->]. pose proof (avl_min_le n). rewrite E1 in H2. rewrite !Nat.pow_succ_r' in *. nia.
Qed.

Lemma avl_size B t : avl B t -> ((avl_min (height t)).1 <= length (elems t))%nat.
Proof.
  induction t as [|l IHl p r IHr]; [simpl; lia|]. intros ((b & _ & Hb) & Hl & Hr).
  specialize (IHl Hl). specialize (IHr Hr). cbn [height elems]. rewrite length_app. cbn [length].
  destruct (avl_min_S (Nat.max (height l) (height r))) as [-> _].
  destruct Hb as [(_ & Hb)|[(_ & Hb)|(_ & Hb)]].
  - rewrite <- Hb in *. rewrite Nat.max_id. destruct (height l) as [|n]; [simpl; lia|].
    destruct (avl_min_S n) as [E1 E2]. pose proof (avl_min_le n). rewrite E1 in IHl, IHr. rewrite E2. lia.
  - rewrite Hb in *. rewrite Nat.max_l by lia. destruct (avl_min_S (height r)) as [E1 E2]. rewrite E1 in IHl. rewrite E2. lia.
  - rewrite Hb in *. rewrite Nat.max_r by lia. destruct (avl_min_S (height l)) as [E1 E2]. rewrite E1 in IHr. rewrite E2. lia.
Qed.

Lemma avl_log B t : avl B t -> (2 ^ height t <= S (length (elems t)) * S (length (elems t)))%nat.
Proof.
  intros Ha. pose proof (avl_size B t Ha). destruct (avl_min_square (height t)) as [H1 _]. cbv zeta in H1. nia.
Qed.

(** As many steps as the height of the tree take every traversal to its end. *)
Lemma traverse_steps h lvt T key p :
  lv_wf h lvt T -> mval_key_ok key -> T <> Leaf ->
  exists r, lookup_loop (height T) (key_cmp key) h (avl_root lvt) p NULL NULL = Ok r.
Proof.
  intros Hw Hk Hne. pose proof (lv_wf_search _ _ _ Hw) as Hok. destruct Hw as ((_ & _ & _ & _ & -> & _) & _).
  destruct (lookup_loop_spec (key_cmp key) (mval_key key) (Hcmp := key_cmp_instance key Hk) (height T) h lvt [] T p
    Hok Hne) as (h' & node & parent & x & mn & mx & E & _); [by split; [constructor|split; constructor]|done|].
  eexists. exact E.
Qed.
