(* ===== verification/Lvframe.v ===== *)
(** What the operations on a tree of local variables leave alone.  Each of them
    runs the same in a larger heap (locality, proved once for every function by
    a relation between runs), so nodes outside its tree keep their contents:
    the frame property that several trees in one heap need. *)

From stdpp Require Import base list numbers option tactics gmap sorting.
From Stdlib Require Import ZArith Lia.
From S2P Require Import Prelude Mval Lvnode Avltree Avlops Lvtree Lvmap.

Open Scope Z_scope.

Create HintDb locality discriminated.

(** * Runs in a heap and in a larger one *)

Section locality.
Context (f : heap).

Definition fr (h h' : heap) : Prop := h ##ₘ f /\ h' = h ∪ f.

(** Results that differ by the heap [f]. *)
Class TRel (A : Type) := trel : A -> A -> Prop.
#[local] Instance trel_heap : TRel heap | 0 := fr.
#[local] Instance trel_prod A B {_ : TRel A} {_ : TRel B} : TRel (A * B) | 1 :=
  fun a b => trel a.1 b.1 /\ trel a.2 b.2.
#[local] Instance trel_eq A : TRel A | 10 := eq.

Definition local {A} `{TRel A} (r r' : res A) : Prop := forall a, r = Ok a -> exists b, r' = Ok b /\ trel a b.

Lemma local_bind {A B} `{TRel A} `{TRel B} (r r' : res A) (k k' : A -> res B) :
  local r r' -> (forall a b, trel a b -> local (k a) (k' b)) -> local (r ≫= k) (r' ≫= k').
Proof.
  intros Hr Hk c (a & Ea & Ec)%res_bind_inv. destruct (Hr a Ea) as (b & -> & Hab). by apply (Hk a b Hab).
Qed.

Lemma local_ok {A} `{TRel A} (a b : A) : trel a b -> local (Ok a) (Ok b).
Proof. intros Hab c [= <-]. by exists b. Qed.

Lemma local_err {A} `{TRel A} e (r : res A) : local (Err e) r.
Proof. by intros c. Qed.

Lemma local_refl {A} (r : res A) : @local A (trel_eq A) r r.
Proof. intros a Ea. by exists a. Qed.

Lemma deref_local h h' p : trel h h' -> @local lvTreeNode (trel_eq _) (deref h p) (deref h' p).
Proof.
  intros [Hd ->] n. unfold deref. destruct (h !! p) as [n'|] eqn:E; [|done]. intros [= <-]. exists n'.
  by rewrite (lookup_union_Some_l _ _ _ _ E).
Qed.

Lemma insert_local h h' p n m : trel h h' -> h !! p = Some m -> trel (<[p := n]> h : heap) (<[p := n]> h').
Proof.
  intros [Hd ->] E. split; [|by rewrite insert_union_l].
  apply map_disjoint_insert_l_2; [|done]. by eapply map_disjoint_Some_l.
Qed.

Lemma modify_local h h' g p : trel h h' -> local (modify g p h) (modify g p h').
Proof.
  intros Hh h1. unfold modify, deref. destruct (h !! p) as [n|] eqn:E; [|done]. intros [= <-].
  pose proof (insert_local h h' p (g n) n Hh E) as Hi. destruct Hh as [_ ->].
  rewrite (lookup_union_Some_l _ _ _ _ E). by eexists.
Qed.

(** Both runs, step by step. *)
Ltac local_split H :=
  lazymatch type of H with
  | trel ?a ?b =>
      lazymatch type of a with
      | prod _ _ =>
          let H1 := fresh "R" in let H2 := fresh "R" in
          destruct a, b; destruct H as [H1 H2]; cbn [fst snd] in H1, H2; local_split H1; local_split H2
      | gmap _ _ => idtac
      | _ => unfold trel, trel_eq in H; subst
      end
  end.
Ltac local_intro :=
  let a := fresh "a" in let b := fresh "b" in let H := fresh "R" in intros a b H; local_split H; cbv beta iota.
Ltac local_rel := cbn [fst snd]; first [assumption|reflexivity|split; local_rel].
Ltac local_step :=
  lazymatch goal with
  | |- local (Err _) _ => apply local_err
  | |- local (Ok _) (Ok _) => apply local_ok; local_rel
  | |- local (mbind _ _) (mbind _ _) => eapply local_bind; [|local_intro]
  | |- local (if ?b then _ else _) (if ?b then _ else _) => destruct b
  | |- local (modify _ _ _) (modify _ _ _) => apply modify_local; assumption
  | |- local (deref _ _) (deref _ _) => apply deref_local; assumption
  | |- local ?r ?r => apply local_refl
  | |- local _ _ => solve [eauto 2 with locality]
  end.
Ltac local_tac := cbv zeta; repeat (local_step; cbv zeta).

Lemma hfuel_local h h' : trel h h' -> (hfuel h <= hfuel h')%nat.
Proof. intros [Hd ->]. unfold hfuel. rewrite map_size_disj_union by done. lia. Qed.

Lemma set_parent_of_local h h' x p : trel h h' -> local (set_parent_of x p h) (set_parent_of x p h').
Proof. intros Hh. unfold set_parent_of. local_tac. Qed.

Lemma set_child_local h h' x p : trel h h' -> local (set_child_by_dir x p h) (set_child_by_dir x p h').
Proof. intros Hh. unfold set_child_by_dir. local_tac. Qed.

#[local] Hint Resolve set_parent_of_local set_child_local : locality.

Lemma single_local h h' r a b :
  trel h h' -> local (lvAvlTreeSingleRotation h r a b) (lvAvlTreeSingleRotation h' r a b).
Proof. intros Hh. unfold lvAvlTreeSingleRotation. local_tac. Qed.

Lemma double_local h h' r a b :
  trel h h' -> local (lvAvlTreeDoubleRotation h r a b) (lvAvlTreeDoubleRotation h' r a b).
Proof. intros Hh. unfold lvAvlTreeDoubleRotation. local_tac. Qed.

Lemma link_rotated_local h h' lvt x p :
  trel h h' -> local (link_rotated h lvt x p) (link_rotated h' lvt x p).
Proof. intros Hh. unfold link_rotated. local_tac. Qed.

#[local] Hint Resolve single_local double_local link_rotated_local : locality.

(** Loops may have more fuel in the larger heap. *)
Lemma climb_local n n' h h' r p :
  trel h h' -> (n <= n')%nat -> local (climb_balanced n h r p) (climb_balanced n' h' r p).
Proof.
  revert n' h h' p. induction n as [|n IH]; intros n' h h' p Hh Hn; [by intros ?|].
  destruct n' as [|n']; [lia|]. cbn [climb_balanced]. local_tac. apply IH; [assumption|lia].
Qed.

Lemma rebalance_insert_local h h' lvt p :
  trel h h' -> local (rebalance_insert h lvt p) (rebalance_insert h' lvt p).
Proof.
  intros Hh. unfold rebalance_insert. local_step; [local_tac|].
  destruct (if TREE_DESCEND_LEFT =? descent_dir _ then _ else _) as [an bf]. local_tac.
Qed.

#[local] Hint Resolve rebalance_insert_local : locality.

Lemma insert_node_local h h' lvt key parent node :
  trel h h' -> local (lvAvlTreeNodeInsert h lvt key parent node) (lvAvlTreeNodeInsert h' lvt key parent node).
Proof.
  intros Hh. unfold lvAvlTreeNodeInsert. local_tac. apply climb_local; [assumption|]. by apply hfuel_local.
Qed.

Lemma descend_left_local n n' h h' p :
  trel h h' -> (n <= n')%nat -> local (descend_left n h p) (descend_left n' h' p).
Proof.
  revert n' h h' p. induction n as [|n IH]; intros n' h h' p Hh Hn; [by intros ?|].
  destruct n' as [|n']; [lia|]. cbn [descend_left]. local_tac. apply IH; [assumption|lia].
Qed.

Lemma unlink_local h h' lvt p : trel h h' -> local (unlink_node h lvt p) (unlink_node h' lvt p).
Proof.
  intros Hh. unfold unlink_node. local_tac. apply descend_left_local; [assumption|]. by apply hfuel_local.
Qed.

Lemma rebalance_delete_local n n' h h' lvt p :
  trel h h' -> (n <= n')%nat -> local (rebalance_delete n h lvt p) (rebalance_delete n' h' lvt p).
Proof.
  revert n' h h' lvt p. induction n as [|n IH]; intros n' h h' lvt p Hh Hn; [by intros ?|].
  destruct n' as [|n']; [lia|]. cbn [rebalance_delete].
  assert (IH' : forall h h' lvt p, trel h h' -> local (rebalance_delete n h lvt p) (rebalance_delete n' h' lvt p))
    by (intros; apply IH; [assumption|lia]).
  clear IH. local_step; [local_tac|]. local_step; [local_tac|]. cbv zeta.
  local_step; [local_tac|]. local_step; [local_tac; by apply IH'|].
  destruct (if TREE_LEFT_HEAVY =? descent_dir _ then _ else _) as [bf an]. local_tac; by apply IH'.
Qed.

Lemma delete_node_local h h' lvt node :
  trel h h' -> local (lvAvlTreeNodeDelete h lvt node) (lvAvlTreeNodeDelete h' lvt node).
Proof.
  intros Hh. unfold lvAvlTreeNodeDelete. local_tac; [by apply unlink_local|].
  apply rebalance_delete_local; [assumption|]. by apply hfuel_local.
Qed.

Lemma cmp_at_local cmp h h' p : trel h h' -> local (cmp_at cmp h p) (cmp_at cmp h' p).
Proof.
  intros Hh [r h1] (n & En & Ec)%res_bind_inv. apply res_bind_inv in Ec as ([r' n'] & Ec & [= <- <-]).
  destruct (deref_local h h' p Hh n En) as (n2 & En2 & <-). unfold cmp_at. rewrite En2. cbn [mbind res_bind].
  rewrite Ec. cbn [mbind res_bind]. eexists. split; [done|]. split; [done|]. cbn [fst snd].
  unfold deref in En. destruct (h !! p) as [m|] eqn:E; [|done]. by eapply insert_local.
Qed.

#[local] Hint Resolve cmp_at_local : locality.

Lemma lookup_loop_local n n' cmp h h' p q a b :
  trel h h' -> (n <= n')%nat -> local (lookup_loop n cmp h p q a b) (lookup_loop n' cmp h' p q a b).
Proof.
  revert n' h h' p q a b. induction n as [|n IH]; intros n' h h' p q a b Hh Hn; [by intros ?|].
  destruct n' as [|n']; [lia|]. cbn [lookup_loop]. local_tac; (apply IH; [assumption|lia]).
Qed.

Lemma traverse_local cmp h h' lvt : trel h h' -> local (lookup_traverse cmp h lvt) (lookup_traverse cmp h' lvt).
Proof.
  intros Hh. unfold lookup_traverse. local_tac. apply lookup_loop_local; [assumption|]. by apply hfuel_local.
Qed.

Lemma clue_miss_local h h' lvt d : trel h h' -> local (clue_miss h lvt d) (clue_miss h' lvt d).
Proof. intros Hh. unfold clue_miss. local_tac. Qed.

#[local] Hint Resolve traverse_local clue_miss_local : locality.

Lemma lookup_gen_local cmp h h' lvt lp : trel h h' -> local (lookup_gen cmp h lvt lp) (lookup_gen cmp h' lvt lp).
Proof. intros Hh. unfold lookup_gen. local_tac. Qed.

Lemma prepare_local n n' h h' p : trel h h' -> (n <= n')%nat -> local (prepare_loop n h p) (prepare_loop n' h' p).
Proof.
  revert n' h h' p. induction n as [|n IH]; intros n' h h' p Hh Hn; [by intros ?|].
  destruct n' as [|n']; [lia|]. cbn [prepare_loop]. local_tac. apply IH; [assumption|lia].
Qed.
End locality.

(** * Frames *)

(** The nodes of a list of addresses. *)
Definition part (l : list Z) (h : heap) : heap := filter (fun pn => pn.1 ∈ l) h.

Lemma part_lookup l h p : part l h !! p = if decide (p ∈ l) then h !! p else None.
Proof.
  unfold part. rewrite map_lookup_filter. destruct (h !! p) as [n|]; simpl; [|by destruct (decide _)].
  destruct (decide (p ∈ l)); [by rewrite option_guard_True|by rewrite option_guard_False].
Qed.

Lemma part_split l h : exists f, fr f (part l h) h /\ forall p, p ∉ l -> f !! p = h !! p.
Proof.
  exists (filter (fun pn => pn.1 ∉ l) h). split.
  - split; [apply map_disjoint_filter_complement|]. symmetry. apply map_filter_union_complement.
  - intros p Hp. rewrite map_lookup_filter. destruct (h !! p) as [n|]; simpl; [|done]. by rewrite option_guard_True.
Qed.

(** Nodes outside [l] are the same. *)
Definition same_off (l : list Z) (h h' : heap) : Prop := forall p, p ∉ l -> h' !! p = h !! p.

#[global] Instance same_off_preorder l : PreOrder (same_off l).
Proof.
  split; [done|]. intros h1 h2 h3 H1 H2 p Hp. by rewrite H2, H1.
Qed.

Lemma same_off_weaken l l' h h' : same_off l h h' -> l ⊆ l' -> same_off l' h h'.
Proof. intros H Hl p Hp. apply H. set_solver. Qed.

(** From a run in a part of the heap that stays within it. *)
Lemma frame_off l h h1 h' f :
  fr f (part l h) h -> (forall p, p ∉ l -> f !! p = h !! p) -> (forall p, p ∉ l -> h1 !! p = None) -> fr f h1 h' ->
  same_off l h h'.
Proof.
  intros _ Hf H1 [Hd ->] p Hp. rewrite lookup_union_r by auto. by apply Hf.
Qed.

Section agree.
Context (h h' : heap) (T : tree) (Hagree : forall p, p ∈ elems T -> h' !! p = h !! p).

Lemma agree_map {A} (g : lvTreeNode -> A) p : p ∈ elems T -> (g <$> h') !! p = (g <$> h) !! p.
Proof. intros Hp. by rewrite !lookup_fmap, Hagree. Qed.

Lemma agree_keym p : p ∈ elems T -> keym h' !! p = keym h !! p.
Proof. intros Hp. unfold keym, restm. rewrite <- !map_fmap_compose. by apply agree_map. Qed.

Lemma agree_cels c t : T = plug c t -> forall p, p ∈ cels c -> p ∈ elems T.
Proof. intros -> p Hp. rewrite plug_perm, elem_of_app. by right. Qed.

Lemma agree_entries l : (forall p, p ∈ l -> p ∈ elems T) -> entries (keym h') l = entries (keym h) l.
Proof. intros Hl. apply entries_ext. intros p Hp. by apply agree_keym, Hl. Qed.

Lemma agree_dirs c t : T = plug c t -> dirs (dirm h) c -> dirs (dirm h') c.
Proof. intros ET. apply dirs_frame. intros p Hp. eapply agree_map, agree_cels; [exact ET|done]. Qed.

Lemma lv_wf_agree lvt : h' !! NULL = None -> lv_wf h lvt T -> lv_wf h' lvt T.
Proof.
  intros H0 ((_ & Hr & Hn & Ha & Hw) & Hk & Ho & Hc). split; [split_and!|split_and!].
  - unfold linkm. by rewrite lookup_fmap, H0.
  - eapply rep_frame; [|exact Hr]. intros p Hp. by apply agree_map.
  - done.
  - eapply avl_frame; [|exact Ha]. intros p Hp. by apply agree_map.
  - apply Hw.
  - apply Hw.
  - intros p Hp. destruct (Hk p Hp) as (n & En & Hkn). exists n. split; [|done].
    by rewrite <- En; apply agree_map.
  - unfold ordered in *. rewrite <- entries_keys in *. by rewrite agree_entries.
  - destruct Hc as [|(c & l & r & ET & Hd & Hm)]; [by left|right]. exists c, l, r. split; [done|].
    split; [by eapply agree_dirs|done].
Qed.

Lemma gap_agree lvt k parent : gap h lvt T k parent -> gap h' lvt T k parent.
Proof.
  intros (c & ET & Ep & Hd & Hb & Ha & Hc). exists c. split_and!; [done|done|by eapply agree_dirs| | |done].
  - rewrite <- dbelow_entries in *. rewrite agree_entries; [done|]. intros p Hp. rewrite ET, plug_elems. set_solver.
  - rewrite <- dabove_entries in *. rewrite agree_entries; [done|]. intros p Hp. rewrite ET, plug_elems. set_solver.
Qed.

Lemma found_agree k node : found h T k node -> found h' T k node.
Proof.
  intros (c & l & r & ET & Hd & Ek). exists c, l, r. split_and!; [done|by eapply agree_dirs|].
  rewrite agree_keym; [done|]. rewrite ET, plug_elems. set_solver.
Qed.
End agree.

Lemma part_agree l h p : p ∈ l -> part l h !! p = h !! p.
Proof. intros Hp. by rewrite part_lookup, decide_True. Qed.

Lemma part_null l h : h !! NULL = None -> part l h !! NULL = None.
Proof. intros H. rewrite part_lookup, H. by destruct (decide _). Qed.

Lemma wf_null h lvt T : lv_wf h lvt T -> h !! NULL = None.
Proof. intros ((H & _) & _). unfold linkm in H. rewrite lookup_fmap in H. by destruct (h !! NULL). Qed.

Lemma fmap_none {A} (g : lvTreeNode -> A) (h h' : heap) p : g <$> h' = g <$> h -> h !! p = None -> h' !! p = None.
Proof.
  intros E Hp. assert (Hg : (g <$> h') !! p = (g <$> h) !! p) by (by rewrite E). rewrite !lookup_fmap, Hp in Hg.
  by destruct (h' !! p).
Qed.

Lemma part_off l h p : p ∉ l -> part l h !! p = None.
Proof. intros Hp. by rewrite part_lookup, decide_False. Qed.

Lemma lookup_frame h lvt T key lp h' lvt' node parent :
  lv_wf h lvt T -> mval_key_ok key -> lvAvlTreeLookup h lvt key lp = Ok (h', lvt', node, parent) ->
  same_off (elems T) h h'.
Proof.
  intros Hw Hk E. destruct (part_split (elems T) h) as (f & Hf & Hoff).
  assert (Hp : lv_wf (part (elems T) h) lvt T).
  { eapply lv_wf_agree; [|by eapply part_null, wf_null|exact Hw]. intros p. apply part_agree. }
  destruct (lv_lookup_spec _ lvt T key lp Hp Hk) as (h1 & lvt1 & n1 & p1 & E1 & (EL & _) & _).
  rewrite lookup_gen_key in E1, E.
  destruct (lookup_gen_local f (key_cmp key) _ _ lvt lp Hf _ E1) as ([[[h2 l2] n2] p2] & E2 & [[[R _] _] _]).
  rewrite E in E2. injection E2 as <- _ _ _. cbn [fst snd] in R.
  eapply frame_off; [exact Hf|exact Hoff| |exact R]. intros p Hpn. eapply fmap_none; [exact EL|by apply part_off].
Qed.

Lemma restm_none h p : restm h !! p = None -> h !! p = None.
Proof. unfold restm. rewrite lookup_fmap. by destruct (h !! p). Qed.

Lemma insert_frame h lvt T key parent node n h' lvt' :
  lv_wf h lvt T -> mval_key_ok key -> gap h lvt T (mval_key key) parent ->
  h !! node = Some n -> node <> NULL -> node ∉ elems T ->
  lvAvlTreeNodeInsert h lvt key parent node = Ok (h', lvt') -> same_off (node :: elems T) h h'.
Proof.
  intros Hw Hk Hg En Nn Hni E. set (l := node :: elems T). destruct (part_split l h) as (f & Hf & Hoff).
  assert (Ha : forall p, p ∈ elems T -> part l h !! p = h !! p) by (intros p Hp; apply part_agree; by right).
  assert (Hp : lv_wf (part l h) lvt T) by (eapply lv_wf_agree; [exact Ha|by eapply part_null, wf_null|exact Hw]).
  assert (En' : part l h !! node = Some n) by (rewrite part_agree; [done|by left]).
  destruct (insert_dict _ lvt T key parent node n Hp Hk (gap_agree _ _ T Ha lvt _ _ Hg) En' Nn Hni)
    as (h1 & lvt1 & T' & E1 & _ & _ & _ & _ & _ & ER).
  destruct (insert_node_local f _ _ lvt key parent node Hf _ E1) as ([h2 l2] & E2 & [R _]).
  rewrite E in E2. injection E2 as <- _. cbn [fst snd] in R.
  eapply frame_off; [exact Hf|exact Hoff| |exact R]. intros p Hpn. apply restm_none. rewrite ER.
  rewrite lookup_insert_ne by (intros ->; apply Hpn; by left). unfold restm.
  by rewrite lookup_fmap, (part_off l h p Hpn).
Qed.

Lemma delete_frame h lvt T k node h' lvt' :
  lv_wf h lvt T -> found h T k node -> lvAvlTreeNodeDelete h lvt node = Ok (h', lvt') -> same_off (elems T) h h'.
Proof.
  intros Hw Hf E. destruct (part_split (elems T) h) as (f & Hfr & Hoff).
  assert (Ha : forall p, p ∈ elems T -> part (elems T) h !! p = h !! p) by (intros p; apply part_agree).
  assert (Hp : lv_wf (part (elems T) h) lvt T) by (eapply lv_wf_agree; [exact Ha|by eapply part_null, wf_null|exact Hw]).
  destruct (delete_dict _ lvt T k node Hp (found_agree _ _ T Ha _ _ Hf)) as (h1 & lvt1 & T' & E1 & _ & _ & _ & _ & ER).
  destruct (delete_node_local f _ _ lvt node Hfr _ E1) as ([h2 l2] & E2 & [R _]).
  rewrite E in E2. injection E2 as <- _. cbn [fst snd] in R.
  eapply frame_off; [exact Hfr|exact Hoff| |exact R]. intros p Hpn. apply restm_none. rewrite ER.
  unfold restm. by rewrite lookup_fmap, part_off.
Qed.
