(* ===== verification/Lvslot.v ===== *)
(** Slots for local variables (lv_getslot.c, lv_newblock.c and the macros
    LVTREE_FREESLOT and LVTREENODE_FREESLOT of lv_val.h): blocks of slots that
    malloc returned, used up one by one, and the list of slots that were freed,
    which runs through a field of the slots themselves.  The code has the same
    text for each type of slot; here it is one Section over the type.

    The proofs show that a slot that is handed out is not in use, and that
    neither handing it out nor freeing it touches a slot in use. *)

From stdpp Require Import base list numbers option tactics gmap.
From Stdlib Require Import ZArith Lia.
From S2P Require Import Prelude Mval Lvnode Avltree.

Open Scope Z_scope.

Definition LV_NEWBLOCK_INIT_ALLOC : Z := 16.
Definition MAXINT4 : Z := 2147483647.

(** lv_blk, of which the slots follow the header; [blk_base] is LV_BLK_GET_BASE. *)
Record lv_blk := mk_blk { blk_base : Z; numAlloc : Z; numUsed : Z }.

(** The fields of a symval for one type of slot; the blocks in the order of [next]. *)
Record pool := mk_pool { flist : Z; first_block : list lv_blk }.

(** What the code takes from malloc and gtm_bestfitsize: for a number of slots,
    the address of memory that is not in use and how many slots it has. *)
Class Malloc := malloc : list Z -> Z -> Z * Z.

Definition slots (SIZEOF base lo hi : Z) : list Z := (fun i => base + SIZEOF * i) <$> seqZ lo (hi - lo).

Class MallocOk (SIZEOF : Z) (M : Malloc) : Prop := malloc_ok : forall used n base k,
  1 <= n -> malloc used n = (base, k) ->
  1 <= k /\ NoDup (slots SIZEOF base 0 k) /\ forall p, p ∈ slots SIZEOF base 0 k -> p <> NULL /\ p ∉ used.

Section slots.
Context {A : Type} (SIZEOF : Z) (next_free : A -> Z) (set_free : Z -> A -> A) (blank : Z -> A) (grow : Z -> Z)
        {M : Malloc}.

(** The first block with a slot that was never used. *)
Fixpoint take_slot (bs : list lv_blk) : option (Z * list lv_blk) :=
  match bs with
  | [] => None
  | p :: bs' =>
      if numUsed p <? numAlloc p then
        Some (blk_base p + SIZEOF * numUsed p, mk_blk (blk_base p) (numAlloc p) (numUsed p + 1) :: bs')
      else '(lv, bs') ← take_slot bs'; Some (lv, p :: bs')
  end.

Definition newblock (h : gmap Z A) (sym : pool) (numElems : Z) : gmap Z A * pool :=
  let '(base, numElems) := malloc (elements (dom h)) numElems in
  (foldr (fun p h => <[p := blank p]> h) h (slots SIZEOF base 0 numElems),
   mk_pool (flist sym) (mk_blk base numElems 0 :: first_block sym)).

Definition getslot (h : gmap Z A) (sym : pool) : res (gmap Z A * pool * Z) :=
  let lv := flist sym in
  if negb (lv =? NULL) then
    n ← res_of (h !! lv);
    Ok (h, mk_pool (next_free n) (first_block sym), lv)
  else
    match take_slot (first_block sym) with
    | Some (lv, bs) => Ok (h, mk_pool (flist sym) bs, lv)
    | None =>
        let numElems := match first_block sym with p :: _ => numAlloc p | [] => LV_NEWBLOCK_INIT_ALLOC end in
        let '(h, sym) := newblock h sym (grow numElems) in
        '(lv, bs) ← res_of (take_slot (first_block sym));
        Ok (h, mk_pool (flist sym) bs, lv)
    end.

Definition freeslot (h : gmap Z A) (sym : pool) (lv : Z) : res (gmap Z A * pool) :=
  n ← res_of (h !! lv);
  Ok (<[lv := set_free (flist sym) n]> h, mk_pool lv (first_block sym)).
End slots.

(** The capacity of a new block, from that of the newest one. *)
Definition lvtreenode_grow (numElems : Z) : Z := if numElems <=? MAXINT4 / 2 then numElems * 2 else MAXINT4.
Definition lvtree_grow (numElems : Z) : Z := if 64 <? numElems then 128 else numElems * 2.

(** * Pools that are sound *)

Section invariant.
Context {A : Type} (SIZEOF : Z) (next_free : A -> Z) (set_free : Z -> A -> A) (blank : Z -> A) (grow : Z -> Z)
        {M : Malloc} {HM : MallocOk SIZEOF M}.
Hypothesis next_set : forall x n, next_free (set_free x n) = x.
Hypothesis grow_pos : forall n, 1 <= n -> 1 <= grow n.

Fixpoint chain (h : gmap Z A) (x : Z) (fl : list Z) : Prop :=
  match fl with
  | [] => x = NULL
  | p :: fl' => x = p /\ p <> NULL /\ exists n, h !! p = Some n /\ chain h (next_free n) fl'
  end.

Definition unused (bs : list lv_blk) : list Z :=
  bs ≫= fun b => slots SIZEOF (blk_base b) (numUsed b) (numAlloc b).

Definition blk_ok (b : lv_blk) : Prop := 0 <= numUsed b <= numAlloc b /\ 1 <= numAlloc b.

(** [U] are the slots in use. *)
Definition pool_ok (h : gmap Z A) (sym : pool) (U : list Z) : Prop :=
  exists fl, chain h (flist sym) fl /\ Forall blk_ok (first_block sym) /\
    NoDup (fl ++ unused (first_block sym)) /\
    (forall p, p ∈ fl ++ unused (first_block sym) -> p <> NULL /\ is_Some (h !! p) /\ (p ∉ U)) /\
    (forall p, p ∈ U -> is_Some (h !! p)).

Lemma slots_cons base lo hi : lo < hi -> slots SIZEOF base lo hi = (base + SIZEOF * lo) :: slots SIZEOF base (lo + 1) hi.
Proof using Type.
  intros H. unfold slots. rewrite seqZ_cons by lia. rewrite fmap_cons.
  by replace (Z.pred (hi - lo)) with (hi - (lo + 1)) by lia.
Qed.

Lemma slots_nil base lo hi : hi <= lo -> slots SIZEOF base lo hi = [].
Proof using Type. intros H. unfold slots. by rewrite seqZ_nil by lia. Qed.

Lemma take_slot_spec bs :
  Forall blk_ok bs ->
  match take_slot SIZEOF bs with
  | Some (lv, bs') => unused bs = lv :: unused bs'
  | None => unused bs = []
  end /\ (forall lv bs', take_slot SIZEOF bs = Some (lv, bs') -> Forall blk_ok bs').
Proof using Type.
  induction 1 as [|b bs [Hb1 Hb2] Hbs IH]; [by split|]. unfold unused in *. cbn. destruct (Z.ltb_spec (numUsed b) (numAlloc b)).
  - split.
    + by rewrite slots_cons.
    + intros lv bs' [= <- <-]. constructor; [|done]. split; simpl; lia.
  - rewrite slots_nil by lia. simpl. destruct IH as [IH Hok]. destruct (take_slot SIZEOF bs) as [[lv bs']|]; cbn.
    + split; [|intros ? ? [= <- <-]; constructor; [done|by eapply Hok]]. rewrite slots_nil by lia. exact IH.
    + split; [exact IH|done].
Qed.

Lemma chain_agree h h' x fl : (forall p, p ∈ fl -> h' !! p = h !! p) -> chain h x fl -> chain h' x fl.
Proof using Type.
  revert x. induction fl as [|p fl IH]; [done|]. intros x Ha (-> & Np & n & En & Hc). split; [done|]. split; [done|].
  exists n. rewrite Ha by (by left). split; [done|]. apply IH; [|done]. intros q Hq. apply Ha. by right.
Qed.

(** Changes to the slots in use do not matter. *)
Lemma pool_agree h h' sym U :
  (forall p, p ∉ U -> h' !! p = h !! p) -> (forall p, p ∈ U -> is_Some (h' !! p)) ->
  pool_ok h sym U -> pool_ok h' sym U.
Proof using Type.
  intros Ha Hd (fl & Hc & Hb & Hn & Hf & _). exists fl. split_and!; [|done|done| |done].
  - eapply chain_agree; [|exact Hc]. intros p Hp. apply Ha, Hf, elem_of_app. by left.
  - intros p Hp. destruct (Hf p Hp) as (? & ? & ?). by rewrite Ha.
Qed.

Lemma pool_subset h sym U U' : (forall p, p ∈ U' -> p ∈ U) -> pool_ok h sym U -> pool_ok h sym U'.
Proof using Type.
  intros Hs (fl & Hc & Hb & Hn & Hf & Hd). exists fl. split_and!; [done|done|done| |auto].
  intros p Hp. destruct (Hf p Hp) as (? & ? & ?). split_and!; auto.
Qed.

Lemma fill_lookup (l : list Z) (h : gmap Z A) p :
  foldr (fun p h => <[p := blank p]> h) h l !! p = if decide (p ∈ l) then Some (blank p) else h !! p.
Proof using Type.
  induction l as [|q l IH]; simpl; [done|]. destruct (decide (p = q)) as [->|Hpq].
  - rewrite lookup_insert_eq. by rewrite decide_True by (by left).
  - rewrite lookup_insert_ne, IH by done. destruct (decide (p ∈ l)); [rewrite decide_True by (by right); done|].
    rewrite decide_False; [done|]. by intros [?|?]%elem_of_cons.
Qed.

(** The slots of a new block join those that were never used. *)
Lemma newblock_spec h sym U n h' sym' :
  pool_ok h sym U -> 1 <= n -> newblock SIZEOF blank h sym n = (h', sym') ->
  pool_ok h' sym' U /\ flist sym' = flist sym /\ unused (first_block sym') <> [] /\
  h' !! NULL = h !! NULL /\ forall p, is_Some (h !! p) -> h' !! p = h !! p.
Proof using HM.
  clear set_free next_set grow_pos grow. intros (fl & Hc & Hb & Hn & Hf & Hd) H1. unfold newblock.
  destruct (malloc (elements (dom h)) n) as [base k] eqn:E. intros [= <- <-].
  destruct (malloc_ok _ _ _ _ H1 E) as (Hk & Hnd & Hfresh). cbn [flist first_block].
  assert (Hout : forall p, p ∈ slots SIZEOF base 0 k -> h !! p = None).
  { intros p Hp. destruct (Hfresh p Hp) as [_ Hu]. rewrite elem_of_elements in Hu. by apply not_elem_of_dom. }
  assert (Hold : forall p, is_Some (h !! p) ->
    foldr (fun p h => <[p := blank p]> h) h (slots SIZEOF base 0 k) !! p = h !! p).
  { intros p [m Em]. rewrite fill_lookup. destruct (decide _) as [Hp|]; [|done]. apply Hout in Hp. congruence. }
  assert (Hu : unused (mk_blk base k 0 :: first_block sym) = slots SIZEOF base 0 k ++ unused (first_block sym)) by done.
  rewrite Hu. split; [|split; [done|split; [rewrite slots_cons by lia; done|split; [|done]]]].
  2: { rewrite fill_lookup, decide_False; [done|]. intros Hp. by apply Hfresh in Hp as [? _]. }
  exists fl. cbn [flist first_block]. rewrite Hu. split_and!.
  - eapply chain_agree; [|exact Hc]. intros p Hp. apply Hold, Hf. set_solver.
  - constructor; [split; simpl; lia|done].
  - rewrite !NoDup_app in *. destruct Hn as (Hn1 & Hn2 & Hn3). split_and!; [done| |done| |done].
    + intros p Hp [Hs|Hp']%elem_of_app; [|by eapply Hn2]. apply Hout in Hs.
      destruct (Hf p) as (_ & [m Em] & _); [set_solver|congruence].
    + intros p Hs Hp'. apply Hout in Hs. destruct (Hf p) as (_ & [m Em] & _); [set_solver|congruence].
  - intros p Hp. destruct (decide (p ∈ slots SIZEOF base 0 k)) as [Hs|Hs].
    + split; [by apply Hfresh|]. rewrite fill_lookup, decide_True by done. split; [by eexists|].
      intros Hp'. apply Hout in Hs. destruct (Hd p Hp') as [m Em]. congruence.
    + destruct (Hf p) as (? & ? & ?); [set_solver|]. by rewrite Hold.
  - intros p Hp. rewrite Hold; auto.
Qed.

Lemma getslot_spec h sym U :
  pool_ok h sym U ->
  exists h' sym' p, getslot SIZEOF next_free blank grow h sym = Ok (h', sym', p) /\
    p <> NULL /\ (p ∉ U) /\ is_Some (h' !! p) /\ h' !! NULL = h !! NULL /\ (forall q, is_Some (h !! q) -> h' !! q = h !! q) /\
    pool_ok h' sym' (p :: U).
Proof using HM grow_pos.
  clear set_free next_set. intros Hp. unfold getslot. destruct (Z.eqb_spec (flist sym) NULL) as [Ef|Ef]; simpl negb; cbv iota.
  - assert (Htake : forall h1 sym1 p bs, pool_ok h1 sym1 U -> flist sym1 = NULL ->
      take_slot SIZEOF (first_block sym1) = Some (p, bs) ->
      p <> NULL /\ (p ∉ U) /\ is_Some (h1 !! p) /\ pool_ok h1 (mk_pool NULL bs) (p :: U)).
    { intros h1 sym1 p bs (fl & Hc & Hb & Hn & Hf & Hd) E1 Et.
      destruct fl as [|q fl]; [|destruct Hc as (Eq & Nq & _); congruence].
      destruct (take_slot_spec _ Hb) as [Hu Hok]. rewrite Et in Hu. cbn [app] in *. rewrite Hu in Hn, Hf.
      apply NoDup_cons in Hn as [Hpn Hn].
      destruct (Hf p) as (Np & Hs & HpU); [by left|]. split_and!; [done|done|done|].
      exists []. split_and!; [done|by eapply Hok|done| |].
      - intros q Hq. destruct (Hf q) as (? & ? & ?); [by right|]. split_and!; [done|done|].
        intros [->|?]%elem_of_cons; [|done]. done.
      - intros q [->|Hq]%elem_of_cons; auto. }
    destruct (take_slot SIZEOF (first_block sym)) as [[p bs]|] eqn:Et.
    + destruct (Htake h sym p bs Hp Ef Et) as (? & ? & ? & ?). rewrite Ef. exists h, (mk_pool NULL bs), p. by split_and!.
    + set (n := match first_block sym with p :: _ => numAlloc p | [] => LV_NEWBLOCK_INIT_ALLOC end).
      assert (Hn : 1 <= grow n).
      { apply grow_pos. unfold n, LV_NEWBLOCK_INIT_ALLOC. destruct Hp as (_ & _ & Hb & _).
        destruct (first_block sym); [lia|]. apply Forall_cons in Hb as [[_ Hb] _]. done. }
      destruct (newblock SIZEOF blank h sym (grow n)) as [h1 sym1] eqn:En.
      destruct (newblock_spec h sym U _ h1 sym1 Hp Hn En) as (Hp1 & Ef1 & Hne & H0 & Hold).
      assert (Hb1 : Forall blk_ok (first_block sym1)) by (destruct Hp1 as (? & _ & ? & _); done).
      destruct (take_slot_spec _ Hb1) as [Hu _].
      destruct (take_slot SIZEOF (first_block sym1)) as [[p bs]|] eqn:Et1; [|done]. cbn [res_of mbind res_bind].
      destruct (Htake h1 sym1 p bs Hp1) as (? & ? & ? & ?); [by rewrite Ef1|done|]. rewrite Ef1, Ef.
      exists h1, (mk_pool NULL bs), p. by split_and!.
  - destruct Hp as (fl & Hc & Hb & Hn & Hf & Hd). destruct fl as [|p fl]; [done|].
    destruct Hc as (-> & Np & n & En & Hc). rewrite En. cbn [res_of mbind res_bind].
    destruct (Hf p) as (_ & Hs & HpU); [by left|]. apply NoDup_cons in Hn as [Hpn Hn].
    exists h, (mk_pool (next_free n) (first_block sym)), p. split_and!; [done|done|done|done|done|done|].
    exists fl. split_and!; [done|done|done| |].
    + intros q Hq. destruct (Hf q) as (? & ? & ?); [by right|]. split_and!; [done|done|].
      intros [->|?]%elem_of_cons; [|done]. done.
    + intros q [->|Hq]%elem_of_cons; auto.
Qed.

Lemma freeslot_spec h sym U p :
  pool_ok h sym U -> p ∈ U -> p <> NULL -> 
  exists n, h !! p = Some n /\
    freeslot set_free h sym p = Ok (<[p := set_free (flist sym) n]> h, mk_pool p (first_block sym)) /\
    forall U', (forall q, q ∈ U' -> q ∈ U /\ q <> p) ->
      pool_ok (<[p := set_free (flist sym) n]> h) (mk_pool p (first_block sym)) U'.
Proof using next_set.
  clear M HM grow_pos grow blank. intros (fl & Hc & Hb & Hn & Hf & Hd) Hp Np. destruct (Hd p Hp) as [n En]. exists n. split; [done|].
  unfold freeslot. rewrite En. split; [done|]. intros U' HU.
  assert (Hpf : p ∉ fl ++ unused (first_block sym)) by (intros Hi; by apply Hf in Hi as (_ & _ & ?)).
  exists (p :: fl). cbn [flist first_block]. split_and!.
  - split; [done|]. split; [done|]. exists (set_free (flist sym) n). rewrite lookup_insert_eq. split; [done|].
    rewrite next_set. eapply chain_agree; [|exact Hc]. intros q Hq. apply lookup_insert_ne. set_solver.
  - done.
  - by constructor.
  - intros q [->|Hq]%elem_of_cons.
    + split_and!; [done|rewrite lookup_insert_eq; by eexists|]. intros Hi. by apply HU in Hi as [_ ?].
    + destruct (Hf q Hq) as (? & ? & HqU). rewrite lookup_insert_ne by (by intros ->). split_and!; [done|done|].
      intros Hi. by apply HU in Hi as [? _].
  - intros q Hq. apply HU in Hq as [Hq Hne]. rewrite lookup_insert_ne by done. by apply Hd.
Qed.
End invariant.

Lemma lvtreenode_grow_pos n : 1 <= n -> 1 <= lvtreenode_grow n.
Proof. intros H. unfold lvtreenode_grow, MAXINT4. destruct (Z.leb_spec n (2147483647 / 2)); lia. Qed.

Lemma lvtree_grow_pos n : 1 <= n -> 1 <= lvtree_grow n.
Proof. intros H. unfold lvtree_grow. destruct (Z.ltb_spec 64 n); lia. Qed.
