(* ===== verification/Lvar.v ===== *)
(** Subscripted local variables: a variable is a base lv_val with a tree of
    nodes for its first subscripts, each with a value and a tree of its own for
    the next.  The operations of the compiled code on them: op_srchindx.c,
    op_getindx.c, op_putindx.c, op_fnorder.c, op_fndata.c, and lv_kill.c,
    lv_killarray.c with the clean-up of a failed command (UNDO_ACTIVE_LV).

    A base lv_val has the layout of the first fields of a node (the assertions
    of assert_tree_member_offsets), so it lives in the same heap: its parent is
    the symval, at address [SYM]. *)

From stdpp Require Import base list numbers option tactics gmap sorting.
From Stdlib Require Import ZArith Lia.
From S2P Require Import Prelude Mval Numstr Lvnode Avltree Avlops Lvtree Lvmap Lvframe Lvslot.

Open Scope Z_scope.

(** * The store *)

(** lvTree; [core] is what the functions of lv_tree.c use of it. *)
Record lvts := mk_lvts { core : lvTree; sbs_depth : Z; base_lv : Z; sbs_parent : Z }.

Record lvstate := mk_lvs {
  nodes : heap; trees : gmap Z lvts; node_pool : pool; tree_pool : pool; active_lv : Z
}.

Definition with_nodes (h : heap) (st : lvstate) : lvstate :=
  mk_lvs h (trees st) (node_pool st) (tree_pool st) (active_lv st).
Definition with_trees (t : gmap Z lvts) (st : lvstate) : lvstate :=
  mk_lvs (nodes st) t (node_pool st) (tree_pool st) (active_lv st).
Definition with_npool (x : pool) (st : lvstate) : lvstate :=
  mk_lvs (nodes st) (trees st) x (tree_pool st) (active_lv st).
Definition with_tpool (x : pool) (st : lvstate) : lvstate :=
  mk_lvs (nodes st) (trees st) (node_pool st) x (active_lv st).
Definition set_active (x : Z) (st : lvstate) : lvstate :=
  mk_lvs (nodes st) (trees st) (node_pool st) (tree_pool st) x.

Definition with_core (c : lvTree) (t : lvts) : lvts := mk_lvts c (sbs_depth t) (base_lv t) (sbs_parent t).

(** Assignments to the fields of a node that lv_tree.c does not assign. *)
Definition with_child (x : Z) (n : lvTreeNode) : lvTreeNode :=
  mk_node (nd_v n) x (tree_parent n) (key_mvtype n) (balance n) (descent_dir n)
    (key_sgn n) (key_e n) (key_iconv n) (key_m0 n) (key_m1 n) (key_str n)
    (avl_left n) (avl_right n) (avl_parent n).
Definition with_value (v : mval) (n : lvTreeNode) : lvTreeNode :=
  mk_node v (sbs_child n) (tree_parent n) (key_mvtype n) (balance n) (descent_dir n)
    (key_sgn n) (key_e n) (key_iconv n) (key_m0 n) (key_m1 n) (key_str n)
    (avl_left n) (avl_right n) (avl_parent n).
Definition with_tree (x : Z) (n : lvTreeNode) : lvTreeNode :=
  mk_node (nd_v n) (sbs_child n) x (key_mvtype n) (balance n) (descent_dir n)
    (key_sgn n) (key_e n) (key_iconv n) (key_m0 n) (key_m1 n) (key_str n)
    (avl_left n) (avl_right n) (avl_parent n).

Definition modify_node (f : lvTreeNode -> lvTreeNode) (p : Z) (st : lvstate) : res lvstate :=
  h ← modify f p (nodes st); Ok (with_nodes h st).

(** LVTREENODE_FREESLOT and LVTREE_FREESLOT: the free lists run through [sbs_child]
    of nodes and [avl_root] of trees; the parent is cleared. *)
Definition node_free (x : Z) (n : lvTreeNode) : lvTreeNode := with_child x (with_tree NULL n).
Definition tree_free (x : Z) (t : lvts) : lvts := mk_lvts (set_root x (core t)) (sbs_depth t) (base_lv t) NULL.

Definition LVTREENODE_FREESLOT (st : lvstate) (lv : Z) : res lvstate :=
  '(h, p) ← freeslot node_free (nodes st) (node_pool st) lv; Ok (with_npool p (with_nodes h st)).
Definition LVTREE_FREESLOT (st : lvstate) (lvt : Z) : res lvstate :=
  '(t, p) ← freeslot tree_free (trees st) (tree_pool st) lvt; Ok (with_tpool p (with_trees t st)).

(** lvtreenode_newblock clears its slots (memset). *)
Definition blank_node : lvTreeNode :=
  mk_node (mk_mval 0 0 0 0 0 []) NULL NULL 0 0 0 0 0 false 0 0 [] NULL NULL NULL.

(** * Subscripts *)

Definition MV_ALIASCONT : Z := 512.

Inductive lvnullsubs := LVNULLSUBS_NO | LVNULLSUBS_OK | LVNULLSUBS_NEVER.

Section lv.
(** What the code takes from outside: memory for nodes and for trees, with
    the contents of the latter; the sizes of the slots; the settings. *)
Context (Mn Mt : Malloc) (node_size tree_size : Z) (blank_tree : Z -> lvts) (SYM : Z)
        (g : globals) (lv_null_subs : lvnullsubs).

Definition lvtreenode_getslot (st : lvstate) : res (lvstate * Z) :=
  '(h, p, lv) ← getslot node_size sbs_child (fun _ => blank_node) lvtreenode_grow (M := Mn) (nodes st) (node_pool st);
  Ok (with_npool p (with_nodes h st), lv).

Definition lvtree_getslot (st : lvstate) : res (lvstate * Z) :=
  '(t, p, lvt) ← getslot tree_size (fun t => avl_root (core t)) blank_tree lvtree_grow (M := Mt) (trees st) (tree_pool st);
  Ok (with_tpool p (with_trees t st), lvt).

Definition MV_IS_CANONICAL (key : mval) : res (bool * mval) :=
  if has MV_NM key then Ok (negb (has MV_NUM_APPROX key), key) else val_iscan g key.

(** The subscript that a lookup takes, with its canonical bit; op_putindx also
    drops the string, and refuses null subscripts unless they are allowed. *)
Definition subscript (put : bool) (key : mval) : res (bool * mval) :=
  key ← MV_FORCE_DEFINED g key;
  '(is_canonical, key) ← MV_IS_CANONICAL key;
  if negb is_canonical then
    let refused := match lv_null_subs with
                   | LVNULLSUBS_OK => false
                   | LVNULLSUBS_NEVER => true
                   | LVNULLSUBS_NO => put
                   end in
    if negb (MV_IS_SQLNULL key) && ((zlen (mv_str key) =? 0) && refused) then Err ERR_LVNULLSUBS
    else Ok (false, key)
  else
    key ← MV_FORCE_NUM g key;
    let key := set_mvtype (Z.lor (mvtype key) MV_CANONICAL) key in
    Ok (true, if put then set_mvtype (Z.land (mvtype key) (Z.lnot (Z.lor MV_STR MV_UTF_LEN))) key else key).

Definition lookup_in (st : lvstate) (lvt : Z) (is_canonical : bool) (key : mval) : res (lvstate * Z * Z) :=
  t ← res_of (trees st !! lvt);
  '(h, c, node, parent) ← (if is_canonical then
      if MVTYPE_IS_INT (mvtype key) then lvAvlTreeLookupInt (nodes st) (core t) key NULL
      else lvAvlTreeLookupNum (nodes st) (core t) key NULL
    else lvAvlTreeLookupStr (nodes st) (core t) key NULL);
  Ok (with_trees (<[lvt := with_core c t]> (trees st)) (with_nodes h st), node, parent).

(** * Reading *)

Fixpoint op_srchindx (st : lvstate) (lv : Z) (keys : list mval) : res (lvstate * Z) :=
  match keys with
  | [] => Ok (st, lv)
  | key :: keys' =>
      if lv =? NULL then Ok (st, lv)
      else
        n ← deref (nodes st) lv;
        let lvt := sbs_child n in
        if lvt =? NULL then Ok (st, NULL)
        else
          '(is_canonical, key) ← subscript false key;
          '(st, lv, _) ← lookup_in st lvt is_canonical key;
          op_srchindx st lv keys'
  end.

(** The value that op_getindx returns a pointer to, or the error LVUNDEF of a
    reference to a variable without a value; [rtn_get] is the test of
    TREF(libyottadb_active_rtn), which ydb_get_s sets. *)
Definition op_getindx (rtn_get : bool) (st : lvstate) (start : Z) (keys : list mval) : res (lvstate * option mval) :=
  '(st, lv) ← op_srchindx st start keys;
  let undefined := if undef_inhibit g || rtn_get then Ok (st, Some literal_null) else Ok (st, None) in
  if lv =? NULL then undefined
  else n ← deref (nodes st) lv; if MV_DEFINED (nd_v n) then Ok (st, Some (nd_v n)) else undefined.

(** $GET of what op_srchindx found: the value, without the flag of an alias
    container, or the null string. *)
Definition no_aliascont (v : mval) : mval := set_mvtype (Z.land (mvtype v) (Z.lnot MV_ALIASCONT)) v.

Definition op_fnget (st : lvstate) (src : Z) (dst : mval) : res mval :=
  let none := set_mvtype MV_STR (mk_mval 0 (mv_sgn dst) (mv_e dst) (mv_m0 dst) (mv_m1 dst) []) in
  if src =? NULL then Ok none
  else n ← deref (nodes st) src; Ok (if MV_DEFINED (nd_v n) then no_aliascont (nd_v n) else none).

(** $GET with a default: an undefined value, and the default in its place. *)
Definition op_fnget1 (st : lvstate) (src : Z) (dst : mval) : res mval :=
  if src =? NULL then Ok (set_mvtype 0 dst)
  else n ← deref (nodes st) src; Ok (if MV_DEFINED (nd_v n) then no_aliascont (nd_v n) else set_mvtype 0 dst).

Definition op_fnget2 (src def : mval) : res mval :=
  def ← MV_FORCE_DEFINED g def;
  Ok (if MV_DEFINED src then src else def).

(** $DATA: 1 for a value, 10 more for descendants. *)
Definition op_fndata (st : lvstate) (x : Z) : res Z :=
  if x =? NULL then Ok 0
  else
    n ← deref (nodes st) x;
    Ok ((if MV_DEFINED (nd_v n) then 1 else 0) + (if negb (sbs_child n =? NULL) then 10 else 0)).

(** * Writing *)

Definition lv_tree_create (st : lvstate) (parent depth base : Z) : res (lvstate * Z) :=
  '(st, lvt) ← lvtree_getslot st;
  t ← res_of (trees st !! lvt);
  let c := LV_TREE_CREATE lvt (lastNodeMin (core t)) (lastNodeMax (core t)) in
  let st := with_trees (<[lvt := mk_lvts c depth base parent]> (trees st)) st in
  st ← modify_node (with_child lvt) parent st;
  Ok (st, lvt).

Definition insert_in (st : lvstate) (lvt : Z) (key : mval) (parent : Z) : res (lvstate * Z) :=
  t ← res_of (trees st !! lvt);
  '(st, lv) ← lvtreenode_getslot st;
  '(h, c) ← lvAvlTreeNodeInsert (nodes st) (core t) key parent lv;
  Ok (with_trees (<[lvt := with_core c t]> (trees st)) (with_nodes h st), lv).

Fixpoint put_loop (st : lvstate) (lv : Z) (keys : list mval) (subs_level base : Z) : res (lvstate * Z) :=
  match keys with
  | [] => Ok (st, lv)
  | key :: keys' =>
      '(is_canonical, key) ← subscript true key;
      n ← deref (nodes st) lv;
      '(st, lvt) ← (if negb (sbs_child n =? NULL) then Ok (st, sbs_child n)
                    else lv_tree_create st lv subs_level base);
      '(st, lv, parent) ← lookup_in st lvt is_canonical key;
      '(st, lv) ← (if lv =? NULL then
          '(st, lv) ← insert_in st lvt key parent;
          st ← modify_node (fun n => with_value (set_mvtype 0 (nd_v n)) n) lv st;
          Ok (set_active lv st, lv)
        else Ok (st, lv));
      put_loop st lv keys' (subs_level + 1) base
  end.

(** For a variable that is not protected by a transaction (tp_var is NULL). *)
Definition op_putindx (st : lvstate) (start : Z) (keys : list mval) : res (lvstate * Z) :=
  s ← deref (nodes st) start;
  '(subs_level, base) ← (if tree_parent s =? SYM then Ok (0, start)
    else t ← res_of (trees st !! tree_parent s); Ok (sbs_depth t, base_lv t));
  '(st, lv) ← put_loop st start keys (subs_level + 1) base;
  if negb (base =? lv) then
    n ← deref (nodes st) lv;
    if MV_DEFINED (nd_v n) && has MV_ALIASCONT (nd_v n) then Err OUT_OF_SCOPE
    else Ok (set_active lv st, lv)
  else Ok (st, lv).

(** * Killing *)

Definition clear_value (lv : Z) (st : lvstate) : res lvstate :=
  modify_node (fun n => with_value (set_mvtype 0 (nd_v n)) n) lv st.

(** DECR_AC_REF: only for alias containers. *)
Definition DECR_AC_REF (st : lvstate) (lv : Z) : res lvstate :=
  n ← deref (nodes st) lv;
  if has MV_ALIASCONT (nd_v n) then Err OUT_OF_SCOPE else Ok st.

(** The loop of lv_killarray over the nodes of [lvt], from [node] on. *)
Fixpoint kill_nodes (fuel : nat) (st : lvstate) (lvt node : Z) : res lvstate :=
  match fuel with
  | O => Err OUT_OF_FUEL
  | S fuel' =>
      if node =? NULL then LVTREE_FREESLOT st lvt
      else
        nextnode ← lvAvlTreeNextPostOrder (nodes st) node;
        n ← deref (nodes st) node;
        let tmplvt := sbs_child n in
        st ← (if negb (tmplvt =? NULL) then
            st ← modify_node (with_child NULL) node st;
            t ← res_of (trees st !! tmplvt);
            first ← lvAvlTreeFirstPostOrder (nodes st) (core t);
            kill_nodes fuel' st tmplvt first
          else Ok st);
        st ← DECR_AC_REF st node;
        st ← clear_value node st;
        st ← LVTREENODE_FREESLOT st node;
        kill_nodes fuel' st lvt nextnode
  end.

Definition kfuel (st : lvstate) : nat := S (2 * (size (nodes st) + size (trees st))).

Definition lv_killarray (st : lvstate) (lvt : Z) : res lvstate :=
  t ← res_of (trees st !! lvt);
  first ← lvAvlTreeFirstPostOrder (nodes st) (core t);
  kill_nodes (kfuel st) st lvt first.

(** [for ( ; ; )]: the node, and every parent that is left with nothing. *)
Fixpoint kill_up (fuel : nat) (st : lvstate) (base lv : Z) : res lvstate :=
  match fuel with
  | O => Err OUT_OF_FUEL
  | S fuel' =>
      n ← deref (nodes st) lv;
      let lvt := tree_parent n in
      st ← clear_value lv st;
      t ← res_of (trees st !! lvt);
      '(h, c) ← lvAvlTreeNodeDelete (nodes st) (core t) lv;
      st ← LVTREENODE_FREESLOT (with_trees (<[lvt := with_core c t]> (trees st)) (with_nodes h st)) lv;
      if negb (avl_height c =? 0) then Ok st
      else
        let lv := sbs_parent t in
        st ← modify_node (with_child NULL) lv st;
        st ← LVTREE_FREESLOT st lvt;
        n ← deref (nodes st) lv;
        if MV_DEFINED (nd_v n) then Ok st
        else if lv =? base then clear_value lv st
        else kill_up fuel' st base lv
  end.

Definition lv_kill (st : lvstate) (lv : Z) (do_subtree : bool) : res lvstate :=
  let st := set_active NULL st in
  if lv =? NULL then Ok st
  else
    n ← deref (nodes st) lv;
    let is_base_var := tree_parent n =? SYM in
    base ← (if is_base_var then Ok lv else t ← res_of (trees st !! tree_parent n); Ok (base_lv t));
    let lvt_child := sbs_child n in
    st ← (if do_subtree && negb (lvt_child =? NULL) then
        st ← modify_node (with_child NULL) lv st; lv_killarray st lvt_child
      else Ok st);
    st ← DECR_AC_REF st lv;
    if negb is_base_var && (do_subtree || (lvt_child =? NULL)) then
      kill_up (S (size (trees st))) st base lv
    else clear_value lv st.

Definition op_kill (st : lvstate) (lv : Z) : res lvstate := lv_kill st lv true.

Definition op_lvzwithdraw (st : lvstate) (lv : Z) : res lvstate := lv_kill st lv false.

Definition UNDO_ACTIVE_LV (st : lvstate) : res lvstate :=
  let lv := active_lv st in
  if negb (lv =? NULL) then
    n ← deref (nodes st) lv;
    st ← (if negb (tree_parent n =? NULL) then
        if negb (MV_DEFINED (nd_v n)) && (sbs_child n =? NULL) then
          h ← lvAvlTreeNodePrepareForDelete (nodes st) lv;
          op_kill (with_nodes h st) lv
        else Ok st
      else Ok st);
    Ok (set_active NULL st)
  else Ok st.
End lv.
