(* ===== verification/Lvown.v ===== *)
(** Well-formed local variables.  The shape of a variable is a tree of trees;
    [own] says that the store holds one of that shape at a node, next to other
    nodes and trees in use that it does not overlap, and that the pools of slots
    are sound for all of them.  A variable can be taken apart at a subscript
    and put together again ([own_down], [own_up]). *)

From stdpp Require Import base list numbers option tactics gmap sorting.
From Stdlib Require Import ZArith Lia.
From S2P Require Import Prelude Mval Numstr Lvnode Avltree Avlops Lvtree Lvmap Lvframe Lvslot Lvar.

Open Scope Z_scope.

(** * Shapes *)

(** A tree of one level, its address, its nodes, and the trees under them; LNil is
    no tree. *)
Inductive ltree := LNil | LT (q : Z) (T : tree) (kids : Z -> ltree).

Definition lroot (t : ltree) : Z := match t with LNil => NULL | LT q _ _ => q end.

Fixpoint lnodes (t : ltree) : list Z :=
  match t with LNil => [] | LT _ T kids => elems T ++ (elems T ≫= fun p => lnodes (kids p)) end.
Fixpoint ltrees (t : ltree) : list Z :=
  match t with LNil => [] | LT q T kids => q :: (elems T ≫= fun p => ltrees (kids p)) end.

(** A shape with the tree under [p] replaced. *)
Definition upd (kids : Z -> ltree) (p : Z) (t : ltree) : Z -> ltree :=
  fun x => if decide (x = p) then t else kids x.

Lemma upd_eq kids p t : upd kids p t p = t.
Proof. unfold upd. by rewrite decide_True. Qed.
Lemma upd_ne kids p t x : x <> p -> upd kids p t x = kids x.
Proof. intros H. unfold upd. by rewrite decide_False. Qed.

(** * What a store holds *)

Definition no_alias (n : lvTreeNode) : Prop := has MV_ALIASCONT (nd_v n) = false.

(** The tree of [t], of the variable [base], under the node [parent], with all that
    is below it. *)
Fixpoint lwf (base : Z) (st : lvstate) (parent : Z) (t : ltree) : Prop :=
  match t with
  | LNil => True
  | LT q T kids =>
      (exists ts, trees st !! q = Some ts /\ sbs_parent ts = parent /\ base_lv ts = base /\ lvt_ptr (core ts) = q /\
         lv_wf (nodes st) (core ts) T) /\
      T <> Leaf /\ q <> NULL /\
      forall p, p ∈ elems T ->
        (exists n, nodes st !! p = Some n /\ tree_parent n = q /\ no_alias n /\ sbs_child n = lroot (kids p)) /\
        lwf base st p (kids p)
  end.

(** One level of it. *)
Definition level (base : Z) (st : lvstate) (parent q : Z) (T : tree) (kids : Z -> ltree) : Prop :=
  (exists ts, trees st !! q = Some ts /\ sbs_parent ts = parent /\ base_lv ts = base /\ lvt_ptr (core ts) = q /\
     lv_wf (nodes st) (core ts) T) /\
  q <> NULL /\
  forall p, p ∈ elems T ->
    (exists n, nodes st !! p = Some n /\ tree_parent n = q /\ no_alias n /\ sbs_child n = lroot (kids p)) /\
    lwf base st p (kids p).

(** What the trees see of a node: all but its value and its child. *)
Definition tview (n : lvTreeNode) : lvTreeNode := with_child 0 (with_value (mk_mval 0 0 0 0 0 []) n).

Lemma lv_wf_tview h lvt T : lv_wf (tview <$> h) lvt T <-> lv_wf h lvt T.
Proof.
  assert (EL : linkm (tview <$> h) = linkm h) by (unfold linkm; rewrite <- map_fmap_compose; done).
  assert (EB : balm (tview <$> h) = balm h) by (unfold balm; rewrite <- map_fmap_compose; done).
  assert (ED : dirm (tview <$> h) = dirm h) by (unfold dirm; rewrite <- map_fmap_compose; done).
  assert (EK : keym (tview <$> h) = keym h) by (unfold keym, restm; rewrite <- !map_fmap_compose; done).
  unfold lv_wf, tree_wf, clue_ok. rewrite EL, EB, ED, EK.
  assert (Hk : keys_ok (tview <$> h) T <-> keys_ok h T).
  { unfold keys_ok, restm. split; intros H p Hp; destruct (H p Hp) as (n & En & Hn); rewrite !lookup_fmap in *;
      (destruct (h !! p) as [m|]; [|done]); injection En as <-; eexists; (split; [done|exact Hn]). }
  by rewrite Hk.
Qed.

(** A tree depends on its own nodes only, and not on their values and children. *)
Lemma lv_wf_same h h' lvt T :
  (forall p, p ∈ elems T -> tview <$> h' !! p = tview <$> h !! p) -> h' !! NULL = None ->
  lv_wf h lvt T -> lv_wf h' lvt T.
Proof.
  intros Ha H0 Hw%lv_wf_tview. apply lv_wf_tview. eapply lv_wf_agree; [|by rewrite lookup_fmap, H0|exact Hw].
  intros p Hp. rewrite !lookup_fmap. by apply Ha.
Qed.

Lemma kid_nodes q T kids p x : p ∈ elems T -> x ∈ lnodes (kids p) -> x ∈ lnodes (LT q T kids).
Proof. intros Hp Hx. simpl. apply elem_of_app. right. apply list_elem_of_bind. by exists p. Qed.

Lemma kid_trees q T kids p x : p ∈ elems T -> x ∈ ltrees (kids p) -> x ∈ ltrees (LT q T kids).
Proof. intros Hp Hx. simpl. right. apply list_elem_of_bind. by exists p. Qed.

Lemma own_node q T kids p : p ∈ elems T -> p ∈ lnodes (LT q T kids).
Proof. intros Hp. simpl. apply elem_of_app. by left. Qed.

Lemma lwf_frame base st st' parent t :
  (forall p, p ∈ lnodes t -> nodes st' !! p = nodes st !! p) ->
  (forall q, q ∈ ltrees t -> trees st' !! q = trees st !! q) ->
  nodes st' !! NULL = None -> lwf base st parent t -> lwf base st' parent t.
Proof.
  revert parent. induction t as [|q T kids IH]; [done|].
  intros parent Hn Ht H0 ((ts & Ets & Ep & Eb & Eq & Hw) & Hne & Hq & Hk). split; [|split; [done|split; [done|]]].
  - exists ts. rewrite Ht by (by left). split_and!; [done|done|done|done|]. eapply lv_wf_same; [|done|exact Hw].
    intros p Hp. by rewrite Hn by (by apply own_node).
  - intros p Hp. destruct (Hk p Hp) as [(n & En & Hn') Hkid]. split.
    + exists n. by rewrite Hn by (by apply own_node).
    + apply IH; [|by eauto using kid_trees|done|done]. intros x Hx. by eapply Hn, kid_nodes.
Qed.

(** ** Taking a variable apart *)

(** The rest of a tree of level [q] without the part at [p]: [R] and [S]. *)
Record focus (q : Z) (T : tree) (kids : Z -> ltree) (p : Z) (R S : list Z) : Prop := mk_focus {
  fc_nodes : forall kids', (forall x, x <> p -> kids' x = kids x) ->
    lnodes (LT q T kids') ≡ₚ p :: lnodes (kids' p) ++ R;
  fc_trees : forall kids', (forall x, x <> p -> kids' x = kids x) ->
    ltrees (LT q T kids') ≡ₚ ltrees (kids' p) ++ S;
  fc_in : forall x, x ∈ elems T -> x <> p -> x ∈ R;
  fc_kid : forall x y, x ∈ elems T -> x <> p -> y ∈ lnodes (kids x) -> y ∈ R;
  fc_kidt : forall x y, x ∈ elems T -> x <> p -> y ∈ ltrees (kids x) -> y ∈ S;
  fc_root : q ∈ S
}.

Lemma bind_kids (g : ltree -> list Z) (kids kids' : Z -> ltree) p l :
  p ∉ l -> (forall x, x <> p -> kids' x = kids x) -> (l ≫= fun x => g (kids' x)) = (l ≫= fun x => g (kids x)).
Proof.
  intros Hp E. induction l as [|x l IH]; [done|]. apply not_elem_of_cons in Hp as [Hx Hp]. cbn.
  rewrite E by done. f_equal. by apply IH.
Qed.

Lemma focus_at q T kids p : NoDup (elems T) -> p ∈ elems T -> exists R S, focus q T kids p R S.
Proof.
  intros Hn Hp. destruct (list_elem_of_split _ _ Hp) as (a & b & E).
  exists (a ++ b ++ (a ≫= fun x => lnodes (kids x)) ++ (b ≫= fun x => lnodes (kids x))),
         (q :: (a ≫= fun x => ltrees (kids x)) ++ (b ≫= fun x => ltrees (kids x))).
  assert (Hab : (p ∉ a) /\ p ∉ b).
  { rewrite E in Hn. apply NoDup_app in Hn as (_ & H1 & H2). apply NoDup_cons in H2 as [H2 _]. set_solver. }
  destruct Hab as [Ha Hb].
  assert (En : forall g kids, (elems T ≫= fun x => g (kids x : ltree)) =
    (a ≫= fun x => g (kids x)) ++ g (kids p) ++ (b ≫= fun x => g (kids x) : list Z)).
  { intros g kids'. rewrite E, bind_app. done. }
  assert (Hx : forall x, x ∈ elems T -> x <> p -> x ∈ a \/ x ∈ b).
  { intros x. rewrite E, elem_of_app, elem_of_cons. tauto. }
  constructor; cbn [lnodes ltrees].
  - intros kids' Ek. rewrite (En lnodes), !(bind_kids lnodes kids kids' p), E by done. solve_Permutation.
  - intros kids' Ek. rewrite (En ltrees), !(bind_kids ltrees kids kids' p) by done. solve_Permutation.
  - intros x Hi Hne. destruct (Hx x Hi Hne); set_solver.
  - intros x y Hi Hne Hy. rewrite !elem_of_app, !list_elem_of_bind. destruct (Hx x Hi Hne); eauto 10.
  - intros x y Hi Hne Hy. rewrite elem_of_cons, elem_of_app, !list_elem_of_bind. destruct (Hx x Hi Hne); eauto 10.
  - by left.
Qed.

Section own.
Context (node_size tree_size base : Z).

Definition npool_ok (st : lvstate) (U : list Z) : Prop :=
  pool_ok node_size sbs_child (nodes st) (node_pool st) U.
Definition tpool_ok (st : lvstate) (U : list Z) : Prop :=
  pool_ok tree_size (fun t => avl_root (core t)) (trees st) (tree_pool st) U.

(** The node [lv] and the pools, next to the nodes [Un] and the trees [Ut]. *)
Definition own_pre (st : lvstate) (lv : Z) (t : ltree) (Un Ut : list Z) : Prop :=
  lv <> NULL /\ nodes st !! NULL = None /\
  (exists n, nodes st !! lv = Some n /\ sbs_child n = lroot t /\ no_alias n) /\
  NoDup (lv :: lnodes t ++ Un) /\ NoDup (ltrees t ++ Ut) /\
  npool_ok st (lv :: lnodes t ++ Un) /\ tpool_ok st (ltrees t ++ Ut).

(** The variable or node [lv] with the tree [t] under it. *)
Definition own (st : lvstate) (lv : Z) (t : ltree) (Un Ut : list Z) : Prop :=
  own_pre st lv t Un Ut /\ lwf base st lv t.

(** The same for a tree that may be empty. *)
Definition own0 (st : lvstate) (lv q : Z) (T : tree) (kids : Z -> ltree) (Un Ut : list Z) : Prop :=
  own_pre st lv (LT q T kids) Un Ut /\ level base st lv q T kids.

Lemma own_level st lv q T kids Un Ut :
  own st lv (LT q T kids) Un Ut <-> own0 st lv q T kids Un Ut /\ T <> Leaf.
Proof. unfold own, own0. simpl. unfold level. tauto. Qed.

Lemma own_down st lv q T kids Un Ut p R S :
  own st lv (LT q T kids) Un Ut -> p ∈ elems T -> focus q T kids p R S ->
  own st p (kids p) (lv :: R ++ Un) (S ++ Ut).
Proof.
  intros ((Nlv & H0 & _ & Hn & Ht & Hpn & Hpt) & Hw) Hp Hf.
  destruct Hw as ((ts & _ & _ & _ & _ & Hlw) & Hne & Hq & Hk). destruct (Hk p Hp) as [(n & En & Etp & Hna & Ec) Hkid].
  assert (Pn : lv :: lnodes (LT q T kids) ++ Un ≡ₚ p :: lnodes (kids p) ++ lv :: R ++ Un).
  { rewrite (fc_nodes _ _ _ _ _ _ Hf kids) by done. solve_Permutation. }
  assert (Pt : ltrees (LT q T kids) ++ Ut ≡ₚ ltrees (kids p) ++ S ++ Ut).
  { rewrite (fc_trees _ _ _ _ _ _ Hf kids) by done. solve_Permutation. }
  split; [split; [|split; [done|split; [by exists n|split_and!]]]|done].
  - intros ->. destruct Hlw as ((_ & Hr & _) & _). by apply (rep_null_notin _ _ _ Hr).
  - by rewrite <- Pn.
  - by rewrite <- Pt.
  - eapply pool_subset; [|exact Hpn]. intros x. by rewrite Pn.
  - eapply pool_subset; [|exact Hpt]. intros x. by rewrite Pt.
Qed.

Lemma own_up st st' lv q T kids kids' Un Ut p R S :
  own st lv (LT q T kids) Un Ut -> p ∈ elems T -> focus q T kids p R S ->
  (forall x, x <> p -> kids' x = kids x) -> own st' p (kids' p) (lv :: R ++ Un) (S ++ Ut) ->
  (forall x, x ∈ lv :: R ++ Un -> nodes st' !! x = nodes st !! x) ->
  (forall y, y ∈ S ++ Ut -> trees st' !! y = trees st !! y) ->
  tview <$> nodes st' !! p = tview <$> nodes st !! p ->
  own st' lv (LT q T kids') Un Ut.
Proof.
  intros ((Nlv & _ & (n & En & Ec & Hna) & _) & Hw) Hp Hf Ek ((_ & H0 & (np & Enp & Ecp & Hnap) & Hn & Ht & Hpn & Hpt) & Hwp) An At Ap.
  assert (Pn : lv :: lnodes (LT q T kids') ++ Un ≡ₚ p :: lnodes (kids' p) ++ lv :: R ++ Un).
  { rewrite (fc_nodes _ _ _ _ _ _ Hf kids' Ek). solve_Permutation. }
  assert (Pt : ltrees (LT q T kids') ++ Ut ≡ₚ ltrees (kids' p) ++ S ++ Ut).
  { rewrite (fc_trees _ _ _ _ _ _ Hf kids' Ek). solve_Permutation. }
  split; [split; [done|split; [done|split; [exists n; by rewrite An by (by left)|split_and!]]]|].
  - by rewrite Pn.
  - by rewrite Pt.
  - eapply pool_subset; [|exact Hpn]. intros x. by rewrite Pn.
  - eapply pool_subset; [|exact Hpt]. intros x. by rewrite Pt.
  - destruct Hw as ((ts & Ets & Esp & Eb & Elp & Hlw) & Hne & Hq & Hk). split; [|split; [done|split; [done|]]].
    + exists ts. rewrite At by (apply elem_of_app; left; by eapply fc_root). split_and!; [done|done|done|done|].
      eapply lv_wf_same; [|done|exact Hlw]. intros x Hx. destruct (decide (x = p)) as [->|Hxp]; [done|].
      rewrite An; [done|]. right. apply elem_of_app. left. by eapply fc_in.
    + intros x Hx. destruct (Hk x Hx) as [(m & Em & Etp & Hma & Ecm) Hkid].
      destruct (decide (x = p)) as [->|Hxp].
      * split; [|done]. exists np. split_and!; [done| |done|done].
        rewrite Enp, Em in Ap. rewrite <- Etp. change (Some (tview np) = Some (tview m)) in Ap.
        exact (f_equal tree_parent (Some_inj _ _ Ap)).
      * rewrite Ek by done. split.
        { exists m. rewrite An; [done|]. right. apply elem_of_app. left. by eapply fc_in. }
        eapply lwf_frame; [| |done|exact Hkid].
        { intros y Hy. apply An. right. apply elem_of_app. left. by eapply fc_kid. }
        { intros y Hy. apply At. apply elem_of_app. left. by eapply fc_kidt. }
Qed.
End own.

(** * The values of a variable *)

(** The node at a path of subscripts below [lv], with the tree under it. *)
Fixpoint node_at (K : gmap Z lkey) (lv : Z) (t : ltree) (ks : list lkey) {struct ks} : option (Z * ltree) :=
  match ks with
  | [] => Some (lv, t)
  | k :: ks' =>
      match t with
      | LNil => None
      | LT q T kids => p ← dget (entries K (elems T)) k; node_at K p (kids p) ks'
      end
  end.

Definition node_value (h : heap) (p : Z) : option mval :=
  n ← h !! p; if MV_DEFINED (nd_v n) then Some (nd_v n) else None.

(** The value at a path; None where there is none. *)
Definition sem (h : heap) (lv : Z) (t : ltree) (ks : list lkey) : option mval :=
  x ← node_at (keym h) lv t ks; node_value h x.1.

Lemma sem_cons h lv q T kids k ks :
  sem h lv (LT q T kids) (k :: ks) = p ← dget (entries (keym h) (elems T)) k; sem h p (kids p) ks.
Proof. unfold sem. cbn. by destruct (dget _ k). Qed.

Lemma dget_in K l k p : dget (entries K l) k = Some p -> p ∈ l /\ K !! p = Some k.
Proof.
  induction l as [|x l IH]; [done|]. unfold entries. cbn. destruct (K !! x) as [kx|] eqn:E; cbn.
  - destruct (decide (k = kx)) as [->|]; [intros [= ->]; by split; [left|]|].
    intros Hd. destruct (IH Hd). split; [by right|done].
  - intros Hd. destruct (IH Hd). split; [by right|done].
Qed.

(** The key and the value of a node. *)
Definition sview (n : lvTreeNode) : lkey * mval := (node_key n, nd_v n).

Lemma keym_sview h h' p : sview <$> h' !! p = sview <$> h !! p -> keym h' !! p = keym h !! p.
Proof.
  unfold keym, restm. rewrite !lookup_fmap. destruct (h' !! p), (h !! p); cbn; try done.
  intros [= E _]. by rewrite !rest_key, E.
Qed.

Lemma value_sview h h' p : sview <$> h' !! p = sview <$> h !! p -> node_value h' p = node_value h p.
Proof. unfold node_value. destruct (h' !! p), (h !! p); cbn; try done. by intros [= _ ->]. Qed.

Lemma sem_frame h h' lv t ks :
  (forall p, p ∈ lv :: lnodes t -> sview <$> h' !! p = sview <$> h !! p) -> sem h' lv t ks = sem h lv t ks.
Proof.
  revert lv t. induction ks as [|k ks IH]; intros lv t Ha.
  - change (node_value h' lv = node_value h lv). apply value_sview, Ha. by left.
  - destruct t as [|q T kids]; [done|]. rewrite !sem_cons.
    assert (entries (keym h') (elems T) = entries (keym h) (elems T)) as ->.
    { apply entries_ext. intros p Hp. apply keym_sview, Ha. right. by apply own_node. }
    destruct (dget _ k) as [p|] eqn:E; [|done]. cbn. apply dget_in in E as [Hp _]. apply IH.
    intros x [->|Hx]%elem_of_cons; apply Ha; right; [by apply own_node|by eapply kid_nodes].
Qed.

(** The node of a path is in the variable. *)
Lemma node_at_in K lv t ks p s : node_at K lv t ks = Some (p, s) -> p ∈ lv :: lnodes t.
Proof.
  revert lv t. induction ks as [|k ks IH]; intros lv t; [intros [= -> ->]; by left|].
  destruct t as [|q T kids]; [done|]. intros H. cbn in H. destruct (dget _ k) as [x|] eqn:E; [|done]. cbn in H.
  apply dget_in in E as [Hx _]. right. apply IH in H as [->|H]%elem_of_cons; [by apply own_node|by eapply kid_nodes].
Qed.

Lemma kids_disjoint q T kids x y z :
  NoDup (lnodes (LT q T kids)) -> x ∈ elems T -> y ∈ elems T ->
  z ∈ x :: lnodes (kids x) -> z ∈ y :: lnodes (kids y) -> x = y.
Proof.
  intros Hn Hx Hy Hzx Hzy. destruct (decide (x = y)) as [|Hne]; [done|]. exfalso.
  assert (HnT : NoDup (elems T)) by (cbn in Hn; by apply NoDup_app in Hn as [? _]).
  destruct (focus_at q T kids x HnT Hx) as (R & S & HF).
  rewrite (fc_nodes _ _ _ _ _ _ HF kids) in Hn by done. rewrite app_comm_cons in Hn.
  apply NoDup_app in Hn as (_ & Hn & _). apply (Hn z Hzx).
  apply elem_of_cons in Hzy as [->|Hzy]; [by eapply fc_in|by eapply fc_kid].
Qed.

Lemma kid_NoDup q T kids x : NoDup (lnodes (LT q T kids)) -> x ∈ elems T -> NoDup (x :: lnodes (kids x)).
Proof.
  intros Hn Hx. assert (HnT : NoDup (elems T)) by (cbn in Hn; by apply NoDup_app in Hn as [? _]).
  destruct (focus_at q T kids x HnT Hx) as (R & S & HF).
  rewrite (fc_nodes _ _ _ _ _ _ HF kids) in Hn by done. rewrite app_comm_cons in Hn.
  by apply NoDup_app in Hn as (? & _ & _).
Qed.

(** Different paths lead to different nodes. *)
Lemma node_at_inj K lv t ks ks' p s s' :
  NoDup (lv :: lnodes t) -> node_at K lv t ks = Some (p, s) -> node_at K lv t ks' = Some (p, s') -> ks = ks'.
Proof.
  revert lv t ks'. induction ks as [|k ks IH]; intros lv t ks' Hn H1 H2.
  - injection H1 as <- <-. destruct ks' as [|k' ks']; [done|]. exfalso. destruct t as [|q T kids]; [done|].
    cbn in H2. destruct (dget _ k') as [x|] eqn:E; [|done]. cbn in H2. apply node_at_in in H2.
    apply dget_in in E as [Hx _]. apply NoDup_cons in Hn as [Hn _]. apply Hn.
    apply elem_of_cons in H2 as [->|H2]; [by apply own_node|by eapply kid_nodes].
  - destruct t as [|q T kids]; [done|]. cbn in H1. destruct (dget _ k) as [x|] eqn:Ex; [|done]. cbn in H1.
    pose proof (node_at_in _ _ _ _ _ _ H1) as I1. apply dget_in in Ex as [Hx Kx]. apply NoDup_cons in Hn as [Hlv Hn].
    destruct ks' as [|k' ks'].
    { injection H2 as <- <-. exfalso. apply Hlv.
      apply elem_of_cons in I1 as [->|I1]; [by apply own_node|by eapply kid_nodes]. }
    cbn in H2. destruct (dget _ k') as [y|] eqn:Ey; [|done]. cbn in H2.
    pose proof (node_at_in _ _ _ _ _ _ H2) as I2. apply dget_in in Ey as [Hy Ky].
    assert (x = y) as <- by exact (kids_disjoint q T kids x y p Hn Hx Hy I1 I2). assert (k = k') as <- by congruence. f_equal.
    eapply (IH x (kids x)); [by eapply kid_NoDup|done|done].
Qed.

(** ** Assigning a value *)

(** What [lwf] sees of a node, the value apart. *)
Definition wview (n : lvTreeNode) : lvTreeNode * Z := (tview n, sbs_child n).

Lemma wview_tview (h h' : heap) x : wview <$> h' !! x = wview <$> h !! x -> tview <$> h' !! x = tview <$> h !! x.
Proof. destruct (h' !! x), (h !! x); try done.
  intros E. change (Some (wview l) = Some (wview l0)) in E. apply Some_inj in E. cbn. f_equal. exact (f_equal fst E).
Qed.

Lemma wview_node (h h' : heap) x n :
  wview <$> h' !! x = wview <$> h !! x -> h !! x = Some n ->
  exists n', h' !! x = Some n' /\ sbs_child n' = sbs_child n /\ tree_parent n' = tree_parent n.
Proof.
  intros E En. rewrite En in E. destruct (h' !! x) as [n'|]; [|done]. exists n'. split; [done|].
  change (Some (wview n') = Some (wview n)) in E. apply Some_inj in E. split; [exact (f_equal snd E)|].
  exact (f_equal (fun w => tree_parent w.1) E).
Qed.

Lemma lwf_revalue base st st' parent t :
  (forall x, x ∈ lnodes t -> wview <$> nodes st' !! x = wview <$> nodes st !! x) ->
  (forall x n, nodes st' !! x = Some n -> no_alias n \/ nodes st !! x = Some n) ->
  (forall q, q ∈ ltrees t -> trees st' !! q = trees st !! q) ->
  nodes st' !! NULL = None -> lwf base st parent t -> lwf base st' parent t.
Proof.
  revert parent. induction t as [|q T kids IH]; [done|].
  intros parent Hn Hna Ht H0 ((ts & Ets & Ep & Eb & Eq & Hw) & Hne & Hq & Hk). split; [|split; [done|split; [done|]]].
  - exists ts. rewrite Ht by (by left). split_and!; [done|done|done|done|]. eapply lv_wf_same; [|done|exact Hw].
    intros p Hp. apply wview_tview, Hn. by apply own_node.
  - intros p Hp. destruct (Hk p Hp) as [(n & En & Etp & Hna' & Ec) Hkid]. split.
    + destruct (wview_node _ _ _ _ (Hn p (own_node q T kids p Hp)) En) as (n' & En' & Ec' & Et').
      exists n'. rewrite Et', Ec'. split_and!; [done|done| |done]. destruct (Hna p n' En') as [|E]; [done|congruence].
    + apply IH; [|done|by eauto using kid_trees|done|done]. intros x Hx. by eapply Hn, kid_nodes.
Qed.

(** The node at [p] with the value [v]. *)
Definition set_value (v : mval) (p : Z) (st : lvstate) : res lvstate := modify_node (with_value v) p st.

Lemma own_set_value node_size tree_size base st lv t Un Ut p v n :
  own node_size tree_size base st lv t Un Ut -> p ∈ lv :: lnodes t -> nodes st !! p = Some n ->
  has MV_ALIASCONT v = false ->
  own node_size tree_size base (with_nodes (<[p := with_value v n]> (nodes st)) st) lv t Un Ut.
Proof.
  intros [(Nlv & H0 & (m & Em & Ec & Hna) & Hn & Ht & Hpn & Hpt) Hw] Hp En Hv.
  assert (Hp0 : p <> NULL) by (intros ->; congruence).
  split.
  - split; [done|]. split; [cbn; by rewrite lookup_insert_ne|]. split.
    { cbn. destruct (decide (p = lv)) as [->|Hne].
      - rewrite lookup_insert_eq. exists (with_value v n). split; [done|]. split; [|done]. rewrite En in Em.
        injection Em as ->. done.
      - rewrite lookup_insert_ne by done. by exists m. }
    split_and!; [done|done| |done]. unfold npool_ok in *. cbn. eapply pool_agree; [| |exact Hpn].
    + intros x Hx. apply lookup_insert_ne. intros ->. apply Hx. set_solver.
    + intros x Hx. destruct (decide (p = x)) as [->|Hne]; [rewrite lookup_insert_eq; by eexists|].
      rewrite lookup_insert_ne by done. destruct Hpn as (_ & _ & _ & _ & _ & Hd). by apply Hd.
  - eapply lwf_revalue; [| | | |exact Hw]; cbn.
    + intros x _. destruct (decide (p = x)) as [->|Hne]; [by rewrite lookup_insert_eq, En|by rewrite lookup_insert_ne].
    + intros x n' E. destruct (decide (p = x)) as [->|Hne].
      * rewrite lookup_insert_eq in E. injection E as <-. by left.
      * rewrite lookup_insert_ne in E by done. by right.
    + done.
    + by rewrite lookup_insert_ne.
Qed.

(** What is at [ks] afterwards, and nothing else. *)
Lemma sem_set_value h lv t ks p s v n ks' :
  NoDup (lv :: lnodes t) -> node_at (keym h) lv t ks = Some (p, s) -> h !! p = Some n ->
  sem (<[p := with_value v n]> h) lv t ks' =
    if decide (ks' = ks) then (if MV_DEFINED v then Some v else None) else sem h lv t ks'.
Proof.
  intros Hn Hp En.
  assert (EK : keym (<[p := with_value v n]> h) = keym h).
  { unfold keym, restm. rewrite !fmap_insert. apply insert_id. by rewrite !lookup_fmap, En. }
  unfold sem. rewrite EK. destruct (decide (ks' = ks)) as [->|Hne].
  - rewrite Hp. cbn. unfold node_value. by rewrite lookup_insert_eq.
  - destruct (node_at (keym h) lv t ks') as [[x s']|] eqn:E; [|done]. cbn. unfold node_value.
    rewrite lookup_insert_ne; [done|]. intros <-. apply Hne. by eapply node_at_inj.
Qed.

(** ** Values after a change below [p] *)

Lemma tview_sview_key (h h' : heap) x : tview <$> h' !! x = tview <$> h !! x -> keym h' !! x = keym h !! x.
Proof.
  unfold keym, restm. rewrite !lookup_fmap. destruct (h' !! x) as [n'|], (h !! x) as [n|]; try done. intros E.
  change (Some (tview n') = Some (tview n)) in E. apply Some_inj in E. cbn. f_equal. exact (f_equal node_key E).
Qed.

Lemma below_entries_same q T kids p R S lv (h h' : heap) :
  focus q T kids p R S -> (forall x, x ∈ lv :: R -> h' !! x = h !! x) -> tview <$> h' !! p = tview <$> h !! p ->
  entries (keym h') (elems T) = entries (keym h) (elems T).
Proof.
  intros HF Ha Hp. apply entries_ext. intros x Hx. apply tview_sview_key.
  destruct (decide (x = p)) as [->|Hne]; [done|]. rewrite Ha; [done|]. right. by eapply fc_in.
Qed.

Lemma sem_below q T kids p t R S lv (h h' : heap) k ks :
  focus q T kids p R S -> (forall x, x ∈ lv :: R -> h' !! x = h !! x) -> tview <$> h' !! p = tview <$> h !! p ->
  sem h' lv (LT q T (upd kids p t)) (k :: ks) =
    if decide (dget (entries (keym h) (elems T)) k = Some p) then sem h' p t ks else sem h lv (LT q T kids) (k :: ks).
Proof.
  intros HF Ha Hp. rewrite !sem_cons, (below_entries_same q T kids p R S lv h h') by done.
  destruct (dget _ k) as [x|] eqn:E; [|by rewrite decide_False]. cbn.
  destruct (decide (Some x = Some p)) as [[= ->]|Hne]; [by rewrite upd_eq|].
  assert (Hxp : x <> p) by congruence. rewrite upd_ne by done. apply dget_in in E as [Hi _]. apply sem_frame.
  intros y Hy. rewrite Ha; [done|]. right. apply elem_of_cons in Hy as [->|Hy]; [by eapply fc_in|by eapply fc_kid].
Qed.

(** ** The paths of a variable *)

Definition path (h : heap) (lv : Z) (t : ltree) (ks : list lkey) : Prop := is_Some (node_at (keym h) lv t ks).

Lemma path_cons h lv q T kids k ks :
  path h lv (LT q T kids) (k :: ks) <-> exists p, dget (entries (keym h) (elems T)) k = Some p /\ path h p (kids p) ks.
Proof.
  unfold path. cbn. destruct (dget _ k) as [p|]; cbn.
  - split; [intros H; by exists p|]. by intros (? & [= <-] & H).
  - split; [by intros [? ?]|by intros (? & ? & _)].
Qed.

Lemma path_frame h h' lv t ks :
  (forall p, p ∈ lnodes t -> keym h' !! p = keym h !! p) -> path h' lv t ks -> path h lv t ks.
Proof.
  revert lv t. induction ks as [|k ks IH]; intros lv t Ha Hp; [by eexists|].
  destruct t as [|q T kids]; [by destruct Hp|]. apply path_cons in Hp as (p & Ed & Hp). apply path_cons.
  rewrite (entries_ext (keym h)) in Ed by (intros x Hx; by apply Ha, own_node). exists p. split; [done|].
  apply dget_in in Ed as [Hi _]. apply IH; [|done]. intros x Hx. apply Ha. by eapply kid_nodes.
Qed.

Lemma path_value h lv t ks : is_Some (sem h lv t ks) -> path h lv t ks.
Proof. unfold sem, path. destruct (node_at _ lv t ks); [by eexists|]. by intros [? ?]. Qed.

Lemma path_below q T kids p t R S lv (h h' : heap) k ks :
  focus q T kids p R S -> (forall x, x ∈ lv :: R -> h' !! x = h !! x) -> tview <$> h' !! p = tview <$> h !! p ->
  path h' lv (LT q T (upd kids p t)) (k :: ks) ->
    dget (entries (keym h) (elems T)) k = Some p /\ path h' p t ks \/ path h lv (LT q T kids) (k :: ks).
Proof.
  intros HF Ha Hp (x & Ed & Hx)%path_cons. rewrite (below_entries_same q T kids p R S lv h h') in Ed by done.
  destruct (decide (x = p)) as [->|Hne]; [left; by rewrite upd_eq in Hx|right]. rewrite upd_ne in Hx by done.
  apply path_cons. exists x. split; [done|]. apply dget_in in Ed as [Hi _]. eapply path_frame; [|exact Hx].
  intros y Hy. apply keym_sview. rewrite Ha; [done|]. right. by eapply fc_kid.
Qed.

(** Every node has a value, or one below it has: op_kill and the clean-up of a
    failed command see to that. *)
Definition live (h : heap) (lv : Z) (t : ltree) : Prop :=
  forall ks, ks <> [] -> path h lv t ks -> exists ks', is_Some (sem h lv t (ks ++ ks')).

(** The same but for the nodes on the way to [ks]. *)
Definition live_off (ks : list lkey) (h : heap) (lv : Z) (t : ltree) : Prop :=
  forall ks1, ks1 <> [] -> path h lv t ks1 -> ~ ks1 `prefix_of` ks -> exists ks', is_Some (sem h lv t (ks1 ++ ks')).

Lemma live_live_off ks h lv t : live h lv t -> live_off ks h lv t.
Proof. intros H ks1 Hn Hp _. by apply H. Qed.

Lemma live_off_nil h lv t : live_off [] h lv t -> live h lv t.
Proof. intros H ks1 Hn Hp. apply H; [done|done|]. by intros ?%prefix_nil_inv. Qed.

Lemma node_at_app K lv t ks ks' :
  node_at K lv t (ks ++ ks') = x ← node_at K lv t ks; node_at K x.1 x.2 ks'.
Proof.
  revert lv t. induction ks as [|k ks IH]; intros lv t; [done|]. destruct t as [|q T kids]; [done|]. cbn.
  destruct (dget _ k); [apply IH|done].
Qed.

Lemma sem_at h lv t ks ks' p s : node_at (keym h) lv t ks = Some (p, s) -> sem h lv t (ks ++ ks') = sem h p s ks'.
Proof. intros E. unfold sem. rewrite node_at_app, E. done. Qed.

Lemma path_at h lv t ks ks' p s : node_at (keym h) lv t ks = Some (p, s) -> path h lv t (ks ++ ks') <-> path h p s ks'.
Proof. intros E. unfold path. rewrite node_at_app, E. done. Qed.

Lemma path_leaf h lv ks : path h lv LNil ks -> ks = [].
Proof. destruct ks; [done|]. by intros [? ?]. Qed.

(** A tree that is not empty has a subscript. *)
Lemma path_some base st parent q T kids :
  lwf base st parent (LT q T kids) -> exists k, path (nodes st) parent (LT q T kids) [k].
Proof.
  intros ((ts & _ & _ & _ & _ & Hlw) & Hne & _). destruct T as [|l p r]; [done|].
  destruct Hlw as (_ & Hk & Ho & _). destruct (Hk p (addr_in (Node l p r) Hne)) as (n & En & _).
  exists (node_key n). apply path_cons. exists p. split; [|by eexists].
  assert (Kp : keym (nodes st) !! p = Some (node_key n)) by (unfold keym; by rewrite lookup_fmap, En).
  assert (Hm := ordered_at _ [] l p r _ Ho Kp). change (Node l p r) with (plug [] (Node l p r)).
  rewrite (entries_found _ [] l p r (node_key n)) by done. destruct Hm as [Hb _].
  rewrite dget_below by (by apply dbelow_entries). cbn. by rewrite decide_True.
Qed.
