(* ===== verification/Lvset.v ===== *)
(** Reading and setting subscripted variables: op_srchindx, op_getindx and
    op_putindx find and make the node of a path of subscripts, and leave every
    value as it is. *)

From stdpp Require Import base list numbers option tactics gmap sorting.
From Stdlib Require Import ZArith Lia.
From S2P Require Import Prelude Mval Numstr Lvnode Avltree Avlops Lvtree Lvmap Lvframe Lvslot Lvar Lvown.

Open Scope Z_scope.

(** The subscript [k] as the lookups take it. *)
Definition key_of (is_canonical : bool) (key : mval) (k : lkey) : Prop :=
  TREE_KEY_SUBSCR_IS_CANONICAL (mvtype key) = is_canonical /\ mval_key_ok key /\ mval_key key = k.

(** What a lookup keeps of the store. *)
Definition looked (ln lt : list Z) (st st' : lvstate) : Prop :=
  kept (nodes st) (nodes st') /\ same_off ln (nodes st) (nodes st') /\
  (forall y, y ∉ lt -> trees st' !! y = trees st !! y) /\
  node_pool st' = node_pool st /\ tree_pool st' = tree_pool st /\ active_lv st' = active_lv st.

#[global] Instance looked_refl ln lt : Reflexive (looked ln lt).
Proof. intros st. by repeat split. Qed.

Lemma looked_trans ln lt ln' lt' st1 st2 st3 :
  looked ln lt st1 st2 -> looked ln' lt' st2 st3 -> (forall x, x ∈ ln -> x ∈ ln') -> (forall y, y ∈ lt -> y ∈ lt') ->
  looked ln' lt' st1 st3.
Proof.
  intros (K1 & S1 & T1 & N1 & P1 & A1) (K2 & S2 & T2 & N2 & P2 & A2) Hn Ht. split; [by etrans|].
  split; [|split; [|split_and!; congruence]].
  - intros x Hx. rewrite S2, S1; auto.
  - intros y Hy. rewrite T2, T1; auto.
Qed.

Lemma looked_weaken ln lt ln' lt' st1 st2 :
  looked ln lt st1 st2 -> (forall x, x ∈ ln -> x ∈ ln') -> (forall y, y ∈ lt -> y ∈ lt') -> looked ln' lt' st1 st2.
Proof. intros H Hn Ht. by eapply (looked_trans ln lt); [exact H|reflexivity| |]. Qed.

Lemma kept_data h h' p : kept h h' -> (data ∘ rest) <$> h' !! p = (data ∘ rest) <$> h !! p.
Proof.
  intros (_ & _ & E). assert (Ep : datm h' !! p = datm h !! p) by (by rewrite E). unfold datm, restm in Ep.
  rewrite <- !map_fmap_compose, !lookup_fmap in Ep. exact Ep.
Qed.

Lemma kept_node h h' p n :
  kept h h' -> h !! p = Some n ->
  exists n', h' !! p = Some n' /\ nd_v n' = nd_v n /\ sbs_child n' = sbs_child n /\ tree_parent n' = tree_parent n.
Proof.
  intros E%(kept_data _ _ p) En. rewrite En in E. destruct (h' !! p) as [n'|]; [|done].
  cbn in E. injection E as E1 E2 E3 _. by exists n'.
Qed.

Lemma kept_sview h h' p : kept h h' -> sview <$> h' !! p = sview <$> h !! p.
Proof.
  intros E%(kept_data _ _ p). destruct (h' !! p) as [n'|], (h !! p) as [n|]; try done. cbn in E. injection E as E1 _ _ _ _ E6.
  cbn. f_equal. exact (f_equal2 pair E6 E1).
Qed.

Lemma sem_kept h h' lv t ks : kept h h' -> sem h' lv t ks = sem h lv t ks.
Proof. intros K. apply sem_frame. intros p _. by apply kept_sview. Qed.

Section set.
Context (Mn Mt : Malloc) (node_size tree_size : Z) {HMn : MallocOk node_size Mn} {HMt : MallocOk tree_size Mt}
        (blank_tree : Z -> lvts) (SYM : Z) (g : globals) (lv_null_subs : lvnullsubs).

Abbreviation own := (own node_size tree_size).
Abbreviation own0 := (own0 node_size tree_size).
Abbreviation npool_ok := (npool_ok node_size).
Abbreviation tpool_ok := (tpool_ok tree_size).

Lemma lookup_in_eq st lvt c key k :
  key_of c key k ->
  lookup_in st lvt c key =
    (t ← res_of (trees st !! lvt);
     '(h, ct, node, parent) ← lvAvlTreeLookup (nodes st) (core t) key NULL;
     Ok (with_trees (<[lvt := with_core ct t]> (trees st)) (with_nodes h st), node, parent)).
Proof. intros (E & _). unfold lookup_in, lvAvlTreeLookup. by rewrite E. Qed.

(** A tree that a lookup goes through is owned as before. *)
Lemma own0_looked base st st' lv q T kids Un Ut ts c :
  own0 base st lv q T kids Un Ut -> looked (elems T) [q] st st' ->
  trees st !! q = Some ts -> trees st' !! q = Some (with_core c ts) -> lv_wf (nodes st') c T ->
  (exists x mn mx, c = set_clue x mn mx (core ts)) ->
  own0 base st' lv q T kids Un Ut.
Proof.
  intros ((Nlv & H0 & (n & En & Ec & Hna) & Hn & Ht & Hpn & Hpt) & Hw) (K & S & Tt & EN & EP & _) Ets Ets' Hlw Hc.
  assert (HT : forall x, x ∈ elems T -> x ∈ lv :: lnodes (LT q T kids) ++ Un).
  { intros x Hx. right. apply elem_of_app. left. by apply own_node. }
  assert (Hlv : lv ∉ elems T).
  { intros Hx. apply NoDup_cons in Hn as [Hn _]. apply Hn, elem_of_app. left. by apply own_node. }
  assert (Hdom : forall x, is_Some (nodes st !! x) -> is_Some (nodes st' !! x)).
  { intros x [m Em]. destruct (kept_node _ _ _ _ K Em) as (m' & -> & _). by eexists. }
  split; [split; [done|split; [by eapply wf_null|split; [exists n; by rewrite S|split_and!]]]|].
  - done.
  - done.
  - unfold Lvown.npool_ok. rewrite EN. eapply pool_agree; [| |exact Hpn].
    + intros x Hx. apply S. intros Hx'. by apply Hx, HT.
    + intros x Hx. apply Hdom. destruct Hpn as (_ & _ & _ & _ & _ & Hd). by apply Hd.
  - unfold Lvown.tpool_ok. rewrite EP. eapply pool_agree; [| |exact Hpt].
    + intros y Hy. apply Tt. intros ->%list_elem_of_singleton. apply Hy. cbn. by left.
    + intros y Hy. destruct Hpt as (_ & _ & _ & _ & _ & Hd). destruct (decide (y = q)) as [->|Hyq]; [by eexists|].
      rewrite Tt by (by intros ->%list_elem_of_singleton). by apply Hd.
  - destruct Hw as ((ts' & E1 & Esp & Eb & Elp & _) & Hq & Hk). rewrite Ets in E1. injection E1 as <-.
    split; [|split; [done|]].
    + exists (with_core c ts). split; [done|]. split; [done|]. split; [done|]. split; [|done]. destruct Hc as (? & ? & ? & ->). exact Elp.
    + intros p Hp. destruct (Hk p Hp) as [(m & Em & Etp & Hma & Ecm) Hkid]. split.
      * destruct (kept_node _ _ _ _ K Em) as (m' & Em' & E1 & E2 & E3). exists m'. unfold no_alias. rewrite E1, E2, E3. done.
      * cbn in Hn, Ht. rewrite <- app_assoc in Hn. apply NoDup_cons in Hn as [_ Hn]. apply NoDup_app in Hn as (_ & Hn & _).
        apply NoDup_cons in Ht as [Ht _].
        eapply lwf_frame; [| |by eapply wf_null|exact Hkid].
        { intros x Hx. apply S. intros Hx'. apply (Hn x Hx'), elem_of_app. left. apply list_elem_of_bind. by exists p. }
        { intros y Hy. apply Tt. intros ->%list_elem_of_singleton. apply Ht, elem_of_app. left.
          apply list_elem_of_bind. by exists p. }
Qed.

(** One level of a lookup, in a tree that may be empty. *)
Lemma lookup_own0 base st lv q T kids Un Ut c key k :
  own0 base st lv q T kids Un Ut -> key_of c key k ->
  exists st' p par, lookup_in st q c key = Ok (st', p, par) /\ own0 base st' lv q T kids Un Ut /\
    looked (elems T) [q] st st' /\ p = default NULL (dget (entries (keym (nodes st)) (elems T)) k) /\
    (p <> NULL /\ p ∈ elems T /\ found (nodes st') T k p \/
     p = NULL /\ dget (entries (keym (nodes st)) (elems T)) k = None /\
     exists ts, trees st' !! q = Some ts /\ gap (nodes st') (core ts) T k par).
Proof.
  intros Hown Hk. rewrite (lookup_in_eq _ _ _ _ k) by done. assert (Hown' := Hown).
  destruct Hown' as (_ & (ts & Ets & _ & _ & _ & Hlw) & _). rewrite Ets. cbn [res_of mbind res_bind].
  destruct Hk as (_ & Hok & <-).
  destruct (lv_lookup_spec (nodes st) (core ts) T key NULL Hlw Hok) as (h & ct & p & par & E & K & Hc & Hlw' & Ep & Hp).
  pose proof (lookup_frame _ _ _ _ _ _ _ _ _ Hlw Hok E) as S. rewrite E. cbn [mbind res_bind].
  set (st' := with_trees (<[q := with_core ct ts]> (trees st)) (with_nodes h st)).
  assert (Hl : looked (elems T) [q] st st').
  { split; [done|]. split; [done|]. split; [|done]. intros y Hy. cbn. apply lookup_insert_ne. intros ->. apply Hy. by left. }
  assert (Eq' : trees st' !! q = Some (with_core ct ts)) by (cbn; by rewrite lookup_insert_eq).
  exists st', p, par. split; [done|]. split; [by eapply own0_looked|]. split; [done|]. split; [done|].
  destruct Hp as [(Nn & Hf)|(-> & Hd & Hg)].
  - left. split; [done|]. split; [|done]. by apply found_in in Hf as [? _].
  - right. split; [done|]. split; [done|]. by exists (with_core ct ts).
Qed.

Lemma lookup_own base st lv q T kids Un Ut c key k :
  own base st lv (LT q T kids) Un Ut -> key_of c key k ->
  exists st' p par, lookup_in st q c key = Ok (st', p, par) /\ own base st' lv (LT q T kids) Un Ut /\
    looked (elems T) [q] st st' /\ p = default NULL (dget (entries (keym (nodes st)) (elems T)) k) /\
    (p <> NULL /\ p ∈ elems T /\ found (nodes st') T k p \/
     p = NULL /\ dget (entries (keym (nodes st)) (elems T)) k = None).
Proof.
  intros [Hown Hne]%own_level Hk.
  destruct (lookup_own0 base st lv q T kids Un Ut c key k Hown Hk) as (st' & p & par & E & Hown' & Hl & Ep & Hp).
  exists st', p, par. split; [done|]. split; [by apply own_level|]. split; [done|]. split; [done|].
  destruct Hp as [|(? & ? & _)]; [by left|by right].
Qed.

(** The subscripts [keys] as [ks]: every conversion succeeds. *)
Definition keys_of (put : bool) (keys : list mval) (ks : list lkey) : Prop :=
  Forall2 (fun key k => exists c key', subscript g lv_null_subs put key = Ok (c, key') /\ key_of c key' k) keys ks.

(** Every node on the way to the end of the path is found: the directions lead to it. *)
Fixpoint on_path (h : heap) (t : ltree) (ks : list lkey) {struct ks} : Prop :=
  match ks with
  | [] => True
  | k :: ks' =>
      match t with
      | LNil => False
      | LT q T kids => exists p, found h T k p /\ on_path h (kids p) ks'
      end
  end.

Lemma found_same h h' T k p : (forall x, x ∈ elems T -> h' !! x = h !! x) -> found h T k p -> found h' T k p.
Proof. intros Ha Hf. by eapply found_agree. Qed.

Lemma on_path_frame h h' t ks : (forall x, x ∈ lnodes t -> h' !! x = h !! x) -> on_path h t ks -> on_path h' t ks.
Proof.
  revert t. induction ks as [|k ks IH]; intros t Ha; [done|]. destruct t as [|q T kids]; [done|].
  intros (p & Hf & Hp). exists p. split; [eapply found_same; [|exact Hf]; intros x Hx; by apply Ha, own_node|].
  apply IH; [|done]. intros x Hx. apply Ha. apply found_in in Hf as [Hf _]. by eapply kid_nodes.
Qed.

Lemma keys_of_cons put key keys ks :
  keys_of put (key :: keys) ks -> exists k ks' c key', ks = k :: ks' /\
    subscript g lv_null_subs put key = Ok (c, key') /\ key_of c key' k /\ keys_of put keys ks'.
Proof. intros (k & ks' & (c & key' & E & Hk) & H & ->)%Forall2_cons_inv_l. by exists k, ks', c, key'. Qed.

Lemma looked_keym ln lt st st' : looked ln lt st st' -> keym (nodes st') = keym (nodes st).
Proof. intros ((_ & _ & E) & _). by apply keym_datm. Qed.

(** Back up from a lookup below [p]. *)
Lemma looked_up base st1 st2 lv q T kids Un Ut p R S :
  own base st1 lv (LT q T kids) Un Ut -> p ∈ elems T -> focus q T kids p R S ->
  own base st2 p (kids p) (lv :: R ++ Un) (S ++ Ut) -> looked (lnodes (kids p)) (ltrees (kids p)) st1 st2 ->
  own base st2 lv (LT q T kids) Un Ut /\ forall x, x ∈ elems T -> nodes st2 !! x = nodes st1 !! x.
Proof.
  intros Hown Hp HF Hown2 (K & Sn & St & _). assert (H2 := Hown2). destruct H2 as ((_ & _ & _ & Hn & Ht & _) & _).
  apply NoDup_cons in Hn as [Hpn Hn]. apply NoDup_app in Hn as (_ & Hn & _). apply NoDup_app in Ht as (_ & Ht & _).
  assert (Hp' : nodes st2 !! p = nodes st1 !! p).
  { apply Sn. intros Hx. apply Hpn, elem_of_app. by left. }
  split.
  - eapply (own_up node_size tree_size base st1 st2); [done|done|done|done|done| | |by rewrite Hp'].
    + intros x Hx. apply Sn. intros Hx'. by apply (Hn x).
    + intros y Hy. apply St. intros Hy'. by apply (Ht y).
  - intros x Hx. destruct (decide (x = p)) as [->|Hxp]; [done|]. apply Sn. intros Hx'. apply (Hn x Hx').
    right. apply elem_of_app. left. by eapply fc_in.
Qed.

Theorem srchindx_spec base st lv t Un Ut keys ks :
  own base st lv t Un Ut -> keys_of false keys ks ->
  exists st' p, op_srchindx g lv_null_subs st lv keys = Ok (st', p) /\
    own base st' lv t Un Ut /\ looked (lnodes t) (ltrees t) st st' /\
    p = default NULL (fst <$> node_at (keym (nodes st)) lv t ks) /\
    (p <> NULL -> on_path (nodes st') t ks).
Proof.
  revert st lv t Un Ut ks. induction keys as [|key keys IH]; intros st lv t Un Ut ks Hown Hks.
  { apply Forall2_nil_inv_l in Hks as ->. exists st, lv. cbn. split; [done|]. split; [done|]. split; [reflexivity|done]. }
  apply keys_of_cons in Hks as (k & ks' & c & key' & -> & Es & Hk & Hks). assert (Hown' := Hown).
  destruct Hown' as ((Nlv & _ & (n & En & Ec & _) & _) & _). cbn [op_srchindx].
  destruct (Z.eqb_spec lv NULL) as [|_]; [done|]. unfold deref. rewrite En. cbn [res_of mbind res_bind]. rewrite Ec.
  destruct t as [|q T kids].
  { exists st, NULL. cbn. split; [done|]. split; [done|]. split; [reflexivity|done]. }
  assert (Nq : q <> NULL) by (by destruct Hown as (_ & (_ & _ & ? & _))). cbn [lroot].
  destruct (Z.eqb_spec q NULL) as [|_]; [done|]. rewrite Es. cbn [mbind res_bind].
  destruct (lookup_own base st lv q T kids Un Ut c key' k Hown Hk) as (st1 & p & par & -> & Hown1 & Hl1 & Ep & Hp).
  cbn [mbind res_bind node_at].
  assert (Hsub : forall x, x ∈ elems T -> x ∈ lnodes (LT q T kids)) by (intros x; apply own_node).
  destruct Hp as [(Np & Hi & Hf)|(-> & Ed)].
  2: { rewrite Ed. cbn. exists st1, NULL. destruct keys as [|key2 keys].
       - cbn. split; [done|]. split; [done|]. split; [|done]. eapply looked_weaken; [exact Hl1|done|].
         intros y ->%list_elem_of_singleton. by left.
       - cbn. split; [done|]. split; [done|]. split; [|done]. eapply looked_weaken; [exact Hl1|done|].
         intros y ->%list_elem_of_singleton. by left. }
  destruct (dget (entries (keym (nodes st)) (elems T)) k) as [p'|] eqn:Ed; [|done]. cbn in Ep. subst p'. cbn [mbind option_bind].
  assert (HnT : NoDup (elems T)) by (destruct Hown as (_ & ((? & _ & _ & _ & _ & ((_ & _ & ? & _) & _)) & _)); done).
  destruct (focus_at q T kids p HnT Hi) as (R & S & HF).
  pose proof (own_down node_size tree_size base st1 lv q T kids Un Ut p R S Hown1 Hi HF) as Hd.
  destruct (IH st1 p (kids p) _ _ ks' Hd Hks) as (st2 & x & -> & Hown2 & Hl2 & Ex & Hpath).
  destruct (looked_up base st1 st2 lv q T kids Un Ut p R S Hown1 Hi HF Hown2 Hl2) as [Hown' HT].
  exists st2, x. split; [done|]. split; [done|]. split.
  { eapply (looked_trans (lnodes (LT q T kids)) (ltrees (LT q T kids))); [|eapply looked_weaken; [exact Hl2|..]|done|done].
    - eapply looked_weaken; [exact Hl1|done|]. intros y ->%list_elem_of_singleton. by left.
    - intros y. by apply kid_nodes.
    - intros y. by apply kid_trees. }
  rewrite (looked_keym _ _ _ _ Hl1) in Ex. split; [exact Ex|].
  intros Nx. exists p. split; [by eapply found_same|]. by apply Hpath.
Qed.

Lemma own_in base st lv t Un Ut p :
  own base st lv t Un Ut -> p ∈ lv :: lnodes t -> exists n, nodes st !! p = Some n /\ no_alias n.
Proof.
  intros [(_ & _ & (n & En & _ & Hna) & _) Hw] [->|Hp]%elem_of_cons; [by exists n|]. clear n En Hna.
  revert lv Hw Hp. induction t as [|q T kids IH]; intros lv Hw Hp; [by apply not_elem_of_nil in Hp|].
  destruct Hw as (_ & _ & _ & Hk). cbn in Hp. apply elem_of_app in Hp as [Hp|Hp].
  - destruct (Hk p Hp) as [(n & En & _ & Hna & _) _]. by exists n.
  - apply list_elem_of_bind in Hp as (x & Hp & Hx). destruct (Hk x Hx) as [_ Hw]. by eapply IH.
Qed.

(** A reference: the value of the path, or what an undefined variable gives. *)
Lemma getindx_spec base st lv t Un Ut keys ks rtn_get :
  own base st lv t Un Ut -> keys_of false keys ks ->
  exists st', own base st' lv t Un Ut /\ looked (lnodes t) (ltrees t) st st' /\
    op_getindx g lv_null_subs rtn_get st lv keys =
      match sem (nodes st) lv t ks with
      | Some v => Ok (st', Some v)
      | None => if undef_inhibit g || rtn_get then Ok (st', Some literal_null) else Ok (st', None)
      end.
Proof.
  intros Hown Hks. destruct (srchindx_spec base st lv t Un Ut keys ks Hown Hks) as (st' & p & E & Hown' & Hl & Ep & _).
  exists st'. split; [done|]. split; [done|]. unfold op_getindx. rewrite E. cbn [mbind res_bind]. cbv zeta.
  unfold sem. destruct (node_at (keym (nodes st)) lv t ks) as [[x s]|] eqn:Ex; cbn in Ep; subst p; [|done].
  cbn. apply node_at_in in Ex as Hx. destruct (own_in _ _ _ _ _ _ _ Hown Hx) as (n & En & _).
  unfold node_value. rewrite En. cbn.
  destruct (kept_node _ _ _ _ (proj1 Hl) En) as (n' & En' & Ev & _).
  assert (Nx : x <> NULL).
  { intros ->. destruct Hown as [(_ & H0 & _) _]. congruence. }
  destruct (Z.eqb_spec x NULL) as [|_]; [done|]. unfold deref. rewrite En'. cbn. rewrite Ev.
  by destruct (MV_DEFINED (nd_v n)).
Qed.

(** ** A new node *)

Lemma rest_same h h' x n :
  restm h' !! x = restm h !! x -> h !! x = Some n ->
  exists n', h' !! x = Some n' /\ nd_v n' = nd_v n /\ sbs_child n' = sbs_child n /\ tree_parent n' = tree_parent n /\
    sview n' = sview n.
Proof.
  unfold restm. rewrite !lookup_fmap. intros E En. rewrite En in E. destruct (h' !! x) as [n'|]; [|done].
  exists n'. change (Some (rest n') = Some (rest n)) in E. apply Some_inj in E.
  pose proof (f_equal nd_v E) as E1. split; [done|]. split; [exact E1|]. split; [exact (f_equal sbs_child E)|].
  split; [exact (f_equal tree_parent E)|]. exact (f_equal2 pair (f_equal node_key E) E1).
Qed.

(** The slot for a new node, and the insertion of it: on the nodes alone. *)
Lemma new_node_heap st c T key k par U :
  npool_ok st U -> (forall x, x ∈ elems T -> x ∈ U) ->
  lv_wf (nodes st) c T -> mval_key_ok key -> mval_key key = k -> gap (nodes st) c T k par ->
  exists h1 np p h2 c' T' n2,
    lvtreenode_getslot Mn node_size st = Ok (with_npool np (with_nodes h1 st), p) /\
    lvAvlTreeNodeInsert h1 c key par p = Ok (h2, c') /\
    lv_wf h2 c' T' /\ entries (keym h2) (elems T') = dput (entries (keym (nodes st)) (elems T)) k p /\
    elems T' ≡ₚ p :: elems T /\ lvt_ptr c' = lvt_ptr c /\ (p ∉ U) /\ p <> NULL /\
    h2 !! p = Some n2 /\ sbs_child n2 = NULL /\ tree_parent n2 = lvt_ptr c /\
    (forall x, x ∈ elems T -> restm h2 !! x = restm (nodes st) !! x) /\
    (forall x, x ∈ U -> x ∉ elems T -> h2 !! x = nodes st !! x) /\ h2 !! NULL = None /\
    pool_ok node_size sbs_child h2 np (p :: U).
Proof.
  intros Hpool HT Hw Hok Hkk Hg. assert (H0 := wf_null _ _ _ Hw).
  assert (Hd : forall x, x ∈ U -> is_Some (nodes st !! x)) by (destruct Hpool as (_ & _ & _ & _ & _ & ?); done).
  destruct (getslot_spec node_size sbs_child (fun _ => blank_node) lvtreenode_grow lvtreenode_grow_pos
    (nodes st) (node_pool st) U Hpool) as (h1 & np & p & E1 & Np & HpU & [n En] & En0 & Hold & Hpool1).
  assert (Ha : forall x, x ∈ elems T -> h1 !! x = nodes st !! x) by (intros x Hx; by apply Hold, Hd, HT).
  assert (Hw1 : lv_wf h1 c T) by (eapply lv_wf_agree; [exact Ha|by rewrite En0|exact Hw]).
  apply (gap_agree _ h1 T Ha) in Hg. rewrite <- Hkk in Hg.
  assert (HpT : p ∉ elems T) by (intros Hx; by apply HpU, HT).
  destruct (insert_dict h1 c T key par p n Hw1 Hok Hg En Np HpT)
    as (h2 & c' & T' & E2 & Hw2 & Eent & Eel & Eptr & _ & ER).
  pose proof (insert_frame _ _ _ _ _ _ _ _ _ Hw1 Hok Hg En Np HpT E2) as S.
  assert (Ep : restm h2 !! p = Some (rest (init_node c key par n))) by (by rewrite ER, lookup_insert_eq).
  unfold restm in Ep. rewrite lookup_fmap in Ep. destruct (h2 !! p) as [n2|] eqn:En2; [|done].
  change (Some (rest n2) = Some (rest (init_node c key par n))) in Ep. apply Some_inj in Ep.
  exists h1, np, p, h2, c', T', n2. split; [unfold lvtreenode_getslot; by rewrite E1|]. split; [done|]. split; [done|].
  assert (Einit : forall m, sbs_child (init_node c key par m) = NULL /\ tree_parent (init_node c key par m) = lvt_ptr c).
  { intros m. unfold init_node, init_key. cbn.
    destruct (TREE_KEY_SUBSCR_IS_CANONICAL _); [destruct (MVTYPE_IS_INT _)|]; done. }
  destruct (Einit n) as [Ei1 Ei2]. split.
  { rewrite Eent, Hkk. f_equal. apply agree_entries with (T := T); [done|]. done. }
  split; [done|]. split; [done|]. split; [done|]. split; [done|]. split; [done|].
  split; [pose proof (f_equal sbs_child Ep) as E; rewrite <- Ei1; exact E|].
  split; [pose proof (f_equal tree_parent Ep) as E; rewrite <- Ei2; exact E|].
  split; [|split; [|split]].
  - intros x Hx. rewrite ER, lookup_insert_ne by (intros ->; done). unfold restm. by rewrite !lookup_fmap, Ha.
  - intros x Hx Hxt. rewrite S; [by apply Hold, Hd|]. intros [->|?]%elem_of_cons; done.
  - by eapply wf_null.
  - eapply pool_agree; [| |exact Hpool1].
    + intros x Hx. apply S. intros [->|Hx']%elem_of_cons; apply Hx; [by left|right; by apply HT].
    + intros x [->|Hx]%elem_of_cons; [by eexists|]. destruct (decide (x ∈ elems T)) as [Hxt|Hxt].
      * assert (Er : restm h2 !! x = restm h1 !! x) by (rewrite ER, lookup_insert_ne by (intros ->; done); done).
        destruct (Hd x Hx) as [m Em]. rewrite <- Ha in Em by done.
        destruct (rest_same _ _ _ _ Er Em) as (m' & -> & _). by eexists.
      * rewrite S, Hold by (first [by apply Hd|intros [->|?]%elem_of_cons; done]). by apply Hd.
Qed.

Lemma new_nodes q T T' kids p :
  elems T' ≡ₚ p :: elems T -> p ∉ elems T ->
  lnodes (LT q T' (upd kids p LNil)) ≡ₚ p :: lnodes (LT q T kids) /\
  ltrees (LT q T' (upd kids p LNil)) ≡ₚ ltrees (LT q T kids).
Proof.
  intros E Hp. cbn [lnodes ltrees].
  assert (Eb : forall gg : ltree -> list Z, gg LNil = [] ->
    (elems T' ≫= fun x => gg (upd kids p LNil x)) ≡ₚ (elems T ≫= fun x => gg (kids x))).
  { intros gg Eg. rewrite E. cbn. rewrite upd_eq, Eg. cbn.
    rewrite (bind_kids gg kids (upd kids p LNil) p); [done|done|]. intros x Hx. by apply upd_ne. }
  rewrite (Eb lnodes), (Eb ltrees), E by done. done.
Qed.

Definition put_node (st : lvstate) (q : Z) (key : mval) (par : Z) : res (lvstate * Z) :=
  '(st, lv) ← insert_in Mn node_size st q key par;
  st ← modify_node (fun n => with_value (set_mvtype 0 (nd_v n)) n) lv st;
  Ok (set_active lv st, lv).

Lemma new_node_own base st lv q T kids Un Ut ts key k par :
  own0 base st lv q T kids Un Ut -> mval_key_ok key -> mval_key key = k ->
  trees st !! q = Some ts -> gap (nodes st) (core ts) T k par ->
  exists st' p T', put_node st q key par = Ok (st', p) /\
    own base st' lv (LT q T' (upd kids p LNil)) Un Ut /\
    entries (keym (nodes st')) (elems T') = dput (entries (keym (nodes st)) (elems T)) k p /\
    p ∈ elems T' /\ (p ∉ lnodes (LT q T kids)) /\ node_value (nodes st') p = None /\
    (forall x, x ∈ lv :: Un -> nodes st' !! x = nodes st !! x) /\
    (forall y, y ∈ Ut -> trees st' !! y = trees st !! y) /\
    (forall x, x ∈ lnodes (LT q T kids) -> sview <$> nodes st' !! x = sview <$> nodes st !! x).
Proof.
  intros [(Nlv & H0 & (n & En & Ec & Hna) & Hn & Ht & Hpn & Hpt) Hlev] Hok Hkk Ets Hg.
  destruct Hlev as ((ts' & E1 & Esp & Eb & Elp & Hw) & Nq & Hk). rewrite Ets in E1. injection E1 as <-.
  set (U := lv :: lnodes (LT q T kids) ++ Un) in *.
  assert (HlvT : lv ∉ elems T).
  { apply NoDup_cons in Hn as [Hn _]. intros Hx. apply Hn, elem_of_app. left. by apply own_node. }
  assert (HT : forall x, x ∈ elems T -> x ∈ U).
  { intros x Hx. right. apply elem_of_app. left. by apply own_node. }
  destruct (new_node_heap st (core ts) T key k par U Hpn HT Hw Hok Hkk Hg)
    as (h1 & np & p & h2 & c' & T' & n2 & Eg & Ei & Hw2 & Eent & Eel & Eptr & HpU & Np & En2 & Ech & Etp & Srest & Ssame & H02 & Hpool).
  assert (HpT : p ∉ elems T) by (intros Hx; by apply HpU, HT).
  set (h3 := <[p := with_value (set_mvtype 0 (nd_v n2)) n2]> h2).
  set (st' := mk_lvs h3 (<[q := with_core c' ts]> (trees st)) np (tree_pool st) p).
  assert (E : put_node st q key par = Ok (st', p)).
  { unfold put_node, insert_in. rewrite Ets. cbn [res_of mbind res_bind]. rewrite Eg. cbn [mbind res_bind].
    change (nodes (with_npool np (with_nodes h1 st))) with h1. rewrite Ei. cbn [mbind res_bind].
    unfold modify_node, modify, deref. cbn [nodes with_trees with_nodes]. rewrite En2. done. }
  assert (HpL : p ∉ lnodes (LT q T kids)).
  { intros Hx. apply HpU. right. apply elem_of_app. by left. }
  assert (S3 : forall x, x ∈ U -> x ∉ elems T -> h3 !! x = nodes st !! x).
  { intros x Hx Hxt. unfold h3. rewrite lookup_insert_ne by (intros ->; done). by apply Ssame. }
  assert (R3 : forall x, x ∈ elems T -> restm h3 !! x = restm (nodes st) !! x).
  { intros x Hx. rewrite <- Srest by done. unfold restm, h3. rewrite !lookup_fmap.
    by rewrite lookup_insert_ne by (intros ->; done). }
  assert (HkT : forall x y, x ∈ elems T -> y ∈ lnodes (kids x) -> y ∈ U /\ y ∉ elems T).
  { intros x y Hx Hy. split; [right; apply elem_of_app; left; by eapply kid_nodes|].
    apply NoDup_cons in Hn as [_ Hn]. cbn in Hn. rewrite <- app_assoc in Hn. apply NoDup_app in Hn as (_ & Hn & _).
    intros Hy'. apply (Hn y Hy'), elem_of_app. left. apply list_elem_of_bind. by exists x. }
  assert (HkT' : forall x y, x ∈ elems T -> y ∈ ltrees (kids x) -> y <> q).
  { intros x y Hx Hy ->. cbn in Ht. apply NoDup_cons in Ht as [Ht _]. apply Ht, elem_of_app. left.
    apply list_elem_of_bind. by exists x. }
  destruct (new_nodes q T T' kids p Eel HpT) as [Pn Pt].
  assert (H03 : h3 !! NULL = None) by (unfold h3; by rewrite lookup_insert_ne).
  exists st', p, T'. split; [exact E|]. split; [split|split_and!].
  - assert (PU : lv :: lnodes (LT q T' (upd kids p LNil)) ++ Un ≡ₚ p :: U) by (rewrite Pn; unfold U; solve_Permutation).
    split; [done|]. split; [done|]. split; [exists n; rewrite S3; [done|by left|done]|].
    split; [rewrite PU; by constructor|]. split; [by rewrite Pt|]. split.
    + unfold Lvown.npool_ok, st'. cbn [nodes node_pool].
      eapply pool_subset; [|eapply (pool_agree _ _ h2); [| |exact Hpool]].
      * intros x. by rewrite PU.
      * intros x Hx. unfold h3. apply lookup_insert_ne. intros ->. apply Hx. by left.
      * intros x Hx. unfold h3. destruct (decide (p = x)) as [->|Hne]; [rewrite lookup_insert_eq; by eexists|].
        rewrite lookup_insert_ne by done. destruct Hpool as (_ & _ & _ & _ & _ & Hd). by apply Hd.
    + unfold Lvown.tpool_ok, st'. cbn [trees tree_pool].
      eapply pool_subset; [|eapply pool_agree; [| |exact Hpt]].
      * intros y. by rewrite Pt.
      * intros y Hy. apply lookup_insert_ne. intros ->. apply Hy. cbn. by left.
      * intros y Hy. destruct (decide (q = y)) as [->|Hne]; [rewrite lookup_insert_eq; by eexists|].
        rewrite lookup_insert_ne by done. destruct Hpt as (_ & _ & _ & _ & _ & Hd). by apply Hd.
  - split; [|split; [|split; [done|]]].
    + exists (with_core c' ts). unfold st'. cbn [trees]. rewrite lookup_insert_eq. split; [done|]. split; [done|]. split; [done|].
      split; [cbn; by rewrite Eptr|]. cbn [core with_core nodes]. eapply lv_wf_same; [|done|exact Hw2].
      intros x _. unfold h3. destruct (decide (p = x)) as [->|Hne]; [by rewrite lookup_insert_eq, En2|by rewrite lookup_insert_ne].
    + intros ->. cbn in Eel. by apply Permutation_nil_cons in Eel.
    + intros x Hx. rewrite Eel, elem_of_cons in Hx. destruct (decide (x = p)) as [->|Hxp].
      * rewrite upd_eq. split; [|done]. eexists. unfold st', h3. cbn [nodes]. rewrite lookup_insert_eq. split; [done|].
        split; [by rewrite <- Elp|]. by split.
      * destruct Hx as [->|Hx]; [done|]. rewrite upd_ne by done. destruct (Hk x Hx) as [(m & Em & Etm & Hma & Ecm) Hkid]. split.
        { destruct (rest_same _ _ _ _ (R3 x Hx) Em) as (m' & Em' & E1 & E2 & E3 & _). exists m'.
          unfold no_alias. by rewrite E1, E2, E3. }
        eapply lwf_frame; [| |done|exact Hkid].
        { intros y Hy. destruct (HkT x y Hx Hy) as [Hy1 Hy2]. by apply S3. }
        { intros y Hy. apply lookup_insert_ne. intros <-. by eapply HkT'. }
  - rewrite <- Eent. unfold st'. cbn [nodes]. f_equal. unfold h3, keym, restm. rewrite !fmap_insert.
    apply insert_id. by rewrite !lookup_fmap, En2.
  - rewrite Eel. by left.
  - done.
  - unfold node_value, st', h3. cbn [nodes]. by rewrite lookup_insert_eq.
  - intros x [->|Hx]%elem_of_cons; [by apply S3; [left|]|]. apply S3.
    + right. apply elem_of_app. by right.
    + intros Hx'. apply NoDup_cons in Hn as [_ Hn]. apply NoDup_app in Hn as (_ & Hn & _).
      apply (Hn x); [by apply own_node|done].
  - intros y Hy. apply lookup_insert_ne. intros <-. cbn in Ht. apply NoDup_cons in Ht as [Ht _]. apply Ht, elem_of_app. by right.
  - intros x Hx. unfold st'. cbn [nodes]. destruct (decide (x ∈ elems T)) as [Hxt|Hxt].
    + destruct (Hk x Hxt) as [(m & Em & _) _]. destruct (rest_same _ _ _ _ (R3 x Hxt) Em) as (m' & Em' & _ & _ & _ & Es).
      rewrite Em', Em. cbn. by rewrite Es.
    + rewrite S3; [done|right; apply elem_of_app; by left|done].
Qed.

Lemma new_node_sem h h' lv q T T' kids k p ks :
  dsorted (entries (keym h) (elems T)) -> dget (entries (keym h) (elems T)) k = None ->
  entries (keym h') (elems T') = dput (entries (keym h) (elems T)) k p ->
  p ∉ elems T -> node_value h' p = None -> h' !! lv = h !! lv ->
  (forall x, x ∈ lnodes (LT q T kids) -> sview <$> h' !! x = sview <$> h !! x) ->
  sem h' lv (LT q T' (upd kids p LNil)) ks = sem h lv (LT q T kids) ks.
Proof.
  intros Hs Hd He HpT Hv Hlv Hx. destruct ks as [|k' ks].
  { change (node_value h' lv = node_value h lv). unfold node_value. by rewrite Hlv. }
  rewrite !sem_cons, He, dget_dput by done. destruct (decide (k' = k)) as [->|Hk].
  - rewrite Hd. cbn. rewrite upd_eq. destruct ks as [|k2 ks]; [|done]. by change (node_value h' p = None).
  - destruct (dget _ k') as [x|] eqn:E; [|done]. cbn. apply dget_in in E as [Hi _].
    rewrite upd_ne by (intros ->; done). apply sem_frame.
    intros y [->|Hy]%elem_of_cons; apply Hx; [by apply own_node|by eapply kid_nodes].
Qed.

Lemma new_node_path h h' lv q T T' kids k p ks :
  dsorted (entries (keym h) (elems T)) -> dget (entries (keym h) (elems T)) k = None ->
  entries (keym h') (elems T') = dput (entries (keym h) (elems T)) k p ->
  (forall x, x ∈ lnodes (LT q T kids) -> keym h' !! x = keym h !! x) ->
  path h' lv (LT q T' (upd kids p LNil)) ks -> ks `prefix_of` [k] \/ path h lv (LT q T kids) ks.
Proof.
  intros Hs Hd He Hx. destruct ks as [|k' ks]; [left; apply prefix_nil|]. intros (x & Ed & Hp)%path_cons.
  rewrite He, dget_dput in Ed by done. destruct (decide (k' = k)) as [->|Hk].
  - injection Ed as ->. rewrite upd_eq in Hp. destruct ks as [|k2 ks]; [left; done|]. by destruct Hp.
  - right. apply path_cons. exists x. split; [done|]. apply dget_in in Ed as [Hi _].
    destruct (decide (x = p)) as [->|Hne]; [rewrite upd_eq in Hp; destruct ks; [by eexists|by destruct Hp]|].
    rewrite upd_ne in Hp by done. eapply path_frame; [|exact Hp]. intros y Hy. apply Hx. by eapply kid_nodes.
Qed.

(** One level of op_putindx: the node of the subscript, found or made. *)
Lemma put_level base st lv q T kids Un Ut c key k :
  own0 base st lv q T kids Un Ut -> key_of c key k ->
  exists st' p T' kids',
    ('(st, lv, parent) ← lookup_in st q c key;
     (if lv =? NULL then put_node st q key parent else Ok (st, lv))) = Ok (st', p) /\
    own base st' lv (LT q T' kids') Un Ut /\ p ∈ elems T' /\
    dget (entries (keym (nodes st')) (elems T')) k = Some p /\
    (forall ks, sem (nodes st') lv (LT q T' kids') ks = sem (nodes st) lv (LT q T kids) ks) /\
    (forall ks, path (nodes st') lv (LT q T' kids') ks -> ks `prefix_of` [k] \/ path (nodes st) lv (LT q T kids) ks) /\
    (forall x, x ∈ lv :: Un -> nodes st' !! x = nodes st !! x) /\
    (forall y, y ∈ Ut -> trees st' !! y = trees st !! y).
Proof.
  intros Hown Hk. destruct (lookup_own0 base st lv q T kids Un Ut c key k Hown Hk)
    as (st1 & p & par & -> & Hown1 & Hl & Ep & Hp). cbn [mbind res_bind].
  assert (H1 := Hown1). destruct H1 as [(_ & _ & _ & Hn & Ht & _) ((ts1 & Ets1 & _ & _ & _ & Hw1) & Nq & _)].
  assert (EK : keym (nodes st1) = keym (nodes st)) by (by eapply looked_keym).
  destruct Hl as (K & S & St & _).
  assert (Hlow : forall x, x ∈ lv :: Un -> nodes st1 !! x = nodes st !! x).
  { intros x Hx. apply S. intros Hx'. apply NoDup_cons in Hn as [Hlv Hn]. apply NoDup_app in Hn as (_ & Hn & _).
    apply elem_of_cons in Hx as [->|Hx].
    - apply Hlv, elem_of_app. left. by apply own_node.
    - apply (Hn x); [by apply own_node|done]. }
  assert (Hlowt : forall y, y ∈ Ut -> trees st1 !! y = trees st !! y).
  { intros y Hy. apply St. intros ->%list_elem_of_singleton. cbn in Ht. apply NoDup_cons in Ht as [Ht _].
    apply Ht, elem_of_app. by right. }
  destruct Hp as [(Np & Hi & _)|(-> & Hd & ts & Ets & Hg)].
  - destruct (Z.eqb_spec p NULL) as [|_]; [done|]. exists st1, p, T, kids. split; [done|].
    split; [apply own_level; split; [done|]; intros ->; by apply not_elem_of_nil in Hi|]. split; [done|].
    split; [rewrite EK; destruct (dget _ k); cbn in Ep; congruence|]. split; [intros ks; by apply sem_kept|].
    split; [intros ks; unfold path; rewrite EK; by right|]. by split.
  - rewrite Z.eqb_refl. destruct Hk as (_ & Hok & Hkk).
    destruct (new_node_own base st1 lv q T kids Un Ut ts key k par Hown1 Hok Hkk Ets Hg)
      as (st2 & p & T' & -> & Hown2 & Hent & Hpi & HpL & Hv & Hlow2 & Hlowt2 & Hsv).
    exists st2, p, T', (upd kids p LNil). split; [done|]. split; [done|]. split; [done|].
    assert (Hs : dsorted (entries (keym (nodes st1)) (elems T))) by (apply (lv_rep_sorted (nodes st1) (core ts1)); by exists T).
    split; [rewrite Hent, dget_dput by done; by rewrite decide_True|]. split; [|split; [|split]].
    + intros ks. rewrite <- (sem_kept (nodes st) (nodes st1)) by done.
      eapply new_node_sem; [done|by rewrite EK|done| |done| |done].
      * intros Hx. by apply HpL, own_node.
      * apply Hlow2. by left.
    + intros ks Hks. assert (ks `prefix_of` [k] \/ path (nodes st1) lv (LT q T kids) ks) as [|Hk]; [|by left|right].
      { eapply new_node_path; [exact Hs|by rewrite EK|exact Hent| |exact Hks]. intros x Hx. by apply keym_sview, Hsv. }
      unfold path. rewrite <- EK. exact Hk.
    + intros x Hx. by rewrite Hlow2, Hlow.
    + intros y Hy. by rewrite Hlowt2, Hlowt.
Qed.

(** ** A new tree *)

Lemma create_spec base st lv Un Ut depth :
  own base st lv LNil Un Ut ->
  exists st' q, lv_tree_create Mt tree_size blank_tree st lv depth base = Ok (st', q) /\
    own0 base st' lv q Leaf (fun _ => LNil) Un Ut /\
    (forall x, x <> lv -> nodes st' !! x = nodes st !! x) /\
    (forall y, y ∈ Ut -> trees st' !! y = trees st !! y) /\
    sview <$> nodes st' !! lv = sview <$> nodes st !! lv /\ tview <$> nodes st' !! lv = tview <$> nodes st !! lv.
Proof.
  intros [(Nlv & H0 & (n & En & Ec & Hna) & Hn & Ht & Hpn & Hpt) _]. cbn [lnodes ltrees app] in *.
  destruct (getslot_spec tree_size (fun t => avl_root (core t)) blank_tree lvtree_grow lvtree_grow_pos
    (trees st) (tree_pool st) Ut Hpt) as (t1 & tp & q & E & Nq & Hq & [ts Ets] & _ & Hold & Hpool).
  set (ts' := mk_lvts (LV_TREE_CREATE q (lastNodeMin (core ts)) (lastNodeMax (core ts))) depth base lv).
  set (h' := <[lv := with_child q n]> (nodes st)).
  set (st' := mk_lvs h' (<[q := ts']> t1) (node_pool st) tp (active_lv st)).
  assert (H0' : h' !! NULL = None) by (unfold h'; by rewrite lookup_insert_ne).
  assert (Hlv : h' !! lv = Some (with_child q n)) by apply lookup_insert_eq.
  exists st', q. split; [|split; [split; [split_and!|split_and!]|split_and!]]; try done.
  - unfold lv_tree_create, lvtree_getslot. rewrite E. cbn [mbind res_bind trees with_tpool with_trees]. rewrite Ets.
    cbn [res_of mbind res_bind]. unfold modify_node, modify, deref. cbn [nodes with_trees with_tpool]. by rewrite En.
  - by exists (with_child q n).
  - by constructor.
  - eapply pool_agree; [| |exact Hpn].
    + intros x Hx. apply lookup_insert_ne. intros ->. apply Hx. by left.
    + intros x Hx. destruct (decide (lv = x)) as [->|Hne]; [by eexists|]. unfold st', h'. cbn [nodes].
      rewrite lookup_insert_ne by done. destruct Hpn as (_ & _ & _ & _ & _ & Hd). by apply Hd.
  - eapply pool_agree; [| |exact Hpool].
    + intros y Hy. apply lookup_insert_ne. intros ->. apply Hy. by left.
    + intros y Hy. unfold st'. cbn [trees]. destruct (decide (q = y)) as [->|Hne]; [rewrite lookup_insert_eq; by eexists|].
      rewrite lookup_insert_ne by done. apply elem_of_cons in Hy as [->|Hy]; [done|].
      destruct Hpt as (_ & _ & _ & _ & _ & Hd). rewrite Hold; by apply Hd.
  - exists ts'. unfold st'. cbn [trees]. rewrite lookup_insert_eq. split; [done|]. split; [done|]. split; [done|].
    split; [done|]. split; [|split; [|split]].
    + cbn [nodes]. split; [unfold linkm; by rewrite lookup_fmap, H0'|]. split; [done|]. split; [constructor|]. done.
    + intros p Hp. by apply not_elem_of_nil in Hp.
    + constructor.
    + by left.
  - intros p Hp. by apply not_elem_of_nil in Hp.
  - intros x Hx. apply lookup_insert_ne. congruence.
  - intros y Hy. unfold st'. cbn [trees]. rewrite lookup_insert_ne by (intros ->; done).
    destruct Hpt as (_ & _ & _ & _ & _ & Hd). by apply Hold, Hd.
  - unfold st'. cbn [nodes]. by rewrite Hlv, En.
  - unfold st'. cbn [nodes]. by rewrite Hlv, En.
Qed.

(** The tree under [lv], made when there is none. *)
Lemma child_spec base st lv t Un Ut depth :
  own base st lv t Un Ut ->
  exists st' q T kids,
    (n ← deref (nodes st) lv;
     if negb (sbs_child n =? NULL) then Ok (st, sbs_child n)
     else lv_tree_create Mt tree_size blank_tree st lv depth base) = Ok (st', q) /\
    own0 base st' lv q T kids Un Ut /\
    (forall ks, sem (nodes st') lv (LT q T kids) ks = sem (nodes st) lv t ks) /\
    (forall ks, path (nodes st') lv (LT q T kids) ks -> path (nodes st) lv t ks) /\
    (forall x, x ∈ Un -> nodes st' !! x = nodes st !! x) /\
    (forall y, y ∈ Ut -> trees st' !! y = trees st !! y) /\
    tview <$> nodes st' !! lv = tview <$> nodes st !! lv.
Proof.
  intros Hown. assert (Hown' := Hown). destruct Hown' as [(_ & _ & (n & En & Ec & _) & Hn & _) _].
  unfold deref. rewrite En. cbn [res_of mbind res_bind]. rewrite Ec. destruct t as [|q T kids].
  - rewrite Z.eqb_refl. cbn [negb lroot]. destruct (create_spec base st lv Un Ut depth Hown)
      as (st' & q & -> & Hown0 & Hx & Hy & Hs & Hv).
    exists st', q, Leaf, (fun _ => LNil). split; [done|]. split; [done|]. split; [|split; [|split; [|split; [done|by rewrite Hv, En]]]].
    + intros [|k ks]; [|done]. change (node_value (nodes st') lv = node_value (nodes st) lv). by apply value_sview.
    + intros [|k ks]; [by eexists|]. by intros (p & ? & _)%path_cons.
    + intros x Hi. apply Hx. intros ->. apply NoDup_cons in Hn as [Hn _]. done.
  - apply own_level in Hown as [Hown Hne]. assert (H1 := Hown). destruct H1 as [_ (_ & Nq & _)]. cbn [lroot].
    destruct (Z.eqb_spec q NULL) as [|_]; [done|]. exists st, q, T, kids. split; [done|]. split; [done|].
    repeat (split; [done|]). by rewrite En.
Qed.

(** A path of subscripts is found or made, and no value changes. *)
Lemma put_loop_spec base keys st lv t Un Ut ks depth :
  own base st lv t Un Ut -> keys_of true keys ks ->
  exists st' p t' s,
    put_loop Mn Mt node_size tree_size blank_tree g lv_null_subs st lv keys depth base = Ok (st', p) /\
    own base st' lv t' Un Ut /\ node_at (keym (nodes st')) lv t' ks = Some (p, s) /\
    (forall ks', sem (nodes st') lv t' ks' = sem (nodes st) lv t ks') /\
    (forall ks', path (nodes st') lv t' ks' -> ks' `prefix_of` ks \/ path (nodes st) lv t ks') /\
    (forall x, x ∈ Un -> nodes st' !! x = nodes st !! x) /\
    (forall y, y ∈ Ut -> trees st' !! y = trees st !! y) /\
    tview <$> nodes st' !! lv = tview <$> nodes st !! lv.
Proof.
  revert st lv t Un Ut ks depth. induction keys as [|key keys IH]; intros st lv t Un Ut ks depth Hown Hks.
  { apply Forall2_nil_inv_l in Hks as ->. exists st, lv, t, t. repeat (split; [done|]). split; [by right|done]. }
  apply keys_of_cons in Hks as (k & ks' & c & key' & -> & Es & Hk & Hks). cbn [put_loop]. rewrite Es. cbn [mbind res_bind].
  destruct (child_spec base st lv t Un Ut depth Hown) as (st1 & q & T & kids & E1 & Hown1 & Hs1 & Hp1 & Hx1 & Hy1 & Hv1).
  apply res_bind_inv in E1 as (n & -> & E1). cbn [mbind res_bind]. rewrite E1. cbn [mbind res_bind].
  destruct (put_level base st1 lv q T kids Un Ut c key' k Hown1 Hk)
    as (st2 & p & T2 & kids2 & E2 & Hown2 & Hp & Hd & Hs2 & Hp2 & Hx2 & Hy2).
  apply res_bind_inv in E2 as ([[st1' p1] par] & -> & E2). cbn [mbind res_bind].
  change (if p1 =? NULL then _ else _) with (if p1 =? NULL then put_node st1' q key' par else Ok (st1', p1)).
  rewrite E2. cbn [mbind res_bind].
  assert (HnT : NoDup (elems T2)) by (destruct Hown2 as (_ & ((? & _ & _ & _ & _ & ((_ & _ & ? & _) & _)) & _)); done).
  destruct (focus_at q T2 kids2 p HnT Hp) as (R & S & HF).
  pose proof (own_down node_size tree_size base st2 lv q T2 kids2 Un Ut p R S Hown2 Hp HF) as Hd2.
  destruct (IH st2 p (kids2 p) _ _ ks' (depth + 1) Hd2 Hks)
    as (st3 & x & t3 & s & E3 & Hown3 & Hat & Hs3 & Hp3 & Hx3 & Hy3 & Hv3).
  assert (HxR : forall y, y ∈ lv :: R -> nodes st3 !! y = nodes st2 !! y).
  { intros y Hy. apply Hx3. rewrite app_comm_cons. apply elem_of_app. by left. }
  exists st3, x, (LT q T2 (upd kids2 p t3)), s. split; [exact E3|]. split; [|split; [|split; [|split; [|split; [|split]]]]].
  - eapply (own_up node_size tree_size base st2 st3); [done|done|done| |by rewrite upd_eq|done|done|done].
    intros z Hz. by apply upd_ne.
  - cbn. rewrite (below_entries_same q T2 kids2 p R S lv (nodes st2) (nodes st3) HF HxR Hv3), Hd. cbn. by rewrite upd_eq.
  - intros [|k' ks2].
    + rewrite <- Hs1, <- Hs2. change (node_value (nodes st3) lv = node_value (nodes st2) lv). unfold node_value.
      by rewrite HxR by (by left).
    + rewrite (sem_below q T2 kids2 p t3 R S lv (nodes st2) (nodes st3)), <- Hs1, <- Hs2 by done.
      destruct (decide _) as [E|]; [|done]. by rewrite Hs3, sem_cons, E.
  - intros [|k' ks2]; [left; apply prefix_nil|].
    intros [[Ed Hq]|Hq]%(path_below q T2 kids2 p t3 R S lv (nodes st2) (nodes st3) k' ks2 HF HxR Hv3).
    + assert (k' = k) as -> by (apply dget_in in Ed as [_ Ed], Hd as [_ Hd]; congruence).
      destruct (Hp3 _ Hq) as [Hl|Hl]; [left; by apply prefix_cons|].
      destruct (Hp2 (k :: ks2)) as [Hl2|Hl2]; [apply path_cons; by exists p| |right; by apply Hp1].
      left. apply prefix_cons_inv_2, prefix_nil_inv in Hl2 as ->. apply prefix_cons, prefix_nil.
    + destruct (Hp2 _ Hq) as [Hl|Hl]; [left|right; by apply Hp1].
      etrans; [exact Hl|]. apply prefix_cons, prefix_nil.
  - intros y Hy. rewrite Hx3, Hx2, Hx1; [done|done|by right|right; apply elem_of_app; by right].
  - intros y Hy. rewrite Hy3, Hy2, Hy1; [done|done|done|apply elem_of_app; by right].
  - rewrite HxR by (by left). rewrite Hx2 by (by left). done.
Qed.

(** Where op_putindx starts: the base variable itself, or a node of its trees. *)
Definition start_of (st : lvstate) (start base : Z) : Prop :=
  exists n, nodes st !! start = Some n /\
    if tree_parent n =? SYM then start = base
    else exists ts, trees st !! tree_parent n = Some ts /\ base_lv ts = base.

Lemma own_with_active base st lv t Un Ut x : own base st lv t Un Ut -> own base (set_active x st) lv t Un Ut.
Proof.
  intros [Hp Hw]. split; [exact Hp|]. by eapply (lwf_revalue base st); [done|by right|done|by destruct Hp as (_ & ? & _)|].
Qed.

(** The node of the subscripts is there afterwards, and every value is what it was. *)
Lemma putindx_spec base st start t Un Ut keys ks :
  own base st start t Un Ut -> start_of st start base -> keys_of true keys ks ->
  exists st' p t' s,
    op_putindx Mn Mt node_size tree_size blank_tree SYM g lv_null_subs st start keys = Ok (st', p) /\
    own base st' start t' Un Ut /\ node_at (keym (nodes st')) start t' ks = Some (p, s) /\
    (forall ks', sem (nodes st') start t' ks' = sem (nodes st) start t ks') /\
    (forall ks', path (nodes st') start t' ks' -> ks' `prefix_of` ks \/ path (nodes st) start t ks') /\
    (forall x, x ∈ Un -> nodes st' !! x = nodes st !! x) /\
    (forall y, y ∈ Ut -> trees st' !! y = trees st !! y) /\
    tview <$> nodes st' !! start = tview <$> nodes st !! start.
Proof.
  intros Hown (n & En & Hb) Hks. unfold op_putindx, deref. rewrite En. cbn [res_of mbind res_bind].
  assert (exists d, (if tree_parent n =? SYM then Ok (0, start)
    else t ← res_of (trees st !! tree_parent n); Ok (sbs_depth t, base_lv t)) = Ok (d, base)) as [d ->].
  { destruct (tree_parent n =? SYM); [subst; by eexists|]. destruct Hb as (ts & -> & <-). by eexists. }
  cbn [mbind res_bind].
  destruct (put_loop_spec base keys st start t Un Ut ks (d + 1) Hown Hks)
    as (st' & p & t' & s & -> & Hown' & Hat & Hs & Hpa & Hx & Hy & Hv). cbn [mbind res_bind].
  destruct (Z.eqb_spec base p) as [->|Hne]; [exists st', p, t', s; repeat (split; [done|]); by rewrite <- En|].
  destruct (own_in _ _ _ _ _ _ _ Hown' (node_at_in _ _ _ _ _ _ Hat)) as (m & Em & Hna). cbn [negb]. rewrite Em.
  cbn [res_of mbind res_bind]. rewrite Hna, andb_false_r. exists (set_active p st'), p, t', s.
  split; [done|]. split; [by apply own_with_active|]. repeat (split; [done|]). by rewrite <- En.
Qed.

Lemma own_NoDup base st lv t Un Ut : own base st lv t Un Ut -> NoDup (lv :: lnodes t).
Proof. intros [(_ & _ & _ & H & _) _]. rewrite app_comm_cons in H. by apply NoDup_app in H as [? _]. Qed.

Lemma tview_value (h : heap) p n v x : h !! p = Some n -> tview <$> <[p := with_value v n]> h !! x = tview <$> h !! x.
Proof. intros En. destruct (decide (p = x)) as [->|Hne]; [by rewrite lookup_insert_eq, En|by rewrite lookup_insert_ne]. Qed.

(** SET: the node made and its value assigned. *)
Lemma set_spec base st start t Un Ut keys ks v :
  own base st start t Un Ut -> start_of st start base -> keys_of true keys ks -> has MV_ALIASCONT v = false ->
  exists st' t',
    ('(st, lv) ← op_putindx Mn Mt node_size tree_size blank_tree SYM g lv_null_subs st start keys;
     set_value v lv st) = Ok st' /\
    own base st' start t' Un Ut /\ tview <$> nodes st' !! start = tview <$> nodes st !! start /\
    (forall ks', path (nodes st') start t' ks' -> ks' `prefix_of` ks \/ path (nodes st) start t ks') /\
    forall ks', sem (nodes st') start t' ks' =
      if decide (ks' = ks) then (if MV_DEFINED v then Some v else None) else sem (nodes st) start t ks'.
Proof.
  intros Hown Hst Hks Hv. destruct (putindx_spec base st start t Un Ut keys ks Hown Hst Hks)
    as (st' & p & t' & s & -> & Hown' & Hat & Hs & Hpa & _ & _ & Htv). cbn [mbind res_bind].
  assert (Hi := node_at_in _ _ _ _ _ _ Hat). destruct (own_in _ _ _ _ _ _ _ Hown' Hi) as (n & En & _).
  exists (with_nodes (<[p := with_value v n]> (nodes st')) st'), t'. split; [|split; [|split; [|split]]].
  - unfold set_value, modify_node, modify, deref. by rewrite En.
  - by eapply own_set_value.
  - rewrite <- Htv. exact (tview_value _ _ _ _ _ En).
  - intros ks' Hp. apply Hpa. eapply path_frame; [|exact Hp]. intros x _. apply tview_sview_key.
    exact (tview_value _ _ _ _ _ En).
  - intros ks'. cbn [nodes with_nodes]. rewrite (sem_set_value _ start t' ks p s v n) by
      (first [done|by eapply own_NoDup]).
    by rewrite Hs.
Qed.
End set.
