(* ===== verification/Lvorder.v ===== *)
(** Walking over the subscripts of a variable: $ORDER (op_fnorder.c), $NEXT
    (op_fnnext.c) and its opposite $ZPREVIOUS (op_fnzprevious.c), without
    collation plug-ins.  [std] is TREF(local_collseq_stdnull), the collation that
    puts the null subscript first.

    The proofs show that they give the neighbours of a subscript among those of
    a level, whether it is one of them or not, and that the cell they return is
    the subscript that was set. *)

From stdpp Require Import base list numbers option tactics gmap sorting.
From Stdlib Require Import ZArith Lia.
From S2P Require Import Prelude Mval Numstr Mvalconv Lvnode Avltree Avlops Lvtree Lvmap Lvframe Lvslot Lvar Lvown Lvset.

Open Scope Z_scope.

Definition MINUS_ONE : Z := - MV_BIAS.

Section order.
Context (g : globals) (std : bool).

Definition is_empty_string (key : mval) : bool :=
  has MV_STR key && negb (MV_IS_SQLNULL key) && (0 =? zlen (mv_str key)).

(** Whether the walk starts with the first subscript. *)
Definition order_get_first (is_fnnext : bool) (key : mval) : res (bool * mval) :=
  if is_empty_string key then Ok (true, key)
  else if is_fnnext then
    key ← (if negb (has (Z.lor MV_NM MV_NUM_APPROX) key) then
        '(is_canonical, key) ← val_iscan g key;
        if (is_canonical : bool) then
          '(key, _, _) ← s2n (compile_time g) false key;
          if negb (has MV_NM key) then Err ERR_NUMOFLOW else Ok key
        else Ok (set_mvtype (Z.lor (mvtype key) MV_NUM_APPROX) key)
      else Ok key);
    i ← isint key;
    Ok (bool_decide (is_Some i) && (MINUS_ONE =? mv_m1 key), key)
  else Ok (false, key).

(** The subscript as the walks take it. *)
Definition order_key (key : mval) : res mval :=
  '(is_canonical, key) ← MV_IS_CANONICAL g key;
  if negb is_canonical then Ok key
  else key ← MV_FORCE_NUM g key; Ok (set_mvtype (Z.lor (mvtype key) MV_CANONICAL) key).

Definition with_walk (st : lvstate) (lvt : Z) (t : lvts) (h : heap) (c : lvTree) : lvstate :=
  with_trees (<[lvt := with_core c t]> (trees st)) (with_nodes h st).

(** The node and its subscript, in the cell [dst]. *)
Definition order_result (st : lvstate) (node : Z) (none dst : mval) : res (lvstate * mval) :=
  if node =? NULL then Ok (st, none)
  else
    n ← deref (nodes st) node;
    let dst := LV_NODE_GET_KEY n dst in
    Ok (st, set_mvtype (Z.land (mvtype dst) (Z.lnot MV_CANONICAL)) dst).

Definition null_result (dst : mval) : mval := set_mvtype MV_STR (mk_mval 0 (mv_sgn dst) (mv_e dst) (mv_m0 dst) (mv_m1 dst) []).

(** The child of [src], if there is one. *)
Definition child_of (st : lvstate) (src : Z) : res Z :=
  if src =? NULL then Ok NULL else n ← deref (nodes st) src; Ok (sbs_child n).

Definition op_fnorder_gen (is_fnnext : bool) (st : lvstate) (src : Z) (key dst : mval) : res (lvstate * mval) :=
  lvt ← child_of st src;
  '(st, node) ← (if negb (lvt =? NULL) then
      t ← res_of (trees st !! lvt);
      key ← MV_FORCE_DEFINED g key;
      '(get_first, key) ← order_get_first is_fnnext key;
      '(h, c, node) ← (if get_first : bool then
          node ← lvAvlTreeFirst (nodes st) (core t); Ok (nodes st, core t, node)
        else
          key ← order_key key; lvAvlTreeKeyNext (nodes st) (core t) key);
      b ← (if std then is_null_subs h node else Ok false);
      node ← (if b : bool then lvAvlTreeNext h node else Ok node);
      Ok (with_walk st lvt t h c, node)
    else Ok (st, NULL));
  none ← (if negb is_fnnext then Ok (null_result dst) else MV_FORCE_MVAL dst (-1));
  order_result st node none dst.

Definition op_fnorder : lvstate -> Z -> mval -> mval -> res (lvstate * mval) := op_fnorder_gen false.
Definition op_fnnext : lvstate -> Z -> mval -> mval -> res (lvstate * mval) := op_fnorder_gen true.

Definition op_fnzprevious (st : lvstate) (src : Z) (key dst : mval) : res (lvstate * mval) :=
  lvt ← child_of st src;
  '(st, node) ← (if negb (lvt =? NULL) then
      t ← res_of (trees st !! lvt);
      key ← MV_FORCE_DEFINED g key;
      '(h, c, node) ← (if is_empty_string key then
          node ← lvAvlTreeCollatedLast (nodes st) (core t) std; Ok (nodes st, core t, node)
        else
          key ← order_key key; lvAvlTreeKeyCollatedPrev (nodes st) (core t) key std);
      Ok (with_walk st lvt t h c, node)
    else Ok (st, NULL));
  order_result st node (null_result dst) dst.
End order.

(** * What the result is *)

(** The cell of a node's subscript gives it back when it is used as one. *)
Lemma node_key_cell n dst :
  key_ok n ->
  let c := LV_NODE_GET_KEY n dst in
  let c := set_mvtype (Z.land (mvtype c) (Z.lnot MV_CANONICAL)) c in
  match node_key n with
  | KNum x => num_ok c /\ num_value c = x
  | KStr s => mvtype c = MV_STR /\ mv_str c = s
  | KSqlnull => mvtype c = Z.lor MV_STR MV_SQLNULL
  end.
Proof.
  intros [(E & Hb & _)|[(E & Hf)|[E|E]]]; unfold node_key, LV_NODE_GET_KEY, LV_NUM_NODE_GET_KEY, LV_STR_NODE_GET_KEY; rewrite !E; cbv zeta.
  - change (TREE_KEY_SUBSCR_IS_CANONICAL T_INT) with true. change (MVTYPE_IS_INT T_INT) with true. cbv iota.
    split; [left; split; [reflexivity|split; [reflexivity|split; [reflexivity|exact Hb]]]|reflexivity].
  - change (TREE_KEY_SUBSCR_IS_CANONICAL T_FLT) with true. change (MVTYPE_IS_INT T_FLT) with false. cbv iota.
    destruct Hf as (_ & _ & _ & Hs & He & H1 & H0). split; [right|reflexivity].
    split; [reflexivity|split; [reflexivity|split; [reflexivity|exact (conj Hs (conj He (conj H1 H0)))]]].
  - by split.
  - done.
Qed.

(** The subscript [k] in a cell. *)
Definition cell_is (c : mval) (k : lkey) : Prop :=
  match k with
  | KNum x => num_ok c /\ num_value c = x
  | KStr s => mvtype c = MV_STR /\ mv_str c = s
  | KSqlnull => mvtype c = Z.lor MV_STR MV_SQLNULL
  end.

Definition opt_cell (c : mval) (k : option lkey) : Prop :=
  match k with Some k => cell_is c k | None => mvtype c = MV_STR /\ mv_str c = [] end.

(** The neighbours of [k] in the collating order; the empty string stands for
    the place before the first and after the last. *)
Definition order_next (std : bool) (m : dict) (k : lkey) : option lkey :=
  fst <$> head (if decide (k = KStr [] /\ std = false) then m else filter (fun ka => clt std k ka.1) (coll std m)).
Definition order_prev (std : bool) (m : dict) (k : lkey) : option lkey :=
  fst <$> last (if decide (k = KStr []) then coll std m else filter (fun ka => clt std ka.1 k) (coll std m)).

(** What they are: the least of the subscripts [S] after [k], the greatest before. *)
Definition comes_after (std : bool) (k k' : lkey) : Prop := (k = KStr [] /\ std = false) \/ clt std k k'.
Definition comes_before (std : bool) (k k' : lkey) : Prop := k = KStr [] \/ clt std k' k.

Definition is_next (std : bool) (S : lkey -> Prop) (k : lkey) (o : option lkey) : Prop :=
  match o with
  | Some k1 => S k1 /\ comes_after std k k1 /\ forall k2, S k2 -> comes_after std k k2 -> k2 = k1 \/ clt std k1 k2
  | None => forall k2, S k2 -> ~ comes_after std k k2
  end.

Definition is_prev (std : bool) (S : lkey -> Prop) (k : lkey) (o : option lkey) : Prop :=
  match o with
  | Some k1 => S k1 /\ comes_before std k k1 /\ forall k2, S k2 -> comes_before std k k2 -> k2 = k1 \/ clt std k2 k1
  | None => forall k2, S k2 -> ~ comes_before std k k2
  end.

(** ** Lemmas *)

#[global] Instance clt_trans std : Transitive (clt std).
Proof.
  intros a b c. unfold clt. destruct std; [|by etrans]. intros [Hb H1] [Hc H2]. split; [done|].
  destruct H1 as [->|H1]; [by left|]. destruct H2 as [->|H2]; [done|right; by etrans].
Qed.

Lemma coll_sorted std m : dsorted m -> StronglySorted (clt std) (coll std m).*1.
Proof.
  unfold dsorted. destruct std; [|done]. intros Hs. cbn. unfold dstd.
  assert (Hf : forall (P : lkey * Z -> Prop) `{forall x, Decision (P x)}, StronglySorted klt (filter P m).*1).
  { intros P HP. induction m as [|[k x] m' IH]; [constructor|]. cbn in Hs. apply StronglySorted_inv in Hs as [Hs Hk].
    rewrite filter_cons. destruct (decide _); [|by apply IH]. cbn. constructor; [by apply IH|].
    rewrite Forall_forall in *. intros y (ya & -> & Hy)%list_elem_of_fmap. apply Hk. apply list_elem_of_filter in Hy as [_ Hy].
    apply list_elem_of_fmap. by exists ya. }
  rewrite fmap_app, StronglySorted_app. split_and!.
  - intros a b (aa & -> & Ha)%list_elem_of_fmap (bb & -> & Hb)%list_elem_of_fmap.
    apply list_elem_of_filter in Ha as [Ea _], Hb as [Eb _]. split; [done|by left].
  - assert (H1 : (filter (fun ka => ka.1 = KStr []) m).*1 = [] \/ (filter (fun ka => ka.1 = KStr []) m).*1 = [KStr []]).
    { specialize (Hf (fun ka => ka.1 = KStr []) _). assert (Ha : Forall (eq (KStr [])) (filter (fun ka => ka.1 = KStr []) m).*1).
      { apply Forall_forall. intros y (ya & -> & Hy)%list_elem_of_fmap. by apply list_elem_of_filter in Hy as [-> _]. }
      revert Hf Ha. generalize (filter (fun ka : lkey * Z => ka.1 = KStr []) m).*1. intros l0 Hf Ha.
      destruct l0 as [|a [|b l]]; [by left|apply Forall_cons in Ha as [<- _]; by right|].
      apply Forall_cons in Ha as [<- Ha]. apply Forall_cons in Ha as [<- _]. apply StronglySorted_inv in Hf as [_ Hf].
      apply Forall_cons in Hf as [Hf _]. by apply irreflexivity in Hf. }
    destruct H1 as [-> | ->]; repeat constructor.
  - specialize (Hf (fun ka => ka.1 <> KStr []) _). assert (Ha : Forall (fun k => k <> KStr []) (filter (fun ka => ka.1 <> KStr []) m).*1).
    { apply Forall_forall. intros y (ya & -> & Hy)%list_elem_of_fmap. by apply list_elem_of_filter in Hy as [? _]. }
    induction Hf as [|a l Hl IH Hal]; constructor.
    + apply IH. by apply Forall_cons in Ha as [_ ?].
    + apply Forall_cons in Ha as [_ Ha]. rewrite Forall_forall in *. intros x Hx. split; [by apply Ha|right; by apply Hal].
Qed.

(** The first and the last of a sorted list that satisfy a predicate. *)
Lemma sorted_head (R : lkey -> lkey -> Prop) (P : lkey -> Prop) `{forall x, Decision (P x)} (m : dict) :
  StronglySorted R m.*1 ->
  match head (filter (fun ka => P ka.1) m) with
  | Some ka => ka ∈ m /\ P ka.1 /\ forall kb, kb ∈ m -> P kb.1 -> kb.1 = ka.1 \/ R ka.1 kb.1
  | None => forall kb, kb ∈ m -> ~ P kb.1
  end.
Proof.
  induction m as [|a m IH]; [by intros _ kb ?%not_elem_of_nil|]. intros [Hs Ha]%StronglySorted_inv. specialize (IH Hs).
  rewrite filter_cons. destruct (decide (P a.1)) as [Hp|Hp]; cbn.
  - split; [by left|]. split; [done|]. intros kb [->|Hi]%elem_of_cons _; [by left|right]. rewrite Forall_forall in Ha.
    apply Ha, list_elem_of_fmap. by exists kb.
  - destruct (head _) as [kb|].
    + destruct IH as (Hi & Hp1 & Hm). split; [by right|]. split; [done|]. intros kc [->|Hic]%elem_of_cons; [done|by apply Hm].
    + intros kb [->|Hi]%elem_of_cons; [done|by apply IH].
Qed.

Lemma sorted_last (R : lkey -> lkey -> Prop) (P : lkey -> Prop) `{forall x, Decision (P x)} (m : dict) :
  StronglySorted R m.*1 ->
  match last (filter (fun ka => P ka.1) m) with
  | Some ka => ka ∈ m /\ P ka.1 /\ forall kb, kb ∈ m -> P kb.1 -> kb.1 = ka.1 \/ R kb.1 ka.1
  | None => forall kb, kb ∈ m -> ~ P kb.1
  end.
Proof.
  induction m as [|a m IH]; [by intros _ kb ?%not_elem_of_nil|]. intros [Hs Ha]%StronglySorted_inv. specialize (IH Hs).
  rewrite Forall_forall in Ha. rewrite filter_cons. destruct (decide (P a.1)) as [Hp|Hp]; cbn.
  - rewrite last_cons. destruct (last _) as [ka|].
    + destruct IH as (Hi & Hp1 & Hm). split; [by right|]. split; [done|]. intros kc [->|Hic]%elem_of_cons; [|by apply Hm].
      intros _. right. apply Ha, list_elem_of_fmap. by exists ka.
    + split; [by left|]. split; [done|]. intros kb [->|Hi]%elem_of_cons Hk; [by left|]. by destruct (IH kb Hi).
  - destruct (last _) as [kb|].
    + destruct IH as (Hi & Hp1 & Hm). split; [by right|]. split; [done|]. intros kc [->|Hic]%elem_of_cons; [done|by apply Hm].
    + intros kb [->|Hi]%elem_of_cons; [done|by apply IH].
Qed.

Lemma coll_iff std (m : dict) ka : ka ∈ coll std m <-> ka ∈ m.
Proof.
  destruct std; [|done]. cbn. unfold dstd. rewrite elem_of_app, !list_elem_of_filter.
  destruct (decide (ka.1 = KStr [])); tauto.
Qed.

Definition in_dict (m : dict) (k : lkey) : Prop := exists x, (k, x) ∈ m.

Lemma order_next_spec std m k : dsorted m -> is_next std (in_dict m) k (order_next std m k).
Proof.
  intros Hs. unfold order_next, is_next. destruct (decide (k = KStr [] /\ std = false)) as [[-> ->]|Hn].
  - pose proof (sorted_head klt (fun _ => True) m Hs) as H. rewrite filter_all in H by (by apply Forall_true).
    destruct (head m) as [ka|]; cbn.
    + destruct H as (Hi & _ & Hm). split; [by exists ka.2; destruct ka|]. split; [by left|].
      intros k2 [x Hx] _. by apply (Hm (k2, x)).
    + intros k2 [x Hx]. by destruct (H (k2, x) Hx).
  - pose proof (sorted_head (clt std) (clt std k) (coll std m) (coll_sorted std m Hs)) as H.
    assert (Hc : forall k', comes_after std k k' <-> clt std k k') by (intros k'; unfold comes_after; tauto).
    destruct (head _) as [ka|]; cbn.
    + destruct H as (Hi & Hp & Hm). apply coll_iff in Hi. split; [by exists ka.2; destruct ka|]. split; [by apply Hc|].
      intros k2 [x Hx] H2. apply (Hm (k2, x)); [by apply coll_iff|by apply Hc].
    + intros k2 [x Hx] H2. apply (H (k2, x)); [by apply coll_iff|by apply Hc].
Qed.

Lemma order_prev_spec std m k : dsorted m -> is_prev std (in_dict m) k (order_prev std m k).
Proof.
  intros Hs. unfold order_prev, is_prev. pose proof (coll_sorted std m Hs) as Hc.
  assert (H : match last (if decide (k = KStr []) then coll std m else filter (fun ka => clt std ka.1 k) (coll std m)) with
    | Some ka => ka ∈ coll std m /\ comes_before std k ka.1 /\
        forall kb, kb ∈ coll std m -> comes_before std k kb.1 -> kb.1 = ka.1 \/ clt std kb.1 ka.1
    | None => forall kb, kb ∈ coll std m -> ~ comes_before std k kb.1
    end).
  { destruct (decide (k = KStr [])) as [->|Hn].
    - pose proof (sorted_last (clt std) (fun _ => True) (coll std m) Hc) as H. rewrite filter_all in H by (by apply Forall_true).
      destruct (last _) as [ka|].
      + destruct H as (Hi & _ & Hm). split; [done|]. split; [by left|]. intros kb Hb _. by apply Hm.
      + intros kb Hb. by destruct (H kb Hb).
    - pose proof (sorted_last (clt std) (fun k' => clt std k' k) (coll std m) Hc) as H.
      assert (Hb : forall k', comes_before std k k' <-> clt std k' k) by (intros k'; unfold comes_before; tauto).
      destruct (last _) as [ka|].
      + destruct H as (Hi & Hp & Hm). split; [done|]. split; [by apply Hb|]. intros kb Hi2 H2. apply Hm; [done|by apply Hb].
      + intros kb Hi2 H2. apply (H kb Hi2). by apply Hb. }
  destruct (last _) as [ka|]; cbn.
  - destruct H as (Hi & Hp & Hm). apply coll_iff in Hi. split; [by exists ka.2; destruct ka|]. split; [done|].
    intros k2 [x Hx] H2. apply (Hm (k2, x)); [by apply coll_iff|done].
  - intros k2 [x Hx] H2. apply (H (k2, x)); [by apply coll_iff|done].
Qed.

(** What a walk keeps: the nodes outside of the tree. *)
Lemma key_next_frame h lvt T key h' lvt' x :
  lv_wf h lvt T -> mval_key_ok key -> lvAvlTreeKeyNext h lvt key = Ok (h', lvt', x) -> same_off (elems T) h h'.
Proof.
  intros Hw Hk E. unfold lvAvlTreeKeyNext in E. apply res_bind_inv in E as ([[[h1 lvt1] n] p] & E1 & E).
  apply (lookup_frame _ _ _ _ _ _ _ _ _ Hw Hk) in E1. destruct (negb (n =? NULL)).
  - apply res_bind_inv in E as (y & _ & E). by injection E as <- _ _.
  - apply res_bind_inv in E as (m & _ & E). destruct (_ =? _); [apply res_bind_inv in E as (y & _ & E)|]; by injection E as <- _ _.
Qed.

Lemma key_prev_frame h lvt T key h' lvt' x :
  lv_wf h lvt T -> mval_key_ok key -> lvAvlTreeKeyPrev h lvt key = Ok (h', lvt', x) -> same_off (elems T) h h'.
Proof.
  intros Hw Hk E. unfold lvAvlTreeKeyPrev in E. apply res_bind_inv in E as ([[[h1 lvt1] n] p] & E1 & E).
  apply (lookup_frame _ _ _ _ _ _ _ _ _ Hw Hk) in E1. destruct (negb (n =? NULL)).
  - apply res_bind_inv in E as (y & _ & E). by injection E as <- _ _.
  - apply res_bind_inv in E as (m & _ & E). destruct (_ =? _); [apply res_bind_inv in E as (y & _ & E)|]; by injection E as <- _ _.
Qed.

Lemma literal_null_ok : mval_key_ok literal_null.
Proof. intros E. vm_compute in E. discriminate E. Qed.

Lemma collated_prev_frame h lvt T key std h' lvt' x :
  lv_wf h lvt T -> T <> Leaf -> mval_key_ok key -> lvAvlTreeKeyCollatedPrev h lvt key std = Ok (h', lvt', x) ->
  same_off (elems T) h h'.
Proof.
  intros Hw Hne Hk E. unfold lvAvlTreeKeyCollatedPrev in E. destruct std; [|by eapply key_prev_frame].
  destruct (key_is_null_subs key); [by injection E as <- _ _|].
  apply res_bind_inv in E as ([[h1 lvt1] n] & E1 & E). assert (S1 := key_prev_frame _ _ _ _ _ _ _ Hw Hk E1).
  destruct (key_prev_dict h lvt T key Hw Hne Hk) as (h2 & lvt2 & E2 & _ & _ & Hw1). rewrite E1 in E2. injection E2 as <- <- _.
  apply res_bind_inv in E as (b & _ & E). apply res_bind_inv in E as (y & _ & E).
  destruct (y =? NULL); [|by injection E as <- _ _]. apply res_bind_inv in E as ([[[h3 lvt3] z] w] & E3 & E).
  injection E as <- _ _. etrans; [exact S1|]. eapply (lookup_frame _ _ _ literal_null); [exact Hw1|apply literal_null_ok|].
  exact E3.
Qed.

Section spec.
Context (node_size tree_size : Z) (g : globals) (std : bool).

Abbreviation own := (own node_size tree_size).

(** The subscript [k] as these functions get it. *)
Definition order_ok (key : mval) (k : lkey) : Prop :=
  MV_DEFINED key = true /\
  if is_empty_string key then k = KStr []
  else k <> KStr [] /\ exists key', order_key g key = Ok key' /\ mval_key_norm key' /\ mval_key key' = k.

(** A walk through the tree of [lv]. *)
Lemma own_walk base st lv q T kids Un Ut ts h c :
  own base st lv (LT q T kids) Un Ut -> trees st !! q = Some ts ->
  kept (nodes st) h -> same_off (elems T) (nodes st) h -> (exists a b d, c = set_clue a b d (core ts)) -> lv_wf h c T ->
  own base (with_walk st q ts h c) lv (LT q T kids) Un Ut /\ looked (elems T) [q] st (with_walk st q ts h c).
Proof.
  intros [Hown Hne]%own_level Ets K S Hc Hw.
  assert (Hl : looked (elems T) [q] st (with_walk st q ts h c)).
  { split; [done|]. split; [done|]. split; [|done]. intros y Hy. cbn. apply lookup_insert_ne. intros ->. apply Hy. by left. }
  split; [|done]. apply own_level. split; [|done]. eapply own0_looked; [done|done|done| |done|done].
  cbn. by rewrite lookup_insert_eq.
Qed.

Lemma result_spec h lvt T st (o : option (lkey * Z)) none dst :
  lv_wf h lvt T -> nodes st = h -> (forall ka, o = Some ka -> ka ∈ entries (keym h) (elems T)) ->
  exists c, order_result st (default NULL (snd <$> o)) none dst = Ok (st, c) /\
    match o with Some ka => cell_is c ka.1 | None => c = none end.
Proof.
  intros Hw <- Ho. unfold order_result. destruct o as [[k x]|]; [|by exists none].
  destruct (entries_in (nodes st) T k x (Ho _ eq_refl)) as [Hx Kx]. cbn.
  assert (Nx : x <> NULL).
  { intros ->. destruct Hw as ((_ & Hr & _) & _). by apply (rep_null_notin _ _ _ Hr). }
  destruct (Z.eqb_spec x NULL) as [|_]; [done|].
  assert (exists n, nodes st !! x = Some n /\ key_ok n /\ node_key n = k) as (n & En & Hk & <-).
  { destruct Hw as (_ & Hk & _). destruct (Hk x Hx) as (m & Em & Hm). unfold restm in Em. rewrite lookup_fmap in Em.
    destruct (nodes st !! x) as [n|] eqn:En; [|done]. injection Em as <-. exists n. split; [done|]. split; [exact Hm|].
    unfold keym, restm in Kx. rewrite !lookup_fmap, En in Kx. injection Kx as <-. done. }
  unfold deref. rewrite En. cbn [res_of mbind res_bind]. eexists. split; [reflexivity|]. by apply node_key_cell.
Qed.

Lemma head_default (l : dict) : head0 l.*2 = default NULL (snd <$> head l).
Proof. by destruct l. Qed.

Lemma last_default (l : dict) : last0 l.*2 = default NULL (snd <$> last l).
Proof. unfold last0. rewrite fmap_last. by destruct (last l). Qed.

(** The subscripts of the level under a node, in the order of the tree. *)
Definition level_of (h : heap) (t : ltree) : dict :=
  match t with LNil => [] | LT q T _ => entries (keym h) (elems T) end.

(** The search for the next node. *)
Lemma next_walk h lvt T key k :
  lv_wf h lvt T -> T <> Leaf -> order_ok key k ->
  let m := entries (keym h) (elems T) in
  let o := head (if decide (k = KStr [] /\ std = false) then m else filter (fun ka => clt std k ka.1) (coll std m)) in
  exists h' c b x, ('(h, c, node) ← (if is_empty_string key then node ← lvAvlTreeFirst h lvt; Ok (h, lvt, node)
       else key ← order_key g key; lvAvlTreeKeyNext h lvt key);
     b ← (if std then is_null_subs h node else Ok false);
     node ← (if b : bool then lvAvlTreeNext h node else Ok node); Ok (h, c, b, node)) = Ok (h', c, b, x) /\
    kept h h' /\ same_off (elems T) h h' /\ (exists a b d, c = set_clue a b d lvt) /\ lv_wf h' c T /\
    x = default NULL (snd <$> o).
Proof.
  intros Hw Hne [_ Hk]. cbv zeta. set (m := entries (keym h) (elems T)).
  assert (exists h' c, (if is_empty_string key then node ← lvAvlTreeFirst h lvt; Ok (h, lvt, node)
       else key ← order_key g key; lvAvlTreeKeyNext h lvt key) = Ok (h', c, head0 (filter (after_key k) m).*2) /\
    kept h h' /\ same_off (elems T) h h' /\ (exists a b d, c = set_clue a b d lvt) /\ lv_wf h' c T)
    as (h1 & c & -> & K & S & Hc & Hw1).
  { unfold m. rewrite after_key_head. destruct (is_empty_string key).
    - subst k. rewrite decide_True by done. destruct (first_last_dict h lvt T Hw) as [-> _]. exists h, lvt.
      repeat (split; [done|]). split; [do 3 eexists; apply set_clue_same|done].
    - destruct Hk as (Hk0 & key' & -> & [Hok _] & <-). cbn [mbind res_bind]. rewrite decide_False by done.
      destruct (key_next_dict h lvt T key' Hw Hne Hok) as (h1 & c & E & K & Hc & Hw1). exists h1, c.
      split; [done|]. split; [done|]. split; [by eapply key_next_frame|done]. }
  cbn [mbind res_bind]. assert (Em : entries (keym h1) (elems T) = m) by (by apply kept_entries).
  assert (Hskip := skip_next h1 c T Hw1 k). cbv zeta in Hskip. rewrite Em in Hskip. destruct std.
  - destruct (is_null_subs h1 _) as [b|]; [|done]. cbn [mbind res_bind] in *. rewrite Hskip. cbn [mbind res_bind].
    exists h1, c, b, (cnext true m k). repeat (split; [done|]). rewrite decide_False by (by intros [_ ?]).
    unfold cnext. apply head_default.
  - cbn [mbind res_bind]. exists h1, c, false, (head0 (filter (after_key k) m).*2). repeat (split; [done|]).
    rewrite head_default. do 3 f_equal. destruct (decide _) as [[-> _]|Hn].
    + apply filter_all, Forall_true. intros x. by left.
    + apply list_filter_iff. intros [k' a]. unfold after_key, clt. cbn. split; [intros [->|]; [by destruct Hn|done]|by right].
Qed.

Lemma order_result_opt h lvt T st (o : option (lkey * Z)) dst :
  lv_wf h lvt T -> nodes st = h -> (forall ka, o = Some ka -> ka ∈ entries (keym h) (elems T)) ->
  exists c, order_result st (default NULL (snd <$> o)) (null_result dst) dst = Ok (st, c) /\ opt_cell c (fst <$> o).
Proof.
  intros Hw Eh Ho. destruct (result_spec h lvt T st o (null_result dst) dst Hw Eh Ho) as (c & E & Hc).
  exists c. split; [done|]. destruct o as [ka|]; [done|]. by subst c.
Qed.

(** $ORDER gives the next subscript of the level. *)
Lemma fnorder_spec base st lv t Un Ut key k dst :
  own base st lv t Un Ut -> order_ok key k ->
  exists st' c, op_fnorder g std st lv key dst = Ok (st', c) /\ own base st' lv t Un Ut /\
    looked (lnodes t) (ltrees t) st st' /\ opt_cell c (order_next std (level_of (nodes st) t) k).
Proof.
  intros Hown Hk. assert (H1 := Hown). destruct H1 as [(Nlv & _ & (n & En & Ec & _) & _) Hw].
  unfold op_fnorder, op_fnorder_gen, child_of. destruct (Z.eqb_spec lv NULL) as [|_]; [done|].
  unfold deref at 1. rewrite En. cbn [res_of mbind res_bind]. rewrite Ec. destruct t as [|q T kids].
  { cbn [lroot]. rewrite Z.eqb_refl. exists st, (null_result dst). cbn. repeat (split; [done|]).
    unfold order_next. cbn. by destruct (decide _), std. }
  destruct Hw as ((ts & Ets & _ & _ & _ & Hlw) & Hne & Nq & _). cbn [lroot]. destruct (Z.eqb_spec q NULL) as [|_]; [done|].
  cbn [negb]. rewrite Ets. cbn [res_of mbind res_bind]. unfold MV_FORCE_DEFINED. rewrite (proj1 Hk). cbn [negb mbind res_bind].
  destruct (next_walk _ _ _ key k Hlw Hne Hk) as (h' & c & b & x & E & K & S & Hc & Hw' & Ex). cbv zeta in Ex.
  apply res_bind_inv in E as ([[h1 c1] x1] & E1 & E). apply res_bind_inv in E as (b1 & E2 & E).
  apply res_bind_inv in E as (x2 & E3 & E). injection E as -> -> -> ->.
  destruct (own_walk base st lv q T kids Un Ut ts h' c Hown Ets K S Hc Hw') as [Hown' Hl].
  set (o := head _) in Ex.
  destruct (order_result_opt h' c T (with_walk st q ts h' c) o dst Hw' eq_refl) as (cell & Ecell & Hcell).
  { intros ka Hka. rewrite (kept_entries (nodes st) h') by done. unfold o in Hka.
    assert (Hi : ka ∈ if decide (k = KStr [] /\ std = false) then entries (keym (nodes st)) (elems T)
      else filter (fun ka => clt std k ka.1) (coll std (entries (keym (nodes st)) (elems T)))) by (by apply head_Some_elem_of).
    destruct (decide _); [done|]. apply list_elem_of_filter in Hi as [_ Hi]. by apply coll_iff in Hi. }
  exists (with_walk st q ts h' c), cell. split; [|split; [done|split; [|exact Hcell]]].
  2: { eapply looked_weaken; [exact Hl|intros y; apply own_node|]. intros y ->%list_elem_of_singleton. by left. }
  assert (Eg : order_get_first g false key = Ok (is_empty_string key, key)) by (unfold order_get_first; by destruct (is_empty_string key)).
  rewrite Eg. cbn [mbind res_bind]. rewrite E1. cbn [mbind res_bind]. rewrite E2. cbn [mbind res_bind]. rewrite E3.
  cbn [mbind res_bind]. rewrite Ex. exact Ecell.
Qed.

(** The search for the previous node. *)
Lemma prev_walk h lvt T key k :
  lv_wf h lvt T -> T <> Leaf -> order_ok key k ->
  let m := entries (keym h) (elems T) in
  let o := last (if decide (k = KStr []) then coll std m else filter (fun ka => clt std ka.1 k) (coll std m)) in
  exists h' c, (if is_empty_string key then node ← lvAvlTreeCollatedLast h lvt std; Ok (h, lvt, node)
       else key ← order_key g key; lvAvlTreeKeyCollatedPrev h lvt key std) = Ok (h', c, default NULL (snd <$> o)) /\
    kept h h' /\ same_off (elems T) h h' /\ (exists a b d, c = set_clue a b d lvt) /\ lv_wf h' c T.
Proof.
  intros Hw Hne [_ Hk]. cbv zeta. set (m := entries (keym h) (elems T)). rewrite <- last_default. destruct (is_empty_string key).
  - subst k. rewrite decide_True by done. rewrite (collated_last h lvt T Hw std). exists h, lvt.
    repeat (split; [done|]). split; [do 3 eexists; apply set_clue_same|done].
  - destruct Hk as (Hk0 & key' & -> & Hnorm & <-). cbn [mbind res_bind]. rewrite decide_False by done.
    destruct (key_collated_prev h lvt T key' std Hw Hne Hnorm) as (h1 & c & E & K & Hc & Hw1). exists h1, c.
    split; [done|]. split; [done|]. split; [|done]. eapply collated_prev_frame; [done|done|apply Hnorm|exact E].
Qed.

(** $ZPREVIOUS gives the previous one. *)
Lemma fnzprevious_spec base st lv t Un Ut key k dst :
  own base st lv t Un Ut -> order_ok key k ->
  exists st' c, op_fnzprevious g std st lv key dst = Ok (st', c) /\ own base st' lv t Un Ut /\
    looked (lnodes t) (ltrees t) st st' /\ opt_cell c (order_prev std (level_of (nodes st) t) k).
Proof.
  intros Hown Hk. assert (H1 := Hown). destruct H1 as [(Nlv & _ & (n & En & Ec & _) & _) Hw].
  unfold op_fnzprevious, child_of. destruct (Z.eqb_spec lv NULL) as [|_]; [done|].
  unfold deref at 1. rewrite En. cbn [res_of mbind res_bind]. rewrite Ec. destruct t as [|q T kids].
  { cbn [lroot]. rewrite Z.eqb_refl. exists st, (null_result dst). cbn. repeat (split; [done|]).
    unfold order_prev. cbn. by destruct (decide _), std. }
  destruct Hw as ((ts & Ets & _ & _ & _ & Hlw) & Hne & Nq & _). cbn [lroot]. destruct (Z.eqb_spec q NULL) as [|_]; [done|].
  cbn [negb]. rewrite Ets. cbn [res_of mbind res_bind]. unfold MV_FORCE_DEFINED. rewrite (proj1 Hk). cbn [negb mbind res_bind].
  destruct (prev_walk _ _ _ key k Hlw Hne Hk) as (h' & c & -> & K & S & Hc & Hw'). cbn [mbind res_bind].
  destruct (own_walk base st lv q T kids Un Ut ts h' c Hown Ets K S Hc Hw') as [Hown' Hl].
  set (o := last _).
  destruct (order_result_opt h' c T (with_walk st q ts h' c) o dst Hw' eq_refl) as (cell & Ecell & Hcell).
  { intros ka Hka. rewrite (kept_entries (nodes st) h') by done. apply last_Some_elem_of in Hka. apply (coll_iff std).
    destruct (decide _); [done|]. by apply list_elem_of_filter in Hka as [_ ?]. }
  exists (with_walk st q ts h' c), cell. split; [exact Ecell|]. split; [done|]. split; [|exact Hcell].
  eapply looked_weaken; [exact Hl|intros y; apply own_node|]. intros y ->%list_elem_of_singleton. by left.
Qed.
End spec.
