(* ===== verification/Lvkill.v ===== *)
(** Killing variables: lv_killarray.c gives back the slots of a whole array,
    lv_kill.c those of a node with all that is below it and of the parents that
    are left with nothing.  The values of the other nodes stay as they are. *)

From stdpp Require Import base list numbers option tactics gmap sorting.
From Stdlib Require Import ZArith Lia.
From S2P Require Import Prelude Mval Numstr Lvnode Avltree Avlops Lvtree Lvmap Lvframe Lvslot Lvar Lvown Lvset.

Open Scope Z_scope.

(** * Lemmas: assignments that leave the trees alone *)

(** The links and balances, which are all that a walk depends on. *)
Definition links_same (h h' : heap) : Prop := linkm h' = linkm h /\ balm h' = balm h.

#[global] Instance links_same_preorder : PreOrder links_same.
Proof. split; [by split|]. intros h1 h2 h3 [A1 B1] [A2 B2]. split; congruence. Qed.

Lemma links_same_wf h h' lvt T : links_same h h' -> tree_wf h lvt T -> tree_wf h' lvt T.
Proof. intros [E1 E2]. unfold tree_wf. by rewrite E1, E2. Qed.

Lemma links_same_none h h' p : links_same h h' -> h !! p = None -> h' !! p = None.
Proof. intros [E _]. by eapply fmap_none. Qed.

Lemma links_same_insert (h : heap) p n m :
  h !! p = Some n -> links m = links n -> balance m = balance n -> links_same h (<[p := m]> h).
Proof.
  intros En El Eb. unfold links_same, linkm, balm. rewrite !fmap_insert, El, Eb.
  split; apply insert_id; by rewrite lookup_fmap, En.
Qed.

Lemma postorder_elems t : postorder t ≡ₚ elems t.
Proof. induction t as [|l IHl p r IHr]; simpl; [done|]. rewrite IHl, IHr. solve_Permutation. Qed.

Section kill.
Context (node_size tree_size : Z).

Abbreviation own := (own node_size tree_size).
Abbreviation npool_ok := (npool_ok node_size).
Abbreviation tpool_ok := (tpool_ok tree_size).

(** ** Single steps *)

Lemma modify_node_eq f p st n :
  nodes st !! p = Some n -> modify_node f p st = Ok (with_nodes (<[p := f n]> (nodes st)) st).
Proof. intros En. unfold modify_node, modify, deref. by rewrite En. Qed.

Lemma npool_insert st p m U :
  npool_ok st U -> p ∈ U -> npool_ok (with_nodes (<[p := m]> (nodes st)) st) U.
Proof.
  intros Hp Hi. unfold Lvown.npool_ok in *. cbn. eapply pool_agree; [| |exact Hp].
  - intros x Hx. apply lookup_insert_ne. by intros ->.
  - intros x Hx. destruct (decide (p = x)) as [->|Hne]; [rewrite lookup_insert_eq; by eexists|].
    rewrite lookup_insert_ne by done. destruct Hp as (_ & _ & _ & _ & _ & Hd). by apply Hd.
Qed.

(** The value of a node cleared and its slot given back. *)
Lemma free_node_spec st p U U' n :
  npool_ok st U -> p ∈ U -> p <> NULL -> nodes st !! p = Some n -> (forall x, x ∈ U' -> x ∈ U /\ x <> p) ->
  exists st', (st ← clear_value p st; LVTREENODE_FREESLOT st p) = Ok st' /\
    npool_ok st' U' /\ links_same (nodes st) (nodes st') /\
    (forall x, x <> p -> nodes st' !! x = nodes st !! x) /\
    trees st' = trees st /\ tree_pool st' = tree_pool st /\ active_lv st' = active_lv st.
Proof.
  intros Hp Hi Np En HU. unfold clear_value. rewrite (modify_node_eq _ p st n En). cbn [mbind res_bind].
  set (n1 := with_value (set_mvtype 0 (nd_v n)) n). set (st1 := with_nodes _ st).
  assert (Hp1 : npool_ok st1 U) by (by apply npool_insert).
  destruct (freeslot_spec node_size sbs_child node_free (fun _ _ => eq_refl) (nodes st1) (node_pool st1) U p Hp1 Hi Np)
    as (n' & En' & E & Hfree). cbn in En'. rewrite lookup_insert_eq in En'. injection En' as <-.
  unfold LVTREENODE_FREESLOT. rewrite E. cbn [mbind res_bind]. eexists. split; [reflexivity|].
  split; [by apply Hfree|]. split; [|split; [|done]].
  - cbn. rewrite insert_insert_eq. by eapply links_same_insert.
  - intros x Hx. cbn. by rewrite !lookup_insert_ne.
Qed.

Lemma free_tree_spec st q U U' :
  tpool_ok st U -> q ∈ U -> q <> NULL -> (forall x, x ∈ U' -> x ∈ U /\ x <> q) ->
  exists st', LVTREE_FREESLOT st q = Ok st' /\ tpool_ok st' U' /\
    (forall y, y <> q -> trees st' !! y = trees st !! y) /\
    nodes st' = nodes st /\ node_pool st' = node_pool st /\ active_lv st' = active_lv st.
Proof.
  intros Hp Hi Nq HU.
  destruct (freeslot_spec tree_size (fun t => avl_root (core t)) tree_free (fun _ _ => eq_refl)
    (trees st) (tree_pool st) U q Hp Hi Nq) as (ts & Ets & E & Hfree).
  unfold LVTREE_FREESLOT. rewrite E. cbn [mbind res_bind]. eexists. split; [reflexivity|].
  split; [by apply Hfree|]. split; [|done]. intros y Hy. cbn. by rewrite lookup_insert_ne.
Qed.

(** ** A whole array *)

(** The nodes [R] of a tree with all that is below them. *)
Definition knodes (kids : Z -> ltree) (R : list Z) : list Z := R ++ (R ≫= fun p => lnodes (kids p)).
Definition ktrees (kids : Z -> ltree) (R : list Z) : list Z := R ≫= fun p => ltrees (kids p).

Lemma knodes_cons kids p R : knodes kids (p :: R) ≡ₚ p :: lnodes (kids p) ++ knodes kids R.
Proof. unfold knodes. cbn. solve_Permutation. Qed.

Lemma knodes_elems q T kids : knodes kids (postorder T) ≡ₚ lnodes (LT q T kids).
Proof. unfold knodes. cbn [lnodes]. by rewrite postorder_elems. Qed.

Lemma ktrees_elems q T kids : q :: ktrees kids (postorder T) ≡ₚ ltrees (LT q T kids).
Proof. unfold ktrees. cbn [ltrees]. by rewrite postorder_elems. Qed.

(** The tree under [p] killed, as the loop of lv_killarray does. *)
Definition kill_child (fuel : nat) (st : lvstate) (p : Z) (n : lvTreeNode) : res lvstate :=
  if negb (sbs_child n =? NULL) then
    st ← modify_node (with_child NULL) p st;
    t ← res_of (trees st !! sbs_child n);
    first ← lvAvlTreeFirstPostOrder (nodes st) (core t);
    kill_nodes fuel st (sbs_child n) first
  else Ok st.

Definition child_killed (t : ltree) : Prop := forall base fuel st p n Un Ut,
  (length (lnodes t) + length (ltrees t) <= fuel)%nat ->
  nodes st !! p = Some n -> sbs_child n = lroot t -> nodes st !! NULL = None -> lwf base st p t ->
  NoDup (p :: lnodes t ++ Un) -> NoDup (ltrees t ++ Ut) ->
  npool_ok st (p :: lnodes t ++ Un) -> tpool_ok st (ltrees t ++ Ut) ->
  exists st', kill_child fuel st p n = Ok st' /\ npool_ok st' (p :: Un) /\ tpool_ok st' Ut /\
    links_same (nodes st) (nodes st') /\ nodes st' !! p = Some (with_child NULL n) /\
    (forall x, x ∉ p :: lnodes t -> nodes st' !! x = nodes st !! x) /\
    (forall y, y ∉ ltrees t -> trees st' !! y = trees st !! y) /\ active_lv st' = active_lv st.

Definition nodes_killed (base q : Z) (T : tree) (kids : Z -> ltree) (R : list Z) : Prop := forall fuel st A Un Ut,
  (length (knodes kids R) + length (ktrees kids R) < fuel)%nat ->
  postorder T = A ++ R -> (exists lvt, tree_wf (nodes st) lvt T) -> q <> NULL ->
  (forall p, p ∈ R ->
    (exists n, nodes st !! p = Some n /\ no_alias n /\ sbs_child n = lroot (kids p)) /\ lwf base st p (kids p)) ->
  NoDup (knodes kids R ++ Un) -> NoDup (q :: ktrees kids R ++ Ut) ->
  npool_ok st (knodes kids R ++ Un) -> tpool_ok st (q :: ktrees kids R ++ Ut) ->
  exists st', kill_nodes fuel st q (head0 R) = Ok st' /\ npool_ok st' Un /\ tpool_ok st' Ut /\
    links_same (nodes st) (nodes st') /\
    (forall x, x ∉ knodes kids R -> nodes st' !! x = nodes st !! x) /\
    (forall y, y ∉ q :: ktrees kids R -> trees st' !! y = trees st !! y) /\ active_lv st' = active_lv st.

(** One turn of the loop, at a node [p] of which [R] follow. *)
Lemma kill_turn base q T kids p R :
  child_killed (kids p) -> nodes_killed base q T kids R -> nodes_killed base q T kids (p :: R).
Proof.
  intros HC HR fuel st A Un Ut Hf ET [lvt Hwf] Nq Hk Hn Ht Hpn Hpt.
  destruct (Hk p) as [(n & En & Hna & Ec) Hkid]; [by left|].
  assert (H0 : nodes st !! NULL = None) by (destruct Hwf as (H0 & _); unfold linkm in H0; rewrite lookup_fmap in H0; by destruct (nodes st !! NULL)).
  assert (Np : p <> NULL) by (intros ->; congruence).
  assert (Pn : knodes kids (p :: R) ++ Un ≡ₚ p :: lnodes (kids p) ++ knodes kids R ++ Un) by (rewrite knodes_cons; solve_Permutation).
  assert (Pt : q :: ktrees kids (p :: R) ++ Ut ≡ₚ ltrees (kids p) ++ q :: ktrees kids R ++ Ut) by (unfold ktrees; cbn; solve_Permutation).
  assert (Hf' : (length (lnodes (kids p)) + length (ltrees (kids p)) + length (knodes kids R) + length (ktrees kids R) + 1 < fuel)%nat).
  { rewrite knodes_cons in Hf. unfold ktrees in *. cbn in Hf. rewrite !length_app in Hf. lia. }
  rewrite Pn in Hn. rewrite Pt in Ht.
  assert (Hpn1 : npool_ok st (p :: lnodes (kids p) ++ knodes kids R ++ Un)) by (eapply pool_subset; [|exact Hpn]; intros x; by rewrite Pn).
  assert (Hpt1 : tpool_ok st (ltrees (kids p) ++ q :: ktrees kids R ++ Ut)) by (eapply pool_subset; [|exact Hpt]; intros x; by rewrite Pt).
  destruct fuel as [|fuel]; [lia|]. cbn [kill_nodes head0]. destruct (Z.eqb_spec p NULL) as [|_]; [done|].
  rewrite (next_post_spec _ _ _ _ _ _ Hwf ET). cbn [mbind res_bind]. unfold deref at 1. rewrite En. cbn [res_of mbind res_bind].
  destruct (HC base fuel st p n (knodes kids R ++ Un) (q :: ktrees kids R ++ Ut)) as
    (st1 & E1 & Hpn2 & Hpt2 & L1 & En1 & Sn1 & St1 & A1); try done; [lia|]. unfold kill_child in E1.
  cbv zeta. rewrite E1. cbn [mbind res_bind]. unfold DECR_AC_REF, deref. rewrite En1. cbn [res_of mbind res_bind].
  replace (has MV_ALIASCONT (nd_v (with_child NULL n))) with false by (symmetry; exact Hna). cbn [mbind res_bind].
  apply NoDup_cons in Hn as [Hpl Hn].
  destruct (free_node_spec st1 p _ (knodes kids R ++ Un) _ Hpn2 ltac:(by left) Np En1) as
    (st2 & E2 & Hpn3 & L2 & Sn2 & Etr & Etp & A2).
  { intros x Hx. split; [by right|]. intros ->. apply Hpl, elem_of_app. by right. }
  apply res_bind_inv in E2 as (st1' & -> & E2). cbn [mbind res_bind]. rewrite E2. cbn [mbind res_bind].
  apply NoDup_app in Hn as (_ & Hnd & Hn). apply NoDup_app in Ht as (_ & Htd & Ht).
  assert (Hsame : forall x, x ∈ knodes kids R -> nodes st2 !! x = nodes st !! x).
  { intros x Hx. rewrite Sn2, Sn1; [done| |].
    - intros [->|Hx']%elem_of_cons; [apply Hpl, elem_of_app; right; apply elem_of_app; by left|].
      apply (Hnd x Hx'), elem_of_app. by left.
    - intros ->. apply Hpl, elem_of_app. right. apply elem_of_app. by left. }
  assert (Hsamet : forall y, y ∈ ktrees kids R -> trees st2 !! y = trees st !! y).
  { intros y Hy. rewrite Etr. apply St1. intros Hy'. apply (Htd y Hy'). right. apply elem_of_app. by left. }
  assert (L : links_same (nodes st) (nodes st2)) by (by etrans).
  destruct (HR fuel st2 (A ++ [p]) Un Ut) as (st3 & E3 & Hpn4 & Hpt4 & L3 & Sn3 & St3 & A3); [lia| | |done| |done|done|done| |].
  - by rewrite ET, <- app_assoc.
  - exists lvt. by eapply links_same_wf.
  - intros x Hx. destruct (Hk x) as [(m & Em & Hm) Hkx]; [by right|].
    assert (Hi : x ∈ knodes kids R) by (apply elem_of_app; by left).
    assert (Hb : forall y, y ∈ lnodes (kids x) -> y ∈ knodes kids R).
    { intros y Hy. apply elem_of_app. right. apply list_elem_of_bind. by exists x. }
    assert (Hbt : forall y, y ∈ ltrees (kids x) -> y ∈ ktrees kids R) by (intros y Hy; apply list_elem_of_bind; by exists x).
    split; [exists m; by rewrite Hsame|]. eapply lwf_frame; [| | |exact Hkx].
    + intros y Hy. by apply Hsame, Hb.
    + intros y Hy. by apply Hsamet, Hbt.
    + by eapply links_same_none.
  - unfold Lvown.tpool_ok. rewrite Etr, Etp. exact Hpt2.
  - exists st3. split; [done|]. split; [done|]. split; [done|]. split; [by etrans|]. split; [|split; [|congruence]].
    + intros x Hx. rewrite knodes_cons, !not_elem_of_cons, not_elem_of_app in Hx. destruct Hx as (Hxp & Hxk & HxR).
      rewrite Sn3, Sn2, Sn1; [done| |done|done]. by apply not_elem_of_cons.
    + intros y Hy. unfold ktrees in Hy. cbn in Hy. rewrite not_elem_of_cons, not_elem_of_app in Hy. destruct Hy as (Hyq & Hyk & HyR).
      rewrite St3, Etr, St1; [done|done|]. by apply not_elem_of_cons.
Qed.

Lemma kill_end base q T kids : nodes_killed base q T kids [].
Proof.
  intros fuel st A Un Ut Hf ET Hwf Nq Hk Hn Ht Hpn Hpt. destruct fuel as [|fuel]; [simpl in Hf; lia|].
  cbn [kill_nodes head0]. rewrite Z.eqb_refl.
  destruct (free_tree_spec st q _ Ut Hpt ltac:(by left) Nq) as (st' & E & Hpt' & St & En & Enp & Ea).
  { intros y Hy. cbn in Ht. apply NoDup_cons in Ht as [Hq Ht]. split; [by right|]. by intros ->. }
  exists st'. split; [done|]. split; [unfold Lvown.npool_ok; by rewrite En, Enp|]. split; [done|]. rewrite En.
  split; [done|]. split; [done|]. split; [|done]. intros y Hy. apply St. intros ->. apply Hy. by left.
Qed.

Lemma child_killed_all t : child_killed t.
Proof.
  induction t as [|q T kids IH]; intros base fuel st p n Un Ut Hf En Ec H0 Hw Hn Ht Hpn Hpt; unfold kill_child; rewrite Ec.
  { exists st. cbn [lroot]. rewrite Z.eqb_refl. split; [done|]. split; [done|]. split; [done|]. split; [done|].
    split; [|done]. rewrite En. f_equal. clear -Ec. destruct n. cbn in Ec. unfold with_child. cbn. by rewrite Ec. }
  destruct Hw as ((ts & Ets & _ & _ & _ & Hlw) & Hne & Nq & Hk). cbn [lroot]. destruct (Z.eqb_spec q NULL) as [|_]; [done|].
  cbn [negb]. rewrite (modify_node_eq _ p st n En). cbn [mbind res_bind]. set (st1 := with_nodes _ st).
  change (trees st1 !! q) with (trees st !! q). rewrite Ets. cbn [res_of mbind res_bind].
  assert (Pl : knodes kids (postorder T) ≡ₚ lnodes (LT q T kids)) by apply knodes_elems.
  assert (Pt : q :: ktrees kids (postorder T) ≡ₚ ltrees (LT q T kids)) by apply ktrees_elems.
  assert (L1 : links_same (nodes st) (nodes st1)) by (by eapply links_same_insert).
  assert (Hwf1 : tree_wf (nodes st1) (core ts) T) by (eapply links_same_wf; [exact L1|apply Hlw]).
  rewrite (first_post_spec _ _ _ Hwf1). cbn [mbind res_bind].
  assert (Hpl : p ∉ lnodes (LT q T kids)) by (intros Hx; apply NoDup_cons in Hn as [Hn _]; apply Hn, elem_of_app; by left).
  assert (Hsame : forall x, x ∈ lnodes (LT q T kids) -> nodes st1 !! x = nodes st !! x).
  { intros x Hx. cbn. apply lookup_insert_ne. by intros ->. }
  assert (HR : nodes_killed base q T kids (postorder T)).
  { generalize (postorder T). intros R. induction R as [|x R IHR]; [apply kill_end|]. by apply kill_turn. }
  destruct (HR fuel st1 [] (p :: Un) Ut) as (st' & E & Hpn' & Hpt' & L & Sn & St & A); try done.
  - apply Permutation_length in Pl, Pt. cbn [length] in Pt. lia.
  - by exists (core ts).
  - intros x Hx. rewrite postorder_elems in Hx. destruct (Hk x Hx) as [(m & Em & _ & Hm) Hkid]. split.
    + exists m. by rewrite Hsame by (by apply own_node).
    + eapply lwf_frame; [| | |exact Hkid]; [|done|by eapply links_same_none].
      intros y Hy. apply Hsame. by eapply kid_nodes.
  - rewrite Pl. rewrite <- Permutation_middle. done.
  - rewrite app_comm_cons, Pt. done.
  - eapply pool_subset; [|apply npool_insert; [exact Hpn|by left]]. intros x. rewrite Pl, <- Permutation_middle. done.
  - eapply pool_subset; [|exact Hpt]. intros x. by rewrite app_comm_cons, Pt.
  - exists st'. split; [done|]. split; [done|]. split; [done|]. split; [by etrans|]. split; [|split; [|split; [|done]]].
    + rewrite Sn by (by rewrite Pl). cbn. by rewrite lookup_insert_eq.
    + intros x [Hxp Hx]%not_elem_of_cons. rewrite Sn by (by rewrite Pl). cbn. by apply lookup_insert_ne.
    + intros y Hy. apply St. by rewrite Pt.
Qed.

(** As lv_kill does it, the fuel of lv_killarray being enough. *)
Lemma killarray_spec base st p t Un Ut :
  own base st p t Un Ut ->
  exists n st', nodes st !! p = Some n /\
    (if negb (sbs_child n =? NULL) then
       st ← modify_node (with_child NULL) p st; lv_killarray st (sbs_child n)
     else Ok st) = Ok st' /\
    own base st' p LNil Un Ut /\ nodes st' !! p = Some (with_child NULL n) /\
    (forall x, x ∈ Un -> nodes st' !! x = nodes st !! x) /\
    (forall y, y ∈ Ut -> trees st' !! y = trees st !! y) /\ active_lv st' = active_lv st.
Proof.
  intros [(Np & H0 & (n & En & Ec & Hna) & Hn & Ht & Hpn & Hpt) Hw]. exists n.
  assert (Hfuel : (length (lnodes t) + length (ltrees t) <= kfuel st)%nat).
  { assert (Hl : forall {A} (m : gmap Z A) l, NoDup l -> (forall x, x ∈ l -> is_Some (m !! x)) -> (length l <= size m)%nat).
    { intros A m l Hnd Hd. rewrite <- size_dom, <- (size_list_to_set (C := gset Z) l) by done.
      apply subseteq_size. intros x Hx. apply elem_of_list_to_set, Hd in Hx. by apply elem_of_dom. }
    assert (length (lnodes t) <= size (nodes st))%nat.
    { apply Hl; [apply NoDup_cons in Hn as [_ Hn]; by apply NoDup_app in Hn as [? _]|]. intros x Hx.
      destruct Hpn as (_ & _ & _ & _ & _ & Hd). apply Hd. right. apply elem_of_app. by left. }
    assert (length (ltrees t) <= size (trees st))%nat.
    { apply Hl; [by apply NoDup_app in Ht as [? _]|]. intros x Hx.
      destruct Hpt as (_ & _ & _ & _ & _ & Hd). apply Hd, elem_of_app. by left. }
    unfold kfuel. lia. }
  destruct (child_killed_all t base (kfuel st) st p n Un Ut) as (st' & E & Hpn' & Hpt' & L & En' & Sn & St & A); try done.
  exists st'. split; [done|]. split.
  - rewrite <- E. unfold kill_child. destruct (sbs_child n =? NULL); [done|]. cbn [negb].
    rewrite (modify_node_eq _ p st n En). cbn [mbind res_bind]. unfold lv_killarray, kfuel. cbn [nodes trees with_nodes].
    rewrite map_size_insert_Some by done. done.
  - apply NoDup_cons in Hn as [Hpl Hn]. rewrite not_elem_of_app in Hpl. apply NoDup_app in Hn as (_ & Hnd & Hn).
    split; [|split; [done|split; [|split; [|done]]]].
    + split; [|done]. split; [done|]. split; [by eapply links_same_none|]. split; [by exists (with_child NULL n)|].
      split; [constructor; by try apply Hpl|]. split; [by apply NoDup_app in Ht as (_ & _ & ?)|]. done.
    + intros x Hx. apply Sn. intros [->|Hx']%elem_of_cons; [by apply Hpl|]. by apply (Hnd x Hx').
    + intros y Hy. apply St. intros Hy'. apply NoDup_app in Ht as (_ & Ht & _). by apply (Ht y Hy').
Qed.

(** ** One node, and the level that it leaves empty *)

Lemma found_tview h h' T k x :
  (forall y, y ∈ elems T -> tview <$> h' !! y = tview <$> h !! y) -> found h T k x -> found h' T k x.
Proof.
  intros Ha (c & l & r & ET & Hd & Ek). exists c, l, r. split; [done|].
  assert (Hg : forall {A} (f : lvTreeNode -> A) y, (forall n, f (tview n) = f n) -> y ∈ elems T -> (f <$> h') !! y = (f <$> h) !! y).
  { intros A f y Hf Hy. apply Ha in Hy. rewrite !lookup_fmap. destruct (h' !! y) as [n|], (h !! y) as [m|]; try done.
    change (Some (tview n) = Some (tview m)) in Hy. apply Some_inj in Hy. cbn. by rewrite <- Hf, Hy, Hf. }
  split.
  - eapply dirs_frame; [|exact Hd]. intros y Hy. apply Hg; [done|]. rewrite ET, plug_perm. apply elem_of_app. by right.
  - rewrite <- Ek. apply tview_sview_key, Ha. rewrite ET, plug_elems. set_solver.
Qed.

Lemma del_nodes q T T' kids x :
  elems T ≡ₚ x :: elems T' -> kids x = LNil ->
  lnodes (LT q T kids) ≡ₚ x :: lnodes (LT q T' kids) /\ ltrees (LT q T kids) ≡ₚ ltrees (LT q T' kids).
Proof.
  intros E Ex. cbn [lnodes ltrees]. rewrite !E. cbn. rewrite Ex. by split.
Qed.

Definition delete_and_free (st : lvstate) (x : Z) : res (lvstate * Z * lvts * lvTree) :=
  n ← deref (nodes st) x;
  st ← clear_value x st;
  t ← res_of (trees st !! tree_parent n);
  '(h, c) ← lvAvlTreeNodeDelete (nodes st) (core t) x;
  st ← LVTREENODE_FREESLOT (with_trees (<[tree_parent n := with_core c t]> (trees st)) (with_nodes h st)) x;
  Ok (st, tree_parent n, t, c).

Lemma delete_and_free_spec st q ts T U U' k x n :
  npool_ok st U -> (forall y, y ∈ elems T -> y ∈ U) -> (forall y, y ∈ U' -> y ∈ U /\ y <> x) ->
  trees st !! q = Some ts -> lv_wf (nodes st) (core ts) T -> found (nodes st) T k x ->
  nodes st !! x = Some n -> tree_parent n = q ->
  exists st' c T', delete_and_free st x = Ok (st', q, ts, c) /\ lv_wf (nodes st') c T' /\
    entries (keym (nodes st')) (elems T') = ddel (entries (keym (nodes st)) (elems T)) k /\
    elems T ≡ₚ x :: elems T' /\ lvt_ptr c = lvt_ptr (core ts) /\
    (forall y, y ∈ elems T' -> restm (nodes st') !! y = restm (nodes st) !! y) /\
    (forall y, y ∉ elems T -> nodes st' !! y = nodes st !! y) /\
    npool_ok st' U' /\ trees st' = <[q := with_core c ts]> (trees st) /\ tree_pool st' = tree_pool st.
Proof.
  intros Hpn HT HU Ets Hw Hf En Eq. assert (H0 := wf_null _ _ _ Hw).
  assert (Hx : x ∈ elems T) by (by apply found_in in Hf as [? _]).
  assert (Nx : x <> NULL) by (intros ->; congruence).
  unfold delete_and_free, deref. rewrite En. cbn [res_of mbind res_bind]. rewrite Eq.
  unfold clear_value. rewrite (modify_node_eq _ x st n En). cbn [mbind res_bind].
  set (st1 := with_nodes _ st). change (trees st1 !! q) with (trees st !! q). rewrite Ets. cbn [res_of mbind res_bind].
  assert (Hv : forall y, tview <$> nodes st1 !! y = tview <$> nodes st !! y).
  { intros y. cbn. destruct (decide (x = y)) as [->|Hne]; [by rewrite lookup_insert_eq, En|by rewrite lookup_insert_ne]. }
  assert (H01 : nodes st1 !! NULL = None) by (cbn; by rewrite lookup_insert_ne).
  assert (Hw1 : lv_wf (nodes st1) (core ts) T) by (eapply lv_wf_same; [intros y _; apply Hv|exact H01|exact Hw]).
  assert (Hf1 : found (nodes st1) T k x) by (eapply found_tview; [intros y _; apply Hv|exact Hf]).
  destruct (delete_dict _ _ _ _ _ Hw1 Hf1) as (h & c & T' & Ed & Hw2 & Ee & EP & Eptr & ER).
  pose proof (delete_frame _ _ _ _ _ _ _ Hw1 Hf1 Ed) as S. rewrite Ed. cbn [mbind res_bind].
  assert (HnT : NoDup (elems T)) by (by destruct Hw as ((_ & _ & ? & _) & _)).
  assert (HxT : x ∉ elems T') by (rewrite EP in HnT; by apply NoDup_cons in HnT as [? _]).
  set (st2 := with_trees _ (with_nodes h st1)).
  assert (Hpn2 : npool_ok st2 U).
  { assert (Hpn1 : npool_ok st1 U) by (apply npool_insert; [done|by apply HT]). unfold Lvown.npool_ok in *.
    eapply pool_agree; [| |exact Hpn1].
    - intros y Hy. apply S. intros Hy'. by apply Hy, HT.
    - intros y Hy. destruct Hpn1 as (_ & _ & _ & _ & _ & Hd). apply Hd in Hy as [m Em].
      assert (Er : restm h !! y = restm (nodes st1) !! y) by (by rewrite ER).
      destruct (rest_same _ _ _ _ Er Em) as (m' & Em' & _). eexists; exact Em'. }
  destruct (freeslot_spec node_size sbs_child node_free (fun _ _ => eq_refl) (nodes st2) (node_pool st2) U x Hpn2 (HT x Hx) Nx)
    as (n2 & En2 & Efree & Hfree).
  unfold LVTREENODE_FREESLOT. rewrite Efree. cbn [mbind res_bind].
  exists (with_npool (mk_pool x (first_block (node_pool st2))) (with_nodes (<[x:=node_free (flist (node_pool st2)) n2]> (nodes st2)) st2)), c, T'.
  split; [done|]. cbn [nodes with_npool with_nodes trees tree_pool].
  assert (Hsame : forall y, y ∈ elems T' -> <[x:=node_free (flist (node_pool st2)) n2]> h !! y = h !! y).
  { intros y Hy. apply lookup_insert_ne. by intros ->. }
  split; [|split; [|split; [done|split; [done|split; [|split; [|split; [|done]]]]]]].
  - eapply lv_wf_agree; [exact Hsame| |exact Hw2]. rewrite lookup_insert_ne by done. by eapply wf_null.
  - rewrite (entries_ext (keym h)).
    + rewrite Ee. f_equal. apply entries_ext. intros y Hy. by apply tview_sview_key.
    + intros y Hy. unfold keym, restm. rewrite !lookup_fmap. change (nodes st2) with h. by rewrite Hsame.
  - intros y Hy. unfold restm. rewrite !lookup_fmap. change (nodes st2) with h. rewrite Hsame, <- lookup_fmap by done.
    change (rest <$> h) with (restm h). rewrite ER. unfold restm. rewrite lookup_fmap. cbn. by rewrite lookup_insert_ne by (by intros ->).
  - intros y Hy. rewrite lookup_insert_ne by (by intros ->). change (nodes st2) with h. rewrite S by done. cbn.
    apply lookup_insert_ne. by intros ->.
  - by apply Hfree.
Qed.

(** What lv_kill does when the tree under [lv] is gone. *)
Definition after_level (fuel : nat) (st : lvstate) (base lv : Z) : res lvstate :=
  n ← deref (nodes st) lv;
  if MV_DEFINED (nd_v n) then Ok st else if lv =? base then clear_value lv st else kill_up fuel st base lv.

Lemma kill_up_step fuel st base x :
  kill_up (S fuel) st base x =
    ('(st, lvt, t, c) ← delete_and_free st x;
     if negb (avl_height c =? 0) then Ok st
     else
       st ← modify_node (with_child NULL) (sbs_parent t) st;
       st ← LVTREE_FREESLOT st lvt;
       after_level fuel st base (sbs_parent t)).
Proof.
  cbn [kill_up]. unfold delete_and_free. destruct (deref (nodes st) x) as [n|]; cbn [mbind res_bind]; [|done].
  destruct (clear_value x st) as [st1|]; cbn [mbind res_bind]; [|done].
  destruct (res_of (trees st1 !! tree_parent n)) as [ts|]; cbn [mbind res_bind]; [|done].
  destruct (lvAvlTreeNodeDelete _ _ _) as [[h c]|]; cbn [mbind res_bind]; [|done].
  by destruct (LVTREENODE_FREESLOT _ _).
Qed.

(** What is not below [lv], and [lv] but for its child. *)
Definition outside (st st' : lvstate) (lv : Z) (Un Ut : list Z) : Prop :=
  (forall x, x ∈ Un -> nodes st' !! x = nodes st !! x) /\ (forall y, y ∈ Ut -> trees st' !! y = trees st !! y) /\
  tview <$> nodes st' !! lv = tview <$> nodes st !! lv /\ sview <$> nodes st' !! lv = sview <$> nodes st !! lv.

Definition gone (ks : list lkey) (st st' : lvstate) (lv : Z) (t t' : ltree) : Prop :=
  forall ks', sem (nodes st') lv t' ks' = if decide (ks `prefix_of` ks') then None else sem (nodes st) lv t ks'.

Lemma gone_level st st' lv q T T' kids k x :
  dget (entries (keym (nodes st)) (elems T)) k = Some x ->
  entries (keym (nodes st')) (elems T') = ddel (entries (keym (nodes st)) (elems T)) k ->
  sview <$> nodes st' !! lv = sview <$> nodes st !! lv ->
  (forall y z, y ∈ elems T -> y <> x -> z ∈ y :: lnodes (kids y) -> sview <$> nodes st' !! z = sview <$> nodes st !! z) ->
  keym (nodes st) !! x = Some k -> NoDup (elems T) ->
  gone [k] st st' lv (LT q T kids) (LT q T' kids).
Proof.
  intros Ex Ee Hlv Hs Kx HnT [|k' ks].
  { rewrite decide_False by (by intros ?%prefix_nil_inv). 
    change (node_value (nodes st') lv = node_value (nodes st) lv). by apply value_sview. }
  rewrite !sem_cons, Ee, dget_ddel. destruct (decide (k' = k)) as [->|Hne].
  - rewrite decide_True; [done|]. apply prefix_cons, prefix_nil.
  - rewrite decide_False by (intros ?%prefix_cons_inv_1; done).
    destruct (dget _ k') as [y|] eqn:Ey; [|done]. cbn. apply dget_in in Ey as [Hy Ky].
    apply sem_frame. intros z. apply Hs; [done|]. intros ->. congruence.
Qed.

Lemma paths_level st st' lv q T T' kids k x ks :
  dget (entries (keym (nodes st)) (elems T)) k = Some x ->
  entries (keym (nodes st')) (elems T') = ddel (entries (keym (nodes st)) (elems T)) k ->
  (forall y z, y ∈ elems T -> y <> x -> z ∈ y :: lnodes (kids y) -> sview <$> nodes st' !! z = sview <$> nodes st !! z) ->
  path (nodes st') lv (LT q T' kids) ks -> ks <> [] -> path (nodes st) lv (LT q T kids) ks /\ ~ [k] `prefix_of` ks.
Proof.
  intros Ex Ee Hs Hp Hn. destruct ks as [|k' ks]; [done|]. apply path_cons in Hp as (y & Ed & Hp).
  rewrite Ee, dget_ddel in Ed. destruct (decide (k' = k)) as [|Hne]; [done|].
  split; [|by intros ?%prefix_cons_inv_1]. apply path_cons. exists y. split; [done|].
  apply dget_in in Ex as [_ Kx], Ed as [Hy Ky]. eapply path_frame; [|exact Hp]. intros z Hz. apply keym_sview, (Hs y); [done| |by right].
  intros ->. congruence.
Qed.

Lemma live_gone ks st st' lv t t' :
  gone ks st st' lv t t' -> live_off ks (nodes st) lv t ->
  (forall ks1, path (nodes st') lv t' ks1 -> ks1 <> [] -> path (nodes st) lv t ks1 /\ ~ ks1 `prefix_of` ks /\ ~ ks `prefix_of` ks1) ->
  live (nodes st') lv t'.
Proof.
  intros Hg HL Hpa ks1 Hn Hp. destruct (Hpa ks1 Hp Hn) as (Hp1 & Hn1 & Hn2).
  destruct (HL ks1 Hn Hp1 Hn1) as (ks' & Hv). exists ks'. rewrite Hg, decide_False; [done|]. intros Hp2.
  destruct (prefix_weak_total ks ks1 (ks1 ++ ks') Hp2); [by eexists|done|done].
Qed.

Lemma sem_leaf h lv q kids ks : sem h lv LNil ks = sem h lv (LT q Leaf kids) ks.
Proof. by destruct ks. Qed.

(** What is left of a level. *)
Definition left_over (q : Z) (T' : tree) (kids : Z -> ltree) : ltree :=
  match T' with Leaf => LNil | _ => LT q T' kids end.

(** The level [T] without [x], its slot included: as [own0] still. *)
Lemma level_deleted base st st' lv q T T' kids Un Ut k x ts c :
  own base st lv (LT q T kids) Un Ut -> x ∈ elems T -> kids x = LNil ->
  trees st !! q = Some ts -> lv_wf (nodes st') c T' ->
  entries (keym (nodes st')) (elems T') = ddel (entries (keym (nodes st)) (elems T)) k ->
  elems T ≡ₚ x :: elems T' -> lvt_ptr c = lvt_ptr (core ts) ->
  (forall y, y ∈ elems T' -> restm (nodes st') !! y = restm (nodes st) !! y) ->
  (forall y, y ∉ elems T -> nodes st' !! y = nodes st !! y) ->
  npool_ok st' (lv :: lnodes (LT q T' kids) ++ Un) ->
  trees st' = <[q := with_core c ts]> (trees st) -> tree_pool st' = tree_pool st ->
  own0 node_size tree_size base st' lv q T' kids Un Ut /\ outside st st' lv Un Ut.
Proof.
  intros [(Nlv & H0 & (n & En & Ec & Hna) & Hn & Ht & Hpn & Hpt) Hw] Hx Ekx Ets Hw' Ee EP Eptr HR HS Hpn' Etr Etp.
  destruct Hw as ((ts' & E1 & Esp & Eb & Elp & Hlw) & Hne & Nq & Hk). rewrite Ets in E1. injection E1 as <-.
  destruct (del_nodes q T T' kids x EP Ekx) as [Pn Pt].
  assert (HlvT : lv ∉ elems T).
  { apply NoDup_cons in Hn as [Hn _]. intros Hi. apply Hn, elem_of_app. left. by apply own_node. }
  assert (Elv : nodes st' !! lv = nodes st !! lv) by (by apply HS).
  assert (Hn' : NoDup (lv :: lnodes (LT q T' kids) ++ Un)).
  { rewrite Pn in Hn. apply NoDup_cons in Hn as [Hl Hn]. cbn [app] in *. apply NoDup_cons in Hn as [_ Hn].
    constructor; [|done]. intros Hi. apply Hl. by right. }
  assert (Ht' : NoDup (ltrees (LT q T' kids) ++ Ut)) by (by rewrite <- Pt).
  assert (HU : forall y, y ∈ Un -> y ∉ elems T).
  { intros y Hy Hi. apply NoDup_cons in Hn as [_ Hn]. apply NoDup_app in Hn as (_ & Hn & _). by apply (Hn y); [apply own_node|]. }
  assert (HUt : forall y, y ∈ Ut -> trees st' !! y = trees st !! y).
  { intros y Hy. rewrite Etr. apply lookup_insert_ne. intros <-. cbn in Ht. apply NoDup_cons in Ht as [Ht _].
    apply Ht, elem_of_app. by right. }
  split; [split|].
  - split; [done|]. split; [by eapply wf_null|]. split; [exists n; by rewrite Elv|]. split; [done|]. split; [done|].
    split; [done|]. unfold Lvown.tpool_ok in *. rewrite Etp, Etr.
    eapply pool_subset; [|eapply pool_agree; [| |exact Hpt]].
    + intros y. by rewrite Pt.
    + intros y Hy. apply lookup_insert_ne. intros ->. apply Hy. cbn. by left.
    + intros y Hy. destruct (decide (q = y)) as [->|Hqy]; [rewrite lookup_insert_eq; by eexists|].
      rewrite lookup_insert_ne by done. destruct Hpt as (_ & _ & _ & _ & _ & Hd). by apply Hd.
  - split; [|split; [done|]].
    + exists (with_core c ts). rewrite Etr, lookup_insert_eq. split; [done|]. split; [done|]. split; [done|]. split; [|done]. cbn. by rewrite Eptr.
    + intros y Hy. assert (HyT : y ∈ elems T) by (rewrite EP; by right). destruct (Hk y HyT) as [(m & Em & Etm & Hma & Ecm) Hkid]. split.
      * destruct (rest_same _ _ _ _ (HR y Hy) Em) as (m' & Em' & E1 & E2 & E3 & _). exists m'. unfold no_alias. by rewrite E1, E2, E3.
      * eapply lwf_frame; [| |by eapply wf_null|exact Hkid].
        { intros z Hz. apply HS. intros HzT. apply NoDup_cons in Hn as [_ Hn]. cbn [lnodes] in Hn. rewrite <- app_assoc in Hn.
          apply NoDup_app in Hn as (_ & Hn & _). apply (Hn z HzT), elem_of_app. left. apply list_elem_of_bind. by exists y. }
        { intros z Hz. rewrite Etr. apply lookup_insert_ne. intros <-. cbn in Ht. apply NoDup_cons in Ht as [Ht _].
          apply Ht, elem_of_app. left. apply list_elem_of_bind. by exists y. }
  - split; [intros y Hy; by apply HS, HU|]. split; [done|]. by rewrite Elv.
Qed.

(** The empty tree given back. *)
Lemma level_freed base st lv q kids Un Ut :
  own0 node_size tree_size base st lv q Leaf kids Un Ut ->
  exists st', (st ← modify_node (with_child NULL) lv st; LVTREE_FREESLOT st q) = Ok st' /\
    own base st' lv LNil Un Ut /\ outside st st' lv Un Ut.
Proof.
  intros [(Nlv & H0 & (n & En & Ec & Hna) & Hn & Ht & Hpn & Hpt) Hw]. destruct Hw as (_ & Nq & _).
  rewrite (modify_node_eq _ lv st n En). cbn [mbind res_bind]. set (st1 := with_nodes _ st). cbn [lnodes ltrees elems app] in *.
  destruct (free_tree_spec st1 q _ Ut Hpt ltac:(by left) Nq) as (st' & E & Hpt' & St & Enn & Enp & Ea).
  { intros y Hy. split; [by right|]. intros ->. by apply NoDup_cons in Ht as [? _]. }
  assert (Hlv : nodes st' !! lv = Some (with_child NULL n)) by (rewrite Enn; cbn; by rewrite lookup_insert_eq).
  assert (HU : forall x, x <> lv -> nodes st' !! x = nodes st !! x) by (intros x Hx; rewrite Enn; cbn; by rewrite lookup_insert_ne).
  exists st'. split; [done|]. split; [split; [|done]|].
  - split; [done|]. split; [by rewrite HU|]. split; [by exists (with_child NULL n)|]. split; [done|].
    split; [by apply NoDup_cons in Ht as [_ ?]|]. split; [|done]. unfold Lvown.npool_ok. rewrite Enn, Enp.
    apply npool_insert; [done|by left].
  - split; [intros x Hx; apply HU; intros ->; by apply NoDup_cons in Hn as [? _]|].
    split; [|by rewrite Hlv, En]. intros y Hy. apply St. intros ->. by apply NoDup_cons in Ht as [? _].
Qed.

Lemma outside_trans st1 st2 st3 lv Un Ut : outside st1 st2 lv Un Ut -> outside st2 st3 lv Un Ut -> outside st1 st3 lv Un Ut.
Proof.
  intros (A1 & B1 & C1 & D1) (A2 & B2 & C2 & D2). split; [|split; [|split; congruence]].
  - intros x Hx. by rewrite A2, A1.
  - intros y Hy. by rewrite B2, B1.
Qed.

Lemma height_leaf h c T : tree_wf h c T -> (avl_height c =? 0) = (addr T =? NULL).
Proof.
  intros (H0 & Hr & _ & _ & _ & ->). destruct T as [|l p r]; [done|].
  cbn [addr height]. destruct (Z.eqb_spec p NULL) as [->|_]; [|by destruct (Z.eqb_spec (Z.of_nat (S (Nat.max (height l) (height r)))) 0); [lia|]].
  exfalso. apply (rep_null_notin _ _ _ Hr). by apply (addr_in (Node l NULL r)).
Qed.

Lemma found_dget h T k x : ordered (keym h) T -> found h T k x -> dget (entries (keym h) (elems T)) k = Some x.
Proof.
  intros Ho Hf. destruct (found_dict h T k x Ho Hf) as (m1 & m2 & -> & Hb & _). rewrite dget_below by done.
  cbn. by rewrite decide_True.
Qed.

Lemma kill_level base st lv q T kids Un Ut k x fuel :
  own base st lv (LT q T kids) Un Ut -> found (nodes st) T k x -> kids x = LNil ->
  exists st' t', kill_up (S fuel) st base x = (if lroot t' =? NULL then after_level fuel st' base lv else Ok st') /\
    own base st' lv t' Un Ut /\ outside st st' lv Un Ut /\ gone [k] st st' lv (LT q T kids) t' /\
    (live_off [k] (nodes st) lv (LT q T kids) -> live (nodes st') lv t').
Proof.
  intros Hown Hf Ekx. assert (H1 := Hown). destruct H1 as [(Nlv & _ & _ & Hn & _ & Hpn & _) Hw].
  destruct Hw as ((ts & Ets & Esp & _ & _ & Hlw) & _ & Nq & Hk).
  assert (HnT : NoDup (elems T)) by (by destruct Hlw as ((_ & _ & ? & _) & _)).
  apply found_in in Hf as Hx. destruct Hx as [Hx Kx]. destruct (Hk x Hx) as [(n & En & Etn & _) _].
  assert (Ed : dget (entries (keym (nodes st)) (elems T)) k = Some x) by (eapply found_dget; [apply Hlw|done]).
  assert (HTU : forall y, y ∈ elems T -> y ∈ lv :: lnodes (LT q T kids) ++ Un).
  { intros y Hy. right. apply elem_of_app. left. by apply own_node. }
  assert (Hrest : exists Ur, lv :: lnodes (LT q T kids) ++ Un ≡ₚ x :: Ur).
  { destruct (list_elem_of_split _ _ (HTU x Hx)) as (a & b & ->). exists (a ++ b). solve_Permutation. }
  destruct Hrest as [Ur EU]. assert (Hnx : NoDup (x :: Ur)) by (by rewrite <- EU). apply NoDup_cons in Hnx as [HxU _].
  destruct (delete_and_free_spec st q ts T _ Ur k x n Hpn HTU) as
    (st1 & c & T' & E1 & Hlw1 & Ee & EP & Eptr & HR & HS & Hpn1 & Etr & Etp); try done.
  { intros y Hy. split; [rewrite EU; by right|]. by intros ->. }
  destruct (del_nodes q T T' kids x EP Ekx) as [Pn _].
  assert (EU' : lv :: lnodes (LT q T' kids) ++ Un ≡ₚ Ur).
  { apply (Permutation_cons_inv (a := x)). rewrite <- EU, Pn. solve_Permutation. }
  destruct (level_deleted base st st1 lv q T T' kids Un Ut k x ts c Hown Hx Ekx Ets Hlw1 Ee EP Eptr HR HS) as [Hown1 Ho1]; try done.
  { eapply pool_subset; [|exact Hpn1]. intros y. by rewrite EU'. }
  assert (Hsv : forall y z, y ∈ elems T -> y <> x -> z ∈ y :: lnodes (kids y) -> sview <$> nodes st1 !! z = sview <$> nodes st !! z).
  { intros y z Hy Hyx [->|Hz]%elem_of_cons.
    - rewrite EP in Hy. apply elem_of_cons in Hy as [|Hy]; [done|]. assert (HyT : y ∈ elems T) by (rewrite EP; by right).
      destruct (Hk y HyT) as [(m & Em & _) _].
      destruct (rest_same _ _ _ _ (HR y Hy) Em) as (m' & Em' & _ & _ & _ & Es). rewrite Em', Em. cbn. by rewrite Es.
    - rewrite HS; [done|]. intros HzT. apply NoDup_cons in Hn as [_ Hn]. cbn [lnodes] in Hn. rewrite <- app_assoc in Hn.
      apply NoDup_app in Hn as (_ & Hn & _). apply (Hn z HzT), elem_of_app. left. apply list_elem_of_bind. by exists y. }
  assert (Hg : gone [k] st st1 lv (LT q T kids) (LT q T' kids)) by (eapply gone_level; [exact Ed|exact Ee|apply Ho1|exact Hsv|done|done]).
  assert (HL : live_off [k] (nodes st) lv (LT q T kids) -> live (nodes st1) lv (LT q T' kids)).
  { intros HL. eapply live_gone; [exact Hg|exact HL|]. intros ks1 Hp1 Hn1.
    destruct (paths_level st st1 lv q T T' kids k x ks1 Ed Ee Hsv Hp1 Hn1) as [H1 H2]. split; [done|]. split; [|done].
    intros Hp. apply H2. destruct ks1 as [|k1 ks1]; [done|]. apply prefix_cons_inv_1 in Hp as ->. apply prefix_cons, prefix_nil. }
  rewrite kill_up_step, E1. cbn [mbind res_bind]. rewrite (height_leaf _ _ _ (proj1 Hlw1)), Esp.
  destruct T' as [|l p r].
  - rewrite Z.eqb_refl. cbn [negb]. destruct (level_freed base st1 lv q kids Un Ut Hown1) as (st2 & E2 & Hown2 & Ho2).
    apply res_bind_inv in E2 as (st1' & -> & E2). cbn [mbind res_bind]. rewrite E2. cbn [mbind res_bind].
    exists st2, LNil. cbn [lroot]. rewrite Z.eqb_refl. split; [done|]. split; [done|]. split; [by eapply outside_trans|].
    split; [|intros _ ks Hnn ->%path_leaf; done].
    intros ks. rewrite <- Hg. destruct ks as [|k' ks]; [|done]. change (node_value (nodes st2) lv = node_value (nodes st1) lv).
    apply value_sview, Ho2.
  - exists st1, (LT q (Node l p r) kids). cbn [lroot addr].
    assert (Np : p <> NULL).
    { intros ->. destruct Hlw1 as ((_ & Hr & _) & _). apply (rep_null_notin _ _ _ Hr). by apply (addr_in (Node l NULL r)). }
    destruct (Z.eqb_spec p NULL) as [|_]; [done|]. destruct (Z.eqb_spec q NULL) as [|_]; [done|].
    split; [done|]. split; [by apply own_level|]. by split.
Qed.

(** ** Along a path *)

Lemma own_elems_NoDup base st lv q T kids Un Ut : own base st lv (LT q T kids) Un Ut -> NoDup (elems T).
Proof. intros (_ & ((? & _ & _ & _ & _ & ((_ & _ & ? & _) & _)) & _)). done. Qed.

(** [own_up] in terms of [outside]. *)
Lemma up_outside base st st' lv q T kids t Un Ut x R S :
  own base st lv (LT q T kids) Un Ut -> x ∈ elems T -> focus q T kids x R S ->
  own base st' x t (lv :: R ++ Un) (S ++ Ut) -> outside st st' x (lv :: R ++ Un) (S ++ Ut) ->
  own base st' lv (LT q T (upd kids x t)) Un Ut /\ outside st st' lv Un Ut /\
  (forall y, y ∈ elems T -> tview <$> nodes st' !! y = tview <$> nodes st !! y).
Proof.
  intros Hown Hx HF Hown' (An & At & Av & As). split; [|split; [split; [|split; [|split]]|]].
  - eapply (own_up node_size tree_size base st st'); [done|done|done| |by rewrite upd_eq|done|done|done].
    intros z Hz. by apply upd_ne.
  - intros y Hy. apply An. right. apply elem_of_app. by right.
  - intros y Hy. apply At. apply elem_of_app. by right.
  - by rewrite An by (by left).
  - by rewrite An by (by left).
  - intros y Hy. destruct (decide (y = x)) as [->|Hne]; [done|]. rewrite An; [done|]. right. apply elem_of_app. left.
    by eapply fc_in.
Qed.

(** Nothing changes but at [ks] and below it. *)
Definition others (ks : list lkey) (st st' : lvstate) (lv : Z) (t t' : ltree) : Prop :=
  forall ks', ~ ks `prefix_of` ks' -> sem (nodes st') lv t' ks' = sem (nodes st) lv t ks'.

Lemma others_up st st' lv q T kids t x R S Un Ut k ks :
  focus q T kids x R S -> outside st st' x (lv :: R ++ Un) (S ++ Ut) ->
  dget (entries (keym (nodes st)) (elems T)) k = Some x -> others ks st st' x (kids x) t ->
  others (k :: ks) st st' lv (LT q T kids) (LT q T (upd kids x t)).
Proof.
  intros HF (An & _ & Av & _) Hd Hs [|k' ks'] Hp.
  { change (node_value (nodes st') lv = node_value (nodes st) lv). unfold node_value. by rewrite An by (by left). }
  rewrite (sem_below q T kids x t R S lv (nodes st) (nodes st')); [|done| |done].
  2: { intros y Hy. apply An. rewrite app_comm_cons. apply elem_of_app. by left. }
  destruct (decide (dget _ k' = Some x)) as [E|E]; [|done].
  assert (k' = k) as -> by (apply dget_in in E as [_ E], Hd as [_ Hd]; congruence).
  rewrite Hs; [by rewrite sem_cons, Hd|]. intros Hp'. by apply Hp, prefix_cons.
Qed.

Lemma paths_up st st' lv q T kids t x R S Un Ut k ks :
  focus q T kids x R S -> outside st st' x (lv :: R ++ Un) (S ++ Ut) ->
  dget (entries (keym (nodes st)) (elems T)) k = Some x ->
  (forall ks', ~ ks `prefix_of` ks' -> path (nodes st') x t ks' -> path (nodes st) x (kids x) ks') ->
  forall ks', ~ k :: ks `prefix_of` ks' -> path (nodes st') lv (LT q T (upd kids x t)) ks' -> path (nodes st) lv (LT q T kids) ks'.
Proof.
  intros HF (An & _ & Av & _) Hd Hs [|k' ks'] Hp Hq; [by eexists|].
  apply (path_below q T kids x t R S lv (nodes st) (nodes st')) in Hq as [[E Hq]|Hq]; [|done|done| |done].
  2: { intros y Hy. apply An. rewrite app_comm_cons. apply elem_of_app. by left. }
  assert (k' = k) as -> by (apply dget_in in E as [_ E], Hd as [_ Hd]; congruence).
  apply path_cons. exists x. split; [done|]. apply Hs; [|done]. intros Hp'. by apply Hp, prefix_cons.
Qed.

Lemma replace_at base ks st lv t Un Ut p s :
  own base st lv t Un Ut -> on_path (nodes st) t ks -> node_at (keym (nodes st)) lv t ks = Some (p, s) ->
  exists R S, own base st p s R S /\ (forall x, x ∈ lv :: Un -> x ∈ p :: R) /\
    forall st' s', own base st' p s' R S -> outside st st' p R S ->
      exists t', own base st' lv t' Un Ut /\ outside st st' lv Un Ut /\ on_path (nodes st') t' ks /\
        node_at (keym (nodes st')) lv t' ks = Some (p, s') /\ others ks st st' lv t t' /\
        (forall ks', ~ ks `prefix_of` ks' -> path (nodes st') lv t' ks' -> path (nodes st) lv t ks').
Proof.
  revert lv t Un Ut. induction ks as [|k ks IH]; intros lv t Un Ut Hown Hpath Hat.
  { injection Hat as -> ->. exists Un, Ut. split; [done|]. split; [done|]. intros st' s' Hown' Ho. exists s'.
    repeat (split; [done|]). split; intros ks' Hn; destruct Hn; apply prefix_nil. }
  destruct t as [|q T kids]; [done|]. destruct Hpath as (x & Hf & Hpath).
  assert (Hd : dget (entries (keym (nodes st)) (elems T)) k = Some x).
  { destruct Hown as (_ & (ts & _ & _ & _ & _ & Hlw) & _). eapply found_dget; [apply Hlw|done]. }
  apply found_in in Hf as Hx. destruct Hx as [Hx _]. cbn in Hat. rewrite Hd in Hat. cbn in Hat.
  destruct (focus_at q T kids x (own_elems_NoDup _ _ _ _ _ _ _ _ Hown) Hx) as (R & S & HF).
  pose proof (own_down node_size tree_size base st lv q T kids Un Ut x R S Hown Hx HF) as Hdown.
  destruct (IH x (kids x) _ _ Hdown Hpath Hat) as (R' & S' & Hp & Hin & Hup).
  exists R', S'. split; [done|]. split.
  { intros y Hy. apply Hin. right. apply elem_of_cons in Hy as [->|Hy]; [by left|right; apply elem_of_app; by right]. }
  intros st' s' Hown' Ho. destruct (Hup st' s' Hown' Ho) as (t1 & Hown1 & Ho1 & Hpath1 & Hat1 & Hoth & Hpa).
  destruct (up_outside base st st' lv q T kids t1 Un Ut x R S Hown Hx HF Hown1 Ho1) as (Hown2 & Ho2 & Hv).
  exists (LT q T (upd kids x t1)). split; [done|]. split; [done|]. split; [|split; [|split]].
  - exists x. split; [by eapply found_tview|]. by rewrite upd_eq.
  - cbn. rewrite (entries_ext (keym (nodes st))) by (intros y Hy; by apply tview_sview_key, Hv).
    rewrite Hd. cbn. by rewrite upd_eq.
  - by eapply others_up.
  - by eapply paths_up.
Qed.

Lemma kill_up_path base ks fuel st lv t Un Ut p :
  own base st lv t Un Ut -> base ∈ lv :: Un -> on_path (nodes st) t ks -> ks <> [] -> (length ks <= fuel)%nat ->
  node_at (keym (nodes st)) lv t ks = Some (p, LNil) ->
  exists fuel' st' t', kill_up fuel st base p = (if lroot t' =? NULL then after_level fuel' st' base lv else Ok st') /\
    (fuel <= fuel' + length ks)%nat /\
    own base st' lv t' Un Ut /\ outside st st' lv Un Ut /\ gone ks st st' lv t t' /\
    (live_off ks (nodes st) lv t -> live (nodes st') lv t').
Proof.
  revert lv t Un Ut. induction ks as [|k ks IH]; [done|]. intros lv t Un Ut Hown Hb Hpath _ Hfu Hat.
  destruct t as [|q T kids]; [done|]. destruct Hpath as (x & Hf & Hpath).
  assert (Hd : dget (entries (keym (nodes st)) (elems T)) k = Some x).
  { destruct Hown as (_ & (ts & _ & _ & _ & _ & Hlw) & _). eapply found_dget; [apply Hlw|done]. }
  assert (Nq : q <> NULL) by (by destruct Hown as (_ & (_ & _ & ? & _))).
  apply found_in in Hf as Hx. destruct Hx as [Hx _]. cbn in Hat. rewrite Hd in Hat. cbn in Hat. cbn [length] in Hfu.
  destruct ks as [|k2 ks].
  { injection Hat as -> Ek. destruct fuel as [|fuel]; [simpl in Hfu; lia|].
    destruct (kill_level base st lv q T kids Un Ut k p fuel Hown Hf Ek) as (st' & t' & E & H). exists fuel, st', t'.
    split; [done|]. split; [simpl; lia|done]. }
  destruct (focus_at q T kids x (own_elems_NoDup _ _ _ _ _ _ _ _ Hown) Hx) as (R & S & HF).
  pose proof (own_down node_size tree_size base st lv q T kids Un Ut x R S Hown Hx HF) as Hdown.
  assert (Hb' : base ∈ lv :: R ++ Un).
  { apply elem_of_cons in Hb as [->|Hb]; [by left|right; apply elem_of_app; by right]. }
  destruct (IH x (kids x) (lv :: R ++ Un) (S ++ Ut)) as (f1 & st1 & t1 & E1 & Hf1 & Hown1 & Ho1 & Hg1 & HL1); try done; [by right|lia|].
  destruct (up_outside base st st1 lv q T kids t1 Un Ut x R S Hown Hx HF Hown1 Ho1) as (Hown2 & Ho2 & Hv).
  set (t2 := LT q T (upd kids x t1)) in *.
  assert (Hoth : others (k :: k2 :: ks) st st1 lv (LT q T kids) t2).
  { eapply others_up; [done|done|done|]. intros ks' Hn. rewrite Hg1. by rewrite decide_False. }
  assert (Hd1 : dget (entries (keym (nodes st1)) (elems T)) k = Some x).
  { rewrite <- Hd. f_equal. apply entries_ext. intros y Hy. by apply tview_sview_key, Hv. }
  assert (Hbelow : forall ks', sem (nodes st1) lv t2 (k :: ks') = sem (nodes st1) x t1 ks').
  { intros ks'. unfold t2. rewrite sem_cons, Hd1. cbn. by rewrite upd_eq. }
  assert (Hg2 : gone (k :: k2 :: ks) st st1 lv (LT q T kids) t2).
  { intros ks'. destruct (decide _) as [Hp|Hp]; [|by apply Hoth]. destruct Hp as [ks0 ->]. cbn [app].
    rewrite Hbelow, Hg1, decide_True; [done|]. by exists ks0. }
  assert (Hpa : forall k' r, k' <> k -> path (nodes st1) lv t2 (k' :: r) -> live_off (k :: k2 :: ks) (nodes st) lv (LT q T kids) ->
    exists ks', is_Some (sem (nodes st1) lv t2 ((k' :: r) ++ ks'))).
  { intros k' r Hne Hp HL. apply (path_below q T kids x t1 R S lv (nodes st) (nodes st1)) in Hp as [[E _]|Hp]; [| |done| |apply Ho1].
    - destruct Hne. apply dget_in in E as [_ E], Hd as [_ Hd]. congruence.
    - destruct (HL (k' :: r) ltac:(done) Hp) as (ks' & Hsem); [by intros ?%prefix_cons_inv_1|]. exists ks'. rewrite Hoth; [done|].
      by intros ?%prefix_cons_inv_1.
    - intros y Hy. apply Ho1. rewrite app_comm_cons. apply elem_of_app. by left. }
  assert (HLx : live_off (k :: k2 :: ks) (nodes st) lv (LT q T kids) -> live_off (k2 :: ks) (nodes st) x (kids x)).
  { intros HL ks1 Hn1 Hp1 Hpre. destruct (HL (k :: ks1)) as (ks' & Hsem); [done|apply path_cons; by exists x|by intros ?%prefix_cons_inv_2|].
    exists ks'. cbn [app] in Hsem. rewrite sem_cons, Hd in Hsem. exact Hsem. }
  rewrite E1. destruct t1 as [|q1 T1 kids1].
  2: { exists f1, st1, t2. cbn [lroot t2]. destruct (Z.eqb_spec q1 NULL) as [->|_]; [by destruct Hown1 as (_ & (_ & _ & ? & _))|].
       destruct (Z.eqb_spec q NULL) as [|_]; [done|]. split; [done|]. split; [simpl in *; lia|]. split; [done|]. split; [done|].
       split; [done|]. intros HL. pose proof (HL1 (HLx HL)) as HLt1. intros [|k' r] Hn1 Hp; [done|].
       destruct (decide (k' = k)) as [->|Hne]; [|by apply Hpa]. apply path_cons in Hp as (x' & Ex' & Hp). rewrite Hd1 in Ex'.
       injection Ex' as <-. unfold t2 in Hp. rewrite upd_eq in Hp.
       enough (exists ks', is_Some (sem (nodes st1) x (LT q1 T1 kids1) (r ++ ks'))) as (ks' & Hsem).
       { exists ks'. change (is_Some (sem (nodes st1) lv t2 (k :: r ++ ks'))). by rewrite Hbelow. }
       destruct r as [|k3 r]; [|by apply HLt1].
       destruct (path_some _ _ _ _ _ _ (proj2 Hown1)) as (k4 & H4). destruct (HLt1 [k4] ltac:(done) H4) as (ks' & Hsem).
       by exists (k4 :: ks'). }
  assert (Hleaf : forall r, path (nodes st1) lv t2 (k :: r) -> r = []).
  { intros r (x' & Ex' & Hp)%path_cons. rewrite Hd1 in Ex'. injection Ex' as <-. unfold t2 in Hp. rewrite upd_eq in Hp. by eapply path_leaf. }
  cbn [lroot]. rewrite Z.eqb_refl. unfold after_level at 1.
  assert (Hn1 : exists n, nodes st1 !! x = Some n) by (destruct Hown1 as [(_ & _ & (n & ? & _) & _) _]; by exists n).
  destruct Hn1 as [n En]. unfold deref at 1. rewrite En. cbn [res_of mbind res_bind].
  destruct (MV_DEFINED (nd_v n)) eqn:Edef.
  { exists f1, st1, t2. cbn [lroot t2]. destruct (Z.eqb_spec q NULL) as [|_]; [done|]. split; [done|]. split; [simpl in *; lia|].
    split; [done|]. split; [done|]. split; [done|]. intros HL [|k' r] Hn1 Hp; [done|].
    destruct (decide (k' = k)) as [->|Hne]; [|by apply Hpa]. apply Hleaf in Hp as ->. exists [].
    change (is_Some (sem (nodes st1) lv t2 [k])). rewrite Hbelow. change (is_Some (node_value (nodes st1) x)).
    unfold node_value. rewrite En. cbn. rewrite Edef. by eexists. }
  destruct (Z.eqb_spec x base) as [->|_].
  { destruct Hown1 as [(_ & _ & _ & Hn & _) _]. by apply NoDup_cons in Hn as [? _]. }
  destruct f1 as [|f1]; [simpl in *; lia|].
  destruct (kill_level base st1 lv q T (upd kids x LNil) Un Ut k x f1 Hown2) as (st3 & t3 & E3 & Hown3 & Ho3 & Hg3 & HL3).
  { by eapply found_tview. } { by rewrite upd_eq. }
  exists f1, st3, t3. split; [done|]. split; [simpl in *; lia|]. split; [done|]. split; [by eapply outside_trans|].
  split.
  2: { intros HL. apply HL3. intros [|k' r] Hn1 Hp Hpre; [done|]. destruct (decide (k' = k)) as [->|Hne]; [|by apply Hpa].
       by apply Hleaf in Hp as ->. }
  intros ks'. rewrite Hg3. destruct (decide ([k] `prefix_of` ks')) as [Hp|Hp].
  - destruct (decide _) as [|Hp2]; [done|]. rewrite <- Hoth by done. destruct Hp as [ks0 ->]. cbn [app].
    rewrite Hbelow. destruct ks0 as [|k0 ks0]; [|done]. change (None = node_value (nodes st1) x).
    unfold node_value. rewrite En. cbn. by rewrite Edef.
  - rewrite decide_False; [apply Hoth|]; intros [ks0 ->]; by apply Hp; eexists.
Qed.

(** ** Killing a node of a variable *)

Lemma node_at_parent base st K lv t ks p s :
  lwf base st lv t -> node_at K lv t ks = Some (p, s) -> ks <> [] ->
  exists n ts, nodes st !! p = Some n /\ tree_parent n ∈ ltrees t /\ trees st !! tree_parent n = Some ts /\ base_lv ts = base.
Proof.
  revert lv t. induction ks as [|k ks IH]; [done|]. intros lv t Hw Hat _. destruct t as [|q T kids]; [done|].
  cbn in Hat. destruct (dget _ k) as [x|] eqn:Ex; [|done]. cbn in Hat. apply dget_in in Ex as [Hx _].
  destruct Hw as ((ts & Ets & _ & Eb & _) & _ & _ & Hk). destruct (Hk x Hx) as [(n & En & Et & _) Hkid].
  destruct ks as [|k2 ks].
  - injection Hat as <- _. exists n, ts. rewrite Et. split; [done|]. split; [by left|done].
  - destruct (IH x (kids x) Hkid Hat) as (m & ts' & Em & Hm & H); [done|]. exists m, ts'. split; [done|]. split; [|done].
    by eapply kid_trees.
Qed.

Lemma node_at_depth K lv t ks x : node_at K lv t ks = Some x -> (length ks <= length (ltrees t))%nat.
Proof.
  revert lv t. induction ks as [|k ks IH]; intros lv t; [simpl; lia|]. destruct t as [|q T kids]; [done|].
  cbn. destruct (dget _ k) as [y|] eqn:Ey; [|done]. cbn. intros Hat. apply dget_in in Ey as [Hy _]. apply IH in Hat.
  destruct (list_elem_of_split _ _ Hy) as (a & b & ->). rewrite bind_app. cbn. rewrite !length_app. lia.
Qed.

Lemma node_at_own base st lv t Un Ut ks p s :
  own base st lv t Un Ut -> node_at (keym (nodes st)) lv t ks = Some (p, s) ->
  exists n, nodes st !! p = Some n /\ sbs_child n = lroot s /\ no_alias n.
Proof.
  intros [(_ & _ & Hn & _) Hw]. revert lv t Hw Hn. induction ks as [|k ks IH]; intros lv t Hw Hn Hat.
  { by injection Hat as <- <-. }
  destruct t as [|q T kids]; [done|]. cbn in Hat. destruct (dget _ k) as [x|] eqn:Ex; [|done]. cbn in Hat.
  apply dget_in in Ex as [Hx _]. destruct Hw as (_ & _ & _ & Hk). destruct (Hk x Hx) as [(n & En & _ & Hna & Ec) Hkid].
  apply (IH x (kids x) Hkid); [by exists n|done].
Qed.

Lemma trees_size base st lv t Un Ut : own base st lv t Un Ut -> (length (ltrees t) <= size (trees st))%nat.
Proof.
  intros [(_ & _ & _ & _ & Ht & _ & Hpt) _]. apply NoDup_app in Ht as (Hnd & _ & _).
  rewrite <- size_dom, <- (size_list_to_set (C := gset Z) (ltrees t)) by done. apply subseteq_size.
  intros x Hx%elem_of_list_to_set. apply elem_of_dom. destruct Hpt as (_ & _ & _ & _ & _ & Hd). apply Hd, elem_of_app. by left.
Qed.

(** The value of one node cleared. *)
Lemma clear_value_spec base st lv t Un Ut ks p s :
  own base st lv t Un Ut -> node_at (keym (nodes st)) lv t ks = Some (p, s) ->
  exists st', clear_value p st = Ok st' /\ own base st' lv t Un Ut /\ tview <$> nodes st' !! lv = tview <$> nodes st !! lv /\
    (forall ks', path (nodes st') lv t ks' -> path (nodes st) lv t ks') /\
    forall ks', sem (nodes st') lv t ks' = if decide (ks' = ks) then None else sem (nodes st) lv t ks'.
Proof.
  intros Hown Hat. destruct (node_at_own _ _ _ _ _ _ _ _ _ Hown Hat) as (n & En & _).
  unfold clear_value. rewrite (modify_node_eq _ p st n En). eexists. split; [reflexivity|]. split; [|split; [|split]].
  - eapply own_set_value; [done|by eapply node_at_in|done|done].
  - exact (tview_value _ _ _ _ _ En).
  - intros ks' Hp. eapply path_frame; [|exact Hp]. intros x _. apply tview_sview_key. exact (tview_value _ _ _ _ _ En).
  - intros ks'. cbn [nodes with_nodes]. by erewrite sem_set_value by (first [done|by eapply own_NoDup]).
Qed.

(** The last steps of lv_kill, at the variable itself. *)
Lemma after_base fuel st base t Un Ut :
  own base st base t Un Ut ->
  exists st', (if lroot t =? NULL then after_level fuel st base base else Ok st) = Ok st' /\ own base st' base t Un Ut /\
    tview <$> nodes st' !! base = tview <$> nodes st !! base /\
    (forall ks, path (nodes st') base t ks -> path (nodes st) base t ks) /\ forall ks, sem (nodes st') base t ks = sem (nodes st) base t ks.
Proof.
  intros Hown. destruct (lroot t =? NULL); [|by exists st]. unfold after_level.
  destruct (node_at_own base st base t Un Ut [] base t Hown eq_refl) as (n & En & _). unfold deref. rewrite En.
  cbn [res_of mbind res_bind]. destruct (MV_DEFINED (nd_v n)) eqn:Ed; [exists st; by rewrite <- En|]. rewrite Z.eqb_refl.
  destruct (clear_value_spec base st base t Un Ut [] base t Hown eq_refl) as (st' & E & Hown' & Htv & Hpa & Hs).
  exists st'. split; [done|]. split; [done|]. split; [by rewrite <- En|]. split; [done|]. intros ks. rewrite Hs. destruct (decide (ks = [])) as [->|]; [|done].
  change (None = node_value (nodes st) base). unfold node_value. rewrite En. cbn. by rewrite Ed.
Qed.

(** The subtree first. *)
Lemma kill_subtree_spec base st lv t Un Ut ks p s n (do_subtree : bool) :
  own base st lv t Un Ut -> on_path (nodes st) t ks -> node_at (keym (nodes st)) lv t ks = Some (p, s) ->
  nodes st !! p = Some n ->
  exists st' t',
    (if do_subtree && negb (sbs_child n =? NULL) then
       st ← modify_node (with_child NULL) p st; lv_killarray st (sbs_child n)
     else Ok st) = Ok st' /\
    own base st' lv t' Un Ut /\ on_path (nodes st') t' ks /\ outside st st' lv Un Ut /\
    node_at (keym (nodes st')) lv t' ks = Some (p, if do_subtree then LNil else s) /\
    (live (nodes st) lv t -> if do_subtree then live_off ks (nodes st') lv t' else live (nodes st') lv t') /\
    (forall ks', sem (nodes st') lv t' ks' =
       if decide (ks' = ks) then sem (nodes st) lv t ks
       else if decide (do_subtree = true /\ ks `prefix_of` ks') then None else sem (nodes st) lv t ks').
Proof.
  intros Hown Hpath Hat En. destruct do_subtree; cbn [andb].
  2: { exists st, t. repeat (split; [done|]). intros ks'. destruct (decide (ks' = ks)) as [->|]; [done|].
       by rewrite decide_False by (by intros [? _]). }
  destruct (replace_at base ks st lv t Un Ut p s Hown Hpath Hat) as (R & S & Hp & _ & Hup).
  destruct (killarray_spec base st p s R S Hp) as (n' & st' & En' & E & Hown' & En2 & HR & HS & _).
  rewrite En in En'. injection En' as <-.
  destruct (Hup st' LNil Hown') as (t' & Hown2 & Ho2 & Hpath2 & Hat2 & Hoth & Hpa).
  { split; [done|]. split; [done|]. by rewrite En2, En. }
  exists st', t'. split; [done|]. split; [done|]. split; [done|]. split; [done|]. split; [done|]. split.
  - intros HL ks1 Hn1 Hp1 Hpre. destruct (decide (ks `prefix_of` ks1)) as [[ks2 ->]|Hnp].
    { apply (path_at _ _ _ _ _ _ _ Hat2), path_leaf in Hp1 as ->. by rewrite app_nil_r in Hpre. }
    destruct (HL ks1 Hn1 (Hpa _ Hnp Hp1)) as (ks' & Hv). exists ks'. rewrite Hoth; [done|].
    intros Hp2. destruct (prefix_weak_total ks ks1 (ks1 ++ ks') Hp2); [by eexists|done|done].
  - intros ks'. destruct (decide (ks' = ks)) as [->|Hne].
    + unfold sem. rewrite Hat, Hat2. cbn. unfold node_value. by rewrite En2, En.
    + destruct (decide (true = true /\ ks `prefix_of` ks')) as [[_ [ks2 ->]]|Hn].
      * rewrite (sem_at _ _ _ _ _ _ _ Hat2). destruct ks2; [by rewrite app_nil_r in Hne|done].
      * apply Hoth. intros Hp'. by apply Hn.
Qed.

Lemma lwf_at base st K lv t ks p s : lwf base st lv t -> node_at K lv t ks = Some (p, s) -> lwf base st p s.
Proof.
  revert lv t. induction ks as [|k ks IH]; intros lv t Hw Hat; [by injection Hat as <- <-|].
  destruct t as [|q T kids]; [done|]. cbn in Hat. destruct (dget _ k) as [x|] eqn:Ex; [|done]. cbn in Hat.
  apply dget_in in Ex as [Hx _]. destruct Hw as (_ & _ & _ & Hk). destruct (Hk x Hx) as [_ Hkid]. by eapply IH.
Qed.

Lemma node_at_leaf base st K lv t ks p s : lwf base st lv t -> node_at K lv t ks = Some (p, s) -> lroot s = NULL -> s = LNil.
Proof. intros Hw Hat Hs. apply (lwf_at _ _ _ _ _ _ _ _ Hw) in Hat. destruct s; [done|]. by destruct Hat as (_ & _ & ? & _). Qed.

(** A node with a tree under it has a value further down. *)
Lemma live_more base st lv t ks p s :
  lwf base st lv t -> node_at (keym (nodes st)) lv t ks = Some (p, s) -> s <> LNil -> live (nodes st) lv t ->
  exists k ks', is_Some (sem (nodes st) lv t (ks ++ k :: ks')).
Proof.
  intros Hw Hat Hs HL. assert (Hws := lwf_at _ _ _ _ _ _ _ _ Hw Hat). destruct s as [|q T kids]; [done|].
  destruct (path_some _ _ _ _ _ _ Hws) as (k & Hk). apply (path_at _ _ _ _ _ _ _ Hat) in Hk.
  destruct (HL (ks ++ [k])) as (ks' & Hv); [by destruct ks|done|]. exists k, ks'. by rewrite <- app_assoc in Hv.
Qed.

(** What a kill of [ks] takes away. *)
Definition killed (do_subtree : bool) (ks ks' : list lkey) : bool :=
  if do_subtree then bool_decide (ks `prefix_of` ks') else bool_decide (ks' = ks).

(** lv_kill on the node [p] at [ks]: the values below [ks] or that of [ks] alone
    are gone. *)
Lemma lv_kill_spec SYM base st t Un Ut ks p s nb do_subtree :
  own base st base t Un Ut -> nodes st !! base = Some nb -> tree_parent nb = SYM -> SYM ∉ ltrees t ->
  on_path (nodes st) t ks -> node_at (keym (nodes st)) base t ks = Some (p, s) ->
  exists st' t', lv_kill SYM st p do_subtree = Ok st' /\ own base st' base t' Un Ut /\
    tview <$> nodes st' !! base = tview <$> nodes st !! base /\
    (live (nodes st) base t -> live (nodes st') base t') /\
    forall ks', sem (nodes st') base t' ks' =
      if killed do_subtree ks ks' then None else sem (nodes st) base t ks'.
Proof.
  intros Hown Eb Ebs HSYM Hpath Hat. unfold lv_kill. apply (own_with_active _ _ _ _ _ _ _ _ NULL) in Hown.
  set (st0 := set_active NULL st) in *. change (nodes st) with (nodes st0) in *. clearbody st0. clear st. cbv zeta.
  destruct (node_at_own _ _ _ _ _ _ _ _ _ Hown Hat) as (n & En & Ec & Hna).
  assert (Np : p <> NULL) by (intros ->; destruct Hown as [(_ & H0 & _) _]; congruence).
  destruct (Z.eqb_spec p NULL) as [|_]; [done|]. unfold deref at 1. rewrite En. cbn [res_of mbind res_bind].
  assert (exists b, (tree_parent n =? SYM) = b /\ (if b then ks = [] else ks <> []) /\
    (if b then Ok p else t0 ← res_of (trees st0 !! tree_parent n); Ok (base_lv t0)) = Ok base) as (b & -> & Hb & ->).
  { destruct ks as [|k ks].
    - injection Hat as <- <-. rewrite En in Eb. injection Eb as ->. exists true. rewrite Ebs. by rewrite Z.eqb_refl.
    - destruct (node_at_parent base st0 _ _ _ _ _ _ (proj2 Hown) Hat) as (m & ts & Em & Hm & Ets & Ebt); [done|].
      rewrite En in Em. injection Em as <-. exists false. destruct (Z.eqb_spec (tree_parent n) SYM) as [Et|_]; [by rewrite Et in Hm|].
      split; [done|]. split; [done|]. rewrite Ets. cbn [res_of mbind res_bind]. by rewrite Ebt. }
  cbn [mbind res_bind].
  destruct (kill_subtree_spec base st0 base t Un Ut ks p s n do_subtree Hown Hpath Hat En) as
    (st1 & t1 & -> & Hown1 & Hpath1 & (_ & _ & Hv1 & _) & Hat1 & HL1 & Hs1). cbn [mbind res_bind].
  destruct (node_at_own _ _ _ _ _ _ _ _ _ Hown1 Hat1) as (n1 & En1 & Ec1 & Hna1).
  unfold DECR_AC_REF, deref. rewrite En1. cbn [res_of mbind res_bind]. rewrite Hna1. cbn [mbind res_bind].
  destruct (negb b && (do_subtree || (sbs_child n =? NULL))) eqn:Eup.
  - apply andb_true_iff in Eup as [Eb' Ed]. destruct b; [done|].
    assert (Es : (if do_subtree then LNil else s) = LNil).
    { destruct do_subtree; [done|]. cbn in Ed. rewrite Ec in Ed. apply Z.eqb_eq in Ed. by eapply node_at_leaf; [apply Hown| |]. }
    rewrite Es in Hat1.
    destruct (kill_up_path base ks (S (size (trees st1))) st1 base t1 Un Ut p) as (f & st2 & t2 & -> & _ & Hown2 & (_ & _ & Hv2 & _) & Hg2 & HL2); try done.
    { by left. } { apply node_at_depth in Hat1. pose proof (trees_size _ _ _ _ _ _ Hown1). lia. }
    destruct (after_base f st2 base t2 Un Ut Hown2) as (st3 & -> & Hown3 & Hv3 & Hp3 & Hs3).
    exists st3, t2. split; [done|]. split; [done|]. split; [congruence|].
    split; [intros HL ks1 Hn1 Hp1; setoid_rewrite Hs3; apply HL2; [destruct do_subtree; [by apply HL1|by apply live_live_off, HL1]|done|by apply Hp3]|]. intros ks'. rewrite Hs3, Hg2, Hs1. unfold killed.
    destruct (decide (ks' = ks)) as [->|Hne].
    + rewrite decide_True by done. by destruct do_subtree; rewrite bool_decide_true.
    + destruct do_subtree; [destruct (decide (ks `prefix_of` ks')) as [Hp|Hp]|].
      * by rewrite bool_decide_true.
      * rewrite bool_decide_false by done. rewrite decide_False; [done|]. by intros [_ ?].
      * rewrite bool_decide_false by done. rewrite (decide_False (P := false = true /\ _)) by (by intros [? _]).
        destruct (decide (ks `prefix_of` ks')) as [[ks2 ->]|]; [|done].
        subst s. rewrite (sem_at _ _ _ _ _ _ _ Hat). destruct ks2; [by rewrite app_nil_r in Hne|done].
  - destruct (clear_value_spec base st1 base t1 Un Ut ks p _ Hown1 Hat1) as (st2 & -> & Hown2 & Hv2 & Hp2 & Hs2).
    exists st2, t1. split; [done|]. split; [done|]. split; [congruence|]. split.
    { intros HL ks1 Hn1 Hp1. apply Hp2 in Hp1. assert (Hs : ks = [] \/ do_subtree = false /\ s <> LNil).
      { destruct b; [by left|right]. cbn in Eup. apply orb_false_iff in Eup as [-> Ed]. split; [done|]. intros ->. rewrite Ec in Ed. done. }
      destruct Hs as [->|[-> Hne]].
      - assert (HL' : live (nodes st1) base t1) by (destruct do_subtree; [by apply live_off_nil, HL1|by apply HL1]).
        destruct (HL' ks1 Hn1 Hp1) as (ks' & Hsem). exists ks'. rewrite Hs2, decide_False; [done|]. by destruct ks1.
      - destruct (HL1 HL ks1 Hn1 Hp1) as (ks' & Hsem).
        destruct (decide (ks1 ++ ks' = ks)) as [E|E]; [|exists ks'; by rewrite Hs2, decide_False].
        destruct (live_more base st1 base t1 ks p s (proj2 Hown1) Hat1 Hne (HL1 HL)) as (k & ks2 & Hsem2).
        exists (ks' ++ k :: ks2). rewrite app_assoc, E. rewrite Hs2, decide_False; [done|]. intros El%(f_equal length).
        rewrite length_app in El. simpl in El. lia. }
    intros ks'. rewrite Hs2, Hs1. unfold killed.
    destruct (decide (ks' = ks)) as [->|Hne]; [by destruct do_subtree; rewrite bool_decide_true|].
    destruct do_subtree; [|rewrite bool_decide_false by done; by rewrite decide_False by (by intros [? _])].
    destruct (decide (true = true /\ ks `prefix_of` ks')) as [[_ Hp]|Hp]; [by rewrite bool_decide_true|].
    rewrite bool_decide_false; [done|]. intros Hp'. by apply Hp.
Qed.
End kill.
