(* ===== verification/Lvrun.v ===== *)
(** Local variables as a whole: a program of SET, references, $GET, $DATA,
    $ORDER, $ZPREVIOUS, KILL and ZWITHDRAW on one variable behaves as on a
    function from lists of subscripts to values; and the theorems of the
    components below it, each for any store that is well formed. *)

From stdpp Require Import base list numbers option tactics gmap sorting.
From Stdlib Require Import ZArith Lia.
From S2P Require Import Prelude Mval Numstr Lvnode Avltree Avlops Lvtree Lvmap Lvframe Lvslot Lvar Lvown Lvset Lvorder Lvkill.

Open Scope Z_scope.

(** * Programs *)

(** Calls of the compiled code on one variable: a reference to its value, $GET
    with one argument, which is OC_SRCHINDX and OC_FNGET, and with a default,
    OC_SRCHINDX, OC_FNGET1 and OC_FNGET2 (f_get.c); ydb_get_s calls op_getindx
    with its own check of the result. [dst] is the cell that a result is stored
    in. *)
Inductive cmd :=
| CSet (keys : list mval) (v : mval)
| CRead (rtn_get : bool) (keys : list mval)
| CGet (keys : list mval) (dst : mval)
| CGet2 (keys : list mval) (dst def : mval)
| CData (keys : list mval)
| COrder (keys : list mval) (key dst : mval)
| CZprevious (keys : list mval) (key dst : mval)
| CKill (keys : list mval)
| CZwithdraw (keys : list mval).

(** [AUndef]: the error LVUNDEF, after which the program goes on with its error
    handling. *)
Inductive answer := ANone | AVal (v : mval) | AInt (n : Z) | AUndef.

(** ** What they mean: a store is a function from lists of subscripts to values *)

Definition store := list lkey -> option mval.

Inductive acmd :=
| ASet (ks : list lkey) (v : mval)
| ARead (rtn_get : bool) (ks : list lkey)
| AGet (ks : list lkey) (none : mval)
| AData (ks : list lkey)
| AOrder (ks : list lkey) (k : lkey)
| AZprevious (ks : list lkey) (k : lkey)
| AKill (ks : list lkey)
| AZwithdraw (ks : list lkey).

Definition astep (a : acmd) (m : store) : store :=
  match a with
  | ASet ks v => fun ks' => if decide (ks' = ks) then Some v else m ks'
  | AKill ks => fun ks' => if killed true ks ks' then None else m ks'
  | AZwithdraw ks => fun ks' => if killed false ks ks' then None else m ks'
  | _ => m
  end.

Definition has_child (m : store) (ks : list lkey) (k : lkey) : Prop := exists ks', is_Some (m (ks ++ k :: ks')).

Definition answer_ok (noundef std : bool) (a : acmd) (m : store) (o : answer) : Prop :=
  match a with
  | ARead rtn_get ks => o = match m ks with Some v => AVal v | None => if noundef || rtn_get then AVal literal_null else AUndef end
  | AGet ks none => o = AVal (default none (m ks))
  | AData ks => exists v d : bool, o = AInt ((if v then 1 else 0) + (if d then 10 else 0)) /\
      (v = true <-> is_Some (m ks)) /\ (d = true <-> exists k, has_child m ks k)
  | AOrder ks k => exists c r, o = AVal c /\ opt_cell c r /\ is_next std (has_child m ks) k r
  | AZprevious ks k => exists c r, o = AVal c /\ opt_cell c r /\ is_prev std (has_child m ks) k r
  | _ => o = ANone
  end.

Fixpoint answers_ok (noundef std : bool) (acs : list acmd) (m : store) (l : list answer) : Prop :=
  match acs, l with
  | [], [] => True
  | a :: acs, o :: l => answer_ok noundef std a m o /\ answers_ok noundef std acs (astep a m) l
  | _, _ => False
  end.

(** ** Lemmas *)

Lemma is_next_iff std (S S' : lkey -> Prop) k o : (forall x, S x <-> S' x) -> is_next std S k o -> is_next std S' k o.
Proof.
  intros E. destruct o as [k1|]; cbn; [|intros H k2 H2; by apply H, E]. intros (H1 & Hc & H). split; [by apply E|]. split; [done|].
  intros k2 H2. by apply H, E.
Qed.

Lemma is_prev_iff std (S S' : lkey -> Prop) k o : (forall x, S x <-> S' x) -> is_prev std S k o -> is_prev std S' k o.
Proof.
  intros E. destruct o as [k1|]; cbn; [|intros H k2 H2; by apply H, E]. intros (H1 & Hc & H). split; [by apply E|]. split; [done|].
  intros k2 H2. by apply H, E.
Qed.

Section run.
Context (Mn Mt : Malloc) (node_size tree_size : Z) {HMn : MallocOk node_size Mn} {HMt : MallocOk tree_size Mt}
        (blank_tree : Z -> lvts) (SYM : Z) (g : globals) (lv_null_subs : lvnullsubs) (std : bool) (base : Z).

Abbreviation own := (own node_size tree_size).

Definition exec (c : cmd) (st : lvstate) : res (lvstate * answer) :=
  match c with
  | CSet keys v =>
      '(st, lv) ← op_putindx Mn Mt node_size tree_size blank_tree SYM g lv_null_subs st base keys;
      st ← set_value v lv st; Ok (st, ANone)
  | CRead rtn_get keys => '(st, v) ← op_getindx g lv_null_subs rtn_get st base keys; Ok (st, match v with Some v => AVal v | None => AUndef end)
  | CGet keys dst => '(st, lv) ← op_srchindx g lv_null_subs st base keys; v ← op_fnget st lv dst; Ok (st, AVal v)
  | CGet2 keys dst def =>
      '(st, lv) ← op_srchindx g lv_null_subs st base keys; v ← op_fnget1 st lv dst; v ← op_fnget2 g v def; Ok (st, AVal v)
  | CData keys =>
      '(st, lv) ← op_srchindx g lv_null_subs st base keys; n ← op_fndata st lv; Ok (st, AInt n)
  | COrder keys key dst =>
      '(st, lv) ← op_srchindx g lv_null_subs st base keys; '(st, v) ← op_fnorder g std st lv key dst; Ok (st, AVal v)
  | CZprevious keys key dst =>
      '(st, lv) ← op_srchindx g lv_null_subs st base keys; '(st, v) ← op_fnzprevious g std st lv key dst; Ok (st, AVal v)
  | CKill keys => '(st, lv) ← op_srchindx g lv_null_subs st base keys; st ← op_kill SYM st lv; Ok (st, ANone)
  | CZwithdraw keys =>
      '(st, lv) ← op_srchindx g lv_null_subs st base keys; st ← op_lvzwithdraw SYM st lv; Ok (st, ANone)
  end.

Fixpoint run (cs : list cmd) (st : lvstate) : res (lvstate * list answer) :=
  match cs with
  | [] => Ok (st, [])
  | c :: cs => '(st, o) ← exec c st; '(st, l) ← run cs st; Ok (st, o :: l)
  end.

(** The store holds the variable [base] with the values [m], in a symbol table
    at [SYM]. *)
Definition is_var (Un Ut : list Z) (st : lvstate) (m : store) : Prop :=
  exists t, own base st base t Un Ut /\ SYM ∈ Ut /\
    (exists n, nodes st !! base = Some n /\ tree_parent n = SYM) /\ live (nodes st) base t /\
    forall ks, sem (nodes st) base t ks = m ks.

(** The meaning of a call: its subscripts convert to keys. *)
Definition cmd_ok (c : cmd) (a : acmd) : Prop :=
  match c, a with
  | CSet keys v, ASet ks v' =>
      v' = v /\ keys_of g lv_null_subs true keys ks /\ MV_DEFINED v = true /\ has MV_ALIASCONT v = false
  | CRead rtn_get keys, ARead rtn_get' ks => rtn_get' = rtn_get /\ keys_of g lv_null_subs false keys ks
  | CGet keys dst, AGet ks none => none = null_result dst /\ keys_of g lv_null_subs false keys ks
  | CGet2 keys dst def, AGet ks none => none = def /\ MV_DEFINED def = true /\ keys_of g lv_null_subs false keys ks
  | CData keys, AData ks | CKill keys, AKill ks | CZwithdraw keys, AZwithdraw ks =>
      keys_of g lv_null_subs false keys ks
  | COrder keys key _, AOrder ks k | CZprevious keys key _, AZprevious ks k =>
      keys_of g lv_null_subs false keys ks /\ order_ok g key k
  | _, _ => False
  end.

Lemma base_kept st st' : tview <$> nodes st' !! base = tview <$> nodes st !! base ->
  (exists n, nodes st !! base = Some n /\ tree_parent n = SYM) -> exists n, nodes st' !! base = Some n /\ tree_parent n = SYM.
Proof.
  intros E (n & En & Ep). rewrite En in E. destruct (nodes st' !! base) as [n'|]; [|done]. exists n'. split; [done|].
  change (Some (tview n') = Some (tview n)) in E. apply Some_inj in E. rewrite <- Ep. exact (f_equal tree_parent E).
Qed.

Lemma looked_base st st' ln lt : looked ln lt st st' ->
  (exists n, nodes st !! base = Some n /\ tree_parent n = SYM) -> exists n, nodes st' !! base = Some n /\ tree_parent n = SYM.
Proof. intros [K _] (n & En & Ep). destruct (kept_node _ _ _ _ K En) as (n' & En' & _ & _ & E). exists n'. by rewrite E. Qed.

Lemma SYM_out Un Ut st t : own base st base t Un Ut -> SYM ∈ Ut -> SYM ∉ ltrees t.
Proof. intros [(_ & _ & _ & _ & Ht & _) _] Hi Hs. apply NoDup_app in Ht as (_ & Ht & _). by apply (Ht SYM). Qed.

(** ** Lookups *)

Lemma live_kept h h' lv t : kept h h' -> live h lv t -> live h' lv t.
Proof.
  intros K HL ks Hn Hp. assert (EK : keym h' = keym h) by (by apply keym_datm, K). destruct (HL ks Hn) as (ks' & Hv).
  - unfold path in *. by rewrite <- EK.
  - exists ks'. by rewrite (sem_kept h h').
Qed.

Lemma looked_var Un Ut st st' t m ln lt :
  own base st' base t Un Ut -> looked ln lt st st' -> SYM ∈ Ut ->
  (exists n, nodes st !! base = Some n /\ tree_parent n = SYM) -> live (nodes st) base t ->
  (forall ks, sem (nodes st) base t ks = m ks) -> is_var Un Ut st' m.
Proof.
  intros Hown Hl HS Hb HL Hm. exists t. split; [done|]. split; [done|]. split; [by eapply looked_base|].
  split; [eapply live_kept; [apply Hl|done]|]. intros ks. by rewrite (sem_kept _ _ _ _ _ (proj1 Hl)).
Qed.

(** What a path leads to in a variable. *)
Definition at_node (Un Ut : list Z) (st : lvstate) (m : store) (ks : list lkey) (p : Z) : Prop :=
  (p = NULL /\ is_var Un Ut st m /\ (forall ks', m (ks ++ ks') = None)) \/
  exists t s, own base st base t Un Ut /\ SYM ∈ Ut /\ (exists n, nodes st !! base = Some n /\ tree_parent n = SYM) /\
    live (nodes st) base t /\ (forall ks, sem (nodes st) base t ks = m ks) /\
    on_path (nodes st) t ks /\ node_at (keym (nodes st)) base t ks = Some (p, s) /\ p <> NULL.

Lemma search_spec Un Ut st m keys ks :
  is_var Un Ut st m -> keys_of g lv_null_subs false keys ks ->
  exists st' p, op_srchindx g lv_null_subs st base keys = Ok (st', p) /\ at_node Un Ut st' m ks p.
Proof.
  intros (t & Hown & HS & Hb & HL & Hm) Hks.
  destruct (srchindx_spec node_size tree_size g lv_null_subs base st base t Un Ut keys ks Hown Hks)
    as (st1 & p & E & Hown1 & Hl & Ep & Hpath). exists st1, p. split; [done|].
  assert (EK : keym (nodes st1) = keym (nodes st)) by (by eapply looked_keym).
  assert (Hs1 : forall ks, sem (nodes st1) base t ks = m ks) by (intros ks1; rewrite <- Hm; apply sem_kept, Hl).
  destruct (node_at (keym (nodes st)) base t ks) as [[x s]|] eqn:Ex; cbn in Ep; subst p.
  - right. exists t, s. destruct (node_at_own _ _ _ _ _ _ _ _ _ _ _ Hown Ex) as (nx & Enx & _).
    assert (Nx : x <> NULL) by (intros ->; destruct Hown as [(_ & H0 & _) _]; congruence).
    split; [done|]. split; [done|]. split; [by eapply looked_base|]. split; [eapply live_kept; [apply Hl|done]|].
    split; [done|]. split; [by apply Hpath|]. by rewrite EK.
  - left. split; [done|]. split; [by eapply looked_var|]. intros ks'. rewrite <- Hm. unfold sem. by rewrite node_at_app, Ex.
Qed.

(** A walk at a node. *)
Lemma at_node_looked Un Ut st m ks p :
  at_node Un Ut st m ks p -> p <> NULL ->
  exists s R S, own base st p s R S /\
    (forall k, in_dict (level_of (nodes st) s) k <-> has_child m ks k) /\ dsorted (level_of (nodes st) s) /\
    node_value (nodes st) p = m ks /\
    forall st', own base st' p s R S -> looked (lnodes s) (ltrees s) st st' -> is_var Un Ut st' m.
Proof.
  intros [(-> & _)|(t & s & Hown & HS & Hb & HL & Hm & Hpath & Hat & _)] Np; [done|].
  destruct (replace_at node_size tree_size base ks st base t Un Ut p s Hown Hpath Hat) as (R & S & Hp & _ & Hup).
  exists s, R, S. split; [done|].
  assert (Hsort : dsorted (level_of (nodes st) s)).
  { destruct s as [|q T kids]; [constructor|]. destruct Hp as [_ ((ts & _ & _ & _ & _ & Hlw) & _)].
    apply (lv_rep_sorted (nodes st) (core ts)). by exists T. }
  split; [|split; [done|split]].
  - intros k. split.
    + intros [x Hx]. destruct (HL (ks ++ [k])) as (ks' & Hv); [by destruct ks| |exists ks'; by rewrite <- Hm, <- app_assoc in *].
      apply (path_at _ _ _ _ _ _ _ Hat). destruct s as [|q T kids]; [by apply not_elem_of_nil in Hx|].
      apply path_cons. exists x. split; [|by eexists]. cbn in Hx, Hsort. destruct (list_elem_of_split _ _ Hx) as (m1 & m2 & E).
      rewrite E in *. apply dsorted_at in Hsort as (_ & _ & Hb1 & _). rewrite dget_below by done. cbn. by rewrite decide_True.
    + intros [ks' Hv]. rewrite <- Hm in Hv. rewrite (sem_at _ _ _ _ _ _ _ Hat) in Hv. destruct s as [|q T kids]; [by destruct Hv|].
      rewrite sem_cons in Hv. destruct (dget _ k) as [x|] eqn:Ed; [|by destruct Hv]. exists x. by apply dget_elem.
  - rewrite <- Hm. rewrite <- (app_nil_r ks), (sem_at _ _ _ _ _ _ _ Hat). done.
  - intros st' Hown' Hl. assert (Hl' := Hl). destruct Hl' as (K & Sn & St & _). assert (Hp' := Hp).
    destruct Hp' as [(_ & _ & _ & Hn & Ht & _) _]. apply NoDup_cons in Hn as [Hpn Hn]. rewrite not_elem_of_app in Hpn.
    apply NoDup_app in Hn as (_ & Hn & _). apply NoDup_app in Ht as (_ & Ht & _).
    destruct (Hup st' s Hown') as (t' & Hown2 & Ho2 & _ & Hat2 & Hoth & Hpa).
    { split; [intros x Hx; apply Sn; intros Hx'; by apply (Hn x)|]. split; [intros y Hy; apply St; intros Hy'; by apply (Ht y)|].
      by rewrite Sn by tauto. }
    assert (Hsem : forall ks1, sem (nodes st') base t' ks1 = sem (nodes st) base t ks1).
    { intros ks1. destruct (decide (ks `prefix_of` ks1)) as [[ks2 ->]|]; [|by apply Hoth].
      rewrite (sem_at _ _ _ _ _ _ _ Hat), (sem_at _ _ _ _ _ _ _ Hat2). by apply sem_kept. }
    exists t'. split; [done|]. split; [done|]. split; [by eapply looked_base|]. split; [|intros ks1; by rewrite Hsem].
    intros ks1 Hn1 Hp1. destruct (HL ks1 Hn1) as (ks' & Hv); [|exists ks'; by rewrite Hsem].
    destruct (decide (ks `prefix_of` ks1)) as [[ks2 ->]|]; [|by apply Hpa].
    apply (path_at _ _ _ _ _ _ _ Hat). apply (path_at _ _ _ _ _ _ _ Hat2) in Hp1. unfold path in *.
    by rewrite (looked_keym _ _ _ _ Hl) in Hp1.
Qed.

(** ** Each call *)

Definition refines (Un Ut : list Z) (c : cmd) (a : acmd) : Prop := forall st m,
  is_var Un Ut st m ->
  exists st' o, exec c st = Ok (st', o) /\ answer_ok (undef_inhibit g) std a m o /\ is_var Un Ut st' (astep a m).

Lemma set_refines Un Ut keys ks v :
  keys_of g lv_null_subs true keys ks -> MV_DEFINED v = true -> has MV_ALIASCONT v = false ->
  refines Un Ut (CSet keys v) (ASet ks v).
Proof.
  intros Hks Hd Ha st m (t & Hown & HS & Hb & HL & Hm). cbn [exec].
  destruct (set_spec Mn Mt node_size tree_size blank_tree SYM g lv_null_subs base st base t Un Ut keys ks v Hown) as
    (st' & t' & E & Hown' & Hv & Hpa & Hs); try done.
  { destruct Hb as (n & En & Ep). exists n. split; [done|]. by rewrite Ep, Z.eqb_refl. }
  apply res_bind_inv in E as ([st1 lv] & -> & E). cbn [mbind res_bind]. rewrite E. cbn [mbind res_bind].
  exists st', ANone. split; [done|]. split; [done|]. rewrite Hd in Hs.
  exists t'. split; [done|]. split; [done|]. split; [by eapply base_kept|]. split.
  - intros ks1 Hn1 [[ks2 ->]|Hp]%Hpa.
    + exists ks2. rewrite Hs, decide_True by done. by eexists.
    + destruct (HL ks1 Hn1 Hp) as (ks' & Hv'). exists ks'. rewrite Hs. destruct (decide _); [by eexists|done].
  - intros ks'. cbn. by rewrite Hs, Hm.
Qed.

Lemma read_refines Un Ut rtn_get keys ks : keys_of g lv_null_subs false keys ks -> refines Un Ut (CRead rtn_get keys) (ARead rtn_get ks).
Proof.
  intros Hks st m (t & Hown & HS & Hb & HL & Hm). cbn [exec].
  destruct (getindx_spec node_size tree_size g lv_null_subs base st base t Un Ut keys ks rtn_get Hown Hks) as (st' & Hown' & Hl & E).
  rewrite Hm in E. exists st', (match m ks with Some v => AVal v | None => if undef_inhibit g || rtn_get then AVal literal_null else AUndef end).
  split; [|split; [done|by eapply looked_var]]. rewrite E. by destruct (m ks), (undef_inhibit g || rtn_get).
Qed.

(** What a lookup finds is a value without the flag of an alias container, or none. *)
Lemma no_aliascont_eq v : has MV_ALIASCONT v = false -> no_aliascont v = v.
Proof.
  unfold has, no_aliascont, set_mvtype. intros H%negb_false_iff%Z.eqb_eq. destruct v as [t s e m0 m1 str]. cbn in *. f_equal.
  apply Z.bits_inj. intros i. rewrite Z.land_spec. assert (Hb : Z.testbit (Z.land t MV_ALIASCONT) i = false) by (by rewrite H, Z.testbit_0_l).
  rewrite Z.land_spec in Hb. destruct (Z_lt_le_dec i 0); [by rewrite !Z.testbit_neg_r by done|]. rewrite Z.lnot_spec by done. by destruct (Z.testbit t i), (Z.testbit MV_ALIASCONT i).
Qed.

Lemma found_value Un Ut st m keys ks : is_var Un Ut st m -> keys_of g lv_null_subs false keys ks ->
  exists st' p, op_srchindx g lv_null_subs st base keys = Ok (st', p) /\ is_var Un Ut st' m /\
    ((p = NULL /\ m ks = None) \/ (p <> NULL /\ exists n, nodes st' !! p = Some n /\ no_aliascont (nd_v n) = nd_v n /\
      m ks = if MV_DEFINED (nd_v n) then Some (nd_v n) else None)).
Proof.
  intros Hv Hks. destruct (search_spec Un Ut st m keys ks Hv Hks) as (st1 & p & E & Hat). exists st1, p. split; [done|].
  destruct (Z.eq_dec p NULL) as [->|Np].
  - destruct Hat as [(_ & Hv' & Hn)|(t & s & _ & _ & _ & _ & _ & _ & _ & ?)]; [|done]. split; [done|]. left. split; [done|].
    specialize (Hn []). by rewrite app_nil_r in Hn.
  - destruct (at_node_looked Un Ut st1 m ks p Hat Np) as (s & R & S & Hp & _ & _ & Hval & Hback).
    split; [by apply (Hback st1 Hp), looked_refl|]. right. split; [done|]. assert (Hp' := Hp). destruct Hp' as [(_ & _ & (n & En & _ & Ha) & _) _].
    exists n. split; [done|]. split; [by apply no_aliascont_eq|]. rewrite <- Hval. unfold node_value. by rewrite En.
Qed.

Lemma get_refines Un Ut keys ks dst : keys_of g lv_null_subs false keys ks -> refines Un Ut (CGet keys dst) (AGet ks (null_result dst)).
Proof.
  intros Hks st m Hv. cbn [exec]. destruct (found_value Un Ut st m keys ks Hv Hks) as (st1 & p & -> & Hv1 & Hf). cbn [mbind res_bind].
  exists st1, (AVal (default (null_result dst) (m ks))). split; [|done]. unfold op_fnget. destruct Hf as [[-> ->]|(Np & n & En & Ha & ->)]; [done|].
  rewrite (proj2 (Z.eqb_neq p NULL) Np). unfold deref. rewrite En. cbn [res_of mbind res_bind]. rewrite Ha. by destruct (MV_DEFINED (nd_v n)).
Qed.

Lemma get2_refines Un Ut keys ks dst def : keys_of g lv_null_subs false keys ks -> MV_DEFINED def = true -> refines Un Ut (CGet2 keys dst def) (AGet ks def).
Proof.
  intros Hks Hd st m Hv. cbn [exec]. destruct (found_value Un Ut st m keys ks Hv Hks) as (st1 & p & -> & Hv1 & Hf). cbn [mbind res_bind].
  exists st1, (AVal (default def (m ks))). split; [|done]. unfold op_fnget1, op_fnget2, MV_FORCE_DEFINED. rewrite Hd. cbn [negb mbind res_bind].
  destruct Hf as [[-> ->]|(Np & n & En & Ha & ->)]; [done|].
  rewrite (proj2 (Z.eqb_neq p NULL) Np). unfold deref. rewrite En. cbn [res_of mbind res_bind]. rewrite Ha. destruct (MV_DEFINED (nd_v n)) eqn:Ed; [by rewrite Ed|done].
Qed.

Lemma data_refines Un Ut keys ks : keys_of g lv_null_subs false keys ks -> refines Un Ut (CData keys) (AData ks).
Proof.
  intros Hks st m Hv. cbn [exec]. destruct (search_spec Un Ut st m keys ks Hv Hks) as (st1 & p & -> & Hat).
  cbn [mbind res_bind]. destruct (Z.eq_dec p NULL) as [->|Np].
  - exists st1, (AInt 0). split; [done|]. destruct Hat as [(_ & Hv' & Hn)|(t & s & _ & _ & _ & _ & _ & _ & _ & ?)]; [|done].
    split; [|done]. exists false, false. split; [done|]. split; (split; [done|]).
    + intros [v Ev]. specialize (Hn []). rewrite app_nil_r in Hn. congruence.
    + intros (k & ks' & v & Ev). specialize (Hn (k :: ks')). congruence.
  - destruct (at_node_looked Un Ut st1 m ks p Hat Np) as (s & R & S & Hp & Hch & _ & Hval & Hback).
    assert (Hp' := Hp). destruct Hp' as [(_ & _ & (n & En & Ec & _) & _) Hw].
    unfold op_fndata. destruct (Z.eqb_spec p NULL) as [|_]; [done|]. unfold deref. rewrite En. cbn [res_of mbind res_bind].
    exists st1. eexists. split; [reflexivity|]. split; [|by apply Hback].
    exists (MV_DEFINED (nd_v n)), (negb (sbs_child n =? NULL)). split; [done|]. split.
    + rewrite <- Hval. unfold node_value. rewrite En. cbn. destruct (MV_DEFINED (nd_v n)); [by split; [by eexists|]|].
      split; [done|by intros [? ?]].
    + setoid_rewrite <- Hch. rewrite Ec. destruct s as [|q T kids].
      * cbn. split; [done|]. by intros (k & x & ?%not_elem_of_nil).
      * destruct (path_some _ _ _ _ _ _ Hw) as (k & Hk). apply path_cons in Hk as (x & Hx%dget_elem & _).
        destruct Hw as (_ & _ & Nq & _). cbn [lroot]. destruct (Z.eqb_spec q NULL) as [|_]; [done|].
        split; [intros _; by exists k, x|done].
Qed.

Lemma no_child m ks : (forall ks', m (ks ++ ks') = None) -> forall k, ~ has_child m ks k.
Proof. intros Hn k (ks' & v & Ev). specialize (Hn (k :: ks')). congruence. Qed.

Lemma order_refines Un Ut keys ks key k dst :
  keys_of g lv_null_subs false keys ks -> order_ok g key k -> refines Un Ut (COrder keys key dst) (AOrder ks k).
Proof.
  intros Hks Hk st m Hv. cbn [exec]. destruct (search_spec Un Ut st m keys ks Hv Hks) as (st1 & p & -> & Hat).
  cbn [mbind res_bind]. destruct (Z.eq_dec p NULL) as [->|Np].
  - exists st1, (AVal (null_result dst)). split; [done|].
    destruct Hat as [(_ & Hv' & Hn)|(t & s & _ & _ & _ & _ & _ & _ & _ & ?)]; [|done].
    split; [|done]. exists (null_result dst), None. split; [done|]. split; [done|]. intros k2 H2. by destruct (no_child m ks Hn k2).
  - destruct (at_node_looked Un Ut st1 m ks p Hat Np) as (s & R & S & Hp & Hch & Hs & _ & Hback).
    destruct (fnorder_spec node_size tree_size g std base st1 p s R S key k dst Hp Hk) as (st2 & c & -> & Hp2 & Hl & Hc).
    cbn [mbind res_bind]. exists st2, (AVal c). split; [done|]. split; [|by apply Hback].
    exists c. eexists. split; [done|]. split; [exact Hc|]. eapply is_next_iff; [exact Hch|]. by apply order_next_spec.
Qed.

Lemma zprevious_refines Un Ut keys ks key k dst :
  keys_of g lv_null_subs false keys ks -> order_ok g key k -> refines Un Ut (CZprevious keys key dst) (AZprevious ks k).
Proof.
  intros Hks Hk st m Hv. cbn [exec]. destruct (search_spec Un Ut st m keys ks Hv Hks) as (st1 & p & -> & Hat).
  cbn [mbind res_bind]. destruct (Z.eq_dec p NULL) as [->|Np].
  - exists st1, (AVal (null_result dst)). split; [done|].
    destruct Hat as [(_ & Hv' & Hn)|(t & s & _ & _ & _ & _ & _ & _ & _ & ?)]; [|done].
    split; [|done]. exists (null_result dst), None. split; [done|]. split; [done|]. intros k2 H2. by destruct (no_child m ks Hn k2).
  - destruct (at_node_looked Un Ut st1 m ks p Hat Np) as (s & R & S & Hp & Hch & Hs & _ & Hback).
    destruct (fnzprevious_spec node_size tree_size g std base st1 p s R S key k dst Hp Hk) as (st2 & c & -> & Hp2 & Hl & Hc).
    cbn [mbind res_bind]. exists st2, (AVal c). split; [done|]. split; [|by apply Hback].
    exists c. eexists. split; [done|]. split; [exact Hc|]. eapply is_prev_iff; [exact Hch|]. by apply order_prev_spec.
Qed.

(** A kill of what a lookup finds, if anything. *)
Lemma kill_refines Un Ut st m keys ks do_subtree :
  is_var Un Ut st m -> keys_of g lv_null_subs false keys ks ->
  exists st', ('(st, lv) ← op_srchindx g lv_null_subs st base keys; lv_kill SYM st lv do_subtree) = Ok st' /\
    is_var Un Ut st' (fun ks' => if killed do_subtree ks ks' then None else m ks').
Proof.
  intros Hv Hks. destruct (search_spec Un Ut st m keys ks Hv Hks) as (st1 & p & -> & Hat). cbn [mbind res_bind].
  destruct Hat as [(-> & (t & Hown & HS & Hb & HL & Hm) & Hn)|(t & s & Hown & HS & Hb & HL & Hm & Hpath & Hat & _)].
  - exists (set_active NULL st1). split; [done|]. exists t. split; [by apply own_with_active|]. split; [done|]. split; [done|].
    split; [done|]. intros ks'. cbn [nodes set_active]. rewrite Hm. destruct (killed do_subtree ks ks') eqn:Ek; [|done].
    assert (Hp : ks `prefix_of` ks').
    { unfold killed in Ek. destruct do_subtree; apply bool_decide_eq_true in Ek; [done|by subst]. }
    destruct Hp as [ks2 ->]. apply Hn.
  - assert (Hb2 := Hb). destruct Hb2 as (nb & Enb & Epb).
    destruct (lv_kill_spec node_size tree_size SYM base st1 t Un Ut ks p s nb do_subtree Hown Enb Epb) as
      (st2 & t2 & -> & Hown2 & Hv2 & HL2 & Hs2); [by eapply SYM_out|done|done|].
    exists st2. split; [done|]. exists t2. split; [done|]. split; [done|]. split; [by eapply base_kept|]. split; [by apply HL2|].
    intros ks'. by rewrite Hs2, Hm.
Qed.

Lemma cmd_refines Un Ut c a : cmd_ok c a -> refines Un Ut c a.
Proof.
  destruct c as [keys v|r keys|keys dst|keys dst def|keys|keys key dst|keys key dst|keys|keys], a as [ks v'|r' ks|ks none|ks|ks k|ks k|ks|ks]; try done; cbn [cmd_ok].
  - intros (-> & Hks & Hd & Ha). by apply set_refines.
  - intros [-> ?]. by apply read_refines.
  - intros [-> ?]. by apply get_refines.
  - intros (-> & ? & ?). by apply get2_refines.
  - apply data_refines.
  - intros [? ?]. by apply order_refines.
  - intros [? ?]. by apply zprevious_refines.
  - intros Hks st m Hv. destruct (kill_refines Un Ut st m keys ks true Hv Hks) as (st' & E & Hv'). exists st', ANone.
    split; [|done]. apply res_bind_inv in E as ([st1 lv] & E1 & E). cbn [exec]. rewrite E1. cbn [mbind res_bind].
    unfold op_kill. by rewrite E.
  - intros Hks st m Hv. destruct (kill_refines Un Ut st m keys ks false Hv Hks) as (st' & E & Hv'). exists st', ANone.
    split; [|done]. apply res_bind_inv in E as ([st1 lv] & E1 & E). cbn [exec]. rewrite E1. cbn [mbind res_bind].
    unfold op_lvzwithdraw. by rewrite E.
Qed.

Lemma run_spec Un Ut st m cs acs :
  is_var Un Ut st m -> Forall2 cmd_ok cs acs ->
  exists st' l, run cs st = Ok (st', l) /\ answers_ok (undef_inhibit g) std acs m l /\
    is_var Un Ut st' (foldl (fun m a => astep a m) m acs).
Proof.
  intros Hv H. revert st m Hv. induction H as [|c a cs acs Hc Hcs IH]; intros st m Hv; [by exists st, []|].
  destruct (cmd_refines Un Ut c a Hc st m Hv) as (st1 & o & E1 & Ho & Hv1).
  destruct (IH st1 _ Hv1) as (st2 & l & E2 & Hl & Hv2). exists st2, (o :: l). cbn [run]. rewrite E1. cbn [mbind res_bind].
  rewrite E2. by split.
Qed.
End run.
