(* ===== verification/Lvprops.v ===== *)
(** The theorems about local variables, with a store to apply them to: memory
    that hands out the addresses above those in use, slots of one address, and a
    symbol table with one variable. *)

From stdpp Require Import base list numbers option tactics gmap sorting.
From Stdlib Require Import ZArith Lia.
From S2P Require Import Prelude Mval Numstr Lvnode Avltree Avlops Lvtree Lvmap Lvframe Lvslot Lvar Lvown Lvset Lvorder Lvkill Lvrun.

Open Scope Z_scope.

(** * A concrete store *)

Definition bump : Malloc := fun used n => (1 + foldr Z.max 0 used, n).

Lemma foldr_max_le l x : x ∈ l -> x <= foldr Z.max 0 l.
Proof. induction l as [|y l IH]; [by intros ?%not_elem_of_nil|]. intros [->|H]%elem_of_cons; cbn; [lia|]. specialize (IH H). lia. Qed.

Lemma foldr_max_pos l : 0 <= foldr Z.max 0 l.
Proof. induction l; cbn; lia. Qed.

#[global] Instance bump_ok : MallocOk 1 bump.
Proof.
  intros used n base k Hn [= <- <-]. split; [done|]. pose proof (foldr_max_pos used) as Hp. split.
  - unfold slots. apply NoDup_fmap; [intros x y; lia|apply NoDup_seqZ].
  - intros p (i & -> & Hi%elem_of_seqZ)%list_elem_of_fmap. split; [unfold NULL; lia|].
    intros Hu%foldr_max_le. lia.
Qed.

Definition ex_sym : Z := -1.
Definition ex_tree : Z -> lvts := fun _ => mk_lvts (LV_TREE_CREATE 0 0 0) 0 0 0.
Definition ex_base : Z := 1.
Definition ex_store : lvstate :=
  mk_lvs {[ex_base := with_tree ex_sym blank_node]} {[ex_sym := ex_tree 0]} (mk_pool 0 []) (mk_pool 0 []) NULL.
Definition ex_globals : globals := mk_globals false false.
Definition ex_int (n : Z) : mval := mk_mval 3 0 0 0 (n * 1000) [].
Definition ex_str (s : list Z) : mval := mk_mval 4 0 0 0 0 s.

Lemma ex_var : is_var 1 1 ex_sym ex_base [] [ex_sym] ex_store (fun _ => None).
Proof.
  exists LNil. split.
  - split; [|done]. split; [done|]. split; [done|]. split; [eexists; by split|]. split; [repeat constructor; set_solver|].
    split; [repeat constructor; set_solver|].
    split; exists []; (split; [done|split; [constructor|split; [constructor|split]]]); intros x Hx;
      try (by apply not_elem_of_nil in Hx); apply list_elem_of_singleton in Hx as ->; by eexists.
  - split; [by left|]. split; [eexists; by split|]. split; [|by intros [|]].
    intros ks Hn [x Hx]. by destruct ks.
Qed.

(** Subscripts that convert, decided. *)
Definition key_of_dec (g : globals) (nulls : lvnullsubs) (put : bool) (key : mval) (k : lkey) : bool :=
  match subscript g nulls put key with
  | Ok (c, key') => bool_decide (TREE_KEY_SUBSCR_IS_CANONICAL (mvtype key') = c) && bool_decide (mval_key_ok key') &&
      bool_decide (mval_key key' = k)
  | Err _ => false
  end.

Lemma keys_of_dec g nulls put keys ks :
  length keys = length ks -> forallb (fun x => key_of_dec g nulls put x.1 x.2) (zip keys ks) = true -> keys_of g nulls put keys ks.
Proof.
  revert ks. induction keys as [|key keys IH]; intros [|k ks] Hl H; try done; [constructor|].
  cbn in H. apply andb_true_iff in H as [H1 H2]. constructor; [|by apply IH; [injection Hl|]].
  unfold key_of_dec in H1. cbn [fst snd] in H1. destruct (subscript g nulls put key) as [[c key']|]; [|done]. exists c, key'.
  apply andb_true_iff in H1 as [[Ha Hb]%andb_true_iff Hc]. apply bool_decide_eq_true in Ha, Hb, Hc. by split.
Qed.

(** * The theorems *)

(** C1: local variables. A variable is a base lv_val with a tree of trees of nodes,
    whose slots come from pools that are shared. The calls are those that the
    compiled code makes on it: SET through op_putindx; a plain reference
    through op_getindx, as compiled ([false]) or under ydb_get_s ([true]);
    $GET with one argument through op_srchindx and op_fnget, with two through
    op_srchindx, op_fnget1 and op_fnget2; $DATA, $ORDER, $ZPREVIOUS, KILL and
    ZWITHDRAW. For calls whose subscripts the code accepts (defined,
    convertible, no null subscript that LVNULLSUBS refuses, without local
    collation), that set defined values and no alias containers, every
    sequence runs to its end, leaves a well-formed variable, and
    answers as a function from lists of subscripts to values does: a reference
    gives what was set last, or LVUNDEF where there is nothing (the empty
    string under undef_inhibit or ydb_get_s); $GET the value or its default; a
    kill takes away the subtree; $DATA tells whether there are a value and
    descendants; $ORDER and $ZPREVIOUS give the nearest subscript, in the
    collating order, that has data. The nodes and trees in use elsewhere are
    not reused. *)
Theorem local_variables_refine (Mn Mt : Malloc) node_size tree_size {HMn : MallocOk node_size Mn} {HMt : MallocOk tree_size Mt}
    blank_tree SYM g lv_null_subs std base Un Ut st m cs acs :
  is_var node_size tree_size SYM base Un Ut st m -> Forall2 (cmd_ok g lv_null_subs) cs acs ->
  exists st' l, run Mn Mt node_size tree_size blank_tree SYM g lv_null_subs std base cs st = Ok (st', l) /\
    answers_ok (undef_inhibit g) std acs m l /\ is_var node_size tree_size SYM base Un Ut st' (foldl (fun m a => astep a m) m acs).
Proof. intros Hv Hc. by apply (run_spec Mn Mt). Qed.

Definition ex_prog : list cmd :=
  [CSet [ex_int 2; ex_str [65]] (ex_int 7); CSet [ex_int 2] (ex_int 8); CSet [ex_int 1; ex_int 5] (ex_int 9);
   CRead false [ex_int 2; ex_str [65]]; COrder [] (ex_int 1) (ex_int 0); CZprevious [] (ex_str []) (ex_int 0); CData [ex_int 2];
   CKill [ex_int 2]; CZwithdraw [ex_int 1; ex_int 5]; CData []; CRead false [ex_int 2; ex_str [65]];
   CRead true [ex_int 2]; CGet [ex_int 1] (ex_int 0); CSet [] (ex_int 6); CGet2 [] (ex_int 0) (ex_int 4); CGet2 [ex_int 1] (ex_int 0) (ex_int 4)].

Definition ex_num (n : Z) : lkey := KNum (n * 10 ^ 60).

Definition ex_aprog : list acmd :=
  [ASet [ex_num 2; KStr [65]] (ex_int 7); ASet [ex_num 2] (ex_int 8); ASet [ex_num 1; ex_num 5] (ex_int 9);
   ARead false [ex_num 2; KStr [65]]; AOrder [] (ex_num 1); AZprevious [] (KStr []); AData [ex_num 2];
   AKill [ex_num 2]; AZwithdraw [ex_num 1; ex_num 5]; AData []; ARead false [ex_num 2; KStr [65]];
   ARead true [ex_num 2]; AGet [ex_num 1] (null_result (ex_int 0)); ASet [] (ex_int 6); AGet [] (ex_int 4); AGet [ex_num 1] (ex_int 4)].

#[local] Ltac solve_keys := cbn [cmd_ok]; apply keys_of_dec; [reflexivity|by vm_compute].

Lemma ex_prog_ok : Forall2 (cmd_ok ex_globals LVNULLSUBS_NO) ex_prog ex_aprog.
Proof.
  unfold ex_prog, ex_aprog. do 3 (apply Forall2_cons_2; [split; [done|split; [solve_keys|done]]|]).
  apply Forall2_cons_2; [split; [done|solve_keys]|]. apply Forall2_cons_2; [|apply Forall2_cons_2].
  - split; [constructor|]. split; [done|]. change (is_empty_string (ex_int 1)) with false. cbv iota.
    split; [done|]. eexists. split; [vm_compute; reflexivity|]. split; [|by vm_compute]. split; [|by vm_compute].
    by apply (bool_decide_eq_true_1 _); vm_compute.
  - by split; [constructor|].
  - do 4 (apply Forall2_cons_2; [solve_keys|]). do 3 (apply Forall2_cons_2; [split; [done|solve_keys]|]).
    apply Forall2_cons_2; [split; [done|split; [solve_keys|done]]|].
    do 2 (apply Forall2_cons_2; [split; [done|split; [done|solve_keys]]|]). constructor.
Qed.

Lemma local_variables_refine_witness :
  exists st' l, run bump bump 1 1 ex_tree ex_sym ex_globals LVNULLSUBS_NO false ex_base ex_prog ex_store = Ok (st', l) /\
    answers_ok false false ex_aprog (fun _ => None) l /\
    is_var 1 1 ex_sym ex_base [] [ex_sym] st' (foldl (fun m a => astep a m) (fun _ => None) ex_aprog).
Proof.
  apply (local_variables_refine bump bump 1 1 ex_tree ex_sym ex_globals LVNULLSUBS_NO false ex_base); [apply ex_var|apply ex_prog_ok].
Defined.

(** The answers of that program. *)
Example ex_answers :
  (snd <$> match run bump bump 1 1 ex_tree ex_sym ex_globals LVNULLSUBS_NO false ex_base ex_prog ex_store with
           | Ok r => Some r | Err _ => None end) =
  Some [ANone; ANone; ANone; AVal (ex_int 7); AVal (ex_int 2); AVal (ex_int 2); AInt 11; ANone; ANone; AInt 0; AUndef;
    AVal literal_null; AVal (null_result (ex_int 0)); ANone; AVal (ex_int 6); AVal (ex_int 4)].
Proof. vm_compute. reflexivity. Qed.

(** ** One tree *)

(** The keys 1, 2 and "A", the clue of the last lookup at 2. *)
Definition ex_node (key : mval) (l r p : Z) : lvTreeNode :=
  let n := init_key key blank_node in
  mk_node (nd_v n) NULL 9 (key_mvtype n) TREE_BALANCED TREE_DESCEND_LEFT (key_sgn n) (key_e n) (key_iconv n)
    (key_m0 n) (key_m1 n) (key_str n) l r p.
Definition ex_key (n : Z) : mval := mk_mval (Z.lor 3 MV_CANONICAL) 0 0 0 (n * 1000) [].
Definition ex_T : tree := Node (Node Leaf 1 Leaf) 2 (Node Leaf 3 Leaf).
Definition ex_heap : heap :=
  {[1 := ex_node (ex_key 1) NULL NULL 2; 2 := ex_node (ex_key 2) 1 3 NULL; 3 := ex_node (ex_str [65]) NULL NULL 2; 4 := blank_node]}.
Definition ex_lvt : lvTree := mk_lvt 9 2 2 2 1 3.

Lemma ex_wf : lv_wf ex_heap ex_lvt ex_T.
Proof.
  split; [|split; [|split]].
  - split; [by vm_compute|]. split; [by vm_compute|]. split; [apply (bool_decide_eq_true_1 _); by vm_compute|].
    split; [|by vm_compute]. repeat split; (eexists; split; [by vm_compute|by left]).
  - intros p Hp. assert (Hc : p = 1 \/ p = 2 \/ p = 3) by (revert Hp; unfold ex_T; cbn; set_solver).
    destruct Hc as [-> | [-> | ->]]; (eexists; split; [vm_compute; reflexivity|]; apply (bool_decide_eq_true_1 _); by vm_compute).
  - unfold ordered. assert (contents (keym ex_heap) (elems ex_T) = [ex_num 1; ex_num 2; KStr [65]]) as -> by (by vm_compute).
    repeat constructor; by vm_compute.
  - right. exists [], (Node Leaf 1 Leaf), (Node Leaf 3 Leaf). split; [done|]. split; [constructor|]. by split.
Qed.

(** C14: lookups in a tree. Whatever the clue that the last lookup left, a lookup
    of a key of any type finds the node that has the key, if there is one, and
    leaves a well-formed tree with the same contents. *)
Theorem lookup_is_search h lvt T key lp :
  lv_wf h lvt T -> mval_key_ok key ->
  exists h' lvt' parent,
    lvAvlTreeLookup h lvt key lp = Ok (h', lvt', default NULL (dget (entries (keym h) (elems T)) (mval_key key)), parent) /\
    kept h h' /\ lv_wf h' lvt' T.
Proof.
  intros Hw Hk. destruct (lv_lookup_spec h lvt T key lp Hw Hk) as (h' & lvt' & node & parent & E & K & _ & Hw' & -> & _).
  by exists h', lvt', parent.
Qed.

Lemma lookup_is_search_witness :
  exists h' lvt' parent, lvAvlTreeLookup ex_heap ex_lvt (ex_str [65]) NULL = Ok (h', lvt', 3, parent) /\
    kept ex_heap h' /\ lv_wf h' lvt' ex_T.
Proof. apply (lookup_is_search ex_heap ex_lvt ex_T (ex_str [65]) NULL); [apply ex_wf|by vm_compute]. Defined.

(** C6: updates of a tree. After a lookup that misses, lvAvlTreeNodeInsert of the key in
    a slot that is not in use gives a well-formed balanced tree with the key
    added; after one that hits, lvAvlTreeNodeDelete gives one without it. *)
Theorem insert_delete_wf h lvt T key lp h1 lvt1 node parent :
  lv_wf h lvt T -> mval_key_ok key -> lvAvlTreeLookup h lvt key lp = Ok (h1, lvt1, node, parent) ->
  (node = NULL -> forall x n, h1 !! x = Some n -> x <> NULL -> x ∉ elems T ->
    exists h2 lvt2 T2, lvAvlTreeNodeInsert h1 lvt1 key parent x = Ok (h2, lvt2) /\ lv_wf h2 lvt2 T2 /\
      entries (keym h2) (elems T2) = dput (entries (keym h) (elems T)) (mval_key key) x) /\
  (node <> NULL ->
    exists h2 lvt2 T2, lvAvlTreeNodeDelete h1 lvt1 node = Ok (h2, lvt2) /\ lv_wf h2 lvt2 T2 /\
      entries (keym h2) (elems T2) = ddel (entries (keym h) (elems T)) (mval_key key)).
Proof.
  intros Hw Hk E. destruct (lv_lookup_spec h lvt T key lp Hw Hk) as (h' & lvt' & node' & parent' & E' & K & _ & Hw' & _ & Hp).
  rewrite E in E'. injection E' as <- <- <- <-. rewrite <- (kept_entries h h1) by done.
  split; intros Hn; (destruct Hp as [(Nn & Hf)|(En & _ & Hg)]; [|try done]); try done.
  - intros x n Ex Nx Hx. destruct (insert_dict h1 lvt1 T key parent x n Hw' Hk Hg Ex Nx Hx)
      as (h2 & lvt2 & T2 & E2 & Hw2 & Ee & _). by exists h2, lvt2, T2.
  - destruct (delete_dict h1 lvt1 T _ node Hw' Hf) as (h2 & lvt2 & T2 & E2 & Hw2 & Ee & _). by exists h2, lvt2, T2.
Qed.

Lemma insert_delete_wf_witness :
  (exists h2 lvt2 T2, ('(h1, lvt1, _, parent) ← lvAvlTreeLookup ex_heap ex_lvt (ex_key 5) NULL;
       lvAvlTreeNodeInsert h1 lvt1 (ex_key 5) parent 4) = Ok (h2, lvt2) /\ lv_wf h2 lvt2 T2 /\
    entries (keym h2) (elems T2) = [(ex_num 1, 1); (ex_num 2, 2); (ex_num 5, 4); (KStr [65], 3)]) /\
  exists h2 lvt2 T2, ('(h1, lvt1, node, _) ← lvAvlTreeLookup ex_heap ex_lvt (ex_key 2) NULL;
       lvAvlTreeNodeDelete h1 lvt1 node) = Ok (h2, lvt2) /\ lv_wf h2 lvt2 T2 /\
    entries (keym h2) (elems T2) = [(ex_num 1, 1); (KStr [65], 3)].
Proof.
  assert (HT : 4 ∉ elems ex_T) by (apply (bool_decide_eq_true_1 _); by vm_compute).
  assert (exists h1 lvt1 parent, lvAvlTreeLookup ex_heap ex_lvt (ex_key 5) NULL = Ok (h1, lvt1, NULL, parent) /\
    h1 !! 4 = Some blank_node) as (h1 & lvt1 & parent & E & E4) by (do 3 eexists; split; [vm_compute; reflexivity|by vm_compute]).
  assert (exists h1 lvt1 parent, lvAvlTreeLookup ex_heap ex_lvt (ex_key 2) NULL = Ok (h1, lvt1, 2, parent))
    as (h1' & lvt1' & parent' & E') by (do 3 eexists; vm_compute; reflexivity).
  split.
  - destruct (insert_delete_wf ex_heap ex_lvt ex_T (ex_key 5) NULL h1 lvt1 NULL parent ex_wf) as [Hi _];
      [apply (bool_decide_eq_true_1 _); by vm_compute|exact E|].
    destruct (Hi eq_refl 4 _ E4) as (h2 & lvt2 & T2 & E2 & Hw2 & Ee); [done|done|]. rewrite E. exists h2, lvt2, T2. split; [exact E2|].
    split; [done|]. rewrite Ee. by vm_compute.
  - destruct (insert_delete_wf ex_heap ex_lvt ex_T (ex_key 2) NULL h1' lvt1' 2 parent' ex_wf) as [_ Hd];
      [apply (bool_decide_eq_true_1 _); by vm_compute|exact E'|].
    destruct Hd as (h2 & lvt2 & T2 & E2 & Hw2 & Ee); [done|]. rewrite E'. exists h2, lvt2, T2. split; [exact E2|].
    split; [done|]. rewrite Ee. by vm_compute.
Defined.

(** C23: the height of a tree. The height h of a well-formed tree of n nodes
    satisfies 2^h <= (n + 1)^2, so that it is at most 2 log2 (n + 1), and a
    traversal for any key ends within h nodes. *)
Theorem height_log h lvt T key p :
  lv_wf h lvt T -> mval_key_ok key -> T <> Leaf ->
  2 ^ avl_height lvt <= (Z.of_nat (length (elems T)) + 1) ^ 2 /\
  exists r, lookup_loop (Z.to_nat (avl_height lvt)) (key_cmp key) h (avl_root lvt) p NULL NULL = Ok r.
Proof.
  intros Hw Hk Hne. pose proof Hw as [(_ & _ & _ & Ha & _ & Hh) _]. rewrite Hh, Nat2Z.id. split.
  - apply avl_log in Ha. apply inj_le in Ha. rewrite Nat2Z.inj_pow in Ha. change (Z.of_nat 2) with 2 in *. lia.
  - by eapply traverse_steps.
Qed.

Lemma height_log_witness :
  2 ^ avl_height ex_lvt <= (3 + 1) ^ 2 /\
  exists r, lookup_loop 2 (key_cmp (ex_key 5)) ex_heap 2 NULL NULL NULL = Ok r.
Proof. apply (height_log ex_heap ex_lvt ex_T (ex_key 5) NULL); [apply ex_wf|apply (bool_decide_eq_true_1 _); by vm_compute|done]. Defined.

(** ** Subscripts in nodes *)

(** C28: a subscript in a node. Insertion stores a subscript of any type in the layout
    of its type, over whatever the slot held; LV_NODE_GET_KEY gives back a cell
    that is well formed and is the same subscript. *)
Theorem subscript_stored key n dst :
  mval_key_ok key ->
  let c := LV_NODE_GET_KEY (init_key key n) dst in
  key_ok (init_key key n) /\ cell_is (set_mvtype (Z.land (mvtype c) (Z.lnot MV_CANONICAL)) c) (mval_key key).
Proof.
  intros Hk c. destruct (init_key_ok key n Hk) as [Ho <-]. split; [done|]. by apply node_key_cell.
Qed.

Lemma subscript_stored_witness :
  let c := LV_NODE_GET_KEY (init_key (ex_key 5) (ex_node (ex_str [66]) 1 2 3)) (ex_str [67]) in
  key_ok (init_key (ex_key 5) (ex_node (ex_str [66]) 1 2 3)) /\
  cell_is (set_mvtype (Z.land (mvtype c) (Z.lnot MV_CANONICAL)) c) (ex_num 5).
Proof. apply (subscript_stored (ex_key 5)). apply (bool_decide_eq_true_1 _). by vm_compute. Defined.

(** ** Slots *)

(** C24: slots. While the pool of a symbol table is sound (the blocks are as
    malloc gave them, the list of freed slots and the slots never used are
    disjoint from those in use), a slot can always be had; it is none of those
    in use, they keep their contents, and the pool stays sound; and a slot that
    is given back leaves a sound pool without it. *)
Theorem slots_sound (M : Malloc) node_size {HM : MallocOk node_size M} h sym U :
  pool_ok node_size sbs_child h sym U ->
  (exists h' sym' p, getslot node_size sbs_child (fun _ => blank_node) lvtreenode_grow h sym = Ok (h', sym', p) /\
    p <> NULL /\ (p ∉ U) /\ (forall x, x ∈ U -> h' !! x = h !! x) /\ pool_ok node_size sbs_child h' sym' (p :: U)) /\
  forall p, p ∈ U -> p <> NULL -> exists h' sym', freeslot node_free h sym p = Ok (h', sym') /\
    (forall x, x <> p -> h' !! x = h !! x) /\ pool_ok node_size sbs_child h' sym' (filter (fun x => x <> p) U).
Proof.
  intros Hp. split.
  - destruct (getslot_spec node_size sbs_child (fun _ => blank_node) lvtreenode_grow lvtreenode_grow_pos h sym U Hp)
      as (h' & sym' & p & E & Np & Hu & _ & _ & Hs & Hp'). exists h', sym', p. split; [exact E|]. split; [done|]. split; [done|].
    split; [|done]. intros x Hx. apply Hs. destruct Hp as (_ & _ & _ & _ & _ & Hd). by apply Hd.
  - intros p Hi Np. destruct (freeslot_spec node_size sbs_child node_free (fun _ _ => eq_refl) h sym U p Hp Hi Np) as (n & En & E & Hf).
    eexists _, _. split; [exact E|]. split; [intros x Hx; by rewrite lookup_insert_ne|]. apply Hf.
    intros x [? ?]%list_elem_of_filter. done.
Qed.

Lemma slots_sound_witness :
  (exists h' sym' p, getslot (M := bump) 1 sbs_child (fun _ => blank_node) lvtreenode_grow (nodes ex_store) (node_pool ex_store) = Ok (h', sym', p) /\
    p <> NULL /\ (p ∉ [ex_base]) /\ (forall x, x ∈ [ex_base] -> h' !! x = nodes ex_store !! x) /\ pool_ok 1 sbs_child h' sym' (p :: [ex_base])) /\
  forall p, p ∈ [ex_base] -> p <> NULL -> exists h' sym', freeslot node_free (nodes ex_store) (node_pool ex_store) p = Ok (h', sym') /\
    (forall x, x <> p -> h' !! x = nodes ex_store !! x) /\ pool_ok 1 sbs_child h' sym' (filter (fun x => x <> p) [ex_base]).
Proof.
  apply (slots_sound bump 1 (nodes ex_store) (node_pool ex_store) [ex_base]).
  destruct ex_var as (t & ((_ & _ & _ & _ & _ & Hp & _) & _) & _). eapply pool_subset; [|exact Hp].
  intros x ->%list_elem_of_singleton. by left.
Defined.

(** ** The clean-up of a failed command *)

(** A(1,5) made by a command that then reads [reads] and fails. *)
Definition failed_command (reads : list mval) (st : lvstate) : res lvstate :=
  '(st, _) ← op_putindx bump bump 1 1 ex_tree ex_sym ex_globals LVNULLSUBS_NO st ex_base [ex_int 1; ex_int 5];
  '(st, _) ← op_srchindx ex_globals LVNULLSUBS_NO st ex_base reads;
  UNDO_ACTIVE_LV ex_sym st.

Definition after_failure (reads : list mval) : res (list answer) :=
  '(st, _) ← run bump bump 1 1 ex_tree ex_sym ex_globals LVNULLSUBS_NO false ex_base
    [CSet [ex_int 2] (ex_int 22); CSet [ex_int 3] (ex_int 33)] ex_store;
  st ← failed_command reads st;
  '(_, l) ← run bump bump 1 1 ex_tree ex_sym ex_globals LVNULLSUBS_NO false ex_base
    [CRead false [ex_int 2]; CRead false [ex_int 3]] st;
  Ok l.

(** UNDO_ACTIVE_LV loses a node. After A(2)=22 and A(3)=33, a command makes the
    node A(1,5), reads A(3) and fails. The clean-up kills A(1,5), and A(1)
    that it leaves empty, but sets the directions to A(1,5) only; those of the
    level above still lead to A(3). A(3) is gone, while it is intact without
    the read. *)
Example ex_undo_active_lv :
  after_failure [] = Ok [AVal (ex_int 22); AVal (ex_int 33)] /\
  after_failure [ex_int 3] = Ok [AVal (ex_int 22); AUndef].
Proof. split; vm_compute; reflexivity. Qed.
