(* ===== verification/Gvkey.v ===== *)
(** Keys of global variables as byte strings, as the blocks of the database hold
    them: two null bytes end a key, and there are no two in a row before.  The
    common prefix of keys in a sorted sequence, on which the compression of the
    keys of a block and the search in it rest. *)

From stdpp Require Import base list numbers option tactics.
From Stdlib Require Import ZArith Lia.
From S2P Require Import Prelude.

Open Scope Z_scope.

(** * Common prefixes *)

Fixpoint lcp (a b : list Z) : nat :=
  match a, b with
  | x :: a', y :: b' => if x =? y then S (lcp a' b') else O
  | _, _ => O
  end.

Definition gvlt (a b : list Z) : Prop := lexcmp a b = Lt.

#[global] Instance gvlt_dec a b : Decision (gvlt a b).
Proof. unfold gvlt. apply _. Defined.

#[global] Instance gvlt_trans : Transitive gvlt.
Proof. intros a b c. apply lexcmp_trans. Qed.

#[global] Instance gvlt_irrefl : Irreflexive gvlt.
Proof. intros a. unfold complement, gvlt. by rewrite lexcmp_refl. Qed.

Lemma lcp_comm a b : lcp a b = lcp b a.
Proof. revert b. induction a as [|x a IH]; intros [|y b]; simpl; try done. rewrite Z.eqb_sym, IH. done. Qed.

Lemma lcp_le_l a b : (lcp a b <= length a)%nat.
Proof. revert b. induction a as [|x a IH]; intros [|y b]; simpl; try lia. zcase; [specialize (IH b)|]; lia. Qed.

Lemma lcp_le_r a b : (lcp a b <= length b)%nat.
Proof. rewrite lcp_comm. apply lcp_le_l. Qed.

Lemma lcp_same a : lcp a a = length a.
Proof. induction a as [|x a IH]; simpl; [done|]. by rewrite Z.eqb_refl, IH. Qed.

Lemma lcp_take a b n : (n <= lcp a b)%nat -> take n a = take n b.
Proof.
  revert b n. induction a as [|x a IH]; intros [|y b] n; simpl; intros Hn; try (by replace n with 0%nat by lia).
  revert Hn. zcase; intros Hn; [|by replace n with 0%nat by lia]. subst y.
  destruct n as [|n]; [done|]. simpl. f_equal. apply IH. lia.
Qed.

Lemma lcp_app p a b : lcp (p ++ a) (p ++ b) = (length p + lcp a b)%nat.
Proof. induction p as [|x p IH]; simpl; [done|]. by rewrite Z.eqb_refl, IH. Qed.

Lemma lcp_drop a b n : (n <= lcp a b)%nat -> lcp (drop n a) (drop n b) = (lcp a b - n)%nat.
Proof.
  intros Hn. rewrite <- (take_drop n a) at 2. rewrite <- (take_drop n b) at 2.
  rewrite (lcp_take a b n) by done. rewrite lcp_app, length_take. pose proof (lcp_le_r a b). lia.
Qed.

Lemma lexcmp_drop a b n : (n <= lcp a b)%nat -> lexcmp a b = lexcmp (drop n a) (drop n b).
Proof.
  intros Hn. rewrite <- (take_drop n a) at 1. rewrite <- (take_drop n b) at 1.
  rewrite (lcp_take a b n) by done. generalize (take n b) as p. intros p.
  induction p; simpl; [done|]. by rewrite Z.compare_refl.
Qed.

Lemma lookup_lcp a b i : (i < lcp a b)%nat -> a !! i = b !! i.
Proof.
  intros Hi. assert (Ht : take (S i) a = take (S i) b) by (apply lcp_take; lia).
  rewrite <- (lookup_take_lt a (S i) i), <- (lookup_take_lt b (S i) i) by lia. by rewrite Ht.
Qed.

Lemma lcp_ge a b n : take n a = take n b -> (n <= length a)%nat -> (n <= length b)%nat -> (n <= lcp a b)%nat.
Proof.
  revert b n. induction a as [|x a IH]; intros [|y b] [|n]; simpl; intros E Ha Hb; try lia.
  injection E as -> E. rewrite Z.eqb_refl. specialize (IH b n E). lia.
Qed.

Lemma lcp_at a b n x y : take n a = take n b -> a !! n = Some x -> b !! n = Some y -> x <> y -> lcp a b = n.
Proof.
  intros E Ex Ey Hn. pose proof (lookup_lt_Some _ _ _ Ex). pose proof (lookup_lt_Some _ _ _ Ey).
  assert (~ (n < lcp a b)%nat) by (intros Hl%lookup_lcp; congruence).
  pose proof (lcp_ge a b n E). lia.
Qed.

(** Where two strings differ, or one is a prefix of the other. *)
Lemma gvlt_lcp a b : gvlt a b <->
  (lcp a b = length a /\ (length a < length b)%nat) \/
  (exists x y, a !! lcp a b = Some x /\ b !! lcp a b = Some y /\ x < y).
Proof.
  unfold gvlt. revert b. induction a as [|x a IH]; intros [|y b]; simpl.
  - split; [done|]. intros [[_ H]|(x & y & H & _)]; [lia|done].
  - split; [|done]. intros _. left. lia.
  - split; [done|]. intros [[H _]|(u & v & _ & H & _)]; [lia|done].
  - destruct (Z.compare_spec x y) as [->|Hlt|Hgt].
    + rewrite Z.eqb_refl. rewrite IH. simpl. split; (intros [[? ?]|?]; [left; lia|by right]).
    + assert ((x =? y) = false) as -> by (apply Z.eqb_neq; lia). split; [|done]. intros _. right. by exists x, y.
    + assert ((x =? y) = false) as -> by (apply Z.eqb_neq; lia). split; [done|]. intros [[? ?]|(u & v & [= <-] & [= <-] & ?)]; lia.
Qed.

Lemma gvlt_lcp_lt a b : gvlt a b -> (lcp a b < length b)%nat.
Proof. intros [[E ?]|(? & ? & _ & Hy%lookup_lt_Some & _)]%gvlt_lcp; lia. Qed.

(** The prefix shared by the ends of a sorted triple is the shorter of those of
    its neighbours. *)
Lemma lcp_sorted a b c : gvlt a b -> gvlt b c -> lcp a c = Nat.min (lcp a b) (lcp b c).
Proof.
  unfold gvlt. revert b c. induction a as [|x a IH]; intros [|y b] [|z c]; simpl; try done.
  destruct (Z.compare_spec x y), (Z.compare_spec y z); try done; intros Hab Hbc; subst; rewrite ?Z.eqb_refl.
  - by rewrite IH with (b := b) by done.
  - assert ((y =? z) = false) as -> by (apply Z.eqb_neq; lia). lia.
  - assert ((x =? z) = false) as -> by (apply Z.eqb_neq; lia). lia.
  - assert ((x =? z) = false) as -> by (apply Z.eqb_neq; lia). assert (x =? y = false) as -> by (apply Z.eqb_neq; lia). lia.
Qed.

(** ** The three cases of the comparison of a target with the next key *)

Lemma next_longer pk k t : gvlt pk t -> (lcp pk t < lcp pk k)%nat -> lcp k t = lcp pk t /\ gvlt k t.
Proof.
  intros Ht Hc. pose proof (lcp_le_l pk k) as Hl. pose proof Ht as [[? _]|(x & y & Ex & Ey & Hxy)]%gvlt_lcp; [lia|].
  assert (Ek : k !! lcp pk t = Some x) by (rewrite <- Ex; symmetry; by apply lookup_lcp).
  assert (El : lcp k t = lcp pk t).
  { apply (lcp_at _ _ _ x y); [|done|done|lia]. rewrite <- (lcp_take pk k), <- (lcp_take pk t) by lia. done. }
  split; [done|]. apply gvlt_lcp. right. exists x, y. by rewrite El.
Qed.

Lemma next_shorter pk k t : gvlt pk k -> (lcp pk k < lcp pk t)%nat -> lcp k t = lcp pk k /\ gvlt t k.
Proof.
  intros Hk Hc. destruct (next_longer pk t k Hk Hc) as [El Hlt]. split; [|done]. by rewrite lcp_comm.
Qed.

Lemma next_equal pk k t : lcp pk k = lcp pk t -> (lcp pk t <= lcp k t)%nat.
Proof.
  intros Hc. pose proof (lcp_le_r pk k). pose proof (lcp_le_r pk t). apply lcp_ge; [|lia|lia].
  rewrite <- (lcp_take pk k), <- (lcp_take pk t) by lia. done.
Qed.

(** * Keys *)

(** The first two null bytes in a row are the end. *)
Definition gkey_ok (k : list Z) : Prop :=
  bytes_ok k /\ exists n, length k = (n + 2)%nat /\ (0 < n)%nat /\ k !! 0%nat <> Some 0 /\
    k !! n = Some 0 /\ k !! S n = Some 0 /\ forall i, (i < n)%nat -> ~ (k !! i = Some 0 /\ k !! S i = Some 0).

Definition gkey_okb (k : list Z) : bool :=
  bool_decide (bytes_ok k) && (2 <? zlen k) && bool_decide (k !! 0%nat <> Some 0) &&
  bool_decide (drop (length k - 2) k = [0; 0]) &&
  forallb (fun i => negb (bool_decide (k !! i = Some 0) && bool_decide (k !! S i = Some 0))) (seq 0 (length k - 2)).

Lemma gkey_okb_ok k : gkey_okb k = true -> gkey_ok k.
Proof.
  unfold gkey_okb. intros H. zbool. repeat match goal with X : bool_decide _ = true |- _ => apply bool_decide_eq_true in X end.
  match goal with X : drop _ _ = _ |- _ => rename X into Hd end.
  match goal with X : forallb _ _ = true |- _ => rename X into Hf end.
  match goal with X : 2 < _ |- _ => rename X into Hl end. unfold zlen in Hl.
  split; [done|]. exists (length k - 2)%nat. split; [lia|]. split; [lia|]. split; [done|].
  split; [|split].
  - pose proof (f_equal (fun l => l !! 0%nat) Hd) as E. simpl in E. by rewrite lookup_drop, Nat.add_0_r in E.
  - pose proof (f_equal (fun l => l !! 1%nat) Hd) as E. simpl in E. rewrite lookup_drop in E.
    by replace (S (length k - 2)) with (length k - 2 + 1)%nat by lia.
  - intros i Hi [E1 E2]. rewrite forallb_forall in Hf. specialize (Hf i). rewrite in_seq in Hf.
    specialize (Hf ltac:(lia)). by rewrite E1, E2, !bool_decide_true in Hf.
Qed.

Lemma gkey_prefix a b : gkey_ok a -> gkey_ok b -> lcp a b = length a -> a = b.
Proof.
  intros (_ & n & Hn & _ & _ & En & En' & _) (_ & m & Hm & _ & _ & Em & Em' & Hi) Hl.
  assert (Hle : (length a <= length b)%nat) by (rewrite <- Hl; apply lcp_le_r).
  assert (~ (n < m)%nat).
  { intros Hlt. apply (Hi n Hlt). rewrite <- (lookup_lcp a b n), <- (lookup_lcp a b (S n)) by lia. done. }
  pose proof (lcp_take a b (length a)) as Ht. rewrite !take_ge in Ht by lia. apply Ht. lia.
Qed.

Lemma gkey_lcp a b : gkey_ok a -> gkey_ok b -> a <> b -> (lcp a b < length a)%nat.
Proof.
  intros Ha Hb Hn. pose proof (lcp_le_l a b). destruct (decide (lcp a b = length a)) as [E|]; [|lia].
  destruct Hn. by apply gkey_prefix.
Qed.

Lemma gkey_not_nil k : gkey_ok k -> k <> [].
Proof. intros (_ & n & Hn & _) ->. simpl in Hn. lia. Qed.

Lemma gkey_length k : gkey_ok k -> (3 <= length k)%nat.
Proof. intros (_ & n & Hn & ? & _). lia. Qed.

(** A key below another differs from it within both. *)
Lemma gkey_lt a b : gkey_ok a -> gkey_ok b -> gvlt a b ->
  exists x y, a !! lcp a b = Some x /\ b !! lcp a b = Some y /\ x < y.
Proof.
  intros Ha Hb Hlt. pose proof Hlt as [[E _]|H]%gvlt_lcp; [|done].
  exfalso. apply (gvlt_irrefl a). by rewrite (gkey_prefix a b Ha Hb E) at 2.
Qed.

Lemma gvlt_cases a b : gvlt a b \/ a = b \/ gvlt b a.
Proof.
  unfold gvlt. destruct (lexcmp a b) eqn:E; [right; left; by apply lexcmp_eq|by left|].
  right; right. rewrite lexcmp_antisym, E. done.
Qed.


(** A key shares less than its terminator with a key before it. *)
Lemma lcp_room pk k : bytes_ok pk -> gkey_ok k -> gvlt pk k -> pk = [] \/ gkey_ok pk -> (lcp pk k + 2 <= length k)%nat.
Proof.
  intros Hb Hk Hlt Hpk. pose proof Hk as (_ & n & Hn & _ & _ & E0 & E1 & _).
  destruct Hpk as [->|Hpk]; [pose proof (gkey_length k Hk); simpl; lia|].
  destruct (gkey_lt pk k Hpk Hk Hlt) as (x & y & Ex & Ey & Hxy). pose proof (lookup_lt_Some _ _ _ Ey).
  destruct (decide (lcp pk k = S n)) as [E|]; [|lia]. rewrite E, E1 in Ey. injection Ey as <-.
  pose proof (Forall_lookup_1 _ _ _ _ Hb Ex) as Hx. unfold byte_ok in Hx. lia.
Qed.
