(* ===== verification/Gdsblk.v ===== *)
(** The layout of a block of the database (gdsblk.h): a header, then records
    with compressed keys.  A record holds the number of bytes that its key
    shares with the key before it, the rest of the key, and a value.  In a data
    block (level 0) the value is that of the global; in an index block it is the
    number of a child block, and the last record, the star record, has no key.
    [blk_ok] says that a buffer holds a well-formed block with given records. *)

From stdpp Require Import base list numbers option tactics sorting.
From Stdlib Require Import ZArith Lia.
From S2P Require Import Prelude Gvkey.

Open Scope Z_scope.

(** * Fields *)

Definition SIZEOF_blk_hdr : Z := 16.
Definition SIZEOF_rec_hdr : Z := 4.
Definition SIZEOF_block_id : Z := 4.
Definition BSTAR_REC_SIZE : Z := SIZEOF_rec_hdr + SIZEOF_block_id.

(** Little-endian fields of a buffer. *)
Definition GET_USHORT (m : list Z) (i : Z) : res Z := a ← rd8 m i; b ← rd8 m (i + 1); Ok (a + 256 * b).
Definition rd32 (m : list Z) (i : Z) : res Z := a ← GET_USHORT m i; b ← GET_USHORT m (i + 2); Ok (a + 65536 * b).
Definition GET_BLK_ID (m : list Z) (i : Z) : res Z := a ← rd32 m i; Ok (i32 a).

Definition levl (m : list Z) : res Z := rd8 m 3.
Definition bsiz (m : list Z) : res Z := rd32 m 4.
Definition rsiz (m : list Z) (rp : Z) : res Z := GET_USHORT m rp.

Definition cmpc_value (cmpc cmpc2 : Z) : Z :=
  if cmpc <? 253 then cmpc else Z.land (253 + (cmpc - 253) * 256 + cmpc2) 1023.

Definition EVAL_CMPC (m : list Z) (rp : Z) : res Z :=
  c ← rd8 m (rp + 2); c2 ← rd8 m (rp + 3); Ok (cmpc_value c c2).

(** The bytes that SET_CMPC gives; [old] is the second byte when it is not written. *)
Definition SET_CMPC (val old : Z) : Z * Z :=
  if val <? 253 then (u8 val, old) else (u8 (253 + (val - 253) / 256), Z.land (val - 253) 255).

(** * Records *)

Record grec := mk_grec { g_key : list Z; g_val : list Z }.

#[global] Instance grec_eq_dec : EqDecision grec.
Proof. solve_decision. Defined.

(** The part of a key that is stored after the key [pk]. *)
Definition suffix (pk : list Z) (r : grec) : list Z := drop (lcp pk (g_key r)) (g_key r).
Definition rec_body (pk : list Z) (r : grec) : list Z := suffix pk r ++ g_val r.
Definition rec_size (pk : list Z) (r : grec) : Z := SIZEOF_rec_hdr + zlen (rec_body pk r).

Definition hdr_ok (pk : list Z) (r : grec) (hd : list Z) : Prop :=
  exists a b c c2, hd = [a; b; c; c2] /\ a + 256 * b = rec_size pk r /\ cmpc_value c c2 = Z.of_nat (lcp pk (g_key r)).

(** The bytes [l] hold the records [rs], after a record with the key [pk]. *)
Fixpoint enc (pk : list Z) (rs : list grec) (l : list Z) : Prop :=
  match rs with
  | [] => l = []
  | r :: rs' => exists hd l', hdr_ok pk r hd /\ l = hd ++ rec_body pk r ++ l' /\ enc (g_key r) rs' l'
  end.

Fixpoint recs_size (pk : list Z) (rs : list grec) : Z :=
  match rs with [] => 0 | r :: rs' => rec_size pk r + recs_size (g_key r) rs' end.

(** The key of the last of the records, [pk] when there is none. *)
Definition last_key (pk : list Z) (rs : list grec) : list Z := default pk (g_key <$> last rs).

(** An encoder, for concrete blocks. *)
Definition encode_rec (pk : list Z) (r : grec) : list Z :=
  let '(c, c2) := SET_CMPC (Z.of_nat (lcp pk (g_key r))) 0 in
  [rec_size pk r mod 256; rec_size pk r / 256; c; c2] ++ rec_body pk r.

Fixpoint encode (pk : list Z) (rs : list grec) : list Z :=
  match rs with [] => [] | r :: rs' => encode_rec pk r ++ encode (g_key r) rs' end.

Definition encode_blk (level : Z) (rs : list grec) : list Z :=
  let n := SIZEOF_blk_hdr + zlen (encode [] rs) in
  [0; 0; 0; level; n mod 256; n / 256; 0; 0; 0; 0; 0; 0; 0; 0; 0; 0] ++ encode [] rs.

(** * Well-formed blocks *)

Definition keys_sorted (rs : list grec) : Prop := StronglySorted gvlt (g_key <$> rs).

(** Compression counts have ten bits. *)
Definition rec_ok (r : grec) : Prop := gkey_ok (g_key r) /\ (length (g_key r) <= 1023)%nat.

Definition is_star (r : grec) : Prop := g_key r = [] /\ zlen (g_val r) = SIZEOF_block_id.

(** The records of a data block, and of an index block. *)
Definition leaf_ok (rs : list grec) : Prop := Forall rec_ok rs /\ keys_sorted rs.
Definition index_ok (rs : list grec) : Prop := exists ks star, rs = ks ++ [star] /\ is_star star /\
  Forall rec_ok ks /\ keys_sorted ks /\ Forall (fun r => zlen (g_val r) = SIZEOF_block_id) ks.

(** Block sizes are below 64 KiB, so that offsets fit an unsigned short. *)
Definition MAX_DB_BLK_SIZE : Z := 65024.

Definition blk_at (blk_size level : Z) (m : list Z) (rs : list grec) : Prop :=
  exists hd l slack, m = hd ++ l ++ slack /\ zlen hd = SIZEOF_blk_hdr /\ enc [] rs l /\
    levl m = Ok level /\ bsiz m = Ok (SIZEOF_blk_hdr + zlen l) /\
    SIZEOF_blk_hdr + zlen l <= blk_size <= MAX_DB_BLK_SIZE.

Definition blk_ok (blk_size level : Z) (m : list Z) (rs : list grec) : Prop :=
  0 <= level /\ blk_at blk_size level m rs /\ if level =? 0 then leaf_ok rs else index_ok rs.

(** * Lemmas: reading the records *)

(** The records [rs] start at offset [pos] of a buffer, after the key [pk]. *)
Definition recs_at (m : list Z) (pos : Z) (pk : list Z) (rs : list grec) : Prop :=
  exists A l C, m = A ++ l ++ C /\ zlen A = pos /\ enc pk rs l.

Lemma hdr_length pk r hd : hdr_ok pk r hd -> zlen hd = SIZEOF_rec_hdr.
Proof. by intros (a & b & c & c2 & -> & _). Qed.

Lemma enc_size pk rs l : enc pk rs l -> zlen l = recs_size pk rs.
Proof.
  revert pk l. induction rs as [|r rs IH]; intros pk l; cbn [enc recs_size]; [by intros ->|].
  intros (hd & l' & Hh & -> & He). rewrite !zlen_app, (IH _ _ He), (hdr_length _ _ _ Hh). unfold rec_size. lia.
Qed.

Lemma last_key_cons pk r rs : last_key pk (r :: rs) = last_key (g_key r) rs.
Proof. unfold last_key. destruct rs; [done|]. rewrite last_cons_cons. by destruct (last (g :: rs)) eqn:E; [|apply last_None in E]. Qed.

Lemma last_key_snoc pk rs r : last_key pk (rs ++ [r]) = g_key r.
Proof. unfold last_key. by rewrite last_snoc. Qed.

Lemma enc_app pk rs1 rs2 l : enc pk (rs1 ++ rs2) l <->
  exists l1 l2, l = l1 ++ l2 /\ enc pk rs1 l1 /\ enc (last_key pk rs1) rs2 l2.
Proof.
  revert pk l. induction rs1 as [|r rs1 IH]; intros pk l.
  - split; [by intros H; exists [], l|]. by intros (? & ? & -> & -> & H).
  - rewrite last_key_cons. cbn [app enc]. split.
    + intros (hd & l' & Hh & -> & (l1 & l2 & -> & H1 & H2)%IH). exists (hd ++ rec_body pk r ++ l1), l2.
      rewrite <- !app_assoc. split; [done|]. split; [by exists hd, l1|done].
    + intros (? & l2 & -> & (hd & l1 & Hh & -> & H1) & H2). exists hd, (l1 ++ l2). rewrite <- !app_assoc.
      split; [done|]. split; [done|]. apply IH. by exists l1, l2.
Qed.

Lemma recs_size_app pk rs1 rs2 : recs_size pk (rs1 ++ rs2) = recs_size pk rs1 + recs_size (last_key pk rs1) rs2.
Proof. revert pk. induction rs1 as [|r rs1 IH]; intros pk; [done|]. rewrite last_key_cons. cbn [app recs_size]. rewrite IH. lia. Qed.

Lemma rec_size_pos pk r : SIZEOF_rec_hdr <= rec_size pk r.
Proof. unfold rec_size. pose proof (zlen_nonneg (rec_body pk r)). lia. Qed.

Lemma recs_size_nonneg pk rs : 0 <= recs_size pk rs.
Proof. revert pk. induction rs as [|r rs IH]; intros pk; cbn [recs_size]; [lia|]. pose proof (rec_size_pos pk r). specialize (IH (g_key r)). unfold SIZEOF_rec_hdr in *. lia. Qed.

Lemma recs_at_app m pos pk rs1 rs2 : recs_at m pos pk (rs1 ++ rs2) ->
  recs_at m (pos + recs_size pk rs1) (last_key pk rs1) rs2.
Proof.
  intros (A & l & C & -> & <- & (l1 & l2 & -> & H1 & H2)%enc_app).
  exists (A ++ l1), l2, C. rewrite <- !app_assoc. split; [done|]. rewrite zlen_app, (enc_size _ _ _ H1). done.
Qed.

Lemma recs_at_prefix m pos pk rs1 rs2 : recs_at m pos pk (rs1 ++ rs2) -> recs_at m pos pk rs1.
Proof.
  intros (A & l & C & -> & <- & (l1 & l2 & -> & H1 & H2)%enc_app). exists A, l1, (l2 ++ C). by rewrite <- app_assoc.
Qed.

Lemma recs_at_next m pos pk r rs : recs_at m pos pk (r :: rs) -> recs_at m (pos + rec_size pk r) (g_key r) rs.
Proof. intros H. pose proof (recs_at_app m pos pk [r] rs H) as H'. cbn [recs_size] in H'. by rewrite Z.add_0_r in H'. Qed.

Lemma rd_at A l C i x : rd l i = Some x -> rd (A ++ l ++ C) (zlen A + i) = Some x.
Proof.
  intros H. pose proof (rd_Some_range _ _ _ H). rewrite rd_app_r by lia.
  replace (zlen A + i - zlen A) with i by lia. rewrite rd_app_l by lia. done.
Qed.

Lemma recs_at_hdr m pos pk r rs : recs_at m pos pk (r :: rs) ->
  rsiz m pos = Ok (rec_size pk r) /\ EVAL_CMPC m pos = Ok (Z.of_nat (lcp pk (g_key r))).
Proof.
  intros (A & l & C & -> & <- & (hd & l' & (a & b & c & c2 & -> & Hs & Hc) & -> & _)).
  rewrite <- !app_assoc. unfold rsiz, GET_USHORT, EVAL_CMPC, rd8.
  rewrite <- (Z.add_0_r (zlen A)) at 1. rewrite (rd_at A [a; b; c; c2] _ 0 a), (rd_at A [a; b; c; c2] _ 1 b),
    (rd_at A [a; b; c; c2] _ 2 c), (rd_at A [a; b; c; c2] _ 3 c2) by done.
  cbn [mbind res_bind res_of]. by rewrite Hs, Hc.
Qed.

Lemma recs_at_body m pos pk r rs i x : recs_at m pos pk (r :: rs) -> rd (rec_body pk r) i = Some x ->
  rd m (pos + SIZEOF_rec_hdr + i) = Some x.
Proof.
  intros (A & l & C & -> & <- & (hd & l' & Hh & -> & _)) Hx. rewrite <- (hdr_length _ _ _ Hh), <- zlen_app.
  rewrite <- !app_assoc. rewrite (app_assoc A hd). by apply rd_at.
Qed.

(** The buffer goes on for at least the records. *)
Lemma recs_at_room m pos pk rs : recs_at m pos pk rs -> 0 <= pos /\ pos + recs_size pk rs <= zlen m.
Proof.
  intros (A & l & C & -> & <- & H). rewrite !zlen_app, (enc_size _ _ _ H).
  pose proof (zlen_nonneg A). pose proof (zlen_nonneg C). lia.
Qed.

(** A byte of the key of a record, past the shared prefix. *)
Lemma key_byte m pos pk r rs i x : recs_at m pos pk (r :: rs) -> (lcp pk (g_key r) <= i)%nat ->
  g_key r !! i = Some x -> rd m (pos + SIZEOF_rec_hdr + (Z.of_nat i - Z.of_nat (lcp pk (g_key r)))) = Some x.
Proof.
  intros Ha Hi Hx. eapply recs_at_body; [exact Ha|]. unfold rec_body, suffix.
  pose proof (lookup_lt_Some _ _ _ Hx). rewrite rd_app_l by (unfold zlen; rewrite length_drop; lia).
  unfold rd. zif_false. rewrite lookup_drop, <- Hx. f_equal. lia.
Qed.

Lemma blk_at_recs blk_size level m rs : blk_at blk_size level m rs ->
  recs_at m SIZEOF_blk_hdr [] rs /\ levl m = Ok level /\ bsiz m = Ok (SIZEOF_blk_hdr + recs_size [] rs) /\
  SIZEOF_blk_hdr + recs_size [] rs <= blk_size <= MAX_DB_BLK_SIZE.
Proof.
  intros (hd & l & slack & -> & Hh & He & Hl & Hb & Hs). rewrite (enc_size _ _ _ He) in *.
  split; [by exists hd, l, slack|]. done.
Qed.

(** * The encoder *)

Lemma SET_CMPC_value n old : 0 <= n <= 1020 -> let '(c, c2) := SET_CMPC n old in cmpc_value c c2 = n.
Proof.
  intros Hn. unfold SET_CMPC, cmpc_value, u8. change 255 with (Z.ones 8). change 1023 with (Z.ones 10).
  destruct (Z.ltb_spec n 253).
  - rewrite Z.mod_small by lia. by zif_true.
  - rewrite (Z.land_ones (n - 253)) by lia. change (2 ^ 8) with 256.
    assert (0 <= (n - 253) / 256 <= 2) by (split; [apply Z.div_pos; lia|apply Z.lt_succ_r, Z.div_lt_upper_bound; lia]).
    rewrite (Z.mod_small (253 + _)) by lia. zif_false.
    rewrite Z.land_ones by lia. change (2 ^ 10) with 1024.
    replace (253 + (253 + (n - 253) / 256 - 253) * 256 + (n - 253) mod 256) with n
      by (pose proof (Z.div_mod (n - 253) 256); lia). apply Z.mod_small. lia.
Qed.

Lemma encode_enc pk rs : Forall (fun r => (length (g_key r) <= 1020)%nat) rs -> enc pk rs (encode pk rs).
Proof.
  intros H. revert pk. induction H as [|r rs Hr H IH]; intros pk; cbn [enc encode]; [done|]. unfold encode_rec.
  pose proof (SET_CMPC_value (Z.of_nat (lcp pk (g_key r))) 0) as Hc. pose proof (lcp_le_r pk (g_key r)).
  destruct (SET_CMPC _ 0) as [c c2]. exists [rec_size pk r mod 256; rec_size pk r / 256; c; c2], (encode (g_key r) rs).
  rewrite <- app_assoc. split; [|done]. exists (rec_size pk r mod 256), (rec_size pk r / 256), c, c2.
  split; [done|]. split; [pose proof (Z.div_mod (rec_size pk r) 256); lia|apply Hc; lia].
Qed.

(** * Positions *)

(** The offset after the records [l], and that of the last of them (0 when there
    is none). *)
Definition pos_after (l : list grec) : Z := SIZEOF_blk_hdr + recs_size [] l.
Definition pos_last (l : list grec) : Z := if decide (l = []) then 0 else pos_after (take (length l - 1) l).

Lemma pos_last_snoc l r : pos_last (l ++ [r]) = pos_after l.
Proof.
  unfold pos_last. rewrite decide_False by (by destruct l). rewrite length_app. simpl.
  replace (length l + 1 - 1)%nat with (length l) by lia. by rewrite take_app_length.
Qed.

Lemma pos_after_snoc l r : pos_after (l ++ [r]) = pos_after l + rec_size (last_key [] l) r.
Proof. unfold pos_after. rewrite recs_size_app. cbn [recs_size]. lia. Qed.

Lemma pos_after_ge l : SIZEOF_blk_hdr <= pos_after l.
Proof. unfold pos_after. pose proof (recs_size_nonneg [] l). lia. Qed.

Lemma recs_size_length pk rs : 4 * Z.of_nat (length rs) <= recs_size pk rs.
Proof.
  revert pk. induction rs as [|r rs IH]; intros pk; cbn [recs_size length]; [lia|].
  pose proof (rec_size_pos pk r). specialize (IH (g_key r)). unfold SIZEOF_rec_hdr in *. lia.
Qed.

(** The stored part of a key in the buffer. *)
Lemma recs_at_suffix m pos pk r rs : recs_at m pos pk (r :: rs) ->
  0 <= pos /\ pos + SIZEOF_rec_hdr + zlen (g_key r) - Z.of_nat (lcp pk (g_key r)) <= zlen m /\
  take (length (g_key r) - lcp pk (g_key r)) (drop (Z.to_nat (pos + SIZEOF_rec_hdr)) m) = drop (lcp pk (g_key r)) (g_key r).
Proof.
  intros (A & l & C & -> & <- & (hd & l' & Hh & -> & _)). pose proof (zlen_nonneg A). split; [done|].
  pose proof (lcp_le_r pk (g_key r)). unfold rec_body, suffix. pose proof (hdr_length _ _ _ Hh) as Hl. split.
  - rewrite !zlen_app, Hl. pose proof (zlen_nonneg l'). pose proof (zlen_nonneg C). pose proof (zlen_nonneg (g_val r)).
    unfold zlen at 4. rewrite length_drop. unfold zlen in *. lia.
  - rewrite <- Hl, <- zlen_app. unfold zlen at 1. rewrite Nat2Z.id, <- !app_assoc, (app_assoc A hd).
    rewrite drop_app_length, take_app_le by (rewrite length_drop; lia). apply take_ge. rewrite length_drop. lia.
Qed.

(** * Sorted records *)

Lemma last_key_ok l : Forall rec_ok l -> l <> [] -> gkey_ok (last_key [] l) /\ (length (last_key [] l) <= 1023)%nat.
Proof.
  intros H Hn. destruct l as [|r l _] using rev_ind; [done|]. rewrite last_key_snoc.
  by apply Forall_app in H as [_ [? _]%Forall_cons].
Qed.

Lemma sorted_next l x rest : Forall rec_ok l -> gkey_ok (g_key x) -> keys_sorted (l ++ x :: rest) -> gvlt (last_key [] l) (g_key x).
Proof.
  intros Hl Hx Hs. destruct l as [|r l _] using rev_ind; [pose proof (gkey_not_nil _ Hx); by destruct (g_key x)|].
  rewrite last_key_snoc. unfold keys_sorted in Hs. rewrite <- app_assoc in Hs. rewrite fmap_app in Hs.
  apply StronglySorted_app in Hs as (_ & _ & Hs). apply StronglySorted_inv in Hs as [_ Hs].
  by apply Forall_cons in Hs as [? _].
Qed.

(** * Decision *)

Definition rec_okb (r : grec) : bool := gkey_okb (g_key r) && (zlen (g_key r) <=? 1023).

Fixpoint keys_sortedb (rs : list grec) : bool :=
  match rs with
  | r :: (r' :: _) as rs' => bool_decide (gvlt (g_key r) (g_key r')) && keys_sortedb rs'
  | _ => true
  end.

Definition leaf_okb (rs : list grec) : bool := forallb rec_okb rs && keys_sortedb rs.

Definition index_okb (rs : list grec) : bool :=
  match last rs with
  | Some star => bool_decide (is_star star) && leaf_okb (take (length rs - 1) rs) &&
      forallb (fun r => zlen (g_val r) =? SIZEOF_block_id) (take (length rs - 1) rs)
  | None => false
  end.

#[global] Instance is_star_dec r : Decision (is_star r).
Proof. unfold is_star. apply _. Defined.

Lemma leaf_okb_ok rs : leaf_okb rs = true -> leaf_ok rs.
Proof.
  intros [Hr Hs]%andb_prop. split.
  - apply Forall_forall. intros r Hi. rewrite forallb_forall in Hr. apply list_elem_of_In, Hr in Hi. unfold rec_okb in Hi. zbool.
    split; [by apply gkey_okb_ok|]. unfold zlen in *. lia.
  - apply Sorted_StronglySorted; [intros ? ? ?; apply gvlt_trans|]. clear Hr.
    induction rs as [|r [|r' rs] IH]; [constructor|by repeat constructor|]. apply andb_prop in Hs as [Hr Hs].
    apply bool_decide_eq_true in Hr. constructor; [by apply IH|]. by constructor.
Qed.

Lemma index_okb_ok rs : index_okb rs = true -> index_ok rs.
Proof.
  unfold index_okb. destruct rs as [|star ks _] using rev_ind; [done|]. rewrite last_snoc, length_app. simpl.
  replace (length ks + 1 - 1)%nat with (length ks) by lia. rewrite take_app_length. intros [[Hs Hk]%andb_prop Hv]%andb_prop.
  apply bool_decide_eq_true in Hs. destruct (leaf_okb_ok _ Hk) as [Hr Ho]. exists ks, star. split; [done|]. split; [done|].
  split; [done|]. split; [done|]. apply Forall_forall. intros r Hi. rewrite forallb_forall in Hv.
  by apply list_elem_of_In, Hv, Z.eqb_eq in Hi.
Qed.

(** An encoded block is well-formed. *)
Lemma encode_blk_ok blk_size level rs slack :
  0 <= level -> (if level =? 0 then leaf_okb rs else index_okb rs) = true ->
  Forall (fun r => (length (g_key r) <= 1020)%nat) rs ->
  SIZEOF_blk_hdr + zlen (encode [] rs) <= blk_size <= MAX_DB_BLK_SIZE ->
  blk_ok blk_size level (encode_blk level rs ++ slack) rs.
Proof.
  intros H0 Hok Hl Hs. split; [done|]. split.
  - unfold encode_blk. set (n := SIZEOF_blk_hdr + zlen (encode [] rs)) in *.
    assert (Hn : n mod 256 + 256 * (n / 256) = n) by (pose proof (Z.div_mod n 256); lia).
    exists [0; 0; 0; level; n mod 256; n / 256; 0; 0; 0; 0; 0; 0; 0; 0; 0; 0], (encode [] rs), slack.
    split; [by rewrite <- app_assoc|]. split; [done|]. split; [by apply encode_enc|]. split; [done|]. split; [|done].
    unfold bsiz, rd32, GET_USHORT, rd8, rd. simpl. fold n. f_equal. lia.
  - destruct (level =? 0); [by apply leaf_okb_ok|by apply index_okb_ok].
Qed.
