(* ===== verification/Blkexpand.v ===== *)
(** The expansion of compressed keys: gvcst_expand_key.c, which rebuilds the key
    of a record from the start of its block, gvcst_expand_key.h, which rebuilds it
    from the key that a search looked for, and the part of gvcst_blk_search.h that
    rebuilds the key before the target during a search. *)

From stdpp Require Import base list numbers option tactics sorting.
From Stdlib Require Import ZArith Lia.
From S2P Require Import Prelude Subscript Gvkey Gdsblk.

Open Scope Z_scope.

Record srch_rec_status := mk_rec_status { sr_offset : Z; sr_match : Z }.

(** prev_rec and curr_rec of srch_blk_status. *)
Record srch_status := mk_status { prev_rec : srch_rec_status; curr_rec : srch_rec_status }.

Definition status_of (pPrevRec nMatchCnt pRecBase nTargLen : Z) : srch_status :=
  mk_status (mk_rec_status (u16 pPrevRec) (u16 nMatchCnt)) (mk_rec_status (u16 pRecBase) (u16 nTargLen)).

Definition blk_top (blk_size : Z) (m : list Z) : res Z := b ← bsiz m; Ok (Z.min b blk_size).

(** * The key before the target *)

(** [prevKeyUnCmp] points into the block, or, at the start of a tail search,
    into the previous key. *)
Inductive ksrc := InBlk (off : Z) | InPrev (off : Z).

Record prevkey := mk_prevkey {
  prevKeyCmpLen : Z; prevKeyUnCmp : option ksrc; first_iteration : bool; altkey : gv_key
}.

(** memcpy into the key. *)
Definition key_copy (k : gv_key) (i : Z) (l : list Z) : res gv_key :=
  base ← res_of (wr_list (k_base k) i l); Ok (mk_gv_key (k_top k) (k_end k) (k_prev k) base).

Definition src_of (m prevKey : list Z) (s : ksrc) : list Z * Z :=
  match s with InBlk off => (m, off) | InPrev off => (prevKey, off) end.

(** [tail]: the expansion with GVCST_SEARCH_TAIL, where the first iteration may
    copy from [prevKey]. *)
Definition expand_visit (tail : bool) (m prevKey : list Z) (pRecBase nTmp : Z) (s : prevkey) : res prevkey :=
  alt ← (if prevKeyCmpLen s <? nTmp then
      match prevKeyUnCmp s with
      | None => Err (CDB_SC cdb_sc_blkmod)
      | Some src =>
          if (k_top (altkey s) <=? nTmp) || (tail && first_iteration s && (prevKeyCmpLen s + 1 <? nTmp)) then Err (CDB_SC cdb_sc_blkmod)
          else
            let '(buf, off) := src_of m prevKey src in
            l ← rd_list buf off (nTmp - prevKeyCmpLen s);
            key_copy (altkey s) (prevKeyCmpLen s) l
      end
    else Ok (altkey s));
  Ok (mk_prevkey nTmp (Some (InBlk (pRecBase + SIZEOF_rec_hdr))) false alt).

(** Past the two delimiters that end a key. *)
Fixpoint scan_key (fuel : nat) (buf : list Z) (p top : Z) : res Z :=
  match fuel with
  | O => Err OUT_OF_FUEL
  | S fuel' =>
      if top <=? p then Err (CDB_SC cdb_sc_blkmod)
      else
        a ← rd8 buf p; b ← rd8 buf (p + 1);
        if (a =? KEY_DELIMITER) && (b =? KEY_DELIMITER) then Ok (p + 2)
        else scan_key fuel' buf (p + 1) top
  end.

(** After the loop: the rest of the key; [top_blk] and [top_prev] are pTop for
    the two sources. *)
Definition expand_finish (m prevKey : list Z) (top_blk top_prev : Z) (s : prevkey) : res gv_key :=
  match prevKeyUnCmp s with
  | None => Ok (mk_gv_key (k_top (altkey s)) 0 (k_prev (altkey s)) (k_base (altkey s)))
  | Some src =>
      let '(buf, off) := src_of m prevKey src in
      let top := match src with InBlk _ => top_blk | InPrev _ => top_prev end in
      p ← scan_key (S (length buf)) buf off (top - 1);
      let n := p - off in
      if k_top (altkey s) <? prevKeyCmpLen s + n then Err (CDB_SC cdb_sc_blkmod)
      else
        l ← rd_list buf off n;
        alt ← key_copy (altkey s) (prevKeyCmpLen s) l;
        Ok (mk_gv_key (k_top alt) (prevKeyCmpLen s + n - 1) (k_prev alt) (k_base alt))
  end.

(** * gvcst_expand_key *)

Section expand.
Context (blk_size : Z).

(** The loop over the records up to that at [rtop]. *)
Fixpoint expand_loop (fuel : nat) (m : list Z) (rp r_offset rtop : Z) (s : prevkey) : res prevkey :=
  match fuel with
  | O => Err OUT_OF_FUEL
  | S fuel' =>
      if r_offset <? SIZEOF_rec_hdr then Err (CDB_SC cdb_sc_r2small)
      else
        let rp := rp + r_offset in
        if rtop <? rp then Err (CDB_SC cdb_sc_rmisalign)
        else
          nTmp ← EVAL_CMPC m rp;
          s ← expand_visit false m [] rp nTmp s;
          if rp =? rtop then Ok s
          else r_offset ← rsiz m rp; expand_loop fuel' m rp r_offset rtop s
  end.

(** The end of an expanded key: two delimiters, and no null byte before them or
    at the start. *)
Definition expand_close (end_ : Z) (key : gv_key) : res gv_key :=
  first ← rd8 (k_base key) 0;
  if first =? KEY_DELIMITER then Err (CDB_SC cdb_sc_mkblk)
  else
    key ← key_copy key (end_ - 1) [KEY_DELIMITER; KEY_DELIMITER];
    b ← rd8 (k_base key) (end_ - 2);
    if b =? KEY_DELIMITER then Err (CDB_SC cdb_sc_mkblk)
    else Ok (mk_gv_key (k_top key) end_ (k_prev key) (k_base key)).

Definition gvcst_expand_key (m : list Z) (rec_top : Z) (key : gv_key) : res gv_key :=
  pTop ← blk_top blk_size m;
  s ← expand_loop (S (length m)) m 0 SIZEOF_blk_hdr rec_top (mk_prevkey 0 None false key);
  key ← expand_finish m [] pTop 0 s;
  expand_close (k_end key) key.

(** * gvcst_expand_curr_key and gvcst_expand_prev_key *)

(** Bytes of the record up to the two delimiters, copied to the key from [dst] on. *)
Fixpoint copy_key (fuel : nat) (m : list Z) (key : gv_key) (dst src dstTop : Z) : res (gv_key * Z) :=
  match fuel with
  | O => Err OUT_OF_FUEL
  | S fuel' =>
      if dstTop <=? dst then Err (CDB_SC cdb_sc_keyoflow)
      else
        ch ← rd8 m src;
        key ← key_copy key dst [ch];
        next ← (if ch =? KEY_DELIMITER then rd8 m (src + 1) else Ok ch);
        if (ch =? KEY_DELIMITER) && (next =? KEY_DELIMITER) then
          key ← key_copy key (dst + 1) [next]; Ok (key, dst + 1)
        else copy_key fuel' m key (dst + 1) (src + 1) dstTop
  end.

(** [prev]: the expansion with GVCST_EXPAND_PREV_KEY. *)
Definition expand_gen (prev : bool) (m : list Z) (pStat : srch_status) (srch_key exp_key : gv_key) : res gv_key :=
  let rs := if prev then prev_rec pStat else curr_rec pStat in
  let offset := sr_offset rs in
  let match_ := sr_match rs in
  if prev && (offset <? SIZEOF_blk_hdr) then Err (CDB_SC cdb_sc_badoffset)
  else
    tmpCmpc ← EVAL_CMPC m offset;
    if match_ <? tmpCmpc then
      if prev then gvcst_expand_key m offset exp_key else Err (CDB_SC cdb_sc_blkmod)
    else
      let fullmatch := negb prev && (match_ =? k_end srch_key + 1) in
      match_ ← (if fullmatch then Ok match_
        else if tmpCmpc <? match_ then
          b ← rd8 (k_base srch_key) (match_ - 1); Ok (if b =? KEY_DELIMITER then match_ - 1 else match_)
        else Ok match_);
      if k_top exp_key <=? match_ then Err (CDB_SC cdb_sc_keyoflow)
      else
        l ← rd_list (k_base srch_key) 0 match_;
        key ← key_copy exp_key 0 l;
        '(key, end_) ← (if fullmatch then Ok (key, match_ - 1)
          else copy_key (length m) m key match_ (offset + SIZEOF_rec_hdr + (match_ - tmpCmpc)) (k_top exp_key - 1));
        expand_close end_ key.

Definition gvcst_expand_curr_key : list Z -> srch_status -> gv_key -> gv_key -> res gv_key := expand_gen false.
Definition gvcst_expand_prev_key : list Z -> srch_status -> gv_key -> gv_key -> res gv_key := expand_gen true.
End expand.

(** * Specification *)

(** A buffer of a key holds the key [t]. *)
Definition key_holds (k : gv_key) (t : list Z) : Prop :=
  k_end k + 1 = zlen t /\ (exists slack, k_base k = t ++ slack) /\ gkey_ok t /\ (length t <= 1023)%nat.

(** The records up to the last one have been read, and the state knows its key
    [k]: the shared part is in the buffer, the rest at [prevKeyUnCmp]. *)
Definition knows_key (m prevKey : list Z) (k : list Z) (s : prevkey) : Prop :=
  exists c src, prevKeyCmpLen s = Z.of_nat c /\ prevKeyUnCmp s = Some src /\ (c + 2 <= length k)%nat /\
    (exists slack, k_base (altkey s) = take c k ++ slack) /\
    let '(buf, off) := src_of m prevKey src in
    0 <= off /\ off + zlen k - Z.of_nat c <= zlen buf /\
    take (length k - c) (drop (Z.to_nat off) buf) = drop c k.

(** Room for keys of [n] bytes. *)
Definition key_room (k : gv_key) (n : Z) : Prop := n <= k_top k <= zlen (k_base k).

(** * Lemmas *)

Lemma rd8_target t slack i x : t !! i = Some x -> rd8 (t ++ slack) (Z.of_nat i) = Ok x.
Proof. intros H. unfold rd8. rewrite rd_nat. by rewrite lookup_app_l by (by eapply lookup_lt_Some); rewrite H. Qed.

Lemma gkey_at k t i : gkey_ok k -> gkey_ok t -> (i <= lcp k t)%nat -> (i < length t)%nat -> exists x, k !! i = Some x.
Proof.
  intros Hk Ht Hi Hl. pose proof (lcp_le_l k t). apply lookup_lt_is_Some.
  destruct (decide (i = length k)) as [->|]; [|lia]. rewrite (gkey_prefix k t) in Hl by (done || lia). lia.
Qed.



Lemma rd_list_0 m n l : (n <= length m)%nat -> take n m = l -> rd_list m 0 (Z.of_nat n) = Ok l.
Proof. intros Hn E. change 0 with (Z.of_nat 0). apply rd_list_spec; [done|unfold zlen; lia|done]. Qed.

Lemma key_copy_spec k p slack i l : k_base k = p ++ slack -> (i <= length p)%nat -> Z.of_nat i + zlen l <= zlen (k_base k) ->
  exists slack', key_copy k (Z.of_nat i) l = Ok (mk_gv_key (k_top k) (k_end k) (k_prev k) (take i p ++ l ++ slack')) /\
    zlen (take i p ++ l ++ slack') = zlen (k_base k).
Proof.
  intros E Hi Hl. exists (drop (Z.to_nat (Z.of_nat i + zlen l)) (k_base k)). unfold key_copy.
  rewrite wr_list_spec by lia. cbn [res_of mbind res_bind]. rewrite Nat2Z.id.
  assert (Et : take i (k_base k) = take i p) by (rewrite E; by apply take_app_le). rewrite Et. split; [done|].
  rewrite !zlen_app. unfold zlen in *. rewrite length_take, length_drop, E, length_app in *. lia.
Qed.

(** Reading one record more. *)
Lemma visit_spec tail m prevKey pos pk r rest s :
  recs_at m pos pk (r :: rest) -> (lcp pk (g_key r) + 2 <= length (g_key r))%nat ->
  (pk = [] /\ prevKeyCmpLen s = 0) \/
  (knows_key m prevKey pk s /\ (tail && first_iteration s = true -> Z.of_nat (lcp pk (g_key r)) <= prevKeyCmpLen s + 1)) ->
  key_room (altkey s) (zlen (g_key r)) ->
  exists s', expand_visit tail m prevKey pos (Z.of_nat (lcp pk (g_key r))) s = Ok s' /\ knows_key m prevKey (g_key r) s' /\
    first_iteration s' = false /\ k_top (altkey s') = k_top (altkey s) /\ k_prev (altkey s') = k_prev (altkey s) /\
    zlen (k_base (altkey s')) = zlen (k_base (altkey s)).
Proof.
  intros Ha Hc Hs [Hr1 Hr2]. destruct (recs_at_suffix m pos pk r rest Ha) as (Hp & Hm & Et). pose proof (lcp_le_l pk (g_key r)) as Hl.
  assert (exists alt slack, (if prevKeyCmpLen s <? Z.of_nat (lcp pk (g_key r)) then
      match prevKeyUnCmp s with
      | None => Err (CDB_SC cdb_sc_blkmod)
      | Some src =>
          if (k_top (altkey s) <=? Z.of_nat (lcp pk (g_key r))) ||
             (tail && first_iteration s && (prevKeyCmpLen s + 1 <? Z.of_nat (lcp pk (g_key r)))) then Err (CDB_SC cdb_sc_blkmod)
          else
            let '(buf, off) := src_of m prevKey src in
            l ← rd_list buf off (Z.of_nat (lcp pk (g_key r)) - prevKeyCmpLen s);
            key_copy (altkey s) (prevKeyCmpLen s) l
      end
    else Ok (altkey s)) = Ok alt /\ k_base alt = take (lcp pk (g_key r)) (g_key r) ++ slack /\
    k_top alt = k_top (altkey s) /\ k_prev alt = k_prev (altkey s) /\ zlen (k_base alt) = zlen (k_base (altkey s))) as (alt & slack & E & Eb & Ht & Hv & Hz).
  { rewrite <- (lcp_take pk (g_key r)) by lia. destruct Hs as [[-> E0]|[(c & src & Ec & -> & Hcl & (sl & Eb) & Hsrc) Hfst]].
    - rewrite E0. simpl. eexists _, _. split; [done|]. by split.
    - rewrite Ec in *. zcase.
      + assert ((k_top (altkey s) <=? Z.of_nat (lcp pk (g_key r))) ||
             (tail && first_iteration s && (Z.of_nat c + 1 <? Z.of_nat (lcp pk (g_key r)))) = false) as ->.
        { apply orb_false_intro; [unfold zlen in Hr1; apply Z.leb_gt; lia|].
          destruct (tail && first_iteration s); [|done]. simpl. apply Z.ltb_ge. by apply Hfst. }
        destruct (src_of m prevKey src) as [buf off]. destruct Hsrc as (Ho & Hle & Etk).
        rewrite <- Nat2Z.inj_sub by lia. rewrite (rd_list_spec buf off _ (take (lcp pk (g_key r) - c) (drop c pk))).
        2: lia. 2: unfold zlen in *; lia. 2: { rewrite <- Etk, take_take. f_equal. lia. }
        cbn [mbind res_bind].
        destruct (key_copy_spec (altkey s) (take c pk) sl c (take (lcp pk (g_key r) - c) (drop c pk)) Eb) as (sl' & -> & Hz').
        { rewrite length_take. lia. } { unfold zlen in *. rewrite length_take, length_drop. lia. }
        eexists _, sl'. split; [done|]. split; [|done]. cbn [k_base]. rewrite take_take, Nat.min_id, app_assoc. f_equal.
        rewrite <- (take_drop c (take (lcp pk (g_key r)) pk)). rewrite take_take, Nat.min_l by lia. f_equal.
        by rewrite skipn_firstn_comm.
      + eexists _, (drop (lcp pk (g_key r)) (take c pk) ++ sl). split; [done|]. split; [|done].
        rewrite Eb, app_assoc. f_equal. rewrite <- (take_drop (lcp pk (g_key r)) (take c pk)) at 1. f_equal.
        rewrite take_take. f_equal. lia. }
  eexists (mk_prevkey _ _ _ alt). split; [unfold expand_visit; rewrite E; cbn [mbind res_bind]; reflexivity|].
  split; [|done]. exists (lcp pk (g_key r)), (InBlk (pos + SIZEOF_rec_hdr)). split; [done|]. split; [done|]. split; [done|].
  split; [by exists slack|]. cbn [src_of]. unfold SIZEOF_rec_hdr in *. split; [lia|]. by split.
Qed.

(** ** The end of a key *)

(** From [off] on, the buffer has the bytes of [k] from [c] on. *)
Definition reads (buf : list Z) (off : Z) (c : nat) (k : list Z) : Prop :=
  forall j x, (c <= j)%nat -> k !! j = Some x -> rd buf (off + (Z.of_nat j - Z.of_nat c)) = Some x.

Lemma reads_next buf off c k : reads buf off c k -> reads buf (off + 1) (S c) k.
Proof. intros H j x Hj Hx. rewrite <- (H j x) by (done || lia). f_equal. lia. Qed.

Lemma reads_take buf off c k : 0 <= off -> take (length k - c) (drop (Z.to_nat off) buf) = drop c k -> reads buf off c k.
Proof.
  intros Ho E j x Hj Hx. unfold rd. zif_false. pose proof (lookup_lt_Some _ _ _ Hx).
  rewrite <- Hx. replace j with (c + (j - c))%nat at 2 by lia. rewrite <- lookup_drop, <- E, lookup_take_lt, lookup_drop by lia.
  f_equal. lia.
Qed.

Lemma rd8_reads buf off c k x : reads buf off c k -> k !! c = Some x -> rd8 buf off = Ok x.
Proof. intros H Hx. unfold rd8. specialize (H c x ltac:(lia) Hx). rewrite Z.sub_diag, Z.add_0_r in H. by rewrite H. Qed.

(** The bytes at [c] and after it are both null only at the end. *)
Lemma gkey_end k c x y : gkey_ok k -> k !! c = Some x -> k !! S c = Some y ->
  (x = 0 /\ y = 0 <-> (c + 2)%nat = length k).
Proof.
  intros (_ & n & Hn & _ & _ & E0 & E1 & Hi) Hx Hy. split.
  - intros [-> ->]. destruct (decide (c < n)%nat) as [Hl|]; [by destruct (Hi c Hl)|].
    apply lookup_lt_Some in Hy. lia.
  - intros Hc. assert (c = n) as -> by lia. by simplify_eq.
Qed.

Lemma scan_key_spec fuel buf k c off top :
  gkey_ok k -> reads buf off c k -> (c + 2 <= length k)%nat -> off + zlen k - Z.of_nat c <= top + 1 ->
  (length k - c <= fuel + 1)%nat -> scan_key fuel buf off top = Ok (off + zlen k - Z.of_nat c).
Proof.
  intros Hk. revert c off. induction fuel as [|fuel IH]; intros c off Hr Hc Ht Hf; [lia|]. cbn [scan_key].
  unfold zlen in *. zif_false. destruct (lookup_lt_is_Some_2 k c) as [x Hx]; [lia|].
  destruct (lookup_lt_is_Some_2 k (S c)) as [y Hy]; [lia|].
  rewrite (rd8_reads buf off c k x Hr Hx), (rd8_reads buf (off + 1) (S c) k y (reads_next _ _ _ _ Hr) Hy). cbn [mbind res_bind].
  pose proof (gkey_end k c x y Hk Hx Hy) as He. unfold KEY_DELIMITER. destruct (Z.eqb_spec x 0), (Z.eqb_spec y 0); cbn [andb].
  1: f_equal; lia.
  all: rewrite (IH (S c) (off + 1)); [f_equal; lia|by apply reads_next|lia..].
Qed.

(** A buffer of a key holds [k], with a length and a room that stay those of [K0]. *)
Definition key_is (K0 K : gv_key) (k : list Z) : Prop :=
  k_end K + 1 = zlen k /\ (exists slack, k_base K = k ++ slack) /\ k_top K = k_top K0 /\ k_prev K = k_prev K0 /\
  zlen (k_base K) = zlen (k_base K0).

Lemma expand_finish_spec m prevKey k top_blk top_prev s :
  gkey_ok k -> knows_key m prevKey k s -> key_room (altkey s) (zlen k) ->
  match prevKeyUnCmp s with
  | Some (InBlk off) => off + zlen k - prevKeyCmpLen s <= top_blk
  | Some (InPrev off) => off + zlen k - prevKeyCmpLen s <= top_prev
  | None => True
  end ->
  exists K, expand_finish m prevKey top_blk top_prev s = Ok K /\ key_is (altkey s) K k.
Proof.
  intros Hk (c & src & Ec & Eu & Hc & (sl & Eb) & Hsrc) [Hr1 Hr2] Htop. unfold expand_finish. rewrite Eu, Ec in *.
  set (top := match src with InBlk _ => top_blk | InPrev _ => top_prev end).
  assert (Ht : let '(_, off) := src_of m prevKey src in off + zlen k - Z.of_nat c <= top) by (by destruct src).
  destruct (src_of m prevKey src) as [buf off]. destruct Hsrc as (Ho & Hle & Etk).
  rewrite (scan_key_spec _ buf k c off (top - 1)); [|done|by apply reads_take|done|lia|unfold zlen in *; lia].
  cbn [mbind res_bind]. replace (off + zlen k - Z.of_nat c - off) with (zlen k - Z.of_nat c) by lia. zif_false.
  assert (En : zlen k - Z.of_nat c = Z.of_nat (length k - c)) by (unfold zlen; lia).
  rewrite En. rewrite (rd_list_spec buf off _ (drop c k)) by (done || (unfold zlen in *; lia)). cbn [mbind res_bind].
  destruct (key_copy_spec (altkey s) (take c k) sl c (drop c k) Eb) as (sl' & E & Hz).
  { rewrite length_take. lia. } { unfold zlen in *. rewrite length_drop. lia. }
  rewrite E. cbn [mbind res_bind k_top k_prev k_base]. eexists. split; [done|]. unfold key_is. cbn [k_end k_base k_top k_prev]. split; [unfold zlen in *; lia|].
  split; [|by rewrite Hz]. exists sl'. by rewrite take_take, Nat.min_id, app_assoc, take_drop.
Qed.

Lemma key_room_le k n m : key_room k m -> n <= m -> key_room k n.
Proof. unfold key_room. lia. Qed.

Lemma expand_close_spec K0 K k slack : gkey_ok k -> k_base K = k ++ slack -> k_top K = k_top K0 -> k_prev K = k_prev K0 ->
  zlen (k_base K) = zlen (k_base K0) -> exists K', expand_close (zlen k - 1) K = Ok K' /\ key_is K0 K' k.
Proof.
  intros Hk Eb Ht Hp Hz. pose proof Hk as (_ & n & Hn & Hn0 & Hnz & E0 & E1 & Hi). unfold expand_close, rd8.
  destruct (lookup_lt_is_Some_2 k 0) as [x Hx]; [lia|]. rewrite Eb. change 0 with (Z.of_nat 0) at 1.
  rewrite rd_nat, lookup_app_l, Hx by lia. cbn [res_of mbind res_bind]. unfold KEY_DELIMITER.
  destruct (Z.eqb_spec x 0) as [->|]; [done|].
  replace (zlen k - 1 - 1) with (Z.of_nat n) by (unfold zlen; lia).
  destruct (key_copy_spec K k slack n [0; 0] Eb) as (sl' & E & Hz'); [lia|rewrite Eb, zlen_app; pose proof (zlen_nonneg slack); unfold zlen in *; simpl; lia|].
  rewrite E. cbn [mbind res_bind k_base k_top k_prev].
  assert (Ek : take n k ++ [0; 0] = k).
  { rewrite <- (take_drop n k) at 2. f_equal. rewrite (drop_S _ 0) by done. rewrite (drop_S _ 0) by done. by rewrite drop_ge by lia. }
  rewrite app_assoc, Ek. destruct (lookup_lt_is_Some_2 k (n - 1)) as [y Hy]; [lia|].
  replace (zlen k - 1 - 2) with (Z.of_nat (n - 1)) by (unfold zlen; lia). rewrite rd_nat, lookup_app_l, Hy by lia. cbn [res_of mbind res_bind].
  destruct (Z.eqb_spec y 0) as [->|].
  { exfalso. apply (Hi (n - 1)%nat); [lia|]. by replace (S (n - 1)) with n by lia. }
  eexists. split; [done|]. unfold key_is. cbn [k_end k_base k_top k_prev]. split; [lia|]. split; [by exists sl'|].
  split; [done|]. split; [done|]. rewrite app_assoc, Ek in Hz'. by rewrite Hz'.
Qed.

(** ** gvcst_expand_key *)

Section key.
Context (m : list Z) (recs rest l : list grec) (r : grec).
Hypothesis Hrecs : recs = l ++ r :: rest.
Hypothesis Hat : recs_at m SIZEOF_blk_hdr [] recs.
Hypothesis Hok : Forall rec_ok (l ++ [r]).
Hypothesis Hsorted : keys_sorted (l ++ [r]).

Lemma sorted_step l1 x l2 : l ++ [r] = l1 ++ x :: l2 ->
  gkey_ok (g_key x) /\ (length (g_key x) <= 1023)%nat /\ gvlt (last_key [] l1) (g_key x) /\
  (lcp (last_key [] l1) (g_key x) + 2 <= length (g_key x))%nat.
Proof.
  intros E. rewrite E in Hok, Hsorted. apply Forall_app in Hok as [Hl [[Hx Hle] _]%Forall_cons].
  assert (Hlt : gvlt (last_key [] l1) (g_key x)) by (by apply (sorted_next l1 x l2)).
  split; [done|]. split; [done|]. split; [done|]. destruct (decide (l1 = [])) as [->|Hn].
  - apply lcp_room; [constructor|done|done|by left].
  - destruct (last_key_ok l1 Hl Hn) as [Hk _]. apply lcp_room; [apply Hk|done|done|by right].
Qed.

Lemma at_split' l1 l2 : l ++ [r] = l1 ++ l2 -> recs_at m (pos_after l1) (last_key [] l1) l2.
Proof.
  intros E. apply (recs_at_app m SIZEOF_blk_hdr [] l1 l2). rewrite <- E. apply (recs_at_prefix _ _ _ _ rest).
  by rewrite <- app_assoc; cbn [app]; rewrite <- Hrecs.
Qed.

Lemma expand_loop_spec l1 l2 fuel rp r_offset s :
  l = l1 ++ l2 -> rp + r_offset = pos_after l1 -> SIZEOF_rec_hdr <= r_offset -> (length l2 < fuel)%nat ->
  (l1 = [] /\ prevKeyCmpLen s = 0) \/ knows_key m [] (last_key [] l1) s -> key_room (altkey s) 1023 ->
  exists s', expand_loop fuel m rp r_offset (pos_after l) s = Ok s' /\ knows_key m [] (g_key r) s' /\
    prevKeyUnCmp s' = Some (InBlk (pos_after l + SIZEOF_rec_hdr)) /\ prevKeyCmpLen s' = Z.of_nat (lcp (last_key [] l) (g_key r)) /\
    k_top (altkey s') = k_top (altkey s) /\ k_prev (altkey s') = k_prev (altkey s) /\
    zlen (k_base (altkey s')) = zlen (k_base (altkey s)).
Proof.
  revert l1 fuel rp r_offset s. induction l2 as [|x l2 IH]; intros l1 fuel rp r_offset s El Ep Ho Hf Hs Hroom;
    (destruct fuel as [|fuel]; [simpl in Hf; lia|]); cbn [expand_loop]; rewrite Ep; zif_false.
  - rewrite app_nil_r in El. subst l1. zif_false.
    destruct (sorted_step l r []) as (Hk & Hle & _ & Hc); [done|]. pose proof (at_split' l [r] eq_refl) as Ha.
    destruct (recs_at_hdr _ _ _ _ _ Ha) as [_ ->]. cbn [mbind res_bind].
    destruct (visit_spec false m [] (pos_after l) (last_key [] l) r [] s Ha Hc) as (s' & E & Hkn & _ & Ht & Hp & Hz).
    { destruct Hs as [[-> ?]|?]; [by left|right; done]. } { eapply key_room_le; [done|unfold zlen; lia]. }
    rewrite E. cbn [mbind res_bind]. rewrite Z.eqb_refl. exists s'. split; [done|]. split; [done|].
    unfold expand_visit in E. apply res_bind_inv in E as (alt & _ & [= <-]). done.
  - assert (Er : l ++ [r] = l1 ++ x :: (l2 ++ [r])) by (by rewrite El, <- app_assoc).
    destruct (sorted_step l1 x (l2 ++ [r]) Er) as (Hk & Hle & _ & Hc). pose proof (at_split' l1 _ Er) as Ha.
    assert (Hpos : pos_after l1 + rec_size (last_key [] l1) x <= pos_after l).
    { rewrite El. unfold pos_after. rewrite recs_size_app. cbn [recs_size]. pose proof (recs_size_nonneg (g_key x) l2). lia. }
    pose proof (rec_size_pos (last_key [] l1) x) as Hz4. unfold SIZEOF_rec_hdr in Hz4. zif_false.
    destruct (recs_at_hdr _ _ _ _ _ Ha) as [Ers ->]. cbn [mbind res_bind].
    destruct (visit_spec false m [] (pos_after l1) (last_key [] l1) x (l2 ++ [r]) s Ha Hc) as (s' & E & Hkn & _ & Ht & Hp & Hz).
    { destruct Hs as [[-> ?]|?]; [by left|right; done]. } { eapply key_room_le; [done|unfold zlen; lia]. }
    rewrite E. cbn [mbind res_bind]. zif_false. rewrite Ers. cbn [mbind res_bind].
    destruct (IH (l1 ++ [x]) fuel (pos_after l1) (rec_size (last_key [] l1) x) s') as (s'' & E' & Hkn' & Hu & Hcl & Ht' & Hp' & Hz').
    { by rewrite El, <- app_assoc. } { by rewrite pos_after_snoc. } { done. } { simpl in Hf. lia. }
    { right. by rewrite last_key_snoc. } { unfold key_room in *. by rewrite Ht, Hz. }
    exists s''. split; [done|]. split; [done|]. split; [done|]. split; [done|]. by rewrite Ht', Hp', Hz', Ht, Hp, Hz.
Qed.
End key.
