(* ===== verification/Gvexample.v ===== *)
(** A small global, for the instances of the theorems: the nodes ^a(1), ^a(1,2), ^a(2)
    and ^a(3) in two data blocks below one index block. *)

From stdpp Require Import base list numbers option tactics sorting.
From Stdlib Require Import ZArith Lia.
From S2P Require Import Prelude Subscript Gvsub Gvkey Gdsblk Blkexpand.

Open Scope Z_scope.

Definition ex_recs1 : list grec := [mk_grec [97; 0; 191; 17; 0; 0] [120]; mk_grec [97; 0; 191; 17; 0; 191; 33; 0; 0] []].
Definition ex_recs2 : list grec := [mk_grec [97; 0; 191; 33; 0; 0] [121; 122]; mk_grec [97; 0; 191; 49; 0; 0] [119]].
Definition ex_index : list grec := [mk_grec [97; 0; 191; 17; 0; 191; 33; 0; 0] [3; 0; 0; 0]; mk_grec [] [4; 0; 0; 0]].

Definition ex_qread (b : Z) : option (list Z) :=
  if b =? 2 then Some (encode_blk 1 ex_index ++ replicate 1023 0)
  else if b =? 3 then Some (encode_blk 0 ex_recs1)
  else if b =? 4 then Some (encode_blk 0 ex_recs2) else None.

Definition ex_key (t : list Z) (prev : Z) : gv_key := mk_gv_key 1024 (zlen t - 1) prev (t ++ replicate 1024 0).

Lemma ex_blk level rs slack : 0 <= level -> (if level =? 0 then leaf_okb rs else index_okb rs) = true ->
  forallb (fun r => (length (g_key r) <=? 1020)%nat) rs = true -> (SIZEOF_blk_hdr + zlen (encode [] rs) <=? 4096) = true ->
  blk_ok 4096 level (encode_blk level rs ++ slack) rs.
Proof.
  intros H0 H1 H2 H3. apply encode_blk_ok; [done|done| |unfold MAX_DB_BLK_SIZE; lia].
  apply Forall_forall. intros r Hr. rewrite forallb_forall in H2. apply Nat.leb_le, H2. by apply list_elem_of_In.
Qed.

Lemma ex_room t prev : key_room (ex_key t prev) 1024.
Proof. unfold key_room, ex_key. cbn [k_top k_base]. rewrite zlen_app. unfold zlen. rewrite length_replicate. lia. Qed.

Lemma ex_holds t prev : gkey_okb t = true -> (length t <=? 1023)%nat = true -> key_holds (ex_key t prev) t.
Proof. intros H1 H2. split; [unfold ex_key; cbn; lia|]. split; [by eexists|]. split; [by apply gkey_okb_ok|by apply Nat.leb_le]. Qed.

Lemma ex_first t : match t with x :: _ => x <? 255 | [] => true end = true -> forall x, t !! 0%nat = Some x -> x < 255.
Proof. destruct t as [|y t]; [done|]. intros H%Z.ltb_lt x [= <-]. done. Qed.
