(* ===== verification/Blksearch.v ===== *)
(** The search of a key in a block: the four functions that gvcst_blk_search.c
    expands from gvcst_blk_search.h.  gvcst_search_blk walks the records of a
    block from its start, gvcst_search_tail goes on from where the search of a
    smaller key ended, and the variants with _expand_prevkey also rebuild the
    key before the target.

    A pointer into a block is its offset.  The four functions share one loop,
    as in the source; [visit] is what the expansion with
    GVCST_SEARCH_EXPAND_PREVKEY adds at the top of each iteration. *)

From stdpp Require Import base list numbers option tactics sorting.
From Stdlib Require Import ZArith Lia.
From S2P Require Import Prelude Subscript Gvkey Gdsblk Blkexpand.

Open Scope Z_scope.

(** * The loop *)

(** [do { if ((nFlg = *pCurrTarg - *pRec++) != 0) break; pCurrTarg++; } while
    (--nTargLen);] *)
Fixpoint cmp_targ (fuel : nat) (m key : list Z) (pRec pCurrTarg nTargLen : Z) : res (Z * Z * Z) :=
  match fuel with
  | O => Err OUT_OF_FUEL
  | S fuel' =>
      t ← rd8 key pCurrTarg; b ← rd8 m pRec;
      let nFlg := t - b in
      if negb (nFlg =? 0) then Ok (nFlg, pCurrTarg, nTargLen)
      else
        let nTargLen := nTargLen - 1 in
        if nTargLen =? 0 then Ok (nFlg, pCurrTarg + 1, nTargLen)
        else cmp_targ fuel' m key (pRec + 1) (pCurrTarg + 1) nTargLen
  end.

Section loop.
Context {A : Type} (visit : Z -> Z -> A -> res A).
Context (m key : list Z) (level0 : bool) (pTop : Z).

(** One iteration per unit of fuel; [entry] starts at the label alt_loop_entry,
    with the record at [pRecBase] of length [nRecLen]. *)
Fixpoint search_loop (fuel : nat) (entry : bool) (acc : A)
    (pPrevRec pRecBase nRecLen nTmp nMatchCnt pCurrTarg nTargLen : Z) : res (A * srch_status) :=
  match fuel with
  | O => Err OUT_OF_FUEL
  | S fuel' =>
      let star n := (BSTAR_REC_SIZE =? n) && negb level0 in
      let alt_loop_entry acc pPrevRec pRecBase nRecLen nTmp :=
        '(nFlg, pCurrTarg, nTargLen) ← cmp_targ (length key) m key (pRecBase + SIZEOF_rec_hdr) pCurrTarg nTargLen;
        if 0 <? nFlg then search_loop fuel' false acc pPrevRec pRecBase nRecLen nTmp pCurrTarg pCurrTarg nTargLen
        else Ok (acc, status_of pPrevRec nMatchCnt pRecBase (if star nRecLen then 0 else pCurrTarg)) in
      if entry then alt_loop_entry acc pPrevRec pRecBase nRecLen nTmp
      else
        let pRec := pRecBase + nRecLen in
        acc ← (if negb (pRecBase =? 0) then visit pRecBase nTmp acc else Ok acc);
        if pTop <=? pRec then
          if pTop <? pRec then Err (CDB_SC cdb_sc_blklenerr)
          else if negb level0 then
            if pRecBase =? 0 then Err (CDB_SC cdb_sc_blkmod)
            else Ok (acc, status_of pPrevRec 0 pRecBase 0)
          else Ok (acc, status_of pRecBase nMatchCnt pRec 0)
        else
          nRecLen ← rsiz m pRec;
          if nRecLen =? 0 then Err (CDB_SC cdb_sc_badoffset)
          else
            let pPrevRec := pRecBase in
            let pRecBase := pRec in
            nTmp ← EVAL_CMPC m pRec;
            if nMatchCnt <? nTmp then
              search_loop fuel' false acc pPrevRec pRecBase nRecLen nTmp nMatchCnt pCurrTarg nTargLen
            else if nTmp <? nMatchCnt then
              Ok (acc, status_of pPrevRec nMatchCnt pRecBase (if star nRecLen then 0 else nTmp))
            else alt_loop_entry acc pPrevRec pRecBase nRecLen nTmp
  end.

(** From the first record of the block, and fuel for as many records as bytes. *)
Definition search_from_start (end_ : Z) (acc : A) : res (A * srch_status) :=
  search_loop (S (length m)) false acc 0 0 SIZEOF_blk_hdr 0 0 0 (end_ + 1).
End loop.

(** * The functions *)

Section search.
Context (blk_size : Z).

Definition gvcst_search_blk_expand_prevkey (m : list Z) (pKey gv_altkey : gv_key) : res (srch_status * gv_key) :=
  pTop ← blk_top blk_size m;
  '(s, st) ← search_from_start (expand_visit false m []) m (k_base pKey) true pTop (k_end pKey)
      (mk_prevkey 0 None false gv_altkey);
  alt ← expand_finish m [] pTop 0 s;
  Ok (st, alt).

(** [expand_prev_key]: TREF(expand_prev_key); gv_altkey is left alone otherwise. *)
Definition gvcst_search_blk (expand_prev_key : bool) (m : list Z) (pKey gv_altkey : gv_key) : res (srch_status * gv_key) :=
  level ← levl m;
  let level0 := level =? 0 in
  if level0 && expand_prev_key then gvcst_search_blk_expand_prevkey m pKey gv_altkey
  else
    pTop ← blk_top blk_size m;
    '(_, st) ← search_from_start (fun _ _ (u : unit) => Ok u) m (k_base pKey) level0 pTop (k_end pKey) tt;
    Ok (st, gv_altkey).

(** [while (--nTargLen)] with a comparison of the target and the old key. *)
Fixpoint common_len (fuel : nat) (key old : list Z) (i j n : Z) : res Z :=
  match fuel with
  | O => Err OUT_OF_FUEL
  | S fuel' =>
      if n =? 0 then Ok 0
      else
        t ← rd8 key i; o ← rd8 old j;
        if negb (t =? o) then Ok n else common_len fuel' key old (i + 1) (j + 1) (n - 1)
  end.

(** The start of a tail search: the first record of the loop, and where to enter it. *)
Record tail_start := mk_tail { t_entry : bool; t_match : Z; t_targ : Z; t_len : Z }.

Definition tail_entry (key old : list Z) (end_ nTmp nMatchCnt : Z) : res tail_start :=
  let nTargLen := end_ + 1 in
  left_ ← common_len (S (length key)) key old 0 0 nTmp;
  let pCurrTarg := nTmp - left_ in
  nFlg ← (if left_ =? 0 then Ok 0 else t ← rd8 key pCurrTarg; o ← rd8 old pCurrTarg; Ok (t - o));
  if nFlg =? 0 then
    let tmp_cmpc := nMatchCnt - pCurrTarg in
    more ← (if 0 <? tmp_cmpc then left_ ← common_len (S (length key)) key old pCurrTarg pCurrTarg tmp_cmpc; Ok (tmp_cmpc - left_) else Ok 0);
    Ok (mk_tail true (pCurrTarg + more) pCurrTarg (nTargLen - pCurrTarg))
  else
    let m := if 0 <? nFlg then pCurrTarg else nMatchCnt in
    Ok (mk_tail false m pCurrTarg (if 0 <? nFlg then nTargLen - m else nTargLen)).

Definition search_tail_gen {A} (visit : Z -> Z -> A -> res A) (m : list Z) (pKey : gv_key) (pStat : srch_status)
    (pOldKey : gv_key) (pTop : Z) (acc : A) : res (A * srch_status * bool) :=
  let pRecBase := sr_offset (curr_rec pStat) in
  let nMatchCnt := sr_match (prev_rec pStat) in
  let pPrevRec := sr_offset (prev_rec pStat) in
  if pTop <=? pRecBase then
    if pTop <? pRecBase then Err (CDB_SC cdb_sc_blklenerr)
    else
      left_ ← common_len (S (length (k_base pKey))) (k_base pKey) (k_base pOldKey) 0 0 nMatchCnt;
      Ok (acc, status_of pPrevRec (nMatchCnt - left_) pRecBase 0, true)
  else
    nRecLen ← rsiz m pRecBase;
    nTmp ← EVAL_CMPC m pRecBase;
    t ← tail_entry (k_base pKey) (k_base pOldKey) (k_end pKey) nTmp nMatchCnt;
    '(acc, st) ← search_loop visit m (k_base pKey) true pTop (S (length m)) (t_entry t) acc
        pPrevRec pRecBase nRecLen nTmp (t_match t) (t_targ t) (t_len t);
    Ok (acc, st, false).
End search.

(** * Specification *)

(** A record before the target: the star record is after every target. *)
Definition before (t : list Z) (r : grec) : Prop := g_key r <> [] /\ gvlt (g_key r) t.

#[global] Instance before_dec t r : Decision (before t r).
Proof. unfold before. apply _. Defined.

(** Where the search for [t] ends, when the records are [l], before it, and [r],
    not before it. *)
Definition status_at (t : list Z) (l r : list grec) : srch_status :=
  mk_status (mk_rec_status (pos_last l) (Z.of_nat (lcp (last_key [] l) t)))
    (mk_rec_status (pos_after l) (match r with x :: _ => Z.of_nat (lcp (g_key x) t) | [] => 0 end)).

Definition split_at (t : list Z) (l r : list grec) : Prop :=
  Forall (before t) l /\ match r with x :: _ => ~ before t x | [] => True end.

(** Records that a search can walk: keys in order, the star record last in an
    index block. *)
Definition walk_ok (level0 : bool) (rs : list grec) : Prop := if level0 then leaf_ok rs else index_ok rs.

(** ** Comparing the target with a record *)

Lemma cmp_targ_spec fuel m key t k i pRec :
  gkey_ok t -> gkey_ok k -> (exists slack, key = t ++ slack) -> (i <= lcp k t)%nat -> (i < length t)%nat ->
  (length t - i <= fuel)%nat ->
  (forall j x, (i <= j)%nat -> k !! j = Some x -> rd m (pRec + (Z.of_nat j - Z.of_nat i)) = Some x) ->
  exists nFlg, cmp_targ fuel m key pRec (Z.of_nat i) (zlen t - Z.of_nat i) =
      Ok (nFlg, Z.of_nat (lcp k t), zlen t - Z.of_nat (lcp k t)) /\ (0 < nFlg <-> gvlt k t).
Proof.
  intros Ht Hk [slack ->]. revert i pRec. induction fuel as [|fuel IH]; intros i pRec Hi Hl Hf Hm; [lia|].
  cbn [cmp_targ]. destruct (lookup_lt_is_Some_2 _ _ Hl) as [x Ex].
  destruct (gkey_at k t i Hk Ht Hi Hl) as [y Ey]. rewrite (rd8_target t slack i x Ex). cbn [mbind res_bind].
  pose proof (Hm i y ltac:(lia) Ey) as Hy. rewrite Z.sub_diag, Z.add_0_r in Hy. unfold rd8 at 1. rewrite Hy. cbn [res_of mbind res_bind].
  destruct (Z.eqb_spec (x - y) 0) as [E|Hne]; cbn [negb].
  - assert (y = x) as -> by lia. assert (Hi' : (S i <= lcp k t)%nat).
    { apply lcp_ge; [|by apply lookup_lt_Some in Ey|by apply lookup_lt_Some in Ex].
      rewrite (take_S_r _ _ _ Ey), (take_S_r _ _ _ Ex). f_equal. apply lcp_take. done. }
    destruct (Z.eqb_spec (zlen t - Z.of_nat i - 1) 0) as [En|Hn].
    + pose proof (lcp_le_r k t). unfold zlen in *. assert (lcp k t = length t) by lia.
      assert (k = t) as ->. { symmetry. apply gkey_prefix; [done|done|]. by rewrite lcp_comm. }
      rewrite lcp_same. exists (x - x). split; [do 2 f_equal; [f_equal|]; lia|].
      split; [lia|]. intros Hk'. by destruct (gvlt_irrefl t).
    + destruct (IH (S i) (pRec + 1) Hi') as (n & E' & Hn'); [unfold zlen in *; lia|lia| |].
      * intros j z Hj Ez. rewrite <- (Hm j z) by (done || lia). f_equal. lia.
      * exists n. split; [|done]. rewrite <- E'. f_equal; lia.
  - assert (El : lcp k t = i).
    { apply (lcp_at _ _ _ y x); [by apply lcp_take|done|done|lia]. }
    exists (x - y). rewrite El. split; [done|]. rewrite gvlt_lcp, El. split.
    + intros. right. exists y, x. split; [done|]. split; [done|lia].
    + intros [[? ?]|(u & v & Eu & Ev & ?)]; [|simplify_eq; lia]. apply lookup_lt_Some in Ey. lia.
Qed.

(** With the bytes of a star record the comparison ends too, and its outcome is
    not used. *)
Lemma cmp_targ_total fuel m key n i pRec :
  0 <= pRec -> pRec + n <= zlen m -> 0 <= i -> i + n <= zlen key -> 0 < n -> n <= Z.of_nat fuel ->
  exists r, cmp_targ fuel m key pRec i n = Ok r.
Proof.
  revert i n pRec. induction fuel as [|fuel IH]; intros i n pRec Hp Hm Hi Hk Hn Hf; [lia|]. cbn [cmp_targ]. unfold rd8.
  destruct (rd_in_range key i) as [x ->]; [lia|]. destruct (rd_in_range m pRec) as [y ->]; [lia|].
  cbn [res_of mbind res_bind]. zcase; [by eexists|]. destruct (Z.eqb_spec (n - 1) 0); [by eexists|]. apply IH; lia.
Qed.

(** ** The walk *)

Lemma last_before t l : t <> [] -> Forall (before t) l -> gvlt (last_key [] l) t.
Proof.
  intros Hn H. destruct l as [|r l _] using rev_ind; [by destruct t|]. rewrite last_key_snoc.
  by apply Forall_app in H as [_ [[_ ?] _]%Forall_cons].
Qed.

(** The next record has a key above the previous one, or is the star record. *)
Lemma walk_next level0 l x rest : walk_ok level0 (l ++ x :: rest) ->
  (rec_ok x /\ Forall rec_ok l /\ gvlt (last_key [] l) (g_key x) /\ (level0 = false -> zlen (g_val x) = SIZEOF_block_id)) \/
  (level0 = false /\ rest = [] /\ is_star x /\ Forall rec_ok l).
Proof.
  destruct level0; cbn [walk_ok].
  - intros [Hr Hs]. pose proof Hr as [Hl [Hx _]%Forall_cons]%Forall_app. left. split; [done|]. split; [done|].
    split; [|done]. apply (sorted_next l x rest); [done|apply Hx|done].
  - intros (ks & star & E & Hst & Hr & Hs & Hv). destruct rest as [|y rest _] using rev_ind.
    + apply app_inj_tail in E as [-> ->]. by right.
    + rewrite app_comm_cons, app_assoc in E. apply app_inj_tail in E as [<- ->]. left.
      pose proof Hr as [Hl [Hx _]%Forall_cons]%Forall_app. split; [done|]. split; [done|].
      split; [apply (sorted_next l x rest); [done|apply Hx|done]|]. intros _. by apply Forall_app in Hv as [_ [? _]%Forall_cons].
Qed.

Lemma not_star level0 l x : gvlt (last_key [] l) (g_key x) -> (level0 = false -> zlen (g_val x) = SIZEOF_block_id) ->
  (BSTAR_REC_SIZE =? rec_size (last_key [] l) x) && negb level0 = false.
Proof.
  intros Hs Hv. destruct level0; [by rewrite andb_false_r|]. rewrite andb_true_r. apply Z.eqb_neq.
  pose proof Hs as [[? ?]|(? & ? & _ & Hy%lookup_lt_Some & _)]%gvlt_lcp;
    unfold rec_size, rec_body, suffix, BSTAR_REC_SIZE; rewrite zlen_app, Hv by done; unfold zlen; rewrite length_drop; lia.
Qed.

Section spec.
Context {A : Type} (visit : Z -> Z -> A -> res A) (Inv : list grec -> A -> Prop).
Context (m key t : list Z) (level0 : bool) (recs : list grec).
Hypothesis Ht : gkey_ok t.
Hypothesis Hlen : (length t <= 1023)%nat.
Hypothesis Hkey : exists slack, key = t ++ slack.
Hypothesis Hat : recs_at m SIZEOF_blk_hdr [] recs.
Hypothesis Htop : pos_after recs <= MAX_DB_BLK_SIZE.
Hypothesis Hwalk : walk_ok level0 recs.
Hypothesis Hroom : level0 = false -> pos_after recs + zlen t <= zlen m.
Hypothesis Hvisit : forall l r rest acc, recs = l ++ r :: rest -> Inv l acc ->
  exists acc', visit (pos_after l) (Z.of_nat (lcp (last_key [] l) (g_key r))) acc = Ok acc' /\ Inv (l ++ [r]) acc'.

Lemma at_split l rest : recs = l ++ rest -> recs_at m (pos_after l) (last_key [] l) rest.
Proof. intros Hr. apply (recs_at_app m SIZEOF_blk_hdr [] l). by rewrite <- Hr. Qed.

(** The state at the top of an iteration, when the records [l] have been read. *)
Definition at_top (l : list grec) (acc : A) (pRecBase nRecLen nTmp : Z) : Prop :=
  pRecBase = pos_last l /\ pRecBase + nRecLen = pos_after l /\
  match l with
  | [] => Inv [] acc
  | _ => exists l0 r, l = l0 ++ [r] /\ nTmp = Z.of_nat (lcp (last_key [] l0) (g_key r)) /\ Inv l0 acc
  end.

Lemma top_visit l rest acc pRecBase nRecLen nTmp : recs = l ++ rest -> at_top l acc pRecBase nRecLen nTmp ->
  exists acc', (if negb (pRecBase =? 0) then visit pRecBase nTmp acc else Ok acc) = Ok acc' /\ Inv l acc'.
Proof.
  intros Hr (-> & _ & Hm). destruct l as [|x l]; [by exists acc|]. destruct Hm as (l0 & r & El & -> & Hi). rewrite El in *. clear x l El.
  rewrite pos_last_snoc. pose proof (pos_after_ge l0). unfold SIZEOF_blk_hdr in *. zif_true.
  apply (Hvisit l0 r rest); [|done]. by rewrite <- app_assoc in Hr.
Qed.

Lemma top_snoc l r acc : Inv l acc ->
  at_top (l ++ [r]) acc (pos_after l) (rec_size (last_key [] l) r) (Z.of_nat (lcp (last_key [] l) (g_key r))).
Proof.
  intros Hi. split; [by rewrite pos_last_snoc|]. split; [by rewrite pos_after_snoc|].
  destruct (l ++ [r]) eqn:E; [by destruct l|]. rewrite <- E. by exists l, r.
Qed.

Lemma match_bound k : 0 <= Z.of_nat (lcp k t) < 65536.
Proof. pose proof (lcp_le_r k t). lia. Qed.

Lemma pos_bound l rest : recs = l ++ rest -> 0 <= pos_after l < 65536.
Proof.
  intros Hr. pose proof (pos_after_ge l). pose proof Htop as Hp. rewrite Hr in Hp. clear Hr.
  unfold pos_after, SIZEOF_blk_hdr, MAX_DB_BLK_SIZE in *. rewrite recs_size_app in Hp. pose proof (recs_size_nonneg (last_key [] l) rest). lia.
Qed.

Lemma last_bound l rest : recs = l ++ rest -> 0 <= pos_last l < 65536.
Proof.
  intros Hr. destruct l as [|r l _] using rev_ind; [by unfold pos_last|]. rewrite pos_last_snoc.
  apply (pos_bound l (r :: rest)). by rewrite Hr, <- app_assoc.
Qed.

Lemma status_ok l r : recs = l ++ r ->
  status_of (pos_last l) (Z.of_nat (lcp (last_key [] l) t)) (pos_after l)
    (match r with x :: _ => Z.of_nat (lcp (g_key x) t) | [] => 0 end) = status_at t l r.
Proof.
  intros Hr. unfold status_of, status_at, u16. pose proof (pos_bound l r Hr). pose proof (last_bound l r Hr).
  pose proof (match_bound (last_key [] l)). rewrite !Z.mod_small; try done.
  destruct r as [|x r]; [lia|]. apply match_bound.
Qed.

Lemma search_loop_end fuel l acc pPrevRec pRecBase nRecLen nTmp n :
  recs = l -> at_top l acc pRecBase nRecLen nTmp -> level0 = true ->
  exists acc', search_loop visit m key level0 (pos_after recs) (S fuel) false acc pPrevRec pRecBase nRecLen nTmp
    (Z.of_nat (lcp (last_key [] l) t)) (Z.of_nat (lcp (last_key [] l) t)) n = Ok (acc', status_at t l []) /\ Inv l acc'.
Proof.
  intros <- Ha Hl. destruct (top_visit recs [] acc pRecBase nRecLen nTmp) as (acc' & E & Hi); [by rewrite app_nil_r|done|].
  exists acc'. split; [|done]. destruct Ha as (-> & Ep & _). cbn [search_loop]. rewrite E, Ep. cbn [mbind res_bind].
  zif_true. zif_false. rewrite Hl. cbn [negb]. by rewrite (status_ok recs []) by (by rewrite app_nil_r).
Qed.

(** Comparing the target with the record [x] that comes after the records [l]. *)
Definition compare_record (fuel : nat) (l : list grec) (x : grec) (acc : A) (nMatchCnt pCurrTarg nTargLen : Z) : res (A * srch_status) :=
  let size := rec_size (last_key [] l) x in
  '(nFlg, pc, n) ← cmp_targ (length key) m key (pos_after l + SIZEOF_rec_hdr) pCurrTarg nTargLen;
  if 0 <? nFlg then
    search_loop visit m key level0 (pos_after recs) fuel false acc (pos_last l) (pos_after l) size
      (Z.of_nat (lcp (last_key [] l) (g_key x))) pc pc n
  else Ok (acc, status_of (pos_last l) nMatchCnt (pos_after l) (if (BSTAR_REC_SIZE =? size) && negb level0 then 0 else pc)).

(** Reading it. *)
Definition at_record (fuel : nat) (l : list grec) (x : grec) (acc : A) (nMatchCnt pCurrTarg nTargLen : Z) : res (A * srch_status) :=
  let c := Z.of_nat (lcp (last_key [] l) (g_key x)) in
  let size := rec_size (last_key [] l) x in
  let star := (BSTAR_REC_SIZE =? size) && negb level0 in
  if nMatchCnt <? c then
    search_loop visit m key level0 (pos_after recs) fuel false acc (pos_last l) (pos_after l) size c nMatchCnt pCurrTarg nTargLen
  else if c <? nMatchCnt then Ok (acc, status_of (pos_last l) nMatchCnt (pos_after l) (if star then 0 else c))
  else compare_record fuel l x acc nMatchCnt pCurrTarg nTargLen.

Lemma search_loop_read fuel l x rest acc pPrevRec pRecBase nRecLen nTmp mc pc n :
  recs = l ++ x :: rest -> at_top l acc pRecBase nRecLen nTmp ->
  exists acc', search_loop visit m key level0 (pos_after recs) (S fuel) false acc pPrevRec pRecBase nRecLen nTmp mc pc n =
    at_record fuel l x acc' mc pc n /\ Inv l acc'.
Proof.
  intros Hr Ha. destruct (top_visit l (x :: rest) acc pRecBase nRecLen nTmp Hr Ha) as (acc' & E & Hi).
  exists acc'. split; [|done]. destruct Ha as (-> & Ep & _). cbn [search_loop]. rewrite E, Ep. cbn [mbind res_bind].
  assert (Hp : pos_after l + rec_size (last_key [] l) x <= pos_after recs).
  { rewrite Hr. unfold pos_after. rewrite recs_size_app. cbn [recs_size]. pose proof (recs_size_nonneg (g_key x) rest). lia. }
  pose proof (rec_size_pos (last_key [] l) x) as Hz. unfold SIZEOF_rec_hdr in Hz. zif_false.
  destruct (recs_at_hdr m _ _ x rest (at_split l _ Hr)) as [-> ->]. cbn [mbind res_bind]. zif_false. done.
Qed.

(** The star record ends every search. *)
Lemma at_star fuel l x acc n mm :
  recs = l ++ [x] -> is_star x -> level0 = false -> Inv l acc -> mm = lcp (last_key [] l) t ->
  n = zlen t - Z.of_nat mm -> (mm < length t)%nat ->
  exists acc', at_record (S fuel) l x acc (Z.of_nat mm) (Z.of_nat mm) n = Ok (acc', status_at t l [x]).
Proof.
  intros Hr [Hk Hv] Hl Hi Em En Hm. unfold at_record. rewrite Hk. assert (lcp (last_key [] l) [] = 0%nat) as -> by (by rewrite lcp_comm).
  change (Z.of_nat 0) with 0.
  assert (Es : rec_size (last_key [] l) x = BSTAR_REC_SIZE).
  { unfold rec_size, rec_body, suffix. rewrite Hk, drop_nil. cbn [app]. rewrite Hv. done. }
  rewrite Es, Hl. change ((BSTAR_REC_SIZE =? BSTAR_REC_SIZE) && negb false) with true. cbv iota zeta.
  assert (Est : status_of (pos_last l) (Z.of_nat mm) (pos_after l) 0 = status_at t l [x]).
  { subst mm. rewrite <- (status_ok l [x] Hr). by rewrite Hk. }
  zif_false. zcase; [by exists acc; rewrite Est|]. assert (mm = 0%nat) by lia. unfold compare_record. rewrite Es, Hk, Hl, lcp_comm. cbn [lcp].
  change ((BSTAR_REC_SIZE =? BSTAR_REC_SIZE) && negb false) with true. cbv iota. change (Z.of_nat 0) with 0.
  pose proof (Hroom Hl) as Hrm. rewrite Hr, pos_after_snoc, Es in Hrm. unfold BSTAR_REC_SIZE, SIZEOF_rec_hdr, SIZEOF_block_id in Hrm.
  pose proof (pos_after_ge l) as Hge. unfold SIZEOF_blk_hdr in Hge. destruct Hkey as [slack Ek].
  assert (exists r, cmp_targ (length key) m key (pos_after l + SIZEOF_rec_hdr) (Z.of_nat mm) n = Ok r) as [[[nFlg pc] n'] E].
  { pose proof (zlen_nonneg slack). apply cmp_targ_total; rewrite ?Ek, ?zlen_app; unfold SIZEOF_rec_hdr, zlen in *; try lia.
    rewrite length_app. lia. }
  rewrite E. cbn [mbind res_bind]. zcase; [|by exists acc; rewrite Est].
  pose proof (top_snoc l x acc Hi) as Hts. rewrite Es, Hk, lcp_comm in Hts. cbn [lcp] in Hts.
  destruct (top_visit (l ++ [x]) [] acc (pos_after l) BSTAR_REC_SIZE 0) as (acc' & E' & Hi'); [by rewrite app_nil_r|done|].
  change (Z.of_nat 0) with 0 in Hts. exists acc'. cbn [search_loop]. rewrite E'. destruct Hts as (_ & Ep & _). cbn [mbind res_bind]. rewrite Ep, <- Hr.
  zif_true. zif_false. cbn [negb]. zif_false. by rewrite <- Est, H.
Qed.

(** The comparison starts where the stored part of the key does. *)
Lemma compare_spec l x rest i :
  recs = l ++ x :: rest -> gkey_ok (g_key x) -> i = lcp (last_key [] l) (g_key x) -> (i <= lcp (g_key x) t)%nat -> (i < length t)%nat ->
  exists nFlg, cmp_targ (length key) m key (pos_after l + SIZEOF_rec_hdr) (Z.of_nat i) (zlen t - Z.of_nat i) =
    Ok (nFlg, Z.of_nat (lcp (g_key x) t), zlen t - Z.of_nat (lcp (g_key x) t)) /\ (0 < nFlg <-> gvlt (g_key x) t).
Proof.
  intros Hr Hx Ei Hi Hl. apply cmp_targ_spec; try done.
  - destruct Hkey as [slack ->]. rewrite length_app. lia.
  - intros j y Hj Hy. rewrite Ei. apply (key_byte m _ _ x rest j y); [by apply at_split|lia|done].
Qed.

(** A record that is not before the target ends the search. *)
Lemma compare_stop fuel l x rest acc i mm :
  recs = l ++ x :: rest -> gkey_ok (g_key x) -> i = lcp (last_key [] l) (g_key x) -> (i <= lcp (g_key x) t)%nat -> (i < length t)%nat ->
  gvlt (last_key [] l) (g_key x) -> (level0 = false -> zlen (g_val x) = SIZEOF_block_id) -> ~ gvlt (g_key x) t ->
  mm = Z.of_nat (lcp (last_key [] l) t) ->
  compare_record fuel l x acc mm (Z.of_nat i) (zlen t - Z.of_nat i) = Ok (acc, status_at t l (x :: rest)).
Proof.
  intros Hr Hx Ei Hi Hl Hs Hv Hb ->. destruct (compare_spec l x rest i Hr Hx Ei Hi Hl) as (nFlg & E & Hn).
  unfold compare_record. rewrite E. cbn [mbind res_bind]. rewrite (not_star level0 l x Hs Hv).
  assert (~ 0 < nFlg) by (by rewrite Hn). zif_false. by rewrite <- (status_ok l (x :: rest) Hr).
Qed.

(** One before the target is passed. *)
Lemma compare_pass fuel l x rest acc i mm :
  recs = l ++ x :: rest -> gkey_ok (g_key x) -> i = lcp (last_key [] l) (g_key x) -> (i <= lcp (g_key x) t)%nat -> (i < length t)%nat ->
  gvlt (g_key x) t ->
  let mm' := Z.of_nat (lcp (g_key x) t) in
  compare_record fuel l x acc mm (Z.of_nat i) (zlen t - Z.of_nat i) =
  search_loop visit m key level0 (pos_after recs) fuel false acc (pos_last l) (pos_after l)
    (rec_size (last_key [] l) x) (Z.of_nat (lcp (last_key [] l) (g_key x))) mm' mm' (zlen t - mm').
Proof.
  intros Hr Hx Ei Hi Hl Hb mm'. destruct (compare_spec l x rest i Hr Hx Ei Hi Hl) as (nFlg & E & Hn).
  unfold compare_record. rewrite E. cbn [mbind res_bind]. apply Hn in Hb. zif_true. done.
Qed.

Lemma at_stop fuel l x rest acc n mm :
  recs = l ++ x :: rest -> rec_ok x -> gvlt (last_key [] l) (g_key x) -> ~ gvlt (g_key x) t ->
  (level0 = false -> zlen (g_val x) = SIZEOF_block_id) -> gvlt (last_key [] l) t ->
  mm = lcp (last_key [] l) t -> n = zlen t - Z.of_nat mm -> (mm < length t)%nat ->
  at_record fuel l x acc (Z.of_nat mm) (Z.of_nat mm) n = Ok (acc, status_at t l (x :: rest)).
Proof.
  intros Hr [Hx _] Hs Hb Hv Hlt Em En Hm. unfold at_record. rewrite (not_star level0 l x Hs Hv).
  zcase; [exfalso; apply Hb; apply (next_longer (last_key [] l)); [done|lia]|]. zcase.
  - destruct (next_shorter (last_key [] l) (g_key x) t) as [El _]; [done|lia|].
    rewrite <- El, Em. by rewrite <- (status_ok l (x :: rest) Hr).
  - rewrite En. apply (compare_stop fuel l x rest); try done; try lia. rewrite Em. apply (next_equal (last_key [] l)). lia.
Qed.

Lemma at_pass fuel l x rest acc n mm :
  recs = l ++ x :: rest -> rec_ok x -> gvlt (last_key [] l) (g_key x) -> gvlt (g_key x) t -> gvlt (last_key [] l) t ->
  mm = lcp (last_key [] l) t -> n = zlen t - Z.of_nat mm -> (mm < length t)%nat ->
  let mm' := Z.of_nat (lcp (g_key x) t) in
  at_record fuel l x acc (Z.of_nat mm) (Z.of_nat mm) n =
  search_loop visit m key level0 (pos_after recs) fuel false acc (pos_last l) (pos_after l)
    (rec_size (last_key [] l) x) (Z.of_nat (lcp (last_key [] l) (g_key x))) mm' mm' (zlen t - mm').
Proof.
  intros Hr [Hx _] Hs Hb Hlt Em En Hm mm'. subst mm'. unfold at_record. zcase; [|zcase].
  - destruct (next_longer (last_key [] l) (g_key x) t) as [-> _]; [done|lia|]. by rewrite <- Em, En.
  - destruct (next_shorter (last_key [] l) (g_key x) t) as [_ Hx']; [done|lia|]. destruct (gvlt_irrefl t). by transitivity (g_key x).
  - rewrite En. apply (compare_pass fuel l x rest); try done; try lia.
    rewrite Em. apply (next_equal (last_key [] l)). lia.
Qed.

Lemma before_lt l : Forall (before t) l -> gvlt (last_key [] l) t.
Proof. apply last_before. by apply gkey_not_nil. Qed.

Lemma match_lt l rest : recs = l ++ rest -> Forall (before t) l -> (lcp (last_key [] l) t < length t)%nat.
Proof.
  intros Hr Hl. pose proof (before_lt l Hl) as Hlt. pose proof Hlt as [[E ?]|(? & ? & _ & Hy%lookup_lt_Some & _)]%gvlt_lcp; lia.
Qed.

Lemma split_next l x rest : recs = l ++ x :: rest -> Forall (before t) l ->
  (rec_ok x /\ gvlt (last_key [] l) (g_key x) /\ (level0 = false -> zlen (g_val x) = SIZEOF_block_id)) \/
  (level0 = false /\ rest = [] /\ is_star x).
Proof.
  intros Hr Hl. rewrite Hr in Hwalk. destruct (walk_next level0 l x rest Hwalk) as [(? & ? & ? & ?)|(? & ? & ? & ?)]; [left|right]; done.
Qed.

(** The walk from the records [l] on, when the target comes after [l'] more. *)
Lemma search_loop_spec l l' r fuel acc pPrevRec pRecBase nRecLen nTmp :
  recs = l ++ l' ++ r -> split_at t (l ++ l') r -> at_top l acc pRecBase nRecLen nTmp -> (length l' + 2 < fuel)%nat ->
  let mm := Z.of_nat (lcp (last_key [] l) t) in
  exists acc', search_loop visit m key level0 (pos_after recs) fuel false acc pPrevRec pRecBase nRecLen nTmp mm mm (zlen t - mm) =
    Ok (acc', status_at t (l ++ l') r) /\ (level0 = true -> Inv (l ++ l') acc').
Proof.
  revert l fuel acc pPrevRec pRecBase nRecLen nTmp.
  induction l' as [|y l' IH]; intros l fuel acc pPrevRec pRecBase nRecLen nTmp Hr [Hb Hx] Ha Hf mm; subst mm; (destruct fuel as [|fuel]; [lia|]).
  - rewrite app_nil_r in *. cbn [app] in Hr. destruct r as [|x r].
    + rewrite app_nil_r in Hr. assert (level0 = true \/ level0 = false) as [El|El] by (destruct level0; auto).
      * destruct (search_loop_end fuel l acc pPrevRec pRecBase nRecLen nTmp (zlen t - Z.of_nat (lcp (last_key [] l) t)) Hr Ha El) as (acc' & E & Hi).
        by exists acc'.
      * exfalso. pose proof Hwalk as Hwk. rewrite El in Hwk. destruct Hwk as (ks & star & Ek & [Hs _] & _). rewrite <- Hr, Ek in Hb.
        apply Forall_app in Hb as [_ [[Hn _] _]%Forall_cons]. done.
    + destruct (search_loop_read fuel l x r acc pPrevRec pRecBase nRecLen nTmp (Z.of_nat (lcp (last_key [] l) t)) (Z.of_nat (lcp (last_key [] l) t))
        (zlen t - Z.of_nat (lcp (last_key [] l) t)) Hr Ha) as (acc' & -> & Hi).
      pose proof (match_lt l (x :: r) Hr Hb) as Hm.
      destruct (split_next l x r Hr Hb) as [(Hk & Hs & Hv)|(El & -> & Hst)].
      * exists acc'. split; [|done]. apply at_stop; try done; [|by apply before_lt].
        intros Hlt. apply Hx. split; [|done]. by apply gkey_not_nil, Hk.
      * destruct fuel as [|fuel]; [simpl in Hf; lia|].
        destruct (at_star fuel l x acc' _ _ Hr Hst El Hi eq_refl eq_refl Hm) as (acc'' & ->). exists acc''. split; [done|]. by rewrite El.
  - pose proof Hb as [Hl [Hy _]%Forall_cons]%Forall_app. cbn [app] in Hr.
    destruct (search_loop_read fuel l y (l' ++ r) acc pPrevRec pRecBase nRecLen nTmp (Z.of_nat (lcp (last_key [] l) t)) (Z.of_nat (lcp (last_key [] l) t))
        (zlen t - Z.of_nat (lcp (last_key [] l) t)) Hr Ha) as (acc' & -> & Hi).
    pose proof (match_lt l _ Hr Hl) as Hm. destruct (split_next l y (l' ++ r) Hr Hl) as [(Hk & Hs & Hv)|(El & _ & [Hn _])].
    + rewrite (at_pass fuel l y (l' ++ r) acc' _ _ Hr Hk Hs (proj2 Hy) (before_lt l Hl) eq_refl eq_refl Hm).
      destruct (IH (l ++ [y]) fuel acc' (pos_last l) (pos_after l) (rec_size (last_key [] l) y) (Z.of_nat (lcp (last_key [] l) (g_key y))))
        as (acc'' & E & Hi'); rewrite <- ?app_assoc; cbn [app]; try done.
      { by apply top_snoc. } { simpl in Hf. lia. }
      rewrite last_key_snoc, <- app_assoc in E. rewrite <- app_assoc in Hi'. by exists acc''.
    + by destruct Hy.
Qed.
End spec.
