(* ===== verification/Blktail.v ===== *)
(** gvcst_search_blk and gvcst_search_tail find the place of a key in a block: the
    records before it and the rest, and how many bytes of the target the records
    next to that place share with it. *)

From stdpp Require Import base list numbers option tactics sorting.
From Stdlib Require Import ZArith Lia.
From S2P Require Import Prelude Subscript Gvsub Gvkey Gdsblk Blkexpand Blksearch.

Open Scope Z_scope.

(** The records before the target, and the others. *)
Lemma split_exists t rs : exists l r, rs = l ++ r /\ split_at t l r.
Proof.
  induction rs as [|x rs (l & r & -> & Hl & Hr)]; [by exists [], []|].
  destruct (decide (before t x)) as [Hx|Hx]; [exists (x :: l), r|exists [], (x :: l ++ r)]; (split; [done|]).
  - split; [by constructor|done].
  - split; [done|done].
Qed.

Lemma blk_top_at blk_size level m rs : blk_at blk_size level m rs -> blk_top blk_size m = Ok (pos_after rs).
Proof.
  intros (_ & _ & Hb & Hs)%blk_at_recs. unfold blk_top. rewrite Hb. cbn [mbind res_bind]. f_equal. unfold pos_after. lia.
Qed.

Lemma fuel_recs m pos rs : recs_at m pos [] rs -> SIZEOF_blk_hdr <= pos -> (length rs + 2 < S (length m))%nat.
Proof.
  intros H Hp. pose proof (recs_at_room _ _ _ _ H) as [_ Hr]. pose proof (recs_size_length [] rs).
  unfold zlen, SIZEOF_blk_hdr in *. lia.
Qed.

(** ** The search from the start of a block *)

Section start.
Context (blk_size level : Z) (m t : list Z) (rs : list grec) (K : gv_key).
Hypothesis Hblk : blk_ok blk_size level m rs.
Hypothesis Hkey : key_holds K t.
Hypothesis Hroom : level <> 0 -> pos_after rs + zlen t <= zlen m.

Lemma blk_walk : walk_ok (level =? 0) rs.
Proof. destruct Hblk as (_ & _ & H). unfold walk_ok. by destruct (level =? 0). Qed.

Lemma start_spec {A} (visit : Z -> Z -> A -> res A) (Inv : list grec -> A -> Prop) acc l r :
  rs = l ++ r -> split_at t l r -> Inv [] acc ->
  (forall l r rest acc, rs = l ++ r :: rest -> Inv l acc ->
    exists acc', visit (pos_after l) (Z.of_nat (lcp (last_key [] l) (g_key r))) acc = Ok acc' /\ Inv (l ++ [r]) acc') ->
  exists acc', search_from_start visit m (k_base K) (level =? 0) (pos_after rs) (k_end K) acc = Ok (acc', status_at t l r) /\
    (level = 0 -> Inv l acc').
Proof.
  intros Hr Hs Hi Hv. destruct Hkey as (He & Hb & Ht & Hl). destruct Hblk as (H0 & Hat & _).
  destruct (blk_at_recs _ _ _ _ Hat) as (Ha & _ & _ & Hz).
  destruct (search_loop_spec visit Inv m (k_base K) t (level =? 0) rs Ht Hl Hb Ha) with
    (l := @nil grec) (l' := l) (r := r) (fuel := S (length m)) (acc := acc) (pPrevRec := 0) (pRecBase := 0)
    (nRecLen := SIZEOF_blk_hdr) (nTmp := 0) as (acc' & E & Hi').
  - unfold pos_after in *. lia.
  - apply blk_walk.
  - intros E. apply Hroom. by apply Z.eqb_neq in E.
  - done.
  - done.
  - done.
  - done.
  - pose proof (fuel_recs m SIZEOF_blk_hdr rs Ha) as Hf. rewrite Hr, length_app in Hf. unfold SIZEOF_blk_hdr in Hf. lia.
  - cbn [app] in E, Hi'. exists acc'. split; [|intros ->; by apply Hi']. unfold search_from_start. rewrite <- E, He. f_equal; simpl; lia.
Qed.

Lemma search_blk_at alt l r : rs = l ++ r -> split_at t l r ->
  gvcst_search_blk blk_size false m K alt = Ok (status_at t l r, alt).
Proof.
  intros Hr Hs. unfold gvcst_search_blk. destruct Hblk as (_ & Hat & _). destruct (blk_at_recs _ _ _ _ Hat) as (_ & -> & _ & _).
  cbn [mbind res_bind]. rewrite andb_false_r, (blk_top_at _ _ _ _ Hat). cbn [mbind res_bind].
  destruct (start_spec (fun _ _ u => Ok u) (fun _ (_ : unit) => True) tt l r) as ([] & -> & _); try done.
  intros ? ? ? acc. by exists acc.
Qed.
End start.

(** ** The search from where that of a smaller key ended *)

(** prev_key->end when the key before the clue is not known: DBKEYSIZE(MAX_KEY_SZ). *)
Definition DBKEYSIZE (n : Z) : Z := (n + MAX_GVKEY_PADDING_LEN + 3) / 4 * 4.
Definition PREV_KEY_NOT_COMPUTED : Z := DBKEYSIZE MAX_KEY_SZ.

Section tail.
Context (blk_size : Z).

(** [base_diff] is pBlkBase - prevKey->base, as addresses: the source compares a
    pointer into the previous key with the end of the block when the loop ends
    before its second iteration. *)
Definition gvcst_search_tail_expand_prevkey (base_diff : Z) (m : list Z) (pKey : gv_key) (pStat : srch_status)
    (pOldKey : gv_key) (prev_key : option gv_key) (gv_altkey : gv_key) : res (srch_status * gv_key) :=
  pTop ← blk_top blk_size m;
  '(prevKey, gv_altkey) ← (match prev_key with
    | Some prevKey =>
        if k_end prevKey =? PREV_KEY_NOT_COMPUTED then
          alt ← gvcst_expand_prev_key blk_size m pStat pOldKey gv_altkey; Ok (alt, alt)
        else
          l ← rd_list (k_base prevKey) 0 (k_end prevKey - 1);
          alt ← key_copy gv_altkey 0 l; Ok (prevKey, alt)
    | None => alt ← gvcst_expand_prev_key blk_size m pStat pOldKey gv_altkey; Ok (alt, alt)
    end);
  let prevKeyCmpLen := k_end prevKey - 1 in
  '(s, st, at_end) ← search_tail_gen (expand_visit true m (k_base prevKey)) m pKey pStat pOldKey pTop
      (mk_prevkey prevKeyCmpLen (Some (InPrev prevKeyCmpLen)) true gv_altkey);
  alt ← expand_finish m (k_base prevKey) pTop (if at_end : bool then k_end prevKey + 1 else base_diff + pTop) s;
  Ok (st, alt).

Definition gvcst_search_tail (expand_prev_key : bool) (base_diff : Z) (m : list Z) (pKey : gv_key) (pStat : srch_status)
    (pOldKey : gv_key) (prev_key : option gv_key) (gv_altkey : gv_key) : res (srch_status * gv_key) :=
  if sr_offset (prev_rec pStat) =? 0 then gvcst_search_blk blk_size expand_prev_key m pKey gv_altkey
  else if expand_prev_key then gvcst_search_tail_expand_prevkey base_diff m pKey pStat pOldKey prev_key gv_altkey
  else
    pTop ← blk_top blk_size m;
    '(_, st, _) ← search_tail_gen (fun _ _ (u : unit) => Ok u) m pKey pStat pOldKey pTop tt;
    Ok (st, gv_altkey).
End tail.

Lemma common_len_spec fuel t s t0 s0 i n : (i <= lcp t t0)%nat -> (lcp t t0 < length t)%nat -> (lcp t t0 < length t0)%nat ->
  (Nat.min n (lcp t t0 - i) < fuel)%nat ->
  common_len fuel (t ++ s) (t0 ++ s0) (Z.of_nat i) (Z.of_nat i) (Z.of_nat n) = Ok (Z.of_nat (n - Nat.min n (lcp t t0 - i))).
Proof.
  revert i n. induction fuel as [|fuel IH]; intros i n Hi Ht H0 Hf; [lia|]. cbn [common_len]. zcase.
  { f_equal. lia. }
  destruct (lookup_lt_is_Some_2 t i) as [x Hx]; [lia|]. destruct (lookup_lt_is_Some_2 t0 i) as [y Hy]; [lia|].
  rewrite (rd8_target t s i x Hx), (rd8_target t0 s0 i y Hy). cbn [mbind res_bind].
  destruct (decide (i < lcp t t0)%nat) as [Hl|Hl].
  - pose proof (lookup_lcp t t0 i Hl). simplify_eq. assert (x = y) as -> by congruence. rewrite Z.eqb_refl. cbn [negb].
    replace (Z.of_nat i + 1) with (Z.of_nat (S i)) by lia. replace (Z.of_nat n - 1) with (Z.of_nat (n - 1)) by lia.
    rewrite IH by lia. f_equal. lia.
  - assert ((x =? y) = false) as ->; [|cbn [negb]; f_equal; lia].
    apply Z.eqb_neq. intros ->. assert (S i <= lcp t t0)%nat; [|lia].
    apply lcp_ge; [|lia|lia]. rewrite (take_S_r _ _ _ Hx), (take_S_r _ _ _ Hy). f_equal. apply lcp_take. lia.
Qed.

(** The first record to compare after a tail search starts. *)
Section enter.
Context {A : Type} (visit : Z -> Z -> A -> res A) (Inv : list grec -> A -> Prop).
Context (m t t0 slack0 key : list Z) (recs : list grec) (K K0 : gv_key).
Hypothesis HK : key_holds K t.
Hypothesis HK0 : key_holds K0 t0.
Hypothesis Hlt : gvlt t0 t.
Hypothesis Hat : recs_at m SIZEOF_blk_hdr [] recs.
Hypothesis Htop : pos_after recs <= MAX_DB_BLK_SIZE.
Hypothesis Hleaf : leaf_ok recs.
Hypothesis Hvisit : forall l r rest acc, recs = l ++ r :: rest -> Inv l acc ->
  exists acc', visit (pos_after l) (Z.of_nat (lcp (last_key [] l) (g_key r))) acc = Ok acc' /\ Inv (l ++ [r]) acc'.

Lemma old_new : (lcp t t0 < length t)%nat /\ (lcp t t0 < length t0)%nat /\
  exists x y, t !! lcp t t0 = Some x /\ t0 !! lcp t t0 = Some y /\ y < x.
Proof.
  destruct HK as (_ & _ & Ht & _). destruct HK0 as (_ & _ & Ht0 & _).
  destruct (gkey_lt t0 t Ht0 Ht Hlt) as (y & x & Ey & Ex & Hxy). rewrite lcp_comm in Ey, Ex.
  split; [by eapply lookup_lt_Some|]. split; [by eapply lookup_lt_Some|]. by exists x, y.
Qed.

(** A record that is not before the old key shares at least as much of it as its
    compression count says. *)
Lemma entry_match l x rest : recs = l ++ x :: rest -> split_at t0 l (x :: rest) ->
  (lcp (last_key [] l) (g_key x) <= lcp (last_key [] l) t0)%nat /\ gvlt (last_key [] l) t0 /\
  rec_ok x /\ ~ gvlt (g_key x) t0 /\ gvlt (last_key [] l) (g_key x).
Proof.
  intros Hr [Hl Hx]. destruct HK0 as (_ & _ & Ht0 & _).
  assert (Hb : gvlt (last_key [] l) t0) by (apply last_before; [by apply gkey_not_nil|done]).
  pose proof Hleaf as [Hok Hs]. rewrite Hr in Hok, Hs. pose proof Hok as [Hl' [Hx' _]%Forall_cons]%Forall_app.
  assert (~ gvlt (g_key x) t0) as Hnx.
  { intros H. apply Hx. split; [|done]. by apply gkey_not_nil, Hx'. }
  split; [|split; [done|split; [done|split; [done|]]]].
  - destruct (decide (lcp (last_key [] l) t0 < lcp (last_key [] l) (g_key x))%nat) as [Hc|]; [|lia].
    destruct Hnx. by apply (next_longer (last_key [] l)).
  - apply (sorted_next l x rest); [done|apply Hx'|done].
Qed.

(** Where the walk goes on: at the top of the loop, past the record, or with a
    comparison. *)
Lemma tail_entry_spec l x rest : recs = l ++ x :: rest -> split_at t0 l (x :: rest) ->
  let c := lcp (last_key [] l) (g_key x) in
  exists T, tail_entry (k_base K) (k_base K0) (k_end K) (Z.of_nat c) (Z.of_nat (lcp (last_key [] l) t0)) = Ok T /\
    ((c <= lcp (last_key [] l) t)%nat /\
       T = mk_tail true (Z.of_nat (lcp (last_key [] l) t)) (Z.of_nat c) (zlen t - Z.of_nat c) \/
     gvlt (g_key x) t /\ let mm := Z.of_nat (lcp (g_key x) t) in T = mk_tail false mm mm (zlen t - mm)).
Proof.
  intros Hr Hs c. destruct (entry_match l x rest Hr Hs) as (Hc & Hb & [Hx _] & Hnx & Hlx). fold c in Hc.
  destruct old_new as (H1 & H2 & u & v & Eu & Ev & Huv).
  assert (Hm : lcp (last_key [] l) t = Nat.min (lcp (last_key [] l) t0) (lcp t t0)).
  { rewrite (lcp_comm t t0). by apply lcp_sorted. }
  destruct HK as (He & [sl Eb] & Ht & Hlen). destruct HK0 as (_ & [sl0 Eb0] & Ht0 & _).
  unfold tail_entry. rewrite Eb, Eb0, He. change 0 with (Z.of_nat 0) at 1 2.
  rewrite (common_len_spec _ t sl t0 sl0 0 c) by (rewrite ?length_app; lia). cbn [mbind res_bind].
  destruct (decide (c <= lcp t t0)%nat) as [Hcl|Hcl].
  - replace (c - Nat.min c (lcp t t0 - 0))%nat with 0%nat by lia. change (Z.of_nat 0) with 0. cbn [Z.eqb mbind res_bind].
    rewrite Z.sub_0_r, <- Nat2Z.inj_sub by lia. exists (mk_tail true (Z.of_nat (lcp (last_key [] l) t)) (Z.of_nat c) (zlen t - Z.of_nat c)).
    split; [|left; split; [lia|done] ]. zcase.
    + rewrite (common_len_spec _ t sl t0 sl0 c) by (rewrite ?length_app; lia). cbn [mbind res_bind].
      f_equal. f_equal. lia.
    + cbn [mbind res_bind]. f_equal. f_equal. lia.
  - assert (Ez : (0 < c - Nat.min c (lcp t t0 - 0))%nat) by lia. zif_false.
    replace (Z.of_nat c - Z.of_nat (c - Nat.min c (lcp t t0 - 0))) with (Z.of_nat (lcp t t0)) by lia.
    rewrite (rd8_target t sl _ u Eu), (rd8_target t0 sl0 _ v Ev). cbn [mbind res_bind]. zif_false. zif_true.
    assert (lcp (g_key x) t = lcp t t0 /\ gvlt (g_key x) t) as [-> Hxt].
    { rewrite (lcp_comm t t0). destruct (gvlt_cases t0 (g_key x)) as [H|[E|H] ]; [|by rewrite <- E|done].
      apply (next_longer t0); [done|]. rewrite (lcp_comm t0 t). unfold c in Hcl. rewrite (lcp_sorted _ t0) in Hcl by done. lia. }
    eexists. split; [reflexivity|]. right. split; [done|]. cbn zeta. by f_equal.
Qed.
Lemma entry_shared (k x : list Z) : (lcp k x <= lcp k t)%nat -> (lcp k x <= lcp x t)%nat.
Proof.
  intros H. pose proof (lcp_le_r k x). pose proof (lcp_le_r k t). apply lcp_ge; [|lia|lia].
  rewrite <- (lcp_take k x), <- (lcp_take k t) by lia. done.
Qed.

(** The walk from a record that is before the target. *)
Lemma pass_record l x k r acc fuel : recs = l ++ x :: k ++ r -> split_at t (l ++ x :: k) r -> Inv l acc -> (length k + 2 < fuel)%nat ->
  let mm := Z.of_nat (lcp (g_key x) t) in
  exists acc', search_loop visit m (k_base K) true (pos_after recs) fuel false acc (pos_last l) (pos_after l)
      (rec_size (last_key [] l) x) (Z.of_nat (lcp (last_key [] l) (g_key x))) mm mm (zlen t - mm) =
    Ok (acc', status_at t (l ++ x :: k) r) /\ Inv (l ++ x :: k) acc'.
Proof.
  intros Hr Hs Hi Hf mm. destruct HK as (_ & Hb & Ht & Hlen).
  destruct (search_loop_spec visit Inv m (k_base K) t true recs Ht Hlen Hb Hat Htop Hleaf) with
    (l := l ++ [x]) (l' := k) (r := r) (fuel := fuel) (acc := acc) (pPrevRec := pos_last l) (pRecBase := pos_after l)
    (nRecLen := rec_size (last_key [] l) x) (nTmp := Z.of_nat (lcp (last_key [] l) (g_key x))) as (acc' & E & Hi').
  - done.
  - done.
  - by rewrite <- app_assoc.
  - by rewrite <- app_assoc.
  - by apply (top_snoc Inv).
  - done.
  - rewrite last_key_snoc, <- app_assoc in E. rewrite <- app_assoc in Hi'. exists acc'. split; [exact E|by apply Hi'].
Qed.

Lemma tail_gen_spec l r k r' acc : recs = l ++ r -> split_at t0 l r -> r = k ++ r' -> split_at t (l ++ k) r' -> Inv l acc ->
  exists acc', search_tail_gen visit m K (status_at t0 l r) K0 (pos_after recs) acc =
      Ok (acc', status_at t (l ++ k) r', bool_decide (r = [])) /\ Inv (l ++ k) acc' /\ (r = [] -> acc' = acc).
Proof.
  intros Hr Hs Ek Hs' Hi. unfold search_tail_gen.
  change (sr_offset (curr_rec (status_at t0 l r))) with (pos_after l). change (sr_offset (prev_rec (status_at t0 l r))) with (pos_last l).
  change (sr_match (prev_rec (status_at t0 l r))) with (Z.of_nat (lcp (last_key [] l) t0)).
  destruct HK as (_ & [sl Eb] & Ht & Hlen).
  destruct r as [|x rest].
  - symmetry in Ek. apply app_nil in Ek as [-> ->]. rewrite app_nil_r in *. rewrite Hr. zif_true. zif_false.
    destruct old_new as (H1 & H2 & _). pose proof HK0 as (_ & [sl0 Eb0] & Ht0 & _).
    assert (Hb : gvlt (last_key [] l) t0) by (apply last_before; [by apply gkey_not_nil|apply Hs]).
    pose proof (common_len_spec (S (length (t ++ sl))) t sl t0 sl0 0 (lcp (last_key [] l) t0)) as Ec. change (Z.of_nat 0) with 0 in Ec.
    rewrite Eb, Eb0, Ec by (rewrite ?length_app; lia). cbn [mbind res_bind]. exists acc. split; [|done]. f_equal. f_equal. f_equal.
    assert (Hrt : recs = l ++ []) by (by rewrite app_nil_r).
    rewrite <- (status_ok t recs Hlen Htop l [] Hrt). f_equal.
    rewrite (lcp_sorted (last_key [] l) t0 t) by done. rewrite (lcp_comm t0 t). lia.
  - destruct (entry_match l x rest Hr Hs) as (Hc & Hb & [Hx Hxl] & Hnx & Hlx).
    pose proof (at_split m recs Hat l (x :: rest) Hr) as Ha. destruct (recs_at_hdr _ _ _ _ _ Ha) as [Ers Ecm].
    assert (Hp : pos_after l + rec_size (last_key [] l) x <= pos_after recs).
    { rewrite Hr. unfold pos_after. rewrite recs_size_app. cbn [recs_size]. pose proof (recs_size_nonneg (g_key x) rest). lia. }
    pose proof (rec_size_pos (last_key [] l) x) as Hz. unfold SIZEOF_rec_hdr in Hz. zif_false.
    rewrite Ers, Ecm. cbn [mbind res_bind].
    destruct (tail_entry_spec l x rest Hr Hs) as (T & -> & HT). cbn [mbind res_bind].
    pose proof (fuel_recs m SIZEOF_blk_hdr recs Hat ltac:(done)) as Hf.
    assert (Hlt' : gvlt (last_key [] l) t) by (by transitivity t0).
    assert (Hpass : gvlt (g_key x) t -> exists k', k = x :: k' /\ rest = k' ++ r').
    { intros Hxt. destruct k as [|y k]; cbn [app] in Ek; [|injection Ek as -> ->; by exists k]. subst r'.
      destruct Hs' as [_ []]. split; [|done]. by apply gkey_not_nil. }
    destruct HT as [[Hcl ->]|[Hxt ->]]; cbn [t_entry t_match t_targ t_len].
    + change (search_loop visit m (k_base K) true (pos_after recs) (S (length m)) true acc (pos_last l) (pos_after l)
        (rec_size (last_key [] l) x) (Z.of_nat (lcp (last_key [] l) (g_key x))) (Z.of_nat (lcp (last_key [] l) t))
        (Z.of_nat (lcp (last_key [] l) (g_key x))) (zlen t - Z.of_nat (lcp (last_key [] l) (g_key x))))
        with (compare_record visit m (k_base K) true recs (length m) l x acc (Z.of_nat (lcp (last_key [] l) t))
        (Z.of_nat (lcp (last_key [] l) (g_key x))) (zlen t - Z.of_nat (lcp (last_key [] l) (g_key x)))).
      assert (Hcx : (lcp (last_key [] l) (g_key x) <= lcp (g_key x) t)%nat) by (by apply entry_shared).
      assert (Hcl' : (lcp (last_key [] l) (g_key x) < length t)%nat) by (apply gvlt_lcp_lt in Hlt'; lia).
      destruct (decide (gvlt (g_key x) t)) as [Hxt|Hxt].
      * destruct (Hpass Hxt) as (k' & -> & Erest). rewrite Erest in Hr.
        rewrite (compare_pass visit m (k_base K) t true recs Ht Hlen (ex_intro _ sl Eb) Hat) with (rest := k' ++ r') by done.
        destruct (pass_record l x k' r' acc (length m) Hr Hs' Hi) as (acc' & -> & Hi').
        { rewrite Hr, length_app in Hf. cbn [length] in Hf. rewrite length_app in Hf. lia. }
        by exists acc'.
      * destruct k as [|y k]; [|exfalso; apply Hxt; cbn [app] in Ek; injection Ek as -> _;
          by destruct Hs' as [[_ [[_ ?] _]%Forall_cons]%Forall_app _] ].
        rewrite app_nil_r in *. cbn [app] in Ek. subst r'.
        rewrite (compare_stop visit m (k_base K) t true recs Ht Hlen (ex_intro _ sl Eb) Hat Htop) with (rest := rest) by done.
        by exists acc.
    + destruct (Hpass Hxt) as (k' & -> & Erest). rewrite Erest in Hr.
      destruct (pass_record l x k' r' acc (S (length m)) Hr Hs' Hi) as (acc' & -> & Hi').
      { rewrite Hr, length_app in Hf. cbn [length] in Hf. rewrite length_app in Hf. lia. }
      by exists acc'.
Qed.
End enter.

(** ** Both searches *)

Lemma split_unique t l r l' r' : l ++ r = l' ++ r' -> split_at t l r -> split_at t l' r' -> l = l' /\ r = r'.
Proof.
  revert l'. induction l as [|x l IH]; intros [|x' l'] E [Hl Hr] [Hl' Hr']; cbn [app] in E.
  - done.
  - subst r. by apply Forall_cons in Hl' as [? _].
  - subst r'. by apply Forall_cons in Hl as [? _].
  - injection E as -> E. apply Forall_cons in Hl as [_ Hl], Hl' as [_ Hl'].
    destruct (IH l' E) as [-> ->]; by split.
Qed.

Lemma split_extend t0 t l r : gvlt t0 t -> split_at t0 l r -> exists k r', r = k ++ r' /\ split_at t (l ++ k) r'.
Proof.
  intros Ht [Hl _]. destruct (split_exists t r) as (k & r' & -> & Hk & Hr). exists k, r'. split; [done|]. split; [|done].
  apply Forall_app. split; [|done]. eapply Forall_impl; [exact Hl|]. intros x [? ?]. split; [done|]. by transitivity t0.
Qed.

(** A tail search ends where a search from the start does. *)
Lemma search_tail_same blk_size m rs K K0 t t0 l r d pk alt :
  blk_ok blk_size 0 m rs -> key_holds K t -> key_holds K0 t0 -> gvlt t0 t -> rs = l ++ r -> split_at t0 l r ->
  gvcst_search_tail blk_size false d m K (status_at t0 l r) K0 pk alt = gvcst_search_blk blk_size false m K alt.
Proof.
  intros Hb Hk Hk0 Hlt Hr Hs. unfold gvcst_search_tail. zcase; [done|].
  destruct (split_extend t0 t l r Hlt Hs) as (k & r' & Er & Hs').
  rewrite (search_blk_at blk_size 0 m t rs K Hb Hk) with (l := l ++ k) (r := r') by (try done; by rewrite Hr, Er, app_assoc).
  destruct Hb as (_ & Hat & Hleaf). rewrite (blk_top_at _ _ _ _ Hat). cbn [mbind res_bind].
  destruct (blk_at_recs _ _ _ _ Hat) as (Ha & _ & _ & Hz).
  destruct (tail_gen_spec (fun _ _ u => Ok u) (fun _ (_ : unit) => True) m t t0 rs K K0 Hk Hk0 Hlt Ha) with
    (l := l) (r := r) (k := k) (r' := r') (acc := tt) as (acc' & -> & _); try done.
  - unfold pos_after. lia.
  - intros ? ? ? acc ? ?. by exists acc.
Qed.
