(* ===== verification/Blkprev.v ===== *)
(** The expansion of keys after a search: the functions of gvcst_expand_key.c give
    the key of the record before or at the place of the target, and the searches
    with _expand_prevkey give the key of the record before it on the way. *)

From stdpp Require Import base list numbers option tactics sorting.
From Stdlib Require Import ZArith Lia.
From S2P Require Import Prelude Subscript Gvsub Gvkey Gdsblk Blkexpand Gvexample Blksearch Blktail.

Open Scope Z_scope.

(** ** gvcst_expand_key *)

Lemma leaf_prefix l r : leaf_ok (l ++ r) -> leaf_ok l.
Proof.
  intros [Hr Hs]. apply Forall_app in Hr as [Hr _]. split; [done|].
  unfold keys_sorted in *. rewrite fmap_app in Hs. by apply StronglySorted_app in Hs as (_ & ? & _).
Qed.

Lemma leaf_cons l x r : leaf_ok (l ++ x :: r) -> leaf_ok (l ++ [x]).
Proof. intros H. apply (leaf_prefix (l ++ [x]) r). by rewrite <- app_assoc. Qed.

(** The key of a record, from the start of its block. *)
Lemma gvcst_expand_key_spec blk_size level m recs l x rest K :
  blk_at blk_size level m recs -> recs = l ++ x :: rest -> leaf_ok (l ++ [x]) -> key_room K 1023 ->
  exists K', gvcst_expand_key blk_size m (pos_after l) K = Ok K' /\ key_is K K' (g_key x).
Proof.
  intros Hat Hr [Hok Hs] Hroom. unfold gvcst_expand_key. rewrite (blk_top_at _ _ _ _ Hat). cbn [mbind res_bind].
  destruct (blk_at_recs _ _ _ _ Hat) as (Ha & _ & _ & Hz).
  destruct (expand_loop_spec m recs rest l x Hr Ha Hok Hs [] l (S (length m)) 0 SIZEOF_blk_hdr (mk_prevkey 0 None false K))
    as (s & E & Hk & Hu & Hc & Et & Ep & Ez).
  - done.
  - done.
  - done.
  - pose proof (fuel_recs m SIZEOF_blk_hdr recs Ha ltac:(done)) as Hf. rewrite Hr, length_app in Hf. simpl in Hf. lia.
  - by left.
  - done.
  - rewrite E. cbn [mbind res_bind]. pose proof Hok as [_ [[Hx Hxl] _]%Forall_cons]%Forall_app.
    destruct (expand_finish_spec m [] (g_key x) (pos_after recs) 0 s Hx Hk) as (K1 & -> & He & [sl Eb] & Ht1 & Hp1 & Hz1).
    + unfold key_room in *. rewrite Et, Ez. cbn [altkey]. unfold zlen in *. lia.
    + rewrite Hu, Hc. rewrite Hr. unfold pos_after. rewrite recs_size_app. cbn [recs_size]. unfold rec_size, rec_body, suffix.
      rewrite zlen_app. pose proof (zlen_nonneg (g_val x)). pose proof (recs_size_nonneg (g_key x) rest).
      unfold zlen in *. rewrite length_drop. pose proof (lcp_le_r (last_key [] l) (g_key x)). lia.
    + cbn [mbind res_bind]. replace (k_end K1) with (zlen (g_key x) - 1) by lia.
      destruct (expand_close_spec K K1 (g_key x) sl Hx Eb) as (K2 & E2 & H2); [cbn [altkey] in *; congruence..|]. by exists K2.
Qed.

(** ** gvcst_expand_curr_key and gvcst_expand_prev_key *)

Lemma copy_key_spec fuel m key k i src dstTop slack :
  gkey_ok k -> k_base key = take i k ++ slack -> (i + 2 <= length k)%nat -> reads m src i k ->
  zlen k <= zlen (k_base key) -> zlen k - 2 < dstTop -> (length k - i < fuel + 2)%nat ->
  exists key' slack', copy_key fuel m key (Z.of_nat i) src dstTop = Ok (key', zlen k - 1) /\
    k_base key' = k ++ slack' /\ k_top key' = k_top key /\ k_prev key' = k_prev key /\ zlen (k_base key') = zlen (k_base key).
Proof.
  intros Hk. revert i key src slack. induction fuel as [|fuel IH]; intros i key src slack Eb Hi Hr Hz Ht Hf; [lia|].
  cbn [copy_key]. unfold zlen in Hz, Ht. zif_false.
  destruct (lookup_lt_is_Some_2 k i) as [x Hx]; [lia|]. destruct (lookup_lt_is_Some_2 k (S i)) as [y Hy]; [lia|].
  rewrite (rd8_reads m src i k x Hr Hx). cbn [mbind res_bind].
  destruct (key_copy_spec key (take i k) slack i [x] Eb) as (sl' & -> & Hz').
  { rewrite length_take. lia. } { unfold zlen. simpl. lia. }
  rewrite take_take, Nat.min_id, app_assoc, <- (take_S_r k i x Hx) in *. cbn [mbind res_bind].
  pose proof (gkey_end k i x y Hk Hx Hy) as He. unfold KEY_DELIMITER.
  assert (En : (if x =? 0 then rd8 m (src + 1) else Ok x) = Ok (if x =? 0 then y else x)).
  { destruct (x =? 0); [|done]. by apply (rd8_reads m _ (S i) k y); [apply reads_next|]. }
  rewrite En. cbn [mbind res_bind]. destruct ((x =? 0) && ((if x =? 0 then y else x) =? 0)) eqn:E.
  - apply andb_prop in E as [E0 E1]. rewrite E0 in E1 |- *. apply Z.eqb_eq in E0, E1. subst x y.
    assert ((i + 2)%nat = length k) as Hend by (by apply He).
    destruct (key_copy_spec (mk_gv_key (k_top key) (k_end key) (k_prev key) (take (S i) k ++ sl')) (take (S i) k) sl' (S i) [0] eq_refl) as (sl2 & E2 & Hz2).
    { rewrite length_take. lia. } { cbn [k_base]. rewrite Hz'. unfold zlen. simpl. lia. }
    replace (Z.of_nat i + 1) with (Z.of_nat (S i)) by lia. rewrite E2. cbn [mbind res_bind].
    rewrite take_take, Nat.min_id, app_assoc, <- (take_S_r k (S i) 0 Hy), take_ge in * by lia. cbn [k_base k_top k_prev] in *.
    eexists _, sl2. split; [f_equal; f_equal; unfold zlen; lia|]. cbn [k_base k_top k_prev].
    rewrite (take_ge k (S (S i))), Hz2 by lia. done.
  - assert (Hne : (i + 2)%nat <> length k).
    { intros [-> ->]%He. done. }
    replace (Z.of_nat i + 1) with (Z.of_nat (S i)) by lia.
    destruct (IH (S i) (mk_gv_key (k_top key) (k_end key) (k_prev key) (take (S i) k ++ sl')) (src + 1) sl') as (key' & sl2 & -> & H1 & H2 & H3 & H4);
      cbn [k_base k_top k_prev] in *; try done; try lia.
    + by apply reads_next.
    + rewrite Hz'. unfold zlen. lia.
    + exists key', sl2. rewrite H4. done.
Qed.

(** The bytes of a record's key in the block. *)
Lemma record_reads m recs l x rest i : recs_at m SIZEOF_blk_hdr [] recs -> recs = l ++ x :: rest ->
  (lcp (last_key [] l) (g_key x) <= i)%nat ->
  reads m (pos_after l + SIZEOF_rec_hdr + (Z.of_nat i - Z.of_nat (lcp (last_key [] l) (g_key x)))) i (g_key x).
Proof.
  intros Ha Hr Hi j y Hj Hy. pose proof (at_split m recs Ha l (x :: rest) Hr) as H.
  rewrite <- (key_byte m _ _ x rest j y H) by (done || lia). f_equal. lia.
Qed.

(** How far the target is copied: not into the end of the key, where the two
    null bytes are looked for. *)
Lemma copy_from k t c sl : gkey_ok k -> gkey_ok t -> k <> t -> (c + 2 <= length k)%nat -> (c <= lcp k t)%nat ->
  exists i, (c <= i)%nat /\ (i + 2 <= length k)%nat /\ (i <= lcp k t)%nat /\
    (if Z.of_nat c <? Z.of_nat (lcp k t) then
       b ← rd8 (t ++ sl) (Z.of_nat (lcp k t) - 1); Ok (if b =? KEY_DELIMITER then Z.of_nat (lcp k t) - 1 else Z.of_nat (lcp k t))
     else Ok (Z.of_nat (lcp k t))) = Ok (Z.of_nat i).
Proof.
  intros Hk Ht Hn Hc Hl. pose proof (gkey_lcp k t Hk Ht Hn) as Hlt. zcase.
  - destruct (lookup_lt_is_Some_2 k (lcp k t - 1)) as [b Hb]; [lia|].
    assert (Hb' : t !! (lcp k t - 1)%nat = Some b) by (rewrite <- Hb; symmetry; apply lookup_lcp; lia).
    replace (Z.of_nat (lcp k t) - 1) with (Z.of_nat (lcp k t - 1)) by lia. rewrite (rd8_target t sl _ b Hb').
    cbn [mbind res_bind]. unfold KEY_DELIMITER. destruct (Z.eqb_spec b 0) as [->|Hb0].
    + exists (lcp k t - 1)%nat. repeat split; lia.
    + exists (lcp k t). split; [lia|]. split; [|by split].
      pose proof Hk as (_ & n & Hlen & _ & _ & E0 & _). assert (lcp k t <> S n); [|lia].
      intros E. rewrite E in Hb. simpl in Hb. rewrite Nat.sub_0_r in Hb. congruence.
  - exists (lcp k t). repeat split; lia.
Qed.

Lemma expand_gen_record prev blk_size level m recs l x rest K t exp pStat :
  blk_at blk_size level m recs -> recs = l ++ x :: rest -> leaf_ok (l ++ [x]) -> key_holds K t -> key_room exp 1024 ->
  (if prev : bool then prev_rec pStat else curr_rec pStat) = mk_rec_status (pos_after l) (Z.of_nat (lcp (g_key x) t)) ->
  (prev = true -> g_key x <> t) -> (prev = false -> (lcp (last_key [] l) (g_key x) <= lcp (g_key x) t)%nat) ->
  exists K', expand_gen blk_size prev m pStat K exp = Ok K' /\ key_is exp K' (g_key x).
Proof.
  intros Hat Hr Hleaf (He & [sl Eb] & Ht & Hlen) [Hr1 Hr2] Est Hp Hc. unfold expand_gen. rewrite Est. cbn [sr_offset sr_match].
  destruct (blk_at_recs _ _ _ _ Hat) as (Ha & _ & _ & Hz).
  pose proof (pos_after_ge l) as Hge. assert (prev && (pos_after l <? SIZEOF_blk_hdr) = false) as ->.
  { apply andb_false_intro2, Z.ltb_ge. lia. }
  destruct (recs_at_hdr _ _ _ _ _ (at_split m recs Ha l (x :: rest) Hr)) as [_ ->]. cbn [mbind res_bind].
  destruct Hleaf as [Hok Hs]. destruct (sorted_step l x Hok Hs l x []) as (Hx & Hxl & _ & Hc2); [done|].
  zcase.
  { destruct prev; [|specialize (Hc eq_refl); lia].
    apply (gvcst_expand_key_spec blk_size level m recs l x rest); [done|done|done|]. unfold key_room. lia. }
  destruct (negb prev && (Z.of_nat (lcp (g_key x) t) =? k_end K + 1)) eqn:Ef.
  - apply andb_prop in Ef as [_ Ef]. apply Z.eqb_eq in Ef. rewrite He in Ef. unfold zlen in Ef.
    assert (Ext : t = g_key x) by (apply gkey_prefix; [done|done|rewrite lcp_comm; lia]).
    cbn [mbind res_bind]. rewrite <- Ext, lcp_same in *. zif_false.
    change 0 with (Z.of_nat 0) at 1 2. rewrite (rd_list_spec (k_base K) (Z.of_nat 0) (length t) t).
    2: done. 2: { rewrite Eb, zlen_app. pose proof (zlen_nonneg sl). unfold zlen. lia. }
    2: { rewrite Eb. change (Z.to_nat (Z.of_nat 0)) with 0%nat. rewrite drop_0. apply take_app_length. }
    cbn [mbind res_bind]. destruct (key_copy_spec exp [] (k_base exp) 0 t eq_refl) as (sl' & E & Hz'); [simpl; lia|unfold zlen in *; lia|].
    rewrite E. cbn [mbind res_bind take app] in *. change (Z.of_nat (length t)) with (zlen t).
    destruct (expand_close_spec exp (mk_gv_key (k_top exp) (k_end exp) (k_prev exp) (t ++ sl')) t sl' Ht eq_refl) as (K' & E' & H'); try done.
    by exists K'.
  - assert (Hne : g_key x <> t).
    { destruct prev; [by apply Hp|]. intros Ext. rewrite Ext, lcp_same, He in Ef. unfold zlen in Ef. by rewrite Z.eqb_refl in Ef. }
    destruct (copy_from (g_key x) t (lcp (last_key [] l) (g_key x)) sl Hx Ht Hne Hc2) as (i & Hi1 & Hi2 & Hi3 & Ei); [lia|].
    rewrite Eb, Ei. cbn [mbind res_bind]. zif_false.
    change 0 with (Z.of_nat 0) at 1 2. rewrite (rd_list_spec (t ++ sl) (Z.of_nat 0) i (take i (g_key x))).
    2: done. 2: { rewrite zlen_app. pose proof (zlen_nonneg sl). pose proof (lcp_le_r (g_key x) t). unfold zlen. lia. }
    2: { change (Z.to_nat (Z.of_nat 0)) with 0%nat. rewrite drop_0, (lcp_take (g_key x) t) by done. apply take_app_le.
         pose proof (lcp_le_r (g_key x) t). lia. }
    cbn [mbind res_bind]. destruct (key_copy_spec exp [] (k_base exp) 0 (take i (g_key x)) eq_refl) as (sl' & E & Hz').
    { simpl; lia. } { unfold zlen in *. rewrite length_take. lia. }
    rewrite E. cbn [mbind res_bind take app] in *.
    destruct (copy_key_spec (length m) m (mk_gv_key (k_top exp) (k_end exp) (k_prev exp) (take i (g_key x) ++ sl')) (g_key x) i
      (pos_after l + SIZEOF_rec_hdr + (Z.of_nat i - Z.of_nat (lcp (last_key [] l) (g_key x)))) (k_top exp - 1) sl' Hx eq_refl Hi2) as (K1 & sl2 & -> & H1 & H2 & H3 & H4).
    + by apply (record_reads m recs l x rest).
    + cbn [k_base]. rewrite Hz'. unfold zlen in *. lia.
    + unfold zlen. lia.
    + destruct (recs_at_suffix _ _ _ _ _ (at_split m recs Ha l (x :: rest) Hr)) as (_ & Hb & _). unfold SIZEOF_rec_hdr, SIZEOF_blk_hdr, zlen in *. lia.
    + cbn [mbind res_bind k_base k_top k_prev] in *.
      destruct (expand_close_spec exp K1 (g_key x) sl2 Hx H1) as (K' & E' & H'); [congruence..|]. by exists K'.
Qed.

(** *** After a search *)

Lemma key_before_target t l x r : split_at t (l ++ [x]) r -> g_key x <> t.
Proof.
  intros [Hl _] E. apply Forall_app in Hl as [_ [[_ Hx] _]%Forall_cons]. rewrite E in Hx. by destruct (gvlt_irrefl t).
Qed.

(** The key of the record before the target. *)
Lemma gvcst_expand_prev_key_spec blk_size level m recs l r K t exp :
  blk_at blk_size level m recs -> recs = l ++ r -> l <> [] -> leaf_ok l -> key_holds K t -> key_room exp 1024 -> split_at t l r ->
  exists K', gvcst_expand_prev_key blk_size m (status_at t l r) K exp = Ok K' /\ key_is exp K' (last_key [] l).
Proof.
  intros Hat Hr Hn Hleaf Hk Hroom Hs. destruct l as [|x l _] using rev_ind; [done|]. rewrite last_key_snoc.
  apply (expand_gen_record true blk_size level m recs l x r K t); try done.
  - by rewrite Hr, <- app_assoc.
  - unfold status_at. cbn [prev_rec]. by rewrite pos_last_snoc, last_key_snoc.
  - intros _. by apply (key_before_target t l x r).
Qed.

(** That of the record where the target is or would be: the search leaves enough
    of it in the target. *)
Lemma gvcst_expand_curr_key_spec blk_size level m recs l x r K t exp :
  blk_at blk_size level m recs -> recs = l ++ x :: r -> leaf_ok (l ++ [x]) -> key_holds K t -> key_room exp 1024 ->
  split_at t l (x :: r) ->
  exists K', gvcst_expand_curr_key blk_size m (status_at t l (x :: r)) K exp = Ok K' /\ key_is exp K' (g_key x).
Proof.
  intros Hat Hr Hleaf Hk Hroom [Hl Hx]. apply (expand_gen_record false blk_size level m recs l x r K t); try done.
  intros _. destruct Hk as (_ & _ & Ht & _). pose proof Hleaf as [Hok Hsort]. pose proof Hok as [Hl' [[Hgx _] _]%Forall_cons]%Forall_app.
  assert (Hb : gvlt (last_key [] l) t) by (apply last_before; [by apply gkey_not_nil|done]).
  assert (Hlx : gvlt (last_key [] l) (g_key x)) by (by apply (sorted_next l x [])).
  destruct (gvlt_cases t (g_key x)) as [H|[<-|H]].
  - rewrite (lcp_sorted (last_key [] l) t (g_key x)) by done. rewrite (lcp_comm (g_key x) t). lia.
  - rewrite lcp_same. apply lcp_le_r.
  - destruct Hx. split; [|done]. by apply gkey_not_nil.
Qed.

(** ** The searches that expand the previous key *)

(** The records [l] have been read, and [s] knows the key of the last; [K0] is
    the key to fill. *)
Definition at_key (m prevKey : list Z) (K0 : gv_key) (l : list grec) (s : prevkey) : Prop :=
  knows_key m prevKey (last_key [] l) s /\
  (exists off, prevKeyUnCmp s = Some (InBlk off) /\ off + zlen (last_key [] l) - prevKeyCmpLen s <= pos_after l) /\
  first_iteration s = false /\
  k_top (altkey s) = k_top K0 /\ k_prev (altkey s) = k_prev K0 /\ zlen (k_base (altkey s)) = zlen (k_base K0).

Lemma at_visit tail m prevKey K0 recs l x rest s :
  recs_at m SIZEOF_blk_hdr [] recs -> leaf_ok recs -> recs = l ++ x :: rest -> key_room K0 1024 ->
  k_top (altkey s) = k_top K0 -> k_prev (altkey s) = k_prev K0 -> zlen (k_base (altkey s)) = zlen (k_base K0) ->
  (l = [] /\ prevKeyCmpLen s = 0) \/
  (knows_key m prevKey (last_key [] l) s /\
   (tail && first_iteration s = true -> Z.of_nat (lcp (last_key [] l) (g_key x)) <= prevKeyCmpLen s + 1)) ->
  exists s', expand_visit tail m prevKey (pos_after l) (Z.of_nat (lcp (last_key [] l) (g_key x))) s = Ok s' /\
    at_key m prevKey K0 (l ++ [x]) s'.
Proof.
  intros Ha Hleaf Hr [Hr1 Hr2] Et Ep Ez Hs. rewrite Hr in Hleaf. destruct (leaf_cons _ _ _ Hleaf) as [Hok Hsort].
  destruct (sorted_step l x Hok Hsort l x []) as (Hx & Hxl & _ & Hc); [done|].
  destruct (visit_spec tail m prevKey (pos_after l) (last_key [] l) x rest s) as (s' & E & Hk & Hf & Et' & Ep' & Ez').
  - by apply (at_split m recs).
  - done.
  - destruct Hs as [[-> ?]|?]; [by left|by right].
  - unfold key_room. rewrite Et, Ez. unfold zlen in *. lia.
  - exists s'. split; [done|]. unfold at_key. rewrite last_key_snoc. split; [done|]. split; [|split; [done|by rewrite Et', Ep', Ez'] ].
    unfold expand_visit in E. apply res_bind_inv in E as (alt & _ & [= <-]). cbn [prevKeyUnCmp prevKeyCmpLen].
    eexists. split; [done|]. rewrite pos_after_snoc. unfold rec_size, rec_body, suffix. rewrite zlen_app.
    pose proof (zlen_nonneg (g_val x)). pose proof (lcp_le_r (last_key [] l) (g_key x)). unfold zlen in *. rewrite length_drop. lia.
Qed.

Lemma at_finish m prevKey K0 recs l r top_prev s :
  leaf_ok recs -> recs = l ++ r -> l <> [] -> key_room K0 1024 -> at_key m prevKey K0 l s ->
  exists K, expand_finish m prevKey (pos_after recs) top_prev s = Ok K /\ key_is K0 K (last_key [] l).
Proof.
  intros [Hok _] Hr Hn Hroom (Hk & (off & Eu & Hoff) & _ & Et & Ep & Ez). rewrite Hr in Hok. apply Forall_app in Hok as [Hok _].
  destruct (last_key_ok l Hok Hn) as [Hx Hxl].
  destruct (expand_finish_spec m prevKey (last_key [] l) (pos_after recs) top_prev s Hx Hk) as (K & E & HK).
  - unfold key_room in *. rewrite Et, Ez. unfold zlen in *. lia.
  - rewrite Eu. rewrite Hr. unfold pos_after in *. rewrite recs_size_app. pose proof (recs_size_nonneg (last_key [] l) r). lia.
  - exists K. split; [done|]. unfold key_is in *. by rewrite <- Et, <- Ep, <- Ez.
Qed.

(** The key of the last of the records [l], or none. *)
Definition prev_is (K0 K : gv_key) (l : list grec) : Prop :=
  if decide (l = []) then k_end K = 0 /\ k_base K = k_base K0 /\ k_top K = k_top K0 /\ k_prev K = k_prev K0
  else key_is K0 K (last_key [] l).

Lemma search_expand_at blk_size m rs K t alt l r :
  blk_ok blk_size 0 m rs -> key_holds K t -> key_room alt 1024 -> rs = l ++ r -> split_at t l r ->
  exists alt', gvcst_search_blk blk_size true m K alt = Ok (status_at t l r, alt') /\ prev_is alt alt' l.
Proof.
  intros Hb Hk Hroom Hr Hs. pose proof Hb as (_ & Hat & Hleaf). change (leaf_ok rs) in Hleaf.
  destruct (blk_at_recs _ _ _ _ Hat) as (Ha & El & _ & _).
  unfold gvcst_search_blk. rewrite El. cbn [mbind res_bind Z.eqb andb].
  unfold gvcst_search_blk_expand_prevkey. rewrite (blk_top_at _ _ _ _ Hat). cbn [mbind res_bind].
  set (s0 := mk_prevkey 0 None false alt).
  destruct (start_spec blk_size 0 m t rs K Hb Hk ltac:(done) (expand_visit false m [])
    (fun l s => if decide (l = []) then s = s0 else at_key m [] alt l s) s0 l r Hr Hs) as (s & E & Hi).
  - by rewrite decide_True.
  - intros l1 x rest s Hr1 Hi. destruct (decide (l1 ++ [x] = [])) as [E|_]; [by destruct l1|].
    apply (at_visit false m [] alt rs l1 x rest s); try done; destruct (decide (l1 = [])) as [->|Hn]; try (by subst s); try apply Hi.
    + left. by subst s.
    + right. split; [apply Hi|done].
  - change (0 =? 0) with true in E. rewrite E. cbn [mbind res_bind]. specialize (Hi eq_refl). unfold prev_is.
    destruct (decide (l = [])) as [->|Hn].
    + subst s. by eexists.
    + destruct (at_finish m [] alt rs l r 0 s Hleaf Hr Hn Hroom Hi) as (K' & -> & HK). by exists K'.
Qed.

(** *** From where the search of a smaller key ended *)

(** What the search knows of the key before the old one. *)
Definition prev_known (pk : option gv_key) (k : list Z) : Prop :=
  match pk with
  | Some p => k_end p = PREV_KEY_NOT_COMPUTED \/ (k_end p + 1 = zlen k /\ exists slack, k_base p = k ++ slack)
  | None => True
  end.

Lemma knows_prev m k alt sl prevKey slack : gkey_ok k -> prevKey = k ++ slack -> k_base alt = take (length k - 2) k ++ sl ->
  knows_key m prevKey k (mk_prevkey (zlen k - 2) (Some (InPrev (zlen k - 2))) true alt).
Proof.
  intros Hk -> Eb. pose proof (gkey_length k Hk). exists (length k - 2)%nat, (InPrev (zlen k - 2)).
  cbn [prevKeyCmpLen prevKeyUnCmp altkey src_of]. unfold zlen. split; [lia|]. split; [done|]. split; [lia|]. split; [by exists sl|].
  rewrite length_app. split; [lia|]. split; [lia|]. replace (Z.to_nat (Z.of_nat (length k) - 2)) with (length k - 2)%nat by lia.
  rewrite drop_app_le by lia. rewrite take_app_le by (rewrite length_drop; lia). apply take_ge. rewrite length_drop. lia.
Qed.

Section tail_expand.
Context (blk_size : Z) (m t t0 k : list Z) (rs l r : list grec) (K K0 : gv_key).
Hypothesis Hblk : blk_ok blk_size 0 m rs.
Hypothesis HK : key_holds K t.
Hypothesis HK0 : key_holds K0 t0.
Hypothesis Hlt : gvlt t0 t.
Hypothesis Hr : rs = l ++ r.
Hypothesis Hs : split_at t0 l r.
Hypothesis Hn : l <> [].

Lemma prev_leaf : leaf_ok l /\ gkey_ok (last_key [] l) /\ (length (last_key [] l) <= 1023)%nat.
Proof.
  destruct Hblk as (_ & _ & Hleaf). change (leaf_ok rs) in Hleaf. rewrite Hr in Hleaf. apply leaf_prefix in Hleaf as Hl.
  split; [done|]. by apply last_key_ok; [apply Hl|].
Qed.

(** The key before the old one, computed or remembered, and a copy of it in [alt]. *)
Lemma prev_key_spec pk alt : prev_known pk (last_key [] l) -> key_room alt 1024 ->
  exists P alt', (match pk with
    | Some prevKey =>
        if k_end prevKey =? PREV_KEY_NOT_COMPUTED then
          alt ← gvcst_expand_prev_key blk_size m (status_at t0 l r) K0 alt; Ok (alt, alt)
        else
          b ← rd_list (k_base prevKey) 0 (k_end prevKey - 1);
          alt ← key_copy alt 0 b; Ok (prevKey, alt)
    | None => alt ← gvcst_expand_prev_key blk_size m (status_at t0 l r) K0 alt; Ok (alt, alt)
    end) = Ok (P, alt') /\ k_end P + 1 = zlen (last_key [] l) /\ (exists slack, k_base P = last_key [] l ++ slack) /\
    (exists slack, k_base alt' = take (length (last_key [] l) - 2) (last_key [] l) ++ slack) /\
    k_top alt' = k_top alt /\ k_prev alt' = k_prev alt /\ zlen (k_base alt') = zlen (k_base alt).
Proof.
  intros Hpk Hroom. destruct prev_leaf as (Hleaf & Hk & Hkl). destruct Hblk as (_ & Hat & _).
  destruct (gvcst_expand_prev_key_spec blk_size 0 m rs l r K0 t0 alt) as (A & EA & HA1 & [sl HA2] & HA3 & HA4 & HA5); try done.
  assert (Hnone : exists P alt', (a ← gvcst_expand_prev_key blk_size m (status_at t0 l r) K0 alt; Ok (a, a)) = Ok (P, alt') /\
    k_end P + 1 = zlen (last_key [] l) /\ (exists slack, k_base P = last_key [] l ++ slack) /\
    (exists slack, k_base alt' = take (length (last_key [] l) - 2) (last_key [] l) ++ slack) /\
    k_top alt' = k_top alt /\ k_prev alt' = k_prev alt /\ zlen (k_base alt') = zlen (k_base alt)).
  { rewrite EA. cbn [mbind res_bind]. exists A, A. split; [done|]. split; [done|]. split; [by exists sl|]. split; [|done].
    exists (drop (length (last_key [] l) - 2) (last_key [] l) ++ sl). by rewrite HA2, app_assoc, take_drop. }
  destruct pk as [p|]; [|done]. destruct (Z.eqb_spec (k_end p) PREV_KEY_NOT_COMPUTED) as [|Hne]; [done|]. clear Hnone.
  destruct Hpk as [?|[He [sl' Eb]]]; [done|]. pose proof (gkey_length _ Hk). destruct Hroom as [Hr1 Hr2].
  replace (k_end p - 1) with (Z.of_nat (length (last_key [] l) - 2)) by (unfold zlen in *; lia). change 0 with (Z.of_nat 0) at 1 2.
  rewrite (rd_list_spec (k_base p) (Z.of_nat 0) _ (take (length (last_key [] l) - 2) (last_key [] l))).
  2: done. 2: { rewrite Eb, zlen_app. pose proof (zlen_nonneg sl'). unfold zlen in *. lia. }
  2: { rewrite Eb. change (Z.to_nat (Z.of_nat 0)) with 0%nat. rewrite drop_0. apply take_app_le. lia. }
  cbn [mbind res_bind].
  destruct (key_copy_spec alt [] (k_base alt) 0 (take (length (last_key [] l) - 2) (last_key [] l)) eq_refl) as (sl2 & E & Hz).
  { simpl; lia. } { unfold zlen in *. rewrite length_take. lia. }
  rewrite E. cbn [mbind res_bind take app] in *. eexists p, _. split; [done|]. split; [done|]. split; [by exists sl'|]. split; [by exists sl2|done].
Qed.

Lemma tail_expand_at base_diff pk alt l' r' : rs = l' ++ r' -> split_at t l' r' ->
  prev_known pk (last_key [] l) -> key_room alt 1024 -> zlen (last_key [] l) <= base_diff + pos_after rs ->
  exists alt', gvcst_search_tail_expand_prevkey blk_size base_diff m K (status_at t0 l r) K0 pk alt = Ok (status_at t l' r', alt') /\
    key_is alt alt' (last_key [] l').
Proof.
  intros Hr' Hs' Hpk Hroom Hd. destruct prev_leaf as (Hleaf & Hk & Hkl). destruct Hblk as (_ & Hat & Hrs). change (leaf_ok rs) in Hrs.
  destruct (blk_at_recs _ _ _ _ Hat) as (Ha & _ & _ & Hz).
  unfold gvcst_search_tail_expand_prevkey. rewrite (blk_top_at _ _ _ _ Hat). cbn [mbind res_bind].
  destruct (prev_key_spec pk alt Hpk Hroom) as (P & alt1 & -> & HP & [slP EP] & [sl1 E1] & Et & Ep & Ez). cbn [mbind res_bind].
  replace (k_end P - 1) with (zlen (last_key [] l) - 2) by lia.
  set (s0 := mk_prevkey _ _ true alt1).
  destruct (split_extend t0 t l r Hlt Hs) as (kk & r2 & Er & Hs2).
  destruct (split_unique t l' r' (l ++ kk) r2) as [-> ->]; [by rewrite <- Hr', Hr, Er, app_assoc|done|done|].
  assert (Hk0 : knows_key m (k_base P) (last_key [] l) s0) by (by apply (knows_prev m _ alt1 sl1 (k_base P) slP)).
  destruct (tail_gen_spec (expand_visit true m (k_base P))
    (fun l1 s => (l1 = l /\ s = s0) \/ (l1 <> [] /\ at_key m (k_base P) alt l1 s)) m t t0 rs K K0 HK HK0 Hlt Ha) with
    (l := l) (r := r) (k := kk) (r' := r2) (acc := s0) as (s & -> & Hi & He); try done.
  - unfold pos_after. lia.
  - intros l1 x rest s Hr1 Hi.
    destruct (at_visit true m (k_base P) alt rs l1 x rest s) as (s' & E & Hs1); try done.
    + by destruct Hi as [[_ ->]|[_ (_ & _ & _ & ? & ? & ?)]].
    + by destruct Hi as [[_ ->]|[_ (_ & _ & _ & ? & ? & ?)]].
    + by destruct Hi as [[_ ->]|[_ (_ & _ & _ & ? & ? & ?)]].
    + right. destruct Hi as [[-> ->]|[_ (Hk1 & _ & Hf & _)]]; [|split; [done|]; by rewrite Hf].
      split; [done|]. intros _. subst s0. cbn [prevKeyCmpLen]. rewrite Hr1 in Hrs.
      pose proof Hrs as [Hok Hsort]. pose proof Hok as [_ [[Hx _] _]%Forall_cons]%Forall_app.
      pose proof (sorted_next l x rest (proj1 Hleaf) Hx Hsort) as Hlx.
      pose proof (gkey_lcp (last_key [] l) (g_key x) Hk Hx) as Hc. unfold zlen.
      assert (lcp (last_key [] l) (g_key x) < length (last_key [] l))%nat; [|lia].
      apply Hc. intros E. rewrite E in Hlx. by destruct (gvlt_irrefl (g_key x)).
    + exists s'. split; [done|]. right. split; [by destruct l1|done].
  - by left.
  - cbn [mbind res_bind].
    assert (Hdone : exists A, expand_finish m (k_base P) (pos_after rs) (if bool_decide (r = []) then k_end P + 1 else base_diff + pos_after rs) s = Ok A /\
      key_is alt A (last_key [] (l ++ kk))); [|destruct Hdone as (A & -> & HA); by exists A].
    destruct Hi as [[El ->]|[Hnn Hi]].
    + rewrite El. destruct (expand_finish_spec m (k_base P) (last_key [] l) (pos_after rs)
        (if bool_decide (r = []) then k_end P + 1 else base_diff + pos_after rs) s0 Hk Hk0) as (A & EA & HA).
      * unfold key_room in *. subst s0. cbn [altkey]. rewrite Et, Ez. unfold zlen in *. lia.
      * subst s0. cbn [prevKeyUnCmp prevKeyCmpLen]. case_bool_decide; lia.
      * exists A. split; [done|]. unfold key_is in *. subst s0. cbn [altkey] in HA. by rewrite <- Et, <- Ep, <- Ez.
    + by apply (at_finish m (k_base P) alt rs (l ++ kk) r2).
Qed.
End tail_expand.

(** ** The theorems *)

(** A tail search with the previous key gives the same place and the same
    previous key as one from the start. *)
Lemma search_tail_prev blk_size m rs K K0 t t0 l r base_diff pk alt :
  blk_ok blk_size 0 m rs -> key_holds K t -> key_holds K0 t0 -> gvlt t0 t -> rs = l ++ r -> split_at t0 l r ->
  (l <> [] -> prev_known pk (last_key [] l)) -> key_room alt 1024 -> zlen (last_key [] l) <= base_diff + pos_after rs ->
  exists l' r' alt', rs = l' ++ r' /\ split_at t l' r' /\
    gvcst_search_tail blk_size true base_diff m K (status_at t0 l r) K0 pk alt = Ok (status_at t l' r', alt') /\ prev_is alt alt' l'.
Proof.
  intros Hb Hk Hk0 Hlt Hr Hs Hpk Hroom Hd. destruct (split_exists t rs) as (l' & r' & Hr' & Hs').
  unfold gvcst_search_tail. change (sr_offset (prev_rec (status_at t0 l r))) with (pos_last l).
  destruct (decide (l = [])) as [->|Hn].
  - change (pos_last [] =? 0) with true. cbv iota.
    destruct (search_expand_at blk_size m rs K t alt l' r' Hb Hk Hroom Hr' Hs') as (alt' & E & Hp). by exists l', r', alt'.
  - assert ((pos_last l =? 0) = false) as ->.
    { apply Z.eqb_neq. destruct l as [|x l0 _] using rev_ind; [done|]. rewrite pos_last_snoc. pose proof (pos_after_ge l0). unfold SIZEOF_blk_hdr in *. lia. }
    destruct (tail_expand_at blk_size m t t0 rs l r K K0 Hb Hk Hk0 Hlt Hr Hs Hn base_diff pk alt l' r' Hr' Hs' (Hpk Hn) Hroom Hd) as (alt' & E & HK).
    exists l', r', alt'. split; [done|]. split; [done|]. split; [done|]. unfold prev_is.
    destruct (split_extend t0 t l r Hlt Hs) as (kk & r2 & Er & Hs2).
    destruct (split_unique t l' r' (l ++ kk) r2) as [-> _]; [by rewrite <- Hr', Hr, Er, app_assoc|done|done|].
    rewrite decide_False; [done|]. by destruct l.
Qed.

(** * The properties of the component *)

(** C16: gvcst_search_blk finds, in a well-formed block, the first record whose key
    is not before the target, with the lengths of the shared prefixes of the
    target with that record and the one before; gvcst_search_blk_expand_prevkey
    also leaves the whole key of the record before in gv_altkey, put together
    from the compressed records. *)
Theorem gvcst_search_blk_finds blk_size level m rs K t alt expand :
  blk_ok blk_size level m rs -> key_holds K t -> (level <> 0 -> pos_after rs + zlen t <= zlen m) ->
  (expand = true -> level = 0 /\ key_room alt 1024) ->
  exists l r alt', rs = l ++ r /\ split_at t l r /\ gvcst_search_blk blk_size expand m K alt = Ok (status_at t l r, alt') /\
    if expand then prev_is alt alt' l else alt' = alt.
Proof.
  intros Hb Hk Hr He. destruct (split_exists t rs) as (l & r & E & Hs). destruct expand.
  - destruct He as [-> Hroom]; [done|]. destruct (search_expand_at blk_size m rs K t alt l r Hb Hk Hroom E Hs) as (alt' & Ea & Hp). by exists l, r, alt'.
  - exists l, r, alt. split; [done|]. split; [done|]. split; [|done]. by apply (search_blk_at blk_size level m t rs).
Qed.

Lemma gvcst_search_blk_finds_witness :
  exists l r alt', ex_recs1 = l ++ r /\ split_at [97; 0; 191; 17; 0; 191; 33; 0; 0] l r /\
    gvcst_search_blk 4096 true (encode_blk 0 ex_recs1 ++ []) (ex_key [97; 0; 191; 17; 0; 191; 33; 0; 0] 5) (ex_key [0] 0) =
      Ok (status_at [97; 0; 191; 17; 0; 191; 33; 0; 0] l r, alt') /\ prev_is (ex_key [0] 0) alt' l.
Proof.
  exact (gvcst_search_blk_finds 4096 0 _ ex_recs1 _ [97; 0; 191; 17; 0; 191; 33; 0; 0] (ex_key [0] 0) true (ex_blk 0 ex_recs1 [] ltac:(lia) eq_refl eq_refl eq_refl)
    (ex_holds [97; 0; 191; 17; 0; 191; 33; 0; 0] 5 eq_refl eq_refl) ltac:(done) (fun _ => conj eq_refl (ex_room _ _))).
Defined.

(** C10: gvcst_search_tail, which goes on from the place where the search for a
    smaller key ended, finds the same place as gvcst_search_blk from the start
    of the block, and the same previous key when that is asked for, whether the
    previous key of the smaller one is known or has to be read from the block.
    When the previous key is asked for, the end of the block has an address
    ([base_diff] away from the buffer of the previous key) not below that of the
    end of the previous key's bytes: the code compares the two, though they are
    in different buffers, and ends with cdb_sc_blkmod when it is. *)
Theorem gvcst_search_tail_is_search blk_size m rs K K0 t t0 l r base_diff pk alt expand :
  blk_ok blk_size 0 m rs -> key_holds K t -> key_holds K0 t0 -> gvlt t0 t -> rs = l ++ r -> split_at t0 l r ->
  (expand = true -> (l <> [] -> prev_known pk (last_key [] l)) /\ key_room alt 1024 /\ zlen (last_key [] l) <= base_diff + pos_after rs) ->
  exists st l' alt1 alt2, gvcst_search_blk blk_size expand m K alt = Ok (st, alt1) /\
    gvcst_search_tail blk_size expand base_diff m K (status_at t0 l r) K0 pk alt = Ok (st, alt2) /\
    if expand then prev_is alt alt1 l' /\ prev_is alt alt2 l' else alt1 = alt /\ alt2 = alt.
Proof.
  intros Hb Hk Hk0 Hlt Hr Hs He. destruct expand.
  - destruct He as (Hpk & Hroom & Hd); [done|].
    destruct (search_tail_prev blk_size m rs K K0 t t0 l r base_diff pk alt Hb Hk Hk0 Hlt Hr Hs Hpk Hroom Hd) as (l' & r' & alt2 & E & Hs' & -> & H2).
    destruct (search_expand_at blk_size m rs K t alt l' r' Hb Hk Hroom E Hs') as (alt1 & -> & H1). by exists (status_at t l' r'), l', alt1, alt2.
  - destruct (split_exists t rs) as (l' & r' & E & Hs'). exists (status_at t l' r'), l', alt, alt.
    rewrite (search_tail_same blk_size m rs K K0 t t0 l r base_diff pk alt Hb Hk Hk0 Hlt Hr Hs).
    by rewrite (search_blk_at blk_size 0 m t rs K Hb Hk ltac:(done) alt l' r' E Hs').
Qed.

Lemma ex_tail_split : split_at [97; 0; 191; 17; 0; 191; 33; 0; 0] (take 1 ex_recs1) (drop 1 ex_recs1).
Proof. split; [constructor; [split; [done|reflexivity]|constructor]|intros [_ H]; by destruct (gvlt_irrefl [97; 0; 191; 17; 0; 191; 33; 0; 0])]. Qed.

(** From the second record on, the key of the first one known, and not known. *)
Lemma gvcst_search_tail_is_search_witness :
  (exists st l' alt1 alt2,
    gvcst_search_blk 4096 true (encode_blk 0 ex_recs1 ++ []) (ex_key [97; 0; 191; 33; 0; 0] 2) (ex_key [0] 0) = Ok (st, alt1) /\
    gvcst_search_tail 4096 true 2000 (encode_blk 0 ex_recs1 ++ []) (ex_key [97; 0; 191; 33; 0; 0] 2)
      (status_at [97; 0; 191; 17; 0; 191; 33; 0; 0] (take 1 ex_recs1) (drop 1 ex_recs1)) (ex_key [97; 0; 191; 17; 0; 191; 33; 0; 0] 5)
      (Some (ex_key [97; 0; 191; 17; 0; 0] 2)) (ex_key [0] 0) = Ok (st, alt2) /\
    prev_is (ex_key [0] 0) alt1 l' /\ prev_is (ex_key [0] 0) alt2 l') /\
  (exists st l' alt1 alt2,
    gvcst_search_blk 4096 true (encode_blk 0 ex_recs1 ++ []) (ex_key [97; 0; 191; 33; 0; 0] 2) (ex_key [0] 0) = Ok (st, alt1) /\
    gvcst_search_tail 4096 true 2000 (encode_blk 0 ex_recs1 ++ []) (ex_key [97; 0; 191; 33; 0; 0] 2)
      (status_at [97; 0; 191; 17; 0; 191; 33; 0; 0] (take 1 ex_recs1) (drop 1 ex_recs1)) (ex_key [97; 0; 191; 17; 0; 191; 33; 0; 0] 5)
      None (ex_key [0] 0) = Ok (st, alt2) /\
    prev_is (ex_key [0] 0) alt1 l' /\ prev_is (ex_key [0] 0) alt2 l').
Proof.
  split.
  - refine (gvcst_search_tail_is_search 4096 _ ex_recs1 _ _ [97; 0; 191; 33; 0; 0] [97; 0; 191; 17; 0; 191; 33; 0; 0] (take 1 ex_recs1) (drop 1 ex_recs1) 2000
      (Some (ex_key [97; 0; 191; 17; 0; 0] 2)) (ex_key [0] 0) true
      (ex_blk 0 ex_recs1 [] ltac:(lia) eq_refl eq_refl eq_refl) (ex_holds [97; 0; 191; 33; 0; 0] 2 eq_refl eq_refl)
      (ex_holds [97; 0; 191; 17; 0; 191; 33; 0; 0] 5 eq_refl eq_refl) eq_refl eq_refl ex_tail_split _).
    intros _. split; [|split; [apply ex_room|by_compute] ]. intros _. right. split; [done|by eexists].
  - refine (gvcst_search_tail_is_search 4096 _ ex_recs1 _ _ [97; 0; 191; 33; 0; 0] [97; 0; 191; 17; 0; 191; 33; 0; 0] (take 1 ex_recs1) (drop 1 ex_recs1) 2000
      None (ex_key [0] 0) true
      (ex_blk 0 ex_recs1 [] ltac:(lia) eq_refl eq_refl eq_refl) (ex_holds [97; 0; 191; 33; 0; 0] 2 eq_refl eq_refl)
      (ex_holds [97; 0; 191; 17; 0; 191; 33; 0; 0] 5 eq_refl eq_refl) eq_refl eq_refl ex_tail_split _).
    intros _. split; [|split; [apply ex_room|by_compute] ]. intros _. done.
Defined.
