(* ===== verification/Blkfuel.v ===== *)
(** The search of a block ends whatever bytes the block holds: another process may
    change a block while it is read, and the search then gives a place or a status
    that makes the caller start again, but does not loop. *)

From stdpp Require Import base list numbers option tactics.
From Stdlib Require Import ZArith Lia.
From S2P Require Import Prelude Subscript Gvsub Gvkey Gdsblk Blkexpand Gvexample Blksearch Blktail.

Open Scope Z_scope.

Definition ends {A} (x : res A) : Prop := x <> Err OUT_OF_FUEL.

Lemma ends_bind {A B} (x : res A) (f : A -> res B) : ends x -> (forall a, x = Ok a -> ends (f a)) -> ends (x ≫= f).
Proof. unfold ends. destruct x as [a|e]; cbn [mbind res_bind]; intros Hx Hf; [by apply Hf|congruence]. Qed.

Lemma ends_ok {A} (a : A) : ends (Ok a).
Proof. done. Qed.

Lemma ends_of {A} (x : option A) : ends (res_of x).
Proof. by destruct x. Qed.

Lemma ends_rd8 m i : ends (rd8 m i).
Proof. apply ends_of. Qed.

Lemma ends_ushort m i : ends (GET_USHORT m i).
Proof. unfold GET_USHORT. repeat (apply ends_bind; [apply ends_rd8|intros]). done. Qed.

Lemma ends_cmpc m i : ends (EVAL_CMPC m i).
Proof. unfold EVAL_CMPC. repeat (apply ends_bind; [apply ends_rd8|intros]). done. Qed.

Lemma ends_bsiz m : ends (bsiz m).
Proof. unfold bsiz, rd32. repeat (apply ends_bind; [apply ends_ushort|intros]). done. Qed.

Lemma ends_top n m : ends (blk_top n m).
Proof. unfold blk_top. apply ends_bind; [apply ends_bsiz|done]. Qed.

Lemma rd8_range m i x : rd8 m i = Ok x -> 0 <= i < zlen m.
Proof. unfold rd8. destruct (rd m i) eqn:E; [|done]. intros _. by eapply rd_Some_range. Qed.

Lemma rd8_byte m i x : bytes_ok m -> rd8 m i = Ok x -> 0 <= x.
Proof.
  unfold rd8, rd. intros Hm. zcase; [done|]. destruct (m !! Z.to_nat i) as [y|] eqn:E; [|done]. intros [= <-].
  pose proof (Forall_lookup_1 _ _ _ _ Hm E) as Hy. unfold byte_ok in Hy. lia.
Qed.

Lemma ushort_range m i x : bytes_ok m -> GET_USHORT m i = Ok x -> 0 <= i < zlen m /\ 0 <= x.
Proof.
  unfold GET_USHORT. intros Hm (a & Ea & (b & Eb & [= <-])%res_bind_inv)%res_bind_inv.
  split; [by eapply rd8_range|]. pose proof (rd8_byte _ _ _ Hm Ea). pose proof (rd8_byte _ _ _ Hm Eb). lia.
Qed.

(** The comparison keeps the place of the end of the target. *)
Lemma cmp_targ_ends fuel m key p i n : 0 < n <= Z.of_nat fuel -> ends (cmp_targ fuel m key p i n) /\
  forall r, cmp_targ fuel m key p i n = Ok r -> let '(f, i', n') := r in i' + n' = i + n /\ (0 < f -> 0 < n').
Proof.
  revert p i n. induction fuel as [|fuel IH]; intros p i n Hn; [lia|]. cbn [cmp_targ].
  pose proof (ends_rd8 key i) as H1. destruct (rd8 key i) as [a|]; cbn [mbind res_bind]; [|split; [intros [= ->]; by apply H1|by intros] ].
  pose proof (ends_rd8 m p) as H2. destruct (rd8 m p) as [b|]; cbn [mbind res_bind]; [|split; [intros [= ->]; by apply H2|by intros] ].
  destruct (Z.eqb_spec (a - b) 0); cbn [negb].
  - destruct (Z.eqb_spec (n - 1) 0).
    + split; [done|]. intros r [= <-]. lia.
    + destruct (IH (p + 1) (i + 1) (n - 1)) as [He Hr]; [lia|]. split; [done|]. intros [[f i'] n'] E. specialize (Hr _ E). simpl in Hr. lia.
  - split; [done|]. intros r [= <-]. lia.
Qed.

Lemma cmp_targ_ge fuel m key p i n r : cmp_targ fuel m key p i n = Ok r -> i <= (let '(_, i', _) := r in i').
Proof.
  revert p i n. induction fuel as [|fuel IH]; intros p i n; [done|]. cbn [cmp_targ].
  intros (a & _ & (b & _ & H)%res_bind_inv)%res_bind_inv. revert H. destruct (negb _); [by intros [= <-]|].
  destruct (n - 1 =? 0); [intros [= <-]; lia|]. intros H%IH. destruct r as [[f i'] n']. lia.
Qed.

Section ends.
Context {A : Type} (visit : Z -> Z -> A -> res A) (m key : list Z) (level0 : bool) (pTop end_ : Z).
Hypothesis Hm : bytes_ok m.
Hypothesis Hend : 0 <= end_ /\ end_ + 1 <= zlen key.
Hypothesis Hvisit : forall a b s, ends (visit a b s).

Lemma search_loop_ends fuel acc pPrevRec pRecBase nRecLen nTmp mc pc n :
  (0 < fuel)%nat -> zlen m - (pRecBase + nRecLen) < Z.of_nat fuel -> 0 < n -> 0 <= pc -> pc + n = end_ + 1 ->
  ends (search_loop visit m key level0 pTop fuel false acc pPrevRec pRecBase nRecLen nTmp mc pc n).
Proof.
  revert acc pPrevRec pRecBase nRecLen nTmp mc pc n. induction fuel as [|fuel IH]; intros acc pPrevRec pRecBase nRecLen nTmp mc pc n Hf Hz Hn Hp He; [lia|].
  cbn [search_loop]. apply ends_bind; [destruct (negb _); [apply Hvisit|done]|]. intros acc' _.
  destruct (pTop <=? pRecBase + nRecLen).
  { destruct (pTop <? pRecBase + nRecLen); [done|]. destruct level0; cbn [negb]; [done|]. by destruct (pRecBase =? 0). }
  apply ends_bind; [apply ends_ushort|]. intros len Elen. destruct (ushort_range _ _ _ Hm Elen) as [Hr Hl].
  destruct (Z.eqb_spec len 0); [done|].
  apply ends_bind; [apply ends_cmpc|]. intros c _.
  assert (Hnext : forall acc mc pc n, 0 < n -> 0 <= pc -> pc + n = end_ + 1 ->
    ends (search_loop visit m key level0 pTop fuel false acc pRecBase (pRecBase + nRecLen) len c mc pc n)).
  { intros. apply IH; try done; lia. }
  destruct (mc <? c); [by apply Hnext|]. destruct (c <? mc); [done|].
  destruct (cmp_targ_ends (length key) m key (pRecBase + nRecLen + SIZEOF_rec_hdr) pc n) as [Hc Hc']; [unfold zlen in *; lia|].
  apply ends_bind; [done|]. intros [[f i'] n'] E. pose proof (cmp_targ_ge _ _ _ _ _ _ _ E) as Hi'. specialize (Hc' _ E). cbn beta iota in Hc', Hi'.
  destruct (Z.ltb_spec 0 f); [|done]. apply Hnext; lia.
Qed.
End ends.

(** ** The expansion of the previous key *)

Lemma ends_rd_list m i n : ends (rd_list m i n).
Proof. unfold rd_list. by destruct (_ && _ && _). Qed.

Lemma ends_key_copy k i l : ends (key_copy k i l).
Proof. unfold key_copy. apply ends_bind; [apply ends_of|done]. Qed.

Lemma ends_visit tail m prevKey a b s : ends (expand_visit tail m prevKey a b s).
Proof.
  unfold expand_visit. apply ends_bind; [|done]. destruct (prevKeyCmpLen s <? b); [|done].
  destruct (prevKeyUnCmp s) as [src|]; [|done]. destruct (_ || _); [done|]. destruct (src_of m prevKey src) as [buf off].
  apply ends_bind; [apply ends_rd_list|intros]. apply ends_key_copy.
Qed.

Lemma ends_scan fuel buf p top : zlen buf - p <= Z.of_nat fuel -> (0 < fuel)%nat -> ends (scan_key fuel buf p top).
Proof.
  revert p. induction fuel as [|fuel IH]; intros p Hf Hp; [lia|]. cbn [scan_key]. destruct (top <=? p); [done|].
  apply ends_bind; [apply ends_rd8|]. intros a _. apply ends_bind; [apply ends_rd8|]. intros b Hb%rd8_range.
  destruct (_ && _); [done|]. apply IH; lia.
Qed.

Lemma ends_finish m prevKey t1 t2 s : ends (expand_finish m prevKey t1 t2 s).
Proof.
  unfold expand_finish. destruct (prevKeyUnCmp s) as [src|]; [|done]. destruct (src_of m prevKey src) as [buf off].
  apply ends_bind; [|intros p _].
  - destruct (Z.ltb_spec off 0) as [Hn|]; [|apply ends_scan; unfold zlen; lia]. cbn [scan_key]. destruct (_ <=? off); [done|].
    unfold rd8, rd. by zif_true.
  - destruct (k_top _ <? _); [done|]. apply ends_bind; [apply ends_rd_list|]. intros l _.
    apply ends_bind; [apply ends_key_copy|done].
Qed.

(** ** The searches *)

(** C20: gvcst_search_blk ends on any bytes whatever, with a place or an error,
    corrupt records included: its loop refuses a record length of zero, so
    that it can always go on. *)
Theorem gvcst_search_blk_ends blk_size expand m K alt :
  bytes_ok m -> 0 <= k_end K -> k_end K + 1 <= zlen (k_base K) -> gvcst_search_blk blk_size expand m K alt <> Err OUT_OF_FUEL.
Proof.
  intros Hm H0 H1. change (ends (gvcst_search_blk blk_size expand m K alt)).
  assert (Hs : forall A (visit : Z -> Z -> A -> res A) lv pTop acc, (forall a b s, ends (visit a b s)) ->
    ends (search_from_start visit m (k_base K) lv pTop (k_end K) acc)).
  { intros A visit lv pTop acc Hv. unfold search_from_start.
    apply (search_loop_ends visit m (k_base K) lv pTop (k_end K) Hm (conj H0 H1) Hv); unfold zlen, SIZEOF_blk_hdr; lia. }
  unfold gvcst_search_blk. apply ends_bind; [apply ends_rd8|]. intros lv _.
  destruct ((lv =? 0) && expand).
  - unfold gvcst_search_blk_expand_prevkey. apply ends_bind; [apply ends_top|]. intros top _.
    apply ends_bind; [apply Hs; intros; apply ends_visit|]. intros [s st] _. apply ends_bind; [apply ends_finish|done].
  - apply ends_bind; [apply ends_top|]. intros top _. apply ends_bind; [apply Hs; done|]. by intros [[] st] _.
Qed.

Lemma gvcst_search_blk_ends_witness :
  gvcst_search_blk 4096 true [0; 0; 9; 0; 1; 2; 255] (ex_key [97; 0; 0] 0) (ex_key [0] 0) <> Err OUT_OF_FUEL.
Proof.
  exact (gvcst_search_blk_ends 4096 true [0; 0; 9; 0; 1; 2; 255] (ex_key [97; 0; 0] 0) (ex_key [0] 0)
    ltac:(repeat constructor; by_compute) ltac:(by_compute) ltac:(by_compute)).
Defined.
