(* ===== verification/Gvtree.v ===== *)
(** The tree of a global (gvcst_search.c, gvcst_rtsib.c, gvcst_lftsib.c): the
    search for a key from the root block down to a data block, or, with the clue
    that the search before left, in the data block where that one ended; and
    the ways to the neighbours of a data block.

    A read of a block is [t_qread]; a search runs on blocks that do not change
    meanwhile (what t_end validates), outside of a transaction.  A status other than
    cdb_sc_normal, on which the caller retries, is an error. *)

From stdpp Require Import base list numbers option tactics.
From Stdlib Require Import ZArith Lia.
From S2P Require Import Prelude Subscript Gvsub Gvkey Gdsblk Blkexpand Blksearch Blktail.

Open Scope Z_scope.

Definition MAX_BT_DEPTH : Z := 7.
Definition PREV_REC_UNINITIALIZED : Z := 65535.

(** An entry of a history: the block, its buffer, and where the search in it ended. *)
Record srch_blk_status := mk_bh { blk_num : Z; buffaddr : list Z; bh_stat : srch_status }.

(** TREF(expand_prev_key). *)
Inductive expand_flag := EXPAND_PREV_KEY_FALSE | EXPAND_PREV_KEY_TRUE | ZPREVIOUS_NULL_SUBS_LEVEL1.

Definition expands (e : expand_flag) : bool := match e with EXPAND_PREV_KEY_FALSE => false | _ => true end.
Definition skips_index (e : expand_flag) : bool := match e with ZPREVIOUS_NULL_SUBS_LEVEL1 => true | _ => false end.

(** The fields of gv_target that a search keeps; [hist] goes from the data block
    to the root. *)
Record gv_namehead := mk_gvt {
  root : Z; clue : gv_key; first_rec : gv_key; last_rec : gv_key; prev_key : option gv_key; hist : list srch_blk_status
}.

Definition CHKRECLEN (m : list Z) (r n : Z) : res bool := b ← bsiz m; Ok (n + r <=? b).

(** [false]: cdb_sc_rmisalign. *)
Definition check_reclen (m : list Z) (r n : Z) : res unit :=
  ok ← CHKRECLEN m r n; if ok : bool then Ok tt else Err (CDB_SC cdb_sc_rmisalign).

Definition memcmp_n (a b : list Z) (n : Z) : res comparison := x ← rd_list a 0 n; y ← rd_list b 0 n; Ok (lexcmp x y).

(** * The neighbouring keys of the clue *)

(** Copies a key up to its two null bytes, at most [n] bytes of it; [None] when
    they are not found. *)
Fixpoint copy_dnull (n : nat) (src : list Z) (i : Z) (dst : list Z) (j : Z) : res (option (list Z)) :=
  match n with
  | O => Ok None
  | S n' =>
      x ← rd8 src i;
      dst ← res_of (wr_list dst j [x]);
      y ← (if x =? 0 then rd8 src (i + 1) else Ok 1);
      if (x =? 0) && (y =? 0) then
        if (n' =? 0)%nat then Ok None
        else dst ← res_of (wr_list dst (j + 1) [y]); Ok (Some dst)
      else copy_dnull n' src (i + 1) dst (j + 1)
  end.

(** [top - from] bytes of room. *)
Definition copy_rec_key (n0 top from : Z) (src : list Z) (i : Z) (dst : list Z) : res (list Z) :=
  let '(n, status) := if top - from <? n0 then (top - from, cdb_sc_keyoflow) else (n0, cdb_sc_rmisalign) in
  r ← copy_dnull (Z.to_nat n) src i dst from;
  match r with Some dst => Ok dst | None => Err (CDB_SC status) end.

Definition with_base (k : gv_key) (b : list Z) : gv_key := mk_gv_key (k_top k) (k_end k) (k_prev k) b.

(** A key that no key of a global reaches. *)
Definition set_maxkey (k : gv_key) : res gv_key := b ← res_of (wr_list (k_base k) 0 [255; 255]); Ok (with_base k b).

Definition GVT_CLUE_INVALIDATE_FIRST_REC : gv_key -> res gv_key := set_maxkey.

Definition set_first_rec (leaf : srch_blk_status) (nKeyLen : Z) (first : gv_key) : res gv_key :=
  let cr := curr_rec (bh_stat leaf) in
  if (SIZEOF_blk_hdr <? sr_offset cr) || (nKeyLen <=? sr_match cr) then
    n0 ← rsiz (buffaddr leaf) SIZEOF_blk_hdr;
    _ ← check_reclen (buffaddr leaf) SIZEOF_blk_hdr n0;
    b ← copy_rec_key n0 (k_top first) 0 (buffaddr leaf) (SIZEOF_blk_hdr + SIZEOF_rec_hdr) (k_base first);
    Ok (with_base first b)
  else GVT_CLUE_INVALIDATE_FIRST_REC first.

Definition set_last_rec (pNonStar : option srch_blk_status) (pKey last : gv_key) : res gv_key :=
  match pNonStar with
  | None => set_maxkey last
  | Some bh =>
      let m := buffaddr bh in
      let pRec := sr_offset (curr_rec (bh_stat bh)) in
      n0 ← rsiz m pRec;
      _ ← check_reclen m pRec n0;
      n1 ← EVAL_CMPC m pRec;
      if sr_match (curr_rec (bh_stat bh)) <? n1 then Err (CDB_SC cdb_sc_rmisalign)
      else if k_top last <? n1 then Err (CDB_SC cdb_sc_keyoflow)
      else
        l ← rd_list (k_base pKey) 0 n1;
        b ← res_of (wr_list (k_base last) 0 l);
        b ← copy_rec_key n0 (k_top last) n1 m (pRec + SIZEOF_rec_hdr) b;
        Ok (with_base last b)
  end.

(** * The clue *)

Definition COPY_KEY (targ src : gv_key) : res gv_key :=
  l ← rd_list (k_base src) 0 (k_end src + 1);
  b ← res_of (wr_list (k_base targ) 0 l);
  Ok (mk_gv_key (k_top targ) (k_end src) (k_prev src) b).

(** A key of [sz] bytes from malloc; the bytes that are not set are read by nobody. *)
Definition gvkey_init (old : option gv_key) (sz : Z) : gv_key :=
  match old with
  | Some k =>
      if k_end k =? PREV_KEY_NOT_COMPUTED then mk_gv_key sz 0 0 (replicate (Z.to_nat (sz + 1)) 0)
      else let l := take (Z.to_nat (k_end k + 1)) (k_base k) in
        mk_gv_key sz (k_end k) (k_prev k) (l ++ replicate (Z.to_nat (sz + 1) - length l) 0)
  | None => mk_gv_key sz 0 0 (replicate (Z.to_nat (sz + 1)) 0)
  end.

Definition copy_prev_key_to_gvt_clue (g : gv_namehead) (expand_prev_key : bool) (gv_altkey : gv_key) : res gv_namehead :=
  pk ← (if expand_prev_key then
      let pk := match prev_key g with Some k => k | None => gvkey_init None (k_top (clue g)) end in
      let pk := if k_top pk <=? k_end gv_altkey then gvkey_init (Some pk) (DBKEYSIZE (k_end gv_altkey)) else pk in
      k ← COPY_KEY pk gv_altkey; Ok (Some k)
    else Ok ((fun k => mk_gv_key (k_top k) PREV_KEY_NOT_COMPUTED (k_prev k) (k_base k)) <$> prev_key g));
  Ok (mk_gvt (root g) (clue g) (first_rec g) (last_rec g) pk (hist g)).

Definition copy_curr_and_prev_key_to_gvtarget_clue (g : gv_namehead) (gvkey : gv_key) (expand_prev_key : bool) (gv_altkey : gv_key) : res gv_namehead :=
  let c := clue g in
  '(keyend, b) ← (if k_top c <=? k_end gvkey then
      let keyend := k_top c - 1 in
      l ← rd_list (k_base gvkey) 0 (keyend - 1);
      b ← res_of (wr_list (k_base c) 0 (l ++ [KEY_DELIMITER; KEY_DELIMITER])); Ok (keyend, b)
    else
      l ← rd_list (k_base gvkey) 0 (k_end gvkey + 1);
      b ← res_of (wr_list (k_base c) 0 l); Ok (k_end gvkey, b));
  let c := mk_gv_key (k_top c) keyend (k_prev c) b in
  copy_prev_key_to_gvt_clue (mk_gvt (root g) c (first_rec g) (last_rec g) (prev_key g) (hist g)) expand_prev_key gv_altkey.

(** A status that makes the clue unusable: the search goes on from the root. *)
Definition clue_or_tree {A} (x : res A) : res (option A) :=
  match x with
  | Ok a => Ok (Some a)
  | Err (CDB_SC _) => Ok None
  | Err e => Err e
  end.

Section tree.
Context (blk_size : Z).
(** Reading a block. *)
Context (t_qread : Z -> option (list Z)).
(** Whether the blocks of the clue are as they were when the clue was made. *)
Context (clue_valid : list srch_blk_status -> bool).
(** The distance of the buffer of a block from that of the previous key (see
    gvcst_search_tail_expand_prevkey). *)
Context (base_diff : Z -> Z).

Definition read_blk (b : Z) : res (list Z) := match t_qread b with Some m => Ok m | None => Err (CDB_SC cdb_sc_rdfail) end.

Definition search_bh (expand : bool) (pKey : gv_key) (bh : srch_blk_status) (gv_altkey : gv_key) : res (srch_blk_status * gv_key) :=
  '(st, alt) ← gvcst_search_blk blk_size expand (buffaddr bh) pKey gv_altkey;
  Ok (mk_bh (blk_num bh) (buffaddr bh) st, alt).

(** The block that a record of an index block points to. *)
Definition blk_of_rec (m : list Z) (pRec n0 : Z) : res Z := GET_BLK_ID m (pRec + n0 - SIZEOF_block_id).

(** From a block at level [nLevl] to a data block; the history, and the last
    block on the way whose record is no star record. *)
Fixpoint descend (nLevl : nat) (nBlkId : Z) (pBlkBase : list Z) (expand_prev_key : expand_flag) (pKey gv_altkey : gv_key)
    (pNonStar : option srch_blk_status) : res (list srch_blk_status * option srch_blk_status * gv_key) :=
  let none := mk_rec_status 0 0 in
  let pCurr := mk_bh nBlkId pBlkBase (mk_status none none) in
  match nLevl with
  | O =>
      '(pCurr, alt) ← search_bh (expands expand_prev_key) pKey pCurr gv_altkey;
      Ok ([pCurr], pNonStar, alt)
  | S nLevl' =>
      b ← bsiz pBlkBase;
      let b := u16 b in
      '(pCurr, alt) ← (if skips_index expand_prev_key then
          let uninit := mk_rec_status PREV_REC_UNINITIALIZED PREV_REC_UNINITIALIZED in
          Ok (mk_bh nBlkId pBlkBase (mk_status uninit (mk_rec_status (u16 (b - BSTAR_REC_SIZE)) 0)), gv_altkey)
        else search_bh (expands expand_prev_key) pKey pCurr gv_altkey);
      let pRec := sr_offset (curr_rec (bh_stat pCurr)) in
      if b <=? pRec then Err (CDB_SC cdb_sc_blklenerr)
      else
        n0 ← rsiz pBlkBase pRec;
        _ ← check_reclen pBlkBase pRec n0;
        nBlkId ← blk_of_rec pBlkBase pRec n0;
        let pNonStar := if negb (BSTAR_REC_SIZE =? n0) then Some pCurr else pNonStar in
        pBlkBase ← read_blk nBlkId;
        l ← levl pBlkBase;
        if negb (l =? Z.of_nat nLevl') then Err (CDB_SC cdb_sc_badlvl)
        else
          '(h, ns, alt) ← descend nLevl' nBlkId pBlkBase expand_prev_key pKey alt pNonStar;
          Ok (h ++ [pCurr], ns, alt)
  end.

(** The search from the root, and the new clue. *)
Definition search_root (expand_prev_key : expand_flag) (g : gv_namehead) (pKey gv_altkey : gv_key) : res (gv_namehead * gv_key) :=
  pBlkBase ← read_blk (root g);
  nLevl ← levl pBlkBase;
  if MAX_BT_DEPTH <=? nLevl then Err (CDB_SC cdb_sc_maxlvl)
  else if nLevl =? 0 then Err (CDB_SC cdb_sc_badlvl)
  else
    '(h, pNonStar, alt) ← descend (Z.to_nat nLevl) (root g) pBlkBase expand_prev_key pKey gv_altkey None;
    leaf ← res_of (head h);
    first ← set_first_rec leaf (k_end pKey + 1) (first_rec g);
    last ← set_last_rec pNonStar pKey (last_rec g);
    g ← copy_curr_and_prev_key_to_gvtarget_clue (mk_gvt (root g) (clue g) first last (prev_key g) h) pKey (expands expand_prev_key) alt;
    Ok (g, alt).

Definition set_leaf (g : gv_namehead) (leaf : srch_blk_status) : gv_namehead :=
  mk_gvt (root g) (clue g) (first_rec g) (last_rec g) (prev_key g) (leaf :: tail (hist g)).

(** The search with the clue; [None] when it is not usable. *)
Definition search_clue (expand_prev_key : expand_flag) (g : gv_namehead) (pKey gv_altkey : gv_key) : res (option (gv_namehead * gv_key)) :=
  let expand := expands expand_prev_key in
  if negb (k_end (clue g) =? 0) && clue_valid (hist g) then
    let keyCmpLen := Z.min (k_end pKey + 1) (k_top (clue g)) in
    leaf ← res_of (head (hist g));
    n1 ← memcmp_n (k_base pKey) (k_base (clue g)) keyCmpLen;
    match n1 with
    | Gt =>
        n2 ← memcmp_n (k_base pKey) (k_base (last_rec g)) keyCmpLen;
        match n2 with
        | Gt => Ok None
        | _ => clue_or_tree (
            '(st, alt) ← gvcst_search_tail blk_size expand (base_diff (blk_num leaf)) (buffaddr leaf) pKey (bh_stat leaf) (clue g)
                (prev_key g) gv_altkey;
            g ← copy_curr_and_prev_key_to_gvtarget_clue (set_leaf g (mk_bh (blk_num leaf) (buffaddr leaf) st)) pKey expand alt;
            Ok (g, alt))
        end
    | Lt =>
        n2 ← memcmp_n (k_base pKey) (k_base (first_rec g)) keyCmpLen;
        match n2 with
        | Lt => Ok None
        | _ => clue_or_tree (
            '(leaf, alt) ← search_bh expand pKey leaf gv_altkey;
            g ← copy_curr_and_prev_key_to_gvtarget_clue (set_leaf g leaf) pKey expand alt;
            Ok (g, alt))
        end
    | Eq =>
        if negb expand then Ok (Some (g, gv_altkey))
        else
          let from_block := clue_or_tree (
            alt ← gvcst_expand_prev_key blk_size (buffaddr leaf) (bh_stat leaf) (clue g) gv_altkey;
            g ← copy_prev_key_to_gvt_clue g true alt;
            Ok (g, alt)) in
          match prev_key g with
          | Some pk =>
              if negb (k_end pk =? PREV_KEY_NOT_COMPUTED) then alt ← COPY_KEY gv_altkey pk; Ok (Some (g, alt))
              else from_block
          | None => from_block
          end
    end
  else Ok None.

Definition gvcst_search (expand_prev_key : expand_flag) (g : gv_namehead) (pKey gv_altkey : gv_key) : res (gv_namehead * gv_key) :=
  r ← search_clue expand_prev_key g pKey gv_altkey;
  match r with
  | Some x => Ok x
  | None => search_root expand_prev_key g pKey gv_altkey
  end.

(** * Siblings *)

(** Down to a data block: [n] levels, from the record at [rp]. *)
Fixpoint down_left (n : nat) (m : list Z) (rp : Z) : res (list srch_blk_status) :=
  match n with
  | O => Ok []
  | S n' =>
      rec_size ← rsiz m rp;
      b ← bsiz m;
      if b <? rp + rec_size then Err (CDB_SC cdb_sc_rmisalign)
      else
        blk ← blk_of_rec m rp rec_size;
        m ← read_blk blk;
        let bh := mk_bh blk m (mk_status (mk_rec_status 0 0) (mk_rec_status SIZEOF_blk_hdr 0)) in
        h ← down_left n' m SIZEOF_blk_hdr;
        Ok (h ++ [bh])
  end.

(** Up from level [n] to the first block with a record after the one on the way
    to the key. The history above level [n] after that, and the new history. *)
Fixpoint gvcst_rtsib (n : nat) (up : list srch_blk_status) (gv_currkey gv_altkey : gv_key) :
    res (list srch_blk_status * list srch_blk_status) :=
  match up with
  | [] => Err (CDB_SC cdb_sc_endtree)
  | old :: up' =>
      '(old, _) ← search_bh false gv_currkey old gv_altkey;
      let m := buffaddr old in
      let off := sr_offset (curr_rec (bh_stat old)) in
      rec_size ← rsiz m off;
      b ← bsiz m;
      if b <? off + rec_size then Err (CDB_SC cdb_sc_rmisalign)
      else if off + rec_size <? b then
        let new := mk_bh (blk_num old) m (mk_status (curr_rec (bh_stat old)) (mk_rec_status (u16 (off + rec_size)) 0)) in
        h ← down_left (S n) m (u16 (off + rec_size));
        Ok (old :: up', h ++ [new])
      else
        '(up', h) ← gvcst_rtsib (S n) up' gv_currkey gv_altkey;
        Ok (old :: up', h)
  end.

Fixpoint down_right (n : nat) (bp : list Z) (rtop : Z) : res (list srch_blk_status) :=
  match n with
  | O => Ok []
  | S n' =>
      blk ← GET_BLK_ID bp (rtop - SIZEOF_block_id);
      m ← read_blk blk;
      b ← bsiz m;
      let none := mk_rec_status 0 0 in
      h ← down_right n' m (u16 b);
      Ok (h ++ [mk_bh blk m (mk_status none none)])
  end.

(** [old] has been searched; up to the first block with a record before the one
    on the way to the key. *)
Fixpoint gvcst_lftsib (n : nat) (old : srch_blk_status) (up : list srch_blk_status) (gv_currkey gv_altkey : gv_key) :
    res (list srch_blk_status * list srch_blk_status) :=
  let off := sr_offset (prev_rec (bh_stat old)) in
  if 0 <? off then
    let m := buffaddr old in
    rec_size ← rsiz m off;
    let rtop := u16 (off + rec_size) in
    b ← bsiz m;
    if b <? rtop then Err (CDB_SC cdb_sc_rmisalign)
    else
      let new := mk_bh (blk_num old) m (mk_status (prev_rec (bh_stat old)) (prev_rec (bh_stat old))) in
      h ← down_right n m rtop;
      Ok (old :: up, h ++ [new])
  else
    match up with
    | [] => Err (CDB_SC cdb_sc_endtree)
    | old' :: up' =>
        '(old', _) ← search_bh false gv_currkey old' gv_altkey;
        '(up', h) ← gvcst_lftsib (S n) old' up' gv_currkey gv_altkey;
        Ok (old :: up', h)
    end.

End tree.
