(* ===== verification/Gvread.v ===== *)
(** The reads of a global: gvcst_get2, gvcst_data2, gvcst_order2, gvcst_query2 and
    gvcst_zprevious2, as one attempt each: the status on which they would retry is
    an error, and the check of t_end that no block changed is not part of them. *)

From stdpp Require Import base list numbers option tactics.
From Stdlib Require Import ZArith Lia.
From S2P Require Import Prelude Subscript Gvsub Gvkey Gdsblk Blkexpand Blksearch Blktail Gvtree.

Open Scope Z_scope.

Section read.
Context (blk_size : Z) (t_qread : Z -> option (list Z)) (clue_valid : list srch_blk_status -> bool) (base_diff : Z -> Z).

Abbreviation search := (gvcst_search blk_size t_qread clue_valid base_diff).

Definition leaf_of (h : list srch_blk_status) : res srch_blk_status := res_of (head h).

Definition set_hist (g : gv_namehead) (h : list srch_blk_status) : gv_namehead :=
  mk_gvt (root g) (clue g) (first_rec g) (last_rec g) (prev_key g) h.

(** The value of the key, if it has one. *)
Definition gvcst_get2 (g : gv_namehead) (gv_currkey gv_altkey : gv_key) : res (gv_namehead * gv_key * option (list Z)) :=
  '(g, alt) ← search EXPAND_PREV_KEY_FALSE g gv_currkey gv_altkey;
  bh ← leaf_of (hist g);
  let key_size := k_end gv_currkey + 1 in
  let cr := curr_rec (bh_stat bh) in
  if key_size =? sr_match cr then
    let m := buffaddr bh in
    let rp := sr_offset cr in
    b_top ← bsiz m;
    n ← rsiz m rp;
    c ← EVAL_CMPC m rp;
    let data_len := n + c - SIZEOF_rec_hdr - key_size in
    if (data_len <? 0) || (b_top <? rp + n) then Err (CDB_SC cdb_sc_rmisalign)
    else v ← rd_list m (rp + n - data_len) data_len; Ok (g, alt, Some v)
  else Ok (g, alt, None).

(** The data block after that of the history, and the place of the key in it;
    [None] at the end of the tree, where the searches of gvcst_rtsib in the
    blocks above are not kept (each use of their places searches again). *)
Definition right_block (g : gv_namehead) (gv_currkey alt : gv_key) : res (gv_namehead * option srch_blk_status) :=
  match hist g with
  | [] => Err UB
  | leaf :: up =>
      match gvcst_rtsib blk_size t_qread 0 up gv_currkey alt with
      | Ok (up, rt) =>
          bh ← leaf_of rt;
          '(bh, _) ← search_bh blk_size false gv_currkey bh alt;
          Ok (set_hist g (leaf :: up), Some bh)
      | Err (CDB_SC cdb_sc_endtree) => Ok (g, None)
      | Err e => Err e
      end
  end.

(** IF_SN_DISALLOWED_AND_NO_SPAN_IN_DB: whether its statement is done. The
    server of another process does not have spanning nodes
    ([span_nodes_disallowed]); a database may never have had one
    ([span_node_absent]). *)
Definition IF_SN_DISALLOWED_AND_NO_SPAN_IN_DB (span_nodes_disallowed span_node_absent : bool) : res bool :=
  if span_nodes_disallowed then if span_node_absent then Ok true else Err ERR_UNIMPLOP else Ok false.

Definition IS_SN_DUMMY (m : list Z) (len addr : Z) : res bool :=
  if len =? 1 then x ← rd8 m addr; Ok (x =? 0) else Ok false.

(** $DATA: 1 for a value, 10 for descendants, -1 for the first block of a
    spanning node. *)
Definition gvcst_data2 (span_nodes_disallowed span_node_absent : bool) (g : gv_namehead) (gv_currkey gv_altkey : gv_key) : res (gv_namehead * gv_key * Z) :=
  '(g, alt) ← search EXPAND_PREV_KEY_FALSE g gv_currkey gv_altkey;
  bh ← leaf_of (hist g);
  let m := buffaddr bh in
  let rp := sr_offset (curr_rec (bh_stat bh)) in
  b_top ← bsiz m;
  let match_ := sr_match (curr_rec (bh_stat bh)) in
  '(val, realval, do_rtsib) ← (if k_end gv_currkey + 1 =? match_ then
      n ← rsiz m rp;
      c ← EVAL_CMPC m rp;
      let cur_val_offset := SIZEOF_rec_hdr + match_ - c in
      is_dummy ← IS_SN_DUMMY m (n - cur_val_offset) (rp + cur_val_offset);
      realval ← (if is_dummy : bool then
          no_span ← IF_SN_DISALLOWED_AND_NO_SPAN_IN_DB span_nodes_disallowed span_node_absent;
          Ok (if no_span : bool then 0 else -1)
        else Ok 0);
      let rp := rp + n in
      if b_top <? rp then Err (CDB_SC cdb_sc_rmisalign)
      else if rp =? b_top then Ok (1, realval, true)
      else
        c ← EVAL_CMPC m rp;
        Ok (if k_end gv_currkey <=? c then 11 else 1, realval, false)
    else if k_end gv_currkey <=? match_ then Ok (10, 0, false)
    else Ok (0, 0, rp =? b_top));
  '(g, val) ← (if do_rtsib : bool then
      '(g, rt) ← right_block g gv_currkey alt;
      Ok (g, match rt with
        | Some bh => if k_end gv_currkey <=? sr_match (curr_rec (bh_stat bh)) then val + 10 else val
        | None => val
        end)
    else Ok (g, val));
  Ok (g, alt, if negb (realval =? 0) then realval else val).

(** The data block and record at or after the key. *)
Definition next_record (g : gv_namehead) (gv_currkey alt : gv_key) : res (gv_namehead * option srch_blk_status) :=
  bh ← leaf_of (hist g);
  b ← bsiz (buffaddr bh);
  if b <=? sr_offset (curr_rec (bh_stat bh)) then right_block g gv_currkey alt
  else Ok (g, Some bh).

(** [*c1++ = *c2++] up to a null byte, and one more null byte; the end of the key. *)
Fixpoint copy_subscript (fuel : nat) (m : list Z) (dst : list Z) (c1 c2 ctop alt_top : Z) : res (list Z * Z) :=
  match fuel with
  | O => Err OUT_OF_FUEL
  | S fuel' =>
      if (ctop <=? c2) || (alt_top <=? c1) then Err (CDB_SC cdb_sc_rmisalign)
      else
        x ← rd8 m c2;
        dst ← res_of (wr_list dst c1 [x]);
        if x =? 0 then dst ← res_of (wr_list dst (c1 + 1) [0]); Ok (dst, c1 + 1)
        else copy_subscript fuel' m dst (c1 + 1) (c2 + 1) ctop alt_top
  end.

(** The next subscript at the level of the last one, in gv_altkey; whether there
    is one. *)
Definition gvcst_order2 (g : gv_namehead) (gv_currkey gv_altkey : gv_key) : res (gv_namehead * gv_key * bool) :=
  '(g, alt) ← search EXPAND_PREV_KEY_FALSE g gv_currkey gv_altkey;
  '(g, rt) ← next_record g gv_currkey alt;
  match rt with
  | None => Ok (g, alt, false)
  | Some bh =>
      let m := buffaddr bh in
      let rp := sr_offset (curr_rec (bh_stat bh)) in
      let match_ := sr_match (curr_rec (bh_stat bh)) in
      l ← rd_list (k_base gv_currkey) 0 match_;
      b ← res_of (wr_list (k_base alt) 0 l);
      c ← EVAL_CMPC m rp;
      n ← rsiz m rp;
      '(b, end_) ← copy_subscript (length m) m b match_ (rp + SIZEOF_rec_hdr + match_ - c) (rp + n) (k_top alt - 1);
      Ok (g, mk_gv_key (k_top alt) end_ (k_prev alt) b, k_prev gv_currkey <=? match_)
  end.

(** The next key, in gv_altkey; whether there is one. *)
Definition gvcst_query2 (g : gv_namehead) (gv_currkey gv_altkey : gv_key) : res (gv_namehead * gv_key * bool) :=
  '(g, alt) ← search EXPAND_PREV_KEY_FALSE g gv_currkey gv_altkey;
  '(g, rt) ← next_record g gv_currkey alt;
  match rt with
  | None => Ok (g, alt, false)
  | Some bh => alt ← gvcst_expand_curr_key blk_size (buffaddr bh) (bh_stat bh) gv_currkey alt; Ok (g, alt, true)
  end.

(** Past the next null byte of the key; a second null byte is written there. *)
Fixpoint truncate_subscript (fuel : nat) (base : list Z) (c ctop : Z) : res (list Z * Z) :=
  match fuel with
  | O => Err OUT_OF_FUEL
  | S fuel' =>
      if ctop <=? c then Err (CDB_SC cdb_sc_rmisalign)
      else
        x ← rd8 base c;
        if x =? 0 then b ← res_of (wr_list base (c + 1) [0]); Ok (b, c + 1)
        else truncate_subscript fuel' base (c + 1) ctop
  end.

(** The previous subscript at the level of the last one. *)
Definition gvcst_zprevious2 (name_len : Z) (gv_last_subsc_null : bool) (g : gv_namehead) (gv_currkey gv_altkey : gv_key) :
    res (gv_namehead * gv_key * bool) :=
  let e := if (name_len + 1 =? k_prev gv_currkey) && gv_last_subsc_null then ZPREVIOUS_NULL_SUBS_LEVEL1 else EXPAND_PREV_KEY_TRUE in
  '(g, alt) ← search e g gv_currkey gv_altkey;
  bh ← leaf_of (hist g);
  '(g, alt, lft) ← (if sr_offset (prev_rec (bh_stat bh)) =? 0 then
      match gvcst_lftsib blk_size t_qread 0 bh (tail (hist g)) gv_currkey alt with
      | Ok (h, lft) =>
          bh ← leaf_of lft;
          '(bh, alt) ← search_bh blk_size true gv_currkey bh alt;
          Ok (set_hist g h, alt, Some bh)
      | Err (CDB_SC cdb_sc_endtree) => Ok (g, alt, None)
      | Err e => Err e
      end
    else Ok (g, alt, Some bh));
  let prev_rec_match := sr_match (prev_rec (bh_stat (default bh lft))) in
  if ((k_end alt <? k_end gv_currkey) && (k_end alt <=? k_prev gv_currkey)) || (prev_rec_match <? k_prev gv_currkey)
  then Ok (g, alt, false)
  else
    '(b, end_) ← truncate_subscript (length (k_base alt)) (k_base alt) prev_rec_match (k_end alt);
    match lft with
    | Some _ => Ok (g, mk_gv_key (k_top alt) end_ (k_prev alt) b, true)
    | None => Err (CDB_SC cdb_sc_endtree)
    end.

End read.
