(* ===== verification/Gvzip.v ===== *)
(** Well-formed trees of blocks: the records of the data blocks in order, the
    bounds that the keys of index blocks put on them, and, for a block of the
    tree, the blocks on the way to it with what is before and after it. *)

From stdpp Require Import base list numbers option tactics sorting.
From Stdlib Require Import ZArith Lia.
From S2P Require Import Prelude Subscript Gvsub Gvkey Gdsblk Blkexpand Blksearch Blktail Blkprev Gvtree.

Open Scope Z_scope.

(** Above [lo], and not above [hi]; without [hi] there is no bound. *)
Definition in_range (lo : list Z) (hi : option (list Z)) (k : list Z) : Prop :=
  gvlt lo k /\ match hi with Some h => ~ gvlt h k | None => True end.

(** The child that a record of an index block names. *)
Definition points (r : grec) (b : Z) : Prop := GET_BLK_ID (g_val r) 0 = Ok b.

Section tree.
Context (blk_size : Z) (t_qread : Z -> option (list Z)).

(** The trees of the records [rs] of an index block hold [recs]. *)
Fixpoint children (T : Z -> list Z -> option (list Z) -> list grec -> Prop) (lo : list Z) (hi : option (list Z))
    (rs recs : list grec) : Prop :=
  match rs with
  | [] => False
  | r :: rs' =>
      exists b, points r b /\
      match rs' with
      | [] => T b lo hi recs
      | _ => in_range lo hi (g_key r) /\ exists r1 r2, recs = r1 ++ r2 /\ T b lo (Some (g_key r)) r1 /\ children T (g_key r) hi rs' r2
      end
  end.

(** The block [b] at level [lv] is the root of a tree of the records [recs]. The
    one data block of an empty global is empty; others are not ([full]). *)
Fixpoint tree_at (lv : nat) (full : bool) (b : Z) (lo : list Z) (hi : option (list Z)) (recs : list grec) : Prop :=
  exists m rs, t_qread b = Some m /\ blk_ok blk_size (Z.of_nat lv) m rs /\
  match lv with
  | O => recs = rs /\ Forall (fun r => in_range lo hi (g_key r)) rs /\ (full = true -> rs <> [])
  | S lv' => pos_after rs + 1023 <= zlen m /\ children (tree_at lv' (full || (1 <? length rs)%nat)) lo hi rs recs
  end.

(** Records and their trees before a given one. *)
Fixpoint lefts (T : Z -> list Z -> option (list Z) -> list grec -> Prop) (lo : list Z) (l recs : list grec) : Prop :=
  match l with
  | [] => recs = []
  | r :: l' => exists b r1 r2, points r b /\ gvlt lo (g_key r) /\ recs = r1 ++ r2 /\ T b lo (Some (g_key r)) r1 /\ lefts T (g_key r) l' r2
  end.

(** The upper bound of the tree of the record [x], with the records [r] after
    it, and their trees. *)
Definition upper (hi : option (list Z)) (x : grec) (r : list grec) : option (list Z) :=
  match r with [] => hi | _ => Some (g_key x) end.

Definition rights (T : Z -> list Z -> option (list Z) -> list grec -> Prop) (hi : option (list Z)) (x : grec) (r recs : list grec) : Prop :=
  match r with [] => recs = [] | _ => children T (g_key x) hi r recs end.

(** The way from the root to a block: what is before and after its tree, and the
    history of the blocks above. *)
Inductive zip (rt : Z) (depth : nat) : nat -> bool -> Z -> list Z -> option (list Z) -> list grec -> list grec -> list srch_blk_status -> Prop :=
| zip_root : zip rt depth depth false rt [] None [] [] []
| zip_step lv full b lo hi pre post up m rs l x r st b' cpre cpost :
    zip rt depth (S lv) full b lo hi pre post up ->
    t_qread b = Some m -> blk_ok blk_size (Z.of_nat (S lv)) m rs -> pos_after rs + 1023 <= zlen m -> rs = l ++ x :: r -> points x b' ->
    lefts (tree_at lv (full || (1 <? length rs)%nat)) lo l cpre -> rights (tree_at lv (full || (1 <? length rs)%nat)) hi x r cpost ->
    (r <> [] -> in_range (default lo (g_key <$> last l)) hi (g_key x)) ->
    (match last l with Some y => in_range lo hi (g_key y) | None => True end) ->
    zip rt depth lv (full || (1 <? length rs)%nat) b' (default lo (g_key <$> last l)) (upper hi x r)
      (pre ++ cpre) (cpost ++ post) (mk_bh b m st :: up).

(** * Lemmas *)

Lemma range_le hi k k' : in_range k hi k' -> gvlt k k'.
Proof. by intros [? _]. Qed.

Lemma children_split T lo hi l x r recs : children T lo hi (l ++ x :: r) recs ->
  exists cpre cx cpost b, recs = cpre ++ cx ++ cpost /\ lefts T lo l cpre /\ points x b /\
    T b (default lo (g_key <$> last l)) (upper hi x r) cx /\ rights T hi x r cpost /\
    (r <> [] -> in_range (default lo (g_key <$> last l)) hi (g_key x)) /\
    match last l with Some y => in_range lo hi (g_key y) | None => True end.
Proof.
  revert lo recs. induction l as [|y l IH]; intros lo recs; cbn [app children].
  - intros (b & Hb & H). destruct r as [|x' r].
    + exists [], recs, [], b. rewrite app_nil_r. repeat split; done.
    + destruct H as (Hi & r1 & r2 & -> & Ht & Hc). exists [], r1, r2, b. repeat split; try done; apply Hi.
  - intros (b & Hb & H). destruct (l ++ x :: r) as [|z zs] eqn:E; [by destruct l|]. rewrite <- E in *. clear E z zs.
    destruct H as (Hi & r1 & r2 & -> & Ht & (cpre & cx & cpost & b' & -> & Hl & Hp & Hx & Hr & Hir & Hil)%IH).
    assert (El : default lo (g_key <$> last (y :: l)) = default (g_key y) (g_key <$> last l)).
    { destruct l as [|z l]; [done|]. rewrite last_cons_cons. by destruct (last (z :: l)) eqn:E; [|apply last_None in E]. }
    exists (r1 ++ cpre), cx, cpost, b'. rewrite El, <- !app_assoc. split; [done|]. split; [|split; [done|split; [done|split; [done|split; [done|]]]]].
    + exists b, r1, cpre. split; [done|]. split; [apply Hi|]. done.
    + destruct l as [|z l]; [done|]. rewrite last_cons_cons. destruct (last (z :: l)) as [w|] eqn:E; [|by apply last_None in E].
      destruct Hil as [H1 H2]. split; [|done]. destruct Hi as [Hi _]. by transitivity (g_key y).
Qed.

Lemma not_lt_trans a b c : ~ gvlt b a -> gvlt b c -> gvlt a c.
Proof. intros Hn Hb. destruct (gvlt_cases a b) as [H|[->|H]]; [by transitivity b|done|done]. Qed.

Lemma lt_not_trans a b c : gvlt a b -> ~ gvlt c b -> gvlt a c.
Proof. intros Ha Hn. destruct (gvlt_cases b c) as [H|[<-|H]]; [by transitivity b|done|done]. Qed.

(** The records of a tree are between its bounds. *)
Lemma tree_range lv full b lo hi recs : tree_at lv full b lo hi recs -> Forall (fun r => in_range lo hi (g_key r)) recs.
Proof.
  revert full b lo hi recs. induction lv as [|lv IH]; intros full b lo hi recs (m & rs & _ & _ & H); [by destruct H as (-> & ? & _)|].
  destruct H as [_ H]. generalize dependent (full || (1 <? length rs)%nat). intros f H.
  revert lo recs H. induction rs as [|r rs IHr]; intros lo recs; [done|]. cbn [children]. intros (b' & _ & H).
  destruct rs as [|r' rs]; [by eapply IH|]. destruct H as (Hi & r1 & r2 & -> & Ht & Hc). apply Forall_app. split.
  - eapply Forall_impl; [by eapply IH|]. intros y [H1 H2]. split; [done|]. destruct hi as [h|]; [|done]. destruct Hi as [_ Hh].
    intros Hlt. apply Hh. by eapply lt_not_trans.
  - eapply Forall_impl; [by apply IHr|]. intros y [H1 H2]. split; [|done]. transitivity (g_key r); [apply Hi|done].
Qed.

Lemma children_above lv f lo hi rs recs : children (tree_at lv f) lo hi rs recs -> Forall (fun y => gvlt lo (g_key y)) recs.
Proof.
  revert lo recs. induction rs as [|x rs IH]; intros lo recs; [done|]. cbn [children]. intros (b & _ & H).
  destruct rs as [|x' rs].
  - eapply Forall_impl; [by eapply tree_range|]. by intros ? [? _].
  - destruct H as (Hi & r1 & r3 & -> & Ht & Hc). apply Forall_app. split.
    + eapply Forall_impl; [by eapply tree_range|]. by intros ? [? _].
    + eapply Forall_impl; [by apply IH|]. intros y Hy. transitivity (g_key x); [apply Hi|done].
Qed.

Lemma tree_sorted lv full b lo hi recs : tree_at lv full b lo hi recs -> keys_sorted recs.
Proof.
  revert full b lo hi recs. induction lv as [|lv IH]; intros full b lo hi recs (m & rs & _ & Hb & H).
  { destruct H as (-> & _ & _). destruct Hb as (_ & _ & Hl). apply Hl. }
  destruct H as [_ H]. clear Hb. generalize dependent (full || (1 <? length rs)%nat). intros f H.
  revert lo recs H. induction rs as [|r rs IHr]; intros lo recs; [done|]. cbn [children]. intros (b' & _ & H).
  destruct rs as [|r' rs]; [by eapply IH|]. destruct H as (Hi & r1 & r2 & -> & Ht & Hc).
  unfold keys_sorted. rewrite fmap_app. apply StronglySorted_app. split; [|split; [by eapply IH|by apply (IHr (g_key r))] ].
  intros k1 k2 (y1 & -> & H1)%list_elem_of_fmap (y2 & -> & H2)%list_elem_of_fmap.
  pose proof (tree_range _ _ _ _ _ _ Ht) as F1. rewrite Forall_forall in F1. destruct (F1 _ H1) as [_ Hn].
  pose proof (children_above _ _ _ _ _ _ Hc) as F2.
  rewrite Forall_forall in F2. eapply not_lt_trans; [exact Hn|by apply F2].
Qed.

Lemma tree_full lv b lo hi recs : tree_at lv true b lo hi recs -> recs <> [].
Proof.
  revert b lo hi recs. induction lv as [|lv IH]; intros b lo hi recs (m & rs & _ & _ & H).
  { destruct H as (-> & _ & Hn). by apply Hn. }
  destruct H as [_ H]. cbn [orb] in H. destruct rs as [|r rs]; [done|]. cbn [children] in H. destruct H as (b' & _ & H).
  destruct rs as [|r' rs]; [by eapply IH|]. destruct H as (_ & r1 & r2 & -> & Ht%IH & _). by destruct r1.
Qed.

Lemma children_full lv lo hi rs recs : children (tree_at lv true) lo hi rs recs -> recs <> [].
Proof.
  destruct rs as [|r rs]; [done|]. cbn [children]. intros (b & _ & H). destruct rs; [by eapply tree_full|].
  destruct H as (_ & r1 & r2 & -> & Ht%tree_full & _). by destruct r1.
Qed.

(** ** Around a block *)

Lemma lefts_range lv f lo l cpre : lefts (tree_at lv f) lo l cpre ->
  ~ gvlt (default lo (g_key <$> last l)) lo /\ Forall (fun y => ~ gvlt (default lo (g_key <$> last l)) (g_key y)) cpre.
Proof.
  revert lo cpre. induction l as [|x l IH]; intros lo cpre; cbn [lefts].
  - intros ->. split; [apply gvlt_irrefl|constructor].
  - intros (b & r1 & r2 & _ & Hlo & -> & Ht & Hl%IH).
    assert (El : default lo (g_key <$> last (x :: l)) = default (g_key x) (g_key <$> last l)).
    { destruct l as [|z l]; [done|]. rewrite last_cons_cons. by destruct (last (z :: l)) eqn:E; [|apply last_None in E]. }
    rewrite El. destruct Hl as [Hl1 Hl2]. split.
    + intros H. apply Hl1. by transitivity lo.
    + apply Forall_app. split; [|done]. eapply Forall_impl; [by eapply tree_range|]. intros y [_ Hy] H. apply Hy.
      by eapply not_lt_trans.
Qed.

Lemma rights_range lv f hi x r cpost : rights (tree_at lv f) hi x r cpost -> Forall (fun y => gvlt (g_key x) (g_key y)) cpost.
Proof. destruct r; [by intros ->|]. apply children_above. Qed.

Lemma last_eq lo (l : list grec) : default lo (g_key <$> last l) = match last l with Some y => g_key y | None => lo end.
Proof. by destruct (last l). Qed.

(** What is before a block is not above its lower bound, and what is after it is
    above its upper bound. *)
Lemma zip_range rt depth lv full b lo hi pre post up : zip rt depth lv full b lo hi pre post up ->
  Forall (fun r => ~ gvlt lo (g_key r)) pre /\
  match hi with Some h => Forall (fun r => gvlt h (g_key r)) post | None => post = [] end.
Proof.
  induction 1 as [|lv full b lo hi pre post up m rs l x r st b' cpre cpost Hz [IH1 IH2] Hq Hb Hroom Hr Hp Hl Hri Hir Hil]; [by split|].
  destruct (lefts_range _ _ _ _ _ Hl) as [Hl1 Hl2]. split.
  - apply Forall_app. split; [|done]. eapply Forall_impl; [exact IH1|]. intros y Hy H. apply Hl1. by eapply lt_not_trans.
  - unfold upper. destruct r as [|x' r].
    + cbn [rights] in Hri. subst cpost. done.
    + apply Forall_app. split; [by eapply rights_range|]. destruct hi as [h|]; [|by subst post].
      eapply Forall_impl; [exact IH2|]. intros y Hy. destruct Hir as [_ Hh]; [done|]. by eapply not_lt_trans.
Qed.
End tree.
