(* ===== verification/Gvdown.v ===== *)
(** The way down from the root finds the data block and the place of a key. *)

From stdpp Require Import base list numbers option tactics sorting.
From Stdlib Require Import ZArith Lia.
From S2P Require Import Prelude Subscript Gvsub Gvkey Gdsblk Blkexpand Blksearch Blktail Blkprev Gvtree Gvzip.

Open Scope Z_scope.

(** * One block *)

Lemma blk_of_rec_at m pos pk r rest b : recs_at m pos pk (r :: rest) -> zlen (g_val r) = SIZEOF_block_id -> points r b ->
  blk_of_rec m pos (rec_size pk r) = Ok b.
Proof.
  intros Ha Hv Hp. unfold blk_of_rec. destruct (g_val r) as [|b0 [|b1 [|b2 [|b3 [|]]]]] eqn:Ev; try (unfold zlen, SIZEOF_block_id in Hv; simpl in Hv; lia).
  assert (Hrd : forall i x, (i < 4)%nat -> [b0; b1; b2; b3] !! i = Some x -> rd8 m (pos + rec_size pk r - SIZEOF_block_id + Z.of_nat i) = Ok x).
  { intros i x Hi Hx. unfold rd8. unfold rec_size, rec_body. rewrite zlen_app, Ev, Hv.
    replace (pos + (SIZEOF_rec_hdr + (zlen (suffix pk r) + SIZEOF_block_id)) - SIZEOF_block_id + Z.of_nat i)
      with (pos + SIZEOF_rec_hdr + (zlen (suffix pk r) + Z.of_nat i)) by (unfold SIZEOF_rec_hdr, SIZEOF_block_id; lia).
    rewrite (recs_at_body m pos pk r rest (zlen (suffix pk r) + Z.of_nat i) x Ha); [done|].
    unfold rec_body. rewrite Ev, rd_app_r by lia. replace (_ + Z.of_nat i - _) with (Z.of_nat i) by lia. by rewrite rd_nat. }
  unfold points in Hp. rewrite Ev in Hp. unfold GET_BLK_ID, rd32, GET_USHORT in *. unfold rd8 at 1 2 3 4 in Hp. simpl in Hp.
  pose proof (Hrd 0%nat b0 ltac:(lia) eq_refl) as H0. pose proof (Hrd 1%nat b1 ltac:(lia) eq_refl) as H1.
  pose proof (Hrd 2%nat b2 ltac:(lia) eq_refl) as H2. pose proof (Hrd 3%nat b3 ltac:(lia) eq_refl) as H3.
  change (Z.of_nat 0) with 0 in H0. rewrite Z.add_0_r in H0. change (Z.of_nat 1) with 1 in H1. change (Z.of_nat 2) with 2 in H2.
  change (Z.of_nat 3) with (2 + 1) in H3. rewrite Z.add_assoc in H3. rewrite H0, H1, H2, H3. cbn [mbind res_bind]. by rewrite <- Hp.
Qed.

(** The record where the search in an index block ends. *)
Lemma index_split t rs : index_ok rs -> exists l x r, rs = l ++ x :: r /\ split_at t l (x :: r).
Proof.
  intros (ks & star & -> & [Hs _] & _). destruct (split_exists t (ks ++ [star])) as (l & r & E & Hl & Hr).
  destruct r as [|x r]; [|by exists l, x, r]. rewrite app_nil_r in E. subst l. apply Forall_app in Hl as [_ [[Hn _] _]%Forall_cons]. done.
Qed.

(** A record of an index block is the star record when it is the last. *)
Lemma index_record blk_size lv m rs l x r : blk_ok blk_size (Z.of_nat (S lv)) m rs -> rs = l ++ x :: r ->
  zlen (g_val x) = SIZEOF_block_id /\
  (r = [] /\ is_star x /\ rec_size (last_key [] l) x = BSTAR_REC_SIZE \/
   r <> [] /\ rec_ok x /\ gvlt (last_key [] l) (g_key x) /\ rec_size (last_key [] l) x <> BSTAR_REC_SIZE) /\
  Forall rec_ok l.
Proof.
  intros (_ & _ & Hi) E. assert ((Z.of_nat (S lv) =? 0) = false) as H0 by (apply Z.eqb_neq; lia). rewrite H0 in Hi.
  assert (Hw : walk_ok false (l ++ x :: r)) by (by rewrite <- E).
  destruct (walk_next false l x r Hw) as [(Hx & Hl & Hlt & Hv)|(_ & -> & Hst & Hl)].
  - specialize (Hv eq_refl). split; [done|]. split; [|done]. right.
    split; [|split; [done|split; [done|] ] ].
    + intros ->. destruct Hw as (ks & star & Ek & [Hs _] & _). apply app_inj_tail in Ek as [_ ->].
      destruct Hx as [Hx _]. by apply gkey_not_nil in Hx.
    + assert (Hn : (BSTAR_REC_SIZE =? rec_size (last_key [] l) x) && negb false = false) by (by eapply not_star).
      rewrite andb_true_r in Hn. apply Z.eqb_neq in Hn. congruence.
  - destruct Hst as [Hk Hv]. split; [done|]. split; [|done]. left. split; [done|]. split; [done|].
    unfold rec_size, rec_body, suffix. rewrite Hk, drop_nil. cbn [app]. by rewrite Hv.
Qed.

Section down.
Context (blk_size : Z) (t_qread : Z -> option (list Z)) (rt : Z) (depth : nat).
Context (K : gv_key) (t : list Z).
Hypothesis HK : key_holds K t.

Abbreviation tree := (tree_at blk_size t_qread).
Abbreviation way := (zip blk_size t_qread rt depth).

Lemma search_index e lv m rs st b alt l r : blk_ok blk_size (Z.of_nat (S lv)) m rs -> pos_after rs + 1023 <= zlen m ->
  rs = l ++ r -> split_at t l r -> search_bh blk_size e K (mk_bh b m st) alt = Ok (mk_bh b m (status_at t l r), alt).
Proof.
  intros Hb Hr E Hs. unfold search_bh. cbn [buffaddr blk_num].
  assert (Hex : gvcst_search_blk blk_size e m K alt = gvcst_search_blk blk_size false m K alt).
  { unfold gvcst_search_blk. destruct Hb as (_ & Hat & _). destruct (blk_at_recs _ _ _ _ Hat) as (_ & -> & _).
    cbn [mbind res_bind]. assert ((Z.of_nat (S lv) =? 0) = false) as -> by (apply Z.eqb_neq; lia). done. }
  rewrite Hex, (search_blk_at blk_size (Z.of_nat (S lv)) m t rs K Hb HK) with (l := l) (r := r); try done.
  intros _. destruct HK as (_ & _ & _ & Hl). unfold zlen in *. lia.
Qed.

(** What is known of gv_altkey after a search with its expansion. *)
Definition alt_prev (alt : gv_key) (l : list grec) : Prop :=
  if decide (l = []) then k_end alt = 0 else k_end alt + 1 = zlen (last_key [] l) /\ exists slack, k_base alt = last_key [] l ++ slack.

Lemma search_leaf e m rs st b alt l r : blk_ok blk_size 0 m rs -> key_room alt 1024 -> rs = l ++ r -> split_at t l r ->
  exists alt', search_bh blk_size e K (mk_bh b m st) alt = Ok (mk_bh b m (status_at t l r), alt') /\
    key_room alt' 1024 /\ k_top alt' = k_top alt /\ (if e : bool then alt_prev alt' l else alt' = alt).
Proof.
  intros Hb Hr E Hs. unfold search_bh. cbn [buffaddr blk_num]. destruct e.
  - destruct (search_expand_at blk_size m rs K t alt l r Hb HK Hr E Hs) as (alt' & -> & Hp). cbn [mbind res_bind].
    exists alt'. split; [done|]. unfold prev_is, alt_prev, key_room in *. destruct (decide (l = [])) as [->|Hn].
    + destruct Hp as (? & -> & -> & _). done.
    + destruct Hp as (? & ? & -> & _ & ->). done.
  - rewrite (search_blk_at blk_size 0 m t rs K Hb HK) with (l := l) (r := r) by done. cbn [mbind res_bind]. by exists alt.
Qed.

(** The last block on the way down whose record is not the star record has the
    upper bound of the data block. *)
Definition nonstar_ok (ns : option srch_blk_status) (hi : option (list Z)) : Prop :=
  match ns, hi with
  | None, None => True
  | Some bh, Some k =>
      exists lv rs l x r, blk_ok blk_size (Z.of_nat (S lv)) (buffaddr bh) rs /\ rs = l ++ x :: r /\ r <> [] /\ g_key x = k /\
        split_at t l (x :: r) /\ curr_rec (bh_stat bh) = curr_rec (status_at t l (x :: r))
  | _, _ => False
  end.

(** A place in the tree: a data block, its records before and from the target
    on, and what is before and after the block. *)
Record place := mk_place {
  p_blk : Z; p_buf : list Z; p_left : list grec; p_right : list grec; p_full : bool; p_lo : list Z; p_hi : option (list Z);
  p_pre : list grec; p_post : list grec; p_up : list srch_blk_status
}.

Definition p_recs (p : place) : list grec := p_left p ++ p_right p.

Definition place_ok (whole : list grec) (p : place) : Prop :=
  way 0%nat (p_full p) (p_blk p) (p_lo p) (p_hi p) (p_pre p) (p_post p) (p_up p) /\
  t_qread (p_blk p) = Some (p_buf p) /\ blk_ok blk_size 0 (p_buf p) (p_recs p) /\
  Forall (fun r => in_range (p_lo p) (p_hi p) (g_key r)) (p_recs p) /\ (p_full p = true -> p_recs p <> []) /\
  split_at t (p_left p) (p_right p) /\ in_range (p_lo p) (p_hi p) t /\ whole = p_pre p ++ p_recs p ++ p_post p.

(** The target is above all keys of the index blocks of the tree of the records
    [whole]. *)
Definition above_index (whole : list grec) : Prop := forall lv full b lo hi pre post up m rs recs, way (S lv) full b lo hi pre post up ->
  t_qread b = Some m -> blk_ok blk_size (Z.of_nat (S lv)) m rs ->
  children (tree lv (full || (1 <? length rs)%nat)) lo hi rs recs -> whole = pre ++ recs ++ post -> Forall (fun r => g_key r = [] \/ gvlt (g_key r) t) rs.

(** It is when it is above all the records. *)
Lemma above_records whole : Forall (fun y => gvlt (g_key y) t) whole -> above_index whole.
Proof.
  intros Hw lv full b lo hi pre post up m rs recs _ _ Hb Hc ->. apply Forall_app in Hw as [_ [Hw _]%Forall_app]. destruct rs as [|r0 rs _] using rev_ind; [done|].
  apply Forall_app. split; [|constructor; [left|constructor]].
  - clear Hb. rewrite length_app in Hc. cbn [length] in Hc. revert lo recs Hw Hc. induction rs as [|r rs IH]; intros lo recs Hw Hc; [constructor|].
    assert ((1 <? length (r :: rs) + 1)%nat = true) as E by (apply Nat.ltb_lt; simpl; lia). rewrite E, orb_true_r in Hc. cbn [app children] in Hc.
    destruct Hc as (b' & _ & Hc). destruct (rs ++ [r0]) as [|z zs] eqn:Ez; [by destruct rs|]. destruct Hc as (_ & r1 & r2 & -> & _ & Hc).
    apply Forall_app in Hw as [_ Hw]. constructor.
    + right. pose proof (children_full _ _ _ _ _ _ _ Hc) as Hn. pose proof (children_above _ _ _ _ _ _ _ _ Hc) as Ha. destruct r2 as [|y r2]; [done|].
      apply Forall_inv in Hw, Ha. by transitivity (g_key y).
    + rewrite <- Ez in Hc. destruct rs as [|r' rs]; [constructor|]. apply (IH (g_key r) r2 Hw).
      assert ((1 <? length (r' :: rs) + 1)%nat = true) as -> by (apply Nat.ltb_lt; simpl; lia). by rewrite orb_true_r, <- Ez.
  - destruct (index_record blk_size lv m (rs ++ [r0]) rs r0 [] Hb eq_refl) as (_ & [(_ & [Hk _] & _)|(? & _)] & _); done.
Qed.

(** Every target is before the star record, and after the records of a skipped block. *)
Lemma above_split lv full b lo hi pre post up m rs recs whole l x r : way (S lv) full b lo hi pre post up -> t_qread b = Some m ->
  blk_ok blk_size (Z.of_nat (S lv)) m rs -> rs = l ++ x :: r -> split_at t l (x :: r) -> above_index whole ->
  children (tree lv (full || (1 <? length rs)%nat)) lo hi rs recs -> whole = pre ++ recs ++ post -> r = [].
Proof.
  intros Hz Hq Hb Er [_ Hx] Hab Hc Ew. destruct r as [|x' r]; [done|exfalso].
  destruct (index_record blk_size lv m rs l x (x' :: r) Hb Er) as (_ & [(? & _)|(_ & [Hk _] & _)] & _); [done|].
  specialize (Hab lv full b lo hi pre post up m rs recs Hz Hq Hb Hc Ew). rewrite Er in Hab.
  apply Forall_app in Hab as [_ [[Hn|Hlt] _]%Forall_cons]; [by apply gkey_not_nil in Hk|]. apply Hx. split; [by apply gkey_not_nil|done].
Qed.

(** The record of an index block for the target, when the block is searched and
    when it is skipped. *)
Lemma index_step e lv full b lo hi pre post up m rs recs l x r alt : way (S lv) full b lo hi pre post up -> t_qread b = Some m ->
  blk_ok blk_size (Z.of_nat (S lv)) m rs -> pos_after rs + 1023 <= zlen m -> rs = l ++ x :: r -> split_at t l (x :: r) ->
  children (tree lv (full || (1 <? length rs)%nat)) lo hi rs recs -> (skips_index e = true -> above_index (pre ++ recs ++ post)) ->
  let none := mk_rec_status 0 0 in
  exists st, (if skips_index e then
      let uninit := mk_rec_status PREV_REC_UNINITIALIZED PREV_REC_UNINITIALIZED in
      Ok (mk_bh b m (mk_status uninit (mk_rec_status (u16 (u16 (pos_after rs) - BSTAR_REC_SIZE)) 0)), alt)
    else search_bh blk_size (expands e) K (mk_bh b m (mk_status none none)) alt) = Ok (mk_bh b m st, alt) /\
    curr_rec st = curr_rec (status_at t l (x :: r)).
Proof.
  intros Hz Hq Hb Hrm Er Hs Hc Hab none. destruct (skips_index e).
  - eexists. split; [done|]. cbn [curr_rec].
    assert (r = []) as -> by (eapply above_split; try done; by apply Hab).
    destruct (index_record blk_size lv m rs l x [] Hb Er) as (_ & [(_ & [Hk _] & Hsz)|(? & _)] & _); [|done].
    unfold status_at. cbn [curr_rec]. rewrite Hk. cbn [lcp]. f_equal. destruct Hb as (_ & Hat & _).
    destruct (blk_at_recs _ _ _ _ Hat) as (_ & _ & _ & Hz'). pose proof (pos_after_ge l).
    assert (Ep : pos_after rs = pos_after l + BSTAR_REC_SIZE) by (by rewrite Er, pos_after_snoc, Hsz).
    unfold pos_after in Hz', Ep |- *. unfold u16, BSTAR_REC_SIZE, SIZEOF_rec_hdr, SIZEOF_block_id, MAX_DB_BLK_SIZE in *.
    unfold pos_after in *. unfold SIZEOF_blk_hdr in *. rewrite (Z.mod_small (16 + recs_size [] rs)) by lia. rewrite Z.mod_small by lia. lia.
  - exists (status_at t l (x :: r)). split; [|done]. by apply (search_index (expands e) lv m rs).
Qed.

(** The bounds of the child that the search takes. *)
Lemma child_range lo hi l x r : in_range lo hi t -> split_at t l (x :: r) -> (r <> [] -> g_key x <> []) ->
  in_range (default lo (g_key <$> last l)) (upper hi x r) t.
Proof.
  intros [H1 H2] [Hl Hx] Hn. split.
  - destruct l as [|y l _] using rev_ind; [done|]. rewrite last_snoc. by apply Forall_app in Hl as [_ [[_ ?] _]%Forall_cons].
  - unfold upper. destruct r as [|x' r]; [done|]. intros H. apply Hx. split; [by apply Hn|done].
Qed.

Lemma descend_spec e lv : forall full b lo hi pre post up m recs ns alt,
  way lv full b lo hi pre post up -> tree lv full b lo hi recs -> t_qread b = Some m -> in_range lo hi t -> nonstar_ok ns hi ->
  key_room alt 1024 -> (skips_index e = true -> above_index (pre ++ recs ++ post)) ->
  exists h p ns' alt', descend blk_size t_qread lv b m e K alt ns =
      Ok (mk_bh (p_blk p) (p_buf p) (status_at t (p_left p) (p_right p)) :: h, ns', alt') /\
    place_ok (pre ++ recs ++ post) p /\ p_up p = h ++ up /\ nonstar_ok ns' (p_hi p) /\
    key_room alt' 1024 /\ k_top alt' = k_top alt /\ (if expands e then alt_prev alt' (p_left p) else alt' = alt).
Proof.
  induction lv as [|lv IH]; intros full b lo hi pre post up m recs ns alt Hz Ht Hq Hr Hns Hroom Hab.
  - destruct Ht as (m' & rs & Hq' & Hb & -> & Hf & Hn). rewrite Hq in Hq'. injection Hq' as <-.
    destruct (split_exists t rs) as (l & r & -> & Hs). cbn [descend].
    destruct (search_leaf (expands e) m (l ++ r) (mk_status (mk_rec_status 0 0) (mk_rec_status 0 0)) b alt l r Hb Hroom eq_refl Hs) as (alt' & -> & H1 & H2 & H3).
    cbn [mbind res_bind]. exists [], (mk_place b m l r full lo hi pre post up), ns, alt'. split; [done|].
    split; [|done]. unfold place_ok, p_recs. cbn. done.
  - destruct Ht as (m' & rs & Hq' & Hb & Hrm & Hc). rewrite Hq in Hq'. injection Hq' as <-.
    pose proof Hb as (_ & Hat & Hix). assert ((Z.of_nat (S lv) =? 0) = false) as E0 by (apply Z.eqb_neq; lia). rewrite E0 in Hix.
    destruct (index_split t rs Hix) as (l & x & r & Er & Hs). cbn [descend].
    destruct (blk_at_recs _ _ _ _ Hat) as (Ha & _ & Hbs & Hsz). rewrite Hbs. cbn [mbind res_bind].
    change (SIZEOF_blk_hdr + recs_size [] rs) with (pos_after rs).
    destruct (index_step e lv full b lo hi pre post up m rs recs l x r alt Hz Hq Hb Hrm Er Hs Hc Hab) as (st & Est & Ecr).
    cbv zeta in Est |- *. rewrite Est. cbn [mbind res_bind bh_stat]. rewrite Ecr.
    change (sr_offset (curr_rec (status_at t l (x :: r)))) with (pos_after l).
    destruct (index_record blk_size lv m rs l x r Hb Er) as (Hv & Hx & Hl).
    assert (Hp : pos_after l + rec_size (last_key [] l) x <= pos_after rs).
    { rewrite Er. unfold pos_after. rewrite recs_size_app. cbn [recs_size]. pose proof (recs_size_nonneg (g_key x) r). lia. }
    pose proof (rec_size_pos (last_key [] l) x) as Hz4. unfold SIZEOF_rec_hdr in Hz4.
    assert (Hu : u16 (pos_after rs) = pos_after rs).
    { unfold u16. apply Z.mod_small. pose proof (pos_after_ge rs). unfold pos_after, SIZEOF_blk_hdr, MAX_DB_BLK_SIZE in *. lia. }
    rewrite Hu. zif_false. pose proof (at_split m rs Ha l (x :: r) Er) as Hax.
    destruct (recs_at_hdr _ _ _ _ _ Hax) as [-> _]. cbn [mbind res_bind]. unfold check_reclen, CHKRECLEN. rewrite Hbs. cbn [mbind res_bind].
    change (SIZEOF_blk_hdr + recs_size [] rs) with (pos_after rs). assert ((rec_size (last_key [] l) x + pos_after l <=? pos_after rs) = true) as -> by (apply Z.leb_le; lia).
    rewrite Er in Hc. apply children_split in Hc as (cpre & cx & cpost & b' & -> & Hlf & Hpt & Htx & Hri & Hir & Hil). cbn [mbind res_bind].
    rewrite (blk_of_rec_at m _ _ x r b' Hax Hv Hpt). cbn [mbind res_bind].
    pose proof Htx as Htx'. assert (exists mx rsx, t_qread b' = Some mx /\ blk_ok blk_size (Z.of_nat lv) mx rsx) as (mx & rsx & Hqx & Hbx).
    { destruct lv; destruct Htx as (mx & rsx & ? & ? & _); by exists mx, rsx. }
    unfold read_blk. rewrite Hqx. cbn [mbind res_bind]. destruct Hbx as (_ & Hatx & _).
    destruct (blk_at_recs _ _ _ _ Hatx) as (_ & -> & _ & _). cbn [mbind res_bind]. rewrite Z.eqb_refl. cbn [negb].
    set (f := full || (1 <? length rs)%nat) in *. rewrite <- Er in *.
    destruct (IH f b' (default lo (g_key <$> last l)) (upper hi x r) (pre ++ cpre) (cpost ++ post) (mk_bh b m st :: up) mx cx
      (if negb (BSTAR_REC_SIZE =? rec_size (last_key [] l) x) then Some (mk_bh b m st) else ns) alt) as (h & p & ns' & alt' & -> & Hpl & Hup & Hns' & Hrest).
    + by apply (zip_step blk_size t_qread rt depth lv full b lo hi pre post up m rs l x r).
    + done.
    + done.
    + apply child_range; [done|done|]. intros Hn. destruct Hx as [[? _]|(_ & [Hk _] & _)]; [done|by apply gkey_not_nil].
    + destruct Hx as [(-> & _ & ->)|(Hn & Hk & _ & Hsz')].
      * rewrite Z.eqb_refl. done.
      * assert ((BSTAR_REC_SIZE =? rec_size (last_key [] l) x) = false) as -> by (apply Z.eqb_neq; congruence). cbn [negb].
        destruct r as [|x' r]; [done|]. cbn [upper nonstar_ok]. exists lv, rs, l, x, (x' :: r). cbn [buffaddr bh_stat]. done.
    + done.
    + intros He. specialize (Hab He). rewrite <- !app_assoc in Hab. by rewrite <- !app_assoc.
    + cbn [mbind res_bind]. exists (h ++ [mk_bh b m st]), p, ns', alt'. rewrite <- !app_assoc in Hpl. rewrite <- !app_assoc. cbn [app]. done.
Qed.
End down.
