(* ===== verification/Gvsib.v ===== *)
(** gvcst_rtsib and gvcst_lftsib find the data blocks next to the one of a key. *)

From stdpp Require Import base list numbers option tactics sorting.
From Stdlib Require Import ZArith Lia.
From S2P Require Import Prelude Subscript Gvsub Gvkey Gdsblk Blkexpand Blksearch Blktail Blkprev Gvtree Gvzip Gvdown.

Open Scope Z_scope.

Section sib.
Context (blk_size : Z) (t_qread : Z -> option (list Z)).

Abbreviation tree := (tree_at blk_size t_qread).

(** A data block that is not empty. *)
Definition data_block (b : Z) (m : list Z) (rs : list grec) : Prop :=
  t_qread b = Some m /\ blk_ok blk_size 0 m rs /\ rs <> [].

Lemma index_children lv full b lo hi recs m rs :
  tree (S lv) full b lo hi recs -> t_qread b = Some m -> blk_ok blk_size (Z.of_nat (S lv)) m rs ->
  exists f rs', t_qread b = Some m /\ blk_ok blk_size (Z.of_nat (S lv)) m rs' /\ children (tree lv f) lo hi rs' recs /\ (full = true -> f = true).
Proof.
  intros (m' & rs' & Hq & Hb & _ & Hc) Hq' _. rewrite Hq' in Hq. injection Hq as <-.
  exists (full || (1 <? length rs')%nat), rs'. split; [done|]. split; [done|]. split; [done|]. by intros ->.
Qed.

Lemma leftmost_step n m rp : down_left t_qread (S n) m rp =
  (rec_size ← rsiz m rp; b ← bsiz m;
   if b <? rp + rec_size then Err (CDB_SC cdb_sc_rmisalign)
   else
     blk ← blk_of_rec m rp rec_size; m ← read_blk t_qread blk;
     let bh := mk_bh blk m (mk_status (mk_rec_status 0 0) (mk_rec_status SIZEOF_blk_hdr 0)) in
     h ← down_left t_qread n m SIZEOF_blk_hdr; Ok (h ++ [bh])).
Proof. done. Qed.

Lemma rightmost_step n bp rtop : down_right t_qread (S n) bp rtop =
  (blk ← GET_BLK_ID bp (rtop - SIZEOF_block_id); m ← read_blk t_qread blk; b ← bsiz m;
   h ← down_right t_qread n m (u16 b); Ok (h ++ [mk_bh blk m (mk_status (mk_rec_status 0 0) (mk_rec_status 0 0))])).
Proof. done. Qed.

Lemma down_left_spec lv : forall m pos pk x rest b' lo hi recs B,
  recs_at m pos pk (x :: rest) -> bsiz m = Ok B -> pos + rec_size pk x <= B -> zlen (g_val x) = SIZEOF_block_id -> points x b' ->
  tree lv true b' lo hi recs ->
  exists b1 m1 rs1 post1 st h, down_left t_qread (S lv) m pos = Ok (mk_bh b1 m1 st :: h) /\ data_block b1 m1 rs1 /\ recs = rs1 ++ post1.
Proof.
  induction lv as [|lv IH]; intros m pos pk x rest b' lo hi recs B Ha HB Hp Hv Hpt Ht; rewrite leftmost_step;
    (destruct (recs_at_hdr _ _ _ _ _ Ha) as [-> _]); cbn [mbind res_bind]; rewrite HB; cbn [mbind res_bind]; zif_false;
    rewrite (blk_of_rec_at m pos pk x rest b' Ha Hv Hpt); cbn [mbind res_bind]; unfold read_blk.
  - destruct Ht as (m1 & rs1 & Hq & Hb & -> & _ & Hn). rewrite Hq. cbn [mbind res_bind app].
    eexists b', m1, rs1, [], _, []. split; [done|]. rewrite app_nil_r. split; [|done]. split; [done|]. split; [done|]. by apply Hn.
  - pose proof Ht as (m1 & rs1 & Hq & Hb & _ & Hc). rewrite Hq. cbn [mbind res_bind orb] in *.
    destruct rs1 as [|y ys]; [done|].
    apply (children_split _ _ _ [] y ys) in Hc as (cpre & cx & cpost & b2 & -> & -> & Hpt2 & Ht2 & _ & _ & _).
    destruct (index_record blk_size lv m1 (y :: ys) [] y ys Hb eq_refl) as (Hvy & _ & _).
    pose proof Hb as (_ & Hat & _). destruct (blk_at_recs _ _ _ _ Hat) as (Ha1 & _ & Hb1 & _).
    destruct (IH m1 SIZEOF_blk_hdr [] y ys b2 lo (upper hi y ys) cx _ Ha1 Hb1) as (b3 & m3 & rs3 & post3 & st & h & -> & Hd & ->); try done.
    { cbn [recs_size]. pose proof (recs_size_nonneg (g_key y) ys). lia. }
    cbn [mbind res_bind]. eexists b3, m3, rs3, (post3 ++ cpost), st, _. split; [done|]. split; [done|]. by rewrite <- app_assoc.
Qed.

Lemma down_right_spec lv : forall bp rtop b' lo hi recs,
  GET_BLK_ID bp (rtop - SIZEOF_block_id) = Ok b' -> tree lv true b' lo hi recs ->
  exists b1 m1 rs1 pre1 st h, down_right t_qread (S lv) bp rtop = Ok (mk_bh b1 m1 st :: h) /\ data_block b1 m1 rs1 /\ recs = pre1 ++ rs1.
Proof.
  induction lv as [|lv IH]; intros bp rtop b' lo hi recs Hg Ht; rewrite rightmost_step, Hg; cbn [mbind res_bind]; unfold read_blk.
  - destruct Ht as (m1 & rs1 & Hq & Hb & -> & _ & Hn). rewrite Hq. cbn [mbind res_bind].
    pose proof Hb as (_ & Hat & _). destruct (blk_at_recs _ _ _ _ Hat) as (_ & _ & -> & _). cbn [mbind res_bind app].
    eexists b', m1, rs1, [], _, []. split; [done|]. split; [|done]. split; [done|]. split; [done|]. by apply Hn.
  - pose proof Ht as (m1 & rs1 & Hq & Hb & _ & Hc). rewrite Hq. cbn [mbind res_bind orb] in *.
    pose proof Hb as (_ & Hat & Hix). assert ((Z.of_nat (S lv) =? 0) = false) as E0 by (apply Z.eqb_neq; lia). rewrite E0 in Hix.
    destruct Hix as (ks & star & Ers & _). subst rs1.
    apply (children_split _ _ _ ks star []) in Hc as (cpre & cx & cpost & b2 & -> & _ & Hpt2 & Ht2 & -> & _ & _).
    destruct (index_record blk_size lv m1 _ ks star [] Hb eq_refl) as (Hvs & _ & _).
    destruct (blk_at_recs _ _ _ _ Hat) as (Ha1 & _ & Hb1 & Hsz). rewrite Hb1. cbn [mbind res_bind].
    change (SIZEOF_blk_hdr + recs_size [] (ks ++ [star])) with (pos_after (ks ++ [star])) in *.
    assert (Hu : u16 (pos_after (ks ++ [star])) = pos_after ks + rec_size (last_key [] ks) star).
    { rewrite <- pos_after_snoc. unfold u16. apply Z.mod_small. pose proof (pos_after_ge (ks ++ [star])). unfold SIZEOF_blk_hdr, MAX_DB_BLK_SIZE in *. lia. }
    rewrite Hu. pose proof (blk_of_rec_at m1 _ _ star [] b2 (at_split m1 _ Ha1 ks [star] eq_refl) Hvs Hpt2) as Hch.
    destruct (IH m1 _ b2 _ _ cx Hch Ht2) as (b3 & m3 & rs3 & pre3 & st & h & -> & Hd & ->).
    cbn [mbind res_bind]. eexists b3, m3, rs3, (cpre ++ pre3), st, _. split; [done|]. split; [done|]. by rewrite app_nil_r, <- app_assoc.
Qed.

Section way.
Context (rt : Z) (depth : nat) (K alt : gv_key) (t : list Z).
Hypothesis HK : key_holds K t.

Abbreviation way := (zip blk_size t_qread rt depth).

Lemma sorted_before l : Forall rec_ok l -> keys_sorted l -> gvlt (last_key [] l) t -> Forall (before t) l.
Proof.
  intros Hok Hs Hl. destruct l as [|y l _] using rev_ind; [constructor|]. rewrite last_key_snoc in Hl.
  assert (Hy : forall z, z ∈ l ++ [y] -> gvlt (g_key z) t).
  { intros z Hz. apply elem_of_app in Hz as [Hz|Hz%list_elem_of_singleton]; [|by subst z].
    unfold keys_sorted in Hs. rewrite fmap_app in Hs. apply StronglySorted_app in Hs as (Hs & _ & _).
    transitivity (g_key y); [|done]. apply Hs; [by apply list_elem_of_fmap_2|by left]. }
  apply Forall_forall. intros z Hz. split; [|by apply Hy]. rewrite Forall_forall in Hok. destruct (Hok z Hz) as [Hk _]. by apply gkey_not_nil.
Qed.

(** A target in the range of a child is searched at the record of that child,
    and is in the range of its parent. *)
Lemma range_split lv m rs l x r lo hi : blk_ok blk_size (Z.of_nat (S lv)) m rs -> rs = l ++ x :: r ->
  in_range (default lo (g_key <$> last l)) (upper hi x r) t -> gkey_ok t -> split_at t l (x :: r).
Proof.
  intros Hb Er [H1 H2] Ht. destruct (index_record blk_size lv m rs l x r Hb Er) as (_ & Hx & Hl). split.
  - apply sorted_before; [done| |].
    + destruct Hb as (_ & _ & Hi). assert ((Z.of_nat (S lv) =? 0) = false) as E0 by (apply Z.eqb_neq; lia). rewrite E0 in Hi.
      destruct Hi as (ks & star & Ek & _ & _ & Hs & _). rewrite Er in Ek.
      assert (exists k2, ks = l ++ k2) as [k2 ->].
      { destruct r as [|y r _] using rev_ind; [apply app_inj_tail in Ek as [<- _]; exists []; by rewrite app_nil_r|].
        rewrite app_comm_cons, app_assoc in Ek. apply app_inj_tail in Ek as [<- _]. by eexists. }
      unfold keys_sorted in *. rewrite fmap_app in Hs. by apply StronglySorted_app in Hs as (_ & ? & _).
    + destruct l as [|y l0 _] using rev_ind; [by destruct t; [by apply gkey_not_nil in Ht|]|]. rewrite last_snoc in H1. by rewrite last_key_snoc.
  - intros [Hn Hlt]. destruct r as [|x' r].
    + destruct Hx as [(_ & [Hk _] & _)|(? & _)]; done.
    + by apply H2.
Qed.

Lemma parent_range lv f lo hi l x r cpre : lefts (tree lv f) lo l cpre ->
  (r <> [] -> in_range (default lo (g_key <$> last l)) hi (g_key x)) ->
  in_range (default lo (g_key <$> last l)) (upper hi x r) t -> in_range lo hi t.
Proof.
  intros [Hl _]%lefts_range Hr [H1 H2]. split.
  - by eapply not_lt_trans.
  - destruct hi as [h|]; [|done]. destruct r as [|x' r]; [done|]. cbn [upper] in H2. destruct (Hr ltac:(done)) as [_ Hh].
    intros Hlt. apply Hh. by eapply lt_not_trans.
Qed.

Lemma rtsib_spec n full b lo hi pre post up : way n full b lo hi pre post up -> in_range lo hi t ->
  (post = [] /\ gvcst_rtsib blk_size t_qread n up K alt = Err (CDB_SC cdb_sc_endtree)) \/
  (exists up' b1 m1 rs1 post1 st h, gvcst_rtsib blk_size t_qread n up K alt = Ok (up', mk_bh b1 m1 st :: h) /\
    way n full b lo hi pre post up' /\ data_block b1 m1 rs1 /\ post = rs1 ++ post1).
Proof.
  destruct HK as (_ & _ & Ht & _).
  induction 1 as [|lv full b lo hi pre post up m rs l x r st b' cpre cpost Hz IH Hq Hb Hrm Er Hpt Hl Hri Hir Hil]; intros Hr; [by left|].
  pose proof (range_split lv m rs l x r lo hi Hb Er Hr Ht) as Hs. pose proof (parent_range _ _ _ _ _ _ _ _ Hl Hir Hr) as Hpr.
  cbn [gvcst_rtsib]. rewrite (search_index blk_size K t HK false lv m rs st b alt l (x :: r) Hb Hrm Er Hs). cbn [mbind res_bind buffaddr bh_stat].
  change (sr_offset (curr_rec (status_at t l (x :: r)))) with (pos_after l). pose proof Hb as (_ & Hat & _).
  destruct (blk_at_recs _ _ _ _ Hat) as (Ha & _ & Hbs & Hsz). pose proof (at_split m rs Ha l (x :: r) Er) as Hax.
  destruct (recs_at_hdr _ _ _ _ _ Hax) as [-> _]. cbn [mbind res_bind]. rewrite Hbs. cbn [mbind res_bind].
  change (SIZEOF_blk_hdr + recs_size [] rs) with (pos_after rs) in *. rewrite <- pos_after_snoc.
  destruct r as [|y r].
  - assert (El : pos_after rs = pos_after (l ++ [x])) by (by rewrite Er). zif_false. zif_false. cbn [rights] in Hri. subst cpost.
    destruct (IH Hpr) as [[-> ->]|(up' & b1 & m1 & rs1 & post1 & st1 & h & -> & Hz' & Hd & ->)]; [by left|right].
    cbn [mbind res_bind]. eexists _, b1, m1, rs1, post1, st1, h. split; [done|]. split; [|done].
    by apply (zip_step blk_size t_qread rt depth lv full b lo hi pre (rs1 ++ post1) up' m rs l x [] (status_at t l [x]) b' cpre []).
  - assert (Hlt : pos_after (l ++ [x]) + rec_size (g_key x) y <= pos_after rs).
    { rewrite Er. unfold pos_after. rewrite !recs_size_app. cbn [recs_size]. pose proof (recs_size_nonneg (g_key y) r). lia. }
    pose proof (rec_size_pos (g_key x) y) as Hz4. unfold SIZEOF_rec_hdr in Hz4. zif_false. zif_true.
    assert (Hu : u16 (pos_after (l ++ [x])) = pos_after (l ++ [x])).
    { unfold u16. apply Z.mod_small. pose proof (pos_after_ge (l ++ [x])). unfold SIZEOF_blk_hdr, MAX_DB_BLK_SIZE in *. lia. }
    rewrite Hu. assert (Ef : full || (1 <? length rs)%nat = true).
    { rewrite Er, length_app. cbn [length]. apply orb_true_iff. right. apply Nat.ltb_lt. lia. }
    rewrite Ef in *. cbn [rights] in Hri. pose proof Hri as Hri'.
    apply (children_split _ _ _ [] y r) in Hri as (c1 & cx & c3 & b2 & Ec & -> & Hpt2 & Ht2 & _). cbn [app] in Ec.
    assert (Er2 : rs = (l ++ [x]) ++ y :: r) by (by rewrite <- app_assoc).
    destruct (index_record blk_size lv m rs (l ++ [x]) y r Hb Er2) as (Hvy & _ & _).
    pose proof (at_split m rs Ha (l ++ [x]) (y :: r) Er2) as Hay. rewrite last_key_snoc in Hay.
    destruct (down_left_spec lv m (pos_after (l ++ [x])) (g_key x) y r b2 _ _ cx _ Hay Hbs Hlt Hvy Hpt2 Ht2) as
      (b3 & m3 & rs3 & post3 & st3 & h & -> & Hd & ->).
    cbn [mbind res_bind]. right. eexists _, b3, m3, rs3, (post3 ++ c3 ++ post), st3, _. split; [done|]. split; [|split; [done|]].
    + rewrite <- Ef. apply (zip_step blk_size t_qread rt depth lv full b lo hi pre post up m rs l x (y :: r) (status_at t l (x :: y :: r)) b' cpre cpost);
        rewrite ?Ef; done.
    + by rewrite Ec, <- !app_assoc.
Qed.

Lemma lefts_last lv f lo l y cpre : lefts (tree lv f) lo (l ++ [y]) cpre ->
  exists c1 c2 b lo', cpre = c1 ++ c2 /\ points y b /\ tree lv f b lo' (Some (g_key y)) c2.
Proof.
  revert lo cpre. induction l as [|x l IH]; intros lo cpre; cbn [app lefts].
  - intros (b & r1 & r2 & Hp & _ & -> & Ht & ->). exists [], r1, b, lo. by rewrite app_nil_r.
  - intros (b & r1 & r2 & _ & _ & -> & _ & (c1 & c2 & b' & lo' & -> & Hp & Ht)%IH). exists (r1 ++ c1), c2, b', lo'. by rewrite <- app_assoc.
Qed.

Lemma lftsib_here n old up : 0 < sr_offset (prev_rec (bh_stat old)) ->
  gvcst_lftsib blk_size t_qread n old up K alt =
  (rec_size ← rsiz (buffaddr old) (sr_offset (prev_rec (bh_stat old)));
   b ← bsiz (buffaddr old);
   let rtop := u16 (sr_offset (prev_rec (bh_stat old)) + rec_size) in
   if b <? rtop then Err (CDB_SC cdb_sc_rmisalign)
   else
     h ← down_right t_qread n (buffaddr old) rtop;
     Ok (old :: up, h ++ [mk_bh (blk_num old) (buffaddr old) (mk_status (prev_rec (bh_stat old)) (prev_rec (bh_stat old)))])).
Proof. intros H. destruct up; cbn [gvcst_lftsib]; by zif_true. Qed.

Lemma lftsib_spec n full b lo hi pre post up : way n full b lo hi pre post up -> in_range lo hi t ->
  forall old, sr_offset (prev_rec (bh_stat old)) = 0 ->
  (pre = [] /\ gvcst_lftsib blk_size t_qread n old up K alt = Err (CDB_SC cdb_sc_endtree)) \/
  (exists up' b1 m1 rs1 pre1 st h, gvcst_lftsib blk_size t_qread n old up K alt = Ok (old :: up', mk_bh b1 m1 st :: h) /\
    way n full b lo hi pre post up' /\ data_block b1 m1 rs1 /\ pre = pre1 ++ rs1).
Proof.
  destruct HK as (_ & _ & Ht & _).
  induction 1 as [|lv full b lo hi pre post up m rs l x r st b' cpre cpost Hz IH Hq Hb Hrm Er Hpt Hl Hri Hir Hil]; intros Hr old Hold.
  { left. split; [done|]. destruct depth; cbn [gvcst_lftsib]; by rewrite Hold. }
  pose proof (range_split lv m rs l x r lo hi Hb Er Hr Ht) as Hs. pose proof (parent_range _ _ _ _ _ _ _ _ Hl Hir Hr) as Hpr.
  cbn [gvcst_lftsib]. rewrite Hold. change (0 <? 0) with false. cbv iota.
  rewrite (search_index blk_size K t HK false lv m rs st b alt l (x :: r) Hb Hrm Er Hs). cbn [mbind res_bind].
  set (old' := mk_bh b m (status_at t l (x :: r))).
  destruct l as [|y l _] using rev_ind.
  - cbn [lefts] in Hl. subst cpre. destruct (IH Hpr old' eq_refl) as [[-> ->]|(up' & b1 & m1 & rs1 & pre1 & st1 & h & -> & Hz' & Hd & ->)]; [by left|right].
    cbn [mbind res_bind]. eexists _, b1, m1, rs1, pre1, st1, h. split; [done|]. split; [|by rewrite app_nil_r].
    by apply (zip_step blk_size t_qread rt depth lv full b lo hi (pre1 ++ rs1) post up' m rs [] x r (status_at t [] (x :: r)) b' [] cpost).
  - right. pose proof Hb as (_ & Hat & _). destruct (blk_at_recs _ _ _ _ Hat) as (Ha & _ & Hbs & Hsz).
    assert (Er2 : rs = l ++ y :: x :: r) by (by rewrite Er, <- app_assoc).
    pose proof (at_split m rs Ha l (y :: x :: r) Er2) as Hay. destruct (recs_at_hdr _ _ _ _ _ Hay) as [Hrs _].
    assert (Eoff : sr_offset (prev_rec (bh_stat old')) = pos_after l) by (subst old'; cbn [bh_stat status_at prev_rec sr_offset]; by rewrite pos_last_snoc).
    change (SIZEOF_blk_hdr + recs_size [] rs) with (pos_after rs) in *. pose proof (pos_after_ge l) as Hge.
    assert (Hlt : pos_after l + rec_size (last_key [] l) y <= pos_after rs).
    { rewrite Er2. unfold pos_after. rewrite !recs_size_app. cbn [recs_size]. pose proof (recs_size_nonneg (g_key x) r). pose proof (rec_size_pos (g_key y) x).
      unfold SIZEOF_rec_hdr in *. lia. }
    pose proof (rec_size_pos (last_key [] l) y) as Hz4.
    assert (Hu : u16 (pos_after l + rec_size (last_key [] l) y) = pos_after l + rec_size (last_key [] l) y).
    { unfold u16. apply Z.mod_small. unfold SIZEOF_blk_hdr, SIZEOF_rec_hdr, MAX_DB_BLK_SIZE in *. lia. }
    destruct (index_record blk_size lv m rs l y (x :: r) Hb Er2) as (Hvy & _ & _).
    apply lefts_last in Hl as Hly. destruct Hly as (c1 & c2 & b2 & lo' & Ec & Hpy & Hty).
    assert (Ef : full || (1 <? length rs)%nat = true).
    { rewrite Er2, length_app. cbn [length]. apply orb_true_iff. right. apply Nat.ltb_lt. lia. }
    rewrite Ef in *. pose proof (blk_of_rec_at m _ _ y (x :: r) b2 Hay Hvy Hpy) as Hch.
    destruct (down_right_spec lv m _ b2 lo' _ c2 Hch Hty) as (b3 & m3 & rs3 & pre3 & st3 & h & Erm & Hd & Ec2).
    rewrite lftsib_here by (rewrite Eoff; unfold SIZEOF_blk_hdr in *; lia). rewrite Eoff. change (buffaddr old') with m. rewrite Hrs, Hbs.
    cbn [mbind res_bind]. change (SIZEOF_blk_hdr + recs_size [] rs) with (pos_after rs). rewrite Hu. zif_false. rewrite Erm.
    cbn [mbind res_bind]. eexists _, b3, m3, rs3, (pre ++ c1 ++ pre3), st3, _. split; [done|]. split; [|split; [done|] ].
    + rewrite <- Ef. apply (zip_step blk_size t_qread rt depth lv full b lo hi pre post up m rs (l ++ [y]) x r (status_at t (l ++ [y]) (x :: r)) b' cpre cpost);
        rewrite ?Ef; done.
    + by rewrite Ec, Ec2, <- !app_assoc.
Qed.
End way.
End sib.
