(* ===== verification/Gvclue.v ===== *)
(** gvcst_search: the clue, a copy of the key and of the way of the last search,
    with the bounds of the data block where it ended.  A search that uses the clue
    ends where one from the root does. *)

From stdpp Require Import base list numbers option tactics sorting.
From Stdlib Require Import ZArith Lia.
From S2P Require Import Prelude Subscript Gvsub Gvkey Gdsblk Blkexpand Blksearch Blktail Blkprev Gvtree Gvzip Gvdown.

Open Scope Z_scope.

(** * Comparing keys *)

Lemma lexcmp_at a b i x y : take i a = take i b -> a !! i = Some x -> b !! i = Some y -> x <> y -> lexcmp a b = (x ?= y).
Proof.
  revert a b. induction i as [|i IH]; intros [|u a] [|v b]; simpl; intros E Ea Eb Hn; try done.
  - injection Ea as ->. injection Eb as ->. destruct (Z.compare_spec x y) as [->| |]; done.
  - injection E as -> E. rewrite Z.compare_refl. by apply IH.
Qed.

(** A key and a buffer, as far as the key goes. *)
Definition compares (a : list Z) (t b : list Z) (c : comparison) : Prop := memcmp_n a b (zlen t) = Ok c.

Lemma memcmp_key a t s b k s' : a = t ++ s -> b = k ++ s' -> gkey_ok t -> gkey_ok k -> zlen t <= zlen b ->
  memcmp_n a b (zlen t) = Ok (lexcmp t k).
Proof.
  intros -> Eb Ht Hk Hl. unfold memcmp_n. unfold zlen at 1 2.
  rewrite (rd_list_0 (t ++ s) (length t) t); [|rewrite length_app; lia|apply take_app_length].
  cbn [mbind res_bind]. rewrite (rd_list_0 b (length t) (take (length t) b)); [|unfold zlen in *; lia|done].
  cbn [mbind res_bind]. f_equal. destruct (decide (t = k)) as [->|Hn].
  { by rewrite Eb, take_app_length. }
  pose proof (gkey_lcp t k Ht Hk Hn) as H1. pose proof (gkey_lcp k t Hk Ht ltac:(congruence)) as H2. rewrite lcp_comm in H2.
  destruct (lookup_lt_is_Some_2 t _ H1) as [x Ex]. destruct (lookup_lt_is_Some_2 k _ H2) as [y Ey].
  assert (Hxy : x <> y).
  { intros ->. assert (S (lcp t k) <= lcp t k)%nat; [|lia]. apply lcp_ge; [|lia|lia].
    rewrite (take_S_r _ _ _ Ex), (take_S_r _ _ _ Ey). f_equal. by apply lcp_take. }
  rewrite (lexcmp_at t k (lcp t k) x y); [|by apply lcp_take|done|done|done].
  apply (lexcmp_at _ _ (lcp t k)); [|done| |done].
  - rewrite take_take, Nat.min_l by lia. rewrite Eb, take_app_le by lia. by apply lcp_take.
  - rewrite lookup_take_lt by lia. rewrite Eb. by rewrite lookup_app_l by lia.
Qed.

Lemma memcmp_max a t s b s' : a = t ++ s -> b = [255; 255] ++ s' -> gkey_ok t -> (forall x, t !! 0%nat = Some x -> x < 255) ->
  zlen t <= zlen b -> memcmp_n a b (zlen t) = Ok Lt.
Proof.
  intros -> -> Ht Hx Hl. unfold memcmp_n. unfold zlen at 1 2. pose proof (gkey_length t Ht) as Hn.
  rewrite (rd_list_0 (t ++ s) (length t) t); [|rewrite length_app; lia|apply take_app_length].
  cbn [mbind res_bind]. rewrite (rd_list_0 _ (length t) (take (length t) ([255; 255] ++ s'))); [|unfold zlen in *; lia|done].
  cbn [mbind res_bind]. f_equal. destruct t as [|x t]; [simpl in Hn; lia|]. specialize (Hx x eq_refl). cbn [length take app lexcmp].
  destruct (Z.compare_spec x 255); try lia. done.
Qed.

(** * Copying keys *)

Lemma wr_one dst j x : (j < length dst)%nat -> wr_list dst (Z.of_nat j) [x] = Some (take j dst ++ [x] ++ drop (j + 1) dst).
Proof.
  intros H. rewrite wr_list_spec by (unfold zlen; simpl; lia). rewrite Nat2Z.id.
  replace (Z.to_nat (Z.of_nat j + zlen [x])) with (j + 1)%nat by (unfold zlen; simpl; lia). done.
Qed.

Lemma copy_dnull_spec n src i k c dst : gkey_ok k -> reads src i c k -> (c + 2 <= length k)%nat -> (length k - c <= n)%nat ->
  take c dst = take c k -> (length k <= length dst)%nat ->
  exists slack, copy_dnull n src i dst (Z.of_nat c) = Ok (Some (k ++ slack)) /\ length (k ++ slack) = length dst.
Proof.
  intros Hk. revert i c dst. induction n as [|n IH]; intros i c dst Hr Hc Hn Ed Hl; [lia|]. cbn [copy_dnull].
  destruct (lookup_lt_is_Some_2 k c) as [x Hx]; [lia|]. destruct (lookup_lt_is_Some_2 k (S c)) as [y Hy]; [lia|].
  rewrite (rd8_reads src i c k x Hr Hx). cbn [mbind res_bind]. rewrite wr_one by lia. cbn [res_of mbind res_bind].
  set (d := take c dst ++ [x] ++ drop (c + 1) dst).
  assert (Ld : length d = length dst) by (subst d; rewrite !length_app, length_take, length_drop; simpl; lia).
  assert (Td : take (S c) d = take (S c) k).
  { subst d. rewrite Ed, app_assoc, <- (take_S_r k c x Hx). rewrite take_app_le by (rewrite length_take; lia). by rewrite take_take, Nat.min_id. }
  assert (En : (if x =? 0 then rd8 src (i + 1) else Ok 1) = Ok (if x =? 0 then y else 1)).
  { destruct (x =? 0); [|done]. by apply (rd8_reads src _ (S c) k y); [apply reads_next|]. }
  rewrite En. cbn [mbind res_bind]. pose proof (gkey_end k c x y Hk Hx Hy) as He.
  destruct ((x =? 0) && ((if x =? 0 then y else 1) =? 0)) eqn:E.
  - apply andb_prop in E as [E0 E1]. rewrite E0 in E1. apply Z.eqb_eq in E0, E1. subst x y.
    assert ((c + 2)%nat = length k) as Hend by (by apply He). assert ((n =? 0)%nat = false) as -> by (apply Nat.eqb_neq; lia).
    replace (Z.of_nat c + 1) with (Z.of_nat (S c)) by lia. rewrite wr_one by lia. cbn [res_of mbind res_bind Z.eqb].
    exists (drop (S c + 1) d). rewrite Td, app_assoc, <- (take_S_r k (S c) 0 Hy), take_ge by lia. split; [done|].
    rewrite length_app, length_drop. lia.
  - assert (Hne : (c + 2)%nat <> length k).
    { intros [-> ->]%He. done. }
    replace (Z.of_nat c + 1) with (Z.of_nat (S c)) by lia. rewrite <- Ld. apply IH; try done; try lia. by apply reads_next.
Qed.

Lemma copy_rec_key_spec n0 top src i k c dst : gkey_ok k -> reads src i c k -> (c + 2 <= length k)%nat ->
  zlen k - Z.of_nat c <= n0 -> zlen k <= top -> take c dst = take c k -> (length k <= length dst)%nat ->
  exists slack, copy_rec_key n0 top (Z.of_nat c) src i dst = Ok (k ++ slack) /\ length (k ++ slack) = length dst.
Proof.
  intros Hk Hr Hc Hn Ht Ed Hl. unfold copy_rec_key.
  destruct (copy_dnull_spec (Z.to_nat (Z.min n0 (top - Z.of_nat c))) src i k c dst Hk Hr Hc) as (sl & E & Ez); [unfold zlen in *; lia|done|done|].
  exists sl. split; [|done]. zcase; cbv zeta beta iota.
  - rewrite Z.min_r in E by lia. by rewrite E.
  - rewrite Z.min_l in E by lia. by rewrite E.
Qed.

Lemma COPY_KEY_spec targ src : 0 <= k_end src -> k_end src + 1 <= zlen (k_base src) -> k_end src + 1 <= zlen (k_base targ) ->
  COPY_KEY targ src = Ok (mk_gv_key (k_top targ) (k_end src) (k_prev src)
    (take (Z.to_nat (k_end src + 1)) (k_base src) ++ drop (Z.to_nat (k_end src + 1)) (k_base targ))).
Proof.
  intros H0 H1 H2. unfold COPY_KEY.
  replace (k_end src + 1) with (Z.of_nat (Z.to_nat (k_end src + 1))) by lia.
  rewrite (rd_list_0 (k_base src) _ (take (Z.to_nat (k_end src + 1)) (k_base src))); [|unfold zlen in *; lia|done].
  cbn [mbind res_bind]. rewrite wr_list_spec by (unfold zlen in *; rewrite ?length_take; lia). cbn [res_of mbind res_bind].
  rewrite take_0, Nat2Z.id. cbn [app].
  assert (El : Z.to_nat (0 + zlen (take (Z.to_nat (k_end src + 1)) (k_base src))) = Z.to_nat (k_end src + 1)).
  { unfold zlen in *. rewrite length_take. lia. }
  by rewrite El.
Qed.

(** * The state *)

(** Room for keys of the largest size. *)
Definition rooms_ok (g : gv_namehead) : Prop :=
  key_room (clue g) 1024 /\ k_top (first_rec g) = k_top (clue g) /\ key_room (first_rec g) 1024 /\
  k_top (last_rec g) = k_top (clue g) /\ key_room (last_rec g) 1024 /\
  match prev_key g with Some p => key_room p 1024 | None => True end.

Definition is_max (k : gv_key) : Prop := exists s, k_base k = [255; 255] ++ s.

(** The first key of the data block, or a mark. *)
Definition first_ok (k : gv_key) (rs : list grec) : Prop :=
  is_max k \/ exists x rest s, rs = x :: rest /\ k_base k = g_key x ++ s.

(** The upper bound of the data block. *)
Definition last_ok (k : gv_key) (hi : option (list Z)) : Prop :=
  match hi with None => is_max k | Some h => gkey_ok h /\ exists s, k_base k = h ++ s end.

Definition prev_ok (pk : option gv_key) (l : list grec) : Prop :=
  match pk with Some p => k_end p = PREV_KEY_NOT_COMPUTED \/ alt_prev p l | None => True end.

Section clue.
Context (blk_size : Z) (t_qread : Z -> option (list Z)) (clue_valid : list srch_blk_status -> bool) (base_diff : Z -> Z).
Context (rt : Z) (depth : nat) (whole : list grec).

(** The state after a search for [t] that ended at the place [p]. *)
Definition state_at (g : gv_namehead) (t : list Z) (p : place) : Prop :=
  root g = rt /\ rooms_ok g /\ key_holds (clue g) t /\ place_ok blk_size t_qread rt depth t whole p /\
  hist g = mk_bh (p_blk p) (p_buf p) (status_at t (p_left p) (p_right p)) :: p_up p /\
  first_ok (first_rec g) (p_recs p) /\ last_ok (last_rec g) (p_hi p) /\ prev_ok (prev_key g) (p_left p).

(** ** Setting the clue *)

Lemma set_max_spec k : key_room k 1024 -> exists k', set_maxkey k = Ok k' /\ is_max k' /\ k_top k' = k_top k /\ zlen (k_base k') = zlen (k_base k).
Proof.
  intros [H1 H2]. unfold set_maxkey. rewrite wr_list_spec by (unfold zlen in *; simpl; lia). cbn [res_of mbind res_bind].
  eexists. split; [done|]. unfold is_max, with_base. cbn [k_base k_top]. rewrite take_0. split; [by eexists|]. split; [done|].
  rewrite !zlen_app. unfold zlen in *. rewrite length_drop. simpl. lia.
Qed.

Lemma set_first_spec t b m l r first : blk_ok blk_size 0 m (l ++ r) -> gkey_ok t -> key_room first 1024 ->
  exists first', set_first_rec (mk_bh b m (status_at t l r)) (zlen t) first = Ok first' /\ first_ok first' (l ++ r) /\
    k_top first' = k_top first /\ zlen (k_base first') = zlen (k_base first).
Proof.
  intros Hb Ht [H1 H2]. unfold set_first_rec. cbn [bh_stat buffaddr].
  change (sr_offset (curr_rec (status_at t l r))) with (pos_after l).
  destruct ((SIZEOF_blk_hdr <? pos_after l) || (zlen t <=? sr_match (curr_rec (status_at t l r)))) eqn:E.
  - assert (exists x rest, l ++ r = x :: rest) as (x & rest & Ex).
    { destruct l as [|x l]; [|by eexists _, _]. destruct r as [|x r]; [|by eexists _, _]. exfalso. revert E. unfold pos_after. cbn.
      rewrite Z.ltb_irrefl. cbn. intros E%Z.leb_le. pose proof (gkey_length t Ht). unfold zlen in E. lia. }
    rewrite Ex in *. destruct Hb as (_ & Hat & [Hok Hs]). destruct (blk_at_recs _ _ _ _ Hat) as (Ha & _ & Hbs & Hsz).
    destruct (recs_at_hdr _ _ _ _ _ Ha) as [-> _]. cbn [mbind res_bind]. unfold check_reclen, CHKRECLEN. rewrite Hbs. cbn [mbind res_bind].
    cbn [recs_size] in *. pose proof (recs_size_nonneg (g_key x) rest).
    assert ((rec_size [] x + SIZEOF_blk_hdr <=? SIZEOF_blk_hdr + (rec_size [] x + recs_size (g_key x) rest)) = true) as -> by (apply Z.leb_le; lia).
    cbn [mbind res_bind]. apply Forall_cons in Hok as [[Hx Hxl] _]. pose proof (gkey_length _ Hx).
    change 0 with (Z.of_nat 0) at 1.
    destruct (copy_rec_key_spec (rec_size [] x) (k_top first) m (SIZEOF_blk_hdr + SIZEOF_rec_hdr) (g_key x) 0 (k_base first)) as (s & -> & El).
    + done.
    + pose proof (record_reads m (x :: rest) [] x rest 0 Ha eq_refl) as Hrd. cbn in Hrd. apply Hrd. lia.
    + lia.
    + unfold rec_size, rec_body, suffix. rewrite zlen_app. cbn [lcp]. rewrite drop_0. unfold SIZEOF_rec_hdr. pose proof (zlen_nonneg (g_val x)). lia.
    + unfold zlen in *. lia.
    + by rewrite !take_0.
    + unfold zlen in *. lia.
    + cbn [mbind res_bind]. eexists. split; [done|]. unfold with_base. cbn [k_base k_top]. split; [right; by exists x, rest, s|]. split; [done|]. unfold zlen. by rewrite El.
  - destruct (set_max_spec first) as (f & E1 & Hm & ? & ?); [done|]. exists f. split; [exact E1|]. split; [by left|done].
Qed.

Lemma curr_match pk x t : gvlt pk t -> gvlt pk x -> ~ gvlt x t -> (lcp pk x <= lcp x t)%nat.
Proof.
  intros Ht Hx Hn. destruct (gvlt_cases t x) as [H|[<-|H]]; [|rewrite lcp_same; apply lcp_le_r|done].
  rewrite (lcp_sorted pk t x) by done. rewrite (lcp_comm x t). lia.
Qed.

Lemma set_last_spec K t ns hi last : key_holds K t -> nonstar_ok blk_size t ns hi -> key_room last 1024 ->
  exists last', set_last_rec ns K last = Ok last' /\ last_ok last' hi /\ k_top last' = k_top last /\ zlen (k_base last') = zlen (k_base last).
Proof.
  intros (He & [sl Eb] & Ht & Hlen) Hns [H1 H2]. destruct ns as [bh|], hi as [h|]; try done; [|by apply set_max_spec].
  destruct Hns as (lv & rs & l & x & r & Hb & Er & Hn & <- & [Hl Hx] & Ecr). unfold set_last_rec. rewrite Ecr.
  change (sr_offset (curr_rec (status_at t l (x :: r)))) with (pos_after l).
  change (sr_match (curr_rec (status_at t l (x :: r)))) with (Z.of_nat (lcp (g_key x) t)).
  destruct (index_record blk_size lv _ rs l x r Hb Er) as (Hv & [(? & _)|(_ & [Hk Hkl] & Hlx & _)] & Hlok); [done|].
  pose proof Hb as (_ & Hat & _). destruct (blk_at_recs _ _ _ _ Hat) as (Ha & _ & Hbs & Hsz).
  pose proof (at_split _ rs Ha l (x :: r) Er) as Hax. destruct (recs_at_hdr _ _ _ _ _ Hax) as [-> ->]. cbn [mbind res_bind].
  unfold check_reclen, CHKRECLEN. rewrite Hbs. cbn [mbind res_bind]. change (SIZEOF_blk_hdr + recs_size [] rs) with (pos_after rs) in *.
  assert (Hp : pos_after l + rec_size (last_key [] l) x <= pos_after rs).
  { rewrite Er. unfold pos_after. rewrite recs_size_app. cbn [recs_size]. pose proof (recs_size_nonneg (g_key x) r). lia. }
  assert ((rec_size (last_key [] l) x + pos_after l <=? pos_after rs) = true) as -> by (apply Z.leb_le; lia). cbn [mbind res_bind].
  assert (Hpt : gvlt (last_key [] l) t) by (apply last_before; [by apply gkey_not_nil|done]).
  assert (Hnx : ~ gvlt (g_key x) t) by (intros H; apply Hx; split; [by apply gkey_not_nil|done]).
  pose proof (curr_match _ _ _ Hpt Hlx Hnx) as Hc. pose proof (lcp_le_r (last_key [] l) (g_key x)) as Hc2. pose proof (lcp_le_r (g_key x) t) as Hc3.
  assert (Hc4 : (lcp (last_key [] l) (g_key x) + 2 <= length (g_key x))%nat).
  { destruct (decide (l = [])) as [->|Hln]; [pose proof (gkey_length _ Hk); simpl; lia|].
    destruct (last_key_ok l Hlok Hln) as [Hlk _]. apply lcp_room; [apply Hlk|done|done|by right]. }
  set (c := lcp (last_key [] l) (g_key x)) in *. zif_false. zif_false. rewrite (rd_list_0 (k_base K) c (take c t)); [|rewrite Eb, length_app; lia|rewrite Eb; apply take_app_le; lia].
  cbn [mbind res_bind]. rewrite wr_list_spec by (unfold zlen in *; rewrite ?length_take; lia). cbn [res_of mbind res_bind]. rewrite take_0. cbn [app].
  set (d := take c t ++ _).
  assert (Ld : length d = length (k_base last)).
  { subst d. unfold zlen in *. rewrite length_app, length_drop, !length_take. lia. }
  destruct (copy_rec_key_spec (rec_size (last_key [] l) x) (k_top last) (buffaddr bh) (pos_after l + SIZEOF_rec_hdr) (g_key x) c d) as (s & -> & El).
  - done.
  - pose proof (record_reads _ rs l x r c Ha Er ltac:(done)) as Hrd. unfold c in Hrd. rewrite Z.sub_diag, Z.add_0_r in Hrd. done.
  - done.
  - unfold rec_size, rec_body, suffix. rewrite zlen_app, Hv. unfold zlen, SIZEOF_rec_hdr, SIZEOF_block_id. rewrite length_drop. fold c. lia.
  - unfold zlen in *. lia.
  - subst d. rewrite take_app_le by (rewrite length_take; lia). rewrite take_take, Nat.min_id. symmetry. apply lcp_take. done.
  - rewrite Ld. unfold zlen in *. lia.
  - cbn [mbind res_bind]. eexists. split; [done|]. unfold with_base, last_ok. cbn [k_base k_top]. split; [split; [done|by exists s]|]. split; [done|].
    unfold zlen. by rewrite El, Ld.
Qed.

Lemma alt_prev_end alt l : Forall rec_ok l -> alt_prev alt l -> 0 <= k_end alt < 1023.
Proof.
  unfold alt_prev. intros Hl. case_decide as Hn; [lia|]. intros [He _].
  destruct (last_key_ok l Hl Hn) as [Hk Hkl]. pose proof (gkey_length _ Hk). unfold zlen in He. lia.
Qed.

(** A copy of a key holds the same key. *)
Lemma copy_key_prev targ src l : Forall rec_ok l -> alt_prev src l -> key_room src 1024 -> key_room targ 1024 ->
  exists k, COPY_KEY targ src = Ok k /\ alt_prev k l /\ key_room k 1024 /\ k_top k = k_top targ.
Proof.
  intros Hl Hp [Hs1 Hs2] [Ht1 Ht2]. pose proof (alt_prev_end src l Hl Hp) as He.
  rewrite COPY_KEY_spec by lia. eexists. split; [done|]. unfold alt_prev in *. unfold key_room. cbn [k_end k_base k_top].
  split; [|split; [|done] ].
  - case_decide; [done|]. destruct Hp as [Hp [s Hb]]. split; [done|]. rewrite Hb, Hp.
    assert (Et : take (Z.to_nat (zlen (last_key [] l))) (last_key [] l ++ s) = last_key [] l).
    { unfold zlen. rewrite Nat2Z.id. apply take_app_length. }
    rewrite Et. by eexists.
  - split; [done|]. rewrite zlen_app. unfold zlen in *. rewrite length_take, length_drop. lia.
Qed.

Lemma copy_prev_spec g e alt l : Forall rec_ok l -> rooms_ok g -> key_room alt 1024 -> (e = true -> alt_prev alt l) ->
  exists pk, copy_prev_key_to_gvt_clue g e alt = Ok (mk_gvt (root g) (clue g) (first_rec g) (last_rec g) pk (hist g)) /\
    prev_ok pk l /\ match pk with Some p => key_room p 1024 | None => True end.
Proof.
  intros Hl (Hc & _ & _ & _ & _ & Hpk) Ha He. unfold copy_prev_key_to_gvt_clue. destruct e.
  - specialize (He eq_refl). pose proof (alt_prev_end alt l Hl He) as Hend. destruct Hc as [Hc1 Hc2].
    set (pk := match prev_key g with Some k => k | None => _ end).
    assert (Hr : key_room pk 1024).
    { subst pk. destruct (prev_key g); [done|]. unfold gvkey_init, key_room. cbn [k_top k_base]. unfold zlen. rewrite length_replicate. lia. }
    assert ((k_top pk <=? k_end alt) = false) as -> by (apply Z.leb_gt; unfold key_room in Hr; lia).
    destruct (copy_key_prev pk alt l Hl He Ha Hr) as (k & -> & H1 & H2 & _). cbn [mbind res_bind].
    exists (Some k). split; [done|]. split; [by right|done].
  - cbn [mbind res_bind]. eexists. split; [done|]. destruct (prev_key g) as [p|]; [|done]. cbn [fmap option_fmap option_map].
    split; [by left|done].
Qed.

Lemma copy_clue_spec g K t e alt l : key_holds K t -> Forall rec_ok l -> rooms_ok g -> key_room alt 1024 -> (e = true -> alt_prev alt l) ->
  exists c pk, copy_curr_and_prev_key_to_gvtarget_clue g K e alt = Ok (mk_gvt (root g) c (first_rec g) (last_rec g) pk (hist g)) /\
    key_holds c t /\ prev_ok pk l /\ rooms_ok (mk_gvt (root g) c (first_rec g) (last_rec g) pk (hist g)).
Proof.
  intros (Hke & [sl Eb] & Ht & Hlen) Hl Hrooms Ha He. pose proof Hrooms as ([Hc1 Hc2] & Hrest). unfold copy_curr_and_prev_key_to_gvtarget_clue.
  pose proof (gkey_length t Ht) as Hl3.
  assert ((k_top (clue g) <=? k_end K) = false) as -> by (apply Z.leb_gt; unfold zlen in Hke; lia).
  rewrite Hke. unfold zlen at 1. rewrite (rd_list_0 (k_base K) (length t) t); [|rewrite Eb, length_app; lia|rewrite Eb; apply take_app_length].
  cbn [mbind res_bind]. rewrite wr_list_spec by (unfold zlen in *; lia). cbn [res_of mbind res_bind]. rewrite take_0. cbn [app].
  set (c := mk_gv_key _ _ _ _).
  assert (Hc : key_room c 1024).
  { subst c. unfold key_room. cbn [k_top k_base]. split; [done|]. rewrite zlen_app. unfold zlen in *. rewrite length_drop. lia. }
  destruct (copy_prev_spec (mk_gvt (root g) c (first_rec g) (last_rec g) (prev_key g) (hist g)) e alt l Hl) as (pk & -> & Hpk & Hpr); [|done|done|].
  { unfold rooms_ok. cbn [clue first_rec last_rec prev_key]. done. }
  exists c, pk. split; [done|]. split; [|split; [done|unfold rooms_ok; cbn [clue first_rec last_rec prev_key] in *; by destruct Hrest as (?&?&?&?&?)] ].
  subst c. unfold key_holds. cbn [k_end k_base]. split; [done|]. split; [by eexists|done].
Qed.

(** ** The search from the root *)

Hypothesis Htree : tree_at blk_size t_qread depth false rt [] None whole.
Hypothesis Hdepth : (0 < depth < 7)%nat.
Hypothesis Hbase : forall b, 1024 <= base_diff b.

Lemma place_left t p : place_ok blk_size t_qread rt depth t whole p -> Forall rec_ok (p_left p).
Proof. intros (_ & _ & (_ & _ & Hb) & _). unfold p_recs in Hb. destruct Hb as [Hok _]. by apply Forall_app in Hok as [? _]. Qed.

Lemma search_root_spec e g K t alt : root g = rt -> rooms_ok g -> key_holds K t -> key_room alt 1024 ->
  (skips_index e = true -> above_index blk_size t_qread rt depth t whole) ->
  exists g' alt' p, search_root blk_size t_qread e g K alt = Ok (g', alt') /\ state_at g' t p /\
    key_room alt' 1024 /\ k_top alt' = k_top alt /\ (if expands e then alt_prev alt' (p_left p) else alt' = alt).
Proof.
  intros Hrt Hrooms HK Ha Hab. pose proof HK as (Hke & _ & Ht & _). unfold search_root. rewrite Hrt.
  assert (exists m rs, t_qread rt = Some m /\ blk_ok blk_size (Z.of_nat depth) m rs) as (m & rs & Hq & Hb).
  { destruct depth; destruct Htree as (m & rs & ? & ? & _); by exists m, rs. }
  unfold read_blk. rewrite Hq. cbn [mbind res_bind]. destruct Hb as (_ & Hat & _). destruct (blk_at_recs _ _ _ _ Hat) as (_ & -> & _ & _).
  cbn [mbind res_bind]. unfold MAX_BT_DEPTH. zif_false. zif_false. rewrite Nat2Z.id.
  destruct (descend_spec blk_size t_qread rt depth K t HK e depth false rt [] None [] [] [] m whole None alt) as
    (h & p & ns & alt' & E & Hpl & Hup & Hns & Har & Hat' & Hal); try done.
  { constructor. } { split; [|done]. destruct t; [by apply gkey_not_nil in Ht|done]. } { cbn [app]. by rewrite app_nil_r. }
  rewrite E. cbn [mbind res_bind head res_of]. rewrite Hke. cbn [app] in Hpl. rewrite !app_nil_r in *.
  pose proof Hrooms as (Hc & Hft & Hfr & Hlt & Hlr & Hpr).
  destruct (set_first_spec t (p_blk p) (p_buf p) (p_left p) (p_right p) (first_rec g)) as (f & -> & Hf & Hf1 & Hf2); [apply Hpl|done|done|].
  cbn [mbind res_bind]. destruct (set_last_spec K t ns (p_hi p) (last_rec g) HK Hns Hlr) as (la & -> & Hla & Hl1 & Hl2). cbn [mbind res_bind].
  destruct (copy_clue_spec (mk_gvt rt (clue g) f la (prev_key g) (mk_bh (p_blk p) (p_buf p) (status_at t (p_left p) (p_right p)) :: h)) K t (expands e) alt' (p_left p) HK)
    as (c & pk & -> & Hcc & Hpk & Hrr).
  - by apply (place_left t).
  - unfold rooms_ok, key_room in *. cbn [clue first_rec last_rec prev_key]. rewrite Hf1, Hf2, Hl1, Hl2. done.
  - done.
  - intros Ee. by rewrite Ee in Hal.
  - cbn [mbind res_bind root clue first_rec last_rec prev_key hist] in *. eexists _, alt', p. split; [done|]. split; [|done].
    unfold state_at. cbn [root clue first_rec last_rec prev_key hist]. by rewrite Hup.
Qed.

(** ** The search with the clue *)

Lemma lexcmp_lt a b : lexcmp a b = Lt <-> gvlt a b.
Proof. done. Qed.

Lemma lexcmp_gt a b : lexcmp a b = Gt <-> gvlt b a.
Proof. unfold gvlt. rewrite lexcmp_antisym. destruct (lexcmp b a); simpl; split; congruence. Qed.

(** The place of another key of the same data block. *)
Lemma place_move c t p l r : gkey_ok t -> place_ok blk_size t_qread rt depth c whole p -> in_range (p_lo p) (p_hi p) t ->
  p_recs p = l ++ r -> split_at t l r ->
  place_ok blk_size t_qread rt depth t whole (mk_place (p_blk p) (p_buf p) l r (p_full p) (p_lo p) (p_hi p) (p_pre p) (p_post p) (p_up p)).
Proof.
  intros Ht (Hz & Hq & Hb & Hf & Hn & _ & _ & Hw) Hr E Hs. unfold place_ok, p_recs in *. cbn. rewrite E in *. done.
Qed.

Lemma state_move g c t p l r st alt K e : state_at g c p -> key_holds K t -> in_range (p_lo p) (p_hi p) t -> p_recs p = l ++ r -> split_at t l r ->
  key_room alt 1024 -> (e = true -> alt_prev alt l) -> st = status_at t l r ->
  exists g', copy_curr_and_prev_key_to_gvtarget_clue (set_leaf g (mk_bh (p_blk p) (p_buf p) st)) K e alt = Ok g' /\
    state_at g' t (mk_place (p_blk p) (p_buf p) l r (p_full p) (p_lo p) (p_hi p) (p_pre p) (p_post p) (p_up p)).
Proof.
  intros (Hrt & Hrooms & Hc & Hpl & Hh & Hf & Hla & Hpk) HK Hr E Hs Ha He ->. pose proof HK as (_ & _ & Ht & _).
  pose proof (place_move c t p l r Ht Hpl Hr E Hs) as Hpl'.
  destruct (copy_clue_spec (set_leaf g (mk_bh (p_blk p) (p_buf p) (status_at t l r))) K t e alt l HK) as (cl & pk & -> & Hcc & Hpk' & Hrr).
  - pose proof (place_left t _ Hpl') as H. done.
  - done.
  - done.
  - done.
  - eexists. split; [done|]. unfold set_leaf in *. cbn [root clue first_rec last_rec prev_key hist] in *. rewrite Hh in *. cbn [tail] in *.
    unfold state_at. cbn [root clue first_rec last_rec prev_key hist p_blk p_buf p_left p_right p_up p_hi]. unfold p_recs in *. cbn [p_left p_right].
    rewrite <- E. done.
Qed.

(** The comparisons with the bounds of the clue. *)
Lemma last_compare g c t p K n2 : state_at g c p -> key_holds K t -> (forall x, t !! 0%nat = Some x -> x < 255) -> gvlt c t ->
  memcmp_n (k_base K) (k_base (last_rec g)) (zlen t) = Ok n2 -> n2 <> Gt -> in_range (p_lo p) (p_hi p) t.
Proof.
  intros (_ & Hrooms & _ & Hpl & _ & _ & Hla & _) (_ & [sl Eb] & Ht & Hlen) Hx Hct E Hn.
  destruct Hpl as (_ & _ & _ & _ & _ & _ & [Hlo _] & _). split; [by transitivity c|].
  destruct (p_hi p) as [h|]; [|done]. destruct Hla as [Hh [s Es]]. destruct Hrooms as (_ & _ & _ & _ & [H1 H2] & _).
  rewrite (memcmp_key _ t sl _ h s Eb Es Ht Hh) in E by (unfold zlen in *; lia). injection E as <-.
  intros H. apply Hn. by apply lexcmp_gt.
Qed.

Lemma first_compare g c t p K n2 : state_at g c p -> key_holds K t -> (forall x, t !! 0%nat = Some x -> x < 255) -> gvlt t c ->
  memcmp_n (k_base K) (k_base (first_rec g)) (zlen t) = Ok n2 -> n2 <> Lt -> in_range (p_lo p) (p_hi p) t.
Proof.
  intros (_ & Hrooms & _ & Hpl & _ & Hf & _ & _) (_ & [sl Eb] & Ht & Hlen) Hx Hct E Hn.
  destruct Hpl as (_ & _ & Hb & Hfr & _ & _ & [_ Hhi] & _). destruct Hrooms as (_ & _ & [H1 H2] & _).
  destruct Hf as [[s Es]|(x & rest & s & Ex & Es)].
  { rewrite (memcmp_max _ t sl _ s Eb Es Ht Hx) in E by (unfold zlen in *; lia). congruence. }
  rewrite Ex in Hfr, Hb. apply Forall_cons in Hfr as [[Hlo _] _]. destruct Hb as (_ & _ & [[[Hxk _] _]%Forall_cons _]).
  rewrite (memcmp_key _ t sl _ (g_key x) s Eb Es Ht Hxk) in E by (unfold zlen in *; lia). injection E as <-.
  split; [by eapply lt_not_trans|]. destruct (p_hi p) as [h|]; [|done]. intros H. apply Hhi. by transitivity t.
Qed.

Lemma memcmp_ok a b n : 0 <= n -> n <= zlen a -> n <= zlen b -> exists c, memcmp_n a b n = Ok c.
Proof.
  intros H0 Ha Hb. unfold memcmp_n. replace n with (Z.of_nat (Z.to_nat n)) by lia.
  rewrite (rd_list_0 a _ (take (Z.to_nat n) a)), (rd_list_0 b _ (take (Z.to_nat n) b)) by (done || (unfold zlen in *; lia)).
  by eexists.
Qed.

Lemma search_clue_tail e g c t p K alt : state_at g c p -> key_holds K t -> key_room alt 1024 -> gvlt c t -> in_range (p_lo p) (p_hi p) t ->
  exists l r alt', p_recs p = l ++ r /\ split_at t l r /\
    gvcst_search_tail blk_size e (base_diff (p_blk p)) (p_buf p) K (status_at c (p_left p) (p_right p)) (clue g) (prev_key g) alt =
      Ok (status_at t l r, alt') /\ key_room alt' 1024 /\ k_top alt' = k_top alt /\ (if e : bool then alt_prev alt' l else alt' = alt).
Proof.
  intros (Hrt & Hrooms & Hc & Hpl & Hh & Hf & Hla & Hpk) HK Ha Hct Hr. pose proof Hpl as (_ & _ & Hb & _ & _ & Hs & _).
  destruct e.
  - destruct (search_tail_prev blk_size (p_buf p) (p_recs p) K (clue g) t c (p_left p) (p_right p) (base_diff (p_blk p)) (prev_key g) alt
      Hb HK Hc Hct eq_refl Hs) as (l & r & alt' & E & Hs' & Et & Hp).
    + intros Hn. unfold prev_known. unfold prev_ok in Hpk. destruct (prev_key g) as [pk|]; [|done]. destruct Hpk as [?|Hpk]; [by left|right].
      unfold alt_prev in Hpk. by rewrite decide_False in Hpk by done.
    + done.
    + specialize (Hbase (p_blk p)). pose proof (pos_after_ge (p_recs p)). unfold SIZEOF_blk_hdr in *. pose proof (place_left c p Hpl) as Hok.
      destruct (decide (p_left p = [])) as [->|Hn]; [unfold zlen; simpl; lia|]. destruct (last_key_ok _ Hok Hn). unfold zlen. lia.
    + exists l, r, alt'. split; [done|]. split; [done|]. split; [exact Et|]. unfold prev_is, alt_prev, key_room in *.
      case_decide.
      * destruct Hp as (? & -> & -> & _). done.
      * destruct Hp as (? & ? & -> & _ & ->). done.
  - destruct (split_exists t (p_recs p)) as (l & r & E & Hs'). exists l, r, alt. split; [done|]. split; [done|]. split; [|done].
    rewrite (search_tail_same blk_size (p_buf p) (p_recs p) K (clue g) t c (p_left p) (p_right p)); try done.
    by apply (search_blk_at blk_size 0 (p_buf p) t (p_recs p)).
Qed.

Lemma search_clue_spec e g c t p K alt : state_at g c p -> key_holds K t -> (forall x, t !! 0%nat = Some x -> x < 255) -> key_room alt 1024 ->
  search_clue blk_size clue_valid base_diff e g K alt = Ok None \/
  exists g' alt' p', search_clue blk_size clue_valid base_diff e g K alt = Ok (Some (g', alt')) /\ state_at g' t p' /\
    key_room alt' 1024 /\ k_top alt' = k_top alt /\ (if expands e then alt_prev alt' (p_left p') else alt' = alt).
Proof.
  intros Hst HK Hx Ha. pose proof Hst as (Hrt & Hrooms & Hc & Hpl & Hh & Hf & Hla & Hpk).
  pose proof HK as (Hke & [sl Eb] & Ht & Hlen). pose proof Hc as (Hce & [slc Ec] & Htc & Hclen).
  pose proof Hrooms as ([Hc1 Hc2] & _ & [Hf1 Hf2] & _ & [Hl1 Hl2] & Hpr).
  unfold search_clue. destruct (negb _ && _); [|by left]. rewrite Hh. cbn [head res_of mbind res_bind].
  rewrite Hke, Z.min_l by (unfold zlen; lia).
  rewrite (memcmp_key _ t sl _ c slc Eb Ec Ht Htc) by (unfold zlen in *; lia). cbn [mbind res_bind buffaddr blk_num bh_stat].
  assert (Hzt : 0 <= zlen t <= 1023) by (unfold zlen; lia).
  assert (HzK : zlen t <= zlen (k_base K)) by (rewrite Eb, zlen_app; pose proof (zlen_nonneg sl); lia).
  destruct (lexcmp t c) eqn:Ecmp.
  - (* the same key *)
    apply lexcmp_eq in Ecmp as ->. destruct (expands e) eqn:Ee; cbn [negb]; [|right; by exists g, alt, p].
    assert (Hleft : Forall rec_ok (p_left p)) by (by apply (place_left c)).
    assert (Hblk : p_left p <> [] -> exists g' alt', (alt' ← gvcst_expand_prev_key blk_size (p_buf p) (status_at c (p_left p) (p_right p)) (clue g) alt;
        g ← copy_prev_key_to_gvt_clue g true alt'; Ok (g, alt')) = Ok (g', alt') /\ state_at g' c p /\
        key_room alt' 1024 /\ k_top alt' = k_top alt /\ alt_prev alt' (p_left p)).
    { intros Hn. pose proof Hpl as (_ & _ & Hb & _ & _ & Hs & _). pose proof Hb as (_ & Hat & Hlf). change (leaf_ok (p_recs p)) in Hlf.
      destruct (gvcst_expand_prev_key_spec blk_size 0 (p_buf p) (p_recs p) (p_left p) (p_right p) (clue g) c alt) as (A & -> & HA); try done.
      { by apply (leaf_prefix _ (p_right p)). }
      cbn [mbind res_bind]. destruct HA as (HA1 & HA2 & HA3 & HA4 & HA5).
      assert (HAp : alt_prev A (p_left p)) by (unfold alt_prev; rewrite decide_False by done; done).
      assert (HAr : key_room A 1024) by (unfold key_room in *; by rewrite HA3, HA5).
      destruct (copy_prev_spec g true A (p_left p) Hleft Hrooms HAr (fun _ => HAp)) as (pk & -> & Hpk1 & Hpk2). cbn [mbind res_bind].
      eexists _, A. split; [done|]. split; [|done]. unfold state_at, rooms_ok in *. cbn [root clue first_rec last_rec prev_key hist] in *. naive_solver. }
    assert (Hfrom : let x := clue_or_tree (alt' ← gvcst_expand_prev_key blk_size (p_buf p) (status_at c (p_left p) (p_right p)) (clue g) alt;
        g ← copy_prev_key_to_gvt_clue g true alt'; Ok (g, alt')) in
      x = Ok None \/ exists g' alt' p', x = Ok (Some (g', alt')) /\ state_at g' c p' /\ key_room alt' 1024 /\ k_top alt' = k_top alt /\ alt_prev alt' (p_left p')).
    { cbv zeta. destruct (decide (p_left p = [])) as [El|Hn].
      - left. rewrite El. done.
      - right. destruct (Hblk Hn) as (g' & alt' & -> & H1 & H2 & H3 & H4). exists g', alt', p. done. }
    unfold prev_ok in Hpk. destruct (prev_key g) as [pk|]; [|exact Hfrom].
    destruct (Z.eqb_spec (k_end pk) PREV_KEY_NOT_COMPUTED) as [|Hne]; cbn [negb]; [exact Hfrom|].
    destruct Hpk as [?|Hpk]; [done|]. destruct (copy_key_prev alt pk (p_left p) Hleft Hpk Hpr Ha) as (k & -> & H1 & H2 & H3).
    cbn [mbind res_bind]. right. by exists g, k, p.
  - (* a smaller key *)
    apply lexcmp_lt in Ecmp. destruct (memcmp_ok (k_base K) (k_base (first_rec g)) (zlen t)) as [n2 E2]; [lia|done|unfold zlen in *; lia|].
    rewrite E2. cbn [mbind res_bind]. destruct n2; [|by left|];
      (assert (Hr : in_range (p_lo p) (p_hi p) t) by (by apply (first_compare g c t p K _ Hst HK Hx Ecmp E2)); right;
       destruct (split_exists t (p_recs p)) as (l & r & E & Hs'); pose proof Hpl as (_ & _ & Hb & _);
       destruct (search_leaf blk_size K t HK (expands e) (p_buf p) (p_recs p) (status_at c (p_left p) (p_right p)) (p_blk p) alt l r Hb Ha E Hs') as (alt' & -> & H1 & H2 & H3);
       cbn [mbind res_bind];
       destruct (state_move g c t p l r (status_at t l r) alt' K (expands e) Hst HK Hr E Hs' H1) as (g' & -> & Hg); [intros Ee; by rewrite Ee in H3|done|];
       cbn [mbind res_bind clue_or_tree]; eexists g', alt', _; split; [done|]; split; [exact Hg|done]).
  - (* a larger key *)
    apply lexcmp_gt in Ecmp. destruct (memcmp_ok (k_base K) (k_base (last_rec g)) (zlen t)) as [n2 E2]; [lia|done|unfold zlen in *; lia|].
    rewrite E2. cbn [mbind res_bind]. destruct n2; [| |by left];
      (assert (Hr : in_range (p_lo p) (p_hi p) t) by (by apply (last_compare g c t p K _ Hst HK Hx Ecmp E2)); right;
       destruct (search_clue_tail (expands e) g c t p K alt Hst HK Ha Ecmp Hr) as (l & r & alt' & E & Hs' & -> & H1 & H2 & H3);
       cbn [mbind res_bind];
       destruct (state_move g c t p l r (status_at t l r) alt' K (expands e) Hst HK Hr E Hs' H1) as (g' & -> & Hg); [intros Ee; by rewrite Ee in H3|done|];
       cbn [mbind res_bind clue_or_tree]; eexists g', alt', _; split; [done|]; split; [exact Hg|done]).
Qed.

(** What the state promises: when the blocks of the clue are as they were, it is
    that of a search. *)
Definition gvt_ok (g : gv_namehead) : Prop :=
  root g = rt /\ rooms_ok g /\ (k_end (clue g) <> 0 -> clue_valid (hist g) = true -> exists c p, state_at g c p).

Lemma gvcst_search_at e g K t alt : gvt_ok g -> key_holds K t -> (forall x, t !! 0%nat = Some x -> x < 255) -> key_room alt 1024 ->
  (skips_index e = true -> above_index blk_size t_qread rt depth t whole) ->
  exists g' alt' p, gvcst_search blk_size t_qread clue_valid base_diff e g K alt = Ok (g', alt') /\ state_at g' t p /\
    key_room alt' 1024 /\ k_top alt' = k_top alt /\ (if expands e then alt_prev alt' (p_left p) else alt' = alt).
Proof.
  intros (Hrt & Hrooms & Hclue) HK Hx Ha Hab. unfold gvcst_search.
  assert (Hcase : search_clue blk_size clue_valid base_diff e g K alt = Ok None \/
    exists g' alt' p', search_clue blk_size clue_valid base_diff e g K alt = Ok (Some (g', alt')) /\ state_at g' t p' /\
    key_room alt' 1024 /\ k_top alt' = k_top alt /\ (if expands e then alt_prev alt' (p_left p') else alt' = alt)).
  { destruct (decide (k_end (clue g) = 0)) as [E0|E0]; [left; unfold search_clue; by rewrite E0|].
    destruct (clue_valid (hist g)) eqn:Ev; [|left; unfold search_clue; by rewrite Ev, andb_false_r].
    destruct (Hclue E0 eq_refl) as (c & p & Hst). by apply (search_clue_spec e g c t p K alt). }
  destruct Hcase as [->|(g' & alt' & p' & -> & H)]; cbn [mbind res_bind].
  - by apply search_root_spec.
  - by exists g', alt', p'.
Qed.
End clue.
