(* ===== verification/Gvspec.v ===== *)
(** The reads of a global, against the sorted list of its records: $GET finds the
    value of a key, $DATA whether it has a value and descendants, $ORDER and
    $ZPREVIOUS the next and the previous subscript, and $QUERY the next key. *)

From stdpp Require Import base list numbers option tactics sorting.
From Stdlib Require Import ZArith Lia.
From S2P Require Import Prelude Subscript Gvsub Gvkey Gdsblk Blkexpand Blksearch Blktail Blkprev Gvtree Gvread Gvzip Gvdown Gvsib Gvclue.

Open Scope Z_scope.

(** * Sorted records *)

(** The records before a key, and the others. *)
Fixpoint upto_key (t : list Z) (rs : list grec) : list grec :=
  match rs with [] => [] | r :: rs' => if decide (before t r) then r :: upto_key t rs' else [] end.

Fixpoint from_key (t : list Z) (rs : list grec) : list grec :=
  match rs with [] => [] | r :: rs' => if decide (before t r) then from_key t rs' else r :: rs' end.

(** The value of a key. *)
Fixpoint value_of (t : list Z) (rs : list grec) : option (list Z) :=
  match rs with [] => None | r :: rs' => if decide (g_key r = t) then Some (g_val r) else value_of t rs' end.

(** The key [k] has the subscripts of [t] and more. *)
Definition descendant (t k : list Z) : bool := bool_decide (k <> t) && bool_decide (take (length t - 1) k = take (length t - 1) t).

Lemma split_from t L R : split_at t L R -> upto_key t (L ++ R) = L /\ from_key t (L ++ R) = R.
Proof.
  intros [Hl Hr]. induction Hl as [|x L Hx Hl [IH1 IH2]]; cbn [app upto_key from_key].
  - destruct R as [|x R]; [done|]. cbn [upto_key from_key]. by rewrite !decide_False.
  - rewrite !decide_True by done. by rewrite IH1, IH2.
Qed.

Lemma value_split t L R : split_at t L R -> leaf_ok R -> value_of t (L ++ R) = match R with x :: _ => if decide (g_key x = t) then Some (g_val x) else None | [] => None end.
Proof.
  intros [Hl Hr] [Hok Hs]. induction Hl as [|x L [_ Hx] Hl IH]; cbn [app value_of].
  - destruct R as [|x R]; [done|]. cbn [value_of]. case_decide as Hn; [done|].
    unfold keys_sorted in Hs. cbn in Hs. apply StronglySorted_inv in Hs as [Hs Hx].
    assert (Htx : Forall (fun k => k <> t) (g_key <$> R)).
    { eapply Forall_impl; [exact Hx|]. intros k Hk ->. apply Hr. split; [|done]. apply Forall_cons in Hok as [[Hg _] _]. by apply gkey_not_nil. }
    clear -Htx. induction R as [|y R IH]; [done|]. cbn [fmap list_fmap] in Htx. apply Forall_cons in Htx as [Hy Ht]. cbn [value_of].
    rewrite decide_False by done. by apply IH.
  - rewrite decide_False; [done|]. intros E. rewrite E in Hx. by destruct (gvlt_irrefl t).
Qed.

(** Up to the next null byte, and one more. *)
Fixpoint to_null (k : list Z) : list Z :=
  match k with [] => [] | x :: k' => if x =? 0 then [0; 0] else x :: to_null k' end.

(** The key [k] cut after the subscript at [from]. *)
Definition subscript_key (k : list Z) (from : nat) : list Z := take from k ++ to_null (drop from k).

Lemma to_null_length q n : q !! n = Some 0 -> (2 <= length (to_null q) <= n + 2)%nat.
Proof.
  revert n. induction q as [|x q IH]; intros n; [done|]. cbn [to_null]. zcase; [simpl; lia|].
  destruct n as [|n]; [intros [= ->]; done|]. intros E. apply IH in E. simpl. lia.
Qed.

Lemma copy_subscript_spec fuel m q dst c1 c2 ctop alt_top n : q !! n = Some 0 ->
  (forall j y, q !! j = Some y -> rd m (c2 + Z.of_nat j) = Some y) -> (length q <= fuel)%nat -> c2 + zlen q <= ctop ->
  Z.of_nat (c1 + n) < alt_top -> (c1 + n + 2 <= length dst)%nat ->
  exists slack, copy_subscript fuel m dst (Z.of_nat c1) c2 ctop alt_top =
      Ok (take c1 dst ++ to_null q ++ slack, Z.of_nat (c1 + length (to_null q)) - 1) /\
    length (take c1 dst ++ to_null q ++ slack) = length dst.
Proof.
  revert q dst c1 c2 n. induction fuel as [|fuel IH]; intros q dst c1 c2 n Hq Hr Hf Hc Ha Hd.
  { destruct q; [done|simpl in Hf; lia]. }
  destruct q as [|x q]; [done|]. cbn [copy_subscript length] in *. unfold zlen in Hc. cbn [length] in Hc.
  assert ((ctop <=? c2) || (alt_top <=? Z.of_nat c1) = false) as -> by (apply orb_false_intro; apply Z.leb_gt; lia).
  pose proof (Hr 0%nat x eq_refl) as Hx. rewrite Z.add_0_r in Hx. unfold rd8. rewrite Hx. cbn [res_of mbind res_bind].
  rewrite wr_one by lia. cbn [res_of mbind res_bind to_null]. set (d := take c1 dst ++ [x] ++ drop (c1 + 1) dst).
  assert (Ld : length d = length dst) by (subst d; rewrite !length_app, length_take, length_drop; simpl; lia).
  assert (Td : take (S c1) d = take c1 dst ++ [x]).
  { subst d. rewrite app_assoc, take_app_le by (rewrite length_app, length_take; simpl; lia). apply take_ge. rewrite length_app, length_take. simpl. lia. }
  replace (Z.of_nat c1 + 1) with (Z.of_nat (S c1)) by lia. destruct (Z.eqb_spec x 0) as [->|Hx0].
  - rewrite wr_one by lia. cbn [res_of mbind res_bind]. exists (drop (S c1 + 1) d). rewrite Td. split.
    + f_equal. f_equal; [by rewrite <- !app_assoc|simpl; lia].
    + rewrite !length_app, length_take, length_drop, Ld. simpl. lia.
  - destruct n as [|n]; [by injection Hq as ->|]. simpl in Hq.
    destruct (IH q d (S c1) (c2 + 1) n Hq) as (sl & E & Hl).
    + intros j y Hy. rewrite <- (Hr (S j) y Hy). f_equal. lia.
    + lia.
    + unfold zlen. lia.
    + lia.
    + lia.
    + rewrite E, Td in *. exists sl. split; [|by rewrite <- Ld, <- Hl, <- !app_assoc]. f_equal. f_equal; [by rewrite <- !app_assoc|simpl; lia].
Qed.

Lemma truncate_spec fuel pfx q s ctop n : q !! n = Some 0 -> (length q <= fuel)%nat -> Z.of_nat (length pfx + n) < ctop -> (n + 2 <= length (q ++ s))%nat ->
  exists slack, truncate_subscript fuel (pfx ++ q ++ s) (zlen pfx) ctop =
      Ok (pfx ++ to_null q ++ slack, zlen pfx + zlen (to_null q) - 1) /\ length (pfx ++ to_null q ++ slack) = length (pfx ++ q ++ s).
Proof.
  revert pfx q n. induction fuel as [|fuel IH]; intros pfx q n Hq Hf Hc Hl.
  { destruct q; [done|simpl in Hf; lia]. }
  destruct q as [|x q]; [done|]. cbn [truncate_subscript]. unfold zlen. zif_false. unfold rd8. rewrite rd_nat.
  rewrite lookup_app_r, Nat.sub_diag by lia. cbn [app lookup list_lookup res_of mbind res_bind to_null].
  destruct (Z.eqb_spec x 0) as [->|Hx0].
  - replace (Z.of_nat (length pfx) + 1) with (Z.of_nat (length pfx + 1)) by lia. rewrite wr_one by (rewrite length_app; simpl in *; lia).
    cbn [res_of mbind res_bind]. exists (drop 1 (q ++ s)). replace (pfx ++ 0 :: q ++ s) with ((pfx ++ [0]) ++ q ++ s) by (by rewrite <- app_assoc).
    rewrite take_app_le by (rewrite length_app; simpl; lia). rewrite take_ge by (rewrite length_app; simpl; lia).
    rewrite drop_app_ge by (rewrite length_app; simpl; lia). rewrite length_app. cbn [length].
    replace (length pfx + 1 + 1 - (length pfx + 1))%nat with 1%nat by lia. split.
    + f_equal. f_equal; [by rewrite <- !app_assoc|simpl; lia].
    + rewrite !length_app, length_drop. simpl in *. rewrite length_app in *. lia.
  - destruct n as [|n]; [by injection Hq as ->|]. simpl in Hq. destruct (IH (pfx ++ [x]) q n Hq) as (sl & E & Hl'); [simpl in Hf; lia|rewrite length_app; simpl; lia|simpl in Hl; lia|].
    rewrite <- !app_assoc in *. cbn [app] in *. unfold zlen in E. rewrite length_app in E. cbn [length] in E.
    replace (Z.of_nat (length pfx) + 1) with (Z.of_nat (length pfx + 1)) by lia. rewrite E. exists sl. split; [|done]. f_equal. f_equal. simpl. lia.
Qed.

Section spec.
Context (blk_size : Z) (t_qread : Z -> option (list Z)).

Abbreviation tree := (tree_at blk_size t_qread).

Lemma tree_rec_ok lv full b lo hi recs : tree lv full b lo hi recs -> Forall rec_ok recs.
Proof.
  revert full b lo hi recs. induction lv as [|lv IH]; intros full b lo hi recs (m & rs & _ & Hb & H).
  { destruct H as (-> & _ & _). destruct Hb as (_ & _ & Hl). apply Hl. }
  destruct H as [_ H]. clear Hb. generalize dependent (full || (1 <? length rs)%nat). intros f H.
  revert lo recs H. induction rs as [|r rs IHr]; intros lo recs; [done|]. cbn [children]. intros (b' & _ & H).
  destruct rs as [|r' rs]; [by eapply IH|]. destruct H as (Hi & r1 & r2 & -> & Ht & Hc). apply Forall_app. split; [by eapply IH|by apply (IHr (g_key r))].
Qed.

Context (clue_valid : list srch_blk_status -> bool) (base_diff : Z -> Z) (rt : Z) (depth : nat) (whole : list grec).
Hypothesis Htree : tree depth false rt [] None whole.
Hypothesis Hdepth : (0 < depth < 7)%nat.
Hypothesis Hbase : forall b, 1024 <= base_diff b.

Abbreviation ok := (gvt_ok blk_size t_qread clue_valid rt depth whole).
Abbreviation at_place := (state_at blk_size t_qread rt depth whole).

Lemma leaf_suffix l r : leaf_ok (l ++ r) -> leaf_ok r.
Proof.
  intros [Hr Hs]. apply Forall_app in Hr as [_ Hr]. split; [done|].
  unfold keys_sorted in *. rewrite fmap_app in Hs. by apply StronglySorted_app in Hs as (_ & _ & ?).
Qed.

Lemma whole_leaf : leaf_ok whole.
Proof. split; [by eapply tree_rec_ok|by eapply tree_sorted]. Qed.

(** The place of a key divides all records. *)
Lemma place_split t p : gkey_ok t -> place_ok blk_size t_qread rt depth t whole p ->
  whole = (p_pre p ++ p_left p) ++ (p_right p ++ p_post p) /\ split_at t (p_pre p ++ p_left p) (p_right p ++ p_post p).
Proof.
  intros Ht (Hz & _ & _ & Hf & _ & [Hl Hr] & [Hlo Hhi] & Hw). unfold p_recs in *. split; [by rewrite Hw, <- !app_assoc|].
  destruct (zip_range _ _ _ _ _ _ _ _ _ _ _ _ Hz) as [Hpre Hpost]. split.
  - apply Forall_app. split; [|done]. pose proof (tree_rec_ok _ _ _ _ _ _ Htree) as Hok. rewrite Hw in Hok. apply Forall_app in Hok as [Hok _].
    apply Forall_forall. intros y Hy. rewrite Forall_forall in Hpre, Hok. destruct (Hok y Hy) as [Hk _]. split; [by apply gkey_not_nil|].
    eapply not_lt_trans; [by apply Hpre|done].
  - destruct (p_right p) as [|x r]; [|done]. cbn [app]. destruct (p_post p) as [|y post]; [done|]. intros [_ Hy].
    destruct (p_hi p) as [h|]; [|done]. apply Forall_cons in Hpost as [Hh _]. apply Hhi. by transitivity (g_key y).
Qed.

Lemma state_ok g t p : at_place g t p -> ok g.
Proof. intros H. pose proof H as (H1 & H2 & _). split; [done|]. split; [done|]. intros _ _. by exists t, p. Qed.

(** The history with other statuses of index blocks. *)
Lemma state_up g t p up : at_place g t p -> zip blk_size t_qread rt depth 0 (p_full p) (p_blk p) (p_lo p) (p_hi p) (p_pre p) (p_post p) up ->
  at_place (set_hist g (mk_bh (p_blk p) (p_buf p) (status_at t (p_left p) (p_right p)) :: up)) t
    (mk_place (p_blk p) (p_buf p) (p_left p) (p_right p) (p_full p) (p_lo p) (p_hi p) (p_pre p) (p_post p) up).
Proof.
  intros (H1 & H2 & H3 & (Hz & Hrest) & Hh & Hf & Hl & Hp) Hz'. unfold state_at, set_hist, rooms_ok, place_ok, p_recs in *.
  cbn [root clue first_rec last_rec prev_key hist p_blk p_buf p_left p_right p_full p_lo p_hi p_pre p_post p_up]. done.
Qed.

Section key.
Context (K : gv_key) (t : list Z).
Hypothesis HK : key_holds K t.
Hypothesis Hbyte : forall x, t !! 0%nat = Some x -> x < 255.

(** *** The search *)

Lemma search_place g alt : ok g -> key_room alt 1024 ->
  exists g' p, gvcst_search blk_size t_qread clue_valid base_diff EXPAND_PREV_KEY_FALSE g K alt = Ok (g', alt) /\ at_place g' t p.
Proof.
  intros Hg Ha. destruct (gvcst_search_at blk_size t_qread clue_valid base_diff rt depth whole Htree Hdepth Hbase EXPAND_PREV_KEY_FALSE g K t alt
    Hg HK Hbyte Ha ltac:(done)) as (g' & alt' & p & E & Hst & _ & _ & ->). by exists g', p.
Qed.

Lemma key_len : k_end K + 1 = zlen t /\ gkey_ok t /\ (3 <= length t <= 1023)%nat.
Proof. destruct HK as (H1 & _ & H2 & H3). pose proof (gkey_length t H2). done. Qed.

(** The value of a record in its block. *)
Lemma record_value m recs l x r : recs_at m SIZEOF_blk_hdr [] recs -> recs = l ++ x :: r ->
  rd_list m (pos_after l + rec_size (last_key [] l) x - zlen (g_val x)) (zlen (g_val x)) = Ok (g_val x).
Proof.
  intros Ha Hr. pose proof (at_split m recs Ha l (x :: r) Hr) as (A & q & C & -> & <- & (hd & q' & Hh & -> & _)).
  unfold rec_size, rec_body. rewrite zlen_app. rewrite <- (hdr_length _ _ _ Hh).
  replace (zlen A + (zlen hd + (zlen (suffix (last_key [] l) x) + zlen (g_val x))) - zlen (g_val x))
    with (zlen (A ++ hd ++ suffix (last_key [] l) x)) by (rewrite !zlen_app; lia).
  unfold zlen at 2. apply rd_list_spec.
  - apply zlen_nonneg.
  - rewrite !zlen_app. unfold zlen. lia.
  - unfold zlen. rewrite Nat2Z.id. replace (A ++ (hd ++ (suffix (last_key [] l) x ++ g_val x) ++ q') ++ C)
      with ((A ++ hd ++ suffix (last_key [] l) x) ++ g_val x ++ q' ++ C) by (by rewrite <- !app_assoc).
    rewrite drop_app_length. by rewrite take_app_length.
Qed.

Lemma full_match x : gkey_ok x -> lcp x t = length t <-> x = t.
Proof.
  destruct key_len as (_ & Ht & _). intros Hx. split; [|intros ->; apply lcp_same].
  intros E. symmetry. apply gkey_prefix; [done|done|by rewrite lcp_comm].
Qed.

(** *** $GET *)

Lemma get2_spec g alt : ok g -> key_room alt 1024 ->
  exists g', gvcst_get2 blk_size t_qread clue_valid base_diff g K alt = Ok (g', alt, value_of t whole) /\ ok g'.
Proof.
  intros Hg Ha. destruct (search_place g alt Hg Ha) as (g' & p & E & Hst). destruct key_len as (He & Ht & Hl).
  exists g'. split; [|by apply (state_ok g' t p)]. unfold gvcst_get2. rewrite E. cbn [mbind res_bind].
  pose proof Hst as (_ & _ & _ & Hpl & Hh & _). rewrite Hh. cbn [leaf_of head res_of mbind res_bind bh_stat buffaddr]. rewrite He.
  destruct (place_split t p Ht Hpl) as [Hw Hs]. pose proof whole_leaf as HsR. rewrite Hw in HsR. apply leaf_suffix in HsR.
  rewrite Hw at 1. rewrite (value_split t _ _ Hs HsR). destruct Hpl as (_ & Hq & Hb & Hf & _ & Hsp & _). unfold p_recs in *.
  change (sr_offset (curr_rec (status_at t (p_left p) (p_right p)))) with (pos_after (p_left p)).
  destruct (p_right p) as [|x r] eqn:Er.
  - cbn [status_at curr_rec sr_match]. assert ((zlen t =? 0) = false) as -> by (apply Z.eqb_neq; unfold zlen; lia).
    cbn [app]. destruct (p_post p) as [|y post] eqn:Ep; [done|]. rewrite decide_False; [done|]. intros Ey.
    destruct Hst as (_ & _ & _ & (Hz & _ & _ & _ & _ & _ & [_ Hhi] & _) & _). rewrite Ep in Hz.
    destruct (zip_range _ _ _ _ _ _ _ _ _ _ _ _ Hz) as [_ Hpost]. destruct (p_hi p) as [h|]; [|done].
    apply Forall_cons in Hpost as [Hh' _]. rewrite Ey in Hh'. done.
  - change (sr_match (curr_rec (status_at t (p_left p) (x :: r)))) with (Z.of_nat (lcp (g_key x) t)).
    destruct Hb as (_ & Hat & [Hok _]). apply Forall_app in Hok as [_ [[Hx Hxl] _]%Forall_cons]. cbn [app].
    destruct (Z.eqb_spec (zlen t) (Z.of_nat (lcp (g_key x) t))) as [Em|Em].
    + assert (Ex : g_key x = t) by (apply full_match; [done|unfold zlen in Em; lia]).
      rewrite decide_True by done. destruct (blk_at_recs _ _ _ _ Hat) as (Har & _ & -> & Hsz). cbn [mbind res_bind].
      pose proof (at_split _ _ Har (p_left p) (x :: r) eq_refl) as Hax. destruct (recs_at_hdr _ _ _ _ _ Hax) as [-> ->]. cbn [mbind res_bind].
      assert (Ed : rec_size (last_key [] (p_left p)) x + Z.of_nat (lcp (last_key [] (p_left p)) (g_key x)) - SIZEOF_rec_hdr - zlen t = zlen (g_val x)).
      { unfold rec_size, rec_body, suffix. rewrite zlen_app. pose proof (lcp_le_r (last_key [] (p_left p)) (g_key x)). 
        replace (zlen t) with (zlen (g_key x)) by (by rewrite Ex). unfold zlen. rewrite length_drop. lia. }
      rewrite Ed. assert (Hp : pos_after (p_left p) + rec_size (last_key [] (p_left p)) x <= SIZEOF_blk_hdr + recs_size [] (p_left p ++ x :: r)).
      { unfold pos_after. rewrite recs_size_app. cbn [recs_size]. pose proof (recs_size_nonneg (g_key x) r). lia. }
      pose proof (zlen_nonneg (g_val x)).
      assert ((zlen (g_val x) <? 0) || (SIZEOF_blk_hdr + recs_size [] (p_left p ++ x :: r) <? pos_after (p_left p) + rec_size (last_key [] (p_left p)) x) = false) as ->.
      { apply orb_false_intro; apply Z.ltb_ge; lia. }
      by rewrite (record_value _ _ _ x r Har eq_refl).
    + rewrite decide_False; [done|]. intros Ex. apply Em. rewrite Ex, lcp_same. done.
Qed.

(** *** The record at or after the key *)

Lemma post_after p y post : place_ok blk_size t_qread rt depth t whole p -> p_post p = y :: post -> gvlt t (g_key y).
Proof.
  intros (Hz & _ & _ & _ & _ & _ & [_ Hhi] & _) Ep. rewrite Ep in Hz. destruct (zip_range _ _ _ _ _ _ _ _ _ _ _ _ Hz) as [_ Hpost].
  destruct (p_hi p) as [h|]; [|done]. apply Forall_cons in Hpost as [Hh _]. by eapply not_lt_trans.
Qed.

Lemma not_before k : gvlt t k -> ~ gvlt k t.
Proof. intros H1 H2. destruct (gvlt_irrefl t). by transitivity k. Qed.

(** The data block to the right. *)
Lemma right_spec g p alt : at_place g t p ->
  (p_post p = [] /\ right_block blk_size t_qread g K alt = Ok (g, None)) \/
  (exists g' b m x rs post, right_block blk_size t_qread g K alt = Ok (g', Some (mk_bh b m (status_at t [] (x :: rs)))) /\
    ok g' /\ hist g' <> [] /\ blk_ok blk_size 0 m (x :: rs) /\ p_post p = x :: rs ++ post /\ split_at t [] (x :: rs)).
Proof.
  intros Hst. destruct key_len as (He & Ht & Hl). pose proof Hst as (_ & _ & _ & Hpl & Hh & _). pose proof Hpl as (Hz & _ & _ & _ & _ & _ & Hr & _).
  unfold right_block. rewrite Hh. destruct (rtsib_spec blk_size t_qread rt depth K alt t HK _ _ _ _ _ _ _ _ Hz Hr) as
    [[Ep ->]|(up' & b1 & m1 & rs1 & post1 & st & h & -> & Hz' & (Hq & Hb & Hn) & Ep)]; [by left|right].
  cbn [leaf_of head res_of mbind res_bind]. destruct rs1 as [|x rs]; [done|].
  assert (Hs : split_at t [] (x :: rs)).
  { split; [constructor|]. intros [_ Hx]. apply (not_before (g_key x)); [|done]. by apply (post_after p x (rs ++ post1)). }
  assert (E' : search_bh blk_size false K (mk_bh b1 m1 st) alt = Ok (mk_bh b1 m1 (status_at t [] (x :: rs)), alt)).
  { unfold search_bh. cbn [buffaddr blk_num]. rewrite (search_blk_at blk_size 0 m1 t (x :: rs) K Hb HK) with (l := []) (r := x :: rs); done. }
  rewrite E'. cbn [mbind res_bind]. eexists _, b1, m1, x, rs, post1. split; [done|].
  split; [|split; [done|split; [done|split; [done|done] ] ] ]. eapply state_ok. by apply state_up.
Qed.

Lemma next_spec g p alt : at_place g t p ->
  (p_right p ++ p_post p = [] /\ next_record blk_size t_qread g K alt = Ok (g, None)) \/
  (exists g' b m l x r R, next_record blk_size t_qread g K alt = Ok (g', Some (mk_bh b m (status_at t l (x :: r)))) /\
    ok g' /\ blk_ok blk_size 0 m (l ++ x :: r) /\ p_right p ++ p_post p = x :: R /\ split_at t l (x :: r)).
Proof.
  intros Hst. pose proof Hst as (_ & _ & _ & Hpl & Hh & _). pose proof Hpl as (_ & _ & Hb & _ & _ & Hs & _). pose proof Hb as (_ & Hat & _).
  unfold next_record. rewrite Hh. cbn [leaf_of head res_of mbind res_bind buffaddr bh_stat].
  destruct (blk_at_recs _ _ _ _ Hat) as (_ & _ & -> & _). cbn [mbind res_bind].
  change (sr_offset (curr_rec (status_at t (p_left p) (p_right p)))) with (pos_after (p_left p)).
  change (SIZEOF_blk_hdr + recs_size [] (p_recs p)) with (pos_after (p_recs p)). unfold p_recs in *.
  destruct (p_right p) as [|x r] eqn:Er.
  - rewrite app_nil_r. zif_true. cbn [app]. destruct (right_spec g p alt Hst) as [[-> ->]|(g' & b & m & x & rs & post & -> & Hok & _ & Hb' & -> & Hs')]; [by left|right].
    by exists g', b, m, [], x, rs, (rs ++ post).
  - right. assert (pos_after (p_left p) < pos_after (p_left p ++ x :: r)).
    { unfold pos_after. rewrite recs_size_app. cbn [recs_size]. pose proof (recs_size_nonneg (g_key x) r). pose proof (rec_size_pos (last_key [] (p_left p)) x).
      unfold SIZEOF_rec_hdr in *. lia. }
    zif_false. eexists g, _, _, (p_left p), x, r, (r ++ p_post p). split; [done|]. split; [by apply (state_ok g t p)|]. done.
Qed.

(** *** $QUERY *)

Lemma query2_spec g alt : ok g -> key_room alt 1024 ->
  exists g' alt', gvcst_query2 blk_size t_qread clue_valid base_diff g K alt =
      Ok (g', alt', match from_key t whole with [] => false | _ => true end) /\ ok g' /\
    match from_key t whole with [] => alt' = alt | x :: _ => key_is alt alt' (g_key x) end.
Proof.
  intros Hg Ha. destruct (search_place g alt Hg Ha) as (g1 & p & E & Hst). destruct key_len as (He & Ht & Hl).
  pose proof Hst as (_ & _ & _ & Hpl & _). destruct (place_split t p Ht Hpl) as [Hw Hs].
  destruct (split_from t _ _ Hs) as [_ Hfrom]. rewrite <- Hw in Hfrom. unfold gvcst_query2. rewrite E. cbn [mbind res_bind].
  destruct (next_spec g1 p alt Hst) as [[En ->]|(g' & b & m & l & x & r & R & -> & Hok & Hb & En & Hs')]; rewrite En in Hfrom; cbn [mbind res_bind].
  - exists g1, alt. rewrite Hfrom. split; [done|]. split; [|done]. by apply (state_ok g1 t p).
  - cbn [buffaddr bh_stat]. pose proof Hb as (_ & Hat & Hlf). change (leaf_ok (l ++ x :: r)) in Hlf.
    destruct (gvcst_expand_curr_key_spec blk_size 0 m _ l x r K t alt Hat eq_refl) as (alt' & -> & Hk); try done; [by eapply leaf_cons|].
    cbn [mbind res_bind]. exists g', alt'. by rewrite Hfrom.
Qed.

(** *** $DATA *)

Lemma descendant_lcp k : gkey_ok k -> descendant t k = true <-> k <> t /\ (length t - 1 <= lcp k t)%nat.
Proof.
  intros Hk. destruct key_len as (_ & Ht & Hl). unfold descendant. rewrite andb_true_iff, !bool_decide_eq_true. split; intros [Hn H]; (split; [done|]).
  - destruct (decide (length k < length t - 1)%nat) as [Hlt|]; [|apply lcp_ge; [done|lia|lia] ].
    exfalso. rewrite take_ge in H by lia. pose proof (lcp_ge k t (length k)) as H'. rewrite (take_ge k (length k)) in H' by lia.
    assert (take (length k) t = k).
    { rewrite H, length_take at 1. rewrite Nat.min_l by lia. done. }
    assert (lcp k t = length k) by (pose proof (lcp_le_l k t); specialize (H' ltac:(done) ltac:(lia) ltac:(lia)); lia).
    apply Hn. by apply gkey_prefix.
  - by apply lcp_take.
Qed.

(** The descendants of a key come right after it. *)
Lemma descendant_next L R : split_at t L R -> leaf_ok (L ++ R) ->
  existsb (fun r => descendant t (g_key r)) (L ++ R) =
  match R with
  | [] => false
  | x :: R' => if decide (g_key x = t) then match R' with y :: _ => descendant t (g_key y) | [] => false end else descendant t (g_key x)
  end.
Proof.
  destruct key_len as (_ & Ht & Hl). intros [HL HR] [Hok Hs]. rewrite existsb_app. apply Forall_app in Hok as [HokL HokR].
  assert (E0 : existsb (fun r => descendant t (g_key r)) L = false).
  { apply not_true_is_false. intros (z & Hz & Hd)%existsb_exists. apply list_elem_of_In in Hz. rewrite Forall_forall in HL, HokL.
    destruct (HL z Hz) as [_ Hlt], (HokL z Hz) as [Hgz _]. apply descendant_lcp in Hd as [Hn Hc]; [|done].
    destruct (gkey_lt (g_key z) t Hgz Ht Hlt) as (u & v & Eu & Ev & Huv). pose proof (lookup_lt_Some _ _ _ Ev).
    assert (lcp (g_key z) t = length t - 1)%nat as El by lia. rewrite El in *.
    destruct Ht as (_ & n & Hn' & _ & _ & _ & E1 & _). replace (length t - 1)%nat with (S n) in Ev by lia. rewrite E1 in Ev. injection Ev as <-.
    destruct Hgz as (Hbz & _). pose proof (Forall_lookup_1 _ _ _ _ Hbz Eu) as Hu. unfold byte_ok in Hu. lia. }
  rewrite E0. cbn [orb]. assert (HsR : keys_sorted R) by (unfold keys_sorted in *; rewrite fmap_app in Hs; by apply StronglySorted_app in Hs as (_ & _ & ?)).
  assert (Hrun : forall x xs, ~ gvlt (g_key x) t -> g_key x <> t -> Forall rec_ok (x :: xs) -> keys_sorted (x :: xs) ->
    existsb (fun r => descendant t (g_key r)) (x :: xs) = descendant t (g_key x)).
  { intros x xs Hx Hxt Hoks Hss. cbn [existsb]. destruct (descendant t (g_key x)) eqn:Ed; [done|]. cbn [orb].
    apply not_true_is_false. intros (z & Hz & Hd)%existsb_exists. apply list_elem_of_In in Hz.
    apply Forall_cons in Hoks as [[Hgx _] Hoks]. rewrite Forall_forall in Hoks. destruct (Hoks z Hz) as [Hgz _].
    apply descendant_lcp in Hd as [Hn Hc]; [|done]. apply not_true_iff_false in Ed. apply Ed. apply descendant_lcp; [done|]. split; [done|].
    assert (Hxz : gvlt (g_key x) (g_key z)).
    { unfold keys_sorted in Hss. cbn in Hss. apply StronglySorted_inv in Hss as [_ Hss]. rewrite Forall_forall in Hss. apply Hss. by apply list_elem_of_fmap_2. }
    destruct (gvlt_cases t (g_key x)) as [H|[H|H]]; [|by rewrite H in Hxt|done].
    rewrite lcp_comm in Hc. rewrite (lcp_sorted t (g_key x) (g_key z) H Hxz) in Hc. rewrite lcp_comm. lia. }
  assert (Hself : descendant t t = false) by (unfold descendant; rewrite bool_decide_false; [done|by intros []]).
  destruct R as [|x R]; [done|]. apply Forall_cons in HokR as Hokx. destruct Hokx as [[Hgx Hgxl] HokR'].
  assert (Hx : ~ gvlt (g_key x) t) by (intros H; apply HR; split; [by apply gkey_not_nil|done]).
  case_decide as Ex; [|by apply Hrun].
  cbn [existsb]. rewrite Ex, Hself. cbn [orb]. destruct R as [|y R]; [done|].
  unfold keys_sorted in HsR. cbn in HsR. apply StronglySorted_inv in HsR as [HsR Hxs].
  assert (Hxy : gvlt t (g_key y)) by (rewrite <- Ex; by apply Forall_cons in Hxs as [? _]).
  apply Hrun; try done; [by apply not_before|]. intros E. rewrite E in Hxy. by destruct (gvlt_irrefl t).
Qed.

(** $DATA of a key among the records; [sn_disallowed]: a null byte is a value
    like others. *)
Definition data_of (sn_disallowed : bool) (rs : list grec) : Z :=
  let d := if existsb (fun r => descendant t (g_key r)) rs then 10 else 0 in
  match value_of t rs with
  | None => d
  | Some v => if bool_decide (v = [0]) && negb sn_disallowed then -1 else 1 + d
  end.

Lemma lcp_descendant y c : gkey_ok y -> gvlt t y -> c = Z.of_nat (lcp y t) -> (k_end K <=? c) = descendant t y.
Proof.
  intros Hy Hlt ->. destruct key_len as (He & Ht & Hl). apply eq_true_iff_eq. rewrite Z.leb_le, descendant_lcp by done.
  unfold zlen in He. split; [|lia]. intros H. split; [|lia]. intros ->. by destruct (gvlt_irrefl t).
Qed.

(** The first byte of a value of one byte. *)
Lemma dummy_spec m recs l x r : recs_at m SIZEOF_blk_hdr [] recs -> recs = l ++ x :: r ->
  IS_SN_DUMMY m (zlen (g_val x)) (pos_after l + rec_size (last_key [] l) x - zlen (g_val x)) = Ok (bool_decide (g_val x = [0])).
Proof.
  intros Ha Hr. pose proof (record_value m recs l x r Ha Hr) as Hv. unfold IS_SN_DUMMY. destruct (g_val x) as [|v [|]] eqn:Ev.
  - done.
  - change (zlen [v] =? 1) with true. cbv iota. change (zlen [v]) with (Z.of_nat 1) in *. unfold rd_list in Hv.
    destruct (_ && _ && _) eqn:Ec in Hv; [|done]. zbool. injection Hv as Hv. rewrite Nat2Z.id in Hv.
    unfold rd8, rd. zif_false. destruct (drop _ m) as [|u q] eqn:Ed in Hv; [done|]. injection Hv as ->.
    pose proof (f_equal (fun q => q !! 0%nat) Ed) as E0. simpl in E0. rewrite lookup_drop, Nat.add_0_r in E0. rewrite E0. cbn [res_of mbind res_bind].
    f_equal. destruct (Z.eqb_spec v 0) as [->|]; symmetry; [by apply bool_decide_eq_true|apply bool_decide_eq_false; congruence].
  - assert ((zlen (v :: z :: l0) =? 1) = false) as -> by (apply Z.eqb_neq; unfold zlen; simpl; lia). by rewrite bool_decide_false.
Qed.

(** $DATA from the records at the place of the key. *)
Definition data_here (sn : bool) (R : list grec) : Z :=
  match R with
  | [] => 0
  | x :: R' =>
      if decide (g_key x = t) then
        if bool_decide (g_val x = [0]) && negb sn then -1
        else match R' with y :: _ => if descendant t (g_key y) then 11 else 1 | [] => 1 end
      else if descendant t (g_key x) then 10 else 0
  end.

Lemma data_split sn L R : split_at t L R -> leaf_ok (L ++ R) -> data_of sn (L ++ R) = data_here sn R.
Proof.
  intros Hs Hw. unfold data_of, data_here. rewrite (value_split t _ _ Hs (leaf_suffix _ _ Hw)), (descendant_next _ _ Hs Hw).
  destruct R as [|x R]; [done|]. case_decide; [|done]. destruct (_ && _); [done|]. destruct R as [|y R]; [done|]. by destruct (descendant t (g_key y)).
Qed.

(** The rest of $DATA when the record at or after the key is the last of its block. *)
Lemma data_right g p alt val : at_place g t p ->
  exists g', ('(g, rt0) ← right_block blk_size t_qread g K alt;
      Ok (g, match rt0 with Some bh => if k_end K <=? sr_match (curr_rec (bh_stat bh)) then val + 10 else val | None => val end)) =
    Ok (g', match p_post p with y :: _ => if descendant t (g_key y) then val + 10 else val | [] => val end) /\ ok g'.
Proof.
  intros Hst. pose proof Hst as (_ & _ & _ & Hpl & _). pose proof (state_ok g t p Hst) as Hok1.
  destruct (right_spec g p alt Hst) as [[-> ->]|(g' & b & m & x & rs & post & -> & Hok & _ & Hb' & Ep & Hs')]; cbn [mbind res_bind].
  - by exists g.
  - exists g'. rewrite Ep. split; [|done]. cbn [bh_stat status_at curr_rec sr_match]. destruct Hb' as (_ & _ & [[[Hgx _] _]%Forall_cons _]).
    by rewrite (lcp_descendant (g_key x) _ Hgx (post_after p x _ Hpl Ep) eq_refl).
Qed.

(** The value of a record, from its offsets in the block. *)
Lemma value_place m recs l x r : recs_at m SIZEOF_blk_hdr [] recs -> recs = l ++ x :: r -> g_key x = t ->
  let off := SIZEOF_rec_hdr + Z.of_nat (lcp (g_key x) t) - Z.of_nat (lcp (last_key [] l) (g_key x)) in
  IS_SN_DUMMY m (rec_size (last_key [] l) x - off) (pos_after l + off) = Ok (bool_decide (g_val x = [0])).
Proof.
  intros Ha Hr Ex off. rewrite <- (dummy_spec m recs l x r Ha Hr).
  assert (Ed : rec_size (last_key [] l) x - off = zlen (g_val x)).
  { subst off. unfold rec_size, rec_body, suffix. rewrite zlen_app, <- Ex, lcp_same. pose proof (lcp_le_r (last_key [] l) (g_key x)).
    unfold zlen. rewrite length_drop. lia. }
  rewrite Ed. f_equal. lia.
Qed.

(** The value of the dummy of a spanning node, where there can be one. *)
Lemma dummy_allowed sn absent v : (v = [0] -> sn = true -> absent = true) ->
  (if bool_decide (v = [0]) then no_span ← IF_SN_DISALLOWED_AND_NO_SPAN_IN_DB sn absent; Ok (if no_span : bool then 0 else -1) else Ok 0) =
  Ok (if bool_decide (v = [0]) && negb sn then -1 else 0).
Proof.
  intros H. case_bool_decide as E; [|done]. unfold IF_SN_DISALLOWED_AND_NO_SPAN_IN_DB. destruct sn; [|done]. by rewrite (H E).
Qed.

Lemma data2_spec sn absent g alt : ok g -> key_room alt 1024 -> (value_of t whole = Some [0] -> sn = true -> absent = true) ->
  exists g', gvcst_data2 blk_size t_qread clue_valid base_diff sn absent g K alt = Ok (g', alt, data_of sn whole) /\ ok g'.
Proof.
  intros Hg Ha Hno. destruct (search_place g alt Hg Ha) as (g1 & p & E & Hst). destruct key_len as (He & Ht & Hl).
  pose proof Hst as (_ & _ & _ & Hpl & Hh & _). destruct (place_split t p Ht Hpl) as [Hw Hs].
  pose proof (state_ok g1 t p Hst) as Hok1. pose proof whole_leaf as HsW. rewrite Hw in HsW. pose proof (leaf_suffix _ _ HsW) as HsR.
  pose proof (value_split t _ _ Hs HsR) as Hval. rewrite <- Hw in Hval.
  assert (data_of sn whole = data_here sn (p_right p ++ p_post p)) as -> by (rewrite Hw at 1; by apply data_split).
  unfold gvcst_data2. rewrite E. cbn [mbind res_bind]. rewrite Hh. cbn [leaf_of head res_of mbind res_bind bh_stat buffaddr].
  pose proof Hpl as (_ & Hq & Hb & _ & _ & Hsp & _). pose proof Hb as (_ & Hat & Hlf). destruct (blk_at_recs _ _ _ _ Hat) as (Har & _ & Hbs & Hsz).
  rewrite Hbs. cbn [mbind res_bind]. unfold p_recs in *. rewrite He.
  change (SIZEOF_blk_hdr + recs_size [] (p_left p ++ p_right p)) with (pos_after (p_left p ++ p_right p)) in *.
  change (sr_offset (curr_rec (status_at t (p_left p) (p_right p)))) with (pos_after (p_left p)).
  pose proof (fun val => data_right g1 p alt val Hst) as Hrt. destruct (p_right p) as [|x r] eqn:Er.
  - cbn [status_at curr_rec sr_match]. assert ((zlen t =? 0) = false) as -> by (apply Z.eqb_neq; unfold zlen; lia).
    assert ((k_end K <=? 0) = false) as -> by (apply Z.leb_gt; unfold zlen in He; lia). rewrite app_nil_r, Z.eqb_refl. cbn [mbind res_bind app].
    destruct (Hrt 0) as (g' & -> & Hok). cbn [mbind res_bind Z.eqb negb]. exists g'. split; [|done]. f_equal. f_equal.
    unfold data_here. destruct (p_post p) as [|y post] eqn:Ep; [done|]. pose proof (post_after p y post Hpl Ep) as Hy.
    rewrite decide_False; [done|]. intros E1. rewrite E1 in Hy. by destruct (gvlt_irrefl t).
  - change (sr_match (curr_rec (status_at t (p_left p) (x :: r)))) with (Z.of_nat (lcp (g_key x) t)). cbn [app] in *.
    destruct HsR as [HokR HsortR]. apply Forall_cons in HokR as HokR'. destruct HokR' as [[Hgx Hgxl] HokR'].
    destruct Hsp as [_ Hx]. assert (Hnx : ~ gvlt (g_key x) t) by (intros H; apply Hx; split; [by apply gkey_not_nil|done]).
    destruct (Z.eqb_spec (zlen t) (Z.of_nat (lcp (g_key x) t))) as [Em|Em].
    + assert (Ex : g_key x = t) by (apply full_match; [done|unfold zlen in Em; lia]). unfold data_here. rewrite decide_True by done.
      pose proof (at_split _ _ Har (p_left p) (x :: r) eq_refl) as Hax. destruct (recs_at_hdr _ _ _ _ _ Hax) as [-> ->]. cbn [mbind res_bind].
      rewrite (value_place _ _ (p_left p) x r Har eq_refl Ex). cbn [mbind res_bind]. rewrite <- pos_after_snoc.
      cbn [app] in Hval. rewrite decide_True in Hval by done. pose proof (dummy_allowed sn absent (g_val x)) as Hd. cbn [mbind res_bind] in Hd.
      rewrite Hd by (intros Ev; apply Hno; by rewrite Hval, Ev). clear Hd. cbn [mbind res_bind].
      assert (Hap : p_left p ++ x :: r = (p_left p ++ [x]) ++ r) by (by rewrite <- app_assoc).
      assert (Hfin : negb ((if bool_decide (g_val x = [0]) && negb sn then -1 else 0) =? 0) = bool_decide (g_val x = [0]) && negb sn).
      { by destruct (bool_decide (g_val x = [0]) && negb sn). }
      destruct r as [|y r].
      * zif_false. rewrite Z.eqb_refl. cbn [mbind res_bind app]. destruct (Hrt 1) as (g' & -> & Hok). cbn [mbind res_bind].
        exists g'. split; [|done]. rewrite Hfin. f_equal. f_equal. by destruct (bool_decide (g_val x = [0]) && negb sn).
      * assert (Hlt : pos_after (p_left p ++ [x]) + rec_size (g_key x) y <= pos_after (p_left p ++ x :: y :: r)).
        { rewrite Hap. unfold pos_after. rewrite !(recs_size_app [] (p_left p ++ [x])), last_key_snoc. cbn [recs_size]. pose proof (recs_size_nonneg (g_key y) r). lia. }
        pose proof (rec_size_pos (g_key x) y) as Hz4. unfold SIZEOF_rec_hdr in Hz4. zif_false. zif_false.
        pose proof (at_split _ _ Har (p_left p ++ [x]) (y :: r) Hap) as Hay. rewrite last_key_snoc in Hay.
        destruct (recs_at_hdr _ _ _ _ _ Hay) as [_ ->]. cbn [mbind res_bind app]. exists g1. split; [|done].
        unfold keys_sorted in HsortR. cbn in HsortR. apply StronglySorted_inv in HsortR as [_ HsortR]. apply Forall_cons in HsortR as [Hxy _].
        apply Forall_cons in HokR' as [[Hgy _] _].
        rewrite (lcp_descendant (g_key y)); [|done|by rewrite <- Ex|by rewrite Ex, lcp_comm]. rewrite Hfin.
        f_equal. f_equal. by destruct (bool_decide (g_val x = [0]) && negb sn).
    + assert (Hne : g_key x <> t) by (intros Ex; apply Em; by rewrite Ex, lcp_same). unfold data_here. rewrite decide_False by done.
      assert (Hlx : gvlt t (g_key x)) by (destruct (gvlt_cases t (g_key x)) as [H|[H|H]]; [done|by rewrite H in Hne|done]).
      rewrite (lcp_descendant (g_key x) _ Hgx Hlx eq_refl).
      destruct (descendant t (g_key x)); cbn [mbind res_bind]; [exists g1; by split|].
      assert (pos_after (p_left p) < pos_after (p_left p ++ x :: r)).
      { unfold pos_after. rewrite recs_size_app. cbn [recs_size]. pose proof (recs_size_nonneg (g_key x) r). pose proof (rec_size_pos (last_key [] (p_left p)) x).
        unfold SIZEOF_rec_hdr in *. lia. }
      assert ((pos_after (p_left p) =? pos_after (p_left p ++ x :: r)) = false) as -> by (apply Z.eqb_neq; lia). cbn [mbind res_bind]. by exists g1.
Qed.

(** *** $ORDER *)

(** A key, in a buffer. *)
Definition buffer_is (k : gv_key) (z : list Z) : Prop := k_end k + 1 = zlen z /\ exists slack, k_base k = z ++ slack.

(** A key above the target differs from it before its two last bytes. *)
Lemma above_room x : gkey_ok x -> gvlt t x -> (lcp x t + 2 <= length x)%nat.
Proof.
  destruct key_len as (_ & Ht & _). intros Hx Hlt. destruct (gkey_lt t x Ht Hx Hlt) as (u & v & Eu & Ev & Huv). rewrite lcp_comm in Eu, Ev.
  pose proof (lookup_lt_Some _ _ _ Ev). destruct Hx as (_ & n & Hn & _ & _ & _ & E1 & _).
  destruct (decide (lcp x t = S n)) as [E|]; [|lia]. rewrite E, E1 in Ev. injection Ev as <-.
  destruct Ht as (Hb & _). pose proof (Forall_lookup_1 _ _ _ _ Hb Eu) as Hu. unfold byte_ok in Hu. lia.
Qed.

Lemma null_at k i : gkey_ok k -> (i + 2 <= length k)%nat -> drop i k !! (length k - 2 - i)%nat = Some 0.
Proof. intros (_ & n & Hn & _ & _ & E0 & _) Hi. rewrite lookup_drop, <- E0. f_equal. lia. Qed.

Lemma order2_spec g alt : ok g -> key_room alt 1024 -> value_of t whole = None ->
  exists g' alt', gvcst_order2 blk_size t_qread clue_valid base_diff g K alt =
      Ok (g', alt', match from_key t whole with [] => false | x :: _ => k_prev K <=? Z.of_nat (lcp (g_key x) t) end) /\ ok g' /\
    match from_key t whole with [] => alt' = alt | x :: _ => buffer_is alt' (subscript_key (g_key x) (lcp (g_key x) t)) end.
Proof.
  intros Hg [Ha1 Ha2] Hv. destruct (search_place g alt Hg (conj Ha1 Ha2)) as (g1 & p & E & Hst). destruct key_len as (He & Ht & Hl).
  pose proof Hst as (_ & _ & _ & Hpl & _). destruct (place_split t p Ht Hpl) as [Hw Hs]. pose proof whole_leaf as HsW. rewrite Hw in HsW, Hv.
  rewrite (value_split t _ _ Hs (leaf_suffix _ _ HsW)) in Hv. destruct (split_from t _ _ Hs) as [_ Hfrom]. rewrite <- Hw in Hfrom.
  unfold gvcst_order2. rewrite E. cbn [mbind res_bind].
  destruct (next_spec g1 p alt Hst) as [[En ->]|(g' & b & m & l & x & r & R & -> & Hok & Hb & En & [Hs1 Hs2])]; rewrite En in *; cbn [mbind res_bind].
  - exists g1, alt. rewrite Hfrom. split; [done|]. split; [|done]. by apply (state_ok g1 t p).
  - rewrite Hfrom. cbn [buffaddr bh_stat]. case_decide as Hxt; [done|]. pose proof Hb as (_ & Hat & [Hlf _]).
    apply Forall_app in Hlf as [_ [[Hgx Hgxl] _]%Forall_cons].
    assert (Htx : gvlt t (g_key x)).
    { destruct (gvlt_cases t (g_key x)) as [H|[H|H]]; [done|by rewrite H in Hxt|]. destruct Hs2. split; [|done]. by apply gkey_not_nil. }
    pose proof (above_room (g_key x) Hgx Htx) as Hi. pose proof (lcp_le_r (g_key x) t) as Hi2. destruct HK as (_ & [sl Eb] & _).
    change (sr_offset (curr_rec (status_at t l (x :: r)))) with (pos_after l).
    change (sr_match (curr_rec (status_at t l (x :: r)))) with (Z.of_nat (lcp (g_key x) t)). set (i := lcp (g_key x) t) in *.
    rewrite (rd_list_0 (k_base K) i (take i t)); [|rewrite Eb, length_app; lia|rewrite Eb; apply take_app_le; lia]. cbn [mbind res_bind].
    rewrite wr_list_spec by (unfold zlen in *; rewrite ?length_take; lia). cbn [res_of mbind res_bind]. rewrite take_0. cbn [app].
    destruct (blk_at_recs _ _ _ _ Hat) as (Har & _). pose proof (at_split _ _ Har l (x :: r) eq_refl) as Hax.
    destruct (recs_at_hdr _ _ _ _ _ Hax) as [-> ->]. cbn [mbind res_bind]. set (d := take i t ++ _).
    assert (Ld : length d = length (k_base alt)).
    { subst d. unfold zlen in *. rewrite length_app, length_drop, !length_take. lia. }
    assert (Hc : (lcp (last_key [] l) (g_key x) <= i)%nat).
    { subst i. apply curr_match; [apply last_before; [by apply gkey_not_nil|done]| |by apply not_before].
      destruct Hb as (_ & _ & [Hlf Hls]). apply (sorted_next l x r); [by apply Forall_app in Hlf as [? _]|done|done]. }
    destruct (copy_subscript_spec (length m) m (drop i (g_key x)) d i (pos_after l + SIZEOF_rec_hdr + Z.of_nat i - Z.of_nat (lcp (last_key [] l) (g_key x)))
      (pos_after l + rec_size (last_key [] l) x) (k_top alt - 1) _ (null_at (g_key x) i Hgx Hi)) as (s2 & -> & Hl2).
    + intros j y Hy. rewrite lookup_drop in Hy. pose proof (record_reads m _ l x r i Har eq_refl Hc (i + j)%nat y ltac:(lia) Hy) as Hrd.
      rewrite <- Hrd. f_equal. lia.
    + destruct (recs_at_suffix _ _ _ _ _ Hax) as (_ & Hm & _). pose proof (pos_after_ge l). unfold SIZEOF_rec_hdr, SIZEOF_blk_hdr, zlen in *. rewrite length_drop. lia.
    + unfold rec_size, rec_body, suffix. rewrite zlen_app. unfold zlen. rewrite !length_drop. lia.
    + lia.
    + rewrite Ld. unfold zlen in *. lia.
    + cbn [mbind res_bind]. eexists g', _. split; [done|]. split; [done|]. unfold buffer_is, subscript_key. cbn [k_end k_base].
      assert (Td : take i d = take i (g_key x)).
      { subst d. rewrite take_app_le by (rewrite length_take; lia). rewrite take_take, Nat.min_id. symmetry. by apply lcp_take. }
      rewrite Td in *. split; [unfold zlen; rewrite length_app, length_take; lia|]. exists s2. by rewrite <- app_assoc.
Qed.
(** *** $ZPREVIOUS *)

(** The key [y] has a subscript at the level of the last one of the target,
    which starts at [from], and the same ones before. *)
Definition same_parent (from : Z) (y : list Z) : bool := (from <=? Z.of_nat (lcp y t)) && (from <? zlen y - 1).

(** The last subscript of the target starts at [from] or before. *)
Definition last_subscript (from : Z) : Prop := 0 <= from /\ forall i : nat, t !! i = Some 0 -> (i < length t - 2)%nat -> Z.of_nat i < from.

(** A key below the target differs from it before its two last bytes, or the
    target has more subscripts. *)
Lemma below_lcp y : gkey_ok y -> gvlt y t -> (lcp y t + 2 <= length y)%nat \/
  (lcp y t + 1 = length y)%nat /\ (length y < length t)%nat /\ t !! (length y - 2)%nat = Some 0.
Proof.
  destruct key_len as (_ & Ht & _). intros Hy Hlt. destruct (gkey_lt y t Hy Ht Hlt) as (u & v & Eu & Ev & Huv).
  pose proof (lookup_lt_Some _ _ _ Eu). pose proof (lookup_lt_Some _ _ _ Ev). destruct (decide (lcp y t + 1 = length y)%nat) as [E|]; [right|lia].
  pose proof Hy as (_ & n & Hn & _ & _ & E0 & _). rewrite <- (lookup_lcp y t (length y - 2)) by lia.
  replace (length y - 2)%nat with n by lia. split; [done|]. split; [|done]. destruct (decide (length t = length y)) as [El|]; [|lia].
  exfalso. destruct Ht as (_ & n' & Hn' & _ & _ & _ & E1 & _). replace (lcp y t) with (S n') in Ev, Eu by lia. rewrite E1 in Ev. injection Ev as <-.
  destruct Hy as (Hb & _). pose proof (Forall_lookup_1 _ _ _ _ Hb Eu) as Hu. unfold byte_ok in Hu. lia.
Qed.

Lemma no_parent y alt from : gkey_ok y -> gvlt y t -> k_end alt + 1 = zlen y ->
  ((k_end alt <? k_end K) && (k_end alt <=? from)) || (Z.of_nat (lcp y t) <? from) = negb (same_parent from y).
Proof.
  intros Hy Hlt He. destruct key_len as (Hk & _). pose proof (below_lcp y Hy Hlt) as Hc. unfold same_parent, zlen in *.
  destruct (Z.leb_spec from (Z.of_nat (lcp y t))) as [H1|H1]; cbn [andb negb].
  - rewrite (proj2 (Z.ltb_ge _ _) H1), orb_false_r. destruct (Z.ltb_spec from (Z.of_nat (length y) - 1)); cbn [negb].
    + apply andb_false_intro2. apply Z.leb_gt. lia.
    + apply andb_true_intro. split; [apply Z.ltb_lt|apply Z.leb_le]; lia.
  - rewrite (proj2 (Z.ltb_lt _ _) H1). apply orb_true_r.
Qed.

(** The end of $ZPREVIOUS, with the previous key in gv_altkey. *)
Lemma zprevious_cut y alt from : gkey_ok y -> gvlt y t -> last_subscript from -> same_parent from y = true ->
  k_end alt + 1 = zlen y -> (exists slack, k_base alt = y ++ slack) ->
  exists b e, truncate_subscript (length (k_base alt)) (k_base alt) (Z.of_nat (lcp y t)) (k_end alt) = Ok (b, e) /\
    buffer_is (mk_gv_key (k_top alt) e (k_prev alt) b) (subscript_key y (lcp y t)).
Proof.
  intros Hy Hlt [H0 Hf] [H1 H2]%andb_prop He [sl Eb]. apply Z.leb_le in H1. apply Z.ltb_lt in H2.
  destruct (below_lcp y Hy Hlt) as [Hc|(Hc & Hl & Hz)]; [|specialize (Hf _ Hz ltac:(unfold zlen in *; lia)); unfold zlen in *; lia].
  rewrite Eb. unfold zlen in *.
  assert (Lt : length (take (lcp y t) y) = lcp y t) by (rewrite length_take; lia).
  assert (Ey : take (lcp y t) y ++ drop (lcp y t) y = y) by apply take_drop.
  destruct (truncate_spec (length (y ++ sl)) (take (lcp y t) y) (drop (lcp y t) y) sl (k_end alt) _ (null_at y (lcp y t) Hy Hc)) as (s2 & E & El).
  { rewrite length_app, length_drop. lia. }
  { lia. }
  { rewrite length_app, length_drop. lia. }
  rewrite app_assoc, Ey in E. unfold zlen in E. rewrite Lt in E. rewrite E. eexists _, _. split; [done|].
  unfold buffer_is, subscript_key. cbn [k_end k_base]. split; [unfold zlen; rewrite length_app, Lt; lia|].
  exists s2. by rewrite <- app_assoc.
Qed.

(** The data block and record before the key, with its key in gv_altkey. *)
Lemma left_spec e g alt : ok g -> key_room alt 1024 -> expands e = true -> (skips_index e = true -> above_index blk_size t_qread rt depth t whole) ->
  exists g1 alt1 bh g2 alt2 lft, gvcst_search blk_size t_qread clue_valid base_diff e g K alt = Ok (g1, alt1) /\ head (hist g1) = Some bh /\
    (if sr_offset (prev_rec (bh_stat bh)) =? 0 then
      match gvcst_lftsib blk_size t_qread 0 bh (tail (hist g1)) K alt1 with
      | Ok (h, lft) => bh ← leaf_of lft; '(bh, alt) ← search_bh blk_size true K bh alt1; Ok (set_hist g1 h, alt, Some bh)
      | Err (CDB_SC cdb_sc_endtree) => Ok (g1, alt1, None)
      | Err e => Err e
      end
    else Ok (g1, alt1, Some bh)) = Ok (g2, alt2, lft) /\ ok g2 /\
    match last (upto_key t whole), lft with
    | None, None => k_end alt2 = 0
    | Some y, Some bh => gkey_ok (g_key y) /\ gvlt (g_key y) t /\ k_end alt2 + 1 = zlen (g_key y) /\ (exists slack, k_base alt2 = g_key y ++ slack) /\
        sr_match (prev_rec (bh_stat bh)) = Z.of_nat (lcp (g_key y) t)
    | _, _ => False
    end.
Proof.
  intros Hg Ha He Hab. destruct (gvcst_search_at blk_size t_qread clue_valid base_diff rt depth whole Htree Hdepth Hbase e g K t alt Hg HK Hbyte Ha Hab)
    as (g1 & alt1 & p & E & Hst & Ha1 & _ & Hp). rewrite He in Hp. destruct key_len as (_ & Ht & _).
  pose proof Hst as (_ & _ & _ & Hpl & Hh & _). destruct (place_split t p Ht Hpl) as [Hw Hs]. destruct (split_from t _ _ Hs) as [Hup _].
  rewrite <- Hw in Hup. pose proof Hpl as (Hz & _ & _ & _ & _ & _ & Hr & _). rewrite Hup.
  assert (Hin : forall l y, p_pre p ++ p_left p = l ++ [y] -> gkey_ok (g_key y) /\ gvlt (g_key y) t).
  { intros l y El. destruct Hs as [HL _]. pose proof whole_leaf as [Hok _]. rewrite Hw, El in Hok. rewrite El in HL.
    apply Forall_app in Hok as [[_ [[Hy _] _]%Forall_cons]%Forall_app _]. by apply Forall_app in HL as [_ [[_ ?] _]%Forall_cons]. }
  exists g1, alt1. rewrite Hh. cbn [head tail]. exists (mk_bh (p_blk p) (p_buf p) (status_at t (p_left p) (p_right p))). destruct (p_left p) as [|y l _] eqn:El using rev_ind.
  - cbn [bh_stat]. change (sr_offset (prev_rec (status_at t [] (p_right p)))) with 0. cbn [Z.eqb].
    destruct (lftsib_spec blk_size t_qread rt depth K alt1 t HK _ _ _ _ _ _ _ _ Hz Hr (mk_bh (p_blk p) (p_buf p) (status_at t [] (p_right p))) eq_refl)
      as [[Ep ->]|(up' & b1 & m1 & rs1 & pre1 & st & h & -> & Hz' & (Hq & Hb & Hn) & Ep)].
    + exists g1, alt1, None. rewrite Ep. split; [done|]. split; [done|]. split; [done|]. split; [by apply (state_ok g1 t p)|]. done.
    + cbn [leaf_of head res_of mbind res_bind]. rewrite app_nil_r in *.
      assert (Hs1 : split_at t rs1 []).
      { split; [|done]. destruct Hs as [HL _]. rewrite Ep in HL. by apply Forall_app in HL as [_ ?]. }
      destruct (search_leaf blk_size K t HK true m1 rs1 st b1 alt1 rs1 [] Hb Ha1) as (alt2 & -> & _ & _ & Hp2); [by rewrite app_nil_r|done|].
      cbn [mbind res_bind]. eexists _, alt2, _. split; [done|]. split; [done|]. split; [done|].
      split; [eapply state_ok; pose proof (state_up g1 t p up' Hst Hz') as Hst'; rewrite El in Hst'; exact Hst'|].
      rewrite Ep. destruct rs1 as [|y rs1 _] using rev_ind; [done|]. rewrite app_assoc, last_snoc. rewrite app_assoc in Ep.
      destruct (Hin _ _ Ep) as [H1 H2]. unfold alt_prev in Hp2. rewrite decide_False in Hp2 by (by destruct rs1). rewrite last_key_snoc in Hp2.
      cbn [bh_stat status_at prev_rec sr_match]. rewrite last_key_snoc. by destruct Hp2.
  - cbn [bh_stat]. assert ((sr_offset (prev_rec (status_at t (l ++ [y]) (p_right p))) =? 0) = false) as ->.
    { cbn [status_at prev_rec sr_offset]. rewrite pos_last_snoc. apply Z.eqb_neq. pose proof (pos_after_ge l). unfold SIZEOF_blk_hdr in *. lia. }
    eexists g1, alt1, _. split; [done|]. split; [done|]. split; [done|]. split; [by apply (state_ok g1 t p)|].
    rewrite app_assoc, last_snoc. destruct (Hin (p_pre p ++ l) y) as [H1 H2]; [by rewrite app_assoc|].
    unfold alt_prev in Hp. rewrite decide_False in Hp by (by destruct l). rewrite last_key_snoc in Hp.
    cbn [bh_stat status_at prev_rec sr_match]. rewrite last_key_snoc. by destruct Hp.
Qed.

Lemma zprevious2_spec name_len last_null g alt : ok g -> key_room alt 1024 -> last_subscript (k_prev K) ->
  ((name_len + 1 =? k_prev K) && last_null = true -> above_index blk_size t_qread rt depth t whole) ->
  exists g' alt', gvcst_zprevious2 blk_size t_qread clue_valid base_diff name_len last_null g K alt =
      Ok (g', alt', match last (upto_key t whole) with Some y => same_parent (k_prev K) (g_key y) | None => false end) /\ ok g' /\
    match last (upto_key t whole) with
    | Some y => same_parent (k_prev K) (g_key y) = true -> buffer_is alt' (subscript_key (g_key y) (lcp (g_key y) t))
    | None => True
    end.
Proof.
  intros Hg Ha Hl Hab. unfold gvcst_zprevious2. destruct key_len as (He & _ & Hlen). destruct Hl as [H0 Hf].
  destruct (left_spec (if (name_len + 1 =? k_prev K) && last_null then ZPREVIOUS_NULL_SUBS_LEVEL1 else EXPAND_PREV_KEY_TRUE) g alt Hg Ha) as
    (g1 & alt1 & bh & g2 & alt2 & lft & -> & Hh & E & Hok & Hy); [by destruct (_ && _)|by destruct (_ && _); [|]; intros; [apply Hab|]|].
  cbn [mbind res_bind]. assert (leaf_of (hist g1) = Ok bh) as -> by (unfold leaf_of; by rewrite Hh). cbn [mbind res_bind]. rewrite E. cbn [mbind res_bind].
  destruct (last (upto_key t whole)) as [y|], lft as [bh'|]; try done.
  - destruct Hy as (Hgy & Hlt & Hend & Hbuf & Hm). change (default bh (Some bh')) with bh'. rewrite Hm, (no_parent (g_key y) alt2) by done.
    destruct (same_parent (k_prev K) (g_key y)) eqn:Ep; cbn [negb]; [|by exists g2, alt2].
    destruct (zprevious_cut (g_key y) alt2 (k_prev K)) as (b & e & -> & Hb); [done|done|done|done|done|done|].
    cbn [mbind res_bind]. by eexists g2, _.
  - rewrite Hy. assert ((0 <? k_end K) && (0 <=? k_prev K) = true) as ->; [|by exists g2, alt2].
    apply andb_true_intro. split; [apply Z.ltb_lt; unfold zlen in *; lia|by apply Z.leb_le].
Qed.
End key.
End spec.
