(* ===== verification/Gvprops.v ===== *)
(** The properties of the reads of a global: what each of them finds in the sorted
    list of its records, from any state of the clue. *)

From stdpp Require Import base list numbers option tactics sorting.
From Stdlib Require Import ZArith Lia.
From S2P Require Import Prelude Subscript Gvsub Gvkey Gdsblk Blkexpand Gvexample Blksearch Blktail Blkprev Gvtree Gvread Gvzip Gvdown Gvsib Gvclue Gvspec.

Open Scope Z_scope.

(** * The place of a key *)

Section place.
Context (blk_size : Z) (t_qread : Z -> option (list Z)) (rt : Z) (depth : nat) (K : gv_key) (t : list Z).
Hypothesis HK : key_holds K t.

Abbreviation way := (zip blk_size t_qread rt depth).

Lemma zip_level n full b lo hi pre post up : way n full b lo hi pre post up -> (n <= depth)%nat.
Proof. induction 1; lia. Qed.

Lemma ok_fst (a b : srch_status) (k : gv_key) : Ok (a, k) = Ok (b, k) -> a = b.
Proof. intros H. congruence. Qed.

(** A step of the way, for the target, is that of the search in the block. *)
Lemma step_child lv m rs l x r b : blk_ok blk_size (Z.of_nat (S lv)) m rs -> pos_after rs + 1023 <= zlen m -> rs = l ++ x :: r ->
  points x b -> split_at t l (x :: r) ->
  gvcst_search_blk blk_size false m K K = Ok (status_at t l (x :: r), K) /\
    (n ← rsiz m (pos_after l); blk_of_rec m (pos_after l) n) = Ok b.
Proof.
  intros Hb Hrm Er Hp Hs. split.
  { apply (search_blk_at blk_size (Z.of_nat (S lv)) m t rs K Hb HK); [|done|done]. destruct HK as (_ & _ & _ & Hl). unfold zlen in *. lia. }
  pose proof Hb as (_ & Hat & _). destruct (blk_at_recs _ _ _ _ Hat) as (Ha & _).
  destruct (index_record blk_size lv m rs l x r Hb Er) as (Hv & _). pose proof (at_split m rs Ha l (x :: r) Er) as Hax.
  destruct (recs_at_hdr _ _ _ _ _ Hax) as [-> _]. cbn [mbind res_bind]. by apply (blk_of_rec_at m _ _ x r b).
Qed.

(** One block at each level has the target in its range. *)
Lemma place_unique n full b lo hi pre post up full' b' lo' hi' pre' post' up' :
  way n full b lo hi pre post up -> way n full' b' lo' hi' pre' post' up' -> in_range lo hi t -> in_range lo' hi' t -> b = b'.
Proof.
  pose proof HK as (_ & _ & Ht & _).
  intros Hz. revert full' b' lo' hi' pre' post' up'.
  induction Hz as [|lv full b lo hi pre post up m rs l x r st c cpre cpost Hz IH Hq Hb Hrm Er Hpt Hl Hri Hir Hil];
    intros full' b' lo' hi' pre' post' up' Hz' Hr Hr'.
  - inversion Hz' as [|lv2 f2 b2 lo2 hi2 pre2 post2 up2 m2 rs2 l2 x2 r2 st2 c2 cp2 cq2 Hz2]; subst; [done|]. apply zip_level in Hz2. lia.
  - inversion Hz' as [|lv2 f2 b2 lo2 hi2 pre2 post2 up2 m2 rs2 l2 x2 r2 st2 c2 cp2 cq2 Hz2 Hq2 Hb2 Hrm2 Er2 Hpt2 Hl2 Hri2 Hir2 Hil2].
    { subst lv. apply zip_level in Hz. lia. }
    subst.
    pose proof (parent_range blk_size t_qread t _ _ _ _ _ _ _ _ Hl Hir Hr) as Hp. pose proof (parent_range blk_size t_qread t _ _ _ _ _ _ _ _ Hl2 Hir2 Hr') as Hp2.
    pose proof (IH _ _ _ _ _ _ _ Hz2 Hp Hp2) as <-. rewrite Hq in Hq2. injection Hq2 as <-.
    assert (Hs : split_at t l (x :: r)) by (by apply (range_split blk_size K t HK lv m (l ++ x :: r) l x r lo hi)).
    assert (Hs2 : split_at t l2 (x2 :: r2)) by (by apply (range_split blk_size K t HK lv m (l2 ++ x2 :: r2) l2 x2 r2 lo2 hi2)).
    destruct (step_child _ m _ l x r _ Hb Hrm eq_refl Hpt Hs) as [E1 C1]. destruct (step_child _ m _ l2 x2 r2 _ Hb2 Hrm2 eq_refl Hpt2 Hs2) as [E2 C2].
    assert (Ep : pos_after l = pos_after l2) by (exact (f_equal (fun st => sr_offset (curr_rec st)) (ok_fst _ _ K (eq_trans (eq_sym E1) E2)))).
    rewrite Ep in C1. congruence.
Qed.

(** So has one place in it. *)
Lemma place_same whole whole' p p' : place_ok blk_size t_qread rt depth t whole p -> place_ok blk_size t_qread rt depth t whole' p' ->
  p_blk p = p_blk p' /\ p_buf p = p_buf p' /\ status_at t (p_left p) (p_right p) = status_at t (p_left p') (p_right p').
Proof.
  intros (Hz & Hq & Hb & _ & _ & Hs & Hr & _) (Hz' & Hq' & Hb' & _ & _ & Hs' & Hr' & _).
  pose proof (place_unique _ _ _ _ _ _ _ _ _ _ _ _ _ _ _ Hz Hz' Hr Hr') as E. split; [done|]. rewrite <- E, Hq in Hq'. injection Hq' as E'.
  split; [done|]. rewrite <- E' in Hb'.
  pose proof (search_blk_at blk_size 0 (p_buf p) t _ K Hb HK ltac:(done) K (p_left p) (p_right p) eq_refl Hs) as E1.
  pose proof (search_blk_at blk_size 0 (p_buf p) t _ K Hb' HK ltac:(done) K (p_left p') (p_right p') eq_refl Hs') as E2.
  by apply (ok_fst _ _ K (eq_trans (eq_sym E1) E2)).
Qed.
End place.

(** The key in gv_altkey is the same when the places are. *)
Definition same_key (a b : gv_key) : Prop :=
  k_end a = k_end b /\ (k_end a <> 0 -> take (Z.to_nat (k_end a + 1)) (k_base a) = take (Z.to_nat (k_end b + 1)) (k_base b)).

Lemma alt_same a b L l l' pre pre' : alt_prev a l -> alt_prev b l' -> pos_last l = pos_last l' -> pre ++ l = L -> pre' ++ l' = L -> same_key a b.
Proof.
  unfold alt_prev. intros Ha Hb Hp El El'.
  assert (Hpos : forall (k : list grec) (x : grec), pos_last (k ++ [x]) <> 0).
  { intros k x. rewrite pos_last_snoc. pose proof (pos_after_ge k). unfold SIZEOF_blk_hdr in *. lia. }
  destruct l as [|x l _] using rev_ind; destruct l' as [|x' l' _] using rev_ind.
  - rewrite decide_True in Ha by done. rewrite decide_True in Hb by done. split; [congruence|]. intros. congruence.
  - symmetry in Hp. by apply Hpos in Hp.
  - by apply Hpos in Hp.
  - rewrite decide_False in Ha by (by destruct l). rewrite decide_False in Hb by (by destruct l'). rewrite last_key_snoc in Ha. rewrite last_key_snoc in Hb.
    rewrite <- El, !app_assoc in El'. apply app_inj_tail in El' as [_ ->]. destruct Ha as [Ha [s Eb]], Hb as [Hb [s' Eb']].
    split; [lia|]. intros _. rewrite Ha, Hb, Eb, Eb'. unfold zlen. by rewrite Nat2Z.id, !take_app_length.
Qed.

(** * The small global *)

Definition ex_gvt : gv_namehead := mk_gvt 2 (ex_key [0] 0) (ex_key [0] 0) (ex_key [0] 0) None [].

Lemma ex_range lo h k : bool_decide (gvlt lo k) = true -> match h with Some h => negb (bool_decide (gvlt h k)) | None => true end = true -> in_range lo h k.
Proof.
  intros H1 H2. split; [by apply bool_decide_eq_true in H1|]. destruct h as [h|]; [|done]. apply negb_true_iff in H2. by apply bool_decide_eq_false in H2.
Qed.

Lemma ex_tree : tree_at 4096 ex_qread 1 false 2 [] None (ex_recs1 ++ ex_recs2).
Proof.
  exists (encode_blk 1 ex_index ++ replicate 1023 0), ex_index. split; [done|]. split; [by apply ex_blk; by_compute|].
  split; [by_compute|]. exists 3. split; [done|]. split; [by apply ex_range; by_compute|].
  exists ex_recs1, ex_recs2. split; [done|]. split.
  - exists (encode_blk 0 ex_recs1), ex_recs1. split; [done|]. split; [rewrite <- (app_nil_r (encode_blk _ _)); by apply ex_blk; by_compute|].
    split; [done|]. split; [|done]. repeat constructor; try (by_compute); intros ?; by_compute.
  - exists 4. split; [done|]. exists (encode_blk 0 ex_recs2), ex_recs2. split; [done|].
    split; [rewrite <- (app_nil_r (encode_blk _ _)); by apply ex_blk; by_compute|]. split; [done|]. split; [|done].
    repeat constructor; by_compute.
Qed.

Lemma ex_ok : gvt_ok 4096 ex_qread (fun _ => true) 2 1 (ex_recs1 ++ ex_recs2) ex_gvt.
Proof.
  split; [done|]. split; [|].
  - pose proof (ex_room [0] 0). by repeat split.
  - done.
Qed.

(** * The properties of the component *)

Section props.
Context (blk_size : Z) (t_qread : Z -> option (list Z)) (clue_valid : list srch_blk_status -> bool) (base_diff : Z -> Z).
Context (rt : Z) (depth : nat) (whole : list grec).
(** A global whose tree has the records [whole]. *)
Hypothesis Htree : tree_at blk_size t_qread depth false rt [] None whole.
Hypothesis Hdepth : (0 < depth < 7)%nat.
Hypothesis Hbase : forall b, 1024 <= base_diff b.

Abbreviation ok := (gvt_ok blk_size t_qread clue_valid rt depth whole).
Abbreviation above := (above_index blk_size t_qread rt depth).

(** A key with its bytes, that does not start with those of the mark of
    gv_target->last_rec. *)
Definition key_of (K : gv_key) (t : list Z) : Prop := key_holds K t /\ forall x, t !! 0%nat = Some x -> x < 255.

(** C8: gvcst_search, from any state that searches leave behind, ends in the data
    block whose range has the key, at the first record that is not before the key:
    all records of the global up to that place are before the key, and no
    other; the previous key, when it is asked for, is in gv_altkey; and the state is
    again one from which this holds. *)
Theorem gvcst_search_finds e g K t alt :
  ok g -> key_of K t -> key_room alt 1024 -> (skips_index e = true -> above t whole) ->
  exists g' alt' b m l r, gvcst_search blk_size t_qread clue_valid base_diff e g K alt = Ok (g', alt') /\ ok g' /\
    head (hist g') = Some (mk_bh b m (status_at t l r)) /\ t_qread b = Some m /\ blk_ok blk_size 0 m (l ++ r) /\
    (exists pre post, whole = pre ++ (l ++ r) ++ post /\ split_at t (pre ++ l) (r ++ post)) /\
    if expands e then alt_prev alt' l else alt' = alt.
Proof.
  intros Hg [HK Hx] Ha Hab. destruct (gvcst_search_at blk_size t_qread clue_valid base_diff rt depth whole Htree Hdepth Hbase e g K t alt Hg HK Hx Ha Hab)
    as (g' & alt' & p & E & Hst & _ & _ & Hp). exists g', alt', (p_blk p), (p_buf p), (p_left p), (p_right p).
  split; [done|]. split; [by apply (state_ok _ _ _ _ _ _ g' t p)|]. destruct HK as (_ & _ & Ht & _).
  destruct Hst as (_ & _ & _ & Hpl & -> & _). destruct (place_split _ _ _ _ _ Htree t p Ht Hpl) as [_ Hs].
  pose proof Hpl as (_ & Hq & Hb & _ & _ & _ & _ & Hw). split; [done|]. split; [done|]. split; [done|]. split; [|done].
  by exists (p_pre p), (p_post p).
Qed.

(** C4: the clue changes where gvcst_search starts, not where it ends: a search
    with the clue of a former one ends at the same block, offset and lengths of shared
    prefixes as the search from the root. *)
Theorem gvcst_search_clue e g K t alt :
  ok g -> key_of K t -> key_room alt 1024 -> (skips_index e = true -> above t whole) ->
  exists g1 alt1 g2 alt2, gvcst_search blk_size t_qread clue_valid base_diff e g K alt = Ok (g1, alt1) /\
    search_root blk_size t_qread e g K alt = Ok (g2, alt2) /\ head (hist g1) = head (hist g2) /\
    if expands e then same_key alt1 alt2 else alt1 = alt2.
Proof.
  intros Hg [HK Hx] Ha Hab. destruct (gvcst_search_at blk_size t_qread clue_valid base_diff rt depth whole Htree Hdepth Hbase e g K t alt Hg HK Hx Ha Hab)
    as (g1 & alt1 & p1 & E1 & Hst1 & _ & _ & Hp1). destruct Hg as (Hrt & Hrooms & _).
  destruct (search_root_spec blk_size t_qread rt depth whole Htree Hdepth e g K t alt Hrt Hrooms HK Ha Hab) as (g2 & alt2 & p2 & E2 & Hst2 & _ & _ & Hp2).
  exists g1, alt1, g2, alt2. split; [done|]. split; [done|]. pose proof HK as (_ & _ & Ht & _).
  destruct Hst1 as (_ & _ & _ & Hpl1 & -> & _), Hst2 as (_ & _ & _ & Hpl2 & -> & _).
  destruct (place_same blk_size t_qread rt depth K t HK _ _ p1 p2 Hpl1 Hpl2) as (Eb & Em & Es). cbn [head]. split; [by rewrite Eb, Em, Es|].
  destruct (expands e); [|congruence].
  destruct (place_split _ _ _ _ _ Htree t p1 Ht Hpl1) as [Ew1 [Hs1 _]%split_from]. destruct (place_split _ _ _ _ _ Htree t p2 Ht Hpl2) as [Ew2 [Hs2 _]%split_from].
  rewrite <- Ew1 in Hs1. rewrite <- Ew2 in Hs2.
  apply (alt_same _ _ (upto_key t whole) _ _ (p_pre p1) (p_pre p2) Hp1 Hp2); [|done|done].
  exact (f_equal (fun st => sr_offset (prev_rec st)) Es).
Qed.
End props.

Lemma ex_depth : (0 < 1 < 7)%nat.
Proof. lia. Qed.

Lemma ex_base : forall b : Z, 1024 <= (fun _ : Z => 2000) b.
Proof. lia. Qed.

Lemma ex_key_of t prev : gkey_okb t = true -> (length t <=? 1023)%nat = true ->
  match t with x :: _ => x <? 255 | [] => true end = true -> key_of (ex_key t prev) t.
Proof. intros H1 H2 H3. split; [by apply ex_holds|by apply ex_first]. Qed.

Lemma gvcst_search_finds_witness :
  exists g' alt' b m l r, gvcst_search 4096 ex_qread (fun _ => true) (fun _ => 2000) EXPAND_PREV_KEY_TRUE ex_gvt (ex_key [97; 0; 191; 33; 0; 0] 2) (ex_key [0] 0) = Ok (g', alt') /\
    gvt_ok 4096 ex_qread (fun _ => true) 2 1 (ex_recs1 ++ ex_recs2) g' /\
    head (hist g') = Some (mk_bh b m (status_at [97; 0; 191; 33; 0; 0] l r)) /\ ex_qread b = Some m /\ blk_ok 4096 0 m (l ++ r) /\
    (exists pre post, ex_recs1 ++ ex_recs2 = pre ++ (l ++ r) ++ post /\ split_at [97; 0; 191; 33; 0; 0] (pre ++ l) (r ++ post)) /\ alt_prev alt' l.
Proof.
  exact (gvcst_search_finds 4096 ex_qread (fun _ => true) (fun _ => 2000) 2 1 _ ex_tree ex_depth ex_base EXPAND_PREV_KEY_TRUE ex_gvt
    (ex_key [97; 0; 191; 33; 0; 0] 2) [97; 0; 191; 33; 0; 0] (ex_key [0] 0) ex_ok (ex_key_of [97; 0; 191; 33; 0; 0] 2 eq_refl eq_refl eq_refl) (ex_room _ _) ltac:(done)).
Defined.

(** The state after a search for ^a(2), and its clue. *)
Definition ex_gvt1 : gv_namehead :=
  match gvcst_search 4096 ex_qread (fun _ => true) (fun _ => 2000) EXPAND_PREV_KEY_TRUE ex_gvt (ex_key [97; 0; 191; 33; 0; 0] 2) (ex_key [0] 0) with
  | Ok (g, _) => g
  | Err _ => ex_gvt
  end.

Lemma ex_ok1 : gvt_ok 4096 ex_qread (fun _ => true) 2 1 (ex_recs1 ++ ex_recs2) ex_gvt1.
Proof.
  destruct (gvcst_search_at 4096 ex_qread (fun _ => true) (fun _ => 2000) 2 1 (ex_recs1 ++ ex_recs2) ex_tree ex_depth ex_base EXPAND_PREV_KEY_TRUE ex_gvt
    (ex_key [97; 0; 191; 33; 0; 0] 2) [97; 0; 191; 33; 0; 0] (ex_key [0] 0) ex_ok (ex_holds [97; 0; 191; 33; 0; 0] 2 eq_refl eq_refl)
    ltac:(intros x [= <-]; lia) (ex_room [0] 0) ltac:(done)) as (g' & alt' & p & E & Hst & _).
  unfold ex_gvt1. rewrite E. by apply (state_ok _ _ _ _ _ _ g' [97; 0; 191; 33; 0; 0] p).
Qed.

(** The search for ^a(3) with that clue: it does not start from the root. *)
Lemma gvcst_search_clue_witness :
  (match search_clue 4096 (fun _ => true) (fun _ => 2000) EXPAND_PREV_KEY_TRUE ex_gvt1 (ex_key [97; 0; 191; 49; 0; 0] 2) (ex_key [0] 0) with
   | Ok (Some _) => true
   | _ => false
   end = true) /\
  exists g1 alt1 g2 alt2,
    gvcst_search 4096 ex_qread (fun _ => true) (fun _ => 2000) EXPAND_PREV_KEY_TRUE ex_gvt1 (ex_key [97; 0; 191; 49; 0; 0] 2) (ex_key [0] 0) = Ok (g1, alt1) /\
    search_root 4096 ex_qread EXPAND_PREV_KEY_TRUE ex_gvt1 (ex_key [97; 0; 191; 49; 0; 0] 2) (ex_key [0] 0) = Ok (g2, alt2) /\
    head (hist g1) = head (hist g2) /\ same_key alt1 alt2.
Proof.
  split; [by vm_compute|].
  exact (gvcst_search_clue 4096 ex_qread (fun _ => true) (fun _ => 2000) 2 1 _ ex_tree ex_depth ex_base EXPAND_PREV_KEY_TRUE ex_gvt1
    (ex_key [97; 0; 191; 49; 0; 0] 2) [97; 0; 191; 49; 0; 0] (ex_key [0] 0) ex_ok1 (ex_key_of [97; 0; 191; 49; 0; 0] 2 eq_refl eq_refl eq_refl) (ex_room _ _) ltac:(done)).
Defined.
