(* ===== verification/Gvspan.v ===== *)
(** The layer above one search (gvcst_get.c, gvcst_data.c, gvcst_order.c, gvcst_query.c,
    gvcst_zprevious.c): spanning nodes, whose value is in records with a
    hidden last subscript that the reads have to step over, and the macros of gdsfhead.h
    that change the key of a search and change it back.

    The transaction around the reads of a spanning node ([dollar_tlevel] tells whether there
    was one before) is not modelled: its searches are the ones of Gvread. *)

From stdpp Require Import base list numbers option tactics.
From Stdlib Require Import ZArith Lia.
From S2P Require Import Prelude Subscript Gvsub Gvkey Gdsblk Blkexpand Blksearch Blktail Gvtree Gvread.

Open Scope Z_scope.

Definition MAX_GVSUBSCRIPTS : nat := 31.

(** * Keys *)

(** [k->base[i] = l[0]; k->base[i + 1] = l[1]; ...] *)
Definition put (k : gv_key) (i : Z) (l : list Z) : res gv_key := b ← res_of (wr_list (k_base k) i l); Ok (with_base k b).

Definition set_end (k : gv_key) (end_ : Z) : gv_key := mk_gv_key (k_top k) end_ (k_prev k) (k_base k).

Definition GVKEY_INCREMENT_ORDER (k : gv_key) : res gv_key :=
  let end_ := k_end k in
  k ← put k (end_ - 1) [1];
  k ← put k (end_ + 1) [KEY_DELIMITER];
  Ok (set_end k (end_ + 1)).

Definition GVKEY_INCREMENT_QUERY (k : gv_key) : res gv_key :=
  let end_ := k_end k in
  k ← put k end_ [1; KEY_DELIMITER; KEY_DELIMITER];
  Ok (set_end k (end_ + 2)).

Definition RESTORE_CURRKEY (k : gv_key) (oldend : Z) : res gv_key := put (set_end k oldend) (oldend - 1) [0; 0].

Definition CHECK_HIDDEN_SUBSCRIPT (k : gv_key) : res bool :=
  if 5 <=? k_end k then
    x ← rd8 (k_base k) (k_end k - 5);
    if x =? 0 then y ← rd8 (k_base k) (k_end k - 4); Ok (y =? 2) else Ok false
  else Ok false.

Definition REPLACE_HIDDEN_SUB_TO_LOWEST (key1 key2 : gv_key) : res gv_key :=
  k ← put key2 (k_end key1 - 4) [2; 1; 1; 0; 0]; Ok (set_end k (k_end key1)).

Definition REPLACE_HIDDEN_SUB_TO_HIGHEST (key1 key2 : gv_key) : res gv_key :=
  k ← put key2 (k_end key1 - 4) [2; 255; 255; 1; 0; 0]; Ok (set_end k (k_end key1 + 1)).

Definition APPEND_HIDDEN_SUB (k : gv_key) : res gv_key :=
  let k := set_end k (k_end k + 4) in REPLACE_HIDDEN_SUB_TO_LOWEST k k.

Definition NEXT_HIDDEN_SUB (k : gv_key) (i : Z) : res gv_key :=
  put k (k_end k - 4) [2; u8 (1 + (i + 1) / 255); u8 (1 + (i + 1) mod 255); 0; 0].

(** The bytes of the last subscript, and the key with them again. *)
Definition SAVE_GV_CURRKEY_LAST_SUBSCRIPT (k : gv_key) : res (list Z) :=
  if k_prev k <=? k_end k then rd_list (k_base k) (k_prev k) (k_end k - k_prev k + 1) else Ok [].

Definition RESTORE_GV_CURRKEY_LAST_SUBSCRIPT (save : list Z) (prev oldend : Z) (k : gv_key) : res gv_key :=
  put (mk_gv_key (k_top k) oldend prev (k_base k)) prev save.

Definition SAVE_GV_CURRKEY (k : gv_key) : res (list Z) := rd_list (k_base k) 0 (k_end k + 1).

Definition RESTORE_GV_CURRKEY (save : list Z) (prev oldend : Z) (k : gv_key) : res gv_key :=
  put (mk_gv_key (k_top k) oldend prev (k_base k)) 0 save.

(** * The control record of a spanning node *)

Definition GET_NSBCTRL (m : list Z) : res (Z * Z) :=
  numsubs ← GET_USHORT m 0;
  gblsize ← rd32 m 2;
  Ok (numsubs, if gblsize <? 2147483648 then gblsize else gblsize - 4294967296).

(** The digits of an int, as sscanf reads them; the bytes after the value of the
    record are not known. *)
Fixpoint scan_digits (m : list Z) (n : Z) : res (Z * list Z) :=
  match m with
  | [] => Err UB
  | c :: m' => if (48 <=? c) && (c <=? 57) then v ← int4 (10 * n + (c - 48)); scan_digits m' v else Ok (n, m)
  end.

Definition scan_int (m : list Z) : res (Z * list Z) :=
  match m with
  | c :: _ => if (48 <=? c) && (c <=? 57) then scan_digits m 0 else Err UB
  | [] => Err UB
  end.

(** sscanf(m, "%d,%d") of a value that begins with a digit; other values leave
    the integers unset. *)
Definition scan_ctrl (m : list Z) : res (Z * Z) :=
  '(numsubs, m) ← scan_int m;
  match m with
  | 44 :: m => '(gblsize, _) ← scan_int m; Ok (numsubs mod 65536, gblsize)
  | _ => Err UB
  end.

Section span.
Context (blk_size : Z) (t_qread : Z -> option (list Z)) (clue_valid : list srch_blk_status -> bool) (base_diff : Z -> Z).
(** In a transaction; the server of another process, for which there are no
    spanning nodes; a database that has had none. *)
Context (dollar_tlevel span_nodes_disallowed span_node_absent : bool).

Abbreviation get2 := (gvcst_get2 blk_size t_qread clue_valid base_diff).
Abbreviation data2 := (gvcst_data2 blk_size t_qread clue_valid base_diff span_nodes_disallowed span_node_absent).
Abbreviation order2 := (gvcst_order2 blk_size t_qread clue_valid base_diff).
Abbreviation query2 := (gvcst_query2 blk_size t_qread clue_valid base_diff).
Abbreviation zprevious2 := (gvcst_zprevious2 blk_size t_qread clue_valid base_diff).

Definition gvcst_order (g : gv_namehead) (gv_currkey gv_altkey : gv_key) : res (gv_namehead * gv_key * gv_key * bool) :=
  '(g, alt, found) ← order2 g gv_currkey gv_altkey;
  if negb found then Ok (g, gv_currkey, alt, false)
  else
    is_hidden ← CHECK_HIDDEN_SUBSCRIPT alt;
    if negb is_hidden then Ok (g, gv_currkey, alt, true)
    else
      at_once ← IF_SN_DISALLOWED_AND_NO_SPAN_IN_DB span_nodes_disallowed span_node_absent;
      if at_once : bool then Ok (g, gv_currkey, alt, true)
      else
        save ← SAVE_GV_CURRKEY_LAST_SUBSCRIPT gv_currkey;
        '(g, alt, found) ← (if negb dollar_tlevel then order2 g gv_currkey alt else Ok (g, alt, true));
        '(g, k, alt, found) ← (if found : bool then
            is_hidden ← CHECK_HIDDEN_SUBSCRIPT alt;
            if is_hidden : bool then
              k ← REPLACE_HIDDEN_SUB_TO_HIGHEST alt gv_currkey;
              '(g, alt, found) ← order2 g k alt;
              Ok (g, k, alt, found)
            else Ok (g, gv_currkey, alt, true)
          else Ok (g, gv_currkey, alt, false));
        k ← RESTORE_GV_CURRKEY_LAST_SUBSCRIPT save (k_prev gv_currkey) (k_end gv_currkey) k;
        Ok (g, k, alt, found).

(** The loop over hidden subscripts: at most [n] of them. *)
Fixpoint skip_hidden (n : nat) (g : gv_namehead) (k alt : gv_key) (found : bool) : res (gv_namehead * gv_key * gv_key * bool) :=
  match n with
  | O => Ok (g, k, alt, found)
  | S n' =>
      '(g, alt, found) ← query2 g k alt;
      if negb found then Ok (g, k, alt, false)
      else
        is_hidden ← CHECK_HIDDEN_SUBSCRIPT alt;
        if negb is_hidden then Ok (g, k, alt, true)
        else k ← REPLACE_HIDDEN_SUB_TO_HIGHEST alt k; skip_hidden n' g k alt true
  end.

Definition gvcst_query (g : gv_namehead) (gv_currkey gv_altkey : gv_key) : res (gv_namehead * gv_key * gv_key * bool) :=
  '(g, alt, found) ← query2 g gv_currkey gv_altkey;
  if negb found then Ok (g, gv_currkey, alt, false)
  else
    is_hidden ← CHECK_HIDDEN_SUBSCRIPT alt;
    if negb is_hidden then Ok (g, gv_currkey, alt, true)
    else
      at_once ← IF_SN_DISALLOWED_AND_NO_SPAN_IN_DB span_nodes_disallowed span_node_absent;
      if at_once : bool then Ok (g, gv_currkey, alt, true)
      else
        save ← SAVE_GV_CURRKEY gv_currkey;
        '(g, k, alt, found) ← skip_hidden (MAX_GVSUBSCRIPTS + 1) g gv_currkey alt true;
        k ← RESTORE_GV_CURRKEY save (k_prev gv_currkey) (k_end gv_currkey) k;
        Ok (g, k, alt, found).

Definition gvcst_zprevious (name_len : Z) (gv_last_subsc_null : bool) (g : gv_namehead) (gv_currkey gv_altkey : gv_key) :
    res (gv_namehead * gv_key * bool) :=
  '(g, alt, found) ← zprevious2 name_len gv_last_subsc_null g gv_currkey gv_altkey;
  if found : bool then is_hidden ← CHECK_HIDDEN_SUBSCRIPT alt; Ok (g, alt, negb is_hidden) else Ok (g, alt, false).

Definition gvcst_data (g : gv_namehead) (gv_currkey gv_altkey : gv_key) : res (gv_namehead * gv_key * gv_key * Z) :=
  '(g, alt, val) ← data2 g gv_currkey gv_altkey;
  if negb (val =? -1) then Ok (g, gv_currkey, alt, val)
  else
    let oldend := k_end gv_currkey in
    '(g, alt, val) ← (if negb dollar_tlevel then data2 g gv_currkey alt else Ok (g, alt, -1));
    '(g, k, alt, val) ← (if val =? -1 then
        k ← GVKEY_INCREMENT_QUERY gv_currkey;
        '(g, k, alt, found) ← gvcst_query g k alt;
        c ← (if found : bool then memcmp_n (k_base k) (k_base alt) oldend else Ok Lt);
        Ok (g, k, alt, match c with Eq => 11 | _ => 1 end)
      else Ok (g, gv_currkey, alt, val));
    k ← RESTORE_CURRKEY k oldend;
    Ok (g, k, alt, val).

(** The values of the chunks [i], ..., [i + n - 1] of a spanning node, until one
    is missing or they are too long; how many there were, and their total
    length. *)
Fixpoint get_pieces (n : nat) (i gblsize total_len : Z) (g : gv_namehead) (k alt : gv_key) (v : list Z) :
    res (gv_namehead * gv_key * gv_key * list Z * Z * Z) :=
  match n with
  | O => Ok (g, k, alt, v, i, total_len)
  | S n' =>
      k ← NEXT_HIDDEN_SUB k i;
      '(g, alt, val_piece) ← get2 g k alt;
      match val_piece with
      | None => Ok (g, k, alt, v, i, total_len)
      | Some p =>
          let v := v ++ p in
          let total_len := total_len + zlen p in
          if gblsize <? total_len then Ok (g, k, alt, v, i, total_len)
          else get_pieces n' (i + 1) gblsize total_len g k alt v
      end
  end.

Definition is_dummy (v : list Z) : bool := (zlen v =? 1) && bool_decide (v !! 0%nat = Some 0).

Definition gvcst_get (g : gv_namehead) (gv_currkey gv_altkey : gv_key) : res (gv_namehead * gv_key * gv_key * option (list Z)) :=
  '(g, alt, v) ← get2 g gv_currkey gv_altkey;
  match v with
  | Some d =>
      if is_dummy d then
        at_once ← IF_SN_DISALLOWED_AND_NO_SPAN_IN_DB span_nodes_disallowed span_node_absent;
        if at_once : bool then Ok (g, gv_currkey, alt, v)
        else
          '(g, alt, gotdummy) ← (if negb dollar_tlevel then get2 g gv_currkey alt else Ok (g, alt, v));
          let oldend := k_end gv_currkey in
          k ← APPEND_HIDDEN_SUB gv_currkey;
          '(g, alt, val_ctrl) ← get2 g k alt;
          '(g, k, alt, r) ← (match val_ctrl with
            | Some ctrl =>
                '(numsubs, gblsize) ← (if zlen ctrl =? 6 then GET_NSBCTRL ctrl else scan_ctrl ctrl);
                '(g, k, alt, s, i, total_len) ← get_pieces (Z.to_nat numsubs) 0 gblsize 0 g k alt [];
                if negb (total_len =? gblsize) || negb (i =? numsubs) then Err (CDB_SC cdb_sc_spansize)
                else Ok (g, k, alt, Some s)
            | None => Ok (g, k, alt, gotdummy)
            end);
          k ← RESTORE_CURRKEY k oldend;
          Ok (g, k, alt, r)
      else Ok (g, gv_currkey, alt, v)
  | None => Ok (g, gv_currkey, alt, None)
  end.

End span.
