(* ===== verification/Gvop.v ===== *)
(** The operators on globals ($GET, $DATA, $ORDER, $ZPREVIOUS and $QUERY: op_gvget.c,
    op_gvdata.c, op_gvorder.c, op_zprevious.c, op_gvquery.c) for a node of a global in a
    local region that is not one of several regions of the global, and the text of a key
    (format_targ_key.c).

    $ORDER and $ZPREVIOUS of a name, which go through the regions of the global directory, and the
    form of $QUERY for the simple API are not modelled, nor are extended references. *)

From stdpp Require Import base list numbers option tactics.
From Stdlib Require Import ZArith Lia.
From S2P Require Import Prelude Zwr Subscript Gvsub Gvkey Gdsblk Blkexpand Blksearch Blktail Gvtree Gvread Gvspan.

Open Scope Z_scope.

Definition MAX_ZWR_KEY_SZ : Z := ZWR_EXP_RATIO MAX_KEY_SZ.
Definition STR_SUB_MAXVAL : Z := 255.

(** * format_targ_key *)

Section format.
Context (cl : collation) (isctl : Z -> bool).

(** The name: the text, and the place after its null byte. *)
Fixpoint format_name (fuel : nat) (base : list Z) (p end_ : Z) (out : list Z) : res (list Z * Z) :=
  match fuel with
  | O => Err OUT_OF_FUEL
  | S fuel' =>
      x ← rd8 base p;
      if negb (x =? 0) && (p + 1 <=? end_) then format_name fuel' base (p + 1) end_ (out ++ [x])
      else Ok (out, p + 1)
  end.

(** [s] after [out], each byte after a check of the room; with [quote] a double
    quote twice. *)
Fixpoint put_text (quote : bool) (out_top : Z) (s out : list Z) : option (list Z) :=
  match s with
  | [] => Some out
  | ch :: s' =>
      if out_top <=? zlen out then None
      else
        let out := out ++ [ch] in
        if quote && (ch =? 34) then if out_top <=? zlen out then None else put_text quote out_top s' (out ++ [ch])
        else put_text quote out_top s' out
  end.

(** [for ( ; *p++ && (p <= top); )]. *)
Fixpoint next_delim (fuel : nat) (base : list Z) (p end_ : Z) : res Z :=
  match fuel with
  | O => Err OUT_OF_FUEL
  | S fuel' => x ← rd8 base p; if negb (x =? 0) && (p + 1 <=? end_) then next_delim fuel' base (p + 1) end_ else Ok (p + 1)
  end.

(** The text of one subscript. *)
Definition format_sub (base : list Z) (p out_top : Z) (dollarc : bool) (out : list Z) : res (option (list Z)) :=
  x ← rd8 base p;
  if x =? 1 then Ok (Some (out ++ [34; 34]))
  else
    let is_string := (x =? STR_SUB_PREFIX) && negb dollarc in
    let out := if is_string then out ++ [34] else out in
    work ← gvsub2str cl isctl (drop (Z.to_nat p) base) MAX_ZWR_KEY_SZ dollarc;
    Ok (out ← put_text is_string out_top work out;
        if is_string then if out_top <=? zlen out then None else Some (out ++ [34]) else Some out).

Fixpoint format_subs (fuel : nat) (base : list Z) (p end_ out_top : Z) (dollarc : bool) (out : list Z) : res (option (list Z)) :=
  match fuel with
  | O => Err OUT_OF_FUEL
  | S fuel' =>
      if p <=? end_ then
        r ← format_sub base p out_top dollarc out;
        match r with
        | None => Ok None
        | Some out =>
            if out_top <=? zlen out then Ok None
            else
              p ← next_delim (length base) base p end_;
              if end_ <? p then Ok None
              else
                y ← rd8 base p;
                if negb (y =? 0) then format_subs fuel' base p end_ out_top dollarc (out ++ [44])
                else Ok (Some (out ++ [41]))
        end
      else Ok None
  end.

(** The text of a key; [None] when there is no room for it. *)
Definition format_targ_key (max_size : Z) (key : gv_key) (dollarc : bool) : res (option (list Z)) :=
  let out_top := max_size - 2 in
  '(out, p) ← format_name (length (k_base key)) (k_base key) 0 (k_end key) [94];
  x ← rd8 (k_base key) p;
  if x =? 0 then Ok (Some out)
  else format_subs (length (k_base key)) (k_base key) p (k_end key) out_top dollarc (out ++ [40]).
End format.

(** * The key for the last subscript *)

Definition gv_append_max_subs_key (gvkey : gv_key) (max_key_size : Z) : res gv_key :=
  let keysize := DBKEYSIZE max_key_size in
  let lastsubslen := keysize - k_prev gvkey - 2 in
  if (0 <? lastsubslen) && (keysize <=? k_top gvkey) && (k_prev gvkey <? k_end gvkey) then
    k ← put gvkey (k_prev gvkey) (replicate (Z.to_nat lastsubslen) STR_SUB_MAXVAL ++ [KEY_DELIMITER; KEY_DELIMITER]);
    Ok (set_end k (k_prev gvkey + lastsubslen + 1))
  else Err GTMASSERT.

Definition gv_undo_append_max_subs_key (gvkey : gv_key) (std_null_coll : bool) : res gv_key :=
  k ← (if std_null_coll then put gvkey (k_prev gvkey) [SUBSCRIPT_STDCOL_NULL] else Ok gvkey);
  put (set_end k (k_prev gvkey + 2)) (k_prev gvkey + 1) [KEY_DELIMITER; KEY_DELIMITER].

Section op.
Context (blk_size : Z) (t_qread : Z -> option (list Z)) (clue_valid : list srch_blk_status -> bool) (base_diff : Z -> Z).
Context (dollar_tlevel span_nodes_disallowed span_node_absent : bool).
(** The region: null subscripts are not allowed ([NEVER]), the form of a null
    subscript, and the size of keys; the collation of the global. *)
Context (null_never std_null_coll : bool) (max_key_size : Z) (cl : collation) (isctl : Z -> bool).
(** The last subscript is the null string. *)
Context (gv_last_subsc_null : bool).

Abbreviation get := (gvcst_get blk_size t_qread clue_valid base_diff dollar_tlevel span_nodes_disallowed span_node_absent).
Abbreviation data := (gvcst_data blk_size t_qread clue_valid base_diff dollar_tlevel span_nodes_disallowed span_node_absent).
Abbreviation order := (gvcst_order blk_size t_qread clue_valid base_diff dollar_tlevel span_nodes_disallowed span_node_absent).
Abbreviation query := (gvcst_query blk_size t_qread clue_valid base_diff span_nodes_disallowed span_node_absent).
Abbreviation zprevious := (gvcst_zprevious blk_size t_qread clue_valid base_diff).

(** [undef_inhibit]: VIEW "NOUNDEF". *)
Definition op_gvget (undef_inhibit : bool) (g : gv_namehead) (k alt : gv_key) : res (gv_namehead * gv_key * gv_key * list Z) :=
  if gv_last_subsc_null && null_never then Err ERR_NULSUBSC
  else
    '(g, k, alt, v) ← (if root g =? 0 then Ok (g, k, alt, None) else get g k alt);
    match v with
    | Some v => Ok (g, k, alt, v)
    | None => if undef_inhibit then Ok (g, k, alt, []) else Err ERR_GVUNDEF
    end.

Definition fndata_table : list (list Z) := [[0; 1]; [10; 11]].

Definition op_gvdata (g : gv_namehead) (k alt : gv_key) : res (gv_namehead * gv_key * gv_key * Z) :=
  if gv_last_subsc_null && null_never then Err ERR_NULSUBSC
  else
    '(g, k, alt, x) ← (if root g =? 0 then Ok (g, k, alt, 0) else data g k alt);
    row ← res_of (fndata_table !! Z.to_nat (x / 10));
    v ← res_of (row !! Z.to_nat (Z.land x 1));
    Ok (g, k, alt, v).

(** The subscript of gv_altkey at the level of the last one of gv_currkey. *)
Definition last_subscript_text (alt : gv_key) (cap : Z) : res (list Z) :=
  gvsub2str cl isctl (drop (Z.to_nat (k_prev alt)) (k_base alt)) cap false.

Definition set_prev (k : gv_key) (p : Z) : gv_key := mk_gv_key (k_top k) (k_end k) p (k_base k).

(** op_gvorder for a node with subscripts. *)
Definition op_gvorder (g : gv_namehead) (k alt : gv_key) : res (gv_namehead * gv_key * gv_key * list Z) :=
  let increment := negb gv_last_subsc_null || std_null_coll in
  k ← (if increment then GVKEY_INCREMENT_ORDER k else put k (k_prev k) [1]);
  '(g, k, alt, found) ← (if root g =? 0 then Ok (g, k, alt, false) else order g k alt);
  '(alt, v) ← (if found : bool then
      let alt := set_prev alt (k_prev k) in
      s ← last_subscript_text alt MAX_ZWR_KEY_SZ; Ok (alt, s)
    else Ok (alt, []));
  k ← (if increment then k ← put k (k_end k - 2) [KEY_DELIMITER]; Ok (set_end k (k_end k - 1))
       else put k (k_prev k) [STR_SUB_PREFIX]);
  Ok (g, k, alt, v).

(** op_zprevious for a node with subscripts. *)
Definition op_zprevious (name_len : Z) (g : gv_namehead) (k alt : gv_key) : res (gv_namehead * gv_key * gv_key * list Z) :=
  k ← (if gv_last_subsc_null then gv_append_max_subs_key k max_key_size else Ok k);
  '(g, alt, found) ← (if root g =? 0 then Ok (g, alt, false) else zprevious name_len gv_last_subsc_null g k alt);
  '(alt, v) ← (if found : bool then
      let alt := set_prev alt (k_prev k) in
      s ← last_subscript_text alt MAX_KEY_SZ; Ok (alt, s)
    else Ok (alt, []));
  k ← (if gv_last_subsc_null then gv_undo_append_max_subs_key k std_null_coll else Ok k);
  Ok (g, k, alt, v).

(** Whether the key ends in a null subscript. *)
Definition last_subsc_is_null (alt : gv_key) : res bool :=
  ch1 ← rd8 (k_base alt) (k_end alt - 2);
  if (ch1 =? STR_SUB_PREFIX) || (ch1 =? SUBSCRIPT_STDCOL_NULL) then
    ch2 ← rd8 (k_base alt) (k_end alt - 3); Ok (ch2 =? KEY_DELIMITER)
  else Ok false.

(** Two keys differ, as far as the first one goes. *)
Definition keys_differ (a b : gv_key) : res bool :=
  if negb (k_end a =? k_end b) then Ok true
  else c ← memcmp_n (k_base a) (k_base b) (k_end a); Ok (match c with Eq => false | _ => true end).

(** op_gvquery; [last] is TREF(last_gvquery_key). *)
Definition op_gvquery (last : gv_key) (g : gv_namehead) (k alt : gv_key) : res (gv_namehead * gv_key * gv_key * gv_key * list Z) :=
  special ← (if gv_last_subsc_null && negb std_null_coll then keys_differ last k else Ok false);
  k ← (if special : bool then put k (k_prev k) [1] else GVKEY_INCREMENT_QUERY k);
  '(g, k, alt, found) ← (if root g =? 0 then Ok (g, k, alt, false) else query g k alt);
  k ← (if special : bool then put k (k_prev k) [STR_SUB_PREFIX]
       else put (set_end k (k_end k - 2)) (k_end k - 2) [KEY_DELIMITER]);
  if found : bool then
    text ← format_targ_key cl isctl MAX_ZWR_KEY_SZ alt true;
    text ← (match text with Some t => Ok t | None => Err UB end);
    is_null ← last_subsc_is_null alt;
    last ← (if is_null : bool then COPY_KEY last alt else Ok last);
    Ok (g, k, alt, last, 94 :: drop 1 text)
  else Ok (g, k, alt, set_end last 0, []).

End op.
