(* ===== verification/Gvcode.v ===== *)
(** The keys of the nodes of a global: the name and the stored subscripts, each
    with a null byte after it, and one more null byte. How such keys share
    prefixes, and how they compare with the key that $ORDER searches for. *)

From stdpp Require Import base list numbers option tactics.
From Stdlib Require Import ZArith Lia.
From S2P Require Import Prelude Digits Mval Numstr Subscript Gvsub Gvkey.

Open Scope Z_scope.

(** * Stored subscripts *)

(** The bytes [l] are the subscript of an mval whose value is [w]. *)
Definition stored (cl : collation) (std : bool) (l : list Z) (w : mval) : Prop :=
  subsc_stored cl std w l /\ sub_ok w /\ zlen (mv_str w) <= MAX_KEY_SZ.

Definition nonnull (l : list Z) : Prop := Forall (fun b => 1 <= b < 256) l.

(** The key of the node with the subscripts [ls]. *)
Definition subs_bytes (ls : list (list Z)) : list Z := concat ((fun l => l ++ [0]) <$> ls).
Definition node_key (name : list Z) (ls : list (list Z)) : list Z := name ++ 0 :: subs_bytes ls ++ [0].

(** ** The bytes of a subscript *)

Lemma esc_nonnull s : bytes_ok s -> nonnull (esc s).
Proof.
  induction 1 as [|x s Hx Hs IH]; [constructor|]. cbn [esc]. unfold byte_ok in Hx. unfold STR_SUB_ESCAPE.
  destruct (Z.leb_spec x 1); repeat constructor; (lia || done).
Qed.

Lemma esc_one s s' : bytes_ok s -> bytes_ok s' -> esc s ++ [1] <> esc s'.
Proof.
  intros Hs. revert s'. induction Hs as [|x s Hx Hs IH]; intros s' Hs' E.
  - destruct s' as [|y s']; [done|]. pose proof (Forall_cons_1 _ _ _ Hs') as [Hy _]. cbn [esc app] in E.
    destruct (Z.leb_spec y 1); [done|]. injection E as <- _. lia.
  - destruct s' as [|y s']; [by apply app_eq_nil in E as [_ ?]|]. pose proof (Forall_cons_1 _ _ _ Hs') as [Hy Hs'']. cbn [esc app] in E. unfold STR_SUB_ESCAPE in E.
    unfold byte_ok in *. destruct (Z.leb_spec x 1), (Z.leb_spec y 1); cbn [app] in E; injection E; intros; try lia; by apply (IH s' Hs'').
Qed.

(** The shape of the code of a subscript that is not transformed. *)
Inductive shape (std : bool) : list Z -> Prop :=
| shape_null : shape std [if std : bool then 1 else 255]
| shape_str (x : Z) s : bytes_ok (x :: s) -> shape std (255 :: esc (x :: s))
| shape_zero : shape std [128]
| shape_num (neg : bool) h ds : (if neg then 18 <= h <= 107 else 148 <= h <= 237) -> Forall (fun d => 0 <= d < 100) ds ->
    (exists ds' d, ds = ds' ++ [d] /\ d <> 0) -> shape std (h :: map (pair_code neg) ds ++ (if neg then [255] else [])).

Lemma sdigs_last n m : 0 < m < 100 ^ Z.of_nat n -> exists ds d, sdigs 100 n m = ds ++ [d] /\ d <> 0.
Proof.
  revert m. induction n as [|n IH]; intros m Hm; [simpl in Hm; lia|]. cbn [sdigs]. assert ((m =? 0) = false) as -> by (apply Z.eqb_neq; lia).
  assert (0 < 100 ^ Z.of_nat n) by (apply Z.pow_pos_nonneg; lia). pose proof (Z.mod_pos_bound m (100 ^ Z.of_nat n)) as Hb.
  destruct (Z.eqb_spec (m mod 100 ^ Z.of_nat n) 0) as [E|E].
  - rewrite E, sdigs_0. exists [], (m / 100 ^ Z.of_nat n). split; [done|]. intros E'. pose proof (Z.div_mod m (100 ^ Z.of_nat n)). lia.
  - destruct (IH (m mod 100 ^ Z.of_nat n)) as (ds & d & -> & Hd); [lia|]. by exists (m / 100 ^ Z.of_nat n :: ds), d.
Qed.

Lemma sdigs_digits n m : 0 <= m < 100 ^ Z.of_nat n -> Forall (fun d => 0 <= d < 100) (sdigs 100 n m).
Proof.
  revert m. induction n as [|n IH]; intros m Hm; [constructor|]. cbn [sdigs]. destruct (Z.eqb_spec m 0); [constructor|].
  rewrite Nat2Z.inj_succ, Z.pow_succ_r in Hm by lia. assert (0 < 100 ^ Z.of_nat n) by (apply Z.pow_pos_nonneg; lia). constructor.
  - split; [apply Z.div_pos; lia|]. apply Z.div_lt_upper_bound; lia.
  - apply IH, Z.mod_pos_bound. lia.
Qed.

Lemma stored_shape cl std l w : no_collation cl -> stored cl std l w -> shape std l.
Proof.
  intros Ht (E & [Hb Hn] & _). destruct (subsc_stored_inv _ _ _ _ Ht E) as [[Ha ->]|[Ha Hs]].
  - unfold str_code. destruct (mv_str w) as [|x s]; [constructor|by constructor].
  - destruct Hn as [Hn|Hn]; [congruence|]. destruct (num_subsc_spec w Hn) as [[_ Hs']|(neg & E' & M & (HM & HE & _) & Hs')]; rewrite Hs in Hs'; injection Hs' as ->.
    + constructor.
    + unfold code. constructor.
      * unfold flip. unfold EXPLO, EXPHI, MV_XBIAS in HE. destruct neg; lia.
      * apply sdigs_digits. change (100 ^ Z.of_nat 9) with (10 ^ 18). lia.
      * apply sdigs_last. change (100 ^ Z.of_nat 9) with (10 ^ 18). lia.
Qed.

Lemma pair_code_range neg d : 0 <= d < 100 -> 1 <= pair_code neg d < 256.
Proof. intros Hd. pose proof (pcode_range d Hd). unfold pair_code, flip. destruct neg; lia. Qed.

Lemma shape_nonnull std l : shape std l -> nonnull l.
Proof.
  destruct 1 as [|x s Hs| |neg h ds Hh Hds _].
  - destruct std; repeat constructor; lia.
  - constructor; [lia|by apply esc_nonnull].
  - repeat constructor; lia.
  - constructor; [destruct neg; lia|]. apply Forall_app. split; [|destruct neg; repeat constructor; lia].
    clear -Hds. induction Hds as [|d ds Hd _ IH]; [constructor|]. constructor; [by apply pair_code_range|done].
Qed.

(** A subscript begins with a byte that is no mark of a hidden one. *)
Lemma shape_head std l : shape std l -> exists h l', l = h :: l' /\ h <> 2.
Proof. destruct 1 as [|x s Hs| |neg h ds Hh _ _]; do 2 eexists; (split; [done|]); [by destruct std|done|done|destruct neg; lia]. Qed.

(** No subscript goes on after another one with one byte 1. *)
Lemma shape_one std l l' : shape std l -> shape std l' -> l' <> l ++ [1].
Proof.
  intros H H' E. destruct H as [|x s Hs| |neg h ds Hh Hds Hl].
  - destruct H' as [|x s Hs| |neg h ds Hh _ _]; [by destruct std| |by destruct std|].
    + destruct std; [done|]. injection E as E. symmetry in E. by apply (esc_one [] (x :: s) (Forall_nil_2 _) Hs) in E.
    + injection E as -> _. destruct neg, std; lia.
  - destruct H' as [|x' s' Hs'| |neg h ds Hh _ _]; [| |done|].
    + destruct std; [done|]. injection E as E. symmetry in E. by apply app_eq_nil in E as [_ ?].
    + injection E as E. symmetry in E. by apply (esc_one (x :: s) (x' :: s') Hs Hs') in E.
    + injection E as -> _. destruct neg; lia.
  - destruct H' as [|x' s' Hs'| |neg h ds Hh _ _]; [by destruct std|done|done|]. injection E as -> _. destruct neg; lia.
  - destruct H' as [|x' s' Hs'| |neg' h' ds' Hh' Hds' (ds1 & d & -> & Hd)].
    + injection E as _ E. symmetry in E. by apply app_eq_nil in E as [_ ?].
    + injection E as <- _. destruct neg; lia.
    + injection E as <- _. destruct neg; lia.
    + injection E as -> E. assert (neg' = neg) as -> by (destruct neg, neg'; (done || lia)).
      destruct neg; [|rewrite !app_nil_r in E].
      * by apply app_inj_tail in E as [_ ?].
      * rewrite map_app in E. cbn [map] in E. apply app_inj_tail in E as [_ E].
        apply Forall_app in Hds' as [_ [Hdr _]%Forall_cons_1]. unfold pair_code, flip, pcode in E. cbv iota in E. pose proof (Z.div_mod d 10). pose proof (Z.mod_pos_bound d 10). lia.
Qed.

(** * Keys *)

Definition key_prefix (name : list Z) (ps : list (list Z)) : list Z := name ++ 0 :: subs_bytes ps.

Lemma node_key_sub name ps l rest : node_key name (ps ++ l :: rest) = key_prefix name ps ++ l ++ 0 :: subs_bytes rest ++ [0].
Proof. unfold node_key, key_prefix, subs_bytes. rewrite fmap_app, concat_app, fmap_cons. simpl. by rewrite <- !app_assoc. Qed.

Lemma node_key_one name ps l : node_key name (ps ++ [l]) = key_prefix name ps ++ l ++ [0; 0].
Proof. by rewrite node_key_sub. Qed.

Lemma node_key_nil name ps : node_key name ps = key_prefix name ps ++ [0].
Proof. unfold node_key, key_prefix. by rewrite <- app_assoc. Qed.

(** ** Segments between null bytes *)

Lemma seg_inj l l' X Y : nonnull l -> nonnull l' -> l ++ 0 :: X = l' ++ 0 :: Y -> l = l' /\ X = Y.
Proof.
  intros Hl. revert l'. induction Hl as [|x l Hx Hl IH]; intros l' Hl' E.
  - destruct Hl' as [|y l' Hy _]; [by injection E|]. cbn [app] in E. injection E as ? _. lia.
  - destruct Hl' as [|y l' Hy Hl']; cbn [app] in E; injection E as ->; [lia|]. destruct (IH l' Hl') as [-> ->]; done.
Qed.

Lemma seg_cmp l l' X Y : nonnull l -> nonnull l' ->
  lexcmp (l ++ 0 :: X) (l' ++ 0 :: Y) = match lexcmp l l' with Eq => lexcmp X Y | c => c end.
Proof.
  intros Hl. revert l'. induction Hl as [|x l Hx Hl IH]; intros l' Hl'.
  - destruct Hl' as [|y l' Hy _]; [done|]. cbn [app lexcmp]. by rewrite (proj2 (Z.compare_lt_iff _ _)) by lia.
  - destruct Hl' as [|y l' Hy Hl']; cbn [app lexcmp]; [by rewrite (proj2 (Z.compare_gt_iff _ _)) by lia|].
    destruct (x ?= y); [by apply IH|done|done].
Qed.

(** $ORDER searches for the subscript with a byte 1 after it: it is above the
    subscript and all that follows it, and below the next. *)
Lemma incr_cmp l l' r : nonnull l -> nonnull l' -> l' <> l ++ [1] ->
  lexcmp (l' ++ 0 :: r) (l ++ [1; 0; 0]) = match lexcmp l' l with Gt => Gt | _ => Lt end.
Proof.
  intros Hl. revert l'. induction Hl as [|x l Hx Hl IH]; intros l' Hl' Hn.
  - destruct Hl' as [|y l' Hy Hl']; [done|]. cbn [app lexcmp] in *. destruct (Z.compare_spec y 1) as [->|?|?]; [|lia|done].
    destruct Hl' as [|z l' Hz _]; [done|]. cbn [app lexcmp]. by rewrite (proj2 (Z.compare_gt_iff _ _)) by lia.
  - destruct Hl' as [|y l' Hy Hl']; cbn [app lexcmp]; [by rewrite (proj2 (Z.compare_lt_iff _ _)) by lia|].
    destruct (Z.compare_spec y x) as [->|?|?]; [|done|done]. apply IH; [done|]. intros ->. by apply Hn.
Qed.

Lemma lexcmp_app P a b : lexcmp (P ++ a) (P ++ b) = lexcmp a b.
Proof. induction P as [|x P IH]; [done|]. cbn [app]. by rewrite lexcmp_same. Qed.

(** Subscripts that the bytes of a key begin with. *)
Lemma subs_split ps ls z : Forall (fun l => l <> [] /\ nonnull l) ps -> Forall (fun l => l <> [] /\ nonnull l) ls ->
  subs_bytes ls ++ [0] = subs_bytes ps ++ z -> exists rest, ls = ps ++ rest /\ z = subs_bytes rest ++ [0].
Proof.
  intros Hp. revert ls. induction Hp as [|l ps [Hn Hl] Hp IH]; intros ls Hls E; [by exists ls|].
  unfold subs_bytes in *. rewrite fmap_cons in E. cbn [concat] in E. rewrite <- !app_assoc in E. cbn [app] in E.
  destruct Hls as [|l' ls [Hn' Hl'] Hls].
  - destruct l as [|b l]; [done|]. cbn in E. injection E as <- _. destruct (Forall_cons_1 _ _ _ Hl) as [Hb _]. lia.
  - rewrite fmap_cons in E. cbn [concat] in E. rewrite <- !app_assoc in E. cbn [app] in E.
    apply seg_inj in E as [-> E]; [|done|done]. destruct (IH ls Hls E) as (rest & -> & ->). by exists rest.
Qed.

Lemma key_split name ps ls z : Forall (fun l => l <> [] /\ nonnull l) ps -> Forall (fun l => l <> [] /\ nonnull l) ls ->
  node_key name ls = key_prefix name ps ++ z -> exists rest, ls = ps ++ rest /\ z = subs_bytes rest ++ [0].
Proof.
  intros Hp Hls E. unfold node_key, key_prefix in E. rewrite <- app_assoc in E. apply app_inv_head in E. cbn [app] in E. injection E as E.
  by apply subs_split.
Qed.

(** ** No key looks hidden *)

Definition visible (k : list Z) : Prop := forall i, k !! i = Some 0 -> k !! S i <> Some 2.

Lemma visible_cons_seg l B : nonnull l -> visible B -> B !! 0%nat <> Some 2 -> visible (l ++ 0 :: B).
Proof.
  intros Hl HB H0. induction Hl as [|x l Hx Hl IH]; intros [|i]; cbn [app lookup list_lookup]; intros E; try done.
  - by apply HB.
  - injection E as E. lia.
  - by apply IH.
Qed.

Definition sub_seg (l : list Z) : Prop := nonnull l /\ exists h l', l = h :: l' /\ h <> 2.

Lemma visible_subs ls : Forall sub_seg ls -> visible (subs_bytes ls ++ [0]) /\ (subs_bytes ls ++ [0]) !! 0%nat <> Some 2.
Proof.
  induction 1 as [|l ls [Hl (h & l' & -> & Hh)] Hls [IH1 IH2]]; [split; [|done]; intros [|i]; done|].
  unfold subs_bytes. rewrite fmap_cons. cbn [concat]. fold (subs_bytes ls). rewrite <- !app_assoc. cbn [app].
  split; [|intros [= ->]; done]. by apply (visible_cons_seg (h :: l')).
Qed.

Lemma node_visible name ls : nonnull name -> Forall sub_seg ls -> visible (node_key name ls).
Proof. intros Hn Hls. destruct (visible_subs ls Hls) as [H1 H2]. by apply visible_cons_seg. Qed.

Lemma shape_seg std l : shape std l -> sub_seg l.
Proof. intros H. split; [by eapply shape_nonnull|by eapply shape_head]. Qed.

Lemma seg_not_nil l : sub_seg l -> l <> [] /\ nonnull l.
Proof. by intros (Hl & h & l' & -> & _). Qed.

Lemma segs_not_nil ls : Forall sub_seg ls -> Forall (fun l => l <> [] /\ nonnull l) ls.
Proof. induction 1; constructor; [by apply seg_not_nil|done]. Qed.
