(* ===== verification/Gvnext.v ===== *)
(** The neighbours of a subscript: among the nodes of a global that have the
    same subscripts before it, the next and the previous one, as the first
    record after the key that $ORDER searches for and the last one before that
    of $ZPREVIOUS. *)

From stdpp Require Import base list numbers option tactics sorting.
From Stdlib Require Import ZArith Lia.
From S2P Require Import Prelude Subscript Gvsub Gvkey Gdsblk Blkexpand Blksearch Blktail Gvtree Gvread Gvspec Gvcode.

Open Scope Z_scope.

Section next.
Context (std : bool) (name : list Z) (whole : list grec).
Hypothesis Hname : nonnull name.
Hypothesis Hleaf : leaf_ok whole.

(** Every record is that of a node with subscripts. *)
Definition nodes_ok : Prop := Forall (fun x => exists ls, g_key x = node_key name ls /\ Forall (shape std) ls) whole.
Hypothesis Hnodes : nodes_ok.

Context (ps : list (list Z)) (l0 : list Z).
Hypothesis Hps : Forall (shape std) ps.
(** The subscript to start from, or the bytes that stand for one before or after
    all of them. *)
Hypothesis Hl0 : nonnull l0.
Hypothesis Hone : forall l, shape std l -> l <> l0 ++ [1].

Abbreviation P := (key_prefix name ps).

(** The node with the subscripts [ps], [l] has a value or descendants. *)
Definition sibling (l : list Z) : Prop := exists x rest, x ∈ whole /\ g_key x = node_key name (ps ++ l :: rest) /\ Forall (shape std) (l :: rest).

Definition is_next (l : list Z) : Prop :=
  sibling l /\ lexcmp l0 l = Lt /\ forall l', sibling l' -> lexcmp l0 l' = Lt -> lexcmp l l' <> Gt.
Definition is_prev (l : list Z) : Prop :=
  sibling l /\ lexcmp l l0 = Lt /\ forall l', sibling l' -> lexcmp l' l0 = Lt -> lexcmp l' l <> Gt.

Definition order_target : list Z := P ++ l0 ++ [1; 0; 0].
Definition node_target : list Z := P ++ l0 ++ [0; 0].

Lemma shapes_nonnull ls : Forall (shape std) ls -> Forall (fun l => l <> [] /\ nonnull l) ls.
Proof. induction 1; constructor; [by eapply seg_not_nil, shape_seg|done]. Qed.

(** ** A sibling and the targets *)

Lemma sib_order l r : shape std l -> lexcmp (P ++ l ++ 0 :: r) order_target = match lexcmp l l0 with Gt => Gt | _ => Lt end.
Proof.
  intros Hl. unfold order_target. rewrite lexcmp_app. apply incr_cmp; [done|by eapply shape_nonnull|by apply Hone].
Qed.

Lemma subs_above rest : Forall (shape std) rest -> lexcmp (subs_bytes rest ++ [0]) [0] <> Lt.
Proof.
  destruct 1 as [|l rest Hl _]; [done|]. destruct (shape_seg _ _ Hl) as [Hn (h & l' & -> & _)]. destruct (Forall_cons_1 _ _ _ Hn) as [Hh _].
  unfold subs_bytes. cbn. by rewrite (proj2 (Z.compare_gt_iff _ _)) by lia.
Qed.

Lemma sib_node l rest : Forall (shape std) (l :: rest) -> lexcmp (P ++ l ++ 0 :: subs_bytes rest ++ [0]) node_target = Lt <-> lexcmp l l0 = Lt.
Proof.
  intros Hl. pose proof (Forall_cons_1 _ _ _ Hl) as [H1 H2]. unfold node_target. rewrite lexcmp_app, seg_cmp; [|by eapply shape_nonnull|done].
  pose proof (subs_above rest H2). by destruct (lexcmp l l0).
Qed.

(** The key of a record that begins with [P]. *)
Lemma key_below x : x ∈ whole -> take (length P) (g_key x) = P ->
  g_key x = P ++ [0] \/ exists l rest, g_key x = P ++ l ++ 0 :: subs_bytes rest ++ [0] /\ g_key x = node_key name (ps ++ l :: rest) /\ Forall (shape std) (l :: rest).
Proof.
  intros Hx Hp. pose proof Hnodes as Hn. unfold nodes_ok in Hn. rewrite Forall_forall in Hn. destruct (Hn x Hx) as (ls & E & Hls).
  assert (Ex : node_key name ls = P ++ drop (length P) (g_key x)) by (rewrite <- E; rewrite <- Hp at 1; by rewrite take_drop).
  destruct (key_split name ps ls _ (shapes_nonnull ps Hps) (shapes_nonnull ls Hls) Ex) as (rest & -> & Ed).
  rewrite E. apply Forall_app in Hls as [_ Hr]. destruct rest as [|l rest]; [left; by rewrite app_nil_r, node_key_nil|right].
  exists l, rest. by rewrite node_key_sub.
Qed.

Lemma sib_same l rest l' rest' : Forall (shape std) (l :: rest) -> Forall (shape std) (l' :: rest') ->
  P ++ l ++ 0 :: subs_bytes rest ++ [0] = P ++ l' ++ 0 :: subs_bytes rest' ++ [0] -> l = l'.
Proof.
  intros [Hl _]%Forall_cons_1 [Hl' _]%Forall_cons_1 E%app_inv_head. apply seg_inj in E as [? _]; [done|by eapply shape_nonnull|by eapply shape_nonnull].
Qed.

Lemma sib_le l rest l' rest' : Forall (shape std) (l :: rest) -> Forall (shape std) (l' :: rest') ->
  gvlt (P ++ l ++ 0 :: subs_bytes rest ++ [0]) (P ++ l' ++ 0 :: subs_bytes rest' ++ [0]) -> lexcmp l l' <> Gt.
Proof.
  intros [Hl _]%Forall_cons_1 [Hl' _]%Forall_cons_1. unfold gvlt. rewrite lexcmp_app, seg_cmp by (by eapply shape_nonnull). by destruct (lexcmp l l').
Qed.

(** ** The records in order *)

Lemma from_split t : exists U, whole = U ++ from_key t whole /\ upto_key t whole = U /\ split_at t U (from_key t whole).
Proof.
  destruct (split_exists t whole) as (U & R & E & Hs). destruct (split_from t U R Hs) as [H1 H2]. rewrite <- E in H1, H2. exists U. by rewrite H1, H2.
Qed.

Lemma rec_key x : x ∈ whole -> gkey_ok (g_key x).
Proof. intros Hx. destruct Hleaf as [H _]. rewrite Forall_forall in H. by apply H. Qed.

Lemma not_in_upto t U R x : whole = U ++ R -> split_at t U R -> x ∈ whole -> ~ gvlt (g_key x) t -> x ∈ R.
Proof.
  intros E [HU _] Hx Hn. rewrite E in Hx. apply elem_of_app in Hx as [Hx|Hx]; [|done]. rewrite Forall_forall in HU. by destruct (HU x Hx).
Qed.

Lemma not_in_from t U R x : whole = U ++ R -> split_at t U R -> x ∈ whole -> gvlt (g_key x) t -> x ∈ U.
Proof.
  intros E [_ HR] Hx Hlt. pose proof Hx as Hx'. rewrite E in Hx. apply elem_of_app in Hx as [Hx|Hx]; [done|]. exfalso.
  destruct R as [|y R]; [by apply elem_of_nil in Hx|]. apply HR. assert (Hy : y ∈ whole) by (rewrite E; apply elem_of_app; right; by left).
  split; [by apply gkey_not_nil, rec_key|]. apply elem_of_cons in Hx as [->|Hx]; [done|]. transitivity (g_key x); [|done].
  destruct Hleaf as [_ Hs]. unfold keys_sorted in Hs. rewrite E, fmap_app in Hs. apply StronglySorted_app in Hs as (_ & _ & Hs).
  cbn in Hs. apply StronglySorted_inv in Hs as [_ Hs]. rewrite Forall_forall in Hs. apply Hs. by apply list_elem_of_fmap_2.
Qed.

Lemma head_least x R U y : whole = U ++ x :: R -> y ∈ x :: R -> y = x \/ gvlt (g_key x) (g_key y).
Proof.
  intros E Hy. apply elem_of_cons in Hy as [->|Hy]; [by left|right]. destruct Hleaf as [_ Hs]. unfold keys_sorted in Hs. rewrite E, fmap_app in Hs.
  apply StronglySorted_app in Hs as (_ & _ & Hs). cbn in Hs. apply StronglySorted_inv in Hs as [_ Hs]. rewrite Forall_forall in Hs. apply Hs. by apply list_elem_of_fmap_2.
Qed.

Lemma last_greatest x R U y : whole = (U ++ [x]) ++ R -> y ∈ U ++ [x] -> y = x \/ gvlt (g_key y) (g_key x).
Proof.
  intros E Hy. apply elem_of_app in Hy as [Hy|Hy%list_elem_of_singleton]; [right|by left]. destruct Hleaf as [_ Hs]. unfold keys_sorted in Hs.
  rewrite E, !fmap_app in Hs. apply StronglySorted_app in Hs as (_ & Hs & _). apply StronglySorted_app in Hs as (Hs & _ & _).
  apply Hs; [by apply list_elem_of_fmap_2|by left].
Qed.

Lemma target_prefix k z : (length P <= lcp k (P ++ z))%nat <-> take (length P) k = P.
Proof.
  split; intros H.
  - rewrite (lcp_take _ _ _ H). by rewrite take_app_length.
  - apply lcp_ge; [by rewrite take_app_length|rewrite <- H at 1; rewrite length_take; lia|rewrite length_app; lia].
Qed.

Lemma sib_prefix l rest : take (length P) (P ++ l ++ 0 :: subs_bytes rest ++ [0]) = P.
Proof. apply take_app_length. Qed.

Lemma next_found :
  match from_key order_target whole with
  | x :: _ =>
      if decide (length P <= lcp (g_key x) order_target)%nat then
        exists l rest, g_key x = P ++ l ++ 0 :: subs_bytes rest ++ [0] /\ Forall (shape std) (l :: rest) /\ is_next l
      else forall l, sibling l -> lexcmp l0 l <> Lt
  | [] => forall l, sibling l -> lexcmp l0 l <> Lt
  end.
Proof.
  destruct (from_split order_target) as (U & EU & _ & Hs). set (R := from_key order_target whole) in *.
  assert (Hsib : forall l, sibling l -> lexcmp l0 l = Lt -> exists y rest, y ∈ R /\ g_key y = P ++ l ++ 0 :: subs_bytes rest ++ [0] /\ Forall (shape std) (l :: rest)).
  { intros l (y & rest & Hy & Ey & Hl) Hlt. rewrite node_key_sub in Ey. exists y, rest. split; [|done].
    apply (not_in_upto order_target U R); [done|done|done|]. unfold gvlt. pose proof (Forall_cons_1 _ _ _ Hl) as [H1 _].
    rewrite Ey, (sib_order l _ H1), (lexcmp_antisym l0 l), Hlt. done. }
  destruct R as [|x R]; [intros l Hl Hlt; by destruct (Hsib l Hl Hlt) as (y & rest & Hy%elem_of_nil & _)|].
  assert (Hx : x ∈ whole) by (rewrite EU; apply elem_of_app; right; by left). pose proof (rec_key x Hx) as Hgx.
  assert (Hnx : ~ gvlt (g_key x) order_target) by (intros H; destruct Hs as [_ Hs]; apply Hs; split; [by apply gkey_not_nil|done]).
  case_decide as Hp.
  - unfold order_target in Hp. rewrite target_prefix in Hp. destruct (key_below x Hx Hp) as [Ex|(l & rest & Ex & Ex' & Hl)].
    + exfalso. apply Hnx. rewrite Ex. unfold gvlt, order_target. rewrite lexcmp_app. pose proof Hl0 as Hn0. destruct l0 as [|h l']; [done|].
      destruct (Forall_cons_1 _ _ _ Hn0) as [Hh _]. cbn [app lexcmp]. by rewrite (proj2 (Z.compare_lt_iff _ _)) by lia.
    + exists l, rest. split; [done|]. split; [done|]. split; [by exists x, rest|]. pose proof (Forall_cons_1 _ _ _ Hl) as [H1 _].
      unfold gvlt in Hnx. rewrite Ex, (sib_order l _ H1) in Hnx. split.
      { rewrite lexcmp_antisym. by destruct (lexcmp l l0). }
      intros l' Hl' Hlt. destruct (Hsib l' Hl' Hlt) as (y & rest' & Hy & Ey & Hr).
      destruct (head_least x R U y EU Hy) as [->|Hxy].
      * rewrite Ex in Ey. apply (sib_same l rest l' rest' Hl Hr) in Ey as ->. by rewrite lexcmp_refl.
      * rewrite Ex, Ey in Hxy. by apply (sib_le l rest l' rest').
  - intros l Hl Hlt. destruct (Hsib l Hl Hlt) as (y & rest & Hy & Ey & _). unfold order_target in Hp. rewrite target_prefix in Hp.
    pose proof (sib_prefix l rest) as Hpy. rewrite <- Ey in Hpy. destruct (head_least x R U y EU Hy) as [->|Hxy]; [done|].
    destruct (gvlt_cases order_target (g_key x)) as [Htx|[Etx|?]]; [|by apply Hp; rewrite <- Etx; apply take_app_length|done].
    apply Hp, (target_prefix (g_key x) (l0 ++ [1; 0; 0])). rewrite lcp_comm. fold order_target.
    pose proof (lcp_sorted order_target (g_key x) (g_key y) Htx Hxy) as El. apply (target_prefix (g_key y) (l0 ++ [1; 0; 0])) in Hpy.
    fold order_target in Hpy. rewrite lcp_comm in Hpy. lia.
Qed.

Lemma prev_found :
  match last (upto_key node_target whole) with
  | Some y =>
      if same_parent node_target (zlen P) (g_key y) then
        exists l rest, g_key y = P ++ l ++ 0 :: subs_bytes rest ++ [0] /\ Forall (shape std) (l :: rest) /\ is_prev l
      else forall l, sibling l -> lexcmp l l0 <> Lt
  | None => forall l, sibling l -> lexcmp l l0 <> Lt
  end.
Proof.
  destruct (from_split node_target) as (U & EU & -> & Hs). set (R := from_key node_target whole) in *.
  assert (Hsib : forall l, sibling l -> lexcmp l l0 = Lt -> exists y rest, y ∈ U /\ g_key y = P ++ l ++ 0 :: subs_bytes rest ++ [0] /\ Forall (shape std) (l :: rest)).
  { intros l (y & rest & Hy & Ey & Hl) Hlt. rewrite node_key_sub in Ey. exists y, rest. split; [|done].
    apply (not_in_from node_target U R); [done|done|done|]. unfold gvlt. rewrite Ey. by apply sib_node. }
  destruct U as [|y U _] using rev_ind; [intros l Hl Hlt; by destruct (Hsib l Hl Hlt) as (y & rest & Hy%elem_of_nil & _)|].
  rewrite last_snoc. assert (Hy : y ∈ whole) by (rewrite EU; apply elem_of_app; left; apply elem_of_app; right; by left). pose proof (rec_key y Hy) as Hgy.
  assert (Hyt : gvlt (g_key y) node_target) by (destruct Hs as [HU _]; apply Forall_app in HU as [_ [[_ ?] _]%Forall_cons]; done).
  destruct (same_parent node_target (zlen P) (g_key y)) eqn:Esp.
  - apply andb_prop in Esp as [H1 H2]. apply Z.leb_le in H1. apply Z.ltb_lt in H2.
    assert (Hp : take (length P) (g_key y) = P) by (apply (target_prefix _ (l0 ++ [0; 0])); unfold node_target, zlen in *; lia).
    destruct (key_below y Hy Hp) as [Ex|(l & rest & Ex & Ex' & Hl)]; [rewrite Ex, zlen_app in H2; unfold zlen in H2; simpl in H2; lia|].
    exists l, rest. split; [done|]. split; [done|]. split; [by exists y, rest|]. pose proof Hyt as Hlt. unfold gvlt in Hlt. rewrite Ex, sib_node in Hlt by done.
    split; [done|]. intros l' Hl' Hlt'. destruct (Hsib l' Hl' Hlt') as (z & rest' & Hz & Ez & Hr).
    destruct (last_greatest y R U z EU Hz) as [->|Hzy].
    + rewrite Ex in Ez. apply (sib_same l rest l' rest' Hl Hr) in Ez as ->. by rewrite lexcmp_refl.
    + rewrite Ex, Ez in Hzy. by apply (sib_le l' rest' l rest).
  - intros l Hl Hlt. destruct (Hsib l Hl Hlt) as (z & rest & Hz & Ez & Hr). pose proof (sib_prefix l rest) as Hpz. rewrite <- Ez in Hpz.
    assert (Hlz : (length P + 2 <= length (g_key z))%nat).
    { rewrite Ez, !length_app. cbn [length]. rewrite length_app. cbn [length]. lia. }
    apply (target_prefix _ (l0 ++ [0; 0])) in Hpz. fold node_target in Hpz. apply not_true_iff_false in Esp. apply Esp. clear Esp.
    unfold same_parent. apply andb_true_intro. rewrite Z.leb_le, Z.ltb_lt. unfold zlen.
    destruct (last_greatest y R U z EU Hz) as [->|Hzy]; [lia|]. pose proof (lcp_sorted _ _ _ Hzy Hyt) as El. split; [lia|].
    assert (Hp : take (length P) (g_key y) = P) by (apply (target_prefix _ (l0 ++ [0; 0])); fold node_target; lia).
    destruct (key_below y Hy Hp) as [Ey|(l' & rest' & Ey & _)]; [|rewrite Ey, !length_app; cbn [length]; rewrite length_app; cbn [length]; lia].
    exfalso. unfold gvlt in Hzy. rewrite Ez, Ey, lexcmp_app in Hzy. pose proof (Forall_cons_1 _ _ _ Hr) as [Hsl _].
    destruct (shape_seg _ _ Hsl) as [Hn0 (h & l' & -> & _)]. destruct (Forall_cons_1 _ _ _ Hn0) as [Hh _]. cbn [app lexcmp] in Hzy.
    rewrite (proj2 (Z.compare_gt_iff _ _)) in Hzy by lia. done.
Qed.
End next.
