(* ===== verification/Gvopspec.v ===== *)
(** $ORDER, $ZPREVIOUS and $QUERY of the nodes of a global: the operators with the
    searches, the tree and the text of subscripts together. *)

From stdpp Require Import base list numbers option tactics sorting.
From Stdlib Require Import ZArith Lia.
From S2P Require Import Prelude Zwr Mval Numstr Subscript Gvsub Gvkey Gdsblk Blkexpand Blksearch Blktail Blkprev Gvtree Gvread Gvspan Gvop Gvzip Gvdown Gvsib Gvclue Gvspec Gvcode Gvnext.

Open Scope Z_scope.

(** * Keys that are changed and changed back *)

Lemma put_at k w x y s i : k_base k = w ++ x ++ s -> i = zlen w -> length x = length y -> put k i y = Ok (with_base k (w ++ y ++ s)).
Proof.
  intros Eb -> El. unfold put. rewrite Eb, wr_list_spec; [|apply zlen_nonneg|rewrite !zlen_app; unfold zlen; lia].
  cbn [res_of mbind res_bind]. do 2 f_equal. unfold zlen. rewrite Nat2Z.id, take_app_length. do 2 f_equal.
  rewrite drop_app_ge by lia. replace (Z.to_nat (Z.of_nat (length w) + Z.of_nat (length y)) - length w)%nat with (length x) by lia. apply drop_app_length.
Qed.

Lemma gkey_grow w m n : gkey_ok (w ++ [0; 0]) -> nonnull n -> n <> [] -> m = n \/ m = 0 :: n -> gkey_ok (w ++ m ++ [0; 0]).
Proof.
  intros (Hb & n0 & Hn & Hn0 & H0 & _ & _ & Hi) Hnn Hne Hm. rewrite length_app in Hn. simpl in Hn. apply Forall_app in Hb as [Hb _].
  assert (Hbn : bytes_ok n) by (clear -Hnn; induction Hnn; constructor; [unfold byte_ok; lia|done]).
  rewrite lookup_app_l in H0 by lia. split.
  { apply Forall_app. split; [done|]. apply Forall_app. split; [|by repeat constructor]. destruct Hm as [->| ->]; [done|by constructor]. }
  exists (length w + length m)%nat. rewrite !length_app. cbn [length]. split; [lia|]. split; [lia|]. rewrite lookup_app_l by lia. split; [done|].
  assert (Hnz : forall j, n !! j <> Some 0).
  { intros j E. pose proof (Forall_lookup_1 _ _ _ _ Hnn E) as Hj. simpl in Hj. lia. }
  rewrite !lookup_app_r by lia. replace (length w + length m - length w - length m)%nat with 0%nat by lia.
  replace (S (length w + length m) - length w - length m)%nat with 1%nat by lia. split; [done|]. split; [done|].
  intros i Hlt [E1 E2]. destruct (decide (i < length w)%nat) as [Hc|Hc].
  - apply (Hi i); [lia|]. rewrite lookup_app_l in E1 by lia. rewrite lookup_app_l by lia. split; [done|].
    destruct (decide (S i < length w)%nat); [rewrite lookup_app_l in E2 by lia; by rewrite lookup_app_l by lia|].
    replace (S i) with (length w) by lia. by rewrite lookup_app_r, Nat.sub_diag by lia.
  - rewrite lookup_app_r in E1, E2 by lia. replace (S i - length w)%nat with (S (i - length w)) in E2 by lia.
    assert (Hj : (i - length w < length m)%nat) by lia. revert E1 E2 Hj. generalize (i - length w)%nat. intros j E1 E2 Hj. rewrite lookup_app_l in E1 by lia.
    destruct Hm as [->| ->]; [by apply Hnz in E1|]. destruct j as [|j]; [|by apply (Hnz j)]. destruct n as [|x n]; [done|]. injection E2 as ->. by apply (Hnz 0%nat).
Qed.

(** The last subscript does not matter to the form of a key. *)
Lemma DBKEYSIZE_above n : n < DBKEYSIZE n.
Proof.
  unfold DBKEYSIZE, MAX_GVKEY_PADDING_LEN, MAX_NUM_SUBSC_LEN. pose proof (Z.div_mod (n + (10 + 16) + 3) 4 ltac:(lia)).
  pose proof (Z.mod_pos_bound (n + (10 + 16) + 3) 4 ltac:(lia)). lia.
Qed.

Lemma one_nonnull : nonnull [1].
Proof. by repeat constructor. Qed.

Lemma prefix_not_nil name ps : key_prefix name ps <> [].
Proof. intros E. by apply app_eq_nil in E as []. Qed.

(** The last subscript does not matter to the form of a key. *)
Lemma gkey_swap P x y : gkey_ok (P ++ x ++ [0; 0]) -> nonnull y -> y <> [] -> P <> [] -> gkey_ok (P ++ y ++ [0; 0]).
Proof.
  intros (Hb & n & Hn & _ & H0 & _ & _ & Hi) Hy Hne HP. rewrite !length_app in Hn. simpl in Hn. apply Forall_app in Hb as [Hb _].
  assert (Hnz : forall j, y !! j <> Some 0) by (intros j E; pose proof (Forall_lookup_1 _ _ _ _ Hy E) as Hj; simpl in Hj; lia).
  assert (HlP : (0 < length P)%nat) by (by destruct P; [|simpl; lia]). assert (Hly : (0 < length y)%nat) by (by destruct y; [|simpl; lia]).
  split.
  { apply Forall_app. split; [done|]. apply Forall_app. split; [|by repeat constructor]. eapply Forall_impl; [exact Hy|]. intros b Hbb. simpl in Hbb. unfold byte_ok. lia. }
  exists (length P + length y)%nat. rewrite !length_app. cbn [length]. split; [lia|]. split; [lia|]. rewrite lookup_app_l in H0 by lia. rewrite lookup_app_l by lia. split; [done|].
  rewrite !lookup_app_r by lia. replace (length P + length y - length P - length y)%nat with 0%nat by lia. replace (S (length P + length y) - length P - length y)%nat with 1%nat by lia.
  split; [done|]. split; [done|]. intros i Hlt [E1 E2]. destruct (decide (S i < length P)%nat) as [Hc|Hc].
  - apply (Hi i); [lia|]. rewrite lookup_app_l in E1 by lia. rewrite lookup_app_l in E2 by lia. by rewrite !lookup_app_l by lia.
  - destruct (decide (S i = length P)) as [Hc'|Hc'].
    + rewrite Hc', lookup_app_r, Nat.sub_diag, lookup_app_l in E2 by lia. by apply Hnz in E2.
    + rewrite lookup_app_r, lookup_app_l in E1 by lia. by apply Hnz in E1.
Qed.

(** A key with [n] bytes of room after it. *)
Definition holds_room (k : gv_key) (t : list Z) (n : nat) : Prop :=
  k_end k + 1 = zlen t /\ (exists s, k_base k = t ++ s /\ (n <= length s)%nat) /\ gkey_ok t /\ (length t + n <= 1023)%nat.

Lemma holds_key k t n : holds_room k t n -> key_holds k t.
Proof. intros (H1 & (s & H2 & _) & H3 & H4). split; [done|]. split; [by exists s|]. split; [done|lia]. Qed.

(** The text and the offset of a change. *)
Ltac put_side :=
  cbn [k_base k_end with_base set_end]; first [eassumption | (rewrite ?zlen_app; unfold zlen in *; cbn [length]; lia) | by rewrite <- ?app_assoc].

Lemma increment_order k w : holds_room k (w ++ [0; 0]) 1 ->
  exists k', GVKEY_INCREMENT_ORDER k = Ok k' /\ key_holds k' (w ++ [1; 0; 0]) /\ k_prev k' = k_prev k /\
  exists k'', (k ← put k' (k_end k' - 2) [KEY_DELIMITER]; Ok (set_end k (k_end k - 1))) = Ok k'' /\ holds_room k'' (w ++ [0; 0]) 1 /\
    k_prev k'' = k_prev k /\ k_top k'' = k_top k.
Proof.
  intros (H1 & (s & Eb & Hs) & H3 & H4). rewrite zlen_app in H1. destruct s as [|x s]; [simpl in Hs; lia|]. unfold GVKEY_INCREMENT_ORDER.
  rewrite <- app_assoc in Eb. rewrite length_app in H4. change (zlen [0; 0]) with 2 in H1. cbn [length] in H4.
  rewrite (put_at k w [0] [1] (0 :: x :: s)); [|put_side|put_side|done]. cbn [mbind res_bind].
  rewrite (put_at (with_base k _) (w ++ [1; 0]) [x] [KEY_DELIMITER] s); [|put_side|put_side|done].
  cbn [mbind res_bind]. eexists. split; [done|]. cbn [set_end with_base k_end k_base k_prev k_top].
  split; [|split; [done|]].
  - split; [rewrite zlen_app; change (zlen [1; 0; 0]) with 3; cbn; lia|]. split; [exists s; cbn; by rewrite <- !app_assoc|].
    split; [|rewrite length_app; simpl; lia]. by apply (gkey_grow w [1] [1] H3 one_nonnull); [|left].
  - rewrite (put_at _ w [1] [KEY_DELIMITER] (0 :: KEY_DELIMITER :: s)); [|put_side|put_side|done].
    cbn [mbind res_bind]. eexists. split; [done|]. split; [|done]. unfold holds_room, set_end, with_base. cbn [k_end k_base]. rewrite zlen_app. change (zlen [0; 0]) with 2. split; [lia|]. split; [|split; [done|rewrite length_app; simpl; lia]].
    exists (KEY_DELIMITER :: s). split; [by rewrite <- app_assoc|simpl; lia].
Qed.

Lemma increment_query k w : holds_room k (w ++ [0; 0]) 2 ->
  exists k', GVKEY_INCREMENT_QUERY k = Ok k' /\ key_holds k' (w ++ [0; 1; 0; 0]) /\ k_prev k' = k_prev k /\
  exists k'', put (set_end k' (k_end k' - 2)) (k_end k' - 2) [KEY_DELIMITER] = Ok k'' /\ holds_room k'' (w ++ [0; 0]) 2 /\
    k_prev k'' = k_prev k /\ k_top k'' = k_top k /\ zlen (k_base k'') = zlen (k_base k).
Proof.
  intros (H1 & (s & Eb & Hs) & H3 & H4). rewrite zlen_app in H1. destruct s as [|x [|y s]]; [simpl in Hs; lia..|]. unfold GVKEY_INCREMENT_QUERY.
  rewrite <- app_assoc in Eb. rewrite length_app in H4. change (zlen [0; 0]) with 2 in H1. cbn [length] in H4.
  rewrite (put_at k (w ++ [0]) [0; x; y] [1; KEY_DELIMITER; KEY_DELIMITER] s); [|put_side|put_side|done].
  cbn [mbind res_bind]. eexists. split; [done|]. cbn [set_end with_base k_end k_base k_prev k_top].
  split; [|split; [done|]].
  - split; [rewrite zlen_app; change (zlen [0; 1; 0; 0]) with 4; cbn; lia|]. split; [exists s; cbn; by rewrite <- !app_assoc|].
    split; [|rewrite length_app; simpl; lia]. by apply (gkey_grow w [0; 1] [1] H3 one_nonnull); [|right].
  - rewrite (put_at _ (w ++ [0]) [1] [KEY_DELIMITER] (KEY_DELIMITER :: KEY_DELIMITER :: s)); [|put_side|put_side|done].
    cbn [mbind res_bind]. eexists. split; [done|].
    split; [|split; [done|split; [done|unfold set_end, with_base; cbn [k_base]; rewrite Eb, !zlen_app; unfold zlen; simpl; lia] ] ]. unfold holds_room, set_end, with_base. cbn [k_end k_base]. rewrite zlen_app. change (zlen [0; 0]) with 2. split; [lia|]. split; [|split; [done|rewrite length_app; simpl; lia]].
    exists (KEY_DELIMITER :: KEY_DELIMITER :: s). split; [by rewrite <- !app_assoc|simpl; lia].
Qed.

(** * The subscript in gv_altkey *)

Lemma to_null_seg l r : nonnull l -> to_null (l ++ 0 :: r) = l ++ [0; 0].
Proof. induction 1 as [|x l Hx Hl IH]; [done|]. cbn [app to_null]. assert ((x =? 0) = false) as -> by (apply Z.eqb_neq; lia). by rewrite IH. Qed.

Lemma subscript_key_at P l r c : nonnull l -> (length P <= c <= length P + length l)%nat ->
  subscript_key (P ++ l ++ 0 :: r) c = P ++ l ++ [0; 0].
Proof.
  intros Hl Hc. unfold subscript_key. rewrite take_app_ge, drop_app_ge by lia. set (n := (c - length P)%nat).
  rewrite take_app_le, drop_app_le by lia. rewrite to_null_seg by (by apply Forall_drop). by rewrite <- app_assoc, (app_assoc (take n l)), take_drop.
Qed.

Lemma incr_lcp l l' r : nonnull l -> nonnull l' -> l' <> l ++ [1] -> (lcp (l' ++ 0%Z :: r) (l ++ [1%Z; 0%Z; 0%Z]) <= length l')%nat.
Proof.
  intros Hl. revert l'. induction Hl as [|x l Hx Hl IH]; intros l' Hl' Hn.
  - destruct Hl' as [|y l' Hy Hl']; [done|]. cbn [app lcp length] in *. destruct (Z.eqb_spec y 1) as [->|]; [|lia].
    destruct Hl' as [|z l' Hz _]; [done|]. cbn [app lcp length]. assert ((z =? 0) = false) as -> by (apply Z.eqb_neq; lia). lia.
  - destruct Hl' as [|y l' Hy Hl']; cbn [app lcp length]; [assert ((0 =? x) = false) as -> by (apply Z.eqb_neq; lia); lia|].
    destruct (Z.eqb_spec y x) as [->|]; [|lia]. apply le_n_S, IH; [done|]. intros ->. by apply Hn.
Qed.

Lemma seg_lcp l l' X Y : nonnull l -> nonnull l' -> l' <> l -> (lcp (l' ++ 0%Z :: X) (l ++ 0%Z :: Y) <= length l')%nat.
Proof.
  intros Hl. revert l'. induction Hl as [|x l Hx Hl IH]; intros l' Hl' Hn.
  - destruct Hl' as [|y l' Hy Hl']; [done|]. cbn [app lcp length]. assert ((y =? 0) = false) as -> by (apply Z.eqb_neq; lia). lia.
  - destruct Hl' as [|y l' Hy Hl']; cbn [app lcp length]; [assert ((0 =? x) = false) as -> by (apply Z.eqb_neq; lia); lia|].
    destruct (Z.eqb_spec y x) as [->|]; [|lia]. apply le_n_S, IH; [done|]. by intros ->.
Qed.

Lemma rd8_base b s i x : b !! i = Some x -> rd8 (b ++ s) (Z.of_nat i) = Ok x.
Proof. intros E. unfold rd8. rewrite rd_nat, lookup_app_l by (by eapply lookup_lt_Some). by rewrite E. Qed.

Lemma check_visible k b : buffer_is k b -> visible b -> CHECK_HIDDEN_SUBSCRIPT k = Ok false.
Proof.
  intros [He [s Eb]] Hv. unfold CHECK_HIDDEN_SUBSCRIPT. unfold zlen in He. destruct (Z.leb_spec 5 (k_end k)); [|done].
  replace (k_end k - 5) with (Z.of_nat (length b - 6)) by lia. replace (k_end k - 4) with (Z.of_nat (S (length b - 6))) by lia.
  destruct (lookup_lt_is_Some_2 b (length b - 6)) as [x Ex]; [lia|]. destruct (lookup_lt_is_Some_2 b (S (length b - 6))) as [y Ey]; [lia|].
  rewrite Eb, (rd8_base b s _ x Ex). cbn [mbind res_bind]. destruct (Z.eqb_spec x 0) as [->|]; [|done].
  rewrite (rd8_base b s _ y Ey). cbn [mbind res_bind]. f_equal. apply Z.eqb_neq. intros ->. by apply (Hv _ Ex).
Qed.

Lemma ZWR_ge : MAX_KEY_SZ <= MAX_ZWR_KEY_SZ.
Proof. by vm_compute. Qed.

(** * The operators *)

Section ops.
Context (blk_size : Z) (t_qread : Z -> option (list Z)) (clue_valid : list srch_blk_status -> bool) (base_diff : Z -> Z).
Context (rt : Z) (depth : nat) (whole : list grec).
Hypothesis Htree : tree_at blk_size t_qread depth false rt [] None whole.
Hypothesis Hdepth : (0 < depth < 7)%nat.
Hypothesis Hbase : forall b, 1024 <= base_diff b.
Hypothesis Hrt : rt <> 0.

Context (dollar_tlevel span_nodes_disallowed span_node_absent std_null_coll : bool) (max_key_size : Z) (cl : collation) (isctl : Z -> bool).
Hypothesis Hcl : no_collation cl.

Abbreviation ok := (gvt_ok blk_size t_qread clue_valid rt depth whole).

Context (name : list Z).
Hypothesis Hname : nonnull name.

(** Every record is that of a node whose subscripts were stored by mval2subsc. *)
Definition is_stored (l : list Z) : Prop := exists w, stored cl std_null_coll l w.
Definition nodes_stored : Prop := Forall (fun x => exists ls, g_key x = node_key name ls /\ Forall is_stored ls) whole.
Hypothesis Hnodes : nodes_stored.

Lemma stored_shapes ls : Forall is_stored ls -> Forall (shape std_null_coll) ls.
Proof. induction 1 as [|l ls [w Hw]]; constructor; [by eapply stored_shape|done]. Qed.

Lemma nodes_shapes : nodes_ok std_null_coll name whole.
Proof.
  pose proof Hnodes as Hn. unfold nodes_stored, nodes_ok in *. rewrite Forall_forall in *. intros x Hx. destruct (Hn x Hx) as (ls & E & Hls). exists ls.
  split; [done|by apply stored_shapes].
Qed.

Lemma whole_ok : leaf_ok whole.
Proof. by eapply whole_leaf. Qed.

(** The subscripts of a record are stored ones. *)
Lemma sub_stored x ps l rest : x ∈ whole -> Forall is_stored ps -> g_key x = node_key name (ps ++ l :: rest) -> Forall (shape std_null_coll) (l :: rest) -> is_stored l.
Proof.
  intros Hx Hps E Hl. pose proof Hnodes as Hn. unfold nodes_stored in Hn. rewrite Forall_forall in Hn. destruct (Hn x Hx) as (ls & E' & Hls).
  rewrite E, node_key_sub in E'. symmetry in E'.
  destruct (key_split name ps ls _ (shapes_nonnull std_null_coll ps (stored_shapes ps Hps)) (shapes_nonnull std_null_coll ls (stored_shapes ls Hls)) E') as (rest' & -> & Er).
  apply Forall_app in Hls as [_ Hls]. pose proof (shapes_nonnull _ _ Hl) as Hn1. destruct (Forall_cons_1 _ _ _ Hn1) as [[Hl1 Hl2] _].
  destruct rest' as [|l' rest'].
  - destruct l as [|b l]; [done|]. injection Er as -> _. destruct (Forall_cons_1 _ _ _ Hl2) as [Hb _]. lia.
  - destruct (Forall_cons_1 _ _ _ Hls) as [Hsl _]. pose proof Hsl as [w Hw]. unfold subs_bytes in Er. rewrite fmap_cons in Er. cbn [concat] in Er.
    rewrite <- !app_assoc in Er. cbn [app] in Er. apply seg_inj in Er as [-> _]; [done|done|]. eapply shape_nonnull, stored_shape; [|exact Hw]. done.
Qed.

(** The text of a stored subscript. *)
Definition sub_text (w : mval) : res (list Z) := if has MV_NUM_APPROX w then Ok (mv_str w) else n2s_str w.

Lemma text_of alt P l w s cap : k_base alt = (P ++ l ++ [0; 0]) ++ s -> k_prev alt = zlen P -> stored cl std_null_coll l w -> MAX_KEY_SZ <= cap ->
  last_subscript_text cl isctl alt cap = sub_text w.
Proof.
  intros Eb Ep (E & Hw & Hlen) Hcap. unfold last_subscript_text. rewrite Ep, Eb. unfold zlen. rewrite Nat2Z.id, <- app_assoc, drop_app_length.
  rewrite <- app_assoc. cbn [app]. unfold MAX_KEY_SZ in *. apply (gvsub2str_stored cl isctl std_null_coll w l (0 :: s) cap Hcl E Hw); lia.
Qed.

Lemma text_ok w : sub_ok w -> exists v, sub_text w = Ok v.
Proof.
  intros [_ [Hw|Hw]]; unfold sub_text; [rewrite Hw; by eexists|]. destruct (has _ w); [by eexists|].
  destruct (n2s_canon w Hw) as [[_ ->]|(? & ? & ? & _ & ->)]; by eexists.
Qed.

(** ** Siblings in collating order *)

(** The bytes of a null subscript. *)
Definition null_code : list Z := str_code std_null_coll [].

Section sib.
Context (ps : list (list Z)).
Hypothesis Hps : Forall is_stored ps.

Abbreviation P := (key_prefix name ps).

(** The node with the subscripts [ps] and that of the value [w] has a value or
    descendants. *)
Definition child (w : mval) : Prop := exists x l rest, x ∈ whole /\ g_key x = node_key name (ps ++ l :: rest) /\ Forall (shape std_null_coll) (l :: rest) /\
  stored cl std_null_coll l w.

Lemma order_stored l l' w w' : stored cl std_null_coll l w -> stored cl std_null_coll l' w' -> lexcmp l l' = sub_cmp std_null_coll (meaning w) (meaning w').
Proof.
  intros Hl Hl'. pose proof (shape_nonnull _ _ (stored_shape _ _ _ _ Hcl Hl)) as Hn. pose proof (shape_nonnull _ _ (stored_shape _ _ _ _ Hcl Hl')) as Hn'.
  destruct Hl as (E & Hw & _), Hl' as (E' & Hw' & _).
  pose proof (seg_cmp l l' [] [] Hn Hn') as H1. pose proof (seg_cmp l l' [0] [] Hn Hn') as H2.
  pose proof (fun r1 r2 => subsc_order_at cl std_null_coll w w' l l' r1 r2 Hcl E E' Hw Hw') as H0. unfold KEY_DELIMITER in H0.
  rewrite H0 in H1, H2. cbn [lexcmp] in *.
  by destruct (lexcmp l l'), (sub_cmp _ _ _).
Qed.

Abbreviation cmp := (fun w w' => sub_cmp std_null_coll (meaning w) (meaning w')).

(** [w] comes after [from], before [to]; everything does when there is none. *)
Definition comes_after (from : option mval) (w : mval) : Prop := match from with Some w0 => cmp w0 w = Lt | None => True end.
Definition comes_before (to : option mval) (w : mval) : Prop := match to with Some w0 => cmp w w0 = Lt | None => True end.

(** [v] is the text of the least subscript after [from], or the empty string
    when there is none. *)
Definition next_text (from : option mval) (v : list Z) : Prop :=
  (v = [] /\ forall w, child w -> ~ comes_after from w) \/
  (exists w, child w /\ comes_after from w /\ sub_text w = Ok v /\ forall w', child w' -> comes_after from w' -> cmp w w' <> Gt).

(** [v] is the text of the greatest one before [to]. *)
Definition prev_text (to : option mval) (v : list Z) : Prop :=
  (v = [] /\ forall w, child w -> ~ comes_before to w) \/
  (exists w, child w /\ comes_before to w /\ sub_text w = Ok v /\ forall w', child w' -> comes_before to w' -> cmp w' w <> Gt).

Lemma child_sibling w : child w -> exists l, sibling std_null_coll name whole ps l /\ stored cl std_null_coll l w.
Proof. intros (x & l & rest & Hx & E & Hl & Hw). exists l. split; [by exists x, rest|done]. Qed.

Lemma sibling_child l : sibling std_null_coll name whole ps l -> exists w, child w /\ stored cl std_null_coll l w.
Proof.
  intros (x & rest & Hx & E & Hl). destruct (sub_stored x ps l rest Hx Hps E Hl) as [w Hw]. exists w. split; [by exists x, l, rest|done].
Qed.

(** A key in gv_altkey that ends after the subscript [l] is not hidden. *)
Lemma alt_visible alt l : buffer_is alt (P ++ l ++ [0; 0]) -> is_stored l -> CHECK_HIDDEN_SUBSCRIPT alt = Ok false.
Proof.
  intros Hb [w Hw]. rewrite <- node_key_one in Hb. apply (check_visible _ _ Hb). apply node_visible; [done|]. apply Forall_app. split.
  - pose proof (stored_shapes ps Hps) as Hs. clear -Hs. induction Hs; constructor; [by eapply shape_seg|done].
  - constructor; [|constructor]. by eapply shape_seg, stored_shape.
Qed.

Hypothesis Hfirst : forall x, name !! 0%nat = Some x -> x < 255.

Lemma first_byte r : gkey_ok (P ++ r) -> forall x, (P ++ r) !! 0%nat = Some x -> x < 255.
Proof.
  intros Hok x. unfold key_prefix. destruct name as [|b n]; [|intros [= <-]; by apply Hfirst]. intros [= <-]. lia.
Qed.

(** *** The next one *)

(** The bytes from which $ORDER goes on: those of the subscript, or none before
    all subscripts. *)
Definition start_bytes (b0 : list Z) (from : option mval) : Prop :=
  match from with Some w0 => stored cl std_null_coll b0 w0 | None => b0 = [] /\ std_null_coll = false end.

Section start.
Context (b0 : list Z) (from : option mval).
Hypothesis Hb0 : start_bytes b0 from.

Lemma start_nonnull : nonnull b0.
Proof. destruct from as [w0|]; [by eapply shape_nonnull, stored_shape|destruct Hb0 as [-> _]; constructor]. Qed.

Lemma start_one l : shape std_null_coll l -> l <> b0 ++ [1].
Proof.
  intros Hl. destruct from as [w0|].
  - apply (shape_one std_null_coll); [by eapply stored_shape|done].
  - destruct Hb0 as [-> E]. cbn [app]. destruct Hl as [|x s Hs| |neg h ds Hh _ _]; [by rewrite E|done|done|]. intros [= -> _]. destruct neg; lia.
Qed.

Lemma start_after l w : stored cl std_null_coll l w -> lexcmp b0 l = Lt <-> comes_after from w.
Proof.
  intros Hl. pose proof Hb0 as Hs. unfold start_bytes, comes_after in *. destruct from as [w0|].
  - by rewrite (order_stored b0 l w0 w Hs Hl).
  - destruct Hs as [-> _]. split; [done|]. intros _. destruct l; [|done]. apply stored_shape in Hl; [|done]. by apply shape_seg, seg_not_nil in Hl as [? _].
Qed.

Lemma next_child l w : is_next std_null_coll name whole ps b0 l -> stored cl std_null_coll l w ->
  child w /\ comes_after from w /\ forall w', child w' -> comes_after from w' -> cmp w w' <> Gt.
Proof.
  intros ((x & rest & Hx & E & Hl) & Hlt & Hmin) Hw. split; [by exists x, l, rest|]. split; [by apply (start_after l w)|].
  intros w' (l' & Hs & Hw')%child_sibling Hlt'. rewrite <- (order_stored l l' w w' Hw Hw'). apply Hmin; [done|]. by apply (start_after l' w').
Qed.

Lemma no_next : (forall l, sibling std_null_coll name whole ps l -> lexcmp b0 l <> Lt) -> forall w, child w -> ~ comes_after from w.
Proof. intros H w (l & Hs & Hw)%child_sibling. rewrite <- (start_after l w Hw). by apply H. Qed.

(** No record has the key that $ORDER searches for. *)
Lemma no_target : value_of (order_target name ps b0) whole = None.
Proof.
  assert (H : forall x, x ∈ whole -> g_key x <> order_target name ps b0).
  { intros x Hx E. destruct (key_below std_null_coll name whole nodes_shapes ps (stored_shapes ps Hps) x Hx) as [E'|(l & rest & E' & _ & Hl)].
    - rewrite E. apply take_app_length.
    - rewrite E in E'. unfold order_target in E'. apply app_inv_head in E'. apply (f_equal length) in E'. rewrite length_app in E'. simpl in E'. lia.
    - pose proof (sib_order std_null_coll name ps b0 start_nonnull start_one l (subs_bytes rest ++ [0]) (Forall_inv Hl)) as Hc.
      rewrite <- E', E, lexcmp_refl in Hc. by destruct (lexcmp l b0). }
  clear -H. induction whole as [|x rs IH]; [done|]. cbn [value_of]. rewrite decide_False by (apply H; by left). apply IH. intros y Hy. apply H. by right.
Qed.

Lemma order_found g alt k1 : ok g -> key_room alt 1024 -> key_holds k1 (order_target name ps b0) -> k_prev k1 = zlen P ->
  exists g' alt' found, gvcst_order blk_size t_qread clue_valid base_diff dollar_tlevel span_nodes_disallowed span_node_absent g k1 alt = Ok (g', k1, alt', found) /\
    ok g' /\ if found : bool then exists l w, is_next std_null_coll name whole ps b0 l /\ stored cl std_null_coll l w /\ buffer_is alt' (P ++ l ++ [0; 0])
    else forall w, child w -> ~ comes_after from w.
Proof.
  intros Hg Ha Hk Hp. pose proof Hk as (_ & _ & Hgk & _).
  destruct (order2_spec blk_size t_qread clue_valid base_diff rt depth whole Htree Hdepth Hbase k1 _ Hk (first_byte _ Hgk) g alt Hg Ha no_target) as (g' & alt' & E & Hok & Hb).
  unfold gvcst_order. rewrite E. cbn [mbind res_bind]. rewrite Hp in *.
  pose proof (next_found std_null_coll name whole whole_ok nodes_shapes ps b0 (stored_shapes ps Hps) start_nonnull start_one) as Hf.
  destruct (from_key (order_target name ps b0) whole) as [|x R]; cbn [negb].
  - exists g', alt', false. split; [done|]. split; [done|]. by apply no_next.
  - case_decide as Hc.
    + destruct Hf as (l & rest & Ex & Hl & Hn). assert ((zlen P <=? Z.of_nat (lcp (g_key x) (order_target name ps b0))) = true) as -> by (apply Z.leb_le; unfold zlen; lia).
      cbn [negb]. destruct (sibling_child l) as (w & _ & Hw); [by destruct Hn|]. pose proof (Forall_inv Hl) as Hsl.
      assert (Hsub : subscript_key (g_key x) (lcp (g_key x) (order_target name ps b0)) = P ++ l ++ [0; 0]).
      { rewrite Ex. apply subscript_key_at; [by eapply shape_nonnull|]. rewrite Ex in Hc. split; [done|]. unfold order_target. rewrite lcp_app.
        pose proof (incr_lcp b0 l (subs_bytes rest ++ [0]) start_nonnull (shape_nonnull _ _ Hsl) (start_one l Hsl)). lia. }
      rewrite Hsub in Hb. rewrite (alt_visible alt' l Hb) by (by exists w). cbn [mbind res_bind negb].
      exists g', alt', true. split; [done|]. split; [done|]. by exists l, w.
    + assert ((zlen P <=? Z.of_nat (lcp (g_key x) (order_target name ps b0))) = false) as -> by (apply Z.leb_gt; unfold zlen; lia).
      cbn [negb]. exists g', alt', false. split; [done|]. split; [done|]. by apply no_next.
Qed.
End start.

(** *** The previous one *)

(** The bytes up to which $ZPREVIOUS goes: those of the subscript, or ones above
    those of all subscripts. *)
Definition end_bytes (b0 : list Z) (to : option mval) : Prop :=
  match to with
  | Some w0 => stored cl std_null_coll b0 w0
  | None => nonnull b0 /\ forall l, sibling std_null_coll name whole ps l -> lexcmp l b0 = Lt
  end.

Section finish.
Context (b0 : list Z) (to : option mval).
Hypothesis Hb0 : end_bytes b0 to.

Lemma end_nonnull : nonnull b0.
Proof. destruct to as [w0|]; [by eapply shape_nonnull, stored_shape|by destruct Hb0]. Qed.

Lemma end_before l w : sibling std_null_coll name whole ps l -> stored cl std_null_coll l w -> lexcmp l b0 = Lt <-> comes_before to w.
Proof.
  intros Hs Hl. pose proof Hb0 as He. unfold end_bytes, comes_before in *. destruct to as [w0|].
  - by rewrite (order_stored l b0 w w0 Hl He).
  - destruct He as [_ He]. split; [done|]. intros _. by apply He.
Qed.

Lemma prev_child l w : is_prev std_null_coll name whole ps b0 l -> stored cl std_null_coll l w ->
  child w /\ comes_before to w /\ forall w', child w' -> comes_before to w' -> cmp w' w <> Gt.
Proof.
  intros (Hsl & Hlt & Hmax) Hw. pose proof Hsl as (x & rest & Hx & E & Hl). split; [by exists x, l, rest|]. split; [by apply (end_before l w)|].
  intros w' (l' & Hs & Hw')%child_sibling Hlt'. rewrite <- (order_stored l' l w' w Hw' Hw). apply Hmax; [done|]. by apply (end_before l' w').
Qed.

Lemma no_prev : (forall l, sibling std_null_coll name whole ps l -> lexcmp l b0 <> Lt) -> forall w, child w -> ~ comes_before to w.
Proof. intros H w (l & Hs & Hw)%child_sibling. rewrite <- (end_before l w Hs Hw). by apply H. Qed.

Lemma node_last : last_subscript (node_target name ps b0) (zlen P).
Proof.
  split; [apply zlen_nonneg|]. intros i E Hlt. unfold node_target in *. rewrite !length_app in Hlt. cbn [length] in Hlt. unfold zlen.
  destruct (decide (i < length P)%nat); [lia|]. exfalso. rewrite lookup_app_r, lookup_app_l in E by lia.
  pose proof (Forall_lookup_1 _ _ _ _ end_nonnull E) as Hb. simpl in Hb. lia.
Qed.

Lemma zprevious_found name_len last_null g K alt : ok g -> key_room alt 1024 -> key_holds K (node_target name ps b0) -> k_prev K = zlen P ->
  ((name_len + 1 =? zlen P) && last_null = true -> above_index blk_size t_qread rt depth (node_target name ps b0) whole) ->
  exists g' alt' found, gvcst_zprevious blk_size t_qread clue_valid base_diff name_len last_null g K alt = Ok (g', alt', found) /\
    ok g' /\ if found : bool then exists l w, is_prev std_null_coll name whole ps b0 l /\ stored cl std_null_coll l w /\ buffer_is alt' (P ++ l ++ [0; 0])
    else forall w, child w -> ~ comes_before to w.
Proof.
  intros Hg Ha Hk Hprev Hab. pose proof Hk as (_ & _ & Hgk & _).
  destruct (zprevious2_spec blk_size t_qread clue_valid base_diff rt depth whole Htree Hdepth Hbase K _ Hk (first_byte _ Hgk) name_len last_null g alt Hg Ha)
    as (g' & alt' & E & Hok & Hb); [rewrite Hprev; apply node_last|by rewrite Hprev|].
  unfold gvcst_zprevious. rewrite E. cbn [mbind res_bind]. rewrite Hprev in *.
  pose proof (prev_found std_null_coll name whole whole_ok nodes_shapes ps b0 (stored_shapes ps Hps) end_nonnull) as Hf.
  destruct (last (upto_key (node_target name ps b0) whole)) as [y|].
  - destruct (same_parent (node_target name ps b0) (zlen P) (g_key y)) eqn:Es.
    + destruct Hf as (l & rest & Ey & Hl & Hn). specialize (Hb eq_refl). destruct (sibling_child l) as (w & _ & Hw); [by destruct Hn|]. pose proof (Forall_inv Hl) as Hsl.
      assert (Hsub : subscript_key (g_key y) (lcp (g_key y) (node_target name ps b0)) = P ++ l ++ [0; 0]).
      { rewrite Ey. apply subscript_key_at; [by eapply shape_nonnull|]. unfold node_target. rewrite lcp_app. split; [lia|].
        assert (Hne : l <> b0) by (intros ->; destruct Hn as (_ & Hlt & _); by rewrite lexcmp_refl in Hlt).
        pose proof (seg_lcp b0 l (subs_bytes rest ++ [0]) [0] end_nonnull (shape_nonnull _ _ Hsl) Hne). lia. }
      rewrite Hsub in Hb. rewrite (alt_visible alt' l Hb) by (by exists w). cbn [mbind res_bind negb]. exists g', alt', true. split; [done|]. split; [done|]. by exists l, w.
    + exists g', alt', false. split; [done|]. split; [done|]. by apply no_prev.
  - exists g', alt', false. split; [done|]. split; [done|]. by apply no_prev.
Qed.
End finish.

(** *** Above all subscripts *)

Lemma below_max l n : nonnull l -> (length l < n)%nat -> lexcmp l (replicate n 255) = Lt.
Proof.
  intros Hl. revert n. induction Hl as [|x l Hx Hl IH]; intros [|n] Hn; try (simpl in Hn; lia); [done|]. cbn [replicate lexcmp].
  destruct (Z.compare_spec x 255); [apply IH; simpl in Hn; lia|done|lia].
Qed.

Lemma replicate_nonnull n : nonnull (replicate n 255).
Proof. apply Forall_replicate. lia. Qed.

Lemma sibling_length x l rest : g_key x = node_key name (ps ++ l :: rest) -> zlen P + zlen l + 2 <= zlen (g_key x).
Proof. intros ->. rewrite node_key_sub, !zlen_app, zlen_cons, zlen_app. pose proof (zlen_nonneg (subs_bytes rest)). change (zlen [0]) with 1. lia. Qed.

Lemma below_all n : (forall x, x ∈ whole -> zlen (g_key x) <= zlen P + Z.of_nat n + 1) -> zlen name + 1 = zlen P ->
  Forall (fun y => gvlt (g_key y) (P ++ replicate n 255 ++ [0; 0])) whole.
Proof.
  intros Hx Hp. assert (ps = []) as Eps.
  { destruct ps as [|p q] eqn:E; [done|exfalso]. unfold key_prefix, subs_bytes in Hp. rewrite fmap_cons in Hp. cbn [concat] in Hp. unfold zlen in Hp.
    rewrite length_app in Hp. cbn [length] in Hp. rewrite !length_app in Hp. simpl in Hp. lia. }
  pose proof Hnodes as Hn. unfold nodes_stored in Hn. rewrite Forall_forall in Hn |- *. intros x Hxw. destruct (Hn x Hxw) as (ls & E & Hls). specialize (Hx x Hxw).
  rewrite E. destruct ls as [|l rest].
  - unfold key_prefix, gvlt, node_key. rewrite Eps. unfold subs_bytes. cbn [fmap list_fmap concat app]. rewrite <- app_assoc. cbn [app]. rewrite lexcmp_app, lexcmp_cons, Z.compare_refl.
    destruct n as [|n]; [|done]. done.
  - pose proof (sibling_length x l rest) as Hsl. rewrite Eps in Hsl. specialize (Hsl E). rewrite <- (app_nil_l (l :: rest)), <- Eps, node_key_sub.
    unfold gvlt. rewrite lexcmp_app. apply Forall_inv in Hls as [w Hw]. pose proof (shape_nonnull _ _ (stored_shape _ _ _ _ Hcl Hw)) as Hnn.
    rewrite (seg_cmp l (replicate n 255)) by (done || apply replicate_nonnull).
    rewrite below_max; [done|done|]. rewrite Eps in Hx. unfold zlen in *. lia.
Qed.

(** *** The operators *)

Section call.
Context (l0 : list Z) (w0 : mval) (gv_last_subsc_null : bool).
Hypothesis Hl0 : stored cl std_null_coll l0 w0.
Hypothesis Hnull : gv_last_subsc_null = true -> l0 = null_code.
Context (g : gv_namehead) (K alt : gv_key).
Hypothesis Hg : ok g.
Hypothesis HK : holds_room K (P ++ l0 ++ [0; 0]) 1.
Hypothesis Hprev : k_prev K = zlen P.
Hypothesis Ha : key_room alt 1024.

Lemma l0_shape : shape std_null_coll l0.
Proof. by eapply stored_shape. Qed.

(** Where the search starts: at the subscript, but before all subscripts from a
    null one. *)
Definition order_from : option mval := if gv_last_subsc_null && negb std_null_coll then None else Some w0.

(** gv_currkey during the search, and after it. *)
Lemma order_keys : exists b0 k1, start_bytes b0 order_from /\
  (if negb gv_last_subsc_null || std_null_coll then GVKEY_INCREMENT_ORDER K else put K (k_prev K) [1]) = Ok k1 /\
  key_holds k1 (order_target name ps b0) /\ k_prev k1 = zlen P /\
  exists k2, (if negb gv_last_subsc_null || std_null_coll then k ← put k1 (k_end k1 - 2) [KEY_DELIMITER]; Ok (set_end k (k_end k - 1))
              else put k1 (k_prev k1) [STR_SUB_PREFIX]) = Ok k2 /\ holds_room k2 (P ++ l0 ++ [0; 0]) 1 /\ k_prev k2 = zlen P.
Proof.
  unfold order_from. destruct (gv_last_subsc_null && negb std_null_coll) eqn:En.
  - apply andb_prop in En as [En Es%negb_true_iff]. rewrite En, Es in *. cbn [negb orb]. specialize (Hnull eq_refl).
    assert (E0 : l0 = [255]) by (rewrite Hnull; unfold null_code; by rewrite Es). rewrite E0 in *. pose proof HK as (He & (s & Eb & Hs) & Hgk & Hlen).
    exists [], (with_base K (P ++ [1; 0; 0] ++ s)). split; [by split|]. rewrite Hprev.
    rewrite (put_at K P [255] [1] (0 :: 0 :: s)); [|by rewrite Eb, <- app_assoc|done|done]. split; [done|]. cbn [with_base k_prev k_end k_base].
    split; [|split; [done|]].
    + unfold order_target. cbn [app]. split; [cbn [k_end with_base]; rewrite He, !zlen_app; done|]. split; [exists s; cbn [k_base with_base]; by rewrite <- app_assoc|].
      split; [|rewrite length_app in *; cbn [length app] in *; lia]. exact (gkey_swap P [255] [1] Hgk one_nonnull ltac:(done) (prefix_not_nil name ps)).
    + rewrite Hprev, (put_at (with_base K _) P [1] [STR_SUB_PREFIX] (0 :: 0 :: s)); [|done|done|done]. eexists. split; [done|]. split; [|done].
      split; [done|]. split; [exists s; cbn [with_base k_base]; by rewrite <- app_assoc|done].
  - assert (negb gv_last_subsc_null || std_null_coll = true) as -> by (by destruct gv_last_subsc_null, std_null_coll). pose proof HK as HK1. rewrite app_assoc in HK1.
    destruct (increment_order K (P ++ l0) HK1) as (k1 & -> & Hk1 & Hp1 & k2 & Ek2 & Hk2 & Hp2 & _). rewrite <- app_assoc in Hk1, Hk2. rewrite Hprev in Hp1, Hp2.
    exists l0, k1. split; [done|]. split; [done|]. split; [done|]. split; [done|]. by exists k2.
Qed.

Lemma op_gvorder_spec :
  exists g' K' alt' v, op_gvorder blk_size t_qread clue_valid base_diff dollar_tlevel span_nodes_disallowed span_node_absent std_null_coll cl isctl
      gv_last_subsc_null g K alt = Ok (g', K', alt', v) /\ ok g' /\ holds_room K' (P ++ l0 ++ [0; 0]) 1 /\ k_prev K' = zlen P /\ next_text order_from v.
Proof.
  destruct order_keys as (b0 & k1 & Hb0 & Ek1 & Hk1 & Hp1 & k2 & Ek2 & Hk2 & Hp2). unfold op_gvorder. cbv zeta. rewrite Ek1. cbn [mbind res_bind].
  pose proof Hg as (Hr & _). rewrite Hr, (proj2 (Z.eqb_neq rt 0) Hrt).
  destruct (order_found b0 order_from Hb0 g alt k1 Hg Ha Hk1 Hp1) as (g' & alt' & found & -> & Hok & Hf). cbn [mbind res_bind].
  destruct found.
  - destruct Hf as (l & w & Hn & Hw & [He [s Eb]]). destruct (next_child b0 order_from Hb0 l w Hn Hw) as (Hc & Hlt & Hmin).
    pose proof Hw as (_ & Hsub & _). destruct (text_ok w Hsub) as [v Ev].
    rewrite (text_of _ P l w s) by (done || by apply ZWR_ge). rewrite Ev. cbn [mbind res_bind]. rewrite Ek2. cbn [mbind res_bind].
    eexists g', k2, _, v. split; [done|]. split; [done|]. split; [done|]. split; [done|]. right. by exists w.
  - cbn [mbind res_bind]. rewrite Ek2. cbn [mbind res_bind]. eexists g', k2, _, []. split; [done|]. split; [done|]. split; [done|]. split; [done|]. by left.
Qed.

(** The key of $ZPREVIOUS: that of the subscript, or one above all keys that a
    database with these key sizes can have. *)
Definition zprevious_to : option mval := if gv_last_subsc_null then None else Some w0.
Hypothesis Hsize : gv_last_subsc_null = true -> DBKEYSIZE max_key_size <= 1023 /\ DBKEYSIZE max_key_size <= k_top K <= zlen (k_base K) /\
  k_end K < max_key_size /\ Forall (fun x => zlen (g_key x) <= max_key_size) whole.

Lemma zprevious_keys : exists b0 k1, end_bytes b0 zprevious_to /\
  (if gv_last_subsc_null then gv_append_max_subs_key K max_key_size else Ok K) = Ok k1 /\ key_holds k1 (node_target name ps b0) /\ k_prev k1 = zlen P /\
  (gv_last_subsc_null = true -> zlen name + 1 = zlen P -> above_index blk_size t_qread rt depth (node_target name ps b0) whole) /\
  exists k2, (if gv_last_subsc_null then gv_undo_append_max_subs_key k1 std_null_coll else Ok k1) = Ok k2 /\ key_holds k2 (P ++ l0 ++ [0; 0]) /\
    k_prev k2 = zlen P /\ (gv_last_subsc_null = false -> k2 = K).
Proof.
  unfold zprevious_to. destruct gv_last_subsc_null.
  - destruct (Hsize eq_refl) as (H1 & [H2 H3] & Hek & Hlen). specialize (Hnull eq_refl). pose proof HK as (He & (s & Eb & Hs) & Hgk & Hk3).
    assert (exists c, l0 = [c] /\ c = if std_null_coll then SUBSCRIPT_STDCOL_NULL else STR_SUB_PREFIX) as (c & E0 & Ec) by (eexists; split; [exact Hnull|done]).
    rewrite E0 in *. rewrite !zlen_app in He. change (zlen [c]) with 1 in He. change (zlen [0; 0]) with 2 in He.
    set (ks := DBKEYSIZE max_key_size) in *. set (n := Z.to_nat (ks - zlen P - 2)). assert (Hks : max_key_size < ks) by apply DBKEYSIZE_above.
    pose proof (zlen_nonneg P) as HP0. assert (HP : length P = Z.to_nat (zlen P)) by (unfold zlen; lia).
    assert (Hin : Forall (fun x => zlen (g_key x) <= max_key_size) whole) by done. rewrite Forall_forall in Hin.
    assert (Hend : end_bytes (replicate n 255) None).
    { split; [apply replicate_nonnull|]. intros l (x & rest & Hx & Ex & Hl). pose proof (Forall_inv Hl) as Hsh. apply below_max; [by eapply shape_nonnull|].
      pose proof (sibling_length x l rest Ex). specialize (Hin x Hx). unfold n, zlen in *. lia. }
    assert (Hn : Z.of_nat n = ks - zlen P - 2 /\ (0 < n)%nat) by (unfold n; lia). destruct Hn as [Hn Hn0].
    rewrite <- app_assoc in Eb. set (x := take (n + 2) ([c] ++ [0; 0] ++ s)). set (s' := drop (n + 2) ([c] ++ [0; 0] ++ s)).
    assert (Ebx : k_base K = P ++ x ++ s') by (unfold x, s'; rewrite take_drop, Eb; by rewrite <- app_assoc).
    assert (Hx : length x = (n + 2)%nat). { unfold x. rewrite length_take. rewrite Eb in H3. rewrite zlen_app in H3. unfold zlen in *. rewrite length_app in *. cbn [length app] in *. lia. }
    set (k1 := set_end (with_base K (P ++ (replicate n 255 ++ [0; 0]) ++ s')) (zlen P + Z.of_nat n + 1)).
    assert (Hlast : node_target name ps (replicate n 255) = P ++ replicate n 255 ++ [0; 0]) by done.
    exists (replicate n 255), k1. split; [done|]. split; [|split; [|split; [done|split]]].
    + unfold gv_append_max_subs_key. cbv zeta. fold ks. rewrite Hprev. assert ((0 <? ks - zlen P - 2) && (ks <=? k_top K) && (zlen P <? k_end K) = true) as -> by zbool_goal.
      fold n. rewrite (put_at K P x (replicate n STR_SUB_MAXVAL ++ [KEY_DELIMITER; KEY_DELIMITER]) s'); [|done|done|rewrite Hx, length_app, length_replicate; done].
      cbn [mbind res_bind]. unfold k1. by rewrite Hn.
    + rewrite Hlast. split; [unfold k1; cbn [k_end set_end]; rewrite !zlen_app; unfold zlen; rewrite length_replicate; cbn; lia|].
      split; [exists s'; unfold k1; cbn [k_base set_end with_base]; by rewrite <- !app_assoc|].
      split; [apply (gkey_swap P [c]); [done|apply replicate_nonnull|intros E; apply (f_equal length) in E; rewrite length_replicate in E; simpl in E; lia|apply prefix_not_nil]|].
      rewrite !length_app, length_replicate. cbn [length]. unfold zlen in *. lia.
    + intros _ Hp1. apply above_records. rewrite Hlast. apply below_all; [|done]. intros y Hy. specialize (Hin y Hy). lia.
    + assert (Hrep : exists q, replicate n 255 ++ [0; 0] = 255 :: q /\ (2 <= length q)%nat).
      { destruct n as [|n']; [lia|]. eexists. split; [done|]. rewrite length_app, length_replicate. simpl. lia. }
      destruct Hrep as (q & Eq & Hq). unfold gv_undo_append_max_subs_key. change (k_prev k1) with (k_prev K). rewrite Hprev.
      assert (exists k3, (if std_null_coll then put k1 (zlen P) [SUBSCRIPT_STDCOL_NULL] else Ok k1) = Ok k3 /\ k_base k3 = P ++ c :: q ++ s' /\ k_prev k3 = zlen P) as (k3 & -> & Eb3 & Hp3).
      { rewrite Ec. destruct std_null_coll.
        - rewrite (put_at k1 P [255] [SUBSCRIPT_STDCOL_NULL] (q ++ s')); [|unfold k1; cbn [k_base set_end with_base]; by rewrite Eq|done|done]. eexists. by repeat split.
        - exists k1. split; [done|]. split; [unfold k1; cbn [k_base set_end with_base]; by rewrite Eq|done]. }
      cbn [mbind res_bind]. destruct q as [|y1 [|y2 q]]; [simpl in Hq; lia..|].
      rewrite (put_at (set_end k3 (zlen P + 2)) (P ++ [c]) [y1; y2] [KEY_DELIMITER; KEY_DELIMITER] (q ++ s'));
        [|cbn [k_base set_end]; rewrite Eb3; by rewrite <- app_assoc|rewrite zlen_app; done|done].
      eexists. split; [done|]. split; [|split; [done|done]].
      split; [cbn [k_end set_end with_base]; rewrite !zlen_app; unfold zlen; cbn [length]; lia|]. split; [exists (q ++ s'); cbn [k_base with_base]; by rewrite <- !app_assoc|].
      split; [done|]. rewrite !length_app in *. cbn [length] in *. lia.
  - exists l0, K. split; [done|]. split; [done|]. split; [by apply (holds_key _ _ 1)|]. split; [done|]. split; [done|]. exists K. split; [done|]. split; [by apply (holds_key _ _ 1)|done].
Qed.

Lemma op_zprevious_spec name_len : name_len = zlen name ->
  exists g' K' alt' v, op_zprevious blk_size t_qread clue_valid base_diff std_null_coll max_key_size cl isctl gv_last_subsc_null name_len g K alt = Ok (g', K', alt', v) /\
    ok g' /\ key_holds K' (P ++ l0 ++ [0; 0]) /\ k_prev K' = zlen P /\ (gv_last_subsc_null = false -> K' = K) /\ prev_text zprevious_to v.
Proof.
  intros ->. destruct zprevious_keys as (b0 & k1 & Hb0 & Ek1 & Hk1 & Hp1 & Hab & k2 & Ek2 & Hk2 & Hp2 & Hsame).
  unfold op_zprevious. rewrite Ek1. cbn [mbind res_bind]. pose proof Hg as (Hr & _). rewrite Hr, (proj2 (Z.eqb_neq rt 0) Hrt).
  destruct (zprevious_found b0 zprevious_to Hb0 (zlen name) gv_last_subsc_null g k1 alt Hg Ha Hk1 Hp1) as (g' & alt' & found & -> & Hok & Hf).
  { intros [H1%Z.eqb_eq H2]%andb_prop. by apply Hab. }
  cbn [mbind res_bind]. destruct found.
  - destruct Hf as (l & w & Hn & Hw & [He [s Eb]]). destruct (prev_child b0 zprevious_to Hb0 l w Hn Hw) as (Hc & Hlt & Hmax).
    pose proof Hw as (_ & Hsub & _). destruct (text_ok w Hsub) as [v Ev]. rewrite (text_of _ P l w s) by done. rewrite Ev. cbn [mbind res_bind]. rewrite Ek2. cbn [mbind res_bind].
    eexists g', k2, _, v. split; [done|]. split; [done|]. split; [done|]. split; [done|]. split; [done|]. right. by exists w.
  - cbn [mbind res_bind]. rewrite Ek2. cbn [mbind res_bind]. eexists g', k2, _, []. split; [done|]. split; [done|]. split; [done|]. split; [done|]. split; [done|]. by left.
Qed.

End call.
End sib.
End ops.
