(* ===== verification/Gvquery.v ===== *)
(** $QUERY: the text of a key by format_targ_key, the records after a key, and a walk
    through all nodes of a global. *)

From stdpp Require Import base list numbers option tactics sorting.
From Stdlib Require Import ZArith Lia.
From S2P Require Import Prelude Zwr Mval Numstr Subscript Gvsub Gvkey Gdsblk Blkexpand Blksearch Blktail Blkprev Gvtree Gvread Gvspan Gvop Gvzip Gvdown Gvsib Gvclue Gvspec Gvcode Gvnext Gvopspec.

Open Scope Z_scope.

(** * The text of a key *)

Fixpoint join (sep : Z) (ss : list (list Z)) : list Z :=
  match ss with [] => [] | [s] => s | s :: ss' => s ++ sep :: join sep ss' end.

(** ^name(s1,s2,...) *)
Definition node_text (name : list Z) (ss : list (list Z)) : list Z :=
  94 :: name ++ match ss with [] => [] | _ => 40 :: join 44 ss ++ [41] end.

Section format.
Context (cl : collation) (isctl : Z -> bool).

(** The bytes [l] of a subscript and its text. *)
Definition sub_shows (l s : list Z) : Prop :=
  l <> [] /\ nonnull l /\ if decide (l !! 0%nat = Some 1) then s = [34; 34] else forall r, gvsub2str cl isctl (l ++ 0 :: r) MAX_ZWR_KEY_SZ true = Ok s.

Lemma put_text_spec out_top s out : zlen out + zlen s <= out_top -> put_text false out_top s out = Some (out ++ s).
Proof.
  revert out. induction s as [|x s IH]; intros out H; cbn [put_text andb]; [by rewrite app_nil_r|].
  rewrite zlen_cons in H. pose proof (zlen_nonneg s). zif_false. rewrite IH by (rewrite zlen_app; unfold zlen in *; cbn [length]; lia). by rewrite <- app_assoc.
Qed.

Lemma rd8_at A x C : rd8 (A ++ x :: C) (zlen A) = Ok x.
Proof. unfold rd8, zlen. rewrite rd_nat, lookup_app_r, Nat.sub_diag by lia. done. Qed.

Lemma format_name_spec fuel A name C end_ out : nonnull name -> (length name < fuel)%nat -> zlen A + zlen name <= end_ ->
  format_name fuel (A ++ name ++ 0 :: C) (zlen A) end_ out = Ok (out ++ name, zlen A + zlen name + 1).
Proof.
  intros Hn. revert fuel A out. induction Hn as [|x name Hx Hn IH]; intros [|fuel] A out Hf He; try (simpl in Hf; lia); cbn [format_name].
  - cbn [app]. rewrite rd8_at. cbn [mbind res_bind Z.eqb negb andb]. rewrite app_nil_r. do 2 f_equal. unfold zlen. simpl. lia.
  - cbn [app]. rewrite rd8_at. cbn [mbind res_bind]. rewrite zlen_cons in *. pose proof (zlen_nonneg name). rewrite (proj2 (Z.eqb_neq x 0)) by lia. 
    rewrite (proj2 (Z.leb_le _ _)) by lia. cbn [negb andb].
    replace (A ++ x :: name ++ 0 :: C) with ((A ++ [x]) ++ name ++ 0 :: C) by (by rewrite <- app_assoc).
    replace (zlen A + 1) with (zlen (A ++ [x])) by (rewrite zlen_app; done).
    rewrite IH; [|simpl in Hf; lia|rewrite zlen_app; change (zlen [x]) with 1; lia]. rewrite <- app_assoc. do 2 f_equal. rewrite zlen_app. change (zlen [x]) with 1. lia.
Qed.

Lemma next_delim_spec fuel A l C end_ : nonnull l -> (length l < fuel)%nat -> zlen A + zlen l <= end_ ->
  next_delim fuel (A ++ l ++ 0 :: C) (zlen A) end_ = Ok (zlen A + zlen l + 1).
Proof.
  intros Hn. revert fuel A. induction Hn as [|x l Hx Hn IH]; intros [|fuel] A Hf He; try (simpl in Hf; lia); cbn [next_delim].
  - cbn [app]. rewrite rd8_at. cbn [mbind res_bind Z.eqb negb andb]. f_equal. unfold zlen. simpl. lia.
  - cbn [app]. rewrite rd8_at. cbn [mbind res_bind]. rewrite zlen_cons in *. pose proof (zlen_nonneg l). rewrite (proj2 (Z.eqb_neq x 0)) by lia.
    rewrite (proj2 (Z.leb_le _ _)) by lia. cbn [negb andb].
    replace (A ++ x :: l ++ 0 :: C) with ((A ++ [x]) ++ l ++ 0 :: C) by (by rewrite <- app_assoc).
    replace (zlen A + 1) with (zlen (A ++ [x])) by (rewrite zlen_app; done).
    rewrite IH; [|simpl in Hf; lia|rewrite zlen_app; change (zlen [x]) with 1; lia]. f_equal. rewrite zlen_app. change (zlen [x]) with 1. lia.
Qed.

Lemma format_sub_spec A l C s out_top out : sub_shows l s -> zlen out + zlen s <= out_top ->
  format_sub cl isctl (A ++ l ++ 0 :: C) (zlen A) out_top true out = Ok (Some (out ++ s)).
Proof.
  intros (Hn & Hl & Hs) Hr. unfold format_sub. destruct l as [|x l]; [done|]. cbn [app]. rewrite rd8_at. cbn [mbind res_bind].
  destruct (Z.eqb_spec x 1) as [->|Hx]; [by rewrite decide_True in Hs by done; subst s|]. rewrite decide_False in Hs by (intros [= ?]; lia).
  cbn [negb]. rewrite andb_false_r. unfold zlen. rewrite Nat2Z.id, drop_app_length. specialize (Hs C). cbn [app] in Hs. rewrite Hs. cbn [mbind res_bind].
  rewrite put_text_spec by done. done.
Qed.

Lemma join_cons s s' ss : join 44 (s :: s' :: ss) = s ++ 44 :: join 44 (s' :: ss).
Proof. done. Qed.

Lemma format_subs_spec ls ss : Forall2 sub_shows ls ss -> ls <> [] -> forall fuel A C end_ out_top out,
  (length ls <= fuel)%nat -> end_ = zlen (A ++ subs_bytes ls) -> zlen (out ++ join 44 ss ++ [41]) <= out_top ->
  format_subs cl isctl fuel (A ++ subs_bytes ls ++ 0 :: C) (zlen A) end_ out_top true out = Ok (Some (out ++ join 44 ss ++ [41])).
Proof.
  induction 1 as [|l s ls ss Hs Hss IH]; intros Hn fuel A C end_ out_top out Hf He Ho; [done|]. destruct fuel as [|fuel]; [simpl in Hf; lia|].
  assert (Eb : subs_bytes (l :: ls) = l ++ 0 :: subs_bytes ls) by (unfold subs_bytes; rewrite fmap_cons; cbn [concat]; by rewrite <- app_assoc).
  rewrite Eb in *. rewrite !zlen_app, zlen_cons in He. pose proof (zlen_nonneg l). pose proof (zlen_nonneg (subs_bytes ls)). cbn [format_subs]. zif_true.
  replace (A ++ (l ++ 0 :: subs_bytes ls) ++ 0 :: C) with (A ++ l ++ 0 :: subs_bytes ls ++ 0 :: C) by (by rewrite <- app_assoc).
  pose proof Hs as (Hl1 & Hl2 & _).
  assert (Ej : exists z, join 44 (s :: ss) = s ++ z) by (destruct ss; [exists []; by rewrite app_nil_r|by eexists]). destruct Ej as [z Ej].
  rewrite Ej, !zlen_app in Ho. change (zlen [41]) with 1 in Ho. pose proof (zlen_nonneg z).
  rewrite (format_sub_spec A l _ s) by (done || lia). cbn [mbind res_bind]. rewrite zlen_app. zif_false.
  rewrite (next_delim_spec _ A l) by (done || lia || (rewrite length_app, length_app; destruct l; simpl; lia)). cbn [mbind res_bind]. zif_false.
  replace (A ++ l ++ 0 :: subs_bytes ls ++ 0 :: C) with ((A ++ l ++ [0]) ++ subs_bytes ls ++ 0 :: C) by (by rewrite <- !app_assoc).
  replace (zlen A + zlen l + 1) with (zlen (A ++ l ++ [0])) by (rewrite !zlen_app; change (zlen [0]) with 1; lia).
  destruct Hss as [|l' s' ls ss Hs' Hss].
  - cbn [subs_bytes fmap list_fmap concat app]. rewrite rd8_at. cbn [mbind res_bind Z.eqb negb]. cbn [join]. by rewrite <- app_assoc.
  - assert (exists x, (A ++ l ++ [0]) ++ subs_bytes (l' :: ls) ++ 0 :: C = (A ++ l ++ [0]) ++ x :: tail (subs_bytes (l' :: ls) ++ 0 :: C) /\ x <> 0) as (x & Ex & Hx).
    { destruct Hs' as (Hl1' & Hl2' & _). destruct l' as [|x l']; [done|]. exists x. split; [done|]. destruct (Forall_cons_1 _ _ _ Hl2'). lia. }
    rewrite Ex at 1. rewrite rd8_at. cbn [mbind res_bind]. rewrite (proj2 (Z.eqb_neq x 0) Hx). cbn [negb].
    rewrite join_cons in Ej. apply app_inv_head in Ej. rewrite join_cons. rewrite IH.
    + by rewrite <- !app_assoc.
    + done.
    + simpl in *. lia.
    + rewrite !zlen_app. change (zlen [0]) with 1. lia.
    + rewrite !zlen_app. change (zlen [41]) with 1. change (zlen [44]) with 1. rewrite <- Ej, zlen_cons in Ho. lia.
Qed.

Lemma format_targ_key_spec key name ls ss max_size : nonnull name -> Forall2 sub_shows ls ss -> buffer_is key (node_key name ls) ->
  zlen (node_text name ss) <= max_size - 2 -> format_targ_key cl isctl max_size key true = Ok (Some (node_text name ss)).
Proof.
  intros Hn Hs [He [sl Eb]] Hm. unfold format_targ_key. unfold node_key in *. rewrite Eb, <- app_assoc. cbn [app].
  rewrite zlen_app, zlen_cons, zlen_app in He. change (zlen [0]) with 1 in He. pose proof (zlen_nonneg (subs_bytes ls)).
  assert (Hfn : (length name < length (name ++ (0%Z :: subs_bytes ls ++ [0%Z]) ++ sl))%nat) by (rewrite length_app; simpl; lia).
  cbn [app] in Hfn. change 0 with (zlen (@nil Z)) at 2.
  replace (name ++ 0 :: (subs_bytes ls ++ [0]) ++ sl) with ([] ++ name ++ 0 :: (subs_bytes ls ++ [0]) ++ sl) by done.
  rewrite format_name_spec by (done || (unfold zlen in *; simpl; lia)). cbn [mbind res_bind app]. change (zlen (@nil Z)) with 0. rewrite Z.add_0_l.
  replace (name ++ 0 :: (subs_bytes ls ++ [0]) ++ sl) with ((name ++ [0]) ++ subs_bytes ls ++ 0 :: sl) by (by rewrite <- !app_assoc).
  replace (zlen name + 1) with (zlen (name ++ [0])) by (rewrite zlen_app; done). unfold node_text in *.
  destruct Hs as [|l s ls ss Hs Hss].
  - cbn [subs_bytes fmap list_fmap concat app]. rewrite rd8_at. cbn [mbind res_bind Z.eqb]. by rewrite app_nil_r.
  - assert (exists x, (name ++ [0]) ++ subs_bytes (l :: ls) ++ 0 :: sl = (name ++ [0]) ++ x :: tail (subs_bytes (l :: ls) ++ 0 :: sl) /\ x <> 0) as (x & Ex & Hx).
    { destruct Hs as (Hl1' & Hl2' & _). destruct l as [|x l']; [done|]. exists x. split; [done|]. destruct (Forall_cons_1 _ _ _ Hl2'). lia. }
    rewrite Ex at 1. rewrite rd8_at. cbn [mbind res_bind]. rewrite (proj2 (Z.eqb_neq x 0) Hx).
    rewrite (format_subs_spec (l :: ls) (s :: ss)); [do 2 f_equal; cbn [app]; f_equal; by rewrite <- app_assoc|by constructor|done| | |].
    + rewrite !length_app. clear. assert (forall q, (length q <= length (subs_bytes q))%nat); [|specialize (H (l :: ls)); simpl in *; lia].
      induction q as [|y q IH]; [done|]. unfold subs_bytes in *. rewrite fmap_cons. cbn [concat length]. rewrite !length_app. simpl in *. lia.
    + rewrite !zlen_app. change (zlen [0]) with 1. lia.
    + rewrite zlen_cons, zlen_app, zlen_cons in Hm. rewrite zlen_app, zlen_cons, zlen_app. change (zlen [40]) with 1. lia.
Qed.
End format.

(** * The next record *)

(** The key that $QUERY searches for comes right after the key itself. *)
Lemma query_target w x : gkey_ok (w ++ [0; 0]) -> gkey_ok x -> gvlt x (w ++ [0; 1; 0; 0]) <-> ~ gvlt (w ++ [0; 0]) x.
Proof.
  intros Ht Hx. assert (Htt : gvlt (w ++ [0; 0]) (w ++ [0; 1; 0; 0])) by (unfold gvlt; by rewrite lexcmp_app).
  pose proof (gkey_grow w [0; 1] [1] Ht one_nonnull ltac:(done) (or_intror eq_refl)) as Ht2. cbn [app] in Ht2. split.
  - intros Hlt Htx. pose proof (lcp_sorted _ _ _ Htx Hlt) as El. rewrite lcp_app in El. cbn [lcp] in El.
    change (0 =? 0) with true in El. change (0 =? 1) with false in El. cbv iota in El.
    destruct (gkey_lt _ _ Ht Hx Htx) as (u & v & Eu & Ev & Huv). pose proof (lookup_lt_Some _ _ _ Eu) as Hl. rewrite length_app in Hl. cbn [length] in Hl.
    assert (E1 : lcp (w ++ [0%Z; 0%Z]) x = (length w + 1)%nat) by lia. rewrite E1 in Eu, Ev.
    rewrite lookup_app_r in Eu by lia. replace (length w + 1 - length w)%nat with 1%nat in Eu by lia. injection Eu as <-.
    destruct (gkey_lt _ _ Hx Ht2 Hlt) as (a & b & Ea & Eb & Hab). assert (Hi : (length w + 1 <= lcp x (w ++ [0%Z; 1%Z; 0%Z; 0%Z]))%nat) by lia.
    assert (0 <= a) by (destruct Hx as (Hb & _); pose proof (Forall_lookup_1 _ _ _ _ Hb Ea) as Hy; unfold byte_ok in Hy; lia).
    rewrite lookup_app_r in Eb by lia. set (i := lcp x _) in *. destruct (i - length w)%nat as [|[|[|[|n]]]] eqn:En; [lia| | | |done].
    + assert (Ei : i = (length w + 1)%nat) by lia. rewrite Ei, Ev in Ea. injection Ea as <-. injection Eb as <-. lia.
    + injection Eb as <-. lia.
    + injection Eb as <-. lia.
  - intros Hn. destruct (gvlt_cases (w ++ [0; 0]) x) as [?|[<-|H]]; [done|done|]. by transitivity (w ++ [0; 0]).
Qed.

(** The records after a key. *)
Definition after (t : list Z) (rs : list grec) : list grec := filter (fun x => gvlt t (g_key x)) rs.

Lemma from_after_at t s rs : leaf_ok rs -> (forall x, x ∈ rs -> gvlt (g_key x) t <-> ~ gvlt s (g_key x)) -> from_key t rs = after s rs.
Proof.
  intros [Hok Hs] Hq. unfold after. induction Hok as [|x rs [Hx _] Hok IH]; [done|]. unfold keys_sorted in Hs. rewrite fmap_cons in Hs. apply StronglySorted_inv in Hs as [Hs Hxs].
  cbn [from_key]. assert (Hb : before t x <-> ~ gvlt s (g_key x)).
  { rewrite <- Hq by (by left). unfold before. split; [by intros []|]. intros H. split; [by apply gkey_not_nil|done]. }
  rewrite filter_cons. case_decide as H1; [rewrite decide_False by (by apply Hb); apply IH; [done|intros y Hy; apply Hq; by right]|].
  assert (Hgt : gvlt s (g_key x)) by (destruct (decide (gvlt s (g_key x))) as [|Hn]; [done|by apply Hb in Hn]).
  rewrite decide_True by done. f_equal. clear -Hxs Hgt.
  induction rs as [|y rs IH]; [done|]. rewrite fmap_cons in Hxs. apply Forall_cons in Hxs as [Hy Hxs]. rewrite filter_cons.
  rewrite decide_True by (by transitivity (g_key x)). f_equal. by apply IH.
Qed.

Lemma from_after w rs : gkey_ok (w ++ [0; 0]) -> leaf_ok rs -> from_key (w ++ [0; 1; 0; 0]) rs = after (w ++ [0; 0]) rs.
Proof.
  intros Ht Hl. apply from_after_at; [done|]. intros x Hx. apply query_target; [done|]. destruct Hl as [Hok _]. rewrite Forall_forall in Hok. by apply Hok.
Qed.

(** The key that $QUERY searches for from a null subscript with the special
    meaning comes right after the node above. *)
Lemma null_target name ps rs x : nonnull name -> nodes_ok false name rs -> Forall (shape false) ps -> x ∈ rs ->
  gvlt (g_key x) (key_prefix name ps ++ [1; 0; 0]) <-> ~ gvlt (node_key name ps) (g_key x).
Proof.
  intros Hname Hn Hps Hx. rewrite node_key_nil. set (P := key_prefix name ps).
  assert (Htt : gvlt (P ++ [0]) (P ++ [1; 0; 0])) by (unfold gvlt; by rewrite lexcmp_app). split.
  - intros Hlt Hgt. pose proof (lcp_sorted _ _ _ Hgt Hlt) as El. rewrite lcp_app in El. cbn [lcp] in El. change (0 =? 1) with false in El. cbv iota in El.
    assert (Hp : take (length P) (g_key x) = P) by (apply (target_prefix name ps (g_key x) [1; 0; 0]); fold P; lia).
    destruct (key_below false name rs Hn ps Hps x Hx Hp) as [E|(l & rest & E & _ & Hl)].
    + rewrite E in Hgt. by apply gvlt_irrefl in Hgt.
    + rewrite E in Hlt. unfold gvlt in Hlt. fold P in Hlt. rewrite lexcmp_app in Hlt. pose proof (Forall_inv Hl) as Hsh.
      assert (exists h l', l = h :: l' /\ 1 < h) as (h & l' & -> & Hh).
      { destruct Hsh as [|y s _| |neg h ds Hh _ _]; do 2 eexists; (split; [done|]); [lia|lia|lia|destruct neg; lia]. }
      cbn [app lexcmp] in Hlt. by rewrite (proj2 (Z.compare_gt_iff _ _)) in Hlt by lia.
  - intros Hn1. destruct (gvlt_cases (P ++ [0]) (g_key x)) as [?|[<-|H]]; [done|done|]. by transitivity (P ++ [0]).
Qed.

Lemma after_next t rs x R : keys_sorted rs -> after t rs = x :: R -> after (g_key x) rs = R.
Proof.
  unfold after. induction rs as [|y rs IH]; [done|]. intros Hs. unfold keys_sorted in Hs. rewrite fmap_cons in Hs. apply StronglySorted_inv in Hs as [Hs Hys].
  assert (Hall : forall k, gvlt k (g_key y) \/ k = g_key y -> filter (fun z => gvlt k (g_key z)) rs = rs).
  { intros k Hk. clear -Hys Hk. induction rs as [|z rs IH]; [done|]. rewrite fmap_cons in Hys. apply Forall_cons in Hys as [Hz Hys]. rewrite filter_cons.
    rewrite decide_True; [f_equal; by apply IH|]. destruct Hk as [Hk| ->]; [by transitivity (g_key y)|done]. }
  rewrite !filter_cons. case_decide as Hy.
  - intros [= <- <-]. rewrite decide_False by (intros H; by destruct (gvlt_irrefl (g_key y))). rewrite !Hall; [done|by left|by right].
  - intros E. rewrite decide_False; [by apply IH|]. assert (Hx : x ∈ filter (fun z => gvlt t (g_key z)) rs) by (rewrite E; by left).
    apply list_elem_of_filter in Hx as [_ Hx]. intros Hc. rewrite Forall_forall in Hys.
    destruct (gvlt_irrefl (g_key y)). transitivity (g_key x); [|done]. apply Hys. by apply list_elem_of_fmap_2.
Qed.

(** * The operator *)

Lemma memcmp_take a b n : 0 <= n -> n <= zlen a -> n <= zlen b -> memcmp_n a b n = Ok (lexcmp (take (Z.to_nat n) a) (take (Z.to_nat n) b)).
Proof.
  intros H0 Ha Hb. destruct (Z_of_nat_complete n H0) as [m ->]. unfold memcmp_n. rewrite Nat2Z.id.
  by rewrite (rd_list_0 a m (take m a)), (rd_list_0 b m (take m b)) by (done || (unfold zlen in *; lia)).
Qed.

Section query.
Context (blk_size : Z) (t_qread : Z -> option (list Z)) (clue_valid : list srch_blk_status -> bool) (base_diff : Z -> Z).
Context (rt : Z) (depth : nat) (whole : list grec).
Hypothesis Htree : tree_at blk_size t_qread depth false rt [] None whole.
Hypothesis Hdepth : (0 < depth < 7)%nat.
Hypothesis Hbase : forall b, 1024 <= base_diff b.
Hypothesis Hrt : rt <> 0.
Context (span_nodes_disallowed span_node_absent std_null_coll : bool) (cl : collation) (isctl : Z -> bool).
Hypothesis Hcl : no_collation cl.
Context (name : list Z).
Hypothesis Hname : nonnull name.
Hypothesis Hfirst : forall x, name !! 0%nat = Some x -> 1 < x < 255.

Abbreviation ok := (gvt_ok blk_size t_qread clue_valid rt depth whole).
Abbreviation op_query := (op_gvquery blk_size t_qread clue_valid base_diff span_nodes_disallowed span_node_absent std_null_coll cl isctl).

(** The text of a subscript in a key. *)
Definition zwr_of (w : mval) : res (list Z) := if has MV_NUM_APPROX w then Ok (zwr_text isctl (mv_str w)) else n2s_str w.

(** [s] is the text of the key [k]. *)
Definition node_shows (k s : list Z) : Prop :=
  exists ls ss, k = node_key name ls /\ Forall2 (fun l s => exists w, stored cl std_null_coll l w /\ zwr_of w = Ok s) ls ss /\
    s = node_text name ss /\ zlen s <= MAX_ZWR_KEY_SZ - 2.

(** The records are nodes of the global, with room for one more subscript in
    their keys, and for the text. *)
Definition texts_ok : Prop := Forall (fun x => (length (g_key x) <= 1021)%nat /\ exists s, node_shows (g_key x) s) whole.
Hypothesis Htexts : texts_ok.

Lemma stored_shows l w s : stored cl std_null_coll l w -> zwr_of w = Ok s -> sub_shows cl isctl l s.
Proof.
  intros Hst. pose proof (stored_shape _ _ _ _ Hcl Hst) as Hsh. destruct (seg_not_nil _ (shape_seg _ _ Hsh)) as [Hn Hnn]. intros Hz.
  split; [done|]. split; [done|]. destruct Hst as (E & Hw & Hlen). pose proof Hw as [Hb Hnum]. unfold zwr_of in Hz. destruct (has MV_NUM_APPROX w) eqn:Ha.
  - injection Hz as <-. case_decide as H1.
    + destruct (subsc_stored_inv _ _ _ _ Hcl E) as [[_ ->]|[Hf _]]; [|congruence]. unfold str_code in H1. by destruct (mv_str w).
    + intros r. apply (gvsub2str_stored_zwr cl isctl std_null_coll); try done; [unfold MAX_KEY_SZ in *; lia|].
      unfold MAX_ZWR_KEY_SZ, ZWR_EXP_RATIO in *. lia.
  - assert (Hh : exists h l', l = h :: l' /\ h <> 255 /\ h <> 1).
    { destruct Hnum as [?|Hnum]; [congruence|]. destruct (subsc_stored_inv _ _ _ _ Hcl E) as [[? _]|[_ Hs]]; [congruence|].
      destruct (num_subsc_spec w Hnum) as [[_ Hs']|(neg & E' & M & (_ & HE & _) & Hs')]; rewrite Hs in Hs'; injection Hs' as ->.
      - by exists 128, [].
      - unfold code. do 2 eexists. split; [done|]. unfold flip. unfold EXPLO, EXPHI, MV_XBIAS in HE. destruct neg; lia. }
    destruct Hh as (h & l' & -> & H255 & H1). rewrite decide_False by (intros [= ?]; lia). intros r. cbn [app]. rewrite gvsub2str_flag by done.
    pose proof (gvsub2str_stored cl isctl std_null_coll w (h :: l') r MAX_ZWR_KEY_SZ Hcl E Hw) as Hg. cbn [app] in Hg. unfold KEY_DELIMITER in Hg.
    rewrite Hg, Ha; [done|pose proof ZWR_ge; lia|by vm_compute].
Qed.

Lemma shows_format k s alt : node_shows k s -> buffer_is alt k -> format_targ_key cl isctl MAX_ZWR_KEY_SZ alt true = Ok (Some s).
Proof.
  intros (ls & ss & -> & Hls & -> & Hlen) Hb. apply (format_targ_key_spec cl isctl alt name ls ss); [done| |done|done].
  eapply Forall2_impl; [exact Hls|]. intros l s (w & Hw & Hz). by apply (stored_shows l w).
Qed.

Lemma shows_visible k s : node_shows k s -> visible k.
Proof.
  intros (ls & ss & -> & Hls & _). apply node_visible; [done|]. clear -Hls Hcl. induction Hls as [|l s ls ss (w & Hw & Hz) Hls IH]; [constructor|]. constructor; [|done].
  by eapply shape_seg, stored_shape.
Qed.

Lemma shows_first k s x : node_shows k s -> gkey_ok k -> k !! 0%nat = Some x -> 1 < x < 255.
Proof.
  intros (ls & ss & -> & _) (_ & n & _ & _ & H0 & _) E. unfold node_key in *. destruct name as [|b nm]; [by injection E as <-|]. by apply Hfirst.
Qed.

Lemma null_check k s : node_shows k s -> gkey_ok k -> exists b, forall alt, buffer_is alt k -> last_subsc_is_null alt = Ok b.
Proof.
  intros Hs Hk. pose proof (gkey_length k Hk) as Hl.
  destruct (lookup_lt_is_Some_2 k (length k - 3)) as [x Ex]; [lia|]. destruct ((x =? STR_SUB_PREFIX) || (x =? SUBSCRIPT_STDCOL_NULL)) eqn:Eo.
  - assert (length k <> 3)%nat.
    { intros E3. replace (length k - 3)%nat with 0%nat in Ex by lia. pose proof (shows_first k s x Hs Hk Ex).
      apply orb_prop in Eo as [Eo|Eo]; apply Z.eqb_eq in Eo; unfold STR_SUB_PREFIX, SUBSCRIPT_STDCOL_NULL in Eo; lia. }
    destruct (lookup_lt_is_Some_2 k (length k - 4)) as [y Ey]; [lia|]. exists (y =? KEY_DELIMITER). intros alt [He [sl Eb]].
    unfold last_subsc_is_null, zlen in *. rewrite Eb. replace (k_end alt - 2) with (Z.of_nat (length k - 3)) by lia. replace (k_end alt - 3) with (Z.of_nat (length k - 4)) by lia.
    rewrite (rd8_base k sl _ x Ex). cbn [mbind res_bind]. rewrite Eo, (rd8_base k sl _ y Ey). done.
  - exists false. intros alt [He [sl Eb]]. unfold last_subsc_is_null, zlen in *. rewrite Eb. replace (k_end alt - 2) with (Z.of_nat (length k - 3)) by lia.
    rewrite (rd8_base k sl _ x Ex). cbn [mbind res_bind]. by rewrite Eo.
Qed.

Lemma texts_nodes : nodes_ok std_null_coll name whole.
Proof.
  pose proof Htexts as Ht. unfold texts_ok, nodes_ok in *. eapply Forall_impl; [exact Ht|]. intros x (_ & s & ls & ss & E & Hls & _). exists ls. split; [done|].
  clear -Hls Hcl. induction Hls as [|l s ls ss (w & Hw & _) _ IH]; constructor; [by eapply stored_shape|done].
Qed.

Lemma keys_differ_ok last K t : key_holds K t -> key_room last 1024 -> exists d, keys_differ last K = Ok d.
Proof.
  intros (He & [s Eb] & Hgk & Hl) Hr. pose proof (gkey_length _ Hgk). unfold keys_differ. destruct (Z.eqb_spec (k_end last) (k_end K)) as [E|]; cbn [negb]; [|by eexists].
  unfold key_room in Hr. rewrite memcmp_take; [by eexists|unfold zlen in *; lia|unfold zlen in *; lia|rewrite Eb, zlen_app; unfold zlen in *; lia].
Qed.

Lemma keys_differ_same last K t : t <> [] -> buffer_is last t -> buffer_is K t -> keys_differ last K = Ok false.
Proof.
  intros Hn [He [s Eb]] [He' [s' Eb']]. assert (0 < zlen t) by (destruct t; [done|rewrite zlen_cons; pose proof (zlen_nonneg t); lia]). unfold keys_differ. replace (k_end last) with (k_end K) by lia. rewrite Z.eqb_refl. cbn [negb].
  rewrite memcmp_take by (rewrite ?Eb, ?Eb', ?zlen_app; unfold zlen in *; lia). rewrite Eb, Eb', !take_app_le by (unfold zlen in *; lia).
  by rewrite lexcmp_refl.
Qed.

(** Where the search of $QUERY starts: after the node; after the one above it
    from a null subscript with the special meaning, which it has without
    standard null collation, when the last $QUERY did not give this node. *)
Definition query_from (gv_last_subsc_null differs : bool) (w : list Z) (ps : list (list Z)) : list Z :=
  if gv_last_subsc_null && negb std_null_coll && differs then node_key name ps else w ++ [0; 0].

Lemma query_found g K alt s t : ok g -> key_holds K t -> from_key t whole = after s whole -> (forall x, t !! 0%nat = Some x -> x < 255) -> key_room alt 1024 ->
  exists g' alt', gvcst_query blk_size t_qread clue_valid base_diff span_nodes_disallowed span_node_absent g K alt =
      Ok (g', K, alt', match after s whole with [] => false | _ => true end) /\ ok g' /\
    match after s whole with [] => alt' = alt | x :: _ => x ∈ whole /\ key_is alt alt' (g_key x) end.
Proof.
  intros Hg HK Hf0 Hb Ha.
  destruct (query2_spec blk_size t_qread clue_valid base_diff rt depth whole Htree Hdepth Hbase K _ HK Hb g alt Hg Ha) as (g' & alt' & E & Hok & Hf).
  unfold gvcst_query. rewrite E. cbn [mbind res_bind]. rewrite Hf0 in *. destruct (after s whole) as [|x R] eqn:Ea; cbn [negb].
  - by exists g', alt'.
  - assert (Hxw : x ∈ whole) by (eapply (proj1 (list_elem_of_filter _ _ _)); unfold after in Ea; rewrite Ea; by left).
    pose proof Htexts as Hts. unfold texts_ok in Hts. rewrite Forall_forall in Hts. destruct (Hts x Hxw) as (_ & s' & Hs). pose proof Hf as (He & Hbuf & _).
    rewrite (check_visible alt' (g_key x) (conj He Hbuf) (shows_visible _ s' Hs)). cbn [mbind res_bind negb]. by exists g', alt'.
Qed.

(** gv_currkey during the search, and after it. *)
Lemma query_keys gl d K w ps : holds_room K (w ++ [0; 0]) 2 -> (forall x, w !! 0%nat = Some x -> x < 255) -> Forall (shape std_null_coll) ps ->
  (gl && negb std_null_coll && d = true -> w ++ [0; 0] = key_prefix name ps ++ [255; 0; 0] /\ k_prev K = zlen (key_prefix name ps)) ->
  exists t k1, (if gl && negb std_null_coll && d then put K (k_prev K) [1] else GVKEY_INCREMENT_QUERY K) = Ok k1 /\ key_holds k1 t /\
    from_key t whole = after (query_from gl d w ps) whole /\ (forall x, t !! 0%nat = Some x -> x < 255) /\
    exists k2, (if gl && negb std_null_coll && d then put k1 (k_prev k1) [STR_SUB_PREFIX] else put (set_end k1 (k_end k1 - 2)) (k_end k1 - 2) [KEY_DELIMITER]) = Ok k2 /\
      holds_room k2 (w ++ [0; 0]) 2 /\ k_prev k2 = k_prev K /\ zlen (k_base k2) = zlen (k_base K).
Proof.
  intros HK Hx Hps Hsp. pose proof (whole_leaf _ _ _ _ _ Htree) as Hleaf. unfold query_from. destruct (gl && negb std_null_coll && d) eqn:E.
  - destruct (Hsp eq_refl) as [Ew Hp]. apply andb_prop in E as [[_ Es%negb_true_iff]%andb_prop _]. set (P := key_prefix name ps) in *. rewrite Ew in *.
    pose proof HK as (He & (s & Eb & Hs) & Hgk & Hlen). exists (P ++ [1; 0; 0]), (with_base K (P ++ [1] ++ (0 :: 0 :: s))).
    rewrite Hp, (put_at K P [255] [1] (0 :: 0 :: s)) by (done || (rewrite Eb; by rewrite <- app_assoc)). split; [done|].
    split.
    { split; [cbn [k_end with_base]; rewrite He, !zlen_app; done|]. split; [exists s; cbn [k_base with_base]; by rewrite <- app_assoc|].
      split; [|rewrite length_app in *; cbn [length] in *; lia]. exact (gkey_swap P [255] [1] Hgk one_nonnull ltac:(done) (prefix_not_nil name ps)). }
    split; [apply from_after_at; [done|]; intros x Hxw; apply (null_target name ps whole); [done|pose proof texts_nodes as H; by rewrite Es in H|by rewrite Es in Hps|done]|].
    split.
    { intros x Ex. unfold P, key_prefix in Ex. destruct name as [|b nm]; [injection Ex as <-; lia|]. injection Ex as <-. by destruct (Hfirst b eq_refl). }
    cbn [k_prev with_base]. rewrite Hp, (put_at (with_base K _) P [1] [STR_SUB_PREFIX] (0 :: 0 :: s)) by done. eexists. split; [done|]. cbn [k_prev with_base k_base].
    split; [|split; [done|rewrite Eb, !zlen_app; unfold zlen; simpl; lia]]. split; [done|]. split; [exists s; cbn [k_base with_base]; by rewrite <- app_assoc|done].
  - destruct (increment_query K w HK) as (k1 & Ek1 & Hk1 & Hp1 & k2 & Ek2 & Hk2 & Hp2 & _ & Hz2). pose proof HK as (_ & _ & Ht & _).
    exists (w ++ [0; 1; 0; 0]), k1. split; [done|]. split; [done|]. split; [by apply from_after|]. split; [|by exists k2].
    intros x. destruct w as [|b w']; [intros [= <-]; lia|]. intros [= <-]. by apply Hx.
Qed.

Lemma op_gvquery_spec gl d g K alt last w ps : ok g -> holds_room K (w ++ [0; 0]) 2 -> (forall x, w !! 0%nat = Some x -> x < 255) -> key_room alt 1024 -> key_room last 1024 ->
  Forall (shape std_null_coll) ps -> keys_differ last K = Ok d ->
  (gl && negb std_null_coll && d = true -> w ++ [0; 0] = key_prefix name ps ++ [255; 0; 0] /\ k_prev K = zlen (key_prefix name ps)) ->
  exists g' K' alt' last' v, op_query gl last g K alt = Ok (g', K', alt', last', v) /\ ok g' /\ holds_room K' (w ++ [0; 0]) 2 /\
    k_prev K' = k_prev K /\ zlen (k_base K') = zlen (k_base K) /\ key_room alt' 1024 /\ key_room last' 1024 /\
    match after (query_from gl d w ps) whole with
    | [] => v = []
    | x :: _ => x ∈ whole /\ node_shows (g_key x) v /\ buffer_is alt' (g_key x) /\
        exists b, (forall k, buffer_is k (g_key x) -> last_subsc_is_null k = Ok b) /\ (b = true -> buffer_is last' (g_key x))
    end.
Proof.
  intros Hg HK Hx Ha Hlast Hps Hd Hsp. destruct (query_keys gl d K w ps HK Hx Hps Hsp) as (t & k1 & Ek1 & Hk1 & Hft & Hft1 & k2 & Ek2 & Hk2 & Hp2 & Hz2).
  unfold op_gvquery. assert ((if gl && negb std_null_coll then keys_differ last K else Ok false) = Ok (gl && negb std_null_coll && d)) as ->.
  { destruct (gl && negb std_null_coll); [by rewrite Hd|done]. }
  cbn [mbind res_bind]. rewrite Ek1. cbn [mbind res_bind]. pose proof Hg as (Hr & _). rewrite Hr, (proj2 (Z.eqb_neq rt 0) Hrt).
  destruct (query_found g k1 alt (query_from gl d w ps) t Hg Hk1 Hft Hft1 Ha) as (g' & alt' & -> & Hok & Hf). cbn [mbind res_bind]. rewrite Ek2. cbn [mbind res_bind].
  destruct (after (query_from gl d w ps) whole) as [|x R]; cbn [mbind res_bind].
  - subst alt'. exists g', k2, alt, (set_end last 0), []. by repeat (split; [done|]).
  - destruct Hf as [Hxw Hk]. pose proof Htexts as Hts. unfold texts_ok in Hts. rewrite Forall_forall in Hts. destruct (Hts x Hxw) as (Hlen & s & Hs).
    pose proof Hk as (He & Hbuf & Htop & Hpv & Hz). assert (Hb : buffer_is alt' (g_key x)) by done.
    pose proof (whole_leaf _ _ _ _ _ Htree) as [Hrec _]. rewrite Forall_forall in Hrec. destruct (Hrec x Hxw) as [Hgx _].
    rewrite (shows_format _ s alt' Hs Hb). cbn [mbind res_bind]. destruct (null_check _ s Hs Hgx) as [b Hnull]. rewrite (Hnull alt' Hb). cbn [mbind res_bind].
    assert (Hroom : key_room alt' 1024) by (unfold key_room in *; by rewrite Htop, Hz).
    assert (exists last', (if b then COPY_KEY last alt' else Ok last) = Ok last' /\ key_room last' 1024 /\ (b = true -> buffer_is last' (g_key x))) as (last' & -> & Hl' & Hl2).
    { destruct b; [|by exists last]. pose proof (gkey_length _ Hgx). unfold key_room, zlen in *. rewrite COPY_KEY_spec by (unfold zlen; lia). eexists. split; [done|]. cbn [k_top k_base].
      split; [rewrite length_app, length_take, length_drop; lia|]. intros _. destruct Hbuf as [sl Eb]. split; [done|]. cbn [k_base].
      rewrite Eb, He. unfold zlen. rewrite Nat2Z.id, take_app_length. by eexists. }
    cbn [mbind res_bind]. assert (Es : 94 :: drop 1 s = s) by (by destruct Hs as (ls & ss & _ & _ & -> & _)). rewrite Es.
    exists g', k2, alt', last', s. repeat (split; [done|]). by exists b.
Qed.

(** ** A walk *)

(** SET x=$QUERY(@x), from the key in [k], until it gives the empty string: the
    program that the theorem on a walk is about, not a function of the code.
    The key of each answer, which op_gvname would make anew in gv_currkey, is
    copied from gv_altkey, and whether its last subscript is null is looked up
    in each turn. *)
Fixpoint query_walk (n : nat) (last : gv_key) (g : gv_namehead) (k alt : gv_key) : res (list (list Z)) :=
  match n with
  | O => Err OUT_OF_FUEL
  | S n' =>
      gv_last_subsc_null ← last_subsc_is_null k;
      '(g, k, alt, last, v) ← op_query gv_last_subsc_null last g k alt;
      match v with
      | [] => Ok []
      | _ => k ← COPY_KEY k alt; l ← query_walk n' last g k alt; Ok (v :: l)
      end
  end.

Lemma query_walk_spec n : forall gl d last g K alt w ps, ok g -> holds_room K (w ++ [0; 0]) 2 -> (forall x, w !! 0%nat = Some x -> x < 255) -> 1024 <= zlen (k_base K) ->
  key_room alt 1024 -> key_room last 1024 -> Forall (shape std_null_coll) ps -> last_subsc_is_null K = Ok gl -> keys_differ last K = Ok d ->
  (gl && negb std_null_coll && d = true -> w ++ [0; 0] = key_prefix name ps ++ [255; 0; 0] /\ k_prev K = zlen (key_prefix name ps)) ->
  (length (after (query_from gl d w ps) whole) < n)%nat ->
  exists vs, query_walk n last g K alt = Ok vs /\ Forall2 (fun x v => node_shows (g_key x) v) (after (query_from gl d w ps) whole) vs.
Proof.
  induction n as [|n IH]; intros gl d last g K alt w ps Hg HK Hx Hz Ha Hlast Hps Hgl Hd Hsp Hn; [lia|]. cbn [query_walk]. rewrite Hgl. cbn [mbind res_bind].
  destruct (op_gvquery_spec gl d g K alt last w ps Hg HK Hx Ha Hlast Hps Hd Hsp) as (g' & K' & alt' & last' & v & -> & Hok & HK' & _ & Hz' & Ha' & Hl' & Hf). cbn [mbind res_bind].
  destruct (after (query_from gl d w ps) whole) as [|x R] eqn:Ea; [subst v; by exists []|]. destruct Hf as (Hxw & Hs & [He [sl Eb]] & b & Hnull & Hlb).
  assert (Hv : exists b q, v = b :: q) by (destruct Hs as (ls & ss & _ & _ & -> & _); by do 2 eexists). destruct Hv as (b' & q & ->).
  pose proof (whole_leaf _ _ _ _ _ Htree) as Hleaf. pose proof Hleaf as [Hrec Hsort]. rewrite Forall_forall in Hrec. destruct (Hrec x Hxw) as [Hgx _].
  pose proof Htexts as Hts. unfold texts_ok in Hts. rewrite Forall_forall in Hts. destruct (Hts x Hxw) as (Hlen & _). pose proof (gkey_length _ Hgx).
  unfold key_room, zlen in *. rewrite COPY_KEY_spec by (unfold zlen; lia). cbn [mbind res_bind]. rewrite He, Eb, Nat2Z.id, take_app_length.
  assert (Hw : exists w', g_key x = w' ++ [0; 0]).
  { destruct Hgx as (_ & m & Hm & _ & _ & E0 & E1 & _). exists (take m (g_key x)). rewrite <- (take_drop m (g_key x)) at 1. f_equal.
    rewrite (drop_S _ _ _ E0), (drop_S _ _ _ E1). f_equal. f_equal. apply drop_ge. lia. }
  destruct Hw as [w' Ew']. pose proof (after_next _ _ _ _ Hsort Ea) as Ean.
  set (K2 := mk_gv_key (k_top K') (k_end alt') (k_prev alt') (g_key x ++ drop (length (g_key x)) (k_base K'))).
  assert (HK2 : holds_room K2 (w' ++ [0; 0]) 2).
  { unfold holds_room, zlen, K2. cbn [k_end k_base]. rewrite <- Ew'. split; [lia|]. split; [|split; [done|lia]]. eexists. split; [done|]. rewrite length_drop. lia. }
  assert (HB2 : buffer_is K2 (g_key x)) by (split; [done|by eexists]).
  destruct (keys_differ_ok last' K2 _ (holds_key _ _ _ HK2)) as [d2 Hd2]; [done|].
  assert (Hq : b && negb std_null_coll && d2 = false).
  { destruct b; [|done]. rewrite (keys_differ_same last' K2 _ (gkey_not_nil _ Hgx) (Hlb eq_refl) HB2) in Hd2. injection Hd2 as <-. by rewrite andb_false_r. }
  assert (Hqf : query_from b d2 w' [] = g_key x) by (unfold query_from; by rewrite Hq).
  destruct (IH b d2 last' g' K2 alt' w' []) as (vs & E & Hvs); try done.
  - intros y Ey. destruct (shows_first _ _ y Hs Hgx); [|done]. rewrite Ew'. by rewrite lookup_app_l by (by eapply lookup_lt_Some).
  - unfold K2. cbn [k_base]. rewrite length_app, length_drop. lia.
  - by apply Hnull.
  - by rewrite Hq.
  - rewrite Hqf, Ean. simpl in Hn. lia.
  - rewrite Hqf, Ean in Hvs. fold K2. rewrite E. cbn [mbind res_bind]. eexists. split; [done|]. by constructor.
Qed.
End query.
