(* ===== verification/Gvspanspec.v ===== *)
(** $GET and $DATA of nodes whose first record has the value $C(0): the value of
    a spanning node is put together from the records with hidden subscripts; one
    that is not spanning has that value; and the key is as before. *)

From stdpp Require Import base list numbers option tactics sorting.
From Stdlib Require Import ZArith Lia.
From S2P Require Import Prelude Subscript Gvsub Gvkey Gdsblk Blkexpand Blksearch Blktail Gvtree Gvread Gvspan Gvop Gvzip Gvdown Gvsib Gvclue Gvspec Gvcode Gvnext Gvopspec Gvquery.

Open Scope Z_scope.

(** The keys of the control record and of the chunks of the node with the key [w
    ++ [0; 0]]. *)
Definition hidden_key (w : list Z) (a b : Z) : list Z := w ++ [0; 2; a; b; 0; 0].
Definition chunk_key (w : list Z) (i : Z) : list Z := hidden_key w (1 + (i + 1) / 255) (1 + (i + 1) mod 255).

Definition hidden_byte (a : Z) : Prop := 1 <= a < 256.

Lemma chunk_bytes i : 0 <= i < 64769 -> hidden_byte (1 + (i + 1) / 255) /\ hidden_byte (1 + (i + 1) mod 255).
Proof.
  intros Hi. unfold hidden_byte. assert (0 <= (i + 1) / 255 < 255) by (split; [apply Z.div_pos; lia|apply Z.div_lt_upper_bound; lia]).
  pose proof (Z.mod_pos_bound (i + 1) 255). lia.
Qed.

(** The state of the key while the chunks are read. *)
Definition holds_hidden (k : gv_key) (w : list Z) (a b : Z) : Prop :=
  k_end k + 1 = zlen (hidden_key w a b) /\ (exists s, k_base k = hidden_key w a b ++ s) /\ hidden_byte a /\ hidden_byte b /\
  gkey_ok (w ++ [0; 0]) /\ (length (hidden_key w a b) <= 1023)%nat.

Lemma hidden_holds k w a b : holds_hidden k w a b -> key_holds k (hidden_key w a b).
Proof.
  intros (H1 & H2 & Ha & Hb & Ht & Hl). split; [done|]. split; [done|]. split; [|done].
  apply (gkey_grow w [0; 2; a; b] [2; a; b] Ht); [|done|by right]. repeat constructor; (lia || apply Ha || apply Hb).
Qed.

Lemma hidden_zlen w a b : zlen (hidden_key w a b) = zlen w + 6.
Proof. unfold hidden_key. by rewrite zlen_app. Qed.

Lemma append_hidden k w : holds_room k (w ++ [0; 0]) 4 -> exists k', APPEND_HIDDEN_SUB k = Ok k' /\ holds_hidden k' w 1 1 /\ k_prev k' = k_prev k /\ k_top k' = k_top k.
Proof.
  intros (H1 & (s & Eb & Hs) & H3 & H4). rewrite zlen_app in H1. destruct s as [|x [|y [|z [|u s] ] ] ]; try (simpl in Hs; lia).
  rewrite length_app in H4. change (zlen [0; 0]) with 2 in H1. cbn [length] in H4.
  unfold APPEND_HIDDEN_SUB, REPLACE_HIDDEN_SUB_TO_LOWEST. rewrite (put_at (set_end k (k_end k + 4)) (w ++ [0]) [0; x; y; z; u] [2; 1; 1; 0; 0] s); [| | |done].
  - cbn [mbind res_bind]. eexists. split; [done|]. split; [|done]. unfold holds_hidden, set_end, with_base. cbn [k_end k_base]. rewrite hidden_zlen.
    split; [lia|]. split; [exists s; unfold hidden_key; by rewrite <- !app_assoc|]. split; [done|]. split; [done|]. split; [done|]. unfold hidden_key. rewrite length_app. simpl. lia.
  - cbn [k_base set_end]. rewrite Eb. by rewrite <- !app_assoc.
  - cbn [k_end set_end]. rewrite zlen_app. change (zlen [0]) with 1. lia.
Qed.

Lemma next_hidden k w a b i : holds_hidden k w a b -> 0 <= i < 64769 ->
  exists k', NEXT_HIDDEN_SUB k i = Ok k' /\ holds_hidden k' w (1 + (i + 1) / 255) (1 + (i + 1) mod 255) /\ k_prev k' = k_prev k /\ k_top k' = k_top k.
Proof.
  intros (H1 & (s & Eb) & Ha & Hb & Ht & Hl) Hi. destruct (chunk_bytes i Hi) as [Ha' Hb']. unfold NEXT_HIDDEN_SUB, u8. unfold hidden_byte in *.
  rewrite !Z.mod_small by lia. rewrite hidden_zlen in H1.
  rewrite (put_at k (w ++ [0]) [2; a; b; 0; 0] _ s); [| | |done].
  - eexists. split; [done|]. split; [|done]. unfold holds_hidden, with_base. cbn [k_end k_base]. rewrite hidden_zlen. split; [lia|].
    split; [exists s; unfold hidden_key; by rewrite <- !app_assoc|]. unfold hidden_byte. split; [lia|]. split; [lia|]. split; [done|].
    unfold hidden_key in *. rewrite length_app in Hl |- *. exact Hl.
  - rewrite Eb. unfold hidden_key. by rewrite <- !app_assoc.
  - rewrite zlen_app. change (zlen [0]) with 1. lia.
Qed.

Lemma restore_hidden k w a b : holds_hidden k w a b ->
  exists k', RESTORE_CURRKEY k (zlen w + 1) = Ok k' /\ holds_room k' (w ++ [0; 0]) 4 /\ k_prev k' = k_prev k /\ k_top k' = k_top k.
Proof.
  intros (H1 & (s & Eb) & Ha & Hb & Ht & Hl). unfold RESTORE_CURRKEY.
  rewrite (put_at (set_end k (zlen w + 1)) w [0; 2] [0; 0] (a :: b :: 0 :: 0 :: s)); [| |lia|done].
  - eexists. split; [done|]. split; [|done]. unfold holds_room, set_end, with_base. cbn [k_end k_base]. rewrite zlen_app. change (zlen [0; 0]) with 2. split; [lia|].
    split; [exists (a :: b :: 0 :: 0 :: s); split; [by rewrite <- app_assoc|simpl; lia]|]. split; [done|]. unfold hidden_key in Hl. rewrite length_app in *. simpl in *. lia.
  - cbn [k_base set_end]. rewrite Eb. unfold hidden_key. by rewrite <- app_assoc.
Qed.

Section span.
Context (blk_size : Z) (t_qread : Z -> option (list Z)) (clue_valid : list srch_blk_status -> bool) (base_diff : Z -> Z).
Context (rt : Z) (depth : nat) (whole : list grec).
Hypothesis Htree : tree_at blk_size t_qread depth false rt [] None whole.
Hypothesis Hdepth : (0 < depth < 7)%nat.
Hypothesis Hbase : forall b, 1024 <= base_diff b.
Context (dollar_tlevel span_nodes_disallowed span_node_absent : bool).

Abbreviation ok := (gvt_ok blk_size t_qread clue_valid rt depth whole).
Abbreviation get2 := (gvcst_get2 blk_size t_qread clue_valid base_diff).

Context (w : list Z).
Hypothesis Hfirst : forall x, w !! 0%nat = Some x -> x < 255.

Lemma get2_node g K n alt : ok g -> holds_room K (w ++ [0; 0]) n -> key_room alt 1024 ->
  exists g', get2 g K alt = Ok (g', alt, value_of (w ++ [0; 0]) whole) /\ ok g'.
Proof.
  intros Hg HK Ha. apply (get2_spec blk_size t_qread clue_valid base_diff rt depth whole Htree Hdepth Hbase K _ (holds_key _ _ _ HK)); [|done|done].
  intros x. destruct w as [|b w']; [intros [= <-]; lia|]. intros [= <-]. by apply Hfirst.
Qed.

Lemma get2_hidden g K a b alt : ok g -> holds_hidden K w a b -> key_room alt 1024 ->
  exists g', get2 g K alt = Ok (g', alt, value_of (hidden_key w a b) whole) /\ ok g'.
Proof.
  intros Hg HK Ha. apply (get2_spec blk_size t_qread clue_valid base_diff rt depth whole Htree Hdepth Hbase K _ (hidden_holds _ _ _ _ HK)); [|done|done].
  intros x. unfold hidden_key. destruct w as [|c w']; [intros [= <-]; lia|]. intros [= <-]. by apply Hfirst.
Qed.

(** The chunks from the [i]th on have the values [ps]. *)
Fixpoint chunks (i : Z) (ps : list (list Z)) : Prop :=
  match ps with [] => True | p :: ps' => value_of (chunk_key w i) whole = Some p /\ chunks (i + 1) ps' end.

Lemma get_pieces_spec ps : forall i gblsize total g k a b alt v, ok g -> holds_hidden k w a b -> key_room alt 1024 -> chunks i ps ->
  0 <= i -> i + zlen ps <= 64769 -> total + zlen (concat ps) <= gblsize ->
  exists g' k' a' b', get_pieces blk_size t_qread clue_valid base_diff (length ps) i gblsize total g k alt v =
      Ok (g', k', alt, v ++ concat ps, i + zlen ps, total + zlen (concat ps)) /\ ok g' /\ holds_hidden k' w a' b' /\ k_prev k' = k_prev k /\ k_top k' = k_top k.
Proof.
  induction ps as [|p ps IH]; intros i gblsize total g k a b alt v Hg Hk Ha Hc H0 Hi Ht; cbn [get_pieces length].
  - exists g, k, a, b. cbn [concat]. rewrite app_nil_r. change (zlen (@nil (list Z))) with 0. change (zlen (@nil Z)) with 0. by rewrite !Z.add_0_r.
  - destruct Hc as [Hp Hc]. rewrite zlen_cons in *. cbn [concat] in *. rewrite zlen_app in *. pose proof (zlen_nonneg ps). pose proof (zlen_nonneg (concat ps)).
    destruct (next_hidden k w a b i Hk) as (k1 & -> & Hk1 & Hp1 & Ht1); [lia|]. cbn [mbind res_bind].
    destruct (get2_hidden g k1 _ _ alt Hg Hk1 Ha) as (g1 & -> & Hg1). fold (chunk_key w i). rewrite Hp. cbn [mbind res_bind]. zif_false.
    destruct (IH (i + 1) gblsize (total + zlen p) g1 k1 _ _ alt (v ++ p) Hg1 Hk1 Ha Hc) as (g' & k' & a' & b' & -> & Hg' & Hk' & Hp' & Ht'); [lia..|].
    exists g', k', a', b'. rewrite <- app_assoc. split; [do 2 f_equal; [f_equal|]; lia|]. split; [done|]. split; [done|]. split; congruence.
Qed.

(** A spanning node: a control record with the number and the total length of
    the chunks. *)
Definition spanning (ctrl : list Z) (ps : list (list Z)) : Prop :=
  value_of (w ++ [0; 0]) whole = Some [0] /\ value_of (hidden_key w 1 1) whole = Some ctrl /\
  zlen ctrl = 6 /\ GET_NSBCTRL ctrl = Ok (zlen ps, zlen (concat ps)) /\ zlen ps <= 64769 /\ chunks 0 ps.

Lemma gvcst_get_spec g K alt ctrl ps : ok g -> holds_room K (w ++ [0; 0]) 4 -> key_room alt 1024 -> span_nodes_disallowed = false -> spanning ctrl ps ->
  exists g' K', gvcst_get blk_size t_qread clue_valid base_diff dollar_tlevel span_nodes_disallowed span_node_absent g K alt =
      Ok (g', K', alt, Some (concat ps)) /\ ok g' /\ holds_room K' (w ++ [0; 0]) 4 /\ k_prev K' = k_prev K /\ k_top K' = k_top K.
Proof.
  intros Hg HK Ha Hd (Hv & Hc & Hcl & Hns & Hn & Hps). unfold gvcst_get. destruct (get2_node g K 4 alt Hg HK Ha) as (g1 & -> & Hg1). cbn [mbind res_bind].
  rewrite Hv. change (is_dummy [0]) with true. cbv iota. unfold IF_SN_DISALLOWED_AND_NO_SPAN_IN_DB. rewrite Hd. cbn [mbind res_bind].
  assert (exists g2, (if negb dollar_tlevel then get2 g1 K alt else Ok (g1, alt, Some [0])) = Ok (g2, alt, Some [0]) /\ ok g2) as (g2 & -> & Hg2).
  { destruct (negb dollar_tlevel); [|by exists g1]. rewrite <- Hv. by apply (get2_node g1 K 4). }
  cbn [mbind res_bind]. destruct (append_hidden K w HK) as (k1 & -> & Hk1 & Hp1 & Ht1). cbn [mbind res_bind].
  destruct (get2_hidden g2 k1 1 1 alt Hg2 Hk1 Ha) as (g3 & -> & Hg3). cbn [mbind res_bind]. rewrite Hc, Hcl. cbn [Z.eqb Pos.eqb]. rewrite Hns. cbn [mbind res_bind].
  replace (Z.to_nat (zlen ps)) with (length ps) by (unfold zlen; lia).
  destruct (get_pieces_spec ps 0 (zlen (concat ps)) 0 g3 k1 1 1 alt [] Hg3 Hk1 Ha Hps) as (g4 & k4 & a & b & -> & Hg4 & Hk4 & Hp4 & Ht4); [lia|lia|lia|].
  cbn [mbind res_bind app]. rewrite !Z.add_0_l, !Z.eqb_refl. cbn [negb orb mbind res_bind].
  assert (He : k_end K = zlen w + 1) by (destruct HK as (He & _); rewrite zlen_app in He; change (zlen [0; 0]) with 2 in He; lia). rewrite He.
  destruct (restore_hidden k4 w a b Hk4) as (k5 & -> & Hk5 & Hp5 & Ht5). cbn [mbind res_bind]. exists g4, k5. split; [done|]. split; [done|]. split; [done|]. split; congruence.
Qed.

(** Other nodes. *)
Lemma gvcst_get_plain g K n alt : ok g -> holds_room K (w ++ [0; 0]) n -> key_room alt 1024 -> value_of (w ++ [0; 0]) whole <> Some [0] ->
  exists g', gvcst_get blk_size t_qread clue_valid base_diff dollar_tlevel span_nodes_disallowed span_node_absent g K alt =
      Ok (g', K, alt, value_of (w ++ [0; 0]) whole) /\ ok g'.
Proof.
  intros Hg HK Ha Hv. unfold gvcst_get. destruct (get2_node g K n alt Hg HK Ha) as (g1 & -> & Hg1). cbn [mbind res_bind]. exists g1.
  destruct (value_of (w ++ [0; 0]) whole) as [d|]; [|done]. assert (is_dummy d = false) as ->; [|done]. unfold is_dummy.
  destruct d as [|x [|y d] ]; [done| |]; [|by rewrite (proj2 (Z.eqb_neq _ _)) by (unfold zlen; simpl; lia)].
  cbn [lookup list_lookup]. rewrite bool_decide_false; [done|]. intros [= ->]. by apply Hv.
Qed.

(** A node with the value $C(0) that has no control record. *)
Lemma gvcst_get_dummy g K alt : ok g -> holds_room K (w ++ [0; 0]) 4 -> key_room alt 1024 -> value_of (w ++ [0; 0]) whole = Some [0] ->
  value_of (hidden_key w 1 1) whole = None ->
  exists g' K', gvcst_get blk_size t_qread clue_valid base_diff dollar_tlevel span_nodes_disallowed span_node_absent g K alt =
      (if span_nodes_disallowed && negb span_node_absent then Err ERR_UNIMPLOP else Ok (g', K', alt, Some [0])) /\
    ok g' /\ holds_room K' (w ++ [0; 0]) 4 /\ k_prev K' = k_prev K.
Proof.
  intros Hg HK Ha Hv Hc. unfold gvcst_get. destruct (get2_node g K 4 alt Hg HK Ha) as (g1 & -> & Hg1). cbn [mbind res_bind].
  rewrite Hv. change (is_dummy [0]) with true. cbv iota. unfold IF_SN_DISALLOWED_AND_NO_SPAN_IN_DB.
  destruct span_nodes_disallowed; [by destruct span_node_absent; exists g1, K|]. cbn [mbind res_bind andb].
  assert (exists g2, (if negb dollar_tlevel then get2 g1 K alt else Ok (g1, alt, Some [0])) = Ok (g2, alt, Some [0]) /\ ok g2) as (g2 & -> & Hg2).
  { destruct (negb dollar_tlevel); [|by exists g1]. rewrite <- Hv. by apply (get2_node g1 K 4). }
  cbn [mbind res_bind]. destruct (append_hidden K w HK) as (k1 & -> & Hk1 & Hp1 & Ht1). cbn [mbind res_bind].
  destruct (get2_hidden g2 k1 1 1 alt Hg2 Hk1 Ha) as (g3 & -> & Hg3). cbn [mbind res_bind]. rewrite Hc. cbn [mbind res_bind].
  assert (He : k_end K = zlen w + 1) by (destruct HK as (He & _); rewrite zlen_app in He; change (zlen [0; 0]) with 2 in He; lia). rewrite He.
  destruct (restore_hidden k1 w 1 1 Hk1) as (k5 & -> & Hk5 & Hp5 & Ht5). cbn [mbind res_bind]. exists g3, k5. split; [done|]. split; [done|]. split; [done|]. congruence.
Qed.

(** ** $DATA *)

Lemma after_all t rs : Forall (fun x => gvlt t (g_key x)) rs -> after t rs = rs.
Proof. unfold after. induction 1 as [|x rs Hx Hrs IH]; [done|]. rewrite filter_cons, decide_True by done. by rewrite IH. Qed.

Lemma after_none t rs : Forall (before t) rs -> after t rs = [].
Proof.
  unfold after. induction 1 as [|x rs [_ Hx] Hrs IH]; [done|]. rewrite filter_cons, decide_False; [done|]. intros H. destruct (gvlt_irrefl t). by transitivity (g_key x).
Qed.

(** The descendants of a node come right after it. *)
Lemma descendants_next K : key_holds K (w ++ [0; 0]) ->
  existsb (fun r => descendant (w ++ [0; 0]) (g_key r)) whole =
  match after (w ++ [0; 0]) whole with x :: _ => descendant (w ++ [0; 0]) (g_key x) | [] => false end.
Proof.
  intros HK. pose proof (whole_leaf _ _ _ _ _ Htree) as Hleaf. destruct (split_exists (w ++ [0; 0]) whole) as (U & R & E & Hs). rewrite E in Hleaf |- *.
  rewrite (descendant_next depth Hdepth K _ HK U R Hs Hleaf). unfold after. rewrite filter_app. fold (after (w ++ [0; 0]) U) (after (w ++ [0; 0]) R).
  destruct Hs as [HU HR]. rewrite (after_none _ U HU). cbn [app]. destruct R as [|x R]; [done|]. destruct Hleaf as [Hok Hsort].
  apply Forall_app in Hok as [_ [[Hgx _] _]%Forall_cons]. unfold keys_sorted in Hsort. rewrite fmap_app in Hsort. apply StronglySorted_app in Hsort as (_ & _ & Hsort).
  rewrite fmap_cons in Hsort. apply StronglySorted_inv in Hsort as [_ Hx]. rewrite Forall_fmap in Hx. case_decide as Ex.
  - unfold after. rewrite filter_cons, decide_False by (rewrite Ex; apply gvlt_irrefl). fold (after (w ++ [0; 0]) R). rewrite after_all; [done|].
    rewrite <- Ex. exact Hx.
  - assert (Hlt : gvlt (w ++ [0; 0]) (g_key x)).
    { destruct (gvlt_cases (w ++ [0; 0]) (g_key x)) as [?|[?|H]]; [done|by destruct Ex|]. destruct HR. split; [by apply gkey_not_nil|done]. }
    rewrite after_all; [done|]. constructor; [done|]. eapply Forall_impl; [exact Hx|]. intros y Hy. by transitivity (g_key x).
Qed.

(** memcmp with the next key tells whether it is that of a descendant, whatever
    follows that key in its buffer. *)
Lemma memcmp_descendant x s1 sx : gkey_ok (w ++ [0; 0]) -> gkey_ok x -> gvlt (w ++ [0; 0]) x ->
  lexcmp (take (length w + 1) ((w ++ [0; 1; 0; 0]) ++ s1)) (take (length w + 1) (x ++ sx)) = Eq <-> descendant (w ++ [0; 0]) x = true.
Proof.
  intros Ht Hx Hlt. assert (Et : take (length w + 1) ((w ++ [0; 1; 0; 0]) ++ s1) = take (length w + 1) (w ++ [0; 0])).
  { rewrite <- app_assoc, !(take_app_ge w) by lia. by replace (length w + 1 - length w)%nat with 1%nat by lia. }
  assert (El : length (take (length w + 1) (w ++ [0; 0])) = (length w + 1)%nat) by (rewrite length_take, length_app; simpl; lia).
  rewrite Et. unfold descendant. rewrite andb_true_iff, !bool_decide_eq_true. replace (length (w ++ [0%Z; 0%Z]) - 1)%nat with (length w + 1)%nat by (rewrite length_app; simpl; lia). split.
  - intros E%lexcmp_eq. split; [intros ->; by destruct (gvlt_irrefl (w ++ [0; 0]))|]. rewrite E. symmetry. apply take_app_le.
    destruct Hx as (_ & m & Hm & _ & _ & E0 & E1 & _), Ht as (_ & n & Hn & _ & _ & _ & _ & Hi). rewrite length_app in Hn. simpl in Hn.
    destruct (decide (length w + 1 <= length x)%nat) as [|Hshort]; [done|exfalso]. apply (Hi m); [lia|].
    assert (Hlook : forall i, (i < length x)%nat -> (w ++ [0; 0]) !! i = x !! i).
    { intros i Hlt'. rewrite <- (lookup_take_lt (w ++ [0; 0]) (length w + 1)) by lia. rewrite E, lookup_take_lt by lia. by apply lookup_app_l. }
    rewrite !Hlook by lia. done.
  - intros [_ E]. rewrite <- E, take_app_le; [apply lexcmp_refl|]. apply (f_equal length) in E. rewrite El, length_take in E. lia.
Qed.

(** No hidden record comes right after the node. *)
Definition next_visible : Prop := match after (w ++ [0; 0]) whole with x :: _ => visible (g_key x) | [] => True end.

Lemma gvcst_data_dummy g K alt : ok g -> holds_room K (w ++ [0; 0]) 2 -> key_room alt 1024 -> value_of (w ++ [0; 0]) whole = Some [0] ->
  span_nodes_disallowed = false -> next_visible ->
  exists g' K' alt', gvcst_data blk_size t_qread clue_valid base_diff dollar_tlevel span_nodes_disallowed span_node_absent g K alt =
      Ok (g', K', alt', 1 + if existsb (fun r => descendant (w ++ [0; 0]) (g_key r)) whole then 10 else 0) /\
    ok g' /\ holds_room K' (w ++ [0; 0]) 2 /\ k_prev K' = k_prev K.
Proof.
  intros Hg HK Ha Hv Hsn Hvis. pose proof (holds_key _ _ _ HK) as Hk. rewrite (descendants_next K Hk).
  assert (Hb : forall x, (w ++ [0; 0]) !! 0%nat = Some x -> x < 255).
  { intros x. destruct w as [|b w']; [intros [= <-]; lia|]. intros [= <-]. by apply Hfirst. }
  assert (Hd : forall g0, ok g0 -> exists g1, gvcst_data2 blk_size t_qread clue_valid base_diff span_nodes_disallowed span_node_absent g0 K alt = Ok (g1, alt, -1) /\ ok g1).
  { intros g0 Hg0. destruct (data2_spec blk_size t_qread clue_valid base_diff rt depth whole Htree Hdepth Hbase K _ Hk Hb span_nodes_disallowed span_node_absent g0 alt Hg0 Ha)
      as (g1 & -> & Hok); [by rewrite Hsn|]. exists g1. split; [|done]. unfold data_of. by rewrite Hv, Hsn. }
  unfold gvcst_data. destruct (Hd g Hg) as (g1 & -> & Hg1). cbn [mbind res_bind Z.eqb Pos.eqb negb].
  assert (exists g2, (if negb dollar_tlevel then gvcst_data2 blk_size t_qread clue_valid base_diff span_nodes_disallowed span_node_absent g1 K alt else Ok (g1, alt, -1)) = Ok (g2, alt, -1) /\ ok g2)
    as (g2 & -> & Hg2) by (destruct (negb dollar_tlevel); [by apply Hd|by exists g1]).
  cbn [mbind res_bind Z.eqb Pos.eqb]. destruct (increment_query K w HK) as (k1 & -> & Hk1 & Hp1 & k2 & Ek2 & Hk2 & Hp2 & _). cbn [mbind res_bind].
  assert (Hb1 : forall x, (w ++ [0; 1; 0; 0]) !! 0%nat = Some x -> x < 255).
  { intros x. destruct w as [|b w']; [intros [= <-]; lia|]. intros [= <-]. by apply Hfirst. }
  destruct (query2_spec blk_size t_qread clue_valid base_diff rt depth whole Htree Hdepth Hbase k1 _ Hk1 Hb1 g2 alt Hg2 Ha) as (g3 & alt' & E & Hok3 & Hf).
  pose proof HK as (He & _ & Hgk & Hlen). pose proof Hk1 as (He1 & (s1 & Eb1) & _ & Hlen1). rewrite zlen_app in He, He1. change (zlen [0; 0]) with 2 in He. change (zlen [0; 1; 0; 0]) with 4 in He1.
  assert (Hrest : exists K', RESTORE_CURRKEY k1 (k_end K) = Ok K' /\ holds_room K' (w ++ [0; 0]) 2 /\ k_prev K' = k_prev K).
  { unfold RESTORE_CURRKEY. rewrite (put_at (set_end k1 (k_end K)) w [0; 1] [0; 0] (0 :: 0 :: s1)); [|cbn [k_base set_end]; rewrite Eb1; by rewrite <- app_assoc|lia|done].
    eexists. split; [done|]. split; [|by cbn]. split; [cbn [k_end set_end with_base]; rewrite zlen_app; change (zlen [0; 0]) with 2; lia|].
    split; [exists (0 :: 0 :: s1); cbn [k_base with_base]; split; [by rewrite <- app_assoc|simpl; lia]|done]. }
  destruct Hrest as (K' & Hres & HK' & Hp').
  unfold gvcst_query. rewrite E. cbn [mbind res_bind]. rewrite (from_after w whole Hgk (whole_leaf _ _ _ _ _ Htree)) in *. unfold next_visible in Hvis.
  destruct (after (w ++ [0; 0]) whole) as [|x R] eqn:Ea; cbn [negb mbind res_bind].
  - rewrite Hres. cbn [mbind res_bind]. by exists g3, K', alt'.
  - pose proof Hf as (Hex & Hbx & _). rewrite (check_visible alt' (g_key x) (conj Hex Hbx) Hvis). destruct Hbx as [sx Ebx]. cbn [mbind res_bind negb].
    assert (Hxw : x ∈ whole) by (eapply (proj1 (list_elem_of_filter _ _ _)); unfold after in Ea; rewrite Ea; by left).
    assert (Hxt : gvlt (w ++ [0; 0]) (g_key x)) by (assert (Hin : x ∈ after (w ++ [0; 0]) whole) by (rewrite Ea; by left); by apply list_elem_of_filter in Hin as [? _]).
    pose proof (whole_leaf _ _ _ _ _ Htree) as [Hrec _]. rewrite Forall_forall in Hrec. destruct (Hrec x Hxw) as [Hgx _]. pose proof Hf as (_ & _ & _ & _ & Hzx).
    unfold key_room in Ha. rewrite memcmp_take; [|unfold zlen in *; lia|rewrite Eb1; unfold zlen in *; rewrite !length_app; simpl; lia|unfold zlen in *; rewrite length_app in Hlen; simpl in Hlen; lia].
    cbn [mbind res_bind]. rewrite Hres. cbn [mbind res_bind]. exists g3, K', alt'. split; [|done]. do 2 f_equal.
    rewrite Eb1, Ebx. replace (Z.to_nat (k_end K)) with (length w + 1)%nat by (unfold zlen in *; lia).
    pose proof (memcmp_descendant (g_key x) s1 sx Hgk Hgx Hxt) as Hm. destruct (descendant _ _); [by rewrite (proj2 Hm)|].
    destruct (lexcmp _ _); [by discriminate (proj1 Hm eq_refl)|done|done].
Qed.

End span.
