(* ===== verification/Gvopprops.v ===== *)
(** The properties of the operators on globals: $GET, $DATA, $ORDER, $ZPREVIOUS and
    $QUERY of a node, from any state that searches leave behind, in the collating
    order of the subscripts and in their text. *)

From stdpp Require Import base list numbers option tactics sorting.
From Stdlib Require Import ZArith Lia.
From S2P Require Import Prelude Mval Numstr Subscript Gvsub Gvkey Gdsblk Blkexpand Gvexample Blksearch Blktail Blkprev Gvtree Gvread Gvspan Gvop Gvzip Gvdown Gvsib Gvclue Gvspec Gvprops Gvcode Gvnext Gvopspec Gvspanspec Gvquery.

Open Scope Z_scope.

(** * $GET and $DATA *)

Section values.
Context (blk_size : Z) (t_qread : Z -> option (list Z)) (clue_valid : list srch_blk_status -> bool) (base_diff : Z -> Z).
Context (rt : Z) (depth : nat) (whole : list grec).
(** A global whose tree has the records [whole]. *)
Hypothesis Htree : tree_at blk_size t_qread depth false rt [] None whole.
Hypothesis Hdepth : (0 < depth < 7)%nat.
Hypothesis Hbase : forall b, 1024 <= base_diff b.
Hypothesis Hrt : rt <> 0.
Context (dollar_tlevel span_node_absent null_never : bool).

Abbreviation ok := (gvt_ok blk_size t_qread clue_valid rt depth whole).

(** A key that ends with two null bytes, and its first byte. *)
Context (w : list Z).
Hypothesis Hfirst : forall x, w !! 0%nat = Some x -> x < 255.

(** C18: $GET of a node that is not spanning, in a database of one region: of a
    node with a value, the value, also when it is $C(0), the value of the first
    record of a spanning node, but the node has no control record; of one
    without a value, the error GVUNDEF, or the empty string after VIEW
    "NOUNDEF"; and for a null subscript, where the region does not have them,
    the error NULSUBSC. (A server without spanning nodes does not look for the
    control record, and refuses the value $C(0) in a database that has had
    spanning nodes.) The key is again that of the node. *)
Theorem op_gvget_value sn undef_inhibit gv_last_subsc_null g K alt :
  ok g -> holds_room K (w ++ [0; 0]) 4 -> key_room alt 1024 ->
  (value_of (w ++ [0; 0]) whole = Some [0] -> value_of (hidden_key w 1 1) whole = None) ->
  exists g' K', ok g' /\ holds_room K' (w ++ [0; 0]) 4 /\ k_prev K' = k_prev K /\ (value_of (w ++ [0; 0]) whole <> Some [0] -> K' = K) /\
    op_gvget blk_size t_qread clue_valid base_diff dollar_tlevel sn span_node_absent null_never gv_last_subsc_null undef_inhibit g K alt =
      if gv_last_subsc_null && null_never then Err ERR_NULSUBSC
      else match value_of (w ++ [0; 0]) whole with
           | Some v => if bool_decide (v = [0]) && (sn && negb span_node_absent) then Err ERR_UNIMPLOP else Ok (g', K', alt, v)
           | None => if undef_inhibit then Ok (g', K', alt, []) else Err ERR_GVUNDEF
           end.
Proof.
  intros Hg HK Ha Hctl. unfold op_gvget. pose proof Hg as (Hr & _). rewrite Hr, (proj2 (Z.eqb_neq rt 0) Hrt).
  destruct (decide (value_of (w ++ [0; 0]) whole = Some [0])) as [Hv|Hv].
  - destruct (gvcst_get_dummy blk_size t_qread clue_valid base_diff rt depth whole Htree Hdepth Hbase dollar_tlevel sn span_node_absent w Hfirst g K alt Hg HK Ha Hv (Hctl Hv))
      as (g' & K' & E & Hok & HK' & Hp). exists g', K'. split; [done|]. split; [done|]. split; [done|]. split; [done|]. rewrite E, Hv. cbn [bool_decide].
    rewrite (bool_decide_true ([0] = [0])) by done. cbn [andb]. destruct (gv_last_subsc_null && null_never); [done|]. by destruct (sn && negb span_node_absent).
  - destruct (gvcst_get_plain blk_size t_qread clue_valid base_diff rt depth whole Htree Hdepth Hbase dollar_tlevel sn span_node_absent w Hfirst g K 4 alt Hg HK Ha Hv)
      as (g' & E & Hok). exists g', K. split; [done|]. split; [done|]. split; [done|]. split; [done|]. rewrite E. cbn [mbind res_bind].
    destruct (gv_last_subsc_null && null_never); [done|]. destruct (value_of _ _) as [v|]; [|done]. by rewrite bool_decide_false by congruence.
Qed.

(** C13: $GET of a spanning node gives the values of all its chunks, one after
    the other, and leaves the key of the node as it was, without the hidden
    subscript. *)
Theorem op_gvget_spanning undef_inhibit g K alt ctrl ps :
  ok g -> holds_room K (w ++ [0; 0]) 4 -> key_room alt 1024 -> spanning whole w ctrl ps ->
  exists g' K', op_gvget blk_size t_qread clue_valid base_diff dollar_tlevel false span_node_absent null_never false undef_inhibit g K alt =
      Ok (g', K', alt, concat ps) /\ ok g' /\ holds_room K' (w ++ [0; 0]) 4 /\ k_prev K' = k_prev K.
Proof.
  intros Hg HK Ha Hs. unfold op_gvget. pose proof Hg as (Hr & _). rewrite Hr, (proj2 (Z.eqb_neq rt 0) Hrt). cbn [andb].
  destruct (gvcst_get_spec blk_size t_qread clue_valid base_diff rt depth whole Htree Hdepth Hbase dollar_tlevel false span_node_absent w Hfirst g K alt ctrl ps Hg HK Ha eq_refl Hs)
    as (g' & K' & -> & Hok & HK' & Hp & _). cbn [mbind res_bind]. by exists g', K'.
Qed.

(** C12: $DATA of a node that is not spanning gives 1 for a value and 10 for
    descendants, 11 for both and 0 for neither, also when the descendants begin
    in the next block, and also for the value $C(0), which the first record of a
    spanning node has too, when the record after the node is not a hidden one (a
    server without spanning nodes needs a database that has had none then); the
    key is again that of the node. For a null subscript, where the region does
    not have them, the error NULSUBSC. *)
Theorem op_gvdata_value sn gv_last_subsc_null g K alt :
  ok g -> holds_room K (w ++ [0; 0]) 2 -> key_room alt 1024 ->
  (value_of (w ++ [0; 0]) whole = Some [0] -> next_visible whole w /\ (sn = true -> span_node_absent = true)) ->
  exists g' K' alt', ok g' /\ holds_room K' (w ++ [0; 0]) 2 /\ k_prev K' = k_prev K /\ (value_of (w ++ [0; 0]) whole <> Some [0] -> K' = K /\ alt' = alt) /\
    op_gvdata blk_size t_qread clue_valid base_diff dollar_tlevel sn span_node_absent null_never gv_last_subsc_null g K alt =
      if gv_last_subsc_null && null_never then Err ERR_NULSUBSC
      else Ok (g', K', alt', (if value_of (w ++ [0; 0]) whole is Some _ then 1 else 0) +
        if existsb (fun r => descendant (w ++ [0; 0]) (g_key r)) whole then 10 else 0).
Proof.
  intros Hg HK Ha Hns. unfold op_gvdata. pose proof Hg as (Hr & _). rewrite Hr, (proj2 (Z.eqb_neq rt 0) Hrt).
  assert (Hb : forall x, (w ++ [0; 0]) !! 0%nat = Some x -> x < 255).
  { intros x. destruct w as [|b w']; [intros [= <-]; lia|]. intros [= <-]. by apply Hfirst. }
  destruct (decide (value_of (w ++ [0; 0]) whole = Some [0] /\ sn = false)) as [[Hv Hsn]|Hv].
  - destruct (Hns Hv) as [Hvis _].
    destruct (gvcst_data_dummy blk_size t_qread clue_valid base_diff rt depth whole Htree Hdepth Hbase dollar_tlevel sn span_node_absent w Hfirst g K alt Hg HK Ha Hv Hsn Hvis)
      as (g' & K' & alt' & -> & Hok & HK' & Hp). exists g', K', alt'. split; [done|]. split; [done|]. split; [done|]. split; [done|]. rewrite Hv. cbn [mbind res_bind].
    destruct (gv_last_subsc_null && null_never); [done|]. by destruct (existsb _ _).
  - assert (Hpl : data_of (w ++ [0; 0]) sn whole = (if value_of (w ++ [0; 0]) whole is Some _ then 1 else 0) + if existsb (fun r => descendant (w ++ [0; 0]) (g_key r)) whole then 10 else 0).
    { unfold data_of. destruct (value_of _ _) as [v|]; [|done]. destruct (decide (v = [0])) as [->|Hn]; [|by rewrite bool_decide_false by done].
      destruct sn; [by rewrite andb_false_r|by destruct Hv]. }
    unfold gvcst_data.
    destruct (data2_spec blk_size t_qread clue_valid base_diff rt depth whole Htree Hdepth Hbase K _ (holds_key _ _ _ HK) Hb sn span_node_absent g alt Hg Ha) as (g' & -> & Hok);
      [by intros E; apply Hns|].
    exists g', K, alt. split; [done|]. split; [done|]. split; [done|]. split; [done|]. rewrite Hpl. cbn [mbind res_bind].
    destruct (gv_last_subsc_null && null_never); [done|]. by destruct (value_of _ _), (existsb _ _).
Qed.
End values.

(** * $ORDER and $ZPREVIOUS *)

Section siblings.
Context (blk_size : Z) (t_qread : Z -> option (list Z)) (clue_valid : list srch_blk_status -> bool) (base_diff : Z -> Z).
Context (rt : Z) (depth : nat) (whole : list grec).
Hypothesis Htree : tree_at blk_size t_qread depth false rt [] None whole.
Hypothesis Hdepth : (0 < depth < 7)%nat.
Hypothesis Hbase : forall b, 1024 <= base_diff b.
Hypothesis Hrt : rt <> 0.
Context (std_null_coll : bool) (cl : collation) (isctl : Z -> bool) (name : list Z).
Hypothesis Hcl : no_collation cl.
Hypothesis Hname : nonnull name.
Hypothesis Hfirst : forall x, name !! 0%nat = Some x -> x < 255.
(** Every node has subscripts that mval2subsc stored. *)
Hypothesis Hnodes : nodes_stored whole std_null_coll cl name.

(** The subscripts before the last, and the last with its value. *)
Context (ps : list (list Z)) (l0 : list Z) (w0 : mval).
Hypothesis Hps : Forall (is_stored std_null_coll cl) ps.
Hypothesis Hl0 : stored cl std_null_coll l0 w0.

Abbreviation ok := (gvt_ok blk_size t_qread clue_valid rt depth whole).
Abbreviation P := (key_prefix name ps).

(** C2: $ORDER of a node of a global in one region, whose nodes are stored
    without collation and none of which is a spanning node: the text of the
    least subscript, in collating order, above the given one among the nodes
    with the same subscripts before it, with a value or with descendants, and
    the empty string when there is none; from a null subscript, which starts a
    loop, without standard null collation, the text of the least of all
    subscripts, a null one among them, which comes before other strings;
    gv_currkey is again the key of the given node, although the search was for
    another one. *)
Theorem op_gvorder_next dollar_tlevel sn span_node_absent gv_last_subsc_null g K alt :
  ok g -> holds_room K (P ++ l0 ++ [0; 0]) 1 -> k_prev K = zlen P -> key_room alt 1024 -> (gv_last_subsc_null = true -> l0 = null_code std_null_coll) ->
  exists g' K' alt' v, op_gvorder blk_size t_qread clue_valid base_diff dollar_tlevel sn span_node_absent std_null_coll cl isctl
      gv_last_subsc_null g K alt = Ok (g', K', alt', v) /\ ok g' /\ holds_room K' (P ++ l0 ++ [0; 0]) 1 /\ k_prev K' = zlen P /\
    next_text whole std_null_coll cl name ps (if gv_last_subsc_null && negb std_null_coll then None else Some w0) v.
Proof. intros Hg HK Hp Ha Hn. by apply op_gvorder_spec. Qed.

(** C11: $ZPREVIOUS of a node of a global in one region, whose nodes are stored
    without collation and none of which is a spanning node: the text of the
    greatest subscript, in collating order, below the given one, and the empty
    string when there is none; from a null subscript, the text of the greatest
    of all subscripts, for which the search is for a key of bytes 255 as long as
    a key can be: this needs a region whose keys, with the padding, have at most
    1023 bytes, a gv_currkey that has room for such a key, and keys within the
    size of the region. *)
Theorem op_zprevious_prev max_key_size gv_last_subsc_null g K alt :
  ok g -> holds_room K (P ++ l0 ++ [0; 0]) 1 -> k_prev K = zlen P -> key_room alt 1024 -> (gv_last_subsc_null = true -> l0 = null_code std_null_coll) ->
  (gv_last_subsc_null = true -> DBKEYSIZE max_key_size <= 1023 /\ DBKEYSIZE max_key_size <= k_top K <= zlen (k_base K) /\
     k_end K < max_key_size /\ Forall (fun x => zlen (g_key x) <= max_key_size) whole) ->
  exists g' K' alt' v, op_zprevious blk_size t_qread clue_valid base_diff std_null_coll max_key_size cl isctl gv_last_subsc_null (zlen name) g K alt = Ok (g', K', alt', v) /\
    ok g' /\ key_holds K' (P ++ l0 ++ [0; 0]) /\ k_prev K' = zlen P /\ (gv_last_subsc_null = false -> K' = K) /\
    prev_text whole std_null_coll cl name ps (if gv_last_subsc_null then None else Some w0) v.
Proof. intros Hg HK Hp Ha Hn Hz. by apply (op_zprevious_spec blk_size t_qread clue_valid base_diff rt depth whole Htree Hdepth Hbase Hrt std_null_coll max_key_size cl isctl Hcl name Hname Hnodes ps Hps Hfirst l0 w0). Qed.
End siblings.

(** * $QUERY *)

Section walk.
Context (blk_size : Z) (t_qread : Z -> option (list Z)) (clue_valid : list srch_blk_status -> bool) (base_diff : Z -> Z).
Context (rt : Z) (depth : nat) (whole : list grec).
Hypothesis Htree : tree_at blk_size t_qread depth false rt [] None whole.
Hypothesis Hdepth : (0 < depth < 7)%nat.
Hypothesis Hbase : forall b, 1024 <= base_diff b.
Hypothesis Hrt : rt <> 0.
Context (sn span_node_absent std_null_coll : bool) (cl : collation) (isctl : Z -> bool) (name : list Z).
Hypothesis Hcl : no_collation cl.
Hypothesis Hname : nonnull name.
Hypothesis Hfirst : forall x, name !! 0%nat = Some x -> 1 < x < 255.
Hypothesis Htexts : texts_ok whole std_null_coll cl isctl name.

Abbreviation ok := (gvt_ok blk_size t_qread clue_valid rt depth whole).

Lemma null_start gl d (Q : Prop) w ps : (gl = true -> w ++ [0; 0] = key_prefix name ps ++ null_code std_null_coll ++ [0; 0] /\ Q) ->
  gl && negb std_null_coll && d = true -> w ++ [0; 0] = key_prefix name ps ++ [255; 0; 0] /\ Q.
Proof. intros H [[E1 E2%negb_true_iff]%andb_prop _]%andb_prop. destruct (H E1) as [E HQ]. rewrite E. unfold null_code. by rewrite E2. Qed.

(** C19: $QUERY of a node of a global in one region, whose nodes are stored
    without collation and none of which is a spanning node: the text of the next
    node with a value, whatever its level, and the empty string after the last
    one; gv_currkey is as before, and gv_altkey is the key of the node found.
    From a node whose last subscript is null, without standard null collation,
    and that is not the one the last $QUERY gave, the search starts right after
    the node above ([query_from]): the null subscript stands for a place before
    all subscripts then. *)
Theorem op_gvquery_next gv_last_subsc_null differs g K alt last w ps :
  ok g -> holds_room K (w ++ [0; 0]) 2 -> (forall x, w !! 0%nat = Some x -> x < 255) -> key_room alt 1024 -> key_room last 1024 ->
  Forall (is_stored std_null_coll cl) ps -> keys_differ last K = Ok differs ->
  (gv_last_subsc_null = true -> w ++ [0; 0] = key_prefix name ps ++ null_code std_null_coll ++ [0; 0] /\ k_prev K = zlen (key_prefix name ps)) ->
  exists g' K' alt' last' v, op_gvquery blk_size t_qread clue_valid base_diff sn span_node_absent std_null_coll cl isctl gv_last_subsc_null last g K alt =
      Ok (g', K', alt', last', v) /\ ok g' /\ holds_room K' (w ++ [0; 0]) 2 /\ k_prev K' = k_prev K /\
    match after (query_from std_null_coll name gv_last_subsc_null differs w ps) whole with
    | [] => v = []
    | x :: _ => node_shows std_null_coll cl isctl name (g_key x) v /\ buffer_is alt' (g_key x)
    end.
Proof.
  intros Hg HK Hx Ha Hl Hps Hd Hn. destruct (op_gvquery_spec blk_size t_qread clue_valid base_diff rt depth whole Htree Hdepth Hbase Hrt sn span_node_absent std_null_coll cl isctl Hcl
    name Hname Hfirst Htexts gv_last_subsc_null differs g K alt last w ps Hg HK Hx Ha Hl (stored_shapes std_null_coll cl Hcl ps Hps) Hd) as (g' & K' & alt' & last' & v & E & Hok & HK' & Hp & _ & _ & _ & Hf).
  { by apply null_start. }
  exists g', K', alt', last', v. split; [done|]. split; [done|]. split; [done|]. split; [done|]. destruct (after _ _); [done|]. by destruct Hf as (_ & ? & ? & _).
Qed.

(** C5: a walk with $QUERY, each answer the name of the next call, through a
    global in one region, whose nodes are stored without collation and none of
    which is a spanning node, from any key, ends, and visits the text of every
    node after the start of its first search, those with null subscripts
    included, each once and in the order of the keys.  The start is the key
    itself, or, as for $QUERY, the node above from a null subscript that was not
    the answer of the last $QUERY. *)
Theorem query_walk_visits n gv_last_subsc_null differs last g K alt w ps :
  ok g -> holds_room K (w ++ [0; 0]) 2 -> (forall x, w !! 0%nat = Some x -> x < 255) -> 1024 <= zlen (k_base K) ->
  key_room alt 1024 -> key_room last 1024 -> Forall (is_stored std_null_coll cl) ps ->
  last_subsc_is_null K = Ok gv_last_subsc_null -> keys_differ last K = Ok differs ->
  (gv_last_subsc_null = true -> w ++ [0; 0] = key_prefix name ps ++ null_code std_null_coll ++ [0; 0] /\ k_prev K = zlen (key_prefix name ps)) ->
  (length whole < n)%nat ->
  exists vs, query_walk blk_size t_qread clue_valid base_diff sn span_node_absent std_null_coll cl isctl n last g K alt = Ok vs /\
    Forall2 (fun x v => node_shows std_null_coll cl isctl name (g_key x) v) (after (query_from std_null_coll name gv_last_subsc_null differs w ps) whole) vs.
Proof.
  intros Hg HK Hx Hz Ha Hl Hps Hnull Hd Hn Hlen. apply (query_walk_spec blk_size t_qread clue_valid base_diff rt depth whole); try done.
  - by apply (stored_shapes std_null_coll cl Hcl).
  - by apply null_start.
  - unfold after. eapply Nat.le_lt_trans; [apply length_filter|done].
Qed.
End walk.

(** * The small global, and one with a spanning node *)

Definition ex_nodes : list grec := ex_recs1 ++ ex_recs2.
Definition ex_no_ctl : Z -> bool := fun _ => false.
Definition ex_one : mval := mk_mval 3 0 0 0 1000 [].
Definition ex_two : mval := mk_mval 3 0 0 0 2000 [].
Definition ex_three : mval := mk_mval 3 0 0 0 3000 [].

Lemma ex_stored v l : mval2subsc (mk_globals false false) ex_cl v Subscript.ex_key false = Ok (v, appended Subscript.ex_key l, true) -> l = last_subsc (appended Subscript.ex_key l) -> mv_str v = [] -> bool_decide (num_ok v) = true -> stored ex_cl false l v.
Proof.
  intros E El Es Hn. split; [by exists (mk_globals false false), v, Subscript.ex_key, (appended Subscript.ex_key l)|]. split; [|by rewrite Es].
  split; [rewrite Es; constructor|]. right. by apply bool_decide_eq_true in Hn.
Qed.

Lemma ex_stored1 : stored ex_cl false [191; 17] ex_one.
Proof. by apply ex_stored; vm_compute. Qed.

Lemma ex_stored2 : stored ex_cl false [191; 33] ex_two.
Proof. by apply ex_stored; vm_compute. Qed.

Lemma ex_stored3 : stored ex_cl false [191; 49] ex_three.
Proof. by apply ex_stored; vm_compute. Qed.

Lemma ex_is_stored l v : stored ex_cl false l v -> is_stored false ex_cl l.
Proof. by exists v. Qed.

Lemma ex_nodes_stored : nodes_stored ex_nodes false ex_cl [97].
Proof.
  pose proof (ex_is_stored _ _ ex_stored1) as H1. pose proof (ex_is_stored _ _ ex_stored2) as H2. pose proof (ex_is_stored _ _ ex_stored3) as H3.
  unfold nodes_stored, ex_nodes, ex_recs1, ex_recs2. cbn [app].
  repeat apply Forall_cons_2; [exists [[191; 17]]|exists [[191; 17]; [191; 33] ]|exists [[191; 33]]|exists [[191; 49]]|constructor]; by repeat constructor.
Qed.

Lemma ex_holds_room t prev n : gkey_okb t = true -> (length t + n <=? 1023)%nat = true -> holds_room (ex_key t prev) t n.
Proof.
  intros H1 H2%Nat.leb_le. split; [unfold ex_key; cbn; lia|]. split; [|split; [by apply gkey_okb_ok|done] ].
  eexists. split; [done|]. rewrite length_replicate. lia.
Qed.

Lemma ex_name x : [97] !! 0%nat = Some x -> 1 < x < 255.
Proof. intros [= <-]. lia. Qed.

Lemma ex_nonnull : nonnull [97].
Proof. by repeat constructor. Qed.

Lemma ex_texts : texts_ok ex_nodes false ex_cl ex_no_ctl [97].
Proof.
  assert (H1 : exists w, stored ex_cl false [191; 17] w /\ zwr_of ex_no_ctl w = Ok [49]) by (exists ex_one; split; [apply ex_stored1|by vm_compute]).
  assert (H2 : exists w, stored ex_cl false [191; 33] w /\ zwr_of ex_no_ctl w = Ok [50]) by (exists ex_two; split; [apply ex_stored2|by vm_compute]).
  assert (H3 : exists w, stored ex_cl false [191; 49] w /\ zwr_of ex_no_ctl w = Ok [51]) by (exists ex_three; split; [apply ex_stored3|by vm_compute]).
  unfold texts_ok, ex_nodes, ex_recs1, ex_recs2. cbn [app].
  repeat apply Forall_cons_2; [| | | |constructor]; (split; [by apply Nat.leb_le|eexists]).
  - exists [[191; 17]], [[49]]. split; [done|]. split; [by repeat constructor|]. by split.
  - exists [[191; 17]; [191; 33] ], [[49]; [50] ]. split; [done|]. split; [by repeat constructor|]. by split.
  - exists [[191; 33]], [[50]]. split; [done|]. split; [by repeat constructor|]. by split.
  - exists [[191; 49]], [[51]]. split; [done|]. split; [by repeat constructor|]. by split.
Qed.

(** A global with the value $C(0) in ^a(1), and with a null subscript: ^a(1,2)
    and ^a(""). *)
Definition ex_null : mval := mk_mval 12 0 0 0 0 [].
Definition ex_nulls : list grec :=
  [mk_grec [97; 0; 191; 17; 0; 0] [0]; mk_grec [97; 0; 191; 17; 0; 191; 33; 0; 0] [122]; mk_grec [97; 0; 255; 0; 0] [113] ].

Definition ex_nulls_qread (b : Z) : option (list Z) :=
  if b =? 2 then Some (encode_blk 1 [mk_grec [] [3; 0; 0; 0] ] ++ replicate 1023 0) else if b =? 3 then Some (encode_blk 0 ex_nulls) else None.

Lemma ex_nulls_tree : tree_at 4096 ex_nulls_qread 1 false 2 [] None ex_nulls.
Proof.
  exists (encode_blk 1 [mk_grec [] [3; 0; 0; 0] ] ++ replicate 1023 0), [mk_grec [] [3; 0; 0; 0] ].
  split; [done|]. split; [by apply ex_blk; by_compute|]. split; [by_compute|]. exists 3. split; [done|].
  exists (encode_blk 0 ex_nulls), ex_nulls. split; [done|].
  split; [rewrite <- (app_nil_r (encode_blk _ _)); by apply ex_blk; by_compute|]. split; [done|]. split; [|done].
  repeat constructor; by_compute.
Qed.

Lemma ex_nulls_ok : gvt_ok 4096 ex_nulls_qread (fun _ => true) 2 1 ex_nulls ex_gvt.
Proof. split; [done|]. split; [|done]. pose proof (ex_room [0] 0). by repeat split. Qed.

Lemma ex_stored_null : stored ex_cl false [255] ex_null.
Proof.
  split; [exists (mk_globals false false), ex_null, Subscript.ex_key, (appended Subscript.ex_key [255]); by vm_compute|].
  split; [|done]. split; [constructor|by left].
Qed.

Lemma ex_nulls_stored : nodes_stored ex_nulls false ex_cl [97].
Proof.
  pose proof (ex_is_stored _ _ ex_stored1) as H1. pose proof (ex_is_stored _ _ ex_stored2) as H2. pose proof (ex_is_stored _ _ ex_stored_null) as H3.
  unfold nodes_stored, ex_nulls.
  repeat apply Forall_cons_2; [exists [[191; 17]]|exists [[191; 17]; [191; 33] ]|exists [[255]]|constructor]; by repeat constructor.
Qed.

Lemma ex_nulls_texts : texts_ok ex_nulls false ex_cl ex_no_ctl [97].
Proof.
  assert (H1 : exists w, stored ex_cl false [191; 17] w /\ zwr_of ex_no_ctl w = Ok [49]) by (exists ex_one; split; [apply ex_stored1|by vm_compute]).
  assert (H2 : exists w, stored ex_cl false [191; 33] w /\ zwr_of ex_no_ctl w = Ok [50]) by (exists ex_two; split; [apply ex_stored2|by vm_compute]).
  assert (H3 : exists w, stored ex_cl false [255] w /\ zwr_of ex_no_ctl w = Ok [34; 34]) by (exists ex_null; split; [apply ex_stored_null|by vm_compute]).
  unfold texts_ok, ex_nulls.
  repeat apply Forall_cons_2; [| | |constructor]; (split; [by apply Nat.leb_le|eexists]).
  - exists [[191; 17]], [[49]]. split; [done|]. split; [by repeat constructor|]. by split.
  - exists [[191; 17]; [191; 33] ], [[49]; [50] ]. split; [done|]. split; [by repeat constructor|]. by split.
  - exists [[255]], [[34; 34]]. split; [done|]. split; [by repeat constructor|]. by split.
Qed.

Lemma ex_next_visible : next_visible ex_nulls [97; 0; 191; 17].
Proof.
  assert (H : visible [97; 0; 191; 17; 0; 191; 33; 0; 0]) by (intros i E; do 9 (destruct i as [|i]; [done|]); by destruct i). exact H.
Qed.

(** A node with its value, and one with the value $C(0). *)
Lemma op_gvget_value_witness :
  (exists g', op_gvget 4096 ex_qread (fun _ => true) (fun _ => 2000) false false true true false false ex_gvt (ex_key [97; 0; 191; 33; 0; 0] 2) (ex_key [0] 0) =
      Ok (g', ex_key [97; 0; 191; 33; 0; 0] 2, ex_key [0] 0, [121; 122])) /\
  (exists g' K', op_gvget 4096 ex_nulls_qread (fun _ => true) (fun _ => 2000) false false true true false false ex_gvt (ex_key [97; 0; 191; 17; 0; 0] 2) (ex_key [0] 0) =
      Ok (g', K', ex_key [0] 0, [0])).
Proof.
  split.
  - destruct (op_gvget_value 4096 ex_qread (fun _ => true) (fun _ => 2000) 2 1 ex_nodes ex_tree ex_depth ex_base ltac:(done) false true true
      [97; 0; 191; 33] ltac:(intros x [= <-]; lia) false false false ex_gvt _ _ ex_ok (ex_holds_room [97; 0; 191; 33; 0; 0] 2 4 eq_refl eq_refl) (ex_room [0] 0) ltac:(done))
      as (g' & K' & _ & _ & _ & HK & E). exists g'. rewrite E, (HK ltac:(done)). done.
  - destruct (op_gvget_value 4096 ex_nulls_qread (fun _ => true) (fun _ => 2000) 2 1 ex_nulls ex_nulls_tree ex_depth ex_base ltac:(done) false true true
      [97; 0; 191; 17] ltac:(intros x [= <-]; lia) false false false ex_gvt _ _ ex_nulls_ok (ex_holds_room [97; 0; 191; 17; 0; 0] 2 4 eq_refl eq_refl) (ex_room [0] 0) ltac:(done))
      as (g' & K' & _ & _ & _ & _ & E). exists g', K'. rewrite E. done.
Defined.

Lemma op_gvdata_value_witness :
  (exists g', op_gvdata 4096 ex_qread (fun _ => true) (fun _ => 2000) false false true true false ex_gvt (ex_key [97; 0; 191; 17; 0; 0] 2) (ex_key [0] 0) =
      Ok (g', ex_key [97; 0; 191; 17; 0; 0] 2, ex_key [0] 0, 11)) /\
  (exists g' K' alt', op_gvdata 4096 ex_nulls_qread (fun _ => true) (fun _ => 2000) false false true true false ex_gvt (ex_key [97; 0; 191; 17; 0; 0] 2) (ex_key [0] 0) =
      Ok (g', K', alt', 11)).
Proof.
  split.
  - destruct (op_gvdata_value 4096 ex_qread (fun _ => true) (fun _ => 2000) 2 1 ex_nodes ex_tree ex_depth ex_base ltac:(done) false true true
      [97; 0; 191; 17] ltac:(intros x [= <-]; lia) false false ex_gvt _ _ ex_ok (ex_holds_room [97; 0; 191; 17; 0; 0] 2 2 eq_refl eq_refl) (ex_room [0] 0) ltac:(done))
      as (g' & K' & alt' & _ & _ & _ & HK & E). exists g'. rewrite E. destruct (HK ltac:(done)) as [-> ->]. done.
  - destruct (op_gvdata_value 4096 ex_nulls_qread (fun _ => true) (fun _ => 2000) 2 1 ex_nulls ex_nulls_tree ex_depth ex_base ltac:(done) false true true
      [97; 0; 191; 17] ltac:(intros x [= <-]; lia) false false ex_gvt _ _ ex_nulls_ok (ex_holds_room [97; 0; 191; 17; 0; 0] 2 2 eq_refl eq_refl) (ex_room [0] 0)
      ltac:(intros _; split; [exact ex_next_visible|done]))
      as (g' & K' & alt' & _ & _ & _ & _ & E). exists g', K', alt'. rewrite E. done.
Defined.

(** From ^a(1), and from ^a(""). *)
Lemma op_gvorder_next_witness :
  (exists g' K' alt' v,
    op_gvorder 4096 ex_qread (fun _ => true) (fun _ => 2000) false false true false ex_cl ex_no_ctl false ex_gvt (ex_key [97; 0; 191; 17; 0; 0] 2) (ex_key [0] 0) =
      Ok (g', K', alt', v) /\ gvt_ok 4096 ex_qread (fun _ => true) 2 1 ex_nodes g' /\ holds_room K' [97; 0; 191; 17; 0; 0] 1 /\ k_prev K' = 2 /\
    next_text ex_nodes false ex_cl [97] [] (Some ex_one) v) /\
  (exists g' K' alt' v,
    op_gvorder 4096 ex_nulls_qread (fun _ => true) (fun _ => 2000) false false true false ex_cl ex_no_ctl true ex_gvt (ex_key [97; 0; 255; 0; 0] 2) (ex_key [0] 0) =
      Ok (g', K', alt', v) /\ gvt_ok 4096 ex_nulls_qread (fun _ => true) 2 1 ex_nulls g' /\ holds_room K' [97; 0; 255; 0; 0] 1 /\ k_prev K' = 2 /\
    next_text ex_nulls false ex_cl [97] [] None v).
Proof.
  split.
  - exact (op_gvorder_next 4096 ex_qread (fun _ => true) (fun _ => 2000) 2 1 ex_nodes ex_tree ex_depth ex_base ltac:(done) false ex_cl ex_no_ctl [97] (or_intror (conj eq_refl eq_refl))
      ex_nonnull ltac:(intros x [= <-]; lia) ex_nodes_stored [] [191; 17] ex_one ltac:(constructor) ex_stored1 false false true false ex_gvt _ _ ex_ok
      (ex_holds_room [97; 0; 191; 17; 0; 0] 2 1 eq_refl eq_refl) eq_refl (ex_room _ _) ltac:(done)).
  - exact (op_gvorder_next 4096 ex_nulls_qread (fun _ => true) (fun _ => 2000) 2 1 ex_nulls ex_nulls_tree ex_depth ex_base ltac:(done) false ex_cl ex_no_ctl [97] (or_intror (conj eq_refl eq_refl))
      ex_nonnull ltac:(intros x [= <-]; lia) ex_nulls_stored [] [255] ex_null ltac:(constructor) ex_stored_null false false true true ex_gvt _ _ ex_nulls_ok
      (ex_holds_room [97; 0; 255; 0; 0] 2 1 eq_refl eq_refl) eq_refl (ex_room _ _) ltac:(done)).
Defined.

Lemma op_zprevious_prev_witness :
  (exists g' K' alt' v,
    op_zprevious 4096 ex_qread (fun _ => true) (fun _ => 2000) false 255 ex_cl ex_no_ctl false 1 ex_gvt (ex_key [97; 0; 191; 49; 0; 0] 2) (ex_key [0] 0) =
      Ok (g', K', alt', v) /\ gvt_ok 4096 ex_qread (fun _ => true) 2 1 ex_nodes g' /\ key_holds K' [97; 0; 191; 49; 0; 0] /\ k_prev K' = 2 /\
    (false = false -> K' = ex_key [97; 0; 191; 49; 0; 0] 2) /\ prev_text ex_nodes false ex_cl [97] [] (Some ex_three) v) /\
  (exists g' K' alt' v,
    op_zprevious 4096 ex_nulls_qread (fun _ => true) (fun _ => 2000) false 255 ex_cl ex_no_ctl true 1 ex_gvt (ex_key [97; 0; 255; 0; 0] 2) (ex_key [0] 0) =
      Ok (g', K', alt', v) /\ gvt_ok 4096 ex_nulls_qread (fun _ => true) 2 1 ex_nulls g' /\ key_holds K' [97; 0; 255; 0; 0] /\ k_prev K' = 2 /\
    (true = false -> K' = ex_key [97; 0; 255; 0; 0] 2) /\ prev_text ex_nulls false ex_cl [97] [] None v).
Proof.
  split.
  - exact (op_zprevious_prev 4096 ex_qread (fun _ => true) (fun _ => 2000) 2 1 ex_nodes ex_tree ex_depth ex_base ltac:(done) false ex_cl ex_no_ctl [97] (or_intror (conj eq_refl eq_refl))
      ex_nonnull ltac:(intros x [= <-]; lia) ex_nodes_stored [] [191; 49] ex_three ltac:(constructor) ex_stored3 255 false ex_gvt _ _ ex_ok
      (ex_holds_room [97; 0; 191; 49; 0; 0] 2 1 eq_refl eq_refl) eq_refl (ex_room _ _) ltac:(done) ltac:(done)).
  - exact (op_zprevious_prev 4096 ex_nulls_qread (fun _ => true) (fun _ => 2000) 2 1 ex_nulls ex_nulls_tree ex_depth ex_base ltac:(done) false ex_cl ex_no_ctl [97] (or_intror (conj eq_refl eq_refl))
      ex_nonnull ltac:(intros x [= <-]; lia) ex_nulls_stored [] [255] ex_null ltac:(constructor) ex_stored_null 255 true ex_gvt _ _ ex_nulls_ok
      (ex_holds_room [97; 0; 255; 0; 0] 2 1 eq_refl eq_refl) eq_refl (ex_room _ _) ltac:(done)
      ltac:(intros _; split; [by_compute|split; [by_compute|split; [by_compute|repeat apply Forall_cons_2; [by_compute..|constructor] ] ] ])).
Defined.

Lemma op_gvquery_next_witness :
  exists g' K' alt' last' v,
    op_gvquery 4096 ex_nulls_qread (fun _ => true) (fun _ => 2000) false true false ex_cl ex_no_ctl true (ex_key [0] 0) ex_gvt (ex_key [97; 0; 255; 0; 0] 2) (ex_key [0] 0) =
      Ok (g', K', alt', last', v) /\ gvt_ok 4096 ex_nulls_qread (fun _ => true) 2 1 ex_nulls g' /\ holds_room K' [97; 0; 255; 0; 0] 2 /\ k_prev K' = 2 /\
    match after [97; 0; 0] ex_nulls with
    | [] => v = []
    | x :: _ => node_shows false ex_cl ex_no_ctl [97] (g_key x) v /\ buffer_is alt' (g_key x)
    end.
Proof.
  exact (op_gvquery_next 4096 ex_nulls_qread (fun _ => true) (fun _ => 2000) 2 1 ex_nulls ex_nulls_tree ex_depth ex_base ltac:(done) false true false ex_cl ex_no_ctl [97] (or_intror (conj eq_refl eq_refl))
    ex_nonnull ex_name ex_nulls_texts true true ex_gvt _ _ _ [97; 0; 255] [] ex_nulls_ok (ex_holds_room [97; 0; 255; 0; 0] 2 2 eq_refl eq_refl)
    ltac:(intros x [= <-]; lia) (ex_room [0] 0) (ex_room [0] 0) ltac:(constructor) eq_refl ltac:(done)).
Defined.

Lemma query_walk_visits_witness :
  exists vs,
    query_walk 4096 ex_nulls_qread (fun _ => true) (fun _ => 2000) false true false ex_cl ex_no_ctl 5 (ex_key [0] 0) ex_gvt (ex_key [97; 0; 191; 17; 0; 0] 2) (ex_key [0] 0) = Ok vs /\
    Forall2 (fun x v => node_shows false ex_cl ex_no_ctl [97] (g_key x) v) (after [97; 0; 191; 17; 0; 0] ex_nulls) vs.
Proof.
  exact (query_walk_visits 4096 ex_nulls_qread (fun _ => true) (fun _ => 2000) 2 1 ex_nulls ex_nulls_tree ex_depth ex_base ltac:(done) false true false ex_cl ex_no_ctl [97] (or_intror (conj eq_refl eq_refl))
    ex_nonnull ex_name ex_nulls_texts 5 false true _ ex_gvt _ _ [97; 0; 191; 17] [] ex_nulls_ok (ex_holds_room [97; 0; 191; 17; 0; 0] 2 2 eq_refl eq_refl)
    ltac:(intros x [= <-]; lia) ltac:(by_compute) (ex_room [0] 0) (ex_room [0] 0) ltac:(constructor) eq_refl eq_refl ltac:(done) ltac:(apply Nat.ltb_lt; done)).
Defined.

(** ^a(1) in two chunks, with its control record: "xy" and "z". *)
Definition ex_span : list grec :=
  [mk_grec [97; 0; 191; 17; 0; 0] [0]; mk_grec [97; 0; 191; 17; 0; 2; 1; 1; 0; 0] [2; 0; 3; 0; 0; 0];
   mk_grec [97; 0; 191; 17; 0; 2; 1; 2; 0; 0] [120; 121]; mk_grec [97; 0; 191; 17; 0; 2; 1; 3; 0; 0] [122] ].

Definition ex_span_qread (b : Z) : option (list Z) :=
  if b =? 2 then Some (encode_blk 1 [mk_grec [] [3; 0; 0; 0] ] ++ replicate 1023 0) else if b =? 3 then Some (encode_blk 0 ex_span) else None.

Lemma ex_span_tree : tree_at 4096 ex_span_qread 1 false 2 [] None ex_span.
Proof.
  exists (encode_blk 1 [mk_grec [] [3; 0; 0; 0] ] ++ replicate 1023 0), [mk_grec [] [3; 0; 0; 0] ].
  split; [done|]. split; [by apply ex_blk; by_compute|]. split; [by_compute|]. exists 3. split; [done|].
  exists (encode_blk 0 ex_span), ex_span. split; [done|].
  split; [rewrite <- (app_nil_r (encode_blk _ _)); by apply ex_blk; by_compute|]. split; [done|]. split; [|done].
  repeat constructor; by_compute.
Qed.

Lemma ex_span_ok : gvt_ok 4096 ex_span_qread (fun _ => true) 2 1 ex_span ex_gvt.
Proof.
  split; [done|]. split; [|done]. pose proof (ex_room [0] 0). by repeat split.
Qed.

Lemma ex_spanning : spanning ex_span [97; 0; 191; 17] [2; 0; 3; 0; 0; 0] [[120; 121]; [122] ].
Proof. by repeat split. Qed.

Lemma op_gvget_spanning_witness :
  exists g' K', op_gvget 4096 ex_span_qread (fun _ => true) (fun _ => 2000) false false false true false false ex_gvt (ex_key [97; 0; 191; 17; 0; 0] 2) (ex_key [0] 0) =
      Ok (g', K', ex_key [0] 0, [120; 121; 122]) /\ gvt_ok 4096 ex_span_qread (fun _ => true) 2 1 ex_span g' /\
    holds_room K' [97; 0; 191; 17; 0; 0] 4 /\ k_prev K' = 2.
Proof.
  exact (op_gvget_spanning 4096 ex_span_qread (fun _ => true) (fun _ => 2000) 2 1 ex_span ex_span_tree ex_depth ex_base ltac:(done) false false true
    [97; 0; 191; 17] ltac:(intros x [= <-]; lia) false ex_gvt _ _ _ [[120; 121]; [122] ] ex_span_ok
    (ex_holds_room [97; 0; 191; 17; 0; 0] 2 4 eq_refl eq_refl) (ex_room _ _) ex_spanning).
Defined.
