(* ===== verification/Piecespec.v ===== *)
(** Strings cut into pieces by a delimiter: the reference for $ZPIECE, SET
    $ZPIECE, $ZLENGTH with a delimiter and $ZFIND, as functions on lists of
    bytes, and the lemmas on them.  [pieces] cuts at the leftmost occurrence of
    the delimiter, then goes on after it; [off] is where a piece starts. *)

From stdpp Require Import base list numbers option tactics.
From Stdlib Require Import ZArith Lia.
From S2P Require Import Prelude.

Open Scope Z_scope.

(** The rest of [s] after the delimiter at its start. *)
Fixpoint strip (d s : list Z) : option (list Z) :=
  match d, s with
  | [], _ => Some s
  | x :: d', y :: s' => if x =? y then strip d' s' else None
  | _ :: _, [] => None
  end.

(** What is before and after the leftmost delimiter of [s]. *)
Fixpoint cut_at (d s : list Z) : option (list Z * list Z) :=
  match strip d s with
  | Some r => Some ([], r)
  | None =>
      match s with
      | [] => None
      | c :: s' => match cut_at d s' with Some (a, r) => Some (c :: a, r) | None => None end
      end
  end.

Fixpoint pieces_n (n : nat) (d s : list Z) : list (list Z) :=
  match n with
  | O => [s]
  | S n' => match cut_at d s with Some (a, r) => a :: pieces_n n' d r | None => [s] end
  end.

Definition pieces (d s : list Z) : list (list Z) := pieces_n (length s) d s.

Fixpoint joined (d : list Z) (ps : list (list Z)) : list Z :=
  match ps with
  | [] => []
  | [p] => p
  | p :: ps' => p ++ d ++ joined d ps'
  end.

(** $ZPIECE(s,d,f,l), SET $ZPIECE(s,d,f,l)=v, $ZLENGTH(s,d), $ZFIND(s,d,f). *)
Definition range_pieces (d s : list Z) (f l : Z) : list Z :=
  let f := Z.max 1 f in
  if d is [] then []
  else joined d (take (Z.to_nat (l - (f - 1))) (drop (Z.to_nat (f - 1)) (pieces d s))).

Definition set_pieces (d s : list Z) (f l : Z) (v : list Z) : list Z :=
  let n := Z.to_nat (Z.max 1 f - 1) in
  let ps := pieces d s in
  if d is [] then (if 1 <? f then s ++ v else v)
  else joined d (take n ps ++ replicate (n - length ps) [] ++ v :: drop (Z.to_nat l) ps).

Definition count_pieces (d s : list Z) : Z :=
  if d is [] then 0 else zlen (pieces d s).

Definition find_from (d s : list Z) (f : Z) : Z :=
  let n := Z.max 0 (f - 1) in
  if d is [] then n + 1
  else match cut_at d (drop (Z.to_nat n) s) with
       | Some (a, _) => n + zlen a + zlen d + 1
       | None => 0
       end.

(** Pieces with a delimiter after each, with one before each, and the offset
    of piece [i] (from 0). *)
Definition pre (d : list Z) (ps : list (list Z)) : list Z := concat (map (fun p => p ++ d) ps).
Definition suf (d : list Z) (ps : list (list Z)) : list Z := concat (map (app d) ps).
Definition off (d : list Z) (ps : list (list Z)) (i : nat) : Z := zlen (pre d (take i ps)).

(** ** Cutting *)

Lemma strip_spec d s r : strip d s = Some r <-> s = d ++ r.
Proof.
  revert s. induction d as [|x d IH]; intros s; simpl; [split; congruence|].
  destruct s as [|y s]; [split; congruence|].
  destruct (Z.eqb_spec x y) as [->|]; [rewrite IH|]; split; congruence.
Qed.

Lemma strip_short d s : (length s < length d)%nat -> strip d s = None.
Proof.
  intros H. destruct (strip d s) as [r|] eqn:E; [|done].
  apply strip_spec in E as ->. rewrite length_app in H. lia.
Qed.

Lemma split_at_unfold d s :
  cut_at d s = match strip d s with
                 | Some r => Some ([], r)
                 | None => match s with
                           | [] => None
                           | c :: s' => match cut_at d s' with Some (a, r) => Some (c :: a, r) | None => None end
                           end
                 end.
Proof. by destruct s. Qed.

Lemma split_at_spec d s a r : cut_at d s = Some (a, r) -> s = a ++ d ++ r.
Proof.
  revert a r. induction s as [|c s IH]; intros a r; rewrite split_at_unfold;
    destruct (strip d _) as [r'|] eqn:E; try (apply strip_spec in E; intros [= <- <-]; done); [done|].
  destruct (cut_at d s) as [[a' r']|]; [|done]. intros [= <- <-]. simpl. f_equal. by apply IH.
Qed.

Lemma split_at_len d s a r : cut_at d s = Some (a, r) -> length s = (length a + length d + length r)%nat.
Proof. intros ->%split_at_spec. rewrite !length_app. lia. Qed.

Lemma split_at_nil d : d <> [] -> cut_at d [] = None.
Proof. by destruct d. Qed.

Lemma split_at_short d s : d <> [] -> (length s < length d)%nat -> cut_at d s = None.
Proof.
  intros Hd. destruct (cut_at d s) as [[a r]|] eqn:E; [|done].
  apply split_at_len in E. lia.
Qed.

(** No delimiter starts before the one that is found. *)
Lemma split_at_cons c s d :
  strip d (c :: s) = None ->
  cut_at d (c :: s) = match cut_at d s with Some (a, r) => Some (c :: a, r) | None => None end.
Proof. intros H. by rewrite split_at_unfold, H. Qed.

Lemma pieces_n_enough d s n m : d <> [] -> (length s <= n)%nat -> (length s <= m)%nat ->
  pieces_n n d s = pieces_n m d s.
Proof.
  intros Hd. revert s m. induction n as [|n IH]; intros s m Hn Hm.
  - destruct s; [|simpl in Hn; lia]. destruct m; cbn [pieces_n]; [done|]. by rewrite (split_at_nil d Hd).
  - destruct m as [|m].
    + destruct s; [|simpl in Hm; lia]. cbn [pieces_n]. by rewrite (split_at_nil d Hd).
    + cbn [pieces_n]. destruct (cut_at d s) as [[a r]|] eqn:E; [|done]. f_equal.
      pose proof (split_at_len _ _ _ _ E). assert (length d <> 0)%nat by (destruct d; simpl; congruence).
      apply IH; lia.
Qed.

Lemma pieces_unfold d s : d <> [] ->
  pieces d s = match cut_at d s with Some (a, r) => a :: pieces d r | None => [s] end.
Proof.
  intros Hd. unfold pieces. destruct s as [|c s]; [cbn [pieces_n length]; by rewrite (split_at_nil d Hd)|].
  change (pieces_n (length (c :: s)) d (c :: s)) with
    (match cut_at d (c :: s) with Some (a, r) => a :: pieces_n (length s) d r | None => [c :: s] end).
  destruct (cut_at d (c :: s)) as [[a r]|] eqn:E; [|done]. f_equal.
  pose proof (split_at_len _ _ _ _ E) as L. simpl in L.
  assert (length d <> 0)%nat by (destruct d; simpl; congruence). apply pieces_n_enough; auto; lia.
Qed.

(** Induction on the number of delimiters of a string. *)
Lemma pieces_ind d (P : list Z -> Prop) : d <> [] ->
  (forall s, cut_at d s = None -> P s) ->
  (forall s a r, cut_at d s = Some (a, r) -> P r -> P s) -> forall s, P s.
Proof.
  intros Hd H0 H1 s. remember (length s) as n eqn:En. revert s En.
  induction n as [n IH] using lt_wf_ind. intros s En. destruct (cut_at d s) as [[a r]|] eqn:E; [|by apply H0].
  eapply H1; [done|]. pose proof (split_at_len _ _ _ _ E).
  assert (length d <> 0)%nat by (destruct d; simpl; congruence). eapply IH; [|done]. lia.
Qed.

Lemma pieces_nonempty d s : pieces d s <> [].
Proof. unfold pieces. destruct (length s); simpl; [done|]. by destruct (cut_at d s) as [[]|]. Qed.

Lemma pieces_length d s : (1 <= length (pieces d s))%nat.
Proof. pose proof (pieces_nonempty d s). destruct (pieces d s); simpl; [done|lia]. Qed.

Lemma joined_cons d p ps : ps <> [] -> joined d (p :: ps) = p ++ d ++ joined d ps.
Proof. by destruct ps. Qed.

Lemma join_pieces d s : d <> [] -> joined d (pieces d s) = s.
Proof.
  intros Hd. revert s. apply (pieces_ind d); [done|..]; intros s; [intros E|intros a r E IH];
    rewrite pieces_unfold, E by done; [done|].
  rewrite joined_cons by apply pieces_nonempty. rewrite IH. by rewrite <- (split_at_spec _ _ _ _ E).
Qed.

Lemma join_app d ps qs : ps <> [] -> qs <> [] -> joined d (ps ++ qs) = joined d ps ++ d ++ joined d qs.
Proof.
  intros Hp Hq. induction ps as [|p ps IH]; [done|]. destruct ps as [|p' ps].
  - simpl. by destruct qs.
  - rewrite <- app_comm_cons, !joined_cons by done. rewrite IH by done. by rewrite !app_assoc.
Qed.

Lemma join_snoc d ps p : ps <> [] -> joined d (ps ++ [p]) = joined d ps ++ d ++ p.
Proof. intros. by rewrite join_app. Qed.

Lemma pieces_drop d s n : d <> [] -> (n < length (pieces d s))%nat ->
  pieces d (joined d (drop n (pieces d s))) = drop n (pieces d s).
Proof.
  intros Hd. revert s n. refine (pieces_ind d _ Hd _ _); intros s; [intros E|intros a r E IH]; intros n.
  - rewrite (pieces_unfold d s), E by done. destruct n as [|n]; simpl; [|lia]. intros _.
    by rewrite (pieces_unfold d s), E.
  - rewrite (pieces_unfold d s), E by done. destruct n as [|n]; cbn [drop length]; intros Hn.
    + rewrite ?drop_0, joined_cons, join_pieces by (done || apply pieces_nonempty).
      rewrite <- (split_at_spec _ _ _ _ E). by rewrite (pieces_unfold d s), E.
    + apply IH. lia.
Qed.

(** Skipping [n] pieces: how many could not be skipped, and the rest. *)
Fixpoint skip (d : list Z) (n : nat) (s : list Z) : nat * list Z :=
  match n with
  | O => (O, s)
  | S n' => match cut_at d s with Some (_, r) => skip d n' r | None => (n, []) end
  end.

Lemma skip_pieces d n s : d <> [] ->
  skip d n s = if (n <? length (pieces d s))%nat then (O, joined d (drop n (pieces d s)))
               else ((n + 1 - length (pieces d s))%nat, []).
Proof.
  intros Hd. revert s. induction n as [|n IH]; intros s.
  - pose proof (pieces_length d s). simpl. by rewrite drop_0, join_pieces, (proj2 (Nat.ltb_lt _ _)) by (done || lia).
  - simpl. rewrite (pieces_unfold d s) by done. destruct (cut_at d s) as [[a r]|]; simpl.
    + rewrite IH. done.
    + f_equal. lia.
Qed.

(** ** Delimiters before and after *)

Lemma pre_app d ps qs : pre d (ps ++ qs) = pre d ps ++ pre d qs.
Proof. unfold pre. by rewrite map_app, concat_app. Qed.

Lemma pre_cons d p ps : pre d (p :: ps) = p ++ d ++ pre d ps.
Proof. unfold pre. simpl. by rewrite <- app_assoc. Qed.

Lemma join_pre d ps qs : qs <> [] -> joined d (ps ++ qs) = pre d ps ++ joined d qs.
Proof.
  intros Hq. induction ps as [|p ps IH]; [done|]. rewrite <- app_comm_cons, joined_cons, IH, pre_cons.
  - by rewrite <- !app_assoc.
  - destruct ps; [by destruct qs|done].
Qed.

Lemma pre_join d ps : ps <> [] -> pre d ps = joined d ps ++ d.
Proof.
  intros Hp. destruct (exists_last Hp) as (qs & p & ->). rewrite join_pre, pre_app by done.
  rewrite pre_cons. unfold pre at 2. simpl. by rewrite app_nil_r, app_assoc.
Qed.

Lemma pre_replicate d n : pre d (replicate n []) = concat (replicate n d).
Proof. induction n as [|n IH]; [done|]. simpl. rewrite pre_cons. simpl. by rewrite IH. Qed.

Lemma join_suf d v ps : joined d (v :: ps) = v ++ suf d ps.
Proof.
  revert v. induction ps as [|p ps IH]; intros v; [unfold suf; simpl; by rewrite app_nil_r|].
  rewrite joined_cons, IH by done. unfold suf. simpl. by rewrite <- app_assoc.
Qed.

Lemma suf_join d ps : ps <> [] -> suf d ps = d ++ joined d ps.
Proof. destruct ps as [|p ps]; [done|]. intros _. rewrite join_suf. unfold suf. simpl. by rewrite <- app_assoc. Qed.

(** ** Offsets *)

Lemma off_0 d ps : off d ps 0 = 0.
Proof. unfold off. by rewrite take_0. Qed.

Lemma off_S d ps i p : ps !! i = Some p -> off d ps (S i) = off d ps i + zlen p + zlen d.
Proof.
  intros H. unfold off. rewrite (take_S_r _ _ _ H), pre_app, zlen_app, pre_cons. unfold pre at 2. simpl.
  rewrite app_nil_r, zlen_app. lia.
Qed.

Lemma off_mono d ps i j : (i <= j)%nat -> off d ps i <= off d ps j.
Proof.
  intros H. unfold off. replace (take i ps) with (take i (take j ps)) by (rewrite take_take; f_equal; lia).
  rewrite <- (take_drop i (take j ps)) at 2. rewrite pre_app, zlen_app.
  pose proof (zlen_nonneg (pre d (drop i (take j ps)))). lia.
Qed.

Lemma off_nonneg d ps i : 0 <= off d ps i.
Proof. apply zlen_nonneg. Qed.

Lemma drop_nonempty {A} (l : list A) i : (i < length l)%nat -> drop i l <> [].
Proof. intros H E%(f_equal length). rewrite length_drop in E. simpl in E. lia. Qed.

Lemma take_nonempty {A} (l : list A) i : l <> [] -> i <> O -> take i l <> [].
Proof. by destruct l, i. Qed.

Lemma join_cut d ps i : (i < length ps)%nat -> joined d ps = pre d (take i ps) ++ joined d (drop i ps).
Proof. intros H. rewrite <- (take_drop i ps) at 1. by rewrite join_pre by (by apply drop_nonempty). Qed.

Lemma off_drop d ps i : (i < length ps)%nat -> drop (Z.to_nat (off d ps i)) (joined d ps) = joined d (drop i ps).
Proof. intros H. rewrite (join_cut d ps i H). unfold off, zlen. rewrite Nat2Z.id. apply drop_app_length. Qed.

Lemma off_le d ps i : (i < length ps)%nat -> off d ps i + zlen (joined d (drop i ps)) = zlen (joined d ps).
Proof. intros H. rewrite (join_cut d ps i H), zlen_app. done. Qed.

Lemma off_total d ps i : ps <> [] -> (length ps <= i)%nat -> off d ps i = zlen (joined d ps) + zlen d.
Proof. intros H Hi. unfold off. rewrite take_ge by done. by rewrite pre_join, zlen_app by done. Qed.

Lemma off_take d ps i : (0 < i)%nat -> ps <> [] -> (i <= length ps)%nat ->
  take (Z.to_nat (off d ps i - zlen d)) (joined d ps) = joined d (take i ps).
Proof.
  intros H Hp Hi.
  assert (off d ps i - zlen d = zlen (joined d (take i ps))) as ->.
  { unfold off. rewrite pre_join, zlen_app by (apply take_nonempty; [done|lia]). lia. }
  unfold zlen. rewrite Nat2Z.id. destruct (decide (i = length ps)) as [->|].
  - rewrite (take_ge ps) by done. by apply take_ge.
  - rewrite (join_cut d ps i) by lia. rewrite pre_join by (apply take_nonempty; [done|lia]).
    rewrite <- app_assoc. apply take_app_length.
Qed.

Lemma off_suffix d ps i : (0 < i < length ps)%nat ->
  drop (Z.to_nat (off d ps i - zlen d)) (joined d ps) = suf d (drop i ps).
Proof.
  intros H. assert (ps <> []) by (intros ->; simpl in *; lia).
  rewrite (join_cut d ps i) by lia. unfold off. rewrite pre_join by (apply take_nonempty; [done|lia]).
  rewrite zlen_app, suf_join by (apply drop_nonempty; lia).
  replace (Z.to_nat _) with (length (joined d (take i ps))) by (unfold zlen; lia).
  rewrite <- app_assoc. apply drop_app_length.
Qed.

Lemma off_same d ps qs k i : (i <= k)%nat -> take k ps = take k qs -> off d ps i = off d qs i.
Proof.
  intros Hi E. unfold off. replace (take i ps) with (take i (take k ps)) by (rewrite take_take; f_equal; lia).
  rewrite E, take_take. do 3 f_equal. lia.
Qed.

(** ** A delimiter of one byte *)

Lemma split_at_1 c s a r : cut_at [c] s = Some (a, r) -> ~ In c a.
Proof.
  revert a r. induction s as [|x s IH]; intros a r; simpl; [done|].
  destruct (Z.eqb_spec c x) as [->|]; [intros [= <- <-]; tauto|].
  destruct (cut_at [c] s) as [[a' r']|]; [|done]. intros [= <- <-]. intros [->|H]; [done|].
  by eapply IH in H.
Qed.

Lemma split_at_1_None c s : cut_at [c] s = None <-> ~ In c s.
Proof.
  induction s as [|x s IH]; simpl; [tauto|]. destruct (Z.eqb_spec c x) as [->|]; [split; [done|tauto]|].
  destruct (cut_at [c] s) as [[a' r']|]; split; intros H; try done.
  - destruct H. right. destruct (in_dec Z.eq_dec c s) as [|n1]; [done|]. by apply IH in n1.
  - intros [->|Hc]; [done|]. by apply IH.
Qed.

Lemma split_at_1_app c a r : ~ In c a -> cut_at [c] (a ++ c :: r) = Some (a, r).
Proof.
  induction a as [|x a IH]; simpl; intros H; [by rewrite Z.eqb_refl|].
  destruct (Z.eqb_spec c x) as [->|]; [tauto|]. by rewrite IH by tauto.
Qed.

Lemma pieces_1_no c s : Forall (fun p => ~ In c p) (pieces [c] s).
Proof.
  revert s. apply (pieces_ind [c]); [done|..]; intros s; [intros E|intros a r E IH];
    rewrite pieces_unfold, E by done; constructor.
  - by apply split_at_1_None.
  - done.
  - by eapply split_at_1.
  - done.
Qed.

Lemma pieces_1_prefix c ps qs : Forall (fun p => ~ In c p) ps -> qs <> [] ->
  pieces [c] (joined [c] (ps ++ qs)) = ps ++ pieces [c] (joined [c] qs).
Proof.
  intros Hp Hq. induction Hp as [|p ps Hp _ IH]; [done|].
  assert (ps ++ qs <> []) by (destruct ps; [by destruct qs|done]).
  rewrite <- app_comm_cons, joined_cons, pieces_unfold by done. change ([c] ++ ?x) with (c :: x).
  by rewrite split_at_1_app, IH by done.
Qed.

Lemma pieces_1_join c ps : Forall (fun p => ~ In c p) ps -> ps <> [] -> pieces [c] (joined [c] ps) = ps.
Proof.
  intros Hp Hn. destruct (exists_last Hn) as (qs & p & ->). apply Forall_app in Hp as [Hq Hp].
  rewrite pieces_1_prefix by done. simpl. rewrite pieces_unfold by done.
  assert (~ In c p) as Hc by (by inversion Hp). apply split_at_1_None in Hc. by rewrite Hc.
Qed.

(** ** The results of the operations *)

Lemma off_join d ps i : (0 < i)%nat -> ps <> [] -> zlen (joined d (take i ps)) = off d ps i - zlen d.
Proof. intros Hi Hp. unfold off. rewrite pre_join, zlen_app by (apply take_nonempty; [done|lia]). lia. Qed.

Lemma take_off d ps i : (i < length ps)%nat -> take (Z.to_nat (off d ps i)) (joined d ps) = pre d (take i ps).
Proof. intros H. rewrite (join_cut d ps i H). unfold off, zlen. rewrite Nat2Z.id. apply take_app_length. Qed.

Lemma concat_replicate_1 (c : Z) n : concat (replicate n [c]) = replicate n c.
Proof. induction n as [|n IH]; [done|]. simpl. by rewrite IH. Qed.

Lemma set_pieces_pre d s f l v : d <> [] -> 1 <= l ->
  let n := Z.to_nat (Z.max 1 f - 1) in
  set_pieces d s f l v =
  pre d (take n (pieces d s)) ++ concat (replicate (n - length (pieces d s)) d) ++
  v ++ suf d (drop (Z.to_nat l) (pieces d s)).
Proof.
  intros Hd Hl n. unfold set_pieces. fold n. destruct d as [|x d]; [done|].
  rewrite app_assoc, join_pre, join_suf, pre_app, pre_replicate by done. by rewrite <- app_assoc.
Qed.

(** The pieces of [ps] up to [n], and the delimiters that are missing, when all
    its pieces from [k] on are empty. *)
Lemma pre_pad c ps n k : (0 < k <= length ps)%nat -> (length ps <= k + 1)%nat -> (k <= n)%nat ->
  ((k < length ps)%nat -> ps !! k = Some []) ->
  pre [c] (take n ps) ++ replicate (n - length ps) c = joined [c] (take k ps) ++ replicate (n + 1 - k) c.
Proof.
  intros Hk Hlen Hn Hlast. assert (ps <> []) as Hp by (intros ->; simpl in *; lia).
  assert (pre [c] (take k ps) = joined [c] (take k ps) ++ [c]) as E by (apply pre_join, take_nonempty; [done|lia]).
  destruct (decide (n = k)) as [->|].
  - rewrite E. replace (k - length ps)%nat with O by lia. replace (k + 1 - k)%nat with 1%nat by lia. by rewrite app_nil_r.
  - destruct (decide (k = length ps)) as [->|].
    + rewrite (take_ge ps n) by lia. rewrite (take_ge ps) in E |- * by lia. rewrite E, <- app_assoc.
      by replace (n + 1 - length ps)%nat with (S (n - length ps)) by lia.
    + assert (take n ps = take k ps ++ [[]]) as ->.
      { rewrite (take_ge ps n) by lia. rewrite <- (take_drop k ps) at 1.
        rewrite (drop_S _ _ _ (Hlast ltac:(lia))), drop_ge by lia. done. }
      rewrite pre_app, E. replace (n + 1 - k)%nat with (S (S (n - length ps))) by lia.
      unfold pre. simpl. by rewrite <- !app_assoc.
Qed.

(** The pieces of the result of SET $ZPIECE of one piece. *)
Lemma pieces_set_1 c s f v : 1 <= f ->
  let n := Z.to_nat (f - 1) in
  exists ws, ws <> [] /\ pieces [c] (set_pieces [c] s f f v) =
  take n (pieces [c] s) ++ replicate (n - length (pieces [c] s)) [] ++ ws.
Proof.
  intros Hf n. unfold set_pieces. replace (Z.max 1 f) with f by lia. fold n.
  rewrite app_assoc, pieces_1_prefix by first
    [done | apply Forall_app; split; [apply Forall_take, pieces_1_no | apply Forall_replicate; simpl; tauto]].
  eexists. split; [|by rewrite <- app_assoc]. apply pieces_nonempty.
Qed.
