(* ===== verification/Piece.v ===== *)
(** $ZPIECE, SET $ZPIECE, $ZLENGTH with a delimiter and $ZFIND: matchc.c,
    op_fnzpiece.c, op_fnzp1.c, op_setzpiece.c, op_setzp1.c, op_fnzpopulation.c,
    op_fnzfind of op_fnfind.c, op_cat.c for two strings and the piece cache of
    fnpc.h.

    The memory is the string pool: the bytes up to [stringpool.free].  A cell
    that holds a string is its address, its length and its field [fnpc_indx],
    the number of the cache line it used last, plus one.  A pointer is an offset
    in the memory.  An operation takes the area of the cache and gives it back.
    The collector, which moves strings, is modelled by what it does to the
    cache ([stp_gcol_fnpc]); it runs between operations, and the run that
    ENSURE_STP_FREE_SPACE may cause inside of one is left out.  The operands
    are strings: the conversions of MV_FORCE_STR are those of Numstr, and
    $ZYSQLNULL and $PIECE on characters (UTF-8 mode) are left out. *)

From stdpp Require Import base list numbers option tactics.
From Stdlib Require Import ZArith Lia.
From S2P Require Import Prelude.

Open Scope Z_scope.

Definition MAX_STRLEN : Z := 1048576.
Definition FNPC_MAX : Z := 50.
Definition FNPC_ELEM_MAX : Z := 80.
Definition FNPC_INDX_INVALID : Z := 255.
Definition u64 (z : Z) : Z := z mod 18446744073709551616.

(** A string cell. *)
Record pmval := { p_addr : Z; p_len : Z; p_indx : Z }.

(** A line of the cache; [pstart] has [FNPC_ELEM_MAX + 1] elements. *)
Record fnpc := {
  last_addr : Z;
  last_len : Z;
  l_delim : Z;
  npcs : Z;
  l_indx : Z;
  byte_oriented : bool;
  pstart : list Z
}.

Record fnpc_area := { fnpcs : list fnpc; fnpcsteal : Z }.

Definition fnpc_at (a : fnpc_area) (i : Z) : res fnpc :=
  res_of (if i <? 0 then None else fnpcs a !! Z.to_nat i).

Definition fnpc_put (a : fnpc_area) (i : Z) (l : fnpc) : fnpc_area :=
  {| fnpcs := <[Z.to_nat i := l]> (fnpcs a); fnpcsteal := fnpcsteal a |}.

(** The area after init_gtm: zeros, and the number of each line. *)
Definition fnpc_zero (i : Z) : fnpc :=
  {| last_addr := 0; last_len := 0; l_delim := 0; npcs := 0; l_indx := i; byte_oriented := false;
     pstart := replicate 81 0 |}.

Definition fnpca_init : fnpc_area :=
  {| fnpcs := map fnpc_zero (seqZ 0 FNPC_MAX); fnpcsteal := 0 |}.

(** The collector forgets the strings of the cache. *)
Definition stp_gcol_fnpc (a : fnpc_area) : fnpc_area :=
  {| fnpcs := map (fun l => {| last_addr := 0; last_len := 0; l_delim := 0; npcs := npcs l; l_indx := l_indx l;
                               byte_oriented := byte_oriented l; pstart := pstart l |}) (fnpcs a);
     fnpcsteal := fnpcsteal a |}.

(** The bytes that a [memcpy] of [n] bytes copies. *)
Definition memcpy (m : list Z) (addr n : Z) : res (list Z) := if n =? 0 then Ok [] else rd_list m addr n.

(** ** matchb *)

(** Quick find of the first delimiter byte: [None] at the end of the source. *)
Fixpoint matchb_quick (fuel : nat) (m : list Z) (src_str src_top c : Z) : res (option Z) :=
  match fuel with
  | O => Err OUT_OF_FUEL
  | S fuel' =>
      x ← rd8 m src_str;
      if x =? c then Ok (Some src_str)
      else if src_str + 1 =? src_top then Ok None
      else matchb_quick fuel' m (src_str + 1) src_top c
  end.

(** The comparison from a first byte that matches. *)
Inductive match_state := match_found (src_ptr : Z) | match_lost | match_ended.

Fixpoint matchb_cmp (fuel : nat) (m : list Z) (src_ptr pdel del_top src_top : Z) : res match_state :=
  match fuel with
  | O => Err OUT_OF_FUEL
  | S fuel' =>
      x ← rd8 m src_ptr;
      y ← rd8 m pdel;
      let src_ptr := src_ptr + 1 in
      let pdel := pdel + 1 in
      if x =? y then
        if pdel =? del_top then Ok (match_found src_ptr)
        else if src_ptr =? src_top then Ok match_ended
        else matchb_cmp fuel' m src_ptr pdel del_top src_top
      else Ok match_lost
  end.

(** The results of matchb: the pointer, [*res] and [*numpcs]. *)
Definition NOMATCH (src_top numpcs_unmatched : Z) : Z * Z * Z := (src_top, 0, numpcs_unmatched).
Definition YESMATCH (src_ptr ret : Z) : Z * Z * Z := (src_ptr, ret, 0).

Fixpoint matchb_loop (fuel : nat) (m : list Z) (del_str del_top src_base src_top numpcs_unmatched src_str : Z) :
    res (Z * Z * Z) :=
  match fuel with
  | O => Err OUT_OF_FUEL
  | S fuel' =>
      if src_str <? src_top then
        c ← rd8 m del_str;
        q ← matchb_quick (S (length m)) m src_str src_top c;
        match q with
        | None => Ok (NOMATCH src_top numpcs_unmatched)
        | Some src_str =>
            r ← matchb_cmp (S (length m)) m src_str del_str del_top src_top;
            match r with
            | match_ended => Ok (NOMATCH src_top numpcs_unmatched)
            | match_lost => matchb_loop fuel' m del_str del_top src_base src_top numpcs_unmatched (src_str + 1)
            | match_found src_ptr =>
                if numpcs_unmatched - 1 =? 0 then Ok (YESMATCH src_ptr (1 + (src_ptr - src_base)))
                else matchb_loop fuel' m del_str del_top src_base src_top (numpcs_unmatched - 1) src_ptr
            end
        end
      else Ok (NOMATCH src_top numpcs_unmatched)
  end.

Definition matchb (m : list Z) (del_len del_str src_len src_str numpcs : Z) : res (Z * Z * Z) :=
  if del_len =? 0 then Ok (src_str, 1, 0)
  else if src_len <? del_len then Ok (NOMATCH (src_str + src_len) numpcs)
  else matchb_loop (S (length m)) m del_str (del_str + del_len) src_str (src_str + src_len) numpcs src_str.

(** ** op_fnzp1 *)

(** [ldelim.unibytes_val[0]], the byte of the delimiter. *)
Definition dlmc (delim : Z) : Z := u8 delim.

(** [while (last != end && *last != dlmc) last++;] *)
Fixpoint find_dlmc (fuel : nat) (m : list Z) (last end_ c : Z) : res Z :=
  match fuel with
  | O => Err OUT_OF_FUEL
  | S fuel' =>
      if last =? end_ then Ok last
      else x ← rd8 m last; if x =? c then Ok last else find_dlmc fuel' m (last + 1) end_ c
  end.

(** The variables of the scan: [first], [last], the index [pcoff] points to,
    the array and [cpcidx]. *)
Record scan := { sc_first : Z; sc_last : Z; sc_pcoff : Z; sc_pst : list Z; sc_cpcidx : Z }.

Fixpoint fnzp1_loop (fuel : nat) (m : list Z) (start end_ c trgpcidx : Z) (s : scan) : res scan :=
  match fuel with
  | O => Err OUT_OF_FUEL
  | S fuel' =>
      if (sc_cpcidx s <=? trgpcidx) && (sc_last s <? end_) then
        let first := sc_last s in
        last ← find_dlmc (S (length m)) m first end_ c;
        let last := last + 1 in
        '(pst, pcoff) ← (if sc_pcoff s <? FNPC_ELEM_MAX
                         then p ← res_of (wr (sc_pst s) (sc_pcoff s) (u32 (first - start))); Ok (p, sc_pcoff s + 1)
                         else Ok (sc_pst s, sc_pcoff s));
        '(pst, pcoff) ← (if pcoff =? FNPC_ELEM_MAX
                         then p ← res_of (wr pst pcoff (u32 (last - start))); Ok (p, pcoff + 1)
                         else Ok (pst, pcoff));
        fnzp1_loop fuel' m start end_ c trgpcidx
          {| sc_first := first; sc_last := last; sc_pcoff := pcoff; sc_pst := pst; sc_cpcidx := sc_cpcidx s + 1 |}
      else Ok s
  end.

(** From the scan to the end, for the line [i] of the cache. *)
Definition fnzp1_scan (m : list Z) (a : fnpc_area) (src : pmval) (i : Z) (l : fnpc)
    (first pcoff cpcidx delim trgpcidx junk : Z) : res (fnpc_area * pmval * pmval) :=
  let start := p_addr src in
  let spcidx := cpcidx in
  s ← fnzp1_loop (S (length m)) m start (start + p_len src) (dlmc delim) trgpcidx
        {| sc_first := first; sc_last := first; sc_pcoff := pcoff; sc_pst := pstart l; sc_cpcidx := cpcidx |};
  if spcidx =? sc_cpcidx s then
    Ok (fnpc_put a i l, src, {| p_addr := sc_first s; p_len := 0; p_indx := junk |})
  else
    pst ← (if sc_pcoff s <? FNPC_ELEM_MAX then res_of (wr (sc_pst s) (sc_pcoff s) (u32 (sc_last s - start)))
           else Ok (sc_pst s));
    let last := sc_last s - 1 in
    let l := {| last_addr := last_addr l; last_len := last_len l; l_delim := l_delim l;
                npcs := Z.min (npcs l + sc_cpcidx s - spcidx) FNPC_ELEM_MAX; l_indx := l_indx l;
                byte_oriented := byte_oriented l; pstart := pst |} in
    Ok (fnpc_put a i l, src,
        {| p_addr := sc_first s; p_len := if trgpcidx <? sc_cpcidx s then last - sc_first s else 0; p_indx := junk |}).

(** The next line to steal, and the area after that. *)
Definition fnpc_steal (a : fnpc_area) : Z * fnpc_area :=
  let i := if FNPC_MAX - 1 <? fnpcsteal a then 0 else fnpcsteal a in
  (i, {| fnpcs := fnpcs a; fnpcsteal := i + 1 |}).

(** The line of the cell, when it is valid for its string and the delimiter. *)
Definition fnpc_valid (a : fnpc_area) (src : pmval) (delim : Z) : res (option (Z * fnpc)) :=
  let i := u32 (p_indx src - 1) in
  if i <? FNPC_MAX then
    l ← fnpc_at a i;
    Ok (if (last_addr l =? p_addr src) && (last_len l =? p_len src) && (l_delim l =? delim) && byte_oriented l
        then Some (i, l) else None)
  else Ok None.

(** [op_fnzp1]: the area, the source cell and the result cell after it.  The
    code builds the result in a local cell whose [fnpc_indx] it does not set:
    [junk] is what is in it. *)
Definition op_fnzp1 (m : list Z) (a : fnpc_area) (src : pmval) (delim trgpcidx junk : Z) :
    res (fnpc_area * pmval * pmval) :=
  let start := p_addr src in
  if (trgpcidx <=? 0) || (p_len src =? 0) then Ok (a, src, {| p_addr := start; p_len := 0; p_indx := junk |})
  else
    v ← fnpc_valid a src delim;
    match v with
    | Some (i, l) =>
        if trgpcidx <=? npcs l then
          p0 ← rd8 (pstart l) (trgpcidx - 1);
          p1 ← rd8 (pstart l) trgpcidx;
          Ok (a, src, {| p_addr := start + p0; p_len := i32 (u32 (p1 - p0 - 1)); p_indx := junk |})
        else
          p ← rd8 (pstart l) (npcs l);
          let pcoff := if npcs l =? FNPC_ELEM_MAX then npcs l + 1 else npcs l in
          fnzp1_scan m a src i l (start + p) pcoff (npcs l + 1) delim trgpcidx junk
    | None =>
        let '(i, a) := fnpc_steal a in
        l ← fnpc_at a i;
        let l := {| last_addr := start; last_len := p_len src; l_delim := delim; npcs := 0; l_indx := l_indx l;
                    byte_oriented := true; pstart := pstart l |} in
        let src := {| p_addr := start; p_len := p_len src; p_indx := u8 (l_indx l + 1) |} in
        fnzp1_scan m a src i l start 0 1 delim trgpcidx junk
    end.

(** ** $ZPIECE *)

(** [op_fnzpiece]; [dst] is the destination before it. *)
Definition op_fnzpiece (m : list Z) (a : fnpc_area) (src del : pmval) (first last : Z) (dst : pmval) (junk : Z) :
    res (fnpc_area * pmval * pmval) :=
  let empty := {| p_addr := p_addr dst; p_len := 0; p_indx := p_indx dst |} in
  first ← int4 (first - 1);
  let first := if first <? 0 then 0 else first in
  piece_cnt ← int4 (last - first);
  if piece_cnt <? 1 then Ok (a, src, empty)
  else if (p_len del =? 1) && (piece_cnt =? 1) then
    c ← rd8 m (p_addr del); op_fnzp1 m a src c last junk
  else
    r ← (if negb (first =? 0)
         then '(match_start, match_res, _) ← matchb m (p_len del) (p_addr del) (p_len src) (p_addr src) first;
              Ok (if match_res =? 0 then None else Some match_start)
         else Ok (Some (p_addr src)));
    match r with
    | None => Ok (a, src, empty)
    | Some match_start =>
        let src_len := p_len src - (match_start - p_addr src) in
        '(src_str, match_res, _) ← matchb m (p_len del) (p_addr del) src_len match_start piece_cnt;
        let src_str := if negb (match_res =? 0) then src_str - p_len del else src_str in
        Ok (a, src, {| p_addr := match_start; p_len := src_str - match_start; p_indx := p_indx dst |})
    end.

(** ** SET $ZPIECE *)

(** What op_setzp1 decides before it builds the result: the length of the
    prefix, the delimiters to add, the place and length of the suffix, the lines
    of the cache to copy, and where to go on with the scan if it has to. *)
Record cutting := {
  pfx_str_len : Z;
  delim_cnt : Z;
  sfx_start_offset : Z;
  sfx_str_len : Z;
  cpy_cache_lines : Z;
  pfx_scan_offset : option Z
}.

(** [while ((start_sfx < end_src) && ((lc = *start_sfx) != ldelimc)) start_sfx++;] *)
Fixpoint scan_sfx (fuel : nat) (m : list Z) (start_sfx end_src ldelimc lc : Z) : res (Z * Z) :=
  match fuel with
  | O => Err OUT_OF_FUEL
  | S fuel' =>
      if start_sfx <? end_src then
        lc ← rd8 m start_sfx;
        if lc =? ldelimc then Ok (start_sfx, lc) else scan_sfx fuel' m (start_sfx + 1) end_src ldelimc lc
      else Ok (start_sfx, lc)
  end.

(** The loop on the pieces; the result is [end_pfx], [start_sfx], [lc] and
    [delim_cnt]. *)
Fixpoint scan_pieces (fuel : nat) (m : list Z) (start_sfx end_src ldelimc lc cnt : Z) : res (Z * Z * Z * Z) :=
  match fuel with
  | O => Err OUT_OF_FUEL
  | S fuel' =>
      let end_pfx := start_sfx in
      '(start_sfx, lc) ← scan_sfx (S (length m)) m start_sfx end_src ldelimc lc;
      let start_sfx := start_sfx + 1 in
      let cnt := cnt - 1 in
      if (0 <? cnt) && (start_sfx <? end_src) then scan_pieces fuel' m start_sfx end_src ldelimc lc cnt
      else Ok (end_pfx, start_sfx, lc, cnt)
  end.

(** The scan beyond the cache ([do_scan]). *)
Definition setzp1_scan (m : list Z) (src : pmval) (ldelimc offset : Z) (c : cutting) : res cutting :=
  let start := p_addr src + offset in
  let end_src := p_addr src + p_len src in
  '(end_pfx, start_sfx, cnt) ←
    (if (0 <? delim_cnt c) && (start <? end_src) then
       '(end_pfx, start_sfx, lc, cnt) ← scan_pieces (S (length m)) m start end_src ldelimc 0 (delim_cnt c);
       let start_sfx :=
         if (cnt =? 0) || (start_sfx <? end_src) || negb (lc =? ldelimc) then start_sfx - 1 else start_sfx in
       Ok (if (end_src <=? start_sfx) && (0 <? cnt)
           then (start_sfx, start_sfx, if lc =? ldelimc then cnt - 1 else cnt)
           else (end_pfx, start_sfx, cnt))
     else Ok (start, start, if 0 <? delim_cnt c then delim_cnt c - 1 else delim_cnt c));
  Ok {| pfx_str_len := Z.max 0 (end_pfx - p_addr src);
        delim_cnt := cnt;
        sfx_start_offset := start_sfx - p_addr src;
        sfx_str_len := Z.max 0 (p_len src - (start_sfx - p_addr src));
        cpy_cache_lines := cpy_cache_lines c;
        pfx_scan_offset := None |}.

(** The case analysis of op_setzp1, with the line of the source in the cache. *)
Definition setzp1_cut (m : list Z) (a : fnpc_area) (src : option pmval) (delim ind : Z) :
    res (fnpc_area * option pmval * Z * cutting) :=
  match src with
  | None =>
      Ok (a, None, 0, {| pfx_str_len := 0; delim_cnt := u64 (ind - 1); sfx_start_offset := 0; sfx_str_len := 0;
                         cpy_cache_lines := -1; pfx_scan_offset := None |})
  | Some s =>
      if p_len s =? 0 then
        Ok (a, src, 0, {| pfx_str_len := 0; delim_cnt := if 0 <? ind then ind - 1 else 0; sfx_start_offset := 0;
                          sfx_str_len := 0; cpy_cache_lines := -1; pfx_scan_offset := None |})
      else
        '(a, s, _) ← op_fnzp1 m a s delim (if ind <=? FNPC_ELEM_MAX then ind else FNPC_ELEM_MAX) 0;
        let i := u32 (p_indx s - 1) in
        l ← fnpc_at a i;
        c ← (if (ind <=? FNPC_ELEM_MAX) && (ind <=? npcs l) then
               p0 ← rd8 (pstart l) (ind - 1);
               p1 ← rd8 (pstart l) ind;
               Ok {| pfx_str_len := p0; delim_cnt := 0; sfx_start_offset := p1 - 1;
                     sfx_str_len := p_len s - p0 - (p1 - p0 - 1); cpy_cache_lines := ind - 1;
                     pfx_scan_offset := None |}
             else if (ind <=? FNPC_ELEM_MAX) || (npcs l <? FNPC_ELEM_MAX) then
               p ← rd8 (pstart l) (npcs l);
               Ok {| pfx_str_len := p - 1; delim_cnt := ind - npcs l; sfx_start_offset := 0; sfx_str_len := 0;
                     cpy_cache_lines := npcs l; pfx_scan_offset := None |}
             else
               p ← rd8 (pstart l) FNPC_ELEM_MAX;
               let '(pfx, more) := if p <? p_len s then (0, Some p) else (p - 1, None) in
               Ok {| pfx_str_len := pfx; delim_cnt := ind - FNPC_ELEM_MAX; sfx_start_offset := 0; sfx_str_len := 0;
                     cpy_cache_lines := FNPC_ELEM_MAX; pfx_scan_offset := more |});
        c ← (if pfx_scan_offset c is Some offset then setzp1_scan m s (dlmc delim) offset c else Ok c);
        Ok (a, Some s, i, c)
  end.

(** A line to steal that is not line [i]. *)
Fixpoint fnpc_steal_other (fuel : nat) (a : fnpc_area) (i : Z) : res (Z * fnpc_area) :=
  match fuel with
  | O => Err OUT_OF_FUEL
  | S fuel' =>
      let '(j, a) := fnpc_steal a in
      if j =? i then fnpc_steal_other fuel' a i else Ok (j, a)
  end.

(** The line of the result: the pieces of the prefix. *)
Definition setzp1_cache (a : fnpc_area) (i delim lines : Z) (dst : pmval) : res (fnpc_area * pmval) :=
  if 0 <? lines then
    lsrc ← fnpc_at a i;
    '(j, a) ← fnpc_steal_other 2 a i;
    l ← fnpc_at a j;
    p ← rd_list (pstart lsrc) 0 (lines + 1);
    let l := {| last_addr := p_addr dst; last_len := p_len dst; l_delim := delim; npcs := lines; l_indx := l_indx l;
                byte_oriented := true; pstart := p ++ drop (Z.to_nat (lines + 1)) (pstart l) |} in
    Ok (fnpc_put a j l, {| p_addr := p_addr dst; p_len := p_len dst; p_indx := u8 (l_indx l + 1) |})
  else Ok (a, {| p_addr := p_addr dst; p_len := p_len dst; p_indx := FNPC_INDX_INVALID |}).

(** [op_setzp1]: the memory, the area, the source and the result. *)
Definition op_setzp1 (m : list Z) (a : fnpc_area) (src : option pmval) (delim : Z) (expr : pmval) (ind : Z) :
    res (list Z * fnpc_area * option pmval * pmval) :=
  '(a, src, i, c) ← setzp1_cut m a src delim ind;
  let str_len := u64 (p_len expr + pfx_str_len c + delim_cnt c + sfx_str_len c) in
  if MAX_STRLEN <? str_len then Err ERR_MAXSTRLEN
  else
    let start_pfx := if src is Some s then p_addr s else 0 in
    pfx ← (if 0 <? pfx_str_len c then memcpy m start_pfx (pfx_str_len c) else Ok []);
    val ← (if 0 <? p_len expr then memcpy m (p_addr expr) (p_len expr) else Ok []);
    sfx ← (if 0 <? sfx_str_len c then memcpy m (start_pfx + sfx_start_offset c) (sfx_str_len c) else Ok []);
    let str := pfx ++ replicate (Z.to_nat (delim_cnt c)) (dlmc delim) ++ val ++ sfx in
    '(a, dst) ← setzp1_cache a i delim (cpy_cache_lines c)
                  {| p_addr := zlen m; p_len := zlen str; p_indx := FNPC_INDX_INVALID |};
    Ok (m ++ str, a, src, dst).

(** [op_cat] of two strings.  The first one is not copied when it is at the end
    of the string pool. *)
Definition op_cat2 (m : list Z) (s1 s2 dst : pmval) : res (list Z * pmval) :=
  if (MAX_STRLEN <? p_len s1) || (MAX_STRLEN <? p_len s1 + p_len s2) then Err ERR_MAXSTRLEN
  else
    b2 ← memcpy m (p_addr s2) (p_len s2);
    if p_addr s1 + p_len s1 =? zlen m then
      Ok (m ++ b2, {| p_addr := p_addr s1; p_len := zlen m + p_len s2 - p_addr s1; p_indx := p_indx dst |})
    else
      b1 ← memcpy m (p_addr s1) (p_len s1);
      Ok (m ++ b1 ++ b2, {| p_addr := zlen m; p_len := p_len s1 + p_len s2; p_indx := p_indx dst |}).

(** The two searches of op_setzpiece, for the prefix and for the pieces that the
    value replaces: the delimiters that are missing, and the offsets of the end
    of the prefix and of the suffix ([-1] when there is none). *)
Definition setzpiece_scan (m : list Z) (s del : pmval) (first second : Z) : res (Z * Z * Z) :=
  '(match_ptr, match_res, first) ←
    (if negb (first =? 0) then matchb m (p_len del) (p_addr del) (p_len s) (p_addr s) first
     else Ok (p_addr s, 1, first));
  let first_src_ind := match_ptr - p_addr s in
  if match_res =? 0 then Ok (first, first_src_ind, -1)
  else
    let src_len := p_len s - (match_ptr - p_addr s) in
    '(match_ptr, match_res, _) ← matchb m (p_len del) (p_addr del) src_len match_ptr second;
    Ok (first, first_src_ind, if match_res =? 0 then -1 else match_ptr - p_addr s - p_len del).

(** [op_setzpiece]. *)
Definition op_setzpiece (m : list Z) (a : fnpc_area) (src : option pmval) (del expr : pmval) (first last : Z)
    (dst : pmval) : res (list Z * fnpc_area * option pmval * pmval) :=
  first ← int4 (first - 1);
  let first := if first <? 0 then 0 else first in
  second ← int4 (last - first);
  if p_len del =? 0 then
    match src with
    | Some s =>
        if negb (first =? 0) then '(m, dst) ← op_cat2 m s expr dst; Ok (m, a, src, dst)
        else Ok (m, a, src, expr)
    | None => Ok (m, a, src, expr)
    end
  else if (if src is Some _ then (second =? 1) && (p_len del =? 1) else false) then
    c ← rd8 m (p_addr del); op_setzp1 m a src c expr last
  else
    '(first, first_src_ind, second_src_ind) ←
      (if src is Some s then setzpiece_scan m s del first second else Ok (first, 0, -1));
    let src_addr := if src is Some s then p_addr s else 0 in
    let src_len := if src is Some s then p_len s else 0 in
    let tail_len := src_len - second_src_ind in
    let str_len := u64 (p_len expr + (first_src_ind + p_len del * first) +
                        (if 0 <=? second_src_ind then tail_len else 0)) in
    if MAX_STRLEN <? str_len then Err ERR_MAXSTRLEN
    else
      pfx ← (if negb (first_src_ind =? 0) then memcpy m src_addr first_src_ind else Ok []);
      db ← memcpy m (p_addr del) (p_len del);
      val ← memcpy m (p_addr expr) (p_len expr);
      sfx ← (if 0 <=? second_src_ind then memcpy m (src_addr + second_src_ind) tail_len else Ok []);
      let str := pfx ++ concat (replicate (Z.to_nat first) db) ++ val ++ sfx in
      Ok (m ++ str, a, src, {| p_addr := zlen m; p_len := zlen str; p_indx := p_indx dst |}).

(** ** $ZFIND and $ZLENGTH with a delimiter *)

Definition op_fnzfind (m : list Z) (src del : pmval) (first : Z) : res Z :=
  first ← (if 0 <? first then int4 (first - 1) else Ok 0);
  if p_len del =? 0 then int4 (first + 1)
  else if first <? p_len src then
    '(_, match_res, _) ← matchb m (p_len del) (p_addr del) (p_len src - first) (p_addr src + first) 1;
    Ok (if negb (match_res =? 0) then first + match_res else 0)
  else Ok 0.

(** The delimiters beyond the cache. *)
Fixpoint count_beyond (fuel : nat) (m : list Z) (last end_ c piececnt : Z) : res Z :=
  match fuel with
  | O => Err OUT_OF_FUEL
  | S fuel' =>
      if last <? end_ then
        '(last, _) ← scan_sfx (S (length m)) m last end_ c 0;
        count_beyond fuel' m (last + 1) end_ c (piececnt + 1)
      else Ok piececnt
  end.

(** [ZGetPieceCountFromPieceCache]; the fuel is the depth of its recursion. *)
Fixpoint piece_count (fuel : nat) (m : list Z) (a : fnpc_area) (src : pmval) (c : Z) :
    res (fnpc_area * pmval * Z) :=
  match fuel with
  | O => Err OUT_OF_FUEL
  | S fuel' =>
      v ← fnpc_valid a src c;
      match v with
      | Some (i, l) =>
          p ← rd8 (pstart l) (npcs l);
          if p_len src <=? p then Ok (a, src, npcs l)
          else if negb (npcs l =? FNPC_ELEM_MAX) then
            '(a, src, _) ← op_fnzp1 m a src c FNPC_ELEM_MAX 0;
            piece_count fuel' m a src c
          else
            p ← rd8 (pstart l) FNPC_ELEM_MAX;
            n ← count_beyond (S (length m)) m (p_addr src + p) (p_addr src + p_len src) c (npcs l);
            Ok (a, src, n)
      | None =>
          '(a, src, _) ← op_fnzp1 m a src c FNPC_ELEM_MAX 0;
          piece_count fuel' m a src c
      end
  end.

(** The loop of $ZFIND calls. *)
Fixpoint count_finds (fuel : nat) (m : list Z) (src del : pmval) (charidx piececnt : Z) : res Z :=
  match fuel with
  | O => Err OUT_OF_FUEL
  | S fuel' =>
      if negb (charidx =? 0) then
        charidx ← op_fnzfind m src del charidx;
        count_finds fuel' m src del charidx (piececnt + 1)
      else Ok piececnt
  end.

(** [op_fnzpopulation], up to the conversion of the count to a cell. *)
Definition op_fnzpopulation (m : list Z) (a : fnpc_area) (src del : pmval) : res (fnpc_area * pmval * Z) :=
  if 0 <? p_len src then
    if p_len del =? 0 then Ok (a, src, 0)
    else if p_len del =? 1 then
      c ← rd8 m (p_addr del);
      '(a, src, n) ← piece_count 3 m a src c;
      x ← rd8 m (p_addr src + p_len src - 1);
      Ok (a, src, if c =? x then n + 1 else n)
    else
      n ← count_finds (length m + 2) m src del 1 0; Ok (a, src, n)
  else Ok (a, src, if 0 <? p_len del then 1 else 0).
