(* ===== verification/Piecematch.v ===== *)
(** [matchb] of matchc.c skips pieces of a string: its results are those of
    [skip] ([matchb_skip]), and $ZFIND is the search for the leftmost delimiter.
    [str_at m p s] says that the memory holds the bytes [s] at [p]. *)

From stdpp Require Import base list numbers option tactics.
From Stdlib Require Import ZArith Lia.
From S2P Require Import Prelude Piecespec Piece.

Open Scope Z_scope.

Definition str_at (m : list Z) (p : Z) (s : list Z) : Prop := exists t1 t2, m = t1 ++ s ++ t2 /\ p = zlen t1.

Create HintDb mem discriminated.

Lemma has_cons m p x s : str_at m p (x :: s) -> rd8 m p = Ok x /\ str_at m (p + 1) s.
Proof.
  intros (t1 & t2 & -> & ->). split; [unfold rd8; simpl; by rewrite rd_mid|].
  exists (t1 ++ [x]), t2. split; [by rewrite <- app_assoc|]. rewrite zlen_app. done.
Qed.

Lemma has_app m p s t : str_at m p (s ++ t) <-> str_at m p s /\ str_at m (p + zlen s) t.
Proof.
  split.
  - intros (t1 & t2 & -> & ->). split; [by exists t1, (t ++ t2); rewrite <- app_assoc|].
    exists (t1 ++ s), t2. split; [by rewrite <- !app_assoc|]. by rewrite zlen_app.
  - intros [(t1 & t2 & E1 & ->) (t3 & t4 & E2 & E3)].
    assert (t3 = t1 ++ s) as ->.
    { rewrite E1, app_assoc in E2. apply app_inj_1 in E2 as [<- _]; [done|].
      rewrite <- zlen_app in E3. unfold zlen in E3. lia. }
    exists t1, t4. split; [|done]. by rewrite E2, <- !app_assoc.
Qed.

Lemma has_bound m p s : str_at m p s -> 0 <= p /\ p + zlen s <= zlen m.
Proof.
  intros (t1 & t2 & -> & ->). rewrite !zlen_app.
  pose proof (zlen_nonneg t1). pose proof (zlen_nonneg t2). lia.
Qed.

Lemma has_rd_list m p s : str_at m p s -> rd_list m p (zlen s) = Ok s.
Proof.
  intros H. pose proof (has_bound _ _ _ H). destruct H as (t1 & t2 & -> & ->). unfold zlen.
  apply rd_list_spec; [by unfold zlen in *; lia| |].
  - rewrite !zlen_app. unfold zlen. lia.
  - rewrite Nat2Z.id, drop_app_length. apply take_app_length.
Qed.

Lemma has_of_rd_list m p n s : rd_list m p n = Ok s -> str_at m p s /\ zlen s = n.
Proof.
  unfold rd_list. zcase; [|done]. intros [= <-]. unfold zlen in *.
  split; [|rewrite length_take, length_drop; lia].
  exists (take (Z.to_nat p) m), (drop (Z.to_nat n) (drop (Z.to_nat p) m)).
  rewrite take_drop, take_drop. split; [done|]. unfold zlen. rewrite length_take. lia.
Qed.

Lemma has_grow m t p s : str_at m p s -> str_at (m ++ t) p s.
Proof. intros (t1 & t2 & -> & ->). exists t1, (t2 ++ t). split; [|done]. by rewrite <- !app_assoc. Qed.

Lemma has_new m t : str_at (m ++ t) (zlen m) t.
Proof. exists m, []. by rewrite app_nil_r. Qed.

Lemma has_drop m p s i : 0 <= i <= zlen s -> str_at m p s -> str_at m (p + i) (drop (Z.to_nat i) s).
Proof.
  intros Hi. rewrite <- (take_drop (Z.to_nat i) s) at 1. intros [_ H]%has_app.
  replace (p + i) with (p + zlen (take (Z.to_nat i) s)); [done|]. unfold zlen in *. rewrite length_take. lia.
Qed.

Lemma has_take m p s i : str_at m p s -> str_at m p (take i s).
Proof. rewrite <- (take_drop i s) at 1. by intros [? _]%has_app. Qed.

Lemma has_rd8 m p s i x : str_at m p s -> rd s i = Some x -> rd8 m (p + i) = Ok x.
Proof.
  intros (t1 & t2 & -> & ->) H. pose proof (rd_Some_range _ _ _ H). unfold rd8.
  rewrite rd_app_r, rd_app_l by lia. by replace (zlen t1 + i - zlen t1) with i by lia; rewrite H.
Qed.

#[export] Hint Resolve has_grow has_new has_take : mem.

(** ** The two inner loops *)

Lemma matchb_quick_spec fuel m p s c : s <> [] -> (length s < fuel)%nat -> str_at m p s ->
  matchb_quick fuel m p (p + zlen s) c =
  Ok (match cut_at [c] s with Some (a, _) => Some (p + zlen a) | None => None end).
Proof.
  revert p s. induction fuel as [|fuel IH]; intros p s Hs Hf H; [lia|].
  destruct s as [|x s]; [done|]. apply has_cons in H as [Hx H]. simpl matchb_quick. rewrite Hx, res_bind_ok.
  simpl cut_at. rewrite (Z.eqb_sym c x). destruct (Z.eqb_spec x c); [unfold zlen; simpl; do 2 f_equal; lia|].
  rewrite zlen_cons. destruct s as [|y s].
  - replace (p + 1 =? p + (1 + zlen [])) with true by (symmetry; apply Z.eqb_eq; unfold zlen; simpl; lia). done.
  - pose proof (zlen_nonneg s).
    replace (p + 1 =? p + (1 + zlen (y :: s))) with false by (symmetry; apply Z.eqb_neq; rewrite zlen_cons; lia).
    replace (p + (1 + zlen (y :: s))) with (p + 1 + zlen (y :: s)) by lia.
    rewrite IH by (done || (simpl in *; lia)).
    destruct (cut_at [c] (y :: s)) as [[a r]|]; [|done]. rewrite zlen_cons. do 2 f_equal. lia.
Qed.

Lemma matchb_cmp_spec fuel m p pd s d : s <> [] -> d <> [] -> (length s < fuel)%nat -> str_at m p s -> str_at m pd d ->
  exists st, matchb_cmp fuel m p pd (pd + zlen d) (p + zlen s) = Ok st /\
  match strip d s with
  | Some _ => st = match_found (p + zlen d)
  | None => st = match_lost \/ (st = match_ended /\ (length s < length d)%nat)
  end.
Proof.
  revert p pd s d. induction fuel as [|fuel IH]; intros p pd s d Hs Hd Hf H1 H2; [lia|].
  destruct s as [|x s]; [done|]. destruct d as [|y d]; [done|].
  apply has_cons in H1 as [Hx H1]. apply has_cons in H2 as [Hy H2].
  simpl matchb_cmp. rewrite Hx, Hy, !res_bind_ok. simpl strip. rewrite (Z.eqb_sym y x).
  destruct (Z.eqb_spec x y); [|by eexists; split; [|left]]. rewrite !zlen_cons.
  destruct d as [|y' d].
  - replace (pd + 1 =? pd + (1 + zlen [])) with true by (symmetry; apply Z.eqb_eq; unfold zlen; simpl; lia).
    eexists. split; [done|]. simpl. unfold zlen. simpl. f_equal; lia.
  - pose proof (zlen_nonneg d).
    replace (pd + 1 =? pd + (1 + zlen (y' :: d))) with false by (symmetry; apply Z.eqb_neq; rewrite zlen_cons; lia).
    destruct s as [|x' s].
    + replace (p + 1 =? p + (1 + zlen [])) with true by (symmetry; apply Z.eqb_eq; unfold zlen; simpl; lia).
      eexists. split; [done|]. right. simpl. split; [done|lia].
    + pose proof (zlen_nonneg s).
      replace (p + 1 =? p + (1 + zlen (x' :: s))) with false by (symmetry; apply Z.eqb_neq; rewrite zlen_cons; lia).
      replace (p + (1 + zlen (x' :: s))) with (p + 1 + zlen (x' :: s)) by lia.
      replace (pd + (1 + zlen (y' :: d))) with (pd + 1 + zlen (y' :: d)) by lia.
      destruct (IH (p + 1) (pd + 1) (x' :: s) (y' :: d)) as (st & E & Hst); [done|done|simpl in *; lia|done|done|].
      exists st. split; [done|]. destruct (strip (y' :: d) (x' :: s)); [subst; f_equal; lia|].
      destruct Hst as [?|[??]]; [by left|right]. split; [done|simpl in *; lia].
Qed.

(** ** The whole search *)

Lemma split_at_head c d s :
  cut_at (c :: d) s =
  match cut_at [c] s with
  | Some (a, r) => match cut_at (c :: d) (c :: r) with Some (a', r') => Some (a ++ a', r') | None => None end
  | None => None
  end.
Proof.
  induction s as [|x s IH]; [done|]. simpl cut_at at 2. destruct (Z.eqb_spec c x) as [->|Hn].
  - by destruct (cut_at (x :: d) (x :: s)) as [[]|].
  - rewrite split_at_cons by (simpl; destruct (Z.eqb_spec c x); congruence). rewrite IH.
    destruct (cut_at [c] s) as [[a r]|]; [|done]. by destruct (cut_at (c :: d) (c :: r)) as [[]|].
Qed.

Lemma skip_split d n s t : (0 < n)%nat -> snd <$> cut_at d s = snd <$> cut_at d t -> skip d n s = skip d n t.
Proof.
  destruct n as [|n]; [lia|]. simpl. intros _.
  destruct (cut_at d s) as [[]|], (cut_at d t) as [[]|]; simpl; congruence.
Qed.

(** The results of [matchb], from those of [skip]. *)
Definition matched (p len : Z) (r : nat * list Z) : Z * Z * Z :=
  match r with
  | (O, rest) => (p + len - zlen rest, 1 + (len - zlen rest), 0)
  | (u, _) => (p + len, 0, Z.of_nat u)
  end.

Lemma matched_end p len n : (0 < n)%nat -> matched p len (n, []) = NOMATCH (p + len) (Z.of_nat n).
Proof. by destruct n; [lia|]. Qed.

Lemma matchb_loop_spec fuel m p pd d base len n s : d <> [] -> (length s < fuel)%nat -> (0 < n)%nat ->
  str_at m p s -> str_at m pd d -> p + zlen s = base + len ->
  matchb_loop fuel m pd (pd + zlen d) base (base + len) (Z.of_nat n) p = Ok (matched base len (skip d n s)).
Proof.
  intros Hd. revert p s n. induction fuel as [|fuel IH]; intros p s n Hf Hn H1 H2 Htop; [lia|].
  pose proof (has_bound _ _ _ H1) as Hb. unfold zlen in Hb.
  cbn [matchb_loop]. rewrite <- Htop. destruct d as [|c d']; [done|]. set (d := c :: d') in *.
  destruct (has_cons _ _ _ _ H2) as [Hc _]. destruct s as [|x s'].
  { replace (p <? p + zlen []) with false by (symmetry; apply Z.ltb_ge; unfold zlen; simpl; lia).
    destruct n; [lia|]. rewrite Htop. done. }
  set (s := x :: s') in *.
  replace (p <? p + zlen s) with true by (symmetry; apply Z.ltb_lt; subst s; rewrite zlen_cons; pose proof (zlen_nonneg s'); lia).
  rewrite Hc, res_bind_ok, matchb_quick_spec, res_bind_ok by (done || lia).
  assert (cut_at d s = match cut_at [c] s with
     Some (a, r) => match cut_at d (c :: r) with Some (a', r') => Some (a ++ a', r') | None => None end | None => None end)
    as Esp by apply split_at_head.
  destruct (cut_at [c] s) as [[a r]|] eqn:E1.
  2: { destruct n as [|n]; [lia|]. cbn [skip]. rewrite Esp, matched_end, Htop by lia. done. }
  pose proof (split_at_spec _ _ _ _ E1) as Es. change ([c] ++ r) with (c :: r) in Es.
  rewrite Es in H1. apply has_app in H1 as [_ H1].
  assert (p + zlen s = p + zlen a + zlen (c :: r)) as -> by (rewrite Es, zlen_app; lia).
  assert (length s = length a + S (length r))%nat as Ls by (rewrite Es, length_app; done).
  destruct (matchb_cmp_spec (S (length m)) m (p + zlen a) pd (c :: r) d) as (st & -> & Hst); auto.
  { simpl. lia. }
  rewrite res_bind_ok. rewrite (split_at_unfold d (c :: r)) in Esp.
  destruct (strip d (c :: r)) as [r2|] eqn:E2; [subst st|destruct Hst as [->|[-> Hlt]]].
  - rewrite app_nil_r in Esp. apply strip_spec in E2. rewrite E2 in H1. apply has_app in H1 as [_ H1].
    assert (p + zlen a + zlen (c :: r) = p + zlen a + zlen d + zlen r2) as -> by (rewrite E2, zlen_app; lia).
    assert (base + len = p + zlen a + zlen d + zlen r2) as Et.
    { rewrite <- Htop, Es, E2, !zlen_app. lia. }
    destruct n as [|n]; [lia|]. cbn [skip]. rewrite Esp. destruct n as [|n].
    + simpl. unfold YESMATCH. do 3 f_equal; lia.
    + replace (Z.of_nat (S (S n)) - 1 =? 0) with false by (symmetry; apply Z.eqb_neq; lia).
      replace (Z.of_nat (S (S n)) - 1) with (Z.of_nat (S n)) by lia. rewrite <- Et.
      apply IH; [|lia|done|done|lia]. assert (length (c :: r) = length d + length r2)%nat by (by rewrite E2, length_app).
      simpl in *. lia.
  - apply has_cons in H1 as [_ H1]. rewrite zlen_cons.
    replace (p + zlen a + (1 + zlen r)) with (base + len) by (rewrite <- Htop, Es, zlen_app, zlen_cons; lia).
    rewrite (IH _ r n); [|lia|done|done|done|rewrite <- Htop, Es, zlen_app, zlen_cons; lia].
    do 2 f_equal. apply skip_split; [done|]. rewrite Esp. by destruct (cut_at d r) as [[]|].
  - assert (cut_at d (c :: r) = None) as En by (apply split_at_short; [done|exact Hlt]).
    rewrite (split_at_unfold d (c :: r)), E2 in En. rewrite En in Esp.
    destruct n as [|n]; [lia|]. cbn [skip]. rewrite Esp, matched_end by lia.
    replace (p + zlen a + zlen (c :: r)) with (base + len) by (rewrite <- Htop, Es, zlen_app; lia). done.
Qed.

Lemma matchb_skip m p pd d s n : d <> [] -> (0 < n)%nat -> str_at m p s -> str_at m pd d ->
  matchb m (zlen d) pd (zlen s) p (Z.of_nat n) = Ok (matched p (zlen s) (skip d n s)).
Proof.
  intros Hd Hn H1 H2. unfold matchb. pose proof (has_bound _ _ _ H1) as Hb. unfold zlen in Hb.
  replace (zlen d =? 0) with false by (symmetry; apply Z.eqb_neq; destruct d; [done|]; rewrite zlen_cons; pose proof (zlen_nonneg d); lia).
  zcase.
  - destruct n as [|n]; [lia|]. cbn [skip]. rewrite split_at_short, matched_end by (done || unfold zlen in *; lia). done.
  - apply matchb_loop_spec; auto. lia.
Qed.

Lemma matchb_null m p pd len n : matchb m 0 pd len p n = Ok (p, 1, 0).
Proof. done. Qed.
