(* ===== verification/Piececache.v ===== *)
(** The piece cache.  [area_ok] says that each line of the cache that holds a
    string knows where its first pieces start; [op_fnzp1] gives the piece
    whatever the state of the cache, and leaves it so ([op_fnzp1_ok]). *)

From stdpp Require Import base list numbers option tactics.
From Stdlib Require Import ZArith Lia.
From S2P Require Import Prelude Piecespec Piece Piecematch.

Open Scope Z_scope.

(** The cell holds the string [s].  An empty string may have any address. *)
Definition str_is (m : list Z) (v : pmval) (s : list Z) : Prop :=
  p_len v = zlen s /\ zlen s <= MAX_STRLEN /\ (s = [] \/ str_at m (p_addr v) s).

(** The elements of [pst] at least up to [n] are the offsets of the pieces of
    [s], and piece [n - 1] starts inside of it. *)
Definition offz (c : Z) (s : list Z) (k : Z) : Z := off [c] (pieces [c] s) (Z.to_nat k).

Definition covers (c : Z) (s : list Z) (n : Z) (pst : list Z) : Prop :=
  0 <= n <= FNPC_ELEM_MAX /\ (n = 0 \/ offz c s (n - 1) < zlen s) /\
  forall i, 0 <= i <= n -> rd pst i = Some (offz c s i).

Definition line_ok (m : list Z) (l : fnpc) : Prop :=
  zlen (pstart l) = FNPC_ELEM_MAX + 1 /\
  (byte_oriented l = true -> 0 < last_len l ->
   exists s, str_at m (last_addr l) s /\ zlen s = last_len l /\ covers (dlmc (l_delim l)) s (npcs l) (pstart l)).

Definition area_ok (m : list Z) (a : fnpc_area) : Prop :=
  length (fnpcs a) = 50%nat /\ 0 <= fnpcsteal a <= FNPC_MAX /\
  forall i l, fnpcs a !! i = Some l -> l_indx l = Z.of_nat i /\ line_ok m l.

(** ** The scan of a string *)

Section scan.
Context (m : list Z) (start c : Z) (s : list Z).
Hypothesis Hs : str_at m start s.
Hypothesis Hmax : zlen s <= MAX_STRLEN.
Local Notation "'PS'" := (pieces [c] s).
Local Notation "'OF'" := (offz c s).

Lemma offz_0 : OF 0 = 0.
Proof. apply off_0. Qed.

Lemma offz_nonneg k : 0 <= OF k.
Proof. apply off_nonneg. Qed.

Lemma offz_mono i j : i <= j -> OF i <= OF j.
Proof. intros. apply off_mono. lia. Qed.

Lemma offz_max k : OF k <= zlen s + 1.
Proof.
  unfold offz. etransitivity; [apply (off_mono _ _ _ (Z.to_nat k + length PS)); lia|].
  rewrite off_total by (apply pieces_nonempty || lia). rewrite join_pieces by done. done.
Qed.

(** A piece that starts inside of the string is one of its pieces. *)
Lemma offz_inside k : 0 <= k -> OF k < zlen s -> exists p, PS !! Z.to_nat k = Some p /\ OF (k + 1) = OF k + zlen p + 1.
Proof.
  unfold offz. intros Hk H. destruct (PS !! Z.to_nat k) as [p|] eqn:E.
  - exists p. split; [done|]. replace (Z.to_nat (k + 1)) with (S (Z.to_nat k)) by lia.
    by rewrite (off_S _ _ _ _ E).
  - apply lookup_ge_None in E. rewrite off_total in H by (apply pieces_nonempty || done).
    rewrite join_pieces in H by done. unfold zlen in H at 2. simpl in H. lia.
Qed.

Lemma offz_end k : 0 <= k -> zlen s <= OF k -> PS !! Z.to_nat k = None \/ PS !! Z.to_nat k = Some [].
Proof.
  unfold offz. intros Hk H. destruct (PS !! Z.to_nat k) as [p|] eqn:E; [right|by left].
  pose proof (lookup_lt_Some _ _ _ E) as Hlt. pose proof (off_le [c] PS (Z.to_nat k) Hlt) as Hl.
  rewrite join_pieces in Hl by done. rewrite (drop_S _ _ _ E), join_suf, zlen_app in Hl.
  pose proof (zlen_nonneg p). pose proof (zlen_nonneg (suf [c] (drop (S (Z.to_nat k)) PS))).
  f_equal. destruct p; [done|]. rewrite zlen_cons in *. pose proof (zlen_nonneg p). lia.
Qed.

Lemma offz_has k p : 0 <= k -> PS !! Z.to_nat k = Some p ->
  str_at m (start + OF k) (p ++ suf [c] (drop (S (Z.to_nat k)) PS)) /\ ~ In c p /\
  OF k + zlen p + zlen (suf [c] (drop (S (Z.to_nat k)) PS)) = zlen s.
Proof.
  intros Hk E. pose proof (lookup_lt_Some _ _ _ E) as Hlt.
  assert (p ++ suf [c] (drop (S (Z.to_nat k)) PS) = joined [c] (drop (Z.to_nat k) PS)) as Ej
    by by rewrite (drop_S _ _ _ E), join_suf.
  pose proof (off_le [c] PS (Z.to_nat k) Hlt) as Hl. rewrite join_pieces, <- Ej, zlen_app in Hl by done.
  split_and!.
  - pose proof (off_drop [c] PS (Z.to_nat k) Hlt) as Hd. rewrite join_pieces in Hd by done.
    rewrite Ej, <- Hd. apply has_drop; [|done]. unfold offz. split; [apply off_nonneg|].
    pose proof (zlen_nonneg p). pose proof (zlen_nonneg (suf [c] (drop (S (Z.to_nat k)) PS))). lia.
  - pose proof (pieces_1_no c s) as Hn. by eapply Forall_lookup_1 in Hn.
  - unfold offz. lia.
Qed.

Lemma find_dlmc_spec fuel p t r : str_at m p (t ++ suf [c] r) -> ~ In c t -> (length t < fuel)%nat ->
  find_dlmc fuel m p (p + zlen (t ++ suf [c] r)) c = Ok (p + zlen t).
Proof.
  revert p t. induction fuel as [|fuel IH]; intros p t H Hc Hf; [lia|]. simpl find_dlmc.
  destruct t as [|x t]; simpl in H |- *.
  - destruct r as [|q r]; [unfold suf, zlen; simpl; by rewrite !Z.add_0_r, Z.eqb_refl|].
    assert (suf [c] (q :: r) = c :: q ++ suf [c] r) as E by done. rewrite E in H |- *.
    destruct (has_cons _ _ _ _ H) as [-> _]. rewrite zlen_cons. pose proof (zlen_nonneg (q ++ suf [c] r)).
    zif_false. rewrite res_bind_ok, Z.eqb_refl. f_equal. unfold zlen. simpl. lia.
  - destruct (has_cons _ _ _ _ H) as [-> H']. rewrite zlen_cons. pose proof (zlen_nonneg (t ++ suf [c] r)).
    zif_false. rewrite res_bind_ok.
    replace (x =? c) with false by (symmetry; apply Z.eqb_neq; simpl in Hc; tauto).
    replace (p + (1 + zlen (t ++ suf [c] r))) with (p + 1 + zlen (t ++ suf [c] r)) by lia.
    rewrite IH; [rewrite zlen_cons; f_equal; lia|done|simpl in Hc; tauto|simpl in Hf; lia].
Qed.

(** The elements of the array after [k] pieces. *)
Definition pc (k : Z) : Z := if k <? 80 then k else 81.
Definition pst_upto (k : Z) (pst : list Z) : Prop :=
  zlen pst = 81 /\ forall i, 0 <= i <= 80 -> i < k \/ 80 <= k -> rd pst i = Some (OF i).

Lemma u32_off k : u32 (start + OF k - start) = OF k.
Proof.
  pose proof (offz_nonneg k). pose proof (offz_max k). unfold u32, MAX_STRLEN in *.
  rewrite Z.mod_small; lia.
Qed.

Lemma store_wr pst i : zlen pst = 81 -> 0 <= i <= 80 ->
  exists pst', wr pst i (u32 (start + OF i - start)) = Some pst' /\ zlen pst' = 81 /\
  forall j, 0 <= j -> rd pst' j = if i =? j then Some (OF i) else rd pst j.
Proof.
  intros Hl Hi. rewrite u32_off, wr_in_range by lia. eexists. split; [done|].
  split; [by rewrite zlen_insert|]. intros j Hj. apply rd_insert; lia.
Qed.

Lemma store_step k pst : 0 <= k -> pst_upto k pst ->
  exists pst', ('(pst, pcoff) ← (if pc k <? FNPC_ELEM_MAX
                         then p ← res_of (wr pst (pc k) (u32 (start + OF k - start))); Ok (p, pc k + 1)
                         else Ok (pst, pc k));
        (if pcoff =? FNPC_ELEM_MAX
                         then p ← res_of (wr pst pcoff (u32 (start + OF (k + 1) - start))); Ok (p, pcoff + 1)
                         else Ok (pst, pcoff))) = Ok (pst', pc (k + 1)) /\ pst_upto (k + 1) pst'.
Proof.
  intros Hk [Hl Hst]. unfold pc, FNPC_ELEM_MAX in *. destruct (Z.ltb_spec k 80) as [Hlt|Hge].
  - zif_true. destruct (store_wr pst k Hl) as (pst' & -> & Hl' & Hr); [lia|]. simpl.
    destruct (Z.eqb_spec (k + 1) 80) as [He|Hn].
    + rewrite He. destruct (store_wr pst' 80 Hl') as (pst2 & -> & Hl2 & Hr2); [lia|]. simpl.
      eexists. split; [done|]. split; [done|]. intros i Hi _. rewrite Hr2, Hr by lia.
      destruct (Z.eqb_spec 80 i); [by subst|]. destruct (Z.eqb_spec k i); [by subst|]. apply Hst; lia.
    + eexists. split; [by zif_true|]. split; [done|]. intros i Hi Hi2. rewrite Hr by lia.
      destruct (Z.eqb_spec k i); [by subst|]. apply Hst; lia.
  - simpl. eexists. split; [by zif_false|]. split; [done|]. intros i Hi _. apply Hst; lia.
Qed.

Definition scan_inv (k : Z) (sc : scan) : Prop :=
  0 <= k /\ (k = 0 \/ OF (k - 1) < zlen s) /\ sc_cpcidx sc = k + 1 /\ sc_last sc = start + OF k /\
  sc_pcoff sc = pc k /\ pst_upto k (sc_pst sc).

Lemma fnzp1_loop_spec fuel trg k sc : scan_inv k sc -> Z.max 0 (zlen s - OF k) < Z.of_nat fuel ->
  exists k' sc', fnzp1_loop fuel m start (start + zlen s) c trg sc = Ok sc' /\ scan_inv k' sc' /\ k <= k' /\
    (k' = k /\ sc' = sc \/ k < k' <= trg /\ sc_first sc' = start + OF (k' - 1)) /\ (trg <= k' \/ zlen s <= OF k').
Proof.
  revert k sc. induction fuel as [|fuel IH]; intros k sc Hinv Hf; [lia|].
  pose proof Hinv as (Hk & Hr & Hcp & Hlast & Hpc & Hst). cbn [fnzp1_loop].
  rewrite Hcp, Hlast. zcase.
  2: { exists k, sc. split_and!; [done|done|lia|by left|].
       apply andb_false_iff in Heqb as [?|?]; zbool; lia. }
  destruct (offz_inside k) as (p & Ep & Enext); [lia|lia|].
  destruct (offz_has k p Hk Ep) as (Hh & Hc & Hlen).
  pose proof (has_bound _ _ _ Hh) as Hb. rewrite zlen_app in Hb. unfold zlen in Hb.
  pose proof (offz_nonneg k) as Hok. unfold zlen in Hok. pose proof (has_bound _ _ _ Hs) as Hb2.
  replace (start + zlen s) with (start + OF k + zlen (p ++ suf [c] (drop (S (Z.to_nat k)) PS)))
    by (rewrite zlen_app; lia).
  rewrite find_dlmc_spec by (done || lia). rewrite res_bind_ok.
  replace (start + OF k + zlen (p ++ suf [c] (drop (S (Z.to_nat k)) PS))) with (start + zlen s)
    by (rewrite zlen_app; lia).
  replace (start + OF k + zlen p + 1) with (start + OF (k + 1)) by lia.
  destruct (store_step k (sc_pst sc) Hk Hst) as (pst' & Est & Hst'). rewrite <- Hpc in Est.
  destruct (if sc_pcoff sc <? FNPC_ELEM_MAX then _ else _) as [[pst1 pc1]|] in Est |- *; [|done].
  cbn [mbind res_bind] in Est |- *. rewrite Est.
  edestruct (IH (k + 1)) as (k' & sc' & E & Hi' & Hkk & Hfirst & Hend); [| |exists k', sc'; split; [exact E|]].
  - split_and!; simpl; [lia| |lia|done|done|done]. right. replace (k + 1 - 1) with k by lia. lia.
  - pose proof (zlen_nonneg p). lia.
  - split_and!; [done|lia| |done]. right. destruct Hfirst as [[-> ->]|[? ?]]; simpl.
    + split; [lia|]. do 2 f_equal. lia.
    + split; [lia|done].
Qed.
End scan.

(** ** The lines of the cache *)

(** The line is that of the string of the cell, cut at the delimiter. *)
Definition line_key (src : pmval) (delim : Z) (s : list Z) (l : fnpc) : Prop :=
  last_addr l = p_addr src /\ last_len l = zlen s /\ l_delim l = delim /\ byte_oriented l = true /\
  zlen (pstart l) = FNPC_ELEM_MAX + 1.

Definition line_of (src : pmval) (delim : Z) (s : list Z) (l : fnpc) : Prop :=
  line_key src delim s l /\ covers (dlmc delim) s (npcs l) (pstart l).

Lemma has_inj m p s t : str_at m p s -> str_at m p t -> zlen s = zlen t -> s = t.
Proof. intros H1%has_rd_list H2%has_rd_list E. rewrite E in H1. congruence. Qed.

Lemma str_is_has m v s : str_is m v s -> s <> [] -> str_at m (p_addr v) s.
Proof. intros (_ & _ & [->|H]); done. Qed.

Lemma str_is_grow m t v s : str_is m v s -> str_is (m ++ t) v s.
Proof. intros (? & ? & [?|?]); split_and!; auto with mem. Qed.

Lemma line_of_ok m src delim s l : str_at m (p_addr src) s -> line_of src delim s l -> line_ok m l.
Proof.
  intros H ((Ea & El & Ed & _ & Hl) & Hc). split; [done|]. intros _ _. exists s.
  rewrite Ea, Ed. by split_and!.
Qed.

Lemma line_ok_grow m t l : line_ok m l -> line_ok (m ++ t) l.
Proof.
  intros [Hl H]. split; [done|]. intros Hb Hp. destruct (H Hb Hp) as (s & ? & ? & ?).
  exists s. split_and!; auto with mem.
Qed.

Lemma area_ok_grow m t a : area_ok m a -> area_ok (m ++ t) a.
Proof.
  intros (? & ? & H). split_and!; [done|lia|lia|]. intros i l E. destruct (H i l E). auto using line_ok_grow.
Qed.

Lemma fnpc_at_ok m a i : area_ok m a -> 0 <= i < 50 ->
  exists l, fnpc_at a i = Ok l /\ fnpcs a !! Z.to_nat i = Some l /\ l_indx l = i /\ line_ok m l.
Proof.
  intros (Hl & _ & H) Hi. destruct (lookup_lt_is_Some_2 (fnpcs a) (Z.to_nat i)) as [l E]; [lia|].
  exists l. unfold fnpc_at. zif_false. rewrite E. destruct (H _ _ E) as [? ?]. split_and!; [done|done|lia|done].
Qed.

Lemma area_put m a i l : area_ok m a -> 0 <= i < 50 -> l_indx l = i -> line_ok m l -> area_ok m (fnpc_put a i l).
Proof.
  intros (Hl & ? & H) Hi El Hok. split_and!; simpl; [by rewrite length_insert|lia|lia|].
  intros j l' E. apply list_lookup_insert_Some in E as [(<- & <- & _)|[_ E]]; [split; [lia|done]|by apply H].
Qed.

Lemma fnpc_put_at m a i l : area_ok m a -> 0 <= i < 50 -> fnpc_at (fnpc_put a i l) i = Ok l.
Proof.
  intros (Hl & _) Hi. unfold fnpc_at, fnpc_put. zif_false. simpl. by rewrite list_lookup_insert_eq by lia.
Qed.

Lemma fnpc_steal_ok m a i a' : area_ok m a -> fnpc_steal a = (i, a') ->
  0 <= i < 50 /\ area_ok m a' /\ fnpcs a' = fnpcs a /\ fnpcsteal a' = i + 1.
Proof.
  intros (Hl & Hs & H). unfold fnpc_steal, FNPC_MAX in *. zcase; intros [= <- <-];
    (split; [lia|split; [|done]]; split_and!; simpl; [done|lia|unfold FNPC_MAX; lia|done]).
Qed.

Lemma u32_indx i : 0 <= i < 50 -> u32 (u8 (i + 1) - 1) = i.
Proof. intros. unfold u32, u8. rewrite (Z.mod_small (i + 1)) by lia. rewrite Z.mod_small; lia. Qed.

Lemma u32_range z : 0 <= u32 z.
Proof. unfold u32. pose proof (Z.mod_pos_bound z 4294967296). lia. Qed.

Lemma fnpc_valid_ok m a src delim s : area_ok m a -> str_is m src s -> s <> [] ->
  exists v, fnpc_valid a src delim = Ok v /\
  if v is Some (i, l)
  then i = u32 (p_indx src - 1) /\ 0 <= i < 50 /\ fnpc_at a i = Ok l /\ l_indx l = i /\ line_of src delim s l
  else True.
Proof.
  intros Ha Hs Hn. pose proof (str_is_has _ _ _ Hs Hn) as Hh. destruct Hs as (El & _ & _).
  unfold fnpc_valid, FNPC_MAX. pose proof (u32_range (p_indx src - 1)). zcase; [|by exists None].
  destruct (fnpc_at_ok m a (u32 (p_indx src - 1)) Ha) as (l & E & _ & Ei & [Hp Hl]); [lia|].
  rewrite E, res_bind_ok. eexists. split; [done|]. zcase; [|done].
  split_and!; [done|lia|lia|done|done|]. unfold line_of, line_key.
  assert (0 < zlen s) by (destruct s; [done|]; rewrite zlen_cons; pose proof (zlen_nonneg s); lia).
  destruct Hl as (s' & G1 & G2 & G3); [done|lia|].
  assert (s' = s) as -> by (eapply has_inj; [|done|lia]; congruence).
  split_and!; try done; try lia. congruence.
Qed.

Lemma fnpc_valid_line a i src delim s l :
  p_len src = zlen s -> i = u32 (p_indx src - 1) -> 0 <= i < 50 -> fnpc_at a i = Ok l -> line_of src delim s l ->
  fnpc_valid a src delim = Ok (Some (i, l)).
Proof.
  intros Hlen Ei Hi E [(H1 & H2 & H3 & H4 & _) _]. unfold fnpc_valid, FNPC_MAX. rewrite <- Ei. zif_true.
  rewrite E, res_bind_ok, H1, H2, H3, H4, Hlen, !Z.eqb_refl. done.
Qed.

(** ** $ZPIECE of one piece *)

(** Piece [k], from 1. *)
Definition nth_piece (c : Z) (s : list Z) (k : Z) : list Z :=
  if k <=? 0 then [] else default [] (pieces [c] s !! Z.to_nat (k - 1)).

(** The cell has a line in the cache, with the pieces up to [trg] or all. *)
Definition cached (a : fnpc_area) (src : pmval) (delim : Z) (s : list Z) (trg : Z) : Prop :=
  let i := u32 (p_indx src - 1) in
  exists l, 0 <= i < 50 /\ fnpc_at a i = Ok l /\ line_of src delim s l /\ 0 < npcs l /\
    (Z.min trg FNPC_ELEM_MAX <= npcs l \/ zlen s <= offz (dlmc delim) s (npcs l)).

Lemma nth_piece_end c s k : 0 < k -> zlen s <= offz c s (k - 1) -> nth_piece c s k = [].
Proof.
  intros Hk H. unfold nth_piece. zif_false. destruct (offz_end c s (k - 1)) as [-> | ->]; [lia|done|done|done].
Qed.

Lemma nth_piece_has m start c s k : str_at m start s -> 0 < k -> offz c s (k - 1) < zlen s ->
  str_at m (start + offz c s (k - 1)) (nth_piece c s k) /\
  offz c s k = offz c s (k - 1) + zlen (nth_piece c s k) + 1 /\ zlen (nth_piece c s k) <= zlen s.
Proof.
  intros Hs Hk H. destruct (offz_inside c s (k - 1)) as (p & Ep & En); [lia|done|].
  destruct (offz_has m start c s Hs (k - 1) p) as (Hh & _ & Hlen); [lia|done|].
  apply has_app in Hh as [Hh _]. unfold nth_piece. zif_false. rewrite Ep. simpl.
  replace (k - 1 + 1) with k in En by lia. split_and!; [done|done|].
  pose proof (offz_nonneg c s (k - 1)). pose proof (zlen_nonneg (suf [c] (drop (S (Z.to_nat (k - 1))) (pieces [c] s)))).
  lia.
Qed.

Lemma covers_stored c s k pst : zlen pst = FNPC_ELEM_MAX + 1 -> covers c s k pst -> pst_upto c s k pst.
Proof.
  intros Hl (Hk & _ & H). split; [done|]. unfold FNPC_ELEM_MAX in *. intros i Hi Hc. apply H. lia.
Qed.

Lemma stored_covers c s k pst : 0 < k -> offz c s (k - 1) < zlen s ->
  (forall i, 0 <= i <= 80 -> i <= k \/ 80 <= k -> rd pst i = Some (offz c s i)) ->
  covers c s (Z.min k FNPC_ELEM_MAX) pst.
Proof.
  intros Hk Hr H. unfold covers, FNPC_ELEM_MAX. split_and!; [lia|lia| |].
  - right. eapply Z.le_lt_trans; [|exact Hr]. apply offz_mono. lia.
  - intros i Hi. apply H; lia.
Qed.

Lemma str_is_part m v s p t : str_is m v s -> str_at m p t -> zlen t <= zlen s ->
  forall junk, str_is m {| p_addr := p; p_len := zlen t; p_indx := junk |} t.
Proof. intros (_ & Hm & _) Hh Hl junk. split_and!; [done|lia|by right]. Qed.

Lemma str_is_empty m p junk : str_is m {| p_addr := p; p_len := 0; p_indx := junk |} [].
Proof. split_and!; [done|unfold zlen, MAX_STRLEN; simpl; lia|by left]. Qed.

Lemma fnzp1_scan_ok m a src i l k delim trg junk s :
  area_ok m a -> str_is m src s -> s <> [] -> 0 <= i < 50 -> l_indx l = i -> line_key src delim s l ->
  npcs l = k -> k = 0 \/ covers (dlmc delim) s k (pstart l) -> k < trg -> i = u32 (p_indx src - 1) ->
  exists a' dst, fnzp1_scan m a src i l (p_addr src + offz (dlmc delim) s k) (pc k) (k + 1) delim trg junk
                 = Ok (a', src, dst) /\
    area_ok m a' /\ str_is m dst (nth_piece (dlmc delim) s trg) /\ p_indx dst = junk /\
    cached a' src delim s trg.
Proof.
  intros Ha Hs Hn Hi El Hline Ek Hcov Hkt Eix. pose proof (str_is_has _ _ _ Hs Hn) as Hh.
  pose proof Hs as (Elen & Hmax & _). pose proof Hline as (L1 & L2 & L3 & L4 & L5).
  set (c := dlmc delim) in *. unfold fnzp1_scan. rewrite Elen. fold c.
  assert (0 <= k <= 80 /\ (k = 0 \/ offz c s (k - 1) < zlen s) /\ pst_upto c s k (pstart l)) as (Hk & Hr & Hst0).
  { destruct Hcov as [->|Hc]; [|pose proof Hc as (? & ? & _); auto using covers_stored].
    split_and!; [lia|lia|by left|split; [exact L5|intros; lia]]. }
  pose proof (has_bound _ _ _ Hh) as Hb. pose proof (offz_nonneg c s k) as Hokn.
  destruct (fnzp1_loop_spec m (p_addr src) c s Hh Hmax (S (length m)) trg k
    {| sc_first := p_addr src + offz c s k; sc_last := p_addr src + offz c s k; sc_pcoff := pc k;
       sc_pst := pstart l; sc_cpcidx := k + 1 |}) as (k' & sc & -> & Hinv & Hkk & Hfirst & Hend).
  { by split_and!; simpl; [lia|..]. }
  { unfold zlen in *. lia. }
  rewrite res_bind_ok. destruct Hinv as (_ & Hr' & -> & -> & -> & Hst).
  destruct Hfirst as [[-> ->]|[Hlt Ef]].
  - rewrite Z.eqb_refl. simpl. do 2 eexists. split; [done|].
    assert (zlen s <= offz c s k) by lia.
    assert (0 < k).
    { destruct (decide (k = 0)) as [->|]; [|lia]. rewrite offz_0 in *. destruct s; [done|].
      rewrite zlen_cons in *. pose proof (zlen_nonneg s). lia. }
    assert (line_of src delim s l) as Hlo by (split; [done|]; rewrite Ek; destruct Hcov; [lia|done]).
    split_and!; [by eapply area_put; [| |done|eapply line_of_ok]|..].
    + rewrite nth_piece_end; [apply str_is_empty|lia|]. etransitivity; [done|]. apply offz_mono. lia.
    + done.
    + exists l. rewrite <- Eix. split_and!; [lia|lia|by eapply fnpc_put_at|done..|lia|right; by rewrite Ek].
  - clear Hcov. assert (Ho : offz c s (k' - 1) < zlen s) by lia. pose proof (offz_max c s k') as Hom.
    zif_false. destruct Hst as [Hlp Hst].
    assert (exists pst, (if pc k' <? FNPC_ELEM_MAX then res_of (wr (sc_pst sc) (pc k') (u32 (p_addr src + offz c s k' - p_addr src)))
              else Ok (sc_pst sc)) = Ok pst /\ zlen pst = 81 /\
              forall j, 0 <= j <= 80 -> j <= k' \/ 80 <= k' -> rd pst j = Some (offz c s j)) as (pst & -> & Hlp' & Hpst).
    { unfold pc, FNPC_ELEM_MAX. destruct (Z.ltb_spec k' 80).
      - zif_true. destruct (store_wr (p_addr src) c s Hmax (sc_pst sc) k' Hlp) as (pst & -> & ? & Hrd); [lia|].
        eexists. split; [done|]. split; [done|]. intros j Hj Hj'. rewrite Hrd by lia.
        destruct (Z.eqb_spec k' j); [by subst|]. apply Hst; lia.
      - zif_false. eexists. split; [done|]. split; [done|]. intros. apply Hst; lia. }
    rewrite res_bind_ok. replace (npcs l + (k' + 1) - (k + 1)) with k' by lia.
    match goal with |- context [fnpc_put a i ?x] => set (l' := x) end.
    assert (line_of src delim s l') as Hl'.
    { split_and!; simpl; try done. fold c. apply stored_covers; [lia|done|done]. }
    do 2 eexists. split; [done|]. simpl. rewrite Ef.
    destruct (nth_piece_has m (p_addr src) c s k' Hh) as (H1 & H2 & H3); [lia|done|].
    split_and!; [by eapply area_put; [| | |eapply line_of_ok]| |done|].
    + destruct (Z.ltb_spec trg (k' + 1)).
      * assert (k' = trg) as -> by lia.
        replace (p_addr src + offz c s trg - 1 - (p_addr src + offz c s (trg - 1))) with (zlen (nth_piece c s trg)) by lia.
        by eapply str_is_part.
      * rewrite nth_piece_end; [apply str_is_empty|lia|]. destruct Hend as [?|Hend]; [lia|].
        etransitivity; [exact Hend|]. apply offz_mono. lia.
    + exists l'. rewrite <- Eix. change (npcs l') with (Z.min k' FNPC_ELEM_MAX). unfold FNPC_ELEM_MAX.
      split_and!; [lia|lia|by eapply fnpc_put_at|done|lia|].
      destruct (decide (Z.min trg 80 <= Z.min k' 80)); [by left|right].
      rewrite Z.min_l by lia. destruct Hend; [lia|done].
Qed.

Lemma op_fnzp1_ok m a src delim trg junk s : area_ok m a -> str_is m src s ->
  exists a' src' dst, op_fnzp1 m a src delim trg junk = Ok (a', src', dst) /\
    area_ok m a' /\ str_is m src' s /\ p_addr src' = p_addr src /\
    str_is m dst (nth_piece (dlmc delim) s trg) /\ p_indx dst = junk /\
    (0 < trg -> s <> [] -> cached a' src' delim s trg).
Proof.
  intros Ha Hs. pose proof Hs as (Elen & Hmax & _). unfold op_fnzp1. zcase.
  { do 3 eexists. split; [done|]. assert (nth_piece (dlmc delim) s trg = []) as ->.
    { unfold nth_piece. zcase; [done|]. destruct s; [|apply orb_true_iff in Heqb as [?|?]; zbool;
        [lia|rewrite Elen, zlen_cons in *; pose proof (zlen_nonneg s); lia]].
      unfold pieces. simpl. by destruct (Z.to_nat (trg - 1)). }
    split_and!; try done; [apply str_is_empty|]. intros Ht Hn. destruct s; [done|].
    apply orb_true_iff in Heqb as [?|?]; zbool; [lia|]. rewrite Elen, zlen_cons in *. pose proof (zlen_nonneg s). lia. }
  assert (s <> []) as Hn by (intros ->; rewrite Elen in *; done).
  pose proof (str_is_has _ _ _ Hs Hn) as Hh.
  destruct (fnpc_valid_ok m a src delim s Ha Hs Hn) as (v & -> & Hv). rewrite res_bind_ok.
  destruct v as [[i l]|].
  - destruct Hv as (Ei & Hi & Eat & El & Hline). pose proof Hline as [Hkey Hcov].
    pose proof Hcov as (Hnp & Hr & Hall). unfold FNPC_ELEM_MAX in *. zcase.
    + unfold rd8. rewrite (Hall (trg - 1)), (Hall trg) by lia. simpl.
      destruct (nth_piece_has m (p_addr src) (dlmc delim) s trg Hh) as (H1 & H2 & H3); [lia| |].
      { eapply Z.le_lt_trans; [apply (offz_mono _ _ _ (npcs l - 1)); lia|]. lia. }
      do 3 eexists. split; [done|]. split_and!; try done.
      * rewrite H2. replace (_ - _ - 1) with (zlen (nth_piece (dlmc delim) s trg)) by lia.
        pose proof (zlen_nonneg (nth_piece (dlmc delim) s trg)). unfold MAX_STRLEN in *.
        unfold u32, i32. rewrite (Z.mod_small (zlen _)), Z.mod_small, Z.add_simpl_r by lia. by eapply str_is_part.
      * intros _ _. exists l. rewrite <- Ei. unfold FNPC_ELEM_MAX. split_and!; [lia|lia|done|done|lia|left; lia].
    + unfold rd8. rewrite (Hall (npcs l)) by lia. simpl.
      replace (if npcs l =? 80 then npcs l + 1 else npcs l) with (pc (npcs l))
        by (unfold pc; destruct (Z.eqb_spec (npcs l) 80), (Z.ltb_spec (npcs l) 80); lia).
      destruct (fnzp1_scan_ok m a src i l (npcs l) delim trg junk s) as (a' & dst & -> & H1 & H2 & H3 & H4); auto.
      do 3 eexists. split; [done|]. by split_and!.
  - destruct (fnpc_steal a) as [i a1] eqn:Es. destruct (fnpc_steal_ok m a i a1 Ha Es) as (Hi & Ha1 & _ & _).
    destruct (fnpc_at_ok m a1 i Ha1 Hi) as (l & -> & _ & El & Hl0 & _). rewrite res_bind_ok.
    match goal with |- context [fnzp1_scan m a1 ?x i ?y] => set (src1 := x); set (l1 := y) end.
    assert (str_is m src1 s) as Hs1 by (by destruct Hs as (? & ? & ?); split_and!).
    assert (line_key src1 delim s l1) as Hl1 by (by split_and!).
    destruct (fnzp1_scan_ok m a1 src1 i l1 0 delim trg junk s) as (a' & dst & E & H1 & H2 & H3 & H4);
      [done..|by left|lia|subst src1; simpl; by rewrite El, u32_indx|].
    rewrite offz_0, Z.add_0_r in E. exists a', src1, dst. split; [exact E|]. by split_and!.
Qed.
