(* ===== verification/Pieceset.v ===== *)
(** The refinement of $ZPIECE and SET $ZPIECE to the functions of Piecespec:
    [op_fnzpiece_ok], [op_setzpiece_ok]. *)

From stdpp Require Import base list numbers option tactics.
From Stdlib Require Import ZArith Lia.
From S2P Require Import Prelude Piecespec Piece Piecematch Piececache.

Open Scope Z_scope.

Local Arguments set_pieces : simpl never.
Local Arguments range_pieces : simpl never.

(** ** matchb on the strings of cells *)

Lemma zlen_pos {A} (l : list A) : l <> [] -> 0 < zlen l.
Proof. destruct l; [done|]. intros _. rewrite zlen_cons. pose proof (zlen_nonneg l). lia. Qed.

Lemma zlen_0 {A} (l : list A) : zlen l = 0 -> l = [].
Proof. destruct l as [|x l]; [done|]. rewrite zlen_cons. pose proof (zlen_nonneg l). lia. Qed.

(** [matchb] for [n] pieces, in terms of the pieces of the string. *)
Lemma matchb_pieces m p pd d s n : d <> [] -> 0 < n -> s = [] \/ str_at m p s -> str_at m pd d ->
  let ps := pieces d s in
  matchb m (zlen d) pd (zlen s) p n =
  Ok (if n <? zlen ps then (p + off d ps (Z.to_nat n), 1 + off d ps (Z.to_nat n), 0)
      else (p + zlen s, 0, n + 1 - zlen ps)).
Proof.
  intros Hd Hn Hs Hpd ps. assert (matchb m (zlen d) pd (zlen s) p n = Ok (matched p (zlen s) (skip d (Z.to_nat n) s))) as ->.
  { rewrite <- (Z2Nat.id n) at 1 by lia. destruct Hs as [->|Hs]; [|apply matchb_skip; [done|lia|done|done]].
    pose proof (zlen_pos d Hd). unfold matchb. change (zlen (@nil Z)) with 0. zif_false. zif_true.
    destruct (Z.to_nat n) as [|n'] eqn:En; [lia|]. cbn [skip]. by rewrite split_at_nil, matched_end by (done || lia). }
  rewrite skip_pieces by done. fold ps. unfold zlen at 2. pose proof (pieces_length d s) as Hl. fold ps in Hl.
  destruct (Nat.ltb_spec (Z.to_nat n) (length ps)) as [Hlt|Hge].
  - zif_true. pose proof (off_le d ps (Z.to_nat n) Hlt) as He. unfold ps in He at 3. rewrite join_pieces in He by done.
    unfold matched. do 3 f_equal; lia.
  - zif_false. unfold zlen. destruct (Z.to_nat n + 1 - length ps)%nat as [|u] eqn:Eu; [lia|].
    unfold matched. f_equal. f_equal. lia.
Qed.

(** The string from piece [n] on. *)
Lemma has_rest m p d s n : d <> [] -> s = [] \/ str_at m p s -> (n < length (pieces d s))%nat ->
  let t := joined d (drop n (pieces d s)) in
  (t = [] \/ str_at m (p + off d (pieces d s) n) t) /\ off d (pieces d s) n + zlen t = zlen s.
Proof.
  intros Hd Hs Hn t. pose proof (off_le d _ _ Hn) as Hl. rewrite join_pieces in Hl by done. fold t in Hl.
  split; [|done]. pose proof (zlen_nonneg t). pose proof (off_nonneg d (pieces d s) n).
  destruct Hs as [->|Hs]; [left; apply zlen_0; unfold zlen in *; simpl in Hl; lia|right].
  pose proof (off_drop d _ _ Hn) as E. rewrite join_pieces in E by done. fold t in E. rewrite <- E.
  apply has_drop; [|done]. unfold t in *. lia.
Qed.

(** ** $ZPIECE *)

Lemma range_pieces_1 c s f l : l - (Z.max 1 f - 1) = 1 -> range_pieces [c] s f l = nth_piece c s l.
Proof.
  intros E. unfold range_pieces, nth_piece. rewrite E. zif_false. change (Z.to_nat 1) with 1%nat.
  replace (Z.max 1 f - 1) with (l - 1) by lia.
  destruct (pieces [c] s !! Z.to_nat (l - 1)) as [p|] eqn:Ep; simpl.
  - by rewrite (drop_S _ _ _ Ep).
  - apply lookup_ge_None in Ep. by rewrite drop_ge.
Qed.

Lemma dlmc_byte c : byte_ok c -> dlmc c = c.
Proof. intros H. unfold dlmc, u8. by rewrite Z.mod_small. Qed.

Lemma single_byte m del d : str_is m del d -> bytes_ok d -> p_len del = 1 ->
  exists c, d = [c] /\ rd8 m (p_addr del) = Ok c /\ byte_ok c.
Proof.
  intros Hd Hb Hl. pose proof Hd as (E & _). destruct d as [|c [|x d]].
  - unfold zlen in E. simpl in E. lia.
  - exists c. apply str_is_has in Hd; [|done]. destruct (has_cons _ _ _ _ Hd). split_and!; [done|done|by inversion Hb].
  - rewrite E, !zlen_cons in Hl. pose proof (zlen_nonneg d). lia.
Qed.

Lemma op_fnzpiece_ok m a src del f l dst junk s d :
  area_ok m a -> str_is m src s -> str_is m del d -> bytes_ok d ->
  -2147483648 < f < 2147483648 -> l < 2147483648 -> -2147483648 <= l - Z.max 0 (f - 1) ->
  exists a' src' dst', op_fnzpiece m a src del f l dst junk = Ok (a', src', dst') /\
    area_ok m a' /\ str_is m src' s /\ str_is m dst' (range_pieces d s f l).
Proof.
  intros Ha Hs Hd Hb Hf Hl Hfl. unfold op_fnzpiece. rewrite int4_ok, res_bind_ok by lia.
  replace (if f - 1 <? 0 then 0 else f - 1) with (Z.max 1 f - 1) by (destruct (Z.ltb_spec (f - 1) 0); lia).
  set (n := Z.max 1 f - 1). rewrite int4_ok, res_bind_ok by lia.
  assert (Hget : range_pieces d s f l =
    if d is [] then [] else joined d (take (Z.to_nat (l - n)) (drop (Z.to_nat n) (pieces d s)))) by done.
  assert (Hemp : str_is m {| p_addr := p_addr dst; p_len := 0; p_indx := p_indx dst |} []) by apply str_is_empty.
  zcase.
  { do 3 eexists. split; [done|]. split_and!; [done|done|]. rewrite Hget.
    replace (Z.to_nat (l - n)) with O by lia. by destruct d. }
  destruct ((p_len del =? 1) && (l - n =? 1)) eqn:E1; zbool.
  { destruct (single_byte m del d Hd Hb) as (c & -> & -> & Hc); [done|]. rewrite res_bind_ok.
    destruct (op_fnzp1_ok m a src c l junk s Ha Hs) as (a' & src' & dst' & -> & ? & ? & _ & Hdst & _).
    do 3 eexists. split; [done|]. split_and!; [done|done|]. rewrite range_pieces_1 by lia.
    by rewrite dlmc_byte in Hdst by done. }
  pose proof Hs as (Es & Hmax & Hh). pose proof Hd as (Ed & _). rewrite Es, Ed.
  destruct (decide (d = [])) as [->|Hdn].
  { change (zlen (@nil Z)) with 0. destruct (negb (n =? 0)); cbv beta iota.
    all: unfold matchb; simpl; do 3 eexists; split; [done|].
    all: split_and!; [done|done|]; rewrite Z.sub_0_r, Z.sub_diag; apply str_is_empty. }
  pose proof (str_is_has _ _ _ Hd Hdn) as Hdh. set (ps := pieces d s) in *.
  assert (Hget' : range_pieces d s f l = joined d (take (Z.to_nat (l - n)) (drop (Z.to_nat n) ps)))
    by (rewrite Hget; by destruct d).
  assert (exists r, (if negb (n =? 0)
         then '(match_start, match_res, _) ← matchb m (zlen d) (p_addr del) (zlen s) (p_addr src) n;
              Ok (if match_res =? 0 then None else Some match_start)
         else Ok (Some (p_addr src))) = Ok r /\
     match r with
     | None => zlen ps <= n
     | Some q => q = p_addr src + off d ps (Z.to_nat n) /\ n < zlen ps
     end) as (r & -> & Hr).
  { destruct (Z.eqb_spec n 0) as [->|].
    - eexists. split; [done|]. simpl. pose proof (pieces_length d s) as Hp. fold ps in Hp. rewrite off_0. unfold zlen. lia.
    - simpl negb. cbv iota. rewrite matchb_pieces by (done || lia). fold ps. rewrite res_bind_ok. zcase.
      + pose proof (off_nonneg d ps (Z.to_nat n)). eexists. split; [by zif_false|]. done.
      + eexists. split; [done|]. simpl. lia. }
  rewrite res_bind_ok. destruct r as [q|].
  2: { do 3 eexists. split; [done|]. split_and!; [done|done|]. rewrite Hget', drop_ge by (unfold zlen in Hr; lia).
       by rewrite take_nil. }
  destruct Hr as [-> Hn]. destruct (has_rest m (p_addr src) d s (Z.to_nat n)) as [Ht Htl]; [done|done|unfold zlen in *; fold ps; lia|].
  fold ps in Ht, Htl. set (t := joined d (drop (Z.to_nat n) ps)) in *.
  assert (pieces d t = drop (Z.to_nat n) ps) as Ept by (apply pieces_drop; [done|unfold zlen in *; fold ps; lia]).
  replace (zlen s - (p_addr src + off d ps (Z.to_nat n) - p_addr src)) with (zlen t) by lia.
  rewrite matchb_pieces by (done || lia). rewrite Ept, res_bind_ok. set (qs := drop (Z.to_nat n) ps) in *.
  assert (qs <> []) as Hq by (apply drop_nonempty; unfold zlen in *; lia).
  pose proof (off_nonneg d qs (Z.to_nat (l - n))). zcase.
  - cbv beta iota. replace (1 + off d qs (Z.to_nat (l - n)) =? 0) with false by (symmetry; apply Z.eqb_neq; lia). simpl negb. cbv iota.
    set (k := Z.to_nat (l - n)) in *. assert (0 < k < length qs)%nat by (unfold zlen in *; lia).
    replace (p_addr src + off d ps (Z.to_nat n) + off d qs k - zlen d - (p_addr src + off d ps (Z.to_nat n)))
      with (zlen (range_pieces d s f l)) by (rewrite Hget', off_join by (done || lia); lia).
    do 3 eexists. split; [done|]. split_and!; [done|done|].
    assert (take (Z.to_nat (off d qs k - zlen d)) t = range_pieces d s f l) as Et
      by (rewrite Hget'; unfold t; apply off_take; [lia|done|lia]).
    rewrite <- Et. pose proof (zlen_nonneg (take (Z.to_nat (off d qs k - zlen d)) t)).
    split_and!; [done| |].
    + pose proof (zlen_nonneg t). pose proof (off_nonneg d ps (Z.to_nat n)). unfold zlen in *. rewrite length_take. lia.
    + destruct Ht as [->|Ht]; [left; by rewrite take_nil|right]. simpl. by apply has_take.
  - simpl negb. cbv iota.
    assert (range_pieces d s f l = t) as -> by (rewrite Hget', take_ge; [done|unfold zlen in *; lia]).
    replace (p_addr src + off d ps (Z.to_nat n) + zlen t - (p_addr src + off d ps (Z.to_nat n))) with (zlen t) by lia.
    do 3 eexists. split; [done|]. split_and!; [done|done|]. pose proof (off_nonneg d ps (Z.to_nat n)).
    split_and!; [done|lia|done].
Qed.

(** ** SET $ZPIECE of one piece *)

Definition str_opt (m : list Z) (src : option pmval) (os : option (list Z)) : Prop :=
  match src, os with
  | Some v, Some s => str_is m v s
  | None, None => True
  | _, _ => False
  end.

Definition sfx_bytes (s : list Z) (cut : cutting) : list Z :=
  if 0 <? sfx_str_len cut then drop (Z.to_nat (sfx_start_offset cut)) s else [].

(** What a cutting of [s] for piece [ind] must be: the prefix, the delimiters,
    the value and the suffix make the reference result. *)
Definition cut_ok (c : Z) (s : list Z) (ind : Z) (cut : cutting) : Prop :=
  0 <= pfx_str_len cut <= zlen s /\ 0 <= delim_cnt cut <= ind /\ 0 <= sfx_str_len cut /\
  (0 < sfx_str_len cut -> 0 <= sfx_start_offset cut /\ sfx_start_offset cut + sfx_str_len cut = zlen s) /\
  forall v, take (Z.to_nat (pfx_str_len cut)) s ++ replicate (Z.to_nat (delim_cnt cut)) c ++ v ++ sfx_bytes s cut
            = set_pieces [c] s ind ind v.

Section cuts.
Context (c : Z) (s : list Z) (ind : Z).
Hypothesis Hind : 1 <= ind.
Local Notation "'PS'" := (pieces [c] s).
Local Notation "'OF'" := (offz c s).

Lemma set_pieces_1 v :
  set_pieces [c] s ind ind v =
  pre [c] (take (Z.to_nat (ind - 1)) PS) ++ replicate (Z.to_nat (ind - 1) - length PS) c ++ v ++
  suf [c] (drop (Z.to_nat ind) PS).
Proof.
  rewrite set_pieces_pre by (done || lia). replace (Z.max 1 ind - 1) with (ind - 1) by lia.
  by rewrite concat_replicate_1.
Qed.

Lemma offz_len k p : 0 <= k -> PS !! Z.to_nat k = Some p -> OF k <= zlen s.
Proof.
  unfold offz. intros Hk E%lookup_lt_Some. pose proof (off_le [c] PS _ E) as H. rewrite join_pieces in H by done.
  pose proof (zlen_nonneg (joined [c] (drop (Z.to_nat k) PS))). lia.
Qed.

(** The piece is in the string. *)
Lemma cut_inside cpy scan : OF (ind - 1) < zlen s ->
  cut_ok c s ind {| pfx_str_len := OF (ind - 1); delim_cnt := 0; sfx_start_offset := OF ind - 1;
                    sfx_str_len := zlen s - (OF ind - 1); cpy_cache_lines := cpy; pfx_scan_offset := scan |}.
Proof.
  intros H. destruct (offz_inside c s (ind - 1)) as (p & Ep & En); [lia|done|].
  replace (ind - 1 + 1) with ind in En by lia. pose proof (offz_nonneg c s (ind - 1)). pose proof (zlen_nonneg p).
  pose proof (offz_max c s ind). pose proof (lookup_lt_Some _ _ _ Ep) as Hlt.
  unfold cut_ok, sfx_bytes. simpl. split_and!; try lia. intros v. rewrite set_pieces_1.
  unfold offz at 1. pose proof (take_off [c] PS _ Hlt) as Et. rewrite join_pieces in Et by done. rewrite Et.
  replace (Z.to_nat (ind - 1) - length PS)%nat with O by lia. simpl. do 2 f_equal. zcase.
  - pose proof (off_suffix [c] PS (Z.to_nat ind)) as Es. rewrite join_pieces in Es by done. apply Es.
    split; [lia|]. destruct (decide (Z.to_nat ind < length PS)%nat) as [|Hge]; [done|].
    unfold offz in Heqb, En. rewrite off_total in Heqb by (apply pieces_nonempty || lia). rewrite join_pieces in Heqb by done.
    change (zlen [c]) with 1 in Heqb. lia.
  - rewrite drop_ge; [done|]. destruct (decide (length PS <= Z.to_nat ind)%nat) as [|Hge]; [done|].
    destruct (lookup_lt_is_Some_2 PS (Z.to_nat ind)) as [q Eq]; [lia|].
    pose proof (offz_len ind q ltac:(lia) Eq). lia.
Qed.

(** The string ends before the piece: [k] pieces, and nothing behind. *)
Lemma cut_padded k v : 0 < k <= ind - 1 -> OF (k - 1) < zlen s -> zlen s <= OF k ->
  take (Z.to_nat (OF k - 1)) s ++ replicate (Z.to_nat (ind - k)) c ++ v = set_pieces [c] s ind ind v /\
  1 <= OF k.
Proof.
  intros Hk Hr He. destruct (offz_inside c s (k - 1)) as (p & Ep & En); [lia|done|].
  replace (k - 1 + 1) with k in En by lia. pose proof (offz_nonneg c s (k - 1)). pose proof (zlen_nonneg p).
  split; [|lia]. pose proof (lookup_lt_Some _ _ _ Ep) as Hlt.
  assert (length PS <= Z.to_nat k + 1)%nat as Hlen.
  { destruct (decide (length PS <= Z.to_nat k + 1)%nat) as [|Hgt]; [done|].
    destruct (lookup_lt_is_Some_2 PS (Z.to_nat k)) as [q Eq]; [lia|].
    assert (OF (k + 1) = OF k + zlen q + 1).
    { unfold offz. replace (Z.to_nat (k + 1)) with (S (Z.to_nat k)) by lia. by rewrite (off_S _ _ _ _ Eq). }
    destruct (lookup_lt_is_Some_2 PS (Z.to_nat (k + 1))) as [q' Eq']; [lia|].
    pose proof (offz_len (k + 1) q' ltac:(lia) Eq'). pose proof (zlen_nonneg q). lia. }
  rewrite set_pieces_1, drop_ge by lia. rewrite app_assoc, (app_assoc (pre _ _)).
  unfold suf. simpl. rewrite app_nil_r. f_equal. rewrite (pre_pad c PS (Z.to_nat (ind - 1)) (Z.to_nat k)); try lia.
  - f_equal; [|f_equal; lia]. pose proof (off_take [c] PS (Z.to_nat k)) as Et. rewrite join_pieces in Et by done.
    apply Et; [lia|apply pieces_nonempty|lia].
  - intros Hkl. by destruct (offz_end c s k) as [E|E]; [lia|done|apply lookup_ge_None in E; lia|].
Qed.

Lemma cut_after k cpy at_ scan : 0 < k <= ind - 1 -> OF (k - 1) < zlen s -> zlen s <= OF k ->
  cut_ok c s ind {| pfx_str_len := OF k - 1; delim_cnt := ind - k; sfx_start_offset := at_; sfx_str_len := 0;
                    cpy_cache_lines := cpy; pfx_scan_offset := scan |}.
Proof.
  intros Hk Hr He. destruct (cut_padded k [] Hk Hr He) as [_ Hp]. pose proof (offz_max c s k).
  unfold cut_ok, sfx_bytes. simpl. split_and!; try lia. intros v. rewrite app_nil_r. by apply cut_padded.
Qed.

(** The same, when the last byte is a delimiter that is kept in the prefix. *)
Lemma cut_after_delim k cpy at_ scan : 0 < k <= ind - 1 -> OF (k - 1) < zlen s -> OF k = zlen s ->
  cut_ok c s ind {| pfx_str_len := zlen s; delim_cnt := ind - k - 1; sfx_start_offset := at_; sfx_str_len := 0;
                    cpy_cache_lines := cpy; pfx_scan_offset := scan |}.
Proof.
  intros Hk Hr He. destruct (cut_padded k [] Hk Hr) as [_ Hp]; [lia|].
  unfold cut_ok, sfx_bytes. simpl. pose proof (zlen_nonneg s). split_and!; try lia. intros v. rewrite app_nil_r.
  destruct (cut_padded k v Hk Hr) as [<- _]; [lia|].
  assert (take (Z.to_nat (zlen s)) s = take (Z.to_nat (OF k - 1)) s ++ [c]) as ->.
  { assert (exists q, PS !! Z.to_nat k = Some q) as [q Eq].
    { apply lookup_lt_is_Some_2. destruct (decide (Z.to_nat k < length PS)%nat) as [|Hge]; [done|].
      unfold offz in He. rewrite off_total in He by (apply pieces_nonempty || lia). rewrite join_pieces in He by done.
      unfold zlen in He at 2. simpl in He. lia. }
    apply lookup_lt_Some in Eq. pose proof (take_off [c] PS _ Eq) as Et. rewrite join_pieces in Et by done.
    rewrite <- He. unfold offz at 1. rewrite Et, pre_join by (apply take_nonempty; [apply pieces_nonempty|lia]).
    f_equal. pose proof (off_take [c] PS (Z.to_nat k)) as Et2. rewrite join_pieces in Et2 by done.
    symmetry. apply Et2; [lia|apply pieces_nonempty|lia]. }
  replace (Z.to_nat (ind - k)) with (S (Z.to_nat (ind - k - 1))) by lia. by rewrite <- app_assoc.
Qed.
End cuts.

(** ** The scan beyond the cache *)

Section beyond.
Context (m : list Z) (start c : Z) (s : list Z).
Hypothesis Hs : str_at m start s.
Local Notation "'PS'" := (pieces [c] s).
Local Notation "'OF'" := (offz c s).

Lemma scan_sfx_spec fuel p t r lc : str_at m p (t ++ suf [c] r) -> ~ In c t -> (length t < fuel)%nat ->
  exists lc', scan_sfx fuel m p (p + zlen (t ++ suf [c] r)) c lc = Ok (p + zlen t, lc') /\
    (r <> [] -> lc' = c) /\ (r = [] -> t <> [] \/ lc <> c -> lc' <> c).
Proof.
  revert p t lc. induction fuel as [|fuel IH]; intros p t lc H Hc Hf; [lia|]. cbn [scan_sfx].
  destruct t as [|x t]; simpl in H |- *.
  - destruct r as [|q r].
    + unfold suf, zlen. simpl. rewrite Z.add_0_r, Z.ltb_irrefl. exists lc. split_and!; [done|done|].
      by intros _ [?|?].
    + assert (suf [c] (q :: r) = c :: q ++ suf [c] r) as E by done. rewrite E in H |- *.
      destruct (has_cons _ _ _ _ H) as [-> _]. rewrite zlen_cons. pose proof (zlen_nonneg (q ++ suf [c] r)).
      zif_true. rewrite res_bind_ok, Z.eqb_refl. exists c. split_and!; [|done|done].
      do 2 f_equal. unfold zlen. simpl. lia.
  - destruct (has_cons _ _ _ _ H) as [-> H']. rewrite zlen_cons. pose proof (zlen_nonneg (t ++ suf [c] r)).
    zif_true. rewrite res_bind_ok.
    assert (x <> c) as Hx by (simpl in Hc; tauto). rewrite (proj2 (Z.eqb_neq x c) Hx).
    replace (p + (1 + zlen (t ++ suf [c] r))) with (p + 1 + zlen (t ++ suf [c] r)) by lia.
    destruct (IH (p + 1) t x) as (lc' & -> & H1 & H2); [done|simpl in Hc; tauto|simpl in Hf; lia|].
    exists lc'. split_and!; [|done|intros Hr _; apply H2; [done|by right]].
    do 2 f_equal. rewrite zlen_cons. lia.
Qed.

(** The scan of the piece [k] of the string. *)
Lemma scan_sfx_piece k lc : 0 <= k -> OF k < zlen s ->
  exists lc', scan_sfx (S (length m)) m (start + OF k) (start + zlen s) c lc = Ok (start + OF (k + 1) - 1, lc') /\
    (OF (k + 1) <= zlen s -> lc' = c) /\ (zlen s < OF (k + 1) -> lc' <> c) /\ OF k + 1 <= OF (k + 1).
Proof.
  intros Hk H. destruct (offz_inside c s k) as (p & Ep & En); [lia|done|].
  destruct (offz_has m start c s Hs k p Hk Ep) as (Hh & Hc & Hlen).
  set (r := drop (S (Z.to_nat k)) PS) in *. pose proof (has_bound _ _ _ Hs) as Hb. pose proof (offz_nonneg c s k).
  destruct (scan_sfx_spec (S (length m)) (start + OF k) p r lc Hh Hc) as (lc' & E & H1 & H2).
  { pose proof (zlen_nonneg (suf [c] r)). unfold zlen in *. lia. }
  rewrite zlen_app in E. replace (start + OF k + (zlen p + zlen (suf [c] r))) with (start + zlen s) in E by lia.
  exists lc'. pose proof (zlen_nonneg p). split_and!; [rewrite E; do 2 f_equal; lia| | |lia].
  - intros Hle. apply H1. intros Er. rewrite Er in Hlen. change (zlen (suf [c] [])) with 0 in Hlen. lia.
  - intros Hgt. assert (r = []) as Er.
    { destruct r as [|q r]; [done|]. assert (suf [c] (q :: r) = c :: q ++ suf [c] r) as E2 by done.
      rewrite E2, zlen_cons in Hlen. pose proof (zlen_nonneg (q ++ suf [c] r)). lia. }
    apply H2; [done|left]. intros ->. rewrite Er in Hlen. change (zlen (suf [c] [])) with 0 in Hlen.
    change (zlen (@nil Z)) with 0 in Hlen. lia.
Qed.

Lemma scan_pieces_spec fuel k lc cnt : 0 <= k -> OF k < zlen s -> 0 < cnt -> zlen s - OF k < Z.of_nat fuel ->
  exists K lc', scan_pieces fuel m (start + OF k) (start + zlen s) c lc cnt
                = Ok (start + OF (K - 1), start + OF K, lc', cnt - (K - k)) /\
    k < K <= k + cnt /\ OF (K - 1) < zlen s /\ (K = k + cnt \/ zlen s <= OF K) /\
    (OF K <= zlen s -> lc' = c) /\ (zlen s < OF K -> lc' <> c).
Proof.
  revert k lc cnt. induction fuel as [|fuel IH]; intros k lc cnt Hk H Hcnt Hf; [lia|]. cbn [scan_pieces].
  destruct (scan_sfx_piece k lc Hk H) as (lc1 & -> & H1 & H2 & H3). rewrite res_bind_ok.
  replace (start + OF (k + 1) - 1 + 1) with (start + OF (k + 1)) by lia. zcase.
  - destruct (IH (k + 1) lc1 (cnt - 1)) as (K & lc' & -> & ? & ? & ? & ?); [lia|lia|lia|lia|].
    exists K, lc'. split; [do 2 f_equal; lia|]. split_and!; [lia|lia|done|lia|tauto..].
  - exists (k + 1), lc1. replace (k + 1 - 1) with k by lia. split; [do 2 f_equal; lia|].
    split_and!; [lia|lia|done| |done|done]. apply andb_false_iff in Heqb as [?|?]; zbool; lia.
Qed.

(** [setzp1_scan], when there is text behind the [k] pieces of the cache. *)
Lemma setzp1_scan_ok src k ind cut : p_addr src = start -> p_len src = zlen s -> 0 < k <= ind - 1 ->
  OF k < zlen s -> delim_cnt cut = ind - k ->
  exists cut', setzp1_scan m src c (OF k) cut = Ok cut' /\ cut_ok c s ind cut' /\
    cpy_cache_lines cut' = cpy_cache_lines cut.
Proof.
  intros Ea El Hk H Ecnt. unfold setzp1_scan. rewrite Ea, El, Ecnt.
  assert ((0 <? ind - k) && (start + OF k <? start + zlen s) = true) as -> by zbool_goal.
  pose proof (has_bound _ _ _ Hs) as Hb. pose proof (offz_nonneg c s k).
  destruct (scan_pieces_spec (S (length m)) k 0 (ind - k)) as (K & lc & -> & HK & Hr & Hend & Hc1 & Hc2);
    [lia|done|lia|unfold zlen in *; lia|].
  rewrite !res_bind_ok. pose proof (offz_nonneg c s (K - 1)). pose proof (offz_max c s K).
  replace (ind - k - (K - k)) with (ind - K) by lia.
  destruct (decide (K = ind)) as [->|].
  - rewrite Z.sub_diag. simpl (0 =? 0). simpl orb. cbv iota. rewrite andb_false_r.
    eexists. split; [done|]. split; [|done].
    replace (start + OF (ind - 1) - start) with (OF (ind - 1)) by lia.
    replace (start + OF ind - 1 - start) with (OF ind - 1) by lia.
    rewrite (Z.max_r 0 (OF (ind - 1))), (Z.max_r 0 (zlen s - _)) by lia. apply cut_inside; [lia|done].
  - assert (zlen s <= OF K) by lia. pose proof (zlen_nonneg s). rewrite (proj2 (Z.eqb_neq (ind - K) 0)) by lia. simpl orb.
    rewrite (proj2 (Z.ltb_ge (start + OF K) (start + zlen s))) by lia. simpl orb.
    assert ((0 <? ind - K) = true) as -> by zbool_goal. rewrite andb_true_r.
    destruct (decide (OF K = zlen s)) as [E|].
    + rewrite (Hc1 ltac:(lia)), Z.eqb_refl. simpl negb. cbv iota. zif_true.
      eexists. split; [done|]. split; [|done]. rewrite E. replace (start + zlen s - start) with (zlen s) by lia.
      rewrite Z.sub_diag, Z.max_r by apply zlen_nonneg. simpl (Z.max 0 0). by apply cut_after_delim; [lia|lia| |].
    + rewrite (proj2 (Z.eqb_neq lc c)) by (apply Hc2; lia). simpl negb. cbv iota.
      zif_true. eexists. split; [done|]. split; [|done].
      replace (start + OF K - 1 - start) with (OF K - 1) by lia. rewrite Z.max_r by lia.
      replace (Z.max 0 (zlen s - (OF K - 1))) with 0 by lia. by apply cut_after; [lia|lia| |].
Qed.
End beyond.

(** ** The cutting *)

Lemma covers_le c s n k pst : covers c s n pst -> 0 <= k <= n -> covers c s k pst.
Proof.
  intros (Hn & Hr & H) Hk. split_and!; [lia|lia| |intros; apply H; lia].
  destruct (decide (k = 0)) as [|Hk0]; [by left|right]. destruct Hr as [?|Hr]; [lia|].
  eapply Z.le_lt_trans; [|exact Hr]. apply offz_mono. lia.
Qed.

Lemma covers_inside c s n k pst : covers c s n pst -> 1 <= k <= n -> offz c s (k - 1) < zlen s.
Proof. intros H Hk. pose proof (covers_le c s n k pst H ltac:(lia)) as (_ & [?|?] & _); lia. Qed.

Lemma cut_empty c ind scan : 1 <= ind ->
  cut_ok c [] ind {| pfx_str_len := 0; delim_cnt := ind - 1; sfx_start_offset := 0; sfx_str_len := 0;
                     cpy_cache_lines := -1; pfx_scan_offset := scan |}.
Proof.
  intros Hi. unfold cut_ok, sfx_bytes. simpl. change (zlen (@nil Z)) with 0. split_and!; try lia.
  intros v. rewrite app_nil_r, set_pieces_1 by done. change (pieces [c] []) with [@nil Z].
  rewrite drop_ge by (simpl; lia). unfold suf. simpl. rewrite app_nil_r.
  destruct (Z.to_nat (ind - 1)) as [|n] eqn:E; [done|]. replace (S n - 1)%nat with n by lia.
  change (take (S n) [@nil Z]) with (@nil Z :: take n []). by destruct n.
Qed.

(** The line of the source has the pieces of the prefix. *)
Definition line_for (a : fnpc_area) (c : Z) (s : list Z) (i ind k : Z) : Prop :=
  0 < k -> 0 <= i < 50 /\ k <= ind - 1 /\
  exists l, fnpc_at a i = Ok l /\ zlen (pstart l) = FNPC_ELEM_MAX + 1 /\ covers c s k (pstart l).

Lemma setzp1_cut_ok m a src os delim ind : area_ok m a -> str_opt m src os -> 1 <= ind < 2147483648 ->
  let s := default [] os in
  exists a' src' i cut, setzp1_cut m a src delim ind = Ok (a', src', i, cut) /\
    area_ok m a' /\ str_opt m src' os /\ p_addr <$> src' = p_addr <$> src /\
    cut_ok (dlmc delim) s ind cut /\ line_for a' (dlmc delim) s i ind (cpy_cache_lines cut).
Proof.
  intros Ha Hsrc Hind s. unfold setzp1_cut. destruct src as [v|], os as [s0|]; try done; simpl in s; subst s.
  2: { unfold u64. rewrite Z.mod_small by lia. do 4 eexists. split; [done|].
       split_and!; [done..|apply cut_empty; lia|done]. }
  pose proof Hsrc as (El & Hmax & _). rename s0 into s. zcase.
  { assert (s = []) as -> by (apply zlen_0; lia). zif_true. do 4 eexists. split; [done|].
    split_and!; [done..|apply cut_empty; lia|done]. }
  assert (s <> []) as Hn by (intros ->; unfold zlen in El; simpl in El; lia).
  set (trg := if ind <=? FNPC_ELEM_MAX then ind else FNPC_ELEM_MAX).
  assert (Z.min trg FNPC_ELEM_MAX = Z.min ind FNPC_ELEM_MAX /\ 0 < trg) as [Etrg Htrg].
  { unfold trg, FNPC_ELEM_MAX. destruct (Z.leb_spec ind 80); lia. }
  destruct (op_fnzp1_ok m a v delim trg 0 s Ha Hsrc) as (a' & v' & dst & -> & Ha' & Hv' & Ead & _ & _ & Hc).
  rewrite res_bind_ok. cbv beta iota zeta.
  destruct (Hc Htrg Hn) as (l & Hi & Eat & [(_ & _ & _ & _ & L5) Hcov] & Hnp & Hall). clear Hc. rewrite Eat.
  set (i := u32 (p_indx v' - 1)) in *. set (c := dlmc delim) in *. rewrite Etrg in Hall.
  pose proof Hcov as (Hn80 & _ & Hrd). pose proof Hv' as (El' & _). pose proof (str_is_has _ _ _ Hv' Hn) as Hh.
  rewrite !res_bind_ok. clear trg Etrg Htrg. unfold rd8.
  assert (Hl : forall k, 0 <= k <= npcs l -> k <= ind - 1 -> line_for a' c s i ind k).
  { intros k Hk Hki _. split_and!; [lia|lia|lia|]. exists l. split_and!; [done|done|]. by eapply covers_le. }
  destruct ((ind <=? FNPC_ELEM_MAX) && (ind <=? npcs l)) eqn:E1; zbool.
  { rewrite (Hrd (ind - 1)), (Hrd ind) by lia. simpl.
    do 4 eexists. split; [done|]. split_and!; [done|done|simpl; by rewrite Ead| |apply Hl; simpl; lia].
    rewrite El'. replace (zlen s - _ - _) with (zlen s - (offz c s ind - 1)) by lia.
    apply cut_inside; [lia|]. eapply covers_inside; [exact Hcov|lia]. }
  assert (Hin : offz c s (npcs l - 1) < zlen s) by (eapply covers_inside; [exact Hcov|lia]).
  destruct ((ind <=? FNPC_ELEM_MAX) || (npcs l <? FNPC_ELEM_MAX)) eqn:E2.
  { rewrite (Hrd (npcs l)) by lia. simpl.
    assert (npcs l < Z.min ind FNPC_ELEM_MAX) as Hlt.
    { apply andb_false_iff in E1. apply orb_true_iff in E2. destruct E1, E2; zbool; lia. }
    do 4 eexists. split; [done|]. split_and!; [done|done|simpl; by rewrite Ead| |apply Hl; simpl; lia].
    apply cut_after; [lia|lia|done|]. destruct Hall; [lia|done]. }
  zbool. assert (npcs l = FNPC_ELEM_MAX) as E80 by lia. unfold FNPC_ELEM_MAX in *.
  rewrite (Hrd 80) by lia. simpl res_of. rewrite res_bind_ok, El'. rewrite E80 in Hin. cbv zeta. zcase.
  - rewrite res_bind_ok. cbv iota beta. simpl pfx_scan_offset. cbv iota beta.
    match goal with |- context [setzp1_scan m v' c _ ?x] => set (cut0 := x) end.
    destruct (setzp1_scan_ok m (p_addr v') c s Hh v' 80 ind cut0) as (cut & -> & Hok & Ecpy); [done|done|lia|done|done|].
    rewrite res_bind_ok. do 4 eexists. split; [done|]. split_and!; [done|done|simpl; by rewrite Ead|done|].
    rewrite Ecpy. apply Hl; simpl; lia.
  - rewrite res_bind_ok. cbv iota beta. simpl pfx_scan_offset. cbv iota beta. rewrite res_bind_ok.
    do 4 eexists. split; [done|]. split_and!; [done|done|simpl; by rewrite Ead| |apply Hl; simpl; lia].
    by apply cut_after; [lia|lia| |].
Qed.

(** ** The line of the result *)

Lemma rd_take l n i : i < Z.of_nat n -> rd (take n l) i = rd l i.
Proof. intros H. unfold rd. zcase; [done|]. apply lookup_take_lt. lia. Qed.

Lemma covers_set c s ind v k pst : 0 < k <= ind - 1 -> covers c s k pst ->
  covers c (set_pieces [c] s ind ind v) k pst.
Proof.
  intros Hk Hc. pose proof Hc as (Hk80 & _ & Hrd). set (r := set_pieces [c] s ind ind v).
  pose proof (covers_inside _ _ _ k _ Hc ltac:(lia)) as Hin.
  destruct (offz_inside c s (k - 1)) as (p & Ep & En); [lia|done|]. apply lookup_lt_Some in Ep.
  replace (k - 1 + 1) with k in En by lia. pose proof (zlen_nonneg p).
  destruct (pieces_set_1 c s ind v) as (ws & Hws & Er); [lia|]. fold r in Er.
  set (n := Z.to_nat (ind - 1)) in *. set (ps := pieces [c] s) in *.
  assert (take (Z.to_nat k) (pieces [c] r) = take (Z.to_nat k) ps) as Et.
  { rewrite Er, take_app_le by (rewrite length_take; lia). rewrite take_take. f_equal. lia. }
  assert (forall i, 0 <= i <= k -> offz c r i = offz c s i) as Eo.
  { intros i Hi. unfold offz. eapply off_same; [|exact Et]. lia. }
  split_and!; [lia|lia| |intros i Hi; rewrite Eo by lia; by apply Hrd].
  right. destruct (lookup_lt_is_Some_2 (pieces [c] r) (Z.to_nat k)) as [q Eq].
  { rewrite Er, !length_app, length_take, length_replicate. destruct ws; [done|]. simpl. lia. }
  pose proof (offz_len c r k q ltac:(lia) Eq). rewrite (Eo k) in * by lia. rewrite (Eo (k - 1)) by lia. lia.
Qed.

Lemma fnpc_steal_other_ok m a i : area_ok m a -> 0 <= i < 50 ->
  exists j a', fnpc_steal_other 2 a i = Ok (j, a') /\ 0 <= j < 50 /\ j <> i /\ area_ok m a' /\ fnpcs a' = fnpcs a.
Proof.
  intros Ha Hi. cbn [fnpc_steal_other]. destruct (fnpc_steal a) as [j a1] eqn:E1.
  destruct (fnpc_steal_ok m a j a1 Ha E1) as (Hj & Ha1 & El1 & Es1). destruct (Z.eqb_spec j i) as [->|].
  2: { exists j, a1. by split_and!; try lia. }
  destruct (fnpc_steal a1) as [j2 a2] eqn:E2. destruct (fnpc_steal_ok m a1 j2 a2 Ha1 E2) as (Hj2 & Ha2 & El2 & _).
  assert (j2 <> i) as Hne.
  { unfold fnpc_steal in E2. rewrite Es1 in E2. unfold FNPC_MAX in E2.
    destruct (Z.ltb_spec (50 - 1) (i + 1)); injection E2; intros; lia. }
  rewrite (proj2 (Z.eqb_neq j2 i) Hne). exists j2, a2. split_and!; try lia; [done|done|congruence].
Qed.

Lemma setzp1_cache_ok m a i delim k s ind v dst r : area_ok m a -> 1 <= ind ->
  line_for a (dlmc delim) s i ind k -> r = set_pieces [dlmc delim] s ind ind v -> str_is m dst r -> str_at m (p_addr dst) r ->
  exists a' dst', setzp1_cache a i delim k dst = Ok (a', dst') /\ area_ok m a' /\ str_is m dst' r.
Proof.
  intros Ha Hind Hline Er Hdst Hh. unfold setzp1_cache. pose proof Hdst as (El & Hmax & _). zcase.
  2: { do 2 eexists. split; [done|]. split; [done|]. split_and!; [done|done|by right]. }
  destruct Hline as (Hi & Hk & l & -> & Hl & Hcov); [lia|]. rewrite res_bind_ok.
  destruct (fnpc_steal_other_ok m a i Ha Hi) as (j & a1 & -> & Hj & _ & Ha1 & _). rewrite res_bind_ok.
  destruct (fnpc_at_ok m a1 j Ha1 Hj) as (l1 & -> & _ & El1 & Hl1 & _). rewrite res_bind_ok.
  pose proof Hcov as (Hk80 & _). unfold FNPC_ELEM_MAX in *.
  assert (rd_list (pstart l) 0 (k + 1) = Ok (take (Z.to_nat (k + 1)) (pstart l))) as ->.
  { replace (k + 1) with (Z.of_nat (Z.to_nat (k + 1))) at 1 by lia. apply rd_list_spec; [lia|lia|done]. }
  rewrite res_bind_ok. do 2 eexists. split; [done|]. split; [|by split_and!; [| |right]].
  eapply area_put; [done|done|done|]. split; simpl.
  - unfold zlen, FNPC_ELEM_MAX in *. rewrite length_app, length_take, length_drop. lia.
  - intros _ _. exists r. split_and!; [done|done|]. rewrite Er.
    assert (covers (dlmc delim) (set_pieces [dlmc delim] s ind ind v) k (pstart l)) as (H1 & H2 & H3)
      by (apply covers_set; [lia|done]).
    split_and!; [lia|unfold FNPC_ELEM_MAX; lia|done|]. intros x Hx. unfold zlen in Hl.
    rewrite rd_app_l by (unfold zlen; rewrite length_take; lia). rewrite rd_take by lia. by apply H3.
Qed.

Lemma memcpy_ok m p s : s = [] \/ str_at m p s -> memcpy m p (zlen s) = Ok s.
Proof.
  unfold memcpy. intros [->|H]; [done|]. zcase; [|by apply has_rd_list]. by rewrite (zlen_0 s) by lia.
Qed.

Lemma memcpy_if m p n s : zlen s = n -> s = [] \/ str_at m p s -> (if 0 <? n then memcpy m p n else Ok []) = Ok s.
Proof.
  intros <- H. zcase; [by apply memcpy_ok|]. rewrite (zlen_0 s); [done|]. pose proof (zlen_nonneg s). lia.
Qed.

Lemma op_setzp1_ok m a src os delim expr v ind : area_ok m a -> str_opt m src os -> str_is m expr v ->
  1 <= ind < 2147483648 ->
  let r := set_pieces [dlmc delim] (default [] os) ind ind v in
  if MAX_STRLEN <? zlen r then op_setzp1 m a src delim expr ind = Err ERR_MAXSTRLEN
  else exists a' src' dst, op_setzp1 m a src delim expr ind = Ok (m ++ r, a', src', dst) /\
    area_ok (m ++ r) a' /\ str_opt (m ++ r) src' os /\ str_is (m ++ r) dst r.
Proof.
  intros Ha Hsrc Hex Hind r. unfold op_setzp1.
  destruct (setzp1_cut_ok m a src os delim ind Ha Hsrc Hind) as (a1 & src1 & i & cut & -> & Ha1 & Hs1 & Ead & Hcut & Hline).
  rewrite res_bind_ok. set (s := default [] os) in *. set (c := dlmc delim) in *.
  destruct Hcut as (Hp & Hd & Hsl & Hso & Heq). specialize (Heq v). fold r in Heq.
  pose proof Hex as (Ev & Hvmax & Hv).
  assert (zlen (sfx_bytes s cut) = sfx_str_len cut) as Esl.
  { unfold sfx_bytes. zcase; [|unfold zlen; simpl; lia]. unfold zlen in *. rewrite length_drop. lia. }
  assert (zlen (take (Z.to_nat (pfx_str_len cut)) s) = pfx_str_len cut) as Epl
    by (unfold zlen in *; rewrite length_take; lia).
  assert (zlen s <= MAX_STRLEN) as Hsm.
  { subst s. destruct src1, os as [s0|]; try done. by destruct Hs1 as (_ & ? & _). }
  assert (p_len expr + pfx_str_len cut + delim_cnt cut + sfx_str_len cut = zlen r) as Elen.
  { rewrite <- Heq, !zlen_app, Esl, Epl. unfold zlen at 1. rewrite length_replicate. lia. }
  rewrite Elen. unfold MAX_STRLEN in *. pose proof (zlen_nonneg (sfx_bytes s cut)). 
  assert (sfx_str_len cut <= zlen s) by (destruct (decide (0 < sfx_str_len cut)); lia).
  pose proof (zlen_nonneg r). assert (u64 (zlen r) = zlen r) as -> by (unfold u64; apply Z.mod_small; lia).
  zcase; [done|]. set (start := if src1 is Some s then p_addr s else 0).
  assert (s = [] \/ str_at m start s) as Hst.
  { subst s start. destruct src1, os as [s0|]; try done; [by destruct Hs1 as (_ & _ & ?)|by left]. }
  assert (forall t p, zlen t = 0 \/ (s <> [] -> str_at m p t) -> zlen t <= zlen s -> t = [] \/ str_at m p t) as Hpart.
  { intros t p Ht Hl. destruct Ht as [?|Ht]; [left; by apply zlen_0|]. destruct (decide (s = [])) as [Es|]; [left|by right; auto].
    apply zlen_0. rewrite Es in Hl. pose proof (zlen_nonneg t). unfold zlen in *. simpl in Hl. lia. }
  assert ((if 0 <? pfx_str_len cut then memcpy m start (pfx_str_len cut) else Ok []) =
          Ok (take (Z.to_nat (pfx_str_len cut)) s)) as ->.
  { apply memcpy_if; [done|]. apply Hpart; [right|lia]. intros Hn. destruct Hst; [done|auto with mem]. }
  assert ((if 0 <? p_len expr then memcpy m (p_addr expr) (p_len expr) else Ok []) = Ok v) as ->
    by by apply memcpy_if.
  assert ((if 0 <? sfx_str_len cut then memcpy m (start + sfx_start_offset cut) (sfx_str_len cut) else Ok []) =
          Ok (sfx_bytes s cut)) as ->.
  { apply memcpy_if; [done|]. apply Hpart; [|lia]. unfold sfx_bytes. zcase; [right|by left].
    intros Hn. destruct Hst as [|Hst]; [done|]. apply has_drop; [lia|done]. }
  rewrite !res_bind_ok, Heq.
  edestruct (setzp1_cache_ok (m ++ r) a1 i delim (cpy_cache_lines cut) s ind v
    {| p_addr := zlen m; p_len := zlen r; p_indx := FNPC_INDX_INVALID |} r) as (a2 & dst & -> & Ha2 & Hdst);
    [by apply area_ok_grow|lia|done|done|split_and!; [done|done|right; apply has_new]|apply has_new|].
  do 3 eexists. split; [done|]. split_and!; [done| |done].
  destruct src1, os; try done. by apply str_is_grow.
Qed.

(** ** SET $ZPIECE *)

Lemma op_cat2_ok m s1 s2 dst a b : str_is m s1 a -> str_is m s2 b ->
  if MAX_STRLEN <? zlen (a ++ b) then op_cat2 m s1 s2 dst = Err ERR_MAXSTRLEN
  else exists t dst', op_cat2 m s1 s2 dst = Ok (m ++ t, dst') /\ str_is (m ++ t) dst' (a ++ b).
Proof.
  intros (E1 & Hm1 & H1) (E2 & Hm2 & H2). unfold op_cat2. rewrite E1, E2, zlen_app.
  pose proof (zlen_nonneg a). pose proof (zlen_nonneg b). rewrite (proj2 (Z.ltb_ge _ (zlen a))) by lia. simpl orb.
  zcase; [done|]. rewrite !memcpy_ok, !res_bind_ok by done. destruct (Z.eqb_spec (p_addr s1 + zlen a) (zlen m)) as [He|].
  - do 2 eexists. split; [done|]. split_and!; simpl; [rewrite zlen_app; lia|rewrite zlen_app; lia|].
    assert (str_at (m ++ b) (p_addr s1) (a ++ b)); [|by right]. apply has_app. rewrite He. split; [|apply has_new].
    destruct H1 as [->|?]; [|auto with mem]. exists m, b. split; [done|]. unfold zlen in *. simpl in He. lia.
  - do 2 eexists. split; [done|]. split_and!; simpl; [by rewrite zlen_app|rewrite zlen_app; lia|right; apply has_new].
Qed.

Lemma off_add d ps n k : off d ps (n + k) = off d ps n + off d (drop n ps) k.
Proof. unfold off. rewrite <- zlen_app, <- pre_app. do 2 f_equal. by rewrite take_take_drop. Qed.

(** What the searches of op_setzpiece find: the delimiters to add, the length
    of the prefix and the place of the suffix. *)
Definition setzpiece_cut (d s : list Z) (f l : Z) (r : Z * Z * Z) : Prop :=
  let '(cnt, fsi, ssi) := r in
  0 <= cnt < 2147483648 /\ 0 <= fsi <= zlen s /\ ssi <= zlen s /\
  forall v, take (Z.to_nat fsi) s ++ concat (replicate (Z.to_nat cnt) d) ++ v ++
            (if 0 <=? ssi then drop (Z.to_nat ssi) s else []) = set_pieces d s f l v.

Lemma setzpiece_scan_ok m v0 del d s f l : d <> [] -> str_is m v0 s -> str_is m del d -> f <= l -> 1 <= l < 2147483648 ->
  exists cnt fsi ssi, setzpiece_scan m v0 del (Z.max 1 f - 1) (l - (Z.max 1 f - 1)) = Ok (cnt, fsi, ssi) /\
   setzpiece_cut d s f l (cnt, fsi, ssi).
Proof.
  intros Hd (El & Hmax & Hh) Hdel Hfl Hl. pose proof (str_is_has _ _ _ Hdel Hd) as Hpd. pose proof Hdel as (Ed & _).
  unfold setzpiece_scan. rewrite El, Ed. set (pd := p_addr del) in *. set (n := Z.max 1 f - 1).
  set (ps := pieces d s).
  pose proof (zlen_pos d Hd) as Hdl. pose proof (pieces_length d s) as Hpl. fold ps in Hpl.
  assert (joined d ps = s) as Ej by (by apply join_pieces).
  assert (ps <> []) as Hpn by (apply pieces_nonempty).
  assert (Href : forall v, set_pieces d s f l v = pre d (take (Z.to_nat n) ps) ++
     concat (replicate (Z.to_nat n - length ps) d) ++ v ++ suf d (drop (Z.to_nat l) ps))
    by (intros; apply set_pieces_pre; [done|lia]).
  destruct (decide (n < zlen ps)) as [Hn|Hn]; unfold zlen in Hn.
  - assert (exists q, (if negb (n =? 0) then matchb m (zlen d) pd (zlen s) (p_addr v0) n else Ok (p_addr v0, 1, n))
      = Ok (p_addr v0 + off d ps (Z.to_nat n), q, 0) /\ q <> 0) as (q & -> & Hq).
    { destruct (Z.eqb_spec n 0) as [->|]; simpl negb; cbv iota.
      - exists 1. rewrite off_0, Z.add_0_r. done.
      - rewrite matchb_pieces by (done || lia). fold ps. pose proof (off_nonneg d ps (Z.to_nat n)).
        eexists. split; [unfold zlen at 1; by zif_true|lia]. }
    rewrite res_bind_ok. cbv beta iota zeta. rewrite (proj2 (Z.eqb_neq q 0) Hq).
    destruct (has_rest m (p_addr v0) d s (Z.to_nat n)) as [Ht Htl]; [done|done|fold ps; lia|]. fold ps in Ht, Htl.
    set (t := joined d (drop (Z.to_nat n) ps)) in *.
    assert (pieces d t = drop (Z.to_nat n) ps) as Ept by (apply pieces_drop; [done|fold ps; lia]).
    replace (zlen s - (p_addr v0 + off d ps (Z.to_nat n) - p_addr v0)) with (zlen t) by lia.
    rewrite matchb_pieces by (done || lia). rewrite Ept, res_bind_ok.
    pose proof (off_nonneg d ps (Z.to_nat n)). pose proof (zlen_nonneg t).
    assert (take (Z.to_nat (off d ps (Z.to_nat n))) s = pre d (take (Z.to_nat n) ps)) as Etk
      by (rewrite <- Ej; apply take_off; lia).
    replace (p_addr v0 + off d ps (Z.to_nat n) - p_addr v0) with (off d ps (Z.to_nat n)) by lia.
    unfold zlen at 1. rewrite length_drop. zcase; cbv beta iota.
    + pose proof (off_nonneg d (drop (Z.to_nat n) ps) (Z.to_nat (l - n))).
      rewrite (proj2 (Z.eqb_neq (1 + _) 0)) by lia. do 3 eexists. split; [done|].
      replace (p_addr v0 + off d ps (Z.to_nat n) + off d (drop (Z.to_nat n) ps) (Z.to_nat (l - n)) - p_addr v0 - zlen d)
        with (off d ps (Z.to_nat l) - zlen d)
        by (replace (Z.to_nat l) with (Z.to_nat n + Z.to_nat (l - n))%nat by lia; rewrite off_add; lia).
      pose proof (off_le d ps (Z.to_nat l) ltac:(lia)) as Hle. rewrite Ej in Hle.
      pose proof (zlen_nonneg (joined d (drop (Z.to_nat l) ps))).
      assert (0 <= off d ps (Z.to_nat l) - zlen d)
        by (rewrite <- off_join by (done || lia); apply zlen_nonneg).
      split_and!; [lia|lia|lia|lia|lia|]. intros v. rewrite Href, Etk. zif_true.
      replace (Z.to_nat n - length ps)%nat with O by lia. do 3 f_equal. rewrite <- Ej. apply off_suffix. lia.
    + rewrite Z.eqb_refl. do 3 eexists. split; [done|]. split_and!; [lia|lia|lia|lia|pose proof (zlen_nonneg s); lia|]. intros v.
      rewrite Href, Etk. replace (Z.to_nat n - length ps)%nat with O by lia. by rewrite (drop_ge ps) by lia.
  - assert (n <> 0) as Hn0 by lia. rewrite (proj2 (Z.eqb_neq n 0) Hn0). simpl negb. cbv iota.
    rewrite matchb_pieces by (done || lia). fold ps. assert (zlen ps = Z.of_nat (length ps)) as -> by done.
    rewrite (proj2 (Z.ltb_ge n _)) by lia. rewrite res_bind_ok. cbv beta iota zeta. rewrite Z.eqb_refl.
    do 3 eexists. split; [done|]. replace (p_addr v0 + zlen s - p_addr v0) with (zlen s) by lia. pose proof (zlen_nonneg s).
    split_and!; [lia|lia|lia|lia|lia|]. intros v. rewrite Href, (take_ge ps), (drop_ge ps) by lia.
    rewrite pre_join, Ej by done. rewrite (take_ge s) by (unfold zlen; lia).
    replace (Z.to_nat (n + 1 - Z.of_nat (length ps))) with (S (Z.to_nat n - length ps)) by lia.
    simpl concat. by rewrite <- !app_assoc.
Qed.

Lemma set_pieces_null s f l v : set_pieces [] s f l v = if 1 <? f then s ++ v else v.
Proof. done. Qed.

Lemma setzpiece_cut_none d f l : d <> [] -> f <= l -> 1 <= l < 2147483648 ->
  setzpiece_cut d [] f l (Z.max 1 f - 1, 0, -1).
Proof.
  intros Hd Hf Hl. split_and!; [lia|lia|lia|unfold zlen; simpl; lia|unfold zlen; simpl; lia|].
  intros v. rewrite set_pieces_pre by (done || lia). set (n := Z.to_nat (Z.max 1 f - 1)).
  assert (pieces d [] = [[]]) as -> by (rewrite pieces_unfold, split_at_nil by done; done).
  rewrite (drop_ge [[]]) by (simpl; lia).
  destruct n as [|n]; [done|]. change (take (S n) [@nil Z]) with (@nil Z :: take n []).
  rewrite pre_cons. unfold pre, suf. simpl. rewrite Nat.sub_0_r. replace (take n (@nil (list Z))) with (@nil (list Z)) by (by destruct n). simpl. by rewrite !app_nil_r, <- app_assoc.
Qed.

(** The result of the checks and of the copies of op_setzpiece. *)
Lemma setzpiece_build m src os del expr d v f l cnt fsi ssi :
  str_opt m src os -> str_is m del d -> d <> [] -> str_is m expr v ->
  setzpiece_cut d (default [] os) f l (cnt, fsi, ssi) ->
  let r := set_pieces d (default [] os) f l v in
  let src_addr := if src is Some s then p_addr s else 0 in
  let src_len := if src is Some s then p_len s else 0 in
  let tail_len := src_len - ssi in
  let str_len := u64 (p_len expr + (fsi + p_len del * cnt) + (if 0 <=? ssi then tail_len else 0)) in
  str_len = zlen r /\
  exists pfx sfx, (if negb (fsi =? 0) then memcpy m src_addr fsi else Ok []) = Ok pfx /\
    memcpy m (p_addr del) (p_len del) = Ok d /\ memcpy m (p_addr expr) (p_len expr) = Ok v /\
    (if 0 <=? ssi then memcpy m (src_addr + ssi) tail_len else Ok []) = Ok sfx /\
    pfx ++ concat (replicate (Z.to_nat cnt) d) ++ v ++ sfx = r.
Proof.
  intros Hsrc (Ed & Hdm & Hd) Hdn (Ev & Hvm & Hv) (Hc & Hf & Hs & Heq) r src_addr src_len tail_len str_len.
  specialize (Heq v). fold r in Heq. set (s := default [] os) in *.
  assert (src_len = zlen s /\ zlen s <= MAX_STRLEN /\ (s = [] \/ str_at m src_addr s)) as (El & Hm & Hh).
  { subst s src_len src_addr. destruct src, os; try done. split_and!; [done|done|by left]. }
  assert (forall n (t : list Z), length (concat (replicate n t)) = (n * length t)%nat) as Hrep.
  { induction n as [|n IH]; intros t; simpl; [done|]. by rewrite length_app, IH. }
  assert (zlen (take (Z.to_nat fsi) s) = fsi) as Ef by (unfold zlen in *; rewrite length_take; lia).
  assert (zlen (if 0 <=? ssi then drop (Z.to_nat ssi) s else []) = if 0 <=? ssi then tail_len else 0) as Et.
  { destruct (Z.leb_spec 0 ssi); [|done]. unfold tail_len, zlen in *. rewrite length_drop. lia. }
  assert (zlen d * cnt = zlen (concat (replicate (Z.to_nat cnt) d))) as Ec
    by (unfold zlen; rewrite Hrep; nia).
  assert (zlen r = p_len expr + (fsi + p_len del * cnt) + (if 0 <=? ssi then tail_len else 0)) as Er
    by (rewrite <- Heq, !zlen_app, Ef, Et, Ev, Ed, Ec; lia).
  split.
  - subst str_len. rewrite <- Er. unfold u64, MAX_STRLEN in *. apply Z.mod_small. split; [apply zlen_nonneg|].
    assert (zlen d * cnt <= 1048576 * 2147483648) by (pose proof (zlen_nonneg d); nia).
    assert ((if 0 <=? ssi then tail_len else 0) <= zlen s) by (destruct (Z.leb_spec 0 ssi); unfold tail_len; lia).
    rewrite Er, Ev, Ed. lia.
  - exists (take (Z.to_nat fsi) s), (if 0 <=? ssi then drop (Z.to_nat ssi) s else []). split_and!; [| | | |done].
    + destruct (Z.eqb_spec fsi 0) as [->|]; simpl negb; cbv iota; [by rewrite take_0|].
      rewrite <- Ef at 1. apply memcpy_ok. destruct Hh as [->|?]; [left; by rewrite take_nil|right; auto with mem].
    + rewrite Ed. by apply memcpy_ok.
    + rewrite Ev. by apply memcpy_ok.
    + destruct (Z.leb_spec 0 ssi); [|done]. rewrite <- Et. apply memcpy_ok.
      destruct Hh as [->|?]; [left; by rewrite drop_nil|right; apply has_drop; [lia|done]].
Qed.

Lemma op_setzpiece_ok m a src os del expr d v f l dst : area_ok m a -> str_opt m src os ->
  str_is m del d -> bytes_ok d -> str_is m expr v -> -2147483648 < f <= l -> 1 <= l < 2147483648 ->
  let r := set_pieces d (default [] os) f l v in
  if MAX_STRLEN <? zlen r then op_setzpiece m a src del expr f l dst = Err ERR_MAXSTRLEN
  else exists t a' src' dst', op_setzpiece m a src del expr f l dst = Ok (m ++ t, a', src', dst') /\
    area_ok (m ++ t) a' /\ str_opt (m ++ t) src' os /\ str_is (m ++ t) dst' r.
Proof.
  intros Ha Hsrc Hd Hb Hex Hf Hl r. unfold op_setzpiece. rewrite int4_ok, res_bind_ok by lia.
  replace (if f - 1 <? 0 then 0 else f - 1) with (Z.max 1 f - 1) by (destruct (Z.ltb_spec (f - 1) 0); lia).
  cbv zeta. rewrite int4_ok, res_bind_ok by lia. pose proof Hd as (Ed & _). pose proof Hex as (Ev & Hvm & _).
  assert (forall t, str_opt (m ++ t) src os) as Hgrow by (intros t; destruct src, os; try done; by apply str_is_grow).
  destruct (Z.eqb_spec (p_len del) 0) as [E0|E0].
  { assert (d = []) as -> by (apply zlen_0; lia). subst r. rewrite set_pieces_null.
    assert (forall a', a' = a -> exists t a' src' dst', Ok (m, a, src, expr) = Ok (m ++ t, a', src', dst') /\
      area_ok (m ++ t) a' /\ str_opt (m ++ t) src' os /\ str_is (m ++ t) dst' v) as Hval.
    { intros _ _. exists [], a, src, expr. rewrite app_nil_r. by split_and!. }
    destruct src as [v0|], os as [s|]; try done; simpl default.
    - destruct (Z.ltb_spec 1 f).
      + rewrite (proj2 (Z.eqb_neq (Z.max 1 f - 1) 0)) by lia. simpl negb. cbv iota.
        pose proof (op_cat2_ok m v0 expr dst s v Hsrc Hex) as Hcat. destruct (MAX_STRLEN <? zlen (s ++ v)); [by rewrite Hcat|].
        destruct Hcat as (t & dst' & -> & Hdst). exists t, a, (Some v0), dst'. split; [done|].
        split_and!; [by apply area_ok_grow|by apply str_is_grow|done].
      + rewrite (proj2 (Z.eqb_eq (Z.max 1 f - 1) 0)) by lia. rewrite (proj2 (Z.ltb_ge _ (zlen v))) by lia. by eapply Hval.
    - assert ((if 1 <? f then [] ++ v else v) = v) as -> by (by destruct (1 <? f)).
      rewrite (proj2 (Z.ltb_ge _ (zlen v))) by lia. by eapply Hval. }
  destruct (if src is Some _ then (l - (Z.max 1 f - 1) =? 1) && (p_len del =? 1) else false) eqn:E1.
  { destruct src as [v0|]; [|done]. zbool. destruct (single_byte m del d Hd Hb) as (c & -> & -> & Hc); [done|].
    rewrite res_bind_ok. pose proof (op_setzp1_ok m a (Some v0) os c expr v l Ha Hsrc Hex ltac:(lia)) as Hz.
    rewrite dlmc_byte in Hz by done.
    assert (set_pieces [c] (default [] os) l l v = r) as Er.
    { subst r. unfold set_pieces. by replace (Z.max 1 l) with (Z.max 1 f) by lia. }
    rewrite Er in Hz. cbv zeta in Hz. destruct (MAX_STRLEN <? zlen r); [done|].
    destruct Hz as (a' & src' & dst' & -> & Hz). by exists r, a', src', dst'. }
  clear E1. assert (d <> []) as Hdn by (intros ->; unfold zlen in Ed; simpl in Ed; lia).
  assert (exists cnt fsi ssi,
     (if src is Some s then setzpiece_scan m s del (Z.max 1 f - 1) (l - (Z.max 1 f - 1)) else Ok (Z.max 1 f - 1, 0, -1))
     = Ok (cnt, fsi, ssi) /\ setzpiece_cut d (default [] os) f l (cnt, fsi, ssi)) as (cnt & fsi & ssi & E & Hcut).
  { destruct src as [v0|], os as [s|]; try done.
    - apply setzpiece_scan_ok; [done|done|done|lia|done].
    - exists (Z.max 1 f - 1), 0, (-1). split; [done|]. apply setzpiece_cut_none; [done|lia|done]. }
  rewrite E, res_bind_ok. clear E. cbv beta iota.
  destruct (setzpiece_build m src os del expr d v f l cnt fsi ssi Hsrc Hd Hdn Hex Hcut)
    as [Hlen (pfx & sfx & E1 & E2 & E3 & E4 & Er)].
  fold r in Hlen, Er. rewrite Hlen. zcase; [done|].
  rewrite E1, E2, E3, E4, !res_bind_ok, Er. do 4 eexists. split; [done|].
  split_and!; [by apply area_ok_grow|apply Hgrow|split_and!; [done|lia|right; apply has_new]].
Qed.
