(* ===== verification/Piececount.v ===== *)
(** The refinement of $ZFIND and of $ZLENGTH with a delimiter to the functions
    of Piecespec: [op_fnzfind_ok], [op_fnzpopulation_ok]. *)

From stdpp Require Import base list numbers option tactics.
From Stdlib Require Import ZArith Lia.
From S2P Require Import Prelude Piecespec Piece Piecematch Piececache Pieceset.

Open Scope Z_scope.

(** ** $ZFIND *)

Lemma op_fnzfind_ok m src del s d f : str_is m src s -> str_is m del d -> -2147483648 <= f < 2147483648 ->
  op_fnzfind m src del f = Ok (find_from d s f).
Proof.
  intros (El & Hmax & Hs) (Ed & Hdm & Hd) Hf. unfold op_fnzfind, find_from. set (n := Z.max 0 (f - 1)).
  assert ((if 0 <? f then int4 (f - 1) else Ok 0) = Ok n) as ->.
  { destruct (Z.ltb_spec 0 f); [rewrite int4_ok by lia|]; unfold n; f_equal; lia. }
  rewrite res_bind_ok, Ed, El. destruct d as [|x d']; [unfold zlen; simpl; by rewrite int4_ok by lia|].
  set (d := x :: d') in *. pose proof (zlen_pos d ltac:(done)). destruct Hd as [|Hd]; [done|].
  rewrite (proj2 (Z.eqb_neq (zlen d) 0)) by lia. unfold MAX_STRLEN in *. zcase.
  - set (t := drop (Z.to_nat n) s). assert (zlen s - n = zlen t) as -> by (unfold t, zlen in *; rewrite length_drop; lia).
    assert (t = [] \/ str_at m (p_addr src + n) t) as Ht.
    { destruct Hs as [->|Hs]; [left; unfold t; by rewrite drop_nil|right; apply has_drop; [lia|done]]. }
    rewrite (matchb_pieces m (p_addr src + n) (p_addr del) d t 1) by (done || lia). rewrite res_bind_ok.
    rewrite (pieces_unfold d t) by done. destruct (cut_at d t) as [[a r]|]; [|done].
    pose proof (pieces_length d r). rewrite zlen_cons. change (Z.to_nat 1) with 1%nat.
    rewrite (off_S d _ 0 a), off_0 by done. pose proof (zlen_nonneg a).
    rewrite (proj2 (Z.ltb_lt 1 _)) by (unfold zlen; lia). cbv beta iota.
    rewrite (proj2 (Z.eqb_neq (1 + _) 0)) by lia. simpl negb. f_equal. lia.
  - by rewrite drop_ge, split_at_nil by (done || unfold zlen in *; lia).
Qed.

(** ** $ZLENGTH with a delimiter *)

Lemma zlen_pieces_pos d s : 1 <= zlen (pieces d s).
Proof. pose proof (pieces_length d s). unfold zlen. lia. Qed.

Lemma count_finds_ok fuel m src del s d u t n : d <> [] -> str_is m src s -> str_is m del d -> s = u ++ t ->
  (length t + 1 < fuel)%nat -> count_finds fuel m src del (1 + zlen u) n = Ok (n + zlen (pieces d t)).
Proof.
  intros Hd Hs Hdel. revert u t n. induction fuel as [|fuel IH]; intros u t n Es Hf; [lia|]. cbn [count_finds].
  pose proof (zlen_nonneg u). rewrite (proj2 (Z.eqb_neq (1 + zlen u) 0)) by lia. simpl negb. cbv iota.
  assert (zlen u <= MAX_STRLEN) by (destruct Hs as (_ & Hm & _); rewrite Es, zlen_app in Hm; pose proof (zlen_nonneg t); lia).
  unfold MAX_STRLEN in *. rewrite (op_fnzfind_ok m src del s d) by (done || lia). rewrite res_bind_ok.
  assert (find_from d s (1 + zlen u) = match cut_at d t with
            Some (a, _) => 1 + zlen (u ++ a ++ d) | None => 0 end) as ->.
  { unfold find_from. replace (Z.max 0 (1 + zlen u - 1)) with (zlen u) by lia.
    replace (Z.to_nat (zlen u)) with (length u) by (unfold zlen; lia). rewrite Es, drop_app_length. destruct d; [done|].
    destruct (cut_at _ t) as [[a r]|]; [|done]. rewrite !zlen_app. lia. }
  rewrite (pieces_unfold d t) by done. destruct (cut_at d t) as [[a r]|] eqn:E.
  - pose proof (split_at_len _ _ _ _ E). pose proof (zlen_pos d Hd). unfold zlen in H2.
    rewrite (IH (u ++ a ++ d) r); [rewrite zlen_cons; f_equal; lia| |lia].
    rewrite Es, (split_at_spec _ _ _ _ E), <- !app_assoc. done.
  - destruct fuel; [lia|]. simpl. done.
Qed.

Section count.
Context (m : list Z) (c : Z) (s : list Z).
Hypothesis Hn : s <> [].
Local Notation "'PS'" := (pieces [c] s).
Local Notation "'OF'" := (offz c s).

(** [N] pieces start inside of the string. *)
Definition inside (N : Z) : Prop := 1 <= N /\ OF (N - 1) < zlen s /\ zlen s <= OF N.

Lemma inside_count N p x : inside N -> str_at m p s -> rd8 m (p + zlen s - 1) = Ok x ->
  (if c =? x then N + 1 else N) = zlen PS.
Proof.
  intros (HN & Hr & He) Hh Hx. destruct (offz_inside c s (N - 1)) as (q & Eq & En); [lia|done|].
  replace (N - 1 + 1) with N in En by lia. pose proof (offz_max c s N) as Hmx.
  destruct (offz_has m p c s Hh (N - 1) q ltac:(lia) Eq) as (Hq & Hcq & Hlen). pose proof (lookup_lt_Some _ _ _ Eq) as Hlt.
  replace (S (Z.to_nat (N - 1))) with (Z.to_nat N) in * by lia.
  destruct (decide (OF N = zlen s)) as [E|E].
  - assert (zlen (suf [c] (drop (Z.to_nat N) PS)) = 1) as El by lia.
    destruct (drop (Z.to_nat N) PS) as [|t ts] eqn:Ed; [done|].
    assert (suf [c] (t :: ts) = c :: t ++ suf [c] ts) as Es by done. rewrite Es in *.
    apply has_app in Hq as [_ Hq]. apply has_cons in Hq as [Hx' _].
    replace (p + OF (N - 1) + zlen q) with (p + zlen s - 1) in Hx' by lia. rewrite Hx in Hx'. injection Hx' as ->.
    rewrite Z.eqb_refl. rewrite zlen_cons, zlen_app in El. pose proof (zlen_nonneg t).
    assert (ts = []) as ->.
    { destruct ts as [|t2 ts]; [done|]. assert (suf [c] (t2 :: ts) = c :: t2 ++ suf [c] ts) as E2 by done.
      rewrite E2, zlen_cons in El. pose proof (zlen_nonneg (t2 ++ suf [c] ts)). lia. }
    assert (length (drop (Z.to_nat N) PS) = 1%nat) as Hl1 by (by rewrite Ed).
    rewrite length_drop in Hl1. unfold zlen. lia.
  - assert (suf [c] (drop (Z.to_nat N) PS) = []) as Esf by (apply zlen_0; lia).
    assert (length PS <= Z.to_nat N)%nat as Hge.
    { destruct (drop (Z.to_nat N) PS) as [|t ts] eqn:Ed; [|done].
      apply (f_equal length) in Ed. rewrite length_drop in Ed. simpl in Ed. lia. }
    assert (c <> x) as Hne.
    { rewrite Esf, app_nil_r in Hq. destruct (decide (q = [])) as [->|Hqn]; [unfold zlen in *; simpl in *; lia|].
      destruct (exists_last Hqn) as (q' & y & ->). apply has_app in Hq as [_ Hq]. apply has_cons in Hq as [Hy _].
      rewrite zlen_app in *. change (zlen [y]) with 1 in *.
      replace (p + OF (N - 1) + zlen q') with (p + zlen s - 1) in Hy by lia. rewrite Hx in Hy. injection Hy as ->.
      intros ->. apply Hcq. apply in_app_iff. right. by left. }
    rewrite (proj2 (Z.eqb_neq c x) Hne). unfold zlen. lia.
Qed.

Lemma count_beyond_ok fuel p k : str_at m p s -> 1 <= k -> OF (k - 1) < zlen s -> Z.max 0 (zlen s - OF k) < Z.of_nat fuel ->
  exists N, count_beyond fuel m (p + OF k) (p + zlen s) c k = Ok N /\ inside N.
Proof.
  intros Hh. revert k. induction fuel as [|fuel IH]; intros k Hk Hr Hf; [lia|]. cbn [count_beyond]. zcase.
  - destruct (scan_sfx_piece m p c s Hh k 0) as (lc & -> & _ & _ & Hinc); [lia|lia|]. rewrite res_bind_ok. cbv beta iota.
    replace (p + OF (k + 1) - 1 + 1) with (p + OF (k + 1)) by lia.
    apply IH; [lia|replace (k + 1 - 1) with k by lia; lia|lia].
  - exists k. split; [done|]. split_and!; [lia|done|lia].
Qed.

(** The count from a state of the cache with all the pieces that it can hold. *)
Lemma piece_count_cached fuel a src : (0 < fuel)%nat -> str_is m src s -> byte_ok c ->
  cached a src c s FNPC_ELEM_MAX ->
  exists N, piece_count fuel m a src c = Ok (a, src, N) /\ inside N.
Proof.
  intros Hf Hs Hc (l & Hi & Eat & Hline & Hnp & Hall). destruct fuel as [|fuel]; [lia|]. cbn [piece_count].
  pose proof Hs as (El & _). pose proof Hline as [_ Hcov]. rewrite dlmc_byte in * by done.
  rewrite (fnpc_valid_line a _ src c s l El eq_refl Hi Eat Hline), res_bind_ok. cbv beta iota.
  pose proof Hcov as (Hn80 & _ & Hrd). pose proof (str_is_has _ _ _ Hs Hn) as Hh. unfold FNPC_ELEM_MAX in *.
  assert (OF (npcs l - 1) < zlen s) as Hin by (eapply covers_inside; [exact Hcov|lia]).
  unfold rd8. rewrite (Hrd (npcs l)) by lia. simpl res_of. rewrite res_bind_ok, El. zcase.
  - exists (npcs l). split; [done|]. split_and!; [lia|done|done].
  - assert (npcs l = 80) as E80 by lia. rewrite E80 in *. simpl negb. cbv iota. rewrite (Hrd 80) by lia. simpl res_of.
    rewrite res_bind_ok. pose proof (has_bound _ _ _ Hh). pose proof (offz_nonneg c s 80).
    destruct (count_beyond_ok (S (length m)) (p_addr src) 80 Hh) as (N & -> & HN); [lia|done|unfold zlen in *; lia|].
    exists N. split; [done|exact HN].
Qed.

Lemma piece_count_ok a src : area_ok m a -> str_is m src s -> byte_ok c ->
  exists a' src' N, piece_count 3 m a src c = Ok (a', src', N) /\ inside N /\ area_ok m a' /\ str_is m src' s.
Proof.
  intros Ha Hs Hc. pose proof Hs as (El & _). remember 2%nat as fuel eqn:Ef.
  cbn [piece_count].
  destruct (op_fnzp1_ok m a src c FNPC_ELEM_MAX 0 s Ha Hs) as (a1 & src1 & dst & E1 & Ha1 & Hs1 & _ & _ & _ & Hca).
  specialize (Hca ltac:(done) Hn). destruct (piece_count_cached fuel a1 src1) as (N1 & E2 & HN1); [lia|done|done|done|].
  destruct (fnpc_valid_ok m a src c s Ha Hs Hn) as (v & -> & Hv). rewrite res_bind_ok. destruct v as [[i l]|].
  - destruct Hv as (Ei & Hi & Eat & _ & Hline). pose proof Hline as [_ Hcov]. rewrite dlmc_byte in Hcov by done.
    pose proof Hcov as (Hn80 & _ & Hrd). unfold rd8. rewrite (Hrd (npcs l)) by lia. simpl res_of.
    rewrite res_bind_ok, El. zcase.
    + assert (0 < npcs l) as Hpos.
      { destruct (decide (npcs l = 0)) as [E0|]; [|lia]. rewrite E0, offz_0 in *. pose proof (zlen_pos s Hn). lia. }
      exists a, src, (npcs l). split; [done|]. split; [|by split]. split_and!; [lia| |done].
      eapply covers_inside; [exact Hcov|lia].
    + destruct (Z.eqb_spec (npcs l) FNPC_ELEM_MAX) as [E80|]; simpl negb; cbv iota.
      * destruct (piece_count_cached (S fuel) a src) as (N & E & HN); [lia|done|done| |].
        { exists l. rewrite <- Ei, E80. rewrite dlmc_byte by done. unfold FNPC_ELEM_MAX. split_and!; [lia|lia|done|done|lia|left; lia]. }
        exists a, src, N. split; [|by split_and!]. rewrite <- E. cbn [piece_count].
        rewrite (fnpc_valid_line a _ src c s l El Ei Hi Eat Hline), res_bind_ok. cbv beta iota.
        unfold rd8. rewrite (Hrd (npcs l)) by lia. simpl res_of. rewrite res_bind_ok, El. zif_false.
        rewrite E80, Z.eqb_refl. done.
      * rewrite E1, res_bind_ok. cbv beta iota. exists a1, src1, N1. by split_and!.
  - rewrite E1, res_bind_ok. cbv beta iota. exists a1, src1, N1. by split_and!.
Qed.
End count.

Lemma op_fnzpopulation_ok m a src del s d : area_ok m a -> str_is m src s -> str_is m del d -> bytes_ok d ->
  exists a' src', op_fnzpopulation m a src del = Ok (a', src', count_pieces d s) /\ area_ok m a' /\ str_is m src' s.
Proof.
  intros Ha Hs Hd Hb. unfold op_fnzpopulation. pose proof Hs as (El & _). pose proof Hd as (Ed & _).
  assert (count_pieces d s = if decide (d = []) then 0 else zlen (pieces d s)) as -> by (by destruct d).
  zcase.
  2: { assert (s = []) as -> by (apply zlen_0; pose proof (zlen_nonneg s); lia). do 2 eexists. split; [|by split].
       do 2 f_equal. rewrite Ed. destruct d as [|x d]; [done|]. rewrite zlen_cons. pose proof (zlen_nonneg d).
       zif_true. simpl decide. rewrite pieces_unfold, split_at_nil by done. done. }
  assert (s <> []) as Hn by (intros ->; rewrite El in *; done).
  destruct (Z.eqb_spec (p_len del) 0) as [E0|E0].
  { assert (d = []) as -> by (apply zlen_0; lia). exists a, src. by split_and!. }
  assert (d <> []) as Hdn by (intros ->; unfold zlen in Ed; simpl in Ed; lia). rewrite decide_False by done.
  destruct (Z.eqb_spec (p_len del) 1) as [E1|E1].
  - destruct (single_byte m del d Hd Hb E1) as (c & -> & -> & Hc). rewrite res_bind_ok.
    destruct (piece_count_ok m c s Hn a src Ha Hs Hc) as (a' & src' & N & -> & HN & Ha' & Hs'). rewrite res_bind_ok.
    cbv beta iota. pose proof Hs' as (El' & _). pose proof (str_is_has _ _ _ Hs' Hn) as Hh.
    pose proof (has_bound _ _ _ Hh) as Hbd. pose proof (zlen_pos s Hn).
    destruct (rd_in_range m (p_addr src' + p_len src' - 1)) as [x Hx]; [lia|].
    unfold rd8. rewrite Hx. simpl res_of. rewrite res_bind_ok. exists a', src'. split; [|done]. do 2 f_equal.
    eapply inside_count; [done|exact Hh|]. unfold rd8. by rewrite <- El', Hx.
  - rewrite (count_finds_ok _ m src del s d [] s 0) by first [done | pose proof (has_bound _ _ _ (str_is_has _ _ _ Hs Hn)); unfold zlen in *; lia].
    rewrite res_bind_ok. exists a, src. by split_and!.
Qed.
