(* ===== verification/Piecerun.v ===== *)
(** Sequences of operations on cells that hold strings: [run] executes the
    operations of Piece on a table of cells, with the collector and the copies of
    cells between them; [ref_run] computes on the strings alone. *)

From stdpp Require Import base list numbers option tactics.
From Stdlib Require Import ZArith Lia.
From S2P Require Import Prelude Piecespec Piece Piecematch Piececache Pieceset Piececount.

Open Scope Z_scope.

(** [PPiece x y d f l] sets cell [x] to $ZPIECE(y,d,f,l); [PSet x y d v f l]
    sets it to what SET $ZPIECE(y,d,f,l)=v makes of [y].  The numbers [i] and
    [junk] are what is in a field [fnpc_indx] that the code does not set.  The
    generated code of SET $ZPIECE does not call op_setzpiece when [l] is below 1
    or below [f] (m_set.c).  [PGcol g] moves the strings to a pool that starts
    with other bytes [g]. *)
Inductive pcmd : Type :=
| PLit (x : nat) (s : list Z) (i : Z)
| PCopy (x y : nat)
| PPiece (x y d : nat) (f l junk : Z)
| PSet (x y d v : nat) (f l : Z)
| PLength (y d : nat)
| PFind (y d : nat) (f : Z)
| PGcol (g : list Z).

Record pstate := { ps_mem : list Z; ps_area : fnpc_area; ps_vars : list (option pmval) }.

Definition var_of {A} (vars : list (option A)) (x : nat) : res A :=
  match vars !! x with Some (Some v) => Ok v | _ => Err ERR_LVUNDEF end.

Definition dst_of (vars : list (option pmval)) (x : nat) (junk : Z) : pmval :=
  match vars !! x with Some (Some v) => v | _ => {| p_addr := 0; p_len := 0; p_indx := junk |} end.

Definition put_var {A} (x : nat) (v : A) (vars : list (option A)) : list (option A) := <[x := Some v]> vars.

(** The strings of the cells at new addresses. *)
Fixpoint move_strings (m m' : list Z) (vars : list (option pmval)) : res (list Z * list (option pmval)) :=
  match vars with
  | [] => Ok (m', [])
  | None :: vars => '(m', vars) ← move_strings m m' vars; Ok (m', None :: vars)
  | Some v :: vars =>
      s ← memcpy m (p_addr v) (p_len v);
      '(m2, vars) ← move_strings m (m' ++ s) vars;
      Ok (m2, Some {| p_addr := zlen m'; p_len := p_len v; p_indx := p_indx v |} :: vars)
  end.

Definition exec (st : pstate) (c : pcmd) : res (option Z * pstate) :=
  let m := ps_mem st in
  let a := ps_area st in
  let vars := ps_vars st in
  match c with
  | PLit x s i =>
      Ok (None, {| ps_mem := m ++ s; ps_area := a;
                   ps_vars := put_var x {| p_addr := zlen m; p_len := zlen s; p_indx := i |} vars |})
  | PCopy x y => v ← var_of vars y; Ok (None, {| ps_mem := m; ps_area := a; ps_vars := put_var x v vars |})
  | PPiece x y d f l junk =>
      src ← var_of vars y;
      del ← var_of vars d;
      '(a, src, dst) ← op_fnzpiece m a src del f l (dst_of vars x junk) junk;
      Ok (None, {| ps_mem := m; ps_area := a; ps_vars := put_var x dst (put_var y src vars) |})
  | PSet x y d v f l =>
      if (l <? 1) || (l <? f) then Ok (None, st)
      else
        del ← var_of vars d;
        expr ← var_of vars v;
        '(m, a, src, dst) ← op_setzpiece m a (vars !! y ≫= id) del expr f l (dst_of vars x 0);
        Ok (None, {| ps_mem := m; ps_area := a;
                     ps_vars := put_var x dst (if src is Some s then put_var y s vars else vars) |})
  | PLength y d =>
      src ← var_of vars y;
      del ← var_of vars d;
      '(a, src, n) ← op_fnzpopulation m a src del;
      Ok (Some n, {| ps_mem := m; ps_area := a; ps_vars := put_var y src vars |})
  | PFind y d f =>
      src ← var_of vars y;
      del ← var_of vars d;
      n ← op_fnzfind m src del f; Ok (Some n, st)
  | PGcol g =>
      '(m, vars) ← move_strings m g vars;
      Ok (None, {| ps_mem := m; ps_area := stp_gcol_fnpc a; ps_vars := vars |})
  end.

(** The same on strings. *)
Definition ref_exec (vals : list (option (list Z))) (c : pcmd) : res (option Z * list (option (list Z))) :=
  match c with
  | PLit x s _ => Ok (None, put_var x s vals)
  | PCopy x y => s ← var_of vals y; Ok (None, put_var x s vals)
  | PPiece x y d f l _ =>
      s ← var_of vals y; del ← var_of vals d; Ok (None, put_var x (range_pieces del s f l) vals)
  | PSet x y d v f l =>
      if (l <? 1) || (l <? f) then Ok (None, vals)
      else
        del ← var_of vals d;
        expr ← var_of vals v;
        let r := set_pieces del (default [] (vals !! y ≫= id)) f l expr in
        if MAX_STRLEN <? zlen r then Err ERR_MAXSTRLEN else Ok (None, put_var x r vals)
  | PLength y d => s ← var_of vals y; del ← var_of vals d; Ok (Some (count_pieces del s), vals)
  | PFind y d f => s ← var_of vals y; del ← var_of vals d; Ok (Some (find_from del s f), vals)
  | PGcol _ => Ok (None, vals)
  end.

(** A sequence of operations, with the numbers that they give. *)
Fixpoint steps {S : Type} (f : S -> pcmd -> res (option Z * S)) (st : S) (cs : list pcmd) : res (list Z * S) :=
  match cs with
  | [] => Ok ([], st)
  | c :: cs =>
      '(o, st) ← f st c;
      '(os, st) ← steps f st cs;
      Ok (option_list o ++ os, st)
  end.

Definition run := steps exec.
Definition ref_run := steps ref_exec.

Definition start (n : nat) : pstate := {| ps_mem := []; ps_area := fnpca_init; ps_vars := replicate n None |}.

(** The arguments: strings of bytes, integers of type int4, and no pair for
    which [last - (first - 1)] leaves int4. *)
Definition int4_range (z : Z) : Prop := -2147483648 <= z < 2147483648.
Definition cmd_ok (c : pcmd) : Prop :=
  match c with
  | PLit _ s _ => bytes_ok s /\ zlen s <= MAX_STRLEN
  | PPiece _ _ _ f l _ => -2147483648 < f /\ int4_range f /\ int4_range l /\ int4_range (l - Z.max 0 (f - 1))
  | PSet _ _ _ _ f l => -2147483648 < f /\ int4_range f /\ int4_range l
  | PFind _ _ f => int4_range f
  | PGcol g => bytes_ok g
  | _ => True
  end.
#[global] Instance cmd_ok_dec c : Decision (cmd_ok c).
Proof. destruct c; unfold cmd_ok, int4_range; apply _. Defined.

(** ** The simulation *)

Definition val_ok (m : list Z) (v : option pmval) (os : option (list Z)) : Prop :=
  str_opt m v os /\ (if os is Some s then bytes_ok s else True).

Definition sim (st : pstate) (vals : list (option (list Z))) : Prop :=
  area_ok (ps_mem st) (ps_area st) /\ Forall2 (val_ok (ps_mem st)) (ps_vars st) vals.

Lemma pieces_bytes d s : d <> [] -> bytes_ok s -> Forall bytes_ok (pieces d s).
Proof.
  intros Hd. revert s. refine (pieces_ind d _ Hd _ _); intros s; [intros E|intros a r E IH]; intros Hs;
    rewrite pieces_unfold, E by done; [by constructor|].
  rewrite (split_at_spec _ _ _ _ E) in Hs. apply Forall_app in Hs as [? [_ ?]%Forall_app]. constructor; auto.
Qed.

Lemma join_bytes d ps : bytes_ok d -> Forall bytes_ok ps -> bytes_ok (joined d ps).
Proof.
  intros Hd. induction 1 as [|p ps Hp Hps IH]; [by constructor|]. destruct ps as [|q ps]; [done|].
  rewrite joined_cons by done. apply Forall_app. split; [done|]. apply Forall_app. by split.
Qed.

Lemma range_pieces_bytes d s f l : bytes_ok d -> bytes_ok s -> bytes_ok (range_pieces d s f l).
Proof.
  intros Hd Hs. unfold range_pieces. destruct d as [|x d]; [by constructor|].
  apply join_bytes; [done|]. apply Forall_take, Forall_drop. by apply pieces_bytes.
Qed.

Lemma set_pieces_bytes d s f l v : bytes_ok d -> bytes_ok s -> bytes_ok v -> bytes_ok (set_pieces d s f l v).
Proof.
  intros Hd Hs Hv. unfold set_pieces. destruct d as [|x d]; [destruct (1 <? f); [by apply Forall_app|done]|].
  pose proof (pieces_bytes (x :: d) s ltac:(done) Hs). apply join_bytes; [done|].
  apply Forall_app. split; [by apply Forall_take|]. apply Forall_app.
  split; [apply Forall_replicate; constructor|]. constructor; [done|]. by apply Forall_drop.
Qed.

Lemma val_ok_grow m t v os : val_ok m v os -> val_ok (m ++ t) v os.
Proof. intros [H Hb]. split; [|done]. destruct v, os; try done. by apply str_is_grow. Qed.

Lemma vals_grow m t vars vals : Forall2 (val_ok m) vars vals -> Forall2 (val_ok (m ++ t)) vars vals.
Proof. intros H. eapply Forall2_impl; [|exact H]. intros. by apply val_ok_grow. Qed.

Lemma put_var_ok m x v s vars vals : Forall2 (val_ok m) vars vals -> str_is m v s -> bytes_ok s ->
  Forall2 (val_ok m) (put_var x v vars) (put_var x s vals).
Proof. intros H Hv Hs. apply Forall2_insert; [done|]. by split. Qed.

(** A cell whose string stays the same. *)
Lemma put_same_ok m y v s vars vals : Forall2 (val_ok m) vars vals -> var_of vals y = Ok s -> str_is m v s ->
  Forall2 (val_ok m) (put_var y v vars) vals.
Proof.
  intros H E Hv. unfold var_of in E. destruct (vals !! y) as [[s'|]|] eqn:Ey; try done. injection E as ->.
  rewrite <- (list_insert_id vals y (Some s) Ey). apply put_var_ok; [done|done|].
  destruct (Forall2_lookup_r _ _ _ _ _ H Ey) as (v' & _ & [_ Hb]). done.
Qed.

Lemma var_sim m vars vals x : Forall2 (val_ok m) vars vals ->
  match var_of vals x with
  | Ok s => exists v, var_of vars x = Ok v /\ str_is m v s /\ bytes_ok s
  | Err e => var_of vars x = Err e
  end.
Proof.
  intros H. unfold var_of. destruct (vals !! x) as [os|] eqn:E.
  - destruct (Forall2_lookup_r _ _ _ _ _ H E) as (v & -> & [Hs Hb]). destruct v, os; try done. by eexists.
  - destruct (vars !! x) as [v|] eqn:E'; [|done]. destruct (Forall2_lookup_l _ _ _ _ _ H E') as (s & Es & _). congruence.
Qed.

Lemma opt_sim m vars vals x : Forall2 (val_ok m) vars vals ->
  str_opt m (vars !! x ≫= id) (vals !! x ≫= id) /\ bytes_ok (default [] (vals !! x ≫= id)).
Proof.
  intros H. destruct (vals !! x) as [os|] eqn:E.
  - destruct (Forall2_lookup_r _ _ _ _ _ H E) as (v & -> & [Hs Hb]). simpl. split; [done|]. destruct os; [done|constructor].
  - destruct (vars !! x) as [v|] eqn:E'; [destruct (Forall2_lookup_l _ _ _ _ _ H E') as (s & Es & _); congruence|].
    split; [done|constructor].
Qed.

Lemma gcol_area m m' a : area_ok m a -> area_ok m' (stp_gcol_fnpc a).
Proof.
  intros (Hl & Hs & H). split_and!; simpl; [by rewrite length_map|lia|lia|]. intros i l E.
  rewrite list_lookup_fmap in E. destruct (fnpcs a !! i) as [l0|] eqn:E0; [|done]. injection E as <-.
  destruct (H i l0 E0) as [? [? _]]. split; [done|]. split; [done|]. simpl. lia.
Qed.

Lemma move_strings_ok m m' vars vals : Forall2 (val_ok m) vars vals ->
  exists t vars', move_strings m m' vars = Ok (m' ++ t, vars') /\ Forall2 (val_ok (m' ++ t)) vars' vals.
Proof.
  intros H. revert m'. induction H as [|v os vars vals [Hv Hb] H IH]; intros m'; simpl.
  { exists [], []. rewrite app_nil_r. by split. }
  destruct v as [v|], os as [s|]; try done.
  - destruct Hv as (El & Hm & Hs). rewrite El, memcpy_ok, res_bind_ok by done.
    destruct (IH (m' ++ s)) as (t & vars' & -> & Hf). rewrite res_bind_ok.
    exists (s ++ t). rewrite <- app_assoc in *. eexists. split; [done|]. constructor; [|done].
    split; [|done]. split_and!; [done|done|right]. simpl. rewrite app_assoc. apply has_grow, has_new.
  - destruct (IH m') as (t & vars' & -> & Hf). exists t. eexists. split; [done|]. by constructor.
Qed.

Lemma init_area : area_ok [] fnpca_init.
Proof.
  split_and!; [done|done|done|]. intros i l E. unfold fnpca_init in E. cbn [fnpcs] in E.
  rewrite list_lookup_fmap in E. destruct (seqZ 0 FNPC_MAX !! i) as [j|] eqn:Ej; [|done]. injection E as <-.
  apply lookup_seqZ in Ej as [-> _]. split; [simpl; lia|]. by split.
Qed.

Definition agrees (st : pstate) (c : pcmd) (r : res (option Z * list (option (list Z)))) : Prop :=
  match r with
  | Ok (o, vals') => exists st', exec st c = Ok (o, st') /\ sim st' vals'
  | Err e => exec st c = Err e
  end.

(** The cell of a variable whose value the reference reads. *)
Ltac read_var H y v s Hv Hb :=
  let E := fresh "E" in
  pose proof (var_sim _ _ _ y H) as E;
  destruct (var_of _ y) as [s|] eqn:?; [destruct E as (v & -> & Hv & Hb)|by rewrite E];
  rewrite !res_bind_ok.

Lemma exec_set st vals x y d v f l : sim st vals -> cmd_ok (PSet x y d v f l) ->
  agrees st (PSet x y d v f l) (ref_exec vals (PSet x y d v f l)).
Proof.
  intros [Ha Hf] (H1 & H2 & H3). unfold agrees, exec, ref_exec. destruct ((l <? 1) || (l <? f)) eqn:E; [by exists st|].
  zbool. read_var Hf d del ds Hd Hdb. read_var Hf v expr vs He Heb.
  destruct (opt_sim _ _ _ y Hf) as [Hy Hyb]. unfold int4_range in *.
  pose proof (op_setzpiece_ok (ps_mem st) (ps_area st) _ _ del expr ds vs f l (dst_of (ps_vars st) x 0) Ha Hy Hd Hdb He
    ltac:(lia) ltac:(lia)) as Hset. cbv zeta in Hset |- *.
  set (r := set_pieces ds (default [] (vals !! y ≫= id)) f l vs) in *. destruct (MAX_STRLEN <? zlen r); [by rewrite Hset|].
  destruct Hset as (t & a' & src' & dst' & -> & Ha' & Hs' & Hd'). rewrite res_bind_ok.
  eexists. split; [done|]. split; [done|]. simpl. apply put_var_ok; [|done|by apply set_pieces_bytes].
  destruct src' as [s|]; [|by apply vals_grow]. destruct (vals !! y ≫= id) as [ys|] eqn:Ey; [|done].
  eapply put_same_ok; [by apply vals_grow| |exact Hs']. unfold var_of. by destruct (vals !! y) as [[]|]; simplify_eq/=.
Qed.

Lemma exec_sim st vals c : sim st vals -> cmd_ok c -> agrees st c (ref_exec vals c).
Proof.
  intros Hsim Hc. destruct c as [x s i|x y|x y d f l junk|x y d v f l|y d|y d f|g]; try (by apply exec_set);
    destruct Hsim as [Ha Hf]; unfold agrees, exec, ref_exec.
  - destruct Hc as [Hb Hl]. eexists. split; [done|]. split; [by apply area_ok_grow|].
    apply put_var_ok; [by apply vals_grow| |done]. split_and!; [done|done|right; apply has_new].
  - read_var Hf y v s Hv Hb. eexists. split; [done|]. split; [done|]. by apply put_var_ok.
  - destruct Hc as (H1 & H2 & H3 & H4). unfold int4_range in *.
    read_var Hf y src s Hs Hsb. read_var Hf d del ds Hd Hdb.
    destruct (op_fnzpiece_ok (ps_mem st) (ps_area st) src del f l (dst_of (ps_vars st) x junk) junk s ds)
      as (a' & src' & dst' & -> & Ha' & Hs' & Hd'); [done..|lia|lia|lia|].
    rewrite res_bind_ok. eexists. split; [done|]. split; [done|].
    apply put_var_ok; [by eapply put_same_ok|done|by apply range_pieces_bytes].
  - read_var Hf y src s Hs Hsb. read_var Hf d del ds Hd Hdb.
    destruct (op_fnzpopulation_ok (ps_mem st) (ps_area st) src del s ds) as (a' & src' & -> & Ha' & Hs'); [done..|].
    rewrite res_bind_ok. eexists. split; [done|]. split; [done|]. by eapply put_same_ok.
  - read_var Hf y src s Hs Hsb. read_var Hf d del ds Hd Hdb.
    rewrite (op_fnzfind_ok (ps_mem st) src del s ds f) by done. rewrite res_bind_ok. by exists st.
  - destruct (move_strings_ok (ps_mem st) g (ps_vars st) vals Hf) as (t & vars' & -> & Hf').
    rewrite res_bind_ok. eexists. split; [done|]. split; [|done]. by eapply gcol_area.
Qed.

Lemma run_sim cs st vals : sim st vals -> Forall cmd_ok cs ->
  match ref_run vals cs with
  | Ok (os, vals') => exists st', run st cs = Ok (os, st') /\ sim st' vals'
  | Err e => run st cs = Err e
  end.
Proof.
  unfold run, ref_run. intros H Hc. revert st vals H. induction Hc as [|c cs Hc Hcs IH]; intros st vals H; simpl; [by exists st|].
  pose proof (exec_sim st vals c H Hc) as Hx. unfold agrees in Hx.
  destruct (ref_exec vals c) as [[o vals1]|e]; simpl; [|by rewrite Hx].
  destruct Hx as (st1 & -> & H1). simpl. specialize (IH st1 vals1 H1).
  destruct (steps ref_exec vals1 cs) as [[os vals2]|e]; simpl; [|by rewrite IH].
  destruct IH as (st2 & -> & H2). by exists st2.
Qed.

Lemma start_sim n : sim (start n) (replicate n None).
Proof. split; [apply init_area|]. simpl. induction n; simpl; constructor; [by split|done]. Qed.

(** What a cell of the table shows: the bytes of its string. *)
Definition shown (st : pstate) : list (option (res (list Z))) :=
  map (fmap (fun v => memcpy (ps_mem st) (p_addr v) (p_len v))) (ps_vars st).

Lemma sim_shown st vals : sim st vals -> shown st = map (fmap Ok) vals.
Proof.
  intros [_ H]. unfold shown. induction H as [|v os vars vals [Hv _] H IH]; simpl; [done|]. f_equal; [|done].
  destruct v, os; try done. destruct Hv as (El & _ & Hh). simpl. by rewrite El, memcpy_ok.
Qed.
