(* ===== verification/Pieceprops.v ===== *)
(** The theorems on the pieces of strings, with instances: the operations of
    Piece are those of Piecespec on the strings of the cells, whatever the cache
    holds, one by one and in sequences with the collector. *)

From stdpp Require Import base list numbers option tactics.
From Stdlib Require Import ZArith Lia.
From S2P Require Import Prelude Piecespec Piece Piecematch Piececache Pieceset Piececount Piecerun.

Open Scope Z_scope.

Local Arguments set_pieces : simpl never.

(** ** The pieces after SET $ZPIECE *)

Lemma pieces_after_set c s f v : 1 <= f -> ~ In c v ->
  pieces [c] (set_pieces [c] s f f v) =
  take (Z.to_nat (f - 1)) (pieces [c] s) ++ replicate (Z.to_nat (f - 1) - length (pieces [c] s)) [] ++
  v :: drop (Z.to_nat f) (pieces [c] s).
Proof.
  intros Hf Hv. unfold set_pieces. replace (Z.max 1 f) with f by lia. pose proof (pieces_1_no c s).
  apply pieces_1_join; [|by destruct (take _ _), (replicate _ _)].
  apply Forall_app. split; [by apply Forall_take|]. apply Forall_app.
  split; [apply Forall_replicate; simpl; tauto|]. constructor; [done|]. by apply Forall_drop.
Qed.

Lemma nth_piece_set c s f v g : 1 <= f -> 1 <= g -> ~ In c v ->
  nth_piece c (set_pieces [c] s f f v) g = if g =? f then v else nth_piece c s g.
Proof.
  intros Hf Hg Hv. unfold nth_piece. zif_false. rewrite pieces_after_set by done.
  set (ps := pieces [c] s). set (n := Z.to_nat (f - 1)).
  assert (length (take n ps ++ replicate (n - length ps) []) = n) as Hl
    by (rewrite length_app, length_take, length_replicate; lia).
  rewrite app_assoc. destruct (Z.eqb_spec g f) as [->|Hgf].
  - rewrite lookup_app_r by (rewrite Hl; unfold n; lia). rewrite Hl. unfold n. rewrite Nat.sub_diag. done.
  - set (i := Z.to_nat (g - 1)). destruct (decide (i < n)%nat).
    + rewrite lookup_app_l by (rewrite Hl; lia). destruct (decide (i < length ps)%nat).
      * rewrite lookup_app_l by (rewrite length_take; lia). by rewrite lookup_take_lt by lia.
      * rewrite lookup_app_r by (rewrite length_take; lia). rewrite (lookup_ge_None_2 ps) by lia.
        rewrite lookup_replicate_2 by (rewrite length_take; lia). done.
    + rewrite lookup_app_r by (rewrite Hl; lia). rewrite Hl.
      destruct (i - n)%nat as [|k] eqn:Ek; [unfold i, n in *; lia|]. simpl. rewrite lookup_drop. do 2 f_equal.
      unfold i, n in *. lia.
Qed.

(** ** Instances: the string a^bc^d, the delimiter and a value *)

Definition ex_bytes : list Z := [97; 94; 98; 99; 94; 100] ++ [94] ++ [120; 121].
Definition ex_src : pmval := {| p_addr := 0; p_len := 6; p_indx := 255 |}.
Definition ex_del : pmval := {| p_addr := 6; p_len := 1; p_indx := 255 |}.
Definition ex_val : pmval := {| p_addr := 7; p_len := 2; p_indx := 255 |}.

Lemma ex_area : area_ok ex_bytes fnpca_init.
Proof. apply (area_ok_grow [] ex_bytes), init_area. Qed.

Lemma ex_src_is : str_is ex_bytes ex_src [97; 94; 98; 99; 94; 100].
Proof. split_and!; [done|by vm_compute|right]. by exists [], [94; 120; 121]. Qed.

Lemma ex_del_is : str_is ex_bytes ex_del [94].
Proof. split_and!; [done|by vm_compute|right]. by exists [97; 94; 98; 99; 94; 100], [120; 121]. Qed.

Lemma ex_val_is : str_is ex_bytes ex_val [120; 121].
Proof. split_and!; [done|by vm_compute|right]. by exists [97; 94; 98; 99; 94; 100; 94], []. Qed.

Definition ex_cmds : list pcmd :=
  [PLit 0 [97; 94; 98; 99; 94; 100] 3; PLit 1 [94] 0; PLit 2 [120; 121] 200; PPiece 3 0 1 2 2 1; PLength 0 1;
   PSet 0 0 1 2 5 5; PPiece 4 0 1 3 5 9; PGcol [94; 0; 94]; PCopy 5 0; PPiece 3 5 1 5 5 2; PFind 0 1 3;
   PSet 5 3 1 2 3 2; PLength 0 1].

(** ** The theorems *)

(** C29: sequences of $ZPIECE, SET $ZPIECE, $ZLENGTH, $ZFIND, of copies of cells
    and of runs of the collector between them give, from the empty cache on,
    the numbers and leave the strings that the reference functions on lists of
    bytes give, and raise MAXSTRLEN where the reference does.  So no cell ever
    reads the pieces of another string through a line of the cache.  The calls
    are those of the compiled code: strings of at most a megabyte in byte
    mode, piece numbers of type int4 whose difference is one too, and no SET
    $ZPIECE whose last piece is below 1 or below the first, which the
    generated code skips; a sequence stops at a cell that does not exist,
    unless it is the source of a SET $ZPIECE. *)
Theorem piece_operations_refine n cs : Forall cmd_ok cs ->
  match ref_run (replicate n None) cs with
  | Ok (os, vals) => exists st, run (start n) cs = Ok (os, st) /\ shown st = map (fmap Ok) vals
  | Err e => run (start n) cs = Err e
  end.
Proof.
  intros Hc. pose proof (run_sim cs (start n) _ (start_sim n) Hc) as H.
  destruct (ref_run (replicate n None) cs) as [[os vals]|e]; [|done].
  destruct H as (st & E & Hst). exists st. split; [done|by apply sim_shown].
Qed.

Lemma piece_operations_refine_witness :
  Forall cmd_ok ex_cmds /\
  exists st, run (start 6) ex_cmds = Ok ([3; 6; 5], st) /\
    nth_error (shown st) 3 = Some (Some (Ok [120; 121])) /\
    nth_error (shown st) 0 = Some (Some (Ok [97; 94; 98; 99; 94; 100; 94; 94; 120; 121])).
Proof.
  assert (Forall cmd_ok ex_cmds) as H by by_compute. split; [exact H|].
  pose proof (piece_operations_refine 6 ex_cmds H) as P.
  destruct (ref_run (replicate 6 None) ex_cmds) as [[os vals]|e] eqn:E; vm_compute in E; [|discriminate E].
  injection E as <- <-. destruct P as (st & E & Hs). exists st. split; [exact E|]. rewrite Hs. split; reflexivity.
Defined.

(** C35: $ZPIECE of any string, delimiter and range of pieces is the text of
    those pieces with the delimiters between them, from any state of the cache
    that is valid, and leaves a valid state: with a line of the cell or without,
    with the scan resumed, and beyond the eighty pieces that a line holds. The
    piece numbers are int4, the difference that the code takes included. *)
Theorem zpiece_value m a src del f l dst junk s d :
  area_ok m a -> str_is m src s -> str_is m del d -> bytes_ok d ->
  -2147483648 < f < 2147483648 -> l < 2147483648 -> -2147483648 <= l - Z.max 0 (f - 1) ->
  exists a' src' dst', op_fnzpiece m a src del f l dst junk = Ok (a', src', dst') /\
    area_ok m a' /\ str_is m src' s /\ memcpy m (p_addr dst') (p_len dst') = Ok (range_pieces d s f l).
Proof.
  intros Ha Hs Hd Hb Hf Hl Hr.
  destruct (op_fnzpiece_ok m a src del f l dst junk s d) as (a' & src' & dst' & E & Ha' & Hs' & (El & _ & Hh)); try done.
  exists a', src', dst'. split_and!; [done|done|done|]. rewrite El. by apply memcpy_ok.
Qed.

Lemma zpiece_value_witness :
  exists a' src' dst', op_fnzpiece ex_bytes fnpca_init ex_src ex_del 2 2 ex_val 17 = Ok (a', src', dst') /\
    memcpy ex_bytes (p_addr dst') (p_len dst') = Ok [98; 99].
Proof.
  destruct (zpiece_value ex_bytes fnpca_init ex_src ex_del 2 2 ex_val 17 _ _ ex_area ex_src_is ex_del_is
    ltac:(by_compute) ltac:(lia) ltac:(lia) ltac:(lia)) as (a' & src' & dst' & E & _ & _ & Hd).
  exists a', src', dst'. split; [exact E|]. rewrite Hd. reflexivity.
Defined.

(** C39: after SET $ZPIECE of one piece with a delimiter of one byte that the
    value does not contain, whatever valid state the cache is in and the source
    undefined or any string, $ZPIECE of that piece of the result is the value, and
    of any other piece what it was in the source. *)
Theorem set_then_get m a src os del expr c v f dst :
  area_ok m a -> str_opt m src os -> str_is m del [c] -> byte_ok c -> str_is m expr v -> ~ In c v ->
  1 <= f < 2147483648 -> zlen (set_pieces [c] (default [] os) f f v) <= MAX_STRLEN ->
  exists m' a' src' dst', op_setzpiece m a src del expr f f dst = Ok (m', a', src', dst') /\
  forall g dst0 junk, 1 <= g < 2147483648 ->
  exists a2 cell out, op_fnzpiece m' a' dst' del g g dst0 junk = Ok (a2, cell, out) /\
    memcpy m' (p_addr out) (p_len out) = Ok (if g =? f then v else range_pieces [c] (default [] os) g g).
Proof.
  intros Ha Hsrc Hd Hc He Hv Hf Hl. assert (bytes_ok [c]) as Hb by (by constructor).
  pose proof (op_setzpiece_ok m a src os del expr [c] v f f dst Ha Hsrc Hd Hb He ltac:(lia) ltac:(lia)) as H.
  cbv zeta in H. rewrite (proj2 (Z.ltb_ge _ _)) in H by exact Hl.
  destruct H as (t & a' & src' & dst' & E & Ha' & _ & Hdst). exists (m ++ t), a', src', dst'. split; [exact E|].
  intros g dst0 junk Hg.
  destruct (op_fnzpiece_ok (m ++ t) a' dst' del g g dst0 junk _ [c] Ha' Hdst (str_is_grow _ _ _ _ Hd) Hb)
    as (a2 & cell & out & E2 & _ & _ & (El & _ & Hh)); [lia|lia|lia|].
  exists a2, cell, out. split; [exact E2|]. rewrite El, memcpy_ok by done. f_equal.
  rewrite !range_pieces_1 by lia. apply nth_piece_set; [lia|lia|done].
Qed.

Lemma set_then_get_witness :
  exists m' a' src' dst', op_setzpiece ex_bytes fnpca_init (Some ex_src) ex_del ex_val 2 2 ex_val = Ok (m', a', src', dst') /\
  exists a2 cell out, op_fnzpiece m' a' dst' ex_del 3 3 ex_val 0 = Ok (a2, cell, out) /\
    memcpy m' (p_addr out) (p_len out) = Ok [100].
Proof.
  assert (~ In 94 [120; 121]) as Hn by (simpl; lia).
  destruct (set_then_get ex_bytes fnpca_init (Some ex_src) (Some [97; 94; 98; 99; 94; 100]) ex_del ex_val 94 [120; 121]
    2 ex_val ex_area ex_src_is ex_del_is ltac:(by_compute) ex_val_is Hn ltac:(lia) ltac:(by vm_compute))
    as (m' & a' & src' & dst' & E & Hg).
  exists m', a', src', dst'. split; [exact E|].
  destruct (Hg 3 ex_val 0 ltac:(lia)) as (a2 & cell & out & E2 & H). exists a2, cell, out. split; [exact E2|].
  rewrite H. reflexivity.
Defined.
